(* ===== verification/_CoqProject ===== *)
-Q . S2P
Prelude.v
Text.v
Float64.v
Duration.v
Xml.v
DomainXml.v
Types.v
Ipv4.v
Ip.v
Network.v
Xdr.v
Machine.v
Firewall.v
Netstate.v
Fence.v
Prog.v
Pool.v
FenceRuns.v
Db.v
Instances.v
Accounts.v
Runners.v
Placement.v
Images.v
Store.v
ControlPlane.v
Http.v
Auth.v
AuthRuns.v
Proxy.v
Gateway.v
Lifecycle.v
LifecycleOrder.v
Adapters.v
Dispatch.v
DispatchRuns.v
DispatchSync.v
Fleet.v
Terminal.v
Ssh.v
SshRuns.v
ImageStore.v
Runnerd.v
ImageStoreRuns.v
Config.v
Cli.v
CliRuns.v
Api.v
ApiRuns.v
Backend.v
BackendRuns.v
Rpc.v
RpcRuns.v
Hypervisor.v
HypervisorRuns.v
X509.v
TlsCert.v
TlsCertRuns.v
Cloudflare.v
HostCheck.v
CloudInit.v
CloudInitRuns.v
HostInfo.v
PageText.v
Pages.v
PagesRuns.v
Metrics.v
Assets.v
Daemon.v
DaemonRuns.v
Monitor.v
MonitorRuns.v
Migrate.v
