(* ===== verification/Prelude.v ===== *)
(** * Bento: a verification library for its control plane

    Bento (crates under [crates/], daemons [bentod] and [bento-monitor]) hosts
    virtual machines for several users on one or more machines.  A controller
    keeps all state in one SQLite database ([crates/store]), plans the network
    of every machine ([crates/network]), builds and runs instances
    ([crates/lifecycle]) and sends orders to the runner service of each
    machine ([crates/runner]), which talks to libvirt ([crates/hypervisor]).
    Visitors come in through a proxy ([crates/proxy]) that asks the sign-in
    service ([crates/auth]) who may see an instance.  This library models
    these parts, proves what each promises, and joins them where they meet.
    Users work with their instances over SSH ([crates/sshfront], with the
    command line of [crates/cli]) and over HTTP ([crates/api]).

    ** Files, and the code they model

    - [Prelude]: results ([Result]), code that changes a state and may stop
      with an error ([ST]), machine integers, loops, sorting; tactics and hint
      databases.  [Text]: the string functions of the standard library the
      code calls.  [Float64]: the binary64 operations of placement, over the
      standard library's specification floats.
    - [Xml], [DomainXml]: [crates/hypervisor/src/xml.rs]; the checker
      ([validate_xml]), escaping, and the domain document ([domain_xml]).
    - [Types]: [crates/types/src/lib.rs]; the records and string enums.
    - [Ipv4]: addresses, and [Ipv4Prefix] of [crates/config/src/lib.rs].
      [Ip]: IPv6 and socket addresses as text.  [Duration]:
      [crates/config/src/duration.rs].  [Config]: the configuration file of
      [crates/config/src/lib.rs], its defaults and its validation.
    - [Network]: [crates/network/src/{slot,subnet,mac,lib}.rs]; one [/24] per
      user, runner slots inside it, the two allocators (over the interfaces
      [SubnetStore] and [AddressStore]), MAC addresses.
    - [Machine]: [machine.rs] and [routes.rs]; the description of one
      machine's network, its checks, its routes, and [converge] over the
      [RouteApplier] interface.
    - [Firewall]: [nftables.rs]; [Ruleset::render] as data and as text, with
      the meaning nftables gives the rules it emits.
    - [Xdr]: [crates/hypervisor/src/xdr.rs].
    - [Fence]: [crates/runner/src/{protocol,fence,store,lib,server}.rs]; what
      a runner remembers ([FenceStore], implemented by [SqliteFence]), what it
      admits ([admit_as]), and [serve_one] over the [Host] interface.
      [FenceRuns]: the same request as a program of single store statements
      ([admit_calls], [serve_calls]; alone it is [serve_one],
      [alone_is_serve_one]), and a runner with any number of requests in
      flight, each statement of each a step of its own ([runner_step]), with
      failing statements and restarts.
    - [Db]: [crates/store/src/{lib.rs,schema.sql,migrate.rs}]; the tables as
      finite maps keyed by their primary keys, the schema's constraints
      ([wf_db]), statements and transactions ([with_tx] rolls back).
      [Migrate]: [migrate.rs]; the numbered migrations on what they touch, and
      [apply].
    - [Instances] ([names.rs], [instances.rs], [shares.rs]), [Accounts]
      ([users.rs], [sshkeys.rs], [tokens.rs], [pairings.rs]), [Runners]
      ([hosts.rs], [runners.rs]), [Placement] ([choose_host], [weigh_host]),
      [Images] ([images.rs]): one definition per function of [Store], a [Tx]
      each, with every clock reading an argument.
    - [Store]: every operation that writes as one alphabet [Op], and [Trace],
      any sequence of them under a clock that does not go back.
    - [ControlPlane]: the store's leases and generations and the runner's
      fence together.
    - [Prog]: programs as finite trees of calls; [always] speaks of every run,
      whatever is answered, [run] of the run against a handler with a state.
      [Pool]: several programs that run at the same time, and per-call
      reasoning about every run ([after]).
    - [Http]: what the web-facing crates use of [http], [url] and their kin,
      as an interface with laws ([HttpLib]) and an instance.
    - [Auth]: [crates/auth/src]; every method of [Service] as a program over
      [acall], one call per method of its traits.  [AuthRuns]: what holds in
      every run of them.
    - [Proxy]: [crates/proxy/src/{lib,pages}.rs]; the builder,
      [handle_connection], [forward], [send_upgradable] over [pcall].
    - [Lifecycle]: [crates/lifecycle/src]; every operation of [Manager] as a
      program over [lcall] (store, machines, images, files).
      [LifecycleOrder]: the order of their effects and what they undo.
    - [Gateway] and [Adapters]: [bentod/src/adapters.rs]; the calls of [Auth],
      [Proxy] and [Lifecycle] answered by the store's own operations.
    - [Netstate]: [bentod/src/netstate.rs]; the network each machine should
      have, computed from the database.
    - [Dispatch]: [bentod/src/runners.rs] and [crates/runner/src/client.rs];
      what the controller tells the runners, over [dcall].  [DispatchRuns] and
      [DispatchSync]: its runs, interleaved, against a database and runners.
    - [Fleet]: [RunnerFleet] of [bentod/src/adapters.rs].
    - [Runnerd]: [bentod/src/runnerd.rs]; the [Host] of a runner over its
      machine ([RunnerWorld]), with [network/src/libvirt.rs].
    - [ImageStore]: [crates/images/src]; fetching, building, collecting and
      overlays, over [icall].  [ImageStoreRuns]: what the directory holds.
    - [Terminal], [Ssh]: [crates/sshfront/src]; text of a session, and the
      frontend over [scall].  [SshRuns]: what a connection can reach.
    - [Cli]: [crates/cli/src]; one program per command over [ccall].
      [CliRuns]: every run of every command, and the flags.
    - [Api]: [crates/api/src/{lib,instances,misc,interfaces}.rs]; one program
      per route over [acall].  [ApiRuns]: every run of every route.
    - [Backend]: [Backend], [CliBackend], [ApiBackend] and [ApiStore] of
      [bentod/src/adapters.rs]; the calls of [Cli] and [Api] as programs over
      the manager, the store and the firewall ([interp]).  [BackendRuns]: the
      two interfaces on top of them.
    - [Rpc]: [crates/hypervisor/src/rpc.rs]; packets, calls, the handshake and
      the pool of one libvirt connection, over a socket.  [RpcRuns]: its runs.
    - [Hypervisor]: [crates/hypervisor/src/{client,fake,lib,error}.rs]; each
      operation of [LibvirtClient] as a program over the remote procedures
      (module [Client]), and the in-memory [FakeLibvirt] (module [Fake]).
      [HypervisorRuns]: their runs, against any daemon with [LibvirtLaws].
    - [X509]: [crates/tlscert/src/x509.rs].  [TlsCert]:
      [crates/tlscert/src/lib.rs]; obtaining, storing, loading and renewing
      certificates over [tcall].  [TlsCertRuns]: their runs.  [Cloudflare]:
      [crates/tlscert/src/cloudflare.rs]; the DNS records of challenges.
    - [HostCheck]: [crates/hypervisor/src/check.rs]; what a machine must
      have before the daemon starts.  [HostInfo]: [crates/hostinfo/src/lib.rs].
    - [CloudInit]: [crates/cloudinit/src/{seed,builder}.rs]; the documents of
      a seed image, its checks and its writing.  [CloudInitRuns]: what a guest
      reads.
    - [PageText]: texts, messages, bars and terminal frames of the dashboard.
      [Pages]: [crates/api/src/pages]; one program per route over [gcall], up
      to the values its templates are given.  [PagesRuns]: their runs.
    - [Metrics]: [bentod/src/metrics.rs]; the series behind the charts and a
      [tick] over [mcall].  [Assets]: [crates/dashboard/src/lib.rs].
    - [Daemon]: [bentod/src/{serve,ops,firewall,keys,setup}.rs]; [serve] from
      its lease to its end, the firewall's reload, key files and the commands
      of the operator, over [ocall], [fcall] and [kcall].  [DaemonRuns]: their
      runs.
    - [Monitor]: [bento-monitor/src]; the state of the operator's screen, its
      keys, the commands it offers and the loop around them, over [xcall].
      [MonitorRuns]: every session.

    ** What the theorems show

    - One controller at a time: leases exclude each other, epochs and
      generations only grow ([Store]); a runner that has accepted a newer
      epoch or a newer generation refuses every request under an older one
      that it begins on afterwards, and carries out no change again that it
      has answered, in any interleaving of the statements of its requests,
      through failures and restarts; what is not promised, a request that was
      already in flight and two overlapping deliveries of one request, is
      shown to happen ([FenceRuns]); both ends joined ([ControlPlane]).
    - The network: slots partition a user network, allocators return the
      least free choice or report exhaustion exactly ([Network], [Accounts]);
      routes lead to the owner of every remote address and to no other place,
      and [converge] installs exactly the routes of a checked description,
      and succeeds with a kernel that does what it is asked ([Machine]); the rendered forward
      chain is the isolation policy, rule for rule ([Firewall]).
    - Slots: changing the runner prefix and handing over a slot never move an
      address or a guest to another host ([Runners], [Store]); no operation of
      a controller puts an instance where its slot is not ([Adapters]).
    - The store: constraints hold in every history; a released name is kept
      for its owner during the cooldown; the host ceilings hold; what is
      written is read back; deletions are allowed exactly for what is unused;
      a new instance goes to a least loaded host ([Placement]); an upgrade
      that was cut off resumes where it stopped ([Migrate]).
    - Lifecycle: a create, copy or rename that fails is undone; a stop is
      remembered before it is tried; every machine that should run is started
      at boot, and waiting for it ends ([LifecycleOrder]).
    - Visitors: a login proves who it is and leads home, a key is linked only
      by a confirmation, cookies survive the browser and never make the
      service panic ([AuthRuns]); requests reach a guest only when permitted,
      with honest headers, and hidden names answer alike ([Proxy]); joined
      with the rows: what reaches a guest, ownership or a share allows
      ([Gateway]).
    - Machines: the described network lets the frontends reach exactly what is
      published ([Netstate]); every number a runner holds is one the
      database answered to a task of the controller, in any interleaving
      ([DispatchRuns]); a machine is told
      its network once per boot ([DispatchSync]); a machine answers ARP for
      other machines only when its routes are there ([Runnerd]); an instance
      is built on its own machine and a failed build leaves no file
      ([Fleet]).
    - Virtual machines: a packet read is the packet that was sent, a request
      goes out at most once and is answered by its own reply as long as the
      socket is in step, and a socket out of step never recovers ([RpcRuns]);
      a stop asks, waits as long as it may, then forces; a create that fails
      leaves no machine; the client behaves as the in-memory fake the other
      crates are tested with, but for a guest that goes off by itself between
      two of its calls ([HypervisorRuns]).
    - Certificates: DNS records set for a challenge are removed whatever
      fails, what is served is what was stored, and it covers exactly the
      hosts of the deployment ([TlsCertRuns]); the search for a zone ends at the name
      or its parents ([Cloudflare]); an expiry is read as it was written
      ([X509]).
    - Seeds and hosts: no value of a request adds a line to the documents of a
      seed ([CloudInitRuns]); the daemon starts exactly when no required check
      failed ([HostCheck]); a machine has an identity of its own
      ([HostInfo]).
    - Images: a file's name is the checksum of what it holds, whatever fails
      and whoever else acts, and a pinned image is the pinned one; after a
      power cut, which loses what was not synced, that still holds of what a
      runner fetched, and not of what the controller did
      ([store_fetch_not_durable]) ([ImageStoreRuns]).
    - Users: an SSH connection reaches a guest only with a linked key and
      access, ends once, and waits within its budget ([SshRuns]); commands and
      requests act only on what their user owns or may use, and their lists
      show exactly that ([CliRuns], [ApiRuns]); what a user was told is done, the firewall has, and a
      refusal of the store reaches the client as what it is ([BackendRuns]).
    - The dashboard: a page acts for the signed-in user only, on what that
      user owns or may use; settings are applied in order up to the first
      failure, and a form sent back unchanged changes nothing ([PagesRuns]);
      a message survives its redirect, bars and close frames fit
      ([PageText]); series stay bounded and follow the rows of the store
      ([Metrics]); no request leaves the asset tree ([Assets]).
    - The process: nobody can connect before everything is in place, and the
      lease is given back however [serve] ends; the remembered firewall is the
      loaded one; a restore keeps a copy; "converged" means one checksum
      everywhere ([DaemonRuns]).
    - The operator's screen: no command runs that was not shown and confirmed,
      each asks for root where it needs it, what is shown is what a shell
      would run, a restore offers the newest copy, and the fleet table agrees
      with placement ([MonitorRuns]).
    - Configuration: what is accepted is consistent ([Config]); durations are
      read back as they were written ([Duration]).
    - Codecs: prefixes and XDR values survive a round trip, XDR reads stay in
      bounds, a domain document says what was asked and nothing else.

    ** Parameters and hypotheses

    Code outside the repository is a parameter with the law the code relies
    on: RFC 3339 text ([TimeFormat]: what was written is read back), SHA-256
    (32 bytes), the kernel's routing table ([RouteTable]), JSON, the host
    behind the runner, HTTP headers, URLs and percent-encoding ([HttpLib]),
    a libvirt daemon whose guests power themselves off at any time and which
    undefines a domain only with the flags for all it owns ([LibvirtLaws]), PEM
    files, key pairing and calendar
    dates of certificates.
    SQLite is modelled as its documentation describes it: a statement that
    would break a constraint fails, a transaction that fails leaves nothing;
    the runner's [SqliteFence] may fail at any statement (a schedule of
    faults).  Each law has an instance that the witnesses use.
    All definitions are executable and total.  Recursion is over lists and
    ranges bounded by the code's own bounds, except these loops on fuel: the
    scanners of [Xml] (the length of the document, which is enough because
    each step consumes a character, [validate_xml_total]), the batches of
    [Lifecycle.restore] (the number of instances) and [wait_loop] (the
    attempts that fit into the timeout, [wait_running_decides]), and the
    session loops of [Ssh], which end when the other side acts ([None] is a
    session still open), [Rpc.read_reply] and the loops that poll a service
    ([Waiting], [Unfinished] and [StillPolling] say that the other side has
    not answered yet; for a stop the attempts that fit into the timeout are
    enough, [polls_enough]), the turns of the renewal loop, and
    [Cloudflare.find_zone] (the labels of the name, [find_zone_ends]), and
    [Monitor.find_up] (the segments of a path, [find_up_enough]).

    ** Not modelled

    I/O (sockets, processes, files, the HTTP and SSH servers), the async
    runtime (operations of the controller's store are atomic, as the one
    connection behind a mutex makes them, single statements of the runner's
    store are; other interleavings are covered by [always], [Pool] and
    [runner_step]), serde, TOML, log lines, the HTML the
    templates make of a page's values, the OIDC provider client, the ACME
    protocol client (a service that [TlsCert] calls), the figures of
    [crates/api/src/placeholder.rs], the account adapters of [bentod], its
    router construction and the start of its other services ([proxyd.rs],
    [sshd.rs], [main.rs]), and the drawing of [bento-monitor].  What is
    left there is I/O, rendering and wiring around libraries.

    ** Plan

    Next: the account adapters of [bentod] over [Accounts]. *)

From Stdlib Require Import ZArith Lia.
From stdpp Require Export base gmap strings list numbers sets.

(** ** Results

    Rust's [Result<T, E>], with the error type first so that [result E] is a
    monad.  [x ← c; k] is the [?] operator: it stops at the first error. *)

Inductive result (E A : Type) : Type :=
  | Ok (a : A)
  | Err (e : E).
Arguments Ok {E A} a.
Arguments Err {E A} e.

#[global] Instance result_ret {E} : MRet (result E) := fun A a => Ok a.
#[global] Instance result_bind {E} : MBind (result E) :=
  fun A B f m => match m with Ok a => f a | Err e => Err e end.
#[global] Instance result_fmap {E} : FMap (result E) :=
  fun A B f m => match m with Ok a => Ok (f a) | Err e => Err e end.

#[global] Instance result_eq_dec {E A} `{EqDecision E, EqDecision A} :
  EqDecision (result E A).
Proof. solve_decision. Defined.

Definition is_ok {E A} (r : result E A) : bool :=
  match r with Ok _ => true | Err _ => false end.

(** [Option::ok_or]. *)
Definition ok_or {E A} (o : option A) (e : E) : result E A :=
  match o with Some a => Ok a | None => Err e end.

(** [Result::map_err]. *)
Definition map_err {E F A} (f : E -> F) (r : result E A) : result F A :=
  match r with Ok a => Ok a | Err e => Err (f e) end.

(** [if cond { return Err(e) }]. *)
Definition refuse_if {E} (cond : bool) (e : E) : result E unit :=
  if cond then Err e else Ok tt.

Lemma Ok_inj {E A} (a b : A) : @Ok E A a = Ok b -> a = b.
Proof. by intros [=]. Qed.

Lemma bind_Ok {E A B} (m : result E A) (f : A -> result E B) (b : B) :
  (m ≫= f) = Ok b <-> exists a, m = Ok a /\ f a = Ok b.
Proof. destruct m as [a|e]; simpl; naive_solver. Qed.

Lemma ok_or_Ok {E A} (o : option A) (e : E) (a : A) :
  ok_or o e = Ok a <-> o = Some a.
Proof. destruct o; simpl; naive_solver. Qed.

Lemma ok_or_Err {E A} (o : option A) (e e' : E) :
  ok_or o e = Err e' <-> o = None /\ e' = e.
Proof. destruct o; simpl; naive_solver. Qed.

Lemma map_err_Ok {E F A} (f : E -> F) (r : result E A) (a : A) :
  map_err f r = Ok a <-> r = Ok a.
Proof. destruct r; simpl; naive_solver. Qed.

Lemma refuse_if_Ok {E} (c : bool) (e : E) u :
  refuse_if c e = Ok u <-> c = false.
Proof. destruct c, u; simpl; naive_solver. Qed.

Lemma is_ok_true {E A} (r : result E A) : is_ok r = true <-> exists a, r = Ok a.
Proof. destruct r; simpl; naive_solver. Qed.

(** [result_inv] opens every hypothesis that says a chain of fallible calls
    ended in [Ok]. *)
Ltac result_inv :=
  repeat match goal with
  | H : _ ≫= _ = Ok _ |- _ =>
      apply bind_Ok in H;
      let a := fresh "v" in let H1 := fresh "Hv" in
      destruct H as (a & H1 & H)
  | H : ok_or _ _ = Ok _ |- _ => apply ok_or_Ok in H
  | H : map_err _ _ = Ok _ |- _ => apply map_err_Ok in H
  | H : refuse_if _ _ = Ok _ |- _ => apply refuse_if_Ok in H
  | H : Ok _ = Ok _ |- _ => injection H as H
  | H : Err _ = Ok _ |- _ => discriminate H
  | H : Ok _ = Err _ |- _ => discriminate H
  | H : (_, _) = (_, _) |- _ => injection H as ? H
  | x : unit |- _ => destruct x
  end.

(** ** Stateful results

    Code that changes a store and may stop with an error: the state is kept
    also when the code stops, because what was written stays written. *)

Definition ST (E S A : Type) : Type := S -> result E A * S.

#[global] Instance ST_ret {E S} : MRet (ST E S) := fun A a s => (Ok a, s).
#[global] Instance ST_bind {E S} : MBind (ST E S) := fun A B f m s =>
  match m s with
  | (Ok a, s') => f a s'
  | (Err e, s') => (Err e, s')
  end.

Definition fail {E S A} (e : E) : ST E S A := fun s => (Err e, s).
(** A fallible computation that reads the state. *)
Definition reading {E S A} (f : S -> result E A) : ST E S A := fun s => (f s, s).

Lemma ST_bind_run {E S A B} (m : ST E S A) (f : A -> ST E S B) s r s' :
  (m ≫= f) s = (r, s') <->
  (exists a s1, m s = (Ok a, s1) /\ f a s1 = (r, s')) \/
  (exists e, m s = (Err e, s') /\ r = Err e).
Proof.
  unfold mbind, ST_bind. destruct (m s) as [[a|e] s1]; naive_solver.
Qed.

(** [preserves R m]: whatever [m] does, the state it leaves is related by [R]
    to the state it found.  With [R] a preorder this goes through [≫=]. *)
Definition preserves {E S A} (R : S -> S -> Prop) (m : ST E S A) : Prop :=
  forall s, R s (snd (m s)).

Lemma preserves_bind {E S A B} (R : S -> S -> Prop) `{!Transitive R}
    (m : ST E S A) (f : A -> ST E S B) :
  preserves R m -> (forall a, preserves R (f a)) -> preserves R (m ≫= f).
Proof.
  intros Hm Hf s. unfold mbind, ST_bind. specialize (Hm s).
  destruct (m s) as [[a|e] s1]; simpl in *; [|done].
  by transitivity s1; [|apply Hf].
Qed.

Lemma preserves_ret {E S A} (R : S -> S -> Prop) `{!Reflexive R} (a : A) :
  preserves R (mret a : ST E S A).
Proof. intros s. simpl. reflexivity. Qed.

Lemma preserves_fail {E S A} (R : S -> S -> Prop) `{!Reflexive R} (e : E) :
  preserves R (fail e : ST E S A).
Proof. intros s. simpl. reflexivity. Qed.

Lemma preserves_reading {E S A} (R : S -> S -> Prop) `{!Reflexive R} (f : S -> result E A) :
  preserves R (reading f).
Proof. intros s. simpl. reflexivity. Qed.

Create HintDb bento_st.
#[export] Hint Resolve preserves_ret preserves_fail preserves_reading : bento_st.

(** ** Machine integers

    A [w]-bit unsigned integer is a [Z] in [0, 2^w); the operations of the
    source that can leave that range are written with their wrap-around. *)

Definition u8_max : Z := 2 ^ 8 - 1.
Definition u32_max : Z := 2 ^ 32 - 1.
Definition u64_max : Z := 2 ^ 64 - 1.
Definition i64_max : Z := 2 ^ 63 - 1.
Definition i64_min : Z := - 2 ^ 63.

Definition is_u8 (z : Z) : Prop := (0 <= z <= u8_max)%Z.
Definition is_u32 (z : Z) : Prop := (0 <= z <= u32_max)%Z.
Definition is_u64 (z : Z) : Prop := (0 <= z <= u64_max)%Z.
Definition is_i64 (z : Z) : Prop := (i64_min <= z <= i64_max)%Z.

Create HintDb bento_int.
#[global] Hint Unfold is_u8 is_u32 is_u64 is_i64 u8_max u32_max u64_max i64_max
  i64_min : bento_int.

(** Addition of two [u32]s in a release build. *)
Definition u32_add (a b : Z) : Z := (a + b) mod 2 ^ 32.
(** [a << n] of a [u32]: bits pushed out at the top are lost. *)
Definition u32_shl (a n : Z) : Z := Z.shiftl a n mod 2 ^ 32.
(** [u64::saturating_add], [u64::saturating_sub]. *)
Definition u64_saturating_add (a b : Z) : Z := Z.min (a + b) u64_max.
Definition u64_saturating_sub (a b : Z) : Z := Z.max (a - b) 0.
(** [u64::checked_mul]. *)
Definition u64_checked_mul (a b : Z) : option Z :=
  if (a * b <=? u64_max)%Z then Some (a * b)%Z else None.
(** Two's complement wrap-around of [i64]. *)
Definition i64_wrap (z : Z) : Z := (z + 2 ^ 63) mod 2 ^ 64 - 2 ^ 63.
(** [i64::saturating_mul]. *)
Definition i64_saturating_mul (a b : Z) : Z :=
  Z.max i64_min (Z.min (a * b) i64_max).

(** [int_lia] unfolds the ranges and calls [lia]. *)
Ltac int_lia := autounfold with bento_int in *; lia.

Lemma u32_add_small a b :
  (0 <= a + b <= u32_max)%Z -> u32_add a b = (a + b)%Z.
Proof. intros. unfold u32_add. rewrite Z.mod_small; int_lia. Qed.
Lemma u32_add_range a b : is_u32 (u32_add a b).
Proof. pose proof (Z.mod_pos_bound (a + b) (2 ^ 32) eq_refl) as Hb. unfold u32_add. int_lia. Qed.

Lemma u32_shl_small a n :
  (0 <= n)%Z -> (0 <= a * 2 ^ n <= u32_max)%Z -> u32_shl a n = (a * 2 ^ n)%Z.
Proof.
  intros. unfold u32_shl. rewrite Z.shiftl_mul_pow2 by lia.
  rewrite Z.mod_small; int_lia.
Qed.

Lemma land_255 x : Z.land x 255 = (x mod 256)%Z.
Proof. exact (Z.land_ones x 8 ltac:(lia)). Qed.

Create Rewrite HintDb bento.
#[export] Hint Rewrite @u32_add_small @u32_shl_small using int_lia : bento.

(** ** Times

    An [OffsetDateTime] is the number of nanoseconds since the Unix epoch and
    a [Duration] a number of nanoseconds. *)

Definition nanos_per_sec : Z := 1000000000.

(** ** Lists *)

(** The first element of [l] that satisfies [p]. *)
Fixpoint find_first {A} (p : A -> bool) (l : list A) : option A :=
  match l with
  | [] => None
  | x :: l' => if p x then Some x else find_first p l'
  end.

Lemma find_first_Some {A} (p : A -> bool) l x :
  find_first p l = Some x <->
  exists l1 l2, l = l1 ++ x :: l2 /\ p x = true /\ Forall (fun y => p y = false) l1.
Proof.
  split.
  - induction l as [|y l IH]; simpl; [done|].
    destruct (p y) eqn:Hp.
    + intros [= ->]. exists [], l. naive_solver.
    + intros (l1 & l2 & -> & ? & ?)%IH. exists (y :: l1), l2. auto.
  - intros (l1 & l2 & -> & Hx & Hl1).
    induction Hl1 as [|y l1 Hy Hl1 IH]; simpl; [by rewrite Hx|by rewrite Hy].
Qed.

Lemma find_first_None {A} (p : A -> bool) l :
  find_first p l = None <-> Forall (fun y => p y = false) l.
Proof.
  induction l as [|y l IH]; simpl; [naive_solver|].
  rewrite Forall_cons, <-IH. destruct (p y) eqn:Hp; naive_solver.
Qed.

Lemma find_first_elem {A} (p : A -> bool) l x :
  find_first p l = Some x -> x ∈ l /\ p x = true.
Proof.
  intros (l1 & l2 & -> & ? & ?)%find_first_Some. set_solver.
Qed.

Lemma find_first_ext {A} (p q : A -> bool) l :
  (forall x, x ∈ l -> p x = q x) -> find_first p l = find_first q l.
Proof.
  induction l as [|y l IH]; intros Heq; [done|]. simpl.
  rewrite (Heq y) by set_solver. by rewrite IH by set_solver.
Qed.

Lemma filter_all {A} (P : A -> Prop) `{!forall x, Decision (P x)} (l : list A) :
  (forall x, x ∈ l -> P x) -> filter P l = l.
Proof.
  induction l as [|x l IH]; intros Hl; [done|].
  rewrite filter_cons_True by (apply Hl; set_solver). f_equal. apply IH. set_solver.
Qed.

Lemma filter_none {A} (P : A -> Prop) `{!forall x, Decision (P x)} (l : list A) :
  (forall x, x ∈ l -> ~ P x) -> filter P l = [].
Proof.
  induction l as [|x l IH]; intros Hl; [done|].
  rewrite filter_cons_False by (apply Hl; set_solver). apply IH. set_solver.
Qed.

(** The half-open range [lo..hi] of a [for] loop. *)
Definition range (lo hi : Z) : list Z := seqZ lo (hi - lo).

Lemma elem_of_range lo hi x : x ∈ range lo hi <-> (lo <= x < hi)%Z.
Proof. unfold range. rewrite elem_of_seqZ. lia. Qed.

(** A search of an ascending range returns the least hit. *)
Lemma find_first_range p lo hi x :
  find_first p (range lo hi) = Some x <->
  (lo <= x < hi)%Z /\ p x = true /\ forall y, (lo <= y < x)%Z -> p y = false.
Proof.
  unfold range. remember (Z.to_nat (hi - lo)) as n eqn:Hn.
  revert lo hi Hn. induction n as [|n IH]; intros lo hi Hn.
  - rewrite seqZ_nil by lia. simpl. split; [done|lia].
  - rewrite seqZ_cons by lia. simpl.
    replace (Z.pred (hi - lo)) with (hi - Z.succ lo)%Z by lia.
    destruct (p lo) eqn:Hp.
    + split.
      * intros [= <-]. repeat split; [lia|lia|done|lia].
      * intros (? & ? & Hmin). f_equal.
        destruct (decide (x = lo)) as [->|]; [done|].
        rewrite Hmin in Hp by lia. done.
    + rewrite (IH (Z.succ lo) hi) by lia. split.
      * intros (? & ? & Hmin). split_and!; [lia|lia|done|].
        intros y Hy. destruct (decide (y = lo)) as [->|]; [done|].
        apply Hmin. lia.
      * intros (? & ? & Hmin).
        destruct (decide (x = lo)) as [->|]; [congruence|].
        split_and!; [lia|lia|done|]. intros; apply Hmin; lia.
Qed.

Lemma find_first_range_None p lo hi :
  find_first p (range lo hi) = None <->
  forall y, (lo <= y < hi)%Z -> p y = false.
Proof.
  rewrite find_first_None, Forall_forall.
  setoid_rewrite elem_of_range. done.
Qed.

(** ** Loops that stop at the first error *)

(** A loop that returns the first error. *)
Fixpoint each {E A} (f : A -> result E unit) (l : list A) : result E unit :=
  match l with
  | [] => Ok tt
  | x :: l' => _ ← f x; each f l'
  end.

Lemma each_Ok {E A} (f : A -> result E unit) l u :
  each f l = Ok u <-> Forall (fun x => f x = Ok tt) l.
Proof.
  destruct u. induction l as [|x l IH]; simpl; [by split; [constructor|]|].
  rewrite bind_Ok, Forall_cons, <-IH. split; [intros ([] & ? & ?)|intros [? ?]; exists tt]; done.
Qed.

Lemma mapM_all_Ok {E A B} (f : A -> result E B) (g : A -> B) l :
  (forall x, x ∈ l -> f x = Ok (g x)) -> mapM f l = Ok (g <$> l).
Proof.
  induction l as [|x l IH]; intros Hf; [done|]. simpl.
  rewrite Hf by set_solver. simpl. rewrite IH by set_solver. done.
Qed.

Lemma mapM_Ok {E A B} (f : A -> result E B) l k :
  mapM f l = Ok k <-> Forall2 (fun x y => f x = Ok y) l k.
Proof.
  revert k. induction l as [|x l IH]; intros k; simpl.
  - split; [intros [= <-]; constructor|]. by intros ->%Forall2_nil_inv_l.
  - rewrite bind_Ok. setoid_rewrite bind_Ok. setoid_rewrite IH. split.
    + intros (y & ? & k' & ? & [= <-]). by constructor.
    + intros (y & k' & ? & ? & ->)%Forall2_cons_inv_l. eauto.
Qed.

Lemma mapM_Ok_elem {E A B} (f : A -> result E B) l k y :
  mapM f l = Ok k -> y ∈ k <-> exists x, x ∈ l /\ f x = Ok y.
Proof.
  rewrite mapM_Ok. induction 1 as [|x z l k Hf _ IH]; [set_solver|].
  rewrite elem_of_cons, IH. split.
  - intros [->|(x' & ? & ?)]; [exists x|exists x']; split; try done; set_solver.
  - intros (x' & [->|Hx]%elem_of_cons & ?); [left; congruence|right; eauto].
Qed.

(** A loop that carries an accumulator and stops at the first error. *)
Fixpoint fold_res {E A B} (f : A -> B -> result E A) (a : A) (l : list B) : result E A :=
  match l with
  | [] => Ok a
  | x :: l' => a' ← f a x; fold_res f a' l'
  end.

(** A loop of stateful steps. *)
Fixpoint for_each {E S A} (f : A -> ST E S unit) (l : list A) : ST E S unit :=
  match l with
  | [] => mret tt
  | x :: l' => _ ← f x; for_each f l'
  end.

(** ** Sorting

    [slice::sort_by], which is stable, and the iteration order of a
    [BTreeSet] built from a list. *)

Fixpoint insert_sorted {A} (lt : A -> A -> bool) (x : A) (l : list A) : list A :=
  match l with
  | [] => [x]
  | y :: l' => if lt y x then y :: insert_sorted lt x l' else x :: l
  end.

Definition sort_by {A} (lt : A -> A -> bool) (l : list A) : list A :=
  foldr (insert_sorted lt) [] l.

Definition btree_set {A} `{EqDecision A} (lt : A -> A -> bool) (l : list A) : list A :=
  sort_by lt (remove_dups l).

Lemma insert_sorted_perm {A} (lt : A -> A -> bool) x l : insert_sorted lt x l ≡ₚ x :: l.
Proof.
  induction l as [|y l IH]; simpl; [done|]. destruct (lt y x); [|done].
  rewrite IH. by constructor.
Qed.

Lemma sort_by_perm {A} (lt : A -> A -> bool) l : sort_by lt l ≡ₚ l.
Proof. induction l as [|x l IH]; simpl; [done|]. by rewrite insert_sorted_perm, IH. Qed.

Lemma elem_of_sort_by {A} (lt : A -> A -> bool) l x : x ∈ sort_by lt l <-> x ∈ l.
Proof. by rewrite sort_by_perm. Qed.

Lemma elem_of_btree_set {A} `{EqDecision A} (lt : A -> A -> bool) l x :
  x ∈ btree_set lt l <-> x ∈ l.
Proof. unfold btree_set. by rewrite elem_of_sort_by, elem_of_remove_dups. Qed.
