(* ===== verification/Text.v ===== *)
(** * Text: the pieces of [core::str] and [core::fmt] the program uses

    A Rust string is its sequence of UTF-8 bytes, here Rocq's [string].  The
    functions below are the standard-library operations that the modelled
    code calls on strings: decimal and hexadecimal display, [str::parse] for
    unsigned integers, [split], [split_once], [strip_prefix], [trim], [lines] and the
    ASCII case maps (for ASCII text). *)

From Stdlib Require Import ZArith Lia Ascii DecimalString DecimalN.
From S2P Require Import Prelude.
Open Scope Z_scope.

Definition ascii_code (c : ascii) : Z := Z.of_N (N_of_ascii c).

Definition in_range (lo hi : ascii) (c : ascii) : bool :=
  (ascii_code lo <=? ascii_code c) && (ascii_code c <=? ascii_code hi).

(** [u8::is_ascii_digit], [is_ascii_lowercase], [is_ascii_uppercase]. *)
Definition is_ascii_digit : ascii -> bool := in_range "0" "9".
Definition is_ascii_lowercase : ascii -> bool := in_range "a" "z".
Definition is_ascii_uppercase : ascii -> bool := in_range "A" "Z".

(** [u8::to_ascii_uppercase] and [to_ascii_lowercase]. *)
Definition ascii_of_code (z : Z) : ascii := ascii_of_N (Z.to_N z).
Definition upper_char (c : ascii) : ascii :=
  if is_ascii_lowercase c then ascii_of_code (ascii_code c - 32) else c.
Definition lower_char (c : ascii) : ascii :=
  if is_ascii_uppercase c then ascii_of_code (ascii_code c + 32) else c.

Fixpoint string_map (f : ascii -> ascii) (s : string) : string :=
  match s with
  | EmptyString => EmptyString
  | String c s' => String (f c) (string_map f s')
  end.

Definition to_ascii_uppercase : string -> string := string_map upper_char.
Definition to_ascii_lowercase : string -> string := string_map lower_char.

(** The bytes of a string. *)
Fixpoint chars (s : string) : list ascii :=
  match s with EmptyString => [] | String c s' => c :: chars s' end.

Definition str_len (s : string) : Z := Z.of_nat (String.length s).

Fixpoint str_all (p : ascii -> bool) (s : string) : bool :=
  match s with EmptyString => true | String c s' => p c && str_all p s' end.

(** [str::split(c)]: always at least one piece. *)
Fixpoint split_on (c : ascii) (s : string) : list string :=
  match s with
  | EmptyString => [EmptyString]
  | String a s' =>
      if Ascii.eqb a c then EmptyString :: split_on c s'
      else match split_on c s' with
           | [] => [String a EmptyString]
           | p :: ps => String a p :: ps
           end
  end.

(** [str::split_once(c)]: split at the first occurrence. *)
Fixpoint split_once (c : ascii) (s : string) : option (string * string) :=
  match s with
  | EmptyString => None
  | String a s' =>
      if Ascii.eqb a c then Some (EmptyString, s')
      else match split_once c s' with
           | Some (l, r) => Some (String a l, r)
           | None => None
           end
  end.

(** [str::strip_prefix]. *)
Fixpoint strip_prefix (p s : string) : option string :=
  match p, s with
  | EmptyString, _ => Some s
  | String a p', String b s' => if Ascii.eqb a b then strip_prefix p' s' else None
  | String _ _, EmptyString => None
  end.

(** [str::trim_start_matches(c)]. *)
Fixpoint trim_start_matches (p : ascii -> bool) (s : string) : string :=
  match s with
  | EmptyString => EmptyString
  | String a s' => if p a then trim_start_matches p s' else s
  end.

Fixpoint string_rev_app (s acc : string) : string :=
  match s with EmptyString => acc | String a s' => string_rev_app s' (String a acc) end.
Definition string_rev (s : string) : string := string_rev_app s EmptyString.

(** ASCII [char::is_whitespace]. *)
Definition is_space (c : ascii) : bool :=
  ((9 <=? ascii_code c) && (ascii_code c <=? 13)) || (ascii_code c =? 32).

(** [str::trim]. *)
Definition trim (s : string) : string :=
  string_rev (trim_start_matches is_space
    (string_rev (trim_start_matches is_space s))).

(** [str::starts_with] and [str::contains] of a character or of a text. *)
Definition starts_with (p s : string) : bool :=
  match strip_prefix p s with Some _ => true | None => false end.
Definition contains_char (c : ascii) (s : string) : bool := negb (str_all (fun a => negb (Ascii.eqb a c)) s).
Fixpoint contains_text (p s : string) : bool :=
  starts_with p s || match s with EmptyString => false | String _ s' => contains_text p s' end.

(** [str::trim_end_matches], [str::strip_suffix] and [str::rsplit_once]. *)
Definition trim_end_matches (p : ascii -> bool) (s : string) : string :=
  string_rev (trim_start_matches p (string_rev s)).
Definition strip_suffix (suffix s : string) : option string :=
  string_rev <$> strip_prefix (string_rev suffix) (string_rev s).
Definition rsplit_once (c : ascii) (s : string) : option (string * string) :=
  match split_once c (string_rev s) with
  | Some (after, before) => Some (string_rev before, string_rev after)
  | None => None
  end.

(** [str::eq_ignore_ascii_case]. *)
Definition eq_ignore_ascii_case (a b : string) : bool :=
  bool_decide (to_ascii_lowercase a = to_ascii_lowercase b).

(** [{}] of an unsigned integer. *)
Definition dec (z : Z) : string := NilEmpty.string_of_uint (N.to_uint (Z.to_N z)).

(** [{}] of a signed integer. *)
Definition dec_signed (z : Z) : string :=
  if z <? 0 then String "-" (dec (- z)) else dec z.

(** A nonempty run of decimal digits, as a number. *)
Definition parse_digits (s : string) : option Z :=
  match s with
  | EmptyString => None
  | _ => match NilEmpty.uint_of_string s with
         | Some d => Some (Z.of_N (N.of_uint d))
         | None => None
         end
  end.

(** [str::parse] for an unsigned integer type whose largest value is [max]:
    an optional [+], then digits, and nothing above [max]. *)
Definition parse_uint (max : Z) (s : string) : option Z :=
  match parse_digits (default s (strip_prefix "+" s)) with
  | Some z => if z <=? max then Some z else None
  | None => None
  end.

(** [{:02x}] of a byte. *)
Definition hex_digit (z : Z) : ascii :=
  if z <? 10 then ascii_of_code (48 + z) else ascii_of_code (87 + z).
Definition hex2 (z : Z) : string :=
  String (hex_digit (z / 16)) (String (hex_digit (z mod 16)) EmptyString).

(** [hex::encode]. *)
Definition hex_encode (bytes : list Z) : string := foldr (fun b s => hex2 b +:+ s) EmptyString bytes.

(** [parts.join(sep)]. *)
Fixpoint join (sep : string) (parts : list string) : string :=
  match parts with
  | [] => EmptyString
  | [p] => p
  | p :: ps => p +:+ sep +:+ join sep ps
  end.

(** SQLite's [BINARY] collation on text: [memcmp], then the length. *)
Definition text_lt (a b : string) : bool :=
  match String.compare a b with Lt => true | _ => false end.
Definition text_le (a b : string) : bool :=
  match String.compare a b with Gt => false | _ => true end.

(** [{:?}] of a string. *)
Definition debug_char (c : ascii) : string :=
  let z := ascii_code c in
  if z =? 34 then String "\" (String c EmptyString)
  else if z =? 92 then String "\" (String c EmptyString)
  else if z =? 9 then "\t" else if z =? 10 then "\n" else if z =? 13 then "\r" else if z =? 0 then "\0"
  else if z <? 16 then "\u{" +:+ String (hex_digit z) "}"
  else if (z <? 32) || (z =? 127) then "\u{" +:+ hex2 z +:+ "}"
  else String c EmptyString.
Definition debug (s : string) : string :=
  let quote := String (ascii_of_code 34) EmptyString in
  quote +:+ foldr (fun c t => debug_char c +:+ t) EmptyString (chars s) +:+ quote.

(** [str::trim] with every [White_Space] character, by its UTF-8 bytes. *)
Definition of_codes (l : list Z) : string := foldr (fun z s => String (ascii_of_code z) s) EmptyString l.
Definition white_space : list string :=
  of_codes <$>
    ([[9]; [10]; [11]; [12]; [13]; [32]; [194; 133]; [194; 160]; [225; 154; 128]; [226; 128; 168]; [226; 128; 169];
      [226; 128; 175]; [226; 129; 159]; [227; 128; 128]] ++ ((fun k => [226; 128; k]) <$> seqZ 128 11)).
Fixpoint strip_first (ps : list string) (s : string) : option string :=
  match ps with
  | [] => None
  | p :: ps => match strip_prefix p s with Some rest => Some rest | None => strip_first ps s end
  end.
Fixpoint strip_white (fuel : nat) (ps : list string) (s : string) : string :=
  match fuel with
  | O => s
  | S fuel => match strip_first ps s with Some rest => strip_white fuel ps rest | None => s end
  end.
Definition trim_white (s : string) : string :=
  let s := strip_white (String.length s) white_space s in
  string_rev (strip_white (String.length s) (string_rev <$> white_space) (string_rev s)).

(** [str::lines], and [<[String]>::join]. *)
Definition strip_return (line : string) : string :=
  default line (strip_suffix (String (ascii_of_code 13) EmptyString) line).
Definition lines (s : string) : list string :=
  let parts := split_on (ascii_of_code 10) s in
  (strip_return <$> removelast parts) ++
  match last parts with Some EmptyString | None => [] | Some line => [line] end.
Fixpoint join_with (sep : string) (parts : list string) : string :=
  match parts with
  | [] => EmptyString
  | [part] => part
  | part :: parts => part +:+ sep +:+ join_with sep parts
  end.

(** [s.chars().count()], and [{:<width$}]. *)
Definition char_count (s : string) : nat :=
  length (filter (fun c => Z.land (ascii_code c) 192 <> 128) (chars s)).
Fixpoint spaces (n : nat) : string := match n with O => EmptyString | S n => String " " (spaces n) end.
Definition pad_right (width : nat) (s : string) : string := s +:+ spaces (width - char_count s).

(** ** Decimal display and parsing *)

Lemma string_of_uint_digits d :
  str_all is_ascii_digit (NilEmpty.string_of_uint d) = true.
Proof. induction d; simpl; try done; by rewrite IHd. Qed.

Lemma dec_digits z : str_all is_ascii_digit (dec z) = true.
Proof. apply string_of_uint_digits. Qed.

Lemma to_uint_nonnil n : NilEmpty.string_of_uint (N.to_uint n) <> EmptyString.
Proof.
  intros H. assert (Hn : N.to_uint n = Decimal.Nil).
  { revert H. by destruct (N.to_uint n). }
  pose proof (DecimalN.Unsigned.of_to n) as Hof. rewrite Hn in Hof.
  simpl in Hof. subst n. discriminate.
Qed.

Lemma dec_nonempty z : dec z <> EmptyString.
Proof. apply to_uint_nonnil. Qed.

Lemma parse_digits_dec z : 0 <= z -> parse_digits (dec z) = Some z.
Proof.
  intros Hz. unfold parse_digits. pose proof (dec_nonempty z) as Hne.
  destruct (dec z) as [|a s] eqn:Hd; [done|]. rewrite <-Hd.
  unfold dec. rewrite NilEmpty.usu, DecimalN.Unsigned.of_to.
  f_equal. lia.
Qed.

(** A string of digits does not start with a plus sign. *)
Lemma strip_plus_digits s :
  str_all is_ascii_digit s = true -> strip_prefix "+" s = None \/ s = EmptyString.
Proof.
  destruct s as [|a s]; [by right|]. cbn [strip_prefix str_all].
  intros [Ha _]%andb_prop. left.
  destruct (Ascii.eqb_spec "+" a) as [<-|]; [by vm_compute in Ha|done].
Qed.

Lemma parse_uint_dec max z : 0 <= z <= max -> parse_uint max (dec z) = Some z.
Proof.
  intros Hz. unfold parse_uint.
  destruct (strip_plus_digits (dec z)) as [->|H]; [apply dec_digits| |].
  - simpl. rewrite parse_digits_dec by lia. destruct (Z.leb_spec z max); [done|lia].
  - by destruct (dec_nonempty z).
Qed.

Lemma parse_digits_nonneg s z : parse_digits s = Some z -> 0 <= z.
Proof.
  unfold parse_digits. destruct s; [done|].
  destruct (NilEmpty.uint_of_string _); [|done]. intros [= <-]. lia.
Qed.

Lemma parse_uint_bound max s z : parse_uint max s = Some z -> 0 <= z <= max.
Proof.
  unfold parse_uint. destruct (parse_digits _) as [y|] eqn:Hy; [|done].
  destruct (Z.leb_spec y max); [|done]. intros [= ->].
  apply parse_digits_nonneg in Hy. lia.
Qed.

Lemma dec_inj a b : 0 <= a -> 0 <= b -> dec a = dec b -> a = b.
Proof.
  intros Ha Hb H. pose proof (parse_digits_dec a Ha) as Hp.
  rewrite H, parse_digits_dec in Hp by done. by simplify_eq.
Qed.

(** ** Splitting *)

Lemma str_all_app p s t : str_all p (s +:+ t) = str_all p s && str_all p t.
Proof. induction s as [|c s IH]; simpl; [done|]. by rewrite IH, andb_assoc. Qed.

(** [free c s]: the separator [c] does not occur in [s]. *)
Definition free (c : ascii) (s : string) : Prop :=
  str_all (fun a => negb (Ascii.eqb a c)) s = true.

Lemma digits_free c s :
  str_all is_ascii_digit s = true -> is_ascii_digit c = false -> free c s.
Proof.
  unfold free. intros Hs Hc. induction s as [|a s IH]; simpl in *; [done|].
  apply andb_prop in Hs as [Ha Hs]. rewrite IH by done.
  destruct (Ascii.eqb_spec a c) as [->|]; [congruence|done].
Qed.

Lemma split_on_free c s : free c s -> split_on c s = [s].
Proof.
  unfold free. induction s as [|a s IH]; simpl; [done|].
  intros [Ha Hs]%andb_prop. apply negb_true_iff in Ha.
  rewrite Ha, IH by done. done.
Qed.

Lemma split_on_app c s t :
  free c s -> split_on c (s +:+ String c t) = s :: split_on c t.
Proof.
  unfold free. induction s as [|a s IH]; simpl.
  - intros _. by rewrite Ascii.eqb_refl.
  - intros [Ha Hs]%andb_prop. apply negb_true_iff in Ha.
    rewrite Ha, IH by done. done.
Qed.

Lemma split_once_app c s t :
  free c s -> split_once c (s +:+ String c t) = Some (s, t).
Proof.
  unfold free. induction s as [|a s IH]; simpl.
  - intros _. by rewrite Ascii.eqb_refl.
  - intros [Ha Hs]%andb_prop. apply negb_true_iff in Ha.
    rewrite Ha, IH by done. done.
Qed.

Lemma string_app_assoc (s t u : string) : (s +:+ t) +:+ u = s +:+ (t +:+ u).
Proof. induction s as [|c s IH]; [done|]. exact (f_equal (String c) IH). Qed.

(** ** Both ends of a text *)

Lemma string_length_app s t : String.length (s +:+ t) = (String.length s + String.length t)%nat.
Proof. induction s as [|c s IH]; [done|]. simpl. by rewrite IH. Qed.
Lemma string_app_nil (s : string) : s +:+ EmptyString = s.
Proof. induction s as [|c s IH]; [done|]. exact (f_equal (String c) IH). Qed.

Lemma string_rev_app_spec s acc : string_rev_app s acc = string_rev s +:+ acc.
Proof.
  unfold string_rev. revert acc. induction s as [|c s IH]; intros acc; cbn [string_rev_app]; [done|].
  rewrite IH, (IH (String c EmptyString)), string_app_assoc. done.
Qed.

Lemma string_rev_cons c s : string_rev (String c s) = string_rev s +:+ String c EmptyString.
Proof. exact (string_rev_app_spec s _). Qed.

Lemma string_rev_append s t : string_rev (s +:+ t) = string_rev t +:+ string_rev s.
Proof.
  induction s as [|c s IH]; [symmetry; apply string_app_nil|].
  change (String c s +:+ t) with (String c (s +:+ t)). by rewrite !string_rev_cons, IH, string_app_assoc.
Qed.

Lemma string_rev_rev s : string_rev (string_rev s) = s.
Proof. induction s as [|c s IH]; [done|]. rewrite string_rev_cons, string_rev_append, IH. done. Qed.

Lemma string_rev_all p s : str_all p (string_rev s) = str_all p s.
Proof.
  induction s as [|c s IH]; [done|]. rewrite string_rev_cons, str_all_app, IH. simpl. by rewrite andb_true_r, andb_comm.
Qed.

Lemma strip_prefix_Some p s t : strip_prefix p s = Some t <-> s = p +:+ t.
Proof.
  revert s. induction p as [|c p IH]; intros s; simpl; [naive_solver|].
  destruct s as [|a s]; [naive_solver|]. destruct (Ascii.eqb_spec c a) as [->|Hne].
  - rewrite IH. split; [by intros ->|]. by intros [= ->].
  - split; [done|]. intros [= ]. congruence.
Qed.

Lemma strip_suffix_Some suffix s t : strip_suffix suffix s = Some t <-> s = t +:+ suffix.
Proof.
  unfold strip_suffix. rewrite fmap_Some. split.
  - intros (r & Hr & ->). apply strip_prefix_Some in Hr.
    rewrite <-(string_rev_rev s), Hr, string_rev_append, string_rev_rev. done.
  - intros ->. exists (string_rev t). rewrite string_rev_rev. split; [|done].
    apply strip_prefix_Some. apply string_rev_append.
Qed.

Lemma contains_char_free c s : contains_char c s = false <-> free c s.
Proof. unfold contains_char, free. apply negb_false_iff. Qed.

Lemma trim_start_stays p c s : p c = false -> trim_start_matches p (String c s) = String c s.
Proof. intros Hc. simpl. by rewrite Hc. Qed.

Lemma trim_start_all p q s : str_all p s = true -> str_all p (trim_start_matches q s) = true.
Proof. induction s as [|c s IH]; simpl; [done|]. intros [Hc Hs]%andb_prop. destruct (q c); [auto|]. simpl. by rewrite Hc. Qed.

(** A text without any of the characters is not trimmed. *)
Lemma trim_start_none p s : str_all (fun c => negb (p c)) s = true -> trim_start_matches p s = s.
Proof. destruct s as [|c s]; simpl; [done|]. intros [Hc _]%andb_prop. apply negb_true_iff in Hc. by rewrite Hc. Qed.
Lemma trim_end_none p s : str_all (fun c => negb (p c)) s = true -> trim_end_matches p s = s.
Proof.
  intros Hs. unfold trim_end_matches. rewrite trim_start_none, string_rev_rev; [done|]. by rewrite string_rev_all.
Qed.
Lemma trim_none s : str_all (fun c => negb (is_space c)) s = true -> trim s = s.
Proof.
  intros Hs. unfold trim. rewrite (trim_start_none _ s) by done.
  exact (trim_end_none is_space s Hs).
Qed.

(** ** Text order *)

Lemma text_lt_irrefl a : text_lt a a = false.
Proof.
  unfold text_lt. induction a as [|c a IH]; simpl; [done|].
  destruct (Ascii.compare c c) eqn:H; [done| |done].
  unfold Ascii.compare in H. rewrite N.compare_refl in H. done.
Qed.

Lemma text_le_lt a b : text_le a b = negb (text_lt b a).
Proof.
  unfold text_le, text_lt. rewrite (String.compare_antisym b a).
  by destruct (String.compare a b).
Qed.
