(* ===== verification/Float64.v ===== *)
(** * Float64: IEEE 754 binary64, as far as the program uses it

    The program computes with [f64] in three places: the overcommit ratio,
    the load ratios placement orders hosts by, and the Go duration parser.
    A finite value is the rational it denotes; an operation is the exact
    result rounded to the nearest representable value, ties to even, with
    overflow to infinity.  Signed zeros compare equal and are not told
    apart; no modelled operation divides by a negative zero. *)

From Stdlib Require Import ZArith QArith Qround Qpower Qabs Lqa Lia.
From S2P Require Import Prelude.
Open Scope Q_scope.

Inductive f64 : Type :=
  | Finite (q : Q)
  | Infinite (negative : bool)
  | NotANumber.

(** The exponent of the leading binary digit of a positive rational. *)
Definition exponent (q : Q) : Z :=
  let l := (Z.log2 (Qnum q) - Z.log2 (Zpos (Qden q)))%Z in
  if Qle_bool (2 ^ l) q then l else (l - 1)%Z.

(** Nearest integer, ties to even. *)
Definition half_even (x : Q) : Z :=
  let f := Qfloor x in
  match Qcompare (x - inject_Z f) (1 # 2) with
  | Lt => f
  | Gt => (f + 1)%Z
  | Eq => if Z.even f then f else (f + 1)%Z
  end.

(** The exponent of the last place: 53 significant bits, and no digit below
    2^-1074. *)
Definition last_place (q : Q) : Z := Z.max (exponent q - 52) (-1074).

(** Rounding of a non-negative rational, before overflow. *)
Definition round_pos (q : Q) : Q :=
  let k := last_place q in inject_Z (half_even (q / 2 ^ k)) * 2 ^ k.

Definition overflow : Q := 2 ^ 1024.

Definition round (exact : Q) : f64 :=
  let q := Qred exact in
  if Qle_bool 0 q then
    let r := round_pos q in
    if Qle_bool overflow r then Infinite false else Finite (Qred r)
  else
    let r := round_pos (- q) in
    if Qle_bool overflow r then Infinite true else Finite (Qred (- r)).

(** [value as f64] of an integer. *)
Definition of_int (z : Z) : f64 := round (inject_Z z).

Definition is_zero (q : Q) : bool := Qeq_bool q 0.
Definition is_neg (q : Q) : bool := negb (Qle_bool 0 q).

(** [a * b], [a / b], [a + b]. *)
Definition mul (a b : f64) : f64 :=
  match a, b with
  | NotANumber, _ | _, NotANumber => NotANumber
  | Finite x, Finite y => round (x * y)
  | Finite x, Infinite s | Infinite s, Finite x =>
      if is_zero x then NotANumber else Infinite (xorb (is_neg x) s)
  | Infinite s, Infinite t => Infinite (xorb s t)
  end.

Definition div (a b : f64) : f64 :=
  match a, b with
  | NotANumber, _ | _, NotANumber => NotANumber
  | Finite x, Finite y =>
      if is_zero y then (if is_zero x then NotANumber else Infinite (is_neg x))
      else round (x / y)
  | Finite _, Infinite _ => Finite 0
  | Infinite s, Finite y => Infinite (xorb s (is_neg y))
  | Infinite _, Infinite _ => NotANumber
  end.

Definition add (a b : f64) : f64 :=
  match a, b with
  | NotANumber, _ | _, NotANumber => NotANumber
  | Finite x, Finite y => round (x + y)
  | Finite _, Infinite s | Infinite s, Finite _ => Infinite s
  | Infinite s, Infinite t => if eqb s t then Infinite s else NotANumber
  end.

(** [a.partial_cmp(&b)]. *)
Definition partial_cmp (a b : f64) : option comparison :=
  match a, b with
  | NotANumber, _ | _, NotANumber => None
  | Finite x, Finite y => Some (Qcompare x y)
  | Finite _, Infinite s => Some (if s then Gt else Lt)
  | Infinite s, Finite _ => Some (if s then Lt else Gt)
  | Infinite s, Infinite t =>
      Some (if eqb s t then Eq else if s then Lt else Gt)
  end.

(** [a < b]. *)
Definition flt (a b : f64) : bool :=
  match partial_cmp a b with Some Lt => true | _ => false end.

(** [value.round()]: to the nearest integer, ties away from zero. *)
Definition round_away (a : f64) : f64 :=
  match a with
  | Finite q =>
      if Qle_bool 0 q then Finite (inject_Z (Qfloor (q + (1 # 2))))
      else Finite (- inject_Z (Qfloor (- q + (1 # 2))))
  | _ => a
  end.

(** [value as u64]: toward zero, saturating, [NaN] to zero. *)
Definition as_u64 (a : f64) : Z :=
  match a with
  | Finite q => Z.max 0 (Z.min (Qfloor q) u64_max)
  | Infinite s => if s then 0%Z else u64_max
  | NotANumber => 0%Z
  end.

(** ** Powers of two *)

Lemma two_neq : ~ 2 == 0.
Proof. lra. Qed.

Lemma pow2_pos (k : Z) : 0 < 2 ^ k.
Proof. apply Qpower_0_lt. lra. Qed.

Lemma pow2_add (j k : Z) : 2 ^ (j + k) == 2 ^ j * 2 ^ k.
Proof. apply Qpower_plus. apply two_neq. Qed.

Lemma pow2_Z (k : Z) : (0 <= k)%Z -> 2 ^ k == inject_Z (2 ^ k).
Proof. intros Hk. rewrite Zpower_Qpower by done. reflexivity. Qed.

Lemma pow2_le (j k : Z) : (j <= k)%Z -> 2 ^ j <= 2 ^ k.
Proof. intros Hjk. apply Qpower_le_compat_l; [done|lra]. Qed.

Lemma pow2_lt_inv (j k : Z) : 2 ^ j < 2 ^ k -> (j < k)%Z.
Proof.
  intros Hlt. apply Z.nle_gt. intros Hle%pow2_le. lra.
Qed.

(** ** The exponent *)

Lemma log2_bounds (p : positive) :
  2 ^ Z.log2 (Zpos p) <= inject_Z (Zpos p) /\ inject_Z (Zpos p) < 2 ^ (Z.log2 (Zpos p) + 1).
Proof.
  pose proof (Z.log2_spec (Zpos p) ltac:(lia)) as [Hlo Hhi].
  pose proof (Z.log2_nonneg (Zpos p)).
  rewrite !pow2_Z by lia. rewrite <-Zle_Qle, <-Zlt_Qlt.
  replace (Z.log2 (Zpos p) + 1)%Z with (Z.succ (Z.log2 (Zpos p))) by lia. done.
Qed.

Lemma Q_num_den (q : Q) : q == inject_Z (Qnum q) / inject_Z (Zpos (Qden q)).
Proof. rewrite <-Qmake_Qdiv. by destruct q. Qed.

Lemma Q_mult_den (q : Q) : q * inject_Z (Zpos (Qden q)) == inject_Z (Qnum q).
Proof. unfold Qeq. simpl. lia. Qed.

Lemma exponent_spec (q : Q) : 0 < q -> 2 ^ exponent q <= q /\ q < 2 ^ (exponent q + 1).
Proof.
  intros Hq. destruct q as [[|n|n] d]; [done| |done].
  pose proof (log2_bounds n) as [Hn1 Hn2]. pose proof (log2_bounds d) as [Hd1 Hd2].
  pose proof (Q_mult_den (Zpos n # d)) as Hmul. simpl Qnum in Hmul. simpl Qden in Hmul.
  unfold exponent. simpl Qnum. simpl Qden.
  set (a := Z.log2 (Zpos n)) in *. set (b := Z.log2 (Zpos d)) in *.
  set (q := Zpos n # d) in *.
  assert (Hlow : 2 ^ (a - b - 1) < q).
  { assert (2 ^ a == 2 ^ (a - b - 1) * 2 ^ (b + 1)) as E.
    { rewrite <-pow2_add. f_equiv. lia. }
    apply Qnot_le_lt. intros Hle.
    pose proof (Qmult_le_compat_r _ _ (inject_Z (Zpos d)) Hle ltac:(done)).
    pose proof (proj2 (Qmult_lt_l _ _ _ (pow2_pos (a - b - 1))) Hd2). lra. }
  assert (Hhigh : q < 2 ^ (a - b + 1)).
  { assert (2 ^ (a + 1) == 2 ^ (a - b + 1) * 2 ^ b) as E.
    { rewrite <-pow2_add. f_equiv. lia. }
    apply Qnot_le_lt. intros Hle.
    pose proof (Qmult_le_compat_r _ _ (inject_Z (Zpos d)) Hle ltac:(done)).
    pose proof (proj2 (Qmult_le_l _ _ _ (pow2_pos (a - b + 1))) Hd1). lra. }
  destruct (Qle_bool (2 ^ (a - b)) q) eqn:Hb.
  - apply Qle_bool_iff in Hb. by split.
  - assert (~ 2 ^ (a - b) <= q) by (rewrite <-Qle_bool_iff; congruence).
    replace (a - b - 1 + 1)%Z with (a - b)%Z by lia. split; lra.
Qed.

(** ** Rounding *)

Lemma half_even_error (x : Q) : Qabs.Qabs (inject_Z (half_even x) - x) <= 1 # 2.
Proof.
  unfold half_even. pose proof (Qfloor_le x). pose proof (Qlt_floor x).
  rewrite inject_Z_plus in *. apply Qabs.Qabs_Qle_condition.
  destruct (Qcompare_spec (x - inject_Z (Qfloor x)) (1 # 2)); [destruct (Z.even _)|..];
    rewrite ?inject_Z_plus; change (inject_Z 1) with 1 in *; lra.
Qed.

Lemma half_even_int (x : Q) (n : Z) : x == inject_Z n -> half_even x = n.
Proof.
  intros Hx. unfold half_even. assert (Qfloor x = n) as -> by (rewrite Hx; apply Qfloor_Z).
  destruct (Qcompare_spec (x - inject_Z n) (1 # 2)); [lra|done|lra].
Qed.

(** A value with at most 53 significant bits is kept. *)
Lemma round_pos_exact (q : Q) (m j : Z) :
  0 < q -> q == inject_Z m * 2 ^ j -> (m < 2 ^ 53)%Z -> (-1074 <= j)%Z -> round_pos q == q.
Proof.
  intros Hq Heq Hm Hj. unfold round_pos.
  destruct (exponent_spec q Hq) as [Hlo _].
  assert (Hk : (last_place q <= j)%Z).
  { unfold last_place. assert (exponent q < 53 + j)%Z; [|lia].
    apply pow2_lt_inv. rewrite pow2_add, (pow2_Z 53) by lia.
    rewrite Zlt_Qlt in Hm. pose proof (proj2 (Qmult_lt_r _ _ _ (pow2_pos j)) Hm). lra. }
  set (k := last_place q) in *. pose proof (pow2_pos k).
  rewrite (half_even_int _ (m * 2 ^ (j - k))%Z).
  - rewrite inject_Z_mult, <-pow2_Z, Heq, <-Qmult_assoc, <-pow2_add by lia.
    by replace (j - k + k)%Z with j by lia.
  - rewrite inject_Z_mult, <-pow2_Z, Heq by lia.
    replace j with (j - k + k)%Z at 1 by lia. rewrite pow2_add. field. lra.
Qed.

(** Relative error of half a unit in the last place, above the subnormals. *)
Lemma round_pos_error (q : Q) :
  0 < q -> (-1022 <= exponent q)%Z -> Qabs.Qabs (round_pos q - q) <= q * 2 ^ (-53).
Proof.
  intros Hq He. unfold round_pos. destruct (exponent_spec q Hq) as [Hlo _].
  assert (last_place q = exponent q - 52)%Z as -> by (unfold last_place; lia).
  set (k := (exponent q - 52)%Z). pose proof (pow2_pos k) as Hk.
  pose proof (half_even_error (q / 2 ^ k)) as Herr.
  assert (inject_Z (half_even (q / 2 ^ k)) * 2 ^ k - q
          == (inject_Z (half_even (q / 2 ^ k)) - q / 2 ^ k) * 2 ^ k) as -> by (field; lra).
  rewrite Qabs.Qabs_Qmult, (Qabs.Qabs_pos (2 ^ k)) by lra.
  assert (2 ^ exponent q * 2 ^ (-53) == (1 # 2) * 2 ^ k) as E.
  { rewrite <-pow2_add. unfold k. replace (exponent q + -53)%Z with (-1 + (exponent q - 52))%Z by lia.
    rewrite pow2_add. reflexivity. }
  pose proof (Qmult_le_compat_r _ _ _ Herr (Qlt_le_weak _ _ Hk)).
  pose proof (Qmult_le_compat_r _ _ (2 ^ (-53)) Hlo ltac:(done)). lra.
Qed.

(** What [round] gives for a non-negative value in the middle of the range. *)
Lemma round_spec (q : Q) :
  2 ^ (-64) <= q -> q <= 2 ^ 64 ->
  exists r, round q = Finite r /\ Qabs (r - q) <= q * 2 ^ (-53).
Proof.
  intros Hlo Hhi. pose proof (Qred_correct q) as Hred. unfold round.
  set (p := Qred q) in *. pose proof (pow2_pos (-64)).
  assert (Hp : 0 < p) by lra. assert (Qle_bool 0 p = true) as -> by (apply Qle_bool_iff; lra).
  destruct (exponent_spec p Hp) as [He1 He2].
  assert (-64 < exponent p + 1)%Z by (apply pow2_lt_inv; lra).
  pose proof (round_pos_error p Hp ltac:(lia)) as Herr.
  destruct (Qle_bool overflow (round_pos p)) eqn:Hov.
  - exfalso. apply Qle_bool_iff in Hov. apply Qabs_Qle_condition in Herr as [_ Herr].
    unfold overflow in Hov. pose proof (pow2_le 66 1024 ltac:(lia)).
    assert (2 ^ 66 == 4 * 2 ^ 64) by reflexivity. pose proof (pow2_pos 64).
    assert (p * 2 ^ (-53) <= p * 1) by (apply Qmult_le_l; [done|done]). lra.
  - exists (Qred (round_pos p)). split; [done|]. rewrite Qred_correct, <-Hred. done.
Qed.

Lemma round_zero (q : Q) : q == 0 -> round q = Finite 0.
Proof. intros Hq%Qred_complete. unfold round. rewrite Hq. done. Qed.

(** Rounding depends on the value only. *)
#[global] Instance round_proper : Proper (Qeq ==> eq) round.
Proof. intros p q Hpq%Qred_complete. unfold round. by rewrite Hpq. Qed.

(** An integer multiple of a power of two with at most 53 significant bits
    is represented exactly. *)
Lemma round_exact (q : Q) (m j : Z) :
  q == inject_Z m * 2 ^ j -> (0 <= m < 2 ^ 53)%Z -> (-1074 <= j <= 900)%Z ->
  exists r, round q = Finite r /\ r == q.
Proof.
  intros Hq Hm Hj. destruct (decide (m = 0%Z)) as [->|].
  { exists 0. assert (q == 0) as Hz by (rewrite Hq; apply Qmult_0_l). by rewrite (round_zero q Hz), Hz. }
  pose proof (Qred_correct q) as Hred. unfold round. set (p := Qred q) in *.
  assert (1 <= inject_Z m) by (change 1 with (inject_Z 1); rewrite <-Zle_Qle; lia).
  pose proof (pow2_pos j). assert (1 * 2 ^ j <= inject_Z m * 2 ^ j) by (apply Qmult_le_compat_r; lra).
  assert (Hp : 0 < p) by lra. assert (Qle_bool 0 p = true) as -> by (apply Qle_bool_iff; lra).
  assert (Hrp : round_pos p == p) by (apply (round_pos_exact p m j); [done|lra|lia|lia]).
  destruct (Qle_bool overflow (round_pos p)) eqn:Hov.
  - exfalso. apply Qle_bool_iff in Hov. unfold overflow in Hov.
    assert (inject_Z m <= 2 ^ 53) by (rewrite pow2_Z, <-Zle_Qle by lia; lia).
    assert (inject_Z m * 2 ^ j <= 2 ^ 53 * 2 ^ j) by (apply Qmult_le_compat_r; lra).
    assert (2 ^ 53 * 2 ^ j == 2 ^ (53 + j)) as E by (rewrite pow2_add; done).
    pose proof (pow2_le (53 + j) 1023 ltac:(lia)).
    assert (2 ^ 1024 == 2 * 2 ^ 1023) by reflexivity. pose proof (pow2_pos 1023). lra.
  - eexists. split; [done|]. rewrite Qred_correct. lra.
Qed.

Lemma of_int_exact (z : Z) : (0 <= z < 2 ^ 53)%Z -> exists r, of_int z = Finite r /\ r == inject_Z z.
Proof.
  intros Hz. unfold of_int. apply (round_exact _ z 0); [|done|lia].
  change (2 ^ 0) with 1. lra.
Qed.

(** ** Ratios

    A load ratio [a as f64 / b as f64].  As long as the cross products stay
    below 2^53, comparing two rounded ratios gives what comparing the exact
    fractions gives. *)
Definition ratio (a b : Z) : f64 := div (of_int a) (of_int b).

Lemma ratio_round (a b : Z) :
  (0 <= a < 2 ^ 53)%Z -> (0 < b < 2 ^ 53)%Z -> ratio a b = round (inject_Z a / inject_Z b).
Proof.
  intros Ha Hb. unfold ratio.
  destruct (of_int_exact a Ha) as (x & -> & Hx), (of_int_exact b ltac:(lia)) as (y & -> & Hy).
  simpl. assert (Hy0 : ~ y == 0).
  { rewrite Hy. change 0 with (inject_Z 0). rewrite inject_Z_injective. lia. }
  destruct (is_zero y) eqn:Hz; [by apply Qeq_bool_iff in Hz|]. by rewrite Hx, Hy.
Qed.

Lemma ratio_bounds (a b : Z) :
  (0 <= a < 2 ^ 53)%Z -> (0 < b < 2 ^ 53)%Z ->
  exists r, ratio a b = Finite r /\ Qabs (r * inject_Z b - inject_Z a) <= inject_Z a * 2 ^ (-53).
Proof.
  intros Ha Hb. rewrite ratio_round by done. set (q := inject_Z a / inject_Z b).
  assert (Hb1 : 1 <= inject_Z b) by (change 1 with (inject_Z 1); rewrite <-Zle_Qle; lia).
  assert (Hqb : q * inject_Z b == inject_Z a) by (unfold q; field; lra).
  destruct (decide (a = 0%Z)) as [->|].
  { exists 0. split; [|done]. apply round_zero. unfold q. field. lra. }
  assert (Ha1 : 1 <= inject_Z a) by (change 1 with (inject_Z 1); rewrite <-Zle_Qle; lia).
  assert (Hb2 : inject_Z b <= 2 ^ 53) by (rewrite pow2_Z, <-Zle_Qle by lia; lia).
  assert (Ha2 : inject_Z a <= 2 ^ 53) by (rewrite pow2_Z, <-Zle_Qle by lia; lia).
  assert (Hq1 : 2 ^ (-53) <= q).
  { apply (Qmult_le_r _ _ (inject_Z b)); [lra|]. rewrite Hqb.
    assert (2 ^ (-53) * inject_Z b <= 2 ^ (-53) * 2 ^ 53) by (apply Qmult_le_l; [done|done]).
    assert (2 ^ (-53) * 2 ^ 53 == 1) by reflexivity. lra. }
  assert (Hq2 : q <= 2 ^ 53).
  { apply (Qmult_le_r _ _ (inject_Z b)); [lra|]. rewrite Hqb.
    assert (2 ^ 53 * 1 <= 2 ^ 53 * inject_Z b) by (apply Qmult_le_l; [done|done]). lra. }
  pose proof (pow2_le (-64) (-53) ltac:(lia)). pose proof (pow2_le 53 64 ltac:(lia)).
  destruct (round_spec q) as (r & Hr & Herr); [lra|lra|].
  exists r. split; [done|].
  assert (r * inject_Z b - inject_Z a == (r - q) * inject_Z b) as -> by (rewrite <-Hqb; ring).
  rewrite Qabs_Qmult, (Qabs_pos (inject_Z b)) by lra.
  apply (Qle_trans _ (q * 2 ^ (-53) * inject_Z b)).
  - apply Qmult_le_compat_r; lra.
  - assert (q * 2 ^ (-53) * inject_Z b == q * inject_Z b * 2 ^ (-53)) as -> by ring. lra.
Qed.

Lemma ratio_lt_exact (a b c d : Z) :
  (0 <= a < 2 ^ 53)%Z -> (0 < b < 2 ^ 53)%Z -> (0 <= c < 2 ^ 53)%Z -> (0 < d < 2 ^ 53)%Z ->
  (a * d + c * b < 2 ^ 53)%Z -> (a * d < c * b)%Z ->
  partial_cmp (ratio a b) (ratio c d) = Some Lt.
Proof.
  intros Ha Hb Hc Hd Hsum Hlt.
  destruct (ratio_bounds a b Ha Hb) as (x & -> & [_ Hx]%Qabs_Qle_condition).
  destruct (ratio_bounds c d Hc Hd) as (y & -> & [Hy _]%Qabs_Qle_condition).
  simpl. f_equal. apply Qlt_alt.
  assert (Hb1 : 0 < inject_Z b) by (change 0 with (inject_Z 0); rewrite <-Zlt_Qlt; lia).
  assert (Hd1 : 0 < inject_Z d) by (change 0 with (inject_Z 0); rewrite <-Zlt_Qlt; lia).
  assert (Hbd : 0 < inject_Z b * inject_Z d) by by apply Qmult_lt_0_compat.
  apply (Qmult_lt_r _ _ (inject_Z b * inject_Z d)); [done|].
  assert (Hs : inject_Z a * inject_Z d + inject_Z c * inject_Z b < 2 ^ 53).
  { rewrite <-!inject_Z_mult, <-inject_Z_plus, pow2_Z, <-Zlt_Qlt by lia. done. }
  assert (Hl : inject_Z a * inject_Z d + 1 <= inject_Z c * inject_Z b).
  { change 1 with (inject_Z 1). rewrite <-!inject_Z_mult, <-inject_Z_plus, <-Zle_Qle. lia. }
  assert (H1 : (x * inject_Z b - inject_Z a) * inject_Z d <= inject_Z a * 2 ^ (-53) * inject_Z d)
    by (apply Qmult_le_compat_r; lra).
  assert (H2 : - (inject_Z c * 2 ^ (-53)) * inject_Z b <= (y * inject_Z d - inject_Z c) * inject_Z b)
    by (apply Qmult_le_compat_r; lra).
  assert (H3 : 2 ^ (-53) * (inject_Z a * inject_Z d + inject_Z c * inject_Z b) < 2 ^ (-53) * 2 ^ 53)
    by (apply Qmult_lt_l; done).
  assert (2 ^ (-53) * 2 ^ 53 == 1) as E by reflexivity. rewrite E in H3.
  ring_simplify in H1. ring_simplify in H2. ring_simplify in H3. ring_simplify.
  lra.
Qed.

Lemma partial_cmp_antisym (a b : f64) : partial_cmp b a = CompOpp <$> partial_cmp a b.
Proof.
  destruct a as [x|[]|], b as [y|[]|]; try done. simpl. by rewrite Qcompare_antisym.
Qed.

(** Comparing rounded ratios compares the exact ones. *)
Lemma ratio_cmp_exact (a b c d : Z) :
  (0 <= a < 2 ^ 53)%Z -> (0 < b < 2 ^ 53)%Z -> (0 <= c < 2 ^ 53)%Z -> (0 < d < 2 ^ 53)%Z ->
  (a * d + c * b < 2 ^ 53)%Z ->
  partial_cmp (ratio a b) (ratio c d) = Some (Z.compare (a * d) (c * b)).
Proof.
  intros Ha Hb Hc Hd Hsum. destruct (Z.compare_spec (a * d) (c * b)) as [Heq|Hlt|Hgt].
  - rewrite !ratio_round by done.
    assert (inject_Z a / inject_Z b == inject_Z c / inject_Z d) as ->.
    { unfold Qeq, Qdiv, Qmult, Qinv, inject_Z. destruct b, d; try lia. simpl. lia. }
    destruct (ratio_bounds c d Hc Hd) as (r & Hr & _). rewrite ratio_round in Hr by done.
    rewrite Hr. simpl. f_equal. by apply Qeq_alt.
  - apply ratio_lt_exact; done.
  - rewrite partial_cmp_antisym, (ratio_lt_exact c d a b) by (done || lia). done.
Qed.

(** ** The order on ratios *)

Lemma partial_cmp_trans (a b c : f64) :
  partial_cmp a b = Some Lt -> partial_cmp b c = Some Lt -> partial_cmp a c = Some Lt.
Proof.
  destruct a as [x|[]|], b as [y|[]|], c as [z|[]|]; cbn [partial_cmp]; try done.
  intros [= Hxy] [= Hyz]. apply Qlt_alt in Hxy, Hyz. f_equal. apply (proj1 (Qlt_alt x z)). lra.
Qed.

Lemma partial_cmp_eq_l (a b c : f64) :
  partial_cmp a b = Some Eq -> partial_cmp a c = partial_cmp b c.
Proof.
  destruct a as [x|[]|], b as [y|[]|], c as [z|[]|]; cbn [partial_cmp]; try done.
  intros [= Hxy]. apply Qeq_alt in Hxy. by rewrite Hxy.
Qed.

Lemma partial_cmp_eq_r (a b c : f64) :
  partial_cmp a b = Some Eq -> partial_cmp c a = partial_cmp c b.
Proof.
  intros Hab. rewrite (partial_cmp_antisym a c), (partial_cmp_antisym b c).
  by rewrite (partial_cmp_eq_l a b c Hab).
Qed.
