(* ===== verification/Duration.v ===== *)
(** * Duration: Go durations in the configuration, [crates/config/src/duration.rs]

    The parser of [time.ParseDuration]'s syntax, with its [f64] arithmetic, and
    the [Display] of a duration.  A [Duration] is its nanoseconds. *)

From Stdlib Require Import ZArith QArith Lia Ascii Lqa Qround.
From S2P Require Import Prelude Text Float64.
Open Scope Z_scope.

(** [fmt::Display for GoDuration]. *)
Definition display_go (d : Z) : string :=
  let secs := d / nanos_per_sec in
  let h := secs / 3600 in
  let m := secs mod 3600 / 60 in
  let s := secs mod 60 in
  if h =? 0 then
    if m =? 0 then dec s +:+ "s"
    else if s =? 0 then dec m +:+ "m"
    else dec m +:+ "m" +:+ dec s +:+ "s"
  else if (m =? 0) && (s =? 0) then dec h +:+ "h"
  else if s =? 0 then dec h +:+ "h" +:+ dec m +:+ "m"
  else dec h +:+ "h" +:+ dec m +:+ "m" +:+ dec s +:+ "s".

(** [unit_nanos]; the two micro signs are two characters of UTF-8 each. *)
Definition MICRO : string := String (ascii_of_code 194) (String (ascii_of_code 181) "s").
Definition MU : string := String (ascii_of_code 206) (String (ascii_of_code 188) "s").
Definition unit_nanos (unit : string) : option f64 :=
  if bool_decide (unit = "ns") then Some (of_int 1)
  else if bool_decide (unit = "us") || bool_decide (unit = MICRO) || bool_decide (unit = MU) then Some (of_int 1000)
  else if bool_decide (unit = "ms") then Some (of_int 1000000)
  else if bool_decide (unit = "s") then Some (of_int 1000000000)
  else if bool_decide (unit = "m") then Some (mul (of_int 60) (of_int 1000000000))
  else if bool_decide (unit = "h") then Some (mul (of_int 3600) (of_int 1000000000))
  else None.

(** [str::find] with a predicate, as the two sides. *)
Fixpoint span_while (p : ascii -> bool) (s : string) : string * string :=
  match s with
  | EmptyString => (EmptyString, EmptyString)
  | String c s' => if p c then let '(a, b) := span_while p s' in (String c a, b) else (EmptyString, s)
  end.
Definition number_char (c : ascii) : bool := is_ascii_digit c || Ascii.eqb c ".".

(** [f64::from_str] of digits and dots: the decimal, correctly rounded. *)
Definition digits_or_zero (s : string) : Z := default 0 (parse_digits s).
Definition parse_f64 (number : string) : option f64 :=
  match split_on "." number with
  | [whole] => if bool_decide (whole = EmptyString) then None else Some (round (inject_Z (digits_or_zero whole)))
  | [whole; fraction] =>
      if bool_decide (whole = EmptyString) && bool_decide (fraction = EmptyString) then None
      else Some (round (inject_Z (digits_or_zero (whole +:+ fraction)) / inject_Z (10 ^ str_len fraction)))
  | _ => None
  end.

(** The loop of [parse_go_duration]: one number and its unit a turn. *)
Inductive DurationError : Type :=
  | EmptyDuration | InvalidDuration | ExpectedNumber | NotNumber (number : string) | MissingUnit
  | UnknownUnit (unit : string) | MustNotBeNegative.
Fixpoint parse_parts (fuel : nat) (rest : string) (total_nanos : f64) : option (result DurationError f64) :=
  if bool_decide (rest = EmptyString) then Some (Ok total_nanos)
  else
    match fuel with
    | O => None
    | S fuel =>
        let '(number, rest) := span_while number_char rest in
        if bool_decide (number = EmptyString) || bool_decide (number = ".") then Some (Err ExpectedNumber)
        else
          match parse_f64 number with
          | None => Some (Err (NotNumber number))
          | Some value =>
              let '(unit, rest) := span_while (fun c => negb (number_char c)) rest in
              if bool_decide (unit = EmptyString) then Some (Err MissingUnit)
              else
                match unit_nanos unit with
                | None => Some (Err (UnknownUnit unit))
                | Some nanos_per => parse_parts fuel rest (add total_nanos (mul value nanos_per))
                end
          end
    end.

(** [parse_go_duration]. *)
Definition parse_go_duration (input : string) : option (result DurationError Z) :=
  let s := Text.trim input in
  if bool_decide (s = EmptyString) then Some (Err EmptyDuration)
  else if bool_decide (s = "0") || bool_decide (s = "+0") || bool_decide (s = "-0") then Some (Ok 0)
  else
    let '(negative, rest) :=
      match strip_prefix "-" s with
      | Some r => (true, r)
      | None => (false, default s (strip_prefix "+" s))
      end in
    if bool_decide (rest = EmptyString) then Some (Err InvalidDuration)
    else
      parsed ← parse_parts (String.length rest) rest (Finite 0);
      Some (total_nanos ← parsed;
            if negative || flt total_nanos (Finite 0) then Err MustNotBeNegative else Ok (as_u64 total_nanos)).

Example go_forms :
  map parse_go_duration ["24h"; "1h30m"; "300ms"; "1.5h"; "2h45m30s"; "0"; "soon"; "12"; "-1h"; "1h-30m"] =
  map (fun r => Some r)
    [Ok (24 * 3600 * nanos_per_sec); Ok (5400 * nanos_per_sec); Ok 300000000; Ok (5400 * nanos_per_sec);
     Ok (9930 * nanos_per_sec); Ok 0; Err ExpectedNumber; Err MissingUnit; Err MustNotBeNegative; Err (UnknownUnit "h-")].
Proof. vm_compute. reflexivity. Qed.

(** ** Termination *)

Lemma span_length p s : (String.length (snd (span_while p s)) <= String.length s)%nat.
Proof. induction s as [|c s IH]; cbn; [lia|]. destruct (p c); [|cbn; lia]. destruct (span_while p s). cbn in *. lia. Qed.
Lemma span_shorter p s : fst (span_while p s) <> EmptyString -> (String.length (snd (span_while p s)) < String.length s)%nat.
Proof.
  destruct s as [|c s]; cbn; [done|]. destruct (p c); [|done]. pose proof (span_length p s).
  destruct (span_while p s). cbn in *. lia.
Qed.

Lemma parse_parts_total fuel rest total :
  (String.length rest <= fuel)%nat -> is_Some (parse_parts fuel rest total).
Proof.
  revert rest total. induction fuel as [|fuel IH]; intros rest total Hf; cbn [parse_parts].
  - destruct rest; [done|cbn in Hf; lia].
  - case_bool_decide as Hr; [done|]. pose proof (span_shorter number_char rest) as H1.
    destruct (span_while number_char rest) as [number rest1]. cbn [fst snd] in H1.
    case_bool_decide as Hn; [done|]. cbn [orb]. case_bool_decide; [done|].
    destruct (parse_f64 number); [|done]. pose proof (span_length (fun c => negb (number_char c)) rest1) as H2.
    destruct (span_while _ rest1) as [unit rest2]. cbn [snd] in H2. case_bool_decide; [done|].
    destruct (unit_nanos unit); [|done]. apply IH. specialize (H1 Hn). lia.
Qed.

Lemma parse_go_total input : is_Some (parse_go_duration input).
Proof.
  unfold parse_go_duration. case_bool_decide; [done|]. destruct (_ || _); [done|].
  destruct (match strip_prefix "-" _ with Some _ => _ | None => _ end) as [negative rest].
  case_bool_decide; [done|]. destruct (parse_parts_total (String.length rest) rest (Finite 0)) as [r ->]; [lia|]. done.
Qed.

(** ** Exact arithmetic *)

(** A float that is this integer. *)
Definition is_int (f : f64) (n : Z) : Prop := exists q, f = Finite q /\ (q == inject_Z n)%Q.

Lemma round_int q n m j :
  (q == inject_Z n)%Q -> n = m * 2 ^ j -> 0 <= m < 2 ^ 53 -> 0 <= j <= 900 -> is_int (round q) n.
Proof.
  intros Hq -> Hm Hj. destruct (round_exact q m j) as (r & Hr & Hrq); [|done|lia|].
  - rewrite Hq, inject_Z_mult, pow2_Z by lia. reflexivity.
  - exists r. split; [done|]. by rewrite Hrq.
Qed.
Lemma of_int_int n : 0 <= n < 2 ^ 53 -> is_int (of_int n) n.
Proof. intros Hn. apply (round_int _ _ n 0); [reflexivity|lia..]. Qed.
Lemma mul_int a b x y m j :
  is_int a x -> is_int b y -> x * y = m * 2 ^ j -> 0 <= m < 2 ^ 53 -> 0 <= j <= 900 -> is_int (mul a b) (x * y).
Proof.
  intros (p & -> & Hp) (q & -> & Hq) Heq Hm Hj. cbn [mul]. apply (round_int _ _ m j); [|done..].
  by rewrite Hp, Hq, inject_Z_mult.
Qed.
Lemma add_int a b x y m j :
  is_int a x -> is_int b y -> x + y = m * 2 ^ j -> 0 <= m < 2 ^ 53 -> 0 <= j <= 900 -> is_int (add a b) (x + y).
Proof.
  intros (p & -> & Hp) (q & -> & Hq) Heq Hm Hj. cbn [add]. apply (round_int _ _ m j); [|done..].
  by rewrite Hp, Hq, inject_Z_plus.
Qed.
Lemma as_u64_int f n : is_int f n -> 0 <= n <= u64_max -> as_u64 f = n.
Proof. intros (q & -> & Hq) Hn. cbn [as_u64]. rewrite Hq, Qfloor_Z. lia. Qed.
Lemma not_negative f n : is_int f n -> 0 <= n -> flt f (Finite 0) = false.
Proof.
  intros (q & -> & Hq) Hn. unfold flt. cbn [partial_cmp]. destruct (Qcompare_spec q 0); [done| |done].
  exfalso. rewrite Hq in *. unfold Qlt in *. cbn in *. lia.
Qed.

(** ** Reading what was written *)

(** Numbers with a unit each. *)
Fixpoint render_parts (l : list (Z * ascii)) : string :=
  match l with [] => EmptyString | (z, u) :: l => dec z +:+ String u (render_parts l) end.
Definition seconds_of (u : ascii) : Z :=
  if Ascii.eqb u "h" then 3600 else if Ascii.eqb u "m" then 60 else 1.
Definition nanos_of (l : list (Z * ascii)) : Z :=
  foldr (fun p t => fst p * seconds_of (snd p) * nanos_per_sec + t) 0 l.
Definition good_part (p : Z * ascii) : Prop := 0 <= fst p /\ (snd p = "h" \/ snd p = "m" \/ snd p = "s")%char.

Lemma span_all p s c t : str_all p s = true -> p c = false -> span_while p (s +:+ String c t) = (s, String c t).
Proof.
  intros Hs Hc. induction s as [|a s IH]; simpl in *; [by rewrite Hc|]. apply andb_prop in Hs as [-> Hs].
  by rewrite (IH Hs).
Qed.
Lemma span_one (p : ascii -> bool) c s :
  p c = true -> match s with String d _ => p d = false | EmptyString => True end ->
  span_while p (String c s) = (String c EmptyString, s).
Proof. intros Hc Hs. simpl. rewrite Hc. destruct s as [|d s]; [done|]. simpl. by rewrite Hs. Qed.

Lemma dec_number z : str_all number_char (dec z) = true.
Proof.
  pose proof (dec_digits z) as Hd. induction (dec z) as [|a s IH]; [done|]. cbn in *. apply andb_prop in Hd as [Ha Hs].
  unfold number_char. rewrite Ha. by apply IH.
Qed.
Lemma dec_first z : exists c s, dec z = String c s /\ is_ascii_digit c = true.
Proof.
  pose proof (dec_digits z) as Hd. pose proof (dec_nonempty z). destruct (dec z) as [|c s]; [done|].
  cbn in Hd. apply andb_prop in Hd as [Hc _]. by exists c, s.
Qed.
Lemma parse_f64_dec z : 0 <= z -> parse_f64 (dec z) = Some (of_int z).
Proof.
  intros Hz. unfold parse_f64. rewrite split_on_free.
  - rewrite bool_decide_false by apply dec_nonempty. unfold digits_or_zero. by rewrite parse_digits_dec.
  - unfold free. pose proof (dec_digits z) as Hd. induction (dec z) as [|a s IH]; [done|]. cbn in *.
    apply andb_prop in Hd as [Ha Hs]. rewrite (IH Hs), andb_true_r. destruct (Ascii.eqb_spec a "."); [|done].
    subst. by vm_compute in Ha.
Qed.

Lemma unit_nanos_part u : (u = "h" \/ u = "m" \/ u = "s")%char ->
  exists f, unit_nanos (String u EmptyString) = Some f /\ is_int f (seconds_of u * nanos_per_sec) /\ number_char u = false.
Proof.
  intros [-> |[-> | ->]]; (eexists; split; [vm_compute; reflexivity|]); (split; [|done]); (eexists; split; [reflexivity|]); reflexivity.
Qed.

Lemma parse_part fuel z u l total :
  good_part (z, u) -> Forall good_part l -> z < 2 ^ 53 ->
  exists f, is_int f (seconds_of u * nanos_per_sec) /\
  parse_parts (S fuel) (render_parts ((z, u) :: l)) total = parse_parts fuel (render_parts l) (add total (mul (of_int z) f)).
Proof.
  intros [Hz Hu] Hl Hb. cbn [fst snd] in *. destruct (unit_nanos_part u Hu) as (f & Hf & Hi & Hn). exists f. split; [done|].
  cbn [parse_parts render_parts]. rewrite bool_decide_false.
  2: { destruct (dec_first z) as (c & s & -> & _). done. }
  rewrite span_all by (apply dec_number || done). rewrite (bool_decide_false (dec z = EmptyString)) by apply dec_nonempty.
  rewrite (bool_decide_false (dec z = ".")), parse_f64_dec by first [done | intros Hd; pose proof (dec_digits z) as H; by rewrite Hd in H].
  cbn [orb]. rewrite span_one; [|by rewrite Hn|].
  - by rewrite bool_decide_false, Hf.
  - destruct l as [|[z' u'] l]; [done|]. cbn [render_parts]. destruct (dec_first z') as (c & s & -> & Hc).
    change (negb (is_ascii_digit c || Ascii.eqb c ".") = false). by rewrite Hc.
Qed.

Lemma parse_render fuel l total t :
  Forall good_part l -> (length l <= fuel)%nat -> is_int total (512 * t) -> 0 <= t ->
  512 * t + nanos_of l < 512 * 2 ^ 53 ->
  exists f, parse_parts fuel (render_parts l) total = Some (Ok f) /\ is_int f (512 * t + nanos_of l).
Proof.
  revert fuel total t. induction l as [|[z u] l IH]; intros fuel total t Hl Hf Ht H0 Hmax.
  - exists total. rewrite Z.add_0_r. destruct fuel; by split.
  - destruct fuel as [|fuel]; [cbn in Hf; lia|]. apply Forall_cons in Hl as [Hg Hl]. pose proof Hg as [Hz Hu]. cbn [fst snd] in Hz, Hu.
    assert (Hn : 0 <= nanos_of l).
    { clear -Hl. induction Hl as [|[z u] l [Hz _] _ IH]; [done|]. change (0 <= z * seconds_of u * nanos_per_sec + nanos_of l).
      cbn in Hz. unfold seconds_of, nanos_per_sec. destruct (Ascii.eqb u "h"), (Ascii.eqb u "m"); lia. }
    cbn [nanos_of foldr fst snd] in Hmax. fold (nanos_of l) in Hmax.
    assert (Hk : exists k, seconds_of u * nanos_per_sec = 512 * k /\ 1953125 <= k).
    { exists (seconds_of u * 1953125). unfold seconds_of, nanos_per_sec. destruct (Ascii.eqb u "h"), (Ascii.eqb u "m"); lia. }
    destruct Hk as (k & Hk & Hk1). rewrite <-Z.mul_assoc, Hk in Hmax.
    destruct (parse_part fuel z u l total Hg Hl) as (f & Hi & ->); [nia|].
    rewrite Hk in Hi. destruct (IH fuel (add total (mul (of_int z) f)) (t + z * k)) as (g & -> & Hgi); [done|cbn in Hf; lia| |nia|nia|].
    + replace (512 * (t + z * k)) with (512 * t + z * (512 * k)) by lia.
      apply (add_int _ _ _ _ (t + z * k) 9); [done| |lia|nia|lia].
      apply (mul_int _ _ _ _ (z * k) 9); [apply of_int_int; nia|done|lia|nia|lia].
    + exists g. split; [done|]. cbn [nanos_of foldr fst snd]. fold (nanos_of l). rewrite <-(Z.mul_assoc z), Hk.
      replace (512 * t + (z * (512 * k) + nanos_of l)) with (512 * (t + z * k) + nanos_of l) by lia. done.
Qed.

Lemma trim_start_keeps c s : is_space c = false -> trim_start_matches is_space (String c s) = String c s.
Proof. intros Hc. simpl. by rewrite Hc. Qed.
Lemma trim_keeps c s x d :
  String c s = x +:+ String d EmptyString -> is_space c = false -> is_space d = false -> Text.trim (String c s) = String c s.
Proof.
  intros Heq Hc Hd. unfold Text.trim. rewrite (trim_start_keeps c s Hc), Heq, string_rev_append.
  change (string_rev (String d EmptyString) +:+ string_rev x) with (String d (string_rev x)).
  rewrite trim_start_keeps by done. change (String d (string_rev x)) with (string_rev (String d EmptyString) +:+ string_rev x).
  by rewrite <-string_rev_append, string_rev_rev.
Qed.

Lemma render_last l : Forall good_part l -> l <> [] -> exists x d, render_parts l = x +:+ String d EmptyString /\ (d = "h" \/ d = "m" \/ d = "s")%char.
Proof.
  induction 1 as [|[z u] l [_ Hu] Hl IH]; [done|]. intros _. cbn [render_parts snd] in *. destruct l as [|p l].
  - by exists (dec z), u.
  - destruct IH as (x & d & -> & Hd); [done|]. exists (dec z +:+ String u x), d. by rewrite string_app_assoc.
Qed.

Lemma digit_not_space c : is_ascii_digit c = true -> is_space c = false.
Proof. unfold is_ascii_digit, in_range, is_space. change (ascii_code "0") with 48. change (ascii_code "9") with 57. lia. Qed.

Lemma parse_go_render l :
  Forall good_part l -> l <> [] -> nanos_of l < 512 * 2 ^ 53 -> 0 <= nanos_of l ->
  parse_go_duration (render_parts l) = Some (Ok (nanos_of l)).
Proof.
  intros Hl Hne Hmax H0. destruct (render_last l Hl Hne) as (x & d & Hx & Hd).
  assert (Hfirst : exists c s, render_parts l = String c s /\ is_ascii_digit c = true).
  { destruct l as [|[z u] l]; [done|]. cbn [render_parts]. destruct (dec_first z) as (c & s & -> & Hc). by exists c, (s +:+ String u (render_parts l)). }
  destruct Hfirst as (c & s & Hr & Hc).
  assert (Hshort : forall a b, a <> "h"%char -> a <> "m"%char -> a <> "s"%char -> render_parts l <> b +:+ String a EmptyString).
  { intros a b ? ? ? Heq. rewrite Hx in Heq. apply (f_equal string_rev) in Heq. rewrite !string_rev_append in Heq.
    injection Heq as Heq _. naive_solver. }
  unfold parse_go_duration. rewrite Hr, (trim_keeps c s x d); [|by rewrite <-Hr|by apply digit_not_space|by destruct Hd as [-> |[-> | ->]]].
  rewrite <-Hr. rewrite bool_decide_false by (by rewrite Hr).
  rewrite (bool_decide_false (_ = "0")) by (by apply (Hshort "0"%char EmptyString)).
  rewrite (bool_decide_false (_ = "+0")) by (by apply (Hshort "0"%char "+")).
  rewrite (bool_decide_false (_ = "-0")) by (by apply (Hshort "0"%char "-")). cbn [orb].
  assert (Hs : strip_prefix "-" (render_parts l) = None /\ strip_prefix "+" (render_parts l) = None).
  { rewrite Hr. cbn [strip_prefix]. by destruct (Ascii.eqb_spec "-" c) as [E|], (Ascii.eqb_spec "+" c) as [E'|]; subst. }
  destruct Hs as [-> ->]. cbn [default]. rewrite bool_decide_false by (by rewrite Hr).
  assert (Hlen : (length l <= String.length (render_parts l))%nat).
  { clear. induction l as [|[z u] l IH]; [done|]. cbn [render_parts]. destruct (dec_first z) as (c & s & -> & _).
    cbn. rewrite string_length_app. cbn. lia. }
  destruct (parse_render (String.length (render_parts l)) l (Finite 0) 0) as (f & -> & Hf); [done..| |done|lia|].
  - by exists 0%Q.
  - cbn. rewrite Z.add_0_l in Hf. rewrite (not_negative f (nanos_of l) Hf H0).
    by rewrite (as_u64_int f (nanos_of l)) by (done || (unfold u64_max; lia)).
Qed.

(** Durations in the configuration are read back.  Every text is read or
    refused after a bounded number of steps; and what the program writes for a
    duration of up to 146 years, in hours, minutes and seconds, is read back,
    through the [f64] arithmetic of the parser, as exactly the whole seconds
    of that duration. *)
Theorem duration_round_trip (input : string) (d : Z) :
  is_Some (parse_go_duration input) /\
  (0 <= d < 4611686018 * nanos_per_sec ->
   parse_go_duration (display_go d) = Some (Ok (d / nanos_per_sec * nanos_per_sec))).
Proof.
  split; [apply parse_go_total|]. intros Hd. unfold display_go. set (secs := d / nanos_per_sec).
  assert (Hs : 0 <= secs < 4611686018) by (unfold secs, nanos_per_sec in *; split; [apply Z.div_pos; lia|apply Z.div_lt_upper_bound; lia]).
  set (h := secs / 3600). set (m := secs mod 3600 / 60). set (s := secs mod 60).
  assert (Hh : secs = 3600 * h + 60 * m + s /\ 0 <= h /\ 0 <= m /\ 0 <= s).
  { unfold h, m, s. pose proof (Z.div_mod secs 3600). pose proof (Z.div_mod (secs mod 3600) 60).
    assert (secs mod 60 = (secs mod 3600) mod 60) as -> by (symmetry; apply Z.mod_mod_divide; by exists 60).
    pose proof (Z.mod_pos_bound secs 3600). pose proof (Z.mod_pos_bound (secs mod 3600) 60).
    pose proof (Z.div_pos secs 3600). pose proof (Z.div_pos (secs mod 3600) 60). lia. }
  clearbody h m s. destruct Hh as (Hsum & Hh & Hm & Hs').
  assert (Hgo : forall l, Forall good_part l -> l <> [] -> nanos_of l = secs * nanos_per_sec ->
    parse_go_duration (render_parts l) = Some (Ok (secs * nanos_per_sec))).
  { intros l Hl Hne Hn. rewrite <-Hn. apply parse_go_render; [done..| |]; rewrite Hn; unfold nanos_per_sec; lia. }
  destruct (Z.eqb_spec h 0), (Z.eqb_spec m 0), (Z.eqb_spec s 0); cbn [andb];
    first [ apply (Hgo [(s, "s"%char)]) | apply (Hgo [(m, "m"%char)]) | apply (Hgo [(m, "m"%char); (s, "s"%char)])
          | apply (Hgo [(h, "h"%char)]) | apply (Hgo [(h, "h"%char); (m, "m"%char)])
          | apply (Hgo [(h, "h"%char); (m, "m"%char); (s, "s"%char)]) ];
    try done; try (repeat constructor; cbn; auto; fail);
    cbn [nanos_of foldr fst snd]; unfold seconds_of; cbn; lia.
Qed.

Lemma duration_round_trip_witness :
  parse_go_duration (display_go (9930 * nanos_per_sec)) = Some (Ok (9930 * nanos_per_sec)) /\
  display_go (9930 * nanos_per_sec) = "2h45m30s".
Proof. split; [|by vm_compute]. apply (duration_round_trip "" (9930 * nanos_per_sec)). unfold nanos_per_sec. lia. Defined.
