(* ===== verification/Xml.v ===== *)
(** * Xml: escaping, entities and the well-formedness check of
    [crates/hypervisor/src/xml.rs]

    Text is modelled as Rust's [chars()]: a list of Unicode scalar values.
    The functions of the source cut strings at the positions [find] returns;
    here they return the pieces.  Error texts are the constructors of
    [XmlError].  The loops of [validate_xml] and [validate_attributes] run on
    fuel equal to the length of their input; [validate_xml_total] shows that
    it never runs out. *)

From Stdlib Require Import ZArith Lia Ascii.
From S2P Require Import Prelude Text.
Open Scope Z_scope.

Definition text : Type := list Z.

(** An ASCII literal. *)
Definition lit (s : string) : text := ascii_code <$> chars s.

(** [char as u32] of the characters the source names. *)
Definition TAB : Z := 9.
Definition LF : Z := 10.
Definition CR : Z := 13.
Definition SPACE : Z := 32.
Definition DQUOTE : Z := 34.
Definition AMP : Z := 38.
Definition APOS : Z := 39.
Definition SLASH : Z := 47.
Definition SEMI : Z := 59.
Definition LESS : Z := 60.
Definition EQUALS : Z := 61.
Definition GREATER : Z := 62.
Definition REPLACEMENT : Z := 65533.

Definition within (lo hi c : Z) : bool := (lo <=? c) && (c <=? hi).

(** A Unicode scalar value: what a [char] can be. *)
Definition is_scalar (c : Z) : bool := within 0 55295 c || within 57344 1114111 c.

(** [char::is_whitespace] and [char::is_ascii_whitespace]. *)
Definition is_whitespace (c : Z) : bool :=
  within 9 13 c || (c =? 32) || (c =? 133) || (c =? 160) || (c =? 5760) || within 8192 8202 c ||
  (c =? 8232) || (c =? 8233) || (c =? 8239) || (c =? 8287) || (c =? 12288).
Definition is_ascii_whitespace (c : Z) : bool :=
  (c =? 32) || (c =? 9) || (c =? 10) || (c =? 12) || (c =? 13).

(** [str::trim_start], [trim_end], [trim]. *)
Fixpoint drop_while (p : Z -> bool) (t : text) : text :=
  match t with
  | [] => []
  | c :: t' => if p c then drop_while p t' else t
  end.
Definition trim_start (t : text) : text := drop_while is_whitespace t.
Definition trim_end (t : text) : text := reverse (drop_while is_whitespace (reverse t)).
Definition trim (t : text) : text := trim_end (trim_start t).

(** [find] of a character predicate, with the pieces before and from the hit. *)
Fixpoint break (p : Z -> bool) (t : text) : text * text :=
  match t with
  | [] => ([], [])
  | c :: t' => if p c then ([], t) else let '(a, b) := break p t' in (c :: a, b)
  end.

(** [split_once] of a character. *)
Definition split_char (c : Z) (t : text) : option (text * text) :=
  match break (Z.eqb c) t with
  | (a, _ :: b) => Some (a, b)
  | (_, []) => None
  end.

(** [strip_prefix] and [find] of a string. *)
Fixpoint strip (p t : text) : option text :=
  match p, t with
  | [], _ => Some t
  | a :: p', b :: t' => if a =? b then strip p' t' else None
  | _ :: _, [] => None
  end.
Fixpoint split_text (p t : text) : option (text * text) :=
  match strip p t with
  | Some rest => Some ([], rest)
  | None =>
      match t with
      | [] => None
      | c :: t' => match split_text p t' with Some (a, b) => Some (c :: a, b) | None => None end
      end
  end.

Inductive XmlError : Type :=
  | UnclosedEntity                      (* unclosed XML entity *)
  | InvalidEntity (entity : text)       (* invalid XML entity &..; *)
  | InvalidCodePoint (entity : text)    (* invalid XML code point &..; *)
  | UnknownEntity (entity : text)       (* unknown XML entity &..; *)
  | CdataEnd                            (* text contains ]]> outside CDATA *)
  | TextOutsideRoot                     (* text outside the root element *)
  | UnclosedComment                     (* unclosed XML comment *)
  | UnclosedInstruction                 (* unclosed XML processing instruction *)
  | UnclosedTag                         (* unclosed XML tag *)
  | InvalidEndTag                       (* invalid XML end tag *)
  | UnexpectedEnd (name : text)         (* unexpected </..> *)
  | Mismatched (open_name end_name : text)  (* mismatched XML tags *)
  | InvalidElementName (name : text)    (* invalid XML element name *)
  | InvalidAttributeName (name : text)  (* invalid XML attribute name *)
  | NoEqualsSign (name : text)          (* attribute .. has no equals sign *)
  | NotQuoted (name : text)             (* attribute .. is not quoted *)
  | NoClosingQuote (name : text)        (* attribute .. has no closing quote *)
  | UnescapedLess (name : text)         (* attribute .. contains an unescaped < *)
  | SecondRoot                          (* document has more than one root element *)
  | UnclosedElement (name : text)       (* unclosed XML element <..> *)
  | NoRoot                              (* document has no root element *)
  | NotDomain                           (* root element is not domain *)
  | MissingElement (name : text)        (* domain xml missing .. *)
  | UnclosedText (name : text)          (* domain xml has unclosed .. *)
  | OutOfFuel.

(** ** Escaping *)

(** [is_xml_character]. *)
Definition is_xml_character (c : Z) : bool :=
  within 32 55295 c || within 57344 65533 c || within 65536 1114111 c.

(** One round of [escape_xml]. *)
Definition escape_char (c : Z) : text :=
  if c =? DQUOTE then lit "&#34;"
  else if c =? APOS then lit "&#39;"
  else if c =? AMP then lit "&amp;"
  else if c =? LESS then lit "&lt;"
  else if c =? GREATER then lit "&gt;"
  else if c =? TAB then lit "&#x9;"
  else if c =? LF then lit "&#xA;"
  else if c =? CR then lit "&#xD;"
  else if is_xml_character c then [c]
  else [REPLACEMENT].

(** [escape_xml]. *)
Definition escape_xml (value : text) : text := value ≫= escape_char.

(** ** Entities *)

(** [u32::from_str_radix(_, 16)] and [str::parse::<u32>]. *)
Definition digit_value (radix c : Z) : option Z :=
  let v := if within 48 57 c then c - 48
           else if within 97 102 c then c - 87
           else if within 65 70 c then c - 55 else 16 in
  if v <? radix then Some v else None.
Fixpoint digits_value (radix acc : Z) (t : text) : option Z :=
  match t with
  | [] => Some acc
  | c :: t' =>
      match digit_value radix c with
      | Some v => if acc * radix + v <=? u32_max then digits_value radix (acc * radix + v) t' else None
      | None => None
      end
  end.
Definition parse_radix (radix : Z) (t : text) : option Z :=
  match default t (strip (lit "+") t) with
  | [] => None
  | digits => digits_value radix 0 digits
  end.

(** [char::from_u32]. *)
Definition from_u32 (v : Z) : option Z := if is_scalar v then Some v else None.

Definition numeric (entity : text) (v : option Z) : result XmlError Z :=
  match v with
  | None => Err (InvalidEntity entity)
  | Some v => ok_or (from_u32 v) (InvalidCodePoint entity)
  end.

(** The [match entity] of [decode_entities], with the check after it. *)
Definition entity_char (entity : text) : result XmlError Z :=
  c ← (if bool_decide (entity = lit "amp") then Ok AMP
       else if bool_decide (entity = lit "lt") then Ok LESS
       else if bool_decide (entity = lit "gt") then Ok GREATER
       else if bool_decide (entity = lit "quot") then Ok DQUOTE
       else if bool_decide (entity = lit "apos") then Ok APOS
       else match strip (lit "#x") entity with
            | Some digits => numeric entity (parse_radix 16 digits)
            | None =>
                match strip (lit "#") entity with
                | Some digits => numeric entity (parse_radix 10 digits)
                | None => Err (UnknownEntity entity)
                end
            end);
  if negb ((c =? TAB) || (c =? LF) || (c =? CR)) && negb (is_xml_character c)
  then Err (InvalidCodePoint entity) else Ok c.

(** [decode_entities]: copy up to an ampersand, read up to the semicolon,
    push the character, go on.  [entity] holds what was read after an open
    ampersand. *)
Fixpoint decode_from (entity : option text) (t : text) : result XmlError text :=
  match t, entity with
  | [], None => Ok []
  | [], Some _ => Err UnclosedEntity
  | c :: t', None =>
      if c =? AMP then decode_from (Some []) t'
      else rest ← decode_from None t'; Ok (c :: rest)
  | c :: t', Some e =>
      if c =? SEMI then ch ← entity_char e; rest ← decode_from None t'; Ok (ch :: rest)
      else decode_from (Some (e ++ [c])) t'
  end.
Definition decode_entities (t : text) : result XmlError text := decode_from None t.

(** [validate_text]. *)
Definition validate_text (t : text) : result XmlError unit :=
  match split_text (lit "]]>") t with
  | Some _ => Err CdataEnd
  | None => _ ← decode_entities t; Ok tt
  end.

(** ** Tags *)

(** [valid_xml_name]. *)
Definition is_letter (c : Z) : bool := within 65 90 c || within 97 122 c || (c =? 95) || (c =? 58).
Definition valid_xml_name (name : text) : bool :=
  match name with
  | [] => false
  | c :: rest =>
      is_letter c && forallb (fun c => is_letter c || within 48 57 c || (c =? 45) || (c =? 46)) rest
  end.

(** [tag_end]: the text up to the [>] outside quotes, and the text after it. *)
Fixpoint tag_end (quote : option Z) (t : text) : result XmlError (text * text) :=
  match t with
  | [] => Err UnclosedTag
  | c :: t' =>
      let next quote := '(body, rest) ← tag_end quote t'; Ok (c :: body, rest) in
      match quote with
      | Some expected => if expected =? c then next None else next quote
      | None =>
          if (c =? APOS) || (c =? DQUOTE) then next (Some c)
          else if c =? GREATER then Ok ([], t')
          else next None
      end
  end.

(** The loop of [validate_attributes]. *)
Fixpoint attributes_loop (fuel : nat) (attributes : text) : result XmlError unit :=
  match trim_start attributes with
  | [] => Ok tt
  | trimmed =>
      match fuel with
      | O => Err OutOfFuel
      | S fuel' =>
          let '(name, rest) := break (fun c => is_ascii_whitespace c || (c =? EQUALS)) trimmed in
          if negb (valid_xml_name name) then Err (InvalidAttributeName name)
          else
            after ← ok_or (strip [EQUALS] (trim_start rest)) (NoEqualsSign name);
            match trim_start after with
            | quote :: value_and =>
                if (quote =? APOS) || (quote =? DQUOTE) then
                  '(value, next) ← ok_or (split_char quote value_and) (NoClosingQuote name);
                  if existsb (Z.eqb LESS) value then Err (UnescapedLess name)
                  else _ ← decode_entities value; attributes_loop fuel' next
                else Err (NotQuoted name)
            | [] => Err (NotQuoted name)
            end
      end
  end.

(** [validate_attributes]. *)
Definition validate_attributes (attributes : text) : result XmlError unit :=
  attributes_loop (length attributes) attributes.

Definition ends_with (c : Z) (t : text) : bool := bool_decide (last t = Some c).

(** What one start or end tag does to the stack of open elements and to the
    count of roots. *)
Definition tag (stack : list text) (roots : Z) (body : text) : result XmlError (list text * Z) :=
  match strip [SLASH] body with
  | Some rest =>
      let end_name := trim rest in
      if bool_decide (end_name = []) || existsb is_whitespace end_name then Err InvalidEndTag
      else match stack with
           | [] => Err (UnexpectedEnd end_name)
           | open_name :: outer =>
               if bool_decide (open_name = end_name) then Ok (outer, roots)
               else Err (Mismatched open_name end_name)
           end
  | None =>
      let self_closing := ends_with SLASH body in
      let body := if self_closing then trim_end (take (length body - 1) body) else body in
      let '(name, attributes) := break is_whitespace body in
      if negb (valid_xml_name name) then Err (InvalidElementName name)
      else
        _ ← validate_attributes attributes;
        roots ← (if bool_decide (stack = []) then
                   if 1 <? roots + 1 then Err SecondRoot else Ok (roots + 1)
                 else Ok roots);
        Ok (if self_closing then stack else name :: stack, roots)
  end.

(** The loop of [validate_xml]; the stack has the innermost element first. *)
Fixpoint validate_loop (fuel : nat) (stack : list text) (roots : Z) (xml : text) : result XmlError unit :=
  let finish :=
    match stack with
    | name :: _ => Err (UnclosedElement name)
    | [] => if roots =? 1 then Ok tt else Err NoRoot
    end in
  match xml with
  | [] => finish
  | _ =>
      match fuel with
      | O => Err OutOfFuel
      | S fuel' =>
          match split_char LESS xml with
          | None => _ ← validate_text xml; finish
          | Some (before, after) =>
              _ ← validate_text before;
              if bool_decide (stack = []) && negb (bool_decide (trim before = [])) then
                Err TextOutsideRoot
              else match strip (lit "!--") after with
              | Some comment =>
                  '(_, rest) ← ok_or (split_text (lit "-->") comment) UnclosedComment;
                  validate_loop fuel' stack roots rest
              | None =>
                  match strip (lit "?") after with
                  | Some instruction =>
                      '(_, rest) ← ok_or (split_text (lit "?>") instruction) UnclosedInstruction;
                      validate_loop fuel' stack roots rest
                  | None =>
                      '(body, rest) ← tag_end None after;
                      '(stack', roots') ← tag stack roots (trim body);
                      validate_loop fuel' stack' roots' rest
                  end
              end
          end
      end
  end.

(** [validate_xml]. *)
Definition validate_xml (xml : text) : result XmlError unit := validate_loop (length xml) [] 0 xml.

(** ** Identity *)

(** [first_start_tag]. *)
Fixpoint first_start_tag (fuel : nat) (xml : text) : option text :=
  match fuel with
  | O => None
  | S fuel' =>
      match split_char LESS xml with
      | None => None
      | Some (_, rest) =>
          match strip (lit "?") rest with
          | Some _ =>
              match split_text (lit "?>") rest with Some (_, r) => first_start_tag fuel' r | None => None end
          | None =>
              match strip (lit "!--") rest with
              | Some _ =>
                  match split_text (lit "-->") rest with Some (_, r) => first_start_tag fuel' r | None => None end
              | None =>
                  match break (fun c => is_ascii_whitespace c || (c =? GREATER)) rest with
                  | (_, []) => None
                  | (name, _) => Some name
                  end
              end
          end
      end
  end.

(** [direct_text]. *)
Definition direct_text (xml name : text) : result XmlError text :=
  '(_, from) ← ok_or (split_text ([LESS] ++ name ++ [GREATER]) xml) (MissingElement name);
  '(inner, _) ← ok_or (split_text ([LESS; SLASH] ++ name ++ [GREATER]) from) (UnclosedText name);
  decode_entities inner.

(** [domain_identity]. *)
Definition domain_identity (xml : text) : result XmlError (text * text) :=
  _ ← validate_xml xml;
  root ← ok_or (first_start_tag (length xml) xml) NoRoot;
  if negb (bool_decide (root = lit "domain")) then Err NotDomain
  else
    name ← direct_text xml (lit "name");
    uuid ← direct_text xml (lit "uuid");
    Ok (name, uuid).

(** ** Fuel

    Every round of the two loops consumes at least one character. *)

Lemma drop_while_length p t : (length (drop_while p t) <= length t)%nat.
Proof. induction t as [|c t IH]; simpl; [done|]. case_match; simpl; lia. Qed.

Lemma break_app p t a b : break p t = (a, b) -> t = a ++ b.
Proof.
  revert a b. induction t as [|c t IH]; intros a b; simpl; [by intros [= <- <-]|].
  destruct (p c); [by intros [= <- <-]|]. destruct (break p t) as [a' b'].
  intros [= <- <-]. simpl. f_equal. by apply IH.
Qed.

Lemma split_char_app c t a b : split_char c t = Some (a, b) -> t = a ++ c :: b.
Proof.
  unfold split_char. destruct (break (Z.eqb c) t) as [x [|y z]] eqn:Hb; [done|]. intros [= <- <-].
  assert (y = c) as <-; [|by apply break_app in Hb].
  revert x Hb. induction t as [|e t IH]; intros x; simpl; [done|].
  destruct (Z.eqb_spec c e); [congruence|]. destruct (break (Z.eqb c) t) as [a' b'].
  intros [= <- ->]. by eapply IH.
Qed.

Lemma strip_length p t r : strip p t = Some r -> (length r <= length t)%nat.
Proof.
  revert t. induction p as [|a p IH]; intros [|b t]; simpl; try done; intros.
  - by simplify_eq.
  - by simplify_eq.
  - case_match; [|done]. apply IH in H. lia.
Qed.

Lemma split_text_length p t a b : split_text p t = Some (a, b) -> (length b <= length t)%nat.
Proof.
  revert a b. induction t as [|c t IH]; intros a b; simpl.
  - destruct (strip p []) eqn:Hs; [|done]. intros [= <- <-]. by apply strip_length in Hs.
  - destruct (strip p (c :: t)) eqn:Hs; [intros [= <- <-]; by apply strip_length in Hs|].
    destruct (split_text p t) as [[a' b']|]; [|done]. intros [= <- <-].
    specialize (IH a' b' eq_refl). lia.
Qed.

Lemma tag_end_length q t a b : tag_end q t = Ok (a, b) -> (length b < length t)%nat.
Proof.
  revert q a b. induction t as [|c t IH]; intros q a b Ht; simpl in Ht; [done|].
  assert (Hnext : forall q', ('(body, rest) ← tag_end q' t; Ok (c :: body, rest)) = Ok (a, b) ->
    (length b < length (c :: t))%nat).
  { intros q' Hq. apply bind_Ok in Hq as ([x y] & Hx & [= <- <-]). apply IH in Hx. simpl. lia. }
  destruct q as [e|]; [case_match; by eapply Hnext|].
  case_match; [by eapply Hnext|]. case_match; [|by eapply Hnext]. injection Ht as <- <-. simpl. lia.
Qed.

(** A result that is not for want of fuel. *)
Definition fueled {A} (r : result XmlError A) : Prop := r <> Err OutOfFuel.

Lemma fueled_bind {A B} (m : result XmlError A) (f : A -> result XmlError B) :
  fueled m -> (forall a, m = Ok a -> fueled (f a)) -> fueled (m ≫= f).
Proof. unfold fueled. destruct m; simpl; [intros _ Hf; by apply Hf|congruence]. Qed.

Lemma fueled_ok_or {A} (o : option A) e : e <> OutOfFuel -> fueled (ok_or o e).
Proof. unfold fueled. destruct o; simpl; congruence. Qed.

Lemma entity_char_fueled e : fueled (entity_char e).
Proof.
  unfold entity_char. apply fueled_bind; [|intros c _; by case_match].
  unfold numeric. repeat (case_match; try done). all: by apply fueled_ok_or.
Qed.

Lemma decode_from_fueled e t : fueled (decode_from e t).
Proof.
  revert e. induction t as [|c t IH]; intros [e|]; simpl; try done; case_match; try apply IH.
  - apply fueled_bind; [apply entity_char_fueled|]. intros ch _. by apply fueled_bind; [apply IH|].
  - by apply fueled_bind; [apply IH|].
Qed.

Lemma validate_text_fueled t : fueled (validate_text t).
Proof. unfold validate_text. case_match; [done|]. by apply fueled_bind; [apply decode_from_fueled|]. Qed.

Lemma attributes_loop_fueled n a : (length a <= n)%nat -> fueled (attributes_loop n a).
Proof.
  revert a. induction n as [|n IH]; intros a Ha;
    pose proof (drop_while_length is_whitespace a) as Htrim; fold (trim_start a) in Htrim; cbn [attributes_loop];
    destruct (trim_start a) as [|c0 t0] eqn:Ht; try done; [simpl in Htrim; lia|].
  destruct (break _ (c0 :: t0)) as [name rest] eqn:Hb. case_match; [done|].
  apply break_app in Hb. apply (f_equal length) in Hb. rewrite length_app in Hb. simpl in Hb.
  apply fueled_bind; [by apply fueled_ok_or|]. intros after Hafter%ok_or_Ok%strip_length.
  pose proof (drop_while_length is_whitespace rest) as H1. fold (trim_start rest) in H1.
  pose proof (drop_while_length is_whitespace after) as H2. fold (trim_start after) in H2.
  destruct (trim_start after) as [|q v]; [done|]. case_match; [|done].
  apply fueled_bind; [by apply fueled_ok_or|]. intros [value next] Hs%ok_or_Ok%split_char_app.
  case_match; [done|]. apply fueled_bind; [apply decode_from_fueled|]. intros _ _. apply IH.
  subst v. cbn [length] in H2. rewrite length_app in H2. simpl in *. lia.
Qed.

Lemma tag_end_fueled q t : fueled (tag_end q t).
Proof.
  revert q. induction t as [|c t IH]; intros q; simpl; [done|].
  destruct q as [e|]; repeat case_match; try done; apply fueled_bind; try apply IH; by intros [].
Qed.

Lemma tag_fueled stack roots body : fueled (tag stack roots body).
Proof.
  unfold tag. case_match; [by repeat case_match|]. destruct (break _ _) as [name a]. case_match; [done|].
  apply fueled_bind; [by apply attributes_loop_fueled|]. intros _ _.
  apply fueled_bind; [by repeat case_match|]. done.
Qed.

(** The checker gives an answer on every input. *)
Lemma validate_loop_fueled n stack roots xml :
  (length xml <= n)%nat -> fueled (validate_loop n stack roots xml).
Proof.
  assert (Hfin : fueled (match stack with name :: _ => Err (UnclosedElement name)
    | [] => if roots =? 1 then Ok tt else Err NoRoot end)) by (repeat case_match; done).
  revert stack roots xml Hfin. induction n as [|n IH]; intros stack roots xml Hfin Hl;
    destruct xml as [|c0 t0]; cbn [validate_loop]; try done; [simpl in Hl; lia|].
  assert (Hrec : forall stack roots rest, (length rest <= n)%nat -> fueled (validate_loop n stack roots rest)).
  { intros s r t Ht. apply IH; [|done]. repeat case_match; done. }
  clear IH. destruct (split_char LESS (c0 :: t0)) as [[before after]|] eqn:Hsp.
  2: { by apply fueled_bind; [apply validate_text_fueled|]. }
  apply split_char_app, (f_equal length) in Hsp. rewrite length_app in Hsp. simpl in Hsp, Hl.
  apply fueled_bind; [apply validate_text_fueled|]. intros _ _.
  destruct (bool_decide (stack = []) && _); [done|].
  destruct (strip (lit "!--") after) as [comment|] eqn:Hc.
  { apply strip_length in Hc. apply fueled_bind; [by apply fueled_ok_or|].
    intros [x rest] Hr%ok_or_Ok%split_text_length. apply Hrec. lia. }
  destruct (strip (lit "?") after) as [instruction|] eqn:Hi.
  { apply strip_length in Hi. apply fueled_bind; [by apply fueled_ok_or|].
    intros [x rest] Hr%ok_or_Ok%split_text_length. apply Hrec. lia. }
  apply fueled_bind; [apply tag_end_fueled|]. intros [body rest] Hb%tag_end_length.
  apply fueled_bind; [apply tag_fueled|]. intros [s r] _. apply Hrec. lia.
Qed.

(** More fuel changes nothing once the document was accepted. *)
Lemma attributes_loop_mono n m a :
  attributes_loop n a = Ok tt -> (n <= m)%nat -> attributes_loop m a = Ok tt.
Proof.
  revert m a. induction n as [|n IH]; intros [|m] a; cbn [attributes_loop];
    destruct (trim_start a) as [|c0 t0]; try done; [lia|].
  destruct (break _ _) as [name rest]. case_match; [done|]. intros Hok Hm. result_inv.
  rewrite bind_Ok. exists v. split; [by apply ok_or_Ok|].
  destruct (trim_start v) as [|q w]; [done|]. case_match; [|done].
  rewrite bind_Ok in *. destruct Hok as ([value next] & Hs & Hok). exists (value, next). split; [done|].
  case_match; [done|]. rewrite bind_Ok in *. destruct Hok as (u & Hd & Hok). exists u.
  split; [done|]. apply IH; [done|lia].
Qed.

Lemma validate_loop_mono n m stack roots xml :
  validate_loop n stack roots xml = Ok tt -> (n <= m)%nat -> validate_loop m stack roots xml = Ok tt.
Proof.
  revert m stack roots xml. induction n as [|n IH]; intros [|m] stack roots [|c0 t0]; cbn [validate_loop];
    try done; [lia|]. intros Hok Hm.
  assert (Hrec : forall s r t, validate_loop n s r t = Ok tt -> validate_loop m s r t = Ok tt)
    by (intros; apply IH; [done|lia]).
  destruct (split_char LESS (c0 :: t0)) as [[before after]|]; [|done].
  rewrite bind_Ok in *. destruct Hok as (u & Hv & Hok). exists u. split; [done|]. case_match; [done|].
  destruct (strip (lit "!--") after); [|destruct (strip (lit "?") after)].
  - rewrite bind_Ok in *. destruct Hok as ([x r] & Hs & Hok). exists (x, r). by auto.
  - rewrite bind_Ok in *. destruct Hok as ([x r] & Hs & Hok). exists (x, r). by auto.
  - rewrite bind_Ok in *. destruct Hok as ([b r] & Hs & Hok). exists (b, r). split; [done|].
    rewrite bind_Ok in *. destruct Hok as ([s' r'] & Ht & Hok). exists (s', r'). by auto.
Qed.

(** ** Building a document out of accepted pieces *)

(** [consumes k s r t s' r']: [k] rounds of the checker read the piece [t],
    whatever follows it. *)
Definition consumes (k : nat) (s : list text) (r : Z) (t : text) (s' : list text) (r' : Z) : Prop :=
  (k <= length t)%nat /\
  forall n rest, validate_loop (k + n) s r (t ++ rest) = validate_loop n s' r' rest.

Lemma consumes_app k1 k2 s1 r1 t1 s2 r2 t2 s3 r3 :
  consumes k1 s1 r1 t1 s2 r2 -> consumes k2 s2 r2 t2 s3 r3 ->
  consumes (k1 + k2) s1 r1 (t1 ++ t2) s3 r3.
Proof.
  intros [L1 H1] [L2 H2]. split; [rewrite length_app; lia|]. intros n rest.
  by rewrite <-Nat.add_assoc, <-app_assoc, H1, H2.
Qed.

Lemma consumes_nil s r : consumes 0 s r [] s r.
Proof. by split. Qed.

(** A document of accepted pieces that closes its one root is valid. *)
Lemma consumes_valid k t tail :
  consumes k [] 0 t [] 1 -> split_char LESS tail = None -> validate_text tail = Ok tt -> tail <> [] ->
  validate_xml (t ++ tail) = Ok tt.
Proof.
  intros [Hk Hc] Htail Hv Hne. unfold validate_xml.
  apply (validate_loop_mono (k + 1)).
  - rewrite Hc. destruct tail as [|c tail]; [done|]. cbn [validate_loop]. by rewrite Htail, Hv.
  - destruct tail as [|c tail]; [done|]. rewrite length_app. simpl. lia.
Qed.

(** Text without any character that could open or close markup. *)
Definition inert (t : text) : Prop :=
  Forall (fun c => c <> LESS /\ c <> GREATER /\ c <> APOS /\ c <> DQUOTE) t.

Lemma break_app_l p a t : Forall (fun c => p c = false) a ->
  break p (a ++ t) = (a ++ fst (break p t), snd (break p t)).
Proof.
  induction 1 as [|c a Hc Ha IH]; simpl; [by destruct (break p t)|]. by rewrite Hc, IH.
Qed.

Lemma split_char_app_l c a t : Forall (fun x => x <> c) a -> split_char c (a ++ c :: t) = Some (a, t).
Proof.
  intros Ha. unfold split_char. rewrite break_app_l.
  - simpl. by rewrite Z.eqb_refl, app_nil_r.
  - eapply Forall_impl; [exact Ha|]. intros x Hx. simpl. apply Z.eqb_neq. congruence.
Qed.

Lemma inert_weaken P t : (forall c, c <> LESS -> c <> GREATER -> c <> APOS -> c <> DQUOTE -> P c) ->
  inert t -> Forall P t.
Proof. intros HP Ht. eapply Forall_impl; [exact Ht|]. naive_solver. Qed.

Lemma strip_head p c t : strip (c :: p) t <> None -> head t = Some c.
Proof. destruct t as [|d t]; simpl; [done|]. case_match; [|done]. intros _. f_equal. lia. Qed.

(** A pattern one of whose characters does not occur is not found. *)
Lemma split_text_absent p x t : x ∈ p -> Forall (fun c => c <> x) t -> split_text p t = None.
Proof.
  intros Hx. assert (Hs : forall p t, x ∈ p -> Forall (fun c => c <> x) t -> strip p t = None).
  { clear. induction p as [|a p IH]; intros [|b t] Hx Ht; simpl; [set_solver..|done|].
    apply Forall_cons in Ht as [Hb Ht]. destruct (Z.eqb_spec a b) as [->|]; [|done].
    apply IH; [set_solver|done]. }
  induction t as [|c t IH]; intros Ht; simpl; rewrite Hs by done; [done|].
  apply Forall_cons in Ht as [_ Ht]. by rewrite IH.
Qed.

Lemma inert_text e v : inert e -> decode_entities e = Ok v -> validate_text e = Ok tt.
Proof.
  intros He Hd. unfold validate_text. rewrite (split_text_absent _ GREATER).
  - by rewrite Hd.
  - unfold lit. simpl. set_solver.
  - by eapply inert_weaken; [|exact He].
Qed.

Lemma tag_end_quoted q e t : Forall (fun c => c <> q) e ->
  tag_end (Some q) (e ++ q :: t) = '(body, rest) ← tag_end None t; Ok (e ++ q :: body, rest).
Proof.
  induction 1 as [|c e Hc He IH]; simpl.
  - by rewrite Z.eqb_refl.
  - destruct (Z.eqb_spec q c); [congruence|]. rewrite IH. by destruct (tag_end None t) as [[]|].
Qed.

(** ** Escaping is inverted by decoding *)

(** What a reader gets back: the character, or the replacement character
    for one that XML cannot carry. *)
Definition clean_char (c : Z) : Z :=
  if (c =? TAB) || (c =? LF) || (c =? CR) || is_xml_character c then c else REPLACEMENT.
Definition clean (t : text) : text := clean_char <$> t.

Ltac escape_cases c :=
  unfold escape_char, clean_char;
  repeat match goal with |- context [if c =? ?k then _ else _] => destruct (Z.eqb_spec c k) as [->|?] end.

Lemma escape_char_inert c : inert (escape_char c).
Proof.
  escape_cases c; [repeat constructor; done..|].
  destruct (is_xml_character c); repeat constructor; done.
Qed.

Lemma escape_xml_inert v : inert (escape_xml v).
Proof.
  induction v as [|c v IH]; [constructor|]. unfold escape_xml. simpl. apply Forall_app.
  split; [apply escape_char_inert|exact IH].
Qed.

Lemma decode_escape_char c t :
  decode_from None (escape_char c ++ t) = (rest ← decode_from None t; Ok (clean_char c :: rest)).
Proof.
  escape_cases c; [reflexivity..|].
  destruct (Z.eqb_spec c TAB), (Z.eqb_spec c LF), (Z.eqb_spec c CR); try done. cbn [orb].
  destruct (is_xml_character c); [|done]. cbn [app decode_from].
  by destruct (Z.eqb_spec c AMP).
Qed.

Lemma decode_escape v : decode_entities (escape_xml v) = Ok (clean v).
Proof.
  unfold decode_entities. induction v as [|c v IH]; [done|].
  change (escape_xml (c :: v)) with (escape_char c ++ escape_xml v).
  rewrite decode_escape_char, IH. done.
Qed.

(** ** Pieces with a hole *)

Lemma trim_end_snoc t z : is_whitespace z = false -> trim_end (t ++ [z]) = t ++ [z].
Proof.
  intros Hz. unfold trim_end. rewrite reverse_snoc. simpl. rewrite Hz.
  by rewrite reverse_cons, reverse_involutive.
Qed.

Lemma trim_ends c t z : is_whitespace c = false -> is_whitespace z = false ->
  trim (c :: t ++ [z]) = c :: t ++ [z].
Proof.
  intros Hc Hz. unfold trim, trim_start. simpl. rewrite Hc. rewrite app_comm_cons. by apply trim_end_snoc.
Qed.

Lemma strip_other a p c t : c <> a -> strip (a :: p) (c :: t) = None.
Proof. intros Hc. simpl. by destruct (Z.eqb_spec a c). Qed.

(** Text, then one tag that is neither a comment nor an instruction. *)
Lemma consumes_tag b c body s r s' r' :
  Forall (fun x => x <> LESS) b -> validate_text b = Ok tt -> s <> [] -> c <> 33 -> c <> 63 ->
  (forall rest, tag_end None (c :: body ++ GREATER :: rest) = Ok (c :: body, rest)) ->
  tag s r (trim (c :: body)) = Ok (s', r') ->
  consumes 1 s r (b ++ LESS :: c :: body ++ [GREATER]) s' r'.
Proof.
  intros Hb Hv Hs Hc1 Hc2 Hend Htag. split; [rewrite length_app; simpl; lia|]. intros n rest.
  rewrite <-app_assoc. simpl app. rewrite <-app_assoc.
  destruct (b ++ LESS :: c :: body ++ [GREATER] ++ rest) as [|x l] eqn:Hl; [by destruct b|].
  rewrite <-Hl. cbn [Nat.add validate_loop]. rewrite Hl at 1. rewrite split_char_app_l, Hv by done.
  cbn [mbind result_bind]. rewrite bool_decide_false by done. cbn [andb].
  change (lit "!--") with (33 :: lit "--"). change (lit "?") with (63 :: lit "").
  rewrite !strip_other by done.
  change ([GREATER] ++ rest) with (GREATER :: rest). rewrite (Hend rest). cbn [mbind result_bind]. by rewrite Htag.
Qed.

Lemma name_char_plain x :
  is_letter x || within 48 57 x || (x =? 45) || (x =? 46) = true ->
  45 <= x <= 58 \/ 65 <= x <= 122.
Proof. unfold is_letter, within. rewrite !orb_true_iff, !andb_true_iff, !Z.leb_le, !Z.eqb_eq. lia. Qed.

(** Characters that mean nothing to the checker. *)
Definition plain (x : Z) : Prop :=
  is_whitespace x = false /\ is_ascii_whitespace x = false /\ x <> EQUALS /\ x <> APOS /\ x <> DQUOTE /\
  x <> GREATER /\ x <> SLASH.

Lemma name_plain name : valid_xml_name name = true -> Forall plain name.
Proof.
  intros Hn. destruct name as [|c name]; [done|].
  assert (Forall (fun x => is_letter x || within 48 57 x || (x =? 45) || (x =? 46) = true) (c :: name)) as Hall.
  { simpl in Hn. apply andb_prop in Hn as [Hc Hn]. constructor; [by rewrite Hc|].
    apply Forall_forall. intros x Hx. rewrite forallb_forall in Hn. apply Hn. by apply list_elem_of_In. }
  eapply Forall_impl; [exact Hall|]. intros x Hx.
  apply name_char_plain in Hx as Hr. unfold plain, APOS, DQUOTE, GREATER, EQUALS, SLASH.
  unfold is_whitespace, is_ascii_whitespace, within.
  assert (x <> 47).
  { intros ->. done. }
  split_and!; [..|lia|lia|lia|lia|lia]; rewrite ?orb_false_iff, ?andb_false_iff, ?Z.leb_gt, ?Z.eqb_neq; lia.
Qed.

Lemma tag_end_plain l t : Forall plain l ->
  tag_end None (l ++ t) = '(body, rest) ← tag_end None t; Ok (l ++ body, rest).
Proof.
  induction 1 as [|x l (_ & _ & _ & H1 & H2 & H3 & _) _ IH]; simpl.
  - by destruct (tag_end None t) as [[]|].
  - destruct (Z.eqb_spec x APOS), (Z.eqb_spec x DQUOTE), (Z.eqb_spec x GREATER); try done.
    simpl. rewrite IH. by destruct (tag_end None t) as [[]|].
Qed.

(** The end tag of the innermost element, after escaped text. *)
Lemma consumes_close e v name s r :
  inert e -> decode_entities e = Ok v -> valid_xml_name name = true ->
  consumes 1 (name :: s) r (e ++ [LESS; SLASH] ++ name ++ [GREATER]) s r.
Proof.
  intros He Hd Hn. pose proof (name_plain name Hn) as Hplain.
  change ([LESS; SLASH] ++ name ++ [GREATER]) with (LESS :: SLASH :: name ++ [GREATER]).
  apply consumes_tag; try done.
  - by eapply inert_weaken; [|exact He].
  - by eapply inert_text.
  - intros rest. pose proof (tag_end_plain name (GREATER :: rest) Hplain) as Hscan.
    simpl in *. rewrite Hscan. simpl. by rewrite app_nil_r.
  - destruct (exists_last (l := name)) as (l & z & ->); [by destruct name|].
    apply Forall_app in Hplain as [Hl' (Hz & _)%Forall_singleton].
    rewrite trim_ends by done. unfold tag. simpl strip. cbv iota.
    assert (Htrim : trim (l ++ [z]) = l ++ [z]).
    { destruct l as [|x l]; [unfold trim, trim_start; simpl; rewrite Hz; exact (trim_end_snoc [] z Hz)|].
      apply Forall_cons in Hl' as [[Hx _] _]. by apply trim_ends. }
    rewrite Htrim, bool_decide_false by (by destruct l).
    assert (existsb is_whitespace (l ++ [z]) = false) as ->.
    { apply not_true_iff_false. rewrite existsb_exists. intros (x & Hx%list_elem_of_In & Hw).
      apply elem_of_app in Hx as [Hx|Hx%list_elem_of_singleton]; [|congruence].
      rewrite Forall_forall in Hl'. destruct (Hl' x Hx). congruence. }
    by rewrite bool_decide_true.
Qed.

Lemma attributes_loop_nil n : attributes_loop n [] = Ok tt.
Proof. by destruct n. Qed.

(** One escaped attribute. *)
Lemma attributes_escaped n at_ e v more :
  valid_xml_name at_ = true -> inert e -> decode_entities e = Ok v ->
  attributes_loop (S n) (SPACE :: at_ ++ EQUALS :: APOS :: e ++ APOS :: more) = attributes_loop n more.
Proof.
  intros Hat He Hd. pose proof (name_plain at_ Hat) as Hplain. cbn [attributes_loop].
  assert (trim_start (SPACE :: at_ ++ EQUALS :: APOS :: e ++ APOS :: more)
          = at_ ++ EQUALS :: APOS :: e ++ APOS :: more) as ->.
  { destruct at_ as [|a at_]; [done|]. apply Forall_cons in Hplain as [[Hw _] _].
    unfold trim_start. simpl. by rewrite Hw. }
  destruct (at_ ++ EQUALS :: APOS :: e ++ APOS :: more) as [|c0 t0] eqn:Hl; [by destruct at_|]. rewrite <-Hl.
  rewrite break_app_l.
  2: { eapply Forall_impl; [exact Hplain|]. intros x (_ & Hw & Heq & _). cbv beta.
       rewrite Hw. by destruct (Z.eqb_spec x EQUALS). }
  set (value := APOS :: e ++ APOS :: more).
  change (break _ (EQUALS :: value)) with (@nil Z, EQUALS :: value). cbn [fst snd].
  rewrite app_nil_r, Hat. cbn [negb].
  change (strip [EQUALS] (trim_start (EQUALS :: value))) with (Some value). cbn [ok_or mbind result_bind].
  change (trim_start value) with value. unfold value. change ((APOS =? APOS) || (APOS =? DQUOTE)) with true.
  cbv iota.
  rewrite split_char_app_l by (by eapply inert_weaken; [|exact He]). cbn [ok_or mbind result_bind].
  assert (existsb (Z.eqb LESS) e = false) as ->.
  { apply not_true_iff_false. rewrite existsb_exists. intros (x & Hx%list_elem_of_In & Hw%Z.eqb_eq).
    unfold inert in He. rewrite Forall_forall in He. destruct (He x Hx). congruence. }
  rewrite Hd. done.
Qed.

(** Reading the body of a start tag: the element name and the attributes. *)
Lemma tag_start c el a s r :
  valid_xml_name (c :: el) = true -> s <> [] -> validate_attributes (SPACE :: a) = Ok tt ->
  ends_with SLASH (c :: el ++ SPACE :: a) = false ->
  tag s r (c :: el ++ SPACE :: a) = Ok ((c :: el) :: s, r).
Proof.
  intros Hn Hs Ha Hself. pose proof (name_plain _ Hn) as Hplain. unfold tag.
  apply Forall_cons in Hplain as [Hc Hel]. rewrite strip_other by apply Hc. rewrite Hself. cbv zeta.
  rewrite app_comm_cons, break_app_l.
  2: { constructor; [apply Hc|]. eapply Forall_impl; [exact Hel|]. intros x Hx. apply Hx. }
  change (break is_whitespace (SPACE :: a)) with (@nil Z, SPACE :: a). cbn [fst snd].
  rewrite app_nil_r, Hn. cbn [negb]. rewrite Ha. cbn [mbind result_bind].
  by rewrite bool_decide_false.
Qed.

Lemma tag_empty c el a z s r :
  valid_xml_name (c :: el) = true -> s <> [] -> is_whitespace z = false ->
  validate_attributes (SPACE :: a ++ [z]) = Ok tt ->
  tag s r (c :: el ++ SPACE :: a ++ [z; SLASH]) = Ok (s, r).
Proof.
  intros Hn Hs Hz Ha. pose proof (name_plain _ Hn) as Hplain. unfold tag.
  apply Forall_cons in Hplain as [Hc Hel]. rewrite strip_other by apply Hc.
  replace (c :: el ++ SPACE :: a ++ [z; SLASH]) with (((c :: el) ++ SPACE :: a ++ [z]) ++ [SLASH]).
  2: { simpl. rewrite <-!app_assoc. simpl. by rewrite <-app_assoc. }
  set (front := (c :: el) ++ SPACE :: a ++ [z]).
  unfold ends_with. rewrite last_snoc, bool_decide_true by done. cbv zeta.
  rewrite length_app. cbn [length]. rewrite Nat.add_sub, take_app_length.
  assert (trim_end front = front) as ->.
  { unfold front. rewrite app_comm_cons, app_assoc. by apply trim_end_snoc. }
  unfold front. rewrite break_app_l.
  2: { constructor; [apply Hc|]. eapply Forall_impl; [exact Hel|]. intros x Hx. apply Hx. }
  change (break is_whitespace (SPACE :: a ++ [z])) with (@nil Z, SPACE :: a ++ [z]). cbn [fst snd].
  rewrite app_nil_r, Hn. cbn [negb]. rewrite Ha. cbn [mbind result_bind].
  by rewrite bool_decide_false.
Qed.

(** Where the tag with an escaped attribute ends. *)
Lemma tag_end_attribute c el at_ e more :
  valid_xml_name (c :: el) = true -> valid_xml_name at_ = true -> inert e ->
  (forall rest, tag_end None (more ++ GREATER :: rest) = Ok (more, rest)) ->
  forall rest, tag_end None (c :: (el ++ SPACE :: at_ ++ EQUALS :: APOS :: e ++ APOS :: more) ++ GREATER :: rest)
    = Ok (c :: el ++ SPACE :: at_ ++ EQUALS :: APOS :: e ++ APOS :: more, rest).
Proof.
  intros Hn Hat He Hmore rest.
  replace (c :: (el ++ SPACE :: at_ ++ EQUALS :: APOS :: e ++ APOS :: more) ++ GREATER :: rest)
    with ((c :: el) ++ [SPACE] ++ at_ ++ [EQUALS; APOS] ++ e ++ APOS :: more ++ GREATER :: rest).
  2: { simpl. rewrite <-!app_assoc. simpl. rewrite <-!app_assoc. simpl. by rewrite <-!app_assoc. }
  rewrite tag_end_plain by by apply name_plain. simpl tag_end at 1.
  rewrite tag_end_plain by by apply name_plain. simpl tag_end at 1.
  rewrite tag_end_quoted by (by eapply inert_weaken; [|exact He]). rewrite Hmore. done.
Qed.

Lemma consumes_empty b c el at_ e v s r :
  Forall (fun x => x <> LESS) b -> validate_text b = Ok tt -> s <> [] ->
  valid_xml_name (c :: el) = true -> valid_xml_name at_ = true -> inert e -> decode_entities e = Ok v ->
  consumes 1 s r
    (b ++ LESS :: c :: (el ++ SPACE :: at_ ++ EQUALS :: APOS :: e ++ [APOS; SLASH]) ++ [GREATER]) s r.
Proof.
  intros Hb Hv Hs Hn Hat He Hd. apply consumes_tag; try done.
  - intros ->. done.
  - intros ->. done.
  - by apply tag_end_attribute.
  - pose proof (name_plain _ Hn) as Hp. apply Forall_cons in Hp as [[Hw _] _].
    replace (el ++ SPACE :: at_ ++ EQUALS :: APOS :: e ++ [APOS; SLASH])
      with ((el ++ SPACE :: at_ ++ EQUALS :: APOS :: e ++ [APOS]) ++ [SLASH]).
    2: { rewrite <-!app_assoc. simpl. rewrite <-!app_assoc. simpl. by rewrite <-!app_assoc. }
    rewrite trim_ends by done.
    replace ((el ++ SPACE :: at_ ++ EQUALS :: APOS :: e ++ [APOS]) ++ [SLASH])
      with (el ++ SPACE :: (at_ ++ EQUALS :: APOS :: e) ++ [APOS; SLASH]).
    2: { rewrite <-!app_assoc. simpl. rewrite <-!app_assoc. simpl. by rewrite <-!app_assoc. }
    apply tag_empty; try done. unfold validate_attributes.
    rewrite <-app_assoc. simpl app. cbn [length].
    by rewrite (attributes_escaped _ at_ e v []), attributes_loop_nil.
Qed.

(** An element that stays open, with an escaped attribute and a plain one. *)
Lemma consumes_open2 b c el at_ e v at2 e2 v2 s r :
  Forall (fun x => x <> LESS) b -> validate_text b = Ok tt -> s <> [] ->
  valid_xml_name (c :: el) = true -> valid_xml_name at_ = true -> inert e -> decode_entities e = Ok v ->
  valid_xml_name at2 = true -> inert e2 -> decode_entities e2 = Ok v2 ->
  consumes 1 s r
    (b ++ LESS :: c :: (el ++ SPACE :: at_ ++ EQUALS :: APOS :: e ++ APOS ::
       SPACE :: at2 ++ EQUALS :: APOS :: e2 ++ [APOS]) ++ [GREATER]) ((c :: el) :: s) r.
Proof.
  intros Hb Hv Hs Hn Hat He Hd Hat2 He2 Hd2. apply consumes_tag; try done.
  - intros ->. done.
  - intros ->. done.
  - apply tag_end_attribute; try done. intros rest. simpl app. cbn [tag_end].
    change (SPACE =? APOS) with false. change (SPACE =? DQUOTE) with false. change (SPACE =? GREATER) with false.
    cbn [orb]. rewrite <-app_assoc, tag_end_plain by by apply name_plain. simpl tag_end at 1.
    rewrite <-app_assoc. simpl app. rewrite tag_end_quoted by (by eapply inert_weaken; [|exact He2]). done.
  - pose proof (name_plain _ Hn) as Hp. apply Forall_cons in Hp as [[Hw _] _].
    set (more := at_ ++ EQUALS :: APOS :: e ++ APOS :: SPACE :: at2 ++ EQUALS :: APOS :: e2).
    replace (el ++ SPACE :: at_ ++ EQUALS :: APOS :: e ++ APOS :: SPACE :: at2 ++ EQUALS :: APOS :: e2 ++ [APOS])
      with ((el ++ SPACE :: more) ++ [APOS]).
    2: { unfold more. repeat (rewrite <-app_assoc; simpl). done. }
    rewrite trim_ends by done.
    replace ((el ++ SPACE :: more) ++ [APOS]) with (el ++ SPACE :: (more ++ [APOS])) by (by rewrite <-app_assoc).
    apply tag_start; try done.
    + unfold validate_attributes, more. repeat (rewrite <-app_assoc; simpl app). cbn [length].
      rewrite (attributes_escaped _ at_ e v) by done. rewrite length_app. cbn [length].
      rewrite <-Nat.add_succ_comm. cbn [Nat.add]. rewrite length_app. cbn [length].
      rewrite <-Nat.add_succ_comm. cbn [Nat.add].
      by rewrite (attributes_escaped _ at2 e2 v2 []), attributes_loop_nil.
    + unfold ends_with. apply bool_decide_false.
      replace (c :: el ++ SPACE :: more ++ [APOS]) with ((c :: el ++ SPACE :: more) ++ [APOS])
        by (simpl; by rewrite <-app_assoc).
      by rewrite last_snoc.
Qed.

(** The XML checker ends on every input: the fuel its loops are given,
    the length of the text, is enough whatever the text holds, so the answer
    is always acceptance or one of the errors of the source. *)
Theorem validate_xml_total (xml : text) : validate_xml xml <> Err OutOfFuel.
Proof. by apply validate_loop_fueled. Qed.
