(* ===== verification/DomainXml.v ===== *)
(** * DomainXml: the domain template of [crates/hypervisor/src/xml.rs]

    Every instance is defined from one template into which eight strings are
    interpolated, each escaped.  The theorem of this file is that no string,
    however hostile, changes the document around it: the result is always
    well-formed XML with one [domain] root whose identity is the name and
    the UUID that were given. *)

From Stdlib Require Import ZArith Lia Ascii.
From S2P Require Import Prelude Text Xml.
Open Scope Z_scope.

Definition ARCH_AMD64 : text := lit "x86_64".
Definition ARCH_ARM64 : text := lit "aarch64".

(** [DomainSpec]. *)
Record DomainSpec : Type := mkDomainSpec {
  ds_name : text;
  ds_uuid : text;
  ds_vcpu : Z;
  ds_memory_mib : Z;
  ds_disk_path : text;
  ds_iso_path : text;
  ds_network : text;
  ds_mac : text;
  ds_nested : bool;
  ds_ksm : bool;
  ds_arch : text
}.

(** Why [DomainSpec::validate] refuses. *)
Inductive SpecError : Type :=
  | NameEmpty | UuidEmpty | VcpuZero (vcpu : Z) | MemoryZero (memory_mib : Z) | DiskPathEmpty
  | NetworkEmpty | InvalidMac (mac : text) | UnknownArch (arch : text).

(** [str::split] of a character. *)
Fixpoint split_all (sep : Z) (t : text) : list text :=
  match t with
  | [] => [[]]
  | c :: t' =>
      if c =? sep then [] :: split_all sep t'
      else match split_all sep t' with
           | [] => [[c]]
           | p :: ps => (c :: p) :: ps
           end
  end.

(** [u8::is_ascii_hexdigit]. *)
Definition is_hexdigit (c : Z) : bool := within 48 57 c || within 97 102 c || within 65 70 c.

(** [valid_mac]. *)
Definition valid_mac (mac : text) : bool :=
  let parts_ok sep :=
    let parts := split_all sep mac in
    ((length parts =? 6)%nat || (length parts =? 8)%nat) &&
    forallb (fun part => (length part =? 2)%nat && forallb is_hexdigit part) parts in
  if existsb (Z.eqb 58) mac then parts_ok 58
  else if existsb (Z.eqb 45) mac then parts_ok 45
  else false.

(** [DomainSpec::validate]. *)
Definition validate (spec : DomainSpec) : result SpecError unit :=
  _ ← refuse_if (bool_decide (ds_name spec = [])) NameEmpty;
  _ ← refuse_if (bool_decide (ds_uuid spec = [])) UuidEmpty;
  _ ← refuse_if (ds_vcpu spec <? 1) (VcpuZero (ds_vcpu spec));
  _ ← refuse_if (ds_memory_mib spec <? 1) (MemoryZero (ds_memory_mib spec));
  _ ← refuse_if (bool_decide (ds_disk_path spec = [])) DiskPathEmpty;
  _ ← refuse_if (bool_decide (ds_network spec = [])) NetworkEmpty;
  _ ← refuse_if (negb (valid_mac (ds_mac spec))) (InvalidMac (ds_mac spec));
  refuse_if (negb (bool_decide (ds_arch spec ∈ [[]; ARCH_AMD64; ARCH_ARM64])))
    (UnknownArch (ds_arch spec)).

(** [host_arch]: [std::env::consts::ARCH] is the argument; libvirt spells the
    two known architectures the same way. *)
Definition host_arch (env_arch : text) : text :=
  if bool_decide (env_arch = lit "x86_64") then ARCH_AMD64
  else if bool_decide (env_arch = lit "aarch64") then ARCH_ARM64
  else env_arch.

(** The CD-ROM of the seed image. *)
Definition iso_device (arm64 : bool) (iso_path : text) : text :=
  match iso_path with
  | [] => []
  | _ =>
      lit "    <disk type='file' device='cdrom'>
      <driver name='qemu' type='raw'/>
      <source file='" ++ escape_xml iso_path ++ lit "'/>
      <target dev='sda' bus='" ++ (if arm64 then lit "scsi" else lit "sata") ++ lit "'/>
      <readonly/>
    </disk>
" ++ (if arm64 then lit "    <!-- The aarch64 virt machine has no SATA controller, so the seed
         CD-ROM of SPEC 5.2 hangs off virtio-scsi instead. -->
    <controller type='scsi' index='0' model='virtio-scsi'/>
" else [])
  end.

Definition memory_backing (ksm : bool) : text :=
  if ksm then [] else lit "  <memoryBacking>
    <nosharepages/>
  </memoryBacking>
".

(** The format literal of [domain_xml]. *)
Definition template (arch : text) (arm64 : bool) (spec : DomainSpec) : text :=
  lit "<domain type='kvm'>
  <name>" ++ escape_xml (ds_name spec) ++ lit "</name>
  <uuid>" ++ escape_xml (ds_uuid spec) ++ lit "</uuid>
  <memory unit='MiB'>" ++ lit (dec (ds_memory_mib spec)) ++ lit "</memory>
  <vcpu placement='static'>" ++ lit (dec (ds_vcpu spec)) ++ lit "</vcpu>
  <os firmware='efi'>
    <type arch='" ++ escape_xml arch ++ lit "' machine='" ++
      (if arm64 then lit "virt" else lit "q35") ++ lit "'>hvm</type>
  </os>
" ++ memory_backing (ds_ksm spec) ++ lit "  <cpu mode='" ++
      (if ds_nested spec || arm64 then lit "host-passthrough" else lit "host-model") ++ lit "'/>
  <features>
    <acpi/>
" ++ (if arm64 then lit "    <gic version='3'/>" else lit "    <apic/>") ++ lit "
  </features>
  <on_poweroff>destroy</on_poweroff>
  <on_reboot>restart</on_reboot>
  <on_crash>destroy</on_crash>
  <devices>
    <disk type='file' device='disk'>
      <driver name='qemu' type='qcow2'/>
      <source file='" ++ escape_xml (ds_disk_path spec) ++ lit "'/>
      <target dev='vda' bus='virtio'/>
    </disk>
" ++ iso_device arm64 (ds_iso_path spec) ++ lit "    <interface type='network'>
      <mac address='" ++ escape_xml (ds_mac spec) ++ lit "'/>
      <source network='" ++ escape_xml (ds_network spec) ++ lit "'/>
      <model type='virtio'/>
    </interface>
    <console type='pty'>
      <target type='virtio' port='0'/>
    </console>
    <channel type='unix'>
      <source mode='bind'/>
      <target type='virtio' name='org.qemu.guest_agent.0'/>
    </channel>
    <rng model='virtio'>
      <backend model='random'>/dev/urandom</backend>
    </rng>
    <memballoon model='virtio' freePageReporting='on'/>
  </devices>
</domain>
".

(** [domain_xml]. *)
Definition domain_xml (env_arch : text) (spec : DomainSpec) : result SpecError text :=
  _ ← validate spec;
  let arch := if bool_decide (ds_arch spec = []) then host_arch env_arch else ds_arch spec in
  Ok (template arch (bool_decide (arch = ARCH_ARM64)) spec).

(** The golden document [testdata/arm64-iso.xml]. *)
Definition base_spec : DomainSpec :=
  mkDomainSpec (lit "bento-web") (lit "6d1e0f1c-9a3b-4f6e-8a2d-3c5b7e9f1a2b") 2 2048
    (lit "/var/lib/bento/instances/6d1e0f1c.qcow2") (lit "/var/lib/bento/instances/6d1e0f1c-seed.iso")
    (lit "bento-user-1") (lit "52:54:00:ab:cd:ef") false true ARCH_ARM64.

Example domain_xml_golden : domain_xml (lit "x86_64") base_spec = Ok (lit "<domain type='kvm'>
  <name>bento-web</name>
  <uuid>6d1e0f1c-9a3b-4f6e-8a2d-3c5b7e9f1a2b</uuid>
  <memory unit='MiB'>2048</memory>
  <vcpu placement='static'>2</vcpu>
  <os firmware='efi'>
    <type arch='aarch64' machine='virt'>hvm</type>
  </os>
  <cpu mode='host-passthrough'/>
  <features>
    <acpi/>
    <gic version='3'/>
  </features>
  <on_poweroff>destroy</on_poweroff>
  <on_reboot>restart</on_reboot>
  <on_crash>destroy</on_crash>
  <devices>
    <disk type='file' device='disk'>
      <driver name='qemu' type='qcow2'/>
      <source file='/var/lib/bento/instances/6d1e0f1c.qcow2'/>
      <target dev='vda' bus='virtio'/>
    </disk>
    <disk type='file' device='cdrom'>
      <driver name='qemu' type='raw'/>
      <source file='/var/lib/bento/instances/6d1e0f1c-seed.iso'/>
      <target dev='sda' bus='scsi'/>
      <readonly/>
    </disk>
    <!-- The aarch64 virt machine has no SATA controller, so the seed
         CD-ROM of SPEC 5.2 hangs off virtio-scsi instead. -->
    <controller type='scsi' index='0' model='virtio-scsi'/>
    <interface type='network'>
      <mac address='52:54:00:ab:cd:ef'/>
      <source network='bento-user-1'/>
      <model type='virtio'/>
    </interface>
    <console type='pty'>
      <target type='virtio' port='0'/>
    </console>
    <channel type='unix'>
      <source mode='bind'/>
      <target type='virtio' name='org.qemu.guest_agent.0'/>
    </channel>
    <rng model='virtio'>
      <backend model='random'>/dev/urandom</backend>
    </rng>
    <memballoon model='virtio' freePageReporting='on'/>
  </devices>
</domain>
").
Proof. vm_compute. reflexivity. Qed.

(** ** The document is well formed *)

(** The checker reads the piece in some number of rounds. *)
Definition reads (s : list text) (r : Z) (t : text) (s' : list text) (r' : Z) : Prop :=
  exists k, consumes k s r t s' r'.

Lemma reads_app s1 r1 t1 s2 r2 t2 s3 r3 :
  reads s1 r1 t1 s2 r2 -> reads s2 r2 t2 s3 r3 -> reads s1 r1 (t1 ++ t2) s3 r3.
Proof. intros [k1 H1] [k2 H2]. exists (k1 + k2)%nat. by eapply consumes_app. Qed.

(** A concrete piece: as many rounds as it has opening brackets. *)
Ltac concrete :=
  match goal with
  | |- reads _ _ ?t _ _ =>
      let k := eval vm_compute in (length (filter (fun c => c = LESS) t)) in
      exists k; split; [vm_compute; lia|intros n rest; reflexivity]
  end.

Definition closing (name : text) : text := [LESS; SLASH] ++ name ++ [GREATER].
Definition empty_element (indent el at_ e : text) : text :=
  indent ++ [LESS] ++ el ++ [SPACE] ++ at_ ++ [EQUALS; APOS] ++ e ++ [APOS; SLASH] ++ [GREATER].
Definition open_element (indent el at_ e at2 e2 : text) : text :=
  indent ++ [LESS] ++ el ++ [SPACE] ++ at_ ++ [EQUALS; APOS] ++ e ++ [APOS; SPACE] ++ at2 ++
  [EQUALS; APOS] ++ e2 ++ [APOS] ++ [GREATER].

(** The template, cut where the interpolated strings are. *)
Definition head_pieces (arch : text) (arm64 : bool) (spec : DomainSpec) : text :=
  lit "<domain type='kvm'>
  <name>" ++ (escape_xml (ds_name spec) ++ closing (lit "name")) ++ lit "
  <uuid>" ++ (escape_xml (ds_uuid spec) ++ closing (lit "uuid")) ++ lit "
  <memory unit='MiB'>" ++ (lit (dec (ds_memory_mib spec)) ++ closing (lit "memory")) ++ lit "
  <vcpu placement='static'>" ++ (lit (dec (ds_vcpu spec)) ++ closing (lit "vcpu")) ++ lit "
  <os firmware='efi'>" ++
  open_element (lit "
    ") (lit "type") (lit "arch") (escape_xml arch) (lit "machine") (if arm64 then lit "virt" else lit "q35").

Definition middle_pieces (arm64 : bool) (spec : DomainSpec) : text :=
  (lit "hvm</type>
  </os>
" ++ memory_backing (ds_ksm spec) ++ lit "  <cpu mode='" ++
      (if ds_nested spec || arm64 then lit "host-passthrough" else lit "host-model") ++ lit "'/>
  <features>
    <acpi/>
" ++ (if arm64 then lit "    <gic version='3'/>" else lit "    <apic/>") ++ lit "
  </features>
  <on_poweroff>destroy</on_poweroff>
  <on_reboot>restart</on_reboot>
  <on_crash>destroy</on_crash>
  <devices>
    <disk type='file' device='disk'>
      <driver name='qemu' type='qcow2'/>") ++
  empty_element (lit "
      ") (lit "source") (lit "file") (escape_xml (ds_disk_path spec)) ++
  lit "
      <target dev='vda' bus='virtio'/>
    </disk>".

Definition iso_pieces (arm64 : bool) (iso_path : text) : text :=
  match iso_path with
  | [] => []
  | _ =>
      lit "
    <disk type='file' device='cdrom'>
      <driver name='qemu' type='raw'/>" ++
      empty_element (lit "
      ") (lit "source") (lit "file") (escape_xml iso_path) ++
      (if arm64 then lit "
      <target dev='sda' bus='scsi'/>
      <readonly/>
    </disk>
    <!-- The aarch64 virt machine has no SATA controller, so the seed
         CD-ROM of SPEC 5.2 hangs off virtio-scsi instead. -->
    <controller type='scsi' index='0' model='virtio-scsi'/>" else lit "
      <target dev='sda' bus='sata'/>
      <readonly/>
    </disk>")
  end.

Definition tail_pieces (spec : DomainSpec) : text :=
  lit "
    <interface type='network'>" ++
  empty_element (lit "
      ") (lit "mac") (lit "address") (escape_xml (ds_mac spec)) ++
  empty_element (lit "
      ") (lit "source") (lit "network") (escape_xml (ds_network spec)) ++
  lit "
      <model type='virtio'/>
    </interface>
    <console type='pty'>
      <target type='virtio' port='0'/>
    </console>
    <channel type='unix'>
      <source mode='bind'/>
      <target type='virtio' name='org.qemu.guest_agent.0'/>
    </channel>
    <rng model='virtio'>
      <backend model='random'>/dev/urandom</backend>
    </rng>
    <memballoon model='virtio' freePageReporting='on'/>
  </devices>
</domain>".

Lemma iso_device_pieces arm64 iso_path rest :
  lit "
" ++ iso_device arm64 iso_path ++ rest = iso_pieces arm64 iso_path ++ lit "
" ++ rest.
Proof.
  unfold iso_pieces, iso_device, empty_element. destruct iso_path as [|c t]; [done|].
  destruct arm64; rewrite <-!app_assoc; reflexivity.
Qed.

Lemma template_pieces arch arm64 spec :
  template arch arm64 spec =
  (head_pieces arch arm64 spec ++ middle_pieces arm64 spec ++ iso_pieces arm64 (ds_iso_path spec) ++
   tail_pieces spec) ++ [LF].
Proof.
  rewrite <-!app_assoc. unfold tail_pieces. rewrite <-app_assoc.
  match goal with |- context [iso_pieces ?a ?i ++ lit ?l ++ ?r] =>
    change (iso_pieces a i ++ lit l ++ r) with (iso_pieces a i ++ lit "
" ++ lit "    <interface type='network'>" ++ r); rewrite <-(iso_device_pieces a i) end.
  unfold template, head_pieces, middle_pieces, closing, empty_element, open_element.
  rewrite <-!app_assoc. reflexivity.
Qed.

Lemma reads_closing e v name s r :
  inert e -> decode_entities e = Ok v -> valid_xml_name name = true ->
  reads (name :: s) r (e ++ closing name) s r.
Proof. intros. exists 1%nat. by eapply consumes_close. Qed.

Lemma reads_escaped v name s r :
  valid_xml_name name = true -> reads (name :: s) r (escape_xml v ++ closing name) s r.
Proof. intros. eapply reads_closing; [apply escape_xml_inert|apply decode_escape|done]. Qed.

(** Decimal digits are inert. *)
Lemma digits_inert z : inert (lit (dec z)) /\ decode_entities (lit (dec z)) = Ok (lit (dec z)).
Proof.
  pose proof (dec_digits z) as Hd. induction (dec z) as [|c s IH]; [by split; [constructor|]|].
  cbn [str_all] in Hd. apply andb_prop in Hd as [Hc [IH1 IH2]%IH].
  unfold is_ascii_digit, in_range in Hc. change (ascii_code "0") with 48 in Hc. change (ascii_code "9") with 57 in Hc.
  apply andb_prop in Hc as [H1%Z.leb_le H2%Z.leb_le].
  change (lit (String c s)) with (ascii_code c :: lit s). split.
  - constructor; [unfold LESS, GREATER, APOS, DQUOTE; lia|done].
  - unfold decode_entities in *. cbn [decode_from].
    destruct (Z.eqb_spec (ascii_code c) AMP) as [E|_]; [unfold AMP in E; lia|]. by rewrite IH2.
Qed.

Lemma reads_empty_element indent c el at_ v s r :
  Forall (fun x => x <> LESS) indent -> validate_text indent = Ok tt -> s <> [] ->
  valid_xml_name (c :: el) = true -> valid_xml_name at_ = true ->
  reads s r (empty_element indent (c :: el) at_ (escape_xml v)) s r.
Proof.
  intros. exists 1%nat.
  pose proof (consumes_empty indent c el at_ (escape_xml v) (clean v) s r) as Hc.
  rewrite <-app_assoc in Hc. simpl in Hc. rewrite <-app_assoc in Hc. simpl in Hc. rewrite <-app_assoc in Hc.
  simpl in Hc. unfold empty_element. simpl.
  apply Hc; try done; [apply escape_xml_inert|apply decode_escape].
Qed.

Lemma reads_open_element indent c el at_ v at2 e2 v2 s r :
  Forall (fun x => x <> LESS) indent -> validate_text indent = Ok tt -> s <> [] ->
  valid_xml_name (c :: el) = true -> valid_xml_name at_ = true -> valid_xml_name at2 = true ->
  inert e2 -> decode_entities e2 = Ok v2 ->
  reads s r (open_element indent (c :: el) at_ (escape_xml v) at2 e2) ((c :: el) :: s) r.
Proof.
  intros. exists 1%nat.
  pose proof (consumes_open2 indent c el at_ (escape_xml v) (clean v) at2 e2 v2 s r) as Hc.
  rewrite <-app_assoc in Hc. simpl in Hc. rewrite <-app_assoc in Hc. simpl in Hc. rewrite <-app_assoc in Hc.
  simpl in Hc. rewrite <-app_assoc in Hc. simpl in Hc. rewrite <-app_assoc in Hc. simpl in Hc.
  unfold open_element. simpl.
  apply Hc; try done; [apply escape_xml_inert|apply decode_escape].
Qed.

Ltac piece :=
  lazymatch goal with
  | |- reads _ _ (escape_xml _ ++ closing _) _ _ => apply reads_escaped; reflexivity
  | |- reads _ _ (lit (dec _) ++ closing _) _ _ =>
      eapply reads_closing; [apply digits_inert|apply digits_inert|reflexivity]
  | |- reads _ _ (empty_element _ _ _ _) _ _ =>
      apply reads_empty_element; [repeat constructor; done|reflexivity|done|reflexivity|reflexivity]
  | |- _ => concrete
  end.
Ltac next := eapply reads_app; [piece|].

Lemma head_reads arch arm64 spec :
  reads [] 0 (head_pieces arch arm64 spec) [lit "type"; lit "os"; lit "domain"] 1.
Proof.
  unfold head_pieces. do 9 next.
  eapply reads_open_element; try done; [repeat constructor; done| |].
  - destruct arm64; repeat constructor; done.
  - instantiate (1 := if arm64 then lit "virt" else lit "q35"). by destruct arm64.
Qed.

Lemma middle_reads arm64 spec :
  reads [lit "type"; lit "os"; lit "domain"] 1 (middle_pieces arm64 spec) [lit "devices"; lit "domain"] 1.
Proof.
  unfold middle_pieces, memory_backing.
  apply (reads_app _ _ _ [lit "disk"; lit "devices"; lit "domain"] 1); [|next; piece].
  destruct arm64, (ds_ksm spec), (ds_nested spec); cbn [orb]; concrete.
Qed.

Lemma iso_reads arm64 iso_path :
  reads [lit "devices"; lit "domain"] 1 (iso_pieces arm64 iso_path) [lit "devices"; lit "domain"] 1.
Proof.
  unfold iso_pieces. destruct iso_path as [|c t]; [exists 0%nat; apply consumes_nil|].
  next. next. destruct arm64; concrete.
Qed.

Lemma tail_reads spec : reads [lit "devices"; lit "domain"] 1 (tail_pieces spec) [] 1.
Proof. unfold tail_pieces. do 3 next. piece. Qed.

Lemma template_valid arch arm64 spec : validate_xml (template arch arm64 spec) = Ok tt.
Proof.
  rewrite template_pieces.
  assert (reads [] 0 (head_pieces arch arm64 spec ++ middle_pieces arm64 spec ++
    iso_pieces arm64 (ds_iso_path spec) ++ tail_pieces spec) [] 1) as [k Hk].
  { eapply reads_app; [apply head_reads|]. eapply reads_app; [apply middle_reads|].
    eapply reads_app; [apply iso_reads|apply tail_reads]. }
  by apply (consumes_valid k).
Qed.

(** ** The identity of the document *)

Lemma split_text_inert p e t : inert e ->
  split_text (LESS :: p) (e ++ t) =
  match split_text (LESS :: p) t with Some (a, b) => Some (e ++ a, b) | None => None end.
Proof.
  induction 1 as [|c e (Hc & _) _ IH]; [cbn [app]; by destruct (split_text (LESS :: p) t) as [[]|]|].
  cbn [app split_text]. rewrite strip_other by done. rewrite IH.
  by destruct (split_text _ t) as [[]|].
Qed.

(** Text of XML characters is read back unchanged. *)
Lemma clean_id t :
  forallb (fun c => (c =? TAB) || (c =? LF) || (c =? CR) || is_xml_character c) t = true -> clean t = t.
Proof.
  induction t as [|c t IH]; [done|]. cbn [forallb]. intros [Hc Ht]%andb_prop.
  change (clean (c :: t)) with (clean_char c :: clean t). rewrite IH by done. unfold clean_char. by rewrite Hc.
Qed.

(** The text of an element whose content was escaped. *)
Lemma direct_text_escaped xml name v before more :
  split_text ([LESS] ++ name ++ [GREATER]) xml = Some (before, escape_xml v ++ closing name ++ more) ->
  (forall t, split_text (closing name) (closing name ++ t) = Some ([], t)) ->
  direct_text xml name = Ok (clean v).
Proof.
  intros Hopen Hclose. unfold direct_text. rewrite Hopen. cbn [ok_or mbind result_bind].
  fold (closing name). change (closing name) with (LESS :: SLASH :: name ++ [GREATER]) at 1.
  rewrite split_text_inert by apply escape_xml_inert.
  change (LESS :: SLASH :: name ++ [GREATER]) with (closing name). rewrite Hclose. simpl.
  rewrite app_nil_r. apply decode_escape.
Qed.

Lemma template_identity arch arm64 spec :
  domain_identity (template arch arm64 spec) = Ok (clean (ds_name spec), clean (ds_uuid spec)).
Proof.
  unfold domain_identity. rewrite template_valid. cbn [mbind result_bind]. unfold template.
  match goal with |- context [lit "</uuid>
  <memory unit='MiB'>" ++ ?t] => set (after := t) end.
  set (more := lit "
  <memory unit='MiB'>" ++ after). set (rest := escape_xml (ds_uuid spec) ++ lit "</uuid>
  <memory unit='MiB'>" ++ after).
  change (first_start_tag _ _) with (Some (lit "domain")).
  cbn [ok_or mbind result_bind]. rewrite bool_decide_true by done. cbn [negb].
  rewrite (direct_text_escaped _ (lit "name") (ds_name spec) (lit "<domain type='kvm'>
  ") (lit "
  <uuid>" ++ rest)); [|reflexivity|reflexivity].
  cbn [mbind result_bind].
  rewrite (direct_text_escaped _ (lit "uuid") (ds_uuid spec) (lit "<domain type='kvm'>
  <name>" ++ escape_xml (ds_name spec) ++ lit "</name>
  ") more); [done| |reflexivity].
  change (escape_xml (ds_uuid spec) ++ closing (lit "uuid") ++ more) with rest.
  assert (Hinner : split_text ([LESS] ++ lit "uuid" ++ [GREATER]) (escape_xml (ds_name spec) ++ lit "</name>
  <uuid>" ++ rest) = Some (escape_xml (ds_name spec) ++ lit "</name>
  ", rest)).
  { change ([LESS] ++ lit "uuid" ++ [GREATER]) with (LESS :: lit "uuid>").
    rewrite split_text_inert by apply escape_xml_inert. reflexivity. }
  revert Hinner. generalize (escape_xml (ds_name spec) ++ lit "</name>
  <uuid>" ++ rest). intros t Ht. cbn in Ht |- *. rewrite Ht. reflexivity.
Qed.

(** C28.  No string can break out of the domain template.  For every
    specification the template accepts, whatever its strings hold, the
    document passes the well-formedness check of the source (one root,
    balanced tags, quoted attributes, no stray text up to the last tag) and a reader gets back exactly the name
    and the UUID that were given, with only the characters XML cannot carry
    replaced; and nothing but a refused specification stops the template. *)
Theorem domain_xml_safe (env_arch : text) (spec : DomainSpec) :
  match domain_xml env_arch spec with
  | Ok xml =>
      validate spec = Ok tt /\ validate_xml xml = Ok tt /\
      domain_identity xml = Ok (clean (ds_name spec), clean (ds_uuid spec)) /\
      (forallb (fun c => (c =? TAB) || (c =? LF) || (c =? CR) || is_xml_character c)
         (ds_name spec ++ ds_uuid spec) = true ->
       domain_identity xml = Ok (ds_name spec, ds_uuid spec))
  | Err e => validate spec = Err e
  end.
Proof.
  unfold domain_xml. destruct (validate spec) as [[]|e]; cbn [mbind result_bind]; [|done].
  rewrite template_valid, template_identity. split_and!; [done..|].
  rewrite forallb_app. intros [Hn Hu]%andb_prop. by rewrite !clean_id.
Qed.
