(* ===== verification/Types.v ===== *)
(** * Types: [crates/types/src/lib.rs]

    The domain types every other component shares: the string enums and
    their wire names, the instance and its neighbours, the host ceilings, and
    the shape rule for an instance name. *)

From Stdlib Require Import ZArith Lia Ascii.
From S2P Require Import Prelude Text Float64.
Open Scope Z_scope.

(** ** String enums

    Each enum of the crate has an [as_str] and a [FromStr] that goes through
    its serde form ([parse_wire]): the value is the variant whose lower-case
    name is the given text.  [StringEnum] is that shape; its law is that the
    wire names are distinct. *)

Record ParseError : Type := mkParseError { pe_kind : string; pe_value : string }.
#[global] Instance ParseError_eq_dec : EqDecision ParseError.
Proof. solve_decision. Defined.

Class StringEnum (A : Type) : Type := {
  variants : list A;
  as_str : A -> string;
  enum_kind : string;
  variants_complete : forall a, a ∈ variants;
  as_str_inj : forall a b, as_str a = as_str b -> a = b
}.

Section StringEnum.
Context {A : Type} `{StringEnum A}.

(** [parse_wire]: deserialize a unit variant from its wire name. *)
Definition parse_wire (kind value : string) : result ParseError A :=
  match find_first (fun a => bool_decide (as_str a = value)) variants with
  | Some a => Ok a
  | None => Err (mkParseError kind value)
  end.

Definition from_str (s : string) : result ParseError A := parse_wire enum_kind s.

Lemma from_str_Ok s a : from_str s = Ok a <-> s = as_str a.
Proof.
  unfold from_str, parse_wire. split.
  - destruct (find_first _ _) as [b|] eqn:Hf; [|done]. intros [= ->].
    apply find_first_elem in Hf as [_ Hb].
    by apply bool_decide_eq_true in Hb.
  - intros ->. destruct (find_first _ _) as [b|] eqn:Hf.
    + apply find_first_elem in Hf as [_ Hb].
      apply bool_decide_eq_true, as_str_inj in Hb. by subst.
    + apply find_first_None in Hf. rewrite Forall_forall in Hf.
      specialize (Hf a (variants_complete a)). by case_bool_decide.
Qed.

Lemma from_str_as_str a : from_str (as_str a) = Ok a.
Proof. by apply from_str_Ok. Qed.
End StringEnum.

(** The observed state of an instance. *)
Inductive State : Type := Running | Stopped | Starting.
(** The state the last user action asked for. *)
Inductive DesiredState : Type := WantRunning | WantStopped.
(** How the HTTP proxy treats requests for an instance name. *)
Inductive Visibility : Type := Off | Private | Public.
(** Whether a host takes new instances. *)
Inductive Placement : Type := PlActive | PlDraining | PlRemoved.
(** What a runner slot is doing. *)
Inductive SlotState : Type := SlActive | SlDraining | SlMoving.
(** Where a disk image comes from. *)
Inductive ImageKind : Type := Qcow2 | Oci.

#[global] Instance State_eq_dec : EqDecision State.
Proof. solve_decision. Defined.
#[global] Instance DesiredState_eq_dec : EqDecision DesiredState.
Proof. solve_decision. Defined.
#[global] Instance Visibility_eq_dec : EqDecision Visibility.
Proof. solve_decision. Defined.
#[global] Instance Placement_eq_dec : EqDecision Placement.
Proof. solve_decision. Defined.
#[global] Instance SlotState_eq_dec : EqDecision SlotState.
Proof. solve_decision. Defined.
#[global] Instance ImageKind_eq_dec : EqDecision ImageKind.
Proof. solve_decision. Defined.

Definition State_as_str (s : State) : string :=
  match s with Running => "running" | Stopped => "stopped" | Starting => "starting" end.
Definition DesiredState_as_str (s : DesiredState) : string :=
  match s with WantRunning => "running" | WantStopped => "stopped" end.
Definition Visibility_as_str (v : Visibility) : string :=
  match v with Off => "off" | Private => "private" | Public => "public" end.
Definition Placement_as_str (p : Placement) : string :=
  match p with PlActive => "active" | PlDraining => "draining" | PlRemoved => "removed" end.
Definition SlotState_as_str (s : SlotState) : string :=
  match s with SlActive => "active" | SlDraining => "draining" | SlMoving => "moving" end.
Definition ImageKind_as_str (k : ImageKind) : string :=
  match k with Qcow2 => "qcow2" | Oci => "oci" end.

Ltac solve_enum :=
  lazymatch goal with
  | |- forall a, a ∈ _ => intros []; set_solver
  | |- _ => by intros [] []
  end.

#[global] Program Instance State_enum : StringEnum State := {|
  variants := [Running; Stopped; Starting];
  as_str := State_as_str; enum_kind := "state" |}.
Solve Obligations with solve_enum.
#[global] Program Instance DesiredState_enum : StringEnum DesiredState := {|
  variants := [WantRunning; WantStopped];
  as_str := DesiredState_as_str; enum_kind := "desired state" |}.
Solve Obligations with solve_enum.
#[global] Program Instance Visibility_enum : StringEnum Visibility := {|
  variants := [Off; Private; Public];
  as_str := Visibility_as_str; enum_kind := "visibility" |}.
Solve Obligations with solve_enum.
#[global] Program Instance Placement_enum : StringEnum Placement := {|
  variants := [PlActive; PlDraining; PlRemoved];
  as_str := Placement_as_str; enum_kind := "placement" |}.
Solve Obligations with solve_enum.
#[global] Program Instance SlotState_enum : StringEnum SlotState := {|
  variants := [SlActive; SlDraining; SlMoving];
  as_str := SlotState_as_str; enum_kind := "slot state" |}.
Solve Obligations with solve_enum.
#[global] Program Instance ImageKind_enum : StringEnum ImageKind := {|
  variants := [Qcow2; Oci];
  as_str := ImageKind_as_str; enum_kind := "image kind" |}.
Solve Obligations with solve_enum.

(** ** Records *)

(** One virtual machine. *)
Record Instance : Type := mkInstance {
  i_uuid : string;
  i_name : string;
  i_owner_id : Z;
  i_host_id : Z;
  i_image_name : string;
  i_base_checksum : string;
  i_state : State;
  i_desired_state : DesiredState;
  i_address : string;
  i_mac : string;
  i_vcpu : Z;
  i_memory_mib : Z;
  i_disk_gib : Z;
  i_nested : bool;
  i_ksm : bool;
  i_http_port : Z;
  i_visibility : Visibility;
  i_created_at : Z;
  i_last_seen_at : option Z;
  i_slot : option Z
}.
#[global] Instance Instance_eq_dec : EqDecision Instance.
Proof. solve_decision. Defined.

Definition DEFAULT_HTTP_PORT : Z := 80.

(** [Instance::effective_http_port]. *)
Definition effective_http_port (i : Instance) : Z :=
  if i_http_port i =? 0 then DEFAULT_HTTP_PORT else i_http_port i.

(** A person with a Bento account. *)
Record User : Type := mkUser {
  u_id : Z;
  u_name : string;
  u_email : string;
  u_oidc_subject : option string;
  u_subnet : string;
  u_created_at : Z
}.
#[global] Instance User_eq_dec : EqDecision User.
Proof. solve_decision. Defined.

(** One resource ceiling of a host. *)
Inductive Ceiling : Type := Unbounded | Limit (limit : Z).
#[global] Instance Ceiling_eq_dec : EqDecision Ceiling.
Proof. solve_decision. Defined.

(** [Ceiling::exceeded_by]. *)
Definition exceeded_by (c : Ceiling) (total : Z) : bool :=
  match c with
  | Unbounded => false
  | Limit limit => limit <? total
  end.

(** What the host can hold. *)
Record Capacity : Type := mkCapacity {
  cap_memory_mib : Ceiling;
  cap_disk_gib : Ceiling
}.

(** [Capacity::limited] and [Capacity::unbounded]. *)
Definition limited (memory_mib disk_gib : Z) : Capacity :=
  mkCapacity (Limit memory_mib) (Limit disk_gib).
Definition unbounded : Capacity := mkCapacity Unbounded Unbounded.

(** [overcommitted_memory_mib]: host memory times the overcommit ratio. *)
Definition overcommitted_memory_mib (memory_mib : Z) (overcommit_ratio : f64) : Z :=
  as_u64 (mul (of_int memory_mib) overcommit_ratio).

(** [Capacity::from_host]. *)
Definition from_host (memory_mib disk_gib : Z) (overcommit_ratio : f64) : Capacity :=
  limited (overcommitted_memory_mib memory_mib overcommit_ratio) disk_gib.

(** [whole_u64] and [mib_from_gib], for the figures of a form. *)
Definition whole_u64 (value : f64) : Z := as_u64 (round_away value).
Definition mib_from_gib (gib : f64) : Z := whole_u64 (mul gib (of_int 1024)).

(** One public key registered by a user. *)
Record SshKey : Type := mkSshKey {
  k_id : Z;
  k_user_id : Z;
  k_public_key : string;
  k_fingerprint : string;
  k_comment : string;
  k_created_at : Z
}.

(** A machine that runs libvirtd and holds instances. *)
Record Host : Type := mkHost {
  h_id : Z;
  h_machine_id : option string;
  h_name : string;
  h_libvirt_uri : string;
  h_endpoint : option string;
  h_underlay : option string;
  h_enabled : bool;
  h_placement : Placement;
  h_created_at : Z
}.
#[global] Instance Host_eq_dec : EqDecision Host.
Proof. solve_decision. Defined.

(** What a new instance needs from a machine. *)
Record Placing : Type := mkPlacing {
  p_vcpu : Z;
  p_memory_mib : Z;
  p_disk_gib : Z;
  p_arch : option string
}.

(** One runner slot. *)
Record Slot : Type := mkSlot {
  s_slot : Z;
  s_state : SlotState;
  s_owner_host_id : Z;
  s_ownership_epoch : Z;
  s_source_host_id : option Z;
  s_destination_host_id : option Z;
  s_operation_id : option string
}.
#[global] Instance Slot_eq_dec : EqDecision Slot.
Proof. solve_decision. Defined.

(** The controller lease. *)
Record Lease : Type := mkLease {
  l_holder_id : string;
  l_epoch : Z;
  l_expires_at : Z
}.
#[global] Instance Lease_eq_dec : EqDecision Lease.
Proof. solve_decision. Defined.

(** Settings that belong to the deployment. *)
Record Deployment : Type := mkDeployment { runner_prefix : Z }.

(** [Deployment::slot_count]: 1, 2, 4, or 8. *)
Definition slot_count (d : Deployment) : Z :=
  Z.shiftl 1 (Z.min (Z.max (runner_prefix d - 24) 0) 3).

Record Image : Type := mkImage {
  img_name : string;
  img_url : string;
  img_kind : ImageKind;
  img_pinned_checksum : option string;
  img_current_checksum : option string
}.

Record ImageVersion : Type := mkImageVersion {
  iv_checksum : string;
  iv_image_name : string;
  iv_path : string;
  iv_size : Z;
  iv_kind : ImageKind;
  iv_source_digest : option string;
  iv_fetched_at : Z
}.

Record Share : Type := mkShare {
  sh_instance_uuid : string;
  sh_user_id : Z;
  sh_created_at : Z
}.

Record ReleasedName : Type := mkReleasedName {
  rn_name : string;
  rn_previous_owner_id : Z;
  rn_released_at : Z
}.

Record Pairing : Type := mkPairing {
  pr_id : Z;
  pr_token_hash : string;
  pr_public_key : string;
  pr_fingerprint : string;
  pr_comment : string;
  pr_created_at : Z;
  pr_expires_at : Z;
  pr_linked_user_id : option Z
}.

Record Token : Type := mkToken {
  t_id : Z;
  t_user_id : Z;
  t_hash : string;
  t_expires_at : option Z
}.

(** ** Instance names *)

Definition label_char (b : ascii) : bool := is_ascii_lowercase b || is_ascii_digit b.

(** [valid_name]: one DNS label of 1 to 63 characters. *)
Definition valid_name (name : string) : bool :=
  let bytes := chars name in
  negb (bool_decide (bytes = [])) &&
  (Z.of_nat (length bytes) <=? 63) &&
  (match bytes !! 0%nat with Some b => label_char b | None => false end) &&
  (match bytes !! (length bytes - 1)%nat with Some b => label_char b | None => false end) &&
  forallb (fun b => label_char b || Ascii.eqb b "-") bytes.

(** [is_reserved]. *)
Definition is_reserved (name : string) (reserved : list string) : bool :=
  existsb (fun entry => bool_decide (entry = name)) reserved.

(** ** Error chains

    [error_chain] joins the texts of an error and its sources, skipping a
    cause whose text the message already ends with. *)
Fixpoint is_suffix (l s : string) : bool :=
  if bool_decide (l = s) then true
  else match s with EmptyString => false | String _ s' => is_suffix l s' end.

Fixpoint chain_from (text : string) (causes : list string) : string :=
  match causes with
  | [] => text
  | layer :: rest =>
      chain_from (if is_suffix layer text then text else text +:+ ": " +:+ layer) rest
  end.

(** The head of the list is the error itself, the rest its [source()] chain. *)
Definition error_chain (error : string) (sources : list string) : string :=
  chain_from error sources.
