(* ===== verification/Ipv4.v ===== *)
(** * Ipv4: addresses and CIDR prefixes

    [std::net::Ipv4Addr] (a 32-bit number with a dotted-quad text form) and
    [Ipv4Prefix] of [crates/config/src/lib.rs], the one CIDR parser of the
    workspace. *)

From Stdlib Require Import ZArith Lia Ascii.
From S2P Require Import Prelude Text.
Open Scope Z_scope.

(** ** Addresses

    An address is the [u32] that [u32::from] gives, so [u32::from] and
    [Ipv4Addr::from] are the identity. *)

Definition octet (n : Z) (a : Z) : Z := Z.land (Z.shiftr a (8 * n)) 255.

(** [Display] of [Ipv4Addr]. *)
Definition addr_to_string (a : Z) : string :=
  dec (octet 3 a) +:+ String "." (dec (octet 2 a) +:+ String "."
    (dec (octet 1 a) +:+ String "." (dec (octet 0 a)))).

(** One octet of the strict parser of [Ipv4Addr]: one to three digits, no
    leading zero, at most 255. *)
Definition parse_octet (s : string) : option Z :=
  if (3 <? str_len s) then None
  else if str_all is_ascii_digit s then
    match s with
    | String "0" (String _ _) => None
    | _ => match parse_digits s with
           | Some z => if z <=? 255 then Some z else None
           | None => None
           end
    end
  else None.

Definition addr_of_octets (a b c d : Z) : Z :=
  Z.lor (Z.shiftl a 24) (Z.lor (Z.shiftl b 16) (Z.lor (Z.shiftl c 8) d)).

(** [Ipv4Addr::from_str]. *)
Definition parse_addr (s : string) : option Z :=
  match split_on "." s with
  | [p3; p2; p1; p0] =>
      a ← parse_octet p3; b ← parse_octet p2; c ← parse_octet p1; d ← parse_octet p0;
      Some (addr_of_octets a b c d)
  | _ => None
  end.

(** ** Prefixes *)

Record Ipv4Prefix : Type := mkPrefix { addr : Z; bits : Z }.
#[global] Instance Ipv4Prefix_eq_dec : EqDecision Ipv4Prefix.
Proof. solve_decision. Defined.

Definition wf_prefix (p : Ipv4Prefix) : Prop := is_u32 (addr p) /\ 0 <= bits p <= 32.

(** The mask both [Ipv4Prefix::contains] and [subnet::prefix_mask] compute
    for a length of at most 32. *)
Definition mask_of (b : Z) : Z := if b =? 0 then 0 else u32_shl u32_max (32 - b).

(** [Ipv4Prefix::contains]. *)
Definition contains (p : Ipv4Prefix) (address : Z) : bool :=
  if (0 <=? bits p) && (bits p <=? 32) then
    Z.land address (mask_of (bits p)) =? Z.land (addr p) (mask_of (bits p))
  else false.

(** [Display] of [Ipv4Prefix], which [subnet::format_prefix] repeats. *)
Definition prefix_to_string (p : Ipv4Prefix) : string :=
  addr_to_string (addr p) +:+ String "/" (dec (bits p)).

(** [Ipv4Prefix::from_str]; the error text is dropped. *)
Definition parse_prefix (s : string) : option Ipv4Prefix :=
  match split_once "/" s with
  | None => None
  | Some (addr_part, bits_part) =>
      a ← parse_addr addr_part;
      b ← parse_uint u8_max bits_part;
      if 32 <? b then None else Some (mkPrefix a b)
  end.

(** ** Round trips *)

Lemma octet_bound n a : 0 <= octet n a <= 255.
Proof.
  unfold octet. rewrite land_255.
  pose proof (Z.mod_pos_bound (Z.shiftr a (8 * n)) 256). lia.
Qed.

(** The display of a byte has at most three characters and no leading zero. *)
Lemma dec_byte_shape z : 0 <= z <= 255 ->
  (str_len (dec z) <= 3) /\ forall c s, dec z <> String "0" (String c s).
Proof.
  intros Hz.
  assert (Hall : forallb (fun z => (str_len (dec z) <=? 3) &&
    match dec z with String "0" (String _ _) => false | _ => true end)
    (seqZ 0 256) = true) by (vm_compute; reflexivity).
  rewrite forallb_forall in Hall. specialize (Hall z).
  apply andb_prop in Hall as [Hl Hs]; [|apply list_elem_of_In, elem_of_seqZ; lia].
  split; [lia|]. intros c s Heq. rewrite Heq in Hs. done.
Qed.

Lemma parse_octet_dec z : 0 <= z <= 255 -> parse_octet (dec z) = Some z.
Proof.
  intros Hz. destruct (dec_byte_shape z Hz) as [Hlen Hshape].
  unfold parse_octet. destruct (Z.ltb_spec 3 (str_len (dec z))); [lia|].
  rewrite dec_digits, parse_digits_dec by lia.
  destruct (Z.leb_spec z 255); [|lia].
  destruct (dec z) as [|c [|c' s]] eqn:Hd; try done.
  - by destruct c as [[] [] [] [] [] [] [] []].
  - destruct c as [[] [] [] [] [] [] [] []]; try done.
    by destruct (Hshape c' s).
Qed.

Lemma addr_of_octets_eq a : is_u32 a ->
  addr_of_octets (octet 3 a) (octet 2 a) (octet 1 a) (octet 0 a) = a.
Proof.
  intros Ha. unfold addr_of_octets, octet.
  change 255 with (Z.ones 8). apply Z.bits_inj'. intros n Hn.
  rewrite !Z.lor_spec, !Z.shiftl_spec by lia.
  destruct (Z.ltb_spec n 32).
  - destruct (Z.ltb_spec n 8).
    { rewrite !(Z.testbit_neg_r _ (n - _)) by lia. simpl.
      rewrite Z.land_spec, Z.shiftr_spec, Z.ones_spec_low by lia.
      rewrite andb_true_r. f_equal. lia. }
    destruct (Z.ltb_spec n 16).
    { rewrite !(Z.testbit_neg_r _ (n - 24)), !(Z.testbit_neg_r _ (n - 16)) by lia.
      rewrite !Z.land_spec, !Z.shiftr_spec by lia.
      rewrite (Z.ones_spec_low 8 (n - 8)), (Z.ones_spec_high 8 n) by lia.
      rewrite andb_true_r, andb_false_r, orb_false_r. simpl. f_equal. lia. }
    destruct (Z.ltb_spec n 24).
    { rewrite !(Z.testbit_neg_r _ (n - 24)) by lia.
      rewrite !Z.land_spec, !Z.shiftr_spec by lia.
      rewrite (Z.ones_spec_low 8 (n - 16)), (Z.ones_spec_high 8 (n - 8)),
        (Z.ones_spec_high 8 n) by lia.
      rewrite andb_true_r, !andb_false_r, !orb_false_r. simpl. f_equal. lia. }
    rewrite !Z.land_spec, !Z.shiftr_spec by lia.
    rewrite (Z.ones_spec_low 8 (n - 24)), (Z.ones_spec_high 8 (n - 16)),
      (Z.ones_spec_high 8 (n - 8)), (Z.ones_spec_high 8 n) by lia.
    rewrite andb_true_r, !andb_false_r, !orb_false_r. f_equal. lia.
  - rewrite !Z.land_spec, !Z.ones_spec_high, !andb_false_r by lia. simpl.
    symmetry. destruct (decide (a = 0)) as [->|]; [apply Z.bits_0|].
    apply Z.bits_above_log2; [int_lia|].
    apply Z.log2_lt_pow2; [int_lia|].
    apply Z.lt_le_trans with (2 ^ 32); [int_lia|]. apply Z.pow_le_mono_r; lia.
Qed.

Lemma dec_octet_free z : free "." (dec z).
Proof. apply digits_free; [apply dec_digits|done]. Qed.

Lemma addr_to_string_pieces a :
  split_on "." (addr_to_string a) =
  [dec (octet 3 a); dec (octet 2 a); dec (octet 1 a); dec (octet 0 a)].
Proof.
  unfold addr_to_string.
  rewrite !split_on_app by apply dec_octet_free.
  by rewrite split_on_free by apply dec_octet_free.
Qed.

Lemma parse_addr_to_string a : is_u32 a -> parse_addr (addr_to_string a) = Some a.
Proof.
  intros Ha. unfold parse_addr. rewrite addr_to_string_pieces.
  rewrite !parse_octet_dec by apply octet_bound. simpl.
  by rewrite addr_of_octets_eq.
Qed.

Lemma addr_to_string_free_slash a : free "/" (addr_to_string a).
Proof.
  unfold addr_to_string, free. rewrite !str_all_app.
  assert (Hd : forall z, str_all (fun c => negb (Ascii.eqb c "/")) (dec z) = true).
  { intros z. apply (digits_free "/" (dec z)); [apply dec_digits|done]. }
  cbn [str_all]. rewrite !str_all_app. cbn [str_all]. rewrite !str_all_app.
  cbn [str_all]. by rewrite !Hd.
Qed.

(** ** Masks as arithmetic *)

(** The number of addresses a prefix of length [b] covers. *)
Definition span (b : Z) : Z := 2 ^ (32 - b).

Lemma span_pos b : b <= 32 -> 0 < span b.
Proof. intros. unfold span. apply Z.pow_pos_nonneg; lia. Qed.

Lemma mask_of_eq b : 0 <= b <= 32 -> mask_of b = 2 ^ 32 - span b.
Proof.
  intros Hb. unfold mask_of, span. destruct (Z.eqb_spec b 0) as [->|]; [done|].
  unfold u32_shl, u32_max. rewrite Z.shiftl_mul_pow2 by lia.
  replace ((2 ^ 32 - 1) * 2 ^ (32 - b)) with ((2 ^ 32 - 2 ^ (32 - b)) + (2 ^ (32 - b) - 1) * 2 ^ 32) by ring.
  rewrite Z.mod_add by lia. apply Z.mod_small.
  assert (2 ^ (32 - b) <= 2 ^ 32) by (apply Z.pow_le_mono_r; lia).
  assert (0 < 2 ^ (32 - b)) by (apply Z.pow_pos_nonneg; lia). lia.
Qed.

Lemma mask_of_land b a :
  0 <= b <= 32 -> is_u32 a -> Z.land a (mask_of b) = a / span b * span b.
Proof.
  intros Hb Ha. rewrite mask_of_eq by done. unfold span.
  assert (Hm : 2 ^ 32 - 2 ^ (32 - b) = Z.shiftl (Z.ones b) (32 - b)).
  { rewrite Z.shiftl_mul_pow2, Z.ones_equiv by lia.
    unfold Z.pred. rewrite Z.mul_add_distr_r, <-Z.pow_add_r by lia.
    replace (b + (32 - b)) with 32 by lia. lia. }
  rewrite Hm. rewrite <-Z.shiftr_div_pow2, <-Z.shiftl_mul_pow2 by lia.
  apply Z.bits_inj'. intros n Hn.
  rewrite Z.land_spec, !Z.shiftl_spec by lia.
  destruct (Z.ltb_spec n (32 - b)).
  - rewrite !(Z.testbit_neg_r _ (n - (32 - b))) by lia. apply andb_false_r.
  - rewrite Z.shiftr_spec by lia. replace (n - (32 - b) + (32 - b)) with n by lia.
    destruct (Z.ltb_spec n 32).
    + rewrite Z.ones_spec_low by lia. apply andb_true_r.
    + rewrite Z.ones_spec_high by lia. rewrite andb_false_r. symmetry.
      destruct (decide (a = 0)) as [->|]; [apply Z.bits_0|].
      apply Z.bits_above_log2; [int_lia|]. apply Z.log2_lt_pow2; [int_lia|].
      apply Z.lt_le_trans with (2 ^ 32); [int_lia|]. apply Z.pow_le_mono_r; lia.
Qed.

(** A prefix covers exactly the [span] addresses that share its network. *)
Lemma contains_spec p a :
  wf_prefix p -> is_u32 a ->
  contains p a = true <-> a / span (bits p) = addr p / span (bits p).
Proof.
  intros [Hp Hb] Ha. unfold contains.
  destruct (Z.leb_spec 0 (bits p)), (Z.leb_spec (bits p) 32); try lia. simpl.
  rewrite !mask_of_land by done. rewrite Z.eqb_eq.
  pose proof (span_pos (bits p)). nia.
Qed.

Lemma parse_prefix_to_string p :
  wf_prefix p -> parse_prefix (prefix_to_string p) = Some p.
Proof.
  intros [Hp Hb]. unfold parse_prefix, prefix_to_string.
  rewrite split_once_app by apply addr_to_string_free_slash.
  rewrite parse_addr_to_string by done. simpl.
  rewrite parse_uint_dec by int_lia. simpl.
  destruct (Z.ltb_spec 32 (bits p)); [lia|]. by destruct p.
Qed.

Lemma parse_octet_bound s z : parse_octet s = Some z -> 0 <= z <= 255.
Proof.
  unfold parse_octet. repeat case_match; try done; intros [= <-];
    match goal with H : parse_digits _ = Some _ |- _ => apply parse_digits_nonneg in H end; lia.
Qed.

Lemma addr_of_octets_arith a b c d :
  0 <= a <= 255 -> 0 <= b <= 255 -> 0 <= c <= 255 -> 0 <= d <= 255 ->
  addr_of_octets a b c d = a * 2 ^ 24 + b * 2 ^ 16 + c * 2 ^ 8 + d.
Proof.
  intros. unfold addr_of_octets.
  assert (Hlor : forall n x y, 0 <= n -> 0 <= y < 2 ^ n -> Z.lor (Z.shiftl x n) y = x * 2 ^ n + y).
  { intros n x y Hn Hy. rewrite <-Z.shiftl_mul_pow2 by lia.
    rewrite <-Z.lxor_lor, Z.add_nocarry_lxor; [done|..];
      apply Z.bits_inj'; intros k Hk; rewrite Z.land_spec, Z.bits_0, Z.shiftl_spec by lia;
      (destruct (Z.ltb_spec k n); [by rewrite Z.testbit_neg_r by lia|]);
      (destruct (decide (y = 0)) as [->|]; [by rewrite Z.bits_0, andb_false_r|]);
      rewrite (Z.bits_above_log2 y), andb_false_r; try done; try lia;
      (apply Z.lt_le_trans with n; [apply Z.log2_lt_pow2; lia|lia]). }
  rewrite (Hlor 8 c d), (Hlor 16 b), (Hlor 24 a) by lia. lia.
Qed.

Lemma parse_addr_u32 s a : parse_addr s = Some a -> is_u32 a.
Proof.
  unfold parse_addr. destruct (split_on "." s) as [|? [|? [|? [|? [|? ?]]]]]; try done.
  intros H. simplify_option_eq.
  repeat match goal with H : parse_octet _ = Some _ |- _ => apply parse_octet_bound in H end.
  rewrite addr_of_octets_arith by done. int_lia.
Qed.

Lemma parse_prefix_wf s p : parse_prefix s = Some p -> wf_prefix p.
Proof.
  unfold parse_prefix. destruct (split_once _ _) as [[l r]|]; [|done].
  destruct (parse_addr l) as [a|] eqn:Ha; [|done]. simpl.
  destruct (parse_uint u8_max r) as [b|] eqn:Hb; [|done]. simpl.
  destruct (Z.ltb_spec 32 b); [done|]. intros [= <-].
  apply parse_addr_u32 in Ha. apply parse_uint_bound in Hb. split; simpl; [done|lia].
Qed.

(** The one CIDR parser and its printer agree: a prefix printed and
    parsed again is the same prefix, and whatever text parses gives a
    well-formed prefix whose printed form parses to it. *)
Theorem prefix_round_trip (p : Ipv4Prefix) (s : string) :
  (wf_prefix p -> parse_prefix (prefix_to_string p) = Some p) /\
  (parse_prefix s = Some p -> wf_prefix p /\ parse_prefix (prefix_to_string p) = Some p).
Proof.
  split; [apply parse_prefix_to_string|].
  intros H%parse_prefix_wf. auto using parse_prefix_to_string.
Qed.

Lemma prefix_round_trip_witness :
  let p := mkPrefix 174325760 16 in
  wf_prefix p /\ parse_prefix "10.100.0.0/16" = Some p /\
  parse_prefix (prefix_to_string p) = Some p.
Proof.
  assert (H : wf_prefix (mkPrefix 174325760 16)) by (split; simpl; int_lia).
  split; [exact H|]. split; [reflexivity|].
  exact (proj1 (prefix_round_trip (mkPrefix 174325760 16) "10.100.0.0/16") H).
Defined.
