(* ===== verification/Ip.v ===== *)
(** * Ip: addresses and socket addresses as text

    The parser of [core::net] behind [IpAddr::from_str] and
    [SocketAddr::from_str]: a reader takes what it recognises off the front
    of the text, and a whole text is an address when nothing is left. *)

From Stdlib Require Import ZArith Lia Ascii DecimalString DecimalN.
From S2P Require Import Prelude Text Ipv4.
Open Scope Z_scope.

Inductive IpAddr : Type := V4 (address : Z) | V6 (groups : list Z).
#[global] Instance IpAddr_eq_dec : EqDecision IpAddr.
Proof. solve_decision. Defined.

Definition digit_value (c : ascii) : option Z :=
  let z := ascii_code c in
  if is_ascii_digit c then Some (z - 48)
  else if in_range "a" "f" c then Some (z - 87) else if in_range "A" "F" c then Some (z - 55) else None.
Definition digit_in (radix : Z) (c : ascii) : option Z :=
  d ← digit_value c; if d <? radix then Some d else None.

(** The digits at the front: their number, their value, and the rest. *)
Fixpoint take_number (radix : Z) (l : list ascii) (count value : Z) : Z * Z * list ascii :=
  match l with
  | c :: l' =>
      match digit_in radix c with
      | Some d => take_number radix l' (count + 1) (value * radix + d)
      | None => (count, value, l)
      end
  | [] => (count, value, [])
  end.

(** [Parser::read_number]: at most [max_digits] of them, if that is given, a
    value of at most [max], and a leading zero only where it is allowed. *)
Definition read_number (radix : Z) (max_digits : option Z) (allow_zero_prefix : bool) (max : Z) (l : list ascii) :
    option (Z * list ascii) :=
  let '(count, value, rest) := take_number radix l 0 0 in
  let leading_zero := match head l with Some c => Ascii.eqb c "0" | None => false end in
  if (count =? 0) || match max_digits with Some m => m <? count | None => false end ||
     (negb allow_zero_prefix && leading_zero && (1 <? count)) || (max <? value)
  then None else Some (value, rest).

Definition read_given_char (c : ascii) (l : list ascii) : option (list ascii) :=
  match l with a :: l' => if Ascii.eqb a c then Some l' else None | [] => None end.

(** [read_ipv4_addr]. *)
Definition read_ipv4_addr (l : list ascii) : option (Z * list ascii) :=
  let octet := read_number 10 (Some 3) false 255 in
  '(a, l) ← octet l; l ← read_given_char "." l; '(b, l) ← octet l; l ← read_given_char "." l;
  '(c, l) ← octet l; l ← read_given_char "." l; '(d, l) ← octet l;
  Some (addr_of_octets a b c d, l).

(** [read_groups]: the groups, whether an IPv4 address ended them, and the
    rest; [room] more have a place. *)
Fixpoint read_groups (room : nat) (groups : list Z) (l : list ascii) : list Z * bool * list ascii :=
  match room with
  | O => (groups, false, l)
  | S room =>
      let after_separator := match groups with [] => Some l | _ => read_given_char ":" l end in
      match (if (1 <=? room)%nat then after_separator ≫= read_ipv4_addr else None) with
      | Some (v4, rest) => (groups ++ [Z.shiftr v4 16; Z.land v4 65535], true, rest)
      | None =>
          match after_separator ≫= read_number 16 (Some 4) true 65535 with
          | Some (group, rest) => read_groups room (groups ++ [group]) rest
          | None => (groups, false, l)
          end
      end
  end.

(** [read_ipv6_addr]. *)
Definition read_ipv6_addr (l : list ascii) : option (list Z * list ascii) :=
  let '(head_, head_ipv4, l) := read_groups 8 [] l in
  if (length head_ =? 8)%nat then Some (head_, l)
  else if head_ipv4 then None
  else
    l ← read_given_char ":" l; l ← read_given_char ":" l;
    let '(tail_, _, l) := read_groups (8 - (length head_ + 1)) [] l in
    Some (head_ ++ replicate (8 - length head_ - length tail_) 0 ++ tail_, l).

(** [IpAddr::from_str]. *)
Definition parse_ip (s : string) : option IpAddr :=
  match read_ipv4_addr (chars s) with
  | Some (a, []) => Some (V4 a)
  | Some _ => None
  | None => match read_ipv6_addr (chars s) with Some (groups, []) => Some (V6 groups) | _ => None end
  end.
Definition is_ipv6 (s : string) : bool := match parse_ip s with Some (V6 _) => true | _ => false end.

(** [IpAddr::is_unspecified]. *)
Definition is_unspecified (a : IpAddr) : bool :=
  match a with V4 a => a =? 0 | V6 groups => forallb (Z.eqb 0) groups end.

Record SocketAddr : Type := mkSocketAddr { sa_ip : IpAddr; sa_port : Z }.

(** [SocketAddr::from_str]: [a.b.c.d:port], or [[v6]:port] with an optional
    numeric scope. *)
Definition read_port (l : list ascii) : option Z :=
  l ← read_given_char ":" l;
  '(port, rest) ← read_number 10 None true 65535 l;
  if bool_decide (rest = []) then Some port else None.
Definition parse_socket (s : string) : option SocketAddr :=
  match read_ipv4_addr (chars s) with
  | Some (a, rest) =>
      match read_port rest with Some port => Some (mkSocketAddr (V4 a) port) | None => None end
  | None =>
      l ← read_given_char "[" (chars s);
      '(groups, l) ← read_ipv6_addr l;
      let l := match (l ← read_given_char "%" l; read_number 10 None true u32_max l) with
               | Some (_, rest) => rest
               | None => l
               end in
      l ← read_given_char "]" l;
      port ← read_port l;
      Some (mkSocketAddr (V6 groups) port)
  end.

(** ** What the readers take *)

Fixpoint implode (l : list ascii) : string := match l with [] => EmptyString | c :: l => String c (implode l) end.
Lemma implode_chars s : implode (chars s) = s.
Proof. induction s as [|c s IH]; [done|]. simpl. by rewrite IH. Qed.
Lemma implode_app a b : implode (a ++ b) = implode a +:+ implode b.
Proof. induction a as [|c a IH]; [done|]. simpl. by rewrite IH. Qed.
Lemma chars_implode l : chars (implode l) = l.
Proof. induction l as [|c l IH]; [done|]. simpl. by rewrite IH. Qed.

(** Digits as a number, most significant first. *)
Definition horner (radix : Z) (l : list ascii) (value : Z) : Z :=
  foldl (fun v c => v * radix + default 0 (digit_value c)) value l.

Lemma take_number_spec radix l count value n v rest :
  take_number radix l count value = (n, v, rest) ->
  exists digits, l = digits ++ rest /\ n = count + Z.of_nat (length digits) /\ v = horner radix digits value /\
    Forall (fun c => is_Some (digit_in radix c)) digits.
Proof.
  revert count value. induction l as [|c l IH]; intros count value; cbn.
  - intros [= <- <- <-]. exists []. split_and!; [done|cbn; lia|done|constructor].
  - destruct (digit_in radix c) as [d|] eqn:Hd.
    + intros (digits & -> & -> & -> & Hall)%IH. exists (c :: digits). split_and!; [done|cbn; lia| |].
      * cbn. f_equal. unfold digit_in in Hd. destruct (digit_value c) as [d'|]; [|done]. cbn in *.
        destruct (d' <? radix); [|done]. by injection Hd as ->.
      * constructor; [by rewrite Hd|done].
    + intros [= <- <- <-]. exists []. split_and!; [done|cbn; lia|done|constructor].
Qed.

Lemma read_number_suffix radix max_digits allow max l v rest :
  read_number radix max_digits allow max l = Some (v, rest) ->
  exists digits, l = digits ++ rest /\ digits <> [] /\ v = horner radix digits 0 /\ v <= max /\
    Forall (fun c => is_Some (digit_in radix c)) digits.
Proof.
  unfold read_number. destruct (take_number radix l 0 0) as [[n v'] rest'] eqn:Ht.
  apply take_number_spec in Ht as (digits & -> & -> & -> & Hall). destruct (_ || _) eqn:Hc; [done|]. intros [= <- <-].
  apply orb_false_iff in Hc as [[[Hz _]%orb_false_iff _]%orb_false_iff Hm]. exists digits.
  split_and!; [done| |done|lia|done]. intros ->. by cbn in Hz.
Qed.
Lemma read_given_char_spec c l rest : read_given_char c l = Some rest -> l = c :: rest.
Proof. destruct l as [|a l]; cbn; [done|]. destruct (Ascii.eqb_spec a c); [|done]. intros [= <-]. by subst. Qed.

(** A reader takes a part off the front. *)
Definition suffix_of (rest l : list ascii) : Prop := exists taken, l = taken ++ rest.
#[global] Instance suffix_of_preorder : PreOrder suffix_of.
Proof. split; [intros l; by exists []|]. intros x y z [a ->] [b ->]. exists (b ++ a). by rewrite app_assoc. Qed.

Lemma read_given_char_suffix c l rest : read_given_char c l = Some rest -> suffix_of rest l.
Proof. intros ->%read_given_char_spec. by exists [c]. Qed.
Lemma read_number_tail radix max_digits allow max l v rest :
  read_number radix max_digits allow max l = Some (v, rest) -> suffix_of rest l.
Proof. intros (d & -> & _)%read_number_suffix. by exists d. Qed.

Ltac read_inv :=
  repeat match goal with
  | H : (_ ≫= _) = Some _ |- _ => apply bind_Some in H as (? & ? & ?)
  | H : (let '(_, _) := ?p in _) = Some _ |- _ => destruct p
  | H : Some _ = Some _ |- _ => injection H as ? ?; subst
  end.

Lemma read_ipv4_suffix l a rest : read_ipv4_addr l = Some (a, rest) -> suffix_of rest l.
Proof.
  unfold read_ipv4_addr. cbv zeta. intros H. read_inv.
  repeat match goal with
  | H : read_given_char _ _ = Some _ |- _ => apply read_given_char_suffix in H
  | H : read_number _ _ _ _ _ = Some _ |- _ => apply read_number_tail in H
  end. repeat (etransitivity; [eassumption|]). reflexivity.
Qed.

Lemma read_groups_suffix room groups l groups' b rest : read_groups room groups l = (groups', b, rest) -> suffix_of rest l.
Proof.
  revert groups l. induction room as [|room IH]; intros groups l; cbn [read_groups]; [by intros H; simplify_eq|]. cbv zeta.
  set (sep := match groups with [] => Some l | _ => read_given_char ":" l end).
  assert (Hsep : forall r, sep = Some r -> suffix_of r l).
  { unfold sep. destruct groups; [by intros r [= ->]|]. intros r. apply read_given_char_suffix. }
  destruct (if (1 <=? room)%nat then _ else _) as [[v4 r4]|] eqn:H4.
  - intros H. destruct (1 <=? room)%nat; [|done]. simplify_eq. apply bind_Some in H4 as (x & Hx & H4).
    etransitivity; [by eapply read_ipv4_suffix|by apply Hsep].
  - destruct (sep ≫= read_number 16 _ _ _) as [[g rg]|] eqn:Hg; [|by intros H; simplify_eq]. intros Hr%IH.
    apply bind_Some in Hg as (x & Hx & Hg). etransitivity; [exact Hr|].
    etransitivity; [by eapply read_number_tail|by apply Hsep].
Qed.
Lemma read_ipv6_suffix l a rest : read_ipv6_addr l = Some (a, rest) -> suffix_of rest l.
Proof.
  unfold read_ipv6_addr. destruct (read_groups 8 [] l) as [[h b] l1] eqn:H1. apply read_groups_suffix in H1.
  destruct (length h =? 8)%nat; [by intros H; simplify_eq|]. destruct b; [done|]. intros H.
  apply bind_Some in H as (l2 & H2 & H). apply bind_Some in H as (l3 & H3 & H).
  destruct (read_groups _ [] l3) as [[t c] l4] eqn:H4. simplify_eq.
  apply read_groups_suffix in H4. apply read_given_char_suffix in H2, H3. by do 3 (etransitivity; [eassumption|]).
Qed.

(** A socket address ends in a colon and its port, in decimal. *)
Lemma read_port_spec l port : read_port l = Some port ->
  exists digits, l = ":"%char :: digits /\ digits <> [] /\ port = horner 10 digits 0 /\ port <= 65535 /\
    Forall (fun c => is_Some (digit_in 10 c)) digits.
Proof.
  unfold read_port. intros (l1 & ->%read_given_char_spec & H)%bind_Some. apply bind_Some in H as ([p rest] & H & Hp).
  case_bool_decide; [|done]. subst. injection Hp as ->. apply read_number_suffix in H as (d & -> & Hd).
  exists d. rewrite app_nil_r. split; [done|]. tauto.
Qed.
Lemma parse_socket_port s sa : parse_socket s = Some sa ->
  exists host digits, chars s = host ++ ":"%char :: digits /\ digits <> [] /\ sa_port sa = horner 10 digits 0 /\
    sa_port sa <= 65535 /\ Forall (fun c => is_Some (digit_in 10 c)) digits.
Proof.
  intros H. assert (Hl : exists rest, suffix_of rest (chars s) /\ read_port rest = Some (sa_port sa)).
  { revert H. unfold parse_socket. destruct (read_ipv4_addr (chars s)) as [[a rest]|] eqn:H4.
    - destruct (read_port rest) as [p|] eqn:Hp; [|done]. intros [= <-]. exists rest. by apply read_ipv4_suffix in H4.
    - intros H. apply bind_Some in H as (l1 & H1 & H). apply bind_Some in H as ([g l2] & H2 & H).
      set (l3 := match _ with Some _ => _ | None => l2 end) in H. apply bind_Some in H as (l4 & H5 & H).
      apply bind_Some in H as (p & Hp & [= <-]). exists l4. split; [|done].
      assert (suffix_of l3 l2).
      { unfold l3. destruct (read_given_char "%" l2 ≫= _) as [[x r]|] eqn:Hs; [|done].
        apply bind_Some in Hs as (y & Hy%read_given_char_suffix & Hs%read_number_tail). by etransitivity. }
      apply read_given_char_suffix in H1, H5. apply read_ipv6_suffix in H2. by do 3 (etransitivity; [eassumption|]). }
  destruct Hl as (rest & [host Hh] & Hp). apply read_port_spec in Hp as (d & -> & Hd). by exists host, d.
Qed.

(** Both readers of decimal digits agree. *)
Lemma digit_in_10 c : is_Some (digit_in 10 c) <-> is_ascii_digit c = true.
Proof.
  assert (H : is_ascii_digit c = match digit_in 10 c with Some _ => true | None => false end).
  { by destruct c as [[] [] [] [] [] [] [] []]. }
  rewrite H. destruct (digit_in 10 c); split; by try intros [? ?].
Qed.
Lemma uint_of_string_cons c s d : NilEmpty.uint_of_string (String c s) = Some d ->
  exists d', NilEmpty.uint_of_string s = Some d' /\ is_ascii_digit c = true /\
    (forall acc, Zpos (Pos.of_uint_acc d acc) = Zpos (Pos.of_uint_acc d' (Z.to_pos (Zpos acc * 10 + default 0 (digit_value c))))) /\
    Z.of_N (N.of_uint d) = (if decide (default 0 (digit_value c) = 0) then Z.of_N (N.of_uint d')
                            else Zpos (Pos.of_uint_acc d' (Z.to_pos (default 0 (digit_value c))))).
Proof.
  cbn [NilEmpty.uint_of_string]. destruct (NilEmpty.uint_of_string s) as [d'|];
    [|by destruct c as [[] [] [] [] [] [] [] []]].
  destruct c as [[] [] [] [] [] [] [] []]; try (by intros [=]); intros [= <-]; exists d';
    (split; [done|]; split; [done|]; split; [|done]); intros acc; cbn [Pos.of_uint_acc]; do 2 f_equal;
    match goal with |- context [default 0 (digit_value ?c)] =>
      let v := eval vm_compute in (default 0 (digit_value c)) in change (default 0 (digit_value c)) with v end; lia.
Qed.
Lemma of_uint_acc_horner s d acc : NilEmpty.uint_of_string s = Some d ->
  Zpos (Pos.of_uint_acc d acc) = horner 10 (chars s) (Zpos acc).
Proof.
  revert d acc. induction s as [|c s IH]; intros d acc; [by intros [= <-]|].
  intros (d' & Hd & Hc & Hacc & _)%uint_of_string_cons. rewrite Hacc, (IH d' _ Hd). unfold horner. cbn [chars foldl].
  rewrite Z2Pos.id; [done|]. assert (0 <= default 0 (digit_value c)) by (clear -c; by destruct c as [[] [] [] [] [] [] [] []]). lia.
Qed.
Lemma of_uint_horner s d : NilEmpty.uint_of_string s = Some d -> Z.of_N (N.of_uint d) = horner 10 (chars s) 0.
Proof.
  revert d. induction s as [|c s IH]; intros d; [by intros [= <-]|].
  intros (d' & Hd & Hc & _ & ->)%uint_of_string_cons. unfold horner. cbn [chars foldl]. case_decide as H0.
  - rewrite H0. by apply IH.
  - rewrite (of_uint_acc_horner s d' _ Hd), Z2Pos.id; [done|].
    assert (0 <= default 0 (digit_value c)) by (clear -c; by destruct c as [[] [] [] [] [] [] [] []]). lia.
Qed.
Lemma parse_digits_horner s : str_all is_ascii_digit s = true -> s <> EmptyString ->
  parse_digits s = Some (horner 10 (chars s) 0).
Proof.
  intros Hs Hne. assert (exists d, NilEmpty.uint_of_string s = Some d) as [d Hd].
  { clear Hne. induction s as [|a s IH]; [by eexists|]. apply andb_prop in Hs as [Ha Hs].
    destruct (IH Hs) as [d Hd]. cbn [NilEmpty.uint_of_string]. rewrite Hd.
    destruct a as [[] [] [] [] [] [] [] []]; try (by vm_compute in Ha); by eexists. }
  unfold parse_digits. destruct s; [done|]. by rewrite Hd, (of_uint_horner _ _ Hd).
Qed.
