(* ===== verification/Network.v ===== *)
(** * Network: [crates/network/src/{slot,subnet,mac,lib}.rs]

    How the private range divides into one [/24] per user, how a user [/24]
    divides into runner slots, and which subnet and address an allocation
    picks.  The two stores the allocators read ([SubnetStore] and
    [AddressStore]) are interfaces; an implementation is a parameter. *)

From Stdlib Require Import ZArith Lia Ascii.
From S2P Require Import Prelude Text Ipv4.
Open Scope Z_scope.

(** [network::Error].  The message of [Invalid] is kept as the data it
    formats. *)
Inductive invalid_reason : Type :=
  | PrivateRange (text : string)
  | NarrowerThan24 (p : Ipv4Prefix)
  | SubnetIndex (index count : Z)
  | NotSlash24 (p : Ipv4Prefix)
  | OutsideRange (subnet range : Ipv4Prefix)
  | SlotBits (bits : Z)
  | SlotMissing (slot bits count : Z)
  | OutsideSubnet (address : Z) (subnet : Ipv4Prefix)
  | RouteNotNarrower (destination subnet : Ipv4Prefix)
  | SlotTwoOwners (slot : Z)
  | NextHopInside (next_hop slot : Z) (range : Ipv4Prefix)
  | FrontendInside (frontend : Z) (range : Ipv4Prefix)
  | NotSlotRoute (destination : Ipv4Prefix)
  | RulesetRange (range : Ipv4Prefix)
  | UnsafeBridge (bridge : string)
  | DuplicateBridge (bridge : string)
  | InvalidPort (port address : Z)
  | InvalidPortRange (from to address : Z).

Inductive NetError : Type :=
  | Invalid (why : invalid_reason)
  | SubnetsExhausted
  | AddressesExhausted
  | ListUsedSubnets (cause : string)
  | ListUsedAddresses (cause : string)
  | Apply (cause : string).

#[global] Instance invalid_reason_eq_dec : EqDecision invalid_reason.
Proof. solve_decision. Defined.
#[global] Instance NetError_eq_dec : EqDecision NetError.
Proof. solve_decision. Defined.

(** ** Small helpers of [subnet.rs] *)

(** [prefix_mask]: unlike [contains], a length above 32 masks everything. *)
Definition prefix_mask (b : Z) : Z :=
  if (1 <=? b) && (b <=? 32) then u32_shl u32_max (32 - b) else 0.

Definition masked (p : Ipv4Prefix) : Ipv4Prefix :=
  mkPrefix (Z.land (addr p) (prefix_mask (bits p))) (bits p).

Definition require_slash_24 (p : Ipv4Prefix) : result NetError unit :=
  refuse_if (negb (bits p =? 24)) (Invalid (NotSlash24 p)).

(** [host_octet] of [slot.rs]. *)
Definition host_octet (address : Z) : Z := Z.land address 255.

(** ** Slots: [slot.rs] *)

Definition MIN_SLOT_BITS : Z := 24.
Definition MAX_SLOT_BITS : Z := 27.
Definition GATEWAY_HOST : Z := 1.
Definition FIRST_HOST : Z := 2.
Definition LAST_HOST : Z := 254.

Record Slots : Type := mkSlots { slot_bits : Z }.

(** [Slots::new]. *)
Definition Slots_new (b : Z) : result NetError Slots :=
  if negb ((MIN_SLOT_BITS <=? b) && (b <=? MAX_SLOT_BITS))
  then Err (Invalid (SlotBits b)) else Ok (mkSlots b).

(** [Slots::count]. *)
Definition count (s : Slots) : Z := Z.shiftl 1 (slot_bits s - MIN_SLOT_BITS).

(** [Slots::shift]. *)
Definition shift (s : Slots) : Z := 8 - (slot_bits s - MIN_SLOT_BITS).

Definition check_slot (s : Slots) (slot : Z) : result NetError unit :=
  refuse_if (count s <=? slot) (Invalid (SlotMissing slot (slot_bits s) (count s))).

(** [Slots::prefix]: the routed prefix of one slot inside a user [/24]. *)
Definition slot_prefix (s : Slots) (subnet : Ipv4Prefix) (slot : Z) :
    result NetError Ipv4Prefix :=
  _ ← require_slash_24 subnet;
  _ ← check_slot s slot;
  let base := addr (masked subnet) in
  Ok (mkPrefix (u32_add base (u32_shl slot (shift s))) (slot_bits s)).

(** [Slots::slot_of]: which slot holds an address. *)
Definition slot_of (s : Slots) (subnet : Ipv4Prefix) (address : Z) : result NetError Z :=
  _ ← require_slash_24 subnet;
  _ ← refuse_if (negb (contains subnet address)) (Invalid (OutsideSubnet address subnet));
  Ok (Z.shiftr (host_octet address) (shift s)).

(** [Slots::assignable]: the host octets a new allocation may use. *)
Definition assignable (s : Slots) (slot : Z) : result NetError (Z * Z) :=
  _ ← check_slot s slot;
  let width := u32_shl 1 (shift s) in
  let first := slot * width in
  let last := first + width - 1 in
  let low := Z.max (Z.max (first + 1) FIRST_HOST) (GATEWAY_HOST + 1) in
  let high := Z.min (last - 1) LAST_HOST in
  Ok (low, high).

(** [Slots::capacity]. *)
Definition slot_capacity (s : Slots) (slot : Z) : result NetError Z :=
  '(low, high) ← assignable s slot;
  Ok (high + 1 - low).

(** ** The subnet plan: [subnet.rs] *)

Record Plan : Type := mkPlan { plan_prefix : Ipv4Prefix }.

(** [Plan::from_prefix]. *)
Definition Plan_from_prefix (p : Ipv4Prefix) : result NetError Plan :=
  if 24 <? bits p then Err (Invalid (NarrowerThan24 p)) else Ok (mkPlan (masked p)).

(** [Plan::new]. *)
Definition Plan_new (private_range : string) : result NetError Plan :=
  p ← ok_or (parse_prefix private_range) (Invalid (PrivateRange private_range));
  Plan_from_prefix p.

(** [Plan::subnets]. *)
Definition plan_subnets (pl : Plan) : Z := Z.shiftl 1 (24 - bits (plan_prefix pl)).

(** [Plan::subnet]: the [/24] of an index. *)
Definition plan_subnet (pl : Plan) (index : Z) : result NetError Ipv4Prefix :=
  if (index <? 0) || (plan_subnets pl <=? index)
  then Err (Invalid (SubnetIndex index (plan_subnets pl)))
  else Ok (mkPrefix (u32_add (addr (plan_prefix pl)) (u32_shl index 8)) 24).

(** [Plan::index]: the inverse of [Plan::subnet]. *)
Definition plan_index (pl : Plan) (subnet : Ipv4Prefix) : result NetError Z :=
  if negb (bits subnet =? 24) then Err (Invalid (NotSlash24 subnet))
  else
    let subnet := masked subnet in
    if negb (contains (plan_prefix pl) (addr subnet))
    then Err (Invalid (OutsideRange subnet (plan_prefix pl)))
    else Ok (Z.shiftr (addr subnet - addr (plan_prefix pl)) 8).

(** The view of the store the subnet allocator needs. *)
Class SubnetStore (S : Type) : Type :=
  used_subnets : S -> result string (list Ipv4Prefix).
(** The view of the store the address allocator needs. *)
Class AddressStore (S : Type) : Type :=
  used_addresses : S -> Ipv4Prefix -> result string (list Z).

(** [filter_map(|subnet| self.index(subnet).ok())]. *)
Definition taken_indexes (pl : Plan) (used : list Ipv4Prefix) : list Z :=
  omap (fun p => match plan_index pl p with Ok i => Some i | Err _ => None end) used.

(** [Plan::allocate]: the lowest free subnet index. *)
Definition allocate {S} `{SubnetStore S} (pl : Plan) (store : S) : result NetError Ipv4Prefix :=
  used ← map_err ListUsedSubnets (used_subnets store);
  let taken := taken_indexes pl used in
  match find_first (fun i => negb (bool_decide (i ∈ taken))) (range 0 (plan_subnets pl)) with
  | Some index => plan_subnet pl index
  | None => Err SubnetsExhausted
  end.

(** [allocate_address]: the lowest free address inside one runner slot. *)
Definition allocate_address {S} `{AddressStore S} (store : S) (subnet : Ipv4Prefix)
    (slots : Slots) (slot : Z) : result NetError Z :=
  _ ← require_slash_24 subnet;
  '(low, high) ← assignable slots slot;
  used ← map_err ListUsedAddresses (used_addresses store subnet);
  let base := addr (masked subnet) in
  match find_first (fun host => negb (bool_decide (u32_add base host ∈ used)))
          (range low (high + 1)) with
  | Some host => Ok (u32_add base host)
  | None => Err AddressesExhausted
  end.

(** [gateway]: the [.1] address of a user subnet. *)
Definition gateway (subnet : Ipv4Prefix) : Z := u32_add (addr (masked subnet)) GATEWAY_HOST.

(** [DEFAULT_DNS], the public resolvers of [bento_config::defaults]. *)
Definition DEFAULT_DNS : list string := ["1.1.1.1"; "9.9.9.9"].

(** [GuestNetwork::new]; [dns] addresses are kept as text. *)
Record GuestNetwork : Type := mkGuestNetwork {
  gn_address : Ipv4Prefix;
  gn_gateway : Z;
  gn_dns : list string
}.

Definition GuestNetwork_new (subnet : Ipv4Prefix) (address : Z)
    (dns : option (list string)) : result NetError GuestNetwork :=
  _ ← require_slash_24 subnet;
  _ ← refuse_if (negb (contains subnet address)) (Invalid (OutsideSubnet address subnet));
  Ok (mkGuestNetwork (mkPrefix address 24) (gateway subnet) (default DEFAULT_DNS dns)).

(** ** MAC addresses: [mac.rs]

    [sha256] stands for the digest of the [sha2] crate. *)
Section Mac.
Context (sha256 : string -> list Z).

Definition mac_bytes (instance_uuid : string) : list Z :=
  match take 6 (sha256 ("bento-mac:" +:+ instance_uuid)) with
  | b0 :: rest => Z.lor (Z.land b0 (Z.lxor 255 1)) 2 :: rest
  | [] => []
  end.

Definition mac (instance_uuid : string) : string :=
  join ":" (hex2 <$> mac_bytes instance_uuid).
End Mac.

(** ** Arithmetic of slots *)


Definition wf_slots (s : Slots) : Prop := MIN_SLOT_BITS <= slot_bits s <= MAX_SLOT_BITS.

(** A user subnet: a [/24] of 32-bit addresses. *)
Definition wf_subnet (p : Ipv4Prefix) : Prop := is_u32 (addr p) /\ bits p = 24.

Lemma wf_subnet_prefix p : wf_subnet p -> wf_prefix p.
Proof. intros [? Hb]. split; [done|lia]. Qed.

Lemma Slots_new_Ok b s : Slots_new b = Ok s <-> s = mkSlots b /\ wf_slots s.
Proof.
  unfold Slots_new, wf_slots, MIN_SLOT_BITS, MAX_SLOT_BITS.
  destruct (Z.leb_spec 24 b), (Z.leb_spec b 27); simpl; split; intros; simplify_eq/=;
    naive_solver lia.
Qed.

Lemma prefix_mask_eq b : 0 <= b <= 32 -> prefix_mask b = mask_of b.
Proof.
  intros. unfold prefix_mask, mask_of.
  destruct (Z.leb_spec 1 b), (Z.leb_spec b 32), (Z.eqb_spec b 0); try lia; done.
Qed.

Lemma masked_addr p : wf_prefix p -> addr (masked p) = addr p / span (bits p) * span (bits p).
Proof.
  intros [Ha Hb]. unfold masked. simpl. by rewrite prefix_mask_eq, mask_of_land.
Qed.

(** The base of a user subnet: a multiple of 256 with room for an octet. *)
Lemma subnet_base p :
  wf_subnet p -> addr (masked p) = addr p / 256 * 256 /\
  0 <= addr (masked p) <= u32_max - 255.
Proof.
  intros [Ha Hb]. rewrite masked_addr by (split; [done|lia]).
  rewrite Hb. change (span 24) with 256. split; [done|].
  Z.to_euclidean_division_equations; int_lia.
Qed.

Lemma subnet_contains p a :
  wf_subnet p -> is_u32 a ->
  contains p a = true <-> addr (masked p) <= a <= addr (masked p) + 255.
Proof.
  intros Hp Ha. destruct (subnet_base p Hp) as [Hbase _].
  destruct Hp as [Hpa Hb]. rewrite contains_spec; [|split; [done|lia]|done].
  rewrite Hbase, Hb. change (span 24) with 256.
  Z.to_euclidean_division_equations; lia.
Qed.

Lemma contains_slash_24 x a :
  is_u32 x -> is_u32 a -> contains (mkPrefix x 24) a = true <-> a / 256 = x / 256.
Proof.
  intros Hx Ha. apply (contains_spec (mkPrefix x 24) a); [|done]. split; simpl; [done|lia].
Qed.

Lemma shift_span s : wf_slots s -> 2 ^ shift s = span (slot_bits s).
Proof. intros. unfold shift, span, MIN_SLOT_BITS. f_equal. lia. Qed.

(** The four slot divisions, each with its width and count. *)
Lemma slots_cases s : wf_slots s ->
  (span (slot_bits s) = 256 /\ count s = 1) \/ (span (slot_bits s) = 128 /\ count s = 2) \/
  (span (slot_bits s) = 64 /\ count s = 4) \/ (span (slot_bits s) = 32 /\ count s = 8).
Proof.
  intros Hs. destruct s as [b]. unfold wf_slots, MIN_SLOT_BITS, MAX_SLOT_BITS in Hs.
  simpl in *. assert (b = 24 \/ b = 25 \/ b = 26 \/ b = 27) as H by lia.
  destruct H as [->|[->|[->| ->]]]; vm_compute; tauto.
Qed.

(** [slots_case Hs] splits a goal over the four slot divisions and closes
    each one with linear arithmetic. *)
Ltac slots_case Hs :=
  let Hw := fresh "Hw" in let Hc := fresh "Hc" in
  destruct (slots_cases _ Hs) as [[Hw Hc]|[[Hw Hc]|[[Hw Hc]|[Hw Hc]]]];
  rewrite ?Hw, ?Hc in *; Z.to_euclidean_division_equations; int_lia.

Lemma host_octet_eq a : host_octet a = a mod 256.
Proof. apply land_255. Qed.

Lemma require_slash_24_Ok p u : require_slash_24 p = Ok u <-> bits p = 24.
Proof. unfold require_slash_24. rewrite refuse_if_Ok, negb_false_iff. apply Z.eqb_eq. Qed.

Lemma check_slot_Ok s k u : check_slot s k = Ok u <-> k < count s.
Proof. unfold check_slot. rewrite refuse_if_Ok. lia. Qed.

Lemma slot_of_Ok s subnet a k :
  wf_slots s -> wf_subnet subnet -> is_u32 a ->
  slot_of s subnet a = Ok k <->
  contains subnet a = true /\ k = (a - addr (masked subnet)) / span (slot_bits s).
Proof.
  intros Hs Hn Ha. unfold slot_of, require_slash_24. destruct Hn as [Hna Hb] eqn:E. clear E.
  rewrite Hb. simpl. destruct (contains subnet a) eqn:Hc; simpl; [|naive_solver].
  rewrite host_octet_eq, Z.shiftr_div_pow2, shift_span
    by (done || (unfold shift, wf_slots, MIN_SLOT_BITS, MAX_SLOT_BITS in *; lia)).
  pose proof (subnet_base subnet (conj Hna Hb)) as [Hbase Hbb].
  apply (subnet_contains subnet a (conj Hna Hb) Ha) in Hc.
  replace (a mod 256) with (a - addr (masked subnet)).
  - split; [intros [= <-]|intros [_ ->]]; done.
  - rewrite Hbase in *. Z.to_euclidean_division_equations; lia.
Qed.

Lemma slot_prefix_Ok s subnet k p :
  wf_slots s -> wf_subnet subnet -> 0 <= k ->
  slot_prefix s subnet k = Ok p <->
  k < count s /\
  p = mkPrefix (addr (masked subnet) + k * span (slot_bits s)) (slot_bits s).
Proof.
  intros Hs Hn Hk. unfold slot_prefix, require_slash_24.
  pose proof (subnet_base subnet Hn) as [_ Hbb].
  remember (addr (masked subnet)) as base eqn:Hbase. clear Hbase.
  rewrite (proj2 Hn). simpl. unfold check_slot, refuse_if.
  destruct (Z.leb_spec (count s) k); simpl; [split; [done|lia]|].
  assert (Hsh : 0 <= shift s) by (unfold shift, wf_slots, MIN_SLOT_BITS, MAX_SLOT_BITS in *; lia).
  assert (Hle : 0 <= k * 2 ^ shift s <= 255).
  { rewrite shift_span by done. slots_case Hs. }
  rewrite u32_shl_small, shift_span by (done || int_lia).
  rewrite shift_span in Hle by done. rewrite u32_add_small by int_lia.
  split; [intros [= <-]|intros [_ ->]]; done.
Qed.

(** The bounds of a slot's assignable host octets. *)
Lemma assignable_Ok s k lo hi :
  wf_slots s -> 0 <= k ->
  assignable s k = Ok (lo, hi) <->
  k < count s /\
  lo = Z.max (k * span (slot_bits s) + 1) 2 /\
  hi = (k + 1) * span (slot_bits s) - 2.
Proof.
  intros Hs Hk. unfold assignable, check_slot, refuse_if.
  destruct (Z.leb_spec (count s) k); simpl; [split; [done|lia]|].
  assert (Hsh : 0 <= shift s <= 8) by (unfold shift, wf_slots, MIN_SLOT_BITS, MAX_SLOT_BITS in *; lia).
  assert (Hp : 0 <= 1 * 2 ^ shift s <= u32_max).
  { rewrite shift_span by done. slots_case Hs. }
  rewrite u32_shl_small, Z.mul_1_l, shift_span by (done || lia).
  unfold FIRST_HOST, LAST_HOST, GATEWAY_HOST.
  assert (Heq : Z.min (k * span (slot_bits s) + span (slot_bits s) - 1 - 1) 254 =
    (k + 1) * span (slot_bits s) - 2) by slots_case Hs.
  rewrite Heq. split.
  - intros [= <- <-]. split_and!; [done|lia|done].
  - intros (_ & -> & ->). f_equal. f_equal. lia.
Qed.

Lemma slot_prefix_contains s subnet k a :
  wf_slots s -> wf_subnet subnet -> is_u32 a -> 0 <= k < count s ->
  contains subnet a = true ->
  contains (mkPrefix (addr (masked subnet) + k * span (slot_bits s)) (slot_bits s)) a = true <->
  k = (a - addr (masked subnet)) / span (slot_bits s).
Proof.
  intros Hs Hn Ha Hk Hc. pose proof (subnet_base subnet Hn) as [Hbase Hbb].
  apply subnet_contains in Hc; [|done..].
  assert (Hu : 0 <= k * span (slot_bits s) <= 255) by slots_case Hs.
  rewrite contains_spec; [|split; cbn [addr bits]; [int_lia|]|done].
  - cbn [addr bits]. remember (addr (masked subnet)) as base. rewrite Hbase in *.
    slots_case Hs.
  - unfold wf_slots, MIN_SLOT_BITS, MAX_SLOT_BITS in Hs. lia.
Qed.

(** ** Arithmetic of the plan *)

Definition wf_plan (pl : Plan) : Prop :=
  is_u32 (addr (plan_prefix pl)) /\ 0 <= bits (plan_prefix pl) <= 24 /\
  addr (plan_prefix pl) mod span (bits (plan_prefix pl)) = 0.

Lemma Plan_from_prefix_Ok p pl :
  wf_prefix p -> Plan_from_prefix p = Ok pl -> wf_plan pl /\ bits (plan_prefix pl) = bits p.
Proof.
  intros Hp. unfold Plan_from_prefix. destruct (Z.ltb_spec 24 (bits p)); [done|].
  intros [= <-]. pose proof (masked_addr p Hp) as Hm. destruct Hp as [Ha Hb].
  pose proof (span_pos (bits p)) as Hsp.
  split; [|done]. unfold wf_plan. cbn [plan_prefix]. rewrite Hm.
  change (bits (masked p)) with (bits p).
  split_and!; try lia.
  - pose proof (Z.mul_div_le (addr p) (span (bits p))) as Hle.
    pose proof (Z.div_pos (addr p) (span (bits p))) as Hpos. unfold is_u32 in *. nia.
  - apply Z.mod_mul. lia.
Qed.

Lemma plan_span pl : wf_plan pl -> span (bits (plan_prefix pl)) = plan_subnets pl * 256.
Proof.
  intros (_ & Hb & _). unfold span, plan_subnets. rewrite Z.shiftl_mul_pow2 by lia.
  rewrite Z.mul_1_l. change 256 with (2 ^ 8). rewrite <-Z.pow_add_r by lia. f_equal. lia.
Qed.

Lemma plan_top pl : wf_plan pl ->
  0 < plan_subnets pl /\ addr (plan_prefix pl) + plan_subnets pl * 256 <= 2 ^ 32.
Proof.
  intros Hpl. pose proof (plan_span pl Hpl) as Hsp. destruct Hpl as (Ha & Hb & Hm).
  split. { unfold plan_subnets. rewrite Z.shiftl_mul_pow2 by lia.
    rewrite Z.mul_1_l. apply Z.pow_pos_nonneg; lia. }
  rewrite <-Hsp. pose proof (span_pos (bits (plan_prefix pl))) as Hpos.
  assert (Hdiv : 2 ^ 32 = 2 ^ bits (plan_prefix pl) * span (bits (plan_prefix pl))).
  { unfold span. rewrite <-Z.pow_add_r by lia. f_equal. lia. }
  rewrite (Z.div_mod (addr (plan_prefix pl)) (span (bits (plan_prefix pl)))) by lia.
  rewrite Hm. rewrite Hdiv.
  assert (addr (plan_prefix pl) / span (bits (plan_prefix pl)) < 2 ^ bits (plan_prefix pl)).
  { apply Z.div_lt_upper_bound; [lia|]. rewrite Z.mul_comm, <-Hdiv. int_lia. }
  nia.
Qed.

Lemma plan_subnet_Ok pl i p : wf_plan pl ->
  plan_subnet pl i = Ok p <->
  0 <= i < plan_subnets pl /\ p = mkPrefix (addr (plan_prefix pl) + i * 256) 24.
Proof.
  intros Hpl. pose proof (plan_top pl Hpl) as [Hpos Htop]. destruct Hpl as (Ha & Hb & Hm).
  unfold plan_subnet.
  destruct (Z.ltb_spec i 0), (Z.leb_spec (plan_subnets pl) i); simpl; try (split; [done|lia]).
  rewrite u32_shl_small by (change (2 ^ 8) with 256; int_lia). change (2 ^ 8) with 256.
  rewrite u32_add_small by int_lia. split; [intros [= <-]|intros [_ ->]]; done || auto with lia.
Qed.

Lemma plan_index_Ok pl p i : wf_plan pl -> is_u32 (addr p) ->
  plan_index pl p = Ok i <->
  bits p = 24 /\ 0 <= i < plan_subnets pl /\ addr p / 256 = addr (plan_prefix pl) / 256 + i.
Proof.
  intros Hpl Hp. unfold plan_index. destruct (Z.eqb_spec (bits p) 24) as [Hb|]; simpl; [|naive_solver].
  pose proof (subnet_base p (conj Hp Hb)) as [Hbase Hbb].
  pose proof (plan_span pl Hpl) as Hsp. pose proof (plan_top pl Hpl) as [Hpos Htop].
  destruct Hpl as (Ha & Hpb & Hm) eqn:E; clear E.
  remember (addr (masked p)) as base. remember (addr (plan_prefix pl)) as origin.
  assert (Ho : origin mod 256 = 0).
  { apply Z.mod_divide; [lia|]. apply Z.mod_divide in Hm; [|rewrite Hsp; lia].
    apply Z.divide_trans with (2 := Hm). rewrite Hsp. apply Z.divide_factor_r. }
  change (Z.land (addr p) (prefix_mask (bits p))) with (addr (masked p)). rewrite <-Heqbase.
  assert (Hc : contains (plan_prefix pl) base = true <-> origin <= base < origin + plan_subnets pl * 256).
  { rewrite contains_spec; [|split; [by rewrite <-Heqorigin|lia]|int_lia].
    rewrite Hsp in Hm |- *. rewrite <-Heqorigin. remember (plan_subnets pl * 256) as w.
    assert (0 < w) by lia. clear Hsp Heqw. split.
    - intros Heq. pose proof (Z.div_mod base w). pose proof (Z.div_mod origin w).
      pose proof (Z.mod_pos_bound base w). nia.
    - intros Hr. symmetry. apply Z.div_unique with (base - origin); [lia|].
      pose proof (Z.div_mod origin w). lia. }
  assert (Hbm : base mod 256 = 0) by (rewrite Hbase; apply Z.mod_mul; lia).
  assert (Hpd : addr p / 256 = base / 256) by (rewrite Hbase, Z.div_mul by lia; done).
  rewrite Hpd. clear Hbase Hpd Heqbase Heqorigin Hsp Hm.
  destruct (contains (plan_prefix pl) base); simpl.
  - destruct Hc as [Hc _]. specialize (Hc eq_refl). rewrite Z.shiftr_div_pow2 by lia.
    change (2 ^ 8) with 256. split.
    + intros [= <-]. Z.to_euclidean_division_equations; lia.
    + intros (_ & Hi & Heq). f_equal. Z.to_euclidean_division_equations; lia.
  - split; [done|]. intros (_ & Hi & Heq). exfalso.
    assert (false = true); [|done]. apply Hc. Z.to_euclidean_division_equations; lia.
Qed.

(** [taken_indexes] holds exactly the indexes of the listed subnets. *)
Lemma elem_of_taken pl used i :
  i ∈ taken_indexes pl used <-> exists p, p ∈ used /\ plan_index pl p = Ok i.
Proof.
  unfold taken_indexes. rewrite list_elem_of_omap. split; intros (p & ? & H); exists p;
    (split; [done|]); destruct (plan_index pl p); naive_solver.
Qed.

(** ** Properties *)

(** The runner slots partition a user [/24]: an address of the subnet
    belongs to the prefix of exactly one slot, the one [slot_of] computes
    from its host octet. *)
Theorem slots_partition (s : Slots) (subnet : Ipv4Prefix) (a : Z) :
  wf_slots s -> wf_subnet subnet -> is_u32 a -> contains subnet a = true ->
  exists k, slot_of s subnet a = Ok k /\ 0 <= k < count s /\
    forall j, 0 <= j < count s ->
      exists p, slot_prefix s subnet j = Ok p /\ (contains p a = true <-> j = k).
Proof.
  intros Hs Hn Ha Hc.
  exists ((a - addr (masked subnet)) / span (slot_bits s)). split_and!.
  - by apply slot_of_Ok.
  - apply subnet_contains in Hc; [|done..]. slots_case Hs.
  - apply subnet_contains in Hc; [|done..]. slots_case Hs.
  - intros j Hj. eexists. split; [apply slot_prefix_Ok; (done || lia || naive_solver)|].
    by apply slot_prefix_contains.
Qed.

Lemma slots_partition_witness :
  let subnet := mkPrefix 174326016 24 in let a := 174326216 in
  exists k, slot_of (mkSlots 26) subnet a = Ok k /\ 0 <= k < count (mkSlots 26) /\
    forall j, 0 <= j < count (mkSlots 26) ->
      exists p, slot_prefix (mkSlots 26) subnet j = Ok p /\ (contains p a = true <-> j = k).
Proof.
  apply slots_partition; [split; vm_compute; congruence| |split; vm_compute; congruence|reflexivity].
  split; [split; vm_compute; congruence|reflexivity].
Defined.

(** What the allocator answers, in every case. *)
Lemma allocate_address_outcome {S} `{AddressStore S} (store : S) (subnet : Ipv4Prefix)
    (s : Slots) (slot : Z) (used : list Z) :
  wf_slots s -> wf_subnet subnet -> 0 <= slot < count s ->
  used_addresses store subnet = Ok used ->
  match allocate_address store subnet s slot with
  | Ok a =>
      (a ∉ used) /\ contains subnet a = true /\ slot_of s subnet a = Ok slot /\
      a <> gateway subnet /\
      (forall p, slot_prefix s subnet slot = Ok p ->
         a <> addr p /\ a <> addr p + span (bits p) - 1) /\
      (forall lo hi h, assignable s slot = Ok (lo, hi) -> lo <= h <= hi ->
         addr (masked subnet) + h < a -> addr (masked subnet) + h ∈ used)
  | Err e =>
      e = AddressesExhausted /\
      forall lo hi h, assignable s slot = Ok (lo, hi) -> lo <= h <= hi ->
        addr (masked subnet) + h ∈ used
  end.
Proof.
  intros Hs Hn Hk Hu. pose proof (subnet_base subnet Hn) as [Hbase Hbb].
  unfold allocate_address. rewrite (proj2 (require_slash_24_Ok subnet tt) (proj2 Hn)). cbn [mbind result_bind].
  destruct (assignable s slot) as [[lo hi]|e] eqn:Has.
  2:{ exfalso. assert (exists x, assignable s slot = Ok x) as [? ?]; [|congruence].
      eexists (_, _). by apply assignable_Ok; [done|lia|split_and!; [lia|done|done]]. }
  apply assignable_Ok in Has as (_ & Hlo & Hhi); [|done|lia].
  cbn [mbind result_bind]. rewrite Hu. cbn [map_err mbind result_bind].
  assert (Hr : 2 <= lo /\ hi <= 254 /\ slot * span (slot_bits s) < lo /\
    hi < (slot + 1) * span (slot_bits s) - 1) by slots_case Hs. clear Hlo Hhi.
  destruct (find_first _ _) as [h|] eqn:Hf.
  - apply find_first_range in Hf as (Hh & Hfree & Hleast).
    apply negb_true_iff, bool_decide_eq_false in Hfree.
    rewrite u32_add_small in Hfree |- * by int_lia.
    assert (Ha : is_u32 (addr (masked subnet) + h)) by int_lia.
    assert (Hc : contains subnet (addr (masked subnet) + h) = true).
    { apply subnet_contains; [done..|lia]. }
    split_and!; try done.
    + apply slot_of_Ok; [done..|]. split; [done|]. slots_case Hs.
    + unfold gateway, GATEWAY_HOST. rewrite u32_add_small by int_lia. lia.
    + intros p Hp. apply slot_prefix_Ok in Hp as [_ ->]; [|done|done|lia]. cbn [addr bits]. lia.
    + intros lo' hi' h' [= <- <-] Hh' Hlt. specialize (Hleast h').
      rewrite negb_false_iff, bool_decide_eq_true, u32_add_small in Hleast by int_lia.
      apply Hleast. lia.
  - split; [done|]. intros lo' hi' h' [= <- <-] Hh'.
    apply (proj1 (find_first_range_None _ _ _)) with (y := h') in Hf; [|lia].
    rewrite negb_false_iff, bool_decide_eq_true, u32_add_small in Hf by int_lia. done.
Qed.

(** Address allocation, on every branch: for a user [/24] and a slot
    that exists, an answer is the least assignable address of that slot that
    the store does not list, it lies in the subnet and in that slot, and it
    is neither the gateway nor the first or last address of the slot; the
    allocator reports exhaustion exactly when every assignable address of
    the slot is listed. *)
Theorem allocate_address_spec {S} `{AddressStore S} (store : S) (subnet : Ipv4Prefix)
    (s : Slots) (slot : Z) (used : list Z) :
  wf_slots s -> wf_subnet subnet -> 0 <= slot < count s ->
  used_addresses store subnet = Ok used ->
  match allocate_address store subnet s slot with
  | Ok a =>
      (a ∉ used) /\ contains subnet a = true /\ slot_of s subnet a = Ok slot /\
      a <> gateway subnet /\
      (forall p, slot_prefix s subnet slot = Ok p ->
         a <> addr p /\ a <> addr p + span (bits p) - 1) /\
      (forall lo hi h, assignable s slot = Ok (lo, hi) -> lo <= h <= hi ->
         addr (masked subnet) + h < a -> addr (masked subnet) + h ∈ used)
  | Err e =>
      e = AddressesExhausted /\
      forall lo hi h, assignable s slot = Ok (lo, hi) -> lo <= h <= hi ->
        addr (masked subnet) + h ∈ used
  end.
Proof. apply allocate_address_outcome. Qed.

(** A store that answers with a fixed list. *)
Definition ListStore : Type := list Z.
#[global] Instance ListStore_addresses : AddressStore ListStore :=
  fun l subnet => Ok (filter (fun a => contains subnet a = true) l).

Lemma allocate_address_spec_witness :
  let subnet := mkPrefix 174326016 24 in
  let store : ListStore := [174326018] in
  allocate_address store subnet (mkSlots 24) 0 = Ok 174326019 /\
  174326019 ∉ [174326018].
Proof.
  pose proof (allocate_address_spec ([174326018] : ListStore) (mkPrefix 174326016 24)
    (mkSlots 24) 0 [174326018]) as H.
  split; [reflexivity|].
  refine (proj1 (H _ _ _ _)); [| | |reflexivity];
    repeat split; vm_compute; congruence.
Defined.

(** The subnet plan is a bijection between indexes and the [/24]s of the
    private range: [subnet] then [index] is the identity, two indexes give
    disjoint subnets, and every subnet lies in the range. *)
Theorem plan_bijection (range_text : string) (pl : Plan) (i j : Z) (p q : Ipv4Prefix) :
  Plan_new range_text = Ok pl -> plan_subnet pl i = Ok p -> plan_subnet pl j = Ok q ->
  plan_index pl p = Ok i /\ contains (plan_prefix pl) (addr p) = true /\
  (forall a, is_u32 a -> contains p a = true -> contains q a = true -> i = j).
Proof.
  intros Hnew Hp Hq. unfold Plan_new in Hnew. result_inv.
  apply parse_prefix_wf in Hv. apply Plan_from_prefix_Ok in Hnew as [Hpl _]; [|done].
  pose proof (plan_top pl Hpl) as [Hpos Htop].
  apply plan_subnet_Ok in Hp as [Hi ->]; [|done]. apply plan_subnet_Ok in Hq as [Hj ->]; [|done].
  assert (Ho : addr (plan_prefix pl) mod 256 = 0).
  { pose proof (plan_span pl Hpl) as Hsp. destruct Hpl as (_ & _ & Hm).
    apply Z.mod_divide; [lia|]. apply Z.mod_divide in Hm; [|rewrite Hsp; lia].
    apply Z.divide_trans with (2 := Hm). rewrite Hsp. apply Z.divide_factor_r. }
  pose proof Hpl as (Hpa & _ & _).
  assert (Hu : forall k, 0 <= k < plan_subnets pl ->
    is_u32 (addr (plan_prefix pl) + k * 256)) by (intros; int_lia).
  assert (Hidx : plan_index pl (mkPrefix (addr (plan_prefix pl) + i * 256) 24) = Ok i).
  { apply plan_index_Ok; [done|by apply Hu|]. cbn [addr bits]. split_and!; [done|lia..|].
    Z.to_euclidean_division_equations; lia. }
  split_and!; [done| |].
  - revert Hidx. unfold plan_index. cbn [addr bits]. rewrite Z.eqb_refl. cbn [negb].
    pose proof (subnet_base (mkPrefix (addr (plan_prefix pl) + i * 256) 24)
      (conj (Hu i Hi) eq_refl)) as [Hb _]. cbn [addr] in Hb. rewrite Hb.
    replace ((addr (plan_prefix pl) + i * 256) / 256 * 256)
      with (addr (plan_prefix pl) + i * 256) by (Z.to_euclidean_division_equations; lia).
    by destruct (contains _ _).
  - intros a Ha Hca Hcb.
    rewrite contains_slash_24 in Hca, Hcb by auto.
    Z.to_euclidean_division_equations; lia.
Qed.

Lemma plan_bijection_witness :
  exists pl p, Plan_new "10.100.0.0/16" = Ok pl /\ plan_subnet pl 7 = Ok p /\
    plan_index pl p = Ok 7 /\ contains (plan_prefix pl) (addr p) = true /\
    (forall a, is_u32 a -> contains p a = true -> contains p a = true -> 7 = 7).
Proof.
  eexists _, _. split; [reflexivity|]. split; [reflexivity|].
  eapply (plan_bijection "10.100.0.0/16"); reflexivity.
Defined.

(** Subnet allocation, on every branch: the answer is the [/24] of the
    least index no listed subnet occupies, it overlaps no listed [/24], and
    the allocator reports exhaustion exactly when every index is occupied. *)
Theorem allocate_subnet_spec {S} `{SubnetStore S} (store : S) (pl : Plan)
    (used : list Ipv4Prefix) :
  wf_plan pl -> used_subnets store = Ok used ->
  match allocate pl store with
  | Ok p =>
      exists i, plan_index pl p = Ok i /\
        (forall q, q ∈ used -> wf_subnet q -> forall a, is_u32 a ->
           contains p a = true -> contains q a = false) /\
        (forall j, 0 <= j < i -> exists q, q ∈ used /\ plan_index pl q = Ok j)
  | Err e =>
      e = SubnetsExhausted /\
      forall j, 0 <= j < plan_subnets pl -> exists q, q ∈ used /\ plan_index pl q = Ok j
  end.
Proof.
  intros Hpl Hu. unfold allocate. rewrite Hu. cbn [map_err mbind result_bind].
  pose proof (plan_top pl Hpl) as [Hpos Htop].
  destruct (find_first _ _) as [i|] eqn:Hf.
  - apply find_first_range in Hf as (Hi & Hfree & Hleast).
    apply negb_true_iff, bool_decide_eq_false in Hfree.
    destruct (plan_subnet pl i) as [p|e] eqn:Hp.
    2:{ exfalso. assert (exists p, plan_subnet pl i = Ok p) as [? ?]; [|congruence].
        eexists. by apply plan_subnet_Ok. }
    apply plan_subnet_Ok in Hp as [_ ->]; [|done].
    assert (Hpu : is_u32 (addr (plan_prefix pl) + i * 256)) by (destruct Hpl as (? & _); int_lia).
    assert (Hidx : plan_index pl (mkPrefix (addr (plan_prefix pl) + i * 256) 24) = Ok i).
    { apply plan_index_Ok; [done|done|]. cbn [addr bits]. split_and!; [done|lia..|].
      Z.to_euclidean_division_equations; lia. }
    exists i. split_and!; [done| |].
    + intros q Hq Hwq a Ha Hca. apply not_true_iff_false. intros Hcq. apply Hfree.
      apply elem_of_taken. exists q. split; [done|].
      destruct q as [qa qb], Hwq as [Hqa Hqb]. cbn [addr bits] in *. subst qb.
      rewrite contains_slash_24 in Hca, Hcq by done.
      apply plan_index_Ok; [done..|]. cbn [addr bits]. split_and!; [done|lia..|].
      Z.to_euclidean_division_equations; lia.
    + intros j Hj. specialize (Hleast j ltac:(lia)).
      apply negb_false_iff, bool_decide_eq_true in Hleast. by apply elem_of_taken.
  - split; [done|]. intros j Hj.
    apply (proj1 (find_first_range_None _ _ _)) with (y := j) in Hf; [|lia].
    apply negb_false_iff, bool_decide_eq_true in Hf. by apply elem_of_taken.
Qed.

#[global] Instance ListStore_subnets : SubnetStore (list Ipv4Prefix) := fun l => Ok l.

Lemma allocate_subnet_spec_witness :
  let pl := mkPlan (mkPrefix 174325760 16) in
  let used := [mkPrefix 174325760 24] in
  wf_plan pl /\ allocate pl used = Ok (mkPrefix 174326016 24) /\
  exists i, plan_index pl (mkPrefix 174326016 24) = Ok i /\
    (forall q, q ∈ used -> wf_subnet q -> forall a, is_u32 a ->
       contains (mkPrefix 174326016 24) a = true -> contains q a = false) /\
    (forall j, 0 <= j < i -> exists q, q ∈ used /\ plan_index pl q = Ok j).
Proof.
  assert (Hpl : wf_plan (mkPlan (mkPrefix 174325760 16))).
  { repeat split; vm_compute; congruence. }
  split; [exact Hpl|]. split; [reflexivity|].
  exact (allocate_subnet_spec [mkPrefix 174325760 24] (mkPlan (mkPrefix 174325760 16))
    [mkPrefix 174325760 24] Hpl eq_refl).
Defined.

(** For any digest of 32 bytes, the MAC of an instance is six octets,
    printed as seventeen characters, whose first octet has the multicast bit
    clear and the locally-administered bit set. *)
Theorem mac_local_unicast (sha256 : string -> list Z) (uuid : string) :
  (forall s, length (sha256 s) = 32%nat) ->
  (forall s, Forall is_u8 (sha256 s)) ->
  exists b0 rest, mac_bytes sha256 uuid = b0 :: rest /\ length rest = 5%nat /\
    Forall is_u8 (b0 :: rest) /\
    Z.testbit b0 0 = false /\ Z.testbit b0 1 = true /\
    str_len (mac sha256 uuid) = 17.
Proof.
  intros Hlen Hbytes. unfold mac, mac_bytes.
  specialize (Hlen ("bento-mac:" +:+ uuid)). specialize (Hbytes ("bento-mac:" +:+ uuid)).
  remember (sha256 _) as digest. clear Heqdigest.
  destruct digest as [|d0 [|d1 [|d2 [|d3 [|d4 [|d5 digest]]]]]]; try done.
  cbn [take]. eexists _, _. split; [done|]. cbn [length]. split; [done|].
  rewrite !Forall_cons in Hbytes. destruct Hbytes as (H0 & H1 & H2 & H3 & H4 & H5 & _).
  assert (Hd : is_u8 (Z.lor (Z.land d0 (Z.lxor 255 1)) 2)).
  { unfold is_u8 in *. split; [apply Z.lor_nonneg; split; [apply Z.land_nonneg; lia|lia]|].
    change (Z.lxor 255 1) with 254.
    assert (Hlt : Z.lor (Z.land d0 254) 2 < 2 ^ 8); [|int_lia].
    apply Z.log2_lt_cancel. rewrite Z.log2_lor by (try apply Z.land_nonneg; lia).
    rewrite Z.log2_pow2 by lia.
    pose proof (Z.log2_land d0 254) as Hl. change (Z.log2 254) with 7 in Hl.
    change (Z.log2 2) with 1. lia. }
  repeat split; try done.
  - by rewrite !Forall_cons.
  - by rewrite Z.lor_spec, Z.land_spec, andb_false_r.
  - rewrite Z.lor_spec. apply orb_true_r.
Qed.

Lemma mac_local_unicast_witness :
  exists b0 rest, mac_bytes (fun _ => replicate 32 255) "u" = b0 :: rest /\
    length rest = 5%nat /\ Forall is_u8 (b0 :: rest) /\
    Z.testbit b0 0 = false /\ Z.testbit b0 1 = true /\
    str_len (mac (fun _ => replicate 32 255) "u") = 17.
Proof.
  apply mac_local_unicast; intros _; [reflexivity|].
  repeat constructor; vm_compute; congruence.
Defined.
