(* ===== verification/Xdr.v ===== *)
(** * Xdr: [crates/hypervisor/src/xdr.rs]

    The XDR codec under the libvirt RPC client.  A byte is a [Z] in
    [0, 256), a [Writer] the bytes written so far, a [Reader] the input with
    an offset.  [usize] has 64 bits, the width of the supported targets. *)

From Stdlib Require Import ZArith Lia.
From S2P Require Import Prelude.
Open Scope Z_scope.

Definition ALIGNMENT : Z := 4.
Definition MAX_VALUE_LENGTH : Z := 16 * 1024 * 1024.
Definition usize_max : Z := u64_max.

(** [ApiError::Protocol], with the data its message formats. *)
Inductive ApiError : Type :=
  | StringTooLarge
  | OffsetOverflow
  | Truncated (offset need have : Z)
  | ValueTooLong (len : Z)
  | NotUtf8
  | BadDiscriminant (value : Z)
  | ArrayTooLong (len : Z)
  | TrailingBytes (n : Z).

#[global] Instance ApiError_eq_dec : EqDecision ApiError.
Proof. solve_decision. Defined.

Definition blen (l : list Z) : Z := Z.of_nat (length l).

(** ** Big-endian integers *)

Fixpoint be_bytes (n : nat) (z : Z) : list Z :=
  match n with
  | O => []
  | S n' => be_bytes n' (z / 256) ++ [z mod 256]
  end.

Definition be_value (l : list Z) : Z := foldl (fun acc b => acc * 256 + b) 0 l.

(** Two's complement of width 32. *)
Definition i32_of_u32 (z : Z) : Z := if z <? 2 ^ 31 then z else z - 2 ^ 32.
Definition u32_of_i32 (z : Z) : Z := z mod 2 ^ 32.

(** The zero bytes that bring [len] to a multiple of four. *)
Definition padding (len : Z) : Z := (ALIGNMENT - len mod ALIGNMENT) mod ALIGNMENT.

(** ** UTF-8 validity, as [String::from_utf8] checks it *)

Definition is_cont (b : Z) : bool := (128 <=? b) && (b <=? 191).
Definition between (lo hi b : Z) : bool := (lo <=? b) && (b <=? hi).

Fixpoint utf8_valid (l : list Z) : bool :=
  match l with
  | [] => true
  | b0 :: r =>
      if between 0 127 b0 then utf8_valid r
      else if between 194 223 b0 then
        match r with b1 :: r' => is_cont b1 && utf8_valid r' | _ => false end
      else if between 224 239 b0 then
        match r with
        | b1 :: b2 :: r' =>
            (if b0 =? 224 then between 160 191 b1
             else if b0 =? 237 then between 128 159 b1 else is_cont b1) &&
            is_cont b2 && utf8_valid r'
        | _ => false
        end
      else if between 240 244 b0 then
        match r with
        | b1 :: b2 :: b3 :: r' =>
            (if b0 =? 240 then between 144 191 b1
             else if b0 =? 244 then between 128 143 b1 else is_cont b1) &&
            is_cont b2 && is_cont b3 && utf8_valid r'
        | _ => false
        end
      else false
  end.

(** ** [Writer] *)

Module Writer.
Definition new : list Z := [].
Definition u32 (w : list Z) (value : Z) : list Z := w ++ be_bytes 4 value.
Definition i32 (w : list Z) (value : Z) : list Z := w ++ be_bytes 4 (u32_of_i32 value).
Definition fixed_opaque (w : list Z) (value : list Z) : list Z :=
  w ++ value ++ replicate (Z.to_nat (padding (blen value))) 0.
Definition string (w : list Z) (value : list Z) : result ApiError (list Z) :=
  if blen value <=? u32_max
  then Ok (fixed_opaque (u32 w (blen value)) value)
  else Err StringTooLarge.
Definition optional_string (w : list Z) (value : option (list Z)) : result ApiError (list Z) :=
  match value with
  | Some value => string (u32 w 1) value
  | None => Ok (u32 w 0)
  end.
Definition into_inner (w : list Z) : list Z := w.
End Writer.

(** ** [Reader] *)

Record Reader : Type := mkReader { rd_bytes : list Z; rd_offset : Z }.

Module Rd.
Definition new (bytes : list Z) : Reader := mkReader bytes 0.

Definition take (r : Reader) (len : Z) : result ApiError (list Z * Reader) :=
  let end_ := rd_offset r + len in
  if usize_max <? end_ then Err OffsetOverflow
  else if end_ <=? blen (rd_bytes r) then
    Ok (firstn (Z.to_nat len) (skipn (Z.to_nat (rd_offset r)) (rd_bytes r)),
        mkReader (rd_bytes r) end_)
  else Err (Truncated (rd_offset r) len
         (u64_saturating_sub (blen (rd_bytes r)) (rd_offset r))).

Definition u32 (r : Reader) : result ApiError (Z * Reader) :=
  '(b, r) ← take r 4; Ok (be_value b, r).
Definition i32 (r : Reader) : result ApiError (Z * Reader) :=
  '(b, r) ← take r 4; Ok (i32_of_u32 (be_value b), r).
Definition u64 (r : Reader) : result ApiError (Z * Reader) :=
  '(b, r) ← take r 8; Ok (be_value b, r).

Definition fixed_opaque (n : Z) (r : Reader) : result ApiError (list Z * Reader) :=
  '(value, r) ← take r n;
  '(_, r) ← take r (padding n);
  Ok (value, r).

Definition opaque (r : Reader) : result ApiError (list Z * Reader) :=
  '(len, r) ← u32 r;
  if MAX_VALUE_LENGTH <? len then Err (ValueTooLong len) else
  '(value, r) ← take r len;
  '(_, r) ← take r (padding len);
  Ok (value, r).

Definition string (r : Reader) : result ApiError (list Z * Reader) :=
  '(value, r) ← opaque r;
  if utf8_valid value then Ok (value, r) else Err NotUtf8.

Definition optional_string (r : Reader) : result ApiError (option (list Z) * Reader) :=
  '(d, r) ← u32 r;
  if d =? 0 then Ok (None, r)
  else if d =? 1 then '(s, r) ← string r; Ok (Some s, r)
  else Err (BadDiscriminant d).

Definition array_len (r : Reader) : result ApiError (Z * Reader) :=
  '(len, r) ← u32 r;
  if MAX_VALUE_LENGTH / ALIGNMENT <? len then Err (ArrayTooLong len) else Ok (len, r).

Definition finish (r : Reader) : result ApiError unit :=
  if rd_offset r =? blen (rd_bytes r) then Ok tt
  else Err (TrailingBytes (blen (rd_bytes r) - rd_offset r)).
End Rd.

(** ** Messages: a sequence of values written and read in order *)

Inductive item : Type :=
  | IU32 (z : Z)
  | II32 (z : Z)
  | IOpaque (l : list Z)
  | IString (l : list Z)
  | IOptString (o : option (list Z)).

Inductive kind : Type := KU32 | KI32 | KOpaque (n : Z) | KString | KOptString.

Definition kind_of (i : item) : kind :=
  match i with
  | IU32 _ => KU32 | II32 _ => KI32 | IOpaque l => KOpaque (blen l)
  | IString _ => KString | IOptString _ => KOptString
  end.

Definition write_item (w : list Z) (i : item) : result ApiError (list Z) :=
  match i with
  | IU32 z => Ok (Writer.u32 w z)
  | II32 z => Ok (Writer.i32 w z)
  | IOpaque l => Ok (Writer.fixed_opaque w l)
  | IString l => Writer.string w l
  | IOptString o => Writer.optional_string w o
  end.

Definition read_item (r : Reader) (k : kind) : result ApiError (item * Reader) :=
  match k with
  | KU32 => '(z, r) ← Rd.u32 r; Ok (IU32 z, r)
  | KI32 => '(z, r) ← Rd.i32 r; Ok (II32 z, r)
  | KOpaque n => '(l, r) ← Rd.fixed_opaque n r; Ok (IOpaque l, r)
  | KString => '(l, r) ← Rd.string r; Ok (IString l, r)
  | KOptString => '(o, r) ← Rd.optional_string r; Ok (IOptString o, r)
  end.

Fixpoint write_items (w : list Z) (l : list item) : result ApiError (list Z) :=
  match l with
  | [] => Ok w
  | i :: l' => w' ← write_item w i; write_items w' l'
  end.

Fixpoint read_items (r : Reader) (ks : list kind) : result ApiError (list item * Reader) :=
  match ks with
  | [] => Ok ([], r)
  | k :: ks' =>
      '(i, r) ← read_item r k;
      '(l, r) ← read_items r ks';
      Ok (i :: l, r)
  end.

(** The values the two ends exchange: in range for their type, strings valid
    UTF-8 and no longer than the reader accepts. *)
Definition wf_bytes (l : list Z) : Prop :=
  blen l <= MAX_VALUE_LENGTH /\ utf8_valid l = true.

Definition wf_item (i : item) : Prop :=
  match i with
  | IU32 z => is_u32 z
  | II32 z => - 2 ^ 31 <= z < 2 ^ 31
  | IOpaque l => blen l <= MAX_VALUE_LENGTH
  | IString l => wf_bytes l
  | IOptString None => True
  | IOptString (Some l) => wf_bytes l
  end.

(** ** Integers round trip *)

Lemma length_be_bytes n z : length (be_bytes n z) = n.
Proof. revert z. induction n as [|n IH]; intros z; simpl; [done|]. rewrite length_app, IH. simpl. lia. Qed.

Lemma be_value_snoc l b : be_value (l ++ [b]) = be_value l * 256 + b.
Proof. unfold be_value. by rewrite foldl_app. Qed.

Lemma be_value_bytes n z : be_value (be_bytes n z) = z mod 256 ^ Z.of_nat n.
Proof.
  revert z. induction n as [|n IH]; intros z.
  - simpl. by rewrite Z.mod_1_r.
  - cbn [be_bytes]. rewrite be_value_snoc, IH, Nat2Z.inj_succ, Z.pow_succ_r by lia.
    rewrite Z.rem_mul_r by lia. lia.
Qed.

Lemma be_bytes_32 z : is_u32 z -> be_value (be_bytes 4 z) = z.
Proof. intros. rewrite be_value_bytes. apply Z.mod_small. change (256 ^ Z.of_nat 4) with (2 ^ 32). int_lia. Qed.

Lemma i32_u32 z : - 2 ^ 31 <= z < 2 ^ 31 -> i32_of_u32 (u32_of_i32 z) = z.
Proof.
  intros. unfold i32_of_u32, u32_of_i32.
  destruct (Z.ltb_spec (z mod 2 ^ 32) (2 ^ 31)); Z.to_euclidean_division_equations; lia.
Qed.

Lemma u32_of_i32_range z : is_u32 (u32_of_i32 z).
Proof. unfold u32_of_i32. pose proof (Z.mod_pos_bound z (2 ^ 32) eq_refl). int_lia. Qed.

Lemma blen_app l k : blen (l ++ k) = blen l + blen k.
Proof. unfold blen. rewrite length_app. lia. Qed.

Lemma blen_nonneg l : 0 <= blen l.
Proof. unfold blen. lia. Qed.

Lemma padding_range n : 0 <= padding n < 4.
Proof. unfold padding, ALIGNMENT. apply Z.mod_pos_bound. lia. Qed.

Lemma padding_aligns n : (n + padding n) mod 4 = 0.
Proof. unfold padding, ALIGNMENT. Z.to_euclidean_division_equations; lia. Qed.

Lemma blen_zeros n : 0 <= n -> blen (replicate (Z.to_nat n) 0) = n.
Proof. intros. unfold blen. rewrite length_replicate. lia. Qed.

(** ** Reading a known suffix *)

(** [at_rest r l]: the unread input of [r] is [l]. *)
Definition at_rest (r : Reader) (l : list Z) : Prop :=
  blen (rd_bytes r) <= usize_max /\
  exists pre, rd_bytes r = pre ++ l /\ blen pre = rd_offset r.

Lemma take_rest r x y n :
  at_rest r (x ++ y) -> blen x = n ->
  exists r', Rd.take r n = Ok (x, r') /\ at_rest r' y.
Proof.
  intros (Hmax & pre & Hb & Ho) <-. unfold Rd.take.
  rewrite Hb, !blen_app in *. pose proof (blen_nonneg y).
  destruct (Z.ltb_spec usize_max (rd_offset r + blen x)); [lia|].
  destruct (Z.leb_spec (rd_offset r + blen x) (blen pre + (blen x + blen y))); [|lia].
  eexists. split; [f_equal; f_equal|split].
  - rewrite <-Ho. unfold blen. rewrite !Nat2Z.id, drop_app_length. by rewrite take_app_length.
  - simpl. by rewrite !blen_app.
  - exists (pre ++ x). simpl. rewrite app_assoc, blen_app. auto with lia.
Qed.

(** The bytes a value adds to the message. *)
Definition enc_bytes (l : list Z) : list Z :=
  l ++ replicate (Z.to_nat (padding (blen l))) 0.
Definition enc_string (l : list Z) : list Z := be_bytes 4 (blen l) ++ enc_bytes l.
Definition enc (i : item) : list Z :=
  match i with
  | IU32 z => be_bytes 4 z
  | II32 z => be_bytes 4 (u32_of_i32 z)
  | IOpaque l => enc_bytes l
  | IString l => enc_string l
  | IOptString None => be_bytes 4 0
  | IOptString (Some l) => be_bytes 4 1 ++ enc_string l
  end.

Lemma write_item_enc w i : wf_item i -> write_item w i = Ok (w ++ enc i).
Proof.
  assert (Hs : forall w l, wf_bytes l -> Writer.string w l = Ok (w ++ enc_string l)).
  { intros w' l [Hl _]. unfold Writer.string, enc_string, Writer.fixed_opaque, Writer.u32.
    destruct (Z.leb_spec (blen l) u32_max); [|unfold MAX_VALUE_LENGTH, u32_max in *; lia].
    by rewrite <-!app_assoc. }
  destruct i as [z|z|l|l|[l|]]; simpl; intros Hi; try done.
  - by apply Hs.
  - rewrite Hs by done. unfold Writer.u32. by rewrite <-app_assoc.
Qed.

Ltac take_known n :=
  lazymatch goal with
  | H : at_rest ?r ((?x ++ ?y) ++ ?z) |- _ => rewrite <-app_assoc in H; take_known n
  | H : at_rest ?r (?x ++ ?y) |- _ =>
      let r' := fresh "r" in let Ht := fresh "Ht" in
      destruct (take_rest r x y n H) as (r' & Ht & ?);
      [|clear H; rewrite Ht; cbn [mbind result_bind]]
  end.

Lemma read_u32 r z y : is_u32 z -> at_rest r (be_bytes 4 z ++ y) ->
  exists r', Rd.u32 r = Ok (z, r') /\ at_rest r' y.
Proof.
  intros Hz Hr. unfold Rd.u32. take_known 4.
  { unfold blen. by rewrite length_be_bytes. }
  rewrite be_bytes_32 by done. eauto.
Qed.

Lemma read_bytes r l y : at_rest r (enc_bytes l ++ y) ->
  exists r', ('(v, r) ← Rd.take r (blen l); '(_, r) ← Rd.take r (padding (blen l)); Ok (v, r)) =
    Ok (l, r') /\ at_rest r' y.
Proof.
  intros Hr. unfold enc_bytes in Hr. take_known (blen l); [done|].
  take_known (padding (blen l)); [apply blen_zeros, padding_range|]. eauto.
Qed.

Lemma read_string r l y : wf_bytes l -> at_rest r (enc_string l ++ y) ->
  exists r', Rd.string r = Ok (l, r') /\ at_rest r' y.
Proof.
  intros [Hl Hu] Hr. unfold enc_string in Hr. rewrite <-app_assoc in Hr.
  apply read_u32 in Hr as (r1 & Hr1 & Hr);
    [|pose proof (blen_nonneg l); unfold MAX_VALUE_LENGTH in *; int_lia].
  unfold Rd.string, Rd.opaque. rewrite Hr1. cbn [mbind result_bind].
  destruct (Z.ltb_spec MAX_VALUE_LENGTH (blen l)); [lia|].
  apply read_bytes in Hr as (r2 & Hr2 & Hr). unfold mbind, result_bind in Hr2 |- *. rewrite Hr2.
  rewrite Hu. eauto.
Qed.

Lemma read_item_enc r i y : wf_item i -> at_rest r (enc i ++ y) ->
  exists r', read_item r (kind_of i) = Ok (i, r') /\ at_rest r' y.
Proof.
  destruct i as [z|z|l|l|[l|]]; cbn [read_item kind_of enc wf_item]; intros Hi Hr.
  - apply read_u32 in Hr as (r' & -> & Hr); [simpl; eauto|done].
  - pose proof (u32_of_i32_range z) as Hu. unfold Rd.i32. take_known 4.
    { unfold blen. by rewrite length_be_bytes. }
    rewrite be_bytes_32, i32_u32 by done. eauto.
  - apply read_bytes in Hr as (r' & Hr' & Hr). unfold Rd.fixed_opaque. rewrite Hr'.
    simpl. eauto.
  - apply read_string in Hr as (r' & -> & Hr); [simpl; eauto|done].
  - rewrite <-app_assoc in Hr. unfold Rd.optional_string.
    apply read_u32 in Hr as (r1 & -> & Hr); [|int_lia]. simpl.
    apply read_string in Hr as (r' & -> & Hr); [simpl; eauto|done].
  - unfold Rd.optional_string. apply read_u32 in Hr as (r1 & -> & Hr); [|int_lia]. simpl. eauto.
Qed.

Lemma write_items_enc w l :
  Forall wf_item l -> write_items w l = Ok (w ++ concat (map enc l)).
Proof.
  revert w. induction l as [|i l IH]; intros w; simpl; [by rewrite app_nil_r|].
  intros [Hi Hl]%Forall_cons. rewrite write_item_enc by done. simpl.
  rewrite IH by done. by rewrite app_assoc.
Qed.

Lemma read_items_enc r l y :
  Forall wf_item l -> at_rest r (concat (map enc l) ++ y) ->
  exists r', read_items r (map kind_of l) = Ok (l, r') /\ at_rest r' y.
Proof.
  revert r. induction l as [|i l IH]; intros r; simpl; [eauto|].
  intros [Hi Hl]%Forall_cons Hr. rewrite <-app_assoc in Hr.
  apply read_item_enc in Hr as (r1 & -> & Hr); [|done]. simpl.
  apply IH in Hr as (r2 & -> & Hr); [|done]. simpl. eauto.
Qed.

(** ** Reading hostile input *)

(** [advances r r']: a read left [r'] on the same input, further on, still
    inside it, and at a 4-byte boundary if [r] was at one. *)
Definition advances (r r' : Reader) : Prop :=
  rd_bytes r' = rd_bytes r /\ rd_offset r <= rd_offset r' <= blen (rd_bytes r) /\
  (rd_offset r mod 4 = 0 -> rd_offset r' mod 4 = 0).

Definition in_bounds (r : Reader) : Prop := 0 <= rd_offset r <= blen (rd_bytes r).

Lemma advances_trans r1 r2 r3 : advances r1 r2 -> advances r2 r3 -> advances r1 r3.
Proof.
  intros (H1 & H2 & H3) (H4 & H5 & H6). unfold advances. rewrite H4, H1 in *.
  split_and!; [done|lia|lia|auto].
Qed.

Lemma take_Ok r n v r' :
  0 <= n -> in_bounds r -> Rd.take r n = Ok (v, r') ->
  rd_bytes r' = rd_bytes r /\ rd_offset r' = rd_offset r + n /\
  rd_offset r' <= blen (rd_bytes r) /\ blen v = n.
Proof.
  intros Hn Hr. unfold Rd.take. destruct (Z.ltb_spec usize_max (rd_offset r + n)); [done|].
  destruct (Z.leb_spec (rd_offset r + n) (blen (rd_bytes r))); [|done].
  intros [= <- <-]. simpl. split_and!; try done.
  unfold blen, in_bounds in *. rewrite length_take, length_drop. unfold blen in *. lia.
Qed.

Lemma u32_Ok r z r' : in_bounds r -> Rd.u32 r = Ok (z, r') -> advances r r' /\ 0 <= rd_offset r'.
Proof.
  intros Hr H. unfold Rd.u32 in H. result_inv. destruct v as [b r1]. injection H as <- <-.
  apply take_Ok in Hv as (? & Ho & ? & _); [|lia|done].
  unfold in_bounds, advances in *. rewrite Ho. split; [|lia]. split_and!; try done; try lia.
  intros. Z.to_euclidean_division_equations; lia.
Qed.

(** Reading [n] bytes and their padding. *)
Lemma padded_Ok r n v r' :
  0 <= n -> in_bounds r ->
  ('(v, r) ← Rd.take r n; '(_, r) ← Rd.take r (padding n); Ok (v, r)) = Ok (v, r') ->
  advances r r' /\ blen v = n.
Proof.
  intros Hn Hr H. apply bind_Ok in H as ([v1 r1] & H1 & H). apply bind_Ok in H as ([v2 r2] & H2 & H).
  simplify_eq. apply take_Ok in H1 as (Hb1 & Ho1 & Hi1 & Hl1); [|done..].
  apply take_Ok in H2 as (Hb2 & Ho2 & Hi2 & _);
    [|apply padding_range|unfold in_bounds in *; rewrite Hb1; lia].
  unfold advances, in_bounds in *. rewrite Hb1 in *. pose proof (padding_range n).
  pose proof (padding_aligns n). split_and!; try done; try lia.
  intros. rewrite Ho2, Ho1. Z.to_euclidean_division_equations; lia.
Qed.

Lemma be_value_nonneg l : 0 <= be_value l \/ ~ Forall (fun b => 0 <= b) l.
Proof.
  induction l as [|b l [IH|IH]] using rev_ind; [left; done| |].
  - rewrite be_value_snoc. destruct (decide (0 <= b)); [left; lia|].
    right. rewrite Forall_app, Forall_singleton. tauto.
  - right. rewrite Forall_app. tauto.
Qed.

Lemma string_Ok r v r' :
  Forall (fun b => 0 <= b) (rd_bytes r) -> in_bounds r -> Rd.string r = Ok (v, r') ->
  advances r r' /\ wf_bytes v.
Proof.
  intros Hpos Hr H. unfold Rd.string, Rd.opaque in H.
  apply bind_Ok in H as ([s r2] & H1 & H). apply bind_Ok in H1 as ([n r1] & H0 & H1).
  pose proof H0 as Hu. apply u32_Ok in H0 as [Hadv H0]; [|done].
  destruct (Z.ltb_spec MAX_VALUE_LENGTH n); [done|].
  destruct (utf8_valid s) eqn:Hutf; [|done]. injection H as <- <-.
  assert (Hn : 0 <= n).
  { unfold Rd.u32 in Hu. apply bind_Ok in Hu as ([b rb] & Hb & [= <- <-]).
    unfold Rd.take in Hb. repeat case_match; simplify_eq.
    edestruct be_value_nonneg as [|Hneg]; [done|]. destruct Hneg.
    by apply Forall_take, Forall_drop. }
  assert (in_bounds r1) by (destruct Hadv as (Hb & ? & _); unfold in_bounds; rewrite Hb; lia).
  apply padded_Ok in H1 as [Hadv' Hl]; [|done..].
  split; [by eapply advances_trans|]. split; [lia|done].
Qed.

(** What a successful read promises of the value it returns. *)
Definition read_ok (k : kind) (i : item) : Prop :=
  match i with
  | IString l | IOptString (Some l) => wf_bytes l
  | IOpaque l => k = KOpaque (blen l)
  | _ => True
  end.

Definition wf_kind (k : kind) : Prop :=
  match k with KOpaque n => 0 <= n | _ => True end.

Lemma read_item_Ok r k i r' :
  Forall (fun b => 0 <= b) (rd_bytes r) -> in_bounds r ->
  wf_kind k -> read_item r k = Ok (i, r') -> advances r r' /\ read_ok k i.
Proof.
  intros Hpos Hr Hk H. destruct k as [| |n| |]; cbn [read_item] in H;
    apply bind_Ok in H as ([v r1] & H1 & [= <- <-]).
  - apply u32_Ok in H1 as [? _]; auto.
  - assert (exists z, Rd.u32 r = Ok (z, r1)) as [z H2].
    { unfold Rd.i32 in H1. apply bind_Ok in H1 as ([b r2] & H1 & [= <- <-]).
      exists (be_value b). unfold Rd.u32. by rewrite H1. }
    apply u32_Ok in H2 as [? _]; [|done]. by split.
  - unfold Rd.fixed_opaque in H1. apply padded_Ok in H1 as [? <-]; [|done..]. by split.
  - apply string_Ok in H1 as [? ?]; auto.
  - unfold Rd.optional_string in H1. apply bind_Ok in H1 as ([d r2] & H2 & H1).
    apply u32_Ok in H2 as [Hadv H0]; [|done].
    destruct (Z.eqb_spec d 0); [simplify_eq; auto|]. destruct (Z.eqb_spec d 1); [|done].
    apply bind_Ok in H1 as ([s r3] & H3 & [= <- <-]).
    assert (in_bounds r2) by (destruct Hadv as (Hb & ? & _); unfold in_bounds; rewrite Hb; lia).
    apply string_Ok in H3 as [? ?]; [|by destruct Hadv as (-> & _)|done].
    split; [by eapply advances_trans|done].
Qed.

Lemma read_items_Ok ks l r0 r :
  Forall wf_kind ks -> Forall (fun b => 0 <= b) (rd_bytes r0) -> in_bounds r0 ->
  read_items r0 ks = Ok (l, r) -> advances r0 r /\ Forall2 read_ok ks l.
Proof.
  revert l r0. induction ks as [|k ks IH]; intros l r0 Hks Hpos Hr H; simpl in H.
  - simplify_eq. split; [|done]. unfold advances, in_bounds in *. auto with lia.
  - apply Forall_cons in Hks as [Hk Hks].
    apply bind_Ok in H as ([i r1] & H1 & H). apply bind_Ok in H as ([l' r2] & H2 & [= <- <-]).
    apply read_item_Ok in H1 as [Hadv Hi]; [|done..].
    destruct (IH l' r1) as [Hadv' Hl']; [done| | |done|].
    + by destruct Hadv as (-> & _).
    + destruct Hadv as (Hb & ? & _). unfold in_bounds in *. rewrite Hb. lia.
    + split; [by eapply advances_trans|]. by constructor.
Qed.

(** ** Properties *)

(** Whatever sequence of in-range values is written, the reader gives
    the same sequence back, in order, and is left with no byte over. *)
Theorem xdr_round_trip (l : list item) (bytes : list Z) :
  Forall wf_item l -> write_items Writer.new l = Ok bytes -> blen bytes <= usize_max ->
  exists r, read_items (Rd.new (Writer.into_inner bytes)) (map kind_of l) = Ok (l, r) /\
    Rd.finish r = Ok tt.
Proof.
  intros Hl Hw Hmax. rewrite write_items_enc in Hw by done. injection Hw as <-.
  destruct (read_items_enc (Rd.new (concat (map enc l))) l []) as (r & Hr & (_ & pre & Hb & Ho)).
  - done.
  - rewrite app_nil_r. split; [done|]. by exists [].
  - exists r. split; [done|]. rewrite app_nil_r in Hb.
    unfold Rd.finish. rewrite Hb, Ho. by rewrite Z.eqb_refl.
Qed.

Lemma xdr_round_trip_witness :
  let l := [IU32 305419896; II32 (-7); IString [120; 100; 114];
            IOptString (Some [207; 132]); IOptString None; IOpaque [1; 2; 3; 4; 5]] in
  exists bytes r, write_items Writer.new l = Ok bytes /\
    read_items (Rd.new (Writer.into_inner bytes)) (map kind_of l) = Ok (l, r) /\
    Rd.finish r = Ok tt.
Proof.
  intros l. eexists.
  edestruct (xdr_round_trip l) as (r & H1 & H2); [|reflexivity| |].
  - repeat constructor; vm_compute; congruence.
  - vm_compute. congruence.
  - exists r. split; [reflexivity|]. split; [exact H1|exact H2].
Defined.

(** On any input bytes, a read that succeeds stays inside the input,
    keeps the 4-byte alignment, returns strings that are valid UTF-8 of at
    most 16 MiB, and opaques of the requested length; it cannot read past
    the end. *)
Theorem xdr_reads_in_bounds (bytes : list Z) (ks : list kind) (l : list item) (r : Reader) :
  Forall (fun b => 0 <= b) bytes ->
  Forall wf_kind ks -> read_items (Rd.new bytes) ks = Ok (l, r) ->
  rd_bytes r = bytes /\ 0 <= rd_offset r <= blen bytes /\ rd_offset r mod 4 = 0 /\
  Forall2 read_ok ks l.
Proof.
  intros Hpos Hks H. apply read_items_Ok in H as [(Hb & Ho & Ha) Hl]; [|done|done|].
  - simpl in *. split_and!; [done|lia|lia|by apply Ha|done].
  - unfold in_bounds. simpl. pose proof (blen_nonneg bytes). lia.
Qed.

Lemma xdr_reads_in_bounds_witness :
  let bytes := [0; 0; 0; 3; 120; 100; 114; 0; 9] in
  exists r, read_items (Rd.new bytes) [KString] = Ok ([IString [120; 100; 114]], r) /\
    rd_bytes r = bytes /\ 0 <= rd_offset r <= blen bytes /\ rd_offset r mod 4 = 0.
Proof.
  intros bytes. eexists. split; [reflexivity|].
  edestruct (xdr_reads_in_bounds bytes [KString]) as (H1 & H2 & H3 & _); [| |reflexivity|].
  - repeat constructor; vm_compute; congruence.
  - repeat constructor.
  - split; [exact H1|]. split; [exact H2|exact H3].
Defined.
