(* ===== verification/Machine.v ===== *)
(** * Machine: [crates/network/src/{machine,routes}.rs]

    The complete desired network of one machine, the routes it derives for
    the slots of other machines, the checks that run before anything is
    applied, and the convergence of the installed routes to the desired
    ones.  The kernel's routing table is behind the [RouteApplier] trait, so
    it is an interface here too. *)

From Stdlib Require Import ZArith Lia Ascii.
From S2P Require Import Prelude Text Ipv4 Network.
Open Scope Z_scope.

(** ** Data *)

Record PortRange : Type := mkPortRange { from_port : Z; to_port : Z }.
Record PublishedInstance : Type := mkPublished {
  pi_address : Z;
  pi_http_ports : list Z;
  pi_port_ranges : list PortRange
}.
(** One per-user libvirt network ([libvirt.rs]). *)
Record UserNetwork : Type := mkUserNetwork {
  un_name : string;
  un_bridge : string;
  un_subnet : Ipv4Prefix
}.
Record FirewallUser : Type := mkFirewallUser {
  fu_network : UserNetwork;
  fu_instances : list PublishedInstance
}.
(** The complete input of the nftables table ([nftables.rs]). *)
Record Ruleset : Type := mkRuleset {
  ru_private_range : Ipv4Prefix;
  ru_users : list FirewallUser;
  ru_underlay_peers : bool;
  ru_frontends : list Z;
  ru_runner_prefix : Z;
  ru_remote_slots : list Z;
  ru_management : list Z
}.
Record MachineUser : Type := mkMachineUser {
  mu_index : Z;
  mu_subnet : Ipv4Prefix;
  mu_instances : list PublishedInstance
}.
Record RemoteSlot : Type := mkRemoteSlot { rs_slot : Z; rs_next_hop : Z }.
Record MachineNetwork : Type := mkMachineNetwork {
  mn_private_range : Ipv4Prefix;
  mn_runner_prefix : Z;
  mn_users : list MachineUser;
  mn_remote_slots : list RemoteSlot;
  mn_frontends : list Z;
  mn_management : list Z
}.
Record Route : Type := mkRoute { r_destination : Ipv4Prefix; r_next_hop : Z }.

#[global] Instance PortRange_eq_dec : EqDecision PortRange.
Proof. solve_decision. Defined.
#[global] Instance PublishedInstance_eq_dec : EqDecision PublishedInstance.
Proof. solve_decision. Defined.
#[global] Instance MachineUser_eq_dec : EqDecision MachineUser.
Proof. solve_decision. Defined.
#[global] Instance RemoteSlot_eq_dec : EqDecision RemoteSlot.
Proof. solve_decision. Defined.
#[global] Instance MachineNetwork_eq_dec : EqDecision MachineNetwork.
Proof. solve_decision. Defined.
#[global] Instance Route_eq_dec : EqDecision Route.
Proof. solve_decision. Defined.
#[global] Instance Ipv4Prefix_countable : Countable Ipv4Prefix.
Proof.
  refine (inj_countable' (fun p => (addr p, bits p)) (fun q => mkPrefix q.1 q.2) _).
  by intros [].
Defined.

(** ** [machine.rs] *)

(** [MachineNetwork::networks]. *)
Definition networks (m : MachineNetwork) : list UserNetwork :=
  (fun u => mkUserNetwork ("bento-user-" +:+ dec_signed (mu_index u))
              ("bento" +:+ dec_signed (mu_index u)) (mu_subnet u)) <$> mn_users m.

(** [MachineNetwork::proxy_arp_bridges]. *)
Definition proxy_arp_bridges (m : MachineNetwork) : list string := un_bridge <$> networks m.

(** The body of the two nested loops of [MachineNetwork::routes]. *)
Definition slot_route (slots : Slots) (u : MachineUser) (remote : RemoteSlot) :
    result NetError Route :=
  destination ← slot_prefix slots (mu_subnet u) (rs_slot remote);
  if bits destination <=? bits (mu_subnet u)
  then Err (Invalid (RouteNotNarrower destination (mu_subnet u)))
  else Ok (mkRoute destination (rs_next_hop remote)).

(** [MachineNetwork::routes]. *)
Definition routes (m : MachineNetwork) : result NetError (list Route) :=
  slots ← Slots_new (mn_runner_prefix m);
  if count slots =? 1 then Ok []
  else
    per_user ← mapM (fun u => mapM (slot_route slots u) (mn_remote_slots m)) (mn_users m);
    Ok (concat per_user).

(** [MachineNetwork::ruleset]. *)
Definition ruleset (m : MachineNetwork) : Ruleset := {|
  ru_private_range := mn_private_range m;
  ru_users := zip_with (fun net u => mkFirewallUser net (mu_instances u))
                (networks m) (mn_users m);
  ru_underlay_peers := negb (bool_decide (mn_remote_slots m = []));
  ru_frontends := mn_frontends m;
  ru_runner_prefix := mn_runner_prefix m;
  ru_remote_slots := rs_slot <$> mn_remote_slots m;
  ru_management := mn_management m
|}.

Definition check_user (range : Ipv4Prefix) (u : MachineUser) : result NetError unit :=
  _ ← require_slash_24 (mu_subnet u);
  refuse_if (negb (contains range (addr (mu_subnet u))))
    (Invalid (OutsideRange (mu_subnet u) range)).

(** The loop over the remote slots; [seen] is the source's [HashSet]. *)
Fixpoint check_remotes (slots : Slots) (bits_ : Z) (range : Ipv4Prefix) (seen : list Z)
    (l : list RemoteSlot) : result NetError unit :=
  match l with
  | [] => Ok tt
  | remote :: l' =>
      _ ← refuse_if (count slots <=? rs_slot remote)
            (Invalid (SlotMissing (rs_slot remote) bits_ (count slots)));
      _ ← refuse_if (bool_decide (rs_slot remote ∈ seen))
            (Invalid (SlotTwoOwners (rs_slot remote)));
      _ ← refuse_if (contains range (rs_next_hop remote))
            (Invalid (NextHopInside (rs_next_hop remote) (rs_slot remote) range));
      check_remotes slots bits_ range (rs_slot remote :: seen) l'
  end.

(** [MachineNetwork::check]. *)
Definition check (m : MachineNetwork) : result NetError unit :=
  slots ← Slots_new (mn_runner_prefix m);
  _ ← refuse_if (24 <? bits (mn_private_range m)) (Invalid (NarrowerThan24 (mn_private_range m)));
  _ ← each (check_user (mn_private_range m)) (mn_users m);
  _ ← check_remotes slots (mn_runner_prefix m) (mn_private_range m) [] (mn_remote_slots m);
  each (fun frontend => refuse_if (contains (mn_private_range m) frontend)
          (Invalid (FrontendInside frontend (mn_private_range m)))) (mn_frontends m).

(** ** [routes.rs] *)

(** [parse_destination]: a runner-slot prefix, or nothing. *)
Definition parse_destination (text : string) : option Ipv4Prefix :=
  p ← parse_prefix text;
  if (24 <=? bits p) && (bits p <=? 27) then Some p else None.

Definition nonempty (s : string) : bool := negb (bool_decide (s = EmptyString)).
(** [str::split_whitespace]. *)
Definition split_whitespace (s : string) : list string :=
  filter (fun w => nonempty w = true)
    (split_on " " (string_map (fun c => if is_space c then " "%char else c) s)).
(** [str::lines], for text whose lines end in a newline. *)
Definition lines (s : string) : list string := split_on (ascii_of_code 10) s.

(** The field after the first [via]. *)
Fixpoint after_via (fields : list string) : option string :=
  match fields with
  | [] => None
  | f :: rest => if bool_decide (f = "via") then head rest else after_via rest
  end.

(** One line of [parse_routes]. *)
Definition parse_route (private_range : Ipv4Prefix) (line : string) : option Route :=
  match split_whitespace line with
  | [] => None
  | first :: fields =>
      destination ← parse_destination first;
      if negb (contains private_range (addr destination)) then None
      else
        hop ← after_via fields;
        next_hop ← parse_addr hop;
        Some (mkRoute destination next_hop)
  end.

Definition parse_routes (text : string) (private_range : Ipv4Prefix) : list Route :=
  omap (parse_route private_range) (lines text).

(** [is_sysctl_component]. *)
Definition is_sysctl_component (value : string) : bool :=
  str_all (fun c => is_ascii_digit c || is_ascii_lowercase c || is_ascii_uppercase c ||
    Ascii.eqb c "_" || Ascii.eqb c "." || Ascii.eqb c "-") value.

(** The trait over a world [W]; a failed call may still have changed it. *)
Class RouteApplier (W : Type) : Type := {
  installed : ST string W (list Route);
  add : Route -> ST string W unit;
  remove : Route -> ST string W unit
}.

Record Converged : Type := mkConverged {
  cv_added : list Route;
  cv_removed : list Route;
  cv_unchanged : Z
}.

(** [unique]: each route once, at its first position. *)
Fixpoint unique_from (seen l : list Route) : list Route :=
  match l with
  | [] => []
  | r :: l' => if bool_decide (r ∈ seen) then unique_from seen l'
               else r :: unique_from (r :: seen) l'
  end.
Definition unique (l : list Route) : list Route := unique_from [] l.

Definition lift {W A} (m : ST string W A) : ST NetError W A :=
  fun w => let '(r, w') := m w in (map_err Apply r, w').

Section Converge.
Context {W : Type} `{RouteApplier W}.

(** The first loop of [converge]: it removes what is not desired. *)
Fixpoint remove_stale (desired l : list Route) : ST NetError W (list Route) :=
  match l with
  | [] => mret []
  | r :: l' =>
      if bool_decide (r ∈ desired) then remove_stale desired l'
      else _ ← lift (remove r); rest ← remove_stale desired l'; mret (r :: rest)
  end.

(** The second loop: it adds what is not installed yet. *)
Fixpoint add_missing (present l : list Route) : ST NetError W (list Route * Z) :=
  match l with
  | [] => mret ([], 0)
  | r :: l' =>
      if bool_decide (r ∈ present)
      then '(rest, n) ← add_missing present l'; mret (rest, n + 1)
      else _ ← lift (add r); '(rest, n) ← add_missing present l'; mret (r :: rest, n)
  end.

(** [converge]. *)
Definition converge (desired : list Route) : ST NetError W Converged :=
  match find_first (fun r => negb ((24 <=? bits (r_destination r)) &&
                               (bits (r_destination r) <=? 27))) desired with
  | Some r => fail (Invalid (NotSlotRoute (r_destination r)))
  | None =>
      present ← lift installed;
      removed ← remove_stale desired (unique present);
      '(added, unchanged) ← add_missing present (unique desired);
      mret (mkConverged added removed unchanged)
  end.
End Converge.

(** ** Lemmas *)

Lemma check_remotes_Ok slots b range seen l u :
  check_remotes slots b range seen l = Ok u ->
  Forall (fun r => rs_slot r < count slots /\ contains range (rs_next_hop r) = false /\
                   (rs_slot r ∉ seen)) l /\ NoDup (rs_slot <$> l).
Proof.
  revert seen. induction l as [|r l IH]; intros seen H; simpl in *; [by split; constructor|].
  result_inv. apply Z.leb_gt in Hv. apply bool_decide_eq_false in Hv0.
  apply IH in H as [Hl Hnd]. rewrite Forall_forall in Hl. split.
  - constructor; [done|]. rewrite Forall_forall. intros x Hx. specialize (Hl x Hx). set_solver.
  - constructor; [|done]. rewrite list_elem_of_fmap. intros (x & Heq & Hx).
    specialize (Hl x Hx). set_solver.
Qed.

(** The values a deserialized description holds: 32-bit addresses and slots. *)
Definition wf_machine (m : MachineNetwork) : Prop :=
  Forall (fun u => is_u32 (addr (mu_subnet u))) (mn_users m) /\
  Forall (fun r => 0 <= rs_slot r) (mn_remote_slots m).

(** What [check] establishes. *)
Lemma check_Ok m : check m = Ok tt -> wf_machine m ->
  exists slots, Slots_new (mn_runner_prefix m) = Ok slots /\ wf_slots slots /\
    (forall u, u ∈ mn_users m -> wf_subnet (mu_subnet u)) /\
    (forall r, r ∈ mn_remote_slots m -> 0 <= rs_slot r < count slots /\
       contains (mn_private_range m) (rs_next_hop r) = false) /\
    NoDup (rs_slot <$> mn_remote_slots m).
Proof.
  intros H [Hu Hr]. unfold check in H. result_inv. rename v into slots.
  apply each_Ok in Hv1. apply check_remotes_Ok in Hv2 as [Hrem Hnd].
  rewrite Forall_forall in Hu. rewrite Forall_forall in Hr.
  rewrite Forall_forall in Hv1. rewrite Forall_forall in Hrem.
  exists slots. pose proof Hv as [_ Hs]%Slots_new_Ok. split_and!; [done..| | |done].
  - intros u Hin. specialize (Hv1 u Hin). unfold check_user in Hv1. result_inv.
    apply require_slash_24_Ok in Hv2. by split; [apply Hu|].
  - intros r Hin. specialize (Hr r Hin). destruct (Hrem r Hin) as (? & ? & _). auto.
Qed.

Lemma slot_prefix_inside s subnet k a :
  wf_slots s -> wf_subnet subnet -> is_u32 a -> 0 <= k < count s ->
  contains (mkPrefix (addr (masked subnet) + k * span (slot_bits s)) (slot_bits s)) a = true ->
  contains subnet a = true.
Proof.
  intros Hs Hn Ha Hk Hc. pose proof (subnet_base subnet Hn) as [Hbase Hbb].
  assert (Hu : 0 <= k * span (slot_bits s) <= 255) by slots_case Hs.
  apply contains_spec in Hc; cbn [addr bits] in *; [|split; cbn [addr bits]|done].
  - apply subnet_contains; [done..|]. slots_case Hs; Z.to_euclidean_division_equations; lia.
  - int_lia.
  - unfold wf_slots, MIN_SLOT_BITS, MAX_SLOT_BITS in Hs. lia.
Qed.

(** The routes of a checked description, one per user and remote slot. *)
Lemma routes_Ok m slots : check m = Ok tt -> wf_machine m ->
  Slots_new (mn_runner_prefix m) = Ok slots ->
  exists rs, routes m = Ok rs /\ forall r, r ∈ rs <->
    count slots <> 1 /\ exists u remote, u ∈ mn_users m /\ remote ∈ mn_remote_slots m /\
      r = mkRoute (mkPrefix (addr (masked (mu_subnet u)) + rs_slot remote * span (slot_bits slots))
                    (slot_bits slots)) (rs_next_hop remote).
Proof.
  intros Hc Hwf Hs. destruct (check_Ok m Hc Hwf) as (s & Hs' & Hws & Hu & Hr & _).
  rewrite Hs in Hs'. injection Hs' as <-. unfold routes. rewrite Hs. cbn [mbind result_bind].
  destruct (Z.eqb_spec (count slots) 1) as [|Hne]; [exists []; split; [done|]; set_solver|].
  pose (rt := fun u remote => mkRoute (mkPrefix (addr (masked (mu_subnet u)) +
    rs_slot remote * span (slot_bits slots)) (slot_bits slots)) (rs_next_hop remote)).
  assert (Hone : forall u remote, u ∈ mn_users m -> remote ∈ mn_remote_slots m ->
    slot_route slots u remote = Ok (rt u remote)).
  { intros u remote Hin Hrin. unfold slot_route. destruct (Hr remote Hrin) as [? _].
    pose proof (Hu u Hin) as Hsub.
    erewrite (proj2 (slot_prefix_Ok slots (mu_subnet u) (rs_slot remote) _ Hws Hsub ltac:(lia)));
      [|split; [lia|reflexivity]]. cbn [mbind result_bind bits].
    destruct Hsub as [_ ->].
    destruct (Z.leb_spec (slot_bits slots) 24) as [Hle|]; [|done]. exfalso. apply Hne.
    assert (slot_bits slots = 24) as Heq
      by (unfold wf_slots, MIN_SLOT_BITS in Hws; lia).
    unfold count. by rewrite Heq. }
  rewrite (mapM_all_Ok _ (fun u => rt u <$> mn_remote_slots m)).
  2:{ intros u Hin. apply mapM_all_Ok. intros remote Hrin. by apply Hone. }
  cbn [mbind result_bind]. eexists. split; [reflexivity|]. intros r.
  rewrite list_elem_of_In, in_concat. setoid_rewrite <-list_elem_of_In. split.
  - intros (l & (u & -> & Hin)%list_elem_of_fmap & (remote & -> & Hrin)%list_elem_of_fmap).
    split; [done|]. by exists u, remote.
  - intros (_ & u & remote & Hin & Hrin & ->). exists (rt u <$> mn_remote_slots m).
    split; apply list_elem_of_fmap; eauto.
Qed.

(** ** Converging the routing table

    What the [ip] command documents: [installed] reports the guest routes, a
    [route replace] sets the next hop of its destination, and a [route del]
    of an installed route takes it away.  [table] is the kernel's view. *)
Class RouteTable (W : Type) `{RouteApplier W} : Type := {
  table : W -> gmap Ipv4Prefix Z;
  installed_spec : forall w l w', installed w = (Ok l, w') ->
    table w' = table w /\
    forall r, r ∈ l <-> table w !! r_destination r = Some (r_next_hop r);
  add_spec : forall r w w', add r w = (Ok tt, w') ->
    table w' = <[r_destination r := r_next_hop r]> (table w);
  remove_spec : forall r w w', remove r w = (Ok tt, w') ->
    table w !! r_destination r = Some (r_next_hop r) ->
    table w' = delete (r_destination r) (table w)
}.

Lemma elem_of_unique_from seen l r : r ∈ unique_from seen l <-> r ∈ l /\ (r ∉ seen).
Proof.
  revert seen. induction l as [|x l IH]; intros seen; simpl; [set_solver|].
  case_bool_decide; [rewrite IH; set_solver|].
  rewrite elem_of_cons, IH. set_unfold. destruct (decide (r = x)); naive_solver.
Qed.

Lemma elem_of_unique l r : r ∈ unique l <-> r ∈ l.
Proof. unfold unique. rewrite elem_of_unique_from. set_solver. Qed.

Lemma NoDup_unique_from seen l : NoDup (unique_from seen l).
Proof.
  revert seen. induction l as [|x l IH]; intros seen; simpl; [constructor|].
  case_bool_decide; [done|]. constructor; [|done]. rewrite elem_of_unique_from. set_solver.
Qed.

Lemma lift_Ok {W A} (m : ST string W A) w a w' :
  lift m w = (Ok a, w') <-> m w = (Ok a, w').
Proof. unfold lift. destruct (m w) as [[]]; naive_solver. Qed.

Section Converges.
Context {W : Type} `{RouteTable W}.

(** One destination has one next hop. *)
Definition functional (l : list Route) : Prop :=
  forall r1 r2, r1 ∈ l -> r2 ∈ l -> r_destination r1 = r_destination r2 -> r1 = r2.

Lemma remove_stale_Ok desired l w removed w' :
  remove_stale desired l w = (Ok removed, w') -> NoDup l -> functional l ->
  (forall r, r ∈ l -> table w !! r_destination r = Some (r_next_hop r)) ->
  removed = filter (.∉ desired) l /\
  forall d h, table w' !! d = Some h <->
    table w !! d = Some h /\ ~ (mkRoute d h ∈ l /\ mkRoute d h ∉ desired).
Proof.
  revert w removed. induction l as [|r l IH]; intros w removed Hrun Hnd Hfun Htab; simpl in *.
  { injection Hrun as <- <-. split; [done|]. set_solver. }
  inversion Hnd as [|? ? Hnin Hnd']; subst.
  assert (Hfun' : functional l) by (intros ????; apply Hfun; set_solver).
  rewrite filter_cons. case_bool_decide as Hdes.
  - rewrite decide_False by tauto.
    apply IH in Hrun as [-> Ht]; [|done|done|set_solver]. split; [done|].
    intros d h. rewrite Ht. set_unfold. naive_solver.
  - rewrite decide_True by done.
    apply ST_bind_run in Hrun as [([] & w1 & H1 & Hrun)|(? & _ & ?)]; [|done].
    apply ST_bind_run in Hrun as [(rest & w2 & H2 & Hrun)|(? & _ & ?)]; [|done].
    injection Hrun as <- <-. apply lift_Ok, remove_spec in H1; [|set_solver].
    apply IH in H2 as [-> Ht]; [|done|done|].
    + split; [done|]. intros d h. rewrite Ht, H1, lookup_delete_Some.
      assert (Hr : table w !! r_destination r = Some (r_next_hop r)) by set_solver.
      destruct r as [rd rh]; simpl in *. set_unfold. naive_solver.
    + intros r' Hr'. rewrite H1, lookup_delete_ne; [set_solver|].
      intros Heq. apply Hnin. rewrite (Hfun r r'); set_solver.
Qed.

Lemma add_missing_Ok present l w added n w' :
  add_missing present l w = (Ok (added, n), w') -> functional l ->
  added = filter (.∉ present) l /\ n = Z.of_nat (length (filter (.∈ present) l)) /\
  (forall r, r ∈ l -> (r ∉ present) -> table w' !! r_destination r = Some (r_next_hop r)) /\
  (forall d, (forall r, r ∈ l -> (r ∉ present) -> r_destination r <> d) ->
     table w' !! d = table w !! d).
Proof.
  revert w added n. induction l as [|r l IH]; intros w added n Hrun Hfun; simpl in *.
  { injection Hrun as <- <- <-. split_and!; [done..|set_solver|done]. }
  assert (Hfun' : functional l) by (intros ????; apply Hfun; set_solver).
  rewrite !filter_cons. case_bool_decide as Hp.
  - apply ST_bind_run in Hrun as [([rest m] & w1 & H1 & Hrun)|(? & _ & ?)]; [|done].
    injection Hrun as <- <- <-. apply IH in H1 as (-> & -> & Hin & Hout); [|done].
    rewrite decide_False by tauto. rewrite decide_True by done. simpl.
    split_and!; [done|lia|set_solver|]. intros d Hd. apply Hout. set_solver.
  - apply ST_bind_run in Hrun as [([] & w1 & H1 & Hrun)|(? & _ & ?)]; [|done].
    apply ST_bind_run in Hrun as [([rest m] & w2 & H2 & Hrun)|(? & _ & ?)]; [|done].
    injection Hrun as <- <- <-. apply lift_Ok, add_spec in H1.
    apply IH in H2 as (-> & -> & Hin & Hout); [|done].
    rewrite decide_True by done. rewrite decide_False by done.
    split_and!; [done..| |].
    + intros r' [->|Hr']%elem_of_cons Hnp; [|by apply Hin].
      destruct (decide (r ∈ l)) as [Hl|Hl]; [by apply Hin|].
      rewrite Hout, H1, lookup_insert_eq; [done|].
      intros r' Hr' _ Heq. apply Hl. rewrite (Hfun r r'); set_solver.
    + intros d Hd. rewrite Hout by set_solver. rewrite H1, lookup_insert_ne; [done|].
      apply Hd; set_solver.
Qed.

Lemma functional_subset l l' : (forall r, r ∈ l' -> r ∈ l) -> functional l -> functional l'.
Proof. intros Hsub Hf r1 r2 ??. apply Hf; auto. Qed.

(** The routes of a checked description are so. *)
Lemma routes_functional m rs : check m = Ok tt -> wf_machine m -> routes m = Ok rs -> functional rs.
Proof.
  intros Hc Hwf Hrs. destruct (check_Ok m Hc Hwf) as (slots & Hs & Hws & Hu & Hr & Hnd).
  destruct (routes_Ok m slots Hc Hwf Hs) as (rs' & Hrs' & Hin). rewrite Hrs in Hrs'. injection Hrs' as <-.
  intros r1 r2 (_ & u1 & k1 & Hu1 & Hk1 & ->)%Hin (_ & u2 & k2 & Hu2 & Hk2 & ->)%Hin Heq. cbn [r_destination] in Heq.
  f_equal; [exact Heq|]. apply (f_equal addr) in Heq. cbn [addr] in Heq.
  destruct (subnet_base _ (Hu _ Hu1)) as [Hb1 _], (subnet_base _ (Hu _ Hu2)) as [Hb2 _]. rewrite Hb1, Hb2 in Heq.
  destruct (Hr _ Hk1) as [Hk1' _], (Hr _ Hk2) as [Hk2' _].
  assert (Hspan : span (slot_bits slots) * count slots = 256 /\ 0 < span (slot_bits slots)).
  { unfold wf_slots, MIN_SLOT_BITS, MAX_SLOT_BITS in Hws. unfold span, count, MIN_SLOT_BITS. rewrite Z.shiftl_mul_pow2, Z.mul_1_l by lia.
    rewrite <-Z.pow_add_r by lia. split; [replace (32 - slot_bits slots + (slot_bits slots - 24)) with 8 by lia; done|lia]. }
  assert (Hk : rs_slot k1 = rs_slot k2) by nia.
  apply list_elem_of_lookup in Hk1 as [x Hx], Hk2 as [y Hy].
  assert (x = y); [|by simplify_eq]. eapply (NoDup_lookup (rs_slot <$> mn_remote_slots m)); [done| |].
  - rewrite list_lookup_fmap, Hx. done.
  - rewrite list_lookup_fmap, Hy. cbn. by rewrite Hk.
Qed.

(** A run of [converge] that reports success. *)
Lemma converge_Ok desired w c w' :
  converge desired w = (Ok c, w') -> functional desired ->
  exists present, (forall r, r ∈ present <-> table w !! r_destination r = Some (r_next_hop r)) /\
    cv_removed c = filter (.∉ desired) (unique present) /\
    cv_added c = filter (.∉ present) (unique desired) /\
    cv_unchanged c = Z.of_nat (length (filter (.∈ present) (unique desired))) /\
    forall d h, table w' !! d = Some h <-> mkRoute d h ∈ desired.
Proof.
  intros Hrun Hfun. unfold converge in Hrun. destruct (find_first _ _); [done|].
  apply ST_bind_run in Hrun as [(present & w1 & H1 & Hrun)|(? & _ & ?)]; [|done].
  apply ST_bind_run in Hrun as [(removed & w2 & H2 & Hrun)|(? & _ & ?)]; [|done].
  apply ST_bind_run in Hrun as [([added n] & w3 & H3 & Hrun)|(? & _ & ?)]; [|done].
  injection Hrun as <- <-. apply lift_Ok, installed_spec in H1 as [Ht1 Hp].
  assert (Hpf : functional present).
  { intros [d1 h1] [d2 h2] A%Hp B%Hp Heq; simpl in *. congruence. }
  apply remove_stale_Ok in H2 as [-> Ht2].
  2: apply NoDup_unique_from.
  2:{ eapply functional_subset; [|exact Hpf]. intros r. by rewrite elem_of_unique. }
  2:{ intros r. rewrite elem_of_unique, Ht1. apply Hp. }
  apply add_missing_Ok in H3 as (-> & -> & Hin & Hout).
  2:{ eapply functional_subset; [|exact Hfun]. intros r. by rewrite elem_of_unique. }
  exists present. split_and!; [done..|]. intros d h. split.
  - intros Hd. destruct (decide (Exists (fun r => (r ∉ present) /\ r_destination r = d) desired))
      as [(r & Hr & Hnp & <-)%Exists_exists|Hno].
    + assert (table w3 !! r_destination r = Some (r_next_hop r)) by (apply Hin; [by rewrite elem_of_unique|done]).
      replace h with (r_next_hop r) by congruence. by destruct r.
    + rewrite Hout in Hd.
      2:{ intros r. rewrite elem_of_unique. intros ?? <-. apply Hno, Exists_exists. eauto. }
      apply Ht2 in Hd as [Hd Hnot]. rewrite Ht1 in Hd.
      destruct (decide (mkRoute d h ∈ desired)) as [|Hnd]; [done|]. exfalso. apply Hnot.
      split; [|done]. rewrite elem_of_unique. by apply Hp.
  - intros Hd. destruct (decide (mkRoute d h ∈ present)) as [Hpr|Hnp].
    + rewrite Hout.
      * apply Ht2. rewrite Ht1. split; [by apply (Hp (mkRoute d h))|]. tauto.
      * intros r. rewrite elem_of_unique. intros Hr Hnr <-. apply Hnr.
        by rewrite (Hfun r (mkRoute (r_destination r) h)).
    + apply (Hin (mkRoute d h)); [by rewrite elem_of_unique|done].
Qed.
End Converges.

(** A routing table with no failures, as an instance of the interface. *)
Definition KernelTable : Type := gmap Ipv4Prefix Z.
Definition table_routes (t : KernelTable) : list Route :=
  (fun p => mkRoute p.1 p.2) <$> map_to_list t.
#[global] Instance KernelTable_applier : RouteApplier KernelTable := {|
  installed := fun w => (Ok (table_routes w), w);
  add := fun r w => (Ok tt, <[r_destination r := r_next_hop r]> w);
  remove := fun r w => if bool_decide (w !! r_destination r = Some (r_next_hop r))
    then (Ok tt, delete (r_destination r) w) else (Err "No such process", w)
|}.
#[global] Program Instance KernelTable_table : RouteTable KernelTable := {| table := id |}.
Next Obligation.
  intros w l w' [= <- <-]. split; [done|]. intros [d h]. unfold table_routes.
  rewrite list_elem_of_fmap. split.
  - intros ([d' h'] & [= -> ->] & Hm%elem_of_map_to_list). done.
  - intros Hm. exists (d, h). split; [done|]. by apply elem_of_map_to_list.
Qed.
Next Obligation. by intros r w w' [= <-]. Qed.
Next Obligation.
  intros r w w' Hrun Hl. cbn in Hrun, Hl |- *. unfold id in *. rewrite bool_decide_true in Hrun by done.
  by injection Hrun as <-.
Qed.

(** ** Properties *)

(** A description that passes [check] always yields its routes, and they
    are the right ones.  For any address of any user network: a route covers
    it only if a remote machine owns its slot, and then leads to that
    machine's next hop (so traffic of a local slot is never routed away, and
    no address has two next hops); when the network is divided, every
    remotely owned address has its route.  No next hop lies inside the
    private range, and no route is as wide as the user network it is in. *)
Theorem routes_reach_remote_slots (m : MachineNetwork) (slots : Slots) :
  check m = Ok tt -> wf_machine m -> Slots_new (mn_runner_prefix m) = Ok slots ->
  exists rs, routes m = Ok rs /\
    (forall r, r ∈ rs -> contains (mn_private_range m) (r_next_hop r) = false /\
       24 < bits (r_destination r)) /\
    forall u a k, u ∈ mn_users m -> is_u32 a -> slot_of slots (mu_subnet u) a = Ok k ->
      (forall r, r ∈ rs -> contains (r_destination r) a = true ->
         mkRemoteSlot k (r_next_hop r) ∈ mn_remote_slots m) /\
      (forall hop, count slots <> 1 -> mkRemoteSlot k hop ∈ mn_remote_slots m ->
         exists r, r ∈ rs /\ contains (r_destination r) a = true /\ r_next_hop r = hop).
Proof.
  intros Hc Hwf Hs. destruct (routes_Ok m slots Hc Hwf Hs) as (rs & Hrs & Hin).
  destruct (check_Ok m Hc Hwf) as (s & Hs' & Hws & Hu & Hr & _).
  rewrite Hs in Hs'. injection Hs' as <-. exists rs. split_and!; [done| |].
  { intros r (Hne & u & remote & Hiu & Hir & ->)%Hin. cbn [r_next_hop r_destination bits].
    split; [by apply Hr|]. destruct (decide (slot_bits slots = 24)) as [Heq|];
      [|unfold wf_slots, MIN_SLOT_BITS in Hws; lia]. destruct Hne. unfold count. by rewrite Heq. }
  intros u a k Hiu Ha Hk. pose proof (Hu u Hiu) as Hsub.
  apply slot_of_Ok in Hk as [Hcu ->]; [|done..]. split.
  - intros r (_ & u' & remote & Hiu' & Hir & ->)%Hin Hcov. cbn [r_destination r_next_hop] in *.
    destruct (Hr remote Hir) as [Hslot _]. pose proof (Hu u' Hiu') as Hsub'.
    pose proof (slot_prefix_inside _ _ _ _ Hws Hsub' Ha Hslot Hcov) as Hcu'.
    apply slot_prefix_contains in Hcov; [|done..].
    assert (addr (masked (mu_subnet u')) = addr (masked (mu_subnet u))) as Hbase.
    { apply subnet_contains in Hcu; [|done..]. apply subnet_contains in Hcu'; [|done..].
      destruct (subnet_base _ Hsub) as [-> _], (subnet_base _ Hsub') as [-> _].
      revert Hcu Hcu'. destruct (subnet_base _ Hsub) as [-> _], (subnet_base _ Hsub') as [-> _]. lia. }
    rewrite <-Hbase, <-Hcov. by destruct remote.
  - intros hop Hne Hir. eexists. split; [apply Hin; split; [done|]; eexists u, _;
      split; [done|]; split; [exact Hir|reflexivity]|]. cbn [r_destination r_next_hop].
    split; [|done]. destruct (Hr _ Hir) as [Hslot _]. by apply slot_prefix_contains.
Qed.

Definition two_machines : MachineNetwork := mkMachineNetwork (mkPrefix 174325760 16) 25
  [mkMachineUser 0 (mkPrefix 174325760 24) []; mkMachineUser 1 (mkPrefix 174326016 24) []]
  [mkRemoteSlot 1 167772257] [] [].

Lemma routes_reach_remote_slots_witness :
  exists rs, routes two_machines = Ok rs /\
    mkRoute (mkPrefix 174325888 25) 167772257 ∈ rs /\
    (forall r, r ∈ rs -> contains (mkPrefix 174325760 16) (r_next_hop r) = false /\
       24 < bits (r_destination r)).
Proof.
  destruct (routes_reach_remote_slots two_machines (mkSlots 25)) as (rs & Hrs & H & _).
  - reflexivity.
  - split; repeat constructor; vm_compute; congruence.
  - reflexivity.
  - exists rs. split; [exact Hrs|]. split; [|exact H].
    assert (E : routes two_machines = Ok [mkRoute (mkPrefix 174325888 25) 167772257;
      mkRoute (mkPrefix 174326144 25) 167772257]) by reflexivity.
    rewrite E in Hrs. injection Hrs as <-. left.
Defined.

Section Total.
Context {W : Type} `{RouteTable W}.

(** A kernel that does what it is asked, where that makes sense: it reports
    its routes, sets any route, and removes a route it has. *)
Definition takes_routes (W0 : Type) `{RouteTable W0} : Prop :=
  (forall w : W0, is_ok (fst (installed w)) = true) /\
  (forall r (w : W0), is_ok (fst (add r w)) = true) /\
  (forall r (w : W0), table w !! r_destination r = Some (r_next_hop r) -> is_ok (fst (remove r w)) = true).

Lemma lift_total {A} (m : ST string W A) w : is_ok (fst (m w)) = true -> exists a w', lift m w = (Ok a, w').
Proof. unfold lift. destruct (m w) as [[a|e] w'] eqn:Hm; [|done]. eauto. Qed.

(** Every route that is to go is still there when its turn comes. *)
Lemma remove_stale_total desired l w : takes_routes W -> NoDup l -> functional l ->
  (forall r, r ∈ l -> table w !! r_destination r = Some (r_next_hop r)) ->
  exists k w', remove_stale desired l w = (Ok k, w').
Proof.
  intros (_ & _ & Hr). revert w. induction l as [|r l IH]; intros w Hnd Hf Hin; cbn; [by eexists _, _|].
  apply NoDup_cons in Hnd as [Hnot Hnd].
  assert (Hf' : functional l) by (intros ????; apply Hf; set_solver).
  case_bool_decide; [apply IH; [done..|set_solver]|]. unfold mbind, ST_bind.
  assert (Hr0 : table w !! r_destination r = Some (r_next_hop r)) by (apply Hin; set_solver).
  destruct (lift_total (remove r) w (Hr r w Hr0)) as ([] & w1 & Hrem). rewrite Hrem.
  apply lift_Ok, remove_spec in Hrem; [|done].
  destruct (IH w1) as (k & w2 & ->); [done|done| |by eexists _, _].
  intros r' Hr'. rewrite Hrem, lookup_delete_ne; [apply Hin; set_solver|].
  intros Heq. apply Hnot. rewrite (Hf r r'); set_solver.
Qed.

Lemma add_missing_total present l w : takes_routes W -> exists k w', add_missing present l w = (Ok k, w').
Proof.
  intros (_ & Ha & _). revert w. induction l as [|r l IH]; intros w; cbn; [by eexists _, _|].
  unfold mbind, ST_bind. case_bool_decide.
  - destruct (IH w) as ([k n] & w2 & ->). by eexists _, _.
  - destruct (lift_total (add r) w (Ha r w)) as ([] & w1 & ->).
    destruct (IH w1) as ([k n] & w2 & ->). by eexists _, _.
Qed.

Lemma converge_total desired w : takes_routes W ->
  Forall (fun r => 24 <= bits (r_destination r) <= 27) desired ->
  exists c w', converge desired w = (Ok c, w').
Proof.
  intros Hap Hb. unfold converge. rewrite (proj2 (find_first_None _ _)).
  2:{ eapply Forall_impl; [exact Hb|]. intros r Hr. cbn in Hr. lia. }
  unfold mbind, ST_bind. destruct (lift_total installed w (proj1 Hap w)) as (present & w1 & Hi). rewrite Hi.
  apply lift_Ok, installed_spec in Hi as [Ht Hp].
  destruct (remove_stale_total desired (unique present) w1 Hap) as (k & w2 & ->).
  { apply NoDup_unique_from. }
  { intros [d1 h1] [d2 h2]. unfold unique. rewrite !elem_of_unique_from. intros [A%Hp _] [B%Hp _] Heq; simpl in *. congruence. }
  { intros r. unfold unique. rewrite elem_of_unique_from, Ht. intros [A _]. by apply Hp. }
  destruct (add_missing_total present (unique desired) w2 Hap) as ([a n] & w3 & ->). by eexists _, _.
Qed.

(** What a converge that reports success says and leaves. *)
Definition exactly (desired : list Route) (w : W) (c : Converged) (w' : W) : Prop :=
  (forall d h, table w' !! d = Some h <-> mkRoute d h ∈ desired) /\
  (forall r, r ∈ cv_removed c <-> table w !! r_destination r = Some (r_next_hop r) /\ (r ∉ desired)) /\
  (forall r, r ∈ cv_added c <-> r ∈ desired /\ table w !! r_destination r <> Some (r_next_hop r)).
Lemma converge_exactly desired w c w' : converge desired w = (Ok c, w') -> functional desired -> exactly desired w c w'.
Proof.
  intros Hrun Hf. destruct (converge_Ok desired w c w' Hrun Hf) as (present & Hp & Hr & Ha & _ & Ht). split_and!; [done| |].
  - intros r. rewrite Hr, list_elem_of_filter, elem_of_unique, Hp. tauto.
  - intros r. rewrite Ha, list_elem_of_filter, elem_of_unique, Hp. tauto.
Qed.
(** Converging on what is there already changes nothing. *)
Lemma converge_idle desired w c w' : converge desired w = (Ok c, w') -> functional desired ->
  (forall d h, table w !! d = Some h <-> mkRoute d h ∈ desired) ->
  cv_added c = [] /\ cv_removed c = [] /\ cv_unchanged c = Z.of_nat (length (unique desired)) /\ table w' = table w.
Proof.
  intros Hrun Hf Hw. destruct (converge_Ok desired w c w' Hrun Hf) as (present & Hp & -> & -> & -> & Ht).
  assert (Heq : forall r, r ∈ present <-> r ∈ desired).
  { intros [d h]. by rewrite Hp, Hw. }
  split_and!.
  - apply filter_none. intros r. rewrite elem_of_unique, Heq. tauto.
  - apply filter_none. intros r. rewrite elem_of_unique, Heq. tauto.
  - rewrite filter_all; [done|]. intros r. by rewrite elem_of_unique, Heq.
  - apply map_eq. intros d. apply option_eq. intros h. by rewrite Hw, Ht.
Qed.
End Total.

(** The routes of a checked description are as long as a runner slot. *)
Lemma routes_slot_long m rs : check m = Ok tt -> wf_machine m -> routes m = Ok rs ->
  Forall (fun r => 24 <= bits (r_destination r) <= 27) rs.
Proof.
  intros Hc Hwf Hrs. destruct (check_Ok m Hc Hwf) as (slots & Hs & Hws & _).
  destruct (routes_Ok m slots Hc Hwf Hs) as (rs' & Hrs' & Hin). rewrite Hrs in Hrs'. injection Hrs' as <-.
  apply Forall_forall. intros r (_ & u & remote & _ & _ & ->)%Hin. cbn. exact Hws.
Qed.

(** C32.  The guest routes of a machine become exactly the desired ones.  A
    description that passes [check] (of 32-bit addresses and slots) has its
    desired routes, at most one for a destination.  Whatever was installed,
    and however an earlier attempt was cut short, a [converge] to them that
    reports success leaves exactly these routes; it reports as removed exactly
    the installed routes that are not desired and as added exactly the desired
    ones that were not installed.  A second one right after it adds and removes
    nothing and changes no route.  A kernel that reports its routes, sets any
    route and removes a route it has makes [converge] succeed: the loops never
    ask for the removal of a route that is gone. *)
Theorem converge_reaches_desired {W : Type} `{RouteTable W} (m : MachineNetwork) (w : W) :
  check m = Ok tt -> wf_machine m ->
  exists desired, routes m = Ok desired /\
  (takes_routes W -> exists c w', converge desired w = (Ok c, w')) /\
  (forall c w', converge desired w = (Ok c, w') -> exactly desired w c w' /\
   forall c2 w2, converge desired w' = (Ok c2, w2) ->
     cv_added c2 = [] /\ cv_removed c2 = [] /\ cv_unchanged c2 = Z.of_nat (length (unique desired)) /\ table w2 = table w').
Proof.
  intros Hc Hwf. destruct (check_Ok m Hc Hwf) as (slots & Hs & _). destruct (routes_Ok m slots Hc Hwf Hs) as (rs & Hrs & _).
  pose proof (routes_functional m rs Hc Hwf Hrs) as Hf. exists rs. split_and!; [done| |].
  - intros Ht. apply converge_total; [done|]. by apply (routes_slot_long m).
  - intros c w' Hrun. pose proof (converge_exactly _ _ _ _ Hrun Hf) as He. split; [done|].
    intros c2 w2 Hrun2. apply (converge_idle rs w' c2 w2 Hrun2 Hf), He.
Qed.

Lemma KernelTable_takes : takes_routes KernelTable.
Proof. split_and!; [done..|]. intros r w Hr. cbn in *. unfold id in Hr. by rewrite bool_decide_eq_true_2. Qed.
(** From a table with a stale next hop, a route nobody wants and a route missing. *)
Lemma converge_reaches_desired_witness :
  let r1 := mkRoute (mkPrefix 174325888 25) 167772257 in
  let r2 := mkRoute (mkPrefix 174326144 25) 167772257 in
  let w : KernelTable := {[ mkPrefix 174326144 25 := 167772258; mkPrefix 174326400 25 := 167772257 ]} in
  exists c (w1 : KernelTable), routes two_machines = Ok [r1; r2] /\ converge [r1; r2] w = (Ok c, w1) /\
    exactly [r1; r2] w c w1 /\ cv_added c = [r1; r2].
Proof.
  intros r1 r2 w.
  destruct (converge_reaches_desired two_machines w) as (desired & Hd & Htotal & Hexact).
  - reflexivity.
  - split; repeat constructor; vm_compute; congruence.
  - assert (E : routes two_machines = Ok [r1; r2]) by reflexivity. rewrite E in Hd. injection Hd as <-.
    destruct (Htotal KernelTable_takes) as (c & w1 & Hrun). exists c, w1. split; [exact E|]. split; [exact Hrun|].
    split; [apply (Hexact c w1 Hrun)|].
    assert (E' : option_map cv_added (match fst (converge [r1; r2] w) with Ok c => Some c | Err _ => None end) = Some [r1; r2]) by (vm_compute; reflexivity).
    rewrite Hrun in E'. cbn in E'. by injection E'.
Defined.
