(* ===== verification/Firewall.v ===== *)
(** * Firewall: [crates/network/src/nftables.rs]

    [Ruleset::render] writes the one nftables table of a machine.  The model
    builds the table as data (chains of rules, each a list of matches and a
    verdict), prints it to the source's text, and gives the rules the meaning
    nftables gives them: the first rule whose matches all hold decides, and
    the chain's policy decides otherwise.  The theorems compare that meaning
    with the policy the table is for. *)

From Stdlib Require Import ZArith Lia Ascii.
From S2P Require Import Prelude Text Ipv4 Network Machine.
Open Scope Z_scope.

(** ** Rules *)

(** What an [ip saddr] or [ip daddr] match names. *)
Inductive addr_match : Type :=
  | AnyOf (prefixes : list Ipv4Prefix)
  | Exactly (address : Z)
  | OneOf (addresses : list Z).

Inductive match_ : Type :=
  | Iif (bridge : string)
  | IifNotIn (bridges : list string)
  | Oif (bridge : string)
  | Saddr (m : addr_match)
  | SaddrNot (m : addr_match)
  | Daddr (m : addr_match)
  | DaddrNot (m : addr_match)
  | Dport (ports : list Z) (ranges : list PortRange)
  | IcmpBasic
  | Established.

Inductive verdict : Type := Accept | Drop | Masquerade.

Inductive line : Type :=
  | Comment (text : string)
  | Rule (matches : list match_) (v : verdict).

Record chain : Type := mkChain {
  ch_name : string;
  ch_hook : string;
  ch_policy : verdict;
  ch_lines : list line
}.

#[global] Instance verdict_eq_dec : EqDecision verdict.
Proof. solve_decision. Defined.

(** ** Helpers of [nftables.rs] *)

(** [safe_interface_name]. *)
Definition safe_interface_name (name : string) : bool :=
  (1 <=? str_len name) && (str_len name <=? 15) && is_sysctl_component name.

(** [local_prefixes]: the prefixes of a user network this machine owns. *)
Definition local_prefixes (slots : Slots) (subnet : Ipv4Prefix) (remote : list Z) :
    result NetError (list Ipv4Prefix) :=
  if bool_decide (remote = []) then Ok [masked subnet]
  else mapM (slot_prefix slots subnet) (filter (.∉ remote) (range 0 (count slots))).

(** [remote_prefixes]: the ones other machines own. *)
Definition remote_prefixes (slots : Slots) (subnet : Ipv4Prefix) (remote : list Z) :
    result NetError (list Ipv4Prefix) :=
  mapM (slot_prefix slots subnet) remote.

Definition range_lt (a b : PortRange) : bool :=
  (from_port a <? from_port b) || ((from_port a =? from_port b) && (to_port a <? to_port b)).

(** [port_set]: port 22 and the published ports and ranges, sorted. *)
Definition port_set (i : PublishedInstance) : match_ :=
  Dport (btree_set Z.ltb (22 :: pi_http_ports i)) (btree_set range_lt (pi_port_ranges i)).

(** ** The checks of [Ruleset::render] *)

Definition bridge (u : FirewallUser) : string := un_bridge (fu_network u).
Definition subnet (u : FirewallUser) : Ipv4Prefix := un_subnet (fu_network u).

Definition check_instance (subnet : Ipv4Prefix) (i : PublishedInstance) : result NetError unit :=
  _ ← refuse_if (negb (contains subnet (pi_address i)))
        (Invalid (OutsideSubnet (pi_address i) subnet));
  _ ← each (fun port => refuse_if (port =? 0) (Invalid (InvalidPort port (pi_address i))))
        (pi_http_ports i);
  each (fun r => refuse_if ((from_port r <? 1) || (to_port r <? from_port r))
          (Invalid (InvalidPortRange (from_port r) (to_port r) (pi_address i))))
    (pi_port_ranges i).

(** The loop over the sorted users; [seen] is the source's [HashSet]. *)
Fixpoint check_users (seen : list string) (l : list FirewallUser) : result NetError unit :=
  match l with
  | [] => Ok tt
  | u :: l' =>
      _ ← refuse_if (negb (safe_interface_name (bridge u))) (Invalid (UnsafeBridge (bridge u)));
      _ ← refuse_if (bool_decide (bridge u ∈ seen)) (Invalid (DuplicateBridge (bridge u)));
      _ ← require_slash_24 (subnet u);
      _ ← each (check_instance (subnet u)) (fu_instances u);
      check_users (bridge u :: seen) l'
  end.

(** ** The chains *)

Definition output_chain (users : list FirewallUser) : chain :=
  mkChain "output" "filter hook output priority filter" Accept
    (Comment "rule 1: host to instance on port 22 and the published HTTP ports" ::
     concat ((fun u =>
       ((fun i => Rule [Oif (bridge u); Daddr (Exactly (pi_address i)); port_set i] Accept)
          <$> fu_instances u) ++ [Rule [Oif (bridge u)] Drop]) <$> users)).

Definition input_chain (users : list FirewallUser) : chain :=
  mkChain "input" "filter hook input priority filter" Accept
    (Rule [Established] Accept ::
     Comment "rule 8: a guest cannot reach the host's own addresses" ::
     concat ((fun u => [Rule [Iif (bridge u); IcmpBasic] Accept;
                        Rule [Iif (bridge u); Dport [80; 443] []] Accept;
                        Rule [Iif (bridge u)] Drop]) <$> users)).

(** Rule 9: a bridge carries only the addresses its machine owns. *)
Definition rule_9 (slots : Slots) (remote : list Z) (users : list FirewallUser) :
    result NetError (list line) :=
  mapM (fun u =>
    local ← local_prefixes slots (subnet u) remote;
    Ok (Rule [Iif (bridge u); SaddrNot (AnyOf local)] Drop)) users.

Definition rule_10 (management : list Z) (users : list FirewallUser) : list line :=
  if bool_decide (management = []) then []
  else Comment "rule 10: a guest cannot reach a management address" ::
       ((fun u => Rule [Iif (bridge u); Daddr (OneOf management)] Drop) <$> users).

Definition rule_3 (users : list FirewallUser) : list line :=
  Comment "rule 3: drop traffic between the bridges of two different users" ::
  concat ((fun u => omap (fun other =>
    if bool_decide (bridge u = bridge other) then None
    else Some (Rule [Iif (bridge u); Oif (bridge other)] Drop)) users) <$> users).

Definition rule_6 (slots : Slots) (remote : list Z) (users : list FirewallUser) :
    result NetError (list line) :=
  lines ← mapM (fun u =>
    local ← local_prefixes slots (subnet u) remote;
    far ← remote_prefixes slots (subnet u) remote;
    Ok (if bool_decide (local = []) || bool_decide (far = []) then []
        else [Rule [IifNotIn (bridge <$> users); Saddr (AnyOf far); Daddr (AnyOf local);
                    Oif (bridge u)] Accept])) users;
  Ok (Comment "rule 6: same user, different machines, arriving over the underlay" ::
      concat lines).

Definition rule_7 (frontends : list Z) (users : list FirewallUser) : list line :=
  if bool_decide (frontends = []) then []
  else Comment "rule 7: a frontend on another machine reaching an instance" ::
    concat ((fun u => concat ((fun i => (fun frontend =>
      Rule [Saddr (Exactly frontend); Oif (bridge u); Daddr (Exactly (pi_address i)); port_set i]
        Accept) <$> frontends) <$> fu_instances u)) <$> users).

Definition rule_4 (users : list FirewallUser) : list line :=
  Comment "rule 4: permit traffic within a user's bridge" ::
  ((fun u => Rule [Iif (bridge u); Oif (bridge u)] Accept) <$> users).

Definition rule_2b (users : list FirewallUser) : list line :=
  Comment "rule 2b: same user, different machines, leaving over the underlay" ::
  ((fun u => Rule [Iif (bridge u); Daddr (AnyOf [subnet u])] Accept) <$> users).

Definition rule_2 (range : Ipv4Prefix) (users : list FirewallUser) : list line :=
  Comment "rule 2: permit instance egress to the internet" ::
  ((fun u => Rule [Iif (bridge u); DaddrNot (AnyOf [masked range])] Accept) <$> users).

Definition forward_chain (rs : Ruleset) (slots : Slots) (users : list FirewallUser) :
    result NetError chain :=
  let remote := btree_set Z.ltb (ru_remote_slots rs) in
  let management := btree_set Z.ltb (ru_management rs) in
  r9 ← rule_9 slots remote users;
  r6 ← (if ru_underlay_peers rs then rule_6 slots remote users else Ok []);
  Ok (mkChain "forward" "filter hook forward priority filter" Drop
    (Rule [Established] Accept ::
     Comment "rule 9: a guest uses only its own source address" :: r9 ++
     rule_10 management users ++ rule_3 users ++ r6 ++ rule_7 (ru_frontends rs) users ++
     rule_4 users ++ (if ru_underlay_peers rs then rule_2b users else []) ++
     rule_2 (ru_private_range rs) users)).

Definition postrouting_chain (range : Ipv4Prefix) (users : list FirewallUser) : chain :=
  mkChain "postrouting" "nat hook postrouting priority srcnat" Accept
    (Comment "rule 5: masquerade instance egress behind the host address" ::
     ((fun u => Rule [Saddr (AnyOf [subnet u]); DaddrNot (AnyOf [masked range])] Masquerade)
        <$> users)).

Definition sorted_users (rs : Ruleset) : list FirewallUser :=
  sort_by (fun l r => text_lt (bridge l) (bridge r)) (ru_users rs).

(** [Ruleset::render] up to the text: the checks, then the four chains. *)
Definition chains (rs : Ruleset) : result NetError (list chain) :=
  _ ← refuse_if (32 <? bits (ru_private_range rs)) (Invalid (RulesetRange (ru_private_range rs)));
  slots ← Slots_new (ru_runner_prefix rs);
  _ ← each (check_slot slots) (ru_remote_slots rs);
  let users := sorted_users rs in
  _ ← check_users [] users;
  forward ← forward_chain rs slots users;
  Ok [output_chain users; input_chain users; forward;
      postrouting_chain (ru_private_range rs) users].

(** ** The text *)

Definition quote (s : string) : string :=
  let dq := String (ascii_of_code 34) EmptyString in dq +:+ s +:+ dq.
Definition nl : string := String (ascii_of_code 10) EmptyString.
Definition tab : string := String (ascii_of_code 9) EmptyString.
Definition braces (parts : list string) : string := "{ " +:+ join ", " parts +:+ " }".

(** [prefix_set]: one prefix renders bare, several as a set. *)
Definition prefix_set (prefixes : list Ipv4Prefix) : string :=
  match prefixes with
  | [one] => prefix_to_string one
  | _ => braces (prefix_to_string <$> prefixes)
  end.

Definition addr_text (m : addr_match) : string :=
  match m with
  | AnyOf prefixes => prefix_set prefixes
  | Exactly a => addr_to_string a
  | OneOf addresses => braces (addr_to_string <$> addresses)
  end.

Definition match_text (m : match_) : string :=
  match m with
  | Iif b => "iifname " +:+ quote b
  | IifNotIn bs => "iifname != " +:+ braces (quote <$> bs)
  | Oif b => "oifname " +:+ quote b
  | Saddr a => "ip saddr " +:+ addr_text a
  | SaddrNot a => "ip saddr != " +:+ addr_text a
  | Daddr a => "ip daddr " +:+ addr_text a
  | DaddrNot a => "ip daddr != " +:+ addr_text a
  | Dport ports ranges =>
      "tcp dport " +:+ braces ((dec <$> ports) ++
        ((fun r => dec (from_port r) +:+ "-" +:+ dec (to_port r)) <$> ranges))
  | IcmpBasic => "icmp type { echo-request, destination-unreachable, time-exceeded }"
  | Established => "ct state established,related"
  end.

Definition verdict_text (v : verdict) : string :=
  match v with Accept => "accept" | Drop => "drop" | Masquerade => "masquerade" end.

Definition line_text (l : line) : string :=
  tab +:+ tab +:+
  match l with
  | Comment text => "# " +:+ text
  | Rule ms v => join " " ((match_text <$> ms) ++ [verdict_text v])
  end +:+ nl.

Definition chain_text (c : chain) : string :=
  tab +:+ "chain " +:+ ch_name c +:+ " {" +:+ nl +:+
  tab +:+ tab +:+ "type " +:+ ch_hook c +:+ "; policy " +:+ verdict_text (ch_policy c) +:+ ";" +:+ nl +:+
  join EmptyString (line_text <$> ch_lines c) +:+ tab +:+ "}" +:+ nl.

(** [Ruleset::render]. *)
Definition render (rs : Ruleset) : result NetError string :=
  cs ← chains rs;
  Ok ("# Bento nftables table. Bento owns every rule here; do not edit by hand (SPEC 6.3)." +:+ nl +:+
      "# The whole table is deleted and redefined in one transaction on every change." +:+ nl +:+
      "add table inet bento" +:+ nl +:+ "delete table inet bento" +:+ nl +:+
      "table inet bento {" +:+ nl +:+ join EmptyString (chain_text <$> cs) +:+ "}" +:+ nl).

(** ** What the rules mean *)

Inductive l4 : Type := Tcp (dport : Z) | Icmp (type_ : Z) | OtherProto.

Record packet : Type := mkPacket {
  pk_iif : string;
  pk_oif : string;
  pk_saddr : Z;
  pk_daddr : Z;
  pk_l4 : l4;
  pk_established : bool
}.

Definition addr_matches (m : addr_match) (a : Z) : bool :=
  match m with
  | AnyOf prefixes => existsb (fun p => contains p a) prefixes
  | Exactly b => a =? b
  | OneOf addresses => bool_decide (a ∈ addresses)
  end.

Definition port_matches (ports : list Z) (ranges : list PortRange) (port : Z) : bool :=
  bool_decide (port ∈ ports) ||
  existsb (fun r => (from_port r <=? port) && (port <=? to_port r)) ranges.

Definition matches (p : packet) (m : match_) : bool :=
  match m with
  | Iif b => bool_decide (pk_iif p = b)
  | IifNotIn bs => negb (bool_decide (pk_iif p ∈ bs))
  | Oif b => bool_decide (pk_oif p = b)
  | Saddr a => addr_matches a (pk_saddr p)
  | SaddrNot a => negb (addr_matches a (pk_saddr p))
  | Daddr a => addr_matches a (pk_daddr p)
  | DaddrNot a => negb (addr_matches a (pk_daddr p))
  | Dport ports ranges =>
      match pk_l4 p with Tcp port => port_matches ports ranges port | _ => false end
  | IcmpBasic =>
      match pk_l4 p with Icmp t => bool_decide (t ∈ [8; 3; 11]) | _ => false end
  | Established => pk_established p
  end.

Definition hits (p : packet) (l : line) : bool :=
  match l with Comment _ => false | Rule ms _ => forallb (matches p) ms end.

(** The verdict of the first rule that matches, if one does. *)
Fixpoint first_verdict (p : packet) (ls : list line) : option verdict :=
  match ls with
  | [] => None
  | Comment _ :: ls' => first_verdict p ls'
  | Rule ms v :: ls' => if forallb (matches p) ms then Some v else first_verdict p ls'
  end.

Definition run (c : chain) (p : packet) : verdict :=
  default (ch_policy c) (first_verdict p (ch_lines c)).

(** ** The policy the table is for *)

(** The address lies in a slot of the user network that this machine owns, or
    that another machine owns. *)
Definition owned_here (rs : Ruleset) (slots : Slots) (u : FirewallUser) (a : Z) : Prop :=
  exists k, slot_of slots (subnet u) a = Ok k /\ (k ∉ ru_remote_slots rs).
Definition owned_elsewhere (rs : Ruleset) (slots : Slots) (u : FirewallUser) (a : Z) : Prop :=
  exists k, slot_of slots (subnet u) a = Ok k /\ k ∈ ru_remote_slots rs.

(** A TCP packet to a port its destination publishes; SSH always is. *)
Definition published (u : FirewallUser) (p : packet) : Prop :=
  exists i port, i ∈ fu_instances u /\ pk_daddr p = pi_address i /\ pk_l4 p = Tcp port /\
    (port = 22 \/ port ∈ pi_http_ports i \/
     exists r, r ∈ pi_port_ranges i /\ from_port r <= port <= to_port r).

(** A guest of [u] sends: from its own machine's addresses, never to a
    management address, never to another user's bridge, and only to its own
    user's guests or out of the private range. *)
Definition guest_may_send (rs : Ruleset) (slots : Slots) (u : FirewallUser) (p : packet) : Prop :=
  pk_iif p = bridge u /\ owned_here rs slots u (pk_saddr p) /\
  (pk_daddr p ∉ ru_management rs) /\
  (forall o, o ∈ ru_users rs -> pk_oif p = bridge o -> bridge o = bridge u) /\
  (pk_oif p = bridge u \/
   ru_underlay_peers rs = true /\ contains (subnet u) (pk_daddr p) = true \/
   contains (ru_private_range rs) (pk_daddr p) = false).

(** A packet from outside every user bridge reaches a guest of [u]: from the
    same user's guest on another machine, or from a frontend to a published
    port. *)
Definition guest_may_receive (rs : Ruleset) (slots : Slots) (u : FirewallUser) (p : packet) : Prop :=
  (forall o, o ∈ ru_users rs -> pk_iif p <> bridge o) /\ pk_oif p = bridge u /\
  (ru_underlay_peers rs = true /\ owned_elsewhere rs slots u (pk_saddr p) /\
     owned_here rs slots u (pk_daddr p) \/
   pk_saddr p ∈ ru_frontends rs /\ published u p).

Definition forward_allows (rs : Ruleset) (slots : Slots) (p : packet) : Prop :=
  pk_established p = true \/
  exists u, u ∈ ru_users rs /\ (guest_may_send rs slots u p \/ guest_may_receive rs slots u p).

(** 32-bit values, as the source's types force. *)
Definition wf_ruleset (rs : Ruleset) : Prop :=
  wf_prefix (ru_private_range rs) /\
  (forall u, u ∈ ru_users rs -> is_u32 (addr (subnet u))) /\
  (forall k, k ∈ ru_remote_slots rs -> 0 <= k).
Definition wf_packet (p : packet) : Prop := is_u32 (pk_saddr p) /\ is_u32 (pk_daddr p).

(** ** Lemmas *)

Lemma first_verdict_app p l1 l2 :
  first_verdict p (l1 ++ l2) =
  match first_verdict p l1 with Some v => Some v | None => first_verdict p l2 end.
Proof.
  induction l1 as [|[|ms v] l1 IH]; simpl; [done|done|]. by destruct (forallb _ ms).
Qed.

Lemma first_verdict_comment p c l : first_verdict p (Comment c :: l) = first_verdict p l.
Proof. done. Qed.

Lemma first_verdict_rule p ms v l :
  first_verdict p (Rule ms v :: l) =
  if forallb (matches p) ms then Some v else first_verdict p l.
Proof. done. Qed.

(** A block of rules with one verdict. *)
Definition all_verdict (v : verdict) (ls : list line) : Prop :=
  forall ms v', Rule ms v' ∈ ls -> v' = v.

Lemma first_verdict_block p v ls :
  all_verdict v ls ->
  first_verdict p ls = if existsb (hits p) ls then Some v else None.
Proof.
  induction ls as [|[c|ms v'] ls IH]; intros Hall; simpl; [done| |].
  - apply IH. intros ms v' ?. apply (Hall ms). set_solver.
  - destruct (forallb (matches p) ms); simpl.
    + f_equal. apply (Hall ms). set_solver.
    + apply IH. intros ms' v'' ?. apply (Hall ms'). set_solver.
Qed.

Lemma existsb_elem {A} (f : A -> bool) l : existsb f l = true <-> exists x, x ∈ l /\ f x = true.
Proof. rewrite existsb_exists. by setoid_rewrite list_elem_of_In. Qed.

Lemma elem_of_concat {A} (x : A) (ls : list (list A)) : x ∈ concat ls <-> exists l, l ∈ ls /\ x ∈ l.
Proof. rewrite list_elem_of_In, in_concat. by setoid_rewrite <-list_elem_of_In. Qed.

Lemma contains_masked p a : wf_prefix p -> is_u32 a -> contains (masked p) a = contains p a.
Proof.
  intros Hp Ha. apply eq_bool_prop_intro. rewrite !Is_true_true.
  pose proof (masked_addr p Hp) as Hm. pose proof (span_pos (bits p)) as Hs.
  destruct Hp as [Hpa Hpb].
  rewrite contains_spec, contains_spec; [|by split|done| |done].
  - rewrite Hm. change (bits (masked p)) with (bits p). by rewrite Z.div_mul by lia.
  - split; [|done]. rewrite Hm.
    pose proof (Z.mul_div_le (addr p) (span (bits p)) ltac:(lia)).
    assert (0 <= addr p / span (bits p)) by (apply Z.div_pos; int_lia).
    split; [apply Z.mul_nonneg_nonneg|]; int_lia.
Qed.

Lemma check_users_Ok seen l u :
  check_users seen l = Ok u ->
  NoDup (bridge <$> l) /\ forall x, x ∈ l -> bits (subnet x) = 24 /\ (bridge x ∉ seen) /\
    safe_interface_name (bridge x) = true /\
    forall i, i ∈ fu_instances x -> contains (subnet x) (pi_address i) = true.
Proof.
  revert seen. induction l as [|x l IH]; intros seen H; simpl in *; [split; [constructor|set_solver]|].
  result_inv. apply negb_false_iff in Hv. apply bool_decide_eq_false in Hv0.
  apply require_slash_24_Ok in Hv1. apply each_Ok in Hv2. rewrite Forall_forall in Hv2.
  apply IH in H as [Hnd Hl]. split.
  - constructor; [|done]. rewrite list_elem_of_fmap. intros (y & Heq & Hy).
    destruct (Hl y Hy) as (_ & Hn & _). set_solver.
  - intros y [->|Hy]%elem_of_cons.
    + split_and!; try done. intros i Hi. specialize (Hv2 i Hi). unfold check_instance in Hv2.
      result_inv. by apply negb_false_iff.
    + destruct (Hl y Hy) as (? & ? & ? & ?). split_and!; try done. set_solver.
Qed.

Lemma chains_Ok rs cs : chains rs = Ok cs -> wf_ruleset rs ->
  exists slots f, Slots_new (ru_runner_prefix rs) = Ok slots /\ wf_slots slots /\
    NoDup (bridge <$> sorted_users rs) /\
    (forall u, u ∈ ru_users rs -> wf_subnet (subnet u)) /\
    (forall k, k ∈ ru_remote_slots rs -> 0 <= k < count slots) /\
    forward_chain rs slots (sorted_users rs) = Ok f /\
    cs = [output_chain (sorted_users rs); input_chain (sorted_users rs); f;
          postrouting_chain (ru_private_range rs) (sorted_users rs)].
Proof.
  intros H (_ & Hu & Hk). unfold chains in H. apply bind_Ok in H as (_ & _ & H).
  apply bind_Ok in H as (slots & Hslots & H). apply bind_Ok in H as ([] & Hrem & H).
  apply bind_Ok in H as ([] & Hus & H). apply bind_Ok in H as (f & Hf & [= <-]).
  apply each_Ok in Hrem. rewrite Forall_forall in Hrem. apply check_users_Ok in Hus as [Hnd Hx].
  exists slots, f. pose proof Hslots as [_ Hs]%Slots_new_Ok. split_and!; try done.
  - intros u Hin. split; [by apply Hu|]. apply Hx. unfold sorted_users. by rewrite elem_of_sort_by.
  - intros k Hin. split; [by apply Hk|]. specialize (Hrem k Hin). by apply check_slot_Ok in Hrem.
Qed.

Lemma elem_of_users rs u : u ∈ sorted_users rs <-> u ∈ ru_users rs.
Proof. apply elem_of_sort_by. Qed.

(** The prefixes this machine owns cover exactly the addresses of its slots. *)
Lemma local_prefixes_cover rs slots u local a :
  wf_slots slots -> wf_subnet (subnet u) -> is_u32 a ->
  local_prefixes slots (subnet u) (btree_set Z.ltb (ru_remote_slots rs)) = Ok local ->
  addr_matches (AnyOf local) a = true <-> owned_here rs slots u a.
Proof.
  intros Hs Hn Ha. unfold local_prefixes, owned_here, addr_matches.
  set (remote := btree_set Z.ltb (ru_remote_slots rs)).
  assert (Hrem : forall k, k ∈ remote <-> k ∈ ru_remote_slots rs) by apply elem_of_btree_set.
  assert (Hslot : forall k, slot_of slots (subnet u) a = Ok k ->
    0 <= k < count slots /\ k = (a - addr (masked (subnet u))) / span (slot_bits slots)).
  { intros k Hk. apply slot_of_Ok in Hk as [Hc ->]; [|done..].
    apply subnet_contains in Hc; [|done..]. split; [|done].
    slots_case Hs; Z.to_euclidean_division_equations; lia. }
  case_bool_decide as Hnil; intros Hl.
  - injection Hl as <-. simpl. rewrite orb_false_r, contains_masked;
      [|by apply wf_subnet_prefix|done].
    split.
    + intros Hc. eexists. split; [by apply slot_of_Ok|]. rewrite <-Hrem, Hnil. set_solver.
    + intros (k & Hk & _). by apply slot_of_Ok in Hk as [? _].
  - rewrite existsb_elem. split.
    + intros (p & Hp & Hc). apply (mapM_Ok_elem _ _ _ p) in Hl. apply Hl in Hp as (k & Hk & Hkp).
      apply list_elem_of_filter in Hk as [Hnr [Hk1 Hk2]%elem_of_range].
      apply slot_prefix_Ok in Hkp as [_ ->]; [|done..].
      pose proof (slot_prefix_inside _ _ _ _ Hs Hn Ha (conj Hk1 Hk2) Hc) as Hcu.
      apply slot_prefix_contains in Hc; [|done..]. exists k. split; [by apply slot_of_Ok|].
      by rewrite <-Hrem.
    + intros (k & Hk & Hnr). destruct (Hslot k Hk) as [Hkr Hkq].
      apply slot_of_Ok in Hk as [Hcu _]; [|done..].
      eexists. split; [eapply (mapM_Ok_elem _ _ _ _ Hl); exists k; split|].
      * apply list_elem_of_filter. rewrite Hrem, elem_of_range. done.
      * apply slot_prefix_Ok; [done|done|lia|]. split; [lia|reflexivity].
      * by apply slot_prefix_contains.
Qed.

Lemma remote_prefixes_cover rs slots u far a :
  wf_slots slots -> wf_subnet (subnet u) -> is_u32 a ->
  (forall k, k ∈ ru_remote_slots rs -> 0 <= k < count slots) ->
  remote_prefixes slots (subnet u) (btree_set Z.ltb (ru_remote_slots rs)) = Ok far ->
  addr_matches (AnyOf far) a = true <-> owned_elsewhere rs slots u a.
Proof.
  intros Hs Hn Ha Hr Hl. unfold remote_prefixes, owned_elsewhere, addr_matches in *.
  rewrite existsb_elem. split.
  - intros (p & Hp & Hc). apply (mapM_Ok_elem _ _ _ p) in Hl. apply Hl in Hp as (k & Hk & Hkp).
    rewrite elem_of_btree_set in Hk. pose proof (Hr k Hk).
    apply slot_prefix_Ok in Hkp as [_ ->]; [|done|done|lia].
    pose proof (slot_prefix_inside _ _ _ _ Hs Hn Ha ltac:(eauto) Hc) as Hcu.
    apply slot_prefix_contains in Hc; [|done..]. exists k. split; [by apply slot_of_Ok|done].
  - intros (k & Hk & Hin). pose proof (Hr k Hin).
    apply slot_of_Ok in Hk as [Hcu Hkq]; [|done..].
    eexists. split; [eapply (mapM_Ok_elem _ _ _ _ Hl); exists k; split|].
    + by rewrite elem_of_btree_set.
    + apply slot_prefix_Ok; [done|done|lia|]. split; [lia|reflexivity].
    + by apply slot_prefix_contains.
Qed.

Lemma existsb_fmap {A B} (f : A -> B) (h : B -> bool) l :
  existsb h (f <$> l) = true <-> exists x, x ∈ l /\ h (f x) = true.
Proof. rewrite existsb_elem. setoid_rewrite list_elem_of_fmap. naive_solver. Qed.

Lemma existsb_concat {A} (h : A -> bool) ls :
  existsb h (concat ls) = true <-> exists l, l ∈ ls /\ existsb h l = true.
Proof.
  rewrite existsb_elem. setoid_rewrite elem_of_concat. setoid_rewrite existsb_elem. naive_solver.
Qed.

Lemma existsb_omap {A B} (f : A -> option B) (h : B -> bool) l :
  existsb h (omap f l) = true <-> exists x y, x ∈ l /\ f x = Some y /\ h y = true.
Proof. rewrite existsb_elem. setoid_rewrite list_elem_of_omap. naive_solver. Qed.

(** [hit] turns a statement that a block of rules is hit into one about its
    matches. *)
Ltac hit :=
  unfold hits, matches; cbn [forallb existsb orb];
  repeat first [rewrite andb_true_r | rewrite andb_true_iff | rewrite negb_true_iff |
                rewrite bool_decide_eq_true | rewrite bool_decide_eq_false].

Section Blocks.
Context (p : packet) (users : list FirewallUser).

Lemma hit_10 management :
  all_verdict Drop (rule_10 management users) /\
  (existsb (hits p) (rule_10 management users) = true <->
   exists u, u ∈ users /\ pk_iif p = bridge u /\ pk_daddr p ∈ management).
Proof.
  unfold rule_10. case_bool_decide as Hm; [subst; split; [intros ??; set_solver|set_solver]|].
  split.
  - intros ms v [?|(u & [= _ <-] & _)%list_elem_of_fmap]%elem_of_cons; done.
  - cbn [existsb hits orb]. rewrite existsb_fmap. split; intros (u & ? & Hh); exists u;
      revert Hh; hit; cbn [addr_matches]; rewrite ?bool_decide_eq_true; tauto.
Qed.

Lemma hit_3 :
  all_verdict Drop (rule_3 users) /\
  (existsb (hits p) (rule_3 users) = true <->
   exists u o, u ∈ users /\ o ∈ users /\ pk_iif p = bridge u /\ pk_oif p = bridge o /\
     bridge u <> bridge o).
Proof.
  unfold rule_3. split.
  - intros ms v [?|(l & (u & -> & _)%list_elem_of_fmap & Hin)%elem_of_concat]%elem_of_cons; [done|].
    apply list_elem_of_omap in Hin as (o & _ & Ho). case_bool_decide; by simplify_eq.
  - cbn [existsb hits orb]. rewrite existsb_concat. split.
    + intros (l & (u & -> & Hu)%list_elem_of_fmap & (o & y & Ho & Hy & Hh)%existsb_omap).
      case_bool_decide; simplify_eq. exists u, o. revert Hh. hit. tauto.
    + intros (u & o & Hu & Ho & Hi & Hof & Hne). eexists. split.
      { apply list_elem_of_fmap. exists u. by split; [reflexivity|]. }
      apply existsb_omap. exists o. eexists. split; [done|]. rewrite bool_decide_false by done.
      split; [reflexivity|]. hit. done.
Qed.

Lemma hit_4 :
  all_verdict Accept (rule_4 users) /\
  (existsb (hits p) (rule_4 users) = true <->
   exists u, u ∈ users /\ pk_iif p = bridge u /\ pk_oif p = bridge u).
Proof.
  unfold rule_4. split.
  - intros ms v [?|(u & [= _ <-] & _)%list_elem_of_fmap]%elem_of_cons; done.
  - cbn [existsb hits orb]. rewrite existsb_fmap.
    split; intros (u & ? & Hh); exists u; revert Hh; hit; tauto.
Qed.

Lemma hit_2b :
  all_verdict Accept (rule_2b users) /\
  (existsb (hits p) (rule_2b users) = true <->
   exists u, u ∈ users /\ pk_iif p = bridge u /\ contains (subnet u) (pk_daddr p) = true).
Proof.
  unfold rule_2b. split.
  - intros ms v [?|(u & [= _ <-] & _)%list_elem_of_fmap]%elem_of_cons; done.
  - cbn [existsb hits orb]. rewrite existsb_fmap.
    split; intros (u & ? & Hh); exists u; revert Hh; hit; cbn [addr_matches existsb];
      rewrite orb_false_r; tauto.
Qed.

Lemma hit_2 range : wf_prefix range -> wf_packet p ->
  all_verdict Accept (rule_2 range users) /\
  (existsb (hits p) (rule_2 range users) = true <->
   exists u, u ∈ users /\ pk_iif p = bridge u /\ contains range (pk_daddr p) = false).
Proof.
  intros Hr Hp. unfold rule_2. split.
  - intros ms v [?|(u & [= _ <-] & _)%list_elem_of_fmap]%elem_of_cons; done.
  - cbn [existsb hits orb]. rewrite existsb_fmap. split; intros (u & ? & Hh); exists u; revert Hh;
      hit; cbn [addr_matches existsb]; rewrite orb_false_r, contains_masked by (done || apply Hp); tauto.
Qed.

Lemma port_set_matches i port :
  matches p (port_set i) = true /\ pk_l4 p = Tcp port <->
  pk_l4 p = Tcp port /\ (port = 22 \/ port ∈ pi_http_ports i \/
     exists r, r ∈ pi_port_ranges i /\ from_port r <= port <= to_port r).
Proof.
  unfold port_set, matches, port_matches. destruct (pk_l4 p) as [q| |]; [|naive_solver..].
  rewrite orb_true_iff, bool_decide_eq_true, elem_of_btree_set, elem_of_cons, existsb_elem.
  setoid_rewrite elem_of_btree_set. setoid_rewrite andb_true_iff. setoid_rewrite Z.leb_le.
  naive_solver.
Qed.

Lemma hit_7 frontends :
  all_verdict Accept (rule_7 frontends users) /\
  (existsb (hits p) (rule_7 frontends users) = true <->
   exists u, u ∈ users /\ pk_oif p = bridge u /\ pk_saddr p ∈ frontends /\ published u p).
Proof.
  unfold rule_7. case_bool_decide as Hm; [subst; split; [intros ??; set_solver|set_solver]|].
  split.
  - intros ms v [?|(l & (u & -> & _)%list_elem_of_fmap & Hin)%elem_of_concat]%elem_of_cons; [done|].
    apply elem_of_concat in Hin as (l & (i & -> & _)%list_elem_of_fmap & Hin).
    apply list_elem_of_fmap in Hin as (f & [= _ <-] & _). done.
  - cbn [existsb hits orb]. rewrite existsb_concat. unfold published. split.
    + intros (l & (u & -> & Hu)%list_elem_of_fmap & Hh). apply existsb_concat in Hh as (l & Hl & Hh).
      apply list_elem_of_fmap in Hl as (i & -> & Hi). apply existsb_fmap in Hh as (f & Hf & Hh).
      unfold hits in Hh. cbn [forallb] in Hh. rewrite andb_true_r, !andb_true_iff in Hh.
      destruct Hh as (H1 & H2 & H3 & H4). cbn [matches addr_matches] in H1, H2, H3.
      apply Z.eqb_eq in H1, H3. apply bool_decide_eq_true in H2. exists u.
      split_and!; [done..|by rewrite H1|].
      destruct (pk_l4 p) as [port| |] eqn:Hl4; [|by unfold port_set, matches in H4; rewrite Hl4 in H4..].
      exists i, port. split_and!; [done..|]. apply (port_set_matches i port). by rewrite Hl4.
    + intros (u & Hu & Hof & Hfr & i & port & Hi & Hd & Hl4 & Hpo). eexists. split.
      { apply list_elem_of_fmap. exists u. by split; [reflexivity|]. }
      apply existsb_concat. eexists. split.
      { apply list_elem_of_fmap. exists i. by split; [reflexivity|]. }
      apply existsb_fmap. exists (pk_saddr p). split; [done|]. unfold hits. cbn [forallb].
      rewrite andb_true_r, !andb_true_iff. cbn [matches addr_matches].
      rewrite !Z.eqb_eq, bool_decide_eq_true. split_and!; try done.
      by apply (port_set_matches i port).
Qed.

Context (rs : Ruleset) (slots : Slots) (Hs : wf_slots slots) (Hp : wf_packet p).
Context (Hsub : forall u, u ∈ users -> wf_subnet (subnet u)).
Context (Hrem : forall k, k ∈ ru_remote_slots rs -> 0 <= k < count slots).

Lemma hit_9 r9 : rule_9 slots (btree_set Z.ltb (ru_remote_slots rs)) users = Ok r9 ->
  all_verdict Drop r9 /\
  (existsb (hits p) r9 = true <->
   exists u, u ∈ users /\ pk_iif p = bridge u /\ ~ owned_here rs slots u (pk_saddr p)).
Proof.
  intros H9. unfold rule_9 in H9. split.
  - intros ms v Hin. apply (mapM_Ok_elem _ _ _ _ H9) in Hin as (u & _ & Hu).
    apply bind_Ok in Hu as (? & _ & [= _ <-]). done.
  - rewrite existsb_elem. setoid_rewrite (mapM_Ok_elem _ _ _ _ H9). split.
    + intros (l & (u & Hu & (local & Hl & [= <-])%bind_Ok) & Hh). exists u. split; [done|].
      revert Hh. hit. intros [? Hno]. split; [done|].
      rewrite <-(local_prefixes_cover rs slots u local _ Hs (Hsub u Hu) (proj1 Hp) Hl). congruence.
    + intros (u & Hu & Hif & Hno).
      assert (exists local, local_prefixes slots (subnet u)
        (btree_set Z.ltb (ru_remote_slots rs)) = Ok local) as [local Hl].
      { apply mapM_Ok in H9. apply list_elem_of_lookup in Hu as [i Hi].
        destruct (Forall2_lookup_l _ _ _ _ _ H9 Hi) as (l & _ & (local & ? & _)%bind_Ok). eauto. }
      eexists. split; [exists u; split; [done|]; rewrite Hl; reflexivity|]. hit.
      split; [done|]. apply not_true_iff_false.
      by rewrite (local_prefixes_cover rs slots u local _ Hs (Hsub u Hu) (proj1 Hp) Hl).
Qed.

Lemma hit_6 r6 : rule_6 slots (btree_set Z.ltb (ru_remote_slots rs)) users = Ok r6 ->
  all_verdict Accept r6 /\
  (existsb (hits p) r6 = true <->
   exists u, u ∈ users /\ (pk_iif p ∉ bridge <$> users) /\ pk_oif p = bridge u /\
     owned_elsewhere rs slots u (pk_saddr p) /\ owned_here rs slots u (pk_daddr p)).
Proof.
  intros H6. unfold rule_6 in H6. apply bind_Ok in H6 as (ls & Hls & [= <-]). split.
  - intros ms v [?|(l & Hin & Hl)%elem_of_concat]%elem_of_cons; [done|].
    apply (mapM_Ok_elem _ _ _ _ Hls) in Hin as (u & _ & Hu).
    apply bind_Ok in Hu as (? & _ & (? & _ & [= <-])%bind_Ok).
    repeat case_bool_decide; simpl in Hl; set_solver.
  - cbn [existsb hits orb]. rewrite existsb_concat. split.
    + intros (l & Hin & Hh). apply (mapM_Ok_elem _ _ _ _ Hls) in Hin as (u & Hu & Hl).
      apply bind_Ok in Hl as (local & Hlo & (far & Hfa & [= <-])%bind_Ok).
      destruct (bool_decide (local = []) || bool_decide (far = [])); [done|].
      revert Hh. hit. rewrite orb_false_r. hit. intros (? & Hf & Hl & ?).
      apply (remote_prefixes_cover rs slots u far _ Hs (Hsub u Hu) (proj1 Hp) Hrem Hfa) in Hf.
      apply (local_prefixes_cover rs slots u local _ Hs (Hsub u Hu) (proj2 Hp) Hlo) in Hl.
      exists u. done.
    + intros (u & Hu & Hnb & Hof & Hf & Hl). pose proof Hls as Hf2. apply mapM_Ok in Hf2.
      apply list_elem_of_lookup in Hu as Hi. destruct Hi as [i Hi].
      destruct (Forall2_lookup_l _ _ _ _ _ Hf2 Hi) as (l & Hli & Hle).
      exists l. split; [by eapply list_elem_of_lookup_2|].
      apply bind_Ok in Hle as (local & Hlo & (far & Hfa & [= <-])%bind_Ok).
      apply (remote_prefixes_cover rs slots u far _ Hs (Hsub u Hu) (proj1 Hp) Hrem Hfa) in Hf.
      apply (local_prefixes_cover rs slots u local _ Hs (Hsub u Hu) (proj2 Hp) Hlo) in Hl.
      rewrite bool_decide_false by (intros ->; done). rewrite bool_decide_false by (intros ->; done).
      hit. rewrite orb_false_r. hit. done.
Qed.
End Blocks.

(** The forward chain, block by block. *)
Lemma forward_run rs slots f p : wf_slots slots -> wf_packet p -> wf_ruleset rs ->
  (forall u, u ∈ sorted_users rs -> wf_subnet (subnet u)) ->
  (forall k, k ∈ ru_remote_slots rs -> 0 <= k < count slots) ->
  forward_chain rs slots (sorted_users rs) = Ok f ->
  exists r9 r6,
    rule_9 slots (btree_set Z.ltb (ru_remote_slots rs)) (sorted_users rs) = Ok r9 /\
    (if ru_underlay_peers rs
     then rule_6 slots (btree_set Z.ltb (ru_remote_slots rs)) (sorted_users rs) else Ok []) = Ok r6 /\
    (run f p = Accept <-> pk_established p = true \/
      existsb (hits p) r9 = false /\
      existsb (hits p) (rule_10 (btree_set Z.ltb (ru_management rs)) (sorted_users rs)) = false /\
      existsb (hits p) (rule_3 (sorted_users rs)) = false /\
      (existsb (hits p) r6 = true \/
       existsb (hits p) (rule_7 (ru_frontends rs) (sorted_users rs)) = true \/
       existsb (hits p) (rule_4 (sorted_users rs)) = true \/
       ru_underlay_peers rs = true /\ existsb (hits p) (rule_2b (sorted_users rs)) = true \/
       existsb (hits p) (rule_2 (ru_private_range rs) (sorted_users rs)) = true)).
Proof.
  intros Hs Hp Hwf Hsub Hrem Hf. unfold forward_chain in Hf.
  apply bind_Ok in Hf as (r9 & H9 & (r6 & H6 & Hf)%bind_Ok). apply Ok_inj in Hf. subst f.
  exists r9, r6.
  split; [done|]. split; [done|]. unfold run. cbn [ch_policy ch_lines].
  rewrite first_verdict_rule, first_verdict_comment. cbn [forallb matches].
  rewrite andb_true_r. destruct (pk_established p); [simpl; tauto|].
  assert (A6 : all_verdict Accept r6).
  { destruct (ru_underlay_peers rs); [|injection H6 as <-; intros ??; set_solver].
    by eapply hit_6. }
  assert (A2b : all_verdict Accept (if ru_underlay_peers rs then rule_2b (sorted_users rs) else [])).
  { destruct (ru_underlay_peers rs); [apply (hit_2b p)|intros ??; set_solver]. }
  rewrite !first_verdict_app.
  rewrite (first_verdict_block p Drop r9) by (by eapply hit_9).
  rewrite (first_verdict_block p Drop (rule_10 _ _)) by apply (hit_10 p).
  rewrite (first_verdict_block p Drop (rule_3 _)) by apply (hit_3 p).
  rewrite (first_verdict_block p Accept r6) by done.
  rewrite (first_verdict_block p Accept (rule_7 _ _)) by apply (hit_7 p).
  rewrite (first_verdict_block p Accept (rule_4 _)) by apply (hit_4 p).
  rewrite (first_verdict_block p Accept
    (if ru_underlay_peers rs then rule_2b (sorted_users rs) else [])) by done.
  rewrite (first_verdict_block p Accept (rule_2 _ _)) by (apply (hit_2 p); [apply Hwf|done]).
  destruct (existsb _ r9); [simpl; clear; naive_solver|].
  destruct (existsb _ (rule_10 _ _)); [simpl; clear; naive_solver|].
  destruct (existsb _ (rule_3 _)); [simpl; clear; naive_solver|].
  destruct (existsb _ r6); [simpl; clear; naive_solver|].
  destruct (existsb _ (rule_7 _ _)); [simpl; clear; naive_solver|].
  destruct (existsb _ (rule_4 _)); [simpl; clear; naive_solver|].
  destruct (ru_underlay_peers rs), (existsb _ (rule_2b _)), (existsb _ (rule_2 _ _));
    simpl; clear; naive_solver.
Qed.

#[global] Instance owned_here_dec rs slots u a : Decision (owned_here rs slots u a).
Proof.
  unfold owned_here. destruct (slot_of slots (subnet u) a) as [k|e].
  - destruct (decide (k ∈ ru_remote_slots rs)); [right|left]; naive_solver.
  - right. naive_solver.
Defined.

Lemma bridge_inj rs : NoDup (bridge <$> sorted_users rs) ->
  forall u o, u ∈ ru_users rs -> o ∈ ru_users rs -> bridge u = bridge o -> u = o.
Proof.
  intros Hnd u o Hu Ho Heq. rewrite <-elem_of_users in Hu, Ho.
  apply list_elem_of_lookup in Hu as [i Hi], Ho as [j Hj].
  assert (i = j) as <-; [|congruence].
  eapply NoDup_lookup; [exact Hnd| |]; rewrite list_lookup_fmap, ?Hi, ?Hj; simpl; [done|congruence].
Qed.

Lemma hit_6_opt p rs slots :
  wf_slots slots -> wf_packet p ->
  (forall u, u ∈ sorted_users rs -> wf_subnet (subnet u)) ->
  (forall k, k ∈ ru_remote_slots rs -> 0 <= k < count slots) ->
  forall r6, (if ru_underlay_peers rs
     then rule_6 slots (btree_set Z.ltb (ru_remote_slots rs)) (sorted_users rs) else Ok []) = Ok r6 ->
  existsb (hits p) r6 = true <-> ru_underlay_peers rs = true /\
    exists u, u ∈ sorted_users rs /\ (pk_iif p ∉ bridge <$> sorted_users rs) /\
      pk_oif p = bridge u /\ owned_elsewhere rs slots u (pk_saddr p) /\
      owned_here rs slots u (pk_daddr p).
Proof.
  intros Hs Hp Hsub Hrem r6 H6. destruct (ru_underlay_peers rs).
  - rewrite (proj2 (hit_6 p _ rs slots Hs Hp Hsub Hrem r6 H6)). tauto.
  - injection H6 as <-. simpl. naive_solver.
Qed.

(** Chains with one group of rules per bridge: the group of the packet's
    bridge decides. *)
Lemma first_verdict_groups p key (f : FirewallUser -> list line) (g : FirewallUser -> verdict) users :
  (forall u, u ∈ users -> first_verdict p (f u) =
     if bool_decide (key = bridge u) then Some (g u) else None) ->
  first_verdict p (concat (f <$> users)) =
  g <$> find_first (fun u => bool_decide (key = bridge u)) users.
Proof.
  induction users as [|u users IH]; intros Hf; [done|]. cbn [fmap list_fmap concat find_first].
  rewrite first_verdict_app, Hf by set_solver. destruct (bool_decide (key = bridge u)); [done|].
  apply IH. set_solver.
Qed.

Lemma find_bridge rs key : NoDup (bridge <$> sorted_users rs) ->
  (exists u, u ∈ ru_users rs /\ key = bridge u /\
     find_first (fun u => bool_decide (key = bridge u)) (sorted_users rs) = Some u) \/
  ((forall u, u ∈ ru_users rs -> key <> bridge u) /\
     find_first (fun u => bool_decide (key = bridge u)) (sorted_users rs) = None).
Proof.
  intros Hnd. destruct (find_first _ _) as [u|] eqn:Hf.
  - left. exists u. apply find_first_elem in Hf as [Hin Hb]. rewrite elem_of_users in Hin.
    by apply bool_decide_eq_true in Hb.
  - right. split; [|done]. apply find_first_None in Hf. rewrite Forall_forall in Hf. intros u Hu.
    rewrite <-elem_of_users in Hu. specialize (Hf u Hu). by apply bool_decide_eq_false in Hf.
Qed.

Lemma hit_published p u :
  existsb (hits p) ((fun i => Rule [Oif (bridge u); Daddr (Exactly (pi_address i)); port_set i]
    Accept) <$> fu_instances u) = true <-> pk_oif p = bridge u /\ published u p.
Proof.
  rewrite existsb_fmap. unfold published, hits. cbn [forallb]. split.
  - intros (i & Hi & Hh). rewrite andb_true_r, !andb_true_iff in Hh. destruct Hh as (H2 & H3 & H4).
    cbn [matches addr_matches] in H2, H3. apply bool_decide_eq_true in H2. apply Z.eqb_eq in H3.
    split; [done|].
    destruct (pk_l4 p) as [port| |] eqn:Hl4; [|by unfold port_set, matches in H4; rewrite Hl4 in H4..].
    exists i, port. split_and!; [done..|]. apply (port_set_matches p i port). by rewrite Hl4.
  - intros (Hof & i & port & Hi & Hd & Hl4 & Hpo). exists i. split; [done|].
    rewrite andb_true_r, !andb_true_iff. cbn [matches addr_matches].
    rewrite Z.eqb_eq, bool_decide_eq_true. split_and!; try done.
    by apply (port_set_matches p i port).
Qed.

Lemma input_run rs p u : NoDup (bridge <$> sorted_users rs) ->
  u ∈ ru_users rs -> pk_iif p = bridge u ->
  run (input_chain (sorted_users rs)) p = Accept <-> pk_established p = true \/
    (exists t, pk_l4 p = Icmp t /\ t ∈ [8; 3; 11]) \/ pk_l4 p = Tcp 80 \/ pk_l4 p = Tcp 443.
Proof.
  intros Hnd Hu Hif. unfold run, input_chain. cbn [ch_policy ch_lines].
  rewrite first_verdict_rule, first_verdict_comment. cbn [forallb matches]. rewrite andb_true_r.
  destruct (pk_established p); [simpl; tauto|].
  rewrite (first_verdict_groups p (pk_iif p) _ (fun _ =>
    match pk_l4 p with
    | Icmp t => if bool_decide (t ∈ [8; 3; 11]) then Accept else Drop
    | Tcp port => if bool_decide (port ∈ [80; 443]) then Accept else Drop
    | OtherProto => Drop end)).
  2:{ intros o _. cbn [first_verdict forallb matches].
      unfold port_matches. cbn [existsb].
      destruct (bool_decide (pk_iif p = bridge o)), (pk_l4 p) as [port|t|]; [| |done..].
      - by destruct (bool_decide (port ∈ [80; 443])).
      - by destruct (bool_decide (t ∈ [8; 3; 11])). }
  destruct (find_bridge rs (pk_iif p) Hnd) as [(o & _ & _ & ->)|[Hno _]]; [|by destruct (Hno u)].
  simpl. destruct (pk_l4 p) as [port|t|]; [| |naive_solver].
  + case_bool_decide as Hin; rewrite !elem_of_cons, elem_of_nil in Hin; naive_solver.
  + case_bool_decide; naive_solver.
Qed.

Lemma output_run rs p u : NoDup (bridge <$> sorted_users rs) ->
  u ∈ ru_users rs -> pk_oif p = bridge u ->
  run (output_chain (sorted_users rs)) p = Accept <-> published u p.
Proof.
  intros Hnd Hu Hof. pose proof (bridge_inj rs Hnd) as Hinj. unfold run, output_chain. cbn [ch_policy ch_lines].
  rewrite first_verdict_comment.
  rewrite (first_verdict_groups p (pk_oif p) _ (fun u => if existsb (hits p)
    ((fun i => Rule [Oif (bridge u); Daddr (Exactly (pi_address i)); port_set i] Accept)
       <$> fu_instances u) then Accept else Drop)).
  2:{ intros o _. rewrite first_verdict_app, (first_verdict_block p Accept).
      2:{ intros ms v (i & [= _ <-] & _)%list_elem_of_fmap. done. }
      cbn [first_verdict forallb matches]. rewrite andb_true_r.
      pose proof (hit_published p o) as Hh. destruct (existsb _ _); [|by destruct (bool_decide _)].
      rewrite bool_decide_true by (by apply Hh). done. }
  destruct (find_bridge rs (pk_oif p) Hnd) as [(o & Ho & Hof' & ->)|[Hno _]]; [|by destruct (Hno u)].
  rewrite (Hinj o u) by (done || congruence). simpl. pose proof (hit_published p u) as Hh.
  destruct (existsb _ _); naive_solver.
Qed.

Lemma postrouting_run rs p : wf_ruleset rs -> wf_packet p ->
  run (postrouting_chain (ru_private_range rs) (sorted_users rs)) p = Masquerade <->
    (exists u, u ∈ ru_users rs /\ contains (subnet u) (pk_saddr p) = true) /\
    contains (ru_private_range rs) (pk_daddr p) = false.
Proof.
  intros Hwf Hp. unfold run, postrouting_chain. cbn [ch_policy ch_lines]. rewrite first_verdict_comment.
  rewrite (first_verdict_block p Masquerade).
  2:{ intros ms v (i & [= _ <-] & _)%list_elem_of_fmap. done. }
  assert (Hh : existsb (hits p) ((fun u => Rule [Saddr (AnyOf [subnet u]);
      DaddrNot (AnyOf [masked (ru_private_range rs)])] Masquerade) <$> sorted_users rs) = true <->
    (exists u, u ∈ ru_users rs /\ contains (subnet u) (pk_saddr p) = true) /\
     contains (ru_private_range rs) (pk_daddr p) = false).
  { rewrite existsb_fmap. setoid_rewrite elem_of_users. unfold hits.
    cbn [forallb matches addr_matches existsb]. rewrite contains_masked by (apply Hwf || apply Hp).
    split.
    - intros (u & Hu & Hh). rewrite !andb_true_iff, !orb_false_r, negb_true_iff in Hh.
      destruct Hh as (? & ? & _). eauto.
    - intros ((u & Hu & Hc') & Hd). exists u. split; [done|]. by rewrite Hc', Hd. }
  destruct (existsb _ _); simpl; naive_solver.
Qed.

(** ** Properties *)

(** The verdict of the forward chain, rule by rule. *)
Lemma forward_policy (rs : Ruleset) (cs : list chain) (p : packet) :
  chains rs = Ok cs -> wf_ruleset rs -> wf_packet p ->
  exists slots f, Slots_new (ru_runner_prefix rs) = Ok slots /\ cs !! 2%nat = Some f /\
    (run f p = Accept <-> forward_allows rs slots p).
Proof.
  intros Hc Hwf Hp.
  destruct (chains_Ok rs cs Hc Hwf) as (slots & f & Hslots & Hs & Hnd & Hsub & Hrem & Hf & ->).
  exists slots, f. split; [done|]. split; [done|].
  assert (Hsub' : forall u, u ∈ sorted_users rs -> wf_subnet (subnet u))
    by (intros u; rewrite elem_of_users; auto).
  destruct (forward_run rs slots f p Hs Hp Hwf Hsub' Hrem Hf) as (r9 & r6 & H9 & H6 & ->).
  pose proof (bridge_inj rs Hnd) as Hinj. apply or_iff_compat_l. rewrite <-!not_true_iff_false.
  rewrite (hit_6_opt p rs slots Hs Hp Hsub' Hrem r6 H6).
  rewrite (proj2 (hit_9 p _ rs slots Hs Hp Hsub' r9 H9)), (proj2 (hit_10 p _ _)), (proj2 (hit_3 p _)),
    (proj2 (hit_7 p _ _)), (proj2 (hit_4 p _)), (proj2 (hit_2b p _)),
    (proj2 (hit_2 p _ _ (proj1 Hwf) Hp)).
  setoid_rewrite elem_of_btree_set. repeat setoid_rewrite elem_of_users. unfold guest_may_send, guest_may_receive. split.
  - intros (N9 & N10 & N3 & Hacc).
    destruct (decide (Exists (fun u => pk_iif p = bridge u) (ru_users rs)))
      as [(u & Hu & Hif)%Exists_exists|Hno].
    + exists u. split; [done|]. left.
      assert (Ho : forall o, o ∈ ru_users rs -> pk_oif p = bridge o -> bridge o = bridge u).
      { intros o Hin Hof. destruct (decide (bridge o = bridge u)); [done|]. exfalso. eauto 8. }
      split_and!; [done| |naive_solver|done|].
      { destruct (decide (owned_here rs slots u (pk_saddr p))); [done|]. exfalso. eauto. }
      destruct Hacc as [(_ & o & _ & Hnb & _)|[(o & Hin & Hof & _)|[(o & Hin & Hif' & Hof)|
        [(Hun & o & Hin & Hif' & Hd)|(o & Hin & Hif' & Hd)]]]]; [| | |right; left|by right; right].
      * destruct Hnb. rewrite Hif. apply list_elem_of_fmap. setoid_rewrite elem_of_users. eauto.
      * left. rewrite Hof. auto.
      * left. congruence.
      * split; [done|]. rewrite (Hinj u o); [done..|congruence].
    + assert (Hnb : forall o, o ∈ ru_users rs -> pk_iif p <> bridge o)
        by (intros o Hin Hif; apply Hno, Exists_exists; eauto).
      destruct Hacc as [(Hun & u & Hin & _ & Hof & Hfar & Hl)|[(u & Hin & Hof & Hfr & Hpu)|Hacc]].
      * exists u. split; [done|]. right. auto 7.
      * exists u. split; [done|]. right. auto 7.
      * exfalso. naive_solver.
  - intros (u & Hu & [(Hif & Hown & Hman & Ho & Hacc)|(Hnb & Hof & Hacc)]).
    + split_and!.
      * intros (o & Hin & Hif' & Hno). apply Hno. by rewrite (Hinj o u); [..|congruence].
      * naive_solver.
      * intros (x & o & Hx & Hin & Hif' & Hof & Hne). apply Hne. rewrite (Ho o Hin Hof). congruence.
      * right. right. destruct Hacc as [Hof|[[Hun Hd]|Hd]]; [left|right; left|right; right]; eauto.
    + split_and!; [naive_solver..|].
      destruct Hacc as [(Hun & Hfar & Hl)|[Hfr Hpu]]; [left|right; left; eauto].
      split; [done|]. exists u. split_and!; try done.
      intros (o & Heq & Hin)%list_elem_of_fmap. apply elem_of_users in Hin. by apply (Hnb o).
Qed.

(** C12.  The rendered forward chain is exactly the policy: a packet is
    forwarded if and only if it belongs to an accepted connection, or it
    comes from a guest of some user that may send it, or it goes to a guest
    that may receive it.  In particular no new packet crosses from one user's
    bridge to another's, none enters a bridge with a source address outside
    the slots this machine owns, and none reaches a management address.  The
    packets of the model are IPv4 packets. *)
Theorem forward_is_policy (rs : Ruleset) (cs : list chain) (p : packet) :
  chains rs = Ok cs -> wf_ruleset rs -> wf_packet p ->
  exists slots f, Slots_new (ru_runner_prefix rs) = Ok slots /\ cs !! 2%nat = Some f /\
    (run f p = Accept <-> forward_allows rs slots p).
Proof. exact (forward_policy rs cs p). Qed.

Definition two_user_ruleset : Ruleset := mkRuleset (mkPrefix 172818432 16)
  [mkFirewallUser (mkUserNetwork "bento-user-2" "bento2" (mkPrefix 172818944 24))
     [mkPublished 172818946 [3000] []];
   mkFirewallUser (mkUserNetwork "bento-user-1" "bento1" (mkPrefix 172818688 24))
     [mkPublished 172818690 [80] [mkPortRange 3000 9999]]]
  true [167772348] 25 [1] [167772170].

Lemma wf_two_user_ruleset : wf_ruleset two_user_ruleset.
Proof.
  split; [split; simpl; int_lia|]. split; simpl.
  - intros u Hu. rewrite !elem_of_cons in Hu.
    destruct Hu as [->|[->|Hu]]; [simpl; int_lia..|inversion Hu].
  - intros k Hk. rewrite !elem_of_cons in Hk. destruct Hk as [->|Hk]; [lia|inversion Hk].
Qed.

Lemma forward_is_policy_witness :
  let p := mkPacket "bento1" "bento2" 172818690 172818946 (Tcp 80) false in
  exists cs slots f, chains two_user_ruleset = Ok cs /\ cs !! 2%nat = Some f /\
    run f p = Drop /\ ~ forward_allows two_user_ruleset slots p.
Proof.
  intros p. pose proof (forward_is_policy two_user_ruleset) as H.
  destruct (chains two_user_ruleset) as [cs|e] eqn:Hcs; [|vm_compute in Hcs; discriminate Hcs].
  destruct (H cs p eq_refl wf_two_user_ruleset) as (slots & f & Hs & Hf & Hiff).
  { split; vm_compute; split; congruence. }
  assert (Hrun : run f p = Drop).
  { vm_compute in Hcs. injection Hcs as <-. injection Hf as <-. reflexivity. }
  exists cs, slots, f. split; [reflexivity|]. split; [exact Hf|]. split; [exact Hrun|].
  intros Hall. apply Hiff in Hall. congruence.
Defined.

(**  The other three chains.  The host answers a guest only on accepted
    connections, basic ICMP and the public ports 80 and 443; it reaches a
    guest only on SSH and the ports the guest publishes; and it rewrites a
    source address only when a guest's packet leaves the private range, so
    guests always see each other's own addresses. *)
Theorem host_chains (rs : Ruleset) (cs : list chain) (p : packet) :
  chains rs = Ok cs -> wf_ruleset rs -> wf_packet p ->
  exists output input forward postrouting, cs = [output; input; forward; postrouting] /\
    (forall u, u ∈ ru_users rs -> pk_iif p = bridge u ->
       (run input p = Accept <-> pk_established p = true \/
          (exists t, pk_l4 p = Icmp t /\ t ∈ [8; 3; 11]) \/ pk_l4 p = Tcp 80 \/ pk_l4 p = Tcp 443)) /\
    (forall u, u ∈ ru_users rs -> pk_oif p = bridge u ->
       (run output p = Accept <-> published u p)) /\
    (run postrouting p = Masquerade <->
       (exists u, u ∈ ru_users rs /\ contains (subnet u) (pk_saddr p) = true) /\
       contains (ru_private_range rs) (pk_daddr p) = false).
Proof.
  intros Hc Hwf Hp.
  destruct (chains_Ok rs cs Hc Hwf) as (slots & f & _ & _ & Hnd & _ & _ & _ & ->).
  do 4 eexists. split; [reflexivity|]. split_and!.
  - intros u. by apply input_run.
  - intros u. by apply output_run.
  - by apply postrouting_run.
Qed.

Lemma host_chains_witness :
  let p := mkPacket "bento1" "eth0" 172818690 16843009 (Tcp 22) false in
  exists output input forward postrouting,
    chains two_user_ruleset = Ok [output; input; forward; postrouting] /\
    run input p = Drop /\ run postrouting p = Masquerade.
Proof.
  intros p. pose proof (host_chains two_user_ruleset) as H.
  destruct (chains two_user_ruleset) as [cs|e] eqn:Hcs; [|vm_compute in Hcs; discriminate Hcs].
  destruct (H cs p eq_refl wf_two_user_ruleset) as (o & i & f & post & -> & Hin & _ & Hpost).
  { split; vm_compute; split; congruence. }
  exists o, i, f, post. split; [reflexivity|]. split.
  - vm_compute in Hcs. injection Hcs as <- <- _ _. reflexivity.
  - apply Hpost. split; [|reflexivity]. eexists. split; [right; left|reflexivity].
Defined.
