(* ===== verification/Netstate.v ===== *)
(** * Netstate: [bentod/src/netstate.rs]

    What each machine's network should be, computed from the database: the
    routes to the slots other machines own, the bridges of the users with the
    instances the machine runs, the frontends that may reach them and the
    addresses no guest may reach.  [describe] is the computation between the
    five reads of [machine_network]; the reads themselves are calls of
    [Dispatch]. *)

From Stdlib Require Import ZArith Lia Ascii.
From S2P Require Import Prelude Text Float64 Types Ipv4 Network Machine Firewall.
Open Scope Z_scope.

(** ** [endpoint_host] of [crates/config/src/lib.rs] *)

(** [str::split_once] with a text. *)
Fixpoint split_once_text (sep s : string) : option (string * string) :=
  match strip_prefix sep s with
  | Some rest => Some (EmptyString, rest)
  | None =>
      match s with
      | EmptyString => None
      | String c s' =>
          match split_once_text sep s' with
          | Some (before, after) => Some (String c before, after)
          | None => None
          end
      end
  end.

Definition endpoint_host (endpoint : string) : option string :=
  let rest := match split_once_text "://" endpoint with Some (_, rest) => rest | None => endpoint end in
  let rest := default rest (head (split_on "/" rest)) in
  let host :=
    match rsplit_once ":" rest with
    | Some (host, port) => if str_all is_ascii_digit port then host else rest
    | None => rest
    end in
  let host := trim_end_matches (Ascii.eqb "]") (trim_start_matches (Ascii.eqb "[") host) in
  if bool_decide (host = EmptyString) then None else Some host.

(** ** The description of one machine *)

(** What the five reads answered. *)
Record Facts : Type := mkFacts {
  ft_deployment : Deployment;
  ft_hosts : list Host;
  ft_slots : list Slot;
  ft_instances : list Instance;
  ft_users : list User
}.

(** [hosts.iter().map(|host| (host.id, host)).collect()]. *)
Definition hosts_by_id (hosts : list Host) : gmap Z Host :=
  foldl (fun m h => <[h_id h := h]> m) ∅ hosts.

(** [host.underlay.as_deref().and_then(|text| text.parse().ok())]. *)
Definition underlay_address (h : Host) : option Z := h_underlay h ≫= parse_addr.

(** The loop over the slots: one route, or none. *)
Definition remote_slot (by_id : gmap Z Host) (host_id : Z) (slot : Slot) : option RemoteSlot :=
  if s_owner_host_id slot =? host_id then None
  else
    owner ← by_id !! s_owner_host_id slot;
    next_hop ← underlay_address owner;
    if bool_decide (s_state slot = SlMoving) then None
    else if (0 <=? s_slot slot) && (s_slot slot <=? u32_max)
    then Some (mkRemoteSlot (s_slot slot) next_hop) else None.

(** What one instance publishes. *)
Definition published_instance (high_ports : PortRange) (instance : Instance) (address : Z) : PublishedInstance :=
  match i_visibility instance with
  | Private | Public => mkPublished address [effective_http_port instance] [high_ports]
  | Off => mkPublished address [] []
  end.

(** One turn of the loop over the instances: [by_owner.entry(..).or_default().push(..)]. *)
Definition publish (high_ports : PortRange) (host_id : Z) (by_owner : gmap Z (list PublishedInstance))
    (instance : Instance) : gmap Z (list PublishedInstance) :=
  if negb (i_host_id instance =? host_id) then by_owner
  else
    match parse_addr (i_address instance) with
    | None => by_owner
    | Some address =>
        <[i_owner_id instance :=
            default [] (by_owner !! i_owner_id instance) ++ [published_instance high_ports instance address]]> by_owner
    end.

(** One turn of the loop over the users: the bridge, and [by_owner.remove(..)]. *)
Definition add_user (plan : Plan) (acc : list MachineUser * gmap Z (list PublishedInstance)) (user : User) :
    list MachineUser * gmap Z (list PublishedInstance) :=
  match parse_prefix (u_subnet user) with
  | None => acc
  | Some subnet =>
      match plan_index plan subnet with
      | Err _ => acc
      | Ok index =>
          (acc.1 ++ [mkMachineUser index subnet (default [] (acc.2 !! u_id user))], delete (u_id user) acc.2)
      end
  end.

(** The addresses of the machines that parse. *)
Definition management_of (h : Host) : list Z :=
  omap parse_addr (option_list (h_endpoint h ≫= endpoint_host) ++ option_list (h_underlay h)).

(** [Vec::dedup]: consecutive repeats go. *)
Fixpoint dedup (l : list Z) : list Z :=
  match l with
  | [] => []
  | x :: l' => match l' with
               | y :: _ => if x =? y then dedup l' else x :: dedup l'
               | [] => [x]
               end
  end.

Definition describe (facts : Facts) (plan : Plan) (high_ports : PortRange) (host_id controller_host_id : Z) :
    MachineNetwork :=
  let by_id := hosts_by_id (ft_hosts facts) in
  let remote_slots := omap (remote_slot by_id host_id) (ft_slots facts) in
  let by_owner := foldl (publish high_ports host_id) ∅ (ft_instances facts) in
  let users := (foldl (add_user plan) ([], by_owner) (ft_users facts)).1 in
  let frontends :=
    if host_id =? controller_host_id then []
    else option_list (by_id !! controller_host_id ≫= underlay_address) in
  let management := dedup (sort_by Z.ltb (ft_hosts facts ≫= management_of)) in
  mkMachineNetwork (plan_prefix plan) (runner_prefix (ft_deployment facts))
    (sort_by (fun a b => mu_index a <? mu_index b) users)
    (sort_by (fun a b => rs_slot a <? rs_slot b) remote_slots)
    frontends management.

(** ** The loops as comprehensions *)

(** What the instances of [owner] on the machine publish. *)
Definition published_of (high_ports : PortRange) (host_id owner : Z) (instances : list Instance) :
    list PublishedInstance :=
  omap (fun i => if (i_host_id i =? host_id) && (i_owner_id i =? owner)
                 then published_instance high_ports i <$> parse_addr (i_address i) else None) instances.

Lemma publish_all high_ports host_id instances m owner :
  default [] (foldl (publish high_ports host_id) m instances !! owner) =
  default [] (m !! owner) ++ published_of high_ports host_id owner instances.
Proof.
  revert m. induction instances as [|i instances IH]; intros m; simpl; [by rewrite app_nil_r|].
  rewrite IH. unfold publish. destruct (i_host_id i =? host_id); cbn [negb andb]; [|done].
  destruct (parse_addr (i_address i)) as [a|]; simpl; [|by destruct (i_owner_id i =? owner)].
  destruct (Z.eqb_spec (i_owner_id i) owner) as [->|Hne]; [|by rewrite lookup_insert_ne].
  rewrite lookup_insert_eq. simpl. by rewrite <-app_assoc.
Qed.

(** The bridge of one user, with what the user publishes here. *)
Definition machine_user (plan : Plan) (own : Z -> list PublishedInstance) (user : User) : option MachineUser :=
  subnet ← parse_prefix (u_subnet user);
  match plan_index plan subnet with
  | Ok index => Some (mkMachineUser index subnet (own (u_id user)))
  | Err _ => None
  end.

Lemma add_users plan users acc m :
  NoDup (u_id <$> users) ->
  (foldl (add_user plan) (acc, m) users).1 =
  acc ++ omap (machine_user plan (fun id => default [] (m !! id))) users.
Proof.
  revert acc m. induction users as [|u users IH]; intros acc m; simpl; [by rewrite app_nil_r|].
  intros [Hu Hnd]%NoDup_cons. unfold add_user at 2, machine_user at 1. simpl.
  destruct (parse_prefix (u_subnet u)) as [subnet|]; simpl; [|by apply IH].
  destruct (plan_index plan subnet) as [index|e]; [|by apply IH].
  rewrite IH by done. rewrite <-app_assoc. simpl. f_equal. f_equal.
  clear IH. induction users as [|v users IHv]; [done|]. simpl in Hu, Hnd.
  apply not_elem_of_cons in Hu as [Hv Hu]. apply NoDup_cons in Hnd as [_ Hnd]. simpl.
  unfold machine_user. destruct (parse_prefix (u_subnet v)); simpl; [|by apply IHv].
  destruct (plan_index _ _); [|by apply IHv]. rewrite lookup_delete_ne by done. f_equal. by apply IHv.
Qed.

Lemma describe_user facts plan high_ports host_id controller mu :
  NoDup (u_id <$> ft_users facts) ->
  mu ∈ mn_users (describe facts plan high_ports host_id controller) <->
  exists user, user ∈ ft_users facts /\
    machine_user plan (fun owner => published_of high_ports host_id owner (ft_instances facts)) user = Some mu.
Proof.
  intros Hnd. unfold describe. cbn [mn_users]. rewrite elem_of_sort_by, add_users by done. cbn [app].
  rewrite list_elem_of_omap. apply exist_proper. intros user. apply and_iff_compat_l.
  unfold machine_user. destruct (parse_prefix _); simpl; [|done]. destruct (plan_index _ _); [|done].
  by rewrite publish_all, lookup_empty.
Qed.

Lemma hosts_by_id_lookup hosts id h :
  NoDup (h_id <$> hosts) -> hosts_by_id hosts !! id = Some h <-> h ∈ hosts /\ h_id h = id.
Proof.
  unfold hosts_by_id. intros Hnd.
  enough (Hg : forall m : gmap Z Host, (forall k x, m !! k = Some x -> k ∉ h_id <$> hosts) ->
    foldl (fun m h => <[h_id h := h]> m) m hosts !! id = Some h <-> m !! id = Some h \/ (h ∈ hosts /\ h_id h = id)).
  { rewrite Hg; [|intros ?? Hl; by rewrite lookup_empty in Hl]. rewrite lookup_empty. naive_solver. }
  revert Hnd. induction hosts as [|x hosts IH]; simpl; intros Hnd m Hm; [set_solver|].
  apply NoDup_cons in Hnd as [Hx Hnd]. rewrite (IH Hnd).
  - destruct (decide (h_id x = id)) as [<-|Hne].
    + rewrite lookup_insert_eq. split.
      * intros [[= ->]|[? ?]]; [right; split; [left|done]|right; split; [by right|done]].
      * intros [Hl|[[->|?]%elem_of_cons ?]]; [|by left|by right].
        exfalso. eapply Hm; [exact Hl|]. left.
    + rewrite lookup_insert_ne by done. split; [naive_solver set_solver|].
      intros [?|[[->|?]%elem_of_cons ?]]; [by left|done|by right].
  - intros k y [[<- _]|[? Hl]]%lookup_insert_Some; [done|]. intros Hk. eapply Hm; [exact Hl|]. by right.
Qed.

Lemma elem_of_opt {A} (o : option A) x : x ∈ option_list o <-> o = Some x.
Proof. destruct o as [y|]; simpl; [rewrite list_elem_of_singleton; naive_solver|set_solver]. Qed.

Lemma elem_of_dedup l x : x ∈ dedup l <-> x ∈ l.
Proof.
  induction l as [|a l IH]; [done|]. simpl. destruct l as [|b l]; [done|].
  destruct (Z.eqb_spec a b) as [->|]; [rewrite IH; set_solver|]. rewrite !elem_of_cons, IH, elem_of_cons. done.
Qed.

(** ** Properties *)

(** A slot another machine should route, and where to. *)
Definition routed_to (facts : Facts) (host_id slot next_hop : Z) : Prop :=
  exists s owner, s ∈ ft_slots facts /\ owner ∈ ft_hosts facts /\ s_slot s = slot /\
    s_owner_host_id s = h_id owner /\ h_id owner <> host_id /\ s_state s <> SlMoving /\
    underlay_address owner = Some next_hop /\ 0 <= slot <= u32_max.

Lemma describe_remote facts plan high_ports host_id controller slot next_hop :
  NoDup (h_id <$> ft_hosts facts) ->
  mkRemoteSlot slot next_hop ∈ mn_remote_slots (describe facts plan high_ports host_id controller) <->
  routed_to facts host_id slot next_hop.
Proof.
  intros Hnd. unfold describe. cbn [mn_remote_slots]. rewrite elem_of_sort_by, list_elem_of_omap. split.
  - intros (s & Hs & Hr). unfold remote_slot in Hr. destruct (Z.eqb_spec (s_owner_host_id s) host_id); [done|].
    destruct (hosts_by_id _ !! _) as [owner|] eqn:Ho; [|done]. apply hosts_by_id_lookup in Ho as [Ho Hid]; [|done].
    simpl in Hr. destruct (underlay_address owner) as [a|] eqn:Hu; [|done]. simpl in Hr.
    case_bool_decide; [done|]. destruct (Z.leb_spec 0 (s_slot s)); [|done].
    destruct (Z.leb_spec (s_slot s) u32_max); [|done]. simplify_eq/=. exists s, owner. split_and!; congruence || lia || done.
  - intros (s & owner & Hs & Ho & <- & Hid & Hne & Hm & Hu & Hb). exists s. split; [done|]. unfold remote_slot.
    rewrite Hid. rewrite (proj2 (Z.eqb_neq _ _) Hne).
    rewrite (proj2 (hosts_by_id_lookup _ (h_id owner) owner Hnd)) by done. simpl. rewrite Hu. simpl.
    rewrite bool_decide_eq_false_2 by done. by rewrite (proj2 (Z.leb_le _ _) (proj1 Hb)), (proj2 (Z.leb_le _ _) (proj2 Hb)).
Qed.

(** Machines described from the same database agree on a slot: all of them
    route it to the underlay address of its owner, and the owner keeps it. *)
Theorem slot_routes_agree (facts : Facts) (plan : Plan) (high_ports : PortRange) (controller a k hop : Z) :
  NoDup (h_id <$> ft_hosts facts) -> NoDup (s_slot <$> ft_slots facts) ->
  mkRemoteSlot k hop ∈ mn_remote_slots (describe facts plan high_ports a controller) ->
  exists owner, owner ∈ ft_hosts facts /\ underlay_address owner = Some hop /\
    (forall hop', ~ mkRemoteSlot k hop' ∈ mn_remote_slots (describe facts plan high_ports (h_id owner) controller)) /\
    (forall b, b <> h_id owner ->
       mkRemoteSlot k hop ∈ mn_remote_slots (describe facts plan high_ports b controller)).
Proof.
  intros Hh Hs (s & owner & Hin & Ho & Hk & Hid & Hne & Hm & Hu & Hb)%describe_remote; [|done].
  exists owner. split; [done|]. split; [done|]. split.
  - intros hop' (s' & owner' & Hin' & Ho' & Hk' & Hid' & Hne' & _)%describe_remote; [|done].
    apply Hne'. rewrite <-Hid', <-Hid. apply list_elem_of_lookup in Hin as [i Hi], Hin' as [j Hj].
    assert (i = j) as ->; [|by simplify_eq].
    eapply NoDup_lookup; [exact Hs|rewrite list_lookup_fmap, Hi; by simpl|rewrite list_lookup_fmap, Hj; simpl; congruence].
  - intros b Hbo. apply describe_remote; [done|]. exists s, owner. split_and!; (done || congruence || lia).
Qed.

Lemma ruleset_user m fu :
  fu ∈ ru_users (ruleset m) <->
  exists mu, mu ∈ mn_users m /\
    fu = mkFirewallUser (mkUserNetwork ("bento-user-" +:+ dec_signed (mu_index mu))
                           ("bento" +:+ dec_signed (mu_index mu)) (mu_subnet mu)) (mu_instances mu).
Proof.
  unfold ruleset, networks. cbn [ru_users]. generalize (mn_users m). intros l.
  rewrite zip_with_fmap_l. rewrite list_elem_of_lookup. setoid_rewrite lookup_zip_with_Some. split.
  - intros (k & x & y & -> & Hx & Hy). simplify_eq. exists x. split; [by eapply list_elem_of_lookup_2|done].
  - intros (mu & [k Hk]%list_elem_of_lookup & ->). exists k, mu, mu. done.
Qed.

(** What the database says a frontend may open on this machine: SSH on any
    guest, and the published ports of the guests that are not hidden. *)
Definition db_publishes (facts : Facts) (plan : Plan) (high_ports : PortRange) (host_id : Z) (p : packet) : Prop :=
  exists user i subnet index port,
    user ∈ ft_users facts /\ parse_prefix (u_subnet user) = Some subnet /\ plan_index plan subnet = Ok index /\
    pk_oif p = "bento" +:+ dec_signed index /\
    i ∈ ft_instances facts /\ i_host_id i = host_id /\ i_owner_id i = u_id user /\
    parse_addr (i_address i) = Some (pk_daddr p) /\ pk_l4 p = Tcp port /\
    (port = 22 \/ i_visibility i <> Off /\
       (port = effective_http_port i \/ from_port high_ports <= port <= to_port high_ports)).

Lemma published_of_spec high_ports host_id owner instances pi :
  pi ∈ published_of high_ports host_id owner instances <->
  exists i a, i ∈ instances /\ i_host_id i = host_id /\ i_owner_id i = owner /\
    parse_addr (i_address i) = Some a /\ pi = published_instance high_ports i a.
Proof.
  unfold published_of. rewrite list_elem_of_omap. split.
  - intros (i & Hi & Hp). destruct (Z.eqb_spec (i_host_id i) host_id); [|done].
    destruct (Z.eqb_spec (i_owner_id i) owner); [|done]. simpl in Hp.
    destruct (parse_addr (i_address i)) as [a|] eqn:Ha; [|done]. simplify_eq/=. by exists i, a.
  - intros (i & a & Hi & Hh & Ho & Ha & ->). exists i. split; [done|].
    rewrite (proj2 (Z.eqb_eq _ _) Hh), (proj2 (Z.eqb_eq _ _) Ho), Ha. done.
Qed.

Lemma described_published facts plan high_ports host_id controller p :
  NoDup (u_id <$> ft_users facts) ->
  (exists fu, fu ∈ ru_users (ruleset (describe facts plan high_ports host_id controller)) /\
     pk_oif p = bridge fu /\ published fu p) <->
  db_publishes facts plan high_ports host_id p.
Proof.
  intros Hnd. setoid_rewrite ruleset_user. setoid_rewrite (describe_user _ _ _ _ _ _ Hnd). split.
  - intros (fu & (mu & (user & Hu & Hm) & ->) & Hoif & pi & port & Hpi & Hd & Hp & Hport).
    unfold machine_user in Hm. destruct (parse_prefix (u_subnet user)) as [subnet|] eqn:Hs; [|done]. simpl in Hm.
    destruct (plan_index plan subnet) as [index|] eqn:Hi; [|done]. simplify_eq/=.
    apply published_of_spec in Hpi as (i & a & Hin & Hh & Ho & Ha & ->).
    exists user, i, subnet, index, port. split_and!; try done.
    { rewrite Ha, Hd. by unfold published_instance; case_match. }
    unfold published_instance in Hport. destruct (i_visibility i); simpl in Hport; set_solver.
  - intros (user & i & subnet & index & port & Hu & Hs & Hi & Hoif & Hin & Hh & Ho & Ha & Hp & Hport).
    eexists. split; [eexists; split; [exists user; split; [done|]; unfold machine_user; rewrite Hs; simpl; by rewrite Hi|done]|].
    split; [done|]. exists (published_instance high_ports i (pk_daddr p)), port. cbn [fu_instances mu_instances].
    split; [apply published_of_spec; by exists i, (pk_daddr p)|].
    unfold published_instance. destruct (i_visibility i); simpl; (split; [done|split; [done|]]); set_solver.
Qed.

Lemma slot_of_inside s sub a k : slot_of s sub a = Ok k -> contains sub a = true.
Proof. unfold slot_of. intros Hs. result_inv. by destruct (contains sub a). Qed.

(** C4.  From the database to the packet.  Take the network the controller
    computes for a machine, and the rules the machine renders from it.  A new
    packet that comes neither from a user's bridge nor from a user's subnet is
    forwarded if and only if it comes from the underlay address of the machine
    that runs the frontends, this is another machine, and it goes over the
    owner's bridge to an instance this machine runs: to port 22, or, when the
    instance is private or public, to its HTTP port or a high port. *)
Theorem frontend_reaches_published (facts : Facts) (plan : Plan) (high_ports : PortRange)
    (host_id controller : Z) (cs : list chain) (p : packet) :
  let m := describe facts plan high_ports host_id controller in
  NoDup (u_id <$> ft_users facts) -> NoDup (h_id <$> ft_hosts facts) -> wf_prefix (plan_prefix plan) ->
  chains (ruleset m) = Ok cs -> wf_packet p -> pk_established p = false ->
  (forall fu, fu ∈ ru_users (ruleset m) ->
     pk_iif p <> bridge fu /\ contains (subnet fu) (pk_saddr p) = false) ->
  exists f, cs !! 2%nat = Some f /\
    (run f p = Accept <->
     host_id <> controller /\
     (exists c, c ∈ ft_hosts facts /\ h_id c = controller /\ underlay_address c = Some (pk_saddr p)) /\
     db_publishes facts plan high_ports host_id p).
Proof.
  intros m Hu Hh Hr Hc Hp He Hout.
  assert (Hwf : wf_ruleset (ruleset m)).
  { split; [exact Hr|]. split.
    - intros fu (mu & (user & _ & Hm)%describe_user & ->)%ruleset_user; [|done]. unfold machine_user in Hm.
      destruct (parse_prefix _) as [s|] eqn:Hs; [|done]. simpl in Hm. destruct (plan_index _ _); [|done].
      simplify_eq/=. by apply parse_prefix_wf in Hs as [? _].
    - intros k ([slot hop] & -> & Hk)%list_elem_of_fmap. apply describe_remote in Hk as (? & ? & Hk); [|done].
      cbn. lia. }
  destruct (forward_policy (ruleset m) cs p Hc Hwf Hp) as (slots & f & _ & Hf & Hiff).
  exists f. split; [done|]. rewrite Hiff, <-described_published by done. unfold forward_allows. rewrite He.
  assert (Hfr : pk_saddr p ∈ ru_frontends (ruleset m) <-> host_id <> controller /\
    exists c, c ∈ ft_hosts facts /\ h_id c = controller /\ underlay_address c = Some (pk_saddr p)).
  { cbn. destruct (Z.eqb_spec host_id controller); [set_solver|]. rewrite elem_of_opt, bind_Some.
    setoid_rewrite (hosts_by_id_lookup _ _ _ Hh). naive_solver. }
  split.
  - intros [?|(fu & Hfu & [(Hi & _)|(_ & Ho & [(_ & Hel & _)|[Hs Hpub]])])]; [done| | |].
    + by apply Hout in Hi.
    + apply Hout in Hfu as [_ Hfu]. destruct Hel as (k & Hk & _). apply slot_of_inside in Hk. congruence.
    + apply Hfr in Hs as [? ?]. split_and!; [done|done|by exists fu].
  - intros (Hne & Hs & fu & Hfu & Ho & Hpub). right. exists fu. split; [done|]. right.
    split; [intros o Ho'; by apply Hout|]. split; [done|]. right. split; [by apply Hfr|done].
Qed.

(** ** Witness: a guest behind the frontends of another machine *)

Definition two_hosts : list Host :=
  [mkHost 1 (Some "m1") "ctl" "" None (Some "192.168.0.1") true PlActive 0;
   mkHost 2 (Some "m2") "node" "" (Some "http://192.168.0.2:10443") (Some "192.168.0.2") true PlActive 0].
Definition web_guest : Instance :=
  mkInstance "u1" "web" 7 2 "debian" "abc" Running WantRunning "10.0.1.130" "52:54:00:00:00:01" 1 512 5 false false
    8080 Public 0 None (Some 1).
Definition one_guest : Facts :=
  mkFacts (mkDeployment 25) two_hosts
    [mkSlot 0 SlActive 1 1 None None None; mkSlot 1 SlActive 2 1 None None None] [web_guest]
    [mkUser 7 "ada" "ada@example.org" None "10.0.1.0/24" 0].
Definition plan_10 : Plan := mkPlan (mkPrefix 167772160 16).
Definition high_ports_1 : PortRange := mkPortRange 10000 10999.
Definition node_chains : list chain :=
  match chains (ruleset (describe one_guest plan_10 high_ports_1 2 1)) with Ok cs => cs | Err _ => [] end.
Definition from_frontend (port : Z) : packet := mkPacket "eth0" "bento1" 3232235521 167772546 (Tcp port) false.

Lemma frontend_reaches_published_witness :
  describe one_guest plan_10 high_ports_1 2 1 =
    mkMachineNetwork (mkPrefix 167772160 16) 25
      [mkMachineUser 1 (mkPrefix 167772416 24) [mkPublished 167772546 [8080] [high_ports_1]]]
      [mkRemoteSlot 0 3232235521] [3232235521] [3232235521; 3232235522] /\
  exists f, node_chains !! 2%nat = Some f /\ run f (from_frontend 80) = Drop /\
    ~ db_publishes one_guest plan_10 high_ports_1 2 (from_frontend 80).
Proof.
  split; [vm_compute; reflexivity|].
  destruct (frontend_reaches_published one_guest plan_10 high_ports_1 2 1 node_chains (from_frontend 80))
    as (f & Hf & Hiff).
  - vm_compute. repeat constructor. set_solver.
  - vm_compute. repeat constructor; set_solver.
  - split; vm_compute; split; congruence.
  - vm_compute. reflexivity.
  - split; vm_compute; split; congruence.
  - reflexivity.
  - intros fu Hfu. vm_compute in Hfu. apply list_elem_of_singleton in Hfu as ->. split; vm_compute; congruence.
  - exists f. split; [exact Hf|].
    assert (Hd : run f (from_frontend 80) = Drop) by (vm_compute in Hf; injection Hf as <-; vm_compute; reflexivity).
    split; [exact Hd|]. intros Hp. rewrite Hd in Hiff. enough (Drop = Accept) by congruence. apply Hiff.
    split; [lia|]. split; [|exact Hp]. exists (mkHost 1 (Some "m1") "ctl" "" None (Some "192.168.0.1") true PlActive 0).
    split; [left|]. split; [reflexivity|vm_compute; reflexivity].
Defined.
