(* ===== verification/Fence.v ===== *)
(** * Fence: [crates/runner/src/{protocol,fence,store,lib}.rs]

    What a runner remembers so that an old controller cannot drive it.  The
    wire types, the durable store behind the [FenceStore] trait, the decision
    [Fence::admit], and [serve_one], which runs one request against the fence
    and then the host, here as functions of the store; [FenceRuns] splits them
    into their statements and lets requests run at the same time.  The host
    (libvirt and the file system) is behind the [Host] trait and stays a
    parameter, as do the JSON and RFC 3339 encoders. *)

From Stdlib Require Import ZArith Lia.
From S2P Require Import Prelude Text Types Ipv4 Network Machine.
Open Scope Z_scope.

(** ** The protocol: [protocol.rs] *)

Definition PROTOCOL_VERSION : Z := 1.

Record InstanceRef : Type := mkInstanceRef { ir_uuid : string; ir_name : string }.
Record ImageRequest : Type := mkImageRequest {
  iq_name : string; iq_url : string; iq_have : option string
}.
Record RedefineRequest : Type := mkRedefine {
  rd_instance : InstanceRef; rd_previous_name : option string; rd_vcpu : Z; rd_memory_mib : Z;
  rd_nested : bool; rd_ksm : bool; rd_network : string; rd_mac : string
}.
(** [bento_cloudinit::Seed]. *)
Record Seed : Type := mkSeed {
  sd_instance_id : string; sd_hostname : string; sd_user_name : string;
  sd_authorized_keys : list string; sd_mac : string; sd_address_cidr : string;
  sd_gateway : string; sd_dns : string; sd_install_guest_agent : bool
}.
Record ProvisionRequest : Type := mkProvision {
  pv_instance : InstanceRef; pv_base_checksum : string; pv_disk_gib : Z; pv_vcpu : Z;
  pv_memory_mib : Z; pv_nested : bool; pv_ksm : bool; pv_network : string; pv_mac : string;
  pv_seed : Seed; pv_with_seed_iso : bool; pv_start : bool
}.

Inductive Operation : Type :=
  | OpHealth
  | OpCapabilities
  | OpInventory
  | OpSample
  | EnsureImage (image : ImageRequest)
  | ApplyNetwork (network : MachineNetwork)
  | ProvisionInstance (provision : ProvisionRequest)
  | StartInstance (instance : InstanceRef)
  | StopInstance (instance : InstanceRef)
  | RebootInstance (instance : InstanceRef)
  | RemoveInstance (instance : InstanceRef)
  | RedefineInstance (redefine : RedefineRequest)
  | ResizeDisk (instance : InstanceRef) (disk_gib : Z).

(** [Operation::mutates]. *)
Definition mutates (op : Operation) : bool :=
  match op with
  | OpHealth | OpCapabilities | OpInventory | OpSample => false
  | EnsureImage _ | ApplyNetwork _ | ProvisionInstance _ | StartInstance _ | StopInstance _
  | RebootInstance _ | RemoveInstance _ | RedefineInstance _ | ResizeDisk _ _ => true
  end.

Record ObjectFence : Type := mkObjectFence {
  of_object_id : string; of_generation : Z; of_digest : string
}.

Record Envelope : Type := mkEnvelope {
  e_protocol_version : Z;
  e_target_machine_id : option string;
  e_epoch : Z;
  e_holder_id : string;
  e_lease_expires_at : Z;
  e_sent_at : Z;
  e_request_id : string;
  e_object : option ObjectFence;
  e_op : Operation
}.

Record Health : Type := mkHealth {
  hl_protocol_version : Z; hl_machine_id : string; hl_hostname : string;
  hl_accepted_epoch : Z; hl_boot_id : string
}.
Record Capabilities : Type := mkCapabilities {
  cp_arch : string; cp_cpu_count : Z; cp_memory_total_mib : Z; cp_storage_total_gib : Z;
  cp_storage_available_gib : Z; cp_hypervisor_version : string
}.
Record Domain : Type := mkDomain { dm_uuid : string; dm_name : string; dm_state : State }.
Record CpuTimeSample : Type := mkCpuTime { ct_total : Z; ct_idle : Z }.
Record HostSample : Type := mkHostSample {
  hs_cpu : option CpuTimeSample; hs_memory_total_bytes : Z; hs_memory_available_bytes : Z;
  hs_storage_total_bytes : Z; hs_storage_available_bytes : Z; hs_cpu_count : Z
}.
Record DomainUsage : Type := mkDomainUsage {
  du_uuid : string; du_cpu_time_ns : Z; du_vcpus : Z; du_rss_kib : option Z;
  du_storage_used_bytes : Z
}.
Record Samples : Type := mkSamples { sm_host : HostSample; sm_domains : list DomainUsage }.

Inductive Reply : Type :=
  | ReHealth (h : Health)
  | ReCapabilities (c : Capabilities)
  | ReInventory (domains : list Domain)
  | ReSamples (s : Samples)
  | Changed (state : State)
  | NetworkApplied (bridges routes_added routes_removed routes_unchanged : Z)
  | Provisioned (state : State)
  | ImageReady (name checksum : string) (already_present : bool) (size : Z).

Inductive Refusal : Type :=
  | ProtocolVersion (yours theirs : Z)
  | WrongMachine (yours theirs : string)
  | UnaddressedChange
  | UnfencedChange
  | StaleGeneration (object_id : string) (yours theirs : Z)
  | GenerationConflict (object_id : string) (generation : Z)
  | StaleEpoch (yours theirs : Z)
  | LeaseExpired (at_ : string)
  | ClockUntrusted (skew_seconds : Z).

(** ** The durable store: the [FenceStore] trait *)

Inductive FenceError : Type := Sqlite (message : string) | TimeError (message : string).

(** [fence::Error]'s [Display]. *)
Definition fence_error_text (e : FenceError) : string :=
  match e with
  | Sqlite _ => "runner fence: sqlite"
  | TimeError m => "runner fence: " +:+ m
  end.

Class FenceStore (S : Type) : Type := {
  accepted_epoch : ST FenceError S Z;
  accept_epoch : Z -> ST FenceError S unit;
  outcome : string -> ST FenceError S (option string);
  record_outcome : string -> string -> ST FenceError S unit;
  object_generation : string -> ST FenceError S (option (Z * string));
  accept_object : string -> Z -> string -> ST FenceError S unit
}.

(** What a store remembers, and what the trait's comments promise of each
    method: a read answers from memory and changes nothing, a write that
    reports success is remembered, one that reports an error may or may not
    have happened, and nothing that was accepted is ever lowered. *)
Record Memory : Type := mkMemory {
  m_epoch : Z;
  m_objects : gmap string (Z * string);
  m_outcomes : gmap string string
}.

Definition mem_accept_epoch (epoch : Z) (m : Memory) : Memory :=
  mkMemory (Z.max (m_epoch m) epoch) (m_objects m) (m_outcomes m).
Definition mem_record (id out : string) (m : Memory) : Memory :=
  mkMemory (m_epoch m) (m_objects m) (<[id := out]> (m_outcomes m)).
Definition newer (old : option (Z * string)) (generation : Z) : bool :=
  match old with Some (g, _) => g <? generation | None => true end.
Definition mem_accept_object (id : string) (generation : Z) (digest : string) (m : Memory) : Memory :=
  if newer (m_objects m !! id) generation
  then mkMemory (m_epoch m) (<[id := (generation, digest)]> (m_objects m)) (m_outcomes m)
  else m.

Definition reads {S A} (view : S -> Memory) (op : ST FenceError S A) (answer : Memory -> A) : Prop :=
  forall s r s', op s = (r, s') ->
    view s' = view s /\ match r with Ok a => a = answer (view s) | Err _ => True end.
Definition writes {S} (view : S -> Memory) (op : ST FenceError S unit) (change : Memory -> Memory) : Prop :=
  forall s r s', op s = (r, s') ->
    match r with
    | Ok _ => view s' = change (view s)
    | Err _ => view s' = view s \/ view s' = change (view s)
    end.

Class FenceStoreLaws (S : Type) `{FenceStore S} : Type := {
  view : S -> Memory;
  accepted_epoch_reads : reads view accepted_epoch m_epoch;
  outcome_reads : forall id, reads view (outcome id) (fun m => m_outcomes m !! id);
  object_generation_reads : forall id,
    reads view (object_generation id) (fun m => m_objects m !! id);
  accept_epoch_writes : forall epoch, writes view (accept_epoch epoch) (mem_accept_epoch epoch);
  record_outcome_writes : forall id out, writes view (record_outcome id out) (mem_record id out);
  accept_object_writes : forall id g d,
    writes view (accept_object id g d) (mem_accept_object id g d)
}.

(** ** [SqliteFence]: [store.rs]

    The three tables, the clock that stamps an outcome, and the schedule of
    database failures: each statement takes the next entry, and fails when it
    is [true].  A failed statement changes no row. *)

Record SqliteFence : Type := mkSqlite {
  sq_epoch : Z;
  sq_objects : gmap string (Z * string);
  sq_outcomes : gmap string (string * string);
  sq_now : Z;
  sq_faults : list bool
}.

Definition with_faults (s : SqliteFence) (faults : list bool) : SqliteFence :=
  mkSqlite (sq_epoch s) (sq_objects s) (sq_outcomes s) (sq_now s) faults.

Definition statement {A} (f : SqliteFence -> A * SqliteFence) : ST FenceError SqliteFence A :=
  fun s =>
    match sq_faults s with
    | true :: faults => (Err (Sqlite "disk I/O error"), with_faults s faults)
    | false :: faults => let '(a, s') := f s in (Ok a, with_faults s' faults)
    | [] => let '(a, s') := f s in (Ok a, s')
    end.

(** The database [SqliteFence::open] leaves when the file is new. *)
Definition sqlite_new (now : Z) (faults : list bool) : SqliteFence :=
  mkSqlite 0 ∅ ∅ now faults.

Section Sqlite.
Context (rfc3339 : Z -> result string string).

(** [UPDATE fence SET accepted_epoch = MAX(accepted_epoch, ?)]. *)
Definition sqlite_accept_epoch (epoch : Z) : ST FenceError SqliteFence unit :=
  statement (fun s => (tt, mkSqlite (Z.max (sq_epoch s) epoch) (sq_objects s) (sq_outcomes s)
                             (sq_now s) (sq_faults s))).

(** [INSERT ... ON CONFLICT DO UPDATE ... WHERE excluded.generation >
    object_generations.generation]. *)
Definition sqlite_accept_object (id : string) (generation : Z) (digest : string) :
    ST FenceError SqliteFence unit :=
  statement (fun s =>
    let objects :=
      match sq_objects s !! id with
      | None => <[id := (generation, digest)]> (sq_objects s)
      | Some (g, _) =>
          if g <? generation then <[id := (generation, digest)]> (sq_objects s) else sq_objects s
      end in
    (tt, mkSqlite (sq_epoch s) objects (sq_outcomes s) (sq_now s) (sq_faults s))).

(** [INSERT OR REPLACE INTO request_outcomes]. *)
Definition sqlite_record_outcome (id out : string) : ST FenceError SqliteFence unit :=
  fun s =>
    match rfc3339 (sq_now s) with
    | Err m => (Err (TimeError m), s)
    | Ok finished_at =>
        statement (fun s => (tt, mkSqlite (sq_epoch s) (sq_objects s)
          (<[id := (out, finished_at)]> (sq_outcomes s)) (sq_now s) (sq_faults s))) s
    end.

#[global] Instance SqliteFence_store : FenceStore SqliteFence := {|
  accepted_epoch := statement (fun s => (sq_epoch s, s));
  accept_epoch := sqlite_accept_epoch;
  outcome := fun id => statement (fun s => (fst <$> sq_outcomes s !! id, s));
  record_outcome := sqlite_record_outcome;
  object_generation := fun id => statement (fun s => (sq_objects s !! id, s));
  accept_object := sqlite_accept_object
|}.

Definition sqlite_view (s : SqliteFence) : Memory :=
  mkMemory (sq_epoch s) (sq_objects s) (fst <$> sq_outcomes s).

Lemma sqlite_view_faults s fs : sqlite_view (with_faults s fs) = sqlite_view s.
Proof. done. Qed.

Lemma statement_reads {A} (f : SqliteFence -> A) answer :
  (forall s, f s = answer (sqlite_view s)) ->
  reads sqlite_view (statement (fun s => (f s, s))) answer.
Proof.
  intros Hf s r s' Hrun. unfold statement in Hrun.
  destruct (sq_faults s) as [|[] fs]; simplify_eq; rewrite ?sqlite_view_faults; auto.
Qed.

Lemma statement_writes f change :
  (forall s, sqlite_view (f s) = change (sqlite_view s)) ->
  writes sqlite_view (statement (fun s => (tt, f s))) change.
Proof.
  intros Hf s r s' Hrun. unfold statement in Hrun.
  destruct (sq_faults s) as [|[] fs]; simplify_eq; rewrite ?sqlite_view_faults; auto.
Qed.

(** The SQL of [store.rs] keeps the promises of the trait. *)
#[global] Program Instance SqliteFence_laws : FenceStoreLaws SqliteFence := {| view := sqlite_view |}.
Next Obligation. by apply statement_reads. Qed.
Next Obligation. intros id. apply statement_reads. intros s. simpl. by rewrite lookup_fmap. Qed.
Next Obligation. intros id. by apply statement_reads. Qed.
Next Obligation. intros epoch. by apply statement_writes. Qed.
Next Obligation.
  intros id out s r s' Hrun. cbn in Hrun. unfold sqlite_record_outcome in Hrun.
  destruct (rfc3339 (sq_now s)) as [at_|m]; [|simplify_eq; auto]. revert s r s' Hrun.
  apply statement_writes. intros s. unfold sqlite_view, mem_record. cbn. by rewrite fmap_insert.
Qed.
Next Obligation.
  intros id g d. apply statement_writes. intros s. unfold sqlite_view, mem_accept_object. cbn.
  destruct (sq_objects s !! id) as [[g' d']|]; cbn; [destruct (g' <? g)|]; done.
Qed.
End Sqlite.

(** ** The fence: [fence.rs] *)

Definition DEFAULT_MAX_SKEW : Z := 60.

(** The configuration of a [Fence]; [max_skew] in whole seconds. *)
Record FenceConfig : Type := mkFence { f_machine_id : string; f_max_skew : Z }.

Inductive Admission : Type :=
  | Allowed
  | AlreadyDone (recorded : string)
  | Refused (why : Refusal).

(** [Duration::whole_seconds] truncates toward zero. *)
Definition whole_seconds (nanos : Z) : Z := Z.quot nanos nanos_per_sec.

(** The two checks that come before the store is asked. *)
Definition misaddressed (cfg : FenceConfig) (env : Envelope) (mutates_ : bool) : option Refusal :=
  if negb (e_protocol_version env =? PROTOCOL_VERSION)
  then Some (ProtocolVersion (e_protocol_version env) PROTOCOL_VERSION)
  else
    match e_target_machine_id env with
    | Some target =>
        if negb (bool_decide (target = f_machine_id cfg))
        then Some (WrongMachine target (f_machine_id cfg)) else None
    | None => if mutates_ then Some UnaddressedChange else None
    end.

(** An object's history: a late order, or one that disagrees. *)
Definition object_refusal (object : ObjectFence) (known : option (Z * string)) : option Refusal :=
  match known with
  | Some (accepted, digest) =>
      if of_generation object <? accepted
      then Some (StaleGeneration (of_object_id object) (of_generation object) accepted)
      else if (of_generation object =? accepted) && negb (bool_decide (of_digest object = digest))
      then Some (GenerationConflict (of_object_id object) (of_generation object))
      else None
  | None => None
  end.

(** The host trait: what a runner can do to its machine, over a world [H]. *)
Record Host (H : Type) : Type := mkHostOps {
  health : ST string H Health;
  capabilities : ST string H Capabilities;
  inventory : ST string H (list Domain);
  sample : ST string H Samples;
  ensure_image : ImageRequest -> ST string H Reply;
  apply_network : MachineNetwork -> ST string H Reply;
  provision : ProvisionRequest -> ST string H Reply;
  start : InstanceRef -> ST string H State;
  stop : InstanceRef -> ST string H State;
  reboot : InstanceRef -> ST string H State;
  remove_ : InstanceRef -> ST string H State;
  redefine : RedefineRequest -> ST string H State;
  resize_disk : InstanceRef -> Z -> ST string H State
}.
Arguments health {H}. Arguments capabilities {H}. Arguments inventory {H}. Arguments sample {H}.
Arguments ensure_image {H}. Arguments apply_network {H}. Arguments provision {H}.
Arguments start {H}. Arguments stop {H}. Arguments reboot {H}. Arguments remove_ {H}.
Arguments redefine {H}. Arguments resize_disk {H}.

Inductive Outcome : Type :=
  | Done (reply : Reply)
  | Replayed (recorded : string)
  | OutRefused (why : Refusal).

Section Serve.
Context {S H : Type} {FS : FenceStore S} (host : Host H).
Context (rfc3339 : Z -> result string string) (to_json : Reply -> result string string).
Context (cfg : FenceConfig).

(** [Fence::admit_as]; [now] is the runner's clock at the call. *)
Definition admit_as (now : Z) (env : Envelope) (mutates_ : bool) : ST FenceError S Admission :=
  match misaddressed cfg env mutates_ with
  | Some why => mret (Refused why)
  | None =>
      accepted ← accepted_epoch;
      if e_epoch env <? accepted then mret (Refused (StaleEpoch (e_epoch env) accepted))
      else
        let skew := whole_seconds (now - e_sent_at env) in
        if f_max_skew cfg <? Z.abs skew then mret (Refused (ClockUntrusted skew))
        else if e_lease_expires_at env <=? now then
          match rfc3339 (e_lease_expires_at env) with
          | Ok at_ => mret (Refused (LeaseExpired at_))
          | Err m => fail (TimeError m)
          end
        else if negb mutates_ then mret Allowed
        else
          match e_object env with
          | None => mret (Refused UnfencedChange)
          | Some object =>
              known ← object_generation (of_object_id object);
              match object_refusal object known with
              | Some why => mret (Refused why)
              | None =>
                  recorded ← outcome (e_request_id env);
                  match recorded with
                  | Some out => mret (AlreadyDone out)
                  | None =>
                      _ ← accept_epoch (e_epoch env);
                      _ ← accept_object (of_object_id object) (of_generation object)
                            (of_digest object);
                      mret Allowed
                  end
              end
          end
  end.

(** [Fence::admit]. *)
Definition fence_admit (now : Z) (env : Envelope) : ST FenceError S Admission :=
  admit_as now env (mutates (e_op env)).

(** [Fence::finish]. *)
Definition finish (request_id out : string) : ST FenceError S unit := record_outcome request_id out.

(** A fence call and a host call inside [serve_one]. *)
Definition on_fence {A} (m : ST FenceError S A) : ST string (S * H) A :=
  fun w => let '(r, s') := m w.1 in (map_err fence_error_text r, (s', w.2)).
Definition on_host {A} (m : ST string H A) : ST string (S * H) A :=
  fun w => let '(r, h') := m w.2 in (r, (w.1, h')).

(** The operation itself, once admitted. *)
Definition perform (op : Operation) : ST string H Reply :=
  match op with
  | OpHealth => h ← health host; mret (ReHealth h)
  | OpCapabilities => c ← capabilities host; mret (ReCapabilities c)
  | OpInventory => d ← inventory host; mret (ReInventory d)
  | OpSample => s ← sample host; mret (ReSamples s)
  | EnsureImage image => ensure_image host image
  | ApplyNetwork network => apply_network host network
  | ProvisionInstance p => provision host p
  | StartInstance i => s ← start host i; mret (Changed s)
  | StopInstance i => s ← stop host i; mret (Changed s)
  | RebootInstance i => s ← reboot host i; mret (Changed s)
  | RemoveInstance i => s ← remove_ host i; mret (Changed s)
  | RedefineInstance r => s ← redefine host r; mret (Changed s)
  | ResizeDisk i disk_gib => s ← resize_disk host i disk_gib; mret (Changed s)
  end.

(** The [Admission::Allowed] arm of [serve_one]: run, then record. *)
Definition run_allowed (env : Envelope) : ST string (S * H) Outcome :=
  reply ← on_host (perform (e_op env));
  (if mutates (e_op env) then
     recorded ← (fun w => (to_json reply, w)) : ST string (S * H) string;
     on_fence (finish (e_request_id env) recorded)
   else mret tt) ≫= fun _ =>
  mret (Done reply).

(** [serve_one]. *)
Definition serve_one (now : Z) (env : Envelope) : ST string (S * H) Outcome :=
  admission ← on_fence (fence_admit now env);
  match admission with
  | Refused why => mret (OutRefused why)
  | AlreadyDone recorded => mret (Replayed recorded)
  | Allowed => run_allowed env
  end.
End Serve.

(** The status [rpc] of [server.rs] answers with. *)
Definition rpc_status (envelope_parses : bool) (r : result string Outcome) : Z :=
  if negb envelope_parses then 400
  else match r with
       | Ok (Done _) | Ok (Replayed _) => 200
       | Ok (OutRefused _) => 409
       | Err _ => 500
       end.

(** ** What a store never forgets *)

(** [mem_le m m']: [m'] remembers at least what [m] did. *)
Definition mem_le (m m' : Memory) : Prop :=
  m_epoch m <= m_epoch m' /\
  (forall id g d, m_objects m !! id = Some (g, d) ->
     exists g' d', m_objects m' !! id = Some (g', d') /\ g <= g' /\ (g = g' -> d = d')) /\
  (forall id, is_Some (m_outcomes m !! id) -> is_Some (m_outcomes m' !! id)).

#[global] Instance mem_le_preorder : PreOrder mem_le.
Proof.
  split.
  - intros m. split_and!; [lia|eauto with lia|done].
  - intros m1 m2 m3 (E1 & O1 & R1) (E2 & O2 & R2). split_and!; [lia| |auto].
    intros id g d Hg. destruct (O1 id g d Hg) as (g' & d' & Hg' & ? & ?).
    destruct (O2 id g' d' Hg') as (g'' & d'' & ? & ? & ?). exists g'', d''.
    split_and!; [done|lia|]. intros ->. assert (g' = g'') as <- by lia. naive_solver.
Qed.

Lemma mem_accept_epoch_le epoch m : mem_le m (mem_accept_epoch epoch m).
Proof. split_and!; simpl; [lia|eauto with lia|done]. Qed.

Lemma mem_record_le id out m : mem_le m (mem_record id out m).
Proof.
  split_and!; simpl; [lia|eauto with lia|]. intros id' Hs.
  destruct (decide (id' = id)) as [->|]; [rewrite lookup_insert_eq|rewrite lookup_insert_ne]; eauto.
Qed.

Lemma mem_accept_object_le id g d m : mem_le m (mem_accept_object id g d m).
Proof.
  unfold mem_accept_object. destruct (newer _ g) eqn:Hn; [|reflexivity].
  split_and!; simpl; [lia| |done]. intros id' g' d' Hl.
  destruct (decide (id' = id)) as [->|]; [|rewrite lookup_insert_ne by done; eauto with lia].
  rewrite lookup_insert_eq. rewrite Hl in Hn. simpl in Hn. apply Z.ltb_lt in Hn.
  exists g, d. split_and!; [done|lia|lia].
Qed.

#[export] Hint Resolve mem_accept_epoch_le mem_record_le mem_accept_object_le : bento_st.

(** After an admitted change its object carries its generation and digest. *)
Lemma accepted_change object epoch m :
  object_refusal object (m_objects m !! of_object_id object) = None ->
  let m' := mem_accept_object (of_object_id object) (of_generation object) (of_digest object)
              (mem_accept_epoch epoch m) in
  m_objects m' !! of_object_id object = Some (of_generation object, of_digest object) /\
  m_epoch m' = Z.max (m_epoch m) epoch /\ m_outcomes m' = m_outcomes m.
Proof.
  intros Href m'. subst m'. unfold mem_accept_object. cbn [mem_accept_epoch m_objects].
  destruct (m_objects m !! of_object_id object) as [[g d]|] eqn:Hl; simpl in *.
  - destruct (Z.ltb_spec (of_generation object) g); [done|].
    destruct (Z.ltb_spec g (of_generation object)); simpl; [by rewrite lookup_insert_eq|].
    assert (Hg : of_generation object = g) by lia. rewrite Hg, Z.eqb_refl in Href. simpl in Href.
    case_bool_decide as Hd; [|done]. by rewrite Hl, Hd, Hg.
  - by rewrite lookup_insert_eq.
Qed.

Section Laws.
Context {S : Type} {FS : FenceStore S} {FL : FenceStoreLaws S}.
Context (rfc3339 : Z -> result string string) (cfg : FenceConfig).

(** What an admitted request has shown, and what admitting it recorded. *)
Lemma admit_Allowed now env s s' :
  fence_admit rfc3339 cfg now env s = (Ok Allowed, s') ->
  misaddressed cfg env (mutates (e_op env)) = None /\ m_epoch (view s) <= e_epoch env /\
  Z.abs (whole_seconds (now - e_sent_at env)) <= f_max_skew cfg /\
  now < e_lease_expires_at env /\
  if mutates (e_op env) then
    exists object, e_object env = Some object /\
      object_refusal object (m_objects (view s) !! of_object_id object) = None /\
      m_outcomes (view s) !! e_request_id env = None /\
      view s' = mem_accept_object (of_object_id object) (of_generation object) (of_digest object)
                  (mem_accept_epoch (e_epoch env) (view s))
  else view s' = view s.
Proof.
  unfold fence_admit, admit_as. destruct (misaddressed _ _ _) eqn:Hm; [done|].
  intros [(a & s1 & R1 & Hr)|(? & _ & ?)]%ST_bind_run; [|done].
  apply accepted_epoch_reads in R1 as [V1 ->].
  destruct (Z.ltb_spec (e_epoch env) (m_epoch (view s))); [done|].
  destruct (Z.ltb_spec (f_max_skew cfg) (Z.abs (whole_seconds (now - e_sent_at env)))); [done|].
  destruct (Z.leb_spec (e_lease_expires_at env) now); [by destruct (rfc3339 _)|].
  split; [done|]. split; [lia|]. split; [lia|]. split; [lia|].
  destruct (mutates (e_op env)); cbn [negb] in Hr; [|by injection Hr as <-].
  destruct (e_object env) as [object|]; [|done]. exists object. split; [done|].
  apply ST_bind_run in Hr as [(known & s2 & R2 & Hr)|(? & _ & ?)]; [|done].
  apply object_generation_reads in R2 as [V2 ->]. rewrite V1 in V2, Hr.
  destruct (object_refusal _ _); [done|]. split; [done|].
  apply ST_bind_run in Hr as [(rec & s3 & R3 & Hr)|(? & _ & ?)]; [|done].
  apply outcome_reads in R3 as [V3 ->]. rewrite V2 in V3, Hr.
  destruct (m_outcomes (view s) !! e_request_id env); [done|]. split; [done|].
  apply ST_bind_run in Hr as [([] & s4 & R4 & Hr)|(? & _ & ?)]; [|done].
  apply ST_bind_run in Hr as [([] & s5 & R5 & Hr)|(? & _ & ?)]; [|done].
  apply accept_epoch_writes in R4. apply accept_object_writes in R5. injection Hr as <-.
  by rewrite R5, R4, V3.
Qed.

(** A request that is not admitted changes nothing in memory, unless the store
    failed while recording it. *)
Lemma admit_not_Allowed now env s a s' :
  fence_admit rfc3339 cfg now env s = (Ok a, s') -> a <> Allowed -> view s' = view s.
Proof.
  unfold fence_admit, admit_as. intros Hr Ha. revert Hr.
  destruct (misaddressed _ _ _); [by intros [= _ <-]|].
  intros [(z & s1 & R1 & Hr)|(? & _ & ?)]%ST_bind_run; [|done].
  apply accepted_epoch_reads in R1 as [V1 ->]. rewrite <-V1.
  destruct (e_epoch env <? _); [by injection Hr as _ <-|].
  destruct (f_max_skew cfg <? _); [by injection Hr as _ <-|].
  destruct (e_lease_expires_at env <=? now).
  { by destruct (rfc3339 _); [injection Hr as _ <-|]. }
  destruct (negb _); [by injection Hr as <- <-|].
  destruct (e_object env) as [object|]; [|by injection Hr as _ <-].
  apply ST_bind_run in Hr as [(known & s2 & R2 & Hr)|(? & _ & ?)]; [|done].
  apply object_generation_reads in R2 as [V2 ->]. rewrite <-V2.
  destruct (object_refusal _ _); [by injection Hr as _ <-|].
  apply ST_bind_run in Hr as [(rec & s3 & R3 & Hr)|(? & _ & ?)]; [|done].
  apply outcome_reads in R3 as [V3 _]. rewrite <-V3.
  destruct rec; [by injection Hr as _ <-|].
  apply ST_bind_run in Hr as [([] & s4 & R4 & Hr)|(? & _ & ?)]; [|done].
  apply ST_bind_run in Hr as [([] & s5 & R5 & Hr)|(? & _ & ?)]; [|done].
  by injection Hr as <- _.
Qed.

End Laws.

(** ** Properties *)

Section Properties.
Context {S : Type} {FS : FenceStore S} {FL : FenceStoreLaws S}.
Context (rfc3339 : Z -> result string string) (cfg : FenceConfig).

(**  Admission decides exactly by the six questions, in that order, when
    the store answers: a request is allowed if and only if its version and
    address fit, its epoch is not stale, the clocks agree, the lease is live,
    and, for a change, the object's history admits it and the request is new.
    A read leaves the memory as it was; a change records its epoch and its
    object's generation. *)
Theorem admission_exact now env s a s' :
  fence_admit rfc3339 cfg now env s = (Ok a, s') ->
  (a = Allowed <->
     misaddressed cfg env (mutates (e_op env)) = None /\ m_epoch (view s) <= e_epoch env /\
     Z.abs (whole_seconds (now - e_sent_at env)) <= f_max_skew cfg /\ now < e_lease_expires_at env /\
     (mutates (e_op env) = true -> exists object, e_object env = Some object /\
        object_refusal object (m_objects (view s) !! of_object_id object) = None /\
        m_outcomes (view s) !! e_request_id env = None)) /\
  (a <> Allowed \/ mutates (e_op env) = false -> view s' = view s) /\
  (a = Allowed -> mutates (e_op env) = true -> exists object, e_object env = Some object /\
     m_epoch (view s') = e_epoch env /\ m_outcomes (view s') = m_outcomes (view s) /\
     m_objects (view s') !! of_object_id object = Some (of_generation object, of_digest object)).
Proof.
  intros Hrun. pose proof (admit_not_Allowed rfc3339 cfg now env s a s' Hrun) as Hother.
  split_and!.
  - split.
    + intros ->. apply admit_Allowed in Hrun as (? & ? & ? & ? & Hm). split_and!; try done.
      intros Hmut. rewrite Hmut in Hm. naive_solver.
    + intros (Hmis & Hep & Hsk & Hle & Hmut). revert Hrun. unfold fence_admit, admit_as. rewrite Hmis.
      intros [(z & s1 & R1 & Hr)|(? & _ & ?)]%ST_bind_run; [|done].
      apply accepted_epoch_reads in R1 as [V1 ->]. revert Hr.
      destruct (Z.ltb_spec (e_epoch env) (m_epoch (view s))); [lia|].
      destruct (Z.ltb_spec (f_max_skew cfg) (Z.abs (whole_seconds (now - e_sent_at env)))); [lia|].
      destruct (Z.leb_spec (e_lease_expires_at env) now); [lia|].
      destruct (mutates (e_op env)); cbn [negb]; [|by intros [= <- _]].
      destruct (Hmut eq_refl) as (object & -> & Href & Hout).
      intros [(k & s2 & R2 & Hr)|(? & _ & ?)]%ST_bind_run; [|done].
      apply object_generation_reads in R2 as [V2 ->]. rewrite V1 in V2, Hr. rewrite Href in Hr.
      apply ST_bind_run in Hr as [(rec & s3 & R3 & Hr)|(? & _ & ?)]; [|done].
      apply outcome_reads in R3 as [_ ->]. rewrite V2, Hout in Hr.
      apply ST_bind_run in Hr as [([] & s4 & _ & Hr)|(? & _ & ?)]; [|done].
      apply ST_bind_run in Hr as [([] & s5 & _ & Hr)|(? & _ & ?)]; [|done].
      by injection Hr as <- _.
  - intros [Ha|Hm]; [auto|]. destruct a; [|by apply Hother..].
    apply admit_Allowed in Hrun as (_ & _ & _ & _ & Hv). by rewrite Hm in Hv.
  - intros -> Hm. apply admit_Allowed in Hrun as (_ & Hep & _ & _ & Hv). rewrite Hm in Hv.
    destruct Hv as (object & Hobj & Href & _ & Hv). exists object. split; [done|].
    rewrite Hv. destruct (accepted_change object (e_epoch env) (view s) Href) as (-> & -> & ->).
    split_and!; [lia|done|done].
Qed.
End Properties.

(** ** Witnesses: an empty [SqliteFence] *)

Definition wit_rfc3339 (t : Z) : result string string := Ok (dec t).
Definition wit_json (r : Reply) : result string string := Ok "{}".
Definition wit_cfg : FenceConfig := mkFence "m1" DEFAULT_MAX_SKEW.
Definition wit_start (epoch generation : Z) (digest : string) : Envelope :=
  mkEnvelope 1 (Some "m1") epoch "ctl" (100 * nanos_per_sec) (10 * nanos_per_sec) "req-1"
    (Some (mkObjectFence "vm" generation digest)) (StartInstance (mkInstanceRef "vm" "web")).
Definition wit_store : SqliteFence := sqlite_new 0 [].

Definition wit_admit (env : Envelope) : ST FenceError SqliteFence Admission :=
  fence_admit (FS := SqliteFence_store wit_rfc3339) wit_rfc3339 wit_cfg (11 * nanos_per_sec) env.
Definition wit_store_1 : SqliteFence := snd (wit_admit (wit_start 5 1 "d") wit_store).

Lemma admission_exact_witness :
  wit_admit (wit_start 5 1 "d") wit_store = (Ok Allowed, wit_store_1) /\
  sqlite_view wit_store_1 = mkMemory 5 {[ "vm" := (1, "d") ]} ∅ /\
  m_epoch (sqlite_view wit_store_1) = 5.
Proof.
  assert (Hrun : wit_admit (wit_start 5 1 "d") wit_store = (Ok Allowed, wit_store_1))
    by (vm_compute; reflexivity).
  split; [exact Hrun|]. split; [vm_compute; reflexivity|].
  destruct (admission_exact (FL := SqliteFence_laws wit_rfc3339) wit_rfc3339 wit_cfg
    (11 * nanos_per_sec) (wit_start 5 1 "d") wit_store Allowed wit_store_1 Hrun) as (_ & _ & Hobj).
  destruct (Hobj eq_refl eq_refl) as (object & _ & He & _). exact He.
Defined.
