(* ===== verification/Prog.v ===== *)
(** * Prog: programs that call their surroundings

    The orchestration code of the control plane calls a database, machines
    and a file system through traits.  A program is modelled as a finite tree
    of calls: [Call c k] makes the call [c] and goes on with whatever reply
    comes back.  [run] executes a program against a handler that keeps a
    state; [always] speaks of every run, whatever is answered, so that a
    theorem proved with it holds for failing calls and for calls between
    which anybody else has acted. *)

From S2P Require Import Prelude.

Inductive prog (E : Type -> Type) (A : Type) : Type :=
  | Ret (a : A)
  | Call {R : Type} (c : E R) (k : R -> prog E A).
Arguments Ret {E A} a.
Arguments Call {E A R} c k.

#[global] Instance prog_ret {E} : MRet (prog E) := fun A a => Ret a.
#[global] Instance prog_bind {E} : MBind (prog E) := fun A B f =>
  fix go (p : prog E A) : prog E B :=
    match p with
    | Ret a => f a
    | Call c k => Call c (fun r => go (k r))
    end.

Definition call {E R} (c : E R) : prog E R := Call c Ret.

(** ** Fallible programs: [async fn ... -> Result<A, X>] *)

Definition fallible (E : Type -> Type) (X A : Type) : Type := prog E (result X A).

#[global] Instance fallible_ret {E X} : MRet (fallible E X) := fun A a => Ret (Ok a).
#[global] Instance fallible_bind {E X} : MBind (fallible E X) := fun A B f p =>
  prog_bind _ _ (fun r => match r with Ok a => f a | Err e => Ret (Err e) end) p.

(** [Err(e)], [r?] of a pure result, and [c.await.map_err(f)?]. *)
Definition throw {E X A} (e : X) : fallible E X A := Ret (Err e).
Definition pure_res {E X A} (r : result X A) : fallible E X A := Ret r.
Definition ask {E X Y A} (c : E (result Y A)) (f : Y -> X) : fallible E X A :=
  Call c (fun r => Ret (map_err f r)).
(** A call whose failure is only logged. *)
Definition attempt {E X Y A} (c : E (result Y A)) : fallible E X (result Y A) :=
  Call c (fun r => Ret (Ok r)).
(** A call that cannot fail. *)
Definition get {E X R} (c : E R) : fallible E X R := Call c (fun r => Ret (Ok r)).

(** ** Every run *)

Record event (E : Type -> Type) : Type := mkEvent {
  ev_type : Type;
  ev_call : E ev_type;
  ev_reply : ev_type
}.
Arguments mkEvent {E ev_type} ev_call ev_reply.
Arguments ev_type {E}. Arguments ev_call {E}. Arguments ev_reply {E}.

(** [always p P]: whatever is answered, the calls made with their replies and
    the result satisfy [P]. *)
Fixpoint always {E A} (p : prog E A) (P : list (event E) -> A -> Prop) : Prop :=
  match p with
  | Ret a => P [] a
  | Call c k => forall r, always (k r) (fun tr a => P (mkEvent c r :: tr) a)
  end.

Section Always.
Context {E : Type -> Type}.

Lemma always_mono {A} (p : prog E A) (P Q : list (event E) -> A -> Prop) :
  (forall tr a, P tr a -> Q tr a) -> always p P -> always p Q.
Proof. revert P Q. induction p as [a|R c k IH]; simpl; intros P Q HPQ; [auto|]. intros H r. eapply IH; [|apply H]. auto. Qed.

Lemma always_bind {A B} (p : prog E A) (f : A -> prog E B) (P : list (event E) -> B -> Prop) :
  always p (fun tr a => always (f a) (fun tr' b => P (tr ++ tr') b)) -> always (p ≫= f) P.
Proof.
  revert P. induction p as [a|R c k IH]; simpl; intros P H; [exact H|].
  intros r. apply (IH r (fun tr b => P (mkEvent c r :: tr) b)). apply H.
Qed.

Lemma always_fallible {X A B} (p : fallible E X A) (f : A -> fallible E X B) (P : list (event E) -> result X B -> Prop) :
  always p (fun tr r => match r with Ok a => always (f a) (fun tr' b => P (tr ++ tr') b) | Err e => P tr (Err e) end) ->
  always (fallible_bind _ _ f p) P.
Proof.
  intros H. apply always_bind. eapply always_mono; [|exact H]. intros tr [a|e] Hr; [exact Hr|]. cbn. by rewrite app_nil_r.
Qed.

Lemma always_and {A} (p : prog E A) (P Q : list (event E) -> A -> Prop) :
  always p P -> always p Q -> always p (fun tr a => P tr a /\ Q tr a).
Proof. revert P Q. induction p as [a|R c k IH]; simpl; intros P Q; [auto|]. intros HP HQ r. by apply IH. Qed.

Lemma always_pure {A} (p : prog E A) (P : list (event E) -> A -> Prop) :
  (forall tr a, P tr a) -> always p P.
Proof. revert P. induction p as [a|R c k IH]; simpl; intros P H; [auto|]. intros r. by apply IH. Qed.
End Always.

(** ** Running against a handler *)

Definition handler (E : Type -> Type) (W : Type) : Type := forall R, E R -> W -> R * W.

Fixpoint run {E W A} (h : handler E W) (p : prog E A) (w : W) : A * W :=
  match p with
  | Ret a => (a, w)
  | Call c k => let '(r, w') := h _ c w in run h (k r) w'
  end.

(** The calls a run makes. *)
Fixpoint trace {E W A} (h : handler E W) (p : prog E A) (w : W) : list (event E) :=
  match p with
  | Ret _ => []
  | Call c k => let '(r, w') := h _ c w in mkEvent c r :: trace h (k r) w'
  end.

(** What holds of every run holds of the run against a handler. *)
Lemma always_run {E W A} (h : handler E W) (p : prog E A) (w : W) P :
  always p P -> P (trace h p w) (fst (run h p w)).
Proof.
  revert w P. induction p as [a|R c k IH]; simpl; intros w P H; [exact H|].
  destruct (h R c w) as [r w']. exact (IH r w' _ (H r)).
Qed.

Lemma run_bind {E W A B} (h : handler E W) (p : prog E A) (f : A -> prog E B) (w : W) :
  run h (p ≫= f) w = let '(a, w') := run h p w in run h (f a) w'.
Proof.
  revert w. induction p as [a|R c k IH]; simpl; intros w; [done|]. destruct (h R c w) as [r w']. apply IH.
Qed.

(** A fallible program and its continuation, run one after the other. *)
Lemma run_then {E W X A B} (h : handler E W) (p : fallible E X A) (f : A -> fallible E X B) (w : W) :
  run h (fallible_bind _ _ f p) w =
    let '(r, w') := run h p w in match r with Ok a => run h (f a) w' | Err e => (Err e, w') end.
Proof.
  pose proof (run_bind h p (fun r => match r with Ok a => f a | Err e => Ret (Err e) end) w) as Hr.
  etransitivity; [exact Hr|]. by destruct (run h p w) as [[] w'].
Qed.

(** An invariant of the handler's state that every call keeps. *)
Lemma run_keeps {E W A} (h : handler E W) (I : W -> Prop) (p : prog E A) (w : W) :
  (forall R (c : E R) w, I w -> I (snd (h R c w))) -> I w -> I (snd (run h p w)).
Proof.
  intros Hh. revert w. induction p as [a|R c k IH]; simpl; intros w Hw; [exact Hw|].
  pose proof (Hh R c w Hw) as Hc. destruct (h R c w) as [r w']. by apply IH.
Qed.

(** Every event of a run is the handler's answer in a state the run reached;
    what the calls the program can make keep, holds there. *)
Lemma trace_reached {E W A} (h : handler E W) (ok : forall R, E R -> Prop) (I : W -> Prop) (p : prog E A) (w : W)
    (e : event E) :
  always p (fun tr _ => Forall (fun e => ok _ (ev_call e)) tr) ->
  (forall R (c : E R) w, ok R c -> I w -> I (snd (h R c w))) -> I w -> e ∈ trace h p w ->
  exists w', I w' /\ ev_reply e = fst (h _ (ev_call e) w').
Proof.
  intros Hok Hh. revert w Hok. induction p as [a|R c k IH]; simpl; intros w Hok Hw Hin; [by apply elem_of_nil in Hin|].
  destruct (h R c w) as [r w'] eqn:Hr. pose proof (always_run h (k r) w' _ (Hok r)) as Hc.
  apply Forall_cons in Hc as [Hc _]. pose proof (Hh R c w Hc Hw) as Hw'. rewrite Hr in Hw'.
  apply elem_of_cons in Hin as [->|Hin]; [exists w; split; [done|]; cbn; by rewrite Hr|].
  apply (IH r w'); [|done..]. eapply always_mono; [|apply (Hok r)]. intros tr a Htr. by apply Forall_cons in Htr as [_ ?].
Qed.

(** ** Programs that stand for calls *)

(** A program over other calls, call by call. *)
Fixpoint lift {E F : Type -> Type} {A} (f : forall R, E R -> F R) (p : prog E A) : prog F A :=
  match p with Ret a => Ret a | Call c k => Call (f _ c) (fun r => lift f (k r)) end.
(** A program whose calls are programs themselves. *)
Fixpoint interp {E F : Type -> Type} {A} (f : forall R, E R -> prog F R) (p : prog E A) : prog F A :=
  match p with Ret a => Ret a | Call c k => prog_bind _ _ (fun r => interp f (k r)) (f _ c) end.

Section Interp.
Context {E F : Type -> Type} (f : forall R, E R -> prog F R) (P : forall R, E R -> R -> list (event F) -> Prop).

(** The calls below are, one after the other, the runs of the calls above. *)
Inductive refines : list (event E) -> list (event F) -> Prop :=
  | refines_nil : refines [] []
  | refines_cons R (c : E R) r tr es trs : P R c r tr -> refines es trs -> refines (mkEvent c r :: es) (tr ++ trs).

Lemma always_interp {A} (p : prog E A) (Q : list (event E) -> A -> Prop) :
  (forall R (c : E R), always (f R c) (fun tr r => P R c r tr)) -> always p Q ->
  always (interp f p) (fun tr a => exists es, Q es a /\ refines es tr).
Proof.
  intros Hf. revert Q. induction p as [a|R c k IH]; cbn [interp]; intros Q Hp; [exists []; split; [done|constructor]|].
  apply always_bind. eapply always_mono; [|apply (Hf R c)]. intros tr r Hr.
  eapply always_mono; [|exact (IH r _ (Hp r))]. intros tr' a (es & Hq & He). exists (mkEvent c r :: es).
  split; [done|by constructor].
Qed.
End Interp.

Lemma always_lift {E F : Type -> Type} (f : forall R, E R -> F R) {A} (p : prog E A) (Q : list (event E) -> A -> Prop) :
  always p Q -> always (lift f p) (fun tr a => exists es, Q es a /\ tr = (fun e => mkEvent (f _ (ev_call e)) (ev_reply e)) <$> es).
Proof.
  revert Q. induction p as [a|R c k IH]; cbn [lift]; intros Q Hp; [by exists []|].
  intros r. eapply always_mono; [|exact (IH r _ (Hp r))]. intros tr a (es & Hq & ->). by exists (mkEvent c r :: es).
Qed.
