(* ===== verification/Pool.v ===== *)
(** * Pool: programs that run at the same time

    Several tasks of one process, or several processes, work against the same
    surroundings.  A pool is a list of threads, each with the calls it has
    made and what is left of its program; a step lets one thread make its next
    call, or the surroundings change by themselves ([env]).  [pool_inv] turns
    a property that every run of every program has into one of any
    interleaving. *)

From S2P Require Import Prelude Prog.

Lemma trace_bind {E W A B} (h : handler E W) (p : prog E A) (f : A -> prog E B) (w : W) :
  trace h (p ≫= f) w = trace h p w ++ trace h (f (fst (run h p w))) (snd (run h p w)).
Proof.
  revert w. induction p as [a|R c k IH]; simpl; intros w; [done|]. destruct (h R c w) as [r w']. simpl. by rewrite <-IH.
Qed.

Section Pool.
Context {E : Type -> Type} {W : Type} (h : handler E W) (env : W -> W -> Prop).

Record thread : Type := mkThread {
  th_type : Type;
  th_trace : list (event E);
  th_rest : prog E th_type
}.

(** A thread that has not begun. *)
Definition spawn {A} (p : prog E A) : thread := mkThread A [] p.

Inductive pool_step : W * list thread -> W * list thread -> Prop :=
  | pool_call w l1 A tr R (c : E R) (k : R -> prog E A) l2 :
      pool_step (w, l1 ++ mkThread A tr (Call c k) :: l2)
        (snd (h R c w), l1 ++ mkThread A (tr ++ [mkEvent c (fst (h R c w))]) (k (fst (h R c w))) :: l2)
  | pool_env w w' ts : env w w' -> pool_step (w, ts) (w', ts).

(** What a call may be after the calls of its own thread ([ok]), what the
    surroundings always hold ([I]), and what they hold for a thread that has
    made some calls ([known]). *)
Section Invariant.
Context (ok : list (event E) -> event E -> Prop) (I : W -> Prop) (known : W -> list (event E) -> Prop).

(** Every call of [tr] is one [ok] allows after the calls before it. *)
Fixpoint allowed (before tr : list (event E)) : Prop :=
  match tr with
  | [] => True
  | e :: tr' => ok before e /\ allowed (before ++ [e]) tr'
  end.

Definition thread_ok (w : W) (t : thread) : Prop :=
  always (th_rest t) (fun tr _ => allowed (th_trace t) tr) /\ known w (th_trace t).

Lemma allowed_app before tr tr' :
  allowed before (tr ++ tr') <-> allowed before tr /\ allowed (before ++ tr) tr'.
Proof.
  revert before. induction tr as [|e tr IH]; intros before; simpl; [rewrite app_nil_r; naive_solver|].
  rewrite IH, <-app_assoc. simpl. naive_solver.
Qed.

Lemma allowed_weaken before before' tr :
  (forall b b' e, (forall x, x ∈ b -> x ∈ b') -> ok b e -> ok b' e) ->
  (forall x, x ∈ before -> x ∈ before') -> allowed before tr -> allowed before' tr.
Proof.
  intros Hmono. revert before before'. induction tr as [|e tr IH]; intros before before' Hsub; simpl; [done|].
  intros [He Htr]. split; [by eapply Hmono|]. eapply IH; [|exact Htr].
  intros x. rewrite !elem_of_app. naive_solver.
Qed.

(** A call that its thread may make keeps the invariant, what the thread knows
    grows with the answer, and what another thread knows stays true. *)
Context (Hstep : forall w tr R (c : E R), I w -> known w tr ->
           ok tr (mkEvent c (fst (h R c w))) ->
           I (snd (h R c w)) /\ known (snd (h R c w)) (tr ++ [mkEvent c (fst (h R c w))]) /\
           forall tr', known w tr' -> known (snd (h R c w)) tr').

Context (Henv : forall w w', env w w' -> I w -> I w' /\ forall tr, known w tr -> known w' tr).

Lemma always_head {A} (w : W) tr R (c : E R) (k : R -> prog E A) r :
  always (Call c k) (fun tr' _ => allowed tr tr') ->
  ok tr (mkEvent c r) /\ always (k r) (fun tr' _ => allowed (tr ++ [mkEvent c r]) tr').
Proof.
  simpl. intros H. specialize (H r). split; [by apply (always_run h _ w) in H as [? _]|].
  eapply always_mono; [|exact H]. by intros ?? [_ ?].
Qed.

Lemma pool_inv_step w ts w' ts' :
  pool_step (w, ts) (w', ts') -> I w -> Forall (thread_ok w) ts -> I w' /\ Forall (thread_ok w') ts'.
Proof.
  intros Hs. inversion Hs as [w0 l1 A tr R c k l2|w0 w1 ts0 He]; subst.
  2: { intros Hi Hts. destruct (Henv _ _ He Hi) as [Hi' Hk]. split; [done|].
    eapply Forall_impl; [exact Hts|]. intros t [Ha Ht]. split; [done|by apply Hk]. }
  intros Hw [Ht1 [[Hp Hk] Ht2]%Forall_cons]%Forall_app. cbn [th_rest th_trace th_type] in Hp, Hk.
  apply (always_head w _ _ _ _ (fst (h R c w))) in Hp as [Hok Hp].
  destruct (Hstep w tr R c Hw Hk Hok) as (Hw' & Hk' & Hothers). split; [done|].
  assert (Hmono : forall ts, Forall (thread_ok w) ts -> Forall (thread_ok (snd (h R c w))) ts).
  { intros ts Hts. eapply Forall_impl; [exact Hts|]. intros t [Ha Hkn]. split; [done|by apply Hothers]. }
  apply Forall_app. split; [by apply Hmono|]. constructor; [by split|by apply Hmono].
Qed.

Lemma pool_inv x y :
  rtc pool_step x y -> I (fst x) -> Forall (thread_ok (fst x)) (snd x) ->
  I (fst y) /\ Forall (thread_ok (fst y)) (snd y).
Proof.
  induction 1 as [x|x y z Hxy _ IH]; [done|]. intros Hi Ht. destruct x as [w ts], y as [w' ts'].
  destruct (pool_inv_step _ _ _ _ Hxy Hi Ht) as [Hi' Ht']. by apply IH.
Qed.
End Invariant.

(** A single program run to its end is a pool of one. *)
Lemma run_pool {A} (p : prog E A) w tr :
  rtc pool_step (w, [mkThread A tr p]) (snd (run h p w), [mkThread A (tr ++ trace h p w) (Ret (fst (run h p w)))]).
Proof.
  revert w tr. induction p as [a|R c k IH]; intros w tr; simpl; [rewrite app_nil_r; apply rtc_refl|].
  pose proof (pool_call w [] A tr R c k []) as Hs. simpl in Hs. destruct (h R c w) as [r w'] eqn:Hr. simpl in Hs.
  eapply rtc_l; [exact Hs|]. replace (tr ++ mkEvent c r :: trace h (k r) w')
    with ((tr ++ [mkEvent c r]) ++ trace h (k r) w') by (by rewrite <-app_assoc). apply IH.
Qed.
End Pool.

(** ** Reasoning about every run, call by call *)

(** [after ok before p Q]: whatever is answered, every call [p] makes is one
    [ok] allows after the calls before it, and [Q] holds of all the calls and
    the result. *)
Section After.
Context {E : Type -> Type} (ok : list (event E) -> event E -> Prop).

Definition after {A} (before : list (event E)) (p : prog E A) (Q : list (event E) -> A -> Prop) : Prop :=
  always p (fun tr a => allowed ok before tr /\ Q (before ++ tr) a).

Lemma after_ret {A} before (a : A) (Q : list (event E) -> A -> Prop) : Q before a -> after before (Ret a) Q.
Proof. intros H. split; [exact I|]. by rewrite app_nil_r. Qed.

Lemma after_call {A R} before (c : E R) (k : R -> prog E A) (Q : list (event E) -> A -> Prop) :
  (forall r, ok before (mkEvent c r)) ->
  (forall r, after (before ++ [mkEvent c r]) (k r) Q) -> after before (Call c k) Q.
Proof.
  intros Hc Hk r. eapply always_mono; [|exact (Hk r)]. intros tr a [Htr Ha].
  rewrite <-app_assoc in Ha. split; [by split|done].
Qed.

Lemma after_bind {A B} before (p : prog E A) (f : A -> prog E B) (Q : list (event E) -> B -> Prop) :
  after before p (fun before' a => after before' (f a) Q) -> after before (prog_bind A B f p) Q.
Proof.
  intros H. apply always_bind. eapply always_mono; [|exact H]. intros tr a [Htr Hf].
  eapply always_mono; [|exact Hf]. intros tr' b [Htr' Hb]. rewrite app_assoc. split; [by apply allowed_app|done].
Qed.

Lemma after_mono {A} before (p : prog E A) (Q Q' : list (event E) -> A -> Prop) :
  (forall before' a, Q before' a -> Q' before' a) -> after before p Q -> after before p Q'.
Proof. intros HQ. apply always_mono. intros tr a [? ?]. auto. Qed.

(** A fallible program goes on only from its success. *)
Lemma after_try {X A B} before (p : fallible E X A) (f : A -> fallible E X B) (Q : list (event E) -> result X B -> Prop) :
  after before p (fun before' r =>
    match r with Ok a => after before' (f a) Q | Err e => Q before' (Err e) end) ->
  after before (fallible_bind A B f p) Q.
Proof.
  intros H. apply after_bind. eapply after_mono; [|exact H]. intros before' [a|e] Hr; [done|]. by apply after_ret.
Qed.

Lemma after_ask {X Y A} before (c : E (result Y A)) (f : Y -> X) (Q : list (event E) -> result X A -> Prop) :
  (forall r, ok before (mkEvent c r)) -> (forall r, Q (before ++ [mkEvent c r]) (map_err f r)) ->
  after before (ask c f) Q.
Proof. intros Hc HQ. apply after_call; [done|]. intros r. apply after_ret, HQ. Qed.
Lemma after_attempt {X Y A} before (c : E (result Y A)) (Q : list (event E) -> result X (result Y A) -> Prop) :
  (forall r, ok before (mkEvent c r)) -> (forall r, Q (before ++ [mkEvent c r]) (Ok r)) ->
  after before (attempt c) Q.
Proof. intros Hc HQ. apply after_call; [done|]. intros r. apply after_ret, HQ. Qed.
Lemma after_get {X R} before (c : E R) (Q : list (event E) -> result X R -> Prop) :
  (forall r, ok before (mkEvent c r)) -> (forall r, Q (before ++ [mkEvent c r]) (Ok r)) ->
  after before (get c) Q.
Proof. intros Hc HQ. apply after_call; [done|]. intros r. apply after_ret, HQ. Qed.
End After.

(** ** One program, and everybody else

    A program alone, whose surroundings change by themselves ([env]) between
    its calls.  What [env] leaves alone may be what only this program has. *)
Section Solo.
Context {E : Type -> Type} {W A : Type} (h : handler E W) (env : W -> W -> Prop).

Inductive solo_step : W * list (event E) * prog E A -> W * list (event E) * prog E A -> Prop :=
  | solo_call w tr R (c : E R) (k : R -> prog E A) :
      solo_step (w, tr, Call c k) (snd (h R c w), tr ++ [mkEvent c (fst (h R c w))], k (fst (h R c w)))
  | solo_env w w' tr p : env w w' -> solo_step (w, tr, p) (w', tr, p).

Lemma solo_inv (ok : list (event E) -> event E -> Prop) (I : W -> Prop) (known : W -> list (event E) -> Prop) :
  (forall w tr R (c : E R), I w -> known w tr -> ok tr (mkEvent c (fst (h R c w))) ->
     I (snd (h R c w)) /\ known (snd (h R c w)) (tr ++ [mkEvent c (fst (h R c w))])) ->
  (forall w w' tr, env w w' -> I w -> known w tr -> I w' /\ known w' tr) ->
  forall x y, rtc solo_step x y ->
  I (fst (fst x)) -> known (fst (fst x)) (snd (fst x)) -> always (snd x) (fun tr' _ => allowed ok (snd (fst x)) tr') ->
  I (fst (fst y)) /\ known (fst (fst y)) (snd (fst y)).
Proof.
  intros Hstep Henv x y Hxy. induction Hxy as [x|x y z Hs _ IH]; [done|]. intros Hi Hk Ha.
  destruct Hs as [w tr R c k|w w' tr p He]; cbn [fst snd] in *.
  - apply (always_head h ok w tr R c k (fst (h R c w))) in Ha as [Hok Ha].
    destruct (Hstep w tr R c Hi Hk Hok) as [Hi' Hk']. by apply IH.
  - destruct (Henv w w' tr He Hi Hk) as [Hi' Hk']. by apply IH.
Qed.

(** The program run to its end, undisturbed. *)
Lemma solo_run (p : prog E A) w tr :
  rtc solo_step (w, tr, p) (snd (run h p w), tr ++ trace h p w, Ret (fst (run h p w))).
Proof.
  revert w tr. induction p as [a|R c k IH]; intros w tr; simpl; [rewrite app_nil_r; apply rtc_refl|].
  pose proof (solo_call w tr R c k) as Hs. destruct (h R c w) as [r w'] eqn:Hr. simpl in Hs.
  eapply rtc_l; [exact Hs|]. replace (tr ++ mkEvent c r :: trace h (k r) w')
    with ((tr ++ [mkEvent c r]) ++ trace h (k r) w') by (by rewrite <-app_assoc). apply IH.
Qed.
End Solo.
