(* ===== verification/FenceRuns.v ===== *)
(** * FenceRuns: requests at the same time, [crates/runner/src/{fence,lib,server}.rs]

    The server takes requests on a runtime of several threads, and the lock of
    the fence's database is held for one statement only.  So admission is not
    one step: other requests act between reading the epoch, reading the
    object's history, reading the recorded answer and writing them.  Here a
    request is a program of single statements, a runner is a pool of such
    programs over one store, and a restart loses the programs and keeps the
    store.  Run with nobody else about, the program is [Fence.serve_one]. *)

From Stdlib Require Import ZArith Lia.
From S2P Require Import Prelude Text Types Prog Fence.
Open Scope Z_scope.

(** ** A request as a program *)

(** The statements of the store, the clock, and the host. *)
Inductive fcall : Type -> Type :=
  | FAcceptedEpoch : fcall (result FenceError Z)
  | FNow : fcall Z
  | FObjectGeneration (object_id : string) : fcall (result FenceError (option (Z * string)))
  | FOutcome (request_id : string) : fcall (result FenceError (option string))
  | FAcceptEpoch (epoch : Z) : fcall (result FenceError unit)
  | FAcceptObject (object_id : string) (generation : Z) (digest : string) : fcall (result FenceError unit)
  | FRecordOutcome (request_id out : string) : fcall (result FenceError unit)
  | FHost (op : Operation) : fcall (result string Reply).

(** A failure of the fence becomes the text of a [HostError]. *)
Definition host_error {A} (p : fallible fcall FenceError A) : fallible fcall string A :=
  prog_bind _ _ (fun r => Ret (map_err fence_error_text r)) p.

Section Calls.
Context (rfc3339 : Z -> result string string) (to_json : Reply -> result string string) (cfg : FenceConfig).

(** [Fence::admit_as], statement by statement. *)
Definition admit_calls (env : Envelope) (mutates_ : bool) : fallible fcall FenceError Admission :=
  match misaddressed cfg env mutates_ with
  | Some why => mret (Refused why)
  | None =>
      accepted ← ask FAcceptedEpoch id;
      if e_epoch env <? accepted then mret (Refused (StaleEpoch (e_epoch env) accepted))
      else
        now ← get FNow;
        let skew := whole_seconds (now - e_sent_at env) in
        if f_max_skew cfg <? Z.abs skew then mret (Refused (ClockUntrusted skew))
        else if e_lease_expires_at env <=? now then
          match rfc3339 (e_lease_expires_at env) with
          | Ok at_ => mret (Refused (LeaseExpired at_))
          | Err m => throw (TimeError m)
          end
        else if negb mutates_ then mret Allowed
        else
          match e_object env with
          | None => mret (Refused UnfencedChange)
          | Some object =>
              known ← ask (FObjectGeneration (of_object_id object)) id;
              match object_refusal object known with
              | Some why => mret (Refused why)
              | None =>
                  recorded ← ask (FOutcome (e_request_id env)) id;
                  match recorded with
                  | Some out => mret (AlreadyDone out)
                  | None =>
                      _ ← ask (FAcceptEpoch (e_epoch env)) id;
                      _ ← ask (FAcceptObject (of_object_id object) (of_generation object) (of_digest object)) id;
                      mret Allowed
                  end
              end
          end
  end.

(** The [Admission::Allowed] arm of [serve_one]. *)
Definition allowed_calls (env : Envelope) : fallible fcall string Outcome :=
  reply ← ask (FHost (e_op env)) id;
  if mutates (e_op env) then
    recorded ← pure_res (to_json reply);
    _ ← ask (FRecordOutcome (e_request_id env) recorded) fence_error_text;
    mret (Done reply)
  else mret (Done reply).

(** [serve_one]. *)
Definition serve_calls (env : Envelope) : fallible fcall string Outcome :=
  admission ← host_error (admit_calls env (mutates (e_op env)));
  match admission with
  | Refused why => mret (OutRefused why)
  | AlreadyDone recorded => mret (Replayed recorded)
  | Allowed => allowed_calls env
  end.

(** ** Alone, the program is the function *)

Section Alone.
Context {S H : Type} {FS : FenceStore S} (host : Host H) (now : Z).

Definition alone : handler fcall (S * H) := fun R c =>
  match c in fcall R return S * H -> R * (S * H) with
  | FAcceptedEpoch => fun w => let '(r, s) := accepted_epoch w.1 in (r, (s, w.2))
  | FNow => fun w => (now, w)
  | FObjectGeneration id => fun w => let '(r, s) := object_generation id w.1 in (r, (s, w.2))
  | FOutcome id => fun w => let '(r, s) := outcome id w.1 in (r, (s, w.2))
  | FAcceptEpoch epoch => fun w => let '(r, s) := accept_epoch epoch w.1 in (r, (s, w.2))
  | FAcceptObject id g d => fun w => let '(r, s) := accept_object id g d w.1 in (r, (s, w.2))
  | FRecordOutcome id out => fun w => let '(r, s) := record_outcome id out w.1 in (r, (s, w.2))
  | FHost op => fun w => let '(r, h) := perform host op w.2 in (r, (w.1, h))
  end.

Lemma run_admit env b s h :
  run alone (admit_calls env b) (s, h) =
    let '(r, s') := admit_as rfc3339 cfg now env b s in (r, (s', h)).
Proof.
  unfold admit_calls, admit_as. destruct (misaddressed cfg env b); [done|].
  cbn. unfold mbind at 1, ST_bind at 1. destruct (accepted_epoch s) as [[z|e] s1]; [|done]. cbn.
  destruct (e_epoch env <? z); [done|]. cbn.
  destruct (f_max_skew cfg <? _); [done|]. destruct (e_lease_expires_at env <=? now); [by destruct (rfc3339 _)|].
  destruct (negb b); [done|]. destruct (e_object env) as [o|]; [|done].
  cbn. unfold mbind, ST_bind. destruct (object_generation _ s1) as [[k|e] s2]; [|done]. cbn.
  destruct (object_refusal o k); [done|].
  cbn. destruct (outcome _ s2) as [[[out|]|e] s3]; [done| |done].
  cbn. destruct (accept_epoch _ s3) as [[[]|e] s4]; [|done].
  cbn. destruct (accept_object _ _ _ s4) as [[[]|e] s5]; done.
Qed.

Lemma run_allowed_calls env w : run alone (allowed_calls env) w = run_allowed host to_json env w.
Proof.
  destruct w as [s h]. unfold allowed_calls, run_allowed, on_host, on_fence, finish.
  unfold mbind, ST_bind. cbn.
  destruct (perform host (e_op env) h) as [[reply|e] h1]; [|done]. cbn.
  destruct (mutates (e_op env)); [|done]. destruct (to_json reply) as [text|e]; [|done]. cbn.
  destruct (record_outcome _ text s) as [[[]|e] s1]; done.
Qed.

(**  A request that meets no other is served as the sequential [serve_one]
    says: the statements make up exactly its decision, its work and its
    answer. *)
Theorem alone_is_serve_one env w :
  run alone (serve_calls env) w = serve_one host rfc3339 to_json cfg now env w.
Proof.
  destruct w as [s h]. unfold serve_calls. etransitivity; [apply run_then|].
  pose proof (run_bind alone (admit_calls env (mutates (e_op env)))
    (fun r => Ret (map_err fence_error_text r)) (s, h)) as Hr. unfold host_error. unfold mbind in Hr. rewrite Hr, run_admit.
  unfold serve_one, fence_admit, on_fence, mbind, ST_bind. cbn.
  destruct (admit_as rfc3339 cfg now env _ s) as [[[|out|why]|e] s1]; try done.
  exact (run_allowed_calls env (s1, h)).
Qed.
End Alone.
End Calls.

(** ** What a request may rely on

    What the others do to the store while a request waits is not known; but
    they forget nothing.  [world] is what the store remembers together with
    what the host has carried out, and [later w w'] says that [w'] came after
    [w].  [holds pre post w p]: if the world is [w] now, then whatever the
    others do between its statements, as long as it keeps [J], [p] makes only
    calls that [pre] allows in the world where they are made, and ends in
    [post]. *)

(** What the host was asked and answered, newest first. *)
Definition history : Type := list (Envelope * Reply).
Definition world : Type := Memory * history.

Definition later (w w' : world) : Prop := mem_le w.1 w'.1 /\ forall x, x ∈ w.2 -> x ∈ w'.2.
#[global] Instance later_preorder : PreOrder later.
Proof.
  split; [intros w; split; [reflexivity|done]|].
  intros w1 w2 w3 [M1 H1] [M2 H2]. split; [by transitivity (w2.1)|auto].
Qed.

Definition read_answer {A} (r : result FenceError A) (a : A) : Prop :=
  match r with Ok a' => a' = a | Err _ => True end.
Definition write_done (r : result FenceError unit) (m m' change : Memory) : Prop :=
  match r with Ok _ => m' = change | Err _ => m' = m \/ m' = change end.
Definition host_log (env : Envelope) (r : result string Reply) (h : history) : history :=
  match r with Ok reply => (env, reply) :: h | Err _ => h end.

(** What a call does to the world, and what it may answer. *)
Definition effect (env : Envelope) {T} (c : fcall T) (w : world) : T -> world -> Prop :=
  match c in fcall T return T -> world -> Prop with
  | FAcceptedEpoch => fun r w' => w' = w /\ read_answer r (m_epoch w.1)
  | FNow => fun _ w' => w' = w
  | FObjectGeneration id => fun r w' => w' = w /\ read_answer r (m_objects w.1 !! id)
  | FOutcome id => fun r w' => w' = w /\ read_answer r (m_outcomes w.1 !! id)
  | FAcceptEpoch epoch => fun r w' => w'.2 = w.2 /\ write_done r w.1 w'.1 (mem_accept_epoch epoch w.1)
  | FAcceptObject id g d => fun r w' => w'.2 = w.2 /\ write_done r w.1 w'.1 (mem_accept_object id g d w.1)
  | FRecordOutcome id out => fun r w' => w'.2 = w.2 /\ write_done r w.1 w'.1 (mem_record id out w.1)
  | FHost _ => fun r w' => w' = (w.1, host_log env r w.2)
  end.

Lemma write_later r (w w' : world) change :
  w'.2 = w.2 -> write_done r w.1 w'.1 change -> mem_le w.1 change -> later w w'.
Proof.
  intros Hh Hw Hle. split; [|by rewrite Hh]. destruct r; cbn in Hw; [by rewrite Hw|].
  by destruct Hw as [-> | ->].
Qed.

Lemma effect_later env T (c : fcall T) w r w' : effect env c w r w' -> later w w'.
Proof.
  destruct c; cbn; try (intros [-> _]; reflexivity); try (intros ->; reflexivity);
    try (intros [Hh Hw]; eapply write_later; [exact Hh|exact Hw|auto with bento_st]).
  intros ->. split; [reflexivity|]. cbn. destruct r; [set_solver|done].
Qed.

Section Holds.
Context (J : world -> Prop) (env : Envelope) (pre : world -> forall T, fcall T -> Prop).

Fixpoint holds {B} (post : world -> B -> Prop) (w : world) (p : prog fcall B) : Prop :=
  match p with
  | Ret b => forall w', later w w' -> J w' -> post w' b
  | Call c k => forall w1, later w w1 -> J w1 ->
      pre w1 _ c /\ forall r w2, effect env c w1 r w2 -> holds post w2 (k r)
  end.

(** What holds now holds whenever the others have done something. *)
Lemma holds_later {B} (post : world -> B -> Prop) w w' p : later w w' -> holds post w p -> holds post w' p.
Proof. intros Hl. destruct p as [b|T c k]; cbn; intros H w1 Hw; apply H; by transitivity w'. Qed.

Lemma holds_from {B} (post : world -> B -> Prop) w p :
  (forall w', later w w' -> J w' -> holds post w' p) -> holds post w p.
Proof. destruct p as [b|T c k]; cbn; intros H w1 Hw HJ; exact (H w1 Hw HJ w1 ltac:(reflexivity) HJ). Qed.

Lemma holds_mono {B} (post post' : world -> B -> Prop) w p :
  (forall w b, post w b -> post' w b) -> holds post w p -> holds post' w p.
Proof.
  intros Hp. revert w. induction p as [b|T c k IH]; cbn; intros w H; [auto|].
  intros w1 Hw HJ. destruct (H w1 Hw HJ) as [Hc Hk]. split; [done|]. intros r w2 He. by apply IH, Hk.
Qed.

Lemma holds_bind {B C} (post : world -> C -> Prop) w (p : prog fcall B) (f : B -> prog fcall C) :
  holds (fun w b => holds post w (f b)) w p -> holds post w (prog_bind _ _ f p).
Proof.
  revert w. induction p as [b|T c k IH]; cbn; intros w H; [by apply holds_from|].
  intros w1 Hw HJ. destruct (H w1 Hw HJ) as [Hc Hk]. split; [done|]. intros r w2 He. by apply IH, Hk.
Qed.

(** A fallible program goes on only from its success. *)
Lemma holds_try {X B C} (post : world -> result X C -> Prop) w (p : fallible fcall X B) (f : B -> fallible fcall X C) :
  holds (fun w r => match r with Ok b => holds post w (f b) | Err e => holds post w (Ret (Err e)) end) w p ->
  holds post w (fallible_bind _ _ f p).
Proof. intros H. apply holds_bind. eapply holds_mono; [|exact H]. intros w' [b|e]; done. Qed.

Lemma holds_ask {X Y B C} (post : world -> result X C -> Prop) w (c : fcall (result Y B)) (g : Y -> X)
    (f : B -> fallible fcall X C) :
  (forall w1, later w w1 -> J w1 -> pre w1 _ c) ->
  (forall w1 b w2, later w w1 -> J w1 -> effect env c w1 (Ok b) w2 -> holds post w2 (f b)) ->
  (forall e w', post w' (Err e)) ->
  holds post w (fallible_bind _ _ f (ask c g)).
Proof. intros Hc Hf He. cbn. intros w1 Hw HJ. split; [auto|]. intros [b|y] w2 Heff; cbn; [by eapply Hf|auto]. Qed.

Lemma holds_get {X R C} (post : world -> result X C -> Prop) w (c : fcall R) (f : R -> fallible fcall X C) :
  (forall w1, later w w1 -> J w1 -> pre w1 _ c) ->
  (forall w1 b w2, later w w1 -> J w1 -> effect env c w1 b w2 -> holds post w2 (f b)) ->
  holds post w (fallible_bind _ _ f (get c)).
Proof. intros Hc Hf. cbn. intros w1 Hw HJ. split; [auto|]. intros b w2 Heff. cbn. by eapply Hf. Qed.
End Holds.

(** A program of which nothing is asked. *)
Lemma holds_anything J env {B} w (p : prog fcall B) : holds J env (fun _ _ _ => True) (fun _ _ => True) w p.
Proof. revert w. induction p as [b|T c k IH]; cbn; auto. Qed.

(** ** The runner

    [rn_requests] holds the requests taken so far by the order in which they
    came, each with what is left of its program; [rn_host] is the history of
    the host.  A step is a request that comes in, the next statement of any
    request, or a restart. *)

Record Request : Type := mkRequest { rq_env : Envelope; rq_rest : fallible fcall string Outcome }.
Record Runner (S : Type) : Type := mkRunner {
  rn_store : S; rn_host : history; rn_next : nat; rn_requests : gmap nat Request
}.
Arguments mkRunner {S}. Arguments rn_store {S}. Arguments rn_host {S}. Arguments rn_next {S}.
Arguments rn_requests {S}.

Section Runner.
Context {S : Type} {FS : FenceStore S}.
Context (rfc3339 : Z -> result string string) (to_json : Reply -> result string string) (cfg : FenceConfig).

Definition arrived (env : Envelope) : Request := mkRequest env (serve_calls rfc3339 to_json cfg env).

(** What a statement answers and leaves.  The clock and the host may answer
    anything at any time. *)
Definition answers {T} (c : fcall T) (s : S) : T -> S -> Prop :=
  match c in fcall T return T -> S -> Prop with
  | FAcceptedEpoch => fun r s' => accepted_epoch s = (r, s')
  | FNow => fun _ s' => s' = s
  | FObjectGeneration id => fun r s' => object_generation id s = (r, s')
  | FOutcome id => fun r s' => outcome id s = (r, s')
  | FAcceptEpoch epoch => fun r s' => accept_epoch epoch s = (r, s')
  | FAcceptObject id g d => fun r s' => accept_object id g d s = (r, s')
  | FRecordOutcome id out => fun r s' => record_outcome id out s = (r, s')
  | FHost _ => fun _ s' => s' = s
  end.

(** The host's history after the call. *)
Definition logged (env : Envelope) {T} (c : fcall T) : T -> history -> history :=
  match c in fcall T return T -> history -> history with
  | FHost _ => host_log env
  | _ => fun _ h => h
  end.

Inductive runner_step : Runner S -> Runner S -> Prop :=
  | step_arrive s h n rs env :
      runner_step (mkRunner s h n rs) (mkRunner s h (n + 1) (<[n := arrived env]> rs))
  | step_call s h n rs i env T (c : fcall T) k r s' :
      rs !! i = Some (mkRequest env (Call c k)) -> answers c s r s' ->
      runner_step (mkRunner s h n rs) (mkRunner s' (logged env c r h) n (<[i := mkRequest env (k r)]> rs))
  | step_restart s h n rs : runner_step (mkRunner s h n rs) (mkRunner s h n ∅).

(** A runner that has been started and has taken no request yet. *)
Definition started (s : S) : Runner S := mkRunner s [] 0 ∅.

(** A request that has not made its first statement yet in [x]: it comes in
    afterwards, or it has come and waits. *)
Definition not_begun (x : Runner S) (i : nat) : Prop :=
  forall rq, rn_requests x !! i = Some rq -> rq = arrived (rq_env rq).
(** A request that was let in: the host works on it, or has. *)
Definition let_in (rq : Request) : Prop :=
  match rq_rest rq with
  | Call (FHost _) _ | Call (FRecordOutcome _ _) _ | Ret (Ok (Done _)) => True
  | _ => False
  end.
(** A request that has done nothing so far but ask for the epoch, and was not
    answered otherwise than by a refusal or an error. *)
Definition turned_away (rq : Request) : Prop :=
  match rq_rest rq with
  | Call FAcceptedEpoch _ | Ret (Ok (OutRefused _)) | Ret (Err _) => True
  | _ => False
  end.

Section Inv.
Context {FL : FenceStoreLaws S}.

Definition world_of (x : Runner S) : world := (view (rn_store x), rn_host x).

Lemma reads_answer {A} (op : ST FenceError S A) answer s r s' :
  reads view op answer -> op s = (r, s') -> view s' = view s /\ read_answer r (answer (view s)).
Proof. intros Hr Ho. by apply Hr in Ho. Qed.

Lemma answers_effect env T (c : fcall T) s h r s' :
  answers c s r s' -> effect env c (view s, h) r (view s', logged env c r h).
Proof.
  destruct c; cbn; intros Ha; subst; try done;
    try (eapply reads_answer in Ha as [-> Ha];
         [|first [apply accepted_epoch_reads|apply object_generation_reads|apply outcome_reads]]; done);
    split; try done;
    [apply accept_epoch_writes in Ha|apply accept_object_writes in Ha|apply record_outcome_writes in Ha];
    by destruct r.
Qed.

(** Rule of the pool: if every request keeps to its own specification while
    the others do what they like, so does every request of every run. *)
Section Pool.
Context (pre : nat -> Envelope -> world -> forall T, fcall T -> Prop)
  (post : nat -> Envelope -> world -> result string Outcome -> Prop) (J : world -> Prop).

Definition well (w : world) (i : nat) (rq : Request) : Prop :=
  holds J (rq_env rq) (pre i (rq_env rq)) (post i (rq_env rq)) w (rq_rest rq).

Context (HJ : forall i env w T (c : fcall T) r w', J w -> pre i env w T c -> effect env c w r w' -> J w').

Lemma runner_rule x y :
  rtc runner_step x y ->
  (forall i env w, (rn_next x <= i)%nat -> later (world_of x) w -> well w i (arrived env)) ->
  map_Forall (well (world_of x)) (rn_requests x) -> J (world_of x) ->
  later (world_of x) (world_of y) /\ map_Forall (well (world_of y)) (rn_requests y) /\ J (world_of y).
Proof.
  induction 1 as [x|x y z Hxy _ IH]; [by intros _ Hx HJx; split_and!|]. intros Hnew Hx HJx.
  cut (later (world_of x) (world_of y) /\ (rn_next x <= rn_next y)%nat /\
       map_Forall (well (world_of y)) (rn_requests y) /\ J (world_of y)).
  { intros (Hl & Hn & Hy & HJy). destruct IH as (Hl' & Hz); [|done..|].
    - intros i env w Hi Hw. apply Hnew; [lia|by transitivity (world_of y)].
    - split; [by transitivity (world_of y)|done]. }
  clear IH. destruct Hxy as [s h n rs env|s h n rs i env T c k r s' Hi Ha|s h n rs]; cbn in *.
  - split_and!; [reflexivity|lia| |done]. apply map_Forall_insert_2; [|done]. by apply Hnew.
  - pose proof (answers_effect env T c s h r s' Ha) as He. pose proof (effect_later _ _ _ _ _ _ He) as Hl.
    pose proof (Hx i _ Hi) as Hw. destruct (Hw (view s, h)) as [Hc Hk]; [reflexivity|done|]. split_and!; [done|lia| |by eapply HJ].
    apply map_Forall_insert_2; [by apply Hk|]. intros j rq Hj. eapply holds_later; [exact Hl|by apply Hx].
  - split_and!; [reflexivity|lia|by apply map_Forall_empty|done].
Qed.
End Pool.

(** ** What every request keeps to

    [base] is the world when the runner was started. *)
Section Keeping.
Context (base : world).

(** Every recorded answer was there at the start, or is one the host gave to
    a request with that id. *)
Definition told (id text : string) (w : world) : Prop :=
  m_outcomes base.1 !! id = Some text \/
  exists env reply, (env, reply) ∈ w.2 /\ e_request_id env = id /\ to_json reply = Ok text.
Definition truthful (w : world) : Prop :=
  later base w /\ forall id text, m_outcomes w.1 !! id = Some text -> told id text w.

(** A change is let in only once its epoch and its generation are in the
    store, and only if its id was new when the runner was started. *)
Definition accepted (env : Envelope) (w : world) : Prop :=
  mutates (e_op env) = true ->
  e_epoch env <= m_epoch w.1 /\ m_outcomes base.1 !! e_request_id env = None /\
  exists object g d, e_object env = Some object /\
    m_objects w.1 !! of_object_id object = Some (g, d) /\ of_generation object <= g.

Definition may (env : Envelope) (w : world) T (c : fcall T) : Prop :=
  match c with
  | FHost _ => accepted env w
  | FRecordOutcome id out => accepted env w /\ told id out w
  | _ => True
  end.
Definition ends (env : Envelope) (w : world) (r : result string Outcome) : Prop :=
  match r with
  | Ok (Done reply) => accepted env w /\ (env, reply) ∈ w.2 /\
      (mutates (e_op env) = true -> is_Some (m_outcomes w.1 !! e_request_id env))
  | Ok (Replayed recorded) => told (e_request_id env) recorded w
  | _ => True
  end.

Lemma told_later id text w w' : later w w' -> told id text w -> told id text w'.
Proof. intros [_ Hh] [?|(env & reply & Hin & Hr)]; [by left|right; eauto]. Qed.

Lemma accepted_later env w w' : later w w' -> accepted env w -> accepted env w'.
Proof.
  intros [(He & Ho & _) _] Ha Hm. destruct (Ha Hm) as (Hep & Hb & object & g & d & Hobj & Hl & Hg).
  destruct (Ho _ _ _ Hl) as (g' & d' & Hl' & Hle & _).
  split_and!; [lia|done|]. exists object, g', d'. split_and!; [done|done|lia].
Qed.

Lemma truthful_kept env w T (c : fcall T) r w' :
  truthful w -> may env w T c -> effect env c w r w' -> truthful w'.
Proof.
  intros [Hb Ht] Hm He. pose proof (effect_later _ _ _ _ _ _ He) as Hl.
  split; [by transitivity w|]. intros id text Htext.
  assert (Hold : m_outcomes w.1 !! id = Some text -> told id text w') by (intros; eapply told_later; eauto).
  destruct c; cbn in He, Hm; try (by subst w'; auto); try (by destruct He as [He _]; subst w'; auto);
    destruct He as [Hh Hw]; cbn in Hw.
  - apply Hold. destruct r; cbn in Hw; [by rewrite Hw in Htext|by destruct Hw as [Hw|Hw]; rewrite Hw in Htext].
  - apply Hold. destruct r; cbn in Hw; [|destruct Hw as [Hw|Hw]]; rewrite Hw in Htext; try done;
      unfold mem_accept_object in Htext; by destruct (newer _ _).
  - destruct Hm as [_ Hm].
    assert (Hcase : w'.1 = w.1 \/ w'.1 = mem_record request_id out w.1) by (destruct r; cbn in Hw; tauto).
    destruct Hcase as [Hc|Hc]; rewrite Hc in Htext; [by apply Hold|]. cbn in Htext.
    destruct (decide (id = request_id)) as [->|Hne]; [|rewrite lookup_insert_ne in Htext by done; by apply Hold].
    rewrite lookup_insert_eq in Htext. injection Htext as <-. by eapply told_later.
Qed.

Lemma mem_accept_object_holds id g d m :
  exists g' d', m_objects (mem_accept_object id g d m) !! id = Some (g', d') /\ g <= g'.
Proof.
  unfold mem_accept_object. destruct (m_objects m !! id) as [[g0 d0]|] eqn:Hl; cbn.
  - destruct (Z.ltb_spec g0 g); cbn; [exists g, d; by rewrite lookup_insert_eq|exists g0, d0; by rewrite Hl].
  - exists g, d. by rewrite lookup_insert_eq.
Qed.

Lemma admit_holds env w :
  holds truthful env (may env) (fun w r =>
    match r with
    | Ok Allowed => accepted env w
    | Ok (AlreadyDone recorded) => told (e_request_id env) recorded w
    | _ => True
    end) w (admit_calls rfc3339 cfg env (mutates (e_op env))).
Proof.
  unfold admit_calls. destruct (misaddressed _ _ _); [done|].
  apply holds_ask; [done| |done]. intros w1 z w2 _ _ _.
  destruct (e_epoch env <? z); [done|]. apply holds_get; [done|]. intros w3 now w4 _ _ _.
  destruct (f_max_skew cfg <? _); [done|]. destruct (_ <=? now); [by destruct (rfc3339 _)|].
  destruct (mutates (e_op env)) eqn:Hm; cbn [negb]; [|by intros w5 _ _ ?; rewrite Hm in *].
  destruct (e_object env) as [o|] eqn:Ho; [|done].
  apply holds_ask; [done| |done]. intros w5 known w6 _ _ _. destruct (object_refusal _ _); [done|].
  apply holds_ask; [done| |done]. intros w7 recorded w8 _ [Hb Ht] [-> Hrec]. cbn in Hrec. subst recorded.
  destruct (m_outcomes w7.1 !! e_request_id env) as [out|] eqn:Hout.
  { intros w' Hw _. eapply told_later; [exact Hw|by apply Ht]. }
  assert (Hnone : m_outcomes base.1 !! e_request_id env = None).
  { apply eq_None_not_Some. intros Hs. destruct Hb as [(_ & _ & Hr) _]. apply Hr in Hs as [? Hs]. congruence. }
  apply holds_ask; [done| |done]. intros w9 [] w10 _ _ [_ Hep]. cbn in Hep.
  apply holds_ask; [done| |done]. intros w11 [] w12 Hl _ [_ Hobj]. cbn in Hobj.
  intros w' Hw _. eapply accepted_later; [exact Hw|]. intros _.
  destruct (mem_accept_object_holds (of_object_id o) (of_generation o) (of_digest o) w11.1) as (g & d & Hg & Hle).
  rewrite <-Hobj in Hg. split_and!; [|done|by exists o, g, d].
  destruct Hl as [(Hl & _) _]. rewrite Hep in Hl. cbn in Hl. rewrite Hobj.
  pose proof (mem_accept_object_le (of_object_id o) (of_generation o) (of_digest o) w11.1) as (Hk & _). lia.
Qed.

Lemma serve_holds env w :
  holds truthful env (may env) (ends env) w (serve_calls rfc3339 to_json cfg env).
Proof.
  unfold serve_calls. apply holds_try. unfold host_error. apply holds_bind.
  eapply holds_mono; [|apply admit_holds]. intros w1 [[|recorded|why]|e] Ha; cbn [map_err];
    intros w2 Hw2 HJ2; [|by intros w3 Hw3 _; eapply told_later; [|exact Ha]; transitivity w2|done|done].
  pose proof (accepted_later _ _ _ Hw2 Ha) as Ha2.
  change (holds truthful env (may env) (ends env) w2 (allowed_calls to_json env)). apply holds_ask; [|intros w3 reply w4 Hw3 _ He|done].
  { intros w3 Hw3 _. by eapply accepted_later. }
  assert (Hlog : (env, reply) ∈ w4.2) by (cbn in He; subst w4; set_solver).
  assert (Ha4 : accepted env w4).
  { eapply accepted_later; [|exact Ha2]. transitivity w3; [done|by eapply effect_later]. }
  cbn in He. subst w4. destruct (mutates (e_op env)) eqn:Hm;
    [|intros w5 Hw5 _; split_and!; [by eapply accepted_later|by apply Hw5|by rewrite Hm]].
  destruct (to_json reply) as [text|e] eqn:Hj; [|done]. apply holds_try. intros w5 Hw5 _.
  assert (Ht : told (e_request_id env) text w5).
  { right. exists env, reply. split_and!; [|done|done]. apply Hw5. set_solver. }
  apply holds_ask; [intros w6 Hw6 _|intros w6 [] w7 Hw6 _ He7|done].
  - split; [eapply accepted_later; [|exact Ha4]; by transitivity w5|by eapply told_later].
  - intros w8 Hw8 _.
    assert (Hl : later (w3.1, host_log env (Ok reply) w3.2) w8).
    { transitivity w5; [done|]. transitivity w6; [done|]. transitivity w7; [by eapply effect_later|done]. }
    split_and!; [by eapply accepted_later|by apply Hl|].
    intros _. destruct He7 as [_ He7]. cbn in He7. destruct Hw8 as [(_ & _ & Hr) _]. apply Hr.
    rewrite He7. cbn. rewrite lookup_insert_eq. by eexists.
Qed.
End Keeping.

(** In every run from a start, every request keeps to that, and every answer
    in the store is true. *)
Lemma run_kept s x :
  rtc runner_step (started s) x ->
  map_Forall (well (fun _ => may (view s, [])) (fun _ => ends (view s, [])) (truthful (view s, [])) (world_of x))
    (rn_requests x) /\ truthful (view s, []) (world_of x).
Proof.
  intros Hx. eapply (runner_rule (fun _ => may (view s, [])) (fun _ => ends (view s, [])) (truthful (view s, [])))
    in Hx as (_ & Hw & HJ); [done| | | |].
  - intros _ env w T c r w'. apply truthful_kept.
  - intros i env w _ _. apply serve_holds.
  - apply map_Forall_empty.
  - split; [reflexivity|]. intros id text Ht. by left.
Qed.

Lemma let_in_accepted s x j rq :
  rtc runner_step (started s) x -> rn_requests x !! j = Some rq -> let_in rq ->
  accepted (view s, []) (rq_env rq) (world_of x).
Proof.
  intros (Hw & HJ)%run_kept Hj Hin. specialize (Hw j rq Hj). unfold well, let_in in *.
  destruct rq as [env [[[reply| |]|]|T c k]]; cbn in *; try done.
  - by apply Hw.
  - destruct (Hw (world_of x)) as [Hc _]; [reflexivity|done|]. destruct c; cbn in Hc; tauto.
Qed.

(** ** Requests that come too late *)

Definition asks_epoch (w : world) T (c : fcall T) : Prop :=
  match c with FAcceptedEpoch => True | _ => False end.
Definition refusal (w : world) (r : result string Outcome) : Prop :=
  match r with Ok (Done _) | Ok (Replayed _) => False | _ => True end.

(** Against a newer epoch nothing is done but asking for it. *)
Lemma stale_holds J env w :
  e_epoch env < m_epoch w.1 -> holds J env asks_epoch refusal w (serve_calls rfc3339 to_json cfg env).
Proof.
  intros Hlt. unfold serve_calls. apply holds_try. unfold host_error. apply holds_bind. unfold admit_calls.
  destruct (misaddressed _ _ _); [done|].
  apply holds_ask; [done| |by intros e w1 w2]. intros w1 z w2 [(Hl & _) _] _ [-> Hz]. cbn in Hz. subst z.
  destruct (Z.ltb_spec (e_epoch env) (m_epoch w1.1)); [done|lia].
Qed.

Definition only_reads (w : world) T (c : fcall T) : Prop :=
  match c with FAcceptedEpoch | FNow | FObjectGeneration _ | FOutcome _ => True | _ => False end.
Definition not_run (w : world) (r : result string Outcome) : Prop :=
  match r with Ok (Done _) => False | _ => True end.

(** A change whose id has an answer only reads. *)
Lemma repeated_holds J env w :
  mutates (e_op env) = true -> is_Some (m_outcomes w.1 !! e_request_id env) ->
  holds J env only_reads not_run w (serve_calls rfc3339 to_json cfg env).
Proof.
  intros Hm Hs. unfold serve_calls. apply holds_try. unfold host_error. apply holds_bind. unfold admit_calls.
  rewrite Hm. destruct (misaddressed _ _ _); [done|].
  apply holds_ask; [done| |done]. intros w1 z w2 L1 _ E1. destruct (e_epoch env <? z); [done|].
  apply holds_get; [done|]. intros w3 now w4 L3 _ E3.
  destruct (f_max_skew cfg <? _); [done|]. destruct (_ <=? now); [by destruct (rfc3339 _)|]. cbn [negb].
  destruct (e_object env) as [o|]; [|done].
  apply holds_ask; [done| |done]. intros w5 known w6 L5 _ E5. destruct (object_refusal _ _); [done|].
  apply holds_ask; [done| |done]. intros w7 recorded w8 L7 _ [-> Hrec]. cbn in Hrec. subst recorded.
  assert (later w w7) as [(_ & _ & Hr) _].
  { etransitivity; [exact L1|]. etransitivity; [exact (effect_later _ _ _ _ _ _ E1)|].
    etransitivity; [exact L3|]. etransitivity; [exact (effect_later _ _ _ _ _ _ E3)|].
    etransitivity; [exact L5|]. etransitivity; [exact (effect_later _ _ _ _ _ _ E5)|exact L7]. }
  apply Hr in Hs as [out ->]. done.
Qed.

(** A change with an older generation than its object has only reads, and is
    refused. *)
Lemma older_holds J env object g d w :
  mutates (e_op env) = true -> e_object env = Some object ->
  m_objects w.1 !! of_object_id object = Some (g, d) -> of_generation object < g ->
  holds J env only_reads refusal w (serve_calls rfc3339 to_json cfg env).
Proof.
  intros Hm Ho Hl Hlt. unfold serve_calls. apply holds_try. unfold host_error. apply holds_bind. unfold admit_calls.
  rewrite Hm. destruct (misaddressed _ _ _); [done|].
  apply holds_ask; [done| |done]. intros w1 z w2 L1 _ E1. destruct (e_epoch env <? z); [done|].
  apply holds_get; [done|]. intros w3 now w4 L3 _ E3.
  destruct (f_max_skew cfg <? _); [done|]. destruct (_ <=? now); [by destruct (rfc3339 _)|]. cbn [negb]. rewrite Ho.
  apply holds_ask; [done| |done]. intros w5 known w6 L5 _ [-> Hk]. cbn in Hk. subst known.
  assert (later w w5) as [(_ & Hobj & _) _].
  { etransitivity; [exact L1|]. etransitivity; [exact (effect_later _ _ _ _ _ _ E1)|].
    etransitivity; [exact L3|]. etransitivity; [exact (effect_later _ _ _ _ _ _ E3)|exact L5]. }
  destruct (Hobj _ _ _ Hl) as (g' & d' & -> & Hle & _). cbn.
  destruct (Z.ltb_spec (of_generation object) g'); [done|lia].
Qed.

(** A specification that is asked only under a condition. *)
Lemma holds_if (Q : Prop) J env pre {B} (post : world -> B -> Prop) w p :
  (Q -> holds J env pre post w p) -> holds J env (fun w T c => Q -> pre w T c) (fun w b => Q -> post w b) w p.
Proof.
  revert w. induction p as [b|T c k IH]; cbn; intros w H; [auto|].
  intros w1 Hw HJ. split; [intros q; by apply H|]. intros r w2 He. apply IH. intros q.
  by destruct (H q w1 Hw HJ) as [_ Hk]; apply Hk.
Qed.
Lemma holds_then (Q : Prop) J env pre {B} (post : world -> B -> Prop) w p :
  Q -> holds J env (fun w T c => Q -> pre w T c) (fun w b => Q -> post w b) w p -> holds J env pre post w p.
Proof.
  intros q. revert w. induction p as [b|T c k IH]; cbn; intros w H; [auto|].
  intros w1 Hw HJ. destruct (H w1 Hw HJ) as [Hc Hk]. split; [auto|]. intros r w2 He. by apply IH, Hk.
Qed.

Lemma steps_later x y : rtc runner_step x y -> later (world_of x) (world_of y).
Proof.
  intros Hxy. eapply (runner_rule (fun _ _ _ _ _ => True) (fun _ _ _ _ => True) (fun _ => True)) in Hxy
    as (Hl & _); [done|done|intros; apply holds_anything|intros i rq _; apply holds_anything|done].
Qed.

(** One request keeps to a specification that holds of it from [x] on. *)
Lemma later_request (P : Envelope -> Prop) pre post x y i rq :
  (forall env w, P env -> later (world_of x) w ->
     holds (fun _ => True) env pre post w (serve_calls rfc3339 to_json cfg env)) ->
  not_begun x i -> rtc runner_step x y -> rn_requests y !! i = Some rq -> P (rq_env rq) ->
  holds (fun _ => True) (rq_env rq) pre post (world_of y) (rq_rest rq).
Proof.
  intros Hp Hi Hxy Hrq HP.
  eapply (runner_rule (fun k env w T c => k = i /\ P env -> pre w T c)
            (fun k env w r => k = i /\ P env -> post w r) (fun _ => True))
    in Hxy as (_ & Hw & _); [| |intros k env w _ Hw|intros k rq' Hk|].
  - by eapply (holds_then (i = i /\ P (rq_env rq))), (Hw i rq Hrq).
  - done.
  - apply holds_if. intros [_ HPe]. by apply Hp.
  - apply holds_if. intros [-> HPe]. rewrite (Hi rq' Hk). by apply Hp.
  - done.
Qed.

(** What a request that comes after a newer epoch looks like at any time. *)
Lemma late_turned_away x y i rq :
  not_begun x i -> rtc runner_step x y -> rn_requests y !! i = Some rq ->
  e_epoch (rq_env rq) < m_epoch (view (rn_store x)) -> turned_away rq.
Proof.
  intros Hi Hxy Hrq Hlt.
  pose proof (later_request (fun env => e_epoch env < m_epoch (view (rn_store x))) asks_epoch refusal x y i rq) as Hh.
  specialize (Hh ltac:(intros env w He [(Hl & _) _]; apply stale_holds; cbn in He, Hl; lia) Hi Hxy Hrq Hlt).
  destruct rq as [env [[[| |]|]|T c k]]; unfold turned_away; cbn in *;
    try (exact (Hh (world_of y) ltac:(reflexivity) Logic.I)); try done.
  destruct (Hh (world_of y) ltac:(reflexivity) Logic.I) as [Hc _]. by destruct c.
Qed.

Lemma lower_epoch_turned_away s x y j new i old :
  rtc runner_step (started s) x -> rn_requests x !! j = Some new -> let_in new -> mutates (e_op (rq_env new)) = true ->
  not_begun x i -> rtc runner_step x y -> rn_requests y !! i = Some old -> e_epoch (rq_env old) < e_epoch (rq_env new) ->
  turned_away old.
Proof.
  intros Hx Hj Hin Hm Hi Hxy Hold Hlt. eapply let_in_accepted in Hj; [|exact Hx|done].
  destruct (Hj Hm) as (He & _). cbn in He. eapply late_turned_away; eauto. lia.
Qed.

(** A request that has only read and was refused, if it was answered. *)
Definition refused_by_reading (rq : Request) : Prop :=
  match rq_rest rq with
  | Call FAcceptedEpoch _ | Call FNow _ | Call (FObjectGeneration _) _ | Call (FOutcome _) _ => True
  | Ret (Ok (OutRefused _)) | Ret (Err _) => True
  | _ => False
  end.

Lemma older_generation_refused s x y j new i old object_id g1 g2 d1 d2 :
  rtc runner_step (started s) x -> rn_requests x !! j = Some new -> let_in new -> mutates (e_op (rq_env new)) = true ->
  e_object (rq_env new) = Some (mkObjectFence object_id g2 d2) ->
  not_begun x i -> rtc runner_step x y -> rn_requests y !! i = Some old -> mutates (e_op (rq_env old)) = true ->
  e_object (rq_env old) = Some (mkObjectFence object_id g1 d1) -> g1 < g2 -> refused_by_reading old.
Proof.
  intros Hx Hj Hin Hm Hobj Hi Hxy Hold Hm' Hobj' Hlt. eapply let_in_accepted in Hj; [|exact Hx|done].
  destruct (Hj Hm) as (_ & _ & o & g & d & Ho & Hl & Hle). rewrite Ho in Hobj. injection Hobj as ->. cbn in Hl, Hle.
  pose proof (later_request (fun env => mutates (e_op env) = true /\ e_object env = Some (mkObjectFence object_id g1 d1))
    only_reads refusal x y i old) as Hh. specialize (Hh ltac:(
      intros env w [Hme Hoe] [(_ & Hk & _) _]; destruct (Hk _ _ _ Hl) as (g' & d' & Hl' & Hle' & _);
      eapply older_holds; [exact Hme|exact Hoe|exact Hl'|cbn; lia]) Hi Hxy Hold (conj Hm' Hobj')).
  destruct old as [env [[[| |]|]|T c k]]; unfold refused_by_reading; cbn in *;
    try (exact (Hh (world_of y) ltac:(reflexivity) Logic.I)); try done.
  destruct (Hh (world_of y) ltac:(reflexivity) Logic.I) as [Hc _]. by destruct c.
Qed.
End Inv.
End Runner.

(** ** Properties *)

Section Properties.
Context {S : Type} {FS : FenceStore S} {FL : FenceStoreLaws S}.
Context (rfc3339 : Z -> result string string) (to_json : Reply -> result string string) (cfg : FenceConfig).

Abbreviation steps := (rtc (runner_step rfc3339 to_json cfg)).
Abbreviation untouched := (not_begun rfc3339 to_json cfg).

(** C1.  A replaced controller is fenced out.  Requests are served at the same
    time, statement by statement, over any store that keeps the promises of
    [FenceStore], with failing statements and restarts.  Once a change under
    some epoch has been let in, a request under a lower epoch that has not
    made its first statement by then does nothing, in any interleaving, but
    ask for the epoch: it reaches neither the host nor the rest of the store,
    and it is never answered otherwise than by a refusal or an error.  (A
    request that had read the epoch before is not covered: see
    [in_flight_not_fenced].) *)
Theorem replaced_controller_fenced_out s x y j new i old :
  steps (started s) x -> rn_requests x !! j = Some new -> let_in new -> mutates (e_op (rq_env new)) = true ->
  untouched x i -> steps x y -> rn_requests y !! i = Some old -> e_epoch (rq_env old) < e_epoch (rq_env new) ->
  turned_away old.
Proof. intros; by eapply lower_epoch_turned_away. Qed.

(** A request that has at most read so far and, if it was answered, was not
    carried out. *)
Definition not_carried_out (rq : Request) : Prop :=
  match rq_rest rq with
  | Call FAcceptedEpoch _ | Call FNow _ | Call (FObjectGeneration _) _ | Call (FOutcome _) _ => True
  | Call _ _ | Ret (Ok (Done _)) => False
  | Ret _ => True
  end.

(** C20.  A change that was carried out and answered is not carried out again.
    If a delivery of a change has been answered, then in any interleaving with
    other requests, failing statements and restarts, another delivery of the
    same id that begins afterwards only reads the store and never reaches the
    host; the host's history keeps what it replied; and if the later delivery
    is answered from memory, the answer is the recorded JSON of what the host
    replied to a delivery of that id.  (Two deliveries that
    overlap may both run: see [in_flight_not_fenced].) *)
Theorem answered_request_not_repeated s x y j done_ reply i again :
  steps (started s) x -> rn_requests x !! j = Some done_ -> rq_rest done_ = Ret (Ok (Done reply)) ->
  mutates (e_op (rq_env done_)) = true ->
  untouched x i -> steps x y -> rn_requests y !! i = Some again ->
  mutates (e_op (rq_env again)) = true -> e_request_id (rq_env again) = e_request_id (rq_env done_) ->
  not_carried_out again /\ (rq_env done_, reply) ∈ rn_host y /\
  (forall recorded, rq_rest again = Ret (Ok (Replayed recorded)) ->
     exists env answer, (env, answer) ∈ rn_host y /\ e_request_id env = e_request_id (rq_env again) /\
       to_json answer = Ok recorded).
Proof.
  intros Hx Hj Hdone Hm Hi Hxy Hagain Hm' Hid.
  assert (Hacc : accepted (view s, []) (rq_env done_) (world_of x)).
  { eapply let_in_accepted; eauto. unfold let_in. by rewrite Hdone. }
  destruct (Hacc Hm) as (_ & Hnew & _).
  assert ((rq_env done_, reply) ∈ rn_host x /\ is_Some (m_outcomes (view (rn_store x)) !! e_request_id (rq_env done_)))
    as [Hlog Hrec].
  { destruct (run_kept rfc3339 to_json cfg s x Hx) as [Hw HJ]. specialize (Hw j done_ Hj). unfold well in Hw. rewrite Hdone in Hw.
    cbn in Hw. destruct (Hw (world_of x) ltac:(reflexivity) HJ) as (_ & Hl & Hr). cbn in Hl, Hr. auto. }
  split_and!.
  - pose proof (later_request rfc3339 to_json cfg (fun env => mutates (e_op env) = true /\ e_request_id env = e_request_id (rq_env done_))
      only_reads not_run x y i again) as Hh. specialize (Hh ltac:(
        intros env w [Hme Hie] [(_ & _ & Hk) _]; apply repeated_holds; [exact Hme|rewrite Hie; by apply Hk])
        Hi Hxy Hagain (conj Hm' Hid)).
    destruct again as [env [[[| |]|]|T c k]]; unfold not_carried_out; cbn in *; try done.
    + exact (Hh (world_of y) ltac:(reflexivity) Logic.I).
    + destruct (Hh (world_of y) ltac:(reflexivity) Logic.I) as [Hc _]. by destruct c.
  - destruct (steps_later rfc3339 to_json cfg x y Hxy) as [_ Hh]. by apply Hh.
  - intros recorded Hr. destruct (run_kept rfc3339 to_json cfg s y) as [Hw HJ]; [by etransitivity|].
    specialize (Hw i again Hagain). unfold well in Hw. rewrite Hr in Hw. cbn in Hw.
    destruct (Hw (world_of y) ltac:(reflexivity) HJ) as [Ht|Ht]; [|done]. rewrite Hid in Ht. cbn in Ht, Hnew. congruence.
Qed.
End Properties.

(** ** Schedules: runs that can be computed *)

Section Schedule.
Context {S : Type} {FS : FenceStore S}.
Context (rfc3339 : Z -> result string string) (to_json : Reply -> result string string) (cfg : FenceConfig).

(** A request comes; request [i] makes its next statement, at a time and with
    an answer of the host; the runner restarts. *)
Inductive act : Type :=
  | Come (env : Envelope)
  | Next (i : nat) (now : Z) (reply : result string Reply)
  | Restart.

Definition answer {T} (c : fcall T) (now : Z) (reply : result string Reply) (s : S) : T * S :=
  match c in fcall T return T * S with
  | FAcceptedEpoch => accepted_epoch s
  | FNow => (now, s)
  | FObjectGeneration id => object_generation id s
  | FOutcome id => outcome id s
  | FAcceptEpoch epoch => accept_epoch epoch s
  | FAcceptObject id g d => accept_object id g d s
  | FRecordOutcome id out => record_outcome id out s
  | FHost _ => (reply, s)
  end.

Definition act_on (x : Runner S) (a : act) : Runner S :=
  match a with
  | Come env =>
      mkRunner (rn_store x) (rn_host x) (rn_next x + 1)
        (<[rn_next x := arrived rfc3339 to_json cfg env]> (rn_requests x))
  | Next i now reply =>
      match rn_requests x !! i with
      | Some (mkRequest env (Call c k)) =>
          let '(r, s') := answer c now reply (rn_store x) in
          mkRunner s' (logged env c r (rn_host x)) (rn_next x) (<[i := mkRequest env (k r)]> (rn_requests x))
      | _ => x
      end
  | Restart => mkRunner (rn_store x) (rn_host x) (rn_next x) ∅
  end.

Definition schedule (x : Runner S) (acts : list act) : Runner S := foldl act_on x acts.

Lemma act_steps x a : rtc (runner_step rfc3339 to_json cfg) x (act_on x a).
Proof.
  destruct x as [s h n rs], a as [env|i now reply|]; cbn.
  - apply rtc_once. constructor.
  - destruct (rs !! i) as [[env [a|T c k]]|] eqn:Hi; [apply rtc_refl| |apply rtc_refl].
    destruct (answer c now reply s) as [r s'] eqn:Ha. apply rtc_once. eapply step_call; [exact Hi|].
    revert r Hi Ha. destruct c; cbn; intros r _ Ha; congruence.
  - apply rtc_once. constructor.
Qed.

Lemma schedule_steps x acts : rtc (runner_step rfc3339 to_json cfg) x (schedule x acts).
Proof.
  revert x. induction acts as [|a acts IH]; intros x; cbn; [apply rtc_refl|].
  etransitivity; [apply act_steps|apply IH].
Qed.
End Schedule.

(** ** Two requests on a [SqliteFence] *)

#[local] Existing Instance SqliteFence_laws.
#[local] Instance wit_fence : FenceStore SqliteFence := SqliteFence_store wit_rfc3339.

Definition wit_order (id : string) (epoch generation : Z) : Envelope :=
  mkEnvelope 1 (Some "m1") epoch "ctl" (100 * nanos_per_sec) (10 * nanos_per_sec) id
    (Some (mkObjectFence "vm" generation "d")) (StartInstance (mkInstanceRef "vm" "web")).
Definition wit_run : Runner SqliteFence -> list act -> Runner SqliteFence := schedule wit_rfc3339 wit_json wit_cfg.

Lemma wit_run_steps x acts : rtc (runner_step wit_rfc3339 wit_json wit_cfg) x (wit_run x acts).
Proof. apply schedule_steps. Qed.

Lemma wit_run_two x acts acts' : rtc (runner_step wit_rfc3339 wit_json wit_cfg) x (wit_run (wit_run x acts) acts').
Proof. etransitivity; apply wit_run_steps. Qed.

(** The next [n] statements of a request. *)
Definition wit_next (i n : nat) : list act := replicate n (Next i (11 * nanos_per_sec) (Ok (Changed Running))).
(** A change under epoch 5 let in; one under epoch 4 then comes. *)
Definition wit_x : Runner SqliteFence := wit_run (started wit_store) (Come (wit_order "a" 5 2) :: wit_next 0 6).
Definition wit_y : Runner SqliteFence := wit_run wit_x (Come (wit_order "b" 4 3) :: wit_next 1 6).

Definition no_request : Request := mkRequest (wit_order "" 0 0) (Ret (Err "none")).
Definition the_request (x : Runner SqliteFence) (i : nat) : Request := default no_request (rn_requests x !! i).

Lemma replaced_controller_fenced_out_witness :
  let_in (the_request wit_x 0) /\ turned_away (the_request wit_y 1) /\
  e_epoch (rq_env (the_request wit_y 1)) < e_epoch (rq_env (the_request wit_x 0)).
Proof.
  split; [vm_compute; exact Logic.I|]. split; [|vm_compute; reflexivity].
  eapply (replaced_controller_fenced_out (FL := SqliteFence_laws wit_rfc3339) wit_rfc3339 wit_json wit_cfg wit_store wit_x wit_y 0
    (the_request wit_x 0) 1 (the_request wit_y 1));
    [apply schedule_steps|vm_compute; reflexivity|vm_compute; exact Logic.I|vm_compute; reflexivity| |apply schedule_steps
    |vm_compute; reflexivity|vm_compute; reflexivity].
  intros rq Hrq. exfalso. revert Hrq. vm_compute. discriminate.
Defined.

(** The change carried out and answered; the same id then comes again. *)
Definition wit_done : Runner SqliteFence := wit_run wit_x (wit_next 0 2).
Definition wit_again : Runner SqliteFence := wit_run wit_done (Come (wit_order "a" 5 2) :: wit_next 1 6).

Lemma answered_request_not_repeated_witness :
  rq_rest (the_request wit_done 0) = Ret (Ok (Done (Changed Running))) /\
  rq_rest (the_request wit_again 1) = Ret (Ok (Replayed "{}")) /\ rn_host wit_again = rn_host wit_done /\
  not_carried_out (the_request wit_again 1).
Proof.
  split; [vm_compute; reflexivity|]. split; [vm_compute; reflexivity|]. split; [vm_compute; reflexivity|].
  refine (proj1 (answered_request_not_repeated (FL := SqliteFence_laws wit_rfc3339) wit_rfc3339 wit_json wit_cfg wit_store
    wit_done wit_again 0 (the_request wit_done 0) (Changed Running) 1 (the_request wit_again 1) _ _ _ _ _ _ _ _ _));
    [|vm_compute; reflexivity|vm_compute; reflexivity|vm_compute; reflexivity| |apply schedule_steps
    |vm_compute; reflexivity|vm_compute; reflexivity|vm_compute; reflexivity].
  - apply wit_run_two.
  - intros rq Hrq. exfalso. revert Hrq. vm_compute. discriminate.
Defined.

(** ** What the fence does not promise *)


