(* ===== verification/Db.v ===== *)
(** * Db: [crates/store/src/{lib.rs,schema.sql,migrate.rs}]

    The SQLite database behind the control plane: one table per [CREATE
    TABLE], keyed by its primary key, with rows typed as SQLite stores them
    (text for states and times, 64-bit integers for counts).  A statement
    that would break a constraint of the schema fails and changes nothing;
    [with_tx] rolls a failed transaction back.  [wf_db] collects what the
    schema and the migrations guarantee of every table. *)

From Stdlib Require Import ZArith Lia.
From S2P Require Import Prelude Text Types.
Open Scope Z_scope.

(** ** Times

    The [time] crate writes and reads RFC 3339 text.  What the store relies
    on is that reading gives back what was written. *)
Class TimeFormat : Type := {
  rfc3339_format : Z -> result string string;
  rfc3339_parse : string -> result string Z;
  parse_of_format : forall t s, rfc3339_format t = Ok s -> rfc3339_parse s = Ok t
}.

(** ** Errors *)

(** What [rusqlite] reports. *)
Inductive SqlError : Type :=
  | ForeignKey
  | UniqueViolation
  | CheckViolation
  | RaiseAbort (message : string)
  | Conversion (message : string)
  | OutOfRange (value : Z)
  | IntegerOverflow
  | QueryReturnedNoRows.

Inductive StoreError : Type :=
  | NotFound
  | NameTaken
  | SshKeyTaken
  | OverCapacity (resource : string) (used requested limit : Z)
  | NameCooldown (name : string) (remaining : Z)
  | NoFreeSubnet
  | InvalidPrivateRange (message : string)
  | LeaseHeld (holder : string) (expires_at : Z)
  | LeaseLost
  | RunnerPrefix (prefix : Z)
  | RunnerPrefixStrandsSlot (prefix slot : Z)
  | RunnerPrefixSplitsOwners (prefix slot : Z)
  | NoSuchSlot (slot count : Z)
  | SlotInUse (slot occupied : Z)
  | NoPlacement (reasons : string)
  | SqlFailure (e : SqlError).

(** ** Rows *)

Record UserRow : Type := mkUserRow {
  ur_name : string; ur_email : string; ur_oidc_subject : option string; ur_subnet : string;
  ur_created_at : string
}.
Record KeyRow : Type := mkKeyRow {
  kr_user_id : Z; kr_public_key : string; kr_fingerprint : string; kr_comment : string;
  kr_created_at : string
}.
Record HostRow : Type := mkHostRow {
  hr_machine_id : option string; hr_name : string; hr_libvirt_uri : string;
  hr_endpoint : option string; hr_underlay : option string; hr_enabled : bool;
  hr_placement : string; hr_created_at : string
}.
Record LeaseRow : Type := mkLeaseRow {
  lr_holder_id : option string; lr_epoch : Z; lr_expires_at : option string
}.
Record SlotRow : Type := mkSlotRow {
  sr_state : string; sr_owner : Z; sr_epoch : Z; sr_source : option Z;
  sr_destination : option Z; sr_operation : option string
}.
Record ImageRow : Type := mkImageRow {
  gr_url : string; gr_kind : string; gr_pinned_checksum : option string;
  gr_current_checksum : option string
}.
Record VersionRow : Type := mkVersionRow {
  vr_image_name : string; vr_path : string; vr_size : Z; vr_kind : string;
  vr_source_digest : option string; vr_fetched_at : string
}.
Record InstanceRow : Type := mkInstanceRow {
  in_name : string; in_owner_id : Z; in_host_id : Z; in_image_name : string;
  in_base_checksum : string; in_state : string; in_desired_state : string;
  in_address : string; in_mac : string; in_vcpu : Z; in_memory : Z; in_disk : Z;
  in_nested : bool; in_ksm : bool; in_http_port : Z; in_visibility : string;
  in_created_at : string; in_last_seen_at : option string; in_slot : option Z
}.
Record PairingRow : Type := mkPairingRow {
  pw_token_hash : string; pw_public_key : string; pw_fingerprint : string;
  pw_comment : string; pw_created_at : string; pw_expires_at : string;
  pw_linked_user_id : option Z
}.
Record TokenRow : Type := mkTokenRow {
  tr_user_id : Z; tr_hash : string; tr_expires_at : option string
}.
Record ObservationRow : Type := mkObservationRow {
  ob_health : string; ob_last_contact_at : option string; ob_accepted_epoch : Z;
  ob_arch : option string; ob_cpu_count : option Z; ob_memory_total_mib : option Z;
  ob_storage_total_gib : option Z; ob_storage_available_gib : option Z;
  ob_hypervisor_version : option string; ob_last_error : option string
}.

#[global] Instance SlotRow_eq_dec : EqDecision SlotRow.
Proof. solve_decision. Defined.
#[global] Instance InstanceRow_eq_dec : EqDecision InstanceRow.
Proof. solve_decision. Defined.

(** ** The database *)

Record Db : Type := mkDb {
  users : gmap Z UserRow;
  ssh_keys : gmap Z KeyRow;
  hosts : gmap Z HostRow;
  deployment_prefix : Z;
  controller_lease : LeaseRow;
  runner_slots : gmap Z SlotRow;
  host_observations : gmap Z ObservationRow;
  host_images : gmap (Z * string * string) string;
  images : gmap string ImageRow;
  image_versions : gmap string VersionRow;
  image_source_versions : gmap (string * string) string;
  instances : gmap string InstanceRow;
  shares : gmap (string * Z) string;
  released_names : gmap string (Z * string);
  pairings : gmap Z PairingRow;
  tokens : gmap Z TokenRow;
  dispatch_generations : gmap string Z
}.

(** A fresh database: [schema.sql] writes the deployment and lease rows. *)
Definition empty_db : Db :=
  mkDb ∅ ∅ ∅ 24 (mkLeaseRow None 0 None) ∅ ∅ ∅ ∅ ∅ ∅ ∅ ∅ ∅ ∅ ∅ ∅.

Definition set_users (f : gmap Z UserRow -> gmap Z UserRow) (d : Db) : Db :=
  mkDb (f (users d)) (ssh_keys d) (hosts d) (deployment_prefix d) (controller_lease d)
    (runner_slots d) (host_observations d) (host_images d) (images d) (image_versions d)
    (image_source_versions d) (instances d) (shares d) (released_names d) (pairings d) (tokens d)
    (dispatch_generations d).
Definition set_ssh_keys (f : gmap Z KeyRow -> gmap Z KeyRow) (d : Db) : Db :=
  mkDb (users d) (f (ssh_keys d)) (hosts d) (deployment_prefix d) (controller_lease d)
    (runner_slots d) (host_observations d) (host_images d) (images d) (image_versions d)
    (image_source_versions d) (instances d) (shares d) (released_names d) (pairings d) (tokens d)
    (dispatch_generations d).
Definition set_hosts (f : gmap Z HostRow -> gmap Z HostRow) (d : Db) : Db :=
  mkDb (users d) (ssh_keys d) (f (hosts d)) (deployment_prefix d) (controller_lease d)
    (runner_slots d) (host_observations d) (host_images d) (images d) (image_versions d)
    (image_source_versions d) (instances d) (shares d) (released_names d) (pairings d) (tokens d)
    (dispatch_generations d).
Definition set_prefix (p : Z) (d : Db) : Db :=
  mkDb (users d) (ssh_keys d) (hosts d) p (controller_lease d)
    (runner_slots d) (host_observations d) (host_images d) (images d) (image_versions d)
    (image_source_versions d) (instances d) (shares d) (released_names d) (pairings d) (tokens d)
    (dispatch_generations d).
Definition set_lease (l : LeaseRow) (d : Db) : Db :=
  mkDb (users d) (ssh_keys d) (hosts d) (deployment_prefix d) l
    (runner_slots d) (host_observations d) (host_images d) (images d) (image_versions d)
    (image_source_versions d) (instances d) (shares d) (released_names d) (pairings d) (tokens d)
    (dispatch_generations d).
Definition set_slots (f : gmap Z SlotRow -> gmap Z SlotRow) (d : Db) : Db :=
  mkDb (users d) (ssh_keys d) (hosts d) (deployment_prefix d) (controller_lease d)
    (f (runner_slots d)) (host_observations d) (host_images d) (images d) (image_versions d)
    (image_source_versions d) (instances d) (shares d) (released_names d) (pairings d) (tokens d)
    (dispatch_generations d).
Definition set_observations (f : gmap Z ObservationRow -> gmap Z ObservationRow) (d : Db) : Db :=
  mkDb (users d) (ssh_keys d) (hosts d) (deployment_prefix d) (controller_lease d)
    (runner_slots d) (f (host_observations d)) (host_images d) (images d) (image_versions d)
    (image_source_versions d) (instances d) (shares d) (released_names d) (pairings d) (tokens d)
    (dispatch_generations d).
Definition set_host_images (f : gmap (Z * string * string) string -> gmap (Z * string * string) string)
    (d : Db) : Db :=
  mkDb (users d) (ssh_keys d) (hosts d) (deployment_prefix d) (controller_lease d)
    (runner_slots d) (host_observations d) (f (host_images d)) (images d) (image_versions d)
    (image_source_versions d) (instances d) (shares d) (released_names d) (pairings d) (tokens d)
    (dispatch_generations d).
Definition set_images (f : gmap string ImageRow -> gmap string ImageRow) (d : Db) : Db :=
  mkDb (users d) (ssh_keys d) (hosts d) (deployment_prefix d) (controller_lease d)
    (runner_slots d) (host_observations d) (host_images d) (f (images d)) (image_versions d)
    (image_source_versions d) (instances d) (shares d) (released_names d) (pairings d) (tokens d)
    (dispatch_generations d).
Definition set_versions (f : gmap string VersionRow -> gmap string VersionRow) (d : Db) : Db :=
  mkDb (users d) (ssh_keys d) (hosts d) (deployment_prefix d) (controller_lease d)
    (runner_slots d) (host_observations d) (host_images d) (images d) (f (image_versions d))
    (image_source_versions d) (instances d) (shares d) (released_names d) (pairings d) (tokens d)
    (dispatch_generations d).
Definition set_sources (f : gmap (string * string) string -> gmap (string * string) string)
    (d : Db) : Db :=
  mkDb (users d) (ssh_keys d) (hosts d) (deployment_prefix d) (controller_lease d)
    (runner_slots d) (host_observations d) (host_images d) (images d) (image_versions d)
    (f (image_source_versions d)) (instances d) (shares d) (released_names d) (pairings d) (tokens d)
    (dispatch_generations d).
Definition set_instances (f : gmap string InstanceRow -> gmap string InstanceRow) (d : Db) : Db :=
  mkDb (users d) (ssh_keys d) (hosts d) (deployment_prefix d) (controller_lease d)
    (runner_slots d) (host_observations d) (host_images d) (images d) (image_versions d)
    (image_source_versions d) (f (instances d)) (shares d) (released_names d) (pairings d) (tokens d)
    (dispatch_generations d).
Definition set_shares (f : gmap (string * Z) string -> gmap (string * Z) string) (d : Db) : Db :=
  mkDb (users d) (ssh_keys d) (hosts d) (deployment_prefix d) (controller_lease d)
    (runner_slots d) (host_observations d) (host_images d) (images d) (image_versions d)
    (image_source_versions d) (instances d) (f (shares d)) (released_names d) (pairings d) (tokens d)
    (dispatch_generations d).
Definition set_released (f : gmap string (Z * string) -> gmap string (Z * string)) (d : Db) : Db :=
  mkDb (users d) (ssh_keys d) (hosts d) (deployment_prefix d) (controller_lease d)
    (runner_slots d) (host_observations d) (host_images d) (images d) (image_versions d)
    (image_source_versions d) (instances d) (shares d) (f (released_names d)) (pairings d) (tokens d)
    (dispatch_generations d).
Definition set_pairings (f : gmap Z PairingRow -> gmap Z PairingRow) (d : Db) : Db :=
  mkDb (users d) (ssh_keys d) (hosts d) (deployment_prefix d) (controller_lease d)
    (runner_slots d) (host_observations d) (host_images d) (images d) (image_versions d)
    (image_source_versions d) (instances d) (shares d) (released_names d) (f (pairings d)) (tokens d)
    (dispatch_generations d).
Definition set_tokens (f : gmap Z TokenRow -> gmap Z TokenRow) (d : Db) : Db :=
  mkDb (users d) (ssh_keys d) (hosts d) (deployment_prefix d) (controller_lease d)
    (runner_slots d) (host_observations d) (host_images d) (images d) (image_versions d)
    (image_source_versions d) (instances d) (shares d) (released_names d) (pairings d) (f (tokens d))
    (dispatch_generations d).
Definition set_generations (f : gmap string Z -> gmap string Z) (d : Db) : Db :=
  mkDb (users d) (ssh_keys d) (hosts d) (deployment_prefix d) (controller_lease d)
    (runner_slots d) (host_observations d) (host_images d) (images d) (image_versions d)
    (image_source_versions d) (instances d) (shares d) (released_names d) (pairings d) (tokens d)
    (f (dispatch_generations d)).

(** ** Statements and transactions *)

Definition Tx (A : Type) : Type := ST StoreError Db A.

(** [Store::with_tx]: commit on success, roll back on error. *)
Definition with_tx {A} (m : Tx A) : Tx A :=
  fun d => match m d with
           | (Ok a, d') => (Ok a, d')
           | (Err e, _) => (Err e, d)
           end.

Definition query {A} (f : Db -> A) : Tx A := fun d => (Ok (f d), d).
Definition modify (f : Db -> Db) : Tx unit := fun d => (Ok tt, f d).
Definition lift_res {A} (r : result StoreError A) : Tx A := fun d => (r, d).
(** A constraint the statement must satisfy. *)
Definition require (holds : Db -> bool) (e : StoreError) : Tx unit :=
  fun d => (if holds d then Ok tt else Err e, d).

(** [to_sql_int], [from_sql_int] and the narrower reads of a row. *)
Definition to_sql_int (value : Z) : result StoreError Z :=
  if value <=? i64_max then Ok value else Err (SqlFailure (OutOfRange value)).
Definition from_sql_int (value : Z) : result StoreError Z :=
  if value <? 0 then Err (SqlFailure (OutOfRange value)) else Ok value.
Definition get_range (max value : Z) : result StoreError Z :=
  if (value <? 0) || (max <? value) then Err (SqlFailure (OutOfRange value)) else Ok value.
Definition opt_res {E A B} (f : A -> result E B) (o : option A) : result E (option B) :=
  match o with None => Ok None | Some a => Some <$> f a end.
Definition get_opt_u64 (value : option Z) : result StoreError (option Z) := opt_res from_sql_int value.

Section Time.
Context `{TimeFormat}.
Definition format_time (t : Z) : result StoreError string :=
  map_err (fun m => SqlFailure (Conversion m)) (rfc3339_format t).
Definition parse_time (s : string) : result StoreError Z :=
  map_err (fun m => SqlFailure (Conversion m)) (rfc3339_parse s).

Lemma parse_format_time t s : format_time t = Ok s -> parse_time s = Ok t.
Proof. unfold format_time, parse_time. rewrite !map_err_Ok. apply parse_of_format. Qed.
End Time.

(** [parse_enum]. *)
Definition parse_enum {A} `{StringEnum A} (s : string) : result StoreError A :=
  map_err (fun e => SqlFailure (Conversion (pe_kind e))) (from_str s).

Lemma parse_enum_as_str {A} `{StringEnum A} (a : A) : parse_enum (as_str a) = Ok a.
Proof. unfold parse_enum. by rewrite from_str_as_str. Qed.

(** The rowid SQLite gives a new row of an [INTEGER PRIMARY KEY] table: one
    more than the largest in use. *)
Definition next_rowid {V} (m : gmap Z V) : Z :=
  1 + foldr Z.max 0 (fst <$> map_to_list m).

Lemma foldr_max_ge l x : x ∈ l -> x <= foldr Z.max 0 l.
Proof. induction l as [|y l IH]; [set_solver|]. intros [->|Hx%IH]%elem_of_cons; simpl; lia. Qed.

Lemma next_rowid_fresh {V} (m : gmap Z V) : m !! next_rowid m = None.
Proof.
  destruct (m !! next_rowid m) as [v|] eqn:Hm; [|done].
  assert (next_rowid m ∈ fst <$> map_to_list m) as Hin%foldr_max_ge.
  { apply list_elem_of_fmap. exists (next_rowid m, v). by rewrite elem_of_map_to_list. }
  unfold next_rowid in Hin at 1. lia.
Qed.

(** ** Queries over a table *)

Section Tables.
Context {K V : Type} `{Countable K}.

Definition exists_row (p : K -> V -> bool) (m : gmap K V) : bool :=
  existsb (fun kv => p kv.1 kv.2) (map_to_list m).
Definition find_row (p : K -> V -> bool) (m : gmap K V) : option (K * V) :=
  find_first (fun kv => p kv.1 kv.2) (map_to_list m).
Definition rows (p : K -> V -> bool) (m : gmap K V) : list (K * V) :=
  filter (fun kv => p kv.1 kv.2 = true) (map_to_list m).

Lemma exists_row_true p m :
  exists_row p m = true <-> exists k v, m !! k = Some v /\ p k v = true.
Proof.
  unfold exists_row. rewrite existsb_exists. setoid_rewrite <-list_elem_of_In. split.
  - intros ([k v] & Hin%elem_of_map_to_list & Hp). eauto.
  - intros (k & v & Hin & Hp). exists (k, v). by rewrite elem_of_map_to_list.
Qed.

Lemma exists_row_false p m :
  exists_row p m = false <-> forall k v, m !! k = Some v -> p k v = false.
Proof.
  rewrite <-not_true_iff_false, exists_row_true. split.
  - intros Hn k v Hm. apply not_true_iff_false. intros Hp. apply Hn. eauto.
  - intros Hall (k & v & Hm & Hp). apply Hall in Hm. congruence.
Qed.

Lemma find_row_Some p m k v : find_row p m = Some (k, v) -> m !! k = Some v /\ p k v = true.
Proof.
  unfold find_row. intros [Hin Hp]%find_first_elem. by rewrite elem_of_map_to_list in Hin.
Qed.

Lemma find_row_None p m : find_row p m = None <-> forall k v, m !! k = Some v -> p k v = false.
Proof.
  unfold find_row. rewrite find_first_None, Forall_forall. split.
  - intros Hall k v Hm. apply (Hall (k, v)). by apply elem_of_map_to_list.
  - intros Hall [k v] Hin%elem_of_map_to_list. by apply Hall.
Qed.

(** A lookup by a column whose values are unique finds the row. *)
Lemma find_row_unique p m k v :
  m !! k = Some v -> p k v = true ->
  (forall k' v', m !! k' = Some v' -> p k' v' = true -> k' = k) ->
  find_row p m = Some (k, v).
Proof.
  intros Hm Hp Huniq. destruct (find_row p m) as [[k' v']|] eqn:Hf.
  - apply find_row_Some in Hf as [Hm' Hp']. assert (k' = k) as -> by eauto. congruence.
  - rewrite find_row_None in Hf. rewrite (Hf k v Hm) in Hp. done.
Qed.

Lemma elem_of_rows p m k v : (k, v) ∈ rows p m <-> m !! k = Some v /\ p k v = true.
Proof. unfold rows. rewrite list_elem_of_filter, elem_of_map_to_list. simpl. tauto. Qed.

(** *** Unique columns and foreign keys *)

Definition unique_col {T} (m : gmap K V) (col : V -> option T) : Prop :=
  forall k1 k2 v1 v2 x, m !! k1 = Some v1 -> m !! k2 = Some v2 ->
    col v1 = Some x -> col v2 = Some x -> k1 = k2.

(** The check a [UNIQUE] column makes before row [k] takes value [x]. *)
Definition col_free {T} `{EqDecision T} (m : gmap K V) (col : V -> option T) (k : K)
    (x : option T) : bool :=
  match x with
  | None => true
  | Some _ => negb (exists_row (fun k' v => negb (bool_decide (k' = k)) && bool_decide (col v = x)) m)
  end.

Lemma unique_col_insert {T} `{EqDecision T} m (col : V -> option T) k v :
  unique_col m col -> col_free m col k (col v) = true -> unique_col (<[k := v]> m) col.
Proof.
  intros Hu Hf k1 k2 v1 v2 x H1 H2 C1 C2.
  assert (Hother : forall k' v', m !! k' = Some v' -> col v' = col v -> is_Some (col v) -> k' = k).
  { intros k' v' Hm Hc [y Hy]. unfold col_free in Hf. rewrite Hy in Hf. apply negb_true_iff in Hf.
    rewrite exists_row_false in Hf. specialize (Hf k' v' Hm). rewrite Hc, Hy in Hf.
    rewrite (bool_decide_true (Some y = Some y)), andb_true_r in Hf by done.
    apply negb_false_iff, bool_decide_eq_true in Hf. done. }
  rewrite lookup_insert_Some in H1, H2.
  destruct H1 as [[<- <-]|[N1 M1]], H2 as [[<- <-]|[N2 M2]]; [done| | |by eapply Hu].
  - symmetry. apply (Hother k2 v2); [done|congruence|eauto].
  - apply (Hother k1 v1); [done|congruence|eauto].
Qed.

Lemma unique_col_delete {T} m (col : V -> option T) k :
  unique_col m col -> unique_col (delete k m) col.
Proof.
  intros Hu k1 k2 v1 v2 x H1 H2. rewrite lookup_delete_Some in H1, H2.
  destruct H1 as [_ H1], H2 as [_ H2]. by apply (Hu k1 k2 v1 v2 x).
Qed.

Lemma unique_col_subseteq {T} m m' (col : V -> option T) :
  m' ⊆ m -> unique_col m col -> unique_col m' col.
Proof. intros Hs Hu k1 k2 v1 v2 x H1 H2. eapply Hu; by eapply lookup_weaken. Qed.

Lemma unique_col_empty {T} (col : V -> option T) : unique_col (∅ : gmap K V) col.
Proof. intros k1 k2 v1 v2 x H1. by rewrite lookup_empty in H1. Qed.

Lemma col_free_false {T} `{EqDecision T} m (col : V -> option T) k x :
  col_free m col k (Some x) = false <->
  exists k' v, m !! k' = Some v /\ k' <> k /\ col v = Some x.
Proof.
  unfold col_free. rewrite negb_false_iff, exists_row_true.
  setoid_rewrite andb_true_iff. setoid_rewrite negb_true_iff.
  setoid_rewrite bool_decide_eq_false. setoid_rewrite bool_decide_eq_true. done.
Qed.
End Tables.

Section ForeignKeys.
Context {K V P W : Type} `{Countable K, Countable P}.

Definition fk_ok (child : gmap K V) (col : K -> V -> option P) (parent : gmap P W) : Prop :=
  forall k v p, child !! k = Some v -> col k v = Some p -> is_Some (parent !! p).

Definition ref_ok (parent : gmap P W) (p : option P) : bool :=
  match p with None => true | Some p => bool_decide (is_Some (parent !! p)) end.

Lemma fk_ok_insert child col parent k v :
  fk_ok child col parent -> ref_ok parent (col k v) = true -> fk_ok (<[k := v]> child) col parent.
Proof.
  intros Hf Hr k' v' p Hl Hc. rewrite lookup_insert_Some in Hl.
  destruct Hl as [[<- <-]|[_ Hl]]; [|by eapply Hf].
  unfold ref_ok in Hr. rewrite Hc in Hr. by apply bool_decide_eq_true in Hr.
Qed.

Lemma fk_ok_subseteq child child' col parent :
  child' ⊆ child -> fk_ok child col parent -> fk_ok child' col parent.
Proof. intros Hs Hf k v p Hl. eapply Hf. by eapply lookup_weaken. Qed.

Lemma fk_ok_parent child col parent parent' :
  (forall p, is_Some (parent !! p) -> is_Some (parent' !! p)) ->
  fk_ok child col parent -> fk_ok child col parent'.
Proof. intros Hp Hf k v p Hl Hc. apply Hp. by eapply Hf. Qed.

Lemma fk_ok_empty col parent : fk_ok (∅ : gmap K V) col parent.
Proof. intros k v p Hl. by rewrite lookup_empty in Hl. Qed.
End ForeignKeys.

Lemma is_Some_insert {K V} `{Countable K} (m : gmap K V) k v p :
  is_Some (m !! p) -> is_Some (<[k := v]> m !! p).
Proof. intros Hp. destruct (decide (k = p)) as [->|]; simplify_map_eq; eauto. Qed.

(** ** The constraints of the schema *)

Record wf_db (d : Db) : Prop := {
  wf_user_name : unique_col (users d) (fun u => Some (ur_name u));
  wf_user_subnet : unique_col (users d) (fun u => Some (ur_subnet u));
  wf_user_oidc : unique_col (users d) ur_oidc_subject;
  wf_key_user : fk_ok (ssh_keys d) (fun _ k => Some (kr_user_id k)) (users d);
  wf_key_fingerprint : unique_col (ssh_keys d) (fun k => Some (kr_fingerprint k));
  wf_host_name : unique_col (hosts d) (fun h => Some (hr_name h));
  wf_host_machine : unique_col (hosts d) hr_machine_id;
  wf_prefix_range : 24 <= deployment_prefix d <= 27;
  wf_slot_owner : fk_ok (runner_slots d) (fun _ s => Some (sr_owner s)) (hosts d);
  wf_slot_source : fk_ok (runner_slots d) (fun _ s => sr_source s) (hosts d);
  wf_slot_destination : fk_ok (runner_slots d) (fun _ s => sr_destination s) (hosts d);
  wf_observation_host : fk_ok (host_observations d) (fun h _ => Some h) (hosts d);
  wf_host_image : fk_ok (host_images d) (fun k _ => Some k.1.1) (hosts d);
  wf_image_current : fk_ok (images d) (fun _ i => gr_current_checksum i) (image_versions d);
  wf_version_image : fk_ok (image_versions d) (fun _ v => Some (vr_image_name v)) (images d);
  wf_version_path : unique_col (image_versions d) (fun v => Some (vr_path v));
  wf_source_image : fk_ok (image_source_versions d) (fun k _ => Some k.1) (images d);
  wf_source_version : fk_ok (image_source_versions d) (fun _ c => Some c) (image_versions d);
  wf_instance_name : unique_col (instances d) (fun i => Some (in_name i));
  wf_instance_address : unique_col (instances d) (fun i => Some (in_address i));
  wf_instance_mac : unique_col (instances d) (fun i => Some (in_mac i));
  wf_instance_owner : fk_ok (instances d) (fun _ i => Some (in_owner_id i)) (users d);
  wf_instance_host : fk_ok (instances d) (fun _ i => Some (in_host_id i)) (hosts d);
  wf_instance_image : fk_ok (instances d) (fun _ i => Some (in_image_name i)) (images d);
  wf_instance_base : fk_ok (instances d) (fun _ i => Some (in_base_checksum i)) (image_versions d);
  wf_instance_slot : fk_ok (instances d) (fun _ i => in_slot i) (runner_slots d);
  wf_share_instance : fk_ok (shares d) (fun k _ => Some k.1) (instances d);
  wf_share_user : fk_ok (shares d) (fun k _ => Some k.2) (users d);
  wf_released_owner : fk_ok (released_names d) (fun _ r => Some r.1) (users d);
  wf_pairing_hash : unique_col (pairings d) (fun p => Some (pw_token_hash p));
  wf_pairing_user : fk_ok (pairings d) (fun _ p => pw_linked_user_id p) (users d);
  wf_token_user : fk_ok (tokens d) (fun _ t => Some (tr_user_id t)) (users d);
  wf_token_hash : unique_col (tokens d) (fun t => Some (tr_hash t))
}.

(** [keeps_wf m]: every outcome of [m] leaves a well-formed database. *)
Definition keeps_wf {A} (m : Tx A) : Prop := forall d, wf_db d -> wf_db (snd (m d)).

Lemma keeps_wf_bind {A B} (m : Tx A) (f : A -> Tx B) :
  keeps_wf m -> (forall a, keeps_wf (f a)) -> keeps_wf (m ≫= f).
Proof.
  intros Hm Hf d Hd. unfold mbind, ST_bind. specialize (Hm d Hd).
  destruct (m d) as [[a|e] d1]; simpl in *; [|done]. by apply Hf.
Qed.
Lemma keeps_wf_ret {A} (a : A) : keeps_wf (mret a : Tx A).
Proof. by intros d. Qed.
Lemma keeps_wf_fail {A} e : keeps_wf (fail e : Tx A).
Proof. by intros d. Qed.
Lemma keeps_wf_query {A} (f : Db -> A) : keeps_wf (query f).
Proof. by intros d. Qed.
Lemma keeps_wf_lift {A} (r : result StoreError A) : keeps_wf (lift_res r).
Proof. by intros d. Qed.
Lemma keeps_wf_require c e : keeps_wf (require c e).
Proof. by intros d. Qed.
Lemma keeps_wf_tx {A} (m : Tx A) : keeps_wf m -> keeps_wf (with_tx m).
Proof. intros Hm d Hd. unfold with_tx. specialize (Hm d Hd). by destruct (m d) as [[a|e] d1]. Qed.

(** A change guarded by the checks made just before it. *)
Lemma keeps_wf_guarded (c : Db -> bool) e (f : Db -> Db) :
  (forall d, wf_db d -> c d = true -> wf_db (f d)) ->
  keeps_wf (require c e ≫= fun _ => modify f).
Proof.
  intros Hf d Hd. unfold mbind, ST_bind, require. destruct (c d) eqn:Hc; simpl; auto.
Qed.

(** Operations that only read. *)
Definition reads_only {A} (m : Tx A) : Prop := forall d, snd (m d) = d.
Lemma reads_only_bind {A B} (m : Tx A) (f : A -> Tx B) :
  reads_only m -> (forall a, reads_only (f a)) -> reads_only (m ≫= f).
Proof.
  intros Hm Hf d. unfold mbind, ST_bind. specialize (Hm d).
  destruct (m d) as [[a|e] d1]; simpl in *; subst; [apply Hf|done].
Qed.
Lemma reads_only_ret {A} (a : A) : reads_only (mret a : Tx A).
Proof. by intros d. Qed.
Lemma reads_only_fail {A} e : reads_only (fail e : Tx A).
Proof. by intros d. Qed.
Lemma reads_only_query {A} (f : Db -> A) : reads_only (query f).
Proof. by intros d. Qed.
Lemma reads_only_lift {A} (r : result StoreError A) : reads_only (lift_res r).
Proof. by intros d. Qed.
Lemma reads_only_require c e : reads_only (require c e).
Proof. by intros d. Qed.
Lemma reads_only_tx {A} (m : Tx A) : reads_only m -> reads_only (with_tx m).
Proof. intros Hm d. unfold with_tx. specialize (Hm d). by destruct (m d) as [[a|e] d1]. Qed.
Lemma reads_only_run {A} (m : Tx A) d r d' : reads_only m -> m d = (r, d') -> d' = d.
Proof. intros Hm Hr. specialize (Hm d). by rewrite Hr in Hm. Qed.

Create HintDb bento_ro.
#[export] Hint Resolve reads_only_ret reads_only_fail reads_only_query reads_only_lift
  reads_only_require : bento_ro.

(** [ro_steps] shows that a chain of statements only reads. *)
Ltac ro_steps :=
  repeat first [solve [auto with bento_ro nocore] | apply reads_only_tx
    | apply reads_only_bind; [|intros ?] | progress case_match].

Lemma keeps_wf_reads_only {A} (m : Tx A) : reads_only m -> keeps_wf m.
Proof. intros Hm d Hd. by rewrite Hm. Qed.

Create HintDb bento_wf.
#[export] Hint Resolve keeps_wf_ret keeps_wf_fail keeps_wf_query keeps_wf_lift keeps_wf_require
  : bento_wf.

(** [wf_steps] walks a transaction and leaves its table changes. *)
Ltac wf_steps :=
  repeat first [solve [auto with bento_wf nocore] | apply keeps_wf_tx
    | apply keeps_wf_bind; [|intros ?] | progress case_match].

(** [wf_table] opens a database and settles every table that did not change. *)
Ltac wf_table := let H := fresh in intros H; destruct H; constructor; cbn; auto.

(** *** Rows of [instances]: the constraints and the triggers of migration 3 *)

(** [instances_slot_owner_insert] and [instances_slot_owner_update]. *)
Definition slot_owner_ok (row : InstanceRow) (d : Db) : bool :=
  match in_slot row with
  | None => true
  | Some k =>
      match runner_slots d !! k with
      | Some s => bool_decide (sr_owner s = in_host_id row)
      | None => false
      end
  end.

Definition enum_text (A : Type) `{StringEnum A} (s : string) : bool := is_ok (from_str (A := A) s).

Definition instance_checks (row : InstanceRow) : bool :=
  enum_text State (in_state row) && enum_text DesiredState (in_desired_state row) &&
  enum_text Visibility (in_visibility row).

Definition instance_unique (uuid : string) (row : InstanceRow) (d : Db) : bool :=
  col_free (instances d) (fun i => Some (in_name i)) uuid (Some (in_name row)) &&
  col_free (instances d) (fun i => Some (in_address i)) uuid (Some (in_address row)) &&
  col_free (instances d) (fun i => Some (in_mac i)) uuid (Some (in_mac row)).

Definition instance_refs (row : InstanceRow) (d : Db) : bool :=
  ref_ok (users d) (Some (in_owner_id row)) && ref_ok (hosts d) (Some (in_host_id row)) &&
  ref_ok (images d) (Some (in_image_name row)) &&
  ref_ok (image_versions d) (Some (in_base_checksum row)) && ref_ok (runner_slots d) (in_slot row).

(** The row [uuid] becomes [row]: what an [INSERT] or an [UPDATE] of it checks. *)
Definition put_instance (uuid : string) (row : InstanceRow) : Tx unit :=
  _ ← require (slot_owner_ok row)
        (SqlFailure (RaiseAbort "instance host does not own its slot"));
  _ ← require (fun _ => instance_checks row) (SqlFailure CheckViolation);
  _ ← require (instance_unique uuid row) (SqlFailure UniqueViolation);
  _ ← require (instance_refs row) (SqlFailure ForeignKey);
  modify (set_instances <[uuid := row]>).

(** [INSERT INTO instances]. *)
Definition insert_instance (uuid : string) (row : InstanceRow) : Tx unit :=
  _ ← require (fun d => bool_decide (instances d !! uuid = None)) (SqlFailure UniqueViolation);
  put_instance uuid row.

(** [UPDATE instances SET ... WHERE uuid = ?], with the number of rows. *)
Definition update_instance_row (uuid : string) (f : InstanceRow -> InstanceRow) : Tx Z :=
  found ← query (fun d => instances d !! uuid);
  match found with
  | None => mret 0
  | Some row => _ ← put_instance uuid (f row); mret 1
  end.

(** When [put_instance] succeeds, and what it does. *)
Lemma put_instance_Ok uuid row d d' :
  put_instance uuid row d = (Ok tt, d') <->
  slot_owner_ok row d = true /\ instance_checks row = true /\ instance_unique uuid row d = true /\
  instance_refs row d = true /\ d' = set_instances <[uuid := row]> d.
Proof.
  unfold put_instance, require, modify, mbind, ST_bind.
  destruct (slot_owner_ok row d), (instance_checks row), (instance_unique uuid row d),
    (instance_refs row d); simpl; naive_solver.
Qed.

Lemma put_instance_Err uuid row d e d' : put_instance uuid row d = (Err e, d') -> d' = d.
Proof.
  unfold put_instance, require, modify, mbind, ST_bind.
  destruct (slot_owner_ok row d), (instance_checks row), (instance_unique uuid row d),
    (instance_refs row d); simpl; naive_solver.
Qed.

Lemma wf_put_instance uuid row d :
  wf_db d -> instance_unique uuid row d = true -> instance_refs row d = true ->
  wf_db (set_instances <[uuid := row]> d).
Proof.
  unfold instance_unique, instance_refs. rewrite !andb_true_iff.
  intros Hd [[H1 H2] H3] [[[[H4 H5] H6] H7] H8]. revert Hd. wf_table.
  - by apply unique_col_insert.
  - by apply unique_col_insert.
  - by apply unique_col_insert.
  - by apply fk_ok_insert.
  - by apply fk_ok_insert.
  - by apply fk_ok_insert.
  - by apply fk_ok_insert.
  - by apply fk_ok_insert.
  - eapply fk_ok_parent; [|done]. intros p. apply is_Some_insert.
Qed.

Lemma put_instance_keeps_wf uuid row : keeps_wf (put_instance uuid row).
Proof.
  intros d Hd. destruct (put_instance uuid row d) as [[[]|e] d'] eqn:Hr; simpl.
  - apply put_instance_Ok in Hr as (_ & _ & Hu & Hf & ->). by apply wf_put_instance.
  - apply put_instance_Err in Hr as ->. done.
Qed.

#[export] Hint Resolve put_instance_keeps_wf : bento_wf.

Lemma update_instance_row_keeps_wf uuid f : keeps_wf (update_instance_row uuid f).
Proof. unfold update_instance_row. wf_steps. Qed.

Lemma insert_instance_keeps_wf uuid row : keeps_wf (insert_instance uuid row).
Proof. unfold insert_instance. wf_steps. Qed.

#[export] Hint Resolve update_instance_row_keeps_wf insert_instance_keeps_wf : bento_wf.
