(* ===== verification/Instances.v ===== *)
(** * Instances: [crates/store/src/{names,instances,shares}.rs]

    Instance rows, the names they hold and release, the host capacity a
    create or a resize is weighed against, and the shares that give other
    users access.  Every clock reading of the source is an argument. *)

From Stdlib Require Import ZArith Lia.
From S2P Require Import Prelude Text Types Db.
Open Scope Z_scope.

Section Instances.
Context `{TimeFormat}.

(** ** Names: [names.rs] *)

(** [remaining_cooldown], in nanoseconds. *)
Definition remaining_cooldown (released_at now cooldown : Z) : option Z :=
  let remaining_nanos := cooldown - (now - released_at) in
  if remaining_nanos <=? 0 then None
  else if u64_max <? Z.quot remaining_nanos nanos_per_sec then None
  else Some remaining_nanos.

(** [claim_name_tx]: whether a user may take a name. *)
Definition claim_name_tx (name : string) (user_id cooldown now : Z) : Tx unit :=
  taken ← query (fun d => exists_row (fun _ i => bool_decide (in_name i = name)) (instances d));
  if taken : bool then fail NameTaken
  else
    release ← query (fun d => released_names d !! name);
    match release with
    | None => mret tt
    | Some (previous_owner_id, released_text) =>
        if previous_owner_id =? user_id then mret tt
        else
          released_at ← lift_res (parse_time released_text);
          match remaining_cooldown released_at now cooldown with
          | Some remaining => fail (NameCooldown name remaining)
          | None => mret tt
          end
    end.

(** [release_name_tx]: the newest release replaces an older one. *)
Definition release_name_tx (name : string) (previous_owner_id now : Z) : Tx unit :=
  released_at ← lift_res (format_time now);
  _ ← require (fun d => ref_ok (users d) (Some previous_owner_id)) (SqlFailure ForeignKey);
  modify (set_released <[name := (previous_owner_id, released_at)]>).

(** [Store::claim_name]. *)
Definition claim_name (name : string) (user_id cooldown now : Z) : Tx unit :=
  with_tx (claim_name_tx name user_id cooldown now).

(** [Store::released_name]. *)
Definition released_name (name : string) : Tx ReleasedName :=
  found ← query (fun d => released_names d !! name);
  match found with
  | None => fail NotFound
  | Some (owner, text) =>
      released_at ← lift_res (parse_time text);
      mret (mkReleasedName name owner released_at)
  end.

(** ** Rows: [instances.rs] *)

(** [scan_instance]. *)
Definition scan_instance (uuid : string) (r : InstanceRow) : result StoreError Instance :=
  state ← parse_enum (in_state r);
  desired_state ← parse_enum (in_desired_state r);
  vcpu ← get_range u32_max (in_vcpu r);
  memory ← from_sql_int (in_memory r);
  disk ← from_sql_int (in_disk r);
  http_port ← get_range (2 ^ 16 - 1) (in_http_port r);
  visibility ← parse_enum (in_visibility r);
  slot ← get_opt_u64 (in_slot r);
  created_at ← parse_time (in_created_at r);
  last_seen_at ← opt_res parse_time (in_last_seen_at r);
  Ok (mkInstance uuid (in_name r) (in_owner_id r) (in_host_id r) (in_image_name r)
        (in_base_checksum r) state desired_state (in_address r) (in_mac r) vcpu memory disk
        (in_nested r) (in_ksm r) http_port visibility created_at last_seen_at slot).

(** [get_instance_tx]. *)
Definition get_instance_tx (uuid : string) : Tx Instance :=
  found ← query (fun d => instances d !! uuid);
  match found with
  | None => fail NotFound
  | Some r => lift_res (scan_instance uuid r)
  end.

(** SQLite's [SUM]: an error when a partial sum leaves the 64-bit range. *)
Fixpoint sum_sql (acc : Z) (l : list Z) : result StoreError Z :=
  match l with
  | [] => Ok acc
  | x :: l' =>
      if (acc + x <? i64_min) || (i64_max <? acc + x) then Err (SqlFailure IntegerOverflow)
      else sum_sql (acc + x) l'
  end.

Definition on_host (host_id : Z) (exclude : string) (uuid : string) (r : InstanceRow) : bool :=
  (in_host_id r =? host_id) && negb (bool_decide (uuid = exclude)).

(** One round of the loop of [check_capacity_tx]. *)
Definition check_resource (resource : string) (used requested : Z) (limit : Ceiling) : Tx unit :=
  if exceeded_by limit (u64_saturating_add used requested) then
    match limit with
    | Limit l => fail (OverCapacity resource used requested l)
    | Unbounded => mret tt
    end
  else mret tt.

(** [check_capacity_tx]. *)
Definition check_capacity_tx (host_id : Z) (exclude : string) (add_memory add_disk : Z)
    (capacity : Capacity) : Tx unit :=
  here ← query (fun d => rows (on_host host_id exclude) (instances d));
  memory_sum ← lift_res (sum_sql 0 ((fun kv => in_memory kv.2) <$> here));
  disk_sum ← lift_res (sum_sql 0 ((fun kv => in_disk kv.2) <$> here));
  memory ← lift_res (from_sql_int memory_sum);
  disk ← lift_res (from_sql_int disk_sum);
  _ ← check_resource "memory" memory add_memory (cap_memory_mib capacity);
  check_resource "disk" disk add_disk (cap_disk_gib capacity).

Definition UNIX_EPOCH : Z := 0.

(** The row [create_instance] inserts. *)
Definition instance_row (i : Instance) (created_at : string) (memory disk : Z) (slot : option Z) :
    InstanceRow :=
  mkInstanceRow (i_name i) (i_owner_id i) (i_host_id i) (i_image_name i) (i_base_checksum i)
    (as_str (i_state i)) (as_str (i_desired_state i)) (i_address i) (i_mac i) (i_vcpu i) memory disk
    (i_nested i) (i_ksm i) (i_http_port i) (as_str (i_visibility i)) created_at None slot.

(** [Store::create_instance]; the clock is read for the claim and again for
    a missing creation time. *)
Definition create_instance (i : Instance) (name_cooldown : Z) (capacity : Capacity)
    (now now' : Z) : Tx unit :=
  with_tx (
    _ ← claim_name_tx (i_name i) (i_owner_id i) name_cooldown now;
    _ ← check_capacity_tx (i_host_id i) "" (i_memory_mib i) (i_disk_gib i) capacity;
    memory ← lift_res (to_sql_int (i_memory_mib i));
    disk ← lift_res (to_sql_int (i_disk_gib i));
    created_at ← lift_res (format_time
      (if i_created_at i =? UNIX_EPOCH then now' else i_created_at i));
    slot ← lift_res (opt_res to_sql_int (i_slot i));
    insert_instance (i_uuid i) (instance_row i created_at memory disk slot)).

(** [DELETE FROM instances WHERE uuid = ?]; shares cascade. *)
Definition delete_instance_row (uuid : string) : Tx unit :=
  modify (fun d => set_shares (filter (fun kv => kv.1.1 <> uuid))
                     (set_instances (delete uuid) d)).

(** [Store::delete_instance]. *)
Definition delete_instance (uuid : string) (now : Z) : Tx Instance :=
  with_tx (
    i ← get_instance_tx uuid;
    _ ← delete_instance_row uuid;
    _ ← release_name_tx (i_name i) (i_owner_id i) now;
    mret i).

Definition with_name (name : string) (r : InstanceRow) : InstanceRow :=
  mkInstanceRow name (in_owner_id r) (in_host_id r) (in_image_name r) (in_base_checksum r)
    (in_state r) (in_desired_state r) (in_address r) (in_mac r) (in_vcpu r) (in_memory r)
    (in_disk r) (in_nested r) (in_ksm r) (in_http_port r) (in_visibility r) (in_created_at r)
    (in_last_seen_at r) (in_slot r).

(** [Store::rename_instance]. *)
Definition rename_instance (uuid new_name : string) (name_cooldown now now' : Z) : Tx unit :=
  with_tx (
    i ← get_instance_tx uuid;
    if bool_decide (i_name i = new_name) then mret tt
    else
      _ ← claim_name_tx new_name (i_owner_id i) name_cooldown now;
      _ ← update_instance_row uuid (with_name new_name);
      release_name_tx (i_name i) (i_owner_id i) now').

Definition with_size (vcpu memory disk : Z) (nested : bool) (r : InstanceRow) : InstanceRow :=
  mkInstanceRow (in_name r) (in_owner_id r) (in_host_id r) (in_image_name r) (in_base_checksum r)
    (in_state r) (in_desired_state r) (in_address r) (in_mac r) vcpu memory disk nested (in_ksm r)
    (in_http_port r) (in_visibility r) (in_created_at r) (in_last_seen_at r) (in_slot r).

(** [Store::resize]. *)
Definition resize (uuid : string) (vcpu memory_mib disk_gib : Z) (nested : bool)
    (capacity : Capacity) : Tx unit :=
  with_tx (
    existing ← get_instance_tx uuid;
    _ ← check_capacity_tx (i_host_id existing) uuid memory_mib disk_gib capacity;
    memory ← lift_res (to_sql_int memory_mib);
    disk ← lift_res (to_sql_int disk_gib);
    _ ← update_instance_row uuid (with_size vcpu memory disk nested);
    mret tt).

(** [Store::check_resize]. *)
Definition check_resize (uuid : string) (memory_mib disk_gib : Z) (capacity : Capacity) : Tx unit :=
  with_tx (
    existing ← get_instance_tx uuid;
    check_capacity_tx (i_host_id existing) uuid memory_mib disk_gib capacity).

(** [Store::instance]. *)
Definition instance (uuid : string) : Tx Instance := get_instance_tx uuid.

(** [Store::instance_by_name]. *)
Definition instance_by_name (name : string) : Tx Instance :=
  found ← query (fun d => find_row (fun _ i => bool_decide (in_name i = name)) (instances d));
  match found with
  | None => fail NotFound
  | Some (uuid, r) => lift_res (scan_instance uuid r)
  end.

(** [ORDER BY created_at, uuid]. *)
Definition oldest_first (a b : string * InstanceRow) : bool :=
  text_lt (in_created_at a.2) (in_created_at b.2) ||
  (bool_decide (in_created_at a.2 = in_created_at b.2) && text_lt a.1 b.1).

(** [Store::list_instances] with its [WHERE] clause as [p]. *)
Definition list_instances (p : Db -> string -> InstanceRow -> bool) : Tx (list Instance) :=
  found ← query (fun d => sort_by oldest_first (rows (p d) (instances d)));
  lift_res (mapM (fun kv => scan_instance kv.1 kv.2) found).

Definition instances_by_owner (owner_id : Z) : Tx (list Instance) :=
  list_instances (fun _ _ i => in_owner_id i =? owner_id).
Definition all_instances : Tx (list Instance) := list_instances (fun _ _ _ => true).
Definition instances_on_host (host_id : Z) : Tx (list Instance) :=
  list_instances (fun _ _ i => in_host_id i =? host_id).
Definition instances_to_restore (host_id : Z) : Tx (list Instance) :=
  list_instances (fun _ _ i => (in_host_id i =? host_id) &&
    bool_decide (in_desired_state i = "running") && bool_decide (in_state i = "stopped")).

(** [Store::update_instance]: one column of one row. *)
Definition update_instance (uuid : string) (f : InstanceRow -> InstanceRow) : Tx unit :=
  n ← update_instance_row uuid f;
  if n =? 0 then fail NotFound else mret tt.

Definition with_desired (s : string) (r : InstanceRow) : InstanceRow :=
  mkInstanceRow (in_name r) (in_owner_id r) (in_host_id r) (in_image_name r) (in_base_checksum r)
    (in_state r) s (in_address r) (in_mac r) (in_vcpu r) (in_memory r)
    (in_disk r) (in_nested r) (in_ksm r) (in_http_port r) (in_visibility r) (in_created_at r)
    (in_last_seen_at r) (in_slot r).
Definition with_state (s : string) (r : InstanceRow) : InstanceRow :=
  mkInstanceRow (in_name r) (in_owner_id r) (in_host_id r) (in_image_name r) (in_base_checksum r)
    s (in_desired_state r) (in_address r) (in_mac r) (in_vcpu r) (in_memory r)
    (in_disk r) (in_nested r) (in_ksm r) (in_http_port r) (in_visibility r) (in_created_at r)
    (in_last_seen_at r) (in_slot r).
Definition with_visibility (s : string) (r : InstanceRow) : InstanceRow :=
  mkInstanceRow (in_name r) (in_owner_id r) (in_host_id r) (in_image_name r) (in_base_checksum r)
    (in_state r) (in_desired_state r) (in_address r) (in_mac r) (in_vcpu r) (in_memory r)
    (in_disk r) (in_nested r) (in_ksm r) (in_http_port r) s (in_created_at r)
    (in_last_seen_at r) (in_slot r).
Definition with_http_port (port : Z) (r : InstanceRow) : InstanceRow :=
  mkInstanceRow (in_name r) (in_owner_id r) (in_host_id r) (in_image_name r) (in_base_checksum r)
    (in_state r) (in_desired_state r) (in_address r) (in_mac r) (in_vcpu r) (in_memory r)
    (in_disk r) (in_nested r) (in_ksm r) port (in_visibility r) (in_created_at r)
    (in_last_seen_at r) (in_slot r).
Definition with_last_seen (s : string) (r : InstanceRow) : InstanceRow :=
  mkInstanceRow (in_name r) (in_owner_id r) (in_host_id r) (in_image_name r) (in_base_checksum r)
    (in_state r) (in_desired_state r) (in_address r) (in_mac r) (in_vcpu r) (in_memory r)
    (in_disk r) (in_nested r) (in_ksm r) (in_http_port r) (in_visibility r) (in_created_at r)
    (Some s) (in_slot r).

(** [Store::set_desired_state], [Store::set_observed_state],
    [Store::set_visibility], [Store::set_http_port], [Store::touch_last_seen]. *)
Definition set_desired_state (uuid : string) (state : DesiredState) : Tx unit :=
  update_instance uuid (with_desired (as_str state)).
Definition set_observed_state (uuid : string) (state : State) : Tx unit :=
  update_instance uuid (with_state (as_str state)).
Definition set_visibility (uuid : string) (visibility : Visibility) : Tx unit :=
  update_instance uuid (with_visibility (as_str visibility)).
Definition set_http_port (uuid : string) (port : Z) : Tx unit :=
  update_instance uuid (with_http_port port).
Definition touch_last_seen (uuid : string) (now : Z) : Tx unit :=
  value ← lift_res (format_time now);
  update_instance uuid (with_last_seen value).

(** The loop of [Store::update_observed_states], in the order the map yields
    its entries. *)
Fixpoint observe_all (states : list (string * State)) : Tx unit :=
  match states with
  | [] => mret tt
  | (uuid, state) :: rest =>
      _ ← update_instance_row uuid (with_state (as_str state));
      observe_all rest
  end.
Definition update_observed_states (states : list (string * State)) : Tx unit :=
  if bool_decide (states = []) then mret tt else with_tx (observe_all states).

(** ** Shares: [shares.rs] *)

(** [Store::add_share]: [ON CONFLICT DO NOTHING]. *)
Definition add_share (instance_uuid : string) (user_id now : Z) : Tx unit :=
  created_at ← lift_res (format_time now);
  known ← query (fun d => shares d !! (instance_uuid, user_id));
  match known with
  | Some _ => mret tt
  | None =>
      _ ← require (fun d => ref_ok (instances d) (Some instance_uuid) &&
                            ref_ok (users d) (Some user_id)) (SqlFailure ForeignKey);
      modify (set_shares <[(instance_uuid, user_id) := created_at]>)
  end.

(** [Store::remove_share]. *)
Definition remove_share (instance_uuid : string) (user_id : Z) : Tx unit :=
  known ← query (fun d => shares d !! (instance_uuid, user_id));
  match known with
  | None => fail NotFound
  | Some _ => modify (set_shares (delete (instance_uuid, user_id)))
  end.

(** [Store::shares_for], by user. *)
Definition shares_for (instance_uuid : string) : Tx (list Share) :=
  found ← query (fun d => sort_by (fun a b => a.1.2 <? b.1.2)
    (rows (fun k _ => bool_decide (k.1 = instance_uuid)) (shares d)));
  lift_res (mapM (fun kv => created_at ← parse_time kv.2;
                            Ok (mkShare kv.1.1 kv.1.2 created_at)) found).

(** [Store::instances_shared_with]. *)
Definition instances_shared_with (user_id : Z) : Tx (list Instance) :=
  list_instances (fun d uuid _ => bool_decide (is_Some (shares d !! (uuid, user_id)))).

(** [Store::has_access]. *)
Definition has_access (instance_uuid : string) (user_id : Z) : Tx bool :=
  query (fun d =>
    match instances d !! instance_uuid with
    | Some i => in_owner_id i =? user_id
    | None => false
    end || bool_decide (is_Some (shares d !! (instance_uuid, user_id)))).
End Instances.

(** ** Lemmas *)

(** A transaction that succeeded, opened step by step. *)
Lemma with_tx_Ok {A} (m : Tx A) d a d' : with_tx m d = (Ok a, d') <-> m d = (Ok a, d').
Proof. unfold with_tx. destruct (m d) as [[]]; naive_solver. Qed.

Lemma with_tx_Err {A} (m : Tx A) d e d' : with_tx m d = (Err e, d') -> d' = d.
Proof. unfold with_tx. destruct (m d) as [[]]; naive_solver. Qed.

Lemma Tx_bind_Ok {A B} (m : Tx A) (f : A -> Tx B) d b d' :
  (m ≫= f) d = (Ok b, d') <-> exists a d1, m d = (Ok a, d1) /\ f a d1 = (Ok b, d').
Proof.
  rewrite ST_bind_run. split; [|naive_solver]. intros [?|(e & _ & ?)]; [done|done].
Qed.

Lemma lift_res_Ok {A} (r : result StoreError A) d a d' :
  lift_res r d = (Ok a, d') <-> r = Ok a /\ d' = d.
Proof. unfold lift_res. naive_solver. Qed.

Lemma query_Ok {A} (f : Db -> A) d a d' : query f d = (Ok a, d') <-> a = f d /\ d' = d.
Proof. unfold query. naive_solver. Qed.

Lemma require_Ok c e d u d' : require c e d = (Ok u, d') <-> c d = true /\ d' = d.
Proof. destruct u. unfold require. destruct (c d); naive_solver. Qed.

Lemma modify_Ok f d u d' : modify f d = (Ok u, d') <-> d' = f d.
Proof. destruct u. unfold modify. naive_solver. Qed.

Lemma ret_Ok {A} (a b : A) (d d' : Db) :
  (mret a : Tx A) d = (Ok b, d') <-> b = a /\ d' = d.
Proof. unfold mret, ST_ret. naive_solver. Qed.

(** [tx_inv] opens every hypothesis that says a chain of statements ended well. *)
Ltac tx_inv :=
  repeat match goal with
  | H : with_tx _ _ = (Ok _, _) |- _ => apply (proj1 (with_tx_Ok _ _ _ _)) in H
  | H : (_ ≫= _) _ = (Ok _, _) |- _ =>
      apply Tx_bind_Ok in H;
      let a := fresh "v" in let d := fresh "dd" in let H1 := fresh "Hs" in
      destruct H as (a & d & H1 & H)
  | H : lift_res _ _ = (Ok _, _) |- _ => apply lift_res_Ok in H; destruct H as [H ->]
  | H : query _ _ = (Ok _, _) |- _ => apply query_Ok in H; destruct H as [-> ->]
  | H : require _ _ _ = (Ok _, _) |- _ => apply require_Ok in H; destruct H as [H ->]
  | H : modify _ _ = (Ok _, _) |- _ => apply modify_Ok in H; subst
  | H : @mret _ _ _ _ _ = (Ok _, _) |- _ => apply ret_Ok in H; destruct H as [? ?]; simplify_eq
  | H : fail _ _ = (Ok _, _) |- _ => discriminate H
  | x : unit |- _ => destruct x
  end.

Section Lemmas.
Context `{TimeFormat}.

Lemma claim_name_tx_Ok name user cooldown now d u d' :
  claim_name_tx name user cooldown now d = (Ok u, d') ->
  d' = d /\ (forall uuid r, instances d !! uuid = Some r -> in_name r <> name) /\
  (forall owner text, released_names d !! name = Some (owner, text) -> owner <> user ->
     exists t, parse_time text = Ok t /\ remaining_cooldown t now cooldown = None).
Proof.
  intros Hr. unfold claim_name_tx in Hr. tx_inv.
  destruct (exists_row _ _) eqn:He; [done|]. tx_inv.
  assert (Hn : forall uuid r, instances d !! uuid = Some r -> in_name r <> name).
  { intros uuid r Hl. rewrite exists_row_false in He. specialize (He uuid r Hl).
    by apply bool_decide_eq_false in He. }
  destruct (released_names d !! name) as [[owner text]|] eqn:Hrel.
  2: { tx_inv. by split_and!. }
  destruct (Z.eqb_spec owner user).
  { tx_inv. split_and!; [done|done|]. intros ?? [= <- <-]. done. }
  tx_inv. destruct (remaining_cooldown v now cooldown) eqn:Hc; tx_inv.
  split_and!; [done|done|]. intros ?? [= <- <-] _. eauto.
Qed.

Lemma release_name_tx_Ok name owner now d u d' :
  release_name_tx name owner now d = (Ok u, d') ->
  exists text, format_time now = Ok text /\ ref_ok (users d) (Some owner) = true /\
    d' = set_released <[name := (owner, text)]> d.
Proof. intros Hr. unfold release_name_tx in Hr. tx_inv. eauto. Qed.

Lemma get_instance_tx_Ok uuid d i d' :
  get_instance_tx uuid d = (Ok i, d') ->
  d' = d /\ exists r, instances d !! uuid = Some r /\ scan_instance uuid r = Ok i.
Proof.
  intros Hr. unfold get_instance_tx in Hr. tx_inv.
  destruct (instances d !! uuid) as [r|] eqn:Hl; tx_inv. eauto.
Qed.

(** What a scan keeps. *)
Lemma scan_instance_Ok uuid r i :
  scan_instance uuid r = Ok i ->
  i_uuid i = uuid /\ i_name i = in_name r /\ i_owner_id i = in_owner_id r /\
  i_host_id i = in_host_id r /\ i_address i = in_address r /\ 0 <= i_memory_mib i /\
  i_memory_mib i = in_memory r /\ i_disk_gib i = in_disk r.
Proof.
  intros Hs. unfold scan_instance in Hs. result_inv. subst i. simpl.
  unfold from_sql_int in *. repeat case_match; simplify_eq. split_and!; try done. lia.
Qed.

Lemma update_instance_row_Ok uuid f d n d' :
  update_instance_row uuid f d = (Ok n, d') ->
  (instances d !! uuid = None /\ n = 0 /\ d' = d) \/
  (exists r, instances d !! uuid = Some r /\ n = 1 /\ put_instance uuid (f r) d = (Ok tt, d') /\
     d' = set_instances <[uuid := f r]> d).
Proof.
  intros Hr. unfold update_instance_row in Hr. tx_inv.
  destruct (instances d !! uuid) as [r|] eqn:Hl; tx_inv; [right|by left].
  exists r. split_and!; try done. by apply put_instance_Ok in Hs as (_ & _ & _ & _ & ->).
Qed.

(** *** Sums *)

Definition sum_of (l : list Z) : Z := foldr Z.add 0 l.

Lemma sum_of_perm l k : l ≡ₚ k -> sum_of l = sum_of k.
Proof. induction 1; simpl in *; lia. Qed.

Lemma sum_sql_Ok acc l s :
  sum_sql acc l = Ok s -> s = acc + sum_of l /\ (l = [] \/ i64_min <= s <= i64_max).
Proof.
  revert acc. induction l as [|x l IH]; intros acc; simpl; [intros [= <-]; split; [lia|by left]|].
  destruct (Z.ltb_spec (acc + x) i64_min), (Z.ltb_spec i64_max (acc + x)); try done. simpl.
  intros Hs. apply IH in Hs as [-> [-> |Hb]]; simpl; split; try lia; right; simpl; lia.
Qed.

Lemma sum_sql_0 l s : sum_sql 0 l = Ok s -> s = sum_of l /\ s <= i64_max.
Proof. intros [-> [-> |Hb]]%sum_sql_Ok; simpl; [int_lia|lia]. Qed.

Lemma from_sql_int_Ok v z : from_sql_int v = Ok z <-> 0 <= v /\ z = v.
Proof. unfold from_sql_int. destruct (Z.ltb_spec v 0); naive_solver lia. Qed.

(** What the host holds, without the row [exclude]. *)
Definition provisioned (col : InstanceRow -> Z) (host_id : Z) (exclude : string) (d : Db) : Z :=
  sum_of ((fun kv => col kv.2) <$> rows (on_host host_id exclude) (instances d)).

Lemma check_resource_Ok resource used requested limit d u d' :
  check_resource resource used requested limit d = (Ok u, d') ->
  d' = d /\ forall l, limit = Limit l -> Z.min (used + requested) u64_max <= l.
Proof.
  unfold check_resource, u64_saturating_add. destruct limit as [|l]; simpl.
  - intros Hr. tx_inv. naive_solver.
  - destruct (Z.ltb_spec l (Z.min (used + requested) u64_max)); intros Hr; tx_inv. naive_solver.
Qed.

Lemma check_capacity_reads host exclude add_memory add_disk capacity :
  reads_only (check_capacity_tx host exclude add_memory add_disk capacity).
Proof. unfold check_capacity_tx, check_resource. ro_steps. Qed.

(** A capacity check that passed: with the addition, both sums fit. *)
Lemma check_capacity_tx_Ok host exclude add_memory add_disk capacity d u d' :
  check_capacity_tx host exclude add_memory add_disk capacity d = (Ok u, d') ->
  0 <= add_memory <= i64_max -> 0 <= add_disk <= i64_max ->
  d' = d /\
  (forall l, cap_memory_mib capacity = Limit l ->
     provisioned in_memory host exclude d + add_memory <= l) /\
  (forall l, cap_disk_gib capacity = Limit l ->
     provisioned in_disk host exclude d + add_disk <= l).
Proof.
  intros Hr Hm Hd. unfold check_capacity_tx in Hr. tx_inv.
  apply sum_sql_0 in Hs0 as [-> Hb0]. apply sum_sql_0 in Hs1 as [-> Hb1].
  apply from_sql_int_Ok in Hs2 as [_ ->]. apply from_sql_int_Ok in Hs3 as [_ ->].
  apply check_resource_Ok in Hs4 as [-> Hmem]. apply check_resource_Ok in Hr as [-> Hdisk].
  unfold provisioned. split; [done|].
  split; intros l Hl; [specialize (Hmem l Hl)|specialize (Hdisk l Hl)]; int_lia.
Qed.

(** Everything the host holds. *)
Definition total (col : InstanceRow -> Z) (host_id : Z) (m : gmap string InstanceRow) : Z :=
  sum_of ((fun kv => col kv.2) <$> rows (fun _ r => in_host_id r =? host_id) m).

Lemma NoDup_rows {K V} `{Countable K} (p : K -> V -> bool) (m : gmap K V) : NoDup (rows p m).
Proof. apply NoDup_filter, NoDup_map_to_list. Qed.

(** Writing one row: the others and the new one. *)
Lemma total_insert col host uuid row d :
  total col host (<[uuid := row]> (instances d)) =
  provisioned col host uuid d + (if in_host_id row =? host then col row else 0).
Proof.
  assert (Hp : rows (fun _ r => in_host_id r =? host) (<[uuid := row]> (instances d)) ≡ₚ
    rows (on_host host uuid) (instances d) ++ (if in_host_id row =? host then [(uuid, row)] else [])).
  { apply NoDup_Permutation; [apply NoDup_rows| |].
    - apply NoDup_app. split; [apply NoDup_rows|]. split.
      + intros [k v] [_ Hon]%elem_of_rows. unfold on_host in Hon.
        apply andb_true_iff in Hon as [_ Hne%negb_true_iff]. apply bool_decide_eq_false in Hne.
        destruct (in_host_id row =? host); set_solver.
      + destruct (in_host_id row =? host); [apply NoDup_singleton|constructor].
    - intros [k v]. rewrite elem_of_app, !elem_of_rows, lookup_insert_Some. unfold on_host.
      destruct (Z.eqb_spec (in_host_id row) host) as [Hh|Hh].
      + rewrite list_elem_of_singleton, andb_true_iff, negb_true_iff, bool_decide_eq_false.
        split; [intros [[[<- <-]|[Hne Hl]] Hv]; [right|left]; auto|].
        intros [(Hl & Hv & Hne)|[= -> ->]]; [auto|]. split; [auto|]. by apply Z.eqb_eq.
      + rewrite andb_true_iff, negb_true_iff, bool_decide_eq_false. split.
        * intros [[[<- <-]|[Hne Hl]] Hv]; [by apply Z.eqb_eq in Hv|]. left. auto.
        * intros [(Hl & Hv & Hne)|Hin]; [auto|by apply elem_of_nil in Hin]. }
  unfold total, provisioned. rewrite (sum_of_perm _ _ (fmap_Permutation _ _ _ Hp)), fmap_app.
  assert (Happ : forall l k, sum_of (l ++ k) = sum_of l + sum_of k)
    by (induction l as [|x l IH]; intros k; simpl; [done|rewrite IH; lia]).
  rewrite Happ. destruct (in_host_id row =? host); simpl; lia.
Qed.

(** Excluding a row that is not there excludes nothing. *)
Lemma provisioned_absent col host uuid d :
  instances d !! uuid = None -> provisioned col host uuid d = total col host (instances d).
Proof.
  intros Hn. unfold provisioned, total. apply sum_of_perm, fmap_Permutation, NoDup_Permutation;
    [apply NoDup_rows..|].
  intros [k v]. rewrite !elem_of_rows. unfold on_host.
  rewrite andb_true_iff, negb_true_iff, bool_decide_eq_false. split; [tauto|].
  intros [Hl Hv]. split_and!; [done..|]. intros ->. congruence.
Qed.

Lemma to_sql_int_Ok v z : to_sql_int v = Ok z <-> v <= i64_max /\ z = v.
Proof. unfold to_sql_int. destruct (Z.leb_spec v i64_max); naive_solver lia. Qed.

Lemma opt_to_sql_int_Ok o z : opt_res to_sql_int o = Ok z -> z = o.
Proof.
  destruct o as [v|]; simpl; [|by intros [= <-]].
  destruct (to_sql_int v) as [w|] eqn:Hw; [|done]. apply to_sql_int_Ok in Hw as [_ ->]. by intros [= <-].
Qed.

(** What a successful create did. *)
Lemma create_instance_Ok i cooldown capacity now now' d u d' :
  create_instance i cooldown capacity now now' d = (Ok u, d') ->
  exists text, format_time (if i_created_at i =? UNIX_EPOCH then now' else i_created_at i) = Ok text /\
    let row := instance_row i text (i_memory_mib i) (i_disk_gib i) (i_slot i) in
    claim_name_tx (i_name i) (i_owner_id i) cooldown now d = (Ok tt, d) /\
    check_capacity_tx (i_host_id i) "" (i_memory_mib i) (i_disk_gib i) capacity d = (Ok tt, d) /\
    i_memory_mib i <= i64_max /\ i_disk_gib i <= i64_max /\
    instances d !! i_uuid i = None /\ put_instance (i_uuid i) row d = (Ok tt, d') /\
    d' = set_instances <[i_uuid i := row]> d.
Proof.
  intros Hr. unfold create_instance in Hr. tx_inv.
  pose proof (claim_name_tx_Ok _ _ _ _ _ _ _ Hs) as [-> _].
  pose proof (reads_only_run _ _ _ _ (check_capacity_reads _ _ _ _ _) Hs0) as ->.
  apply to_sql_int_Ok in Hs1 as [? ->]. apply to_sql_int_Ok in Hs2 as [? ->].
  apply opt_to_sql_int_Ok in Hs4 as ->.
  unfold insert_instance in Hr. tx_inv. apply bool_decide_eq_true in Hs1.
  eexists. split; [done|]. simpl. split_and!; try done.
  by apply put_instance_Ok in Hr as (_ & _ & _ & _ & ->).
Qed.

(** Values of the Rust types. *)
Definition wf_instance (i : Instance) : Prop :=
  0 <= i_vcpu i <= u32_max /\ 0 <= i_memory_mib i /\ 0 <= i_disk_gib i /\
  0 <= i_http_port i <= 65535 /\ (forall k, i_slot i = Some k -> 0 <= k).

Lemma get_range_Ok max v : 0 <= v <= max -> get_range max v = Ok v.
Proof. intros. unfold get_range. destruct (Z.ltb_spec v 0), (Z.ltb_spec max v); try lia; done. Qed.

(** Reading back a row [create_instance] wrote. *)
Lemma scan_instance_row i t text :
  wf_instance i -> format_time t = Ok text ->
  scan_instance (i_uuid i) (instance_row i text (i_memory_mib i) (i_disk_gib i) (i_slot i)) =
  Ok (mkInstance (i_uuid i) (i_name i) (i_owner_id i) (i_host_id i) (i_image_name i)
    (i_base_checksum i) (i_state i) (i_desired_state i) (i_address i) (i_mac i) (i_vcpu i)
    (i_memory_mib i) (i_disk_gib i) (i_nested i) (i_ksm i) (i_http_port i) (i_visibility i) t None
    (i_slot i)).
Proof.
  intros (Hv & Hm & Hd & Hp & Hk) Ht. unfold scan_instance, instance_row.
  cbn [in_state in_desired_state in_vcpu in_memory in_disk in_http_port in_visibility in_slot
       in_created_at in_last_seen_at in_name in_owner_id in_host_id in_image_name in_base_checksum
       in_address in_mac in_nested in_ksm].
  rewrite !parse_enum_as_str. cbn [mbind result_bind]. rewrite get_range_Ok by done.
  rewrite (proj2 (from_sql_int_Ok _ _) (conj Hm eq_refl)).
  cbn [mbind result_bind]. rewrite (proj2 (from_sql_int_Ok _ _) (conj Hd eq_refl)).
  cbn [mbind result_bind]. rewrite get_range_Ok by (change (2 ^ 16 - 1) with 65535; done).
  cbn [mbind result_bind].
  assert (get_opt_u64 (i_slot i) = Ok (i_slot i)) as ->.
  { destruct (i_slot i) as [k|]; [|done]. unfold get_opt_u64, opt_res.
    by rewrite (proj2 (from_sql_int_Ok k k) (conj (Hk k eq_refl) eq_refl)). }
  cbn [mbind result_bind]. by rewrite (parse_format_time _ _ Ht).
Qed.

(** A name that one row holds resolves to that row. *)
Lemma instance_by_name_found name uuid r d :
  instances d !! uuid = Some r -> in_name r = name ->
  (forall u' r', instances d !! u' = Some r' -> in_name r' = name -> u' = uuid) ->
  instance_by_name name d = (scan_instance uuid r, d).
Proof.
  intros Hl Hn Hu. unfold instance_by_name, query, mbind, ST_bind.
  rewrite (find_row_unique _ _ uuid r); [done|done|by rewrite bool_decide_eq_true|].
  intros u' r' Hl' Hb%bool_decide_eq_true. by eapply Hu.
Qed.

Lemma instance_by_name_absent name d :
  (forall u' r', instances d !! u' = Some r' -> in_name r' <> name) ->
  instance_by_name name d = (Err NotFound, d).
Proof.
  intros Hn. unfold instance_by_name, query, mbind, ST_bind.
  rewrite (proj2 (find_row_None _ _)); [done|].
  intros u' r' Hl. apply bool_decide_eq_false. by eapply Hn.
Qed.
End Lemmas.

(** ** Properties *)

Section Properties.
Context `{TimeFormat}.

(** Create, then read: an instance whose fields are in the range of their
    types comes back exactly as it was given, by UUID and by name, with the
    clock's time when it had none, and every other row is untouched. *)
Theorem create_then_read (i : Instance) (cooldown : Z) (capacity : Capacity) (now now' : Z)
    (d d' : Db) :
  wf_instance i -> create_instance i cooldown capacity now now' d = (Ok tt, d') ->
  let created := if i_created_at i =? UNIX_EPOCH then now' else i_created_at i in
  let i' := mkInstance (i_uuid i) (i_name i) (i_owner_id i) (i_host_id i) (i_image_name i)
    (i_base_checksum i) (i_state i) (i_desired_state i) (i_address i) (i_mac i) (i_vcpu i)
    (i_memory_mib i) (i_disk_gib i) (i_nested i) (i_ksm i) (i_http_port i) (i_visibility i)
    created None (i_slot i) in
  instance (i_uuid i) d' = (Ok i', d') /\ instance_by_name (i_name i) d' = (Ok i', d') /\
  forall uuid, uuid <> i_uuid i -> instances d' !! uuid = instances d !! uuid.
Proof.
  intros Hwf Hr created i'.
  apply create_instance_Ok in Hr as (text & Ht & Hclaim & _ & _ & _ & Hfresh & _ & ->).
  apply claim_name_tx_Ok in Hclaim as (_ & Hnames & _).
  pose proof (scan_instance_row i created text Hwf Ht) as Hscan. split_and!.
  - unfold instance, get_instance_tx, query, mbind, ST_bind. cbn. rewrite lookup_insert_eq.
    unfold lift_res. by rewrite Hscan.
  - rewrite (instance_by_name_found _ (i_uuid i)
      (instance_row i text (i_memory_mib i) (i_disk_gib i) (i_slot i))); [by rewrite Hscan| |done|].
    + cbn. by rewrite lookup_insert_eq.
    + intros u' r' Hl Hn. cbn in Hl. rewrite lookup_insert_Some in Hl.
      destruct Hl as [[<- _]|[_ Hl]]; [done|]. by destruct (Hnames u' r').
  - intros uuid Hne. cbn. by rewrite lookup_insert_ne.
Qed.

(** C31.  The host ceiling holds: after a create or a resize that succeeded
    under a limit, what the instance's host has provisioned, memory and disk,
    is within that limit.  No instance has the empty id. *)
Theorem capacity_respected (capacity : Capacity) (d d' : Db) (memory_limit disk_limit : Z) :
  instances d !! EmptyString = None ->
  cap_memory_mib capacity = Limit memory_limit -> cap_disk_gib capacity = Limit disk_limit ->
  (forall i cooldown now now', wf_instance i ->
     create_instance i cooldown capacity now now' d = (Ok tt, d') ->
     total in_memory (i_host_id i) (instances d') <= memory_limit /\
     total in_disk (i_host_id i) (instances d') <= disk_limit) /\
  (forall uuid vcpu memory_mib disk_gib nested, 0 <= memory_mib -> 0 <= disk_gib ->
     resize uuid vcpu memory_mib disk_gib nested capacity d = (Ok tt, d') ->
     exists r, instances d' !! uuid = Some r /\
       total in_memory (in_host_id r) (instances d') <= memory_limit /\
       total in_disk (in_host_id r) (instances d') <= disk_limit).
Proof.
  intros Hempty Hml Hdl. split.
  - intros i cooldown now now' (_ & Hm & Hd & _) Hr.
    apply create_instance_Ok in Hr as (text & _ & _ & Hcap & Hmm & Hdd & Hfresh & _ & ->).
    apply check_capacity_tx_Ok in Hcap as (_ & Hmem & Hdisk); [|lia|lia].
    specialize (Hmem _ Hml). specialize (Hdisk _ Hdl). cbn.
    rewrite !provisioned_absent in Hmem, Hdisk by done.
    rewrite !total_insert, !provisioned_absent by done. cbn. rewrite !Z.eqb_refl. lia.
  - intros uuid vcpu memory_mib disk_gib nested Hm Hd Hr. unfold resize in Hr. tx_inv.
    apply get_instance_tx_Ok in Hs as (-> & r & Hl & Hscan).
    apply scan_instance_Ok in Hscan as (_ & _ & _ & Hhost & _). rewrite Hhost in Hs0.
    pose proof (reads_only_run _ _ _ _ (check_capacity_reads _ _ _ _ _) Hs0) as ->.
    apply to_sql_int_Ok in Hs1 as [? ->]. apply to_sql_int_Ok in Hs2 as [? ->].
    apply check_capacity_tx_Ok in Hs0 as (_ & Hmem & Hdisk); [|lia|lia].
    specialize (Hmem _ Hml). specialize (Hdisk _ Hdl).
    apply update_instance_row_Ok in Hs3 as [(Hno & _)|(r' & Hl' & _ & _ & ->)]; [congruence|].
    assert (r' = r) as -> by congruence. eexists. cbn. rewrite lookup_insert_eq. split; [done|].
    rewrite !total_insert. cbn. rewrite !Z.eqb_refl. lia.
Qed.

(**  A rename moves the label and nothing else: the new name resolves to
    the same UUID, the old name resolves to nothing and is in cooldown for
    the owner, and every user's access is what it was. *)
Theorem rename_moves_label (uuid new_name : string) (cooldown now now' : Z) (d d' : Db)
    (r : InstanceRow) :
  wf_db d -> instances d !! uuid = Some r -> in_name r <> new_name ->
  rename_instance uuid new_name cooldown now now' d = (Ok tt, d') ->
  instance_by_name new_name d' = (scan_instance uuid (with_name new_name r), d') /\
  instance_by_name (in_name r) d' = (Err NotFound, d') /\
  (exists text, format_time now' = Ok text /\
     released_names d' !! in_name r = Some (in_owner_id r, text)) /\
  forall u x, fst (has_access u x d') = fst (has_access u x d).
Proof.
  intros Hwf Hl Hne Hr. unfold rename_instance in Hr. tx_inv.
  apply get_instance_tx_Ok in Hs as (-> & r' & Hl' & Hscan). assert (r' = r) as -> by congruence.
  apply scan_instance_Ok in Hscan as (_ & Hname & Howner & _).
  rewrite Hname, Howner, bool_decide_false in Hr by done. tx_inv.
  apply claim_name_tx_Ok in Hs as (-> & Hfree & _).
  apply update_instance_row_Ok in Hs0 as [(? & _)|(r' & Hl'' & _ & _ & ->)]; [congruence|].
  assert (r' = r) as -> by congruence.
  apply release_name_tx_Ok in Hr as (text & Ht & _ & ->). split_and!.
  - apply instance_by_name_found; [by cbn; rewrite lookup_insert_eq|done|].
    intros u' x. cbn. rewrite lookup_insert_Some. intros [[<- _]|[_ Hx]] Hn; [done|].
    by destruct (Hfree u' x Hx).
  - apply instance_by_name_absent. intros u' x. cbn. rewrite lookup_insert_Some.
    intros [[_ <-]|[Hu Hx]] Hn; [by cbn in Hn|]. apply Hu. symmetry.
    eapply (wf_instance_name d Hwf); [exact Hx|exact Hl|reflexivity|cbn; congruence].
  - exists text. split; [done|]. cbn. by rewrite lookup_insert_eq.
  - intros u x. unfold has_access, query. cbn. do 2 f_equal.
    destruct (decide (u = uuid)) as [->|]; [rewrite lookup_insert_eq, Hl|rewrite lookup_insert_ne]; done.
Qed.

(** A delete takes away the row and everybody's access, and keeps the
    name for its owner: the owner may take it again at once, anybody else is
    told to wait exactly the rest of the cooldown, and may take it after. *)
Theorem delete_releases_name (uuid : string) (now now' cooldown user : Z) (i : Instance) (d d' : Db) :
  wf_db d -> delete_instance uuid now d = (Ok i, d') ->
  now <= now' -> 0 <= cooldown <= u64_max * nanos_per_sec ->
  instances d' = delete uuid (instances d) /\
  (forall x, has_access uuid x d' = (Ok false, d')) /\
  claim_name (i_name i) user cooldown now' d' =
    (if bool_decide (user <> i_owner_id i) && (now' - now <? cooldown)
     then Err (NameCooldown (i_name i) (cooldown - (now' - now))) else Ok tt, d').
Proof.
  intros Hwf Hr Hle Hc. unfold delete_instance in Hr. tx_inv. rename v into i.
  apply get_instance_tx_Ok in Hs as (-> & r & Hl & Hscan).
  apply scan_instance_Ok in Hscan as (_ & Hname & Howner & _). unfold delete_instance_row in Hs0.
  tx_inv. apply release_name_tx_Ok in Hs1 as (text & Ht & _ & ->).
  split; [done|]. split.
  - intros x. unfold has_access, query. cbn. rewrite lookup_delete_eq, bool_decide_false; [done|].
    intros [y Hy]. apply map_lookup_filter_Some in Hy as [_ Hy]. done.
  - assert (Hfree : exists_row (fun _ r => bool_decide (in_name r = i_name i))
      (delete uuid (instances d)) = false).
    { apply exists_row_false. intros u' x [Hu Hx]%lookup_delete_Some. apply bool_decide_eq_false.
      intros Hn. apply Hu. symmetry.
      eapply (wf_instance_name d Hwf); [exact Hx|exact Hl|reflexivity|cbn; congruence]. }
    unfold claim_name, with_tx, claim_name_tx, query, lift_res, mbind, ST_bind. cbn.
    rewrite Hfree. cbn. rewrite lookup_insert_eq. destruct (Z.eqb_spec (i_owner_id i) user) as [->|Hne].
    { rewrite bool_decide_false by tauto. done. }
    rewrite bool_decide_true by done. rewrite (parse_format_time _ _ Ht). unfold remaining_cooldown.
    destruct (Z.leb_spec (cooldown - (now' - now)) 0), (Z.ltb_spec (now' - now) cooldown);
      try lia; cbn; [done|].
    destruct (Z.ltb_spec u64_max (Z.quot (cooldown - (now' - now)) nanos_per_sec)) as [Hb|]; [|done].
    exfalso. assert (Z.quot (cooldown - (now' - now)) nanos_per_sec <= u64_max); [|lia].
    apply Z.quot_le_upper_bound; unfold nanos_per_sec in *; lia.
Qed.
End Properties.

(** ** Every operation keeps the database well-formed *)

Section KeepsWf.
Context `{TimeFormat}.

Lemma release_name_keeps_wf name owner now : keeps_wf (release_name_tx name owner now).
Proof.
  unfold release_name_tx. apply keeps_wf_bind; [wf_steps|]. intros at_. apply keeps_wf_guarded.
  intros d Hd Hr. revert Hd. wf_table. by apply fk_ok_insert.
Qed.

Lemma claim_name_reads name user cooldown now : reads_only (claim_name_tx name user cooldown now).
Proof. unfold claim_name_tx. ro_steps. Qed.

Lemma get_instance_reads uuid : reads_only (get_instance_tx uuid).
Proof. unfold get_instance_tx. ro_steps. Qed.

Lemma delete_instance_row_keeps_wf uuid : keeps_wf (delete_instance_row uuid).
Proof.
  intros d Hd. pose proof (wf_share_instance d Hd) as Hsh. revert Hd.
  unfold delete_instance_row. cbn. wf_table;
    try (apply unique_col_delete; done); try (eapply fk_ok_subseteq; [apply delete_subseteq|done]).
  - intros k v p [Hl Hk]%map_lookup_filter_Some [= <-]. cbn in Hk. rewrite lookup_delete_ne by done.
    by eapply Hsh.
  - eapply fk_ok_subseteq; [apply map_filter_subseteq|done].
Qed.

#[local] Hint Resolve release_name_keeps_wf delete_instance_row_keeps_wf : bento_wf.
#[local] Hint Extern 1 (keeps_wf _) => apply keeps_wf_reads_only;
  first [apply claim_name_reads | apply get_instance_reads | apply check_capacity_reads] : bento_wf.

Lemma create_instance_keeps_wf i cooldown capacity now now' :
  keeps_wf (create_instance i cooldown capacity now now').
Proof. unfold create_instance. wf_steps. Qed.
Lemma delete_instance_keeps_wf uuid now : keeps_wf (delete_instance uuid now).
Proof. unfold delete_instance. wf_steps. Qed.
Lemma rename_instance_keeps_wf uuid name cooldown now now' :
  keeps_wf (rename_instance uuid name cooldown now now').
Proof. unfold rename_instance. wf_steps. Qed.
Lemma resize_keeps_wf uuid vcpu memory disk nested capacity :
  keeps_wf (resize uuid vcpu memory disk nested capacity).
Proof. unfold resize. wf_steps. Qed.
Lemma update_instance_keeps_wf uuid f : keeps_wf (update_instance uuid f).
Proof. unfold update_instance. wf_steps. Qed.
Lemma touch_last_seen_keeps_wf uuid now : keeps_wf (touch_last_seen uuid now).
Proof. unfold touch_last_seen. apply keeps_wf_bind; [wf_steps|]. intros ?. apply update_instance_keeps_wf. Qed.
Lemma update_observed_states_keeps_wf states : keeps_wf (update_observed_states states).
Proof.
  unfold update_observed_states. case_match; [wf_steps|]. apply keeps_wf_tx.
  clear. induction states as [|[uuid state] states IH]; simpl; wf_steps.
Qed.
Lemma add_share_keeps_wf uuid user now : keeps_wf (add_share uuid user now).
Proof.
  unfold add_share. apply keeps_wf_bind; [wf_steps|]. intros at_.
  apply keeps_wf_bind; [wf_steps|]. intros [known|]; [wf_steps|]. apply keeps_wf_guarded.
  intros d Hd [Hi Hu]%andb_true_iff. revert Hd. wf_table; by apply fk_ok_insert.
Qed.
Lemma remove_share_keeps_wf uuid user : keeps_wf (remove_share uuid user).
Proof.
  unfold remove_share. apply keeps_wf_bind; [wf_steps|]. intros [known|]; [|wf_steps].
  intros d. cbn. wf_table; (eapply fk_ok_subseteq; [apply delete_subseteq|done]).
Qed.
End KeepsWf.

(** ** Witnesses *)

(** A time format for the examples: the number itself. *)
#[local] Program Instance decimal_time : TimeFormat := {|
  rfc3339_format := fun t => if t <? 0 then Err "negative" else Ok (dec t);
  rfc3339_parse := fun s => ok_or (parse_digits s) "not a number"
|}.
Next Obligation.
  intros t s. cbn. destruct (Z.ltb_spec t 0); [done|]. intros [= <-].
  rewrite parse_digits_dec by done. done.
Qed.

(** One user, one host that owns slot 0, one image. *)
Definition small_db : Db :=
  mkDb {[ 1 := mkUserRow "ann" "ann@example.org" None "10.100.0.0/24" "5";
          2 := mkUserRow "bob" "bob@example.org" None "10.100.1.0/24" "5" ]} ∅
    {[ 1 := mkHostRow (Some "m1") "node" "qemu:///system" None None true "active" "5" ]}
    24 (mkLeaseRow None 0 None) {[ 0 := mkSlotRow "active" 1 0 None None None ]} ∅ ∅
    {[ "debian" := mkImageRow "https://example.org" "qcow2" None None ]}
    {[ "abc" := mkVersionRow "debian" "/images/abc" 1 "qcow2" None "5" ]} ∅ ∅ ∅ ∅ ∅ ∅ ∅.

Definition small_instance : Instance :=
  mkInstance "u1" "web" 1 1 "debian" "abc" Stopped WantRunning "10.100.0.2" "02:00:00:00:00:01"
    2 1024 20 false true 80 Off 7 None (Some 0).
Definition small_capacity : Capacity := limited 2048 40.
Definition small_db_1 : Db :=
  snd (create_instance small_instance (10 * nanos_per_sec) small_capacity 8 8 small_db).

(** Showing a concrete table well-formed. *)
Lemma unique_col_check {K V T} `{Countable K, EqDecision T} (m : gmap K V) (col : V -> option T) :
  forallb (fun a => forallb (fun b => bool_decide (a.1 = b.1) ||
    bool_decide (col a.2 = None) || negb (bool_decide (col a.2 = col b.2))) (map_to_list m))
    (map_to_list m) = true -> unique_col m col.
Proof.
  intros Hall k1 k2 v1 v2 x H1 H2 C1 C2.
  rewrite forallb_forall in Hall. setoid_rewrite <-list_elem_of_In in Hall.
  assert (In1 : (k1, v1) ∈ map_to_list m) by by apply elem_of_map_to_list.
  specialize (Hall _ In1). rewrite forallb_forall in Hall. setoid_rewrite <-list_elem_of_In in Hall.
  assert (In2 : (k2, v2) ∈ map_to_list m) by by apply elem_of_map_to_list.
  specialize (Hall _ In2). cbn in Hall. rewrite C1, C2 in Hall.
  rewrite (bool_decide_false (Some x = None)), (bool_decide_true (Some x = Some x)) in Hall by done.
  rewrite !orb_false_r in Hall. by apply bool_decide_eq_true in Hall.
Qed.

Lemma fk_ok_check {K V P W} `{Countable K, Countable P} (child : gmap K V) (col : K -> V -> option P)
    (parent : gmap P W) :
  forallb (fun kv => ref_ok parent (col kv.1 kv.2)) (map_to_list child) = true ->
  fk_ok child col parent.
Proof.
  intros Hall k v p Hl Hc. rewrite forallb_forall in Hall. setoid_rewrite <-list_elem_of_In in Hall.
  assert (Hin : (k, v) ∈ map_to_list child) by by apply elem_of_map_to_list.
  specialize (Hall _ Hin). cbn in Hall. rewrite Hc in Hall. by apply bool_decide_eq_true in Hall.
Qed.

Ltac wf_check := constructor;
  first [apply unique_col_check | apply fk_ok_check | idtac]; vm_compute; (reflexivity || split; congruence).

Lemma wf_small_db : wf_db small_db.
Proof. wf_check. Qed.

Lemma wf_small_db_1 : wf_db small_db_1.
Proof. unfold small_db_1. apply create_instance_keeps_wf, wf_small_db. Qed.

Lemma wf_small_instance : wf_instance small_instance.
Proof. repeat split; cbn; try int_lia. intros k [= <-]. lia. Qed.

Lemma create_then_read_witness :
  create_instance small_instance (10 * nanos_per_sec) small_capacity 8 8 small_db =
    (Ok tt, small_db_1) /\
  instance "u1" small_db_1 = (Ok small_instance, small_db_1).
Proof.
  assert (Hc : create_instance small_instance (10 * nanos_per_sec) small_capacity 8 8 small_db =
    (Ok tt, small_db_1)) by (vm_compute; reflexivity).
  split; [exact Hc|].
  exact (proj1 (create_then_read small_instance _ _ 8 8 _ _ wf_small_instance Hc)).
Defined.

Lemma capacity_respected_witness :
  total in_memory 1 (instances small_db_1) = 1024 /\
  total in_memory 1 (instances small_db_1) <= 2048 /\ total in_disk 1 (instances small_db_1) <= 40.
Proof.
  split; [vm_compute; reflexivity|].
  eapply (proj1 (capacity_respected small_capacity small_db small_db_1 2048 40 eq_refl eq_refl eq_refl)
    small_instance (10 * nanos_per_sec) 8 8 wf_small_instance). vm_compute. reflexivity.
Defined.

Definition small_row : InstanceRow := instance_row small_instance "7" 1024 20 (Some 0).
Definition small_db_2 : Db := snd (rename_instance "u1" "shop" (10 * nanos_per_sec) 9 9 small_db_1).

Lemma rename_moves_label_witness :
  rename_instance "u1" "shop" (10 * nanos_per_sec) 9 9 small_db_1 = (Ok tt, small_db_2) /\
  instance_by_name "web" small_db_2 = (Err NotFound, small_db_2).
Proof.
  assert (Hc : rename_instance "u1" "shop" (10 * nanos_per_sec) 9 9 small_db_1 = (Ok tt, small_db_2))
    by (vm_compute; reflexivity).
  split; [exact Hc|].
  eapply (rename_moves_label "u1" "shop" _ 9 9 small_db_1 small_db_2 small_row wf_small_db_1);
    [vm_compute; reflexivity|cbn; discriminate|exact Hc].
Defined.

Definition small_db_3 : Db := snd (delete_instance "u1" 9 small_db_1).

Lemma delete_releases_name_witness :
  delete_instance "u1" 9 small_db_1 = (Ok small_instance, small_db_3) /\
  claim_name "web" 2 (10 * nanos_per_sec) 11 small_db_3 =
    (Err (NameCooldown "web" (10 * nanos_per_sec - 2)), small_db_3).
Proof.
  assert (Hc : delete_instance "u1" 9 small_db_1 = (Ok small_instance, small_db_3))
    by (vm_compute; reflexivity).
  split; [exact Hc|].
  refine (proj2 (proj2 (delete_releases_name "u1" 9 11 (10 * nanos_per_sec) 2 small_instance
    small_db_1 small_db_3 wf_small_db_1 Hc _ _))); vm_compute; [|split]; congruence.
Defined.
