(* ===== verification/Accounts.v ===== *)
(** * Accounts: [crates/store/src/{users,sshkeys,tokens,pairings}.rs]

    User accounts and the [/24] each one gets, the public keys and tokens a
    user signs in with, and the pending links that turn an unknown SSH key
    into a registered one. *)

From Stdlib Require Import ZArith Lia.
From S2P Require Import Prelude Text Types Ipv4 Network Db Instances.
Open Scope Z_scope.

(** ** Choosing a subnet and a name: [users.rs] *)

(** [masked_address]. *)
Definition masked_address (address bits_ : Z) : Z := Z.land address (mask_of bits_).

(** [next_free_subnet]: the lowest unused [/24], as text. *)
Definition next_free_subnet (range_ : Ipv4Prefix) (used : list Z) : result StoreError string :=
  if 24 <? bits range_ then
    Err (InvalidPrivateRange (prefix_to_string range_ +:+ " is narrower than /24"))
  else
    let base := masked_address (addr range_) (bits range_) in
    let count_ := u32_shl 1 (24 - bits range_) in
    match find_first (fun index => negb (bool_decide (u32_add base (u32_shl index 8) ∈ used)))
            (range 0 count_) with
    | Some index => Ok (addr_to_string (u32_add base (u32_shl index 8)) +:+ "/24")
    | None => Err NoFreeSubnet
    end.

Definition NAME_VARIANTS : Z := 100.

Definition name_variant (preferred : string) (suffix : Z) : string :=
  if suffix =? 1 then preferred else preferred +:+ "-" +:+ dec suffix.

(** [available_name]. *)
Definition available_name (preferred : string) : Tx string :=
  fun d =>
    match find_first (fun suffix => negb (exists_row (fun _ u =>
              bool_decide (ur_name u = name_variant preferred suffix)) (users d)))
            (range 1 (NAME_VARIANTS + 1)) with
    | Some suffix => (Ok (name_variant preferred suffix), d)
    | None => (Err NameTaken, d)
    end.

Section Accounts.
Context `{TimeFormat}.

(** [INSERT INTO users]. *)
Definition insert_user (row : UserRow) : Tx Z :=
  id ← query (fun d => next_rowid (users d));
  _ ← (_ ← require (fun d =>
            col_free (users d) (fun u => Some (ur_name u)) id (Some (ur_name row)) &&
            col_free (users d) ur_oidc_subject id (ur_oidc_subject row) &&
            col_free (users d) (fun u => Some (ur_subnet u)) id (Some (ur_subnet row)))
          (SqlFailure UniqueViolation);
       modify (set_users <[id := row]>));
  mret id.

(** One stored subnet, as [register] reads it. *)
Definition used_address (u : UserRow) : result StoreError Z :=
  p ← ok_or (parse_prefix (ur_subnet u)) (InvalidPrivateRange ("user subnet " +:+ ur_subnet u));
  Ok (masked_address (addr p) (bits p)).

(** [Store::register]: [register_user] and [register_user_with_available_name]. *)
Definition register (name email : string) (oidc_subject : option string) (private_range : Ipv4Prefix)
    (dedupe_name : bool) (now : Z) : Tx User :=
  with_tx (
    name ← (if dedupe_name then available_name name else mret name);
    stored ← query (fun d => snd <$> map_to_list (users d));
    used ← lift_res (mapM used_address stored);
    subnet ← lift_res (next_free_subnet private_range used);
    created_at ← lift_res (format_time now);
    id ← insert_user (mkUserRow name email oidc_subject subnet created_at);
    mret (mkUser id name email oidc_subject subnet now)).

(** [scan_user]. *)
Definition scan_user (id : Z) (r : UserRow) : result StoreError User :=
  created_at ← parse_time (ur_created_at r);
  Ok (mkUser id (ur_name r) (ur_email r) (ur_oidc_subject r) (ur_subnet r) created_at).

(** [Store::user_by] on the three columns. *)
Definition user_where (p : Z -> UserRow -> bool) : Tx User :=
  found ← query (fun d => find_row p (users d));
  match found with
  | None => fail NotFound
  | Some (id, r) => lift_res (scan_user id r)
  end.
Definition user_by_id (id : Z) : Tx User := user_where (fun k _ => k =? id).
Definition user_by_name (name : string) : Tx User :=
  user_where (fun _ u => bool_decide (ur_name u = name)).
Definition user_by_oidc_subject (subject : string) : Tx User :=
  user_where (fun _ u => bool_decide (ur_oidc_subject u = Some subject)).

(** [Store::users]: [ORDER BY name]. *)
Definition all_users : Tx (list User) :=
  found ← query (fun d => sort_by (fun a b => text_lt (ur_name a.2) (ur_name b.2))
                            (map_to_list (users d)));
  lift_res (mapM (fun kv => scan_user kv.1 kv.2) found).

Record Usage : Type := mkUsage {
  us_instances : Z; us_vcpu : Z; us_memory_mib : Z; us_disk_gib : Z
}.

(** [Store::usage_for]. *)
Definition usage_for (user_id : Z) : Tx Usage :=
  mine ← query (fun d => snd <$> rows (fun _ i => in_owner_id i =? user_id) (instances d));
  vcpu ← lift_res (sum_sql 0 (in_vcpu <$> mine));
  memory ← lift_res (sum_sql 0 (in_memory <$> mine));
  disk ← lift_res (sum_sql 0 (in_disk <$> mine));
  vcpu ← lift_res (from_sql_int vcpu);
  memory ← lift_res (from_sql_int memory);
  disk ← lift_res (from_sql_int disk);
  mret (mkUsage (Z.of_nat (length mine)) vcpu memory disk).

(** ** Keys: [sshkeys.rs] *)

(** [insert_ssh_key]: the unique index on the fingerprint is the check. *)
Definition insert_ssh_key (user_id : Z) (public_key fingerprint comment : string) (now : Z) : Tx Z :=
  created_at ← lift_res (format_time now);
  id ← query (fun d => next_rowid (ssh_keys d));
  _ ← require (fun d => col_free (ssh_keys d) (fun k => Some (kr_fingerprint k)) id (Some fingerprint))
        SshKeyTaken;
  _ ← (_ ← require (fun d => ref_ok (users d) (Some user_id)) (SqlFailure ForeignKey);
       modify (set_ssh_keys <[id := mkKeyRow user_id public_key fingerprint comment created_at]>));
  mret id.

(** [Store::add_ssh_key]. *)
Definition add_ssh_key (user_id : Z) (public_key fingerprint comment : string) (now : Z) : Tx Z :=
  insert_ssh_key user_id public_key fingerprint comment now.

(** [scan_ssh_key]. *)
Definition scan_ssh_key (id : Z) (r : KeyRow) : result StoreError SshKey :=
  created_at ← parse_time (kr_created_at r);
  Ok (mkSshKey id (kr_user_id r) (kr_public_key r) (kr_fingerprint r) (kr_comment r) created_at).

(** [Store::ssh_key_by_fingerprint]. *)
Definition ssh_key_by_fingerprint (fingerprint : string) : Tx SshKey :=
  found ← query (fun d => find_row (fun _ k => bool_decide (kr_fingerprint k = fingerprint)) (ssh_keys d));
  match found with
  | None => fail NotFound
  | Some (id, r) => lift_res (scan_ssh_key id r)
  end.

(** [Store::ssh_keys_for_user]: [ORDER BY id]. *)
Definition ssh_keys_for_user (user_id : Z) : Tx (list SshKey) :=
  found ← query (fun d => sort_by (fun a b => a.1 <? b.1)
                            (rows (fun _ k => kr_user_id k =? user_id) (ssh_keys d)));
  lift_res (mapM (fun kv => scan_ssh_key kv.1 kv.2) found).

(** [Store::delete_ssh_key]: scoped to the user. *)
Definition delete_ssh_key (user_id key_id : Z) : Tx unit :=
  found ← query (fun d => ssh_keys d !! key_id);
  match found with
  | Some k => if kr_user_id k =? user_id then modify (set_ssh_keys (delete key_id)) else fail NotFound
  | None => fail NotFound
  end.

(** ** Tokens: [tokens.rs] *)

(** [Store::create_token]. *)
Definition create_token (user_id : Z) (hash : string) (expires_at : option Z) : Tx Z :=
  expires ← lift_res (opt_res format_time expires_at);
  id ← query (fun d => next_rowid (tokens d));
  _ ← require (fun d => col_free (tokens d) (fun t => Some (tr_hash t)) id (Some hash))
        (SqlFailure UniqueViolation);
  _ ← (_ ← require (fun d => ref_ok (users d) (Some user_id)) (SqlFailure ForeignKey);
       modify (set_tokens <[id := mkTokenRow user_id hash expires]>));
  mret id.

(** [scan_token]. *)
Definition scan_token (id : Z) (r : TokenRow) : result StoreError Token :=
  expires_at ← opt_res parse_time (tr_expires_at r);
  Ok (mkToken id (tr_user_id r) (tr_hash r) expires_at).

(** [Store::token_by_hash]. *)
Definition token_by_hash (hash : string) : Tx Token :=
  found ← query (fun d => find_row (fun _ t => bool_decide (tr_hash t = hash)) (tokens d));
  match found with
  | None => fail NotFound
  | Some (id, r) => lift_res (scan_token id r)
  end.

(** [Store::delete_token] and [Store::delete_token_by_id]. *)
Definition delete_token (user_id token_id : Z) : Tx unit :=
  found ← query (fun d => tokens d !! token_id);
  match found with
  | Some t => if tr_user_id t =? user_id then modify (set_tokens (delete token_id)) else fail NotFound
  | None => fail NotFound
  end.
Definition delete_token_by_id (token_id : Z) : Tx unit :=
  found ← query (fun d => tokens d !! token_id);
  match found with
  | Some _ => modify (set_tokens (delete token_id))
  | None => fail NotFound
  end.

(** ** Pending key links: [pairings.rs] *)

(** Expired and unused, by the text comparison of the [DELETE]. *)
Definition stale_pairing (now_text : string) (p : PairingRow) : bool :=
  bool_decide (pw_linked_user_id p = None) && text_le (pw_expires_at p) now_text.

(** [Store::create_pairing]. *)
Definition create_pairing (token_hash public_key fingerprint comment : string) (expires_at now : Z) :
    Tx Pairing :=
  with_tx (
    created_text ← lift_res (format_time now);
    _ ← modify (set_pairings (filter (fun kv => stale_pairing created_text kv.2 = false)));
    expires_text ← lift_res (format_time expires_at);
    id ← query (fun d => next_rowid (pairings d));
    _ ← (_ ← require (fun d => col_free (pairings d) (fun p => Some (pw_token_hash p)) id
                                 (Some token_hash)) (SqlFailure UniqueViolation);
         modify (set_pairings <[id := mkPairingRow token_hash public_key fingerprint comment
                                        created_text expires_text None]>));
    mret (mkPairing id token_hash public_key fingerprint comment now expires_at None)).

(** [scan_pairing]. *)
Definition scan_pairing (id : Z) (r : PairingRow) : result StoreError Pairing :=
  created_at ← parse_time (pw_created_at r);
  expires_at ← parse_time (pw_expires_at r);
  Ok (mkPairing id (pw_token_hash r) (pw_public_key r) (pw_fingerprint r) (pw_comment r) created_at
        expires_at (pw_linked_user_id r)).

(** [Store::pairing_by_token_hash] and [Store::pairing]. *)
Definition pairing_by_token_hash (token_hash : string) : Tx Pairing :=
  found ← query (fun d => find_row (fun _ p => bool_decide (pw_token_hash p = token_hash)) (pairings d));
  match found with
  | None => fail NotFound
  | Some (id, r) => lift_res (scan_pairing id r)
  end.
Definition pairing (id : Z) : Tx Pairing :=
  found ← query (fun d => pairings d !! id);
  match found with
  | None => fail NotFound
  | Some r => lift_res (scan_pairing id r)
  end.

Definition with_linked (user_id : Z) (r : PairingRow) : PairingRow :=
  mkPairingRow (pw_token_hash r) (pw_public_key r) (pw_fingerprint r) (pw_comment r)
    (pw_created_at r) (pw_expires_at r) (Some user_id).

(** [UPDATE pairings SET linked_user_id = ? WHERE id = ? AND linked_user_id IS
    NULL AND expires_at > ?], with the number of rows. *)
Definition claim_pairing (id user_id : Z) (now_text : string) : Tx Z :=
  found ← query (fun d => pairings d !! id);
  match found with
  | Some r =>
      if bool_decide (pw_linked_user_id r = None) && text_lt now_text (pw_expires_at r) then
        _ ← (_ ← require (fun d => ref_ok (users d) (Some user_id)) (SqlFailure ForeignKey);
             modify (set_pairings <[id := with_linked user_id r]>));
        mret 1
      else mret 0
  | None => mret 0
  end.

(** [Store::link_pairing]. *)
Definition link_pairing (id user_id now now' : Z) : Tx Z :=
  with_tx (
    now_text ← lift_res (format_time now);
    claimed ← claim_pairing id user_id now_text;
    if claimed =? 0 then fail NotFound
    else
      found ← query (fun d => pairings d !! id);
      match found with
      | None => fail (SqlFailure QueryReturnedNoRows)
      | Some r => insert_ssh_key user_id (pw_public_key r) (pw_fingerprint r) (pw_comment r) now'
      end).
End Accounts.

(** ** Lemmas *)

(** A stored [/24] is named by the base of its block. *)
Lemma masked_address_24 a : is_u32 a -> masked_address a 24 = a / 256 * 256.
Proof. intros Ha. unfold masked_address. rewrite mask_of_land by (done || lia). done. Qed.

Lemma plan_of_range p pl : wf_prefix p -> Plan_from_prefix p = Ok pl ->
  wf_plan pl /\ bits p <= 24 /\ addr (plan_prefix pl) = masked_address (addr p) (bits p) /\
  plan_subnets pl = u32_shl 1 (24 - bits p).
Proof.
  intros Hp Hpl. pose proof (Plan_from_prefix_Ok p pl Hp Hpl) as [Hwf Hb].
  unfold Plan_from_prefix in Hpl. destruct (Z.ltb_spec 24 (bits p)); [done|].
  injection Hpl as <-. destruct Hp as [Ha Hbits]. split_and!; [done|done| |].
  - unfold masked, masked_address. cbn [addr plan_prefix]. by rewrite prefix_mask_eq.
  - unfold plan_subnets. cbn [plan_prefix masked bits]. rewrite Z.shiftl_mul_pow2, Z.mul_1_l by lia.
    rewrite u32_shl_small; [lia|lia|]. rewrite Z.mul_1_l.
    assert (2 ^ (24 - bits p) <= 2 ^ 24) by (apply Z.pow_le_mono_r; lia).
    assert (0 < 2 ^ (24 - bits p)) by (apply Z.pow_pos_nonneg; lia). int_lia.
Qed.

(** The address of an index, and what it means that it is in use. *)
Lemma index_address pl index : wf_plan pl -> 0 <= index < plan_subnets pl ->
  u32_add (addr (plan_prefix pl)) (u32_shl index 8) = addr (plan_prefix pl) + index * 256.
Proof.
  intros Hpl Hi. pose proof (plan_top pl Hpl) as [_ Htop]. destruct Hpl as (Ha & _ & _).
  rewrite u32_shl_small by (change (2 ^ 8) with 256; int_lia). change (2 ^ 8) with 256.
  rewrite u32_add_small by int_lia. done.
Qed.

Lemma index_in_use pl used index : wf_plan pl -> Forall wf_subnet used ->
  0 <= index < plan_subnets pl ->
  addr (plan_prefix pl) + index * 256 ∈ ((fun p => masked_address (addr p) (bits p)) <$> used) <->
  index ∈ taken_indexes pl used.
Proof.
  intros Hpl Hused Hi. rewrite elem_of_taken, list_elem_of_fmap.
  assert (Hbase : addr (plan_prefix pl) mod 256 = 0).
  { destruct Hpl as (_ & Hb & Hm). assert (Hs : span (bits (plan_prefix pl)) mod 256 = 0).
    { unfold span. replace (32 - bits (plan_prefix pl)) with ((24 - bits (plan_prefix pl)) + 8) by lia.
      rewrite Z.pow_add_r by lia. change (2 ^ 8) with 256. by rewrite Z_mod_mult. }
    pose proof (span_pos (bits (plan_prefix pl))).
    apply Z.mod_divide in Hm; [|lia]. apply Z.mod_divide in Hs; [|lia].
    apply Z.mod_divide; [lia|]. by etrans. }
  rewrite Forall_forall in Hused.
  split; intros (p & Hp & Hx).
  - destruct (Hused p Hx) as [Ha Hb]. exists p. split; [done|]. rewrite Hb, masked_address_24 in Hp by done.
    apply plan_index_Ok; [done..|]. split_and!; [done|lia|lia|].
    Z.to_euclidean_division_equations; lia.
  - destruct (Hused p Hp) as [Ha Hb]. exists p. split; [|done]. rewrite Hb, masked_address_24 by done.
    apply plan_index_Ok in Hx as (_ & _ & Hx); [|done..]. rewrite Hx.
    Z.to_euclidean_division_equations; lia.
Qed.

(** The subnet [next_free_subnet] picks, by its index in the range. *)
Lemma next_free_subnet_index range_ pl used : wf_prefix range_ -> Plan_from_prefix range_ = Ok pl ->
  Forall wf_subnet used ->
  next_free_subnet range_ ((fun p => masked_address (addr p) (bits p)) <$> used) =
  match find_first (fun i => negb (bool_decide (i ∈ taken_indexes pl used)))
          (range 0 (plan_subnets pl)) with
  | Some i => Ok (prefix_to_string (mkPrefix (addr (plan_prefix pl) + i * 256) 24))
  | None => Err NoFreeSubnet
  end.
Proof.
  intros Hr Hpl Hused. destruct (plan_of_range _ _ Hr Hpl) as (Hwf & Hb & Hbase & Hcount).
  unfold next_free_subnet. destruct (Z.ltb_spec 24 (bits range_)); [lia|].
  rewrite <-Hbase, <-Hcount.
  rewrite (find_first_ext _ (fun i => negb (bool_decide (i ∈ taken_indexes pl used)))).
  - destruct (find_first _ _) as [i|] eqn:Hf; [|done].
    apply find_first_elem in Hf as [Hi%elem_of_range _]. by rewrite index_address.
  - intros i Hi%elem_of_range. rewrite index_address by done. f_equal. apply bool_decide_ext.
    by apply index_in_use.
Qed.

Section KeepsWf.
Context `{TimeFormat}.

Lemma insert_user_keeps_wf row : keeps_wf (insert_user row).
Proof.
  unfold insert_user. apply keeps_wf_bind; [wf_steps|]. intros id.
  apply keeps_wf_bind; [|wf_steps]. apply keeps_wf_guarded. intros d Hd Hc.
  rewrite !andb_true_iff in Hc. destruct Hc as [[Hn Ho] Hs]. revert Hd. wf_table;
    try (by apply unique_col_insert); (eapply fk_ok_parent; [intros p; apply is_Some_insert|done]).
Qed.

#[local] Hint Resolve insert_user_keeps_wf : bento_wf.

Lemma available_name_reads preferred : reads_only (available_name preferred).
Proof. intros d. unfold available_name. by case_match. Qed.

Lemma register_keeps_wf name email oidc range_ dedupe now :
  keeps_wf (register name email oidc range_ dedupe now).
Proof.
  unfold register. apply keeps_wf_tx, keeps_wf_bind.
  - destruct dedupe; [apply keeps_wf_reads_only, available_name_reads|wf_steps].
  - intros nm. wf_steps.
Qed.

Lemma insert_ssh_key_keeps_wf user key fingerprint comment now :
  keeps_wf (insert_ssh_key user key fingerprint comment now).
Proof.
  intros d Hd. unfold insert_ssh_key, lift_res, query, require, modify, mbind, ST_bind, mret, ST_ret.
  destruct (format_time now) as [at_|e]; [|done]. destruct (col_free _ _ _ _) eqn:Hf; [|done].
  destruct (ref_ok _ _) eqn:Hu; [|done]. cbn. revert Hd. wf_table;
    [by apply fk_ok_insert|by apply unique_col_insert].
Qed.

Lemma delete_ssh_key_keeps_wf user id : keeps_wf (delete_ssh_key user id).
Proof.
  unfold delete_ssh_key. apply keeps_wf_bind; [wf_steps|]. intros [k|]; [case_match|]; [|wf_steps..].
  intros d. cbn. wf_table; [|by apply unique_col_delete].
  eapply fk_ok_subseteq; [apply delete_subseteq|done].
Qed.

Lemma create_token_keeps_wf user hash expires : keeps_wf (create_token user hash expires).
Proof.
  intros d Hd. unfold create_token, lift_res, query, require, modify, mbind, ST_bind, mret, ST_ret.
  destruct (opt_res format_time expires) as [at_|e]; [|done].
  destruct (col_free _ _ _ _) eqn:Hf; [|done]. destruct (ref_ok _ _) eqn:Hu; [|done].
  cbn. revert Hd. wf_table; [by apply fk_ok_insert|by apply unique_col_insert].
Qed.

Lemma delete_tokens_wf id d : wf_db d -> wf_db (set_tokens (delete id) d).
Proof.
  wf_table; [|by apply unique_col_delete]. eapply fk_ok_subseteq; [apply delete_subseteq|done].
Qed.

Lemma delete_token_keeps_wf user id : keeps_wf (delete_token user id).
Proof.
  unfold delete_token. apply keeps_wf_bind; [wf_steps|]. intros [k|]; [case_match|]; [|wf_steps..].
  intros d. apply delete_tokens_wf.
Qed.

Lemma delete_token_by_id_keeps_wf id : keeps_wf (delete_token_by_id id).
Proof.
  unfold delete_token_by_id. apply keeps_wf_bind; [wf_steps|]. intros [k|]; [|wf_steps].
  intros d. apply delete_tokens_wf.
Qed.

Lemma create_pairing_keeps_wf hash key fingerprint comment expires now :
  keeps_wf (create_pairing hash key fingerprint comment expires now).
Proof.
  unfold create_pairing. apply keeps_wf_tx, keeps_wf_bind; [wf_steps|]. intros created_text.
  apply keeps_wf_bind.
  - intros d. cbn. wf_table;
      [eapply unique_col_subseteq|eapply fk_ok_subseteq]; by try apply map_filter_subseteq.
  - intros _. do 2 (apply keeps_wf_bind; [wf_steps|]; intros ?).
    apply keeps_wf_bind; [|wf_steps]. apply keeps_wf_guarded. intros d Hd Hf. revert Hd.
    wf_table; [by apply unique_col_insert|by apply fk_ok_insert].
Qed.

Lemma claim_pairing_keeps_wf id user now_text : keeps_wf (claim_pairing id user now_text).
Proof.
  intros d Hd. unfold claim_pairing, query, require, modify, mbind, ST_bind, mret, ST_ret.
  destruct (pairings d !! id) as [r|] eqn:Hl; [|done]. case_match; [|done].
  destruct (ref_ok _ _) eqn:Hu; [|done]. cbn.
  assert (Hfree : col_free (pairings d) (fun p => Some (pw_token_hash p)) id (Some (pw_token_hash r)) = true).
  { apply not_false_iff_true. rewrite col_free_false. intros (k & v & Hk & Hne & Hc). apply Hne.
    eapply (wf_pairing_hash d Hd); [exact Hk|exact Hl|exact Hc|reflexivity]. }
  revert Hd. wf_table; [by apply unique_col_insert|by apply fk_ok_insert].
Qed.

Lemma link_pairing_keeps_wf id user now now' : keeps_wf (link_pairing id user now now').
Proof.
  unfold link_pairing. apply keeps_wf_tx, keeps_wf_bind; [wf_steps|]. intros now_text.
  apply keeps_wf_bind; [apply claim_pairing_keeps_wf|]. intros n. case_match; [wf_steps|].
  apply keeps_wf_bind; [wf_steps|]. intros [r|]; [apply insert_ssh_key_keeps_wf|wf_steps].
Qed.
End KeepsWf.

(** ** Properties *)

(** The two allocators agree: for the same range and the same [/24]s in
    use, the store's [next_free_subnet] and the network plan's [allocate] pick
    the same subnet, or both report that none is left. *)
Theorem subnet_allocators_agree {S} `{SubnetStore S} (range_ : Ipv4Prefix) (pl : Plan) (store : S)
    (used : list Ipv4Prefix) :
  wf_prefix range_ -> Plan_from_prefix range_ = Ok pl ->
  used_subnets store = Ok used -> Forall wf_subnet used ->
  next_free_subnet range_ ((fun p => masked_address (addr p) (bits p)) <$> used) =
  match allocate pl store with
  | Ok p => Ok (prefix_to_string p)
  | Err _ => Err NoFreeSubnet
  end.
Proof.
  intros Hr Hpl Hus Hused. rewrite (next_free_subnet_index _ pl) by done.
  unfold allocate. rewrite Hus. cbn [map_err mbind result_bind].
  destruct (find_first _ _) as [i|] eqn:Hf; [|done].
  apply find_first_elem in Hf as [Hi%elem_of_range _].
  destruct (plan_of_range _ _ Hr Hpl) as (Hwf & _).
  by rewrite (proj2 (plan_subnet_Ok pl i _ Hwf) (conj Hi eq_refl)).
Qed.

Lemma subnet_allocators_agree_witness :
  let store : list Ipv4Prefix := [mkPrefix 174325760 24; mkPrefix 174326272 24] in
  exists pl, Plan_from_prefix (mkPrefix 174325760 16) = Ok pl /\
  next_free_subnet (mkPrefix 174325760 16)
    ((fun p => masked_address (addr p) (bits p)) <$> store) = Ok "10.100.1.0/24".
Proof.
  intros store. eexists. split; [reflexivity|].
  etransitivity; [apply (subnet_allocators_agree (S := list Ipv4Prefix) (H := fun l => Ok l)
    (mkPrefix 174325760 16) (mkPlan (mkPrefix 174325760 16)) store store)|].
  - split; cbn; int_lia.
  - reflexivity.
  - reflexivity.
  - repeat constructor; cbn; int_lia.
  - vm_compute. reflexivity.
Defined.

Section Properties.
Context `{TimeFormat}.

(** Where the new subnet lies. *)
Lemma allocated_subnet range_ pl used i :
  wf_prefix range_ -> Plan_from_prefix range_ = Ok pl -> Forall wf_subnet used ->
  0 <= i < plan_subnets pl -> i ∉ taken_indexes pl used ->
  let q := mkPrefix (addr (plan_prefix pl) + i * 256) 24 in
  wf_subnet q /\ contains range_ (addr q) = true /\
  forall p a, p ∈ used -> is_u32 a -> contains q a = true -> contains p a = false.
Proof.
  intros Hr Hpl Hused Hi Hfree q. destruct (plan_of_range _ _ Hr Hpl) as (Hwf & Hb & Hbase & _).
  pose proof (plan_top pl Hwf) as [_ Htop]. pose proof (plan_span pl Hwf) as Hspan.
  assert (Hbits : bits (plan_prefix pl) = bits range_)
    by (by apply Plan_from_prefix_Ok in Hpl as [_ ?]).
  pose proof Hwf as (Ha & _ & Hmod). rewrite Hbits in Hspan, Hmod.
  assert (Hq : wf_subnet q) by (split; cbn; [int_lia|done]). split_and!; [done| |].
  - apply contains_spec; [done|apply Hq|]. unfold q. cbn [addr]. rewrite Hbase. destruct Hr as [Hra Hrb].
    unfold masked_address. rewrite mask_of_land by (done || lia).
    pose proof (span_pos (bits range_)). rewrite Z.div_add_l by lia.
    rewrite (Z.div_small (i * 256)) by lia. lia.
  - intros p a Hp Hua Hca. destruct (contains p a) eqn:Hcp; [|done]. exfalso. apply Hfree.
    rewrite Forall_forall in Hused. pose proof (Hused p Hp) as [Hpa Hpb].
    apply elem_of_taken. exists p. split; [done|]. apply plan_index_Ok; [done..|].
    apply contains_spec in Hca; [|by split; [apply Hq|]; rewrite (proj2 Hq); lia|done].
    apply contains_spec in Hcp; [|by split; [|rewrite Hpb; lia]|done].
    rewrite Hpb in Hcp. rewrite (proj2 Hq) in Hca. change (span 24) with 256 in *.
    unfold q in Hca. cbn [addr] in Hca. split_and!; [done|lia|lia|].
    rewrite Z.div_add in Hca by lia. lia.
Qed.

(** The subnets the accounts hold, as [register] reads them. *)
Lemma stored_subnets d v :
  (forall id r, users d !! id = Some r -> exists p, parse_prefix (ur_subnet r) = Some p /\ wf_subnet p) ->
  mapM used_address (snd <$> map_to_list (users d)) = Ok v ->
  exists used, v = (fun p => masked_address (addr p) (bits p)) <$> used /\ Forall wf_subnet used /\
    forall id r p, users d !! id = Some r -> parse_prefix (ur_subnet r) = Some p -> p ∈ used.
Proof.
  intros Hsub Hv.
  assert (Hall : forall r, r ∈ snd <$> map_to_list (users d) ->
    exists p, parse_prefix (ur_subnet r) = Some p /\ wf_subnet p).
  { intros r ([id r'] & -> & Hin%elem_of_map_to_list)%list_elem_of_fmap. by eapply Hsub. }
  assert (Hin : forall id r, users d !! id = Some r -> r ∈ snd <$> map_to_list (users d)).
  { intros id r Hl. apply list_elem_of_fmap. exists (id, r). by rewrite elem_of_map_to_list. }
  revert v Hv Hall Hin. generalize (snd <$> map_to_list (users d)) as l.
  intros l v Hv Hall Hin. apply mapM_Ok in Hv.
  assert (exists used, v = (fun p => masked_address (addr p) (bits p)) <$> used /\
    Forall wf_subnet used /\ Forall2 (fun r p => parse_prefix (ur_subnet r) = Some p) l used)
    as (used & -> & Hwf & Hl).
  { clear Hin. induction Hv as [|r a l v Hra _ IH]; [by exists []|].
    destruct IH as (used & -> & ? & ?); [intros; apply Hall; set_solver|].
    destruct (Hall r) as (p & Hp & Hpw); [set_solver|]. exists (p :: used).
    unfold used_address in Hra. rewrite Hp in Hra. injection Hra as <-. split_and!; by try constructor. }
  exists used. split_and!; [done..|]. intros id r p Hid Hp. apply Hin in Hid.
  apply list_elem_of_lookup in Hid as [j Hj]. destruct (Forall2_lookup_l _ _ _ _ _ Hl Hj) as (p' & Hj' & Hp').
  assert (p' = p) as -> by congruence. by eapply list_elem_of_lookup_2.
Qed.

(** Finding an account by a column that singles it out. *)
Lemma user_where_row p d id r u :
  users d !! id = Some r -> p id r = true ->
  (forall id' r', users d !! id' = Some r' -> p id' r' = true -> id' = id) ->
  scan_user id r = Ok u -> user_where p d = (Ok u, d).
Proof.
  intros Hl Hp Hu Hs. unfold user_where, query, lift_res, mbind, ST_bind.
  by rewrite (find_row_unique _ _ _ _ Hl Hp Hu), Hs.
Qed.

Lemma insert_user_Ok row d id d' : insert_user row d = (Ok id, d') ->
  users d !! id = None /\
  (forall id' r', users d' !! id' = Some r' -> ur_name r' = ur_name row -> id' = id) /\
  users d' !! id = Some row.
Proof.
  intros Hr. unfold insert_user in Hr. tx_inv.
  rewrite !andb_true_iff in Hs1. destruct Hs1 as [[Hn _] _].
  split_and!; [apply next_rowid_fresh| |cbn; by rewrite lookup_insert_eq].
  intros id' r' Hl He. destruct (decide (id' = next_rowid (users d))) as [|Hne]; [done|].
  cbn in Hl. rewrite lookup_insert_ne in Hl by done. exfalso. apply not_false_iff_true in Hn.
  apply Hn, col_free_false. exists id', r'. by rewrite He.
Qed.

(**  A registered user gets a [/24] of their own: inside the private
    range, sharing no address with any other user's, and the account is
    found again, as it was returned, by its id and by its name. *)
Theorem register_own_subnet (name email : string) (oidc : option string) (range_ : Ipv4Prefix)
    (dedupe : bool) (now : Z) (d d' : Db) (u : User) :
  wf_prefix range_ ->
  (forall id r, users d !! id = Some r -> exists p, parse_prefix (ur_subnet r) = Some p /\ wf_subnet p) ->
  register name email oidc range_ dedupe now d = (Ok u, d') ->
  (exists q, parse_prefix (u_subnet u) = Some q /\ wf_subnet q /\ contains range_ (addr q) = true /\
     forall id r p a, users d !! id = Some r -> parse_prefix (ur_subnet r) = Some p ->
       is_u32 a -> contains q a = true -> contains p a = false) /\
  user_by_id (u_id u) d' = (Ok u, d') /\ user_by_name (u_name u) d' = (Ok u, d') /\
  users d !! u_id u = None.
Proof.
  intros Hr Hsub Hrun. unfold register in Hrun. tx_inv.
  match type of Hs with _ = (Ok ?n, ?d1) => assert (d1 = d) as ->;
    [destruct dedupe; [by eapply reads_only_run in Hs; [|apply available_name_reads]|by tx_inv]|] end.
  rename v2 into subnet, v3 into created_text.
  pose proof (stored_subnets d v1 Hsub Hs1) as Hused.
  destruct Hused as (used & -> & Hwf & Hin).
  destruct (Plan_from_prefix range_) as [pl|] eqn:Hpl.
  2:{ unfold Plan_from_prefix in Hpl. unfold next_free_subnet in Hs2. by destruct (24 <? bits range_). }
  rewrite (next_free_subnet_index _ pl) in Hs2 by done.
  destruct (find_first _ _) as [i|] eqn:Hf; [|done]. injection Hs2 as <-.
  apply find_first_elem in Hf as [Hi%elem_of_range Hfree%negb_true_iff].
  apply bool_decide_eq_false in Hfree.
  destruct (allocated_subnet _ _ _ _ Hr Hpl Hwf Hi Hfree) as (Hq & Hc & Hdis).
  apply insert_user_Ok in Hs4 as (Hfresh & Hname & Hl). tx_inv. cbn [u_subnet u_id u_name].
  assert (Hscan : scan_user v4 (mkUserRow v email oidc
      (prefix_to_string (mkPrefix (addr (plan_prefix pl) + i * 256) 24)) created_text) =
    Ok (mkUser v4 v email oidc (prefix_to_string (mkPrefix (addr (plan_prefix pl) + i * 256) 24)) now))
    by (unfold scan_user; cbn; by rewrite (parse_format_time _ _ Hs3)).
  split_and!; [|eapply user_where_row; [exact Hl| |intros k' r' Hk' Hk|exact Hscan]..|done].
  - eexists. split; [apply parse_prefix_to_string, wf_subnet_prefix; exact Hq|]. split_and!; [done..|].
    intros id r p a Hid Hp. apply Hdis. by eapply Hin.
  - apply Z.eqb_refl.
  - by apply Z.eqb_eq in Hk.
  - by apply bool_decide_eq_true.
  - apply bool_decide_eq_true in Hk. eapply Hname; [eassumption|exact Hk].
Qed.

Lemma insert_ssh_key_Ok user key fingerprint comment now d k d' :
  insert_ssh_key user key fingerprint comment now d = (Ok k, d') ->
  exists at_, format_time now = Ok at_ /\ k = next_rowid (ssh_keys d) /\
    d' = set_ssh_keys <[k := mkKeyRow user key fingerprint comment at_]> d.
Proof. intros Hr. unfold insert_ssh_key in Hr. tx_inv. eauto. Qed.

(** A fingerprint already registered is refused, and nothing changes. *)
Lemma insert_ssh_key_taken user key fingerprint comment now d id r :
  ssh_keys d !! id = Some r -> kr_fingerprint r = fingerprint -> is_ok (format_time now) = true ->
  insert_ssh_key user key fingerprint comment now d = (Err SshKeyTaken, d).
Proof.
  intros Hl Hf [at_ Ht]%is_ok_true.
  unfold insert_ssh_key, lift_res, query, require, mbind, ST_bind. rewrite Ht.
  replace (col_free _ _ _ _) with false; [done|]. symmetry. apply col_free_false. exists id, r.
  split_and!; [done| |by rewrite Hf]. intros ->. by rewrite next_rowid_fresh in Hl.
Qed.

(** A public key names one account.  A key that was added is found by its
    fingerprint, under the account that added it and as it was added; adding
    the same fingerprint again, for any account, reports that it is taken and
    changes nothing. *)
Theorem key_names_one_account (user key_id now : Z) (key fingerprint comment : string) (d d' : Db) :
  wf_db d -> add_ssh_key user key fingerprint comment now d = (Ok key_id, d') ->
  ssh_key_by_fingerprint fingerprint d' =
    (Ok (mkSshKey key_id user key fingerprint comment now), d') /\
  forall user' key' comment' now', is_ok (format_time now') = true ->
    add_ssh_key user' key' fingerprint comment' now' d' = (Err SshKeyTaken, d').
Proof.
  intros Hd Hadd. assert (Hd' : wf_db d').
  { pose proof (insert_ssh_key_keeps_wf user key fingerprint comment now d Hd) as Hk.
    unfold add_ssh_key in Hadd. by rewrite Hadd in Hk. }
  apply insert_ssh_key_Ok in Hadd as (at_ & Ht & -> & ->).
  set (row := mkKeyRow user key fingerprint comment at_).
  set (d' := set_ssh_keys _ d) in *. set (id := next_rowid (ssh_keys d)).
  assert (Hl : ssh_keys d' !! id = Some row) by (cbn; by rewrite lookup_insert_eq). split.
  - unfold ssh_key_by_fingerprint, query, lift_res, mbind, ST_bind.
    rewrite (find_row_unique _ _ id row Hl); [|by apply bool_decide_eq_true|].
    + unfold scan_ssh_key. cbn. by rewrite (parse_format_time _ _ Ht).
    + intros k' v' Hk' Hf%bool_decide_eq_true.
      eapply (wf_key_fingerprint d' Hd'); [exact Hk'|exact Hl|by rewrite Hf|done].
  - intros user' key' comment' now'. by eapply insert_ssh_key_taken.
Qed.

(** A pending link is spent once.  Linking marks the pairing with the
    account and registers exactly the key it carries, for that account; from
    then on no account can link it again.  A key that is already registered
    is refused, and the pairing is left as it was. *)
Theorem link_pairing_once (id user now now' : Z) (d : Db) :
  (forall key_id d', link_pairing id user now now' d = (Ok key_id, d') ->
    exists r at_, pairings d !! id = Some r /\ pw_linked_user_id r = None /\
      format_time now' = Ok at_ /\ ssh_keys d !! key_id = None /\
      d' = set_ssh_keys <[key_id := mkKeyRow user (pw_public_key r) (pw_fingerprint r) (pw_comment r) at_]>
             (set_pairings <[id := with_linked user r]> d) /\
      forall d2 user2 t t', pairings d2 !! id = pairings d' !! id -> is_ok (format_time t) = true ->
        link_pairing id user2 t t' d2 = (Err NotFound, d2)) /\
  (forall r k row, pairings d !! id = Some r -> ssh_keys d !! k = Some row ->
    kr_fingerprint row = pw_fingerprint r -> is_ok (format_time now') = true ->
    exists e, link_pairing id user now now' d = (Err e, d)).
Proof.
  split.
  - intros key_id d' Hrun. unfold link_pairing in Hrun. tx_inv. unfold claim_pairing in Hs0. tx_inv.
    destruct (pairings d !! id) as [r|] eqn:Hl; [|tx_inv; done].
    destruct (bool_decide (pw_linked_user_id r = None)) eqn:Hn; [|cbn in Hs0; tx_inv; done].
    destruct (text_lt v _) eqn:Hlt; cbn [andb] in Hs0; tx_inv. cbn [Z.eqb] in Hrun. tx_inv.
    cbn in Hrun. rewrite lookup_insert_eq in Hrun.
    apply insert_ssh_key_Ok in Hrun as (at_ & Ht & -> & ->). cbn [ssh_keys set_pairings].
    exists r, at_. apply bool_decide_eq_true in Hn.
    split_and!; [done|done|done|apply next_rowid_fresh|done|].
    intros d2 user2 t t' Hp [tt_ Htt]%is_ok_true. cbn in Hp. rewrite lookup_insert_eq in Hp.
    unfold link_pairing, claim_pairing, with_tx, lift_res, query, mbind, ST_bind.
    by rewrite Htt, Hp.
  - intros r k row Hl Hk Hf Ht. destruct (link_pairing id user now now' d) as [[key_id|e] d'] eqn:Hrun.
    2:{ exists e. by apply with_tx_Err in Hrun as ->. }
    exfalso. unfold link_pairing in Hrun. tx_inv. unfold claim_pairing in Hs0. tx_inv.
    rewrite Hl in Hs0. destruct (_ && _); tx_inv. cbn [Z.eqb] in Hrun. tx_inv.
    cbn in Hrun. rewrite lookup_insert_eq in Hrun. cbn in Hrun.
    erewrite insert_ssh_key_taken in Hrun; [done|by cbn; exact Hk|done|done].
Qed.
End Properties.

(** ** Witnesses *)

#[local] Existing Instance decimal_time.

Definition private_range : Ipv4Prefix := mkPrefix 174325760 16.
Definition small_user : User := mkUser 3 "ann-2" "ann@work" None "10.100.2.0/24" 9.
Definition small_db_user : Db := snd (register "ann" "ann@work" None private_range true 9 small_db).

Lemma register_own_subnet_witness :
  register "ann" "ann@work" None private_range true 9 small_db = (Ok small_user, small_db_user) /\
  user_by_name "ann-2" small_db_user = (Ok small_user, small_db_user).
Proof.
  assert (Hr : register "ann" "ann@work" None private_range true 9 small_db =
    (Ok small_user, small_db_user)) by (vm_compute; reflexivity).
  split; [exact Hr|].
  eapply (register_own_subnet "ann" "ann@work" None private_range true 9 small_db small_db_user small_user);
    [split; cbn; int_lia| |exact Hr].
  intros id r Hl. unfold small_db in Hl. cbn [users] in Hl.
  rewrite lookup_insert_Some, lookup_singleton_Some in Hl.
  destruct Hl as [[_ <-]|[_ [_ <-]]]; eexists;
    (split; [vm_compute; reflexivity|split; cbn; int_lia]).
Defined.

Definition small_db_key : Db := snd (add_ssh_key 1 "ssh-ed25519 AAAA" "SHA256:a" "laptop" 9 small_db).

Lemma key_names_one_account_witness :
  add_ssh_key 1 "ssh-ed25519 AAAA" "SHA256:a" "laptop" 9 small_db = (Ok 1, small_db_key) /\
  add_ssh_key 2 "ssh-ed25519 AAAA" "SHA256:a" "stolen" 10 small_db_key = (Err SshKeyTaken, small_db_key).
Proof.
  assert (Hr : add_ssh_key 1 "ssh-ed25519 AAAA" "SHA256:a" "laptop" 9 small_db = (Ok 1, small_db_key))
    by (vm_compute; reflexivity).
  split; [exact Hr|].
  apply (proj2 (key_names_one_account 1 1 9 "ssh-ed25519 AAAA" "SHA256:a" "laptop" small_db small_db_key
    wf_small_db Hr)). reflexivity.
Defined.

Definition small_db_pair : Db :=
  snd (create_pairing "hash" "ssh-ed25519 BBBB" "SHA256:b" "phone" 30 20 small_db).
Definition small_db_link : Db := snd (link_pairing 1 2 25 25 small_db_pair).

Lemma link_pairing_once_witness :
  link_pairing 1 2 25 25 small_db_pair = (Ok 1, small_db_link) /\
  link_pairing 1 1 26 26 small_db_link = (Err NotFound, small_db_link).
Proof.
  assert (Hr : link_pairing 1 2 25 25 small_db_pair = (Ok 1, small_db_link)) by (vm_compute; reflexivity).
  split; [exact Hr|].
  destruct (proj1 (link_pairing_once 1 2 25 25 small_db_pair) 1 small_db_link Hr)
    as (r & at_ & _ & _ & _ & _ & _ & Hagain).
  apply Hagain; reflexivity.
Defined.

(** ** Expiry compared as text

    [link_pairing] compares RFC 3339 texts.  The [time] crate writes no
    fraction for a whole second, and [.] sorts before [Z], so half a second
    after an expiry that fell on a whole second the text comparison still
    holds the pairing for valid. *)

#[local] Program Instance instant_texts : TimeFormat := {|
  rfc3339_format := fun t =>
    if t =? 0 then Ok "2026-01-01T00:00:00Z"
    else if t =? 500000000 then Ok "2026-01-01T00:00:00.5Z" else Err "not written here";
  rfc3339_parse := fun s =>
    if bool_decide (s = "2026-01-01T00:00:00Z") then Ok 0
    else if bool_decide (s = "2026-01-01T00:00:00.5Z") then Ok 500000000 else Err "not read here"
|}.
Next Obligation.
  intros t s. cbn. destruct (Z.eqb_spec t 0) as [->|]; [by intros [= <-]|].
  by destruct (Z.eqb_spec t 500000000) as [->|]; [intros [= <-]|].
Qed.

Definition lapsed_db : Db :=
  set_pairings <[1 := mkPairingRow "hash" "ssh-ed25519 BBBB" "SHA256:b" "phone"
                        "2026-01-01T00:00:00Z" "2026-01-01T00:00:00Z" None]> small_db.

(** An expired pairing can still be linked: the pairing below expired half
    a second ago, and linking it registers its key. *)
Theorem expired_pairing_links :
  (exists p, pairing (H := instant_texts) 1 lapsed_db = (Ok p, lapsed_db) /\ pr_expires_at p < 500000000) /\
  fst (link_pairing (H := instant_texts) 1 2 500000000 500000000 lapsed_db) = Ok 1.
Proof. split; [eexists; split; [vm_compute; reflexivity|reflexivity]|vm_compute; reflexivity]. Qed.
