(* ===== verification/Runners.v ===== *)
(** * Runners: [crates/store/src/{hosts,runners}.rs]

    The machines of a deployment, the slots of every user [/24] and who owns
    them, the controller lease and its epoch, the dispatch generations, and
    what each machine last reported.  Every clock reading of the source is an
    argument. *)

From Stdlib Require Import ZArith Lia Ascii.
From S2P Require Import Prelude Text Types Ipv4 Network Db Instances.
Open Scope Z_scope.

(** ** What a runner reported: [HostSeen], [HostHealth], [Observation] *)

Record HostSeen : Type := mkHostSeen {
  hs_machine_id : option string; hs_accepted_epoch : Z; hs_arch : option string;
  hs_cpu_count : option Z; hs_memory_total_mib : option Z; hs_storage_total_gib : option Z;
  hs_storage_available_gib : option Z; hs_hypervisor_version : option string;
  hs_error : option string
}.

Inductive HostHealth : Type := HealthUnknown | HealthOk | Unreachable | Mismatched.
#[global] Instance HostHealth_eq_dec : EqDecision HostHealth.
Proof. solve_decision. Defined.

Definition HostHealth_as_str (h : HostHealth) : string :=
  match h with
  | HealthUnknown => "unknown" | HealthOk => "ok" | Unreachable => "unreachable"
  | Mismatched => "mismatched"
  end.
(** [HostHealth::placeable]. *)
Definition placeable (h : HostHealth) : bool := match h with HealthOk => true | _ => false end.

Record Observation : Type := mkObservation {
  o_health : HostHealth; o_last_contact_at : option Z; o_accepted_epoch : Z;
  o_arch : option string; o_cpu_count : option Z; o_memory_total_mib : option Z;
  o_storage_total_gib : option Z; o_storage_available_gib : option Z;
  o_hypervisor_version : option string; o_last_error : option string
}.

(** [bare_checksum]: lowercase hex, no prefix. *)
Definition bare_checksum (checksum : string) : string :=
  to_ascii_lowercase
    match strip_prefix "sha256-" checksum with
    | Some rest => rest
    | None => default checksum (strip_prefix "sha256:" checksum)
    end.

(** [slot_of_address]: the slot of an address, from its host octet. *)
Definition slot_of_address (address : string) (shift_ : Z) : option Z :=
  match last (split_on "." address) with
  | Some piece => (fun octet_ => Z.shiftr octet_ shift_) <$> parse_uint u8_max piece
  | None => None
  end.

(** [8 - u32::from(prefix.saturating_sub(24))]. *)
Definition prefix_shift (prefix : Z) : Z := 8 - Z.max (prefix - 24) 0.

(** ** Renumbering: the loop of [renumber_slots] *)

(** The numbers one old slot has under the new prefix. *)
Definition children (old new slot : Z) : list Z :=
  if old <? new then
    let ratio := Z.shiftl 1 (new - old) in (fun k => slot * ratio + k) <$> range 0 ratio
  else [Z.shiftr slot (old - new)].

Definition add_child (new : Z) (row : SlotRow) (next : list (Z * SlotRow)) (slot : Z) :
    result StoreError (list (Z * SlotRow)) :=
  match find_first (fun existing => existing.1 =? slot) next with
  | None => Ok (next ++ [(slot, row)])
  | Some existing =>
      if (sr_owner existing.2 =? sr_owner row) && bool_decide (sr_state existing.2 = sr_state row)
      then Ok next else Err (RunnerPrefixSplitsOwners new slot)
  end.

Definition renumbered (old new : Z) (rows_ : list (Z * SlotRow)) :
    result StoreError (list (Z * SlotRow)) :=
  fold_res (fun next kv => fold_res (add_child new kv.2) next (children old new kv.1)) [] rows_.

Definition with_slot (s : option Z) (r : InstanceRow) : InstanceRow :=
  mkInstanceRow (in_name r) (in_owner_id r) (in_host_id r) (in_image_name r) (in_base_checksum r)
    (in_state r) (in_desired_state r) (in_address r) (in_mac r) (in_vcpu r) (in_memory r)
    (in_disk r) (in_nested r) (in_ksm r) (in_http_port r) (in_visibility r) (in_created_at r)
    (in_last_seen_at r) s.

(** ** Rows of [runner_slots] and [hosts] *)

(** The row [slot] becomes [row]: the checks of the table. *)
Definition put_slot (slot : Z) (row : SlotRow) : Tx unit :=
  _ ← require (fun _ => enum_text SlotState (sr_state row)) (SqlFailure CheckViolation);
  _ ← require (fun d => ref_ok (hosts d) (Some (sr_owner row)) && ref_ok (hosts d) (sr_source row) &&
                        ref_ok (hosts d) (sr_destination row)) (SqlFailure ForeignKey);
  modify (set_slots <[slot := row]>).

(** [INSERT INTO runner_slots]. *)
Definition insert_slot (slot : Z) (row : SlotRow) : Tx unit :=
  _ ← require (fun d => bool_decide (runner_slots d !! slot = None)) (SqlFailure UniqueViolation);
  put_slot slot row.

(** A row as an [INSERT] that names only its slot and owner writes it. *)
Definition new_slot (owner epoch : Z) : SlotRow := mkSlotRow "active" owner epoch None None None.

(** The row [id] of [hosts] becomes [row]: its name and machine ID are unique. *)
Definition put_host (id : Z) (row : HostRow) : Tx unit :=
  _ ← require (fun d => col_free (hosts d) (fun h => Some (hr_name h)) id (Some (hr_name row)) &&
                        col_free (hosts d) hr_machine_id id (hr_machine_id row))
        (SqlFailure UniqueViolation);
  modify (set_hosts <[id := row]>).

(** [DELETE FROM runner_slots]: refused while an instance names a slot. *)
Definition clear_slots : Tx unit :=
  _ ← require (fun d => negb (exists_row (fun _ i => bool_decide (is_Some (in_slot i))) (instances d)))
        (SqlFailure ForeignKey);
  modify (set_slots (fun _ => ∅)).

(** The last loop of [renumber_slots]: an instance moves to the slot that holds
    its address. *)
Definition place_one (new : Z) (kv : string * InstanceRow) : Tx unit :=
  match slot_of_address (in_address kv.2) (prefix_shift new) with
  | Some slot =>
      slot ← lift_res (to_sql_int slot);
      _ ← update_instance_row kv.1 (with_slot (Some slot));
      mret tt
  | None => mret tt
  end.

(** [renumber_slots]. *)
Definition renumber_slots (old new : Z) : Tx unit :=
  stored ← query (fun d => sort_by (fun a b => a.1 <? b.1) (map_to_list (runner_slots d)));
  stored ← lift_res (mapM (fun kv => slot ← from_sql_int kv.1; Ok (slot, kv.2)) stored);
  next ← lift_res (renumbered old new stored);
  _ ← modify (set_instances (fmap (with_slot None)));
  _ ← clear_slots;
  _ ← for_each (fun kv : Z * SlotRow => slot ← lift_res (to_sql_int kv.1); insert_slot slot kv.2) next;
  held ← query (fun d => map_to_list (instances d));
  for_each (place_one new) held.

(** [SELECT MAX(slot)]. *)
Definition max_slot (d : Db) : option Z :=
  match fst <$> map_to_list (runner_slots d) with
  | [] => None
  | k :: ks => Some (foldr Z.max k ks)
  end.

Section Runners.
Context `{TimeFormat}.

(** ** Hosts: [hosts.rs] *)

(** [scan_host]. *)
Definition scan_host (id : Z) (r : HostRow) : result StoreError Host :=
  placement ← parse_enum (hr_placement r);
  created_at ← parse_time (hr_created_at r);
  Ok (mkHost id (hr_machine_id r) (hr_name r) (hr_libvirt_uri r) (hr_endpoint r) (hr_underlay r)
        (hr_enabled r) placement created_at).

(** A [query_row] that must find its host. *)
Definition host_where (p : Z -> HostRow -> bool) : Tx Host :=
  found ← query (fun d => find_row p (hosts d));
  match found with
  | None => fail (SqlFailure QueryReturnedNoRows)
  | Some (id, r) => lift_res (scan_host id r)
  end.

Definition with_label (machine_id : option string) (name libvirt_uri : string) (r : HostRow) : HostRow :=
  mkHostRow machine_id name libvirt_uri (hr_endpoint r) (hr_underlay r) (hr_enabled r)
    (hr_placement r) (hr_created_at r).

(** The version 1 row no machine has claimed, when it is the only row. *)
Definition unclaimed_host (d : Db) : option (Z * HostRow) :=
  if (size (hosts d) =? 1)%nat then find_row (fun _ h => bool_decide (hr_machine_id h = None)) (hosts d)
  else None.

(** [Store::ensure_host]. *)
Definition ensure_host (machine_id name libvirt_uri : string) (now : Z) : Tx Host :=
  with_tx (
    known ← query (fun d => find_row (fun _ h => bool_decide (hr_machine_id h = Some machine_id)) (hosts d));
    _ ← match known with
        | Some (id, r) => put_host id (with_label (hr_machine_id r) name libvirt_uri r)
        | None =>
            unclaimed ← query unclaimed_host;
            match unclaimed with
            | Some (id, r) => put_host id (with_label (Some machine_id) name libvirt_uri r)
            | None =>
                created_at ← lift_res (format_time now);
                id ← query (fun d => next_rowid (hosts d));
                put_host id (mkHostRow (Some machine_id) name libvirt_uri None None true "active" created_at)
            end
        end;
    host ← host_where (fun _ h => bool_decide (hr_machine_id h = Some machine_id));
    slots ← query (fun d => size (runner_slots d));
    _ ← (if (slots =? 0)%nat then insert_slot 0 (new_slot (h_id host) 0) else mret tt);
    mret host).

(** [Store::host]. *)
Definition host (id : Z) : Tx Host :=
  found ← query (fun d => hosts d !! id);
  match found with
  | None => fail NotFound
  | Some r => lift_res (scan_host id r)
  end.

(** [Store::hosts]: [ORDER BY id]. *)
Definition all_hosts : Tx (list Host) :=
  found ← query (fun d => sort_by (fun a b => a.1 <? b.1) (map_to_list (hosts d)));
  lift_res (mapM (fun kv => scan_host kv.1 kv.2) found).

(** [Store::register_runner]. *)
Definition register_runner (name endpoint underlay : string) (now : Z) : Tx Host :=
  with_tx (
    created_at ← lift_res (format_time now);
    known ← query (fun d => find_row (fun _ h => bool_decide (hr_name h = name)) (hosts d));
    _ ← match known with
        | Some (id, r) =>
            put_host id (mkHostRow (hr_machine_id r) (hr_name r) (hr_libvirt_uri r) (Some endpoint)
                           (Some underlay) (hr_enabled r) (hr_placement r) (hr_created_at r))
        | None =>
            id ← query (fun d => next_rowid (hosts d));
            put_host id (mkHostRow None name "" (Some endpoint) (Some underlay) true "active" created_at)
        end;
    host_where (fun _ h => bool_decide (hr_name h = name))).

(** ** The deployment and its slots *)

(** [Store::deployment]. *)
Definition deployment : Tx Deployment := query (fun d => mkDeployment (deployment_prefix d)).

(** [Store::set_runner_prefix]. *)
Definition set_runner_prefix (prefix : Z) : Tx Deployment :=
  if negb ((24 <=? prefix) && (prefix <=? 27)) then fail (RunnerPrefix prefix)
  else with_tx (
    let deployment_ := mkDeployment prefix in
    old ← query deployment_prefix;
    highest ← query max_slot;
    highest ← lift_res (get_opt_u64 highest);
    _ ← match highest with
        | Some h => if slot_count deployment_ <=? h then fail (RunnerPrefixStrandsSlot prefix h)
                    else mret tt
        | None => mret tt
        end;
    _ ← (if old =? prefix then mret tt else renumber_slots old prefix);
    _ ← modify (set_prefix prefix);
    mret deployment_).

(** [scan_slot]. *)
Definition scan_slot (slot : Z) (r : SlotRow) : result StoreError Slot :=
  slot ← from_sql_int slot;
  state ← parse_enum (sr_state r);
  Ok (mkSlot slot state (sr_owner r) (sr_epoch r) (sr_source r) (sr_destination r) (sr_operation r)).

(** [Store::slots]: [ORDER BY slot]. *)
Definition slots : Tx (list Slot) :=
  found ← query (fun d => sort_by (fun a b => a.1 <? b.1) (map_to_list (runner_slots d)));
  lift_res (mapM (fun kv => scan_slot kv.1 kv.2) found).

(** The instances of other hosts whose address lies in the slot. *)
Definition occupies (shift_ slot host_id : Z) (i : InstanceRow) : bool :=
  bool_decide (is_Some (in_slot i)) && negb (in_host_id i =? host_id) &&
  bool_decide (slot_of_address (in_address i) shift_ = Some slot).

(** [Store::claim_slot]. *)
Definition claim_slot (slot host_id : Z) : Tx Slot :=
  with_tx (
    prefix ← query deployment_prefix;
    let count_ := slot_count (mkDeployment prefix) in
    if count_ <=? slot then fail (NoSuchSlot slot count_)
    else
      occupied ← query (fun d => length (rows (fun _ i => occupies (prefix_shift prefix) slot host_id i)
                                           (instances d)));
      if (0 <? Z.of_nat occupied) then fail (SlotInUse slot (Z.of_nat occupied))
      else
        key ← lift_res (to_sql_int slot);
        known ← query (fun d => runner_slots d !! key);
        _ ← match known with
            | None => insert_slot key (new_slot host_id 0)
            | Some r =>
                if sr_owner r =? host_id then mret tt
                else if i64_max <? sr_epoch r + 1 then fail (SqlFailure IntegerOverflow)
                else put_slot key (new_slot host_id (sr_epoch r + 1))
            end;
        found ← query (fun d => runner_slots d !! key);
        match found with
        | None => fail (SqlFailure QueryReturnedNoRows)
        | Some r => lift_res (scan_slot key r)
        end).

(** ** The controller lease *)

(** [Store::acquire_lease]. *)
Definition acquire_lease (holder_id : string) (ttl now : Z) : Tx Lease :=
  with_tx (
    held ← query controller_lease;
    _ ← match lr_holder_id held, lr_expires_at held with
        | Some holder, Some expires =>
            expires_at ← lift_res (parse_time expires);
            if negb (bool_decide (holder = holder_id)) && (now <? expires_at)
            then fail (LeaseHeld holder expires_at) else mret tt
        | _, _ => mret tt
        end;
    let expires_at := now + ttl in
    text ← lift_res (format_time expires_at);
    let epoch := lr_epoch held + 1 in
    if i64_max <? epoch then fail (SqlFailure IntegerOverflow)
    else
      _ ← modify (set_lease (mkLeaseRow (Some holder_id) epoch (Some text)));
      mret (mkLease holder_id epoch expires_at)).

(** [Store::lease]. *)
Definition lease : Tx (option Lease) :=
  row ← query controller_lease;
  match lr_holder_id row, lr_expires_at row with
  | Some holder_id, Some expires_at =>
      expires_at ← lift_res (parse_time expires_at);
      mret (Some (mkLease holder_id (lr_epoch row) expires_at))
  | _, _ => mret None
  end.

(** The rows [renew_lease] changes: the text comparison of its [UPDATE]. *)
Definition renewable (row : LeaseRow) (holder_id now_text : string) : bool :=
  bool_decide (lr_holder_id row = Some holder_id) &&
  match lr_expires_at row with Some expires => text_lt now_text expires | None => false end.

(** [Store::renew_lease]. *)
Definition renew_lease (holder_id : string) (ttl now : Z) : Tx Lease :=
  with_tx (
    let expires_at := now + ttl in
    text ← lift_res (format_time expires_at);
    now_text ← lift_res (format_time now);
    row ← query controller_lease;
    if renewable row holder_id now_text then
      _ ← modify (set_lease (mkLeaseRow (lr_holder_id row) (lr_epoch row) (Some text)));
      mret (mkLease holder_id (lr_epoch row) expires_at)
    else fail LeaseLost).

(** [Store::release_lease]. *)
Definition release_lease (holder_id : string) : Tx unit :=
  with_tx (modify (fun d =>
    if bool_decide (lr_holder_id (controller_lease d) = Some holder_id)
    then set_lease (mkLeaseRow None (lr_epoch (controller_lease d)) None) d else d)).

(** [Store::next_dispatch_generation]: a number above every one given for the
    object before, and above the floor of the epoch.  A sum that leaves the
    64-bit range becomes a real in SQLite and fails to be read back. *)
Definition next_dispatch_generation (object_id : string) (epoch : Z) : Tx Z :=
  let floor := i64_saturating_mul epoch 1000000 in
  with_tx (
    known ← query (fun d => dispatch_generations d !! object_id);
    let excluded := i64_wrap (floor + 1) in
    let generation := match known with Some g => Z.max (g + 1) excluded | None => excluded end in
    if i64_max <? generation then fail (SqlFailure IntegerOverflow)
    else
      _ ← modify (set_generations <[object_id := generation]>);
      mret generation).

(** ** Observations *)

(** [COALESCE(excluded.x, x)]. *)
Definition coalesce {A} (new old : option A) : option A :=
  match new with Some _ => new | None => old end.

Definition merge_observation (old new : ObservationRow) : ObservationRow :=
  mkObservationRow (ob_health new) (coalesce (ob_last_contact_at new) (ob_last_contact_at old))
    (ob_accepted_epoch new) (coalesce (ob_arch new) (ob_arch old))
    (coalesce (ob_cpu_count new) (ob_cpu_count old))
    (coalesce (ob_memory_total_mib new) (ob_memory_total_mib old))
    (coalesce (ob_storage_total_gib new) (ob_storage_total_gib old))
    (coalesce (ob_storage_available_gib new) (ob_storage_available_gib old))
    (coalesce (ob_hypervisor_version new) (ob_hypervisor_version old)) (ob_last_error new).

Definition with_machine (machine_id : string) (r : HostRow) : HostRow :=
  with_label (Some machine_id) (hr_name r) (hr_libvirt_uri r) r.

(** What an answer says of the host. *)
Definition judge_host (known reported : option string) : HostHealth :=
  match known, reported with
  | _, None => Unreachable
  | None, Some _ => HealthOk
  | Some stored, Some reported => if bool_decide (stored = reported) then HealthOk else Mismatched
  end.

(** [Store::observe_host]. *)
Definition observe_host (host_id : Z) (seen : HostSeen) (now : Z) : Tx HostHealth :=
  with_tx (
    found ← query (fun d => hosts d !! host_id);
    match found with
    | None => fail (SqlFailure QueryReturnedNoRows)
    | Some row =>
        let health := judge_host (hr_machine_id row) (hs_machine_id seen) in
        _ ← match hr_machine_id row, hs_machine_id seen with
            | None, Some reported => put_host host_id (with_machine reported row)
            | _, _ => mret tt
            end;
        contact ← (if placeable health then text ← lift_res (format_time now); mret (Some text)
                   else mret None);
        cpu ← lift_res (opt_res to_sql_int (hs_cpu_count seen));
        memory ← lift_res (opt_res to_sql_int (hs_memory_total_mib seen));
        storage ← lift_res (opt_res to_sql_int (hs_storage_total_gib seen));
        available ← lift_res (opt_res to_sql_int (hs_storage_available_gib seen));
        let new := mkObservationRow (HostHealth_as_str health) contact (hs_accepted_epoch seen)
                     (hs_arch seen) cpu memory storage available (hs_hypervisor_version seen)
                     (hs_error seen) in
        known ← query (fun d => host_observations d !! host_id);
        _ ← (_ ← require (fun d => ref_ok (hosts d) (Some host_id)) (SqlFailure ForeignKey);
             modify (set_observations
               <[host_id := match known with Some old => merge_observation old new | None => new end]>));
        mret health
    end).

(** [scan_observation]. *)
Definition scan_observation (r : ObservationRow) : result StoreError Observation :=
  let health :=
    if bool_decide (ob_health r = "ok") then HealthOk
    else if bool_decide (ob_health r = "unreachable") then Unreachable
    else if bool_decide (ob_health r = "mismatched") then Mismatched else HealthUnknown in
  contact ← opt_res parse_time (ob_last_contact_at r);
  cpu ← get_opt_u64 (ob_cpu_count r);
  memory ← get_opt_u64 (ob_memory_total_mib r);
  storage ← get_opt_u64 (ob_storage_total_gib r);
  available ← get_opt_u64 (ob_storage_available_gib r);
  Ok (mkObservation health contact (ob_accepted_epoch r) (ob_arch r) cpu memory storage available
        (ob_hypervisor_version r) (ob_last_error r)).

(** [Store::host_observation]. *)
Definition host_observation (host_id : Z) : Tx (option Observation) :=
  found ← query (fun d => host_observations d !! host_id);
  lift_res (opt_res scan_observation found).

(** ** Images each machine holds *)

(** [Store::record_host_image]. *)
Definition record_host_image (host_id : Z) (image_name checksum : string) (now : Z) : Tx unit :=
  with_tx (
    verified_at ← lift_res (format_time now);
    _ ← require (fun d => ref_ok (hosts d) (Some host_id)) (SqlFailure ForeignKey);
    modify (set_host_images <[(host_id, image_name, bare_checksum checksum) := verified_at]>)).

(** The machines that take instances and lack a version. *)
Definition lacks_image (image_name checksum : string) (d : Db) (id : Z) (h : HostRow) : bool :=
  hr_enabled h && bool_decide (hr_placement h = "active") &&
  bool_decide (host_images d !! (id, image_name, checksum) = None).

(** [Store::hosts_missing_image]: [ORDER BY name]. *)
Definition hosts_missing_image (image_name checksum : string) : Tx (list string) :=
  query (fun d => sort_by text_lt ((fun kv => hr_name kv.2) <$>
    rows (lacks_image image_name (bare_checksum checksum) d) (hosts d))).

(** [Store::record_local_image_versions], with the number of new rows. *)
Definition record_local_image_versions (host_id now : Z) : Tx Z :=
  with_tx (
    verified_at ← lift_res (format_time now);
    versions ← query (fun d => map_to_list (image_versions d));
    before ← query (fun d => size (host_images d));
    _ ← for_each (fun kv : string * VersionRow =>
          let key := (host_id, vr_image_name kv.2, kv.1) in
          known ← query (fun d => host_images d !! key);
          match known with
          | Some _ => mret tt
          | None =>
              _ ← require (fun d => ref_ok (hosts d) (Some host_id)) (SqlFailure ForeignKey);
              modify (set_host_images <[key := verified_at]>)
          end) versions;
    after ← query (fun d => size (host_images d));
    mret (Z.of_nat after - Z.of_nat before)).

(** [Store::host_images]: [ORDER BY image_name, verified_at DESC]. *)
Definition held_images (host_id : Z) : Tx (list (string * string)) :=
  query (fun d => (fun kv => (kv.1.1.2, kv.1.2)) <$>
    sort_by (fun a b : (Z * string * string) * string =>
               text_lt a.1.1.2 b.1.1.2 ||
               (bool_decide (a.1.1.2 = b.1.1.2) && text_lt b.2 a.2))
      (rows (fun k _ => k.1.1 =? host_id) (host_images d))).
End Runners.

(** ** The tables stay well-formed *)

Lemma keeps_wf_for_each {A} (f : A -> Tx unit) l : (forall x, keeps_wf (f x)) -> keeps_wf (for_each f l).
Proof. intros Hf. induction l as [|x l IH]; [by intros d|]. apply keeps_wf_bind; auto. Qed.

Lemma put_slot_keeps_wf slot row : keeps_wf (put_slot slot row).
Proof.
  unfold put_slot. apply keeps_wf_bind; [wf_steps|]. intros _. apply keeps_wf_guarded.
  intros d Hd. rewrite !andb_true_iff. intros [[Ho Hs] Ht]. revert Hd.
  wf_table; try (by apply fk_ok_insert).
  eapply fk_ok_parent; [intros p; apply is_Some_insert|done].
Qed.

Lemma put_host_keeps_wf id row : keeps_wf (put_host id row).
Proof.
  unfold put_host. apply keeps_wf_guarded. intros d Hd. rewrite andb_true_iff. intros [Hn Hm]. revert Hd.
  wf_table; try (by apply unique_col_insert);
    (eapply fk_ok_parent; [intros p; apply is_Some_insert|done]).
Qed.
#[export] Hint Resolve put_slot_keeps_wf put_host_keeps_wf : bento_wf.

Lemma insert_slot_keeps_wf slot row : keeps_wf (insert_slot slot row).
Proof. unfold insert_slot. wf_steps. Qed.
#[export] Hint Resolve insert_slot_keeps_wf : bento_wf.

Lemma clear_slots_keeps_wf : keeps_wf clear_slots.
Proof.
  apply keeps_wf_guarded. intros d Hd Hn%negb_true_iff. revert Hd.
  wf_table; try (apply fk_ok_empty). intros u i s Hl Hs. exfalso.
  rewrite exists_row_false in Hn. specialize (Hn u i Hl). rewrite bool_decide_eq_false, Hs in Hn. eauto.
Qed.

Lemma unique_col_fmap {K V T} `{Countable K} (m : gmap K V) (f : V -> V) (col : V -> option T) :
  (forall v, col (f v) = col v) -> unique_col m col -> unique_col (f <$> m) col.
Proof.
  intros Hf Hu k1 k2 v1 v2 x. rewrite !lookup_fmap_Some. intros (w1 & <- & H1) (w2 & <- & H2).
  rewrite !Hf. by apply Hu.
Qed.

Lemma fk_ok_fmap {K V P W} `{Countable K, Countable P} (m : gmap K V) (f : V -> V)
    (col : K -> V -> option P) (parent : gmap P W) :
  (forall k v p, col k (f v) = Some p -> col k v = Some p) ->
  fk_ok m col parent -> fk_ok (f <$> m) col parent.
Proof. intros Hf Hc k v p. rewrite lookup_fmap_Some. intros (w & <- & Hl) Hp. eauto. Qed.

Lemma unlink_wf d : wf_db d -> wf_db (set_instances (fmap (with_slot None)) d).
Proof.
  wf_table; try (by apply unique_col_fmap); try (by apply fk_ok_fmap).
  eapply fk_ok_parent; [|done]. intros p. rewrite lookup_fmap, fmap_is_Some. done.
Qed.

Lemma renumber_slots_keeps_wf old new : keeps_wf (renumber_slots old new).
Proof.
  unfold renumber_slots. do 3 (apply keeps_wf_bind; [wf_steps|]; intros ?).
  apply keeps_wf_bind; [intros d; apply unlink_wf|]. intros _.
  apply keeps_wf_bind; [apply clear_slots_keeps_wf|]. intros _.
  apply keeps_wf_bind; [apply keeps_wf_for_each; intros ?; wf_steps|]. intros _.
  apply keeps_wf_bind; [wf_steps|]. intros held. apply keeps_wf_for_each. intros kv.
  unfold place_one. wf_steps.
Qed.
#[export] Hint Resolve renumber_slots_keeps_wf : bento_wf.

Section KeepsWf.
Context `{TimeFormat}.

Lemma host_where_reads p : reads_only (host_where p).
Proof. unfold host_where. ro_steps. Qed.
Lemma host_where_keeps_wf p : keeps_wf (host_where p).
Proof. apply keeps_wf_reads_only, host_where_reads. Qed.
#[local] Hint Resolve host_where_keeps_wf : bento_wf.

Lemma ensure_host_keeps_wf machine name uri now : keeps_wf (ensure_host machine name uri now).
Proof. unfold ensure_host. wf_steps. Qed.

Lemma register_runner_keeps_wf name endpoint underlay now :
  keeps_wf (register_runner name endpoint underlay now).
Proof. unfold register_runner. wf_steps. Qed.

Lemma set_prefix_keeps_wf p : 24 <= p <= 27 -> keeps_wf (modify (set_prefix p)).
Proof. intros Hp d. cbn. wf_table. Qed.

Lemma set_runner_prefix_keeps_wf p : keeps_wf (set_runner_prefix p).
Proof.
  unfold set_runner_prefix. destruct (_ && _) eqn:Hp; [|apply keeps_wf_fail]. apply andb_true_iff in Hp as [? ?].
  cbn [negb]. pose proof (set_prefix_keeps_wf p ltac:(lia)). wf_steps.
Qed.

Lemma claim_slot_keeps_wf slot host_id : keeps_wf (claim_slot slot host_id).
Proof. unfold claim_slot. wf_steps. Qed.

Lemma set_lease_wf l d : wf_db d -> wf_db (set_lease l d).
Proof. wf_table. Qed.

Lemma acquire_lease_keeps_wf holder ttl now : keeps_wf (acquire_lease holder ttl now).
Proof.
  assert (forall l, keeps_wf (modify (set_lease l))) by (intros l d; apply set_lease_wf).
  unfold acquire_lease. wf_steps.
Qed.

Lemma renew_lease_keeps_wf holder ttl now : keeps_wf (renew_lease holder ttl now).
Proof.
  assert (forall l, keeps_wf (modify (set_lease l))) by (intros l d; apply set_lease_wf).
  unfold renew_lease. wf_steps.
Qed.

Lemma release_lease_keeps_wf holder : keeps_wf (release_lease holder).
Proof. apply keeps_wf_tx. intros d Hd. cbn. case_match; [by apply set_lease_wf|done]. Qed.

Lemma next_dispatch_generation_keeps_wf object epoch : keeps_wf (next_dispatch_generation object epoch).
Proof.
  assert (forall f, keeps_wf (modify (set_generations f))) by (intros f d; cbn; wf_table).
  unfold next_dispatch_generation. wf_steps.
Qed.

Lemma observe_host_keeps_wf id seen now : keeps_wf (observe_host id seen now).
Proof.
  assert (Hm : forall row e, keeps_wf (_ ← require (fun d => ref_ok (hosts d) (Some id)) e;
    modify (set_observations <[id := row]>))).
  { intros row e. apply keeps_wf_guarded. intros d Hd Hr. revert Hd. wf_table. by apply fk_ok_insert. }
  unfold observe_host. wf_steps.
Qed.

Lemma held_image_keeps_wf id key text e :
  key.1.1 = id -> keeps_wf (_ ← require (fun d => ref_ok (hosts d) (Some id)) e;
                      modify (set_host_images <[key := text]>)).
Proof.
  intros <-. apply keeps_wf_guarded. intros d Hd Hr. revert Hd. wf_table. by apply fk_ok_insert.
Qed.

Lemma record_host_image_keeps_wf id image checksum now : keeps_wf (record_host_image id image checksum now).
Proof.
  unfold record_host_image. apply keeps_wf_tx, keeps_wf_bind; [wf_steps|]. intros text.
  by apply held_image_keeps_wf.
Qed.

Lemma record_local_image_versions_keeps_wf id now : keeps_wf (record_local_image_versions id now).
Proof.
  unfold record_local_image_versions. apply keeps_wf_tx.
  do 3 (apply keeps_wf_bind; [wf_steps|]; intros ?). apply keeps_wf_bind; [|intros ?; wf_steps].
  apply keeps_wf_for_each. intros kv. apply keeps_wf_bind; [wf_steps|]. intros [?|]; [wf_steps|].
  by apply held_image_keeps_wf.
Qed.
End KeepsWf.

(** ** Slots and addresses *)

Lemma slot_of_address_text a s : is_u32 a -> slot_of_address (addr_to_string a) s = Some (Z.shiftr (a mod 256) s).
Proof.
  intros Ha. unfold slot_of_address. rewrite addr_to_string_pieces. cbn [last].
  pose proof (octet_bound 0 a). rewrite parse_uint_dec by int_lia. cbn.
  unfold octet. by rewrite Z.mul_0_r, Z.shiftr_0_r, land_255.
Qed.

Lemma prefix_shift_range p : 24 <= p <= 27 -> prefix_shift p = 32 - p.
Proof. unfold prefix_shift. lia. Qed.

Lemma slot_of_address_octet address s k : slot_of_address address s = Some k ->
  exists o, 0 <= o <= 255 /\ k = Z.shiftr o s /\ forall s', slot_of_address address s' = Some (Z.shiftr o s').
Proof.
  unfold slot_of_address. destruct (last _) as [piece|]; [|done].
  destruct (parse_uint u8_max piece) as [o|] eqn:Ho; [|done]. cbn. intros [= <-].
  exists o. apply parse_uint_bound in Ho. split_and!; [int_lia..|done|done].
Qed.

Lemma slot_of_text (s : Slots) (subnet : Ipv4Prefix) (a k : Z) :
  wf_slots s -> wf_subnet subnet -> is_u32 a -> contains subnet a = true ->
  slot_of_address (addr_to_string a) (prefix_shift (slot_bits s)) = Some k <-> slot_of s subnet a = Ok k.
Proof.
  intros Hs Hn Ha Hc. rewrite slot_of_address_text by done. unfold slot_of.
  destruct Hn as [_ Hb]. unfold require_slash_24. rewrite Hb, Hc. cbn.
  unfold host_octet, shift, MIN_SLOT_BITS. rewrite land_255.
  unfold wf_slots, MIN_SLOT_BITS, MAX_SLOT_BITS in Hs. rewrite prefix_shift_range by lia.
  replace (8 - (slot_bits s - 24)) with (32 - slot_bits s) by lia. naive_solver.
Qed.

(** The store and the network plan number slots the same way: the slot that
    [slot_of_address] reads from the text of an address is the slot the
    network's [slot_of] puts the address in, for every prefix length. *)
Theorem slot_numbering_agrees (s : Slots) (subnet : Ipv4Prefix) (a k : Z) :
  wf_slots s -> wf_subnet subnet -> is_u32 a -> contains subnet a = true ->
  slot_of_address (addr_to_string a) (prefix_shift (slot_bits s)) = Some k <-> slot_of s subnet a = Ok k.
Proof. apply slot_of_text. Qed.

Lemma slot_numbering_agrees_witness :
  slot_of_address "10.100.0.130" 6 = Some 2 /\
  slot_of (mkSlots 26) (mkPrefix 174325760 24) 174325890 = Ok 2.
Proof.
  split; [vm_compute; reflexivity|].
  apply (slot_numbering_agrees (mkSlots 26) (mkPrefix 174325760 24) 174325890 2);
    [split; discriminate|split; cbn; int_lia|int_lia|vm_compute; reflexivity|vm_compute; reflexivity].
Defined.

(** ** Renumbering *)

Definition same_slot (a b : SlotRow) : Prop := sr_owner a = sr_owner b /\ sr_state a = sr_state b.

(** The loop, as one pass over the pairs of a child and its row. *)
Lemma fold_res_app {E A B} (f : A -> B -> result E A) a l k :
  fold_res f a (l ++ k) = (b ← fold_res f a l; fold_res f b k).
Proof. revert a. induction l as [|x l IH]; intros a; [done|]. cbn. destruct (f a x); cbn; [apply IH|done]. Qed.

Lemma fold_res_map {E A B C} (f : A -> B -> result E A) (g : C -> B) a l :
  fold_res f a (g <$> l) = fold_res (fun a c => f a (g c)) a l.
Proof. revert a. induction l as [|x l IH]; intros a; [done|]. cbn. destruct (f a (g x)); cbn; [apply IH|done]. Qed.

Definition child_rows (old new : Z) (rows_ : list (Z * SlotRow)) : list (Z * SlotRow) :=
  kv ← rows_; (fun c => (c, kv.2)) <$> children old new kv.1.

Lemma renumbered_flat old new rows_ :
  renumbered old new rows_ =
  fold_res (fun next p => add_child new p.2 next p.1) [] (child_rows old new rows_).
Proof.
  unfold renumbered, child_rows. generalize (@nil (Z * SlotRow)) as acc.
  induction rows_ as [|kv rows_ IH]; intros acc; [done|]. cbn.
  rewrite fold_res_app, fold_res_map. cbn. destruct (fold_res _ acc _); cbn; [apply IH|done].
Qed.

Lemma add_child_Ok new row next slot next' : add_child new row next slot = Ok next' ->
  NoDup (fst <$> next) ->
  NoDup (fst <$> next') /\ (forall x, x ∈ next -> x ∈ next') /\
  (exists r, (slot, r) ∈ next' /\ same_slot r row) /\
  (forall x, x ∈ next' -> x ∈ next \/ x = (slot, row)).
Proof.
  unfold add_child. destruct (find_first _ _) as [[k r]|] eqn:Hf; intros Hr Hnd.
  - apply find_first_elem in Hf as [Hin Hk%Z.eqb_eq]. cbn in Hk. subst k.
    destruct (_ && _) eqn:Hs; [|done]. apply Ok_inj in Hr. subst next'.
    apply andb_true_iff in Hs as [Ho%Z.eqb_eq Hst%bool_decide_eq_true].
    split_and!; [done|done|by exists r|by left].
  - apply Ok_inj in Hr. subst next'. apply find_first_None in Hf. rewrite Forall_forall in Hf.
    split_and!; [|set_solver|exists row; split; [set_solver|done]|set_solver].
    rewrite fmap_app. apply NoDup_app. split_and!; [done| |apply NoDup_singleton].
    intros k (x & -> & Hx)%list_elem_of_fmap. cbn. intros Heq%list_elem_of_singleton.
    specialize (Hf x Hx). lia.
Qed.

Lemma add_children_Ok new l acc next :
  fold_res (fun next (p : Z * SlotRow) => add_child new p.2 next p.1) acc l = Ok next ->
  NoDup (fst <$> acc) ->
  NoDup (fst <$> next) /\ (forall x, x ∈ acc -> x ∈ next) /\
  (forall c row, (c, row) ∈ l -> exists r, (c, r) ∈ next /\ same_slot r row) /\
  (forall x, x ∈ next -> x ∈ acc \/ x ∈ l).
Proof.
  revert acc. induction l as [|[c row] l IH]; intros acc; cbn.
  - intros Hr Hnd. apply Ok_inj in Hr. subst next. split_and!; [done|done|set_solver|by left].
  - intros (acc' & Hadd & Hr)%bind_Ok Hnd.
    destruct (add_child_Ok _ _ _ _ _ Hadd Hnd) as (Hnd' & Hsub & (r & Hin & Hsame) & Hfrom).
    destruct (IH acc' Hr Hnd') as (? & Hsub' & Hrows & Hfrom'). split_and!; [done|auto| |].
    + intros c' row' [[= -> ->]|Hl]%elem_of_cons; [exists r; auto|auto].
    + intros x Hx. destruct (Hfrom' x Hx) as [Ha|Hl]; [|set_solver].
      destruct (Hfrom x Ha) as [Hb|Hb]; [by left|rewrite Hb; set_solver].
Qed.

(** What the renumbered rows are. *)
Lemma renumbered_Ok old new rows_ next : renumbered old new rows_ = Ok next ->
  NoDup (fst <$> next) /\
  (forall k row c, (k, row) ∈ rows_ -> c ∈ children old new k ->
     exists r, (c, r) ∈ next /\ same_slot r row) /\
  (forall c r, (c, r) ∈ next -> exists k, (k, r) ∈ rows_ /\ c ∈ children old new k).
Proof.
  rewrite renumbered_flat. intros Hr.
  destruct (add_children_Ok _ _ _ _ Hr ltac:(constructor)) as (Hnd & _ & Hrows & Hfrom).
  assert (Hel : forall c r, (c, r) ∈ child_rows old new rows_ <->
    exists k, (k, r) ∈ rows_ /\ c ∈ children old new k).
  { intros c r. unfold child_rows. rewrite list_elem_of_bind. split.
    - intros ([k row] & Hin & Hk). apply list_elem_of_fmap in Hin as (c' & [= -> ->] & Hc). eauto.
    - intros (k & Hk & Hc). exists (k, r). split; [|done]. apply list_elem_of_fmap. eauto. }
  split_and!; [done| |].
  - intros k row c Hk Hc. apply Hrows, Hel. eauto.
  - intros c r Hin. apply Hfrom in Hin as [Hin|Hin]; [set_solver|]. by apply Hel.
Qed.

(** An octet's slot under one prefix is a child of its slot under another. *)
Lemma children_octet old new o : 24 <= old <= 27 -> 24 <= new <= 27 -> 0 <= o <= 255 ->
  Z.shiftr o (prefix_shift new) ∈ children old new (Z.shiftr o (prefix_shift old)).
Proof.
  intros Ho Hn Hb. rewrite !prefix_shift_range by lia. unfold children.
  destruct (Z.ltb_spec old new) as [Hlt|Hge].
  - apply list_elem_of_fmap. set (e := new - old).
    exists (Z.shiftr o (32 - new) mod 2 ^ e). rewrite elem_of_range, Z.shiftl_mul_pow2, Z.mul_1_l by lia.
    assert (0 < 2 ^ e) by (apply Z.pow_pos_nonneg; lia).
    split; [|apply Z.mod_pos_bound; lia].
    replace (32 - old) with ((32 - new) + e) by lia. rewrite <-Z.shiftr_shiftr by lia.
    rewrite (Z.shiftr_div_pow2 _ e) by lia. pose proof (Z.div_mod (Z.shiftr o (32 - new)) (2 ^ e)). lia.
  - apply list_elem_of_singleton. rewrite Z.shiftr_shiftr by lia. f_equal. lia.
Qed.

(** And the only one: a child names one old slot when slots are divided. *)
Lemma children_parent old new o k : 24 <= old <= 27 -> 24 <= new <= 27 -> old <= new ->
  Z.shiftr o (prefix_shift new) ∈ children old new k -> k = Z.shiftr o (prefix_shift old).
Proof.
  intros Ho Hn Hle. rewrite !prefix_shift_range by lia. unfold children.
  destruct (Z.ltb_spec old new) as [Hlt|Hge].
  - set (e := new - old). intros (j & Hj & Hr)%list_elem_of_fmap.
    rewrite elem_of_range, Z.shiftl_mul_pow2, Z.mul_1_l in Hr by lia.
    rewrite Z.shiftl_mul_pow2, Z.mul_1_l in Hj by lia.
    replace (32 - old) with ((32 - new) + e) by lia. rewrite <-Z.shiftr_shiftr by lia.
    rewrite Hj, Z.shiftr_div_pow2, Z.div_add_l by lia. rewrite Z.div_small by lia. lia.
  - assert (new = old) as -> by lia. intros Hk%list_elem_of_singleton.
    by rewrite Z.sub_diag, Z.shiftr_0_r in Hk.
Qed.

Lemma insert_slot_Ok slot row d u d' : insert_slot slot row d = (Ok u, d') ->
  runner_slots d !! slot = None /\ d' = set_slots <[slot := row]> d.
Proof.
  intros Hr. unfold insert_slot, put_slot in Hr. tx_inv. by apply bool_decide_eq_true in Hs.
Qed.

(** The rows the loop writes back. *)
Lemma insert_slots_Ok next d u d' :
  for_each (fun kv : Z * SlotRow => slot ← lift_res (to_sql_int kv.1); insert_slot slot kv.2) next d =
    (Ok u, d') -> NoDup (fst <$> next) ->
  d' = set_slots (fun m => list_to_map next ∪ m) d.
Proof.
  revert d. induction next as [|[k r] next IH]; intros d; cbn [for_each].
  - intros Hr _. tx_inv. unfold set_slots.
    replace (list_to_map [] ∪ runner_slots d) with (runner_slots d) by (symmetry; apply map_empty_union).
    by destruct d.
  - intros Hr Hnd. tx_inv. apply to_sql_int_Ok in Hs0 as [_ ->].
    apply insert_slot_Ok in Hs as [_ ->]. apply NoDup_cons in Hnd as [Hk Hnd].
    specialize (IH _ Hr Hnd). subst d'. unfold set_slots. cbn. f_equal.
    rewrite <-insert_union_r; [by rewrite insert_union_l|]. by apply not_elem_of_list_to_map.
Qed.

(** The slot of every instance, from its address. *)
Definition placed (new : Z) (r : InstanceRow) : InstanceRow :=
  with_slot (slot_of_address (in_address r) (prefix_shift new)) r.

Lemma with_slot_same r : in_slot r = None -> with_slot None r = r.
Proof. by destruct r; cbn; intros ->. Qed.

Lemma place_one_Ok new uuid r d u d' :
  place_one new (uuid, r) d = (Ok u, d') -> instances d !! uuid = Some r -> in_slot r = None ->
  slot_owner_ok (placed new r) d = true /\ d' = set_instances <[uuid := placed new r]> d.
Proof.
  unfold place_one, placed. cbn [fst snd]. intros Hr Hl Hn.
  destruct (slot_of_address _ _) as [k|].
  - tx_inv. apply to_sql_int_Ok in Hs as [_ ->].
    unfold update_instance_row in Hs0. tx_inv. rewrite Hl in Hs0. tx_inv.
    by apply put_instance_Ok in Hs as (? & _ & _ & _ & ->).
  - tx_inv. rewrite with_slot_same by done. unfold slot_owner_ok. rewrite Hn. split; [done|].
    unfold set_instances. rewrite insert_id by done. by destruct d.
Qed.

Lemma place_all_Ok new held d u d' :
  for_each (place_one new) held d = (Ok u, d') -> NoDup (fst <$> held) ->
  (forall uuid r, (uuid, r) ∈ held -> instances d !! uuid = Some r /\ in_slot r = None) ->
  exists m, d' = set_instances (fun _ => m) d /\
    (forall uuid r, (uuid, r) ∈ held -> m !! uuid = Some (placed new r) /\ slot_owner_ok (placed new r) d = true) /\
    (forall uuid, uuid ∉ fst <$> held -> m !! uuid = instances d !! uuid).
Proof.
  revert d. induction held as [|[uuid r] held IH]; intros d; cbn [for_each].
  - intros Hr _ _. tx_inv. exists (instances d). split_and!; [by destruct d|set_solver|done].
  - intros Hr Hnd Hin. tx_inv. apply NoDup_cons in Hnd as [Hu Hnd].
    destruct (Hin uuid r) as [Hl Hn]; [set_solver|].
    destruct (place_one_Ok _ _ _ _ _ _ Hs Hl Hn) as [Hok ->].
    edestruct IH as (m & -> & Hm & Hrest); [exact Hr|exact Hnd| |].
    { intros uuid' r' Hin'. destruct (Hin uuid' r') as [Hl' Hn']; [set_solver|]. split; [|done].
      cbn. rewrite lookup_insert_ne; [done|]. intros <-. apply Hu.
      apply list_elem_of_fmap. by exists (uuid, r'). }
    exists m. split_and!; [done| |].
    + intros uuid' r' [He|Hin']%elem_of_cons; [|by apply Hm].
      injection He as -> ->. split; [|done]. rewrite Hrest by done. cbn. by rewrite lookup_insert_eq.
    + intros uuid' Hnot. cbn in Hnot. rewrite Hrest by set_solver. cbn.
      rewrite lookup_insert_ne; [done|set_solver].
Qed.

(** What [renumber_slots] does to the two tables. *)
Lemma renumber_slots_Ok old new d u d' :
  renumber_slots old new d = (Ok u, d') ->
  exists next, renumbered old new (sort_by (fun a b => a.1 <? b.1) (map_to_list (runner_slots d))) = Ok next /\
    NoDup (fst <$> next) /\
    runner_slots d' = list_to_map next /\ deployment_prefix d' = deployment_prefix d /\
    (forall uuid, instances d' !! uuid = placed new <$> instances d !! uuid) /\
    (forall uuid r, instances d' !! uuid = Some r -> slot_owner_ok r d' = true).
Proof.
  intros Hr. unfold renumber_slots in Hr. tx_inv.
  assert (v0 = sort_by (fun a b => a.1 <? b.1) (map_to_list (runner_slots d))) as ->.
  { apply mapM_Ok in Hs0. revert Hs0. generalize (sort_by (fun a b : Z * SlotRow => a.1 <? b.1)
      (map_to_list (runner_slots d))). intros l Hl. clear -Hl. induction Hl as [|[k r] y l v0 Hy _ IH]; [done|].
    apply bind_Ok in Hy as (k' & [_ ->]%from_sql_int_Ok & Hy). apply Ok_inj in Hy. by subst. }
  exists v1. split; [done|]. pose proof (renumbered_Ok _ _ _ _ Hs1) as (Hnd & _ & _). split; [done|].
  unfold clear_slots in Hs3. tx_inv. apply insert_slots_Ok in Hs4; [|done]. subst dd4.
  cbn in Hr. apply place_all_Ok in Hr as (m & -> & Hm & Hrest).
  - cbn. rewrite map_union_empty. split_and!; [done|done| |].
    + intros uuid. destruct (instances d !! uuid) as [r|] eqn:Hl; cbn.
      * destruct (Hm uuid (with_slot None r)) as [-> _]; [|done].
        apply elem_of_map_to_list. cbn. by rewrite lookup_fmap, Hl.
      * rewrite Hrest; cbn; [by rewrite lookup_fmap, Hl|].
        intros ([k x] & -> & Hin%elem_of_map_to_list)%list_elem_of_fmap.
        cbn in Hin, Hl. by rewrite lookup_fmap, Hl in Hin.
    + intros uuid r Hl. destruct (decide (uuid ∈ fst <$> map_to_list (with_slot None <$> instances d)))
        as [([k x] & -> & Hin)%list_elem_of_fmap|Hnot].
      * apply Hm in Hin as [Hx Hok]. cbn in Hl. rewrite Hx in Hl. injection Hl as <-.
        exact Hok.
      * rewrite Hrest in Hl by done. exfalso. apply Hnot, list_elem_of_fmap. exists (uuid, r). split; [done|].
        by apply elem_of_map_to_list.
  - apply NoDup_fst_map_to_list.
  - intros uuid r Hin%elem_of_map_to_list. cbn in Hin. split; [done|].
    apply lookup_fmap_Some in Hin as (x & <- & _). done.
Qed.

(** ** Who owns an address *)

(** The host that owns a host octet of every user [/24]. *)
Definition octet_owner (d : Db) (o : Z) : option Z :=
  sr_owner <$> runner_slots d !! Z.shiftr o (prefix_shift (deployment_prefix d)).

(** Every instance runs on the host that owns its slot. *)
Definition slots_owned (d : Db) : Prop :=
  forall uuid r, instances d !! uuid = Some r -> slot_owner_ok r d = true.

(** Every instance that holds a slot has its address in it. *)
Definition slots_true (d : Db) : Prop :=
  forall uuid r k, instances d !! uuid = Some r -> in_slot r = Some k ->
    slot_of_address (in_address r) (prefix_shift (deployment_prefix d)) = Some k.

Lemma set_runner_prefix_Ok p d dep d' : set_runner_prefix p d = (Ok dep, d') ->
  24 <= p <= 27 /\ dep = mkDeployment p /\ deployment_prefix d' = p /\
  (deployment_prefix d = p /\ d' = d \/
   deployment_prefix d <> p /\ exists d1, renumber_slots (deployment_prefix d) p d = (Ok tt, d1) /\
     d' = set_prefix p d1).
Proof.
  unfold set_runner_prefix. destruct (_ && _) eqn:Hp; cbn [negb]; [|done]. intros Hr.
  apply andb_true_iff in Hp as [? ?]. tx_inv.
  assert (dd2 = d) as -> by (destruct v1 as [h|]; [destruct (_ <=? h)|]; by tx_inv).
  destruct (Z.eqb_spec (deployment_prefix d) p) as [He|Hne]; tx_inv; (split_and!; [lia..|done|done|]).
  - left. split; [done|]. by destruct d.
  - right. eauto.
Qed.

(** The rows of a renumbered table, from the old table. *)
Lemma renumbered_rows old new d next :
  renumbered old new (sort_by (fun a b => a.1 <? b.1) (map_to_list (runner_slots d))) = Ok next ->
  (forall k row c, runner_slots d !! k = Some row -> c ∈ children old new k ->
     exists r, (list_to_map next : gmap Z SlotRow) !! c = Some r /\ same_slot r row) /\
  (forall c r, (list_to_map next : gmap Z SlotRow) !! c = Some r ->
     exists k, runner_slots d !! k = Some r /\ c ∈ children old new k).
Proof.
  intros (Hnd & Hto & Hfrom)%renumbered_Ok.
  assert (Hel : forall k row, (k, row) ∈ sort_by (fun a b => a.1 <? b.1) (map_to_list (runner_slots d)) <->
    runner_slots d !! k = Some row) by (intros; by rewrite elem_of_sort_by, elem_of_map_to_list).
  setoid_rewrite Hel in Hto. setoid_rewrite Hel in Hfrom. split.
  - intros k row c Hk Hc. destruct (Hto k row c Hk Hc) as (r & Hin & Hs). exists r. split; [|done].
    by apply elem_of_list_to_map_1.
  - intros c r Hl. apply Hfrom. by apply elem_of_list_to_map_2.
Qed.

Lemma set_runner_prefix_slots p d dep d' :
  slots_owned d -> slots_true d -> set_runner_prefix p d = (Ok dep, d') -> slots_owned d' /\ slots_true d'.
Proof.
  intros Hown Htrue (Hp & _ & Hdp & [[_ ->]|(_ & d1 & Hren & ->)])%set_runner_prefix_Ok; [done|].
  apply renumber_slots_Ok in Hren as (next & _ & _ & _ & _ & Hinst & Howned). split.
  - intros uuid r Hl. exact (Howned uuid r Hl).
  - intros uuid r k Hl Hk. cbn in Hl |- *. rewrite Hinst in Hl.
    destruct (instances d !! uuid) as [r0|]; [|done]. by injection Hl as <-.
Qed.

(** Changing the runner prefix moves no address to another host.  Every
    address that had an owner keeps it; when slots are divided no address
    gains one, and when they are merged an address gains only the owner of
    an address of its merged slot.  Every instance keeps its row but for the
    slot number, which becomes the one that holds its address, and runs on
    the host that owns that slot. *)
Theorem renumbering_keeps_owners (p : Z) (d d' : Db) (dep : Deployment) :
  wf_db d -> slots_owned d -> slots_true d -> set_runner_prefix p d = (Ok dep, d') ->
  (forall o h, 0 <= o <= 255 -> octet_owner d o = Some h -> octet_owner d' o = Some h) /\
  (deployment_prefix d <= p -> forall o, 0 <= o <= 255 -> octet_owner d' o = octet_owner d o) /\
  (forall o h, 0 <= o <= 255 -> octet_owner d' o = Some h ->
     exists k, Z.shiftr o (prefix_shift p) ∈ children (deployment_prefix d) p k /\
       sr_owner <$> runner_slots d !! k = Some h) /\
  (forall uuid, with_slot None <$> instances d' !! uuid = with_slot None <$> instances d !! uuid) /\
  slots_owned d' /\ slots_true d'.
Proof.
  intros Hd Hown Htrue Hrun. destruct (wf_prefix_range d Hd) as [Hlo Hhi].
  destruct (set_runner_prefix_slots _ _ _ _ Hown Htrue Hrun) as [Hown' Htrue'].
  apply set_runner_prefix_Ok in Hrun as (Hp & -> & Hdp & [[He ->]|(Hne & d1 & Hren & ->)]).
  - subst p. split_and!; try done. intros o h Ho Hh. exists (Z.shiftr o (prefix_shift (deployment_prefix d))).
    split; [by apply children_octet; lia|done].
  - apply renumber_slots_Ok in Hren as (next & Hnext & _ & Hslots & Hsame & Hinst & _).
    destruct (renumbered_rows _ _ _ _ Hnext) as [Hto Hfrom]. rewrite <-Hslots in Hto, Hfrom.
    assert (Hkeep : forall o h, 0 <= o <= 255 -> octet_owner d o = Some h ->
      octet_owner (set_prefix p d1) o = Some h).
    { intros o h Ho. unfold octet_owner. cbn. rewrite !fmap_Some. intros (row & Hl & ->).
      destruct (Hto _ _ _ Hl (children_octet _ p _ (conj Hlo Hhi) Hp Ho)) as (r & Hr & [Hs _]). eauto. }
    split_and!; [done| | | |done|done].
    + intros Hle o Ho. destruct (octet_owner d o) as [h|] eqn:Hh; [by apply Hkeep|].
      unfold octet_owner in *. cbn in *. apply fmap_None. apply eq_None_not_Some. intros [r Hr].
      apply Hfrom in Hr as (k & Hk & Hc). apply children_parent in Hc; [|lia..]. subst k.
      by rewrite Hk in Hh.
    + intros o h Ho. unfold octet_owner. cbn. rewrite fmap_Some. intros (r & Hr & ->).
      apply Hfrom in Hr as (k & Hk & Hc). exists k. by rewrite Hk.
    + intros uuid. cbn. rewrite Hinst. by destruct (instances d !! uuid).
Qed.

(** What a granted claim does. *)
Lemma claim_slot_Ok slot host_id d s d' : claim_slot slot host_id d = (Ok s, d') ->
  exists row, d' = set_slots <[slot := row]> d /\ scan_slot slot row = Ok s /\ sr_owner row = host_id /\
    sr_epoch row = match runner_slots d !! slot with
      | Some r => if sr_owner r =? host_id then sr_epoch r else sr_epoch r + 1
      | None => 0
      end /\
    forall uuid i, instances d !! uuid = Some i ->
      occupies (prefix_shift (deployment_prefix d)) slot host_id i = false.
Proof.
  intros Hrun. unfold claim_slot in Hrun. tx_inv. destruct (_ <=? slot); [done|]. tx_inv.
  set (occ := rows _ (instances d)) in Hrun. destruct (Z.ltb_spec 0 (Z.of_nat (length occ))) as [|Hocc]; [done|].
  tx_inv. apply to_sql_int_Ok in Hs as [_ ->].
  assert (Hfree : forall uuid i, instances d !! uuid = Some i ->
    occupies (prefix_shift (deployment_prefix d)) slot host_id i = false).
  { intros uuid i Hl. apply not_true_iff_false. intros Ho.
    assert (Hin : (uuid, i) ∈ occ) by by apply elem_of_rows. destruct occ; [set_solver|cbn in Hocc; lia]. }
  assert (Hd1 : exists row, dd1 = set_slots <[slot := row]> d /\ sr_owner row = host_id /\
    sr_epoch row = match runner_slots d !! slot with
      | Some r => if sr_owner r =? host_id then sr_epoch r else sr_epoch r + 1 | None => 0 end).
  { destruct (runner_slots d !! slot) as [r|] eqn:Hl.
    - destruct (Z.eqb_spec (sr_owner r) host_id).
      + tx_inv. exists r. split_and!; [|done..]. unfold set_slots. rewrite insert_id by done. by destruct d.
      + destruct (_ <? _); [done|]. unfold put_slot in Hs1. tx_inv. by eexists.
    - apply insert_slot_Ok in Hs1 as [_ ->]. by eexists. }
  destruct Hd1 as (row & -> & Ho & He). cbn in Hrun. rewrite lookup_insert_eq in Hrun. tx_inv. by exists row.
Qed.

Lemma claim_slot_slots slot host_id d s d' :
  slots_owned d -> slots_true d -> claim_slot slot host_id d = (Ok s, d') -> slots_owned d' /\ slots_true d'.
Proof.
  intros Hown Htrue (row & -> & _ & Ho & _ & Hfree)%claim_slot_Ok. split; [|exact Htrue].
  intros uuid i Hl. cbn in Hl. pose proof (Hown uuid i Hl) as Hi. pose proof (Hfree uuid i Hl) as Hocc.
  unfold slot_owner_ok in *. destruct (in_slot i) as [k|] eqn:Hk; [|done]. cbn.
  destruct (decide (slot = k)) as [<-|Hne]; [|by rewrite lookup_insert_ne].
  rewrite lookup_insert_eq, bool_decide_eq_true, Ho. unfold occupies in Hocc.
  rewrite (Htrue _ _ _ Hl Hk), Hk, !bool_decide_true, andb_true_r in Hocc by eauto.
  cbn in Hocc. apply negb_false_iff in Hocc. lia.
Qed.

(** A slot changes hands only when it is empty.  A granted claim leaves the
    slot with the claimant and every other slot as it was, raises the
    ownership epoch exactly when the owner changes, and every instance still
    runs on the host that owns its slot. *)
Theorem claim_slot_keeps_guests (slot host_id : Z) (d d' : Db) (s : Slot) :
  slots_owned d -> slots_true d -> claim_slot slot host_id d = (Ok s, d') ->
  s_slot s = slot /\ s_owner_host_id s = host_id /\
  sr_owner <$> runner_slots d' !! slot = Some host_id /\
  s_ownership_epoch s = match runner_slots d !! slot with
    | Some r => if sr_owner r =? host_id then sr_epoch r else sr_epoch r + 1
    | None => 0
    end /\
  (forall k, k <> slot -> runner_slots d' !! k = runner_slots d !! k) /\
  instances d' = instances d /\ slots_owned d' /\ slots_true d'.
Proof.
  intros Hown Htrue Hrun. destruct (claim_slot_slots _ _ _ _ _ Hown Htrue Hrun) as [Hown' Htrue'].
  apply claim_slot_Ok in Hrun as (row & -> & Hscan & Ho & He & _).
  unfold scan_slot in Hscan. apply bind_Ok in Hscan as (k & [_ ->]%from_sql_int_Ok & Hscan).
  apply bind_Ok in Hscan as (st & _ & Hscan). apply Ok_inj in Hscan. subst s. cbn.
  rewrite lookup_insert_eq. split_and!; [done|done|by rewrite <-Ho|done| |done|done|done].
  intros k Hk. by rewrite lookup_insert_ne.
Qed.

(** ** The lease and the dispatch generations, one operation at a time *)

Section Lease.
Context `{TimeFormat}.

(** When a lease row is a lease that runs until [e]. *)
Definition lease_row (d : Db) (holder : string) (e : Z) : Prop :=
  lr_holder_id (controller_lease d) = Some holder /\
  exists text, lr_expires_at (controller_lease d) = Some text /\ parse_time text = Ok e.

Lemma acquire_lease_Ok holder ttl now d l d' : acquire_lease holder ttl now d = (Ok l, d') ->
  (forall other e, lease_row d other e -> other = holder \/ e <= now) /\
  l = mkLease holder (lr_epoch (controller_lease d) + 1) (now + ttl) /\
  lr_epoch (controller_lease d) + 1 <= i64_max /\ lease_row d' holder (now + ttl) /\
  exists row, d' = set_lease row d /\ lr_epoch row = lr_epoch (controller_lease d) + 1.
Proof.
  intros Hr. unfold acquire_lease in Hr. tx_inv.
  match type of Hs0 with _ = (_, ?x) => assert (x = d /\ forall other e, lease_row d other e -> other = holder \/ e <= now)
    as [-> Hheld] end.
  { unfold lease_row. destruct (lr_holder_id _) as [other|], (lr_expires_at _) as [text|]; tx_inv;
      try (split; [done|]; naive_solver).
    destruct (decide (other = holder)) as [->|Hne].
    - rewrite bool_decide_true in Hs0 by done. cbn in Hs0. tx_inv. split; [done|]. naive_solver.
    - rewrite bool_decide_false in Hs0 by done. cbn in Hs0. destruct (Z.ltb_spec now v); tx_inv.
      split; [done|]. intros other' e [[= <-] (t & [= <-] & Ht)]. right. congruence. }
  destruct (Z.ltb_spec i64_max (lr_epoch (controller_lease d) + 1)); tx_inv.
  split_and!; [done|done|done| |by eexists]. split; [done|]. exists v1. split; [done|]. by apply parse_format_time.
Qed.

Lemma renew_lease_Ok holder ttl now d l d' : renew_lease holder ttl now d = (Ok l, d') ->
  lr_holder_id (controller_lease d) = Some holder /\
  l = mkLease holder (lr_epoch (controller_lease d)) (now + ttl) /\ lease_row d' holder (now + ttl) /\
  exists row, d' = set_lease row d /\ lr_epoch row = lr_epoch (controller_lease d).
Proof.
  intros Hr. unfold renew_lease in Hr. tx_inv. destruct (renewable _ _ _) eqn:Hren; tx_inv.
  apply andb_true_iff in Hren as [Hh%bool_decide_eq_true _]. split_and!; [done|done| |by eexists].
  split; [done|]. exists v. split; [done|]. by apply parse_format_time.
Qed.

Lemma release_lease_run holder d : release_lease holder d =
  (Ok tt, if bool_decide (lr_holder_id (controller_lease d) = Some holder)
          then set_lease (mkLeaseRow None (lr_epoch (controller_lease d)) None) d else d).
Proof. done. Qed.

Lemma next_dispatch_generation_Ok object epoch d g d' :
  next_dispatch_generation object epoch d = (Ok g, d') ->
  d' = set_generations <[object := g]> d /\ g <= i64_max /\
  (forall g0, dispatch_generations d !! object = Some g0 -> g0 < g) /\
  (0 <= epoch -> epoch * 1000000 < i64_max -> epoch * 1000000 < g).
Proof.
  intros Hr. unfold next_dispatch_generation in Hr. tx_inv.
  assert (Hfloor : 0 <= epoch -> epoch * 1000000 < i64_max ->
    i64_wrap (i64_saturating_mul epoch 1000000 + 1) = epoch * 1000000 + 1).
  { intros Hp Hq. unfold i64_wrap, i64_saturating_mul. rewrite Z.min_l, Z.max_r by int_lia.
    rewrite Z.mod_small by int_lia. lia. }
  destruct (dispatch_generations d !! object) as [g0|] eqn:Hl;
    (match type of Hr with (if i64_max <? ?x then _ else _) _ = _ =>
      destruct (Z.ltb_spec i64_max x); tx_inv end); (split_and!; [done|done| |]).
  - intros g1 [= <-]. lia.
  - intros Hp Hq. rewrite Hfloor by done. lia.
  - naive_solver.
  - intros Hp Hq. rewrite Hfloor by done. lia.
Qed.
End Lease.

(** ** Identity and images *)

Section Identity.
Context `{TimeFormat}.

Lemma put_host_Ok id row d u d' : put_host id row d = (Ok u, d') -> d' = set_hosts <[id := row]> d.
Proof. intros Hr. unfold put_host in Hr. by tx_inv. Qed.

(** A machine's identity is learned once and never changes silently.  The
    first answer supplies it; from then on an answer of another machine is
    judged [Mismatched] and leaves the recorded identity, and the host is
    placeable exactly when it answered as the machine recorded.  A call that
    did not succeed keeps the time of the last contact. *)
Theorem identity_is_sticky (id now : Z) (seen : HostSeen) (h : HostHealth) (d d' : Db) (row : HostRow) :
  hosts d !! id = Some row -> observe_host id seen now d = (Ok h, d') ->
  let known := coalesce (hr_machine_id row) (hs_machine_id seen) in
  hosts d' !! id = Some (with_label known (hr_name row) (hr_libvirt_uri row) row) /\
  (forall other, other <> id -> hosts d' !! other = hosts d !! other) /\
  (placeable h = true <-> is_Some (hs_machine_id seen) /\ hs_machine_id seen = known) /\
  exists o, host_observations d' !! id = Some o /\ ob_health o = HostHealth_as_str h /\
    (placeable h = false -> ob_last_contact_at o = host_observations d !! id ≫= ob_last_contact_at) /\
    (placeable h = true -> exists text, ob_last_contact_at o = Some text /\ parse_time text = Ok now).
Proof.
  intros Hl Hrun known. unfold observe_host in Hrun. tx_inv. rewrite Hl in Hrun. tx_inv.
  set (health := judge_host _ _) in *.
  assert (Hhosts : exists m, dd = set_hosts (fun _ => m) d /\
    m !! id = Some (with_label known (hr_name row) (hr_libvirt_uri row) row) /\
    forall other, other <> id -> m !! other = hosts d !! other).
  { unfold known, coalesce. destruct row as [[stored|] name uri ep ul en pl cr]; cbn in *;
      [|destruct (hs_machine_id seen) as [reported|]].
    - tx_inv. exists (hosts d). by split_and!; [destruct d|..].
    - apply put_host_Ok in Hs. subst. eexists. split_and!; [done|by rewrite lookup_insert_eq|].
      intros other Hne. by rewrite lookup_insert_ne.
    - tx_inv. exists (hosts d). by split_and!; [destruct d|..]. }
  destruct Hhosts as (m & -> & Hm & Hother).
  match type of Hs0 with _ = (Ok ?c, ?x) =>
    assert (x = set_hosts (fun _ => m) d /\ (placeable health = true -> exists text, c = Some text /\ parse_time text = Ok now) /\
      (placeable health = false -> c = None)) as (-> & Hc1 & Hc2);
    [destruct (placeable health); tx_inv; (split_and!; [done|..]); intros; try done;
     eexists; split; [done|by apply parse_format_time]|] end.
  split_and!; [exact Hm|exact Hother| |].
  - unfold health, known, judge_host, coalesce.
    destruct (hr_machine_id row) as [stored|], (hs_machine_id seen) as [reported|]; cbn;
      try (case_bool_decide; cbn); split; intros Hx; try done; naive_solver.
  - eexists. split; [cbn; by rewrite lookup_insert_eq|]. cbn.
    destruct (host_observations d !! id) as [old|]; cbn; split_and!; try done.
    + intros Hf. by rewrite Hc2.
    + intros Ht. destruct (Hc1 Ht) as (text & -> & ?). eauto.
Qed.

(** The fleet gate accepts a version however its checksum is written: once
    a machine's copy is recorded, the gate no longer names that machine, for
    any spelling of the same checksum, and what it says of every other
    machine does not change. *)
Theorem recorded_image_counts (id now : Z) (image checksum checksum' : string) (d d' : Db)
    (missing missing' : list string) :
  wf_db d -> record_host_image id image checksum now d = (Ok tt, d') ->
  bare_checksum checksum = bare_checksum checksum' ->
  hosts_missing_image image checksum' d = (Ok missing, d) ->
  hosts_missing_image image checksum' d' = (Ok missing', d') ->
  exists row, hosts d !! id = Some row /\
    forall name, name ∈ missing' <-> name ∈ missing /\ name <> hr_name row.
Proof.
  intros Hd Hrec Hbare Hm Hm'. unfold record_host_image in Hrec. tx_inv.
  apply bool_decide_eq_true in Hs0 as [row Hrow]. exists row. split; [done|].
  unfold hosts_missing_image, query in Hm, Hm'. apply (f_equal fst) in Hm, Hm'. cbn [fst] in Hm, Hm'.
  apply Ok_inj in Hm, Hm'. subst missing missing'. intros name.
  rewrite !elem_of_sort_by, !list_elem_of_fmap. cbn [hosts set_host_images].
  assert (Hone : forall k r, hosts d !! k = Some r -> hr_name r = hr_name row -> k = id)
    by (intros k r Hk Hn; eapply (wf_host_name d Hd); [exact Hk|exact Hrow|cbn; by rewrite Hn|done]).
  unfold lacks_image. cbn [host_images set_host_images]. rewrite <-Hbare. split.
  - intros ([k r] & -> & [Hk Hlack]%elem_of_rows). cbn in *.
    apply andb_true_iff in Hlack as [Hact Hno%bool_decide_eq_true].
    destruct (decide (k = id)) as [->|Hne]; [by rewrite lookup_insert_eq in Hno|].
    rewrite lookup_insert_ne in Hno by congruence. split; [|intros Hn; by apply Hne, (Hone k r)].
    exists (k, r). split; [done|]. apply elem_of_rows. by rewrite Hact, bool_decide_true.
  - intros [([k r] & -> & [Hk Hlack]%elem_of_rows) Hn]. exists (k, r). split; [done|]. apply elem_of_rows.
    split; [done|]. cbn in *. rewrite lookup_insert_ne; [done|]. intros [= <-].
    apply Hn. cbn. congruence.
Qed.
End Identity.

(** ** Witnesses *)

#[local] Existing Instance decimal_time.

Lemma slots_owned_check d :
  forallb (fun kv => slot_owner_ok kv.2 d) (map_to_list (instances d)) = true -> slots_owned d.
Proof.
  intros Hall uuid r Hl. rewrite forallb_forall in Hall. apply (Hall (uuid, r)).
  by apply list_elem_of_In, elem_of_map_to_list.
Qed.

Lemma slots_true_check d :
  forallb (fun kv => match in_slot kv.2 with None => true | Some k =>
    bool_decide (slot_of_address (in_address kv.2) (prefix_shift (deployment_prefix d)) = Some k) end)
    (map_to_list (instances d)) = true -> slots_true d.
Proof.
  intros Hall uuid r k Hl Hk. rewrite forallb_forall in Hall. specialize (Hall (uuid, r)).
  cbn in Hall. rewrite Hk in Hall. eapply bool_decide_eq_true, Hall.
  by apply list_elem_of_In, elem_of_map_to_list.
Qed.

(** The small deployment divided into [/26]s. *)
Definition small_db_26 : Db := snd (set_runner_prefix 26 small_db_1).

Lemma renumbering_keeps_owners_witness :
  set_runner_prefix 26 small_db_1 = (Ok (mkDeployment 26), small_db_26) /\
  octet_owner small_db_26 200 = octet_owner small_db_1 200 /\ octet_owner small_db_1 200 = Some 1.
Proof.
  assert (Hr : set_runner_prefix 26 small_db_1 = (Ok (mkDeployment 26), small_db_26))
    by (vm_compute; reflexivity).
  split_and!; [exact Hr| |vm_compute; reflexivity].
  apply (renumbering_keeps_owners 26 small_db_1 small_db_26 (mkDeployment 26) wf_small_db_1);
    [apply slots_owned_check; vm_compute; reflexivity|apply slots_true_check; vm_compute; reflexivity
    |exact Hr|vm_compute; discriminate|lia].
Defined.

(** A second machine takes the third [/26]. *)
Definition small_db_two : Db := snd (register_runner "m2" "http://m2" "eth0" 9 small_db_26).
Definition small_db_claim : Db := snd (claim_slot 2 2 small_db_two).

Lemma claim_slot_keeps_guests_witness :
  claim_slot 2 2 small_db_two = (Ok (mkSlot 2 SlActive 2 1 None None None), small_db_claim) /\
  slots_owned small_db_claim /\
  claim_slot 0 2 small_db_two = (Err (SlotInUse 0 1), small_db_two).
Proof.
  assert (Hr : claim_slot 2 2 small_db_two = (Ok (mkSlot 2 SlActive 2 1 None None None), small_db_claim))
    by (vm_compute; reflexivity).
  split_and!; [exact Hr| |vm_compute; reflexivity].
  apply (claim_slot_keeps_guests 2 2 small_db_two small_db_claim (mkSlot 2 SlActive 2 1 None None None));
    [apply slots_owned_check; vm_compute; reflexivity|apply slots_true_check; vm_compute; reflexivity|exact Hr].
Defined.

Definition seen_as (machine : string) : HostSeen :=
  mkHostSeen (Some machine) 1 None None None None None None None.
Definition small_db_seen : Db := snd (observe_host 1 (seen_as "m9") 9 small_db).

Lemma identity_is_sticky_witness :
  observe_host 1 (seen_as "m9") 9 small_db = (Ok Mismatched, small_db_seen) /\
  hr_machine_id <$> hosts small_db_seen !! 1 = Some (Some "m1").
Proof.
  assert (Hr : observe_host 1 (seen_as "m9") 9 small_db = (Ok Mismatched, small_db_seen))
    by (vm_compute; reflexivity).
  split; [exact Hr|].
  destruct (identity_is_sticky 1 9 (seen_as "m9") Mismatched small_db small_db_seen
    (mkHostRow (Some "m1") "node" "qemu:///system" None None true "active" "5") eq_refl Hr) as [Hh _].
  by rewrite Hh.
Defined.

Definition small_db_image : Db := snd (record_host_image 1 "debian" "sha256-ABC" 9 small_db).

Lemma recorded_image_counts_witness :
  hosts_missing_image "debian" "abc" small_db = (Ok ["node"], small_db) /\
  hosts_missing_image "debian" "abc" small_db_image = (Ok [], small_db_image) /\
  exists row, hosts small_db !! 1 = Some row /\
    forall name, name ∈ @nil string <-> name ∈ ["node"] /\ name <> hr_name row.
Proof.
  split_and!; [vm_compute; reflexivity..|].
  apply (recorded_image_counts 1 9 "debian" "sha256-ABC" "abc" small_db small_db_image ["node"] []
    wf_small_db); vm_compute; reflexivity.
Defined.
