(* ===== verification/Placement.v ===== *)
(** * Placement: [choose_host] and [weigh_host] of [crates/store/src/runners.rs]

    Which machine a new instance goes on.  [weigh_host] refuses a machine
    with a reason or weighs it by two [f64] ratios; [choose_host] takes the
    machine whose ratios come first.  [Load] and [eligible] say in exact
    integers what the two functions are about, and the theorems show that
    the rounded ratios choose what the exact figures would. *)

From Stdlib Require Import ZArith Lia.
From S2P Require Import Prelude Text Float64 Types Db Instances Runners.
Open Scope Z_scope.

(** [Weight]. *)
Record Weight : Type := mkWeight { memory_ratio : f64; vcpu_ratio : f64 }.

Section Placement.
Context `{TimeFormat}.

(** The rows of [instances] on one host. *)
Definition instances_of (host_id : Z) (d : Db) : list (string * InstanceRow) :=
  rows (fun _ r => in_host_id r =? host_id) (instances d).

Definition owns_active (host_id : Z) (_ : Z) (s : SlotRow) : bool :=
  (sr_owner s =? host_id) && bool_decide (sr_state s = "active").

(** [if let (Some(want_arch), Some(host_arch)) = ... && want_arch != host_arch]. *)
Definition arch_clash (want have : option string) : option (string * string) :=
  match want, have with
  | Some want_arch, Some host_arch =>
      if bool_decide (want_arch = host_arch) then None else Some (want_arch, host_arch)
  | _, _ => None
  end.

(** [weigh_host]: a refusal with its reason, or how loaded the host would be. *)
Definition weigh_host (host : Host) (want : Placing) (overcommit_ratio : f64) :
    Tx (result string Weight) :=
  observation ← query (fun d => host_observations d !! h_id host);
  match observation with
  | None => mret (Err "never answered the controller")
  | Some o =>
      cpu_count ← lift_res (get_opt_u64 (ob_cpu_count o));
      memory_total ← lift_res (get_opt_u64 (ob_memory_total_mib o));
      storage_available ← lift_res (get_opt_u64 (ob_storage_available_gib o));
      if negb (bool_decide (ob_health o = "ok")) then mret (Err ("last seen " +:+ ob_health o))
      else
        slots ← query (fun d => length (rows (owns_active (h_id host)) (runner_slots d)));
        if (slots =? 0)%nat then mret (Err "owns no active slot")
        else match arch_clash (p_arch want) (ob_arch o) with
        | Some (want_arch, host_arch) =>
            mret (Err ("is " +:+ host_arch +:+ ", the image is " +:+ want_arch))
        | None =>
            here ← query (instances_of (h_id host));
            memory_sum ← lift_res (sum_sql 0 ((fun kv => in_memory kv.2) <$> here));
            vcpu_sum ← lift_res (sum_sql 0 ((fun kv => in_vcpu kv.2) <$> here));
            reserved_memory ← lift_res (from_sql_int memory_sum);
            reserved_vcpu ← lift_res (from_sql_int vcpu_sum);
            let memory_total := default 0 memory_total in
            if memory_total =? 0 then mret (Err "reported no memory")
            else
              let memory_limit := overcommitted_memory_mib memory_total overcommit_ratio in
              let memory_after := u64_saturating_add reserved_memory (p_memory_mib want) in
              if memory_limit <? memory_after then
                mret (Err ("has " +:+ dec (u64_saturating_sub memory_limit reserved_memory) +:+
                  " MiB left of " +:+ dec memory_limit +:+ ", the instance wants " +:+
                  dec (p_memory_mib want)))
              else if match storage_available with
                      | Some available => available <? p_disk_gib want
                      | None => false
                      end then
                mret (Err ("has " +:+ dec (default 0 storage_available) +:+
                  " GiB free, the instance wants " +:+ dec (p_disk_gib want)))
              else
                let cpu_count := Z.max (default 0 cpu_count) 1 in
                let vcpu_after := u64_saturating_add reserved_vcpu (p_vcpu want) in
                mret (Ok (mkWeight (ratio memory_after memory_limit) (ratio vcpu_after cpu_count)))
        end
  end.

(** The tuple comparison [(f64, f64, i64) < (f64, f64, i64)]. *)
Definition precedes (a b : Weight * Z) : bool :=
  match partial_cmp (memory_ratio a.1) (memory_ratio b.1) with
  | Some Eq =>
      match partial_cmp (vcpu_ratio a.1) (vcpu_ratio b.1) with
      | Some Eq => a.2 <? b.2
      | Some Lt => true
      | _ => false
      end
  | Some Lt => true
  | _ => false
  end.

(** [best.as_ref().is_none_or(...)]. *)
Definition better (candidate : Weight * Host) (best : option (Weight * Host)) : bool :=
  match best with
  | None => true
  | Some current => precedes (candidate.1, h_id candidate.2) (current.1, h_id current.2)
  end.

(** The loop of [choose_host]. *)
Fixpoint consider (want : Placing) (overcommit_ratio : f64) (best : option (Weight * Host))
    (rejected : list string) (hs : list Host) : Tx (option (Weight * Host) * list string) :=
  match hs with
  | [] => mret (best, rejected)
  | host :: rest =>
      verdict ← weigh_host host want overcommit_ratio;
      match verdict with
      | Ok weight =>
          consider want overcommit_ratio
            (if better (weight, host) best then Some (weight, host) else best) rejected rest
      | Err reason =>
          consider want overcommit_ratio best (rejected ++ [h_name host +:+ ": " +:+ reason]) rest
      end
  end.

(** [WHERE enabled = 1 AND placement = 'active' ORDER BY id]. *)
Definition placeable_row (_ : Z) (h : HostRow) : bool :=
  hr_enabled h && bool_decide (hr_placement h = "active").
Definition active_hosts : Tx (list Host) :=
  found ← query (fun d => sort_by (fun a b => a.1 <? b.1) (rows placeable_row (hosts d)));
  lift_res (mapM (fun kv => scan_host kv.1 kv.2) found).

(** [Store::choose_host]. *)
Definition choose_host (want : Placing) (overcommit_ratio : f64) : Tx Host :=
  with_tx (
    hs ← active_hosts;
    outcome ← consider want overcommit_ratio None [] hs;
    match outcome.1 with
    | Some (_, host) => mret host
    | None => fail (NoPlacement (join "; " outcome.2))
    end).

(** ** What the code decides, in exact figures *)

(** What a host would carry with the new instance on it, and what it has. *)
Record Load : Type := mkLoad {
  ld_memory : Z; ld_limit : Z; ld_vcpu : Z; ld_cpus : Z
}.

Definition reserved (col : InstanceRow -> Z) (host_id : Z) (d : Db) : Z :=
  sum_of ((fun kv => col kv.2) <$> instances_of host_id d).

Definition load_of (d : Db) (host_id : Z) (o : ObservationRow) (want : Placing)
    (overcommit_ratio : f64) : Load :=
  mkLoad (u64_saturating_add (reserved in_memory host_id d) (p_memory_mib want))
    (overcommitted_memory_mib (default 0 (ob_memory_total_mib o)) overcommit_ratio)
    (u64_saturating_add (reserved in_vcpu host_id d) (p_vcpu want))
    (Z.max (default 0 (ob_cpu_count o)) 1).

(** A host that can take the instance: seen well, with an active slot, an
    architecture that fits, and room. *)
Definition eligible (d : Db) (host_id : Z) (want : Placing) (overcommit_ratio : f64) (l : Load) : Prop :=
  exists o, host_observations d !! host_id = Some o /\
    l = load_of d host_id o want overcommit_ratio /\ ob_health o = "ok" /\
    (exists slot s, runner_slots d !! slot = Some s /\ sr_owner s = host_id /\ sr_state s = "active") /\
    arch_clash (p_arch want) (ob_arch o) = None /\ default 0 (ob_memory_total_mib o) <> 0 /\
    ld_memory l <= ld_limit l /\
    (forall available, ob_storage_available_gib o = Some available -> p_disk_gib want <= available).

Definition weight_of (l : Load) : Weight :=
  mkWeight (ratio (ld_memory l) (ld_limit l)) (ratio (ld_vcpu l) (ld_cpus l)).

(** The exact order: the lower share of memory, then the lower share of
    processors, then the lower id. *)
Definition no_fuller (a b : Load * Z) : Prop :=
  let m := ld_memory a.1 * ld_limit b.1 ?= ld_memory b.1 * ld_limit a.1 in
  let v := ld_vcpu a.1 * ld_cpus b.1 ?= ld_vcpu b.1 * ld_cpus a.1 in
  m = Lt \/ (m = Eq /\ (v = Lt \/ (v = Eq /\ a.2 <= b.2))).

(** Figures small enough for exact ratios: 64 TiB, and 67 million processors. *)
Definition modest (l : Load) : Prop :=
  0 <= ld_memory l < 2 ^ 26 /\ 0 < ld_limit l < 2 ^ 26 /\
  0 <= ld_vcpu l < 2 ^ 26 /\ 0 < ld_cpus l < 2 ^ 26.
End Placement.

(** ** The order of weights *)

Lemma precedes_irrefl a : precedes a a = false.
Proof.
  unfold precedes. destruct (partial_cmp _ _) as [[]|] eqn:H1; [|exfalso|done|done].
  - destruct (partial_cmp (vcpu_ratio a.1) _) as [[]|] eqn:H2; [apply Z.ltb_irrefl|exfalso|done|done].
    pose proof (partial_cmp_antisym (vcpu_ratio a.1) (vcpu_ratio a.1)) as Ha. rewrite H2 in Ha. done.
  - pose proof (partial_cmp_antisym (memory_ratio a.1) (memory_ratio a.1)) as Ha. rewrite H1 in Ha. done.
Qed.

Lemma precedes_trans a b c : precedes a b = true -> precedes b c = true -> precedes a c = true.
Proof.
  unfold precedes.
  destruct (partial_cmp (memory_ratio a.1) (memory_ratio b.1)) as [[]|] eqn:M1; try done.
  - rewrite (partial_cmp_eq_l _ _ (memory_ratio c.1) M1).
    destruct (partial_cmp (memory_ratio b.1) (memory_ratio c.1)) as [[]|]; try done.
    destruct (partial_cmp (vcpu_ratio a.1) (vcpu_ratio b.1)) as [[]|] eqn:V1; try done.
    + rewrite (partial_cmp_eq_l _ _ (vcpu_ratio c.1) V1).
      destruct (partial_cmp (vcpu_ratio b.1) (vcpu_ratio c.1)) as [[]|]; try done. lia.
    + destruct (partial_cmp (vcpu_ratio b.1) (vcpu_ratio c.1)) as [[]|] eqn:V2; try done.
      * by rewrite <-(partial_cmp_eq_r _ _ _ V2), V1.
      * by rewrite (partial_cmp_trans _ _ _ V1 V2).
  - destruct (partial_cmp (memory_ratio b.1) (memory_ratio c.1)) as [[]|] eqn:M2; try done.
    + by rewrite <-(partial_cmp_eq_r _ _ _ M2), M1.
    + by rewrite (partial_cmp_trans _ _ _ M1 M2).
Qed.

(** On modest figures the rounded order is the exact one. *)
Lemma precedes_exact a b i j :
  modest a -> modest b -> precedes (weight_of b, j) (weight_of a, i) = false -> no_fuller (a, i) (b, j).
Proof.
  intros (?&?&?&?) (?&?&?&?). unfold precedes, no_fuller, weight_of. cbn [fst snd memory_ratio vcpu_ratio].
  assert (P1 : (2 ^ 26 = 67108864)%Z) by reflexivity. assert (P2 : (2 ^ 53 = 9007199254740992)%Z) by reflexivity.
  rewrite !ratio_cmp_exact by nia.
  rewrite (Z.compare_antisym (ld_memory a * ld_limit b)), (Z.compare_antisym (ld_vcpu a * ld_cpus b)).
  destruct (ld_memory a * ld_limit b ?= _); simpl; [|by auto|done].
  destruct (ld_vcpu a * ld_cpus b ?= _); simpl; [|by auto|done]. right. split; [done|]. right.
  split; [done|]. lia.
Qed.

Section PlacementLemmas.
Context `{TimeFormat}.

Lemma get_opt_u64_Ok v z : get_opt_u64 v = Ok z -> z = v.
Proof.
  unfold get_opt_u64. destruct v as [v|]; simpl; [|naive_solver].
  unfold from_sql_int. destruct (v <? 0); naive_solver.
Qed.

Lemma eligible_fun d id want r l l' :
  eligible d id want r l -> eligible d id want r l' -> l' = l.
Proof. intros (o & Ho & -> & _) (o' & Ho' & -> & _). by simplify_eq. Qed.

Lemma owns_active_some d id :
  length (rows (owns_active id) (runner_slots d)) <> 0%nat <->
  exists slot s, runner_slots d !! slot = Some s /\ sr_owner s = id /\ sr_state s = "active".
Proof.
  assert (Hp : forall slot s, (slot, s) ∈ rows (owns_active id) (runner_slots d) <->
    runner_slots d !! slot = Some s /\ sr_owner s = id /\ sr_state s = "active").
  { intros slot s. rewrite elem_of_rows. unfold owns_active.
    by rewrite andb_true_iff, Z.eqb_eq, bool_decide_eq_true. }
  setoid_rewrite <-Hp. destruct (rows _ _) as [|[slot s] l]; simpl; [set_solver|].
  split; [|done]. intros _. exists slot, s. set_solver.
Qed.

(** [weigh_host] weighs exactly the eligible hosts, by their load. *)
Lemma weigh_host_spec h want r d v d' :
  weigh_host h want r d = (Ok v, d') ->
  d' = d /\ match v with
            | Ok w => exists l, eligible d (h_id h) want r l /\ w = weight_of l
            | Err _ => forall l, ~ eligible d (h_id h) want r l
            end.
Proof.
  intros Hw. unfold weigh_host in Hw. tx_inv.
  destruct (host_observations d !! h_id h) as [o|] eqn:Ho.
  2: { tx_inv. split; [done|]. by intros l (o & Ho' & _); rewrite Ho in Ho'. }
  tx_inv. repeat match goal with Hg : get_opt_u64 _ = Ok _ |- _ => apply get_opt_u64_Ok in Hg end. subst.
  assert (Hel : forall l, eligible d (h_id h) want r l ->
    l = load_of d (h_id h) o want r /\ ob_health o = "ok" /\
    length (rows (owns_active (h_id h)) (runner_slots d)) <> 0%nat /\
    arch_clash (p_arch want) (ob_arch o) = None /\ default 0 (ob_memory_total_mib o) <> 0 /\
    ld_memory l <= ld_limit l /\
    (forall a, ob_storage_available_gib o = Some a -> p_disk_gib want <= a)).
  { intros l (o' & Ho' & Hrest). rewrite Ho in Ho'. simplify_eq. by rewrite owns_active_some. }
  destruct (bool_decide_reflect (ob_health o = "ok")) as [Hh|Hh]; simpl in Hw.
  2: { tx_inv. split; [done|]. by intros l (_ & ? & _)%Hel. }
  tx_inv. destruct (Nat.eqb_spec (length (rows (owns_active (h_id h)) (runner_slots d))) 0) as [Hz|Hz].
  { tx_inv. split; [done|]. by intros l (_ & _ & ? & _)%Hel. }
  destruct (arch_clash (p_arch want) (ob_arch o)) as [[a b]|] eqn:Ha.
  { tx_inv. split; [done|]. by intros l (_ & _ & _ & ? & _)%Hel. }
  tx_inv. repeat match goal with
  | Hg : sum_sql 0 _ = Ok _ |- _ => apply sum_sql_0 in Hg as [-> _]
  | Hg : from_sql_int _ = Ok _ |- _ => apply from_sql_int_Ok in Hg as [_ ->]
  end.
  destruct (Z.eqb_spec (default 0 (ob_memory_total_mib o)) 0) as [Hm|Hm].
  { tx_inv. split; [done|]. by intros l (_ & _ & _ & _ & ? & _)%Hel. }
  destruct (Z.ltb_spec (overcommitted_memory_mib (default 0 (ob_memory_total_mib o)) r)
    (u64_saturating_add (sum_of ((fun kv => in_memory kv.2) <$> instances_of (h_id h) d)) (p_memory_mib want)))
    as [Hmem|Hmem].
  { tx_inv. split; [done|]. intros l (-> & _ & _ & _ & _ & Hle & _)%Hel. unfold load_of, reserved in Hle.
    simpl in Hle. lia. }
  destruct (match ob_storage_available_gib o with Some _ => _ | None => _ end) eqn:Hdisk.
  { tx_inv. split; [done|]. intros l (_ & _ & _ & _ & _ & _ & Hd)%Hel.
    destruct (ob_storage_available_gib o) as [a|]; [|done]. specialize (Hd a eq_refl). lia. }
  tx_inv. split; [done|]. exists (load_of d (h_id h) o want r). split; [|done].
  exists o. rewrite <-owns_active_some. split_and!; try done.
  intros a Hst. rewrite Hst in Hdisk. lia.
Qed.

Lemma better_spec best w h :
  (better (w, h) best = true -> forall w0 h0, best = Some (w0, h0) ->
     precedes (w, h_id h) (w0, h_id h0) = true) /\
  (better (w, h) best = false -> exists w0 h0, best = Some (w0, h0) /\
     precedes (w, h_id h) (w0, h_id h0) = false).
Proof. destruct best as [[w0 h0]|]; simpl; [|done]. split; [by intros ? ? ? [= <- <-]|eauto]. Qed.

(** What the loop of [choose_host] has found. *)
Lemma consider_spec want r d hs best rej best' rej' d' :
  consider want r best rej hs d = (Ok (best', rej'), d') ->
  d' = d /\ (best' = None -> best = None /\ forall h l, h ∈ hs -> ~ eligible d (h_id h) want r l) /\
  (forall w h, best' = Some (w, h) ->
    (best = Some (w, h) \/ (h ∈ hs /\ exists l, eligible d (h_id h) want r l /\ w = weight_of l)) /\
    (forall w0 h0, best = Some (w0, h0) ->
       (w0, h0) = (w, h) \/ precedes (w, h_id h) (w0, h_id h0) = true) /\
    (forall h0 l0, h0 ∈ hs -> eligible d (h_id h0) want r l0 ->
       precedes (weight_of l0, h_id h0) (w, h_id h) = false)).
Proof.
  revert best rej. induction hs as [|h0 hs IH]; intros best rej Hc; simpl in Hc; tx_inv.
  { split_and!; [done|by intros ->; set_solver|]. intros w h ->. split_and!; [by left| |set_solver].
    intros ?? [= -> ->]. by left. }
  apply weigh_host_spec in Hs as [-> Hv]. destruct v as [w0|e].
  - destruct Hv as (l0 & Hel & ->).
    apply IH in Hc as (-> & Hnone & Hsome). split_and!; [done| |].
    { intros Hb. apply Hnone in Hb as [Hb _]. by destruct best; simpl in Hb; [case_match|]. }
    intros w h Hb. destruct (Hsome w h Hb) as (Hfrom & Hbest & Hrest).
    destruct (better_spec best (weight_of l0) h0) as [Hnew Hold]. split_and!.
    + destruct Hfrom as [Hf|(? & ?)]; [|right; split; [set_solver|done]].
      destruct (better _ best); [simplify_eq; right; split; [set_solver|eauto]|by left].
    + intros w1 h1 Hw1. destruct (better _ best); [|by apply Hbest].
      right. specialize (Hnew eq_refl _ _ Hw1).
      destruct (Hbest _ _ eq_refl) as [[= <- <-]|Hp]; [done|]. by eapply precedes_trans.
    + intros h1 l1 [->|Hh]%elem_of_cons Hl; [|by eapply Hrest].
      rewrite (eligible_fun _ _ _ _ _ _ Hel Hl). apply not_true_iff_false. intros Hlt.
      destruct (better _ best).
      * destruct (Hbest _ _ eq_refl) as [[= <- <-]|Hp]; [by rewrite precedes_irrefl in Hlt|].
        pose proof (precedes_trans _ _ _ Hlt Hp) as Hc. by rewrite precedes_irrefl in Hc.
      * destruct (Hold eq_refl) as (w1 & h1 & Hw1 & Hn).
        destruct (Hbest _ _ Hw1) as [[= -> ->]|Hp]; [congruence|].
        by rewrite (precedes_trans _ _ _ Hlt Hp) in Hn.
  - apply IH in Hc as (-> & Hnone & Hsome). split_and!; [done| |].
    + intros Hb. destruct (Hnone Hb) as [? Hall]. split; [done|].
      intros h l [->|Hh]%elem_of_cons; [apply Hv|by apply Hall].
    + intros w h Hb. destruct (Hsome w h Hb) as (Hfrom & Hbest & Hrest). split_and!; [|done|].
      * destruct Hfrom as [?|(? & ?)]; [by left|right; split; [set_solver|done]].
      * intros h1 l1 [->|Hh]%elem_of_cons Hl; [by apply Hv in Hl|by eapply Hrest].
Qed.
End PlacementLemmas.

Lemma with_tx_Err_inv {A} (m : Tx A) d e d' :
  with_tx m d = (Err e, d') -> d' = d /\ exists d1, m d = (Err e, d1).
Proof. unfold with_tx. destruct (m d) as [[]]; naive_solver. Qed.

(** A computation whose only errors are the database's. *)
Definition sql_only {A} (m : Tx A) : Prop := forall d e d', m d = (Err e, d') -> exists s, e = SqlFailure s.

Lemma sql_only_bind {A B} (m : Tx A) (f : A -> Tx B) :
  sql_only m -> (forall a, sql_only (f a)) -> sql_only (m ≫= f).
Proof. intros Hm Hf d e d' [(a & d1 & _ & Hr)|(e' & Hr & [= ->])]%ST_bind_run; [by eapply Hf|by eapply Hm]. Qed.

Lemma sql_only_res {A} (r : result StoreError A) :
  (forall e, r = Err e -> exists s, e = SqlFailure s) -> sql_only (lift_res r).
Proof. intros Hr d e d' [= He ?]. by apply Hr. Qed.

Lemma sum_sql_err acc l e : sum_sql acc l = Err e -> exists s, e = SqlFailure s.
Proof. revert acc. induction l as [|x l IH]; intros acc; simpl; [done|]. case_match; [naive_solver|apply IH]. Qed.

Lemma from_sql_int_err v e : from_sql_int v = Err e -> exists s, e = SqlFailure s.
Proof. unfold from_sql_int. case_match; naive_solver. Qed.

Lemma get_opt_u64_err v e : get_opt_u64 v = Err e -> exists s, e = SqlFailure s.
Proof.
  unfold get_opt_u64. destruct v as [v|]; simpl; [|done].
  destruct (from_sql_int v) eqn:Hv; simpl; [done|]. intros [= ->]. by eapply from_sql_int_err.
Qed.

Section Choice.
Context `{TimeFormat}.

Lemma weigh_host_sql h want r : sql_only (weigh_host h want r).
Proof.
  unfold weigh_host.
  repeat first [ apply sql_only_bind; [|intros ?]
               | apply sql_only_res; intros; by eauto using sum_sql_err, from_sql_int_err, get_opt_u64_err
               | done | case_match ].
Qed.

Lemma scan_host_err id row e : scan_host id row = Err e -> exists s, e = SqlFailure s.
Proof.
  unfold scan_host, parse_enum, parse_time.
  destruct (from_str (hr_placement row)); simpl; [|naive_solver].
  destruct (rfc3339_parse (hr_created_at row)); simpl; naive_solver.
Qed.

Lemma active_hosts_sql : sql_only active_hosts.
Proof.
  apply sql_only_bind; [done|]. intros found. apply sql_only_res. intros e.
  induction found as [|[id row] found IH]; simpl; [done|].
  destruct (scan_host id row) eqn:Hs; simpl; [|intros [= ->]; by eapply scan_host_err].
  destruct (mapM _ found); simpl; [done|]. intros [= ->]. by apply IH.
Qed.

Lemma consider_sql want r hs best rej : sql_only (consider want r best rej hs).
Proof.
  revert best rej. induction hs as [|h hs IH]; intros best rej; simpl; [done|].
  apply sql_only_bind; [apply weigh_host_sql|]. intros []; apply IH.
Qed.

(** The hosts the choice is made among. *)
Definition candidate (d : Db) (id : Z) : Prop :=
  exists row, hosts d !! id = Some row /\ hr_enabled row = true /\ hr_placement row = "active".

Lemma active_hosts_spec d hs d' :
  active_hosts d = (Ok hs, d') ->
  d' = d /\ (forall h, h ∈ hs -> candidate d (h_id h)) /\
  (forall id, candidate d id -> exists h, h ∈ hs /\ h_id h = id).
Proof.
  intros Ha. unfold active_hosts in Ha. tx_inv. split; [done|].
  assert (Hin : forall h, h ∈ hs <-> exists id row, hosts d !! id = Some row /\
    placeable_row id row = true /\ scan_host id row = Ok h).
  { intros h. rewrite (mapM_Ok_elem _ _ _ _ Ha). setoid_rewrite elem_of_sort_by. split.
    - intros ([id row] & [Hl Hp]%elem_of_rows & Hs). eauto.
    - intros (id & row & ? & ? & ?). exists (id, row). by rewrite elem_of_rows. }
  assert (Hpl : forall id row, placeable_row id row = true <-> hr_enabled row = true /\ hr_placement row = "active").
  { intros id row. unfold placeable_row. by rewrite andb_true_iff, bool_decide_eq_true. }
  assert (Hid : forall id row h, scan_host id row = Ok h -> h_id h = id).
  { intros id row h Hs. unfold scan_host in Hs. result_inv. by subst h. }
  split.
  - intros h (id & row & Hl & Hp%Hpl & Hs%Hid)%Hin. exists row. by rewrite Hs.
  - intros id (row & Hl & Hp%(Hpl id)). rewrite mapM_Ok in Ha.
    assert (Hx : (id, row) ∈ sort_by (fun a b => a.1 <? b.1) (rows placeable_row (hosts d)))
      by (rewrite elem_of_sort_by, elem_of_rows; done).
    apply list_elem_of_lookup in Hx as [i Hi].
    destruct (Forall2_lookup_l _ _ _ _ _ Ha Hi) as (h & Hh & Hs). exists h.
    split; [by eapply list_elem_of_lookup_2|by eapply Hid].
Qed.

(** C35.  Placement takes the least loaded machine that fits.  Among the
    enabled, active hosts that were seen well, own an active slot, have the
    right architecture and have room, the one chosen has the lowest exact
    share of memory, then the lowest exact share of processors, then the
    lowest id: rounding the ratios to [f64] never changes the choice on
    figures below 2^26.  When placement is refused no host fits, any other
    failure is one of the database, and nothing is written. *)
Theorem choose_host_least (want : Placing) (overcommit_ratio : f64) (d d' : Db)
    (res : result StoreError Host) :
  (forall id l, eligible d id want overcommit_ratio l -> modest l) ->
  choose_host want overcommit_ratio d = (res, d') ->
  d' = d /\
  match res with
  | Ok host =>
      candidate d (h_id host) /\
      exists l, eligible d (h_id host) want overcommit_ratio l /\
        forall id l', candidate d id -> eligible d id want overcommit_ratio l' ->
          no_fuller (l, h_id host) (l', id)
  | Err (NoPlacement _) => forall id l, candidate d id -> ~ eligible d id want overcommit_ratio l
  | Err e => exists s, e = SqlFailure s
  end.
Proof.
  intros Hmodest Hc. destruct res as [host|e].
  - unfold choose_host in Hc. tx_inv. apply active_hosts_spec in Hs as (-> & Hcand & Hall).
    destruct v0 as [best' rej']. apply consider_spec in Hs0 as (-> & _ & Hsome).
    destruct best' as [[w h]|]; simpl in Hc; tx_inv.
    destruct (Hsome w h eq_refl) as ([?|(Hin & l & Hel & ->)] & _ & Hleast); [done|].
    split_and!; [done|by apply Hcand|]. exists l. split; [done|].
    intros id l' (h' & Hh' & <-)%Hall Hel'. apply precedes_exact; [by eauto..|]. by eapply Hleast.
  - apply with_tx_Err_inv in Hc as [-> [d1 Hr]]. split; [done|].
    apply ST_bind_run in Hr as [(hs & d1' & Hh & Hr)|(e' & Hr & [= ->])];
      [|destruct (active_hosts_sql _ _ _ Hr) as [s ->]; eauto].
    apply ST_bind_run in Hr as [([b rj] & d2 & Hs & Hr)|(e' & Hr & [= ->])];
      [|destruct (consider_sql _ _ _ _ _ _ _ _ Hr) as [s ->]; eauto].
    apply active_hosts_spec in Hh as (-> & Hcand & Hall).
    apply consider_spec in Hs as (-> & Hnone & _). destruct b as [[w h]|]; simpl in Hr; [done|].
    injection Hr as <-. intros id l (h' & Hh' & <-)%Hall. by apply Hnone.
Qed.
End Choice.

(** ** Witness: two machines, the second with more room *)

#[local] Existing Instance decimal_time.

Definition seen_ok (memory cpus : Z) : ObservationRow :=
  mkObservationRow "ok" (Some "5") 1 (Some "x86_64") (Some cpus) (Some memory) (Some 500) (Some 400)
    None None.
Definition fleet_db : Db :=
  set_observations (fun _ => {[ 1 := seen_ok 2048 4; 2 := seen_ok 8192 8 ]})
    (set_slots (<[2 := mkSlotRow "active" 2 1 None None None]>) small_db_two).
Definition small_want : Placing := mkPlacing 1 1024 10 (Some "x86_64").

Lemma modest_fleet id l : eligible fleet_db id small_want (of_int 1) l -> modest l.
Proof.
  intros (o & Ho & -> & _).
  assert (id = 1 \/ id = 2) as [-> | ->].
  { change (({[ 1 := seen_ok 2048 4; 2 := seen_ok 8192 8 ]} : gmap Z ObservationRow) !! id = Some o) in Ho.
    rewrite lookup_insert_Some in Ho. destruct Ho as [[<- _]|[_ Ho]]; [by left|].
    rewrite lookup_singleton_Some in Ho. destruct Ho as [<- _]. by right. }
  - vm_compute in Ho. injection Ho as <-. unfold modest. vm_compute. intuition congruence.
  - vm_compute in Ho. injection Ho as <-. unfold modest. vm_compute. intuition congruence.
Qed.

Definition node_two : Host :=
  mkHost 2 None "m2" "" (Some "http://m2") (Some "eth0") true PlActive 9.

Lemma choose_host_least_witness :
  choose_host small_want (of_int 1) fleet_db = (Ok node_two, fleet_db) /\ candidate fleet_db 2.
Proof.
  assert (Hr : choose_host small_want (of_int 1) fleet_db = (Ok node_two, fleet_db))
    by (vm_compute; reflexivity).
  split; [exact Hr|].
  exact (proj1 (proj2 (choose_host_least _ _ _ _ _ modest_fleet Hr))).
Defined.
