(* ===== verification/Images.v ===== *)
(** * Images: [crates/store/src/images.rs]

    The allowlist of images, the files fetched for them and which of those
    files may be deleted. *)

From Stdlib Require Import ZArith Lia.
From S2P Require Import Prelude Text Types Db Instances.
Open Scope Z_scope.

(** Whether a foreign key of a child table names the row [p]. *)
Definition referenced {K V P} `{Countable K, EqDecision P} (child : gmap K V) (col : K -> V -> option P)
    (p : P) : bool := exists_row (fun k v => bool_decide (col k v = Some p)) child.

Definition with_source (url kind : string) (pinned : option string) (r : ImageRow) : ImageRow :=
  mkImageRow url kind pinned (gr_current_checksum r).

(** The row [name] of [images] becomes [row]. *)
Definition put_image (name : string) (row : ImageRow) : Tx unit :=
  _ ← require (fun _ => enum_text ImageKind (gr_kind row)) (SqlFailure CheckViolation);
  _ ← require (fun d => ref_ok (image_versions d) (gr_current_checksum row)) (SqlFailure ForeignKey);
  modify (set_images <[name := row]>).

(** [Store::insert_image]. *)
Definition insert_image (image_ : Image) : Tx bool :=
  known ← query (fun d => images d !! img_name image_);
  match known with
  | Some _ => mret false
  | None =>
      _ ← put_image (img_name image_) (mkImageRow (img_url image_) (as_str (img_kind image_))
                                         (img_pinned_checksum image_) None);
      mret true
  end.

(** [Store::upsert_image]. *)
Definition upsert_image (image_ : Image) : Tx unit :=
  known ← query (fun d => images d !! img_name image_);
  put_image (img_name image_)
    match known with
    | Some r => with_source (img_url image_) (as_str (img_kind image_)) (img_pinned_checksum image_) r
    | None => mkImageRow (img_url image_) (as_str (img_kind image_)) (img_pinned_checksum image_) None
    end.

(** [scan_image]. *)
Definition scan_image (name : string) (r : ImageRow) : result StoreError Image :=
  kind ← parse_enum (gr_kind r);
  Ok (mkImage name (gr_url r) kind (gr_pinned_checksum r) (gr_current_checksum r)).

(** [Store::image]. *)
Definition image (name : string) : Tx Image :=
  found ← query (fun d => images d !! name);
  match found with
  | None => fail NotFound
  | Some r => lift_res (scan_image name r)
  end.

(** [Store::images]: [ORDER BY name]. *)
Definition all_images : Tx (list Image) :=
  found ← query (fun d => sort_by (fun a b => text_lt a.1 b.1) (map_to_list (images d)));
  lift_res (mapM (fun kv => scan_image kv.1 kv.2) found).

Section Images.
Context `{TimeFormat}.

(** [Store::add_image_version]. *)
Definition add_image_version (version : ImageVersion) : Tx unit :=
  size ← lift_res (to_sql_int (iv_size version));
  fetched_at ← lift_res (format_time (iv_fetched_at version));
  _ ← require (fun d => bool_decide (image_versions d !! iv_checksum version = None) &&
                        col_free (image_versions d) (fun v => Some (vr_path v)) (iv_checksum version)
                          (Some (iv_path version))) (SqlFailure UniqueViolation);
  _ ← require (fun d => ref_ok (images d) (Some (iv_image_name version))) (SqlFailure ForeignKey);
  modify (set_versions <[iv_checksum version :=
    mkVersionRow (iv_image_name version) (iv_path version) size (as_str (iv_kind version))
      (iv_source_digest version) fetched_at]>).

(** [scan_image_version]. *)
Definition scan_image_version (checksum : string) (r : VersionRow) : result StoreError ImageVersion :=
  size ← from_sql_int (vr_size r);
  kind ← parse_enum (vr_kind r);
  fetched_at ← parse_time (vr_fetched_at r);
  Ok (mkImageVersion checksum (vr_image_name r) (vr_path r) size kind (vr_source_digest r) fetched_at).

(** [Store::image_version]. *)
Definition image_version (checksum : string) : Tx ImageVersion :=
  found ← query (fun d => image_versions d !! checksum);
  match found with
  | None => fail NotFound
  | Some r => lift_res (scan_image_version checksum r)
  end.

(** [Store::image_version_for_source]. *)
Definition image_version_for_source (image_name source_digest : string) : Tx (option ImageVersion) :=
  found ← query (fun d =>
    checksum ← image_source_versions d !! (image_name, source_digest);
    r ← image_versions d !! checksum;
    Some (checksum, r));
  lift_res (opt_res (fun kv : string * VersionRow => scan_image_version kv.1 kv.2) found).

(** [Store::record_image_source]. *)
Definition record_image_source (image_name source_digest checksum : string) : Tx unit :=
  _ ← require (fun d => ref_ok (images d) (Some image_name) && ref_ok (image_versions d) (Some checksum))
        (SqlFailure ForeignKey);
  modify (set_sources <[(image_name, source_digest) := checksum]>).

(** [Store::delete_unbuilt_image]; the source rows cascade. *)
Definition unbuilt (name : string) (r : ImageRow) (d : Db) : bool :=
  bool_decide (gr_current_checksum r = None) &&
  negb (exists_row (fun _ v => bool_decide (vr_image_name v = name)) (image_versions d)) &&
  negb (exists_row (fun _ i => bool_decide (in_image_name i = name)) (instances d)).
Definition delete_unbuilt_image (name : string) : Tx bool :=
  found ← query (fun d => (fun r => unbuilt name r d) <$> images d !! name);
  if bool_decide (found = Some true) then
    _ ← modify (fun d => set_sources (filter (fun kv => kv.1.1 <> name)) (set_images (delete name) d));
    mret true
  else mret false.

(** [Store::set_current_checksum]. *)
Definition set_current_checksum (image_name checksum : string) : Tx unit :=
  found ← query (fun d => images d !! image_name);
  match found with
  | None => fail NotFound
  | Some r => put_image image_name (mkImageRow (gr_url r) (gr_kind r) (gr_pinned_checksum r) (Some checksum))
  end.

(** [ORDER BY fetched_at DESC, checksum] and [ORDER BY fetched_at, checksum]. *)
Definition newest_version (a b : string * VersionRow) : bool :=
  text_lt (vr_fetched_at b.2) (vr_fetched_at a.2) ||
  (bool_decide (vr_fetched_at a.2 = vr_fetched_at b.2) && text_lt a.1 b.1).
Definition oldest_version (a b : string * VersionRow) : bool :=
  text_lt (vr_fetched_at a.2) (vr_fetched_at b.2) ||
  (bool_decide (vr_fetched_at a.2 = vr_fetched_at b.2) && text_lt a.1 b.1).

Definition scan_versions (found : list (string * VersionRow)) : result StoreError (list ImageVersion) :=
  mapM (fun kv => scan_image_version kv.1 kv.2) found.

(** [Store::image_versions]. *)
Definition versions_of (image_name : string) : Tx (list ImageVersion) :=
  found ← query (fun d => sort_by newest_version
    (rows (fun _ v => bool_decide (vr_image_name v = image_name)) (image_versions d)));
  lift_res (scan_versions found).

(** [Store::all_image_versions]. *)
Definition all_image_versions : Tx (list ImageVersion) :=
  found ← query (fun d => sort_by newest_version (map_to_list (image_versions d)));
  lift_res (scan_versions found).

(** The versions no instance is based on and no image points at. *)
Definition unused_version (d : Db) (checksum : string) (_ : VersionRow) : bool :=
  negb (exists_row (fun _ i => bool_decide (in_base_checksum i = checksum)) (instances d)) &&
  negb (exists_row (fun _ i => bool_decide (gr_current_checksum i = Some checksum)) (images d)).

(** [Store::unused_image_versions]. *)
Definition unused_image_versions : Tx (list ImageVersion) :=
  found ← query (fun d => sort_by oldest_version (rows (unused_version d) (image_versions d)));
  lift_res (scan_versions found).

(** [Store::delete_image_version]: the foreign keys of [instances] and [images]
    refuse it, the source rows cascade. *)
Definition delete_image_version (checksum : string) : Tx unit :=
  found ← query (fun d => image_versions d !! checksum);
  match found with
  | None => fail NotFound
  | Some _ =>
      _ ← require (fun d =>
            negb (referenced (instances d) (fun _ i => Some (in_base_checksum i)) checksum) &&
            negb (referenced (images d) (fun _ i => gr_current_checksum i) checksum))
            (SqlFailure ForeignKey);
      modify (fun d => set_sources (filter (fun kv => kv.2 <> checksum)) (set_versions (delete checksum) d))
  end.
End Images.

(** ** The tables stay well-formed *)

Lemma referenced_false {K V P} `{Countable K, EqDecision P} (child : gmap K V) (col : K -> V -> option P) p :
  referenced child col p = false <-> forall k v, child !! k = Some v -> col k v <> Some p.
Proof. unfold referenced. rewrite exists_row_false. by setoid_rewrite bool_decide_eq_false. Qed.

(** A parent row nothing names may go. *)
Lemma fk_ok_delete_parent {K V P W} `{Countable K, Countable P} (child : gmap K V)
    (col : K -> V -> option P) (parent : gmap P W) p :
  (forall k v, child !! k = Some v -> col k v <> Some p) ->
  fk_ok child col parent -> fk_ok child col (delete p parent).
Proof.
  intros Hno Hf k v q Hl Hc. rewrite lookup_delete_ne; [by eapply Hf|]. intros <-. by eapply Hno.
Qed.

(** A cascade removes the child rows that named the parent. *)
Lemma fk_ok_cascade {K V P W} `{Countable K, Countable P} (child : gmap K V)
    (col : K -> V -> option P) (parent : gmap P W) p (keep : K * V -> Prop) `{!forall kv, Decision (keep kv)} :
  (forall k v, col k v = Some p -> ~ keep (k, v)) ->
  fk_ok child col parent -> fk_ok (filter keep child) col (delete p parent).
Proof.
  intros Hno Hf k v q [Hl Hk]%map_lookup_filter_Some Hc. rewrite lookup_delete_ne; [by eapply Hf|].
  intros <-. by eapply Hno.
Qed.

Lemma put_image_keeps_wf name row : keeps_wf (put_image name row).
Proof.
  unfold put_image. apply keeps_wf_bind; [wf_steps|]. intros _. apply keeps_wf_guarded.
  intros d Hd Hr. revert Hd. wf_table; try (by apply fk_ok_insert);
    (eapply fk_ok_parent; [intros p; apply is_Some_insert|done]).
Qed.
#[export] Hint Resolve put_image_keeps_wf : bento_wf.

Lemma insert_image_keeps_wf i : keeps_wf (insert_image i).
Proof. unfold insert_image. wf_steps. Qed.
Lemma upsert_image_keeps_wf i : keeps_wf (upsert_image i).
Proof. unfold upsert_image. wf_steps. Qed.
Lemma set_current_checksum_keeps_wf name checksum : keeps_wf (set_current_checksum name checksum).
Proof. unfold set_current_checksum. wf_steps. Qed.

Lemma add_image_version_keeps_wf `{TimeFormat} v : keeps_wf (add_image_version v).
Proof.
  intros d Hd. unfold add_image_version, lift_res, require, modify, mbind, ST_bind.
  destruct (to_sql_int _) as [size|]; [|done]. destruct (format_time _) as [at_|]; [|done].
  destruct (_ && _) eqn:Hu; [|done]. destruct (ref_ok _ _) eqn:Hr; [|done]. cbn.
  apply andb_true_iff in Hu as [_ Hp]. revert Hd.
  wf_table; try (by apply fk_ok_insert); try (by apply unique_col_insert);
    (eapply fk_ok_parent; [intros p; apply is_Some_insert|done]).
Qed.

Lemma record_image_source_keeps_wf name digest checksum : keeps_wf (record_image_source name digest checksum).
Proof.
  apply keeps_wf_guarded. intros d Hd. rewrite andb_true_iff. intros [Hi Hv]. revert Hd.
  wf_table; by apply fk_ok_insert.
Qed.

Lemma delete_unbuilt_image_keeps_wf name : keeps_wf (delete_unbuilt_image name).
Proof.
  intros d Hd. unfold delete_unbuilt_image, query, mbind, ST_bind.
  destruct (bool_decide _) eqn:Hb; [|done]. cbn. apply bool_decide_eq_true in Hb.
  destruct (images d !! name) as [r|]; [|done]. injection Hb as Hb. unfold unbuilt in Hb.
  rewrite !andb_true_iff, !negb_true_iff, !exists_row_false in Hb. destruct Hb as [[_ Hv] Hi].
  setoid_rewrite bool_decide_eq_false in Hv. setoid_rewrite bool_decide_eq_false in Hi.
  revert Hd. wf_table.
  - eapply fk_ok_subseteq; [apply delete_subseteq|done].
  - apply fk_ok_delete_parent; [|done]. intros k v Hl [= Hn]. by eapply Hv.
  - apply fk_ok_cascade; [|done]. intros [k1 k2] v [= Hn]. cbn. tauto.
  - eapply fk_ok_subseteq; [apply map_filter_subseteq|done].
  - apply fk_ok_delete_parent; [|done]. intros k v Hl [= Hn]. by eapply Hi.
Qed.

Lemma delete_image_version_keeps_wf checksum : keeps_wf (delete_image_version checksum).
Proof.
  unfold delete_image_version. apply keeps_wf_bind; [wf_steps|]. intros [r|]; [|wf_steps].
  apply keeps_wf_guarded. intros d Hd. rewrite andb_true_iff, !negb_true_iff, !referenced_false.
  intros [Hi Hg]. revert Hd. wf_table.
  - by apply fk_ok_delete_parent.
  - eapply fk_ok_subseteq; [apply delete_subseteq|done].
  - by apply unique_col_delete.
  - eapply fk_ok_subseteq; [apply map_filter_subseteq|done].
  - apply fk_ok_cascade; [|done]. intros [k1 k2] v [= Hn]. cbn. tauto.
  - by apply fk_ok_delete_parent.
Qed.

(** ** Properties *)

Section Properties.
Context `{TimeFormat}.

Lemma unused_version_spec d checksum r :
  unused_version d checksum r =
  negb (referenced (instances d) (fun _ i => Some (in_base_checksum i)) checksum) &&
  negb (referenced (images d) (fun _ i => gr_current_checksum i) checksum).
Proof.
  unfold unused_version. f_equal. f_equal. apply eq_true_iff_eq. unfold referenced.
  rewrite !exists_row_true. setoid_rewrite bool_decide_eq_true. naive_solver.
Qed.

(** The image store may delete exactly what it is told is unused: the
    deletion of a version that [unused_image_versions] lists succeeds, and
    of any other version it is refused and changes nothing.  A version that
    is an instance's backing file is never deleted. *)
Theorem deletable_iff_unused (checksum : string) (listed : list ImageVersion) (d : Db) :
  unused_image_versions d = (Ok listed, d) ->
  ((exists v, v ∈ listed /\ iv_checksum v = checksum) <->
   fst (delete_image_version checksum d) = Ok tt) /\
  (fst (delete_image_version checksum d) = Ok tt ->
   forall uuid i, instances d !! uuid = Some i -> in_base_checksum i <> checksum) /\
  (fst (delete_image_version checksum d) <> Ok tt -> snd (delete_image_version checksum d) = d).
Proof.
  intros Hs0%(f_equal fst). unfold unused_image_versions, query, lift_res, mbind, ST_bind in Hs0. cbn [fst] in Hs0.
  assert (Hl : forall c, (exists v, v ∈ listed /\ iv_checksum v = c) <->
    exists r, image_versions d !! c = Some r /\ unused_version d c r = true).
  { intros c. unfold scan_versions in Hs0. split.
    - intros (v & Hin & <-). apply (mapM_Ok_elem _ _ _ _ Hs0) in Hin as ([k r] & Hin & Hscan).
      rewrite elem_of_sort_by, elem_of_rows in Hin. cbn in Hscan. unfold scan_image_version in Hscan.
      result_inv. subst v. eauto.
    - intros (r & Hr). rewrite <-elem_of_rows, <-(elem_of_sort_by oldest_version) in Hr.
      apply mapM_Ok in Hs0. apply list_elem_of_lookup in Hr as [n Hn].
      destruct (Forall2_lookup_l _ _ _ _ _ Hs0 Hn) as (v & Hv & Hscan). exists v.
      split; [by eapply list_elem_of_lookup_2|]. cbn in Hscan. unfold scan_image_version in Hscan.
      result_inv. by subst v. }
  rewrite Hl. setoid_rewrite unused_version_spec.
  unfold delete_image_version, query, require, modify, mbind, ST_bind, fail.
  destruct (image_versions d !! checksum) as [r|]; cbn; [|naive_solver].
  destruct (_ && _) eqn:Hb; cbn; (split_and!; [naive_solver| |done]); [|done]. intros _.
  apply andb_true_iff in Hb as [Hi%negb_true_iff _]. rewrite referenced_false in Hi. naive_solver.
Qed.

Lemma put_image_run name row (k : ImageKind) d :
  gr_kind row = as_str k -> ref_ok (image_versions d) (gr_current_checksum row) = true ->
  put_image name row d = (Ok tt, set_images <[name := row]> d).
Proof.
  intros Hk Hr. unfold put_image, require, modify, mbind, ST_bind.
  replace (enum_text ImageKind (gr_kind row)) with true; [by rewrite Hr|].
  unfold enum_text. by rewrite Hk, from_str_as_str.
Qed.

(** A configuration reload cannot roll an image back: it replaces the
    source of an image and keeps the version it points at, an addition never
    replaces an entry, and only pointing it at a version moves it. *)
Theorem reload_keeps_current (i : Image) (d : Db) :
  wf_db d ->
  exists d', upsert_image i d = (Ok tt, d') /\
    image (img_name i) d' =
      (Ok (mkImage (img_name i) (img_url i) (img_kind i) (img_pinned_checksum i)
             (images d !! img_name i ≫= gr_current_checksum)), d') /\
    (forall name, name <> img_name i -> images d' !! name = images d !! name) /\
    (forall other, img_name other = img_name i -> insert_image other d' = (Ok false, d')) /\
    (forall checksum, is_Some (image_versions d !! checksum) ->
       exists d2, set_current_checksum (img_name i) checksum d' = (Ok tt, d2) /\
         image (img_name i) d2 =
           (Ok (mkImage (img_name i) (img_url i) (img_kind i) (img_pinned_checksum i) (Some checksum)), d2)).
Proof.
  intros Hd. set (row := mkImageRow (img_url i) (as_str (img_kind i)) (img_pinned_checksum i)
    (images d !! img_name i ≫= gr_current_checksum)).
  assert (Hup : upsert_image i d = (Ok tt, set_images <[img_name i := row]> d)).
  { unfold upsert_image, query, mbind, ST_bind, row.
    destruct (images d !! img_name i) as [r|] eqn:Hl; [|by apply (put_image_run _ _ (img_kind i))].
    apply (put_image_run _ _ (img_kind i)); [done|]. unfold ref_ok, with_source. cbn.
    destruct (gr_current_checksum r) as [c|] eqn:Hc; [|done].
    rewrite bool_decide_true; [done|]. by eapply (wf_image_current d Hd). }
  exists (set_images <[img_name i := row]> d).
  assert (Himage : forall c d', images d' !! img_name i = Some (mkImageRow (img_url i) (as_str (img_kind i))
      (img_pinned_checksum i) c) ->
    image (img_name i) d' = (Ok (mkImage (img_name i) (img_url i) (img_kind i) (img_pinned_checksum i) c), d')).
  { intros c d' Hl. unfold image, query, lift_res, mbind, ST_bind. rewrite Hl. unfold scan_image.
    cbn [gr_kind]. by rewrite parse_enum_as_str. }
  split_and!; [done|by apply Himage; cbn; rewrite lookup_insert_eq| | |].
  - intros name Hne. cbn. by rewrite lookup_insert_ne.
  - intros other Hn. unfold insert_image, query, mbind, ST_bind. rewrite Hn. cbn. by rewrite lookup_insert_eq.
  - intros checksum Hv. eexists. split.
    + unfold set_current_checksum, query, mbind, ST_bind. cbn [images set_images].
      rewrite lookup_insert_eq. apply (put_image_run _ _ (img_kind i)); [done|].
      cbn. by rewrite bool_decide_true.
    + apply Himage. cbn. by rewrite lookup_insert_eq.
Qed.

(** A recorded version is found as it was recorded, by its checksum and
    by the source digest it was built from. *)
Theorem version_round_trip (v : ImageVersion) (image_name digest : string) (d d1 d2 : Db) :
  0 <= iv_size v -> add_image_version v d = (Ok tt, d1) ->
  record_image_source image_name digest (iv_checksum v) d1 = (Ok tt, d2) ->
  image_version (iv_checksum v) d1 = (Ok v, d1) /\
  image_version_for_source image_name digest d2 = (Ok (Some v), d2) /\
  image_versions d !! iv_checksum v = None.
Proof.
  intros Hsize Hadd Hrec. unfold add_image_version in Hadd. tx_inv.
  apply to_sql_int_Ok in Hs as [_ ->]. apply andb_true_iff in Hs1 as [Hnew%bool_decide_eq_true _].
  unfold record_image_source in Hrec. tx_inv.
  assert (Hscan : scan_image_version (iv_checksum v) (mkVersionRow (iv_image_name v) (iv_path v) (iv_size v)
    (as_str (iv_kind v)) (iv_source_digest v) v1) = Ok v).
  { unfold scan_image_version. cbn [vr_size vr_kind vr_fetched_at]. unfold from_sql_int.
    destruct (Z.ltb_spec (iv_size v) 0); [lia|]. rewrite parse_enum_as_str, (parse_format_time _ _ Hs0).
    by destruct v. }
  split_and!; [| |done].
  - unfold image_version, query, lift_res, mbind, ST_bind. cbn [image_versions set_versions].
    by rewrite lookup_insert_eq, Hscan.
  - unfold image_version_for_source, query, lift_res, mbind, ST_bind.
    cbn [image_versions set_versions image_source_versions set_sources].
    rewrite lookup_insert_eq. cbn [option_bind]. rewrite lookup_insert_eq. cbn [option_bind opt_res fst snd].
    by rewrite Hscan.
Qed.
End Properties.

(** ** Witnesses *)

#[local] Existing Instance decimal_time.

Definition spare_version : ImageVersion := mkImageVersion "def" "debian" "/images/def" 5 Qcow2 (Some "sha256:1") 9.
Definition small_db_spare : Db := snd (add_image_version spare_version small_db_1).
Definition small_db_source : Db := snd (record_image_source "debian" "sha256:1" "def" small_db_spare).

Lemma deletable_iff_unused_witness :
  unused_image_versions small_db_spare = (Ok [spare_version], small_db_spare) /\
  fst (delete_image_version "def" small_db_spare) = Ok tt /\
  fst (delete_image_version "abc" small_db_spare) = Err (SqlFailure ForeignKey).
Proof.
  assert (Hu : unused_image_versions small_db_spare = (Ok [spare_version], small_db_spare))
    by (vm_compute; reflexivity).
  split_and!; [exact Hu| |vm_compute; reflexivity].
  apply (proj1 (deletable_iff_unused "def" [spare_version] small_db_spare Hu)).
  exists spare_version. split; [left|reflexivity].
Defined.

Lemma reload_keeps_current_witness :
  exists d', upsert_image (mkImage "debian" "https://mirror" Oci None None) small_db = (Ok tt, d') /\
    image "debian" d' = (Ok (mkImage "debian" "https://mirror" Oci None None), d').
Proof.
  destruct (reload_keeps_current (mkImage "debian" "https://mirror" Oci None None) small_db wf_small_db)
    as (d' & Hu & Hi & _). exists d'. split; [exact Hu|exact Hi].
Defined.

Lemma version_round_trip_witness :
  image_version_for_source "debian" "sha256:1" small_db_source = (Ok (Some spare_version), small_db_source).
Proof.
  apply (version_round_trip spare_version "debian" "sha256:1" small_db_1 small_db_spare small_db_source);
    [cbn; lia|vm_compute; reflexivity|vm_compute; reflexivity].
Defined.
