(* ===== verification/Store.v ===== *)
(** * Store: every change to the database, in sequence

    [crates/store] as a whole: the operations of [Instances], [Accounts],
    [Runners] and [Images] that write, as one alphabet; [exec] runs one of
    them as [Store::with_tx] and [Store::with_conn] do, one at a time on the
    one connection; a [Trace] is any sequence of them under a clock that does
    not go back, as several processes sharing the file produce it. *)

From Stdlib Require Import ZArith Lia Sorted.
From S2P Require Import Prelude Text Types Ipv4 Db Instances Accounts Runners Images.
Open Scope Z_scope.

(** ** The operations that write *)

Inductive Op : Type :=
  | CreateInstance (i : Instance) (cooldown : Z) (capacity : Capacity)
  | DeleteInstance (uuid : string)
  | RenameInstance (uuid name : string) (cooldown : Z)
  | Resize (uuid : string) (vcpu memory disk : Z) (nested : bool) (capacity : Capacity)
  | SetDesiredState (uuid : string) (state : DesiredState)
  | SetObservedState (uuid : string) (state : State)
  | SetVisibility (uuid : string) (visibility : Visibility)
  | SetHttpPort (uuid : string) (port : Z)
  | TouchLastSeen (uuid : string)
  | UpdateObservedStates (states : list (string * State))
  | AddShare (uuid : string) (user : Z)
  | RemoveShare (uuid : string) (user : Z)
  | RegisterUser (name email : string) (oidc : option string) (range_ : Ipv4Prefix) (dedupe : bool)
  | AddSshKey (user : Z) (key fingerprint comment : string)
  | DeleteSshKey (user key : Z)
  | CreateToken (user : Z) (hash : string) (expires : option Z)
  | DeleteToken (user token : Z)
  | DeleteTokenById (token : Z)
  | CreatePairing (hash key fingerprint comment : string) (expires : Z)
  | LinkPairing (id user : Z)
  | EnsureHost (machine name uri : string)
  | RegisterRunner (name endpoint underlay : string)
  | SetRunnerPrefix (prefix : Z)
  | ClaimSlot (slot host : Z)
  | AcquireLease (holder : string) (ttl : Z)
  | RenewLease (holder : string) (ttl : Z)
  | ReleaseLease (holder : string)
  | NextGeneration (object : string) (epoch : Z)
  | ObserveHost (host : Z) (seen : HostSeen)
  | RecordHostImage (host : Z) (image_name checksum : string)
  | RecordLocalVersions (host : Z)
  | InsertImage (i : Image)
  | UpsertImage (i : Image)
  | AddImageVersion (v : ImageVersion)
  | RecordImageSource (image_name digest checksum : string)
  | DeleteUnbuiltImage (name : string)
  | SetCurrentChecksum (image_name checksum : string)
  | DeleteImageVersion (checksum : string).

(** What a caller is told. *)
Inductive Reply : Type :=
  | Finished
  | Leased (l : Lease)
  | Numbered (generation : Z).

Definition finish {A} (m : Tx A) : Tx Reply := _ ← m; mret Finished.

Section Store.
Context `{TimeFormat}.

(** One operation; [t] and [t'] are its first and its second clock reading. *)
Definition exec (op : Op) (t t' : Z) : Tx Reply :=
  match op with
  | CreateInstance i cooldown capacity => finish (create_instance i cooldown capacity t t')
  | DeleteInstance uuid => finish (delete_instance uuid t)
  | RenameInstance uuid name cooldown => finish (rename_instance uuid name cooldown t t')
  | Resize uuid vcpu memory disk nested capacity => finish (resize uuid vcpu memory disk nested capacity)
  | SetDesiredState uuid state => finish (set_desired_state uuid state)
  | SetObservedState uuid state => finish (set_observed_state uuid state)
  | SetVisibility uuid visibility => finish (set_visibility uuid visibility)
  | SetHttpPort uuid port => finish (set_http_port uuid port)
  | TouchLastSeen uuid => finish (touch_last_seen uuid t)
  | UpdateObservedStates states => finish (update_observed_states states)
  | AddShare uuid user => finish (add_share uuid user t)
  | RemoveShare uuid user => finish (remove_share uuid user)
  | RegisterUser name email oidc range_ dedupe => finish (register name email oidc range_ dedupe t)
  | AddSshKey user key fingerprint comment => finish (add_ssh_key user key fingerprint comment t)
  | DeleteSshKey user key => finish (delete_ssh_key user key)
  | CreateToken user hash expires => finish (create_token user hash expires)
  | DeleteToken user token => finish (delete_token user token)
  | DeleteTokenById token => finish (delete_token_by_id token)
  | CreatePairing hash key fingerprint comment expires =>
      finish (create_pairing hash key fingerprint comment expires t)
  | LinkPairing id user => finish (link_pairing id user t t')
  | EnsureHost machine name uri => finish (ensure_host machine name uri t)
  | RegisterRunner name endpoint underlay => finish (register_runner name endpoint underlay t)
  | SetRunnerPrefix prefix => finish (set_runner_prefix prefix)
  | ClaimSlot slot host_id => finish (claim_slot slot host_id)
  | AcquireLease holder ttl => l ← acquire_lease holder ttl t; mret (Leased l)
  | RenewLease holder ttl => l ← renew_lease holder ttl t; mret (Leased l)
  | ReleaseLease holder => finish (release_lease holder)
  | NextGeneration object epoch => g ← next_dispatch_generation object epoch; mret (Numbered g)
  | ObserveHost host_id seen => finish (observe_host host_id seen t)
  | RecordHostImage host_id image_name checksum => finish (record_host_image host_id image_name checksum t)
  | RecordLocalVersions host_id => finish (record_local_image_versions host_id t)
  | InsertImage i => finish (insert_image i)
  | UpsertImage i => finish (upsert_image i)
  | AddImageVersion v => finish (add_image_version v)
  | RecordImageSource image_name digest checksum => finish (record_image_source image_name digest checksum)
  | DeleteUnbuiltImage name => finish (delete_unbuilt_image name)
  | SetCurrentChecksum image_name checksum => finish (set_current_checksum image_name checksum)
  | DeleteImageVersion checksum => finish (delete_image_version checksum)
  end.

(** One entry of a history: the operation, its clock readings, its answer. *)
Record Event : Type := mkEvent {
  ev_op : Op; ev_start : Z; ev_end : Z; ev_reply : result StoreError Reply
}.

(** Histories, from a database at a time to a database at a later time. *)
Inductive Trace (d0 : Db) (c0 : Z) : list Event -> Db -> Z -> Prop :=
  | trace_start : Trace d0 c0 [] d0 c0
  | trace_step es d c op t t' r d' :
      Trace d0 c0 es d c -> c <= t -> t <= t' -> exec op t t' d = (r, d') ->
      Trace d0 c0 (es ++ [mkEvent op t t' r]) d' t'.

(** ** Well-formedness *)

Lemma finish_keeps_wf {A} (m : Tx A) : keeps_wf m -> keeps_wf (finish m).
Proof. intros Hm. unfold finish. apply keeps_wf_bind; [done|]. intros a. apply keeps_wf_ret. Qed.

Lemma exec_keeps_wf op t t' : keeps_wf (exec op t t').
Proof.
  destruct op; cbn [exec]; try apply finish_keeps_wf;
    try (apply keeps_wf_bind; [|intros ?; apply keeps_wf_ret]).
  all: auto using create_instance_keeps_wf, delete_instance_keeps_wf, rename_instance_keeps_wf,
    resize_keeps_wf, touch_last_seen_keeps_wf, update_observed_states_keeps_wf, add_share_keeps_wf,
    remove_share_keeps_wf, register_keeps_wf, insert_ssh_key_keeps_wf, delete_ssh_key_keeps_wf,
    create_token_keeps_wf, delete_token_keeps_wf, delete_token_by_id_keeps_wf, create_pairing_keeps_wf,
    link_pairing_keeps_wf, ensure_host_keeps_wf, register_runner_keeps_wf, set_runner_prefix_keeps_wf,
    claim_slot_keeps_wf, acquire_lease_keeps_wf, renew_lease_keeps_wf, release_lease_keeps_wf,
    next_dispatch_generation_keeps_wf, observe_host_keeps_wf, record_host_image_keeps_wf,
    record_local_image_versions_keeps_wf, insert_image_keeps_wf, upsert_image_keeps_wf,
    add_image_version_keeps_wf, record_image_source_keeps_wf, delete_unbuilt_image_keeps_wf,
    set_current_checksum_keeps_wf, delete_image_version_keeps_wf.
  all: apply update_instance_keeps_wf.
Qed.

Lemma empty_db_wf : wf_db empty_db.
Proof. constructor; try apply unique_col_empty; try apply fk_ok_empty. cbn. lia. Qed.

Lemma trace_keeps_wf d0 c0 es d c : wf_db d0 -> Trace d0 c0 es d c -> wf_db d.
Proof.
  intros Hd0. induction 1 as [|es d c op t t' r d' _ IH _ _ Hx]; [done|].
  pose proof (exec_keeps_wf op t t' d IH) as Hw. by rewrite Hx in Hw.
Qed.
End Store.

(** ** What an operation leaves alone *)

(** Who holds which name. *)
Definition labels (d : Db) : gmap string (string * Z) :=
  (fun r => (in_name r, in_owner_id r)) <$> instances d.

(** The lease, the generations and the names are as they were. *)
Definition same_lease (d d' : Db) : Prop := controller_lease d' = controller_lease d.
Definition same_generations (d d' : Db) : Prop := dispatch_generations d' = dispatch_generations d.
Definition same_names (d d' : Db) : Prop :=
  labels d' = labels d /\ released_names d' = released_names d.
Definition quiet (d d' : Db) : Prop :=
  same_lease d d' /\ same_generations d d' /\ same_names d d'.

#[global] Instance quiet_preorder : PreOrder quiet.
Proof.
  split; [done|]. intros a b c (H1 & H2 & H3 & H4) (G1 & G2 & G3 & G4).
  unfold quiet, same_lease, same_generations, same_names in *. split_and!; congruence.
Qed.

(** Where every instance is placed, and who owns the slots. *)
Definition place (r : InstanceRow) : Z * string * option Z := (in_host_id r, in_address r, in_slot r).
Definition places (d : Db) : gmap string (Z * string * option Z) := place <$> instances d.
Definition same_places (d d' : Db) : Prop :=
  places d' = places d /\ runner_slots d' = runner_slots d /\ deployment_prefix d' = deployment_prefix d.
Definition still (d d' : Db) : Prop := quiet d d' /\ same_places d d'.

#[global] Instance still_preorder : PreOrder still.
Proof.
  split; [done|]. intros a b c [H1 (H2 & H3 & H4)] [G1 (G2 & G3 & G4)].
  split; [by transitivity b|]. unfold same_places. split_and!; congruence.
Qed.

(** As [same_places], but slots may be added. *)
Definition grown (d d' : Db) : Prop :=
  places d' = places d /\ runner_slots d ⊆ runner_slots d' /\ deployment_prefix d' = deployment_prefix d.

#[global] Instance grown_preorder : PreOrder grown.
Proof.
  split; [done|]. intros a b c (H1 & H2 & H3) (G1 & G2 & G3). unfold grown.
  split_and!; [congruence|by etrans|congruence].
Qed.

Section Frames.
Context (R : Db -> Db -> Prop) `{!PreOrder R}.

Lemma preserves_tx {A} (m : Tx A) : preserves R m -> preserves R (with_tx m).
Proof.
  intros Hm d. unfold with_tx. specialize (Hm d). destruct (m d) as [[a|e] d1]; cbn in *; [done|reflexivity].
Qed.
Lemma preserves_reads_only {A} (m : Tx A) : reads_only m -> preserves R m.
Proof. intros Hm d. by rewrite Hm. Qed.
Lemma preserves_modify f : (forall d, R d (f d)) -> preserves R (modify f).
Proof. intros Hf d. apply Hf. Qed.
Lemma preserves_for_each {A} (f : A -> Tx unit) l :
  (forall x, preserves R (f x)) -> preserves R (for_each f l).
Proof.
  intros Hf. induction l as [|x l IH]; [by apply preserves_ret, _|]. apply preserves_bind; [tc_solve|done|auto].
Qed.
End Frames.

(** [fr_steps] shows that a chain of statements keeps one of the relations. *)
Ltac fr_steps :=
  repeat first [solve [auto with bento_fr nocore]
    | apply preserves_reads_only; [tc_solve|]; solve [auto with bento_ro nocore]
    | apply preserves_modify; intros ?;
      unfold still, quiet, same_lease, same_generations, same_names, same_places, grown; solve [cbn; done]
    | apply preserves_tx; [tc_solve|]
    | apply preserves_bind; [tc_solve| |intros ?]
    | progress case_match].

Create HintDb bento_fr.

(** A change of one instance row that keeps its name and owner, or these and
    its place. *)
Definition keeps_label (f : InstanceRow -> InstanceRow) : Prop :=
  forall r, in_name (f r) = in_name r /\ in_owner_id (f r) = in_owner_id r.
Definition keeps_place (f : InstanceRow -> InstanceRow) : Prop :=
  forall r, place (f r) = place r.

Lemma put_instance_quiet uuid f d r :
  keeps_label f -> instances d !! uuid = Some r -> quiet d (snd (put_instance uuid (f r) d)).
Proof.
  intros Hf Hl. destruct (Hf r) as [Hn Ho]. destruct (put_instance uuid (f r) d) as [[[]|e] d'] eqn:Hp; cbn.
  - apply put_instance_Ok in Hp as (_ & _ & _ & _ & ->).
    unfold quiet, same_lease, same_generations, same_names, labels. cbn. split_and!; try done.
    rewrite fmap_insert, Hn, Ho. apply insert_id. by rewrite lookup_fmap, Hl.
  - by apply put_instance_Err in Hp as ->.
Qed.

Lemma put_instance_still uuid f d r :
  keeps_label f -> keeps_place f -> instances d !! uuid = Some r ->
  still d (snd (put_instance uuid (f r) d)).
Proof.
  intros Hf Hp Hl. split; [by apply put_instance_quiet|].
  destruct (put_instance uuid (f r) d) as [[[]|e] d'] eqn:Hx; cbn.
  - apply put_instance_Ok in Hx as (_ & _ & _ & _ & ->). unfold same_places, places. cbn. split_and!; try done.
    rewrite fmap_insert, Hp. apply insert_id. by rewrite lookup_fmap, Hl.
  - by apply put_instance_Err in Hx as ->.
Qed.

Lemma update_instance_row_frame (R : Db -> Db -> Prop) `{!PreOrder R} uuid f :
  (forall d r, instances d !! uuid = Some r -> R d (snd (put_instance uuid (f r) d))) ->
  preserves R (update_instance_row uuid f).
Proof.
  intros Hf d. unfold update_instance_row, query, mbind, ST_bind.
  destruct (instances d !! uuid) as [r|] eqn:Hl; [|reflexivity].
  specialize (Hf d r Hl). by destruct (put_instance uuid (f r) d) as [[[]|e] d'].
Qed.

Lemma update_instance_row_still uuid f :
  keeps_label f -> keeps_place f -> preserves still (update_instance_row uuid f).
Proof. intros. apply update_instance_row_frame; [tc_solve|]. intros. by apply put_instance_still. Qed.

Lemma update_instance_still uuid f : keeps_label f -> keeps_place f -> preserves still (update_instance uuid f).
Proof.
  intros Hf Hp. unfold update_instance. apply preserves_bind; [tc_solve|by apply update_instance_row_still|].
  intros n. fr_steps.
Qed.

Section Still.
Context `{TimeFormat}.

Lemma get_instance_still uuid : preserves still (get_instance_tx uuid).
Proof. apply (preserves_reads_only still), get_instance_reads. Qed.
Lemma check_capacity_still host_id exclude memory disk capacity :
  preserves still (check_capacity_tx host_id exclude memory disk capacity).
Proof. apply (preserves_reads_only still), check_capacity_reads. Qed.
#[local] Hint Resolve get_instance_still check_capacity_still : bento_fr.

Lemma resize_still uuid vcpu memory disk nested capacity :
  preserves still (resize uuid vcpu memory disk nested capacity).
Proof.
  assert (forall v m k n, preserves still (update_instance_row uuid (with_size v m k n)))
    by (intros; by apply update_instance_row_still).
  unfold resize. fr_steps.
Qed.

Lemma touch_last_seen_still uuid now : preserves still (touch_last_seen uuid now).
Proof.
  unfold touch_last_seen. apply preserves_bind; [tc_solve|fr_steps|]. intros v. by apply update_instance_still.
Qed.

Lemma observe_all_still states : preserves still (observe_all states).
Proof.
  induction states as [|[uuid state] states IH]; [fr_steps|]. cbn [observe_all].
  apply preserves_bind; [tc_solve|by apply update_instance_row_still|done].
Qed.
#[local] Hint Resolve observe_all_still : bento_fr.

Lemma update_observed_states_still states : preserves still (update_observed_states states).
Proof. unfold update_observed_states. fr_steps. Qed.
Lemma add_share_still uuid user now : preserves still (add_share uuid user now).
Proof. unfold add_share. fr_steps. Qed.
Lemma remove_share_still uuid user : preserves still (remove_share uuid user).
Proof. unfold remove_share. fr_steps. Qed.

Lemma register_still name email oidc range_ dedupe now :
  preserves still (register name email oidc range_ dedupe now).
Proof.
  pose proof (fun n => preserves_reads_only still _ (available_name_reads n)).
  unfold register, insert_user. fr_steps.
Qed.
Lemma insert_ssh_key_still user key fingerprint comment now :
  preserves still (insert_ssh_key user key fingerprint comment now).
Proof. unfold insert_ssh_key. fr_steps. Qed.
#[local] Hint Resolve insert_ssh_key_still : bento_fr.
Lemma delete_ssh_key_still user key : preserves still (delete_ssh_key user key).
Proof. unfold delete_ssh_key. fr_steps. Qed.
Lemma create_token_still user hash expires : preserves still (create_token user hash expires).
Proof. unfold create_token. fr_steps. Qed.
Lemma delete_token_still user token : preserves still (delete_token user token).
Proof. unfold delete_token. fr_steps. Qed.
Lemma delete_token_by_id_still token : preserves still (delete_token_by_id token).
Proof. unfold delete_token_by_id. fr_steps. Qed.
Lemma create_pairing_still hash key fingerprint comment expires now :
  preserves still (create_pairing hash key fingerprint comment expires now).
Proof. unfold create_pairing. fr_steps. Qed.
Lemma link_pairing_still id user now now' : preserves still (link_pairing id user now now').
Proof. unfold link_pairing, claim_pairing. fr_steps. Qed.
Lemma ensure_host_quiet machine name uri now : preserves quiet (ensure_host machine name uri now).
Proof. unfold ensure_host, put_host, insert_slot, put_slot, host_where. fr_steps. Qed.
Lemma insert_slot_grown slot row : preserves grown (insert_slot slot row).
Proof.
  intros d. destruct (insert_slot slot row d) as [[u|e] d'] eqn:Hi; cbn.
  - apply insert_slot_Ok in Hi as [Hn ->]. split_and!; [done| |done]. by apply insert_subseteq.
  - revert Hi. unfold insert_slot, put_slot, require, modify, mbind, ST_bind.
    destruct (bool_decide _); [|by intros [= _ <-]]. destruct (enum_text _ _); [|by intros [= _ <-]].
    destruct (_ && _); by intros [= _ <-].
Qed.
#[local] Hint Resolve insert_slot_grown : bento_fr.

Lemma ensure_host_grown machine name uri now : preserves grown (ensure_host machine name uri now).
Proof. unfold ensure_host, put_host, host_where. fr_steps. Qed.

Lemma register_runner_still name endpoint underlay now :
  preserves still (register_runner name endpoint underlay now).
Proof. unfold register_runner, put_host, host_where. fr_steps. Qed.

Lemma renumber_slots_quiet old new : preserves quiet (renumber_slots old new).
Proof.
  unfold renumber_slots. do 3 (apply preserves_bind; [tc_solve|fr_steps|intros ?]).
  apply preserves_bind; [tc_solve| |intros _].
  { apply preserves_modify. intros d. unfold quiet, same_lease, same_generations, same_names, labels. cbn.
    by rewrite <-map_fmap_compose. }
  apply preserves_bind; [tc_solve|unfold clear_slots; fr_steps|intros _].
  apply preserves_bind; [tc_solve| |intros _].
  { apply (preserves_for_each quiet). intros [k r]. unfold insert_slot, put_slot. fr_steps. }
  apply preserves_bind; [tc_solve|fr_steps|intros held]. apply (preserves_for_each quiet). intros [uuid r].
  unfold place_one. case_match; [|fr_steps]. apply preserves_bind; [tc_solve|fr_steps|intros k].
  apply preserves_bind; [tc_solve|apply update_instance_row_frame; [tc_solve|]; intros; by apply put_instance_quiet|intros ?; fr_steps].
Qed.
#[local] Hint Resolve renumber_slots_quiet : bento_fr.

Lemma set_runner_prefix_quiet prefix : preserves quiet (set_runner_prefix prefix).
Proof. unfold set_runner_prefix. fr_steps. Qed.
Lemma claim_slot_quiet slot host_id : preserves quiet (claim_slot slot host_id).
Proof. unfold claim_slot, insert_slot, put_slot. fr_steps. Qed.
Lemma observe_host_still host_id seen now : preserves still (observe_host host_id seen now).
Proof. unfold observe_host, put_host. fr_steps. Qed.
Lemma record_host_image_still host_id image_name checksum now :
  preserves still (record_host_image host_id image_name checksum now).
Proof. unfold record_host_image. fr_steps. Qed.
Lemma record_local_image_versions_still host_id now :
  preserves still (record_local_image_versions host_id now).
Proof.
  unfold record_local_image_versions. apply (preserves_tx still).
  do 3 (apply preserves_bind; [tc_solve|fr_steps|intros ?]).
  apply preserves_bind; [tc_solve| |intros ?; fr_steps].
  apply (preserves_for_each still). intros kv. fr_steps.
Qed.
Lemma insert_image_still i : preserves still (insert_image i).
Proof. unfold insert_image, put_image. fr_steps. Qed.
Lemma upsert_image_still i : preserves still (upsert_image i).
Proof. unfold upsert_image, put_image. fr_steps. Qed.
Lemma add_image_version_still v : preserves still (add_image_version v).
Proof. unfold add_image_version. fr_steps. Qed.
Lemma record_image_source_still image_name digest checksum :
  preserves still (record_image_source image_name digest checksum).
Proof. unfold record_image_source. fr_steps. Qed.
Lemma delete_unbuilt_image_still name : preserves still (delete_unbuilt_image name).
Proof. unfold delete_unbuilt_image. fr_steps. Qed.
Lemma set_current_checksum_still image_name checksum :
  preserves still (set_current_checksum image_name checksum).
Proof. unfold set_current_checksum, put_image. fr_steps. Qed.
Lemma delete_image_version_still checksum : preserves still (delete_image_version checksum).
Proof. unfold delete_image_version. fr_steps. Qed.
End Still.

(** ** One step of a history *)

Section Steps.
Context `{TimeFormat}.

Lemma finish_frame {A} (R : Db -> Db -> Prop) `{!PreOrder R} (m : Tx A) :
  preserves R m -> preserves R (finish m).
Proof. intros Hm. unfold finish. apply preserves_bind; [tc_solve|done|]. intros a. by apply preserves_ret, _. Qed.

(** The operations that touch none of the parts watched. *)
Definition ordinary (op : Op) : bool :=
  match op with
  | CreateInstance _ _ _ | DeleteInstance _ | RenameInstance _ _ _ | EnsureHost _ _ _ | SetRunnerPrefix _
  | ClaimSlot _ _ | AcquireLease _ _ | RenewLease _ _ | ReleaseLease _ | NextGeneration _ _ => false
  | _ => true
  end.

Lemma exec_still op t t' : ordinary op = true -> preserves still (exec op t t').
Proof.
  destruct op; try done; intros _; cbn [exec]; (apply finish_frame; [tc_solve|]).
  all: auto using resize_still, touch_last_seen_still, update_observed_states_still, add_share_still,
    remove_share_still, register_still, insert_ssh_key_still, delete_ssh_key_still, create_token_still,
    delete_token_still, delete_token_by_id_still, create_pairing_still, link_pairing_still,
    register_runner_still, observe_host_still, record_host_image_still,
    record_local_image_versions_still, insert_image_still, upsert_image_still, add_image_version_still,
    record_image_source_still, delete_unbuilt_image_still, set_current_checksum_still,
    delete_image_version_still.
  all: by apply update_instance_still.
Qed.

Lemma delete_instance_Ok uuid now d i d' : delete_instance uuid now d = (Ok i, d') ->
  exists r text, instances d !! uuid = Some r /\ format_time now = Ok text /\
    i_name i = in_name r /\ i_owner_id i = in_owner_id r /\
    d' = set_released <[in_name r := (in_owner_id r, text)]>
           (set_shares (filter (fun kv => kv.1.1 <> uuid)) (set_instances (delete uuid) d)).
Proof.
  intros Hr. unfold delete_instance in Hr. tx_inv.
  apply get_instance_tx_Ok in Hs as (-> & r & Hl & Hscan).
  apply scan_instance_Ok in Hscan as (_ & Hn & Ho & _). unfold delete_instance_row in Hs0. tx_inv.
  apply release_name_tx_Ok in Hs1 as (text & Ht & _ & ->). exists r, text. by rewrite Hn, Ho.
Qed.

Lemma rename_instance_Ok uuid name cooldown now now' d u d' :
  rename_instance uuid name cooldown now now' d = (Ok u, d') ->
  exists r, instances d !! uuid = Some r /\
    (in_name r = name /\ d' = d \/
     in_name r <> name /\ claim_name_tx name (in_owner_id r) cooldown now d = (Ok tt, d) /\
     slot_owner_ok (with_name name r) d = true /\
     exists text, format_time now' = Ok text /\
       d' = set_released <[in_name r := (in_owner_id r, text)]>
              (set_instances <[uuid := with_name name r]> d)).
Proof.
  intros Hr. unfold rename_instance in Hr. tx_inv.
  apply get_instance_tx_Ok in Hs as (-> & r & Hl & Hscan).
  apply scan_instance_Ok in Hscan as (_ & Hn & Ho & _). exists r. split; [done|]. rewrite Hn, Ho in Hr.
  destruct (decide (in_name r = name)) as [He|Hne].
  - rewrite bool_decide_true in Hr by done. tx_inv. by left.
  - right. rewrite bool_decide_false in Hr by done. tx_inv.
    pose proof (reads_only_run _ _ _ _ (claim_name_reads _ _ _ _) Hs) as ->. split_and!; [done|done|..].
    + unfold update_instance_row in Hs0. tx_inv. rewrite Hl in Hs0. tx_inv.
      by apply put_instance_Ok in Hs1 as [Hok _].
    + apply update_instance_row_Ok in Hs0 as [(? & _)|(r' & Hl' & _ & _ & ->)]; [congruence|].
      apply release_name_tx_Ok in Hr as (text & Ht & _ & ->). exists text. split; [done|]. congruence.
Qed.

(** The operations on leases, generations and names. *)
Definition watched (op : Op) : bool :=
  match op with
  | CreateInstance _ _ _ | DeleteInstance _ | RenameInstance _ _ _ | AcquireLease _ _ | RenewLease _ _
  | ReleaseLease _ | NextGeneration _ _ => true
  | _ => false
  end.

Lemma exec_quiet op t t' d r d' : exec op t t' d = (r, d') -> watched op = false -> quiet d d'.
Proof.
  intros Hx Hw. assert (Hq : preserves quiet (exec op t t')).
  { destruct (ordinary op) eqn:Ho; [intros d0; by apply exec_still|].
    destruct op; try done; (apply finish_frame; [tc_solve|]);
      auto using ensure_host_quiet, set_runner_prefix_quiet, claim_slot_quiet. }
  specialize (Hq d). by rewrite Hx in Hq.
Qed.

(** A transaction that answers or changes nothing. *)
Lemma reply_run {A} (m : Tx A) (f : A -> Reply) d r d' :
  (a ← with_tx m; mret (f a)) d = (r, d') ->
  (exists a, with_tx m d = (Ok a, d') /\ r = Ok (f a)) \/ (exists e, r = Err e /\ d' = d).
Proof.
  rewrite ST_bind_run. intros [(a & d1 & Hm & [= <- <-])|(e & Hm & ->)]; [eauto|].
  right. exists e. by apply with_tx_Err in Hm.
Qed.

(** [reply_cases Hx] keeps the case in which the transaction committed. *)
Ltac reply_cases Hx :=
  apply reply_run in Hx as [(?a & Hx & ->)|(?e & -> & ->)]; [|done].

(** What each step does to the lease, to the generations and to the names. *)
Lemma exec_lease op t t' d r d' : exec op t t' d = (r, d') ->
  match op, r with
  | AcquireLease h ttl, Ok r => exists l, r = Leased l /\ acquire_lease h ttl t d = (Ok l, d')
  | RenewLease h ttl, Ok r => exists l, r = Leased l /\ renew_lease h ttl t d = (Ok l, d')
  | ReleaseLease h, Ok _ => release_lease h d = (Ok tt, d')
  | _, _ => same_lease d d'
  end.
Proof.
  intros Hx. destruct (watched op) eqn:Hw.
  2:{ apply exec_quiet in Hx as [Hl _]; [|done]. by destruct op. }
  destruct op; try done; cbn [exec] in Hx; clear Hw.
  all: reply_cases Hx.
  - by apply create_instance_Ok in Hx as (text & _ & _ & _ & _ & _ & _ & _ & ->).
  - by apply delete_instance_Ok in Hx as (r & text & _ & _ & _ & _ & ->).
  - by apply rename_instance_Ok in Hx as (r & _ & [[_ ->]|(_ & _ & _ & text & _ & ->)]).
  - eauto.
  - eauto.
  - by destruct a.
  - by apply next_dispatch_generation_Ok in Hx as (-> & _).
Qed.

Lemma exec_generations op t t' d r d' : exec op t t' d = (r, d') ->
  match op, r with
  | NextGeneration object epoch, Ok r =>
      exists g, r = Numbered g /\ next_dispatch_generation object epoch d = (Ok g, d')
  | _, _ => same_generations d d'
  end.
Proof.
  intros Hx. destruct (watched op) eqn:Hw.
  2:{ apply exec_quiet in Hx as (_ & Hl & _); [|done]. by destruct op. }
  destruct op; try done; cbn [exec] in Hx; clear Hw.
  all: reply_cases Hx.
  - by apply create_instance_Ok in Hx as (text & _ & _ & _ & _ & _ & _ & _ & ->).
  - by apply delete_instance_Ok in Hx as (r & text & _ & _ & _ & _ & ->).
  - by apply rename_instance_Ok in Hx as (r & _ & [[_ ->]|(_ & _ & _ & text & _ & ->)]).
  - by apply acquire_lease_Ok in Hx as (_ & _ & _ & _ & row & -> & _).
  - by apply renew_lease_Ok in Hx as (_ & _ & _ & row & -> & _).
  - unfold with_tx, modify in Hx. injection Hx as _ <-. by case_bool_decide.
  - eauto.
Qed.

(** The three operations on names. *)
Definition names_op (op : Op) : bool :=
  match op with CreateInstance _ _ _ | DeleteInstance _ | RenameInstance _ _ _ => true | _ => false end.

Lemma exec_names op t t' d r d' : exec op t t' d = (r, d') -> names_op op = false -> same_names d d'.
Proof.
  intros Hx Hn. destruct (watched op) eqn:Hw; [|by apply exec_quiet in Hx as (_ & _ & ?)].
  destruct op; try done; cbn [exec] in Hx; clear Hw Hn; reply_cases Hx.
  - by apply acquire_lease_Ok in Hx as (_ & _ & _ & _ & row & -> & _).
  - by apply renew_lease_Ok in Hx as (_ & _ & _ & row & -> & _).
  - unfold with_tx, modify in Hx. injection Hx as _ <-. by case_bool_decide.
  - by apply next_dispatch_generation_Ok in Hx as (-> & _).
Qed.
End Steps.

(** ** Properties of histories *)

(** The time until which a process may believe it holds the lease: the expiry
    of the last lease it was given, unless it released it since. *)
Definition grant (holder : string) (acc : option Z) (ev : Event) : option Z :=
  match ev_op ev, ev_reply ev with
  | AcquireLease h _, Ok (Leased l) | RenewLease h _, Ok (Leased l) =>
      if bool_decide (h = holder) then Some (l_expires_at l) else acc
  | ReleaseLease h, _ => if bool_decide (h = holder) then None else acc
  | _, _ => acc
  end.
Definition granted (es : list Event) (holder : string) : option Z := foldl (grant holder) None es.

(** The epochs handed out, and the generations of one object, in order. *)
Definition acquired_epoch (ev : Event) : option Z :=
  match ev_op ev, ev_reply ev with
  | AcquireLease _ _, Ok (Leased l) => Some (l_epoch l)
  | _, _ => None
  end.
Definition acquired (es : list Event) : list Z := omap acquired_epoch es.

Definition given_number (object : string) (ev : Event) : option Z :=
  match ev_op ev, ev_reply ev with
  | NextGeneration o _, Ok (Numbered g) => if bool_decide (o = object) then Some g else None
  | _, _ => None
  end.
Definition numbers (object : string) (es : list Event) : list Z := omap (given_number object) es.

(** A list that grows at its end by something larger than all of it. *)
Lemma sorted_snoc (l : list Z) x :
  StronglySorted Z.lt l -> (forall y, y ∈ l -> y < x) -> StronglySorted Z.lt (l ++ [x]).
Proof.
  induction 1 as [|y l Hs IH Hf]; intros Hx; cbn; [repeat constructor|].
  constructor; [apply IH; intros; apply Hx; set_solver|]. apply Forall_app. split; [done|].
  apply Forall_singleton, Hx. set_solver.
Qed.

Section Properties.
Context `{TimeFormat}.

(** The schema's constraints hold at the end of every history of the store:
    keys are unique, every reference is to a row that exists, and the runner
    prefix is in range. *)
Theorem every_history_well_formed (es : list Event) (d : Db) (c0 now : Z) :
  Trace empty_db c0 es d now -> wf_db d.
Proof. apply trace_keeps_wf, empty_db_wf. Qed.

(** A live grant is what the row says. *)
Lemma granted_row d0 c0 es d now : Trace d0 c0 es d now ->
  forall holder e, granted es holder = Some e -> now < e -> lease_row d holder e.
Proof.
  induction 1 as [|es d c op t t' r d' _ IH Hc Ht Hx]; [done|]. intros holder e Hg Hlt.
  unfold granted in Hg. rewrite foldl_app in Hg. fold (granted es holder) in Hg. cbn in Hg.
  assert (Hold : granted es holder = Some e -> lease_row d holder e) by (intros; apply IH; [done|lia]).
  assert (Hkeep : same_lease d d' -> granted es holder = Some e -> lease_row d' holder e)
    by (unfold lease_row, same_lease; intros ->; auto).
  apply exec_lease in Hx. unfold grant in Hg. cbn in Hg.
  destruct op; try (by apply Hkeep); destruct r as [r|]; try (by apply Hkeep).
  - destruct Hx as (l & -> & Ha). apply acquire_lease_Ok in Ha as (Hheld & -> & _ & Hrow & _).
    case_bool_decide as Hh; [subst; by injection Hg as <-|].
    destruct (Hheld _ _ (Hold Hg)); [by subst|lia].
  - destruct Hx as (l & -> & Ha). apply renew_lease_Ok in Ha as (Hheld & -> & Hrow & _).
    case_bool_decide as Hh; [subst; by injection Hg as <-|].
    destruct (Hold Hg) as [Hother _]. congruence.
  - case_bool_decide as Hh; [done|]. rewrite release_lease_run in Hx. injection Hx as <-.
    destruct (Hold Hg) as [Hother _]. rewrite bool_decide_false; [by apply Hold|]. congruence.
  - case_bool_decide as Hh; [done|]. by apply Hkeep.
Qed.

(** C16.  One controller at a time.  Whatever processes do to the store, no two
    of them are ever both inside the term of the last lease the store gave
    them: two processes with unexpired, unreleased leases are the same.  The
    clock the operations read does not go back (a step of [Trace]). *)
Theorem lease_exclusive (d0 d : Db) (c0 now ea eb : Z) (es : list Event) (a b : string) :
  Trace d0 c0 es d now ->
  granted es a = Some ea -> granted es b = Some eb -> now < ea -> now < eb -> a = b.
Proof.
  intros Htr Ha Hb Hla Hlb. pose proof (granted_row _ _ _ _ _ Htr) as Hrow.
  destruct (Hrow a ea Ha Hla) as [Hra _]. destruct (Hrow b eb Hb Hlb) as [Hrb _]. congruence.
Qed.

(** The epoch of the row is above every epoch handed out. *)
Lemma epochs_bounded d0 c0 es d now : Trace d0 c0 es d now ->
  StronglySorted Z.lt (acquired es) /\
  lr_epoch (controller_lease d0) <= lr_epoch (controller_lease d) /\
  forall e, e ∈ acquired es -> lr_epoch (controller_lease d0) < e <= lr_epoch (controller_lease d).
Proof.
  induction 1 as [|es d c op t t' r d' _ (Hs & Hle & Hb) _ _ Hx]; [split_and!; [constructor|lia|set_solver]|].
  unfold acquired. rewrite omap_app. fold (acquired es). cbn.
  assert (Hkeep : lr_epoch (controller_lease d') = lr_epoch (controller_lease d) ->
    StronglySorted Z.lt (acquired es ++ []) /\
    lr_epoch (controller_lease d0) <= lr_epoch (controller_lease d') /\
    forall e, e ∈ acquired es ++ [] -> lr_epoch (controller_lease d0) < e <= lr_epoch (controller_lease d')).
  { rewrite app_nil_r. by intros ->. }
  apply exec_lease in Hx. unfold acquired_epoch. cbn.
  destruct op; try (by apply Hkeep; rewrite Hx); destruct r as [r|]; try (by apply Hkeep; rewrite Hx).
  - destruct Hx as (l & -> & Ha). apply acquire_lease_Ok in Ha as (_ & -> & _ & _ & row & -> & He).
    cbn. rewrite He. split_and!; [|lia|].
    + apply sorted_snoc; [done|]. intros y Hy%Hb. lia.
    + intros e [Hy%Hb| ->%list_elem_of_singleton]%elem_of_app; lia.
  - destruct Hx as (l & -> & Ha). apply renew_lease_Ok in Ha as (_ & -> & _ & row & -> & He).
    by apply Hkeep.
  - apply Hkeep. rewrite release_lease_run in Hx. injection Hx as <-. by case_bool_decide.
Qed.

(** Every acquisition raises the epoch: in any history the epochs of the
    leases acquired are strictly increasing, and above the epoch the history
    began with, so no two terms share an epoch. *)
Theorem epochs_strictly_increase (d0 d : Db) (c0 now : Z) (es : list Event) :
  Trace d0 c0 es d now ->
  StronglySorted Z.lt (acquired es) /\
  Forall (fun e => lr_epoch (controller_lease d0) < e) (acquired es).
Proof.
  intros (Hs & _ & Hb)%epochs_bounded. split; [done|]. apply Forall_forall. intros e He%Hb. lia.
Qed.

Lemma generations_sorted d0 c0 es d now object :
  Trace d0 c0 es d now ->
  StronglySorted Z.lt (numbers object es) /\
  forall g, g ∈ numbers object es ->
    exists last, dispatch_generations d !! object = Some last /\ g <= last.
Proof.
  induction 1 as [|es d c op t t' r d' _ [Hs Hb] _ _ Hx]; [split; [constructor|set_solver]|].
  unfold numbers. rewrite omap_app. fold (numbers object es). cbn.
  assert (Hkeep : dispatch_generations d' !! object = dispatch_generations d !! object ->
    StronglySorted Z.lt (numbers object es ++ []) /\
    forall g, g ∈ numbers object es ++ [] ->
      exists last, dispatch_generations d' !! object = Some last /\ g <= last).
  { rewrite app_nil_r. by intros ->. }
  apply exec_generations in Hx. unfold given_number. cbn.
  destruct op; try (by apply Hkeep; rewrite Hx); destruct r as [r|]; try (by apply Hkeep; rewrite Hx).
  destruct Hx as (g & -> & Hg). apply next_dispatch_generation_Ok in Hg as (-> & _ & Habove & _). cbn.
  case_bool_decide as Ho; [subst object0|apply Hkeep; cbn; by rewrite lookup_insert_ne].
  rewrite lookup_insert_eq. split.
  - apply sorted_snoc; [done|]. intros y Hy. destruct (Hb y Hy) as (last & Hl & Hle).
    pose proof (Habove last Hl). lia.
  - intros y [Hy| ->%list_elem_of_singleton]%elem_of_app; [|by exists g].
    exists g. split; [done|]. destruct (Hb y Hy) as (last & Hl & Hle). pose proof (Habove last Hl). lia.
Qed.

(** Dispatch generations are never reused: whichever processes ask, under
    whatever epochs, the generations given for one object are strictly
    increasing. *)
Theorem generations_strictly_increase (d0 d : Db) (c0 now : Z) (es : list Event) (object : string) :
  Trace d0 c0 es d now ->
  StronglySorted Z.lt (numbers object es) /\
  forall g, g ∈ numbers object es ->
    exists last, dispatch_generations d !! object = Some last /\ g <= last.
Proof. apply generations_sorted. Qed.

(** *** Released names *)

(** Every create and rename of the history is made under the same cooldown. *)
Definition under_cooldown (cooldown : Z) (ev : Event) : Prop :=
  match ev_op ev with
  | CreateInstance _ c _ | RenameInstance _ _ c => c = cooldown
  | _ => True
  end.

(** [name] was released by [user] at [t0] or later, and nobody else has it. *)
Definition reserved_for (name : string) (user t0 now : Z) (d : Db) : Prop :=
  (forall uuid owner, labels d !! uuid = Some (name, owner) -> owner = user) /\
  exists text t1, released_names d !! name = Some (user, text) /\ parse_time text = Ok t1 /\ t0 <= t1 <= now.

Lemma reserved_later name user t0 now now' d d' :
  reserved_for name user t0 now d -> now <= now' -> same_names d d' -> reserved_for name user t0 now' d'.
Proof.
  intros [Hl (text & t1 & Hr & Hp & Ht)] Hle [Hlabels Hrel]. unfold reserved_for. rewrite Hlabels, Hrel.
  split; [done|]. exists text, t1. split_and!; [done|done|lia..].
Qed.

(** During the cooldown the name is refused to everybody else. *)
Lemma reserved_claim name user other t0 now t cooldown d :
  reserved_for name user t0 now d -> now <= t < t0 + cooldown ->
  cooldown <= u64_max * nanos_per_sec ->
  claim_name_tx name other cooldown t d = (Ok tt, d) -> other = user.
Proof.
  intros [_ (text & t1 & Hr & Hp & Ht)] Hw Hc (_ & _ & Hcool)%claim_name_tx_Ok.
  destruct (decide (user = other)) as [|Hne]; [done|]. exfalso.
  destruct (Hcool _ _ Hr Hne) as (t2 & Hp2 & Hnone). rewrite Hp in Hp2. injection Hp2 as <-.
  unfold remaining_cooldown in Hnone. destruct (Z.leb_spec (cooldown - (t - t1)) 0); [lia|].
  destruct (Z.ltb_spec u64_max (Z.quot (cooldown - (t - t1)) nanos_per_sec)) as [Hb|]; [|done].
  assert (Z.quot (cooldown - (t - t1)) nanos_per_sec <= u64_max); [|lia].
  apply Z.quot_le_upper_bound; unfold nanos_per_sec in *; lia.
Qed.

(** A release of the name by its owner renews the reservation. *)
Lemma reserved_release name user t0 now t d d' name' owner text :
  reserved_for name user t0 now d -> now <= t -> parse_time text = Ok t ->
  (forall uuid o, labels d' !! uuid = Some (name, o) -> o = user) ->
  (name' = name -> owner = user) ->
  released_names d' = <[name' := (owner, text)]> (released_names d) ->
  reserved_for name user t0 t d'.
Proof.
  intros [_ (text0 & t1 & Hr & Hp & Ht)] Hle Hpt Hl Ho Hrel. split; [done|]. rewrite Hrel.
  destruct (decide (name' = name)) as [->|Hne].
  - rewrite lookup_insert_eq, (Ho eq_refl). exists text, t. split_and!; [done|done|lia..].
  - rewrite lookup_insert_ne by done. exists text0, t1. split_and!; [done|done|lia..].
Qed.

Lemma label_of d uuid r : instances d !! uuid = Some r -> labels d !! uuid = Some (in_name r, in_owner_id r).
Proof. intros Hl. unfold labels. by rewrite lookup_fmap, Hl. Qed.

Lemma reserved_step name user t0 now cooldown op t t' d r d' :
  reserved_for name user t0 now d -> now <= t -> t <= t' -> t' < t0 + cooldown ->
  cooldown <= u64_max * nanos_per_sec -> under_cooldown cooldown (mkEvent op t t' r) ->
  exec op t t' d = (r, d') -> reserved_for name user t0 t' d'.
Proof.
  intros Hres Hc Ht Hw Hcap Hu Hx. destruct (names_op op) eqn:Hn.
  2:{ apply exec_names in Hx; [|done]. by eapply reserved_later; [done|lia|done]. }
  pose proof (proj1 Hres) as Hl. unfold under_cooldown in Hu. cbn in Hu.
  destruct op; try done; cbn [exec] in Hx; clear Hn;
    (apply reply_run in Hx as [(a & Hx & ->)|(e & -> & ->)]; [|by eapply reserved_later; [done|lia|done]]).
  - subst. apply create_instance_Ok in Hx as (text & _ & Hclaim & _ & _ & _ & _ & _ & ->).
    destruct Hres as [_ (text0 & t1 & Hr & Hp & Htt)]. split.
    + intros uuid owner. unfold labels. cbn. rewrite fmap_insert, lookup_insert_Some. cbn.
      intros [[_ [= Hn <-]]|[_ Hold]]; [|by eapply Hl]. rewrite Hn in Hclaim.
      eapply (reserved_claim name user _ t0 now t cooldown d); [|lia|done|exact Hclaim]. split; [done|]. eauto 10.
    + exists text0, t1. split_and!; [done|done|lia..].
  - apply delete_instance_Ok in Hx as (row & text & Hrow & Hf & _ & _ & ->).
    assert (reserved_for name user t0 t (set_released <[in_name row := (in_owner_id row, text)]>
      (set_shares (filter (fun kv => kv.1.1 <> uuid)) (set_instances (delete uuid) d)))) as Hr.
    { eapply reserved_release; [exact Hres|lia|by eapply parse_format_time| | |done].
      - intros uuid' o. unfold labels. cbn. rewrite fmap_delete, lookup_delete_Some. intros [_ Ho]. by eapply Hl.
      - intros <-. by eapply Hl, label_of. }
    by eapply reserved_later; [exact Hr|lia|].
  - subst. apply rename_instance_Ok in Hx as (row & Hrow & [[_ ->]|(Hne & Hclaim & _ & text & Hf & ->)]);
      [by eapply reserved_later; [done|lia|done]|].
    eapply reserved_release; [exact Hres|lia|by eapply parse_format_time| | |done].
    + intros uuid' o. unfold labels. cbn. rewrite fmap_insert, lookup_insert_Some. cbn.
      intros [[_ [= Hn <-]]|[_ Hold]]; [|by eapply Hl]. subst.
      eapply (reserved_claim name user _ t0 now t cooldown d); [done|lia|done|exact Hclaim].
    + intros <-. by eapply Hl, label_of.
Qed.

Lemma deleted_reserved uuid t0 d0 i d1 : wf_db d0 -> delete_instance uuid t0 d0 = (Ok i, d1) ->
  reserved_for (i_name i) (i_owner_id i) t0 t0 d1.
Proof.
  intros Hwf (r & text & Hr & Hf & -> & -> & ->)%delete_instance_Ok. split.
  - intros u o. unfold labels. cbn. rewrite lookup_fmap, fmap_Some.
    intros (x & [Hu Hx]%lookup_delete_Some & [= Hxn ->]). exfalso. apply Hu.
    eapply (wf_instance_name d0 Hwf); [exact Hr|exact Hx|done|by cbn; rewrite Hxn].
  - exists text, t0. cbn. rewrite lookup_insert_eq. split_and!; [done|by eapply parse_format_time|lia..].
Qed.

(** C23.  A released name is kept for its owner.  From the deletion of an
    instance until the cooldown has passed, whatever happens in between, the
    only account that can hold the name is the one that released it.  The
    clock the operations read does not go back (a step of [Trace]). *)
Theorem released_name_reserved (d0 d1 d2 : Db) (uuid uuid' : string) (i : Instance) (row : InstanceRow)
    (t0 now cooldown : Z) (es : list Event) :
  wf_db d0 -> delete_instance uuid t0 d0 = (Ok i, d1) -> Trace d1 t0 es d2 now ->
  Forall (under_cooldown cooldown) es -> now < t0 + cooldown ->
  cooldown <= u64_max * nanos_per_sec ->
  instances d2 !! uuid' = Some row -> in_name row = i_name i -> in_owner_id row = i_owner_id i.
Proof.
  intros Hwf Hdel Htr Hunder Hnow Hcap Hl Hn.
  assert (Hres : reserved_for (i_name i) (i_owner_id i) t0 now d2).
  { pose proof (deleted_reserved _ _ _ _ _ Hwf Hdel) as H0.
    clear Hl Hn Hdel Hwf. revert Hunder Hnow. induction Htr as [|es d c op t t' r d' _ IH Hc Ht Hx]; [done|].
    intros [Hall Hone]%Forall_app Hnow. apply Forall_inv in Hone.
    eapply (reserved_step _ _ _ c cooldown op t t' d r); [apply IH; [done|lia]|done|done|done|done|exact Hone|exact Hx]. }
  destruct Hres as [Hlab _]. eapply Hlab. by rewrite (label_of _ _ _ Hl), Hn.
Qed.

(** *** Slots *)

(** Every placed instance is on the host that owns its slot, with an address
    of that slot. *)
Definition slots_ok (d : Db) : Prop :=
  forall uuid h a k, places d !! uuid = Some (h, a, Some k) ->
    sr_owner <$> runner_slots d !! k = Some h /\
    slot_of_address a (prefix_shift (deployment_prefix d)) = Some k.

Lemma slots_ok_iff d : slots_ok d <-> slots_owned d /\ slots_true d.
Proof.
  unfold slots_ok, slots_owned, slots_true, places, slot_owner_ok. split.
  - intros Hok. assert (Hrow : forall uuid r k, instances d !! uuid = Some r -> in_slot r = Some k ->
      sr_owner <$> runner_slots d !! k = Some (in_host_id r) /\
      slot_of_address (in_address r) (prefix_shift (deployment_prefix d)) = Some k).
    { intros uuid r k Hl Hk. apply (Hok uuid). rewrite lookup_fmap, Hl. cbn. unfold place. by rewrite Hk. }
    split; [|intros uuid r k Hl Hk; by eapply Hrow]. intros uuid r Hl.
    destruct (in_slot r) as [k|] eqn:Hk; [|done]. destruct (Hrow uuid r k Hl Hk) as [Ho _].
    destruct (runner_slots d !! k) as [s|]; [|done]. apply bool_decide_eq_true. by injection Ho as ->.
  - intros [Hown Htrue] uuid h a k. rewrite lookup_fmap, fmap_Some. intros (r & Hl & [= -> -> Hk]).
    symmetry in Hk. split; [|by eapply Htrue]. specialize (Hown uuid r Hl). rewrite Hk in Hown.
    destruct (runner_slots d !! k) as [s|]; [|done]. apply bool_decide_eq_true in Hown. cbn. by rewrite Hown.
Qed.

Lemma slots_ok_grown d d' : slots_ok d -> grown d d' -> slots_ok d'.
Proof.
  intros Hok (Hp & Hs & Hd) uuid h a k Hl. rewrite Hp in Hl. destruct (Hok _ _ _ _ Hl) as [Ho Ha].
  rewrite Hd. split; [|done]. apply fmap_Some in Ho as (s & Hk & ->).
  by rewrite (lookup_weaken _ _ _ _ Hk Hs).
Qed.

(** What an instance row must satisfy to be placed. *)
Lemma slots_ok_insert d uuid row : slots_ok d -> slot_owner_ok row d = true ->
  (forall k, in_slot row = Some k ->
     slot_of_address (in_address row) (prefix_shift (deployment_prefix d)) = Some k) ->
  slots_ok (set_instances <[uuid := row]> d).
Proof.
  intros [Hown Htrue]%slots_ok_iff Hrow Hk. apply slots_ok_iff. split; intros u r; cbn;
    [|intros k]; rewrite lookup_insert_Some; (intros [[_ <-]|[_ Hl]]; [by auto|]); eauto.
Qed.

Lemma exec_keeps_slots (op : Op) (t t' : Z) (d d' : Db) (r : result StoreError Reply) :
  slots_ok d ->
  (forall i cooldown capacity k, op = CreateInstance i cooldown capacity -> i_slot i = Some k ->
     slot_of_address (i_address i) (prefix_shift (deployment_prefix d)) = Some k) ->
  exec op t t' d = (r, d') -> slots_ok d'.
Proof.
  intros Hok Hcreate Hx. destruct (ordinary op) eqn:Ho.
  { pose proof (exec_still op t t' Ho d) as Hs. rewrite Hx in Hs. destruct Hs as [_ (Hp & Hs & Hd)].
    apply (slots_ok_grown d); [done|]. unfold grown. cbn in *. by rewrite Hp, Hs, Hd. }
  destruct op; try done; cbn [exec] in Hx; clear Ho;
    try (apply reply_run in Hx as [(a & Hx & ->)|(e & -> & ->)]; [|done]).
  - apply create_instance_Ok in Hx as (text & _ & _ & _ & _ & _ & _ & Hput & ->).
    apply put_instance_Ok in Hput as (Hown & _). apply slots_ok_insert; [done|done|].
    intros k Hk. by eapply Hcreate.
  - apply delete_instance_Ok in Hx as (row & text & _ & _ & _ & _ & ->).
    intros u h ad k Hl. unfold places in Hl. cbn in Hl. rewrite fmap_delete in Hl.
    apply lookup_delete_Some in Hl as [_ Hl]. by apply Hok in Hl.
  - apply rename_instance_Ok in Hx as (row & Hl & [[_ ->]|(_ & _ & Hown & text & _ & ->)]); [done|].
    apply (slots_ok_insert d uuid (with_name name row)); [done|done|]. intros k Hk.
    apply slots_ok_iff in Hok as [_ Htrue]. exact (Htrue _ _ _ Hl Hk).
  - apply (slots_ok_grown d); [done|]. pose proof (ensure_host_grown machine name uri t d) as Hg.
    change (ensure_host machine name uri t d = (Ok a, d')) in Hx. by rewrite Hx in Hg.
  - apply ST_bind_run in Hx as [(a & d1 & Hx & [= <- <-])|(e & Hx & ->)].
    + apply slots_ok_iff in Hok as [? ?]. apply slots_ok_iff. by eapply set_runner_prefix_slots.
    + unfold set_runner_prefix in Hx. destruct (_ && _); [|by injection Hx as _ <-].
      by apply with_tx_Err in Hx as ->.
  - change (claim_slot slot host d = (Ok a, d')) in Hx. apply slots_ok_iff in Hok as [? ?].
    apply slots_ok_iff. by eapply claim_slot_slots.
  - apply acquire_lease_Ok in Hx as (_ & _ & _ & _ & row & -> & _). exact Hok.
  - apply renew_lease_Ok in Hx as (_ & _ & _ & row & -> & _). exact Hok.
  - unfold with_tx, modify in Hx. injection Hx as _ <-. case_bool_decide; exact Hok.
  - apply next_dispatch_generation_Ok in Hx as (-> & _). exact Hok.
Qed.

(** C29.  Every instance stays on the host that owns its addresses.  If every
    instance is on the host that owns its slot and has an address of that
    slot, then this is so after any operation of the store, as long as a
    created instance is given an address of the slot it names. *)
Theorem operations_keep_slots (op : Op) (t t' : Z) (d d' : Db) (r : result StoreError Reply) :
  slots_ok d ->
  (forall i cooldown capacity k, op = CreateInstance i cooldown capacity -> i_slot i = Some k ->
     slot_of_address (i_address i) (prefix_shift (deployment_prefix d)) = Some k) ->
  exec op t t' d = (r, d') -> slots_ok d'.
Proof. apply exec_keeps_slots. Qed.
End Properties.

(** ** Witnesses

    A history run by evaluation. *)

Section Replay.
Context `{TimeFormat}.

Fixpoint replay (d : Db) (ops : list (Op * Z * Z)) : list Event * Db :=
  match ops with
  | [] => ([], d)
  | (op, t, t') :: rest =>
      let '(r, d1) := exec op t t' d in
      let '(es, d2) := replay d1 rest in (mkEvent op t t' r :: es, d2)
  end.

Fixpoint clock_ok (c : Z) (ops : list (Op * Z * Z)) : bool :=
  match ops with
  | [] => true
  | (_, t, t') :: rest => (c <=? t) && (t <=? t') && clock_ok t' rest
  end.

Definition clock_end (c : Z) (ops : list (Op * Z * Z)) : Z := foldl (fun _ x => x.2) c ops.

Lemma replay_from d0 c0 es0 d c ops es d' :
  Trace d0 c0 es0 d c -> clock_ok c ops = true -> replay d ops = (es, d') ->
  Trace d0 c0 (es0 ++ es) d' (clock_end c ops).
Proof.
  revert es0 d c es. induction ops as [|[[op t] t'] ops IH]; intros es0 d c es Htr Hc Hr; cbn in *.
  - injection Hr as <- <-. by rewrite app_nil_r.
  - destruct (exec op t t' d) as [r d1] eqn:Hx. destruct (replay d1 ops) as [es1 d2] eqn:Hrep.
    injection Hr as <- <-. apply andb_true_iff in Hc as [[? ?]%andb_true_iff Hc].
    replace (es0 ++ mkEvent op t t' r :: es1) with ((es0 ++ [mkEvent op t t' r]) ++ es1)
      by by rewrite <-app_assoc.
    eapply IH; [|exact Hc|exact Hrep]. eapply trace_step; [exact Htr|lia|lia|exact Hx].
Qed.

Lemma replay_trace d0 c ops es d : clock_ok c ops = true -> replay d0 ops = (es, d) ->
  Trace d0 c es d (clock_end c ops).
Proof. intros Hc Hr. exact (replay_from d0 c [] d0 c ops es d (trace_start d0 c) Hc Hr). Qed.
End Replay.

#[local] Existing Instance decimal_time.

(** Two controllers, one after the other, and the orders they number. *)
Definition two_terms : list (Op * Z * Z) :=
  [ (EnsureHost "m1" "node" "qemu:///system", 1, 1); (AcquireLease "a" 10, 2, 2);
    (NextGeneration "u1" 1, 3, 3); (AcquireLease "b" 10, 4, 4); (RenewLease "a" 10, 5, 5);
    (ReleaseLease "a", 6, 6); (AcquireLease "b" 10, 7, 7); (NextGeneration "u1" 2, 8, 8);
    (NextGeneration "u1" 2, 9, 9) ].
Definition two_terms_end : list Event * Db := replay empty_db two_terms.

Lemma two_terms_trace : Trace empty_db 0 (fst two_terms_end) (snd two_terms_end) 9.
Proof. apply (replay_trace empty_db 0 two_terms); [reflexivity|]. exact (surjective_pairing two_terms_end). Qed.

Lemma every_history_well_formed_witness :
  hosts (snd two_terms_end) <> ∅ /\ wf_db (snd two_terms_end).
Proof.
  split; [intros He; apply (f_equal (fun m => m !! 1)) in He; vm_compute in He; discriminate He|].
  apply (every_history_well_formed (fst two_terms_end) (snd two_terms_end) 0 9), two_terms_trace.
Defined.

Lemma lease_exclusive_witness :
  granted (fst two_terms_end) "b" = Some 17 /\ 9 < 17 /\
  forall other, granted (fst two_terms_end) other = Some 17 -> other = "b".
Proof.
  split_and!; [vm_compute; reflexivity|lia|]. intros other Ho.
  apply (lease_exclusive empty_db (snd two_terms_end) 0 9 17 17 (fst two_terms_end) other "b");
    [apply two_terms_trace|exact Ho|vm_compute; reflexivity|lia|lia].
Defined.

Lemma epochs_strictly_increase_witness :
  acquired (fst two_terms_end) = [1; 2] /\ StronglySorted Z.lt [1; 2].
Proof.
  split; [vm_compute; reflexivity|].
  exact (proj1 (epochs_strictly_increase empty_db (snd two_terms_end) 0 9 (fst two_terms_end) two_terms_trace)).
Defined.

Lemma generations_strictly_increase_witness :
  numbers "u1" (fst two_terms_end) = [1000001; 2000001; 2000002] /\
  StronglySorted Z.lt [1000001; 2000001; 2000002].
Proof.
  split; [vm_compute; reflexivity|].
  exact (proj1 (generations_strictly_increase empty_db (snd two_terms_end) 0 9 (fst two_terms_end) "u1"
    two_terms_trace)).
Defined.

(** [bob] asks for a name [ann] released; [ann] takes it back. *)
Definition regain : list (Op * Z * Z) :=
  let again owner uuid := mkInstance uuid "web" owner 1 "debian" "abc" Stopped WantRunning
    "10.100.0.9" "02:00:00:00:00:09" 2 512 10 false true 80 Off 7 None (Some 0) in
  [ (CreateInstance (again 2 "u7") (10 * nanos_per_sec) small_capacity, 11, 11);
    (CreateInstance (again 1 "u8") (10 * nanos_per_sec) small_capacity, 12, 12) ].
Definition regain_end : list Event * Db := replay small_db_3 regain.

Lemma released_name_reserved_witness :
  ev_reply <$> fst regain_end =
    [Err (NameCooldown "web" (10 * nanos_per_sec - 2)); Ok Finished] /\
  forall uuid row, instances (snd regain_end) !! uuid = Some row -> in_name row = "web" ->
    in_owner_id row = 1.
Proof.
  split; [vm_compute; reflexivity|]. intros uuid row Hl Hn.
  refine (released_name_reserved small_db_1 small_db_3 (snd regain_end) "u1" uuid small_instance row
    9 12 (10 * nanos_per_sec) (fst regain_end) wf_small_db_1 _ _ _ _ _ Hl Hn).
  - vm_compute. reflexivity.
  - apply (replay_trace small_db_3 9 regain); [reflexivity|]. exact (surjective_pairing regain_end).
  - vm_compute. repeat constructor.
  - vm_compute. reflexivity.
  - vm_compute. discriminate.
Defined.

Lemma operations_keep_slots_witness :
  fst (exec (ClaimSlot 2 2) 9 9 small_db_two) = Ok Finished /\
  slots_ok (snd (exec (ClaimSlot 2 2) 9 9 small_db_two)).
Proof.
  split; [vm_compute; reflexivity|].
  apply (operations_keep_slots (ClaimSlot 2 2) 9 9 small_db_two (snd (exec (ClaimSlot 2 2) 9 9 small_db_two))
    (Ok Finished)).
  - apply slots_ok_iff. split; [apply slots_owned_check|apply slots_true_check]; vm_compute; reflexivity.
  - intros i cooldown capacity k Hop. discriminate Hop.
  - vm_compute. reflexivity.
Defined.
