(* ===== verification/ControlPlane.v ===== *)
(** * ControlPlane: the controller's store and the runner's fence together

    The store hands out leases with epochs and numbers the orders of every
    object ([crates/store]); a runner admits an order by its epoch and its
    generation ([crates/runner]).  The two meet in the envelope of a request:
    the controller writes the epoch of its lease and the generation it was
    given into it.  The theorems here join the two ends. *)

From Stdlib Require Import ZArith Lia Sorted.
From S2P Require Import Prelude Prog Fence FenceRuns.
From S2P Require Import Text Types Db Instances Runners Store.
Open Scope Z_scope.

(** Two entries of a sorted list, in order. *)
Lemma sorted_before (l1 l2 l3 : list Z) a b :
  StronglySorted Z.lt (l1 ++ a :: l2 ++ b :: l3) -> a < b.
Proof.
  induction l1 as [|x l1 IH]; cbn; intros Hs; apply StronglySorted_inv in Hs as [Hs Hf]; [|auto].
  rewrite Forall_forall in Hf. apply Hf. set_solver.
Qed.

(** In a history of the store, the lease was acquired with epoch [e1] and
    later with epoch [e2]. *)
Definition taken_over (es : list Event) (e1 e2 : Z) : Prop :=
  exists before between after, acquired es = before ++ e1 :: between ++ e2 :: after.

(** The store gave the object generation [g1] and later [g2]. *)
Definition overtaken (es : list Event) (object_id : string) (g1 g2 : Z) : Prop :=
  exists before between after, numbers object_id es = before ++ g1 :: between ++ g2 :: after.

(** A change to an object, as the controller numbers it. *)
Definition orders (env : Fence.Envelope) (object_id : string) (generation : Z) : Prop :=
  Fence.mutates (Fence.e_op env) = true /\
  exists digest, Fence.e_object env = Some (Fence.mkObjectFence object_id generation digest).

Section ControlPlane.
Context {TF : TimeFormat} {S : Type} {FS : Fence.FenceStore S} {FL : Fence.FenceStoreLaws S}.
Context (rfc3339 : Z -> result string string) (to_json : Fence.Reply -> result string string).
Context (cfg : Fence.FenceConfig).

Abbreviation steps := (rtc (runner_step rfc3339 to_json cfg)).
Abbreviation untouched := (not_begun rfc3339 to_json cfg).

(** C2.  A controller whose lease was taken over cannot change a runner again.
    Take any history of the store in which the lease was acquired with epoch
    [e1] and later with epoch [e2], and a runner that serves requests at the
    same time, statement by statement.  Once it has let in one change under
    [e2], then in any interleaving of requests, failures and restarts, a
    request under [e1] that makes its first statement afterwards only asks for
    the epoch: it is let in never, it is answered from memory never, and it
    writes nothing.  (What it had let in before, or had already read the
    epoch for, is not covered: see [FenceRuns.in_flight_not_fenced].) *)
Theorem taken_over_controller_refused (d0 d : Db) (c0 clock : Z) (es : list Event) (e1 e2 : Z)
    (s : S) (x y : Runner S) (j i : nat) (new old : Request) :
  Trace d0 c0 es d clock -> taken_over es e1 e2 ->
  steps (started s) x -> rn_requests x !! j = Some new -> let_in new ->
  Fence.mutates (Fence.e_op (rq_env new)) = true -> Fence.e_epoch (rq_env new) = e2 ->
  untouched x i -> steps x y -> rn_requests y !! i = Some old -> Fence.e_epoch (rq_env old) = e1 ->
  turned_away old.
Proof.
  intros (Hs & _)%epochs_bounded (before & between & after & Hacq) Hx Hj Hin Hm He2 Hi Hxy Hold He1.
  rewrite Hacq in Hs. apply sorted_before in Hs.
  eapply (lower_epoch_turned_away rfc3339 to_json cfg); eauto. by rewrite He1, He2.
Qed.

(**  Orders for one object are taken in the order they were numbered.  If the
    store gave an order generation [g1] and a later one [g2], and a runner has
    let in the later one as a change, then an order of generation [g1] that
    begins afterwards only reads, and is refused. *)
Theorem overtaken_order_refused (d0 d : Db) (c0 clock : Z) (es : list Event) (object_id : string)
    (g1 g2 : Z) (s : S) (x y : Runner S) (j i : nat) (new old : Request) :
  Trace d0 c0 es d clock -> overtaken es object_id g1 g2 ->
  steps (started s) x -> rn_requests x !! j = Some new -> let_in new -> orders (rq_env new) object_id g2 ->
  untouched x i -> steps x y -> rn_requests y !! i = Some old -> orders (rq_env old) object_id g1 ->
  refused_by_reading old.
Proof.
  intros Htr (before & between & after & Hnum) Hx Hj Hin [Hm [digest Hf]] Hi Hxy Hold [Hm' [digest' Hf']].
  pose proof (generations_sorted _ _ _ _ _ object_id Htr) as [Hs _]. rewrite Hnum in Hs.
  apply sorted_before in Hs. by eapply (older_generation_refused rfc3339 to_json cfg s x y j new i old).
Qed.
End ControlPlane.

(** ** Witnesses: the two terms of [Store.two_terms], and a runner *)

#[local] Existing Instance decimal_time.
#[local] Instance runner_fence : Fence.FenceStore Fence.SqliteFence := Fence.SqliteFence_store Fence.wit_rfc3339.

(** An order for [u1] under an epoch, with a generation. *)
Definition order (epoch generation : Z) (id : string) : Fence.Envelope :=
  Fence.mkEnvelope 1 (Some "m1") epoch "ctl" (100 * nanos_per_sec) (10 * nanos_per_sec) id
    (Some (Fence.mkObjectFence "u1" generation "d")) (Fence.StartInstance (Fence.mkInstanceRef "u1" "web")).
(** The order of the second term is let in; then an order of the first comes
    under its old epoch, and once more under the new one. *)
Definition runner_1 : Runner Fence.SqliteFence :=
  wit_run (started Fence.wit_store) (Come (order 2 2000001 "b") :: wit_next 0 6).
Definition runner_2 : Runner Fence.SqliteFence := wit_run runner_1 (Come (order 1 2000002 "a") :: wit_next 1 6).
Definition runner_3 : Runner Fence.SqliteFence := wit_run runner_1 (Come (order 2 1000001 "c") :: wit_next 1 6).

Lemma nothing_begun i : (1 <= i)%nat -> not_begun Fence.wit_rfc3339 Fence.wit_json Fence.wit_cfg runner_1 i.
Proof.
  intros Hi rq. change (rn_requests runner_1) with ({[ 0%nat := the_request runner_1 0 ]} : gmap nat Request).
  intros Hl. apply lookup_singleton_Some in Hl as [<- _]. lia.
Qed.

Lemma taken_over_controller_refused_witness :
  let_in (the_request runner_1 0) /\ turned_away (the_request runner_2 1) /\
  Prog.always (rq_rest (the_request runner_2 1)) (fun tr r => tr = [] /\ r = Ok (Fence.OutRefused (Fence.StaleEpoch 1 2))).
Proof.
  split; [vm_compute; exact Logic.I|]. split; [|vm_compute; by split].
  eapply (taken_over_controller_refused (FL := Fence.SqliteFence_laws Fence.wit_rfc3339)
    Fence.wit_rfc3339 Fence.wit_json Fence.wit_cfg empty_db (snd two_terms_end) 0 9 (fst two_terms_end)
    1 2 Fence.wit_store runner_1 runner_2 0 1 (the_request runner_1 0) (the_request runner_2 1));
    [apply two_terms_trace|exists [], [], []; vm_compute; reflexivity|apply wit_run_steps|vm_compute; reflexivity
    |vm_compute; exact Logic.I|vm_compute; reflexivity|vm_compute; reflexivity|by apply nothing_begun|apply wit_run_steps
    |vm_compute; reflexivity|vm_compute; reflexivity].
Defined.

Lemma overtaken_order_refused_witness :
  let_in (the_request runner_1 0) /\ refused_by_reading (the_request runner_3 1).
Proof.
  split; [vm_compute; exact Logic.I|].
  eapply (overtaken_order_refused (FL := Fence.SqliteFence_laws Fence.wit_rfc3339)
    Fence.wit_rfc3339 Fence.wit_json Fence.wit_cfg empty_db (snd two_terms_end) 0 9 (fst two_terms_end) "u1"
    1000001 2000001 Fence.wit_store runner_1 runner_3 0 1 (the_request runner_1 0) (the_request runner_3 1));
    [apply two_terms_trace|exists [], [], [2000002]; vm_compute; reflexivity|apply wit_run_steps|vm_compute; reflexivity
    |vm_compute; exact Logic.I|split; [vm_compute; reflexivity|eexists; vm_compute; reflexivity]|by apply nothing_begun
    |apply wit_run_steps|vm_compute; reflexivity|split; [vm_compute; reflexivity|eexists; vm_compute; reflexivity]].
Defined.
