(* ===== verification/Http.v ===== *)
(** * Http: what the web-facing crates use of [http], [url] and their kin

    [crates/auth] and [crates/proxy] are written against the crates [http]
    (header maps, URIs), [url] (URL parsing, form encoding), [percent_encoding]
    and [time] (the date in a cookie).  Those are parameters here: the class
    [HttpLib] lists the functions the program calls with the behaviour their
    documentation promises.  [SimpleHttp] is an instance, for evaluating the
    program on concrete requests. *)

From Stdlib Require Import ZArith Lia Ascii.
From S2P Require Import Prelude Text.
Open Scope Z_scope.

(** ASCII text, and the visible ASCII text a header may carry. *)
Definition is_ascii (c : ascii) : bool := ascii_code c <? 128.
Definition is_visible (c : ascii) : bool := (32 <=? ascii_code c) && (ascii_code c <? 127).

(** The characters a percent-encoding writes: its own, and those it leaves. *)
Definition is_hex_upper (c : ascii) : bool := is_ascii_digit c || in_range "A" "F" c.
Definition may_remain (set : ascii -> bool) (c : ascii) : bool :=
  Ascii.eqb c "%" || is_hex_upper c || (is_ascii c && negb (set c)).

Class HttpLib : Type := {
  (** [http::HeaderMap]: a multimap; names are in lower case. *)
  HeaderMap : Type;
  HeaderValue : Type;
  #[global] HeaderValue_eq :: EqDecision HeaderValue;
  headers_new : HeaderMap;
  get_all : HeaderMap -> string -> list HeaderValue;
  headers_insert : string -> HeaderValue -> HeaderMap -> HeaderMap;
  headers_append : string -> HeaderValue -> HeaderMap -> HeaderMap;
  headers_remove : string -> HeaderMap -> HeaderMap;
  (** [HeaderValue::to_str], [from_str], [from_static]; [HeaderName::from_bytes]. *)
  to_str : HeaderValue -> option string;
  value_from_str : string -> option HeaderValue;
  from_static : string -> HeaderValue;
  name_from_bytes : string -> option string;
  (** [http::Uri]. *)
  Uri : Type;
  uri_path_and_query : Uri -> option string;
  uri_query : Uri -> option string;
  uri_authority : Uri -> option string;
  uri_scheme : Uri -> option string;
  uri_build : string -> string -> string -> option Uri;
  (** [url::Url::parse], with [Url::scheme] and [Url::host_str]. *)
  url_parse : string -> option (string * option string);
  (** [url::form_urlencoded::{byte_serialize, parse}]. *)
  byte_serialize : string -> string;
  form_parse : string -> list (string * string);
  (** [percent_encoding]: [utf8_percent_encode(value, set)] and
      [percent_decode_str(value).decode_utf8()]. *)
  utf8_percent_encode : string -> (ascii -> bool) -> string;
  percent_decode_utf8 : string -> option string;
  (** A time in the fixed format of a cookie's [Expires]. *)
  cookie_date : Z -> string;

  get_all_new n : get_all headers_new n = [];
  get_all_insert n v m n' : get_all (headers_insert n v m) n' = if decide (n = n') then [v] else get_all m n';
  get_all_append n v m n' :
    get_all (headers_append n v m) n' = if decide (n = n') then get_all m n' ++ [v] else get_all m n';
  get_all_remove n m n' : get_all (headers_remove n m) n' = if decide (n = n') then [] else get_all m n';
  value_of_visible s : str_all is_visible s = true -> exists v, value_from_str s = Some v /\ to_str v = Some s;
  static_to_str s : str_all is_visible s = true -> to_str (from_static s) = Some s;
  uri_build_parts scheme authority path u :
    uri_build scheme authority path = Some u ->
    uri_authority u = Some authority /\ uri_path_and_query u = Some path;
  percent_round_trip s set :
    str_all is_ascii s = true -> set "%"%char = true -> percent_decode_utf8 (utf8_percent_encode s set) = Some s;
  percent_encode_writes s set : str_all (may_remain set) (utf8_percent_encode s set) = true;
  cookie_date_visible t : str_all (fun c => is_visible c && negb (Ascii.eqb c ";")) (cookie_date t) = true
}.

(** [HeaderMap::get]: the first value under a name. *)
Definition header_get `{HttpLib} (m : HeaderMap) (name : string) : option HeaderValue := head (get_all m name).

(** The text of every value under a name that is text. *)
Definition header_texts `{HttpLib} (m : HeaderMap) (name : string) : list string :=
  omap to_str (get_all m name).

(** The names of the headers the program reads and writes. *)
Definition COOKIE : string := "cookie".
Definition SET_COOKIE : string := "set-cookie".
Definition LOCATION : string := "location".
Definition CONTENT_TYPE : string := "content-type".
Definition AUTHORIZATION : string := "authorization".
Definition WWW_AUTHENTICATE : string := "www-authenticate".
Definition ACCEPT : string := "accept".
Definition HOST : string := "host".
Definition CONNECTION : string := "connection".
Definition UPGRADE : string := "upgrade".

(** [StatusCode]s. *)
Definition SWITCHING_PROTOCOLS : Z := 101.
Definition OK_ : Z := 200.
Definition NO_CONTENT : Z := 204.
Definition FOUND : Z := 302.
Definition BAD_REQUEST : Z := 400.
Definition UNAUTHORIZED : Z := 401.
Definition FORBIDDEN : Z := 403.
Definition NOT_FOUND : Z := 404.
Definition GONE : Z := 410.
Definition INTERNAL_SERVER_ERROR : Z := 500.
Definition BAD_GATEWAY : Z := 502.
Definition SERVICE_UNAVAILABLE : Z := 503.

(** [http::Response<B>]; [Response::new] is 200 without headers. *)
Record Response `{HttpLib} (B : Type) : Type := mkResponse {
  status : Z;
  r_headers : HeaderMap;
  body : B
}.
Arguments mkResponse {_ B} status r_headers body.
Arguments status {_ B}. Arguments r_headers {_ B}. Arguments body {_ B}.

Definition response_new `{HttpLib} {B} (b : B) : Response B := mkResponse OK_ headers_new b.
Definition with_status `{HttpLib} {B} (s : Z) (r : Response B) : Response B := mkResponse s (r_headers r) (body r).
Definition with_header `{HttpLib} {B} (name : string) (v : HeaderValue) (r : Response B) : Response B :=
  mkResponse (status r) (headers_insert name v (r_headers r)) (body r).
Definition with_appended `{HttpLib} {B} (name : string) (v : HeaderValue) (r : Response B) : Response B :=
  mkResponse (status r) (headers_append name v (r_headers r)) (body r).

(** ** An instance

    Headers are an association list in the order of insertion; values are
    byte strings.  URLs are [scheme://host/rest]; a query is [k=v&k=v]. *)

Module SimpleHttp.
#[local] Abbreviation map := (list (string * string)).

Definition all (m : map) (n : string) : list string := snd <$> filter (fun e => e.1 = n) m.
Definition drop_name (n : string) (m : map) : map := filter (fun e => e.1 <> n) m.

Definition value (s : string) : option string := if str_all is_visible s then Some s else None.

Definition hex_upper (z : Z) : ascii := if z <? 10 then ascii_of_code (48 + z) else ascii_of_code (55 + z).
Definition hex_value (c : ascii) : option Z :=
  if is_ascii_digit c then Some (ascii_code c - 48)
  else if in_range "A" "F" c then Some (ascii_code c - 55) else None.

Fixpoint encode (s : string) (set : ascii -> bool) : string :=
  match s with
  | EmptyString => EmptyString
  | String c s' =>
      if is_ascii c && negb (set c) then String c (encode s' set)
      else String "%" (String (hex_upper (ascii_code c / 16)) (String (hex_upper (ascii_code c mod 16)) (encode s' set)))
  end.

Fixpoint decode (s : string) : string :=
  match s with
  | String "%" (String a (String b s')) =>
      match hex_value a, hex_value b with
      | Some x, Some y => String (ascii_of_code (16 * x + y)) (decode s')
      | _, _ => String "%" (String a (String b (decode s')))
      end
  | String c s' => String c (decode s')
  | EmptyString => EmptyString
  end.

(** [scheme://host[/rest]]. *)
Definition parse_url (s : string) : option (string * option string) :=
  match split_once ":" s with
  | Some (scheme, rest) =>
      match strip_prefix "//" rest with
      | Some rest => Some (scheme, Some (match split_once "/" rest with Some (h, _) => h | None => rest end))
      | None => Some (scheme, None)
      end
  | None => None
  end.

Definition parse_form (s : string) : list (string * string) :=
  (fun p => match split_once "=" p with Some (k, v) => (decode k, decode v) | None => (decode p, EmptyString) end)
    <$> split_on "&" s.

Definition uri : Type := string * string.
Definition query (u : uri) : option string := match split_once "?" (u.2) with Some (_, q) => Some q | None => None end.
Definition date (t : Z) : string := "T" +:+ dec t.

Lemma all_cons_eq n v m : all ((n, v) :: m) n = v :: all m n.
Proof. unfold all. by rewrite filter_cons_True. Qed.
Lemma all_cons_ne n v m n' : n <> n' -> all ((n, v) :: m) n' = all m n'.
Proof. intros Hn. unfold all. by rewrite filter_cons_False. Qed.
Lemma all_app m m' n : all (m ++ m') n = all m n ++ all m' n.
Proof. unfold all. by rewrite filter_app, fmap_app. Qed.
Lemma all_drop n m n' : all (drop_name n m) n' = if decide (n = n') then [] else all m n'.
Proof.
  induction m as [|[k v] m IH]; cbn [drop_name]; [by case_decide|]. unfold drop_name in *.
  destruct (decide (k = n)) as [->|Hk].
  - rewrite filter_cons_False by (simpl; tauto). rewrite IH. case_decide; [done|]. by rewrite all_cons_ne.
  - rewrite filter_cons_True by done. destruct (decide (k = n')) as [->|Hkn].
    + rewrite !all_cons_eq, IH. case_decide; [congruence|done].
    + by rewrite !all_cons_ne.
Qed.

Lemma hex_upper_value z : 0 <= z < 16 -> hex_value (hex_upper z) = Some z.
Proof.
  intros Hz. assert (Hin : z ∈ range 0 16) by (apply elem_of_range; lia).
  unfold range in Hin. cbv in Hin. repeat (apply elem_of_cons in Hin as [->|Hin]; [reflexivity|]). by apply elem_of_nil in Hin.
Qed.
Lemma hex_upper_hex z : 0 <= z < 16 -> is_hex_upper (hex_upper z) = true.
Proof.
  intros Hz. assert (Hin : z ∈ range 0 16) by (apply elem_of_range; lia).
  unfold range in Hin. cbv in Hin. repeat (apply elem_of_cons in Hin as [->|Hin]; [reflexivity|]). by apply elem_of_nil in Hin.
Qed.

Lemma ascii_code_range c : 0 <= ascii_code c < 256.
Proof. unfold ascii_code. pose proof (N_ascii_bounded c). lia. Qed.
Lemma nibbles c : 0 <= ascii_code c / 16 < 16 /\ 0 <= ascii_code c mod 16 < 16.
Proof.
  pose proof (ascii_code_range c). split; [|apply Z.mod_pos_bound; lia].
  split; [apply Z.div_pos|apply Z.div_lt_upper_bound]; lia.
Qed.
Lemma ascii_of_code_code c : ascii_of_code (ascii_code c) = c.
Proof. unfold ascii_of_code, ascii_code. by rewrite N2Z.id, ascii_N_embedding. Qed.

Lemma decode_other c s : c <> "%"%char -> decode (String c s) = String c (decode s).
Proof. intros Hc. destruct c as [[] [] [] [] [] [] [] []]; try reflexivity. by destruct Hc. Qed.

Lemma decode_encode s set : set "%"%char = true -> decode (encode s set) = s.
Proof.
  intros Hset. induction s as [|c s IH]; cbn [encode]; [done|].
  destruct (is_ascii c && negb (set c)) eqn:Hc.
  - rewrite decode_other, IH; [done|]. intros ->. by rewrite Hset in Hc.
  - cbn [decode]. rewrite !hex_upper_value by apply nibbles.
    rewrite IH, <-(Z.div_mod (ascii_code c) 16), ascii_of_code_code by lia. done.
Qed.

Lemma encode_writes s set : str_all (may_remain set) (encode s set) = true.
Proof.
  induction s as [|c s IH]; cbn [encode]; [done|].
  destruct (is_ascii c && negb (set c)) eqn:Hc; cbn [str_all]; rewrite IH.
  - unfold may_remain. rewrite Hc. by rewrite !orb_true_r.
  - unfold may_remain at 2 3. rewrite !hex_upper_hex by apply nibbles. by rewrite !orb_true_r.
Qed.

Lemma date_visible t : str_all (fun c => is_visible c && negb (Ascii.eqb c ";")) (date t) = true.
Proof.
  unfold date. rewrite str_all_app. simpl. pose proof (dec_digits t) as Hd. revert Hd. generalize (dec t).
  intros s. induction s as [|c s IH]; [done|]. cbn [str_all]. intros [Hc Hs]%andb_prop. rewrite (IH Hs), andb_true_r.
  unfold is_ascii_digit, in_range in Hc. apply andb_prop in Hc as [H1 H2]. apply Z.leb_le in H1, H2.
  change (ascii_code "0") with 48 in H1. change (ascii_code "9") with 57 in H2. unfold is_visible.
  destruct (Ascii.eqb_spec c ";") as [->|]; [by compute in H2|].
  apply andb_true_intro. split; [|done]. apply andb_true_intro. split; [apply Z.leb_le|apply Z.ltb_lt]; lia.
Qed.

#[refine, export] Instance lib : HttpLib := {|
  HeaderMap := map; HeaderValue := string; headers_new := []; get_all := all;
  headers_insert n v m := drop_name n m ++ [(n, v)];
  headers_append n v m := m ++ [(n, v)];
  headers_remove := drop_name;
  to_str := value; value_from_str := value; from_static s := s;
  name_from_bytes s := if bool_decide (s = EmptyString) then None else Some (to_ascii_lowercase s);
  Uri := uri; uri_path_and_query u := Some u.2; uri_query := query; uri_authority u := Some u.1;
  uri_scheme _ := None;
  uri_build _ authority path := Some (authority, path);
  url_parse := parse_url; byte_serialize s := encode s (fun c => Ascii.eqb c "%" || Ascii.eqb c ":" || Ascii.eqb c "/");
  form_parse := parse_form; utf8_percent_encode := encode; percent_decode_utf8 s := Some (decode s);
  cookie_date := date
|}.
Proof.
  - done.
  - intros n v m n'. rewrite all_app, all_drop. case_decide as Hn.
    + subst. by rewrite all_cons_eq.
    + rewrite all_cons_ne by done. apply app_nil_r.
  - intros n v m n'. rewrite all_app. case_decide as Hn; [subst; by rewrite all_cons_eq|].
    rewrite all_cons_ne by done. apply app_nil_r.
  - exact all_drop.
  - intros s Hs. exists s. unfold value. by rewrite Hs.
  - intros s Hs. unfold value. by rewrite Hs.
  - intros scheme authority path u [= <-]. done.
  - intros s set _ Hset. by rewrite decode_encode.
  - exact encode_writes.
  - exact date_visible.
Defined.
End SimpleHttp.
