(* ===== verification/Auth.v ===== *)
(** * Auth: [crates/auth/src], sign-in, sessions, tokens and authorization

    The service keeps no state of its own but the sessions; everything it
    needs from the clock, the random source, the database, the identity
    provider and the session store is a call ([acall]), and each function of
    the service is a program over those calls.  [M] adds the panics of the
    code ([expect]).  Responses carry their HTML pages as data ([Body]).
    [AuthRuns] proves what holds in every run. *)

From Stdlib Require Import ZArith Lia Ascii.
From S2P Require Import Prelude Text Types Db Instances Accounts Prog Http.
Open Scope Z_scope.

(** ** Data *)

(** [BoxError]: an error of the store behind a trait, or any other. *)
Inductive BoxError : Type := BoxStore (e : StoreError) | BoxOther (message : string).

(** [Error]. *)
Inductive AuthError : Type :=
  | Unauthenticated
  | Forbidden
  | TokenExpired
  | NoAccount
  | StoreFailed (operation : string) (source : BoxError).

(** [Session]. *)
Record Session : Type := mkSession {
  ss_id : string;
  ss_user_id : Z;
  ss_created_at : Z;
  ss_expires_at : Z
}.

(** [Claims], [NewAccount], [TokenLookup]. *)
Record Claims : Type := mkClaims {
  subject : string;
  email : string;
  nonce : string;
  preferred_username : string;
  name : string
}.
Record NewAccount : Type := mkNewAccount {
  preferred_name : string;
  na_email : string;
  na_oidc_subject : string
}.
Inductive TokenLookup : Type := TFound (token : Token) | TNotFound.

(** The bodies of responses: text, and the pages of [page.rs] and
    [pairing.rs] with what they are rendered from. *)
Inductive Body : Type :=
  | BText (text : string)
  | SignInPage (label domain : string)
  | ConfirmPage (token : string) (pairing : Pairing) (user : User)
  | LinkedPage (pairing : Pairing) (user : User)
  | DeadPage (reason : string).

(** What the service calls: the clock, the random source, the provider, and
    the traits [SessionStore], [UserStore], [AccessStore], [TokenStore],
    [InstanceNames], [Exchanger], [Verifier], [Provisioner], [PairingStore]. *)
Inductive acall : Type -> Type :=
  | Now : acall Z
  | RandomToken : acall string
  | OidcInstalled : acall bool
  | SessionPut (session : Session) : acall (result BoxError unit)
  | SessionGet (id : string) : acall (option Session)
  | SessionDelete (id : string) : acall unit
  | UserByOidcSubject (subject : string) : acall (result BoxError (option User))
  | UserById (id : Z) : acall (result BoxError (option User))
  | HasAccess (instance_uuid : string) (user_id : Z) : acall (result BoxError bool)
  | CreateToken (user_id : Z) (hash : string) (expires_at : option Z) : acall (result BoxError Token)
  | TokenByHash (hash : string) : acall (result BoxError TokenLookup)
  | DeleteToken (id : Z) : acall (result BoxError unit)
  | NameExists (name : string) : acall bool
  | Exchange (code : string) : acall (result BoxError string)
  | Verify (raw_id_token : string) : acall (result BoxError Claims)
  | Provision (account : NewAccount) : acall (result BoxError User)
  | PairingByTokenHash (token_hash : string) : acall (result BoxError (option Pairing))
  | LinkPairing (id user_id : Z) : acall (result BoxError bool).

(** A panic, with the message of the [expect] that raised it. *)
Inductive Panic : Type := Panicked (message : string).

Definition M : Type -> Type := fallible acall Panic.
#[global] Instance M_ret : MRet M := fallible_ret.
#[global] Instance M_bind : MBind M := fallible_bind.

(** [c.await]. *)
Definition await {R} (c : acall R) : M R := get c.

(** [Service], less the objects its calls go to; the flags say which of the
    optional ones are wired. *)
Record Service : Type := mkService {
  base_domain : string;
  instance_domain : string;
  has_instance_names : bool;
  has_provisioner : bool;
  has_pairings : bool;
  session_ttl : Z;
  login_path : string;
  provider_name : option string
}.

(** ** Construction: [lib.rs] *)

Definition DEFAULT_SESSION_TTL : Z := 7 * 24 * 3600 * nanos_per_sec.

Definition clean_domain (domain : string) : string :=
  to_ascii_lowercase (trim_end_matches (fun c => Ascii.eqb c ".") domain).

(** [Service::new]. *)
Definition Service_new (base : string) : Service :=
  let base := clean_domain base in
  mkService base base false false false DEFAULT_SESSION_TTL "/login" None.

(** [Service::with_instance_domain] and the other [with_] methods. *)
Definition with_instance_domain (domain : string) (s : Service) : Service :=
  let domain := clean_domain domain in
  if bool_decide (domain = "") then s
  else mkService (base_domain s) domain (has_instance_names s) (has_provisioner s) (has_pairings s)
         (session_ttl s) (login_path s) (provider_name s).
Definition with_instance_names (s : Service) : Service :=
  mkService (base_domain s) (instance_domain s) true (has_provisioner s) (has_pairings s)
    (session_ttl s) (login_path s) (provider_name s).
Definition with_provisioner (s : Service) : Service :=
  mkService (base_domain s) (instance_domain s) (has_instance_names s) true (has_pairings s)
    (session_ttl s) (login_path s) (provider_name s).
Definition with_pairings (s : Service) : Service :=
  mkService (base_domain s) (instance_domain s) (has_instance_names s) (has_provisioner s) true
    (session_ttl s) (login_path s) (provider_name s).
Definition with_provider_name (n : string) (s : Service) : Service :=
  mkService (base_domain s) (instance_domain s) (has_instance_names s) (has_provisioner s) (has_pairings s)
    (session_ttl s) (login_path s) (if bool_decide (n = "") then None else Some n).

(** A line feed and a double quote, for texts. *)
Definition LF : string := String (ascii_of_code 10) EmptyString.
Definition QUOTE : string := String (ascii_of_code 34) EmptyString.

(** ** Names of cookies *)

Definition SESSION_COOKIE_NAME : string := "bento_session".
Definition STATE_COOKIE_NAME : string := "bento_oauth_state".
Definition NONCE_COOKIE_NAME : string := "bento_oauth_nonce".
Definition NEXT_COOKIE_NAME : string := "bento_login_next".
Definition SILENT_COOKIE_NAME : string := "bento_sso_silent".
Definition PROBED_COOKIE_NAME : string := "bento_sso_probed".
Definition FLOW_COOKIE_TTL_SECONDS : Z := 10 * 60.
Definition PROBE_INTERVAL_SECONDS : Z := 10 * 60.
Definition TOKEN_PREFIX : string := "bento_".
Definition LINK_PATH_PREFIX : string := "/link/".

(** [COOKIE_ENCODE_SET]: [CONTROLS] and six more. *)
Definition is_control (c : ascii) : bool := (ascii_code c <? 32) || (ascii_code c =? 127).
Definition COOKIE_ENCODE_SET (c : ascii) : bool :=
  is_control c || Ascii.eqb c " " || (ascii_code c =? 34) || Ascii.eqb c "%" || Ascii.eqb c "," ||
  Ascii.eqb c ";" || (ascii_code c =? 92).

(** ** Account names: [oidc.rs] *)

Definition MAX_DERIVED_NAME : nat := 28.

Definition ends_with_hyphen (s : string) : bool :=
  match string_rev s with String c _ => Ascii.eqb c "-" | EmptyString => false end.

(** The loop of [sanitize_account_name]; characters outside ASCII stand for
    the bytes that encode them: both collapse to one hyphen. *)
Fixpoint sanitize_loop (value name : string) : string :=
  match value with
  | EmptyString => name
  | String character value' =>
      let lowered := lower_char character in
      let name :=
        if is_ascii_lowercase lowered || is_ascii_digit lowered then name +:+ String lowered EmptyString
        else if negb (ends_with_hyphen name) && negb (bool_decide (name = "")) then name +:+ "-"
        else name in
      if (MAX_DERIVED_NAME <=? String.length name)%nat then name else sanitize_loop value' name
  end.

(** [sanitize_account_name]. *)
Definition sanitize_account_name (value : string) : string :=
  trim_end_matches (fun c => Ascii.eqb c "-") (String.substring 0 MAX_DERIVED_NAME (sanitize_loop value "")).

(** [account_name_from]. *)
Definition account_name_from (claims : Claims) : string :=
  let email_local := match split_on "@" (email claims) with p :: _ => p | [] => "" end in
  default "user"
    (find_first (fun name => negb (bool_decide (name = "")))
       (sanitize_account_name <$> [preferred_username claims; email_local; name claims])).

Section Service.
Context `{HttpLib}.
(** SHA-256, and the provider's URL ([Exchanger::auth_code_url]). *)
Context (sha256 : string -> list Z) (auth_code_url : string -> string -> string).
Variable self : Service.

#[local] Abbreviation HttpResponse := (Response Body).

(** ** Cookies: [lib.rs], [session.rs] *)

Definition encode_cookie_value (value : string) : string := utf8_percent_encode value COOKIE_ENCODE_SET.

(** The text of [cookie_header]. *)
Definition cookie_text (name value : string) (domain : option string) (expires max_age : option Z) : string :=
  name +:+ "=" +:+ encode_cookie_value value +:+ "; Path=/" +:+
  match domain with Some d => "; Domain=" +:+ d | None => "" end +:+
  match expires with Some e => "; Expires=" +:+ cookie_date e | None => "" end +:+
  match max_age with Some m => "; Max-Age=" +:+ dec_signed m | None => "" end +:+
  "; HttpOnly; Secure; SameSite=Lax".

(** [cookie_header]. *)
Definition cookie_header (name value : string) (domain : option string) (expires max_age : option Z) :
    result Panic HeaderValue :=
  ok_or (value_from_str (cookie_text name value domain expires max_age))
    (Panicked "cookie components are validated or encoded").

Definition host_cookie (name value : string) (max_age : Z) : result Panic HeaderValue :=
  cookie_header name value None None (Some max_age).

Definition session_cookie (session : Session) : result Panic HeaderValue :=
  cookie_header SESSION_COOKIE_NAME (ss_id session) (Some (base_domain self)) (Some (ss_expires_at session)) None.

Definition clear_session_cookie : result Panic HeaderValue :=
  cookie_header SESSION_COOKIE_NAME "" (Some (base_domain self)) None (Some (-1)).

(** [cookie_value]. *)
Definition cookie_value (headers : HeaderMap) (name : string) : option string :=
  head (omap (fun pair => match pair with
                          | (candidate, value) =>
                              if bool_decide (candidate = name) then percent_decode_utf8 value else None
                          end)
         (omap (fun pair => split_once "=" (trim pair))
            (concat (split_on ";" <$> header_texts headers COOKIE)))).

(** [.filter(|v| !v.is_empty())]. *)
Definition nonempty (v : option string) : option string :=
  match v with Some s => if bool_decide (s = "") then None else Some s | None => None end.

(** [query_value]. *)
Definition query_value (uri : Uri) (name : string) : option string :=
  match uri_query uri with
  | Some query => snd <$> find_first (fun p => bool_decide (p.1 = name)) (form_parse query)
  | None => None
  end.

(** ** Responses: [lib.rs] *)

Definition text_response (st : Z) (message : string) : HttpResponse :=
  with_header CONTENT_TYPE (from_static "text/plain; charset=utf-8") (with_status st (response_new (BText message))).

Definition html_response (st : Z) (page : Body) : HttpResponse :=
  with_header CONTENT_TYPE (from_static "text/html; charset=utf-8") (with_status st (response_new page)).

Definition redirect_response (location : string) : HttpResponse :=
  match value_from_str location with
  | None => text_response INTERNAL_SERVER_ERROR ("invalid redirect target" +:+ LF)
  | Some location => with_header LOCATION location (with_status FOUND (response_new (BText "")))
  end.

(** [append_cookie], with the cookie as it was built. *)
Definition append_cookie (response : HttpResponse) (cookie : result Panic HeaderValue) : result Panic HttpResponse :=
  (fun c => with_appended SET_COOKIE c response) <$> cookie.

Definition append_cookies (response : HttpResponse) (cookies : list (result Panic HeaderValue)) :
    result Panic HttpResponse :=
  fold_res append_cookie response cookies.

(** ** Sessions: [session.rs] *)

(** [Service::new_session]. *)
Definition new_session (user_id : Z) : M (result AuthError Session) :=
  now ← await Now;
  id ← await RandomToken;
  let session := mkSession id user_id now (now + session_ttl self) in
  stored ← await (SessionPut session);
  mret (match stored with Ok _ => Ok session | Err error => Err (StoreFailed "store session" error) end).

(** [Service::session]. *)
Definition session (id : string) : M (option Session) :=
  if bool_decide (id = "") then mret None
  else
    found ← await (SessionGet id);
    match found with
    | None => mret None
    | Some session =>
        now ← await Now;
        if ss_expires_at session <=? now then (_ ← await (SessionDelete id); mret None)
        else mret (Some session)
    end.

(** [Service::session_from_headers]. *)
Definition session_from_headers (headers : HeaderMap) : M (option Session) :=
  match cookie_value headers SESSION_COOKIE_NAME with
  | None => mret None
  | Some id => session id
  end.

(** [flag_cookie] of [landing.rs]. *)
Definition flag_cookie (name : string) (set : bool) : result Panic HeaderValue :=
  if set then host_cookie name "1" PROBE_INTERVAL_SECONDS else host_cookie name "" (-1).

(** [Service::logout_response], with [suppress_next_probe]. *)
Definition logout_response (headers : HeaderMap) : M HttpResponse :=
  _ ← (match nonempty (cookie_value headers SESSION_COOKIE_NAME) with
       | Some id => await (SessionDelete id)
       | None => mret tt
       end);
  pure_res (append_cookies (redirect_response "/") [clear_session_cookie; flag_cookie PROBED_COOKIE_NAME true]).

(** ** Tokens: [token.rs] *)

Definition hash_token (plaintext : string) : string := hex_encode (sha256 plaintext).

(** [bearer_token]. *)
Definition SCHEME : string := "bearer ".
Definition bearer_token (headers : HeaderMap) : option string :=
  match header_get headers AUTHORIZATION ≫= to_str with
  | None => None
  | Some header =>
      let n := String.length SCHEME in
      if (String.length header <=? n)%nat || negb (eq_ignore_ascii_case (String.substring 0 n header) SCHEME) then None
      else nonempty (Some (trim (String.substring n (String.length header - n) header)))
  end.

(** [Service::mint_token]. *)
Definition mint_token (user_id ttl : Z) : M (result AuthError (string * Token)) :=
  random ← await RandomToken;
  let plaintext := TOKEN_PREFIX +:+ random in
  expires_at ← (if 0 <? ttl then (now ← await Now; mret (Some (now + ttl))) else mret None);
  token ← await (CreateToken user_id (hash_token plaintext) expires_at);
  mret (match token with
        | Ok token => Ok (plaintext, token)
        | Err error => Err (StoreFailed "store token" error)
        end).

(** [Service::authenticate_token]. *)
Definition authenticate_token (plaintext : string) : M (result AuthError Token) :=
  if bool_decide (plaintext = "") then mret (Err Unauthenticated)
  else
    lookup ← await (TokenByHash (hash_token plaintext));
    match lookup with
    | Err error => mret (Err (StoreFailed "token lookup" error))
    | Ok TNotFound => mret (Err Unauthenticated)
    | Ok (TFound token) =>
        match t_expires_at token with
        | None => mret (Ok token)
        | Some at_ => now ← await Now; mret (if at_ <=? now then Err TokenExpired else Ok token)
        end
    end.

(** [Service::revoke_token]. *)
Definition revoke_token (id : Z) : M (result AuthError unit) :=
  deleted ← await (DeleteToken id);
  mret (map_err (StoreFailed "delete token") deleted).

(** ** Authorization: [authorize.rs] *)

(** [Service::authorize_user_id]. *)
Definition authorize_user_id (user_id : Z) (instance_uuid : string) : M (result AuthError Z) :=
  allowed ← await (HasAccess instance_uuid user_id);
  mret (match allowed with
        | Err error => Err (StoreFailed ("access check for instance " +:+ instance_uuid) error)
        | Ok false => Err Forbidden
        | Ok true => Ok user_id
        end).

(** [Service::authorize], [authorize_request], [authorize_user]. *)
Definition authorize (session_id instance_uuid : string) : M (result AuthError Z) :=
  session ← session session_id;
  match session with
  | None => mret (Err Unauthenticated)
  | Some session => authorize_user_id (ss_user_id session) instance_uuid
  end.
Definition authorize_request (headers : HeaderMap) (instance_uuid : string) : M (result AuthError Z) :=
  match cookie_value headers SESSION_COOKIE_NAME with
  | None => mret (Err Unauthenticated)
  | Some session_id => authorize session_id instance_uuid
  end.
Definition authorize_user (user_id : Z) (instance_uuid : string) : M (result AuthError unit) :=
  allowed ← authorize_user_id user_id instance_uuid;
  mret ((fun _ => tt) <$> allowed).

(** ** Guards: [middleware.rs]; the success is the [UserId] placed in the
    request's extensions. *)

Definition unauthorized : HttpResponse :=
  with_header WWW_AUTHENTICATE (from_static ("Bearer realm=" +:+ QUOTE +:+ "bento" +:+ QUOTE))
    (text_response UNAUTHORIZED ("unauthorized" +:+ LF)).

Definition require_session (headers : HeaderMap) (uri : Uri) : M (result HttpResponse Z) :=
  session ← session_from_headers headers;
  mret (match session with
        | None =>
            let request_uri := default "/" (uri_path_and_query uri) in
            Err (redirect_response (login_path self +:+ "?next=" +:+ byte_serialize request_uri))
        | Some session => Ok (ss_user_id session)
        end).

Definition require_token (headers : HeaderMap) : M (result HttpResponse Z) :=
  match bearer_token headers with
  | None => mret (Err unauthorized)
  | Some plaintext =>
      token ← authenticate_token plaintext;
      mret (match token with Ok token => Ok (t_user_id token) | Err _ => Err unauthorized end)
  end.

Definition require_session_or_token (headers : HeaderMap) (uri : Uri) : M (result HttpResponse Z) :=
  match bearer_token headers with
  | Some _ => require_token headers
  | None => require_session headers uri
  end.

(** ** The landing page: [landing.rs], [page.rs] *)

(** [escape]. *)
Definition escape_char (c : ascii) : string :=
  if Ascii.eqb c "&" then "&amp;" else if Ascii.eqb c "<" then "&lt;" else if Ascii.eqb c ">" then "&gt;"
  else if ascii_code c =? 34 then "&quot;" else if Ascii.eqb c "'" then "&#39;" else String c EmptyString.
Fixpoint escape (value : string) : string :=
  match value with EmptyString => EmptyString | String c value' => escape_char c +:+ escape value' end.

(** [sign_in_page], [Service::splash_page]. *)
Definition sign_in_page (provider : option string) (domain : string) : Body :=
  SignInPage (match nonempty provider with Some n => "Sign in with " +:+ escape n | None => "Sign in" end)
    (escape domain).
Definition splash_page : Body := sign_in_page (provider_name self) (base_domain self).

(** [flow_cookie] and the three of [attach_flow_cookies]. *)
Definition flow_cookie (name value : string) : result Panic HeaderValue :=
  host_cookie name value (if bool_decide (value = "") then -1 else FLOW_COOKIE_TTL_SECONDS).
Definition flow_cookies (state nonce next : string) : list (result Panic HeaderValue) :=
  [flow_cookie STATE_COOKIE_NAME state; flow_cookie NONCE_COOKIE_NAME nonce; flow_cookie NEXT_COOKIE_NAME next].

(** [Exchanger::auth_code_url_silent]. *)
Definition auth_code_url_silent (state nonce : string) : string :=
  let url := auth_code_url state nonce in
  url +:+ (if contains_char "?" url then "&" else "?") +:+ "prompt=none".

(** [Service::silent_login_response]. *)
Definition silent_login_response : M HttpResponse :=
  installed ← await OidcInstalled;
  if negb installed then mret (html_response OK_ splash_page)
  else
    state ← await RandomToken;
    nonce ← await RandomToken;
    pure_res (append_cookies (redirect_response (auth_code_url_silent state nonce))
                (flow_cookies state nonce "/" ++ [flag_cookie SILENT_COOKIE_NAME true])).

(** [Service::probe_failed_response]; the cookies of [clear_probe_cookies]. *)
Definition probe_failed_response : result Panic HttpResponse :=
  append_cookies (html_response OK_ splash_page)
    [flag_cookie SILENT_COOKIE_NAME false; flag_cookie PROBED_COOKIE_NAME true].
Definition clear_probe_cookies : list (result Panic HeaderValue) :=
  [flag_cookie SILENT_COOKIE_NAME false; flag_cookie PROBED_COOKIE_NAME false].

(** [accepts_html], [is_dashboard_asset]. *)
Definition accepts_html (headers : HeaderMap) : bool :=
  match header_get headers ACCEPT ≫= to_str with
  | Some value => contains_text "text/html" value
  | None => false
  end.
Definition is_dashboard_asset (path : string) : bool :=
  contains_char "." (match rsplit_once "/" path with Some (_, segment) => segment | None => path end).

(** [Service::dashboard_gate]. *)
Definition dashboard_gate (headers : HeaderMap) : M (option HttpResponse) :=
  session ← session_from_headers headers;
  match session with
  | Some _ => mret None
  | None =>
      installed ← await OidcInstalled;
      if installed && bool_decide (cookie_value headers PROBED_COOKIE_NAME = None) && accepts_html headers then
        response ← silent_login_response; mret (Some response)
      else mret (Some (html_response OK_ splash_page))
  end.

(** ** OIDC: [oidc.rs] *)

Definition url_host (host : string) : string :=
  to_ascii_lowercase (trim_end_matches (fun c => Ascii.eqb c ".") host).

(** [Service::safe_next]. *)
Definition safe_next (next : string) : string :=
  if bool_decide (next = "") then "/"
  else if starts_with "/" next then (if starts_with "//" next then "/" else next)
  else
    match url_parse next with
    | None => "/"
    | Some (scheme, host) =>
        if negb (bool_decide (scheme = "https")) then "/"
        else
          match url_host <$> host with
          | None => "/"
          | Some host =>
              if bool_decide (host = base_domain self) then next
              else
                match strip_suffix ("." +:+ instance_domain self) host with
                | Some label => if negb (contains_char "." label) && valid_name label then next else "/"
                | None => "/"
                end
          end
    end.

(** [Service::checked_next]. *)
Definition checked_next (next : string) : M string :=
  let next := safe_next next in
  if starts_with "/" next then mret next
  else
    match (match url_parse next with Some (_, host) => url_host <$> host | None => None end) with
    | None => mret "/"
    | Some host =>
        if bool_decide (host = base_domain self) then mret next
        else
          match strip_suffix ("." +:+ instance_domain self) host with
          | None => mret "/"
          | Some label =>
              if has_instance_names self then (exists_ ← await (NameExists label); mret (match exists_ with true => next | false => "/" end))
              else mret "/"
          end
    end.

(** [Service::login_response]. *)
Definition login_response (uri : Uri) : M HttpResponse :=
  installed ← await OidcInstalled;
  if negb installed then mret (text_response INTERNAL_SERVER_ERROR ("OIDC is not configured" +:+ LF))
  else
    state ← await RandomToken;
    nonce ← await RandomToken;
    let next := safe_next (default "" (query_value uri "next")) in
    pure_res (append_cookies (redirect_response (auth_code_url state nonce)) (flow_cookies state nonce next)).

(** The end of [Service::callback_response]: a session for the user. *)
Definition finish_login (headers : HeaderMap) (user : User) : M HttpResponse :=
  session ← new_session (u_id user);
  match session with
  | Err _ => mret (text_response INTERNAL_SERVER_ERROR ("session creation failed" +:+ LF))
  | Ok session =>
      next ← (match cookie_value headers NEXT_COOKIE_NAME with
              | Some next => checked_next next
              | None => mret "/"
              end);
      pure_res (append_cookies (redirect_response next)
                  (flow_cookies "" "" "" ++ clear_probe_cookies ++ [session_cookie session]))
  end.

(** The middle: the account of verified claims. *)
Definition login_user (headers : HeaderMap) (claims : Claims) : M HttpResponse :=
  existing ← await (UserByOidcSubject (subject claims));
  match existing with
  | Err _ => mret (text_response INTERNAL_SERVER_ERROR ("user lookup failed" +:+ LF))
  | Ok (Some user) => finish_login headers user
  | Ok None =>
      if has_provisioner self then
        user ← await (Provision (mkNewAccount (account_name_from claims) (email claims) (subject claims)));
        match user with
        | Ok user => finish_login headers user
        | Err _ => mret (text_response INTERNAL_SERVER_ERROR ("account creation failed" +:+ LF))
        end
      else mret (text_response FORBIDDEN ("no Bento account for this login, and signups are closed" +:+ LF))
  end.

(** [Service::callback_response]. *)
Definition callback_response (headers : HeaderMap) (uri : Uri) : M HttpResponse :=
  installed ← await OidcInstalled;
  if negb installed then mret (text_response INTERNAL_SERVER_ERROR ("OIDC is not configured" +:+ LF))
  else
    match nonempty (query_value uri "error") with
    | Some error =>
        if bool_decide (cookie_value headers SILENT_COOKIE_NAME = Some "1") then pure_res probe_failed_response
        else mret (text_response FORBIDDEN ("login failed at the provider: " +:+ error +:+ LF))
    | None =>
        match nonempty (cookie_value headers STATE_COOKIE_NAME) with
        | None => mret (text_response BAD_REQUEST ("missing login state; start again at /login" +:+ LF))
        | Some state_cookie =>
            if negb (bool_decide (query_value uri "state" = Some state_cookie)) then
              mret (text_response BAD_REQUEST ("state mismatch" +:+ LF))
            else
              raw_id_token ← await (Exchange (default "" (query_value uri "code")));
              match raw_id_token with
              | Err _ => mret (text_response BAD_GATEWAY ("code exchange failed" +:+ LF))
              | Ok raw_id_token =>
                  claims ← await (Verify raw_id_token);
                  match claims with
                  | Err _ => mret (text_response UNAUTHORIZED ("invalid ID token" +:+ LF))
                  | Ok claims =>
                      if negb (bool_decide (nonempty (cookie_value headers NONCE_COOKIE_NAME) = Some (nonce claims)))
                      then mret (text_response BAD_REQUEST ("nonce mismatch" +:+ LF))
                      else login_user headers claims
                  end
              end
        end
    end.

(** ** Linking SSH keys: [pairing.rs] *)

(** [new_link_token]. *)
Definition new_link_token : M (string * string) :=
  plaintext ← await RandomToken;
  mret (plaintext, hash_token plaintext).

(** [Resolved]. *)
Inductive Resolved : Type :=
  | Live (pairing : Pairing) (user : User)
  | Dead (reason : string)
  | Broken (st : Z) (message : string).

(** [Service::resolve_link]. *)
Definition resolve_link (headers : HeaderMap) (token : string) : M Resolved :=
  if negb (has_pairings self) then mret (Broken INTERNAL_SERVER_ERROR "linking is not wired")
  else
    session ← session_from_headers headers;
    match session with
    | None => mret (Broken UNAUTHORIZED "sign in and open the link again")
    | Some session =>
        user ← await (UserById (ss_user_id session));
        match user with
        | Ok None => mret (Broken UNAUTHORIZED "this session has no account")
        | Err _ => mret (Broken INTERNAL_SERVER_ERROR "user lookup failed")
        | Ok (Some user) =>
            pairing ← await (PairingByTokenHash (hash_token token));
            match pairing with
            | Ok None => mret (Dead "This link is not one Bento handed out, or it has been cleaned up.")
            | Err _ => mret (Broken INTERNAL_SERVER_ERROR "pairing lookup failed")
            | Ok (Some pairing) =>
                if bool_decide (is_Some (pr_linked_user_id pairing)) then mret (Dead "This link has already been used.")
                else
                  now ← await Now;
                  if pr_expires_at pairing <=? now then
                    mret (Dead "This link has expired. Connect over SSH again for a new one.")
                  else mret (Live pairing user)
            end
        end
    end.

(** [urlencode]. *)
Definition QUERY (c : ascii) : bool :=
  is_ascii c && negb (is_ascii_lowercase c || is_ascii_uppercase c || is_ascii_digit c ||
                      Ascii.eqb c "-" || Ascii.eqb c "_" || Ascii.eqb c "." || Ascii.eqb c "~").
Definition urlencode (value : string) : string := utf8_percent_encode value QUERY.

(** What a resolved link that is not live answers. *)
Definition unusable (r : Resolved) (live : Pairing -> User -> M HttpResponse) : M HttpResponse :=
  match r with
  | Live pairing user => live pairing user
  | Dead reason => mret (html_response GONE (DeadPage reason))
  | Broken st message => mret (text_response st (message +:+ LF))
  end.

(** [Service::link_page_response]. *)
Definition link_page_response (headers : HeaderMap) (token : string) : M HttpResponse :=
  session ← session_from_headers headers;
  match session with
  | None => mret (redirect_response (login_path self +:+ "?next=" +:+ LINK_PATH_PREFIX +:+ urlencode token))
  | Some _ =>
      r ← resolve_link headers token;
      unusable r (fun pairing user => mret (html_response OK_ (ConfirmPage token pairing user)))
  end.

(** [Service::link_confirm_response]. *)
Definition link_confirm_response (headers : HeaderMap) (token : string) : M HttpResponse :=
  r ← resolve_link headers token;
  unusable r (fun pairing user =>
    if negb (has_pairings self) then mret (text_response INTERNAL_SERVER_ERROR ("linking is not wired" +:+ LF))
    else
      linked ← await (LinkPairing (pr_id pairing) (u_id user));
      match linked with
      | Ok true => mret (html_response OK_ (LinkedPage pairing user))
      | Ok false => mret (html_response GONE (DeadPage "This link was already used, or it ran out of time."))
      | Err _ => mret (text_response INTERNAL_SERVER_ERROR ("linking failed" +:+ LF))
      end).
End Service.
