(* ===== verification/AuthRuns.v ===== *)
(** * AuthRuns: what the sign-in service of [Auth] does in every run

    Whatever the stores, the clock and the identity provider answer: a login
    needs the state, the code, the verified token and the nonce; the redirect
    after it stays on the deployment; only a confirmation links an SSH key;
    no cookie makes the service panic.  And of its pure parts: cookies survive
    the browser; derived account names obey the grammar. *)

From Stdlib Require Import ZArith Lia Ascii.
From S2P Require Import Prelude Text Types Db Instances Accounts Prog Http Auth.
Open Scope Z_scope.

(** ** Account names *)

Definition name_char (c : ascii) : bool := label_char c || Ascii.eqb c "-".

Lemma chars_app s t : chars (s +:+ t) = chars s ++ chars t.
Proof. induction s as [|c s IH]; [done|]. simpl. by rewrite <-IH. Qed.
Lemma chars_rev s : chars (string_rev s) = reverse (chars s).
Proof.
  induction s as [|c s IH]; [done|]. rewrite string_rev_cons, chars_app, IH. simpl. by rewrite reverse_cons.
Qed.
Lemma chars_length s : length (chars s) = String.length s.
Proof. induction s; simpl; congruence. Qed.
Lemma chars_all p s : forallb p (chars s) = str_all p s.
Proof. induction s as [|c s IH]; simpl; congruence. Qed.

Lemma valid_name_intro s c s' d t : s = String c s' -> string_rev s = String d t ->
  label_char c = true -> label_char d = true -> str_all name_char s = true -> (String.length s <= 63)%nat ->
  valid_name s = true.
Proof.
  intros Hs Hr Hc Hd Hall Hlen. unfold valid_name. rewrite chars_all, chars_length.
  assert (chars s = reverse (chars t) ++ [d]) as Hlast.
  { rewrite <-reverse_cons, <-(string_rev_rev s), chars_rev, Hr. done. }
  replace (chars s !! (String.length s - 1)%nat) with (Some d); last first.
  { rewrite <-chars_length, Hlast, length_app, Nat.add_sub. symmetry. by apply list_lookup_middle. }
  clear Hlast Hr.
  rewrite Hd. subst s. cbn [chars lookup list_lookup]. rewrite Hc. unfold name_char in Hall. rewrite Hall.
  rewrite bool_decide_eq_false_2 by done. simpl. rewrite !andb_true_r. apply Z.leb_le. simpl in Hlen. lia.
Qed.

(** Cutting characters off the end. *)
Lemma trim_start_spec p s :
  exists t, s = t +:+ trim_start_matches p s /\
  match trim_start_matches p s with String c _ => p c = false | EmptyString => True end.
Proof.
  induction s as [|c s IH]; simpl; [by exists ""%string|]. destruct (p c) eqn:Hc.
  - destruct IH as (t & Ht & Hm). exists (String c t). split; [|done]. exact (f_equal (String c) Ht).
  - exists ""%string. by split.
Qed.
Lemma trim_end_spec p s :
  exists t, s = trim_end_matches p s +:+ t /\
  match string_rev (trim_end_matches p s) with String c _ => p c = false | EmptyString => True end.
Proof.
  unfold trim_end_matches. destruct (trim_start_spec p (string_rev s)) as (t & Ht & Hm). exists (string_rev t).
  rewrite string_rev_rev. split; [|done].
  by rewrite <-string_rev_append, <-Ht, string_rev_rev.
Qed.

(** What the loop keeps: nothing, or a label character and then label
    characters and hyphens. *)
Definition tidy (s : string) : Prop :=
  str_all name_char s = true /\ (String.length s <= MAX_DERIVED_NAME)%nat /\
  match s with String c _ => label_char c = true | EmptyString => True end.

Lemma tidy_snoc s c : tidy s -> (String.length s < MAX_DERIVED_NAME)%nat ->
  label_char c = true \/ (c = "-"%char /\ s <> ""%string) -> tidy (s +:+ String c EmptyString).
Proof.
  intros (Hall & Hlen & Hfirst) Hlt Hc. split; [|split].
  - rewrite str_all_app, Hall. simpl. rewrite andb_true_r. unfold name_char. destruct Hc as [->|[-> _]]; [done|].
    by rewrite orb_true_r.
  - rewrite string_length_app. simpl. lia.
  - destruct s as [|a s]; [|done]. destruct Hc as [Hc|[_ Hc]]; [done|congruence].
Qed.

Lemma sanitize_loop_tidy value name : tidy name -> (String.length name < MAX_DERIVED_NAME)%nat ->
  tidy (sanitize_loop value name).
Proof.
  revert name. induction value as [|c value IH]; intros name Hn Hlt; cbn [sanitize_loop]; [done|].
  set (name' := if _ || _ then _ else _).
  assert (tidy name') as Hn'.
  { subst name'. destruct (is_ascii_lowercase _ || _) eqn:Hc; [by apply tidy_snoc; auto|].
    destruct (negb (ends_with_hyphen name) && _) eqn:Hh; [|done]. apply tidy_snoc; [done..|]. right. split; [done|].
    apply andb_prop in Hh as [_ Hh]. by rewrite negb_true_iff, bool_decide_eq_false in Hh. }
  destruct (Nat.leb_spec MAX_DERIVED_NAME (String.length name')); [done|]. by apply IH.
Qed.

Lemma substring_all n s : (String.length s <= n)%nat -> String.substring 0 n s = s.
Proof.
  revert n. induction s as [|c s IH]; intros [|n]; simpl; intros Hn; try done; [lia|]. by rewrite IH by lia.
Qed.

Lemma sanitize_valid value : sanitize_account_name value <> ""%string ->
  valid_name (sanitize_account_name value) = true /\
  (String.length (sanitize_account_name value) <= MAX_DERIVED_NAME)%nat.
Proof.
  unfold sanitize_account_name.
  destruct (sanitize_loop_tidy value "") as (Hall & Hlen & Hfirst); [repeat split; simpl; lia|simpl; unfold MAX_DERIVED_NAME; lia|].
  rewrite substring_all by done. set (s := sanitize_loop value "") in *.
  destruct (trim_end_spec (fun c => Ascii.eqb c "-") s) as (t & Ht & Hlast).
  set (r := trim_end_matches _ s) in *. intros Hr.
  rewrite Ht, str_all_app in Hall. apply andb_prop in Hall as [Hall _].
  assert (String.length r <= MAX_DERIVED_NAME)%nat as Hlr by (rewrite Ht, string_length_app in Hlen; lia).
  split; [|done].
  destruct r as [|c r'] eqn:Er; [done|]. rewrite <-Er in *. rewrite Ht, Er in Hfirst.
  destruct (string_rev r) as [|d q] eqn:Eq.
  { apply (f_equal string_rev) in Eq. rewrite string_rev_rev in Eq. by rewrite Eq in Er. }
  apply (valid_name_intro r c r' d q); [done..| |done|unfold MAX_DERIVED_NAME in Hlr; lia].
  assert (str_all name_char (string_rev r) = true) as Hd by by rewrite string_rev_all. rewrite Eq in Hd.
  cbn [str_all] in Hd. apply andb_prop in Hd as [Hd _]. unfold name_char in Hd. rewrite Hlast in Hd.
  by rewrite orb_false_r in Hd.
Qed.

Lemma variant_length n suffix : (String.length n <= MAX_DERIVED_NAME)%nat -> 1 <= suffix <= NAME_VARIANTS ->
  (String.length (name_variant n suffix) <= 32)%nat.
Proof.
  intros Hn Hs. assert (suffix ∈ range 1 (NAME_VARIANTS + 1)) as Hin by (apply elem_of_range; lia).
  assert (forallb (fun k => (String.length (dec k) <=? 3)%nat) (range 1 (NAME_VARIANTS + 1)) = true) as Hall by by vm_compute.
  rewrite forallb_forall in Hall. apply list_elem_of_In, Hall, Nat.leb_le in Hin. unfold name_variant, MAX_DERIVED_NAME in *.
  case_match; [lia|]. rewrite !string_length_app. simpl. lia.
Qed.

(** An account name derived from an identity provider's claims, whatever
    they are, is a valid DNS label of at most 28 characters, so that every
    variant the store may try ([-2] to [-100]) has at most 32. *)
Theorem derived_name_valid (claims : Claims) :
  valid_name (account_name_from claims) = true /\
  (String.length (account_name_from claims) <= MAX_DERIVED_NAME)%nat /\
  forall suffix, 1 <= suffix <= NAME_VARIANTS ->
    (String.length (name_variant (account_name_from claims) suffix) <= 32)%nat.
Proof.
  enough (valid_name (account_name_from claims) = true /\
    (String.length (account_name_from claims) <= MAX_DERIVED_NAME)%nat) as [Hv Hl] by auto using variant_length.
  unfold account_name_from. set (l := sanitize_account_name <$> _).
  destruct (find_first _ l) as [n|] eqn:Hf; simpl; [|split; [reflexivity|unfold MAX_DERIVED_NAME; simpl; lia]].
  apply find_first_elem in Hf as [Hin Hn].
  apply list_elem_of_fmap in Hin as (v & -> & _). apply sanitize_valid.
  by rewrite negb_true_iff, bool_decide_eq_false in Hn.
Qed.

(** ** Cookies *)

Section Cookies.
Context `{HttpLib}.

(** What a browser keeps of a cookie and sends back. *)
Definition cookie_pair (e : string * string) : string := e.1 +:+ "=" +:+ encode_cookie_value e.2.

(** A cookie's name is visible text without separators, its value is ASCII. *)
Definition cookie_name_char (c : ascii) : bool :=
  is_visible c && negb (is_space c) && negb (Ascii.eqb c "=") && negb (Ascii.eqb c ";").
Definition cookie_ok (e : string * string) : Prop :=
  str_all cookie_name_char e.1 = true /\ str_all is_ascii e.2 = true.

(** The characters of a pair. *)
Definition pair_char (c : ascii) : bool := is_visible c && negb (is_space c) && negb (Ascii.eqb c ";").

Lemma str_all_mono (p q : ascii -> bool) s : (forall c, p c = true -> q c = true) -> str_all p s = true -> str_all q s = true.
Proof. intros Hpq. induction s as [|c s IH]; simpl; [done|]. intros [Hc Hs]%andb_prop. by rewrite (Hpq c Hc), IH. Qed.

(** A fact about every character, checked on all of them. *)
Lemma all_chars (p : ascii -> bool) :
  forallb (fun n => p (ascii_of_N (N.of_nat n))) (seq 0 256) = true -> forall c, p c = true.
Proof.
  intros Hall c. rewrite forallb_forall in Hall. specialize (Hall (N.to_nat (N_of_ascii c))).
  rewrite N2Nat.id, ascii_N_embedding in Hall. apply Hall, in_seq. pose proof (N_ascii_bounded c). lia.
Qed.
Lemma char_implies (p q : ascii -> bool) :
  forallb (fun n => implb (p (ascii_of_N (N.of_nat n))) (q (ascii_of_N (N.of_nat n)))) (seq 0 256) = true ->
  forall c, p c = true -> q c = true.
Proof.
  intros Hall c Hp. pose proof (all_chars (fun c => implb (p c) (q c)) Hall c) as Hc. simpl in Hc. by rewrite Hp in Hc.
Qed.

Lemma encoded_chars v : str_all pair_char (encode_cookie_value v) = true.
Proof.
  eapply str_all_mono; [|apply (percent_encode_writes v COOKIE_ENCODE_SET)]. by apply char_implies; vm_compute.
Qed.

Lemma pair_chars e : cookie_ok e -> str_all pair_char (cookie_pair e) = true.
Proof.
  intros [Hn _]. unfold cookie_pair. rewrite !str_all_app, encoded_chars, andb_true_r.
  eapply str_all_mono; [|exact Hn]. by apply char_implies; vm_compute.
Qed.

Lemma pair_free e : cookie_ok e -> free ";" (cookie_pair e).
Proof. intros He. eapply str_all_mono; [|by apply pair_chars]. by apply char_implies; vm_compute. Qed.

Lemma name_free e : cookie_ok e -> free "=" e.1.
Proof. intros [Hn _]. eapply str_all_mono; [|exact Hn]. by apply char_implies; vm_compute. Qed.

Lemma trim_pair e : cookie_ok e -> trim (cookie_pair e) = cookie_pair e.
Proof. intros He. apply trim_none. eapply str_all_mono; [|by apply pair_chars]. by apply char_implies; vm_compute. Qed.

(** [split(';')] of what a browser sends. *)
Lemma split_pairs e jar : Forall cookie_ok (e :: jar) ->
  split_on ";" (join "; " (cookie_pair <$> (e :: jar))) = cookie_pair e :: ((fun e => " " +:+ cookie_pair e) <$> jar).
Proof.
  revert e. induction jar as [|e' jar IH]; intros e [He Hjar]%Forall_cons.
  - cbn [fmap list_fmap join]. apply split_on_free. by apply pair_free.
  - change (join "; " (cookie_pair <$> e :: e' :: jar))
      with (cookie_pair e +:+ String ";" (String " " (join "; " (cookie_pair <$> e' :: jar)))).
    rewrite split_on_app by by apply pair_free. f_equal.
    change (match split_on ";" (join "; " (cookie_pair <$> e' :: jar)) with
            | [] => [" "%string] | p :: ps => String " " p :: ps end = (fun e => " " +:+ cookie_pair e) <$> e' :: jar).
    by rewrite (IH e' Hjar).
Qed.

Lemma parse_pair e : cookie_ok e ->
  split_once "=" (trim (cookie_pair e)) = Some (e.1, encode_cookie_value e.2).
Proof. intros He. rewrite trim_pair by done. apply split_once_app. by apply name_free. Qed.
Lemma parse_spaced e : cookie_ok e ->
  split_once "=" (trim (" " +:+ cookie_pair e)) = Some (e.1, encode_cookie_value e.2).
Proof. intros He. rewrite <-(parse_pair e He). done. Qed.

Lemma parse_pairs (f : string * string -> string) jar :
  (forall e, cookie_ok e -> split_once "=" (trim (f e)) = Some (e.1, encode_cookie_value e.2)) ->
  Forall cookie_ok jar ->
  omap (fun pair => split_once "=" (trim pair)) (f <$> jar) = (fun e => (e.1, encode_cookie_value e.2)) <$> jar.
Proof.
  intros Hf Hjar. induction Hjar as [|e jar He Hjar IH]; [done|]. cbn. by rewrite (Hf e He), IH.
Qed.

Lemma find_pair name jar : Forall cookie_ok jar ->
  head (omap (fun pair : string * string => match pair with
                          | (candidate, value) =>
                              if bool_decide (candidate = name) then percent_decode_utf8 value else None
                          end) ((fun e => (e.1, encode_cookie_value e.2)) <$> jar)) =
  snd <$> find_first (fun e => bool_decide (e.1 = name)) jar.
Proof.
  intros Hjar. induction Hjar as [|e jar [_ Hv] Hjar IH]; [done|]. cbn [fmap list_fmap find_first]. cbn.
  case_bool_decide as Hn; [|exact IH].
  unfold encode_cookie_value. by rewrite percent_round_trip.
Qed.

(** A browser keeps what stands before the first semicolon of a cookie. *)
Lemma cookie_text_pair n v domain expires max_age : cookie_ok (n, v) ->
  exists attributes, split_once ";" (cookie_text n v domain expires max_age) = Some (cookie_pair (n, v), attributes).
Proof.
  intros He. unfold cookie_text.
  set (rest := (match domain with Some d => _ | None => _ end +:+ _)%string). exists (" Path=/" +:+ rest).
  rewrite <-(split_once_app ";" (cookie_pair (n, v))) by by apply pair_free. unfold cookie_pair.
  by rewrite !string_app_assoc.
Qed.

(** Cookies survive the browser: it keeps what stands before the first
    semicolon of each [Set-Cookie], whose encoded value holds no separator,
    and sends its jar back joined by semicolons; [cookie_value] then reads
    exactly the first value of that name, and nothing for other names. *)
Theorem cookie_round_trip (headers : HeaderMap) (jar : list (string * string)) :
  Forall cookie_ok jar ->
  header_texts headers COOKIE = [join "; " (cookie_pair <$> jar)] ->
  (forall e domain expires max_age, e ∈ jar ->
     exists attributes, split_once ";" (cookie_text e.1 e.2 domain expires max_age) = Some (cookie_pair e, attributes)) /\
  forall name, cookie_value headers name = snd <$> find_first (fun e => bool_decide (e.1 = name)) jar.
Proof.
  intros Hjar Hh. split.
  - intros [n v] domain expires max_age He. rewrite Forall_forall in Hjar. by apply cookie_text_pair, Hjar.
  - intros name. unfold cookie_value. rewrite Hh. cbn [fmap list_fmap concat]. rewrite app_nil_r.
    destruct jar as [|e jar]; [done|]. rewrite split_pairs by done. rewrite <-find_pair by done. f_equal. f_equal.
    apply Forall_cons in Hjar as [He Hjar]. cbn [fmap list_fmap]. rewrite <-(parse_pairs _ jar parse_spaced Hjar).
    cbn [omap list_omap]. by rewrite (parse_pair e He).
Qed.
End Cookies.

(** ** Every run *)

Section Runs.
Context `{HttpLib}.
Variable self : Service.

Lemma always_M_bind {A B} (p : M A) (f : A -> M B) P :
  always p (fun tr r => match r with
                        | Ok a => always (f a) (fun tr' b => P (tr ++ tr') b)
                        | Err e => P tr (Err e)
                        end) ->
  always (p ≫= f) P.
Proof.
  intros Hp. apply always_bind. eapply always_mono; [|exact Hp]. intros tr [a|e]; [done|]. simpl.
  by rewrite app_nil_r.
Qed.

Lemma always_await {R B} (c : acall R) (f : R -> M B) P :
  (forall r, always (f r) (fun tr b => P (mkEvent c r :: tr) b)) -> always (await c ≫= f) P.
Proof. done. Qed.

(** *** Panics *)

Definition calm {A} (p : M A) : Prop := always p (fun _ r => is_ok r = true).

Lemma calm_bind {A B} (p : M A) (f : A -> M B) : calm p -> (forall a, calm (f a)) -> calm (p ≫= f).
Proof.
  intros Hp Hf. apply always_M_bind. eapply always_mono; [|exact Hp]. intros tr [a|e]; [|done]. intros _. apply Hf.
Qed.
Lemma calm_await {R} (c : acall R) : calm (await c).
Proof. done. Qed.
Lemma calm_ret {A} (a : A) : calm (mret a).
Proof. done. Qed.
Lemma calm_pure {A} (r : result Panic A) : is_ok r = true -> calm (pure_res r).
Proof. done. Qed.

Ltac calm_steps :=
  repeat first
    [ lazymatch goal with
      | |- calm (await _) => apply calm_await
      | |- calm (mret _) => apply calm_ret
      | |- calm (_ ≫= _) => apply calm_bind; [|intros ?]
      end
    | progress case_match ].

Definition visible (s : string) : Prop := str_all is_visible s = true.

Lemma visible_app s t : visible s -> visible t -> visible (s +:+ t).
Proof. unfold visible. rewrite str_all_app. by intros -> ->. Qed.
Lemma dec_signed_visible z : visible (dec_signed z).
Proof.
  assert (forall z, visible (dec z)) as Hd.
  { intros z'. eapply str_all_mono; [|apply (dec_digits z')]. by apply char_implies; vm_compute. }
  unfold dec_signed. case_match; [|done]. by apply (visible_app "-").
Qed.
Lemma encoded_visible v : visible (encode_cookie_value v).
Proof. eapply str_all_mono; [|apply encoded_chars]. by apply char_implies; vm_compute. Qed.
Lemma date_is_visible t : visible (cookie_date t).
Proof. eapply str_all_mono; [|apply (cookie_date_visible t)]. by apply char_implies; vm_compute. Qed.

Lemma cookie_header_ok n v domain expires max_age :
  visible n -> match domain with Some d => visible d | None => True end ->
  is_ok (cookie_header n v domain expires max_age) = true.
Proof.
  intros Hn Hd. unfold cookie_header.
  destruct (value_of_visible (cookie_text n v domain expires max_age)) as (hv & -> & _); [|done].
  unfold cookie_text. repeat apply visible_app; auto using encoded_visible; try done.
  - destruct domain; [|done]. by apply visible_app.
  - destruct expires; [|done]. apply visible_app; [done|]. apply date_is_visible.
  - destruct max_age; [|done]. apply visible_app; [done|]. apply dec_signed_visible.
Qed.

Lemma append_cookies_ok response cookies :
  Forall (fun c => is_ok c = true) cookies -> is_ok (append_cookies response cookies) = true.
Proof.
  intros Hc. unfold append_cookies. revert response.
  induction Hc as [|c cookies Hc Hcs IH]; intros response; cbn [fold_res]; [done|].
  destruct c as [v|]; [|done]. apply IH.
Qed.

Lemma host_cookie_ok n v max_age : visible n -> is_ok (host_cookie n v max_age) = true.
Proof. intros Hn. by apply cookie_header_ok. Qed.
Lemma flag_cookie_ok n set : visible n -> is_ok (flag_cookie n set) = true.
Proof. intros Hn. unfold flag_cookie. case_match; by apply host_cookie_ok. Qed.
Lemma flow_cookies_ok state nonce next : Forall (fun c => is_ok c = true) (flow_cookies state nonce next).
Proof. repeat constructor; by apply host_cookie_ok. Qed.

Lemma session_calm id : calm (session id).
Proof. unfold session. calm_steps. Qed.
Lemma session_from_headers_calm headers : calm (session_from_headers headers).
Proof. unfold session_from_headers. calm_steps. apply session_calm. Qed.
Lemma checked_next_calm next : calm (checked_next self next).
Proof. unfold checked_next. calm_steps. Qed.
Lemma new_session_calm user : calm (new_session self user).
Proof. unfold new_session. calm_steps. Qed.

Lemma finish_login_calm headers user : visible (base_domain self) -> calm (finish_login self headers user).
Proof.
  intros Hb. unfold finish_login. calm_steps; try apply new_session_calm; try apply checked_next_calm.
  apply calm_pure, append_cookies_ok. rewrite !Forall_app. repeat split; [apply flow_cookies_ok| |].
  - repeat constructor; by apply flag_cookie_ok.
  - repeat constructor. by apply cookie_header_ok.
Qed.
Lemma silent_calm auth_code_url : calm (silent_login_response auth_code_url self).
Proof.
  unfold silent_login_response. calm_steps. apply calm_pure, append_cookies_ok, Forall_app.
  split; [apply flow_cookies_ok|]. repeat constructor. by apply flag_cookie_ok.
Qed.
Lemma resolve_calm sha256 headers token : calm (resolve_link sha256 self headers token).
Proof. unfold resolve_link. calm_steps. apply session_from_headers_calm. Qed.

(** The [expect] on a cookie's header value never fires: with a base
    domain of visible characters, no run of a login, a callback, a logout,
    the dashboard gate or the link pages panics, whatever the visitor sends
    and whatever the stores and the provider answer. *)
Theorem auth_never_panics (sha256 : string -> list Z) (auth_code_url : string -> string -> string)
    (headers : HeaderMap) (uri : Uri) (token : string) :
  visible (base_domain self) ->
  calm (login_response auth_code_url self uri) /\ calm (callback_response self headers uri) /\
  calm (logout_response self headers) /\ calm (dashboard_gate auth_code_url self headers) /\
  calm (link_page_response sha256 self headers token) /\ calm (link_confirm_response sha256 self headers token).
Proof.
  intros Hb. repeat split.
  - unfold login_response. calm_steps. apply calm_pure, append_cookies_ok, flow_cookies_ok.
  - unfold callback_response, login_user. calm_steps; auto using finish_login_calm.
    apply calm_pure, append_cookies_ok. repeat constructor; by apply flag_cookie_ok.
  - unfold logout_response. calm_steps. apply calm_pure, append_cookies_ok.
    repeat constructor; [by apply cookie_header_ok|by apply flag_cookie_ok].
  - unfold dashboard_gate. calm_steps; [apply session_from_headers_calm|apply silent_calm].
  - unfold link_page_response, unusable. calm_steps; [apply session_from_headers_calm|apply resolve_calm].
  - unfold link_confirm_response, unusable. calm_steps. apply resolve_calm.
Qed.

(** *** Where a login leads *)

(** A place of the deployment itself: a path, the base domain, or one label
    under the instance domain that this run found to be an instance. *)
Definition home (tr : list (event acall)) (location : string) : Prop :=
  (starts_with "/" location = true /\ starts_with "//" location = false) \/
  exists host, url_parse location = Some ("https"%string, Some host) /\
    (url_host host = base_domain self \/
     exists label, url_host host = label +:+ "." +:+ instance_domain self /\ valid_name label = true /\
       mkEvent (NameExists label) true ∈ tr).

Lemma home_mono tr tr' l : tr ⊆ tr' -> home tr l -> home tr' l.
Proof.
  intros Ht [Hl|(host & Hu & [Hb|(label & Hh & Hv & Hin)])]; [by left|right; exists host; eauto..].
  split; [done|]. right. exists label. auto.
Qed.
Lemma home_root tr : home tr "/".
Proof. by left. Qed.

Lemma safe_next_url next : let l := safe_next self next in
  starts_with "/" l = false ->
  exists host, url_parse l = Some ("https"%string, Some host) /\
    (url_host host = base_domain self \/
     exists label, strip_suffix ("." +:+ instance_domain self) (url_host host) = Some label /\ valid_name label = true).
Proof.
  unfold safe_next. case_bool_decide; [done|]. destruct (starts_with "/" next) eqn:Hs.
  { case_match; intros Hx; [done|congruence]. }
  destruct (url_parse next) as [[scheme [host|]]|] eqn:Hu; simpl; try (intros [=]; fail).
  - destruct (bool_decide (scheme = "https"%string)) eqn:Hsch; [|done]. apply bool_decide_eq_true in Hsch as ->. simpl.
    case_bool_decide as Hb; [intros _; eauto|].
    destruct (strip_suffix _ _) as [label|] eqn:Hsuf; [|done]. destruct (contains_char "." label); [done|]. simpl.
    destruct (valid_name label) eqn:Hv; [|done]. intros _. exists host. rewrite Hu. eauto 10.
  - destruct (bool_decide _); done.
Qed.
Lemma safe_next_path next : let l := safe_next self next in starts_with "/" l = true -> starts_with "//" l = false.
Proof.
  unfold safe_next. case_bool_decide; [done|]. destruct (starts_with "/" next) eqn:Hs.
  - by destruct (starts_with "//" next) eqn:Hss.
  - repeat case_match; try done; intros; congruence.
Qed.

(** *** Who is logged in *)

(** The sessions a run puts into the store, and whether the store took them. *)
Definition put_of (e : event acall) : option (Session * bool) :=
  match e with
  | mkEvent c r =>
      match c in acall R return R -> option (Session * bool) with
      | SessionPut s => fun r => Some (s, is_ok r)
      | _ => fun _ => None
      end r
  end.
Definition puts (tr : list (event acall)) : list (Session * bool) := omap put_of tr.

Lemma puts_app tr tr' : puts (tr ++ tr') = puts tr ++ puts tr'.
Proof. apply omap_app. Qed.

Lemma checked_next_home next :
  always (checked_next self next) (fun tr r => puts tr = [] /\ forall l, r = Ok l -> home tr l).
Proof.
  unfold checked_next. pose proof (safe_next_url next) as Hurl. pose proof (safe_next_path next) as Hpath.
  set (l := safe_next self next) in *. destruct (starts_with "/" l) eqn:Hs.
  { split; [done|]. intros l' [= <-]. left. auto. }
  destruct (Hurl Hs) as (host & Hu & Hh). rewrite Hu. simpl.
  destruct (bool_decide (url_host host = base_domain self)) eqn:Hb.
  { apply bool_decide_eq_true in Hb. split; [done|]. intros l' [= <-]. right. eauto. }
  apply bool_decide_eq_false in Hb. destruct Hh as [Hh|(label & Hsuf & Hv)]; [done|]. rewrite Hsuf.
  apply strip_suffix_Some in Hsuf. destruct (has_instance_names self); [|split; [done|]; intros l' [= <-]; apply home_root].
  intros []; (split; [done|]); intros l' [= <-]; [|apply home_root]. right. exists host. split; [done|]. right. exists label.
  split; [done|]. split; [done|]. apply list_elem_of_here.
Qed.

(** What [finish_login] does for a user: at most one session, for that user,
    alive for the service's lifetime; and a redirect home with its cookie. *)
Definition logged_in (tr : list (event acall)) (user : User) (r : result Panic (Response Body)) : Prop :=
  (forall s b, (s, b) ∈ puts tr -> ss_user_id s = u_id user /\ ss_expires_at s = ss_created_at s + session_ttl self) /\
  (forall response, r = Ok response ->
    (forall v, v ∈ get_all (r_headers response) LOCATION -> exists l, value_from_str l = Some v /\ home tr l) /\
    (forall v, v ∈ get_all (r_headers response) SET_COOKIE ->
       (exists s, (s, true) ∈ puts tr /\ session_cookie self s = Ok v) \/
       exists n value, n <> SESSION_COOKIE_NAME /\ exists m, host_cookie n value m = Ok v)).

Lemma append_cookies_names response cookies response' : append_cookies response cookies = Ok response' ->
  (forall n, n <> SET_COOKIE -> get_all (r_headers response') n = get_all (r_headers response) n) /\
  (forall v, v ∈ get_all (r_headers response') SET_COOKIE ->
     v ∈ get_all (r_headers response) SET_COOKIE \/ Ok v ∈ cookies).
Proof.
  unfold append_cookies. revert response. induction cookies as [|c cookies IH]; intros response; cbn [fold_res].
  { intros [= <-]. auto. }
  destruct c as [v0|e]; [|done]. cbn. intros Hf. apply IH in Hf as [Hn Hv]. split.
  - intros n Hne. rewrite Hn by done. cbn. rewrite get_all_append. by rewrite decide_False.
  - intros v Hin. apply Hv in Hin as [Hin|Hin]; [|by right; apply list_elem_of_further]. cbn in Hin.
    rewrite get_all_append, decide_True in Hin by done. apply elem_of_app in Hin as [Hin|Hin]; [by left|].
    apply list_elem_of_singleton in Hin as ->. right. apply list_elem_of_here.
Qed.

Lemma redirect_headers l n v : v ∈ get_all (r_headers (redirect_response l)) n ->
  (n = LOCATION /\ value_from_str l = Some v) \/ n = CONTENT_TYPE.
Proof.
  unfold redirect_response. destruct (value_from_str l) as [hv|] eqn:Hl; cbn; rewrite get_all_insert, get_all_new.
  - case_decide as Hn; [|intros Hin; by apply elem_of_nil in Hin]. intros ->%list_elem_of_singleton. auto.
  - case_decide as Hn; [auto|]. intros Hin. by apply elem_of_nil in Hin.
Qed.

Lemma text_logged_in tr user st m s b : puts tr = [(s, b)] ->
  ss_user_id s = u_id user -> ss_expires_at s = ss_created_at s + session_ttl self ->
  logged_in tr user (Ok (text_response st m)).
Proof.
  intros Hp Hu He. split.
  - intros s' b'. rewrite Hp. by intros [= -> ->]%list_elem_of_singleton.
  - intros response [= <-]. cbn. setoid_rewrite get_all_insert. setoid_rewrite get_all_new.
    split; intros v Hin; by apply elem_of_nil in Hin.
Qed.

Lemma flow_not_session state nonce next v : Ok v ∈ flow_cookies state nonce next ->
  exists n value, n <> SESSION_COOKIE_NAME /\ exists m, host_cookie n value m = Ok v.
Proof.
  intros Hin. repeat (apply elem_of_cons in Hin as [Hin|Hin]; [eexists _, _; split; [|by eexists]; done|]).
  by apply elem_of_nil in Hin.
Qed.

Lemma new_session_spec user_id :
  always (new_session self user_id) (fun tr r => exists s, ss_user_id s = user_id /\
    ss_expires_at s = ss_created_at s + session_ttl self /\
    ((puts tr = [(s, true)] /\ r = Ok (Ok s)) \/ (puts tr = [(s, false)] /\ exists e, r = Ok (Err e)))).
Proof.
  cbn. intros now id r. exists (mkSession id user_id now (now + session_ttl self)). split; [done|]. split; [done|].
  destruct r as [[]|e]; cbn; eauto.
Qed.

Lemma finish_login_spec headers user :
  always (finish_login self headers user) (fun tr r => logged_in tr user r).
Proof.
  unfold finish_login. apply always_M_bind. eapply always_mono; [|apply new_session_spec].
  intros first ? (s & Hu & He & [[Hfirst ->]|[Hfirst [e ->]]]); last first.
  { apply (text_logged_in _ _ _ _ s false); [|done..]. by rewrite app_nil_r. }
  apply always_M_bind.
  apply (always_mono _ (fun tr r => puts tr = [] /\ forall l, r = Ok l -> home tr l)); last first.
  { destruct (cookie_value headers NEXT_COOKIE_NAME); [apply checked_next_home|].
    split; [done|]. intros l [= <-]. apply home_root. }
  intros tr r [Hnone Hhome]. assert (puts (first ++ tr) = [(s, true)]) as Hp by by rewrite puts_app, Hfirst, Hnone.
  assert (forall s' b', (s', b') ∈ puts (first ++ tr) ->
    ss_user_id s' = u_id user /\ ss_expires_at s' = ss_created_at s' + session_ttl self) as Hs.
  { intros s' b'. rewrite Hp. by intros [= -> ->]%list_elem_of_singleton. }
  destruct r as [next|e]; [|by split].
  change (logged_in (first ++ tr ++ []) user (append_cookies (redirect_response next)
    (flow_cookies "" "" "" ++ clear_probe_cookies ++ [session_cookie self s]))).
  rewrite app_nil_r. split; [exact Hs|]. intros response Ha. apply append_cookies_names in Ha as [Hn Hc]. split.
  - intros v. rewrite Hn by done. intros [[_ Hv]|]%redirect_headers; [|done]. exists next. split; [done|].
    eapply home_mono; [|by apply Hhome]. by apply list_subseteq_app_r.
  - intros v [Hin|Hin]%Hc; [by apply redirect_headers in Hin as [[? _]|?]|].
    rewrite !elem_of_app in Hin. destruct Hin as [Hin|[Hin|Hin%list_elem_of_singleton]].
    + right. apply (flow_not_session "" "" "" v Hin).
    + right. repeat (apply elem_of_cons in Hin as [Hin|Hin]; [eexists _, _; split; [|by eexists]; done|]).
      by apply elem_of_nil in Hin.
    + left. exists s. rewrite Hp. split; [apply list_elem_of_here|done].
Qed.

Section Callback.
Variables (headers : HeaderMap) (uri : Uri).

(** What a login must have shown: the state of this browser, a code the
    provider redeemed, a token that verified, and this browser's nonce. *)
Definition verified (tr : list (event acall)) (claims : Claims) : Prop :=
  exists state raw, nonempty (cookie_value headers STATE_COOKIE_NAME) = Some state /\
    query_value uri "state" = Some state /\
    mkEvent (Exchange (default "" (query_value uri "code"))) (Ok raw) ∈ tr /\
    mkEvent (Verify raw) (Ok claims) ∈ tr /\
    nonempty (cookie_value headers NONCE_COOKIE_NAME) = Some (nonce claims).

(** Whose account it is: the one with the token's subject, or a new one for
    that subject, when signups are open and there was none. *)
Definition identified (tr : list (event acall)) (claims : Claims) (user : User) : Prop :=
  mkEvent (UserByOidcSubject (subject claims)) (Ok (Some user)) ∈ tr \/
  (has_provisioner self = true /\ mkEvent (UserByOidcSubject (subject claims)) (Ok None) ∈ tr /\
   mkEvent (Provision (mkNewAccount (account_name_from claims) (email claims) (subject claims))) (Ok user) ∈ tr).

Definition callback_post (tr : list (event acall)) (r : result Panic (Response Body)) : Prop :=
  (forall s b, (s, b) ∈ puts tr -> exists claims user, verified tr claims /\ identified tr claims user /\
     ss_user_id s = u_id user /\ ss_expires_at s = ss_created_at s + session_ttl self) /\
  (forall response, r = Ok response ->
    (forall v, v ∈ get_all (r_headers response) LOCATION -> exists l, value_from_str l = Some v /\ home tr l) /\
    (forall v, v ∈ get_all (r_headers response) SET_COOKIE ->
       (exists s, (s, true) ∈ puts tr /\ session_cookie self s = Ok v) \/
       exists n value, n <> SESSION_COOKIE_NAME /\ exists m, host_cookie n value m = Ok v)).

Lemma text_post tr st m : puts tr = [] -> callback_post tr (Ok (text_response st m)).
Proof.
  intros Hp. split; [intros s b; rewrite Hp; intros Hin; by apply elem_of_nil in Hin|].
  intros response [= <-]. cbn. setoid_rewrite get_all_insert. setoid_rewrite get_all_new.
  split; intros v Hin; by apply elem_of_nil in Hin.
Qed.

Lemma probe_post tr : puts tr = [] -> callback_post tr (probe_failed_response self).
Proof.
  intros Hp. split; [intros s b; rewrite Hp; intros Hin; by apply elem_of_nil in Hin|].
  intros response [Hn Hc]%append_cookies_names. split.
  - intros v. rewrite Hn by done. cbn. rewrite get_all_insert, get_all_new. intros Hin. by apply elem_of_nil in Hin.
  - intros v [Hin|Hin]%Hc; [cbn in Hin; rewrite get_all_insert, get_all_new in Hin; by apply elem_of_nil in Hin|].
    right. repeat (apply elem_of_cons in Hin as [Hin|Hin]; [eexists _, _; split; [|by eexists]; done|]).
    by apply elem_of_nil in Hin.
Qed.

Lemma login_post before claims user :
  puts before = [] -> verified before claims -> identified before claims user ->
  always (finish_login self headers user) (fun tr r => callback_post (before ++ tr) r).
Proof.
  intros Hb (state & raw & H1 & H2 & H3 & H4 & H5) Hid.
  eapply always_mono; [|apply finish_login_spec]. intros tr r [Hs Hr]. split.
  - intros s b. rewrite puts_app, Hb. intros [Hu He]%Hs. exists claims, user. split; [|split; [|done]].
    + exists state, raw. rewrite !elem_of_app. auto 10.
    + unfold identified in *. rewrite !elem_of_app. tauto.
  - intros response Hok. destruct (Hr response Hok) as [Hl Hc]. rewrite puts_app, Hb. split; [|exact Hc].
    intros v (l & Hv & Hh)%Hl. exists l. split; [done|]. eapply home_mono; [|exact Hh]. by apply list_subseteq_app_r.
Qed.

Lemma login_user_post before claims :
  puts before = [] -> verified before claims ->
  always (login_user self headers claims) (fun tr r => callback_post (before ++ tr) r).
Proof.
  intros Hb Hv. assert (forall tr, verified (before ++ tr) claims) as Hv'.
  { intros tr. destruct Hv as (state & raw & H1 & H2 & H3 & H4 & H5). exists state, raw. rewrite !elem_of_app. auto 10. }
  unfold login_user. apply always_await. intros [[user|]|e]; [| |by apply (text_post (before ++ _)); rewrite puts_app, Hb].
  - set (calls := [mkEvent (UserByOidcSubject (subject claims)) (Ok (Some user))]).
    eapply always_mono; [|eapply (login_post (before ++ calls) claims user); [by rewrite puts_app, Hb|apply Hv'|]].
    + intros tr r Hpost. cbv beta in Hpost. rewrite <-app_assoc in Hpost. exact Hpost.
    + left. apply elem_of_app. right. apply list_elem_of_here.
  - case_match eqn:Hprov; [|by apply (text_post (before ++ _)); rewrite puts_app, Hb].
    apply always_await. intros [user|e]; [|by apply (text_post (before ++ _)); rewrite puts_app, Hb].
    set (calls := [mkEvent (UserByOidcSubject (subject claims)) (Ok None);
      mkEvent (Provision (mkNewAccount (account_name_from claims) (email claims) (subject claims))) (Ok user)]).
    eapply always_mono; [|eapply (login_post (before ++ calls) claims user); [by rewrite puts_app, Hb|by apply Hv'|]].
    + intros tr r Hpost. cbv beta in Hpost. rewrite <-app_assoc in Hpost. exact Hpost.
    + right. rewrite !elem_of_app. subst calls. set_solver.
Qed.

(** C14. A login proves who it is, in every run of the callback whatever is
    answered: a session is put into the store only after the state of this
    browser came back, the provider redeemed the code, its token verified and
    carried this browser's nonce; it is for the account with the token's
    subject (or one created for that subject) and lives for the service's
    lifetime.  A response hands out the session cookie only of a session the
    store took, and redirects only to a path, the base domain, or an instance
    of this deployment. *)
Theorem login_proves_identity : always (callback_response self headers uri) callback_post.
Proof.
  unfold callback_response. apply always_await. intros [|]; cbn [negb]; [|by apply text_post].
  destruct (nonempty (query_value uri "error")) as [error|].
  { case_match; [by apply probe_post|by apply text_post]. }
  destruct (nonempty (cookie_value headers STATE_COOKIE_NAME)) as [state|] eqn:Hstate; [|by apply text_post].
  destruct (bool_decide (query_value uri "state" = Some state)) eqn:Hq; cbn [negb]; [|by apply text_post].
  apply bool_decide_eq_true in Hq. apply always_await. intros [raw|e]; [|by apply text_post].
  apply always_await. intros [claims|e]; [|by apply text_post].
  destruct (bool_decide (nonempty (cookie_value headers NONCE_COOKIE_NAME) = Some (nonce claims))) eqn:Hn; cbn [negb];
    [|by apply text_post].
  apply bool_decide_eq_true in Hn.
  apply (login_user_post [mkEvent OidcInstalled true;
    mkEvent (Exchange (default "" (query_value uri "code"))) (Ok raw); mkEvent (Verify raw) (Ok claims)] claims); [done|].
  exists state, raw. split; [done|]. split; [done|]. split; [set_solver|]. split; [set_solver|done].
Qed.
End Callback.

(** *** Linking a key *)



Definition link_of (e : event acall) : option (Z * Z) :=
  match ev_call e with LinkPairing id user_id => Some (id, user_id) | _ => None end.
Definition links (tr : list (event acall)) : list (Z * Z) := omap link_of tr.

Definition silent {A} (p : M A) : Prop := always p (fun tr _ => links tr = []).
Lemma silent_bind {A B} (p : M A) (f : A -> M B) : silent p -> (forall a, silent (f a)) -> silent (p ≫= f).
Proof.
  intros Hp Hf. apply always_M_bind. eapply always_mono; [|exact Hp]. intros tr [a|e] Htr; [|done].
  eapply always_mono; [|apply Hf]. intros tr' r Htr'. unfold links in *. by rewrite omap_app, Htr, Htr'.
Qed.
Lemma session_silent headers : silent (session_from_headers headers).
Proof.
  unfold session_from_headers, session. destruct (cookie_value headers _) as [id|]; [|done]. case_bool_decide; [done|].
  apply silent_bind; [done|]. intros [s|]; [|done].
  apply silent_bind; [done|]. intros now. case_match; done.
Qed.

(** A live session of this browser's cookie, as the run read it. *)
Definition signed_in (headers : HeaderMap) (tr : list (event acall)) (s : Session) : Prop :=
  exists id now, cookie_value headers SESSION_COOKIE_NAME = Some id /\ id <> ""%string /\
    mkEvent (SessionGet id) (Some s) ∈ tr /\ mkEvent Now now ∈ tr /\ now < ss_expires_at s.

Lemma session_signed_in headers :
  always (session_from_headers headers) (fun tr r => forall s, r = Ok (Some s) -> signed_in headers tr s).
Proof.
  unfold session_from_headers. destruct (cookie_value headers _) as [id|] eqn:Hid; [|by intros s [=]].
  unfold session. case_bool_decide as He; [by intros s [=]|]. apply always_await. intros [s|]; [|by intros s [=]].
  apply always_await. intros now. destruct (Z.leb_spec (ss_expires_at s) now).
  - intros u s' [=].
  - intros s' [= <-]. exists id, now. split; [done|]. split; [done|]. split; [set_solver|]. split; [set_solver|lia].
Qed.

Section Linking.
Context (sha256 : string -> list Z).

(** What a live link has shown. *)
Definition link_shown (headers : HeaderMap) (token : string) (tr : list (event acall)) (pairing : Pairing) (user : User) : Prop :=
  (exists s, signed_in headers tr s /\ mkEvent (UserById (ss_user_id s)) (Ok (Some user)) ∈ tr) /\
  mkEvent (PairingByTokenHash (hash_token sha256 token)) (Ok (Some pairing)) ∈ tr /\
  pr_linked_user_id pairing = None /\ exists now, mkEvent Now now ∈ tr /\ now < pr_expires_at pairing.

Lemma link_shown_mono headers token tr tr' pairing user : tr ⊆ tr' ->
  link_shown headers token tr pairing user -> link_shown headers token tr' pairing user.
Proof.
  intros Ht ((s & (id & now & H1 & H2 & H3 & H4 & H5) & H6) & H7 & H8 & now' & H9 & H10). repeat split; eauto 10.
  exists s. split; [exists id, now; auto 10|auto].
Qed.

Lemma resolve_link_spec headers token :
  always (resolve_link sha256 self headers token) (fun tr r => links tr = [] /\
    forall pairing user, r = Ok (Live pairing user) -> link_shown headers token tr pairing user).
Proof.
  unfold resolve_link. destruct (has_pairings self); cbn [negb]; [|split; [done|by intros ? ? [=]]].
  apply always_M_bind. eapply always_mono; [|exact (always_and _ _ _ (session_silent headers) (session_signed_in headers))].
  intros tr r [Htr Hs]. destruct r as [[s|]|e]; [|split; [by rewrite app_nil_r|by intros ? ? [=]]|split; [done|by intros ? ? [=]]].
  specialize (Hs s eq_refl). unfold links in *.
  assert (forall tr', omap link_of tr' = [] -> omap link_of (tr ++ tr') = []) as Hl by (intros tr' Ht'; by rewrite omap_app, Htr, Ht').
  apply always_await. intros [[user|]|e]; [|split; [by apply Hl|by intros ? ? [=]]..].
  apply always_await. intros [[pairing|]|e]; [|split; [by apply Hl|by intros ? ? [=]]..].
  case_bool_decide as Hlinked; [split; [by apply Hl|by intros ? ? [=]]|].
  apply always_await. intros now. destruct (Z.leb_spec (pr_expires_at pairing) now); [split; [by apply Hl|by intros ? ? [=]]|].
  split; [by apply Hl|]. intros p u [= <- <-]. split; [|split; [set_solver|split]].
  - exists s. split; [|set_solver]. destruct Hs as (id & now' & H1 & H2 & H3 & H4 & H5). exists id, now'. set_solver.
  - by apply eq_None_not_Some.
  - exists now. set_solver.
Qed.

(** What a confirmation may have done. *)
Definition confirm_post (headers : HeaderMap) (token : string) (tr : list (event acall)) : Prop :=
  (length (links tr) <= 1)%nat /\
  forall id user_id, (id, user_id) ∈ links tr -> exists pairing user,
    link_shown headers token tr pairing user /\ id = pr_id pairing /\ user_id = u_id user.

Lemma quiet_confirm headers token tr : links tr = [] -> confirm_post headers token tr.
Proof. intros Htr. split; rewrite Htr; [simpl; lia|]. intros ? ? Hin. by apply elem_of_nil in Hin. Qed.

(** Only a confirmation links a key, in every run: the page behind the
    link never does; the confirmation does at most once, for a pairing read
    under the hash of this token, unused and unexpired by the clock, and for
    the account of the live session of this browser. *)
Theorem only_confirmation_links (headers : HeaderMap) (token : string) :
  silent (link_page_response sha256 self headers token) /\
  always (link_confirm_response sha256 self headers token) (fun tr _ => confirm_post headers token tr).
Proof.
  split.
  - unfold link_page_response. apply silent_bind; [apply session_silent|]. intros [s|]; [|done].
    apply silent_bind; [|by intros [p u|m|st m]].
    eapply always_mono; [|apply resolve_link_spec]. by intros tr r [Htr _].
  - unfold link_confirm_response. apply always_M_bind. eapply always_mono; [|apply resolve_link_spec].
    intros tr r [Htr Hr].
    assert (forall tr', links (tr ++ tr') = links tr') as Hl
      by (intros tr'; unfold links in *; by rewrite omap_app, Htr).
    destruct r as [[pairing user|m|st m]|e]; [|apply (quiet_confirm _ _ (tr ++ [])); by rewrite Hl..|by apply quiet_confirm].
    cbn [unusable]. case_match; [apply (quiet_confirm _ _ (tr ++ [])); by rewrite Hl|].
    apply always_await. intros linked.
    enough (confirm_post headers token (tr ++ [mkEvent (LinkPairing (pr_id pairing) (u_id user)) linked]))
      by by destruct linked as [[]|].
    split; rewrite Hl; [simpl; lia|]. intros id user_id [= -> ->]%list_elem_of_singleton.
    exists pairing, user. split; [|done]. eapply link_shown_mono; [|by apply Hr]. by apply list_subseteq_app_l.
Qed.
End Linking.
End Runs.

(** ** Concrete runs *)

Section Scenario.
Existing Instance SimpleHttp.lib.

Definition riley : User := mkUser 7 "riley" "riley@example.org" (Some "sub-1"%string) "10.100.7.0/24" 1.
Definition sign_in_claims : Claims := mkClaims "sub-1" "riley@example.org" "n1" "Riley" "".
Definition small_service : Service := with_instance_names (Service_new "Bento.Example.").

(** A provider that vouches for [riley], and a store that knows them. *)
Definition scripted : handler acall unit := fun R c w =>
  (match c in acall R return R with
   | Now => 100
   | RandomToken => "sid"%string
   | OidcInstalled => true
   | SessionPut _ => Ok tt
   | SessionGet _ => None
   | SessionDelete _ => tt
   | UserByOidcSubject _ => Ok (Some riley)
   | UserById _ => Ok (Some riley)
   | HasAccess _ _ => Ok false
   | CreateToken u h e => Ok (mkToken 1 u h e)
   | TokenByHash _ => Ok TNotFound
   | DeleteToken _ => Ok tt
   | NameExists _ => true
   | Exchange _ => Ok "raw"%string
   | Verify _ => Ok sign_in_claims
   | Provision _ => Ok riley
   | PairingByTokenHash _ => Ok None
   | LinkPairing _ _ => Ok false
   end, w).

Definition returning : HeaderMap :=
  [(COOKIE, "bento_oauth_state=s1; bento_oauth_nonce=n1; bento_login_next=https://web.bento.example/x"%string)].
Definition callback_uri : Uri := ("bento.example"%string, "/callback?state=s1&code=c"%string).
Definition rileys_session : Session := mkSession "sid" 7 100 (100 + DEFAULT_SESSION_TTL).

Lemma login_proves_identity_witness :
  let tr := trace scripted (callback_response small_service returning callback_uri) tt in
  puts tr = [(rileys_session, true)] /\
  callback_post small_service returning callback_uri tr
    (fst (run scripted (callback_response small_service returning callback_uri) tt)) /\
  match fst (run scripted (callback_response small_service returning callback_uri) tt) with
  | Ok response => get_all (r_headers response) LOCATION
  | Err _ => []
  end = ["https://web.bento.example/x"%string].
Proof.
  split; [vm_compute; reflexivity|]. split.
  - apply (always_run scripted (callback_response small_service returning callback_uri) tt _
      (login_proves_identity small_service returning callback_uri)).
  - vm_compute. reflexivity.
Defined.

Lemma cookie_round_trip_witness :
  cookie_value returning "bento_oauth_nonce" = Some "n1"%string /\ cookie_value returning "bento" = None.
Proof.
  destruct (cookie_round_trip returning
    [("bento_oauth_state", "s1"); ("bento_oauth_nonce", "n1"); ("bento_login_next", "https://web.bento.example/x")]%string)
    as [_ Hr]; [repeat constructor|vm_compute; reflexivity|].
  split; rewrite Hr; vm_compute; reflexivity.
Defined.

Lemma auth_never_panics_witness :
  visible (base_domain small_service) /\ calm (callback_response small_service returning callback_uri).
Proof.
  assert (visible (base_domain small_service)) as Hv by (vm_compute; reflexivity).
  destruct (auth_never_panics small_service (fun _ => []) (fun _ _ => ""%string) returning callback_uri "" Hv)
    as (_ & Hc & _).
  split; [exact Hv|exact Hc].
Defined.

Definition rileys_cookie : HeaderMap := [(COOKIE, "bento_session=sid"%string)].
Definition small_pairing : Pairing := mkPairing 3 (hash_token (fun _ => [1]) "tok") "ssh-ed25519 AAAA" "SHA256:a" "" 1 500 None.

(** The same, with [riley] signed in and a pairing under the token's hash. *)
Definition linking : handler acall unit := fun R c w =>
  match c in acall R return R * unit with
  | SessionGet _ => (Some rileys_session, w)
  | PairingByTokenHash _ => (Ok (Some small_pairing), w)
  | LinkPairing _ _ => (Ok true, w)
  | c => scripted _ c w
  end.

Lemma only_confirmation_links_witness :
  let s := with_pairings small_service in
  links (trace linking (link_confirm_response (fun _ => [1]) s rileys_cookie "tok") tt) = [(3, 7)] /\
  confirm_post (fun _ => [1]) rileys_cookie "tok" (trace linking (link_confirm_response (fun _ => [1]) s rileys_cookie "tok") tt).
Proof.
  split; [vm_compute; reflexivity|].
  apply (always_run linking _ tt _ (proj2 (only_confirmation_links (with_pairings small_service) (fun _ => [1]) rileys_cookie "tok"))).
Defined.
End Scenario.
