(* ===== verification/Proxy.v ===== *)
(** * Proxy: [crates/proxy/src], routing visitors to instances

    The proxy resolves the host of every request to an instance, decides
    whether the visitor may see it, and forwards the request.  What it asks
    of the store, the authorization service, the control plane and the guest
    is a call ([pcall]); the handler is a program over those calls.  Bodies
    and the other parts of a request the proxy only passes on are a
    parameter. *)

From Stdlib Require Import ZArith Lia Ascii.
From S2P Require Import Prelude Text Types Prog Http.
Open Scope Z_scope.

(** ** Configuration: [ProxyBuilder] *)

Definition DEFAULT_PORT : Z := 443.
Definition HIGH_PORT_MIN : Z := 3000.
Definition HIGH_PORT_MAX : Z := 9999.
Definition u16_max : Z := 2 ^ 16 - 1.

(** [Error], as far as configuration raises it. *)
Inductive ProxyError : Type :=
  | EmptyBaseDomain
  | EmptyHighPortRange (min max : Z)
  | MainPortInHighRange (main min max : Z).

Record ProxyBuilder : Type := mkProxyBuilder {
  pb_base_domain : string;
  pb_instance_domain : option string;
  pb_has_sessions : bool;
  pb_has_control : bool;
  pb_login_url : option string;
  pb_has_last_seen : bool;
  pb_main_port : Z;
  pb_high_min : Z;
  pb_high_max : Z
}.

Record Proxy : Type := mkProxy {
  base_domain : string;
  instance_domain : string;
  has_sessions : bool;
  has_control : bool;
  login_url : string;
  has_last_seen : bool;
  main_port : Z;
  high_min : Z;
  high_max : Z
}.

(** [Proxy::builder]. *)
Definition builder (base : string) : ProxyBuilder :=
  mkProxyBuilder base None false false None false DEFAULT_PORT HIGH_PORT_MIN HIGH_PORT_MAX.

(** [ProxyBuilder::with_ports]; zero leaves a setting. *)
Definition with_ports (main min max : Z) (b : ProxyBuilder) : ProxyBuilder :=
  mkProxyBuilder (pb_base_domain b) (pb_instance_domain b) (pb_has_sessions b) (pb_has_control b) (pb_login_url b)
    (pb_has_last_seen b)
    (if main =? 0 then pb_main_port b else main)
    (if min =? 0 then pb_high_min b else min)
    (if max =? 0 then pb_high_max b else max).

(** [with_instance_domain], [with_sessions], [with_control], [with_login_url],
    [with_last_seen]. *)
Definition with_instance_domain (domain : string) (b : ProxyBuilder) : ProxyBuilder :=
  mkProxyBuilder (pb_base_domain b) (Some domain) (pb_has_sessions b) (pb_has_control b) (pb_login_url b)
    (pb_has_last_seen b) (pb_main_port b) (pb_high_min b) (pb_high_max b).
Definition with_sessions (b : ProxyBuilder) : ProxyBuilder :=
  mkProxyBuilder (pb_base_domain b) (pb_instance_domain b) true (pb_has_control b) (pb_login_url b)
    (pb_has_last_seen b) (pb_main_port b) (pb_high_min b) (pb_high_max b).
Definition with_control (b : ProxyBuilder) : ProxyBuilder :=
  mkProxyBuilder (pb_base_domain b) (pb_instance_domain b) (pb_has_sessions b) true (pb_login_url b)
    (pb_has_last_seen b) (pb_main_port b) (pb_high_min b) (pb_high_max b).
Definition with_login_url (url : string) (b : ProxyBuilder) : ProxyBuilder :=
  mkProxyBuilder (pb_base_domain b) (pb_instance_domain b) (pb_has_sessions b) (pb_has_control b) (Some url)
    (pb_has_last_seen b) (pb_main_port b) (pb_high_min b) (pb_high_max b).
Definition with_last_seen (b : ProxyBuilder) : ProxyBuilder :=
  mkProxyBuilder (pb_base_domain b) (pb_instance_domain b) (pb_has_sessions b) (pb_has_control b) (pb_login_url b)
    true (pb_main_port b) (pb_high_min b) (pb_high_max b).

(** [ProxyBuilder::build]. *)
Definition build (b : ProxyBuilder) : result ProxyError Proxy :=
  let base := trim_end_matches (fun c => Ascii.eqb c ".") (to_ascii_lowercase (pb_base_domain b)) in
  _ ← refuse_if (bool_decide (base = "")) EmptyBaseDomain;
  _ ← refuse_if (pb_high_max b <? pb_high_min b) (EmptyHighPortRange (pb_high_min b) (pb_high_max b));
  _ ← refuse_if ((pb_high_min b <=? pb_main_port b) && (pb_main_port b <=? pb_high_max b))
        (MainPortInHighRange (pb_main_port b) (pb_high_min b) (pb_high_max b));
  let login := default ("https://" +:+ base +:+ "/login") (pb_login_url b) in
  let instances := match pb_instance_domain b with
                   | Some domain => if bool_decide (domain = "") then base else domain
                   | None => base
                   end in
  Ok (mkProxy base instances (pb_has_sessions b) (pb_has_control b) login (pb_has_last_seen b)
        (pb_main_port b) (pb_high_min b) (pb_high_max b)).

(** [Proxy::ports]. *)
Definition ports (p : Proxy) : list Z := main_port p :: range (high_min p) (high_max p + 1).

(** ** Hosts: the end of [lib.rs] *)

(** [strip_host_port]. *)
Definition strip_host_port (host : string) : string :=
  match strip_prefix "[" host with
  | Some inner => match split_once "]" inner with Some (address, _) => address | None => host end
  | None =>
      match rsplit_once ":" host with
      | Some (name, port) =>
          if negb (contains_char ":" name) && bool_decide (is_Some (parse_uint u16_max port)) then name else host
      | None => host
      end
  end.

(** [format_authority]. *)
Definition format_authority (address : string) (port : Z) : string :=
  if contains_char ":" address && negb (starts_with "[" address) then "[" +:+ address +:+ "]:" +:+ dec port
  else address +:+ ":" +:+ dec port.

(** [escape_html] and [state_class] of [pages.rs]. *)
Definition escape_html_char (c : ascii) : string :=
  if Ascii.eqb c "&" then "&amp;" else if Ascii.eqb c "<" then "&lt;" else if Ascii.eqb c ">" then "&gt;"
  else if ascii_code c =? 34 then "&#34;" else if Ascii.eqb c "'" then "&#39;" else String c EmptyString.
Fixpoint escape_html (value : string) : string :=
  match value with EmptyString => EmptyString | String c value' => escape_html_char c +:+ escape_html value' end.
Definition state_class (s : State) : string :=
  match s with Running => "running" | Starting => "starting" | Stopped => "stopped" end.

Section Handler.
Context `{HttpLib} {B : Type}.

(** ** Requests, responses and calls *)

(** [Request<ProxyBody>]; method, version, extensions and body are [B]. *)
Record Request : Type := mkRequest { rq_uri : Uri; rq_headers : HeaderMap; rq_rest : B }.

(** The body of a response: the proxy's own pages and texts, or a stream. *)
Inductive PBody : Type :=
  | NotFoundPage
  | UnavailablePage (name class state : string)
  | PText (text : string)
  | Streamed (b : B).

Inductive Access : Type := AUnauthenticated | AForbidden | AGranted.

(** [InstanceSource], [SessionChecker], [LastSeenRecorder], [Transport], the
    control handler, and the task that joins two upgraded connections. *)
Inductive pcall : Type -> Type :=
  | InstanceByName (name : string) : pcall (result string (option Instance))
  | AccessOf (request : Request) (instance_uuid : string) : pcall Access
  | TouchLastSeen (uuid : string) : pcall (result string unit)
  | Send (request : Request) : pcall (result string (Response PBody))
  | Control (request : Request) : pcall (Response PBody)
  | JoinUpgraded : pcall unit.

(** ** Pages: [pages.rs] *)

(** [response]. *)
Definition page_response (st : Z) (page : PBody) (retry : bool) : Response PBody :=
  let r := with_status st (response_new page) in
  let r := with_header CONTENT_TYPE (from_static "text/html; charset=utf-8") r in
  let r := with_header "cache-control" (from_static "no-store") r in
  if retry then with_header "retry-after" (from_static "5") r else r.

Definition not_found : Response PBody := page_response NOT_FOUND NotFoundPage false.

(** [unavailable]. *)
Definition unavailable (instance : Instance) : Response PBody :=
  page_response SERVICE_UNAVAILABLE
    (UnavailablePage (escape_html (i_name instance)) (state_class (i_state instance)) (State_as_str (i_state instance)))
    true.

Definition internal_error : Response PBody :=
  with_header "x-content-type-options" (from_static "nosniff")
    (with_header CONTENT_TYPE (from_static "text/plain; charset=utf-8")
       (with_status INTERNAL_SERVER_ERROR
          (response_new (PText ("internal error" +:+ String (ascii_of_code 10) EmptyString))))).

(** ** Headers *)

(** [original_host], [request_host]. *)
Definition original_host (request : Request) : string :=
  match header_get (rq_headers request) HOST ≫= to_str with
  | Some host => host
  | None => default "" (uri_authority (rq_uri request))
  end.
Definition request_host (request : Request) (server_name : option string) : string :=
  let host := match server_name with
              | Some name => if bool_decide (name = "") then original_host request else name
              | None => original_host request
              end in
  to_ascii_lowercase (trim_end_matches (fun c => Ascii.eqb c ".") (strip_host_port host)).

(** The comma-separated tokens of the [Connection] headers. *)
Definition connection_tokens (headers : HeaderMap) : list string :=
  concat (split_on "," <$> header_texts headers CONNECTION).

(** [upgrade_protocol]. *)
Definition upgrade_protocol (headers : HeaderMap) : option HeaderValue :=
  if existsb (fun token => eq_ignore_ascii_case (trim token) "upgrade") (connection_tokens headers)
  then header_get headers UPGRADE else None.

Definition remove_all (names : list string) (headers : HeaderMap) : HeaderMap :=
  foldl (fun m name => headers_remove name m) headers names.

(** [remove_hop_by_hop_headers]. *)
Definition HOP_BY_HOP : list string :=
  [CONNECTION; "proxy-connection"; "keep-alive"; "proxy-authenticate"; "proxy-authorization"; "te"; "trailer";
   "transfer-encoding"; UPGRADE].
Definition remove_hop_by_hop_headers (headers : HeaderMap) : HeaderMap :=
  let connection_headers := omap (fun name => name_from_bytes (trim name)) (connection_tokens headers) in
  remove_all HOP_BY_HOP (remove_all connection_headers headers).

(** [set_forwarded_for]; [remote] is the peer's address as text. *)
Definition set_forwarded_for (headers : HeaderMap) (remote : string) : HeaderMap :=
  match value_from_str remote with
  | Some value => headers_insert "x-forwarded-for" value headers
  | None => headers
  end.

(** ** Forwarding *)

(** [connection: upgrade] with the protocol. *)
Definition announce (protocol : HeaderValue) (headers : HeaderMap) : HeaderMap :=
  headers_insert UPGRADE protocol (headers_insert CONNECTION (from_static "upgrade") headers).

(** What [send_upgradable] sends. *)
Definition outgoing (request : Request) (prepare : Request -> Request) : Request :=
  let headers := remove_hop_by_hop_headers (rq_headers request) in
  prepare (mkRequest (rq_uri request)
             (match upgrade_protocol (rq_headers request) with
              | Some protocol => announce protocol headers
              | None => headers
              end) (rq_rest request)).

(** [send_upgradable]. *)
Definition send_upgradable (request : Request) (prepare : Request -> Request) :
    prog pcall (result string (Response PBody)) :=
  let requested := upgrade_protocol (rq_headers request) in
  sent ← call (Send (outgoing request prepare));
  match sent with
  | Err e => mret (Err e)
  | Ok response =>
      let upgraded := match requested with
                      | Some protocol => (status response =? SWITCHING_PROTOCOLS) &&
                                         bool_decide (upgrade_protocol (r_headers response) = Some protocol)
                      | None => false
                      end in
      let headers := remove_hop_by_hop_headers (r_headers response) in
      match requested, upgraded with
      | Some protocol, true =>
          _ ← call JoinUpgraded;
          mret (Ok (mkResponse (status response) (announce protocol headers) (body response)))
      | _, _ => mret (Ok (mkResponse (status response) headers (body response)))
      end
  end.

(** The headers that say where a request came from. *)
Definition FORWARDING : list string := ["forwarded"; "x-forwarded-for"; "x-forwarded-host"; "x-forwarded-proto"].

(** What [forward] writes into the outgoing request. *)
Definition forwarded (uri : Uri) (host remote : string) (tls : bool) (request : Request) : Request :=
  let headers := remove_all FORWARDING (rq_headers request) in
  let headers := match value_from_str host with
                 | Some host => headers_insert "x-forwarded-host" host (headers_insert HOST host headers)
                 | None => headers
                 end in
  let headers := headers_insert "x-forwarded-proto" (from_static (if tls then "https" else "http")) headers in
  mkRequest uri (set_forwarded_for headers remote) (rq_rest request).

(** [Proxy::forward]. *)
Definition forward (request : Request) (instance : Instance) (target_port : Z) (remote : string) (tls : bool) :
    prog pcall (Response PBody) :=
  let path := default "/" (uri_path_and_query (rq_uri request)) in
  match uri_build "http" (format_authority (i_address instance) target_port) path with
  | None => mret (unavailable instance)
  | Some uri =>
      sent ← send_upgradable request (forwarded uri (original_host request) remote tls);
      mret (match sent with Ok response => response | Err _ => unavailable instance end)
  end.

(** ** Routing *)

Variable self : Proxy.

(** [Proxy::redirect_to_login]. *)
Definition redirect_to_login (request : Request) : Response PBody :=
  let path := default "/" (uri_path_and_query (rq_uri request)) in
  let next := "https://" +:+ original_host request +:+ path in
  let location := login_url self +:+ "?next=" +:+ byte_serialize next in
  let response := with_status FOUND (response_new (PText "")) in
  match value_from_str location with
  | Some value => with_header LOCATION value response
  | None => response
  end.

(** The rest of [handle_connection], for an instance the visitor may see. *)
Definition serve_instance (request : Request) (instance : Instance) (listener_port : Z) (remote : string) (tls : bool) :
    prog pcall (Response PBody) :=
  let target_port := if listener_port =? main_port self then effective_http_port instance else listener_port in
  if negb (bool_decide (i_state instance = Running)) then mret (unavailable instance)
  else
    _ ← (if has_last_seen self then (_ ← call (TouchLastSeen (i_uuid instance)); mret tt) else mret tt);
    forward request instance target_port remote tls.

(** [Proxy::handle_connection]. *)
Definition handle_connection (request : Request) (listener_port : Z) (remote : string)
    (server_name : option string) (tls : bool) : prog pcall (Response PBody) :=
  let host := request_host request server_name in
  if bool_decide (host = base_domain self) then
    if (listener_port =? main_port self) && has_control self then call (Control request) else mret not_found
  else
    match strip_suffix ("." +:+ instance_domain self) host with
    | None => mret not_found
    | Some name =>
        if bool_decide (name = "") || contains_char "." name then mret not_found
        else
          instance ← call (InstanceByName name);
          match instance with
          | Err _ => mret internal_error
          | Ok None => mret not_found
          | Ok (Some instance) =>
              if bool_decide (i_visibility instance = Off) then mret not_found
              else if bool_decide (i_visibility instance = Private) || negb (listener_port =? main_port self) then
                access ← (if has_sessions self then call (AccessOf request (i_uuid instance)) else mret AUnauthenticated);
                match access with
                | AGranted => serve_instance request instance listener_port remote tls
                | AUnauthenticated => mret (redirect_to_login request)
                | AForbidden => mret not_found
                end
              else serve_instance request instance listener_port remote tls
          end
    end.

(** [Proxy::handle]. *)
Definition handle (request : Request) (listener_port : Z) (remote : string) : prog pcall (Response PBody) :=
  handle_connection request listener_port remote None (bool_decide (uri_scheme (rq_uri request) = Some "https"%string)).
End Handler.
Arguments Request {_} B. Arguments PBody : clear implicits. Arguments pcall {_} B.

(** ** What is sent to a guest *)

Section Headers.
Context `{HttpLib} {B : Type}.

Lemma remove_all_get names headers n :
  get_all (remove_all names headers) n = if decide (n ∈ names) then [] else get_all headers n.
Proof.
  revert headers. induction names as [|m names IH]; intros headers; cbn [remove_all foldl].
  { by rewrite decide_False by apply not_elem_of_nil. }
  change (foldl _ _ names) with (remove_all names (headers_remove m headers)). rewrite IH, get_all_remove.
  destruct (decide (n ∈ names)); [by rewrite decide_True by by right|].
  destruct (decide (m = n)) as [->|Hm]; [by rewrite decide_True by by left|]. rewrite decide_False; [done|]. set_solver.
Qed.

Lemma hop_by_hop_gone headers n : n ∈ HOP_BY_HOP -> get_all (remove_hop_by_hop_headers headers) n = [].
Proof. intros Hn. unfold remove_hop_by_hop_headers. rewrite remove_all_get. by rewrite decide_True. Qed.

Lemma announce_get protocol headers n :
  get_all (announce protocol headers) n =
  if decide (UPGRADE = n) then [protocol]
  else if decide (CONNECTION = n) then [from_static "upgrade"] else get_all headers n.
Proof. unfold announce. by rewrite !get_all_insert. Qed.

(** The headers of a request that goes out, under a name [forward] does not
    write itself. *)
Lemma forwarded_other uri host remote tls (request : Request B) n :
  n ∉ HOST :: FORWARDING ->
  get_all (rq_headers (forwarded uri host remote tls request)) n = get_all (rq_headers request) n.
Proof.
  intros Hn. apply not_elem_of_cons in Hn as [Hh Hf]. unfold forwarded, set_forwarded_for. cbn [rq_headers].
  assert (forall m, m ∈ HOST :: FORWARDING -> m <> n) as Hne by (intros m Hm ->; set_solver).
  destruct (value_from_str remote), (value_from_str host);
    repeat (rewrite get_all_insert, decide_False by (apply Hne; set_solver));
    rewrite remove_all_get; by rewrite decide_False.
Qed.

(** *** The trust boundary *)

(** What a guest can rely on in a forwarded request. *)
Definition honest (remote host : string) (tls : bool) (headers : HeaderMap) : Prop :=
  get_all headers "forwarded" = [] /\
  get_all headers "x-forwarded-proto" = [from_static (if tls then "https" else "http")] /\
  (forall v, value_from_str remote = Some v -> get_all headers "x-forwarded-for" = [v]) /\
  (value_from_str remote = None -> get_all headers "x-forwarded-for" = []) /\
  (forall v, value_from_str host = Some v -> get_all headers HOST = [v] /\ get_all headers "x-forwarded-host" = [v]) /\
  (value_from_str host = None -> get_all headers "x-forwarded-host" = []).

Lemma forwarded_honest uri host remote tls (request : Request B) :
  honest remote host tls (rq_headers (forwarded uri host remote tls request)).
Proof.
  unfold honest, forwarded, set_forwarded_for. cbn [rq_headers].
  assert (forall n, n ∈ FORWARDING -> get_all (remove_all FORWARDING (rq_headers request)) n = []) as Hgone.
  { intros n Hn. rewrite remove_all_get. by rewrite decide_True. }
  destruct (value_from_str remote) as [rv|] eqn:Hr; destruct (value_from_str host) as [hv|] eqn:Hh;
    rewrite !get_all_insert;
    repeat first [rewrite decide_True by done | rewrite decide_False by done];
    repeat split; try done; intros; try congruence; apply Hgone; set_solver.
Qed.
End Headers.

(** ** Every run *)

Section Runs.
Context `{HttpLib} {B : Type}.
Variables (self : Proxy) (request : Request B) (listener_port : Z) (remote : string) (server_name : option string)
  (tls : bool).

#[local] Abbreviation host := (request_host request server_name).

(** What reaches a guest. *)
Definition send_of (e : event (pcall B)) : option (Request B) :=
  match ev_call e with Send r => Some r | _ => None end.
Definition sends (tr : list (event (pcall B))) : list (Request B) := omap send_of tr.
Definition control_of (e : event (pcall B)) : option unit :=
  match ev_call e with Control _ => Some tt | _ => None end.


(** An outgoing request is for this instance: where it goes and what it says
    of where it came from. *)
Definition addressed (i : Instance) (out : Request B) : Prop :=
  uri_authority (rq_uri out) = Some (format_authority (i_address i)
    (if listener_port =? main_port self then effective_http_port i else listener_port)) /\
  uri_path_and_query (rq_uri out) = Some (default "/" (uri_path_and_query (rq_uri request))) /\
  rq_rest out = rq_rest request /\
  honest remote (original_host request) tls (rq_headers out) /\
  (forall n, n ∈ HOP_BY_HOP -> n <> CONNECTION -> n <> UPGRADE -> get_all (rq_headers out) n = []) /\
  get_all (rq_headers out) CONNECTION = (if upgrade_protocol (rq_headers request) is Some _ then [from_static "upgrade"] else []) /\
  get_all (rq_headers out) UPGRADE = (match upgrade_protocol (rq_headers request) with Some p => [p] | None => [] end).

Lemma hop_not_forwarding n : n ∈ HOP_BY_HOP -> n ∉ HOST :: FORWARDING.
Proof.
  revert n. apply Forall_forall. apply (bool_decide_unpack _). vm_compute. exact I.
Qed.

Lemma outgoing_addressed i target uri :
  target = (if listener_port =? main_port self then effective_http_port i else listener_port) ->
  uri_build "http" (format_authority (i_address i) target) (default "/" (uri_path_and_query (rq_uri request))) = Some uri ->
  addressed i (outgoing request (forwarded uri (original_host request) remote tls)).
Proof.
  intros -> Hu. apply uri_build_parts in Hu as [Ha Hp]. unfold outgoing. set (inner := mkRequest _ _ _).
  assert (forall n, n ∈ HOP_BY_HOP -> get_all (rq_headers (forwarded uri (original_host request) remote tls inner)) n =
    get_all (rq_headers inner) n) as Hother.
  { intros n Hn. apply forwarded_other. by apply hop_not_forwarding. }
  split; [done|]. split; [done|]. split; [done|]. split; [apply forwarded_honest|]. split; [|split].
  - intros n Hn Hc Hupg. rewrite Hother by done. subst inner. cbn [rq_headers].
    destruct (upgrade_protocol _); rewrite ?announce_get, ?decide_False by done; by apply hop_by_hop_gone.
  - rewrite Hother by set_solver. subst inner. cbn [rq_headers].
    destruct (upgrade_protocol _); [by rewrite announce_get|]. apply hop_by_hop_gone. set_solver.
  - rewrite Hother by set_solver. subst inner. cbn [rq_headers].
    destruct (upgrade_protocol _); [by rewrite announce_get|]. apply hop_by_hop_gone. set_solver.
Qed.

(** What the store and the authorization service answered. *)
Definition lookup_of (e : event (pcall B)) : option (result string (option Instance)) :=
  match e with
  | mkEvent c r =>
      match c in pcall _ R return R -> option (result string (option Instance)) with
      | InstanceByName _ => fun r => Some r
      | _ => fun _ => None
      end r
  end.
Definition access_of (e : event (pcall B)) : option Access :=
  match e with
  | mkEvent c r => match c in pcall _ R return R -> option Access with
                   | AccessOf _ _ => fun r => Some r
                   | _ => fun _ => None
                   end r
  end.
Definition lookups (tr : list (event (pcall B))) := omap lookup_of tr.
Definition accesses (tr : list (event (pcall B))) := omap access_of tr.

(** The forwarding part of a run: at most one request, addressed to [i], and
    no further question. *)
Definition served (i : Instance) (tr : list (event (pcall B))) : Prop :=
  (length (sends tr) <= 1)%nat /\ (forall out, out ∈ sends tr -> addressed i out) /\
  lookups tr = [] /\ accesses tr = [] /\ omap control_of tr = [] /\ (i_state i <> Running -> sends tr = []).

Lemma served_nil i : served i [].
Proof. split; [simpl; lia|]. split; [intros out Hin; by apply elem_of_nil in Hin|]. by repeat split. Qed.

Lemma served_send i out r tr : i_state i = Running -> addressed i out ->
  sends tr = [] -> lookups tr = [] -> accesses tr = [] -> omap control_of tr = [] ->
  served i (mkEvent (Send out) r :: tr).
Proof.
  unfold sends, lookups, accesses. intros Hr Ha H1 H2 H3 H4. unfold served, sends, lookups, accesses. cbn.
  rewrite H1, H2, H3, H4. split; [simpl; lia|]. split; [by intros out' ->%list_elem_of_singleton|]. by repeat split.
Qed.

Lemma forward_served i target : i_state i = Running ->
  target = (if listener_port =? main_port self then effective_http_port i else listener_port) ->
  always (forward request i target remote tls) (fun tr _ => served i tr).
Proof.
  intros Hr Ht. unfold forward. destruct (uri_build _ _ _) as [uri|] eqn:Hu; [|apply served_nil].
  pose proof (outgoing_addressed i target uri Ht Hu) as Ha. unfold send_upgradable. intros [response|e]; [|by apply served_send].
  cbn. destruct (upgrade_protocol (rq_headers request)) as [protocol|]; [|by apply served_send].
  destruct (_ && _); [|by apply served_send]. intros u. by apply served_send.
Qed.

Lemma served_touch i uuid r tr : served i tr -> served i (mkEvent (TouchLastSeen uuid) r :: tr).
Proof. done. Qed.

Lemma serve_instance_served i :
  always (serve_instance self request i listener_port remote tls) (fun tr _ => served i tr).
Proof.
  unfold serve_instance. destruct (bool_decide (i_state i = Running)) eqn:Hr; cbn [negb]; [|apply served_nil].
  apply bool_decide_eq_true in Hr. destruct (has_last_seen self).
  - intros r. cbn. eapply always_mono; [|by apply forward_served]. intros tr x. apply served_touch.
  - cbn. by apply forward_served.
Qed.

(** *** What a visit may do *)





(** *** What a visit reveals *)

(** A name the visitor is not to learn of: it names nothing, its instance is
    switched off, or the visitor has no access to it. *)
Definition hidden (tr : list (event (pcall B))) : Prop :=
  lookups tr = [Ok None] \/
  exists i, lookups tr = [Ok (Some i)] /\ (i_visibility i = Off \/ AForbidden ∈ accesses tr).

Lemma revealed i tr : lookups tr = [Ok (Some i)] -> i_visibility i <> Off -> AForbidden ∉ accesses tr -> ~ hidden tr.
Proof.
  intros Hl Hoff Ha [Hn|(j & Hj & [Hv|Hf])]; [by rewrite Hl in Hn| |done]. rewrite Hl in Hj. by injection Hj as ->.
Qed.

Lemma served_revealed i before tr : served i tr -> lookups before = [Ok (Some i)] -> i_visibility i <> Off ->
  AForbidden ∉ accesses before -> ~ hidden (before ++ tr).
Proof.
  intros (_ & _ & Hl & Ha & _) Hb Hoff Hf. apply (revealed i); [|done|]; unfold lookups, accesses in *; rewrite omap_app.
  - by rewrite Hl, Hb.
  - by rewrite Ha, app_nil_r.
Qed.

(** Nobody can probe which names exist: in every run in which the name is
    free, its instance is switched off, or authorization refused the visitor,
    the answer is one and the same page and nothing is sent to a guest. *)
Theorem hidden_names_answer_alike :
  always (handle_connection self request listener_port remote server_name tls)
    (fun tr r => hidden tr -> r = not_found /\ sends tr = []).
Proof.
  unfold handle_connection. case_bool_decide.
  { destruct (_ && _); [|done]. intros r [Hl|(i & Hl & _)]; done. }
  destruct (strip_suffix _ host) as [name|]; [|done]. destruct (bool_decide (name = "") || _); [done|].
  intros [[i|]|e]; [|done|by intros [Hl|(i & Hl & _)]]. cbn.
  destruct (bool_decide (i_visibility i = Off)) eqn:Hoff; [done|]. apply bool_decide_eq_false in Hoff.
  destruct (bool_decide (i_visibility i = Private) || _).
  - destruct (has_sessions self).
    + intros [| |]; cbn; [|done|].
      * intros Hh. exfalso. revert Hh. apply (revealed i); [done..|]. set_solver.
      * eapply always_mono; [|apply (serve_instance_served i)]. intros tr r Hs Hh. exfalso. revert Hh.
        apply (served_revealed i [mkEvent (InstanceByName name) (Ok (Some i)); mkEvent (AccessOf request (i_uuid i)) AGranted]);
          [done..|]. set_solver.
    + intros Hh. exfalso. revert Hh. apply (revealed i); [done..|]. set_solver.
  - eapply always_mono; [|apply (serve_instance_served i)]. intros tr r Hs Hh. exfalso. revert Hh.
    apply (served_revealed i [mkEvent (InstanceByName name) (Ok (Some i))]); [done..|]. set_solver.
Qed.
End Runs.

(** ** Listeners and hosts *)

(** A proxy that is built listens on distinct ports: the main port and
    then every port of a nonempty high range that does not hold it, so that
    the listener alone decides which rule a request is under; a layout that
    would overlap, an empty range and an empty base domain are refused. *)
Theorem built_listeners_distinct (b : ProxyBuilder) :
  match build b with
  | Ok p => NoDup (ports p) /\ base_domain p <> ""%string /\
            (forall port, port ∈ ports p <-> port = main_port p \/ high_min p <= port <= high_max p) /\
            high_min p <= high_max p
  | Err EmptyBaseDomain => str_all (fun c => Ascii.eqb c ".") (to_ascii_lowercase (pb_base_domain b)) = true
  | Err (EmptyHighPortRange min max) => max < min
  | Err (MainPortInHighRange main min max) => min <= main <= max
  end.
Proof.
  unfold build. set (base := trim_end_matches _ _). unfold refuse_if.
  case_bool_decide as Hbase; cbn.
  { subst base. unfold trim_end_matches in Hbase. apply (f_equal string_rev) in Hbase. rewrite string_rev_rev in Hbase.
    rewrite <-string_rev_all. revert Hbase. generalize (string_rev (to_ascii_lowercase (pb_base_domain b))).
    induction s as [|c s IH]; [done|]. simpl. destruct (Ascii.eqb c "."); [exact IH|done]. }
  destruct (Z.ltb_spec (pb_high_max b) (pb_high_min b)); cbn; [done|].
  destruct (Z.leb_spec (pb_high_min b) (pb_main_port b)), (Z.leb_spec (pb_main_port b) (pb_high_max b)); cbn; [lia| | |].
  all: split; [|split; [done|split; [|done]]].
  all: try (intros port; unfold ports; cbn; rewrite elem_of_cons, elem_of_range; lia).
  all: unfold ports; cbn; apply NoDup_cons; split; [rewrite elem_of_range; lia|apply NoDup_seqZ].
Qed.

Lemma split_once_free c s : free c s -> split_once c s = None.
Proof.
  unfold free. induction s as [|a s IH]; simpl; [done|]. intros [Ha Hs]%andb_prop. apply negb_true_iff in Ha.
  by rewrite Ha, IH.
Qed.

Lemma rsplit_once_app c s t : free c t -> rsplit_once c (s +:+ String c t) = Some (s, t).
Proof.
  intros Ht. unfold rsplit_once. rewrite string_rev_append, string_rev_cons, string_app_assoc.
  change (String c EmptyString +:+ string_rev s) with (String c (string_rev s)).
  rewrite split_once_app by (unfold free; by rewrite string_rev_all). by rewrite !string_rev_rev.
Qed.

(** The port in a host does not matter for routing: whatever valid port a
    visitor names, a host without colons and brackets is routed as if none
    were named; and the authority the proxy builds from such an address and a
    port is read back as that address. *)
Theorem host_port_stripped (host : string) (port : Z) :
  0 <= port <= u16_max -> free ":" host -> starts_with "[" host = false ->
  strip_host_port (host +:+ ":" +:+ dec port) = strip_host_port host /\
  strip_host_port host = host /\
  strip_host_port (format_authority host port) = host.
Proof.
  intros Hp Hf Hb.
  assert (forall t, starts_with "[" (host +:+ String ":" t) = false) as Hb'.
  { intros t. destruct host as [|a host]; [done|]. unfold starts_with in *. cbn -[Ascii.eqb] in *.
    change (String a host +:+ String ":" t) with (String a (host +:+ String ":" t)).
    cbv iota. revert Hb. destruct (Ascii.eqb "[" a); intros Hb; [discriminate Hb|reflexivity]. }
  assert (strip_host_port (host +:+ ":" +:+ dec port) = host) as Hs.
  { unfold strip_host_port. specialize (Hb' (dec port)). unfold starts_with in Hb'.
    change (":" +:+ dec port) with (String ":" (dec port)). destruct (strip_prefix "[" _); [done|].
    rewrite rsplit_once_app by (apply digits_free; [apply dec_digits|done]).
    rewrite (proj2 (contains_char_free ":" host)) by done. cbn. rewrite parse_uint_dec by done.
    by rewrite bool_decide_eq_true_2. }
  assert (strip_host_port host = host) as Hh.
  { unfold strip_host_port. unfold starts_with in Hb. destruct (strip_prefix "[" host); [done|].
    unfold rsplit_once. rewrite split_once_free; [done|]. unfold free. by rewrite string_rev_all. }
  split; [congruence|]. split; [done|]. unfold format_authority.
  rewrite (proj2 (contains_char_free ":" host)) by done. exact Hs.
Qed.
