(* ===== verification/Gateway.v ===== *)
(** * Gateway: visitors, authorization and the store together

    [bentod/src/adapters.rs] gives the sign-in service its traits over the
    database ([AuthUsers], [AuthAccess], [AuthTokens], [AuthPairings],
    [AuthInstanceNames], [AccountProvisioner]) and gives the proxy its own
    ([ProxySource], and [RemoteSession], which asks the control plane's
    [/access/] route, [access_status]).  Here the calls of [Auth] and [Proxy]
    are answered that way, over one database and one table of sessions, and
    the parts are joined: what reaches a guest was allowed by the rows. *)

From Stdlib Require Import ZArith Lia Ascii.
From S2P Require Import Prelude Text Types Ipv4 Network Db Instances Accounts Prog Http Auth AuthRuns Proxy.
Open Scope Z_scope.

(** ** Sessions in memory: [MemorySessionStore] *)

Definition MemorySessionStore : Type := gmap string Session.
Definition ms_put (s : Session) (m : MemorySessionStore) : MemorySessionStore := <[ss_id s := s]> m.
Definition ms_get (id : string) (m : MemorySessionStore) : option Session := m !! id.
Definition ms_delete (id : string) (m : MemorySessionStore) : MemorySessionStore := delete id m.
Definition delete_expired (now : Z) (m : MemorySessionStore) : MemorySessionStore :=
  filter (fun e => now < ss_expires_at e.2) m.

(** ** The control plane *)

(** The database, the sessions, how many calls have been made, and the rest. *)
Record Plane (X : Type) : Type := mkPlane {
  g_db : Db;
  g_sessions : MemorySessionStore;
  g_calls : nat;
  g_outside : X
}.
Arguments mkPlane {X}. Arguments g_db {X}. Arguments g_sessions {X}. Arguments g_calls {X}. Arguments g_outside {X}.

(** ** The traits over the store *)

Section Adapters.
Context `{TimeFormat}.

(** [?] on a store error, and [Err(NotFound) => Ok(None)]. *)
Definition boxed {A} (m : Tx A) (d : Db) : result BoxError A * Db :=
  let '(r, d') := m d in (map_err BoxStore r, d').
Definition found {A} (r : result StoreError A) : result BoxError (option A) :=
  match r with Ok a => Ok (Some a) | Err NotFound => Ok None | Err e => Err (BoxStore e) end.
Definition lookup_boxed {A} (m : Tx A) (d : Db) : result BoxError (option A) * Db :=
  let '(r, d') := m d in (found r, d').

(** [AuthTokens]. *)
Definition auth_create_token (user_id : Z) (hash : string) (expires_at : option Z) (d : Db) :
    result BoxError Token * Db :=
  let '(r, d') := boxed (create_token user_id hash expires_at) d in
  ((fun id => mkToken id user_id hash expires_at) <$> r, d').
Definition auth_token_by_hash (hash : string) (d : Db) : result BoxError TokenLookup * Db :=
  let '(r, d') := lookup_boxed (token_by_hash hash) d in
  ((fun t => match t with Some t => TFound t | None => TNotFound end) <$> r, d').
Definition auth_delete_token (id : Z) (d : Db) : result BoxError unit * Db :=
  let '(r, d') := lookup_boxed (delete_token_by_id id) d in ((fun _ => tt) <$> r, d').

(** [AuthPairings::link_pairing]. *)
Definition auth_link_pairing (id user_id t t' : Z) (d : Db) : result BoxError bool * Db :=
  let '(r, d') := lookup_boxed (link_pairing id user_id t t') d in
  ((fun k => match k with Some _ => true | None => false end) <$> r, d').

(** [AuthUsers::user_by_oidc_subject]: an empty subject is nobody's. *)
Definition auth_user_by_subject (subject : string) (d : Db) : result BoxError (option User) * Db :=
  if bool_decide (subject = "") then (Ok None, d) else lookup_boxed (user_by_oidc_subject subject) d.

(** [AuthInstanceNames::exists]. *)
Definition auth_name_exists (name : string) (d : Db) : bool * Db :=
  let '(r, d') := instance_by_name name d in (is_ok r, d').

(** [AccountProvisioner::provision]; [settle], which defines the network and
    reloads the firewall, writes nothing here and its failures are logged. *)
Definition provision (range_ : Ipv4Prefix) (account : NewAccount) (t : Z) (d : Db) : result BoxError User * Db :=
  boxed (register (preferred_name account) (na_email account) (Some (na_oidc_subject account)) range_ true t) d.

(** What a call of the service does to the database; [t] and [t'] are the
    readings of the store's clock. *)
Definition auth_store {R} (c : acall R) (range_ : Ipv4Prefix) (t t' : Z) : option (Db -> R * Db) :=
  match c in acall R return option (Db -> R * Db) with
  | UserByOidcSubject subject => Some (auth_user_by_subject subject)
  | UserById id => Some (lookup_boxed (user_by_id id))
  | HasAccess uuid user_id => Some (boxed (has_access uuid user_id))
  | CreateToken user_id hash expires_at => Some (auth_create_token user_id hash expires_at)
  | TokenByHash hash => Some (auth_token_by_hash hash)
  | DeleteToken id => Some (auth_delete_token id)
  | NameExists name => Some (auth_name_exists name)
  | Provision account => Some (provision range_ account t)
  | PairingByTokenHash hash => Some (lookup_boxed (pairing_by_token_hash hash))
  | LinkPairing id user_id => Some (auth_link_pairing id user_id t t')
  | _ => None
  end.

Section Handlers.
Context {X : Type} (clock : nat -> Z) (range_ : Ipv4Prefix) (outside : handler acall X).

(** One call of the service: the sessions in memory, the clock, the store,
    or the world outside (randomness and the provider). *)
Definition control_plane : handler acall (Plane X) := fun R c w =>
  let next d m x := mkPlane d m (S (g_calls w)) x in
  match c in acall R return (R * X) -> option (Db -> R * Db) -> R * Plane X with
  | Now => fun _ _ => (clock (2 * g_calls w)%nat, next (g_db w) (g_sessions w) (g_outside w))
  | SessionPut s => fun _ _ => (Ok tt, next (g_db w) (ms_put s (g_sessions w)) (g_outside w))
  | SessionGet id => fun _ _ => (ms_get id (g_sessions w), next (g_db w) (g_sessions w) (g_outside w))
  | SessionDelete id => fun _ _ => (tt, next (g_db w) (ms_delete id (g_sessions w)) (g_outside w))
  | _ => fun elsewhere store =>
      match store with
      | Some m => let '(r, d') := m (g_db w) in (r, next d' (g_sessions w) (g_outside w))
      | None => let '(r, x') := elsewhere in (r, next (g_db w) (g_sessions w) x')
      end
  end (outside R c (g_outside w)) (auth_store c range_ (clock (2 * g_calls w)%nat) (clock (2 * g_calls w + 1)%nat)).
End Handlers.
End Adapters.

(** ** Routes *)

Section Routes.
Context `{HttpLib} (sha256 : string -> list Z) (service : Service).

(** [access_status]: the session cookie, or else a bearer token. *)
Definition or_by_token (headers : HeaderMap) (uuid : string) (by_session : result AuthError Z) :
    M (result AuthError unit) :=
  match by_session, bearer_token headers with
  | Err Unauthenticated, Some plaintext =>
      token ← authenticate_token sha256 plaintext;
      match token with
      | Ok token => authorize_user (t_user_id token) uuid
      | Err _ => mret (Err Unauthenticated)
      end
  | r, _ => mret ((fun _ => tt) <$> r)
  end.
Definition status_of (outcome : result AuthError unit) : Z :=
  match outcome with
  | Ok _ => NO_CONTENT
  | Err Forbidden => FORBIDDEN
  | Err _ => UNAUTHORIZED
  end.
Definition access_status (headers : HeaderMap) (uuid : string) : M Z :=
  by_session ← authorize_request headers uuid;
  outcome ← or_by_token headers uuid by_session;
  mret (status_of outcome).

(** What [user_from_headers] reports. *)
Inductive ApiError : Type := ApiAuth (e : AuthError) | ApiStore (e : BoxError).

(** [self.store.user_by_id(id).await?]. *)
Definition account (id : Z) : M (result ApiError User) :=
  user ← await (UserById id);
  mret (match user with
        | Ok (Some user) => Ok user
        | Ok None => Err (ApiStore (BoxStore NotFound))
        | Err e => Err (ApiStore e)
        end).

(** [Authenticator::user_from_headers]. *)
Definition user_from_headers (headers : HeaderMap) : M (result ApiError User) :=
  session ← session_from_headers headers;
  match session with
  | Some session => account (ss_user_id session)
  | None =>
      match bearer_token headers with
      | Some plaintext =>
          token ← authenticate_token sha256 plaintext;
          match token with
          | Ok token => account (t_user_id token)
          | Err e => mret (Err (ApiAuth e))
          end
      | None => mret (Err (ApiAuth Unauthenticated))
      end
  end.

(** [RemoteSession::access]: the headers it passes on, and what it makes of
    the answer; [None] is a request that failed. *)
Definition credentials (headers : HeaderMap) : HeaderMap :=
  foldl (fun m name => match header_get headers name with Some v => headers_append name v m | None => m end)
    headers_new [COOKIE; AUTHORIZATION].
Definition access_from_status (answer : option Z) : Access :=
  match answer with
  | Some st => if (200 <=? st) && (st <? 300) then AGranted
               else if st =? UNAUTHORIZED then AUnauthenticated else AForbidden
  | None => AForbidden
  end.
End Routes.

(** ** The proxy over the control plane *)

Section Joined.
Context `{HttpLib} `{TimeFormat} {X B : Type}.
Context (sha256 : string -> list Z) (service : Service).
Context (clock : nat -> Z) (range_ : Ipv4Prefix) (outside : handler acall X) (guests : handler (pcall B) X).
(** Whether the control plane answers the proxy. *)
Context (reachable : nat -> bool).

(** [RemoteSession::access] through the route. *)
Definition remote_access (request : Request B) (uuid : string) (w : Plane X) : Access * Plane X :=
  if reachable (g_calls w) then
    let '(r, w') := run (control_plane clock range_ outside) (access_status sha256 (credentials (rq_headers request)) uuid) w in
    (access_from_status (match r with Ok st => Some st | Err _ => None end), w')
  else (AForbidden, w).

(** [ProxySource], [RemoteSession], and the guests behind the rest. *)
Definition front : handler (pcall B) (Plane X) := fun R c w =>
  let next d x := mkPlane d (g_sessions w) (S (g_calls w)) x in
  match c in pcall _ R return (R * X) -> R * Plane X with
  | InstanceByName name => fun _ =>
      let '(r, d') := lookup_boxed (instance_by_name name) (g_db w) in
      (map_err (fun _ => ""%string) r, next d' (g_outside w))
  | AccessOf request uuid => fun _ => remote_access request uuid w
  | TouchLastSeen uuid => fun _ =>
      let '(r, d') := boxed (touch_last_seen uuid (clock (2 * g_calls w)%nat)) (g_db w) in
      (map_err (fun _ => ""%string) r, next d' (g_outside w))
  | _ => fun elsewhere => let '(r, x') := elsewhere in (r, next (g_db w) x')
  end (guests R c (g_outside w)).
End Joined.

(** ** What the route promises, in every run *)

Section Vouching.
Context `{HttpLib}.

Lemma signed_in_mono headers tr tr' s : tr ⊆ tr' -> signed_in headers tr s -> signed_in headers tr' s.
Proof. intros Ht (id & now & H1 & H2 & H3 & H4 & H5). exists id, now. auto 10. Qed.

Lemma authorize_request_split headers uuid :
  authorize_request headers uuid =
  (s ← session_from_headers headers;
   match s with None => mret (Err Unauthenticated) | Some s => authorize_user_id (ss_user_id s) uuid end).
Proof. unfold authorize_request, session_from_headers, authorize. by destruct (cookie_value headers _). Qed.

Lemma authorize_user_granted user uuid :
  always (authorize_user_id user uuid) (fun tr r => forall u, r = Ok (Ok u) -> mkEvent (HasAccess uuid user) (Ok true) ∈ tr).
Proof. apply always_await. intros [[]|e] u [=]. set_solver. Qed.

Lemma authorize_user_ok user uuid :
  always (authorize_user user uuid) (fun tr r => forall u, r = Ok (Ok u) -> mkEvent (HasAccess uuid user) (Ok true) ∈ tr).
Proof. apply always_await. intros [[]|e] u [=]. set_solver. Qed.

Lemma authorize_request_sound headers uuid :
  always (authorize_request headers uuid) (fun tr r => forall u, r = Ok (Ok u) ->
    exists s, signed_in headers tr s /\ mkEvent (HasAccess uuid (ss_user_id s)) (Ok true) ∈ tr).
Proof.
  rewrite authorize_request_split. apply always_M_bind. eapply always_mono; [|apply session_signed_in].
  intros tr [[s|]|e] Hs; [|by intros u [=]..]. eapply always_mono; [|apply authorize_user_granted].
  intros tr' r Hr u Hu. exists s. specialize (Hr u Hu). split; [|set_solver].
  eapply signed_in_mono; [|by apply Hs]. set_solver.
Qed.

Context (sha256 : string -> list Z).

(** A token of this request, as the run read it. *)
Definition token_shown (headers : HeaderMap) (tr : list (event acall)) (token : Token) : Prop :=
  exists plaintext, bearer_token headers = Some plaintext /\
    mkEvent (TokenByHash (hash_token sha256 plaintext)) (Ok (TFound token)) ∈ tr /\
    (forall at_, t_expires_at token = Some at_ -> exists now, mkEvent Now now ∈ tr /\ now < at_).

Definition vouched (headers : HeaderMap) (tr : list (event acall)) (user : Z) : Prop :=
  (exists s, signed_in headers tr s /\ ss_user_id s = user) \/
  (exists token, token_shown headers tr token /\ t_user_id token = user).

Lemma authenticate_shown headers plaintext : bearer_token headers = Some plaintext ->
  always (authenticate_token sha256 plaintext) (fun tr r => forall token, r = Ok (Ok token) -> token_shown headers tr token).
Proof.
  intros Hb. unfold authenticate_token. case_bool_decide; [by intros t [=]|].
  apply always_await. intros [[token|]|e]; [|by intros t [=]..].
  destruct (t_expires_at token) as [at_|] eqn:Ha.
  - apply always_await. intros now. destruct (Z.leb_spec at_ now); intros t [= <-]. exists plaintext.
    split; [done|]. split; [set_solver|]. intros at' [= <-]%(eq_trans (eq_sym Ha)). exists now. split; [set_solver|done].
  - intros t [= <-]. exists plaintext. split; [done|]. split; [set_solver|]. congruence.
Qed.

Lemma or_by_token_sound headers uuid by_session :
  always (or_by_token sha256 headers uuid by_session) (fun tr r => forall u, r = Ok (Ok u) ->
    is_ok by_session = true \/
    exists token, token_shown headers tr token /\ mkEvent (HasAccess uuid (t_user_id token)) (Ok true) ∈ tr).
Proof.
  unfold or_by_token. destruct by_session as [v|[]]; try (by intros u _; left); try (by intros u [=]).
  destruct (bearer_token headers) as [plaintext|] eqn:Hb; [|by intros u [=]].
  apply always_M_bind. eapply always_mono; [|by apply (authenticate_shown headers)].
  intros tr [[token|e]|e] Ht; [|by intros u [=]..]. eapply always_mono; [|apply authorize_user_ok].
  intros tr' r Hr u Hu. right. exists token. specialize (Hr u Hu). specialize (Ht token eq_refl). split; [|set_solver].
  destruct Ht as (p & Hp & Hin & Hx). exists p. split; [done|]. split; [set_solver|].
  intros at_ (now & Hn & Hlt)%Hx. exists now. set_solver.
Qed.

(** The route answers 204 only to a visitor whose live session or valid token
    belongs to a user the access check approved. *)
Lemma access_status_sound headers uuid :
  always (access_status sha256 headers uuid) (fun tr r => r = Ok NO_CONTENT ->
    exists user, vouched headers tr user /\ mkEvent (HasAccess uuid user) (Ok true) ∈ tr).
Proof.
  unfold access_status. apply always_M_bind. eapply always_mono; [|apply authorize_request_sound].
  intros tr [by_session|e] Hs; [|by intros [=]]. apply always_M_bind. eapply always_mono; [|apply or_by_token_sound].
  intros tr' [outcome|e] Ho; [|by intros [=]]. cbn. rewrite app_nil_r. intros Hst.
  destruct outcome as [u|er]; [|by destruct er]. destruct (Ho u eq_refl) as [Hok|(token & Ht & Hin)].
  - apply is_ok_true in Hok as [v ->]. destruct (Hs v eq_refl) as (s & Hsig & Hin). exists (ss_user_id s).
    split; [|set_solver]. left. exists s. split; [|done]. eapply signed_in_mono; [|exact Hsig]. set_solver.
  - exists (t_user_id token). split; [|set_solver]. right. exists token. split; [|done].
    destruct Ht as (p & Hp & Hi & Hx). exists p. split; [done|]. split; [set_solver|].
    intros at_ (now & Hn & Hlt)%Hx. exists now. set_solver.
Qed.
End Vouching.

(** ** What the route reads *)

Section Reading.
Context `{HttpLib} `{TimeFormat}.
Context (sha256 : string -> list Z).

(** The calls of the route write nothing but the removal of a session. *)
Definition asks (R : Type) (c : acall R) : Prop :=
  match c with
  | Now | SessionGet _ | SessionDelete _ | HasAccess _ _ | TokenByHash _ => True
  | _ => False
  end.
Definition asking {A} (p : M A) : Prop := always p (fun tr _ => Forall (fun e => asks _ (ev_call e)) tr).

Lemma asking_bind {A B} (p : M A) (f : A -> M B) : asking p -> (forall a, asking (f a)) -> asking (p ≫= f).
Proof.
  intros Hp Hf. apply always_M_bind. eapply always_mono; [|exact Hp]. intros tr [a|e] Htr; [|done].
  eapply always_mono; [|apply Hf]. intros tr' r Htr'. by apply Forall_app.
Qed.
Lemma asking_await {R} (c : acall R) : asks R c -> asking (await c).
Proof. intros Hc r. by repeat constructor. Qed.
Lemma asking_ret {A} (a : A) : asking (mret a).
Proof. constructor. Qed.

Ltac asking_steps :=
  repeat first
    [ lazymatch goal with
      | |- asking (await _) => apply asking_await; exact I
      | |- asking (mret _) => apply asking_ret
      | |- asking (_ ≫= _) => apply asking_bind; [|intros ?]
      end
    | progress case_match ].

Lemma access_status_asks headers uuid : asking (access_status sha256 headers uuid).
Proof.
  unfold access_status, authorize_request, authorize, session, authorize_user_id, or_by_token, authenticate_token,
    authorize_user, authorize_user_id.
  asking_steps.
Qed.

Context {X : Type} (clock : nat -> Z) (range_ : Ipv4Prefix) (outside : handler acall X).
#[local] Abbreviation h := (control_plane clock range_ outside).

Lemma token_by_hash_reads hash : reads_only (token_by_hash hash).
Proof. unfold token_by_hash. ro_steps. Qed.
Lemma instance_by_name_reads name : reads_only (instance_by_name name).
Proof. unfold instance_by_name. ro_steps. Qed.

(** What the route leaves as it was. *)
Definition as_before (w w' : Plane X) : Prop :=
  g_db w' = g_db w /\ g_sessions w' ⊆ g_sessions w /\ (g_calls w <= g_calls w')%nat.

Lemma asks_as_before w R (c : acall R) w' : asks R c -> as_before w w' -> as_before w (snd (h R c w')).
Proof.
  intros Hc (Hd & Hs & Hn). destruct c; try done; unfold control_plane; cbn [snd].
  - repeat split; cbn; [done..|lia].
  - repeat split; cbn; [done..|lia].
  - repeat split; cbn; [done| |lia]. unfold ms_delete. etrans; [apply delete_subseteq|done].
  - repeat split; cbn; [done..|lia].
  - unfold auth_store, auth_token_by_hash, lookup_boxed. pose proof (token_by_hash_reads hash (g_db w')) as Hr.
    destruct (token_by_hash hash (g_db w')) as [r d']. simpl in Hr. subst d'. repeat split; cbn; [done..|lia].
Qed.

(** A credential of a request that holds in a state of the control plane: a
    session that has not expired, or a token that has not. *)
Definition credential (w : Plane X) (headers : HeaderMap) (user : Z) : Prop :=
  (exists id s k, cookie_value headers SESSION_COOKIE_NAME = Some id /\ g_sessions w !! id = Some s /\
     ss_user_id s = user /\ (g_calls w <= k)%nat /\ clock (2 * k)%nat < ss_expires_at s) \/
  (exists plaintext token, bearer_token headers = Some plaintext /\
     fst (token_by_hash (hash_token sha256 plaintext) (g_db w)) = Ok token /\ t_user_id token = user /\
     forall at_, t_expires_at token = Some at_ -> exists k, (g_calls w <= k)%nat /\ clock (2 * k)%nat < at_).

(** The rows that give a user access: ownership, or a share. *)
Definition may_use (d : Db) (uuid : string) (user : Z) : Prop :=
  (exists row, instances d !! uuid = Some row /\ in_owner_id row = user) \/ is_Some (shares d !! (uuid, user)).

Lemma has_access_may_use d uuid user : fst (has_access uuid user d) = Ok true <-> may_use d uuid user.
Proof.
  unfold has_access, query, may_use. cbn. split.
  - intros [= Ho]. apply orb_prop in Ho as [Ho|Ho]; [left|right; by apply bool_decide_eq_true in Ho].
    destruct (instances d !! uuid) as [row|]; [|done]. exists row. split; [done|]. by apply Z.eqb_eq.
  - intros [(row & -> & <-)|Hs]; f_equal; [by rewrite Z.eqb_refl|]. apply orb_true_intro. right.
    by apply bool_decide_eq_true.
Qed.

(** Each answer of a run of the route is that of the state it started in. *)
Lemma answered headers uuid w (e : event acall) :
  e ∈ trace h (access_status sha256 headers uuid) w ->
  exists w', as_before w w' /\ ev_reply e = fst (h _ (ev_call e) w').
Proof.
  apply (trace_reached h asks (as_before w)).
  - apply access_status_asks.
  - apply asks_as_before.
  - by repeat split.
Qed.

Lemma read_session headers uuid w id s :
  mkEvent (SessionGet id) (Some s) ∈ trace h (access_status sha256 headers uuid) w -> g_sessions w !! id = Some s.
Proof.
  intros (w' & (_ & Hs & _) & Hr)%answered. cbn in Hr. symmetry in Hr. by apply (lookup_weaken _ _ _ _ Hr).
Qed.
Lemma read_clock headers uuid w now :
  mkEvent Now now ∈ trace h (access_status sha256 headers uuid) w ->
  exists k, (g_calls w <= k)%nat /\ now = clock (2 * k)%nat.
Proof. intros (w' & (_ & _ & Hn) & Hr)%answered. by exists (g_calls w'). Qed.
Lemma read_token headers uuid w hash token :
  mkEvent (TokenByHash hash) (Ok (TFound token)) ∈ trace h (access_status sha256 headers uuid) w ->
  fst (token_by_hash hash (g_db w)) = Ok token.
Proof.
  intros (w' & (Hd & _ & _) & Hr)%answered. cbn in Hr. rewrite Hd in Hr.
  unfold auth_token_by_hash, lookup_boxed in Hr. destruct (token_by_hash hash (g_db w)) as [[t|e] d']; cbn in *; [by simplify_eq|].
  by destruct e.
Qed.
Lemma read_access headers uuid w u user :
  mkEvent (HasAccess u user) (Ok true) ∈ trace h (access_status sha256 headers uuid) w -> may_use (g_db w) u user.
Proof.
  intros (w' & (Hd & _ & _) & Hr)%answered. cbn in Hr. rewrite Hd in Hr. apply has_access_may_use.
  injection Hr as Hr. unfold has_access, query. cbn. by rewrite <-Hr.
Qed.

(** What the route grants, the rows grant. *)
Lemma access_granted headers uuid w :
  fst (run h (access_status sha256 headers uuid) w) = Ok NO_CONTENT ->
  exists user, credential w headers user /\ may_use (g_db w) uuid user.
Proof.
  intros Hok.
  destruct (always_run h _ w _ (access_status_sound sha256 headers uuid) Hok) as (user & Hv & Hin).
  exists user. split; [|by apply (read_access headers uuid)].
  destruct Hv as [(s & (id & now & Hc & _ & Hg & Hn & Hlt) & Hu)|(token & (p & Hp & Hg & Hx) & Hu)].
  - left. apply read_clock in Hn as (k & Hk & ->). exists id, s, k. apply read_session in Hg. auto.
  - right. exists p, token. apply read_token in Hg. split; [done|]. split; [done|]. split; [done|].
    intros at_ (now & Hn & Hlt)%Hx. apply read_clock in Hn as (k & Hk & ->). eauto.
Qed.
End Reading.

(** ** End to end *)

Section EndToEnd.
Context `{HttpLib} `{TimeFormat} {X B : Type}.
Context (sha256 : string -> list Z).
Context (clock : nat -> Z) (range_ : Ipv4Prefix) (outside : handler acall X) (guests : handler (pcall B) X).
Context (reachable : nat -> bool) (self : Proxy).
#[local] Abbreviation fr := (front sha256 clock range_ outside guests reachable).

Lemma front_lookup name w :
  exists w1, front sha256 clock range_ outside guests reachable _ (InstanceByName name) w =
    (map_err (fun _ => ""%string) (found (fst (instance_by_name name (g_db w)))), w1) /\
    g_db w1 = g_db w /\ g_sessions w1 = g_sessions w /\ g_calls w1 = S (g_calls w).
Proof.
  unfold front, lookup_boxed. pose proof (instance_by_name_reads name (g_db w)) as Hr.
  destruct (instance_by_name name (g_db w)) as [r d']. simpl in Hr. subst d'. by eexists.
Qed.

Lemma granted_status st : access_from_status (Some st) = AGranted -> 200 <= st < 300.
Proof. unfold access_from_status. destruct (_ && _) eqn:Hs; [lia|]. by destruct (st =? UNAUTHORIZED). Qed.

Lemma status_of_granted outcome : 200 <= status_of outcome < 300 -> status_of outcome = NO_CONTENT.
Proof. unfold status_of, FORBIDDEN, UNAUTHORIZED. destruct outcome as [|[]]; [done|lia..]. Qed.
Lemma access_status_code headers uuid :
  always (access_status sha256 headers uuid) (fun _ r => forall st, r = Ok st -> exists outcome, st = status_of outcome).
Proof.
  unfold access_status. apply always_M_bind, always_pure. intros tr [by_session|e]; [|by intros st [=]].
  apply always_M_bind, always_pure. intros tr' [outcome|e]; [|by intros st [=]]. intros st [= <-]. by exists outcome.
Qed.

(** The proxy's own view of the route. *)
Lemma front_access request uuid w :
  fst (fr _ (AccessOf request uuid) w) = AGranted ->
  exists user, credential sha256 clock w (credentials (rq_headers request)) user /\ may_use (g_db w) uuid user.
Proof.
  unfold front, remote_access. destruct (reachable (g_calls w)); [|done].
  pose proof (access_granted sha256 clock range_ outside (credentials (rq_headers request)) uuid w) as Hg.
  pose proof (always_run (control_plane clock range_ outside) _ w _
    (access_status_code (credentials (rq_headers request)) uuid)) as Hcode.
  destruct (run _ _ w) as [[st|e] w']; cbn [fst] in *; [|done]. intros Hst%granted_status. apply Hg. f_equal.
  destruct (Hcode st eq_refl) as [outcome ->]. by apply status_of_granted.
Qed.

Lemma credential_later (w w1 : Plane X) headers user :
  g_db w1 = g_db w -> g_sessions w1 = g_sessions w -> (g_calls w <= g_calls w1)%nat ->
  credential sha256 clock w1 headers user -> credential sha256 clock w headers user.
Proof.
  unfold credential. intros -> -> Hn [(id & s & k & H1 & H2 & H3 & H4 & H5)|(p & token & H1 & H2 & H3 & H4)].
  - left. exists id, s, k. repeat split; try done. lia.
  - right. exists p, token. repeat split; try done. intros at_ (k & Hk & Hlt)%H4. exists k. split; [lia|done].
Qed.

Lemma trace_call {E W R A} (h : handler E W) (c : E R) (f : R -> prog E A) w r w' :
  h R c w = (r, w') -> trace h (call c ≫= f) w = mkEvent c r :: trace h (f r) w'.
Proof. intros Hh. cbn. by rewrite Hh. Qed.

(** A guest served under a condition that holds. *)
Lemma serve_traffic request listener_port remote tls i w out :
  out ∈ sends (trace fr (serve_instance self request i listener_port remote tls) w) ->
  i_state i = Running /\ addressed self request listener_port remote tls i out.
Proof.
  intros Hin. destruct (always_run fr _ w _ (serve_instance_served self request listener_port remote tls i))
    as (_ & Ha & _ & _ & _ & Hr). split; [|by apply Ha].
  destruct (decide (i_state i = Running)) as [|Hx]; [done|]. rewrite (Hr Hx) in Hin. by apply elem_of_nil in Hin.
Qed.

(** C3. What reaches a guest, the rows allow: in a run of the proxy over the
    real store, sessions and authorization route, every request sent to a
    guest goes to the running instance that bears the host's label in the
    database, at its address; and unless that instance is public and the
    visitor came in on the main port, the visitor showed an unexpired session
    or token of a user who owns the instance or holds a share on its UUID. *)
Theorem guest_traffic_allowed (request : Request B) (listener_port : Z) (remote : string) (server_name : option string)
    (tls : bool) (w : Plane X) (out : Request B) :
  out ∈ sends (trace fr (handle_connection self request listener_port remote server_name tls) w) ->
  exists name i, request_host request server_name = name +:+ "." +:+ Proxy.instance_domain self /\
    fst (instance_by_name name (g_db w)) = Ok i /\ i_state i = Running /\ i_visibility i <> Off /\
    addressed self request listener_port remote tls i out /\
    ((i_visibility i = Public /\ listener_port = main_port self) \/
     exists user, credential sha256 clock w (credentials (rq_headers request)) user /\ may_use (g_db w) (i_uuid i) user).
Proof.
  unfold handle_connection. set (host := request_host request server_name).
  case_bool_decide as Hb.
  { destruct (_ && _); [|intros Hin; by apply elem_of_nil in Hin]. cbn. destruct (guests _ _ _); cbn.
    intros Hin. by apply elem_of_nil in Hin. }
  destruct (strip_suffix _ host) as [name|] eqn:Hsuf; [|intros Hin; by apply elem_of_nil in Hin].
  apply strip_suffix_Some in Hsuf. destruct (_ || _); [intros Hin; by apply elem_of_nil in Hin|].
  destruct (front_lookup name w) as (w1 & Hf & Hd & Hs & Hn). rewrite (trace_call _ _ _ _ _ _ Hf).
  destruct (fst (instance_by_name name (g_db w))) as [i|er] eqn:Hi; [|destruct er; intros Hin; by apply elem_of_nil in Hin].
  cbn [found map_err]. case_bool_decide as Hoff; [intros Hin; by apply elem_of_nil in Hin|].
  destruct (bool_decide (i_visibility i = Private) || negb (listener_port =? main_port self)) eqn:Hpriv.
  - destruct (has_sessions self); [|intros Hin; by apply elem_of_nil in Hin].
    destruct (fr _ (AccessOf request (i_uuid i)) w1) as [access w2] eqn:Ha. rewrite (trace_call _ _ _ _ _ _ Ha).
    destruct access; [intros Hin; by apply elem_of_nil in Hin..|].
    intros [Hr Haddr]%serve_traffic. exists name, i. do 5 (split; [done|]). right.
    destruct (front_access request (i_uuid i) w1) as (user & Hc & Hm); [by rewrite Ha|]. rewrite Hd in Hm.
    exists user. split; [|done]. apply (credential_later w w1); [done..|lia|done].
  - apply orb_false_elim in Hpriv as [Hpriv%bool_decide_eq_false Hmain%negb_false_iff%Z.eqb_eq].
    intros [Hr Haddr]%serve_traffic. exists name, i. do 5 (split; [done|]). left. split; [|done].
    by destruct (i_visibility i).
Qed.
End EndToEnd.

(** ** The life of a token *)

Section TokenLife.
Context `{HttpLib} `{TimeFormat} {X : Type}.
Context (sha256 : string -> list Z).
Context (clock : nat -> Z) (range_ : Ipv4Prefix) (outside : handler acall X).
#[local] Abbreviation h := (control_plane clock range_ outside).

Lemma create_token_Ok user hash expires d id d' : create_token user hash expires d = (Ok id, d') ->
  exists at_, opt_res format_time expires = Ok at_ /\ tokens d' !! id = Some (mkTokenRow user hash at_).
Proof.
  unfold create_token, lift_res, query, require, modify, mbind, ST_bind, mret, ST_ret. intros Hc.
  destruct (opt_res format_time expires) as [at_|e]; [|done]. exists at_. split; [done|]. revert Hc.
  destruct (col_free _ _ _ _); [|done]. destruct (ref_ok _ _); [|done]. intros [= <- <-]. apply lookup_insert_eq.
Qed.

Lemma opt_parse_format expires at_ : opt_res format_time expires = Ok at_ -> opt_res parse_time at_ = Ok expires.
Proof.
  destruct expires as [t|]; cbn; [|by intros [= <-]]. destruct (format_time t) as [s|] eqn:Hf; cbn; [|done].
  intros [= <-]. cbn. by rewrite (parse_format_time t s Hf).
Qed.

Lemma token_row_found d id user hash expires at_ : wf_db d -> tokens d !! id = Some (mkTokenRow user hash at_) ->
  opt_res format_time expires = Ok at_ -> token_by_hash hash d = (Ok (mkToken id user hash expires), d).
Proof.
  intros Hwf Hrow Hat. unfold token_by_hash, query, mbind, ST_bind.
  rewrite (find_row_unique _ _ id (mkTokenRow user hash at_)); [|done|by apply bool_decide_eq_true|].
  - unfold lift_res, scan_token. cbn. by rewrite (opt_parse_format _ _ Hat).
  - intros k r Hk Hh%bool_decide_eq_true. eapply (wf_token_hash d Hwf); [exact Hk|exact Hrow|cbn; by rewrite Hh|done].
Qed.

Lemma token_row_deleted d id r : wf_db d -> tokens d !! id = Some r ->
  token_by_hash (tr_hash r) (set_tokens (delete id) d) = (Err NotFound, set_tokens (delete id) d).
Proof.
  intros Hwf Hrow. unfold token_by_hash, query, mbind, ST_bind. rewrite (proj2 (find_row_None _ _)); [done|].
  intros k r' Hk. cbn in Hk. apply lookup_delete_Some in Hk as [Hne Hk]. apply bool_decide_eq_false. intros Hh. apply Hne. symmetry.
  eapply (wf_token_hash d Hwf); [exact Hk|exact Hrow|cbn; by rewrite Hh|done].
Qed.

(** What authenticating does where the row of the token still stands. *)
Definition token_verdict (token : Token) (now : Z) : result AuthError Token :=
  match t_expires_at token with
  | Some at_ => if at_ <=? now then Err TokenExpired else Ok token
  | None => Ok token
  end.

Lemma authenticate_run plaintext token d w : plaintext <> ""%string -> g_db w = d ->
  token_by_hash (hash_token sha256 plaintext) d = (Ok token, d) ->
  fst (run h (authenticate_token sha256 plaintext) w) = Ok (token_verdict token (clock (2 * S (g_calls w))%nat)).
Proof.
  intros Hp <- Ht. unfold authenticate_token, token_verdict. rewrite bool_decide_eq_false_2 by done. cbn.
  unfold auth_token_by_hash, lookup_boxed. rewrite Ht. cbn. by destruct (t_expires_at token).
Qed.

Lemma authenticate_unknown plaintext w :
  fst (token_by_hash (hash_token sha256 plaintext) (g_db w)) = Err NotFound ->
  fst (run h (authenticate_token sha256 plaintext) w) = Ok (Err Unauthenticated).
Proof.
  intros Ht. unfold authenticate_token. case_bool_decide; [done|]. cbn. unfold auth_token_by_hash, lookup_boxed.
  destruct (token_by_hash _ _) as [r d']. cbn in Ht. by subst r.
Qed.

(** What minting wrote. *)
Lemma mint_run user ttl plaintext token w w1 :
  run h (mint_token sha256 user ttl) w = (Ok (Ok (plaintext, token)), w1) ->
  let expires := if 0 <? ttl then Some (clock (2 * S (g_calls w))%nat + ttl) else None in
  exists random id, plaintext = TOKEN_PREFIX +:+ random /\
    create_token user (hash_token sha256 plaintext) expires (g_db w) = (Ok id, g_db w1) /\
    token = mkToken id user (hash_token sha256 plaintext) expires.
Proof.
  unfold mint_token. cbn. destruct (outside _ RandomToken _) as [random x]. cbn. intros Hmint. exists random.
  destruct (0 <? ttl); cbn in Hmint; unfold auth_create_token, boxed in Hmint; cbn in Hmint;
    (destruct (create_token _ _ _ _) as [[id|e] d'] eqn:Hct; cbn in Hmint; [|done]);
    injection Hmint as <- <- <-; by exists id.
Qed.

(** The life of an API token, from the service through the store and
    back: the plaintext that minting returns authenticates its user, in any
    later state that still has the token's row, until the lifetime asked for
    has passed by the clock (never, for a lifetime of zero or less); once it
    is revoked it authenticates nobody. *)
Theorem token_life (user ttl : Z) (plaintext : string) (token : Token) (w w1 w2 : Plane X) :
  run h (mint_token sha256 user ttl) w = (Ok (Ok (plaintext, token)), w1) ->
  wf_db (g_db w2) -> tokens (g_db w2) !! t_id token = tokens (g_db w1) !! t_id token ->
  t_user_id token = user /\
  t_expires_at token = (if 0 <? ttl then Some (clock (2 * S (g_calls w))%nat + ttl) else None) /\
  fst (run h (authenticate_token sha256 plaintext) w2) = Ok (token_verdict token (clock (2 * S (g_calls w2))%nat)) /\
  fst (run h (_ ← revoke_token (t_id token); authenticate_token sha256 plaintext) w2) = Ok (Err Unauthenticated).
Proof.
  intros Hmint Hwf Hrow.
  destruct (mint_run _ _ _ _ _ _ Hmint) as (random & id & Hpl & Hct & ->).
  cbn [t_id t_user_id t_expires_at] in *.
  apply create_token_Ok in Hct as (at_ & Hat & Hnew). rewrite Hnew in Hrow.
  pose proof (token_row_found _ _ _ _ _ _ Hwf Hrow Hat) as Hfound.
  split; [done|]. split; [done|]. split.
  - apply (authenticate_run _ _ (g_db w2)); [by rewrite Hpl|done|done].
  - cbn. unfold auth_delete_token, lookup_boxed, delete_token_by_id, query, mbind, ST_bind. cbn. rewrite Hrow. cbn.
    apply authenticate_unknown. exact (f_equal fst (token_row_deleted _ _ _ Hwf Hrow)).
Qed.
End TokenLife.

(** ** A small deployment *)

Section Scenario.
Existing Instance SimpleHttp.lib.
Existing Instance decimal_time.

Definition hash_ (s : string) : list Z := [ascii_code (match s with String c _ => c | EmptyString => "0"%char end)].
Definition live_db : Db := snd (set_visibility "u1" Private (snd (set_observed_state "u1" Running small_db_1))).
Definition anns_session : Session := mkSession "sid" 1 10 1000.
Definition small_plane : Plane unit := mkPlane live_db {[ "sid"%string := anns_session ]} 0 tt.
Definition small_clock (n : nat) : Z := 20 + Z.of_nat n.
Definition small_proxy : Proxy :=
  mkProxy "bento.example" "bento.example" true true "https://bento.example/login" true 443 3000 9999.
Definition anns_visit : Request unit :=
  mkRequest ("web.bento.example"%string, "/x"%string)
    [(HOST, "Web.Bento.Example:443"%string); (COOKIE, "bento_session=sid"%string)] tt.

(** Guests that answer, and a control plane that is always there. *)
Definition small_guests : handler (pcall unit) unit := fun R c w =>
  (match c in pcall _ R return R with
   | InstanceByName _ => Ok None
   | AccessOf _ _ => AForbidden
   | TouchLastSeen _ => Ok tt
   | Send _ => Ok (response_new (PText "hello"))
   | Control _ => response_new (PText "dashboard")
   | JoinUpgraded => tt
   end, w).
#[local] Abbreviation small_front := (front hash_ small_clock (mkPrefix 0 16) scripted small_guests (fun _ => true)).
#[local] Abbreviation visit := (handle_connection small_proxy anns_visit 443 "192.0.2.1" None true).

Lemma guest_traffic_allowed_witness :
  exists out name i, out ∈ sends (trace small_front visit small_plane) /\
    fst (instance_by_name name (g_db small_plane)) = Ok i /\ i_visibility i = Private /\
    addressed small_proxy anns_visit 443 "192.0.2.1" true i out /\
    exists user, credential hash_ small_clock small_plane (credentials (rq_headers anns_visit)) user /\
      may_use (g_db small_plane) (i_uuid i) user.
Proof.
  assert (length (sends (trace small_front visit small_plane)) = 1%nat) as Hlen by (vm_compute; reflexivity).
  destruct (sends (trace small_front visit small_plane)) as [|out [|]] eqn:Hs; [discriminate Hlen| |discriminate Hlen].
  assert (out ∈ sends (trace small_front visit small_plane)) as Hin by (rewrite Hs; apply list_elem_of_here).
  destruct (guest_traffic_allowed hash_ small_clock (mkPrefix 0 16) scripted small_guests (fun _ => true) small_proxy
    anns_visit 443 "192.0.2.1" None true small_plane out Hin) as (name & i & Hh & Hi & Hr & Hoff & Ha & Hc).
  assert (i_visibility i = Private) as Hp.
  { apply (strip_suffix_Some ".bento.example") in Hh.
    assert (name = "web"%string) as -> by (vm_compute in Hh; congruence). vm_compute in Hi. by injection Hi as <-. }
  exists out, name, i. rewrite <-Hs. split; [exact Hin|]. split; [exact Hi|]. split; [exact Hp|]. split; [exact Ha|].
  destruct Hc as [[Hpub _]|Hc]; [congruence|exact Hc].
Defined.


(** A token minted over the small deployment, and used there. *)
#[local] Abbreviation plane := (control_plane small_clock (mkPrefix 0 16) scripted).
Definition minted : Plane unit := snd (run plane (mint_token hash_ 2 30) small_plane).
Definition bobs_token : Token := mkToken 1 2 (hash_token hash_ "bento_sid") (Some 52).

Lemma token_life_witness :
  run plane (mint_token hash_ 2 30) small_plane = (Ok (Ok ("bento_sid"%string, bobs_token)), minted) /\
  fst (run plane (authenticate_token hash_ "bento_sid") minted) = Ok (Ok bobs_token).
Proof.
  assert (run plane (mint_token hash_ 2 30) small_plane = (Ok (Ok ("bento_sid"%string, bobs_token)), minted)) as Hm
    by (vm_compute; reflexivity).
  split; [exact Hm|].
  destruct (token_life hash_ small_clock (mkPrefix 0 16) scripted 2 30 "bento_sid" bobs_token small_plane minted minted Hm)
    as (_ & _ & Ha & _); [wf_check|reflexivity|].
  rewrite Ha. vm_compute. reflexivity.
Defined.

Lemma host_port_stripped_witness : strip_host_port "web.bento.example:8080" = "web.bento.example"%string.
Proof.
  destruct (host_port_stripped "web.bento.example" 8080) as (Hp & Hh & _);
    [unfold u16_max; lia|vm_compute; reflexivity|vm_compute; reflexivity|].
  transitivity (strip_host_port "web.bento.example"); [exact Hp|exact Hh].
Defined.

(** The same visitor as a stranger, for the theorems on every run. *)
Definition strangers_visit : Request unit :=
  mkRequest ("web.bento.example"%string, "/x"%string) [(HOST, "nothing.bento.example"%string)] tt.
Lemma hidden_names_answer_alike_witness :
  let run_ := handle_connection small_proxy strangers_visit 443 "192.0.2.1" None true in
  hidden (trace small_front run_ small_plane) /\ fst (run small_front run_ small_plane) = not_found.
Proof.
  assert (hidden (trace small_front (handle_connection small_proxy strangers_visit 443 "192.0.2.1" None true) small_plane))
    as Hh by (left; vm_compute; reflexivity).
  split; [exact Hh|].
  apply (always_run small_front _ small_plane _
    (hidden_names_answer_alike small_proxy strangers_visit 443 "192.0.2.1" None true) Hh).
Defined.
End Scenario.
