(* ===== verification/Lifecycle.v ===== *)
(** * Lifecycle: [crates/lifecycle/src]

    The ordering layer of the control plane: create, start, stop, restart,
    remove, resize, rename, copy, restore, reconcile and the poller.  The
    traits it drives ([Store], [Fleet], [Hypervisor], [Definer], ...) and the
    functions injected into it (clock, UUIDs, files) are the calls of [lcall];
    each operation of [Manager] is a program over them, in the order of the
    source.  Log lines are left out.  A formatted message is kept as the data
    it formats. *)

From Stdlib Require Import ZArith Lia Ascii.
From S2P Require Import Prelude Text Xml DomainXml Types Ipv4 Network Machine Db Fence Prog.
Open Scope Z_scope.

(** ** Errors *)

(** [bento_hypervisor::Error]: what the manager tells apart. *)
Inductive HypError : Type :=
  | DomainNotFound (name : string)
  | HypFailure (message : string).

(** [DynError]: a boxed error of some dependency. *)
Inductive DynError : Type :=
  | DynStore (e : StoreError)
  | DynHyp (e : HypError)
  | DynNet (e : NetError)
  | DynIo (message : string)
  | DynSpec (e : SpecError)
  | DynTryFromInt (value : Z)
  | DynOther (message : string)
  | DynLifecycle (e : Error)

(** [lifecycle::Error]. *)
with Error : Type :=
  | ConfigNeeds (what : string)
  | NestedUnavailable (detail : string)
  | DiskShrink (name : string) (has requested : Z)
  | NoImageVersion (image_name : string)
  | FleetImageNotReady (image_name : string) (missing : list string)
  | NoSlotForHost (host_id : Z)
  | CopySourceRunning (name : string) (state : State)
  | CopyAcrossMachines (name : string) (source_host copy_host : Z)
  | RenameNeedsStop (name : string) (state : State)
  | LifecycleOperation (message : Message)
  | Caused (source : DynError)

(** The text of [Error::Operation], by the message it formats. *)
with Message : Type :=
  | NewNeedsName | NewNeedsImage | NewNeedsSizes | CpNeedsName | CpNeedsSizes | ResizeNeedsSizes
  | ImageLookup (name : string) (e : DynError)
  | VersionLookup (checksum : string) (e : DynError)
  | BadSubnet (user subnet : string)
  | SubnetOutside (subnet : Ipv4Prefix) (e : NetError)
  | CannotReach (name : string)
  | OwnerOf (name : string) (e : DynError)
  | StartFailed (name : string) (e : HypError)
  | StopFailed (name : string) (e : HypError)
  | RestartFailed (name : string) (e : HypError)
  | RemoveFailed (name : string) (e : HypError)
  | RemoveRowFailed (name : string) (e : DynError)
  | RedefineFailed (name : string) (e : DynError)
  | CpStateFailed (name : string) (e : HypError)
  | RenameStateFailed (name : string) (e : HypError)
  | NoRedefine (name : string)
  | Undefine (name : string) (e : HypError)
  | DefineNew (name : string) (e : HypError)
  | RenameUnwound (old_name new_name : string) (cause : Error)
  | NewUnwound (name : string) (cause : DynError) (row : option DynError)
  | CpUnwound (name : string) (cause : DynError) (iso overlay row : option DynError)
  | ListDomains (e : HypError)
  | RecordStates (e : DynError)
  | ListInstances (e : DynError)
  | NotRunning (name : string) (last : State)
  | DetachSeed (name : string) (e : HypError)
  | DeleteSeed (name : string) (e : DynError).

(** [bento_hypervisor::StopResult] and [DomainInfo]. *)
Inductive StopResult : Type := Graceful | Forced | AlreadyStopped.
Record DomainInfo : Type := mkDomainInfo { di_name : string; di_uuid : string; di_state : State }.

(** ** Requests *)

(** [ProvisionSpec]. *)
Record ProvisionSpec : Type := mkProvisionSpec {
  ps_host_id : Z;
  ps_instance : Instance;
  ps_network : string;
  ps_seed : Seed;
  ps_with_seed_iso : bool;
  ps_start : bool
}.

(** [RedefineSpec]. *)
Record RedefineSpec : Type := mkRedefineSpec {
  rs_host_id : Z;
  rs_instance : Instance;
  rs_network : string;
  rs_previous_name : option string
}.

(** [NewRequest]. *)
Record NewRequest : Type := mkNewRequest {
  nr_name : string;
  nr_owner : User;
  nr_host_id : Z;
  nr_ssh_keys : list string;
  nr_image_name : string;
  nr_vcpu : Z;
  nr_memory_mib : Z;
  nr_disk_gib : Z;
  nr_nested : bool;
  nr_disable_ksm : bool;
  nr_http_port : Z
}.

(** [ResizeRequest] and [ResizeResult]. *)
Record ResizeRequest : Type := mkResizeRequest {
  rr_uuid : string; rr_vcpu : Z; rr_memory_mib : Z; rr_disk_gib : Z; rr_nested : bool
}.
Record ResizeResult : Type := mkResizeResult { restart_required : bool; disk_grown : bool }.

(** [ReconcileReport]. *)
Record ReconcileReport : Type := mkReconcileReport {
  domains_without_rows : list DomainInfo;
  rows_without_domains : list Instance
}.

(** ** What the manager calls *)

(** Which hypervisor an action goes to: this machine's own connection, or
    the runner of another machine. *)
Inductive Target : Type := Here | On (host_id : Z).

Inductive lcall : Type -> Type :=
  (* trait Store *)
  | SCreate (i : Instance) (cooldown : Z) (capacity : Capacity) : lcall (result DynError unit)
  | SDelete (uuid : string) : lcall (result DynError Instance)
  | SInstance (uuid : string) : lcall (result DynError Instance)
  | SInstances : lcall (result DynError (list Instance))
  | SOnHost (host_id : Z) : lcall (result DynError (list Instance))
  | SToRestore (host_id : Z) : lcall (result DynError (list Instance))
  | SImage (name : string) : lcall (result DynError Image)
  | SImageVersion (checksum : string) : lcall (result DynError ImageVersion)
  | SHostsMissing (image_name checksum : string) : lcall (result DynError (list string))
  | SCapacity (host_id : Z) : lcall (result DynError Capacity)
  | SChooseHost (want : Placing) : lcall (result DynError Z)
  | SPlaceable : lcall (result DynError Z)
  | SDeployment : lcall (result DynError Deployment)
  | SSlots : lcall (result DynError (list Slot))
  | SUser (id : Z) : lcall (result DynError User)
  | SRename (uuid new_name : string) (cooldown : Z) : lcall (result DynError unit)
  | SCheckResize (uuid : string) (memory_mib disk_gib : Z) (capacity : Capacity) :
      lcall (result DynError unit)
  | SResize (uuid : string) (vcpu memory_mib disk_gib : Z) (nested : bool) (capacity : Capacity) :
      lcall (result DynError unit)
  | SDesired (uuid : string) (state : DesiredState) : lcall (result DynError unit)
  | SObserved (uuid : string) (state : State) : lcall (result DynError unit)
  | SObservedAll (states : list (string * State)) : lcall (result DynError unit)
  (* trait Fleet *)
  | FProvision (spec : ProvisionSpec) : lcall (result DynError State)
  | FDeprovision (host_id : Z) (i : Instance) : lcall (result DynError unit)
  | FHypervisor (host_id : Z) : lcall bool
  | FRedefine (spec : RedefineSpec) : lcall (result DynError State)
  | FResizeDisk (host_id : Z) (i : Instance) (disk_gib : Z) : lcall (result DynError unit)
  (* traits Hypervisor, Definer, AutostartClearer *)
  | HCreate (xml : text) : lcall (result HypError unit)
  | HStart (t : Target) (name : string) : lcall (result HypError unit)
  | HStop (t : Target) (name : string) : lcall (result HypError StopResult)
  | HReboot (t : Target) (name : string) : lcall (result HypError unit)
  | HRemove (t : Target) (name : string) : lcall (result HypError unit)
  | HList : lcall (result HypError (list DomainInfo))
  | HState (t : Target) (name : string) : lcall (result HypError State)
  | HDefine (xml : text) : lcall (result HypError unit)
  | HClearAutostart (name : string) : lcall (result HypError unit)
  (* IsoBuilder, OverlayResizer, fs.rs and the injected functions *)
  | IsoBuild (seed : Seed) (path : string) : lcall (result DynError unit)
  | IsoExists (path : string) : lcall bool
  | IsoDelete (path : string) : lcall (result DynError unit)
  | ResizeOverlay (path : string) (disk_gib : Z) : lcall (result DynError unit)
  | RemoveFile (path : string) : lcall (result DynError unit)
  | CopyFile (source destination : string) : lcall (result DynError unit)
  | NestedProbe : lcall (bool * string)
  | NewUuid : lcall string
  | Now : lcall Z
  | SleepFor (duration : Z) : lcall unit.

Definition M (A : Type) : Type := fallible lcall Error A.
#[global] Instance M_ret : MRet M := fallible_ret.
#[global] Instance M_bind : MBind M := fallible_bind.

(** [Error::caused] and [actions::external]. *)
Definition external (e : DynError) : Error := Caused e.
Definition operation (m : Message) : Error := LifecycleOperation m.

(** ** The manager: [manager.rs] *)

(** [Config]: the tunable values.  The injected parts are the calls above;
    the two optional capabilities are present or not. *)
Record Config : Type := mkConfig {
  cf_definer : bool;
  cf_autostart_clearer : bool;
  cf_host_id : Z;
  cf_plan : Plan;
  cf_storage_dir : string;
  cf_name_cooldown : Z;
  cf_batch_size : Z;
  cf_dns : list string;
  cf_poll_interval : Z;
  cf_start_poll_interval : Z;
  cf_start_timeout : Z
}.

Definition DEFAULT_POLL_INTERVAL : Z := 30 * nanos_per_sec.
Definition DEFAULT_START_POLL_INTERVAL : Z := 500 * 1000000.
Definition DEFAULT_START_TIMEOUT : Z := 5 * 60 * nanos_per_sec.

(** [Config::new]; the cooldown and the batch size come from
    [bento_config::defaults]. *)
Definition Config_new (plan : Plan) (storage_dir : string) (name_cooldown restore_batch_size : Z) : Config :=
  mkConfig false false 0 plan storage_dir name_cooldown restore_batch_size DEFAULT_DNS
    DEFAULT_POLL_INTERVAL DEFAULT_START_POLL_INTERVAL DEFAULT_START_TIMEOUT.

(** [Manager]; [arch] is [std::env::consts::ARCH]. *)
Record Manager : Type := mkManager {
  definer : bool;
  autostart_clearer : bool;
  host_id : Z;
  plan : Plan;
  storage_dir : string;
  cooldown : Z;
  batch_size : Z;
  dns : list string;
  poll_every : Z;
  start_poll : Z;
  start_wait : Z;
  arch : string
}.

(** [Manager::new]. *)
Definition Manager_new (arch : string) (c : Config) : result Error Manager :=
  _ ← refuse_if (bool_decide (cf_storage_dir c = ""%string)) (ConfigNeeds "a StorageDir");
  _ ← refuse_if (cf_batch_size c =? 0) (ConfigNeeds "a batch size of at least 1");
  _ ← refuse_if (bool_decide (cf_dns c = [])) (ConfigNeeds "at least one DNS resolver");
  _ ← refuse_if ((cf_poll_interval c =? 0) || (cf_start_poll_interval c =? 0) || (cf_start_timeout c =? 0))
        (ConfigNeeds "poll and start intervals above zero");
  Ok (mkManager (cf_definer c) (cf_autostart_clearer c) (cf_host_id c) (cf_plan c) (cf_storage_dir c)
        (cf_name_cooldown c) (cf_batch_size c) (cf_dns c) (cf_poll_interval c)
        (cf_start_poll_interval c) (cf_start_timeout c) arch).

(** [UserNetwork::new] of [crates/network/src/libvirt.rs]. *)
Definition UserNetwork_new (pl : Plan) (index : Z) : result NetError UserNetwork :=
  subnet ← plan_subnet pl index;
  Ok (mkUserNetwork ("bento-user-" +:+ dec_signed index) ("bento" +:+ dec_signed index) subnet).

(** A string's characters, for the XML template: the scalar values its UTF-8
    bytes encode. *)
Fixpoint decode_utf8 (l : list Z) : Xml.text :=
  match l with
  | [] => []
  | b0 :: r =>
      if b0 <? 128 then b0 :: decode_utf8 r
      else if b0 <? 224 then
        match r with b1 :: r' => (b0 mod 32 * 64 + b1 mod 64) :: decode_utf8 r' | _ => [] end
      else if b0 <? 240 then
        match r with
        | b1 :: b2 :: r' => (b0 mod 16 * 4096 + b1 mod 64 * 64 + b2 mod 64) :: decode_utf8 r'
        | _ => []
        end
      else
        match r with
        | b1 :: b2 :: b3 :: r' =>
            (b0 mod 8 * 262144 + b1 mod 64 * 4096 + b2 mod 64 * 64 + b3 mod 64) :: decode_utf8 r'
        | _ => []
        end
  end.
Definition utf8_text (s : string) : Xml.text := decode_utf8 (ascii_code <$> chars s).

(** [random_uuid] of sixteen random bytes. *)
Definition random_uuid (random : list Z) : string :=
  let bytes :=
    <[8%nat := Z.lor (Z.land (default 0 (random !! 8%nat)) 63) 128]>
      (<[6%nat := Z.lor (Z.land (default 0 (random !! 6%nat)) 15) 64]> random) in
  hex_encode (take 4 bytes) +:+ "-" +:+ hex_encode (take 2 (drop 4 bytes)) +:+ "-" +:+
  hex_encode (take 2 (drop 6 bytes)) +:+ "-" +:+ hex_encode (take 2 (drop 8 bytes)) +:+ "-" +:+
  hex_encode (take 6 (drop 10 bytes)).

(** The view of the store the address allocator reads: the reply to
    [instances]. *)
Definition AddressView : Type := result DynError (list Instance).
#[global] Instance AddressView_store : AddressStore AddressView := fun view subnet =>
  match view with
  | Ok rows => Ok (filter (fun a => contains subnet a = true) (omap (fun i => parse_addr (i_address i)) rows))
  | Err _ => Err "instances"
  end.

(** [PathBuf::join] with a relative file name. *)
Definition join_path (dir file : string) : string := dir +:+ "/" +:+ file.

Section Manager.
Context (sha256 : string -> list Z).
Variable self : Manager.

(** [Manager::overlay_path] and [Manager::seed_iso_path]. *)
Definition overlay_path (uuid : string) : string := join_path (storage_dir self) (uuid +:+ ".qcow2").
Definition seed_iso_path (uuid : string) : string := join_path (storage_dir self) (uuid +:+ "-seed.iso").

(** [Manager::hyp_for]. *)
Definition hyp_for (i : Instance) : M Target :=
  if i_host_id i =? host_id self then mret Here
  else
    reachable ← (get (FHypervisor (i_host_id i)) : M bool);
    if reachable : bool then mret (On (i_host_id i)) else throw (operation (CannotReach (i_name i))).

(** [Manager::check_nested]. *)
Definition check_nested : M unit :=
  probe ← (get NestedProbe : M (bool * string));
  if fst probe : bool then mret tt else throw (NestedUnavailable (snd probe)).

(** The owner's subnet, its index in the plan and its network: the common
    part of [domain_xml] and [user_network_name]. *)
Definition owner_network (owner : User) : result Error UserNetwork :=
  subnet ← ok_or (parse_prefix (u_subnet owner)) (operation (BadSubnet (u_name owner) (u_subnet owner)));
  index ← map_err (fun e => operation (SubnetOutside subnet e)) (plan_index (plan self) subnet);
  map_err (fun e => Caused (DynNet e)) (UserNetwork_new (plan self) index).

(** [Manager::user_network_name]. *)
Definition user_network_name (owner : User) : result Error string :=
  un_name <$> owner_network owner.

(** [Manager::domain_xml]. *)
Definition manager_domain_xml (i : Instance) (owner : User) (with_iso : bool) : result Error Xml.text :=
  network ← owner_network owner;
  map_err (fun e => Caused (DynSpec e))
    (domain_xml (utf8_text (arch self))
       (mkDomainSpec (utf8_text (i_name i)) (utf8_text (i_uuid i)) (i_vcpu i) (i_memory_mib i)
          (utf8_text (overlay_path (i_uuid i)))
          (if with_iso then utf8_text (seed_iso_path (i_uuid i)) else [])
          (utf8_text (un_name network)) (utf8_text (i_mac i)) (i_nested i) (i_ksm i) [])).

(** [Manager::domain_xml_by_uuid]. *)
Definition domain_xml_by_uuid (i : Instance) (with_iso : bool) : M Xml.text :=
  owner ← (ask (SUser (i_owner_id i)) (fun e => operation (OwnerOf (i_name i) e)) : M User);
  pure_res (manager_domain_xml i owner with_iso).

(** [bento_network::allocate_address] over [AddressView]: the store is asked
    once the subnet and the slot have been checked. *)
Definition allocate_address_view (subnet : Ipv4Prefix) (slots : Slots) (slot : Z) :
    prog lcall (result NetError Z) :=
  match (_ ← require_slash_24 subnet; assignable slots slot) with
  | Err e => Ret (Err e)
  | Ok _ => Call SInstances (fun view => Ret (allocate_address (view : AddressView) subnet slots slot))
  end.

(** The loop of [allocate_in_owned_slot]. *)
Fixpoint try_slots (subnet : Ipv4Prefix) (slots : Slots) (owned : list Z) : M (Z * Z) :=
  match owned with
  | [] => throw (Caused (DynNet AddressesExhausted))
  | slot :: rest =>
      if u32_max <? slot then throw (Caused (DynTryFromInt slot))
      else prog_bind _ _ (fun answer =>
        match answer with
        | Ok address => (mret (address, slot) : M (Z * Z))
        | Err AddressesExhausted => try_slots subnet slots rest
        | Err e => throw (Caused (DynNet e))
        end) (allocate_address_view subnet slots slot)
  end.

(** [allocate_in_owned_slot]. *)
Definition allocate_in_owned_slot (host : Z) (subnet : Ipv4Prefix) : M (Z * Z) :=
  deployment ← (ask SDeployment Caused : M Deployment);
  slots ← (pure_res (map_err (fun e => Caused (DynNet e)) (Slots_new (runner_prefix deployment))) : M Slots);
  all ← (ask SSlots Caused : M (list Slot));
  let owned := sort_by Z.ltb
    (s_slot <$> filter (fun s => s_owner_host_id s = host /\ s_state s = SlActive) all) in
  match owned with
  | [] => throw (NoSlotForHost host)
  | _ => try_slots subnet slots owned
  end.

(** A dependency's call whose error is kept as the cause. *)
Definition dep {A} (c : lcall (result DynError A)) : M A := ask c external.
(** A call whose error becomes a message. *)
Definition told {Y A} (c : lcall (result Y A)) (m : Y -> Message) : M A := ask c (fun e => operation (m e)).
(** A call whose failure is only looked at. *)
Definition logged {Y A} (c : lcall (result Y A)) : M (result Y A) := attempt c.
Definition err_of {Y A} (r : result Y A) : option Y := match r with Ok _ => None | Err e => Some e end.

(** ** Creating: [new.rs] *)

Definition GUEST_USER : string := "bento".

(** [seed]; [guest.dns[0]] exists, since [Manager::new] refuses an empty
    resolver list. *)
Definition seed (i : Instance) (request : NewRequest) (guest : GuestNetwork) (install_guest_agent : bool) :
    Seed :=
  mkSeed (i_uuid i) (nr_name request) GUEST_USER (nr_ssh_keys request) (i_mac i)
    (prefix_to_string (gn_address guest)) (addr_to_string (gn_gateway guest))
    (default ""%string (head (gn_dns guest))) install_guest_agent.

(** [Manager::place]. *)
Definition place (request : NewRequest) : M Z :=
  placeable ← (ask SPlaceable Caused : M Z);
  if placeable <=? 1 then mret (nr_host_id request)
  else ask (SChooseHost (mkPlacing (nr_vcpu request) (nr_memory_mib request) (nr_disk_gib request)
                           (Some (arch self)))) Caused.

(** [Manager::unwind_new]. *)
Definition unwind_new {A} (i : Instance) (cause : DynError) : M A :=
  row ← logged (SDelete (i_uuid i));
  throw (operation (NewUnwound (i_name i) cause (err_of row))).

(** [Manager::unwind_copy]. *)
Definition unwind_copy {A} (i : Instance) (cause : DynError) : M A :=
  iso ← logged (IsoDelete (seed_iso_path (i_uuid i)));
  overlay ← logged (RemoveFile (overlay_path (i_uuid i)));
  row ← logged (SDelete (i_uuid i));
  throw (operation (CpUnwound (i_name i) cause (err_of iso) (err_of overlay) (err_of row))).

(** The instance [create] and [copy] build. *)
Definition new_instance (uuid : string) (request : NewRequest) (host : Z) (image_name checksum : string)
    (address slot created_at : Z) : Instance :=
  mkInstance uuid (nr_name request) (u_id (nr_owner request)) host image_name checksum Stopped WantRunning
    (addr_to_string address) (mac sha256 uuid) (nr_vcpu request) (nr_memory_mib request)
    (nr_disk_gib request) (nr_nested request) (negb (nr_disable_ksm request)) (nr_http_port request) Off
    created_at None (Some slot).

Definition with_observed (i : Instance) (state : State) : Instance :=
  mkInstance (i_uuid i) (i_name i) (i_owner_id i) (i_host_id i) (i_image_name i) (i_base_checksum i) state
    (i_desired_state i) (i_address i) (i_mac i) (i_vcpu i) (i_memory_mib i) (i_disk_gib i) (i_nested i)
    (i_ksm i) (i_http_port i) (i_visibility i) (i_created_at i) (i_last_seen_at i) (i_slot i).

Definition owner_subnet (owner : User) : result Error Ipv4Prefix :=
  ok_or (parse_prefix (u_subnet owner)) (operation (BadSubnet (u_name owner) (u_subnet owner))).

(** The part of [create] after the row exists. *)
Definition build (request : NewRequest) (subnet : Ipv4Prefix) (address : Z) (kind : ImageKind)
    (i : Instance) : M Instance :=
  match GuestNetwork_new subnet address (Some (dns self)) with
  | Err e => unwind_new i (DynNet e)
  | Ok guest =>
      match user_network_name (nr_owner request) with
      | Err e => unwind_new i (DynLifecycle e)
      | Ok network =>
          let spec := mkProvisionSpec (i_host_id i) i network
            (seed i request guest (negb (bool_decide (kind = Oci)))) true true in
          observed ← logged (FProvision spec);
          match observed with
          | Err e => unwind_new i e
          | Ok state =>
              _ ← logged (SObserved (i_uuid i) state);
              mret (with_observed i state)
          end
      end
  end.

(** [Manager::create]. *)
Definition create (request : NewRequest) : M Instance :=
  if bool_decide (nr_name request = ""%string) then throw (operation NewNeedsName)
  else if bool_decide (nr_image_name request = ""%string) then throw (operation NewNeedsImage)
  else if (nr_vcpu request =? 0) || (nr_memory_mib request =? 0) || (nr_disk_gib request =? 0) then
    throw (operation NewNeedsSizes)
  else
    _ ← (if nr_nested request then check_nested else mret tt);
    image ← told (SImage (nr_image_name request)) (ImageLookup (nr_image_name request));
    match img_current_checksum image with
    | None | Some EmptyString => throw (NoImageVersion (nr_image_name request))
    | Some checksum =>
        missing ← dep (SHostsMissing (nr_image_name request) checksum);
        if negb (bool_decide (missing = [])) then
          throw (FleetImageNotReady (nr_image_name request) missing)
        else
          image_version ← told (SImageVersion checksum) (VersionLookup checksum);
          subnet ← (pure_res (owner_subnet (nr_owner request)) : M Ipv4Prefix);
          host ← place request;
          '(address, slot) ← allocate_in_owned_slot host subnet;
          uuid ← (get NewUuid : M string);
          now ← (get Now : M Z);
          let i := new_instance uuid request host (nr_image_name request) checksum address slot now in
          capacity ← dep (SCapacity host);
          _ ← dep (SCreate i (cooldown self) capacity);
          build request subnet address (iv_kind image_version) i
    end.

(** ** Actions: [actions.rs] *)

(** [Manager::start_domain]. *)
Definition start_domain (i : Instance) : M unit :=
  target ← hyp_for i;
  told (HStart target (i_name i)) (StartFailed (i_name i)).

(** [Manager::start]. *)
Definition start (uuid : string) : M unit :=
  i ← dep (SInstance uuid);
  _ ← start_domain i;
  _ ← dep (SDesired uuid WantRunning);
  dep (SObserved uuid Running).

(** [Manager::start_for_connection]. *)
Definition start_for_connection (uuid : string) : M unit :=
  i ← dep (SInstance uuid);
  start_domain i.

(** [Manager::stop]. *)
Definition stop (uuid : string) : M StopResult :=
  i ← dep (SInstance uuid);
  _ ← dep (SDesired uuid WantStopped);
  target ← hyp_for i;
  result ← told (HStop target (i_name i)) (StopFailed (i_name i));
  _ ← dep (SObserved uuid Stopped);
  mret result.

(** [Manager::restart]. *)
Definition restart (uuid : string) : M unit :=
  i ← dep (SInstance uuid);
  target ← hyp_for i;
  _ ← told (HReboot target (i_name i)) (RestartFailed (i_name i));
  dep (SDesired uuid WantRunning).

(** [Manager::remove]. *)
Definition remove (uuid : string) : M unit :=
  i ← dep (SInstance uuid);
  target ← hyp_for i;
  removed ← logged (HRemove target (i_name i));
  match removed with
  | Err (HypFailure m) => throw (operation (RemoveFailed (i_name i) (HypFailure m)))
  | Ok _ | Err (DomainNotFound _) =>
      _ ← logged (FDeprovision (i_host_id i) i);
      _ ← told (SDelete uuid) (RemoveRowFailed (i_name i));
      mret tt
  end.

(** [Manager::redefine_elsewhere]. *)
Definition redefine_elsewhere (i : Instance) (previous_name : option string) : M State :=
  owner ← told (SUser (i_owner_id i)) (OwnerOf (i_name i));
  network ← (pure_res (user_network_name owner) : M string);
  told (FRedefine (mkRedefineSpec (i_host_id i) i network previous_name)) (RedefineFailed (i_name i)).

(** [Manager::redefine]. *)
Definition redefine (i : Instance) : M unit :=
  if negb (i_host_id i =? host_id self) then _ ← redefine_elsewhere i None; mret tt
  else if negb (definer self) then mret tt
  else
    with_iso ← (get (IsoExists (seed_iso_path (i_uuid i))) : M bool);
    xml ← domain_xml_by_uuid i with_iso;
    told (HDefine xml) (fun e => RedefineFailed (i_name i) (DynHyp e)).

(** [Manager::grow_disk]. *)
Definition grow_disk (i : Instance) (disk_gib : Z) : M unit :=
  if i_host_id i =? host_id self then dep (ResizeOverlay (overlay_path (i_uuid i)) disk_gib)
  else dep (FResizeDisk (i_host_id i) i disk_gib).

Definition with_sizes (i : Instance) (request : ResizeRequest) : Instance :=
  mkInstance (i_uuid i) (i_name i) (i_owner_id i) (i_host_id i) (i_image_name i) (i_base_checksum i)
    (i_state i) (i_desired_state i) (i_address i) (i_mac i) (rr_vcpu request) (rr_memory_mib request)
    (rr_disk_gib request) (rr_nested request) (i_ksm i) (i_http_port i) (i_visibility i) (i_created_at i)
    (i_last_seen_at i) (i_slot i).

(** [Manager::resize]. *)
Definition resize (request : ResizeRequest) : M ResizeResult :=
  i ← dep (SInstance (rr_uuid request));
  if (rr_vcpu request =? 0) || (rr_memory_mib request =? 0) || (rr_disk_gib request =? 0) then
    throw (operation ResizeNeedsSizes)
  else if rr_disk_gib request <? i_disk_gib i then
    throw (DiskShrink (i_name i) (i_disk_gib i) (rr_disk_gib request))
  else
    _ ← (if rr_nested request && negb (i_nested i) then check_nested else mret tt);
    let result := mkResizeResult
      (negb (rr_vcpu request =? i_vcpu i) || negb (rr_memory_mib request =? i_memory_mib i) ||
       negb (eqb (rr_nested request) (i_nested i)))
      (i_disk_gib i <? rr_disk_gib request) in
    capacity ← dep (SCapacity (i_host_id i));
    _ ← dep (SCheckResize (rr_uuid request) (rr_memory_mib request) (rr_disk_gib request) capacity);
    _ ← (if disk_grown result then grow_disk i (rr_disk_gib request) else mret tt);
    _ ← dep (SResize (rr_uuid request) (rr_vcpu request) (rr_memory_mib request) (rr_disk_gib request)
               (rr_nested request) capacity);
    _ ← (if restart_required result then redefine (with_sizes i request) else mret tt);
    mret result.

(** ** Renaming: [rename.rs] *)

Definition renamed (i : Instance) (name : string) : Instance :=
  mkInstance (i_uuid i) name (i_owner_id i) (i_host_id i) (i_image_name i) (i_base_checksum i) (i_state i)
    (i_desired_state i) (i_address i) (i_mac i) (i_vcpu i) (i_memory_mib i) (i_disk_gib i) (i_nested i)
    (i_ksm i) (i_http_port i) (i_visibility i) (i_created_at i) (i_last_seen_at i) (i_slot i).

(** [Manager::unwind_rename]. *)
Definition unwind_rename {A} (i : Instance) (old_name : string) (cause : Error) : M A :=
  _ ← logged (SRename (i_uuid i) old_name (cooldown self));
  throw (operation (RenameUnwound old_name (i_name i) cause)).

(** A program whose result is looked at by a [match] in the caller. *)
Definition caught {A B} (p : M A) (on_ok : A -> M B) (on_err : Error -> M B) : M B :=
  prog_bind _ _ (fun r => match r with Ok a => on_ok a | Err e => on_err e end) p.

(** [Manager::rename_elsewhere]. *)
Definition rename_elsewhere (i : Instance) (old_name new_name : string) (domain_gone : bool) : M unit :=
  _ ← dep (SRename (i_uuid i) new_name (cooldown self));
  if domain_gone then mret tt
  else
    let i := renamed i new_name in
    caught (redefine_elsewhere i (Some old_name)) (fun _ => mret tt)
      (fun e => unwind_rename i old_name e).

(** The define that failed: put the old definition back, then the old name. *)
Definition restore_definition (i : Instance) (old_name : string) (with_iso : bool) (e : HypError) : M unit :=
  caught (domain_xml_by_uuid (renamed i old_name) with_iso)
    (fun old_xml =>
       _ ← logged (HDefine old_xml);
       unwind_rename i old_name (operation (DefineNew (i_name i) e)))
    (fun _ => unwind_rename i old_name (operation (DefineNew (i_name i) e))).

(** The local part of [rename], once the row has the new name. *)
Definition rename_domain (uuid : string) (i : Instance) (old_name new_name : string) : M unit :=
  let i := renamed i new_name in
  with_iso ← (get (IsoExists (seed_iso_path uuid)) : M bool);
  caught (domain_xml_by_uuid i with_iso)
    (fun xml =>
       removed ← logged (HRemove Here old_name);
       match removed with
       | Err (HypFailure m) => unwind_rename i old_name (operation (Undefine old_name (HypFailure m)))
       | Ok _ | Err (DomainNotFound _) =>
           defined ← logged (HDefine xml);
           match defined with
           | Ok _ => mret tt
           | Err e => restore_definition i old_name with_iso e
           end
       end)
    (fun e => unwind_rename i old_name e).

(** [Manager::rename]. *)
Definition rename (uuid new_name : string) : M unit :=
  i ← dep (SInstance uuid);
  if bool_decide (new_name = i_name i) then mret tt
  else
    let old_name := i_name i in
    target ← hyp_for i;
    state ← logged (HState target old_name);
    domain_gone ←
      match state with
      | Ok Stopped => (mret false : M bool)
      | Ok s => throw (RenameNeedsStop old_name s)
      | Err (DomainNotFound _) => mret true
      | Err e => throw (operation (RenameStateFailed old_name e))
      end;
    if negb (i_host_id i =? host_id self) then rename_elsewhere i old_name new_name domain_gone
    else if negb domain_gone && negb (definer self) then throw (operation (NoRedefine old_name))
    else
      _ ← dep (SRename uuid new_name (cooldown self));
      if domain_gone : bool then mret tt else rename_domain uuid i old_name new_name.

(** ** Copying: [copy.rs] *)

(** The part of [copy] after the row exists. *)
Definition build_copy (source_uuid : string) (source : Instance) (request : NewRequest) (subnet : Ipv4Prefix) (address : Z)
    (kind : ImageKind) (i : Instance) : M Instance :=
  copied ← logged (CopyFile (overlay_path source_uuid) (overlay_path (i_uuid i)));
  match copied with
  | Err e => unwind_copy i e
  | Ok _ =>
      grown ← (if i_disk_gib source <? nr_disk_gib request
               then logged (ResizeOverlay (overlay_path (i_uuid i)) (nr_disk_gib request))
               else (mret (Ok tt) : M (result DynError unit)));
      match grown with
      | Err e => unwind_copy i e
      | Ok _ =>
          match GuestNetwork_new subnet address (Some (dns self)) with
          | Err e => unwind_copy i (DynNet e)
          | Ok guest =>
              built ← logged (IsoBuild (seed i request guest (negb (bool_decide (kind = Oci))))
                                (seed_iso_path (i_uuid i)));
              match built with
              | Err e => unwind_copy i e
              | Ok _ =>
                  match manager_domain_xml i (nr_owner request) true with
                  | Err e => unwind_copy i (DynLifecycle e)
                  | Ok xml =>
                      created ← logged (HCreate xml);
                      match created with
                      | Err e => unwind_copy i (DynHyp e)
                      | Ok _ =>
                          _ ← logged (SObserved (i_uuid i) Running);
                          mret (with_observed i Running)
                      end
                  end
              end
          end
      end
  end.

(** [Manager::copy]. *)
Definition copy (source_uuid : string) (request : NewRequest) : M Instance :=
  source ← dep (SInstance source_uuid);
  source_version ← dep (SImageVersion (i_base_checksum source));
  if bool_decide (nr_name request = ""%string) then throw (operation CpNeedsName)
  else if (nr_vcpu request =? 0) || (nr_memory_mib request =? 0) || (nr_disk_gib request =? 0) then
    throw (operation CpNeedsSizes)
  else if nr_disk_gib request <? i_disk_gib source then
    throw (DiskShrink (i_name source) (i_disk_gib source) (nr_disk_gib request))
  else
    _ ← (if nr_nested request then check_nested else mret tt);
    if negb (i_host_id source =? host_id self) || negb (nr_host_id request =? i_host_id source) then
      throw (CopyAcrossMachines (i_name source) (i_host_id source) (nr_host_id request))
    else
      state ← logged (HState Here (i_name source));
      match state with
      | Ok Stopped | Err (DomainNotFound _) =>
          subnet ← (pure_res (owner_subnet (nr_owner request)) : M Ipv4Prefix);
          '(address, slot) ← allocate_in_owned_slot (nr_host_id request) subnet;
          capacity ← dep (SCapacity (nr_host_id request));
          uuid ← (get NewUuid : M string);
          now ← (get Now : M Z);
          let i := new_instance uuid request (nr_host_id request) (i_image_name source)
            (i_base_checksum source) address slot now in
          _ ← dep (SCreate i (cooldown self) capacity);
          build_copy source_uuid source request subnet address (iv_kind source_version) i
      | Ok s => throw (CopySourceRunning (i_name source) s)
      | Err e => throw (operation (CpStateFailed (i_name source) e))
      end.

(** ** Host restart: [restore.rs] *)

(** The [HashMap] of a domain list: the last entry of a UUID wins. *)
Definition state_map (domains : list DomainInfo) : gmap string State :=
  list_to_map (reverse ((fun d => (di_uuid d, di_state d)) <$> domains)).

(** [wait_running]: how often the state is read. *)
Definition attempts : Z := Z.max 1 (start_wait self / start_poll self mod 2 ^ 64).

Fixpoint wait_loop (name : string) (left : nat) (last : State) : M unit :=
  match left with
  | O => throw (operation (NotRunning name last))
  | S left' =>
      state ← ask (HState Here name) (fun e => Caused (DynHyp e));
      if bool_decide (state = Running) then mret tt
      else
        _ ← (match left' with O => mret tt | S _ => get (SleepFor (start_poll self)) end : M unit);
        wait_loop name left' state
  end.
Definition wait_running (name : string) : M unit := wait_loop name (Z.to_nat attempts) Stopped.

(** [sync_observed]. *)
Definition sync_observed (i : Instance) : M unit :=
  state ← logged (HState Here (i_name i));
  _ ← logged (SObserved (i_uuid i) (match state with Ok s => s | Err _ => Stopped end));
  mret tt.

(** A loop that goes on whatever happened to one element. *)
Fixpoint for_all {A} (f : A -> M unit) (l : list A) : M unit :=
  match l with
  | [] => mret tt
  | x :: l' => _ ← f x; for_all f l'
  end.

(** The first loop of a batch: the instances that were started. *)
Fixpoint start_batch (batch : list Instance) : M (list Instance) :=
  match batch with
  | [] => mret []
  | i :: rest =>
      _ ← logged (SObserved (i_uuid i) Starting);
      started ← logged (HStart Here (i_name i));
      match started with
      | Err _ => _ ← sync_observed i; start_batch rest
      | Ok _ => more ← start_batch rest; mret (i :: more)
      end
  end.

(** The second loop of a batch, for one instance. *)
Definition await_started (i : Instance) : M unit :=
  caught (wait_running (i_name i))
    (fun _ => _ ← logged (SObserved (i_uuid i) Running); mret tt)
    (fun _ => sync_observed i).

(** [slice::chunks]. *)
Fixpoint chunks {A} (fuel size : nat) (l : list A) : list (list A) :=
  match fuel, l with
  | _, [] => []
  | O, _ => []
  | S fuel', _ => take size l :: chunks fuel' size (drop size l)
  end.

Definition restore_batch (batch : list Instance) : M unit :=
  started ← start_batch batch;
  for_all await_started started.

(** [Manager::restore]. *)
Definition restore : M unit :=
  domains ← told HList ListDomains;
  _ ← (if autostart_clearer self
       then for_all (fun d => _ ← logged (HClearAutostart (di_name d)); mret tt) domains
       else mret tt);
  _ ← told (SObservedAll (map_to_list (state_map domains))) RecordStates;
  instances ← told (SToRestore (host_id self)) ListInstances;
  for_all restore_batch (chunks (length instances) (Z.to_nat (batch_size self)) instances).

(** ** Reporting: [reconcile.rs] *)

(** [Manager::reconcile]. *)
Definition reconcile : M ReconcileReport :=
  domains ← told HList ListDomains;
  rows ← told (SOnHost (host_id self)) ListInstances;
  mret (mkReconcileReport
    (filter (fun d => di_uuid d ∉ i_uuid <$> rows) domains)
    (filter (fun r => i_uuid r ∉ di_uuid <$> domains) rows)).

(** ** Polling: [poller.rs] *)

(** [Manager::finish_first_boot]. *)
Definition finish_first_boot (i : Instance) : M unit :=
  let path := seed_iso_path (i_uuid i) in
  present ← (get (IsoExists path) : M bool);
  if negb present then mret tt
  else
    _ ← (if definer self then
           xml ← domain_xml_by_uuid i false;
           told (HDefine xml) (DetachSeed (i_name i))
         else mret tt);
    told (IsoDelete path) (DeleteSeed (i_name i)).

(** [Manager::poll_once]. *)
Definition poll_once : M unit :=
  domains ← told HList ListDomains;
  let states := state_map domains in
  _ ← told (SObservedAll (map_to_list states)) RecordStates;
  instances ← told (SOnHost (host_id self)) ListInstances;
  for_all (fun i =>
    if bool_decide (states !! i_uuid i = Some Running)
    then caught (finish_first_boot i) (fun _ => mret tt) (fun _ => mret tt)
    else mret tt) instances.

(** [Manager::handle_event]. *)
Definition handle_event (uuid : string) (state : State) : M unit :=
  found ← logged (SInstance uuid);
  match found with
  | Err _ => mret tt
  | Ok i =>
      _ ← dep (SObserved uuid state);
      if bool_decide (state = Running)
      then caught (finish_first_boot i) (fun _ => mret tt) (fun _ => mret tt)
      else mret tt
  end.
End Manager.
