(* ===== verification/LifecycleOrder.v ===== *)
(** * LifecycleOrder: what every run of a lifecycle operation does, and in
    which order

    The theorems of this file quantify over all replies: every call may fail,
    and anything may have happened to the database or the machines since the
    call before it.  What they constrain is the sequence of effects: the
    calls that change a row, a domain or a file, and the rows and the domain
    states the decisions rest on. *)

From Stdlib Require Import ZArith Lia Ascii.
From S2P Require Import Prelude Text Xml DomainXml Types Ipv4 Network Machine Db Fence Prog Lifecycle.
Open Scope Z_scope.

(** ** Effects *)

Inductive effect : Type :=
  | ERow (i : Instance)
  | EListed (instances : list Instance)
  | EChecked (uuid : string) (memory_mib disk_gib : Z) (ok : bool)
  | EInsert (i : Instance) (ok : bool)
  | EDelete (uuid : string) (ok : bool)
  | ERename (uuid name : string) (ok : bool)
  | EResize (uuid : string) (disk_gib : Z) (ok : bool)
  | EDesired (uuid : string) (state : DesiredState) (ok : bool)
  | EObserve (uuid : string) (state : State) (ok : bool)
  | EObserveAll (states : list (string * State)) (ok : bool)
  | EProvision (spec : ProvisionSpec) (ok : bool)
  | EDeprovision (host_id : Z) (uuid : string) (ok : bool)
  | ERedefine (spec : RedefineSpec) (ok : bool)
  | EGrowRemote (host_id : Z) (uuid : string) (disk_gib : Z) (ok : bool)
  | EGrow (path : string) (disk_gib : Z) (ok : bool)
  | ECreateDomain (ok : bool)
  | EStart (t : Target) (name : string) (ok : bool)
  | EStop (t : Target) (name : string) (ok : bool)
  | EReboot (t : Target) (name : string) (ok : bool)
  | ERemove (t : Target) (name : string) (r : result HypError unit)
  | ESaw (t : Target) (name : string) (r : result HypError State)
  | EDefine (ok : bool)
  | EAutostart (name : string)
  | EIsoBuild (path : string) (ok : bool)
  | EIsoDelete (path : string) (ok : bool)
  | ERemoveFile (path : string) (ok : bool)
  | ECopyFile (source destination : string) (ok : bool).

Definition effect_of {R} (c : lcall R) : R -> option effect :=
  match c in lcall R return R -> option effect with
  | SCreate i _ _ => fun r => Some (EInsert i (is_ok r))
  | SInstance _ => fun r => match r with Ok i => Some (ERow i) | Err _ => None end
  | SToRestore _ => fun r => match r with Ok l => Some (EListed l) | Err _ => None end
  | SCheckResize uuid memory disk _ => fun r => Some (EChecked uuid memory disk (is_ok r))
  | SDelete uuid => fun r => Some (EDelete uuid (is_ok r))
  | SRename uuid name _ => fun r => Some (ERename uuid name (is_ok r))
  | SResize uuid _ _ disk _ _ => fun r => Some (EResize uuid disk (is_ok r))
  | SDesired uuid state => fun r => Some (EDesired uuid state (is_ok r))
  | SObserved uuid state => fun r => Some (EObserve uuid state (is_ok r))
  | SObservedAll states => fun r => Some (EObserveAll states (is_ok r))
  | FProvision spec => fun r => Some (EProvision spec (is_ok r))
  | FDeprovision h i => fun r => Some (EDeprovision h (i_uuid i) (is_ok r))
  | FRedefine spec => fun r => Some (ERedefine spec (is_ok r))
  | FResizeDisk h i gib => fun r => Some (EGrowRemote h (i_uuid i) gib (is_ok r))
  | HCreate _ => fun r => Some (ECreateDomain (is_ok r))
  | HStart t name => fun r => Some (EStart t name (is_ok r))
  | HStop t name => fun r => Some (EStop t name (is_ok r))
  | HReboot t name => fun r => Some (EReboot t name (is_ok r))
  | HRemove t name => fun r => Some (ERemove t name r)
  | HState t name => fun r => Some (ESaw t name r)
  | HDefine _ => fun r => Some (EDefine (is_ok r))
  | HClearAutostart name => fun _ => Some (EAutostart name)
  | IsoBuild _ path => fun r => Some (EIsoBuild path (is_ok r))
  | IsoDelete path => fun r => Some (EIsoDelete path (is_ok r))
  | ResizeOverlay path gib => fun r => Some (EGrow path gib (is_ok r))
  | RemoveFile path => fun r => Some (ERemoveFile path (is_ok r))
  | CopyFile s d => fun r => Some (ECopyFile s d (is_ok r))
  | _ => fun _ => None
  end.

Definition effects (tr : list (event lcall)) : list effect :=
  omap (fun e => effect_of (ev_call e) (ev_reply e)) tr.

#[global] Arguments effects : simpl never.

Lemma effects_app tr tr' : effects (tr ++ tr') = effects tr ++ effects tr'.
Proof. apply omap_app. Qed.

(** [every_run p P]: whatever is answered, the effects and the result of [p]
    satisfy [P]. *)
Definition every_run {A} (p : M A) (P : list effect -> result Error A -> Prop) : Prop :=
  always p (fun tr r => P (effects tr) r).

Lemma every_run_bind {A B} (p : M A) (f : A -> M B) P :
  every_run p (fun es r => match r with
                           | Ok a => every_run (f a) (fun es' r' => P (es ++ es') r')
                           | Err e => P es (Err e)
                           end) ->
  every_run (p ≫= f) P.
Proof.
  intros Hp. unfold every_run, mbind, M_bind, fallible_bind. apply always_bind.
  eapply always_mono; [|exact Hp]. intros tr [a|e]; simpl.
  - apply always_mono. intros tr' r. by rewrite effects_app.
  - by rewrite app_nil_r.
Qed.

Lemma every_run_assoc {A B C} (p : M A) (f : A -> M B) (g : B -> M C) P :
  every_run (p ≫= fun a => f a ≫= g) P -> every_run ((p ≫= f) ≫= g) P.
Proof.
  unfold every_run, mbind, M_bind, fallible_bind, prog_bind.
  generalize (fun (tr : list (event lcall)) (r : result Error C) => P (effects tr) r). clear P.
  induction p as [[a|e]|R c k IH]; intros P H; [exact H|exact H|]. intros r. exact (IH r _ (H r)).
Qed.

Lemma every_run_caught {A B} (p : M A) (f : A -> M B) (g : Error -> M B) P :
  every_run p (fun es r => match r with
                           | Ok a => every_run (f a) (fun es' r' => P (es ++ es') r')
                           | Err e => every_run (g e) (fun es' r' => P (es ++ es') r')
                           end) ->
  every_run (caught p f g) P.
Proof.
  intros Hp. unfold every_run, caught. apply always_bind.
  eapply always_mono; [|exact Hp]. intros tr [a|e]; simpl; apply always_mono; intros tr' r; by rewrite effects_app.
Qed.

Lemma every_run_mono {A} (p : M A) (P Q : list effect -> result Error A -> Prop) :
  (forall es r, P es r -> Q es r) -> every_run p P -> every_run p Q.
Proof. intros HPQ. apply always_mono. auto. Qed.

(** ** Rules for one call *)

Definition seen {R} (c : lcall R) (r : R) : list effect :=
  match effect_of c r with Some e => [e] | None => [] end.

Lemma effects_cons {R} (c : lcall R) r tr : effects (mkEvent c r :: tr) = seen c r ++ effects tr.
Proof. unfold effects, seen. simpl. by destruct (effect_of c r). Qed.

Section Rules.
Context {A B : Type}.

Lemma er_ask {Y} (c : lcall (result Y A)) (f : Y -> Error) (k : A -> M B) P :
  (forall a, every_run (k a) (fun es r => P (seen c (Ok a) ++ es) r)) ->
  (forall e, P (seen c (Err e)) (Err (f e))) ->
  every_run ((ask c f : M A) ≫= k) P.
Proof.
  intros Hok Herr [a|e]; simpl.
  - eapply always_mono; [|apply (Hok a)]. intros tr r. by rewrite effects_cons.
  - rewrite effects_cons. unfold effects. simpl. by rewrite app_nil_r.
Qed.

Lemma er_logged {Y} (c : lcall (result Y A)) (k : result Y A -> M B) P :
  (forall r, every_run (k r) (fun es r' => P (seen c r ++ es) r')) ->
  every_run ((logged c : M (result Y A)) ≫= k) P.
Proof.
  intros Hr r. simpl. eapply always_mono; [|apply (Hr r)]. intros tr r'. by rewrite effects_cons.
Qed.

Lemma er_get (c : lcall A) (k : A -> M B) P :
  (forall r, every_run (k r) (fun es r' => P (seen c r ++ es) r')) ->
  every_run ((get c : M A) ≫= k) P.
Proof.
  intros Hr r. simpl. eapply always_mono; [|apply (Hr r)]. intros tr r'. by rewrite effects_cons.
Qed.

Lemma er_last {Y} (c : lcall (result Y A)) (f : Y -> Error) P :
  (forall r, P (seen c r) (map_err f r)) -> every_run (ask c f : M A) P.
Proof.
  intros Hr r. simpl. rewrite effects_cons. unfold effects. simpl. rewrite app_nil_r. apply Hr.
Qed.

Lemma er_throw (e : Error) P : P [] (Err e) -> every_run (throw e : M A) P.
Proof. done. Qed.
Lemma er_ret (a : A) P : P [] (Ok a) -> every_run (mret a : M A) P.
Proof. done. Qed.
Lemma er_pure (r : result Error A) P : P [] r -> every_run (pure_res r : M A) P.
Proof. done. Qed.

Lemma er_ret_bind (a : A) (k : A -> M B) P : every_run (k a) P -> every_run ((mret a : M A) ≫= k) P.
Proof. done. Qed.

Lemma er_throw_bind (e : Error) (k : A -> M B) P : P [] (Err e) -> every_run ((throw e : M A) ≫= k) P.
Proof. done. Qed.

(** A program that only reads. *)
Definition quiet (p : M A) : Prop := every_run p (fun es _ => es = []).
End Rules.

Lemma er_quiet {A B} (p : M A) (f : A -> M B) P :
  quiet p -> (forall a, every_run (f a) P) -> (forall e, P [] (Err e)) -> every_run (p ≫= f) P.
Proof.
  intros Hq Hok Herr. apply every_run_bind. eapply every_run_mono; [|exact Hq].
  intros es [a|e] ->; [|apply Herr]. apply Hok.
Qed.

Lemma er_caught_quiet {A B} (p : M A) (f : A -> M B) (g : Error -> M B) P :
  quiet p -> (forall a, every_run (f a) P) -> (forall e, every_run (g e) P) -> every_run (caught p f g) P.
Proof.
  intros Hq Hok Herr. apply every_run_caught. eapply every_run_mono; [|exact Hq].
  intros es [a|e] ->; [apply Hok|apply Herr].
Qed.

Create HintDb bento_er.

Lemma quiet_ret {A} (a : A) : quiet (mret a).
Proof. done. Qed.
Lemma quiet_throw {A} e : quiet (throw e : M A).
Proof. done. Qed.
Lemma quiet_pure {A} (r : result Error A) : quiet (pure_res r).
Proof. done. Qed.
Lemma quiet_bind {A B} (p : M A) (f : A -> M B) : quiet p -> (forall a, quiet (f a)) -> quiet (p ≫= f).
Proof. intros. apply er_quiet; [done|done|done]. Qed.
Lemma quiet_ask {A Y} (c : lcall (result Y A)) f : (forall r, effect_of c r = None) -> quiet (ask c f : M A).
Proof. intros Hc. apply er_last. intros r. unfold seen. by rewrite Hc. Qed.
Lemma quiet_get {A} (c : lcall A) : (forall r, effect_of c r = None) -> quiet (get c : M A).
Proof. intros Hc r. simpl. rewrite effects_cons. unfold seen. by rewrite Hc. Qed.
#[export] Hint Resolve quiet_ret quiet_throw quiet_pure : bento_er.

Ltac quiet_steps :=
  repeat first
    [ apply quiet_bind; [|intros ?] | apply quiet_ask; intros; reflexivity
    | apply quiet_get; intros; reflexivity | by eauto with bento_er | case_match ].

Section Quiet.
Context (sha256 : string -> list Z) (self : Manager).

Lemma check_nested_quiet : quiet check_nested.
Proof. unfold check_nested. quiet_steps. Qed.
Lemma place_quiet request : quiet (place self request).
Proof. unfold place. quiet_steps. Qed.
Lemma hyp_for_quiet i : quiet (hyp_for self i).
Proof. unfold hyp_for. quiet_steps. Qed.
Lemma domain_xml_by_uuid_quiet i b : quiet (domain_xml_by_uuid self i b).
Proof. unfold domain_xml_by_uuid. quiet_steps. Qed.

Lemma allocate_address_view_quiet subnet slots slot :
  always (allocate_address_view subnet slots slot) (fun tr _ => effects tr = []).
Proof. unfold allocate_address_view. case_match; simpl; done. Qed.

Lemma try_slots_quiet subnet slots owned : quiet (try_slots subnet slots owned).
Proof.
  induction owned as [|slot owned IH]; simpl; [done|]. case_match; [done|].
  unfold quiet, every_run. apply (always_bind (allocate_address_view subnet slots slot)).
  eapply always_mono; [|apply allocate_address_view_quiet]. intros tr r Htr. cbn beta.
  assert (Hq : forall p : M (Z * Z), quiet p ->
    always p (fun tr' (_ : result Error (Z * Z)) => effects (tr ++ tr') = [])).
  { intros p. apply always_mono. intros tr' _ Htr'. by rewrite effects_app, Htr. }
  destruct r as [a|[]]; by apply Hq.
Qed.

Lemma allocate_in_owned_slot_quiet host subnet : quiet (allocate_in_owned_slot host subnet).
Proof.
  unfold allocate_in_owned_slot. quiet_steps. apply try_slots_quiet.
Qed.
End Quiet.
#[export] Hint Resolve check_nested_quiet place_quiet hyp_for_quiet domain_xml_by_uuid_quiet
  allocate_in_owned_slot_quiet : bento_er.

(** What the unwinding steps do. *)
Lemma unwind_new_effects {A} i cause (P : list effect -> result Error A -> Prop) :
  (forall ok e, P [EDelete (i_uuid i) ok] (Err e)) -> every_run (unwind_new i cause) P.
Proof. intros HP. apply er_logged. intros r. apply er_throw, HP. Qed.

Lemma unwind_copy_effects {A} self i cause (P : list effect -> result Error A -> Prop) :
  (forall ok1 ok2 ok3 e, P [EIsoDelete (seed_iso_path self (i_uuid i)) ok1;
     ERemoveFile (overlay_path self (i_uuid i)) ok2; EDelete (i_uuid i) ok3] (Err e)) ->
  every_run (unwind_copy self i cause) P.
Proof.
  intros HP. apply er_logged. intros r1. apply er_logged. intros r2. apply er_logged. intros r3.
  apply er_throw, HP.
Qed.

Lemma unwind_rename_effects {A} self i old_name cause (P : list effect -> result Error A -> Prop) :
  (forall ok e, P [ERename (i_uuid i) old_name ok] (Err e)) -> every_run (unwind_rename self i old_name cause) P.
Proof. intros HP. apply er_logged. intros r. apply er_throw, HP. Qed.

(** The machine an instance's commands go to. *)
Definition target_of (self : Manager) (i : Instance) : Target :=
  if i_host_id i =? host_id self then Here else On (i_host_id i).

Lemma er_hyp_for {A} self i (f : Target -> M A) P :
  every_run (f (target_of self i)) P -> (forall e, P [] (Err e)) -> every_run (hyp_for self i ≫= f) P.
Proof. unfold hyp_for, target_of. intros Hf He. case_match; [exact Hf|]. intros [|]; [exact Hf|apply He]. Qed.

(** [er] walks through a program, call by call. *)
Ltac er_step :=
  lazymatch goal with
  | |- every_run (throw _) _ => apply er_throw
  | |- every_run (mret _) _ => apply er_ret
  | |- every_run (pure_res _) _ => apply er_pure
  | |- every_run (dep _ ≫= _) _ => unfold dep at 1; apply er_ask; intros ?
  | |- every_run (told _ _ ≫= _) _ => unfold told at 1; apply er_ask; intros ?
  | |- every_run (ask _ _ ≫= _) _ => apply er_ask; intros ?
  | |- every_run (logged _ ≫= _) _ => apply er_logged; intros [?|?]
  | |- every_run (get _ ≫= _) _ => apply er_get; intros ?
  | |- every_run (mret _ ≫= _) _ => apply er_ret_bind
  | |- every_run (pure_res _ ≫= _) _ => apply er_quiet; [done|intros ?|intros ?]
  | |- every_run (throw _ ≫= _) _ => apply er_throw_bind
  | |- every_run (dep _) _ => unfold dep; apply er_last; intros [?|?]
  | |- every_run (told _ _) _ => unfold told; apply er_last; intros [?|?]
  | |- every_run (ask _ _) _ => apply er_last; intros [?|?]
  | |- every_run (hyp_for _ _ ≫= _) _ => apply er_hyp_for; [|intros ?]
  | |- every_run ((_ ≫= _) ≫= _) _ => apply every_run_assoc
  | |- every_run ((if ?b then _ else _) ≫= _) _ =>
      lazymatch type of b with
      | bool => first [apply er_quiet; [solve [quiet_steps]|intros ?|intros ?] | destruct b eqn:?]
      | _ => destruct b eqn:?
      end
  | |- every_run ((match ?x with _ => _ end) ≫= _) _ => destruct x eqn:?
  | |- every_run (_ ≫= _) _ => apply er_quiet; [by eauto with bento_er|intros ?|intros ?]
  | |- every_run (caught _ _ _) _ => apply er_caught_quiet; [by eauto with bento_er|intros ?|intros ?]
  | |- every_run (let _ := _ in _) _ => cbv zeta
  | |- every_run (if ?b then _ else _) _ => destruct b eqn:?
  | |- every_run (match ?x with _ => _ end) _ => destruct x eqn:?
  | |- every_run (unwind_new _ _) _ => apply unwind_new_effects; intros ??
  | |- every_run (unwind_copy _ _ _) _ => apply unwind_copy_effects; intros ????
  | |- every_run (unwind_rename _ _ _ _) _ => apply unwind_rename_effects; intros ??
  end.
Ltac er := repeat er_step; unfold seen; cbn [effect_of is_ok app].

(** ** Create and copy leave nothing behind *)

Section Order.
Context (sha256 : string -> list Z) (self : Manager).

(** C17.  A create takes effect in order or leaves no row.  Whatever fails:
    the first effect is the capacity-checked insertion of the row, the
    machine is asked to build the instance only after it, and every error
    after the insertion ends with the deletion of that very row; a success
    has inserted and built one and the same instance. *)
Theorem create_unwinds (request : NewRequest) :
  every_run (create sha256 self request) (fun es r =>
    match r with
    | Ok i => exists i0 spec ok, es = [EInsert i0 true; EProvision spec true; EObserve (i_uuid i0) (i_state i) ok] /\
        ps_instance spec = i0 /\ ps_host_id spec = i_host_id i0 /\ i = with_observed i0 (i_state i) /\
        i_name i0 = nr_name request /\ i_owner_id i0 = u_id (nr_owner request)
    | Err _ => es = [] \/ exists i0,
        es = [EInsert i0 false] \/
        (exists ok, es = [EInsert i0 true; EDelete (i_uuid i0) ok]) \/
        (exists spec ok, es = [EInsert i0 true; EProvision spec false; EDelete (i_uuid i0) ok] /\
           ps_instance spec = i0)
    end).
Proof.
  unfold create, build. er; try by left.
  all: try (right; eexists; eauto 6; fail).
  all: do 3 eexists; split; [reflexivity|done].
Qed.

(** The state a copy or a rename waits for. *)
Definition stopped_or_gone (saw : result HypError State) : Prop :=
  match saw with
  | Ok Stopped | Err (DomainNotFound _) => True
  | _ => False
  end.

(** What [copy] makes between the row and the end: files the unwinding
    removes, and no domain. *)
Definition leftover (i : Instance) (e : effect) : Prop :=
  match e with
  | ECopyFile _ path _ | EGrow path _ _ => path = overlay_path self (i_uuid i)
  | EIsoBuild path _ => path = seed_iso_path self (i_uuid i)
  | ECreateDomain ok => ok = false
  | _ => False
  end.

Ltac some_work tac :=
  first [exists []; tac | eexists [_]; tac | eexists [_; _]; tac | eexists [_; _; _]; tac | eexists [_; _; _; _]; tac].

(** The effects of a copy once its row [i0] exists. *)
Definition copied (source_uuid : string) (source_gib : Z) (i0 : Instance) (es : list effect)
    (r : result Error Instance) : Prop :=
  match r with
  | Ok i => exists grown ok,
      es = [ECopyFile (overlay_path self source_uuid) (overlay_path self (i_uuid i0)) true] ++ grown ++
           [EIsoBuild (seed_iso_path self (i_uuid i0)) true; ECreateDomain true; EObserve (i_uuid i0) Running ok] /\
      i = with_observed i0 Running /\
      (grown = [] /\ i_disk_gib i0 = source_gib \/
       grown = [EGrow (overlay_path self (i_uuid i0)) (i_disk_gib i0) true] /\ source_gib < i_disk_gib i0)
  | Err _ => exists work ok1 ok2 ok3,
      es = work ++ [EIsoDelete (seed_iso_path self (i_uuid i0)) ok1;
                    ERemoveFile (overlay_path self (i_uuid i0)) ok2; EDelete (i_uuid i0) ok3] /\
      Forall (leftover i0) work
  end.

Lemma build_copy_effects source_uuid source request subnet address kind i0 :
  i_disk_gib i0 = nr_disk_gib request -> i_disk_gib source <= nr_disk_gib request ->
  every_run (build_copy self source_uuid source request subnet address kind i0)
    (copied source_uuid (i_disk_gib source) i0).
Proof.
  intros Hi0 Hle. unfold build_copy. er; unfold copied.
  all: try (some_work ltac:(do 3 eexists; split; [reflexivity|]); repeat constructor).
  all: some_work ltac:(eexists; split; [reflexivity|]); (split; [reflexivity|]).
  all: (left; split; [done|lia]) || (right; split; [by rewrite Hi0|lia]).
Qed.

(** A copy is made of a disk nobody writes, and a failed one leaves no
    trace.  The source's domain has been seen stopped or gone before the row
    of the copy is inserted; the disk is copied from the source's overlay
    only after that; every error after the insertion ends with the removal of
    the seed ISO, of the overlay and of the row, those being all the copy can
    have made; a success has copied, grown at most once and never shrunk,
    built the seed and created the domain, in this order. *)
Theorem copy_unwinds (source_uuid : string) (request : NewRequest) :
  every_run (copy sha256 self source_uuid request) (fun es r =>
    match es with
    | ERow source :: ESaw Here name saw :: EInsert i0 true :: work =>
        name = i_name source /\ stopped_or_gone saw /\ i_name i0 = nr_name request /\
        i_host_id i0 = i_host_id source /\ copied source_uuid (i_disk_gib source) i0 work r
    | [] | [ERow _] | [ERow _; ESaw _ _ _] | [ERow _; ESaw _ _ _; EInsert _ false] => is_ok r = false
    | _ => False
    end).
Proof.
  unfold copy. er; try done.
  all: eapply every_run_mono; [|apply build_copy_effects; [done|lia]]; intros es r1 Hc.
  all: repeat split; [|exact Hc]; simpl; apply orb_false_iff in Heqb2; lia.
Qed.

(**  A stop is remembered before it is carried out, so that a stop that
    fails or is interrupted is not undone by the next restart of the host;
    a start is recorded only after the domain has started. *)
Theorem stop_remembered_first (uuid : string) :
  every_run (stop self uuid) (fun es r =>
    match es with
    | [ERow i; EDesired u WantStopped true; EStop t name true; EObserve u' Stopped ok] =>
        t = target_of self i /\ u = uuid /\ u' = uuid /\ name = i_name i /\ is_ok r = ok
    | [] | [ERow _] | [ERow _; EDesired _ _ _] | [ERow _; EDesired _ WantStopped true; EStop _ _ false] => is_ok r = false
    | _ => False
    end) /\
  every_run (start self uuid) (fun es r =>
    match es with
    | [ERow i; EStart t name true; EDesired u WantRunning true; EObserve u' Running ok] =>
        t = target_of self i /\ u = uuid /\ u' = uuid /\ name = i_name i /\ is_ok r = ok
    | [] | [ERow _] | [ERow _; EStart _ _ false] | [ERow _; EStart _ _ true; EDesired _ WantRunning false] => is_ok r = false
    | _ => False
    end).
Proof. unfold stop, start, start_domain. split; er; done. Qed.

(**  A removal forgets an instance only when its domain is gone.  The row
    is deleted after the domain has been undefined or was not there, and
    after the machine has been asked to drop its files; a domain that cannot
    be undefined keeps its row. *)
Theorem remove_order (uuid : string) :
  every_run (remove self uuid) (fun es r =>
    match es with
    | [] | [ERow _] => is_ok r = false
    | [ERow i; ERemove _ name (Err (HypFailure _))] => name = i_name i /\ is_ok r = false
    | [ERow i; ERemove t name (Ok _ | Err (DomainNotFound _)); EDeprovision h u _; EDelete u' ok] =>
        t = target_of self i /\ name = i_name i /\ h = i_host_id i /\ u = i_uuid i /\ u' = uuid /\ is_ok r = ok
    | _ => False
    end).
Proof. unfold remove. er; done. Qed.

(** The redefinition after a change of sizes, and the growth before it. *)
Definition redefinition (i : Instance) (ok : bool) (es : list effect) : Prop :=
  if i_host_id i =? host_id self then es = [EDefine ok] \/ es = [] /\ (ok = false \/ definer self = false)
  else (exists network, es = [ERedefine (mkRedefineSpec (i_host_id i) i network None) ok]) \/
       es = [] /\ ok = false.
Definition growth (i : Instance) (disk_gib : Z) (ok : bool) : effect :=
  if i_host_id i =? host_id self then EGrow (overlay_path self (i_uuid i)) disk_gib ok
  else EGrowRemote (i_host_id i) (i_uuid i) disk_gib ok.

Lemma grow_disk_effects i disk_gib :
  every_run (grow_disk self i disk_gib) (fun es r => es = [growth i disk_gib (is_ok r)]).
Proof. unfold grow_disk, growth. case_match; er; done. Qed.

Lemma redefine_elsewhere_effects i previous :
  every_run (redefine_elsewhere self i previous) (fun es r =>
    (exists network, es = [ERedefine (mkRedefineSpec (i_host_id i) i network previous) (is_ok r)]) \/
    es = [] /\ is_ok r = false).
Proof. unfold redefine_elsewhere. er; simpl; eauto. Qed.

Lemma redefine_effects i : every_run (redefine self i) (fun es r => redefinition i (is_ok r) es).
Proof.
  unfold redefine, redefinition. destruct (i_host_id i =? host_id self); cbn [negb].
  - er; simpl; auto. right. split; [done|]. right. by apply negb_true_iff.
  - apply every_run_bind. eapply every_run_mono; [|apply redefine_elsewhere_effects].
    intros es [s|e] Hes; [apply er_ret; rewrite app_nil_r|]; exact Hes.
Qed.

(** What a resize restarts and grows, from the row it read. *)
Definition wants (i : Instance) (request : ResizeRequest) : ResizeResult :=
  mkResizeResult
    (negb (bool_decide (rr_vcpu request = i_vcpu i /\ rr_memory_mib request = i_memory_mib i /\
                        rr_nested request = i_nested i)))
    (bool_decide (i_disk_gib i < rr_disk_gib request)).

Lemma wants_code i request :
  mkResizeResult
    (negb (rr_vcpu request =? i_vcpu i) || negb (rr_memory_mib request =? i_memory_mib i) ||
     negb (eqb (rr_nested request) (i_nested i))) (i_disk_gib i <? rr_disk_gib request) = wants i request.
Proof.
  unfold wants. f_equal; [|apply eq_true_iff_eq; rewrite Z.ltb_lt, bool_decide_eq_true; done].
  apply eq_true_iff_eq. rewrite !orb_true_iff, !negb_true_iff, !Z.eqb_neq, eqb_false_iff, bool_decide_eq_false.
  destruct (decide (rr_vcpu request = i_vcpu i)), (decide (rr_memory_mib request = i_memory_mib i)),
    (decide (rr_nested request = i_nested i)); tauto.
Qed.

(** The end of a resize: the change of the row and the redefinition. *)
Definition resized (request : ResizeRequest) (i : Instance) (es : list effect) (r : result Error ResizeResult) : Prop :=
  es = [EResize (rr_uuid request) (rr_disk_gib request) false] /\ is_ok r = false \/
  exists after, es = EResize (rr_uuid request) (rr_disk_gib request) true :: after /\
    (if restart_required (wants i request) then redefinition (with_sizes i request) (is_ok r) after
     else after = [] /\ is_ok r = true) /\
    (forall answer, r = Ok answer -> answer = wants i request).

Lemma resize_end request i capacity :
  every_run (_ ← dep (SResize (rr_uuid request) (rr_vcpu request) (rr_memory_mib request) (rr_disk_gib request)
                        (rr_nested request) capacity);
             _ ← (if restart_required (wants i request) then redefine self (with_sizes i request) else mret tt);
             mret (wants i request)) (resized request i).
Proof.
  unfold resized. er_step; [|by left]. destruct (restart_required (wants i request)).
  - apply every_run_bind. eapply every_run_mono; [|apply redefine_effects].
    intros es [[]|e] Hes; [apply er_ret; rewrite app_nil_r|]; right; exists es; repeat split; eauto; congruence.
  - er. right. exists []. repeat split; eauto. congruence.
Qed.

(** The growth, where there is one. *)
Lemma grown_effects i gib (b : bool) :
  every_run (if b then grow_disk self i gib else mret tt) (fun es r =>
    es = (if b then [growth i gib (is_ok r)] else []) /\ (b = false -> is_ok r = true)).
Proof.
  destruct b; [|er; done]. eapply every_run_mono; [|apply grow_disk_effects]. simpl. intros es r ->. done.
Qed.

(**  A resize keeps disk and row in step.  Nothing is touched unless the
    disk does not shrink and the machine's capacity has been checked; the row
    changes only after the disk has grown, so that the row never promises
    more than the disk has; the definition changes last, on the instance's
    machine, exactly when the vCPUs, the memory or the nesting change; and
    the answer says truly what was grown and what waits for a restart. *)
Theorem resize_order (request : ResizeRequest) :
  every_run (resize self request) (fun es r =>
    match es with
    | [] | [ERow _] => is_ok r = false
    | ERow i :: EChecked u m d checked :: rest =>
        u = rr_uuid request /\ m = rr_memory_mib request /\ d = rr_disk_gib request /\ i_disk_gib i <= d /\
        let grown ok := if disk_grown (wants i request) then [growth i d ok] else [] in
        (checked = false /\ rest = [] /\ is_ok r = false \/
         checked = true /\ disk_grown (wants i request) = true /\ rest = grown false /\ is_ok r = false \/
         checked = true /\ exists after, rest = grown true ++ after /\ resized request i after r)
    | _ => False
    end).
Proof.
  unfold resize. er_step; [|done]. cbv zeta. rewrite wants_code.
  do 2 (er_step; [by er|]). do 2 (er_step; [|done]). er_step; [|intros; repeat split; [lia|by left]].
  apply every_run_bind. eapply every_run_mono; [|apply grown_effects].
  intros es [[]|e] [-> Hb]; cbn [is_ok] in *.
  - eapply every_run_mono; [|apply resize_end]. intros es' r Hr. repeat split; [lia|]. right. right.
    split; [done|]. by exists es'.
  - destruct (disk_grown (wants a request)) eqn:Hg; [|by specialize (Hb eq_refl)]. repeat split; [lia|].
    right. left. by rewrite Hg.
Qed.

(** What follows the change of the name in the database, on this machine and
    on another one. *)
Definition moved_here (i : Instance) (rest : list effect) (ok : bool) : Prop :=
  match rest with
  | [ERemove Here n (Ok _ | Err (DomainNotFound _)); EDefine true] => ok = true /\ n = i_name i
  | [ERename u n _] | [ERemove Here _ (Err (HypFailure _)); ERename u n _]
  | [ERemove Here _ _; EDefine false; ERename u n _] | [ERemove Here _ _; EDefine false; EDefine _; ERename u n _] =>
      ok = false /\ u = i_uuid i /\ n = i_name i
  | _ => False
  end.
Definition moved_elsewhere (i : Instance) (new_name : string) (rest : list effect) (ok : bool) : Prop :=
  match rest with
  | [ERedefine spec true] =>
      ok = true /\ rs_host_id spec = i_host_id i /\ rs_instance spec = renamed i new_name /\
      rs_previous_name spec = Some (i_name i)
  | [ERename u n _] | [ERedefine _ false; ERename u n _] => ok = false /\ u = i_uuid i /\ n = i_name i
  | _ => False
  end.

Lemma rename_domain_effects uuid i new_name :
  every_run (rename_domain self uuid i (i_name i) new_name) (fun es r => moved_here i es (is_ok r)).
Proof. unfold rename_domain, restore_definition. er; done. Qed.

Lemma rename_elsewhere_effects i new_name gone :
  every_run (rename_elsewhere self i (i_name i) new_name gone) (fun es r =>
    match es with
    | ERename u n changed :: rest => u = i_uuid i /\ n = new_name /\
        if changed then (if gone then rest = [] /\ is_ok r = true else moved_elsewhere i new_name rest (is_ok r))
        else rest = [] /\ is_ok r = false
    | [] => False
    | _ => False
    end).
Proof.
  unfold rename_elsewhere. er_step; [|done]. destruct gone; [by er|]. cbv zeta.
  apply every_run_caught. eapply every_run_mono; [|apply redefine_elsewhere_effects].
  intros es [s|e] [[network ->]|[-> Hr]]; try done; er; done.
Qed.

(** A rename never leaves row and domain with different names without
    having tried to put the old name back.  The row changes only when the
    domain has been seen stopped or gone; a domain that exists is then
    redefined under the new name on its own machine, here by undefining the
    old definition and defining the new one; and every failure after the row
    has changed ends with the request for the old name. *)
Theorem rename_order (uuid new_name : string) :
  every_run (rename self uuid new_name) (fun es r =>
    match es with
    | [] => is_ok r = false
    | [ERow i] => is_ok r = true <-> new_name = i_name i
    | [ERow i; ESaw t name _] => t = target_of self i /\ name = i_name i /\ is_ok r = false
    | ERow i :: ESaw t name saw :: ERename u n changed :: rest =>
        t = target_of self i /\ name = i_name i /\ n = new_name /\ n <> name /\ stopped_or_gone saw /\
        u = (if i_host_id i =? host_id self then uuid else i_uuid i) /\
        match changed, saw with
        | false, _ => rest = [] /\ is_ok r = false
        | true, Err _ => rest = [] /\ is_ok r = true
        | true, Ok _ => if i_host_id i =? host_id self then moved_here i rest (is_ok r)
                        else moved_elsewhere i new_name rest (is_ok r)
        end
    | _ => False
    end).
Proof.
  unfold rename. er_step; [|done]. cbn [seen effect_of app].
  case_bool_decide as Hname; [by er|]. destruct (i_host_id a =? host_id self) eqn:Hh; cbn [negb]; er; try done.
  - eapply every_run_mono; [|apply rename_domain_effects]. intros es r Hes. repeat split; [exact Hname|exact Hes].
  - eapply every_run_mono; [|apply rename_elsewhere_effects]. intros [|[] rest] res Hes; try done.
    destruct Hes as (-> & -> & Hes). by repeat split.
  - eapply every_run_mono; [|apply rename_elsewhere_effects]. intros [|[] rest] res Hes; try done.
    destruct Hes as (-> & -> & Hes). by repeat split.
Qed.

(** The seed ISO of a first boot is deleted only once the domain no
    longer refers to it: with a definer, after the definition without the ISO
    has been accepted; a failed redefinition leaves the ISO in place. *)
Theorem first_boot_order (i : Instance) :
  every_run (finish_first_boot self i) (fun es r =>
    match es with
    | [] => True
    | [EDefine false] => definer self = true /\ is_ok r = false
    | [EDefine true; EIsoDelete path ok] =>
        definer self = true /\ path = seed_iso_path self (i_uuid i) /\ is_ok r = ok
    | [EIsoDelete path ok] => definer self = false /\ path = seed_iso_path self (i_uuid i) /\ is_ok r = ok
    | _ => False
    end).
Proof. unfold finish_first_boot. er; simpl; auto. Qed.

(** ** Restoring after a host restart *)

(** The domains a run tries to start, in order. *)
Definition starts (es : list effect) : list (Target * string) :=
  omap (fun e => match e with EStart t name _ => Some (t, name) | _ => None end) es.
Lemma starts_app es es' : starts (es ++ es') = starts es ++ starts es'.
Proof. apply omap_app. Qed.

(** [goes_on p l]: [p] starts the domains [l] and succeeds, whatever fails. *)
Definition goes_on (p : M unit) (l : list (Target * string)) : Prop :=
  every_run p (fun es r => starts es = l /\ r = Ok tt).

Lemma goes_on_then {A} (p : M unit) (f : unit -> M A) l P :
  goes_on p l -> every_run (f tt) (fun es r => forall es0, starts es0 = l -> P (es0 ++ es) r) ->
  every_run (p ≫= f) P.
Proof.
  intros Hp Hf. apply every_run_bind. eapply every_run_mono; [|exact Hp]. intros es [[]|e] [Hs Hr]; [|done].
  eapply every_run_mono; [|exact Hf]. intros es' r H. by apply H.
Qed.

Lemma for_all_goes_on {A} (f : A -> M unit) (g : A -> list (Target * string)) l :
  (forall x, goes_on (f x) (g x)) -> goes_on (for_all f l) (concat (g <$> l)).
Proof.
  intros Hf. induction l as [|x l IH]; simpl; [done|]. eapply goes_on_then; [apply Hf|].
  eapply every_run_mono; [|exact IH]. intros es r [Hs ->] es0 H0. by rewrite starts_app, Hs, H0.
Qed.

Lemma sync_observed_goes_on i : goes_on (sync_observed i) [].
Proof. unfold goes_on, sync_observed. er; done. Qed.

Lemma wait_loop_starts name n last : every_run (wait_loop self name n last) (fun es _ => starts es = []).
Proof.
  revert last. induction n as [|n IH]; intros last; cbn [wait_loop]; [done|]. er_step; [|done].
  case_bool_decide; [done|]. apply er_quiet; [quiet_steps|intros _|done]. eapply every_run_mono; [|apply IH]. intros es r Hs. exact Hs.
Qed.

Lemma await_started_goes_on i : goes_on (await_started self i) [].
Proof.
  unfold goes_on, await_started. apply every_run_caught. eapply every_run_mono; [|apply wait_loop_starts].
  intros es [[]|e] Hs.
  - er; (split; [by rewrite starts_app, Hs|done]).
  - eapply every_run_mono; [|apply sync_observed_goes_on]. intros es' r [Hs' ->]. by rewrite starts_app, Hs, Hs'.
Qed.

Definition start_here (i : Instance) : Target * string := (Here, i_name i).

Lemma start_batch_starts batch :
  every_run (start_batch batch) (fun es r => starts es = start_here <$> batch /\ is_ok r = true).
Proof.
  induction batch as [|i batch IH]; cbn [start_batch]; [done|].
  apply er_logged. intros r0. apply er_logged. intros [[]|e].
  - apply every_run_bind. eapply every_run_mono; [|exact IH]. intros es [more|e] [Hs Hr]; [|done].
    apply er_ret. split; [|done]. by rewrite app_nil_r, !starts_app, Hs.
  - eapply goes_on_then; [apply sync_observed_goes_on|]. eapply every_run_mono; [|exact IH].
    intros es r [Hs Hr] es0 H0. split; [|done]. rewrite !starts_app, H0, Hs. done.
Qed.

Lemma restore_batch_goes_on batch : goes_on (restore_batch self batch) (start_here <$> batch).
Proof.
  unfold goes_on, restore_batch. apply every_run_bind. eapply every_run_mono; [|apply start_batch_starts].
  intros es [started|e] [Hs Hr]; [|done].
  eapply every_run_mono; [|apply (for_all_goes_on _ (fun _ => [])); apply await_started_goes_on].
  intros es' r [Hs' ->]. split; [|done]. rewrite starts_app, Hs, Hs'. clear.
  induction started as [|x l IH]; simpl; [by rewrite app_nil_r|exact IH].
Qed.

Lemma chunks_concat {A} size fuel (l : list A) :
  (0 < size)%nat -> (length l <= fuel)%nat -> concat (chunks fuel size l) = l.
Proof.
  intros Hsize. revert l. induction fuel as [|fuel IH]; intros [|x l] Hlen; simpl in *; try done; [lia|].
  rewrite IH by (rewrite length_drop; simpl; lia). apply take_drop.
Qed.

Lemma concat_fmap_fmap {A B} (f : A -> B) (l : list (list A)) : 
  concat (fmap (M := list) (fmap (M := list) f) l) = fmap (M := list) f (concat l).
Proof. induction l as [|x l IH]; simpl; [done|]. by rewrite fmap_app, <- IH. Qed.

(** C30.  A host restart starts every instance that should run.  Once the list
    of instances to restore has been read, each of them is started on this
    machine, once and in the order of the list, whatever happens to the
    others: a start that fails, a domain that never comes up and a row that
    cannot be written hold up nobody; and the restore then succeeds.  When
    the list cannot be read nothing is started. *)
Theorem restore_starts_all (Hbatch : 0 < batch_size self) :
  every_run (restore self) (fun es r =>
    match r with
    | Ok _ => exists before l after, es = before ++ EListed l :: after /\ starts before = [] /\
        starts after = (fun i => (Here, i_name i)) <$> l
    | Err _ => starts es = []
    end).
Proof.
  unfold restore. er_step; [|done].
  eapply (goes_on_then _ _ []).
  { destruct (autostart_clearer self); [|done]. eapply every_run_mono; [|apply (for_all_goes_on _ (fun _ => []))].
    - intros es r [Hs ->]. split; [|done]. rewrite Hs. clear. by induction a.
    - intros d. unfold goes_on. er; done. }
  er_step; [|intros es0 H0; by rewrite !starts_app, H0].
  er_step; [|intros es0 H0; by rewrite !starts_app, H0].
  eapply every_run_mono; [|apply (for_all_goes_on _ _ _ restore_batch_goes_on)].
  intros es r [Hs ->] es0 H0. exists (es0 ++ [EObserveAll (map_to_list (state_map a)) true]), a1, es.
  split; [by rewrite <- app_assoc|]. split; [by rewrite starts_app, H0|]. rewrite Hs, concat_fmap_fmap.
  f_equal. apply chunks_concat; lia.
Qed.

(** What a wait has read when it ends with [r] after at most [n] reads. *)
Definition waited (n : nat) (reads : list (result HypError State)) (r : result Error unit) : Prop :=
  match r with
  | Ok _ => exists before, reads = before ++ [Ok Running] /\ (length before < n)%nat /\
      Forall (fun x => exists s, x = Ok s /\ s <> Running) before
  | Err _ => ~ (Ok Running ∈ reads) /\
      (length reads = n \/ exists before e, reads = before ++ [Err e] /\ (length before < n)%nat)
  end.

Lemma waited_more n state reads r : state <> Running -> waited n reads r -> waited (S n) (Ok state :: reads) r.
Proof.
  intros Hs. destruct r as [[]|e]; simpl.
  - intros (before & -> & Hlen & Hb). exists (Ok state :: before). repeat split; [simpl; lia|constructor; eauto].
  - intros [Hnot Hend]. split; [rewrite elem_of_cons; intros [[=]|]; auto|].
    destruct Hend as [Hlen|(before & e' & -> & Hlen)]; [left; simpl; lia|right].
    exists (Ok state :: before), e'. split; [done|simpl; lia].
Qed.

Lemma wait_loop_waits name n last :
  every_run (wait_loop self name n last) (fun es r => exists reads, es = (ESaw Here name <$> reads) /\ waited n reads r).
Proof.
  revert last. induction n as [|n IH]; intros last; cbn [wait_loop].
  { exists []. split; [done|]. split; [apply not_elem_of_nil|by left]. }
  er_step.
  - case_bool_decide as Hs.
    + exists [Ok Running]. subst. split; [done|]. exists []. repeat split; [simpl; lia|constructor].
    + destruct n as [|n]; [apply er_ret_bind|apply er_get; intros []].
      all: eapply every_run_mono; [|apply IH]; intros es r (reads & -> & Hw).
      all: exists (Ok a :: reads); split; [done|]; by apply waited_more.
  - exists [Err e]. split; [done|]. split; [rewrite list_elem_of_singleton; done|].
    right. exists [], e. split; [done|simpl; lia].
Qed.

(** Waiting for a domain ends, and ends well exactly when the domain
    comes up in time.  The state is read at least once and at most [attempts]
    times, that is, as often as the start timeout holds poll intervals; the
    wait succeeds at the first read that shows the domain running, whichever
    it is, and otherwise fails after the last attempt or at the first read
    that fails. *)
Theorem wait_running_decides (name : string) :
  every_run (wait_running self name) (fun es r =>
    exists reads, es = (ESaw Here name <$> reads) /\ waited (Z.to_nat (attempts self)) reads r /\
      1 <= Z.of_nat (length reads) <= attempts self).
Proof.
  assert (Ha : 1 <= attempts self) by (unfold attempts; lia).
  eapply every_run_mono; [|apply wait_loop_waits]. intros es r (reads & -> & Hw). exists reads.
  split; [done|]. split; [exact Hw|]. destruct r as [[]|e]; simpl in Hw.
  - destruct Hw as (before & -> & Hlen & _). rewrite length_app. simpl. lia.
  - destruct Hw as [_ [Hlen|(before & e' & -> & Hlen)]]; rewrite ?length_app; simpl; lia.
Qed.

(** Reconciliation only reports: no run of it changes a row, a domain or
    a file, and an instance or a domain is reported exactly when the other
    side does not know its UUID. *)
Theorem reconcile_reports :
  always (reconcile self) (fun tr r => effects tr = [] /\
    match r with
    | Ok report => exists domains rows,
        tr = [mkEvent HList (Ok domains); mkEvent (SOnHost (host_id self)) (Ok rows)] /\
        (forall d, d ∈ domains_without_rows report <-> d ∈ domains /\ forall i, i ∈ rows -> i_uuid i <> di_uuid d) /\
        (forall i, i ∈ rows_without_domains report <-> i ∈ rows /\ forall d, d ∈ domains -> di_uuid d <> i_uuid i)
    | Err _ => True
    end).
Proof.
  unfold reconcile. intros [domains|e]; [|done]. intros [rows|e]; [|done]. split; [done|].
  exists domains, rows. split; [done|]. simpl.
  split; intros x; rewrite list_elem_of_filter, list_elem_of_fmap; naive_solver.
Qed.
End Order.

(** A manager built with the defaults, for the witness. *)
Definition example_manager : Manager :=
  mkManager true true 1 (mkPlan (mkPrefix 167772160 16)) "/var/lib/bento" 0 4 ["1.1.1.1"%string]
    DEFAULT_POLL_INTERVAL DEFAULT_START_POLL_INTERVAL DEFAULT_START_TIMEOUT "x86_64".

Lemma restore_starts_all_witness :
  every_run (restore example_manager) (fun es r =>
    match r with
    | Ok _ => exists before l after, es = before ++ EListed l :: after /\ starts before = [] /\
        starts after = (fun i => (Here, i_name i)) <$> l
    | Err _ => starts es = []
    end).
Proof. apply restore_starts_all. reflexivity. Defined.
