(* ===== verification/Adapters.v ===== *)
(** * Adapters: the lifecycle manager over the real store

    [bentod/src/adapters.rs] hands the lifecycle manager its [Store] trait as
    [LifecycleStore], a thin layer over [bento_store::Store] that adds the
    capacity of each machine.  Here the calls of [Lifecycle] that go to that
    trait are answered by the operations of the database model; everything
    else a manager calls is answered by [outside], which knows nothing of the
    database.  One controller at a time works on the database, as the lease
    demands, so a run of an operation is a run against this handler. *)

From Stdlib Require Import ZArith Lia.
From S2P Require Import Prelude Text Float64 Types Ipv4 Network Machine Fence Db Instances Accounts Runners Placement Images Store Prog Lifecycle LifecycleOrder.
Open Scope Z_scope.

(** [LocalCapacity]. *)
Record LocalCapacity : Type := mkLocalCapacity {
  lc_host_id : Z;
  lc_capacity : Capacity;
  lc_overcommit_ratio : f64
}.

Section LifecycleStore.
Context `{TimeFormat}.
Variable self : LocalCapacity.

(** [?] on a store error: it is boxed. *)
Definition on_store {A} (m : Tx A) (d : Db) : result DynError A * Db :=
  let '(r, d') := m d in (map_err DynStore r, d').

(** [Option::filter(|figure| *figure > 0)]. *)
Definition positive (figure : option Z) : option Z :=
  match figure with Some f => if 0 <? f then Some f else None | None => None end.

(** [LifecycleStore::host_capacity]. *)
Definition host_capacity (host_id : Z) (d : Db) : result DynError Capacity * Db :=
  if host_id =? lc_host_id self then (Ok (lc_capacity self), d)
  else
    let '(seen, d') := on_store (host_observation host_id) d in
    (seen ← seen;
     match seen with
     | None => Err (DynOther ("machine " +:+ dec_signed host_id +:+ " has not reported its capacity yet"))
     | Some seen =>
         match positive (o_memory_total_mib seen), positive (o_storage_total_gib seen) with
         | Some memory_mib, Some disk_gib => Ok (from_host memory_mib disk_gib (lc_overcommit_ratio self))
         | _, _ => Err (DynOther ("machine " +:+ dec_signed host_id +:+
             " reported no memory or storage figure, so its capacity is unknown"))
         end
     end, d').

(** [LifecycleStore::choose_host]. *)
Definition choose_host_id (want : Placing) : Tx Z :=
  host ← choose_host want (lc_overcommit_ratio self);
  mret (h_id host).

(** [LifecycleStore::placeable_hosts]. *)
Definition placeable_hosts : Tx Z :=
  hosts ← all_hosts;
  mret (Z.of_nat (length (filter (fun h => h_enabled h = true /\ h_placement h = PlActive) hosts))).

(** [impl bento_lifecycle::Store for LifecycleStore]; [t] and [t'] are the
    readings of the clock. *)
Definition lifecycle_store {R} (c : lcall R) (t t' : Z) : option (Db -> R * Db) :=
  match c in lcall R return option (Db -> R * Db) with
  | SCreate i cooldown capacity => Some (on_store (create_instance i cooldown capacity t t'))
  | SDelete uuid => Some (on_store (delete_instance uuid t))
  | SInstance uuid => Some (on_store (instance uuid))
  | SInstances => Some (on_store all_instances)
  | SOnHost host_id => Some (on_store (instances_on_host host_id))
  | SToRestore host_id => Some (on_store (instances_to_restore host_id))
  | SImage name => Some (on_store (image name))
  | SImageVersion checksum => Some (on_store (image_version checksum))
  | SHostsMissing image_name checksum => Some (on_store (hosts_missing_image image_name checksum))
  | SCapacity host_id => Some (host_capacity host_id)
  | SChooseHost want => Some (on_store (choose_host_id want))
  | SPlaceable => Some (on_store placeable_hosts)
  | SDeployment => Some (on_store deployment)
  | SSlots => Some (on_store slots)
  | SUser id => Some (on_store (user_by_id id))
  | SRename uuid new_name cooldown => Some (on_store (rename_instance uuid new_name cooldown t t'))
  | SCheckResize uuid memory disk capacity => Some (on_store (check_resize uuid memory disk capacity))
  | SResize uuid vcpu memory disk nested capacity =>
      Some (on_store (Instances.resize uuid vcpu memory disk nested capacity))
  | SDesired uuid state => Some (on_store (set_desired_state uuid state))
  | SObserved uuid state => Some (on_store (set_observed_state uuid state))
  | SObservedAll states => Some (on_store (update_observed_states states))
  | _ => None
  end.
End LifecycleStore.

(** ** The handler *)

(** The database, how many calls have been made, and the rest of the world. *)
Record World (X : Type) : Type := mkWorld { w_db : Db; w_calls : nat; w_outside : X }.
Arguments mkWorld {X} w_db w_calls w_outside.
Arguments w_db {X}. Arguments w_calls {X}. Arguments w_outside {X}.

Section Handler.
Context `{TimeFormat} {X : Type} (local : LocalCapacity) (clock : nat -> Z) (outside : handler lcall X).

Definition controller : handler lcall (World X) := fun R c w =>
  match lifecycle_store local c (clock (2 * w_calls w)) (clock (2 * w_calls w + 1)) with
  | Some m => let '(r, d') := m (w_db w) in (r, mkWorld d' (S (w_calls w)) (w_outside w))
  | None => let '(r, x') := outside R c (w_outside w) in (r, mkWorld (w_db w) (S (w_calls w)) x')
  end.
End Handler.

(** ** What a call does to the database *)

Section Calls.
Context `{TimeFormat}.

(** The operation of the store behind a call that writes. *)
Definition store_op {R} (c : lcall R) : option Op :=
  match c with
  | SCreate i cooldown capacity => Some (CreateInstance i cooldown capacity)
  | SDelete uuid => Some (DeleteInstance uuid)
  | SRename uuid new_name cooldown => Some (RenameInstance uuid new_name cooldown)
  | SResize uuid vcpu memory disk nested capacity => Some (Resize uuid vcpu memory disk nested capacity)
  | SDesired uuid state => Some (SetDesiredState uuid state)
  | SObserved uuid state => Some (SetObservedState uuid state)
  | SObservedAll states => Some (UpdateObservedStates states)
  | _ => None
  end.

Lemma on_store_db {A} (m : Tx A) d : snd (on_store m d) = snd (m d).
Proof. unfold on_store. by destruct (m d). Qed.

Lemma on_store_reads {A} (m : Tx A) d : reads_only m -> snd (on_store m d) = d.
Proof. intros Hm. by rewrite on_store_db. Qed.

Lemma finish_db {A} (m : Tx A) d : snd (finish m d) = snd (m d).
Proof. unfold finish, mbind, ST_bind. by destruct (m d) as [[a|e] d']. Qed.

Lemma host_capacity_reads self host d : snd (host_capacity self host d) = d.
Proof.
  unfold host_capacity. case_match; [done|]. pose proof (on_store_reads (host_observation host) d) as Hr.
  destruct (on_store _ d) as [seen d']. apply Hr. unfold host_observation. ro_steps.
Qed.

Lemma consider_reads want ratio best rejected hs : reads_only (consider want ratio best rejected hs).
Proof.
  revert best rejected. induction hs as [|h hs IH]; intros best rejected; cbn [consider]; [ro_steps|].
  apply reads_only_bind; [unfold weigh_host; ro_steps|]. intros [w|e]; apply IH.
Qed.
Lemma choose_host_reads want ratio : reads_only (choose_host want ratio).
Proof.
  unfold choose_host, active_hosts. apply reads_only_tx, reads_only_bind; [ro_steps|]. intros hs.
  apply reads_only_bind; [apply consider_reads|]. intros [best rejected]. ro_steps.
Qed.
#[local] Hint Resolve choose_host_reads get_instance_reads check_capacity_reads : bento_ro.

(** Every call of the trait either reads or is one operation of the store. *)
Lemma call_is_exec {R} self (c : lcall R) t t' m d :
  lifecycle_store self c t t' = Some m ->
  match store_op c with
  | Some op => snd (m d) = snd (exec op t t' d)
  | None => snd (m d) = d
  end.
Proof.
  destruct c; cbn [lifecycle_store store_op]; try done; intros [= <-].
  all: try (apply host_capacity_reads).
  all: try (rewrite on_store_db; symmetry; apply finish_db).
  all: apply on_store_reads; auto using get_instance_reads, choose_host_reads.
  all: unfold all_instances, instances_on_host, instances_to_restore, list_instances, image, image_version,
    hosts_missing_image, choose_host_id, placeable_hosts, all_hosts, deployment, slots, user_by_id, user_where,
    check_resize; ro_steps.
Qed.
End Calls.

(** ** Programs that insert no row *)

Definition creating {R} (c : lcall R) : bool := match c with SCreate _ _ _ => true | _ => false end.
Definition avoids {A} (p : prog lcall A) : Prop :=
  always p (fun tr _ => Forall (fun e => creating (ev_call e) = false) tr).

Create HintDb bento_av.

Lemma avoids_prog_bind {A B} (p : prog lcall A) (f : A -> prog lcall B) :
  avoids p -> (forall a, avoids (f a)) -> avoids (prog_bind _ _ f p).
Proof.
  intros Hp Hf. apply (always_bind p f). eapply always_mono; [|exact Hp]. intros tr a Htr.
  eapply always_mono; [|apply Hf]. intros tr' b Htr'. by apply Forall_app.
Qed.
Lemma avoids_bind {A B} (p : M A) (f : A -> M B) : avoids p -> (forall a, avoids (f a)) -> avoids (p ≫= f).
Proof. intros Hp Hf. apply avoids_prog_bind; [done|]. intros [a|e]; [apply Hf|constructor]. Qed.
Lemma avoids_caught {A B} (p : M A) (f : A -> M B) g :
  avoids p -> (forall a, avoids (f a)) -> (forall e, avoids (g e)) -> avoids (caught p f g).
Proof. intros Hp Hf Hg. apply avoids_prog_bind; [done|]. intros [a|e]; auto. Qed.
Lemma avoids_ret {A} (a : A) : avoids (mret a : M A).
Proof. constructor. Qed.
Lemma avoids_throw {A} e : avoids (throw e : M A).
Proof. constructor. Qed.
Lemma avoids_pure {A} (r : result Error A) : avoids (pure_res r : M A).
Proof. constructor. Qed.
Lemma avoids_call {A R} (c : lcall R) (k : R -> prog lcall A) :
  creating c = false -> (forall r, avoids (k r)) -> avoids (Call c k).
Proof.
  intros Hc Hk r. eapply always_mono; [|apply (Hk r)]. intros tr a Htr. by constructor.
Qed.
Lemma avoids_ask {A Y} (c : lcall (result Y A)) (f : Y -> Error) : creating c = false -> avoids (ask c f : M A).
Proof. intros Hc. apply avoids_call; [done|]. intros r. constructor. Qed.
Lemma avoids_get {A} (c : lcall A) : creating c = false -> avoids (get c : M A).
Proof. intros Hc. apply avoids_call; [done|]. intros r. constructor. Qed.
Lemma avoids_attempt {A Y} (c : lcall (result Y A)) : creating c = false -> avoids (attempt c : M (result Y A)).
Proof. intros Hc. apply avoids_call; [done|]. intros r. constructor. Qed.
#[export] Hint Resolve avoids_ret avoids_throw avoids_pure : bento_av.

(** [av_steps] walks a program none of whose calls inserts a row. *)
Ltac av_steps :=
  repeat first
    [ solve [auto with bento_av nocore]
    | apply avoids_ask; reflexivity | apply avoids_get; reflexivity | apply avoids_attempt; reflexivity
    | progress unfold dep, told, logged
    | lazymatch goal with
      | |- avoids (caught _ _ _) => apply avoids_caught; [|intros ?|intros ?]
      | |- avoids (_ ≫= _) => apply avoids_bind; [|intros ?]
      end
    | progress case_match ].

Lemma avoids_for_all {A} (f : A -> M unit) l : (forall x, avoids (f x)) -> avoids (for_all f l).
Proof. intros Hf. induction l as [|x l IH]; cbn [for_all]; av_steps. Qed.

Section Avoiding.
Context (sha256 : string -> list Z) (self : Manager).

Lemma hyp_for_avoids i : avoids (hyp_for self i).
Proof. unfold hyp_for. av_steps. Qed.
Lemma check_nested_avoids : avoids check_nested.
Proof. unfold check_nested. av_steps. Qed.
Lemma place_avoids request : avoids (Lifecycle.place self request).
Proof. unfold Lifecycle.place. av_steps. Qed.
Lemma try_slots_avoids subnet slots owned : avoids (try_slots subnet slots owned).
Proof.
  induction owned as [|slot owned IH]; cbn [try_slots]; [av_steps|]. case_match; [av_steps|].
  apply avoids_prog_bind; [|intros [a|[]]; av_steps].
  unfold allocate_address_view. case_match; [|constructor]. apply avoids_call; [done|]. intros r. constructor.
Qed.
Lemma allocate_avoids host subnet : avoids (allocate_in_owned_slot host subnet).
Proof. unfold allocate_in_owned_slot. av_steps. apply try_slots_avoids. Qed.
Lemma domain_xml_by_uuid_avoids i b : avoids (domain_xml_by_uuid self i b).
Proof. unfold domain_xml_by_uuid. av_steps. Qed.
#[local] Hint Resolve hyp_for_avoids check_nested_avoids place_avoids domain_xml_by_uuid_avoids : bento_av.
Lemma unwind_new_avoids {A} i cause : avoids (unwind_new i cause : M A).
Proof. unfold unwind_new. av_steps. Qed.
Lemma unwind_copy_avoids {A} i cause : avoids (unwind_copy self i cause : M A).
Proof. unfold unwind_copy. av_steps. Qed.
Lemma unwind_rename_avoids {A} i old cause : avoids (unwind_rename self i old cause : M A).
Proof. unfold unwind_rename. av_steps. Qed.
#[local] Hint Resolve @unwind_new_avoids @unwind_copy_avoids @unwind_rename_avoids : bento_av.
Lemma build_avoids request subnet address kind i : avoids (build self request subnet address kind i).
Proof. unfold build. av_steps. Qed.
Lemma build_copy_avoids source_uuid source request subnet address kind i :
  avoids (build_copy self source_uuid source request subnet address kind i).
Proof. unfold build_copy. av_steps. Qed.
Lemma start_domain_avoids i : avoids (start_domain self i).
Proof. unfold start_domain. av_steps. Qed.
Lemma redefine_elsewhere_avoids i previous : avoids (redefine_elsewhere self i previous).
Proof. unfold redefine_elsewhere. av_steps. Qed.
#[local] Hint Resolve start_domain_avoids redefine_elsewhere_avoids : bento_av.
Lemma redefine_avoids i : avoids (redefine self i).
Proof. unfold redefine. av_steps. Qed.
Lemma grow_disk_avoids i gib : avoids (grow_disk self i gib).
Proof. unfold grow_disk. av_steps. Qed.
#[local] Hint Resolve redefine_avoids grow_disk_avoids : bento_av.
Lemma finish_first_boot_avoids i : avoids (finish_first_boot self i).
Proof. unfold finish_first_boot. av_steps. Qed.
Lemma sync_observed_avoids i : avoids (sync_observed i).
Proof. unfold sync_observed. av_steps. Qed.
#[local] Hint Resolve finish_first_boot_avoids sync_observed_avoids : bento_av.
Lemma wait_loop_avoids name n last : avoids (wait_loop self name n last).
Proof. revert last. induction n as [|n IH]; intros last; cbn [wait_loop]; av_steps; apply IH. Qed.
Lemma start_batch_avoids batch : avoids (start_batch batch).
Proof. induction batch as [|i batch IH]; cbn [start_batch]; av_steps. Qed.
#[local] Hint Resolve wait_loop_avoids start_batch_avoids : bento_av.
Lemma restore_batch_avoids batch : avoids (restore_batch self batch).
Proof.
  unfold restore_batch. av_steps. apply avoids_for_all. intros i. unfold await_started, wait_running. av_steps.
Qed.
Lemma restore_avoids : avoids (restore self).
Proof.
  unfold restore. av_steps; apply avoids_for_all; [intros d; av_steps|exact restore_batch_avoids].
Qed.
Lemma poll_once_avoids : avoids (poll_once self).
Proof. unfold poll_once. av_steps. apply avoids_for_all. intros i. av_steps. Qed.
Lemma rename_avoids uuid name : avoids (rename self uuid name).
Proof. unfold rename, rename_elsewhere, rename_domain, restore_definition. av_steps. Qed.
#[local] Hint Resolve restore_avoids poll_once_avoids rename_avoids : bento_av.

(** The operations of a controller. *)
Inductive Operation : Type :=
  | OCreate (request : NewRequest)
  | OCopy (source_uuid : string) (request : NewRequest)
  | OStart (uuid : string)
  | OStartForConnection (uuid : string)
  | OStop (uuid : string)
  | ORestart (uuid : string)
  | ORemove (uuid : string)
  | OResize (request : ResizeRequest)
  | ORename (uuid new_name : string)
  | ORestore
  | OReconcile
  | OPoll
  | OEvent (uuid : string) (state : State).

Definition perform (op : Operation) : M unit :=
  match op with
  | OCreate request => _ ← create sha256 self request; mret tt
  | OCopy source_uuid request => _ ← copy sha256 self source_uuid request; mret tt
  | OStart uuid => Lifecycle.start self uuid
  | OStartForConnection uuid => start_for_connection self uuid
  | OStop uuid => _ ← Lifecycle.stop self uuid; mret tt
  | ORestart uuid => restart self uuid
  | ORemove uuid => remove self uuid
  | OResize request => _ ← resize self request; mret tt
  | ORename uuid new_name => rename self uuid new_name
  | ORestore => restore self
  | OReconcile => _ ← reconcile self; mret tt
  | OPoll => poll_once self
  | OEvent uuid state => handle_event self uuid state
  end.

Definition inserts (op : Operation) : bool := match op with OCreate _ | OCopy _ _ => true | _ => false end.

Lemma perform_avoids op : inserts op = false -> avoids (perform op).
Proof.
  destruct op; intros Hop; try discriminate Hop; cbn [perform]; try (solve [auto with bento_av nocore]).
  all: unfold Lifecycle.start, start_for_connection, Lifecycle.stop, restart, remove, resize, reconcile, handle_event.
  all: av_steps.
Qed.
End Avoiding.

(** ** Running a controller *)

Lemma run_M_bind {W A B} (h : handler lcall W) (p : M A) (f : A -> M B) w :
  run h (p ≫= f) w = match run h p w with (Ok a, w') => run h (f a) w' | (Err e, w') => (Err e, w') end.
Proof.
  unfold mbind, M_bind, fallible_bind.
  change (prog_bind (result Error A) (result Error B)) with (@mbind (prog lcall) prog_bind (result Error A) (result Error B)).
  rewrite run_bind. destruct (run h p w) as [[a|e] w']; reflexivity.
Qed.

(** What a run keeps, when each of its calls does. *)
Lemma run_keeps_trace {W A} (h : handler lcall W) (ok : event lcall -> Prop) (I : W -> Prop) (p : prog lcall A) w :
  (forall R (c : lcall R) w, ok (mkEvent c (fst (h R c w))) -> I w -> I (snd (h R c w))) ->
  Forall ok (trace h p w) -> I w -> I (snd (run h p w)).
Proof.
  intros Hh. revert w. induction p as [a|R c k IH]; simpl; intros w; [done|].
  pose proof (Hh R c w) as Hc. destruct (h R c w) as [r w'] eqn:Hr. simpl in *.
  intros [Hok Hrest]%Forall_cons Hw. apply IH; [done|]. by apply Hc.
Qed.

Section Runs.
Context `{TimeFormat} {X : Type} (local : LocalCapacity) (clock : nat -> Z) (outside : handler lcall X).
Context (sha256 : string -> list Z) (self : Manager).
#[local] Abbreviation h := (controller local clock outside).

Lemma controller_db {R} (c : lcall R) w :
  exists t t', w_db (snd (h R c w)) = match store_op c with Some op => snd (exec op t t' (w_db w)) | None => w_db w end.
Proof.
  unfold controller. set (t := clock (2 * w_calls w)). set (t' := clock (2 * w_calls w + 1)). exists t, t'.
  destruct (lifecycle_store local c t t') as [m|] eqn:Hm.
  - pose proof (call_is_exec local c t t' m (w_db w) Hm) as Hc. destruct (m (w_db w)) as [r d']. simpl in *.
    by destruct (store_op c).
  - destruct (outside R c (w_outside w)) as [r x]. simpl. destruct c; try discriminate Hm; done.
Qed.

Lemma controller_keeps_wf {R} (c : lcall R) w : wf_db (w_db w) -> wf_db (w_db (snd (h R c w))).
Proof.
  intros Hw. destruct (controller_db c w) as (t & t' & ->). destruct (store_op c); [|done]. by apply exec_keeps_wf.
Qed.

Lemma controller_keeps_slots {R} (c : lcall R) w :
  creating c = false -> slots_ok (w_db w) -> slots_ok (w_db (snd (h R c w))).
Proof.
  intros Hc Hw. destruct (controller_db c w) as (t & t' & ->). destruct (store_op c) as [op|] eqn:Hop; [|done].
  eapply (exec_keeps_slots op t t' (w_db w)); [done| |apply surjective_pairing].
  intros i cooldown capacity k ->. destruct c; simpl in *; discriminate.
Qed.

Lemma run_keeps_slots {A} (p : prog lcall A) w :
  avoids p -> slots_ok (w_db w) -> slots_ok (w_db (snd (run h p w))).
Proof.
  intros Hp. apply (run_keeps_trace h (fun e => creating (ev_call e) = false) (fun w => slots_ok (w_db w))).
  - intros R c w' Hc. by apply controller_keeps_slots.
  - exact (always_run h p w _ Hp).
Qed.

(** A program that writes nothing to the database. *)
Definition reads_db {A} (p : M A) : Prop :=
  always p (fun tr _ => Forall (fun e => store_op (ev_call e) = None) tr).

Lemma run_reads_db {A} (p : M A) w : reads_db p -> w_db (snd (run h p w)) = w_db w.
Proof.
  intros Hp. apply (run_keeps_trace h (fun e => store_op (ev_call e) = None) (fun w' => w_db w' = w_db w)); [| |done].
  - intros R c w' Hc Hw. cbn [ev_type ev_call] in Hc. destruct (controller_db c w') as (t & t' & ->). by rewrite Hc.
  - exact (always_run h p w _ Hp).
Qed.

Lemma effect_of_writes {R} (c : lcall R) r : effect_of c r = None -> store_op c = None.
Proof. by destruct c. Qed.

Lemma quiet_reads_db {A} (p : M A) : LifecycleOrder.quiet p -> reads_db p.
Proof.
  apply always_mono. intros tr _ Htr. induction tr as [|e tr IH]; [constructor|].
  unfold effects in Htr. simpl in Htr. destruct (effect_of (ev_call e) (ev_reply e)) eqn:He; [done|].
  constructor; [by eapply effect_of_writes|]. by apply IH.
Qed.
Lemma ask_reads_db {A Y} (c : lcall (result Y A)) f : store_op c = None -> reads_db (ask c f : M A).
Proof. intros Hc r. by repeat constructor. Qed.
Lemma attempt_reads_db {A Y} (c : lcall (result Y A)) : store_op c = None -> reads_db (attempt c : M (result Y A)).
Proof. intros Hc r. by repeat constructor. Qed.

(** *** Addresses of an owned slot *)

Lemma allocated_in_slot (view : AddressView) subnet s k a :
  wf_slots s -> wf_prefix subnet -> 0 <= k -> allocate_address view subnet s k = Ok a ->
  slot_of_address (addr_to_string a) (prefix_shift (slot_bits s)) = Some k /\ contains subnet a = true.
Proof.
  intros Hs Hp Hk Ha. pose proof Ha as Hrun. unfold allocate_address in Hrun.
  apply bind_Ok in Hrun as (u & H24%require_slash_24_Ok & Hrun).
  apply bind_Ok in Hrun as ([lo hi] & Has & Hrun). apply bind_Ok in Hrun as (used & Hused & Hrun).
  assert (Hu : is_u32 a).
  { destruct (find_first _ _) as [o|]; [|done]. injection Hrun as <-. apply u32_add_range. }
  apply assignable_Ok in Has as (Hcount & _); [|done|done]. apply map_err_Ok in Hused.
  assert (Hn : wf_subnet subnet) by (split; [apply Hp|done]).
  pose proof (allocate_address_outcome view subnet s k used Hs Hn (conj Hk Hcount) Hused) as Hout.
  rewrite Ha in Hout. destruct Hout as (_ & Hc & Hslot & _). split; [|done].
  by apply (slot_of_text s subnet a k).
Qed.

(** What a slot search that succeeds has found. *)
Lemma try_slots_found subnet s owned w a k w' :
  run h (try_slots subnet s owned) w = (Ok (a, k), w') ->
  k ∈ owned /\ exists view : AddressView, allocate_address view subnet s k = Ok a.
Proof.
  revert w. induction owned as [|slot owned IH]; intros w; cbn [try_slots]; [done|]. case_match; [done|].
  change (prog_bind _ _ ?f ?p) with (p ≫= f). rewrite run_bind. unfold allocate_address_view.
  destruct (_ ← require_slash_24 subnet; assignable s slot) as [bounds|e]; cbn [run].
  - destruct (h AddressView SInstances w) as [view w1]. cbn [run].
    destruct (allocate_address view subnet s slot) as [a'|[]] eqn:Ha; try done.
    + intros [= <- <- <-]. split; [set_solver|by exists view].
    + intros Hrun%IH. set_solver.
  - destruct e; try done. intros Hrun%IH. set_solver.
Qed.

Lemma slots_read d l d' : slots d = (Ok l, d') -> Forall (fun s => 0 <= s_slot s) l.
Proof.
  unfold slots, query, lift_res, mbind, ST_bind. intros [= Hs _]. apply Forall_forall. intros s Hin.
  apply (mapM_Ok_elem _ _ _ _ Hs) in Hin as ([k r] & _ & Hscan). unfold scan_slot, from_sql_int in Hscan.
  result_inv. subst s. cbn [fst s_slot] in *. destruct (Z.ltb_spec k 0); [done|]. by injection Hv as <-.
Qed.

Lemma run_store {A B} (c : lcall (result DynError A)) (f : DynError -> Error) (m : Tx A) (k : A -> M B) w r w' :
  (forall t t', lifecycle_store local c t t' = Some (on_store m)) -> reads_only m ->
  run h (ask c f ≫= k) w = (Ok r, w') ->
  exists a w1, fst (m (w_db w)) = Ok a /\ w_db w1 = w_db w /\ run h (k a) w1 = (Ok r, w').
Proof.
  intros Hc Hm. rewrite run_M_bind. unfold ask. cbn [run]. unfold controller. rewrite Hc. unfold on_store.
  pose proof (Hm (w_db w)) as Hd. destruct (m (w_db w)) as [[a|e] d']; cbn [map_err run]; [|done].
  simpl in Hd. subst d'. intros Hrun. eexists a, _. split; [done|]. split; [|exact Hrun]. done.
Qed.

Lemma allocate_found host subnet w a k w' :
  wf_prefix subnet -> run h (allocate_in_owned_slot host subnet) w = (Ok (a, k), w') ->
  slot_of_address (addr_to_string a) (prefix_shift (deployment_prefix (w_db w))) = Some k /\
  contains subnet a = true.
Proof.
  intros Hp Hrun. unfold allocate_in_owned_slot in Hrun.
  apply (run_store SDeployment Caused deployment) in Hrun as (dep & w1 & [= <-] & Hdb1 & Hrun); [|done|done].
  rewrite run_M_bind in Hrun. cbn [run pure_res runner_prefix] in Hrun.
  destruct (Slots_new _) as [s|e] eqn:Hs; [|done]. apply Slots_new_Ok in Hs as [-> Hwf]. cbn [map_err] in Hrun.
  apply (run_store SSlots Caused slots) in Hrun as (all & w2 & Hall & Hdb2 & Hrun);
    [|done|unfold slots; ro_steps].
  assert (Hpos : Forall (fun s => 0 <= s_slot s) all).
  { eapply (slots_read (w_db w1)). rewrite <- Hall. apply surjective_pairing. }
  destruct (sort_by Z.ltb _) as [|k0 owned] eqn:Ho; [done|]. rewrite <- Ho in Hrun.
  apply try_slots_found in Hrun as [Hin [view Ha]].
  apply elem_of_sort_by, list_elem_of_fmap in Hin as (sl & -> & [_ Hin]%list_elem_of_filter).
  rewrite Forall_forall in Hpos. specialize (Hpos sl Hin).
  by apply allocated_in_slot in Ha.
Qed.

(** *** A new row *)

Definition post {A} (p : M A) (w : World X) (Q : result Error A -> World X -> Prop) : Prop :=
  Q (fst (run h p w)) (snd (run h p w)).

Lemma post_reads {A B} (p : M A) (f : A -> M B) w Q :
  reads_db p ->
  (forall a w', run h p w = (Ok a, w') -> w_db w' = w_db w -> post (f a) w' Q) ->
  (forall e w', w_db w' = w_db w -> Q (Err e) w') -> post (p ≫= f) w Q.
Proof.
  intros Hq Hok Herr. unfold post. rewrite run_M_bind. pose proof (run_reads_db p w Hq) as Hdb.
  destruct (run h p w) as [[a|e] w']; simpl in *; [by apply Hok|by apply Herr].
Qed.

(** The instance [i] of [owner] is in the database, on the machine the answer
    names, with the address the answer names, which lies in the owner's
    subnet. *)
Definition placed (owner : User) (i : Instance) (d : Db) : Prop :=
  exists subnet a k, parse_prefix (u_subnet owner) = Some subnet /\ i_address i = addr_to_string a /\
    contains subnet a = true /\ places d !! i_uuid i = Some (i_host_id i, i_address i, Some k).

(** What the part after the insertion does when it succeeds. *)
Definition calm (i : Instance) (p : M Instance) : Prop :=
  always p (fun tr r => match r with
    | Ok i' => (exists state, i' = with_observed i state) /\
        Forall (fun e => match store_op (ev_call e) with Some op => ordinary op = true | None => True end) tr
    | Err _ => True
    end).

Lemma build_calm request subnet address kind i : calm i (build self request subnet address kind i).
Proof.
  unfold calm, build. case_match; [|intros r; exact I]. case_match; [|intros r; exact I].
  intros [state|e]; [|intros r; exact I]. intros r. split; [by eexists|]. by repeat constructor.
Qed.

Lemma build_copy_calm source_uuid source request subnet address kind i :
  calm i (build_copy self source_uuid source request subnet address kind i).
Proof.
  assert (Hu : forall cause, calm i (unwind_copy self i cause)) by (intros cause r1 r2 r3; exact I).
  unfold calm, build_copy. intros [[]|e]; [|intros ???; exact I].
  destruct (i_disk_gib source <? nr_disk_gib request); [intros [[]|e]; [|intros ???; exact I]|].
  all: destruct (GuestNetwork_new _ _ _); [|intros ???; exact I].
  all: intros [[]|e]; [|intros ???; exact I].
  all: destruct (manager_domain_xml _ _ _ _); [|intros ???; exact I].
  all: intros [[]|e]; [|intros ???; exact I].
  all: intros r; split; [by eexists|]; by repeat constructor.
Qed.

Lemma calm_keeps_places i p w i' w' :
  calm i p -> run h p w = (Ok i', w') -> (exists state, i' = with_observed i state) /\ places (w_db w') = places (w_db w).
Proof.
  intros Hp Hrun. pose proof (always_run h p w _ Hp) as Ht. rewrite Hrun in Ht. simpl in Ht.
  destruct Ht as [Hi Ht]. split; [done|]. replace w' with (snd (run h p w)) by (by rewrite Hrun).
  apply (run_keeps_trace h _ (fun w1 => places (w_db w1) = places (w_db w)) _ _) with (2 := Ht); [|done].
  intros R c w1 Hc Hw. cbn [ev_type ev_call] in Hc. destruct (controller_db c w1) as (t & t' & ->).
  destruct (store_op c) as [op|]; [|done]. destruct (exec_still op t t' Hc (w_db w1)) as [_ (Hp1 & _)]. congruence.
Qed.

(** The insertion of an instance whose address lies in its slot, and what
    follows. *)
Lemma insertion_keeps_slots owner subnet a k i capacity (f : unit -> M Instance) w :
  parse_prefix (u_subnet owner) = Some subnet -> contains subnet a = true -> i_address i = addr_to_string a ->
  i_slot i = Some k ->
  slot_of_address (i_address i) (prefix_shift (deployment_prefix (w_db w))) = Some k ->
  calm i (f tt) -> avoids (f tt) -> slots_ok (w_db w) ->
  post (dep (SCreate i (cooldown self) capacity) ≫= f) w (fun r w' =>
    slots_ok (w_db w') /\ forall i', r = Ok i' -> placed owner i' (w_db w')).
Proof.
  intros Hsub Hc Ha Hk Hslot Hcalm Hav Hok. unfold post. rewrite run_M_bind. unfold dep, ask. cbn [run].
  set (t := clock (2 * w_calls w)). set (t' := clock (2 * w_calls w + 1)).
  change (h _ (SCreate i (cooldown self) capacity) w) with
    (let '(r, d') := on_store (create_instance i (cooldown self) capacity t t') (w_db w) in
     (r, mkWorld d' (S (w_calls w)) (w_outside w))).
  unfold on_store.
  destruct (create_instance i (cooldown self) capacity t t' (w_db w)) as [[[]|e] d'] eqn:Hcr; cbn [map_err run].
  2: { simpl. split; [|done]. apply with_tx_Err in Hcr as ->. exact Hok. }
  set (w1 := mkWorld d' _ _).
  assert (Hok1 : slots_ok (w_db w1)).
  { apply (exec_keeps_slots (CreateInstance i (cooldown self) capacity) t t' (w_db w) d' (Ok Finished)); [done| |].
    - intros i1 c1 cap1 k1 [= <- <- <-] Hk1. congruence.
    - cbn [exec]. unfold finish, mbind, ST_bind. by rewrite Hcr. }
  split; [by apply run_keeps_slots|]. intros i' Hi'.
  assert (Hrun : run h (f tt) w1 = (Ok i', snd (run h (f tt) w1))).
  { rewrite (surjective_pairing (run h (f tt) w1)) at 1. by f_equal. }
  apply calm_keeps_places with (1 := Hcalm) in Hrun as [[state ->] Hpl].
  exists subnet, a, k. split; [done|]. split; [exact Ha|]. split; [done|]. rewrite Hpl.
  apply create_instance_Ok in Hcr as (text & _ & _ & _ & _ & _ & _ & _ & ->).
  unfold places. cbn. rewrite lookup_fmap, lookup_insert_eq. cbn. by rewrite Hk.
Qed.

Lemma post_throw {A} e w (Q : result Error A -> World X -> Prop) : Q (Err e) w -> post (throw e) w Q.
Proof. done. Qed.

(** [post_read x] goes past a part that only reads. *)
Tactic Notation "post_read" ident(x) :=
  let w1 := fresh "w" in let Hrun := fresh "Hrun" in let Hdb := fresh "Hdb" in
  apply post_reads; [solve [apply ask_reads_db; done | apply attempt_reads_db; done
    | apply quiet_reads_db; eauto with bento_er nocore
    | apply quiet_reads_db; unfold dep, told; quiet_steps]|intros x w1 Hrun Hdb|intros; match goal with Hf : _ |- _ => apply Hf; congruence end].

(** A row that is created or copied has an address of the slot it names. *)
Definition truly_placed (owner : User) (r : result Error Instance) (w : World X) : Prop :=
  slots_ok (w_db w) /\ forall i, r = Ok i -> placed owner i (w_db w).

Lemma not_placed owner (w w' : World X) e : slots_ok (w_db w) -> w_db w' = w_db w -> truly_placed owner (Err e) w'.
Proof. intros Hok Hw. split; [by rewrite Hw|done]. Qed.

(** The insertion at the end of [create] and of [copy]: the address came out
    of the slot search, and the database has not changed since. *)
Lemma fresh_row_run request host image_name checksum subnet uuid now capacity a k (f : Instance -> M Instance) w0 w1 w :
  owner_subnet (nr_owner request) = Ok subnet ->
  run h (allocate_in_owned_slot host subnet) w0 = (Ok (a, k), w1) -> w_db w = w_db w0 ->
  (forall i, calm i (f i)) -> (forall i, avoids (f i)) -> slots_ok (w_db w) ->
  let i := new_instance sha256 uuid request host image_name checksum a k now in
  post (dep (SCreate i (cooldown self) capacity) ≫= fun _ => f i) w (truly_placed (nr_owner request)).
Proof.
  intros Hsub Hrun Hdb Hcalm Hav Hok i. unfold owner_subnet in Hsub. apply ok_or_Ok in Hsub.
  apply allocate_found in Hrun as [Hslot Hc]; [|by eapply parse_prefix_wf]. rewrite <- Hdb in Hslot.
  by apply (insertion_keeps_slots (nr_owner request) subnet a k i capacity (fun _ => f i)).
Qed.

Lemma create_run request w :
  slots_ok (w_db w) -> post (create sha256 self request) w (truly_placed (nr_owner request)).
Proof.
  intros Hok. pose proof (fun e w' => not_placed (nr_owner request) w w' e Hok) as Hfail. unfold create.
  do 3 (case_match; [by apply post_throw, Hfail|]).
  post_read nested. post_read image. destruct (img_current_checksum image) as [[|c s]|];
    [apply post_throw, Hfail; congruence| |apply post_throw, Hfail; congruence].
  post_read missing. destruct (negb (bool_decide (missing = []))); [apply post_throw, Hfail; congruence|].
  post_read version. apply post_reads; [constructor|intros subnet w4 Hsub Hdb4|intros; apply Hfail; congruence].
  post_read chosen. post_read found. destruct found as [a k]. post_read uuid. post_read now. post_read capacity.
  injection Hsub as Hsub <-.
  apply (fresh_row_run request chosen (nr_image_name request) (String c s) subnet uuid now capacity a k
    (build self request subnet a (iv_kind version)) w5 w6); try congruence.
  - intros i. apply build_calm.
  - intros i. apply build_avoids.
  - by replace (w_db w9) with (w_db w) by congruence.
Qed.

Lemma copy_run source_uuid request w :
  slots_ok (w_db w) -> post (copy sha256 self source_uuid request) w (truly_placed (nr_owner request)).
Proof.
  intros Hok. pose proof (fun e w' => not_placed (nr_owner request) w w' e Hok) as Hfail. unfold copy.
  post_read source. post_read version.
  destruct (bool_decide _); [apply post_throw, Hfail; congruence|].
  destruct (_ || _ || _); [apply post_throw, Hfail; congruence|].
  destruct (_ <? _); [apply post_throw, Hfail; congruence|].
  post_read nested. destruct (_ || _); [apply post_throw, Hfail; congruence|].
  post_read state.
  destruct state as [[]|[]]; try (apply post_throw, Hfail; congruence).
  all: apply post_reads; [constructor|intros subnet w4 Hsub Hdb4|intros; apply Hfail; congruence].
  all: post_read found; destruct found as [a k]; post_read capacity; post_read uuid; post_read now.
  all: injection Hsub as Hsub <-.
  all: apply (fresh_row_run request (nr_host_id request) (i_image_name source) (i_base_checksum source) subnet uuid now
      capacity a k (build_copy self source_uuid source request subnet a (iv_kind version)) w3 w5); try congruence.
  all: lazymatch goal with
    | |- forall i, calm i _ => intros i; apply build_copy_calm
    | |- forall i, avoids _ => intros i; apply build_copy_avoids
    | |- _ => by replace (w_db w8) with (w_db w) by congruence
    end.
Qed.

(** *** Whole sequences of operations *)

Definition run_one (op : Operation) (w : World X) : World X := snd (run h (perform sha256 self op) w).
Definition run_all (ops : list Operation) (w : World X) : World X := fold_left (fun w op => run_one op w) ops w.

Lemma run_one_keeps_slots op w : slots_ok (w_db w) -> slots_ok (w_db (run_one op w)).
Proof.
  intros Hok. unfold run_one. destruct (inserts op) eqn:Hop.
  2: { by apply run_keeps_slots; [apply perform_avoids|]. }
  destruct op; try discriminate Hop; cbn [perform]; rewrite run_M_bind.
  - pose proof (create_run request w Hok) as [Hs _]. revert Hs. destruct (run h _ w) as [[i|e] w']; done.
  - pose proof (copy_run source_uuid request w Hok) as [Hs _]. revert Hs. destruct (run h _ w) as [[i|e] w']; done.
Qed.

Lemma run_one_keeps_wf op w : wf_db (w_db w) -> wf_db (w_db (run_one op w)).
Proof. apply (run_keeps h (fun w => wf_db (w_db w))). intros R c w'. apply controller_keeps_wf. Qed.

(** C13.  A controller keeps the promise the addresses make.  Whatever
    sequence of lifecycle operations it performs on the database, whatever
    the machines, the files and the clock answer, and whichever operations
    fail half way: the database stays well formed, every instance with a slot
    is on the machine that owns the slot, and its address lies in that slot.
    No operation is trusted to pass a right address: the addresses [create]
    and [copy] insert are the ones their slot search found. *)
Theorem controller_keeps_placement (ops : list Operation) (w : World X)
    (Hwf : wf_db (w_db w)) (Hslots : slots_ok (w_db w)) :
  wf_db (w_db (run_all ops w)) /\ slots_ok (w_db (run_all ops w)).
Proof.
  revert w Hwf Hslots. induction ops as [|op ops IH]; intros w Hwf Hslots; [done|].
  apply (IH (run_one op w)); [by apply run_one_keeps_wf|by apply run_one_keeps_slots].
Qed.

(**  What a successful create answers is in the database: a row on the
    machine the answer names, which owns the row's slot, with the address the
    answer names, which lies in that slot and in the owner's subnet. *)
Theorem create_is_placed (request : NewRequest) (w w' : World X) (i : Instance)
    (Hslots : slots_ok (w_db w))
    (Hrun : run (controller local clock outside) (create sha256 self request) w = (Ok i, w')) :
  exists subnet a k,
    parse_prefix (u_subnet (nr_owner request)) = Some subnet /\ i_address i = addr_to_string a /\
    contains subnet a = true /\
    places (w_db w') !! i_uuid i = Some (i_host_id i, i_address i, Some k) /\
    sr_owner <$> runner_slots (w_db w') !! k = Some (i_host_id i) /\
    slot_of_address (i_address i) (prefix_shift (deployment_prefix (w_db w'))) = Some k.
Proof.
  pose proof (create_run request w Hslots) as Hpost. unfold post in Hpost. rewrite Hrun in Hpost.
  destruct Hpost as [Hok Hp]. destruct (Hp i eq_refl) as (subnet & a & k & Hsub & Ha & Hc & Hpl).
  destruct (Hok _ _ _ _ Hpl) as [Ho Hs]. by exists subnet, a, k.
Qed.
End Runs.

(** ** A deployment in small *)

#[local] Existing Instance decimal_time.

(** Machines that do what they are told. *)
Definition obedient : handler lcall unit := fun R c x =>
  (match c in lcall R return R with
   | SCreate _ _ _ | SRename _ _ _ | SCheckResize _ _ _ _ | SResize _ _ _ _ _ _ | SDesired _ _ | SObserved _ _
   | SObservedAll _ | FDeprovision _ _ | FResizeDisk _ _ _ | IsoBuild _ _ | IsoDelete _ | ResizeOverlay _ _
   | RemoveFile _ | CopyFile _ _ => Ok tt
   | SDelete _ | SInstance _ => Err (DynOther "not here")
   | SInstances | SOnHost _ | SToRestore _ => Ok []
   | SImage _ => Err (DynOther "not here")
   | SImageVersion _ => Err (DynOther "not here")
   | SHostsMissing _ _ => Ok []
   | SCapacity _ => Err (DynOther "not here")
   | SChooseHost _ | SPlaceable => Ok 0
   | SDeployment => Err (DynOther "not here")
   | SSlots => Ok []
   | SUser _ => Err (DynOther "not here")
   | FProvision _ | FRedefine _ => Ok Running
   | FHypervisor _ => true
   | HCreate _ | HStart _ _ | HReboot _ _ | HRemove _ _ | HDefine _ | HClearAutostart _ => Ok tt
   | HStop _ _ => Ok Graceful
   | HList => Ok []
   | HState _ _ => Ok Stopped
   | IsoExists _ => false
   | NestedProbe => (true, ""%string)
   | NewUuid => "8f14e45f-ceea-467f-a9d2-1c5e8a1b7c3d"%string
   | Now => 9
   | SleepFor _ => tt
   end, x).

Definition ready_db : Db :=
  snd (record_host_image 1 "debian" "abc" 9 (snd (set_current_checksum "debian" "abc" small_db))).
Definition ann : User := mkUser 1 "ann" "ann@example.org" None "10.100.0.0/24" 5.
Definition small_request : NewRequest :=
  mkNewRequest "web" ann 1 ["ssh-ed25519 AAAA"%string] "debian" 2 1024 20 false false 80.
Definition small_manager : Manager :=
  mkManager true true 1 (mkPlan (mkPrefix 174325760 16)) "/var/lib/bento" 0 4 ["1.1.1.1"%string]
    DEFAULT_POLL_INTERVAL DEFAULT_START_POLL_INTERVAL DEFAULT_START_TIMEOUT "x86_64".
Definition small_local : LocalCapacity := mkLocalCapacity 1 (limited 4096 100) (of_int 1).
Definition small_sha : string -> list Z := fun _ => replicate 32 7.
Definition ready_world : World unit := mkWorld ready_db 0 tt.
Definition small_controller : handler lcall (World unit) := controller small_local (fun n => 10 + Z.of_nat n) obedient.
Definition created : result Error Instance * World unit :=
  run small_controller (create small_sha small_manager small_request) ready_world.

Lemma ready_world_ok : wf_db (w_db ready_world) /\ slots_ok (w_db ready_world).
Proof.
  split.
  - unfold ready_world, ready_db. cbn [w_db].
    apply record_host_image_keeps_wf, set_current_checksum_keeps_wf, wf_small_db.
  - apply slots_ok_iff. split; [apply slots_owned_check|apply slots_true_check]; vm_compute; reflexivity.
Qed.

Lemma create_is_placed_witness :
  exists i, fst created = Ok i /\ i_address i = "10.100.0.2"%string /\
    exists k, sr_owner <$> runner_slots (w_db (snd created)) !! k = Some (i_host_id i).
Proof.
  destruct (fst created) as [i|e] eqn:Hf; [|vm_compute in Hf; discriminate Hf].
  exists i. split; [reflexivity|]. split.
  - revert Hf. vm_compute. intros [= <-]. reflexivity.
  - destruct (create_is_placed small_local (fun n => 10 + Z.of_nat n) obedient small_sha small_manager small_request
      ready_world (snd created) i (proj2 ready_world_ok)) as (subnet & a & k & _ & _ & _ & _ & Ho & _).
    + change (created = (Ok i, snd created)). rewrite <- Hf. apply surjective_pairing.
    + exists k. exact Ho.
Defined.

Lemma controller_keeps_placement_witness :
  let ops := [OCreate small_request; ORename "8f14e45f-ceea-467f-a9d2-1c5e8a1b7c3d" "api"; ORestore; OPoll] in
  let w := run_all small_local (fun n => 10 + Z.of_nat n) obedient small_sha small_manager ops ready_world in
  (in_name <$> instances (w_db w) !! "8f14e45f-ceea-467f-a9d2-1c5e8a1b7c3d"%string) = Some "api"%string /\
  wf_db (w_db w) /\ slots_ok (w_db w).
Proof.
  split; [vm_compute; reflexivity|].
  apply (controller_keeps_placement small_local (fun n => 10 + Z.of_nat n) obedient small_sha small_manager).
  - apply ready_world_ok.
  - apply ready_world_ok.
Defined.

(** The controller's own machine is being drained; the other machine takes
    instances. *)
Definition drained_db : Db :=
  snd (record_host_image 2 "debian" "abc" 9
    (set_hosts (<[1 := mkHostRow (Some "m1") "node" "qemu:///system" None None true "draining" "5"]>)
      (snd (claim_slot 1 2 (snd (register_runner "m2" "http://m2" "eth0" 9 (snd (set_runner_prefix 25 ready_db)))))))).
Definition drained_run : result Error Instance * World unit :=
  run small_controller (create small_sha small_manager small_request) (mkWorld drained_db 0 tt).

(** A machine that is being drained still gets new instances when only
    one other machine takes them.  With the controller's own machine
    draining and the second machine the only one that can take an instance,
    [place] does not look for that machine: it answers the controller's own,
    and the create succeeds there. *)
Theorem drained_machine_gets_instance :
  fst (placeable_hosts drained_db) = Ok 1 /\
  (hr_placement <$> hosts drained_db !! 1) = Some "draining"%string /\
  (hr_placement <$> hosts drained_db !! 2) = Some "active"%string /\
  (sr_owner <$> runner_slots drained_db !! 1) = Some 2 /\
  exists i, fst drained_run = Ok i /\ i_host_id i = 1.
Proof.
  do 4 (split; [vm_compute; reflexivity|]).
  destruct (fst drained_run) as [i|e] eqn:Hf; [|vm_compute in Hf; discriminate Hf].
  exists i. split; [reflexivity|]. revert Hf. vm_compute. intros [= <-]. reflexivity.
Qed.
