(* ===== verification/Dispatch.v ===== *)
(** * Dispatch: [bentod/src/runners.rs], [crates/runner/src/client.rs]

    How the controller speaks to the runners: [ImageSync], [NetworkSync],
    [InstanceSync], [RunnerSampler], [RunnerHypervisor] and the poll.  Each
    async function is a program over the calls of [dcall]: the shared store,
    the lease this process holds, the clock, fresh UUIDs, the two caches of
    [NetworkSync], and the HTTP client.  The JSON encoder and SHA-256 are
    parameters.  Log lines are left out; a formatted message is kept as the
    data it formats. *)

From Stdlib Require Import ZArith Lia Ascii.
From S2P Require Import Prelude Text Float64 Ipv4 Network Machine Firewall Netstate Fence Db Instances Accounts Runners Images Prog Lifecycle Types.
Open Scope Z_scope.

(** ** The client: [client.rs] *)

Inductive ClientError : Type :=
  | Transport (cause : string)
  | ClientRefused (refusal : Refusal)
  | UnexpectedStatus (status : Z) (body : string)
  | InvalidBody (status : Z).

(** [Refusal]'s [Display]. *)
Definition refusal_text (r : Refusal) : string :=
  match r with
  | ProtocolVersion yours theirs =>
      "runner speaks protocol " +:+ dec theirs +:+ ", the request is protocol " +:+ dec yours
  | WrongMachine yours theirs =>
      "this runner is machine " +:+ theirs +:+ ", the request is addressed to machine " +:+ yours
  | UnaddressedChange => "a change must name the machine it is meant for"
  | UnfencedChange => "a change must name the object it changes"
  | StaleGeneration object_id yours theirs =>
      "generation " +:+ dec_signed yours +:+ " for " +:+ object_id +:+ " is older than the accepted generation " +:+
      dec_signed theirs
  | GenerationConflict object_id generation =>
      "generation " +:+ dec_signed generation +:+ " for " +:+ object_id +:+ " was already accepted wanting something else"
  | StaleEpoch yours theirs =>
      "epoch " +:+ dec_signed yours +:+ " is older than the accepted epoch " +:+ dec_signed theirs
  | LeaseExpired at_ => "the controller lease expired at " +:+ at_
  | ClockUntrusted skew =>
      "the runner clock is " +:+ dec_signed skew +:+ "s from the controller's; it cannot judge the lease"
  end.

(** [ClientError]'s [Display]; a status prints with its reason. *)
Definition client_error_text (status_text : Z -> string) (e : ClientError) : string :=
  match e with
  | Transport _ => "runner transport"
  | ClientRefused r => "runner refused the request: " +:+ refusal_text r
  | UnexpectedStatus status body => "runner answered HTTP " +:+ status_text status +:+ ": " +:+ body
  | InvalidBody status => "runner answered invalid JSON with HTTP " +:+ status_text status
  end.

(** What the two ends of the wire agree on: the JSON of a reply and of a
    refusal can be read back. *)
Class Wire : Type := {
  reply_json : Fence.Reply -> result string string;
  refusal_json : Refusal -> result string string;
  reply_of_json : string -> option Fence.Reply;
  refusal_of_json : string -> option Refusal;
  reply_read_back : forall r s, reply_json r = Ok s -> reply_of_json s = Some r;
  refusal_read_back : forall r s, refusal_json r = Ok s -> refusal_of_json s = Some r
}.

Section Client.
Context `{Wire}.

(** [decode_response]. *)
Definition decode_response (status : Z) (body : string) : result ClientError Fence.Reply :=
  if status =? 409 then
    match refusal_of_json body with
    | Some refusal => Err (ClientRefused refusal)
    | None => Err (InvalidBody status)
    end
  else if negb (status =? 200) then Err (UnexpectedStatus status body)
  else match reply_of_json body with Some reply => Ok reply | None => Err (InvalidBody status) end.

(** The answer of [rpc] in [server.rs] to an envelope it could read; a body
    that cannot be written is axum's 500. *)
Definition rpc (error_json : string -> string) (outcome : result string Outcome) : Z * string :=
  let as_json (status : Z) (body : result string string) :=
    match body with Ok body => (status, body) | Err m => (500, m) end in
  match outcome with
  | Ok (Done reply) => as_json 200 (reply_json reply)
  | Ok (Replayed recorded) => (200, recorded)
  | Ok (OutRefused refusal) => as_json 409 (refusal_json refusal)
  | Err error => (500, error_json error)
  end.
End Client.

(** ** The calls *)

Inductive dcall : Type -> Type :=
  (** [bento_store::Store]. *)
  | DDeployment : dcall (result StoreError Deployment)
  | DHosts : dcall (result StoreError (list Host))
  | DHost (id : Z) : dcall (result StoreError Host)
  | DSlots : dcall (result StoreError (list Slot))
  | DInstances : dcall (result StoreError (list Instance))
  | DUsers : dcall (result StoreError (list User))
  | DImages : dcall (result StoreError (list Image))
  | DHostImages (host_id : Z) : dcall (result StoreError (list (string * string)))
  | DRecordHostImage (host_id : Z) (name checksum : string) : dcall (result StoreError unit)
  | DNextGeneration (object_id : string) (epoch : Z) : dcall (result StoreError Z)
  | DStoreLease : dcall (result StoreError (option Lease))
  | DOnHost (host_id : Z) : dcall (result StoreError (list Instance))
  | DUpdateStates (states : list (string * State)) : dcall (result StoreError unit)
  | DObservation (host_id : Z) : dcall (result StoreError (option Observation))
  | DObserve (host_id : Z) (seen : HostSeen) : dcall (result StoreError HostHealth)
  (** [lease.borrow().clone()], the clock and [random_uuid]. *)
  | DBorrow : dcall Lease
  | DNow : dcall Z
  | DUuid : dcall string
  (** [applied] and [boots], the maps of [NetworkSync] behind their mutexes. *)
  | DAppliedGet (host_id : Z) : dcall (option string)
  | DAppliedInsert (host_id : Z) (digest : string) : dcall unit
  | DAppliedRemove (host_id : Z) : dcall unit
  | DBootInsert (host_id : Z) (boot_id : string) : dcall (option string)
  (** [tokio::time::timeout(t, client.call(endpoint, envelope))]: [None] is
      the timeout. *)
  | DSend (timeout : Z) (endpoint : string) (envelope : Envelope) : dcall (option (result string Fence.Reply)).

(** What the dispatch reports: an [anyhow] error by the message it carries. *)
Inductive DispatchError : Type :=
  | RunnerUnidentified (runner : string)
  | MachineUnidentified (machine : string)
  | NoEndpoint (machine : string)
  | NoLease
  | DispatchStore (e : StoreError)
  | DispatchNetwork (e : NetError)
  | DispatchJson (message : string)
  | DispatchRunner (message : string)
  | OddAnswer (reply : Fence.Reply) (request : string)
  | OtherImage (answered asked : string)
  | NotAnInstanceChange (op : Operation).

(** [anyhow::Result<A>] of an async function. *)
Definition D (A : Type) : Type := fallible dcall DispatchError A.
#[global] Instance D_ret : MRet D := fallible_ret.
#[global] Instance D_bind : MBind D := fallible_bind.

Definition of_store {A} (c : dcall (result StoreError A)) : D A := ask c DispatchStore.
Definition ok_or_throw {A} (o : option A) (e : DispatchError) : D A := pure_res (ok_or o e).

Definition INTERVAL : Z := 30 * nanos_per_sec.
Definition REQUEST_TIMEOUT : Z := 5 * nanos_per_sec.
Definition IMAGE_TIMEOUT : Z := 30 * 60 * nanos_per_sec.
Definition INSTANCE_TIMEOUT : Z := 5 * 60 * nanos_per_sec.
Definition READ_TIMEOUT : Z := 10 * nanos_per_sec.

(** [send]: the envelope of one request. *)
Definition envelope (host : Host) (lease : Lease) (op : Operation) (object : option ObjectFence)
    (sent_at : Z) (request_id : string) : Envelope :=
  mkEnvelope PROTOCOL_VERSION (h_machine_id host) (l_epoch lease) (l_holder_id lease) (l_expires_at lease)
    sent_at request_id object op.

Definition send (endpoint : string) (host : Host) (lease : Lease) (op : Operation) (object : option ObjectFence)
    (request_timeout : Z) : prog dcall (result string Fence.Reply) :=
  Call DNow (fun sent_at =>
  Call DUuid (fun request_id =>
  Call (DSend request_timeout endpoint (envelope host lease op object sent_at request_id)) (fun answer =>
  Ret match answer with
      | Some result => result
      | None => Err ("runner request timed out after " +:+ dec (Z.quot request_timeout nanos_per_sec) +:+ " seconds")
      end))).

(** [send(..).await.map_err(anyhow::Error::msg)?]. *)
Definition send_or_fail (endpoint : string) (host : Host) (lease : Lease) (op : Operation)
    (object : option ObjectFence) (request_timeout : Z) : D Fence.Reply :=
  prog_bind _ _ (fun r => Ret (map_err DispatchRunner r)) (send endpoint host lease op object request_timeout).

(** ** Numbered objects *)

(** [object_fence] of each of the three: the number comes from the database. *)
Definition numbered (object_id : string) (digest : string) (epoch : Z) : D ObjectFence :=
  generation ← of_store (DNextGeneration object_id epoch);
  mret (mkObjectFence object_id generation digest).

Section Dispatch.
Context (sha256 : string -> list Z).
Context (json_network : MachineNetwork -> result string string).
Context (json_provision : ProvisionRequest -> result string string).
Context (json_redefine : RedefineRequest -> result string string).
Context (json_operation : Operation -> result string string).

(** [digest_of]. *)
Definition digest_of (body : string) : string := "sha256-" +:+ hex_encode (sha256 body).

(** ** Images: [ImageSync] *)

(** [value.len().to_be_bytes()] of a 64-bit [usize]. *)
Definition be_byte (n i : Z) : ascii := ascii_of_code (Z.land (Z.shiftr n (8 * i)) 255).
Definition be_bytes (n : Z) : string :=
  foldr (fun i s => String (be_byte n i) s) EmptyString [7; 6; 5; 4; 3; 2; 1; 0].

(** [digest_field]: what the hasher is fed. *)
Definition digest_field (value : string) : string := be_bytes (str_len value) +:+ value.

Definition image_body (request : ImageRequest) : string :=
  digest_field (iq_name request) +:+ digest_field (iq_url request) +:+
  match iq_have request with
  | Some have => String (ascii_of_code 1) (digest_field have)
  | None => String (ascii_of_code 0) EmptyString
  end.

(** [ImageSync::object_fence]. *)
Definition image_object_fence (request : ImageRequest) (epoch : Z) : D ObjectFence :=
  numbered (iq_name request) (digest_of (image_body request)) epoch.

(** [preferred_version]. *)
Definition preferred_version (image : Image) (held : list (string * string)) : option string :=
  let named := match find_first (fun h => bool_decide (h.1 = img_name image)) held with
               | Some h => Some h.2 | None => None end in
  match img_current_checksum image with
  | Some current =>
      if existsb (fun h => bool_decide (h.1 = img_name image) && bool_decide (h.2 = current)) held
      then Some current else named
  | None => named
  end.

(** [ImageSync::ensure]; the answer is the checksum of the [HostImage]. *)
Definition ensure (host : Host) (image : Image) (have : option string) : D string :=
  if bool_decide (h_machine_id host = None) then throw (RunnerUnidentified (h_name host))
  else
    held ← of_store (DHostImages (h_id host));
    let request := mkImageRequest (img_name image) (img_url image) have in
    current ← get DBorrow;
    object ← image_object_fence request (l_epoch current);
    endpoint ← ok_or_throw (h_endpoint host) (NoEndpoint (h_name host));
    reply ← send_or_fail endpoint host current (EnsureImage request) (Some object) IMAGE_TIMEOUT;
    match reply with
    | ImageReady name checksum _ _ =>
        if negb (bool_decide (name = img_name image)) then throw (OtherImage name (img_name image))
        else
          _ ← of_store (DRecordHostImage (h_id host) name checksum);
          mret checksum
    | other => throw (OddAnswer other "an image request")
    end.

(** The loop of [ImageSync::sync_host]: a failure is logged. *)
Fixpoint ensure_all (host : Host) (held : list (string * string)) (images : list Image) : D unit :=
  match images with
  | [] => mret tt
  | image :: rest =>
      prog_bind _ _ (fun _ : result DispatchError string => ensure_all host held rest)
        (ensure host image (preferred_version image held))
  end.

Definition image_sync_host (host : Host) : D unit :=
  held ← of_store (DHostImages (h_id host));
  images ← of_store DImages;
  ensure_all host held images.

(** ** Networks: [NetworkSync] *)

(** [netstate::machine_network]: the five reads. *)
Definition machine_network (plan : Plan) (high_ports : PortRange) (host_id controller_host_id : Z) : D MachineNetwork :=
  deployment ← of_store DDeployment;
  hosts ← of_store DHosts;
  slots ← of_store DSlots;
  instances ← of_store DInstances;
  users ← of_store DUsers;
  mret (describe (mkFacts deployment hosts slots instances users) plan high_ports host_id controller_host_id).

(** The constants of a [NetworkSync]. *)
Record NetworkSync : Type := mkNetworkSync {
  ns_plan : Plan;
  ns_high_ports : PortRange;
  ns_controller_host_id : Z
}.

(** [NetworkSync::note_boot]. *)
Definition note_boot (host_id : Z) (boot_id : string) : D unit :=
  if bool_decide (boot_id = EmptyString) then mret tt
  else
    previous ← get (DBootInsert host_id boot_id);
    match previous with
    | Some previous => if bool_decide (previous = boot_id) then mret tt else get (DAppliedRemove host_id)
    | None => mret tt
    end.

(** [NetworkSync::object_fence]. *)
Definition network_object_fence (host_id : Z) (digest : string) (epoch : Z) : D ObjectFence :=
  numbered ("network:" +:+ dec_signed host_id) digest epoch.

(** [NetworkSync::sync_host]. *)
Definition network_sync_host (self : NetworkSync) (host : Host) : D unit :=
  if bool_decide (h_machine_id host = None) then throw (RunnerUnidentified (h_name host))
  else
    network ← machine_network (ns_plan self) (ns_high_ports self) (h_id host) (ns_controller_host_id self);
    _ ← pure_res (map_err DispatchNetwork (check network));
    body ← pure_res (map_err DispatchJson (json_network network));
    let digest := digest_of body in
    known ← get (DAppliedGet (h_id host));
    if bool_decide (known = Some digest) then mret tt
    else
      current ← get DBorrow;
      object ← network_object_fence (h_id host) digest (l_epoch current);
      endpoint ← ok_or_throw (h_endpoint host) (NoEndpoint (h_name host));
      reply ← send_or_fail endpoint host current (ApplyNetwork network) (Some object) REQUEST_TIMEOUT;
      match reply with
      | NetworkApplied _ _ _ _ => get (DAppliedInsert (h_id host) digest)
      | other => throw (OddAnswer other "a network request")
      end.

(** ** Instances: [InstanceSync] *)

Inductive LeaseSource : Type := Held | Current.

(** [LeaseSource::lease]. *)
Definition lease_of (source : LeaseSource) : D Lease :=
  match source with
  | Held => get DBorrow
  | Current => found ← of_store DStoreLease; ok_or_throw found NoLease
  end.

(** A change to one instance, once its lease is known: the common tail. *)
Definition dispatch (host : Host) (endpoint uuid : string) (current : Lease) (op : Operation)
    (body : result string string) : D Fence.Reply :=
  body ← pure_res (map_err DispatchJson body);
  object ← numbered uuid (digest_of body) (l_epoch current);
  send_or_fail endpoint host current op (Some object) INSTANCE_TIMEOUT.

(** [InstanceSync::provision]. *)
Definition provision_request (spec : ProvisionSpec) : ProvisionRequest :=
  let i := ps_instance spec in
  mkProvision (mkInstanceRef (i_uuid i) (i_name i)) (i_base_checksum i) (i_disk_gib i) (i_vcpu i)
    (i_memory_mib i) (i_nested i) (i_ksm i) (ps_network spec) (i_mac i) (ps_seed spec)
    (ps_with_seed_iso spec) (ps_start spec).

Definition sync_provision (source : LeaseSource) (host : Host) (spec : ProvisionSpec) : D State :=
  endpoint ← ok_or_throw (h_endpoint host) (NoEndpoint (h_name host));
  if bool_decide (h_machine_id host = None) then throw (MachineUnidentified (h_name host))
  else
    let request := provision_request spec in
    current ← lease_of source;
    reply ← dispatch host endpoint (i_uuid (ps_instance spec)) current (ProvisionInstance request)
              (json_provision request);
    match reply with
    | Provisioned state => mret state
    | other => throw (OddAnswer other "a provision request")
    end.

(** [InstanceSync::redefine]. *)
Definition sync_redefine (source : LeaseSource) (host : Host) (request : RedefineRequest) : D State :=
  endpoint ← ok_or_throw (h_endpoint host) (NoEndpoint (h_name host));
  current ← lease_of source;
  reply ← dispatch host endpoint (ir_uuid (rd_instance request)) current (RedefineInstance request)
            (json_redefine request);
  match reply with
  | Changed state => mret state
  | other => throw (OddAnswer other "a redefine request")
  end.

(** The instance a change names. *)
Definition changed_uuid (op : Operation) : option string :=
  match op with
  | StartInstance i | StopInstance i | RebootInstance i | RemoveInstance i | ResizeDisk i _ => Some (ir_uuid i)
  | _ => None
  end.

(** [InstanceSync::change]. *)
Definition sync_change (source : LeaseSource) (host : Host) (op : Operation) : D State :=
  endpoint ← ok_or_throw (h_endpoint host) (NoEndpoint (h_name host));
  uuid ← ok_or_throw (changed_uuid op) (NotAnInstanceChange op);
  current ← lease_of source;
  reply ← dispatch host endpoint uuid current op (json_operation op);
  match reply with
  | Changed state => mret state
  | other => throw (OddAnswer other "an instance change")
  end.

(** [InstanceSync::resize_disk]. *)
Definition sync_resize_disk (source : LeaseSource) (host : Host) (instance : InstanceRef) (disk_gib : Z) : D State :=
  sync_change source host (ResizeDisk instance disk_gib).

(** [InstanceSync::read]. *)
Definition sync_read (source : LeaseSource) (host : Host) (op : Operation) : D Fence.Reply :=
  endpoint ← ok_or_throw (h_endpoint host) (NoEndpoint (h_name host));
  current ← lease_of source;
  send_or_fail endpoint host current op None READ_TIMEOUT.

(** [RunnerSampler::sample]. *)
Definition sampler_sample (source : LeaseSource) (host : Host) : D Samples :=
  reply ← sync_read source host OpSample;
  match reply with
  | ReSamples samples => mret samples
  | other => throw (OddAnswer other "a sample request")
  end.

(** ** One machine's hypervisor: [RunnerHypervisor] *)

(** [bento_hypervisor::Error], as this adapter raises it. *)
Inductive RemoteError : Type :=
  | RemoteNotFound (name : string)
  | RemoteOperation (cause : DispatchError)
  | RemoteXml.

Definition R (A : Type) : Type := fallible dcall RemoteError A.
#[global] Instance R_ret : MRet R := fallible_ret.
#[global] Instance R_bind : MBind R := fallible_bind.

(** [.map_err(|error| Error::Operation(error.to_string()))?]. *)
Definition operation {A} (p : D A) : R A :=
  prog_bind _ _ (fun r => Ret (map_err RemoteOperation r)) p.

(** [RunnerHypervisor::list]. *)
Definition remote_list (source : LeaseSource) (host : Host) : R (list DomainInfo) :=
  reply ← operation (sync_read source host OpInventory);
  match reply with
  | ReInventory domains => mret ((fun d => mkDomainInfo (dm_name d) (dm_uuid d) (dm_state d)) <$> domains)
  | other => throw (RemoteOperation (OddAnswer other "an inventory request"))
  end.

(** [domains.into_iter().find(|domain| domain.name == name)]. *)
Definition domain_named (name : string) (domains : list DomainInfo) : option DomainInfo :=
  find_first (fun d => bool_decide (di_name d = name)) domains.

(** [RunnerHypervisor::act]. *)
Definition act (source : LeaseSource) (host : Host) (op : InstanceRef -> Operation) (name : string) : R State :=
  domains ← remote_list source host;
  domain ← pure_res (ok_or (domain_named name domains) (RemoteNotFound name));
  operation (sync_change source host (op (mkInstanceRef (di_uuid domain) name))).

Definition remote_create (source : LeaseSource) (host : Host) (xml : string) : R unit := throw RemoteXml.
Definition remote_start (source : LeaseSource) (host : Host) (name : string) : R unit :=
  _ ← act source host StartInstance name; mret tt.
Definition remote_stop (source : LeaseSource) (host : Host) (name : string) : R StopResult :=
  _ ← act source host StopInstance name; mret Graceful.
Definition remote_reboot (source : LeaseSource) (host : Host) (name : string) : R unit :=
  _ ← act source host RebootInstance name; mret tt.
Definition remote_remove (source : LeaseSource) (host : Host) (name : string) : R unit :=
  _ ← act source host RemoveInstance name; mret tt.
Definition remote_state (source : LeaseSource) (host : Host) (name : string) : R State :=
  domains ← remote_list source host;
  domain ← pure_res (ok_or (domain_named name domains) (RemoteNotFound name));
  mret (di_state domain).

(** ** The poll: [PollTask] *)

(** [format!("{reply:?}")]. *)
Context (reply_debug : Fence.Reply -> string).

(** [failed]: empty figures keep the last good ones. *)
Definition failed (error : string) : HostSeen :=
  mkHostSeen None 0 None None None None None None (Some error).

Record PolledHost : Type := mkPolledHost { ph_seen : HostSeen; ph_boot_id : string }.

(** [PolledHost::failed]. *)
Definition PolledHost_failed (error : string) : PolledHost := mkPolledHost (failed error) EmptyString.

Definition answered (reply : Fence.Reply) (request : string) : PolledHost :=
  PolledHost_failed ("runner answered " +:+ reply_debug reply +:+ " to " +:+ request).

(** [poll_host]. *)
Definition poll_host (endpoint : string) (host : Host) : prog dcall PolledHost :=
  current ← call DBorrow;
  health ← send endpoint host current OpHealth None REQUEST_TIMEOUT;
  match health with
  | Err error => mret (PolledHost_failed error)
  | Ok (ReHealth health) =>
      current ← call DBorrow;
      capabilities ← send endpoint host current OpCapabilities None REQUEST_TIMEOUT;
      match capabilities with
      | Err error => mret (PolledHost_failed error)
      | Ok (ReCapabilities c) =>
          mret (mkPolledHost
            (mkHostSeen (Some (hl_machine_id health)) (hl_accepted_epoch health) (Some (cp_arch c))
               (Some (cp_cpu_count c)) (Some (cp_memory_total_mib c)) (Some (cp_storage_total_gib c))
               (Some (cp_storage_available_gib c)) (Some (cp_hypervisor_version c)) None)
            (hl_boot_id health))
      | Ok reply => mret (answered reply "a capabilities request")
      end
  | Ok reply => mret (answered reply "a health request")
  end.

(** [inventory.domains.into_iter().map(..).collect()]. *)
Definition inventory_states (domains : list Domain) : gmap string State :=
  foldl (fun m d => <[dm_uuid d := dm_state d]> m) ∅ domains.

(** The loop of [observe_instances]: the rows whose state changed. *)
Definition changed_states (seen : gmap string State) (rows : list Instance) : gmap string State :=
  foldl (fun states i =>
    let state := default Stopped (seen !! i_uuid i) in
    if bool_decide (state = i_state i) then states else <[i_uuid i := state]> states) ∅ rows.

(** [observe_instances]. *)
Definition observe_instances (endpoint : string) (host : Host) : D nat :=
  rows ← of_store (DOnHost (h_id host));
  if bool_decide (rows = []) then mret 0%nat
  else
    current ← get DBorrow;
    reply ← send_or_fail endpoint host current OpInventory None REQUEST_TIMEOUT;
    match reply with
    | ReInventory domains =>
        let states := changed_states (inventory_states domains) rows in
        _ ← of_store (DUpdateStates (map_to_list states));
        mret (size states)
    | other => throw (OddAnswer other "an inventory request")
    end.

(** One task of [PollTask::tick]: a [bento_store::Error] stops it. *)
Definition P (A : Type) : Type := fallible dcall StoreError A.
#[local] Instance P_ret : MRet P := fallible_ret.
#[local] Instance P_bind : MBind P := fallible_bind.

Definition poll_task (local_host_id : option Z) (endpoint : string) (host : Host) : P (option (Host * string)) :=
  before ← (ask (DObservation (h_id host)) id : P (option Observation));
  polled ← (prog_bind _ _ (fun r => Ret (Ok r)) (poll_host endpoint host) : P PolledHost);
  let healthy := bool_decide (hs_error (ph_seen polled) = None) in
  after ← (ask (DObserve (h_id host) (ph_seen polled)) id : P HostHealth);
  _ ← (if healthy && negb (bool_decide (local_host_id = Some (h_id host)))
       then prog_bind _ _ (fun _ => Ret (Ok tt)) (observe_instances endpoint host) : P unit
       else mret tt);
  if healthy then
    row ← (ask (DHost (h_id host)) id : P Host);
    mret (Some (row, ph_boot_id polled))
  else mret None.

(** The tasks [PollTask::tick] spawns: the hosts with an endpoint. *)
Definition tick_tasks (local_host_id : option Z) (hosts : list Host) : list (P (option (Host * string))) :=
  omap (fun host => match h_endpoint host with
                    | Some endpoint => Some (poll_task local_host_id endpoint host)
                    | None => None
                    end) hosts.

(** What [tick] keeps of the results, in the order the tasks finished. *)
Definition gather (results : list (result StoreError (option (Host * string)))) : list (Host * string) :=
  omap (fun r => match r with Ok (Some polled) => Some polled | _ => None end) results.

(** What [run] does with one healthy host before it starts the image sync. *)
Definition converge_host (network : option NetworkSync) (host : Host) (boot_id : string) : D unit :=
  match network with
  | None => mret tt
  | Some network =>
      _ ← note_boot (h_id host) boot_id;
      prog_bind _ _ (fun _ : result DispatchError unit => Ret (Ok tt)) (network_sync_host network host)
  end.
End Dispatch.

(** ** The loop of [PollTask::run]

    Besides the calls, the loop keeps the set [syncing] and the image tasks it
    spawned.  [tokio::select!] picks among a finished task, a tick and the
    shutdown, which ends the loop; a finished task answers with its host's id,
    one that failed to join does not. *)
Record PollState : Type := mkPollState { syncing : gset Z; image_tasks : list Z }.

Definition poll_start : PollState := mkPollState ∅ [].

(** [if syncing.insert(host.id) { image_tasks.spawn(..) }]. *)
Definition start_sync (s : PollState) (host_id : Z) : PollState :=
  if bool_decide (host_id ∈ syncing s) then s
  else mkPollState ({[host_id]} ∪ syncing s) (image_tasks s ++ [host_id]).

(** [JoinSet::join_next] hands over one finished task. *)
Fixpoint remove_task (id : Z) (tasks : list Z) : list Z :=
  match tasks with
  | [] => []
  | t :: rest => if t =? id then rest else t :: remove_task id rest
  end.

(** What a turn of the loop does: a task of a host ended, with a result or an
    error of its own; a task could not be joined; a tick found these hosts
    well. *)
Inductive PollEvent : Type :=
  | Joined (host_id : Z)
  | JoinFailed (host_id : Z)
  | Ticked (healthy : list (Host * string)).

Definition poll_next (s : PollState) (ev : PollEvent) : option PollState :=
  match ev with
  | Joined id =>
      if bool_decide (id ∈ image_tasks s)
      then Some (mkPollState (syncing s ∖ {[id]}) (remove_task id (image_tasks s))) else None
  | JoinFailed id =>
      if bool_decide (id ∈ image_tasks s)
      then Some (mkPollState (syncing s) (remove_task id (image_tasks s))) else None
  | Ticked healthy => Some (foldl (fun s p => start_sync s (h_id p.1)) s healthy)
  end.

Fixpoint poll_history (s : PollState) (evs : list PollEvent) : option PollState :=
  match evs with
  | [] => Some s
  | ev :: rest => s' ← poll_next s ev; poll_history s' rest
  end.
