(* ===== verification/DispatchRuns.v ===== *)
(** * DispatchRuns: what the runners are told

    The orders of [Dispatch] carried out against a world: the database, the
    runners behind their fences, clocks that differ, a network that loses
    requests and answers.  Every change leaves the controller numbered by the
    database under a lease that was read; in any interleaving of any number of
    dispatching tasks no runner holds a number the database has not given
    out, so a fresh order is never refused. *)

From Stdlib Require Import ZArith Lia Ascii.
From S2P Require Import Prelude Text Float64 Ipv4 Network Machine Firewall Netstate Db Store Fence Instances Accounts Runners Placement Images Prog Pool Lifecycle Types Dispatch.
Open Scope Z_scope.

(** ** What the calls show *)

Definition sent (e : event dcall) : option Envelope :=
  match ev_call e with DSend _ _ env => Some env | _ => None end.

(** The number the database gave: the object, the epoch and the generation. *)
Definition number_given (e : event dcall) : option (string * Z * Z) :=
  match ev_call e in dcall R return R -> option (string * Z * Z) with
  | DNextGeneration object epoch => fun r => match r with Ok g => Some (object, epoch, g) | Err _ => None end
  | _ => fun _ => None
  end (ev_reply e).

Definition lease_read (e : event dcall) : option Lease :=
  match ev_call e in dcall R return R -> option Lease with
  | DBorrow => fun l => Some l
  | DStoreLease => fun r => match r with Ok l => l | Err _ => None end
  | _ => fun _ => None
  end (ev_reply e).

Definition uuid_drawn (e : event dcall) : option string :=
  match ev_call e in dcall R return R -> option string with
  | DUuid => fun id => Some id
  | _ => fun _ => None
  end (ev_reply e).

(** The envelope speaks under a lease that was read, with a fresh request id;
    a change names its object with a number the database gave for it under
    that epoch, and a read names none. *)
Definition vouched (before : list (event dcall)) (env : Envelope) : Prop :=
  e_protocol_version env = PROTOCOL_VERSION /\
  (exists e l, e ∈ before /\ lease_read e = Some l /\ l_epoch l = e_epoch env /\
     l_holder_id l = e_holder_id env /\ l_expires_at l = e_lease_expires_at env) /\
  (exists e, e ∈ before /\ uuid_drawn e = Some (e_request_id env)) /\
  if mutates (e_op env) then
    exists object, e_object env = Some object /\ exists e, e ∈ before /\
      number_given e = Some (of_object_id object, e_epoch env, of_generation object)
  else e_object env = None.

Definition fenced_event (before : list (event dcall)) (e : event dcall) : Prop :=
  match sent e with Some env => vouched before env | None => True end.

Abbreviation fenced := (allowed fenced_event).
Definition fences {A} (p : prog dcall A) : Prop := always p (fun tr _ => fenced [] tr).

Lemma vouched_mono before before' env :
  (forall x, x ∈ before -> x ∈ before') -> vouched before env -> vouched before' env.
Proof.
  intros Hsub (Hv & (e & l & He & Hl) & (u & Hu & Hd) & Ho). split; [done|].
  split; [exists e, l; naive_solver|]. split; [exists u; naive_solver|].
  destruct (mutates _); [|done]. destruct Ho as (o & Ho & n & Hn & ?). exists o. split; [done|]. exists n. naive_solver.
Qed.

Lemma fenced_mono before before' tr :
  (forall x, x ∈ before -> x ∈ before') -> fenced before tr -> fenced before' tr.
Proof.
  apply allowed_weaken. intros b b' e Hsub. unfold fenced_event. destruct (sent e); [by apply vouched_mono|done].
Qed.

Lemma fences_bind {A B} (p : prog dcall A) (f : A -> prog dcall B) :
  fences p -> (forall a, fences (f a)) -> fences (p ≫= f).
Proof.
  unfold fences. intros Hp Hf. apply always_bind. eapply always_mono; [|exact Hp]. simpl. intros tr a Htr.
  eapply always_mono; [|apply Hf]. simpl. intros tr' b Htr'. apply allowed_app. split; [done|].
  eapply fenced_mono; [|exact Htr']. set_solver.
Qed.

(** ** Call by call *)

Definition fences_from {A} (before : list (event dcall)) (p : prog dcall A) : Prop :=
  always p (fun tr _ => fenced before tr).

Lemma fences_weaken {A} before (p : prog dcall A) : fences p -> fences_from before p.
Proof. apply always_mono. intros tr a. apply fenced_mono. set_solver. Qed.

Lemma fences_ret {A} before (a : A) : fences_from before (Ret a).
Proof. exact I. Qed.

Lemma fences_call {A R} before (c : dcall R) (k : R -> prog dcall A) :
  (forall r, sent (mkEvent c r) = None) ->
  (forall r, fences_from (before ++ [mkEvent c r]) (k r)) -> fences_from before (Call c k).
Proof.
  intros Hs Hk r. eapply always_mono; [|apply Hk]. simpl. intros tr a Htr. split; [|done].
  unfold fenced_event. by rewrite Hs.
Qed.

Lemma fences_seq {A B} before (p : prog dcall A) (f : A -> prog dcall B) :
  fences_from before p -> (forall a, fences (f a)) -> fences_from before (prog_bind _ _ f p).
Proof.
  intros Hp Hf. apply (always_bind p f). eapply always_mono; [|exact Hp]. simpl. intros tr a Htr.
  eapply always_mono; [|apply (fences_weaken (before ++ tr) _ (Hf a))]. intros tr' b Htr'. by apply allowed_app.
Qed.

(** A change sent with a number taken under the lease that was read. *)
Lemma fences_send before endpoint host lease op object timeout :
  (exists e, e ∈ before /\ lease_read e = Some lease) ->
  (if mutates op then exists o, object = Some o /\ exists e, e ∈ before /\
     number_given e = Some (of_object_id o, l_epoch lease, of_generation o) else object = None) ->
  fences_from before (send endpoint host lease op object timeout).
Proof.
  intros (e & He & Hl) Ho sent_at id answer. simpl. split_and!; try done.
  assert (Hsub : forall x, x ∈ before -> x ∈ (before ++ [mkEvent DNow sent_at]) ++ [mkEvent DUuid id]) by set_solver.
  split; [done|]. split; [exists e, lease; simpl; naive_solver|]. split.
  - exists (mkEvent DUuid id). split; [set_solver|done].
  - cbn [e_op envelope]. destruct (mutates op); [|done]. destruct Ho as (o & -> & n & Hn & Hg). exists o.
    split; [done|]. exists n. split; [by apply Hsub|done].
Qed.

Lemma fences_ask {X Y A B} before (c : dcall (result Y A)) (g : Y -> X) (f : A -> fallible dcall X B) :
  (forall r, sent (mkEvent c r) = None) ->
  (forall a, fences_from (before ++ [mkEvent c (Ok a)]) (f a)) -> fences_from before (fallible_bind _ _ f (ask c g)).
Proof. intros Hs Hf. apply fences_call; [done|]. intros [a|e]; [apply Hf|apply fences_ret]. Qed.

Lemma fences_get {X R B} before (c : dcall R) (f : R -> fallible dcall X B) :
  (forall r, sent (mkEvent c r) = None) ->
  (forall r, fences_from (before ++ [mkEvent c r]) (f r)) -> fences_from before (fallible_bind _ _ f (get c)).
Proof. intros Hs Hf. apply fences_call; done. Qed.

Lemma fences_pure {X A B} before (r : result X A) (f : A -> fallible dcall X B) :
  (forall a, r = Ok a -> fences_from before (f a)) -> fences_from before (fallible_bind _ _ f (pure_res r)).
Proof. intros Hf. destruct r as [a|e]; [by apply Hf|apply fences_ret]. Qed.

Lemma fences_fallible {X A B} before (p : fallible dcall X A) (f : A -> fallible dcall X B) :
  fences_from before p -> (forall a, fences (f a)) -> fences_from before (fallible_bind _ _ f p).
Proof. intros Hp Hf. apply fences_seq; [done|]. intros [a|e]; [apply Hf|apply fences_ret]. Qed.

Lemma fences_send_or_fail before endpoint host lease op object timeout :
  (exists e, e ∈ before /\ lease_read e = Some lease) ->
  (if mutates op then exists o, object = Some o /\ exists e, e ∈ before /\
     number_given e = Some (of_object_id o, l_epoch lease, of_generation o) else object = None) ->
  fences_from before (send_or_fail endpoint host lease op object timeout).
Proof. intros Hl Ho. apply fences_seq; [by apply fences_send|]. intros r. apply fences_ret. Qed.

(** The number of [numbered] is in the trace when the rest runs. *)
Lemma fences_numbered {B} before object_id digest epoch (f : ObjectFence -> D B) :
  (forall g, fences_from (before ++ [mkEvent (DNextGeneration object_id epoch) (Ok g)]) (f (mkObjectFence object_id g digest))) ->
  fences_from before (fallible_bind _ _ f (numbered object_id digest epoch)).
Proof. intros Hf. apply fences_call; [done|]. intros [g|e]; [apply Hf|apply fences_ret]. Qed.

Lemma fences_lease {B} before source (f : Lease -> D B) :
  (forall l e, lease_read e = Some l -> fences_from (before ++ [e]) (f l)) ->
  fences_from before (fallible_bind _ _ f (lease_of source)).
Proof.
  intros Hf. destruct source; simpl.
  - apply fences_call; [done|]. intros l. by apply Hf.
  - apply fences_call; [done|]. intros [[l|]|e]; [by apply Hf|apply fences_ret..].
Qed.

Ltac fence :=
  repeat match goal with
  | |- fences ?p => change (fences_from [] p)
  | |- fences_from _ (mbind _ _) => cbv [mbind D_bind R_bind P_bind]
  | |- fences_from _ (mret _) => apply fences_ret
  | |- fences_from _ (Ret _) => apply fences_ret
  | |- fences_from _ (throw _) => apply fences_ret
  | |- fences_from _ (if ?b then _ else _) => destruct b
  | |- fences_from _ (let _ := _ in _) => cbv zeta
  | |- fences_from _ (fallible_bind _ _ _ (ask _ _)) => apply fences_ask; [done|intros ?]
  | |- fences_from _ (fallible_bind _ _ _ (of_store _)) => apply fences_ask; [done|intros ?]
  | |- fences_from _ (fallible_bind _ _ _ (get _)) => apply fences_get; [done|intros ?]
  | |- fences_from _ (fallible_bind _ _ _ (pure_res _)) => apply fences_pure; intros ? _
  | |- fences_from _ (fallible_bind _ _ _ (ok_or_throw _ _)) => apply fences_pure; intros ? _
  | |- fences_from _ (fallible_bind _ _ _ (numbered _ _ _)) => apply fences_numbered; intros ?
  | |- fences_from _ (fallible_bind _ _ _ (lease_of _)) => apply fences_lease; intros ? ? ?
  | |- fences_from _ (get _) => apply fences_call; [done|intros ?]
  | |- fences_from _ (match ?x with _ => _ end) => destruct x
  end.
Lemma made_last {B} (l : list B) x (Q : B -> Prop) : Q x -> exists e, e ∈ l ++ [x] /\ Q e.
Proof. intros HQ. exists x. set_solver. Qed.
Lemma made_before {B} (l : list B) x (Q : B -> Prop) :
  (exists e, e ∈ l /\ Q e) -> exists e, e ∈ l ++ [x] /\ Q e.
Proof. intros (e & He & HQ). exists e. set_solver. Qed.

Ltac in_trace := first [assumption | apply made_last; done | apply made_before; in_trace].
Ltac sends := apply fences_send_or_fail; [in_trace | first [done | eexists; split; [reflexivity|in_trace]]].

Section Fencing.
Context (sha256 : string -> list Z).
Context (json_network : MachineNetwork -> result string string).
Context (json_provision : ProvisionRequest -> result string string).
Context (json_redefine : RedefineRequest -> result string string).
Context (json_operation : Operation -> result string string) (reply_debug : Fence.Reply -> string).

Lemma ensure_fences host image have : fences (ensure sha256 host image have).
Proof. unfold ensure, image_object_fence. fence. apply fences_fallible; [sends|]. intros reply. fence. Qed.

Lemma ensure_all_fences host held images : fences (ensure_all sha256 host held images).
Proof.
  induction images as [|image images IH]; [apply fences_ret|].
  apply (fences_seq []); [apply ensure_fences|]. intros _. exact IH.
Qed.

Lemma image_sync_host_fences host : fences (image_sync_host sha256 host).
Proof. unfold image_sync_host. fence. apply fences_weaken, ensure_all_fences. Qed.

Lemma note_boot_fences host_id boot_id : fences (note_boot host_id boot_id).
Proof. unfold note_boot. fence. Qed.

Lemma network_sync_host_fences self host : fences (network_sync_host sha256 json_network self host).
Proof.
  unfold network_sync_host, network_object_fence. fence. unfold machine_network.
  apply fences_fallible; [fence|]. intros network. fence. apply fences_fallible; [sends|]. intros reply. fence.
Qed.

Lemma dispatch_fences before host endpoint uuid current op body :
  (exists e, e ∈ before /\ lease_read e = Some current) -> mutates op = true ->
  fences_from before (dispatch sha256 host endpoint uuid current op body).
Proof.
  intros Hin Hm. unfold dispatch. fence. apply fences_send_or_fail; rewrite ?Hm; [in_trace|].
  eexists. split; [reflexivity|in_trace].
Qed.

Lemma sync_provision_fences source host spec : fences (sync_provision sha256 json_provision source host spec).
Proof.
  unfold sync_provision. fence. apply fences_fallible; [|intros reply; fence].
  apply dispatch_fences; [in_trace|done].
Qed.

Lemma sync_redefine_fences source host request : fences (sync_redefine sha256 json_redefine source host request).
Proof.
  unfold sync_redefine. fence. apply fences_fallible; [|intros reply; fence].
  apply dispatch_fences; [in_trace|done].
Qed.

Lemma sync_change_fences source host op : fences (sync_change sha256 json_operation source host op).
Proof.
  unfold sync_change.
  destruct (h_endpoint host) as [endpoint|]; [|apply fences_ret].
  destruct (changed_uuid op) as [uuid|] eqn:Hu; [|apply fences_ret].
  apply (fences_lease []). intros l e He. apply fences_fallible; [|intros reply; fence].
  apply dispatch_fences; [in_trace|]. by destruct op.
Qed.

Lemma sync_read_fences source host op : mutates op = false -> fences (sync_read source host op).
Proof.
  intros Hm. unfold sync_read. fence. apply fences_send_or_fail; rewrite ?Hm; [in_trace|done].
Qed.

Lemma remote_list_fences source host : fences (remote_list source host).
Proof.
  unfold remote_list. fence. apply (fences_fallible []); [|intros reply; fence].
  apply fences_seq; [by apply sync_read_fences|]. intros r. apply fences_ret.
Qed.

Lemma act_fences source host op name : fences (act sha256 json_operation source host op name).
Proof.
  unfold act. fence. apply (fences_fallible []); [apply remote_list_fences|]. intros domains. fence.
  apply fences_seq; [apply fences_weaken, sync_change_fences|]. intros r. apply fences_ret.
Qed.

Lemma poll_host_fences endpoint host : fences (poll_host reply_debug endpoint host).
Proof.
  unfold poll_host. apply (fences_call []); [done|]. intros l. apply fences_seq.
  { apply fences_send; [|done]. in_trace. }
  intros [[]|]; try apply fences_ret. apply (fences_call []); [done|]. intros l'. apply fences_seq.
  { apply fences_send; [|done]. in_trace. }
  intros [[]|]; apply fences_ret.
Qed.

Lemma observe_instances_fences endpoint host : fences (observe_instances endpoint host).
Proof. unfold observe_instances. fence. apply fences_fallible; [sends|]. intros reply. fence. Qed.

Lemma poll_task_fences local endpoint host : fences (poll_task reply_debug local endpoint host).
Proof.
  unfold poll_task. fence. apply fences_fallible.
  { apply fences_seq; [apply fences_weaken, poll_host_fences|]. intros r. apply fences_ret. }
  intros polled. fence. apply fences_fallible; [|intros []; fence]. case_match; [|apply fences_ret].
  apply fences_seq; [apply fences_weaken, observe_instances_fences|]. intros r. apply fences_ret.
Qed.
End Fencing.

(** ** The jobs a process runs *)

Inductive Job : Type :=
  | JImages (host : Host)
  | JEnsure (host : Host) (image : Image) (have : option string)
  | JBoot (host_id : Z) (boot_id : string)
  | JNetwork (self : NetworkSync) (host : Host)
  | JProvision (source : LeaseSource) (host : Host) (spec : ProvisionSpec)
  | JRedefine (source : LeaseSource) (host : Host) (request : RedefineRequest)
  | JChange (source : LeaseSource) (host : Host) (op : Operation)
  | JResizeDisk (source : LeaseSource) (host : Host) (instance : InstanceRef) (disk_gib : Z)
  | JSample (source : LeaseSource) (host : Host)
  | JList (source : LeaseSource) (host : Host)
  | JState (source : LeaseSource) (host : Host) (name : string)
  | JStart (source : LeaseSource) (host : Host) (name : string)
  | JStop (source : LeaseSource) (host : Host) (name : string)
  | JReboot (source : LeaseSource) (host : Host) (name : string)
  | JRemove (source : LeaseSource) (host : Host) (name : string)
  | JPoll (local : option Z) (endpoint : string) (host : Host).

Definition forget {A} (p : prog dcall A) : prog dcall unit := prog_bind _ _ (fun _ => Ret tt) p.

Lemma forget_fences {A} (p : prog dcall A) : fences p -> fences (forget p).
Proof. intros Hp. apply (fences_seq []); [done|]. intros a. apply fences_ret. Qed.

Section Jobs.
Context (sha256 : string -> list Z).
Context (json_network : MachineNetwork -> result string string).
Context (json_provision : ProvisionRequest -> result string string).
Context (json_redefine : RedefineRequest -> result string string).
Context (json_operation : Operation -> result string string) (reply_debug : Fence.Reply -> string).

Definition job (j : Job) : prog dcall unit :=
  match j with
  | JImages host => forget (image_sync_host sha256 host)
  | JEnsure host image have => forget (ensure sha256 host image have)
  | JBoot host_id boot_id => forget (note_boot host_id boot_id)
  | JNetwork self host => forget (network_sync_host sha256 json_network self host)
  | JProvision source host spec => forget (sync_provision sha256 json_provision source host spec)
  | JRedefine source host request => forget (sync_redefine sha256 json_redefine source host request)
  | JChange source host op => forget (sync_change sha256 json_operation source host op)
  | JResizeDisk source host i n => forget (sync_resize_disk sha256 json_operation source host i n)
  | JSample source host => forget (sampler_sample source host)
  | JList source host => forget (remote_list source host)
  | JState source host name => forget (remote_state source host name)
  | JStart source host name => forget (remote_start sha256 json_operation source host name)
  | JStop source host name => forget (remote_stop sha256 json_operation source host name)
  | JReboot source host name => forget (remote_reboot sha256 json_operation source host name)
  | JRemove source host name => forget (remote_remove sha256 json_operation source host name)
  | JPoll local endpoint host => forget (poll_task reply_debug local endpoint host)
  end.

Lemma remote_fences {A} source host op name (f : State -> R A) :
  (forall s, fences (f s)) -> fences (fallible_bind _ _ f (act sha256 json_operation source host op name)).
Proof. intros Hf. apply (fences_fallible []); [apply act_fences|done]. Qed.

(** Every job sends only what is vouched for. *)
Lemma job_fences j : fences (job j).
Proof.
  destruct j; apply forget_fences;
    eauto using image_sync_host_fences, ensure_fences, note_boot_fences, network_sync_host_fences,
      sync_provision_fences, sync_redefine_fences, sync_change_fences, remote_list_fences, poll_task_fences.
  - apply (fences_fallible []); [by apply sync_read_fences|]. intros reply. fence.
  - apply (fences_fallible []); [apply remote_list_fences|]. intros domains. fence.
  - apply remote_fences. intros s. apply fences_ret.
  - apply remote_fences. intros s. apply fences_ret.
  - apply remote_fences. intros s. apply fences_ret.
  - apply remote_fences. intros s. apply fences_ret.
Qed.
End Jobs.

(** ** The world of the controller *)

(** What becomes of one request: it is answered, it never arrives, or its
    answer does not. *)
Inductive Delivery : Type := Delivered | RequestLost | AnswerLost.

Record World (S H : Type) : Type := mkWorld {
  w_db : Db;
  w_runners : gmap string (S * H);
  w_clock : Z;
  w_drawn : nat;
  w_lease : Lease;
  w_applied : gmap Z string;
  w_boots : gmap Z string;
  w_net : list Delivery
}.
Arguments mkWorld {S H}. Arguments w_db {S H}. Arguments w_runners {S H}. Arguments w_clock {S H}.
Arguments w_drawn {S H}. Arguments w_lease {S H}. Arguments w_applied {S H}. Arguments w_boots {S H}.
Arguments w_net {S H}.

Section World.
Context {TF : TimeFormat} {S H : Type} {FS : FenceStore S} (machine : Fence.Host H) `{Wire}.
Context (rfc3339 : Z -> result string string) (cfg : string -> FenceConfig) (drift : string -> Z).
Context (uuid : nat -> string) (error_json : string -> string) (status_text : Z -> string).

#[local] Abbreviation W := (World S H).

Definition with_db (d : Db) (w : W) : W :=
  mkWorld d (w_runners w) (w_clock w) (w_drawn w) (w_lease w) (w_applied w) (w_boots w) (w_net w).
Definition with_applied (m : gmap Z string) (w : W) : W :=
  mkWorld (w_db w) (w_runners w) (w_clock w) (w_drawn w) (w_lease w) m (w_boots w) (w_net w).
Definition with_boots (m : gmap Z string) (w : W) : W :=
  mkWorld (w_db w) (w_runners w) (w_clock w) (w_drawn w) (w_lease w) (w_applied w) m (w_net w).
Definition with_runner (endpoint : string) (sh : S * H) (w : W) : W :=
  mkWorld (w_db w) (<[endpoint := sh]> (w_runners w)) (w_clock w) (w_drawn w) (w_lease w) (w_applied w) (w_boots w) (w_net w).
Definition with_net (l : list Delivery) (w : W) : W :=
  mkWorld (w_db w) (w_runners w) (w_clock w) (w_drawn w) (w_lease w) (w_applied w) (w_boots w) l.
Definition draw (w : W) : W :=
  mkWorld (w_db w) (w_runners w) (w_clock w) (Datatypes.S (w_drawn w)) (w_lease w) (w_applied w) (w_boots w) (w_net w).

(** A call of the store. *)
Definition on_db {A} (m : Tx A) (w : W) : result StoreError A * W :=
  let '(r, d) := m (w_db w) in (r, with_db d w).

(** [HttpClient::call] of an answer. *)
Definition client_answer (out : result string Outcome) : result string Fence.Reply :=
  let '(status, body) := rpc error_json out in
  map_err (client_error_text status_text) (decode_response status body).

(** The runner at an endpoint serves one envelope, by its own clock. *)
Definition serve_at (endpoint : string) (env : Envelope) (now : Z) (sh : S * H) : result string Outcome * (S * H) :=
  serve_one machine rfc3339 reply_json (cfg endpoint) (now + drift endpoint) env sh.

Definition deliver (endpoint : string) (env : Envelope) (w : W) : option (result string Fence.Reply) * W :=
  let w1 := with_net (tail (w_net w)) w in
  match w_runners w !! endpoint, head (w_net w) with
  | None, _ | _, Some RequestLost => (Some (Err (client_error_text status_text (Transport EmptyString))), w1)
  | Some sh, Some AnswerLost =>
      (None, with_runner endpoint (snd (serve_at endpoint env (w_clock w) sh)) w1)
  | Some sh, _ =>
      let '(out, sh') := serve_at endpoint env (w_clock w) sh in
      (Some (client_answer out), with_runner endpoint sh' w1)
  end.

Definition controller : handler dcall W := fun R c w =>
  match c in dcall R return R * W with
  | DDeployment => on_db deployment w
  | DHosts => on_db all_hosts w
  | DHost id => on_db (host id) w
  | DSlots => on_db slots w
  | DInstances => on_db all_instances w
  | DUsers => on_db all_users w
  | DImages => on_db all_images w
  | DHostImages id => on_db (held_images id) w
  | DRecordHostImage id name checksum => on_db (record_host_image id name checksum (w_clock w)) w
  | DNextGeneration object epoch => on_db (next_dispatch_generation object epoch) w
  | DStoreLease => on_db lease w
  | DOnHost id => on_db (instances_on_host id) w
  | DUpdateStates states => on_db (update_observed_states states) w
  | DObservation id => on_db (host_observation id) w
  | DObserve id seen => on_db (observe_host id seen (w_clock w)) w
  | DBorrow => (w_lease w, w)
  | DNow => (w_clock w, w)
  | DUuid => (uuid (w_drawn w), draw w)
  | DAppliedGet id => (w_applied w !! id, w)
  | DAppliedInsert id digest => (tt, with_applied (<[id := digest]> (w_applied w)) w)
  | DAppliedRemove id => (tt, with_applied (delete id (w_applied w)) w)
  | DBootInsert id boot => (w_boots w !! id, with_boots (<[id := boot]> (w_boots w)) w)
  | DSend _ endpoint env => deliver endpoint env w
  end.

(** ** Numbers only grow *)

(** The database has given the object a number at least [g]. *)
Definition given (d : Db) (object : string) (g : Z) : Prop :=
  exists last, dispatch_generations d !! object = Some last /\ g <= last.
Definition gens_le (d d' : Db) : Prop := forall object g, given d object g -> given d' object g.

#[local] Instance gens_le_preorder : PreOrder gens_le.
Proof. split; [by intros d object g|]. intros a b c Hab Hbc object g Hg. by apply Hbc, Hab. Qed.

Lemma same_gens_le d d' : same_generations d d' -> gens_le d d'.
Proof. unfold gens_le, given. by intros ->. Qed.

Lemma next_gens_le object epoch d : gens_le d (snd (next_dispatch_generation object epoch d)).
Proof.
  destruct (next_dispatch_generation object epoch d) as [[g|e] d'] eqn:Hn.
  - apply next_dispatch_generation_Ok in Hn as (-> & _ & Habove & _). intros o g0 (last & Hl & Hle). unfold given. simpl.
    destruct (decide (o = object)) as [->|]; [|rewrite lookup_insert_ne by done; eauto].
    rewrite lookup_insert_eq. exists g. split; [done|]. specialize (Habove last Hl). lia.
  - apply with_tx_Err_inv in Hn as [-> _]. apply reflexivity.
Qed.

Lemma exec_gens_le op t t' d : gens_le d (snd (exec op t t' d)).
Proof.
  destruct (exec op t t' d) as [r d'] eqn:Hx. simpl. apply exec_generations in Hx.
  destruct op; try (by apply same_gens_le); destruct r as [r|]; try (by apply same_gens_le).
  destruct Hx as (g & _ & Hg). pose proof (next_gens_le object epoch d) as Hle. by rewrite Hg in Hle.
Qed.

Lemma finish_snd {A} (m : Tx A) d : snd (Store.finish m d) = snd (m d).
Proof. unfold Store.finish, mbind, ST_bind. by destruct (m d) as [[] ?]. Qed.

Lemma on_db_reads {A} (m : Tx A) w : reads_only m -> w_db (snd (on_db m w)) = w_db w.
Proof. intros Hm. unfold on_db. specialize (Hm (w_db w)). by destruct (m (w_db w)). Qed.

Lemma on_db_snd {A} (m : Tx A) w : snd (on_db m w) = with_db (snd (m (w_db w))) w.
Proof. unfold on_db. by destruct (m (w_db w)). Qed.

(** No call lowers a number, takes back an identifier, or reaches a fence but
    by a message. *)
Lemma deliver_db endpoint env w :
  w_db (snd (deliver endpoint env w)) = w_db w /\ w_drawn (snd (deliver endpoint env w)) = w_drawn w.
Proof. unfold deliver. destruct (w_runners w !! endpoint) as [sh|]; [|done]. destruct (head (w_net w)) as [[]|]; try done; by destruct (serve_at _ _ _ _). Qed.

Lemma dispatch_db R (c : dcall R) w :
  gens_le (w_db w) (w_db (snd (controller R c w))) /\ (w_drawn w <= w_drawn (snd (controller R c w)))%nat.
Proof.
  assert (Hread : forall A (m : Tx A), reads_only m -> gens_le (w_db w) (w_db (snd (on_db m w))) /\
    (w_drawn w <= w_drawn (snd (on_db m w)))%nat).
  { intros A m Hm. rewrite on_db_snd. simpl. rewrite Hm. split; [apply reflexivity|lia]. }
  assert (Hexec : forall A (m : Tx A) op t t', (forall d, snd (m d) = snd (exec op t t' d)) ->
    gens_le (w_db w) (w_db (snd (on_db m w))) /\ (w_drawn w <= w_drawn (snd (on_db m w)))%nat).
  { intros A m op t t' Hm. rewrite on_db_snd. simpl. rewrite Hm. split; [apply exec_gens_le|lia]. }
  destruct c; cbn [controller]; try (apply Hread; unfold all_hosts, host, slots, all_instances, all_users, all_images,
    held_images, lease, instances_on_host, list_instances, host_observation; ro_steps; fail);
    try (split; [apply reflexivity|cbn; lia]).
  - apply (Hexec _ _ (RecordHostImage host_id name checksum) (w_clock w) 0). intros d. symmetry. apply finish_snd.
  - rewrite on_db_snd. simpl. split; [apply next_gens_le|lia].
  - apply (Hexec _ _ (UpdateObservedStates states) 0 0). intros d. symmetry. apply finish_snd.
  - apply (Hexec _ _ (ObserveHost host_id seen) (w_clock w) 0). intros d. symmetry. apply finish_snd.
  - destruct (deliver_db endpoint envelope w) as [-> ->]. split; [apply reflexivity|lia].
Qed.

(** ** What a runner remembers came in an envelope *)

Context {FL : FenceStoreLaws S}.

(** [learns env s s']: the store remembers of objects and outcomes what it did,
    and what [env] says. *)
Definition learns (env : Envelope) (s s' : S) : Prop :=
  (forall id g d, m_objects (view s') !! id = Some (g, d) ->
     m_objects (view s) !! id = Some (g, d) \/
     exists o, e_object env = Some o /\ of_object_id o = id /\ of_generation o = g) /\
  (forall id, is_Some (m_outcomes (view s') !! id) ->
     is_Some (m_outcomes (view s) !! id) \/ id = e_request_id env).

#[local] Instance learns_preorder env : PreOrder (learns env).
Proof. split; [split; auto|]. intros a b c [Ho Hr] [Ho' Hr']. split; naive_solver. Qed.

Lemma same_learns env s s' : view s' = view s -> learns env s s'.
Proof. unfold learns. intros ->. split; auto. Qed.

Lemma reads_learns {A} env (op : ST FenceError S A) answer : reads view op answer -> preserves (learns env) op.
Proof.
  intros Hr s. destruct (op s) as [r s'] eqn:E. cbn [snd]. apply same_learns. by destruct (Hr s r s' E) as [-> _].
Qed.

Lemma writes_learns env op change :
  writes view op change ->
  (forall s s', view s' = change (view s) -> learns env s s') -> preserves (learns env) op.
Proof.
  intros Hw Hc s. destruct (op s) as [r s'] eqn:E. specialize (Hw s r s' E). simpl.
  destruct r; [by apply Hc|]. destruct Hw as [Hw|Hw]; [by apply same_learns|by apply Hc].
Qed.

Lemma accept_epoch_learns env z : preserves (learns env) (accept_epoch z).
Proof. eapply writes_learns; [apply accept_epoch_writes|]. intros s s' Hv. unfold learns. rewrite Hv. split; simpl; auto. Qed.

Lemma accept_object_learns env o : e_object env = Some o ->
  preserves (learns env) (accept_object (of_object_id o) (of_generation o) (of_digest o)).
Proof.
  intros Ho. eapply writes_learns; [apply accept_object_writes|]. intros s s' Hv. unfold learns. rewrite Hv.
  unfold mem_accept_object. destruct (newer _ _); [|split; auto]. simpl. split; [|auto]. intros id g d.
  rewrite lookup_insert_Some. intros [(<- & [= <- <-])|[_ Hl]]; [|auto]. right. by exists o.
Qed.

Lemma record_outcome_learns env out : preserves (learns env) (record_outcome (e_request_id env) out).
Proof.
  eapply writes_learns; [apply record_outcome_writes|]. intros s s' Hv. unfold learns. rewrite Hv. simpl. split; [auto|].
  intros id. destruct (decide (id = e_request_id env)) as [->|]; [auto|]. rewrite lookup_insert_ne by done. auto.
Qed.

Lemma admit_learns c now env : preserves (learns env) (fence_admit rfc3339 c now env).
Proof.
  unfold fence_admit, admit_as.
  repeat first [apply preserves_bind; [apply _| |intros ?]
    | apply preserves_ret; apply _ | apply preserves_fail; apply _
    | eapply reads_learns; first [apply accepted_epoch_reads|apply outcome_reads|apply object_generation_reads]
    | apply accept_epoch_learns | by apply accept_object_learns | case_match ].
Qed.

Lemma serve_learns c now env s h r s' h' :
  serve_one machine rfc3339 reply_json c now env (s, h) = (r, (s', h')) -> learns env s s'.
Proof.
  intros Hs. unfold serve_one, on_fence, mbind, ST_bind in Hs. cbn [fst snd] in Hs.
  pose proof (admit_learns c now env s) as Ha.
  destruct (fence_admit rfc3339 c now env s) as [[a|e] s1]; cbn in Hs, Ha; [|by simplify_eq].
  destruct a as [|recorded|why]; [|injection Hs as _ <- _; exact Ha..]. etransitivity; [exact Ha|]. clear Ha.
  unfold run_allowed, Fence.on_host, on_fence, mbind, ST_bind in Hs. cbn [fst snd] in Hs.
  destruct (perform machine (e_op env) h) as [[reply|e] h1]; cbn in Hs; [|simplify_eq; apply reflexivity].
  destruct (mutates (e_op env)); [|injection Hs as _ <- _; apply reflexivity].
  destruct (reply_json reply) as [text|e]; [|injection Hs as _ <- _; apply reflexivity]. unfold finish in Hs.
  pose proof (record_outcome_learns env text s1) as Hk. cbn [fst snd] in Hs.
  destruct (record_outcome _ _ s1) as [[[]|e] s2]; cbn in *; injection Hs as _ <- _; exact Hk.
Qed.

(** ** The invariant *)

(** An identifier that was drawn. *)
Definition drawn (w : W) (id : string) : Prop := exists n, (n < w_drawn w)%nat /\ id = uuid n.

(** Every number a runner holds was given by the database, and every request
    it has answered had an identifier that was drawn. *)
Definition issued (w : W) : Prop :=
  forall endpoint s h, w_runners w !! endpoint = Some (s, h) ->
    (forall object g d, m_objects (view s) !! object = Some (g, d) -> given (w_db w) object g) /\
    (forall id, is_Some (m_outcomes (view s) !! id) -> drawn w id).

Definition knows (w : W) (tr : list (event dcall)) : Prop :=
  forall e, e ∈ tr ->
    (forall object epoch g, number_given e = Some (object, epoch, g) -> given (w_db w) object g) /\
    (forall id, uuid_drawn e = Some id -> drawn w id).

(** Any operation of the store by anyone, another lease, time, a network in
    another mood, a controller that restarts, a machine that is new, and
    anything on a machine but in its fence. *)
Inductive surroundings : W -> W -> Prop :=
  | around_store w op t t' r d : exec op t t' (w_db w) = (r, d) -> surroundings w (with_db d w)
  | around_rest w runners clock lease applied boots net :
      (forall endpoint s h, runners !! endpoint = Some (s, h) ->
         view s = mkMemory 0 ∅ ∅ \/ exists h0, w_runners w !! endpoint = Some (s, h0)) ->
      surroundings w (mkWorld (w_db w) runners clock (w_drawn w) lease applied boots net).

Lemma issued_later w w' :
  gens_le (w_db w) (w_db w') -> (w_drawn w <= w_drawn w')%nat -> w_runners w' = w_runners w -> issued w -> issued w'.
Proof.
  intros Hg Hd Hr Hi endpoint s h Hl. rewrite Hr in Hl. destruct (Hi _ _ _ Hl) as [Ho Hu]. split; [eauto|].
  intros id Hid. destruct (Hu id Hid) as (n & Hn & ->). exists n. split; [lia|done].
Qed.

Lemma knows_later w w' tr :
  gens_le (w_db w) (w_db w') -> (w_drawn w <= w_drawn w')%nat -> knows w tr -> knows w' tr.
Proof.
  intros Hg Hd Hk e He. destruct (Hk e He) as [Hn Hu]. split; [eauto|].
  intros id Hid. destruct (Hu id Hid) as (n & Hn' & ->). exists n. split; [lia|done].
Qed.

(** What a call answers is known afterwards. *)
Lemma answer_known R (c : dcall R) w : knows (snd (controller R c w)) [mkEvent c (fst (controller R c w))].
Proof.
  intros e ->%list_elem_of_singleton. split.
  - intros object epoch g. destruct c; try done. unfold number_given. cbn. unfold on_db.
    destruct (next_dispatch_generation object_id epoch0 (w_db w)) as [[g0|e] d] eqn:Hn; [|done]. intros [= <- <- <-].
    apply next_dispatch_generation_Ok in Hn as (-> & _). exists g0. cbn. by rewrite lookup_insert_eq.
  - intros id. destruct c; try done. unfold uuid_drawn. cbn. intros [= <-]. exists (w_drawn w). split; [cbn; lia|done].
Qed.

Lemma fenced_given w tr env object :
  knows w tr -> vouched tr env -> e_object env = Some object ->
  given (w_db w) (of_object_id object) (of_generation object) /\ drawn w (e_request_id env).
Proof.
  intros Hk (_ & _ & (u & Hu & Hid) & Hm) Ho. split; [|by apply (Hk u Hu)].
  destruct (mutates (e_op env)); [|congruence]. destruct Hm as (o & Ho' & e & He & Hg).
  replace o with object in * by congruence. by apply (Hk e He) in Hg.
Qed.

Lemma deliver_issued endpoint env w tr :
  issued w -> knows w tr -> vouched tr env -> issued (snd (deliver endpoint env w)).
Proof.
  intros Hi Hk Hv. unfold deliver.
  destruct (w_runners w !! endpoint) as [[s h]|] eqn:Hr; [|exact Hi].
  assert (Hserve : issued (with_runner endpoint (snd (serve_at endpoint env (w_clock w) (s, h))) (with_net (tail (w_net w)) w))).
  { unfold serve_at. destruct (serve_one _ _ _ _ _ _ _) as [out [s' h']] eqn:Hs. apply serve_learns in Hs as [Ho Hu].
    intros ep s1 h1. cbn. rewrite lookup_insert_Some. intros [[<- [= <- <-]]|[_ Hl]]; [|exact (Hi ep s1 h1 Hl)].
    destruct (Hi _ _ _ Hr) as [Ho' Hu']. split.
    - intros id g d [Hl|(o & He & <- & <-)]%Ho; [by eapply Ho'|]. by eapply fenced_given.
    - intros id [Hid| ->]%Hu; [by apply Hu'|]. destruct Hv as (_ & _ & (u & Hu1 & Hid) & _). by apply (Hk u Hu1). }
  destruct (head (w_net w)) as [[]|]; [|exact Hi|exact Hserve|]; by destruct (serve_at _ _ _ _) as [out sh].
Qed.

Lemma controller_step w tr R (c : dcall R) :
  issued w -> knows w tr -> fenced_event tr (mkEvent c (fst (controller R c w))) ->
  issued (snd (controller R c w)) /\ knows (snd (controller R c w)) (tr ++ [mkEvent c (fst (controller R c w))]) /\
  forall tr', knows w tr' -> knows (snd (controller R c w)) tr'.
Proof.
  intros Hi Hk Hf. destruct (dispatch_db R c w) as [Hg Hd]. split_and!.
  - destruct c; try (eapply issued_later; [exact Hg|exact Hd| |exact Hi]; cbn; by rewrite ?on_db_snd).
    by eapply deliver_issued.
  - intros e [He|He]%elem_of_app; [by eapply knows_later|by eapply answer_known].
  - intros tr' Hk'. by eapply knows_later.
Qed.

Lemma surroundings_step w w' : surroundings w w' -> issued w -> issued w' /\ forall tr, knows w tr -> knows w' tr.
Proof.
  intros [w0 op t t' r d Hx|w0 runners clock lease applied boots net Hr] Hi.
  - pose proof (exec_gens_le op t t' (w_db w0)) as Hg. rewrite Hx in Hg.
    split; [by eapply issued_later|intros tr; by eapply knows_later].
  - split; [|by intros tr; apply knows_later]. intros endpoint s h Hl. destruct (Hr _ _ _ Hl) as [Hv|[h0 Hl0]]; [|exact (Hi endpoint s h0 Hl0)].
    rewrite Hv. split; [intros object g d Ho|intros id [x Ho]]; cbn [m_objects m_outcomes] in Ho; by rewrite lookup_empty in Ho.
Qed.

(** ** Where a runner's numbers come from *)

(** The runner at an endpoint holds number [g] for an object. *)
Definition holds_number (w : W) (endpoint object : string) (g : Z) : Prop :=
  exists s h d, w_runners w !! endpoint = Some (s, h) /\ m_objects (view s) !! object = Some (g, d).
(** The database has answered a task with exactly this number for the object. *)
Definition handed_out (ts : list (thread (E := dcall))) (object : string) (g : Z) : Prop :=
  exists t e epoch, t ∈ ts /\ e ∈ th_trace t /\ number_given e = Some (object, epoch, g).

Lemma deliver_holds endpoint env w ep object g :
  holds_number (snd (deliver endpoint env w)) ep object g ->
  holds_number w ep object g \/
  exists o, e_object env = Some o /\ of_object_id o = object /\ of_generation o = g.
Proof.
  unfold deliver. destruct (w_runners w !! endpoint) as [[s h]|] eqn:Hr; [|by left].
  assert (Hserve : holds_number (with_runner endpoint (snd (serve_at endpoint env (w_clock w) (s, h))) (with_net (tail (w_net w)) w)) ep object g ->
    holds_number w ep object g \/ exists o, e_object env = Some o /\ of_object_id o = object /\ of_generation o = g).
  { unfold serve_at. destruct (serve_one _ _ _ _ _ _ _) as [out [s' h']] eqn:Hs. apply serve_learns in Hs as [Ho _].
    intros (s1 & h1 & d & Hl & Hg). cbn in Hl. apply lookup_insert_Some in Hl as [[<- [= <- <-]]|[_ Hl]]; [|left; by exists s1, h1, d].
    apply Ho in Hg as [Hg|Hg]; [left; by exists s, h, d|by right]. }
  destruct (head (w_net w)) as [[]|]; [|by left|exact Hserve|]; by destruct (serve_at _ _ _ _) as [out sh].
Qed.

Lemma call_holds R (c : dcall R) w tr ep object g :
  fenced_event tr (mkEvent c (fst (controller R c w))) ->
  holds_number (snd (controller R c w)) ep object g ->
  holds_number w ep object g \/ exists e epoch, e ∈ tr /\ number_given e = Some (object, epoch, g).
Proof.
  intros Hf. destruct c; try (unfold holds_number; cbn; rewrite ?on_db_snd; cbn; by auto).
  intros [Hh|(o & Ho & <- & <-)]%deliver_holds; [by left|right].
  destruct Hf as (_ & _ & _ & Hm). destruct (mutates _); [|congruence].
  destruct Hm as (o' & Ho' & e & He & Hg). assert (o' = o) as -> by congruence. eauto.
Qed.

Lemma surroundings_holds w w' ep object g : surroundings w w' -> holds_number w' ep object g -> holds_number w ep object g.
Proof.
  intros [w0 op t t' r d Hx|w0 runners clock lease applied boots net Hr]; [done|].
  intros (s & h & d & Hl & Hg). destruct (Hr _ _ _ Hl) as [Hv|[h0 Hl0]]; [|by exists s, h0, d].
  rewrite Hv in Hg. cbn in Hg. by rewrite lookup_empty in Hg.
Qed.

Lemma handed_later (l1 l2 : list (thread (E := dcall))) A A' tr tr' (p : prog dcall A) (p' : prog dcall A') object g :
  (forall e, e ∈ tr -> e ∈ tr') -> handed_out (l1 ++ mkThread A tr p :: l2) object g ->
  handed_out (l1 ++ mkThread A' tr' p' :: l2) object g.
Proof.
  intros Hsub (t & e & epoch & Ht & He & Hg). apply elem_of_app in Ht as [Ht|Ht]; [|apply elem_of_cons in Ht as [->|Ht]].
  - exists t, e, epoch. split_and!; [set_solver|done|done].
  - exists (mkThread A' tr' p'), e, epoch. split_and!; [set_solver|by apply Hsub|done].
  - exists t, e, epoch. split_and!; [set_solver|done|done].
Qed.

(** A step of the pool: a number a runner holds afterwards it held before, or
    a task was handed it. *)
Lemma pool_holds x y ep object g :
  pool_step controller surroundings x y ->
  Forall (thread_ok fenced_event (fun _ _ => True) x.1) x.2 ->
  (holds_number y.1 ep object g -> holds_number x.1 ep object g \/ handed_out y.2 object g) /\
  (handed_out x.2 object g -> handed_out y.2 object g).
Proof.
  intros [w l1 A tr R c k l2|w w' ts He] Hts; cbn [fst snd] in *.
  - split; [|apply handed_later; set_solver].
    apply Forall_app in Hts as [_ Hts]. apply Forall_cons in Hts as [[Hp _] _]. cbn [th_rest th_trace th_type] in Hp.
    apply (always_head controller _ w _ _ _ _ (fst (controller R c w))) in Hp as [Hok _].
    intros [Hh|(e & epoch & He & Hg)]%(call_holds R c w tr); [by left| |done]. right.
    eexists (mkThread _ _ _), e, epoch. split_and!; [apply elem_of_app; right; apply elem_of_cons; by left| |done].
    cbn. set_solver.
  - split; [|done]. intros Hh. left. by eapply surroundings_holds.
Qed.

Lemma pool_numbers x y ep object g :
  rtc (pool_step controller surroundings) x y ->
  Forall (thread_ok fenced_event (fun _ _ => True) x.1) x.2 -> holds_number y.1 ep object g ->
  holds_number x.1 ep object g \/ handed_out y.2 object g.
Proof.
  induction 1 as [x|x y z Hxy Hyz IH]; [by auto|]. intros Hts Hh.
  assert (Hts' : Forall (thread_ok fenced_event (fun _ _ => True) y.1) y.2).
  { destruct x as [w ts], y as [w' ts']. cbn in *.
    by eapply (pool_inv_step controller surroundings fenced_event (fun _ => True) (fun _ _ => True)) in Hxy as [_ ?]. }
  assert (Hgrow : forall o n, handed_out y.2 o n -> handed_out z.2 o n).
  { clear -Hyz Hts' TF FL. intros o n. revert Hts'. induction Hyz as [y|y y' z Hs Hr IHr]; [done|]. intros Ht Hh.
    assert (Ht' : Forall (thread_ok fenced_event (fun _ _ => True) y'.1) y'.2).
    { destruct y as [w ts], y' as [w' ts']. cbn in *.
      by eapply (pool_inv_step controller surroundings fenced_event (fun _ => True) (fun _ _ => True)) in Hs as [_ ?]. }
    apply IHr; [done|]. by apply (pool_holds _ _ EmptyString o n Hs Ht). }
  destruct (IH Hts' Hh) as [Hy|Hy]; [|by right].
  apply (pool_holds _ _ ep object g Hxy Hts) in Hy as [Hx|Hx]; [by left|right; auto].
Qed.

(** ** A fresh order is admitted *)

(** An admitted request does to the machine what its operation does. *)
Lemma run_allowed_machine env s h out s' h' :
  run_allowed machine reply_json env (s, h) = (out, (s', h')) -> h' = snd (perform machine (e_op env) h).
Proof.
  intros Hs. unfold run_allowed, Fence.on_host, on_fence, mbind, ST_bind in Hs. cbn [fst snd] in Hs.
  destruct (perform machine (e_op env) h) as [[reply|e] h1]; cbn in Hs; [|by injection Hs as _ _ <-].
  destruct (mutates (e_op env)); [|by injection Hs as _ _ <-].
  destruct (reply_json reply) as [text|e]; [|by injection Hs as _ _ <-]. unfold finish in Hs. cbn [fst snd] in Hs.
  destruct (record_outcome _ _ s) as [[[]|e] s2]; by injection Hs as _ _ <-.
Qed.

Lemma admit_fresh c now env s object :
  misaddressed c env (mutates (e_op env)) = None -> m_epoch (view s) <= e_epoch env ->
  Z.abs (whole_seconds (now - e_sent_at env)) <= f_max_skew c -> now < e_lease_expires_at env ->
  e_object env = Some object -> object_refusal object (m_objects (view s) !! of_object_id object) = None ->
  m_outcomes (view s) !! e_request_id env = None ->
  exists s', fence_admit rfc3339 c now env s = (Ok Allowed, s') \/ exists e, fence_admit rfc3339 c now env s = (Err e, s').
Proof.
  intros Hmis He Hskew Hlease Ho Href Hid. unfold fence_admit, admit_as, mbind, ST_bind. rewrite Hmis.
  destruct (accepted_epoch s) as [[a|e] s1] eqn:E1; [|by eauto]. apply accepted_epoch_reads in E1 as [V1 ->].
  rewrite (proj2 (Z.ltb_ge _ _)) by lia. rewrite (proj2 (Z.ltb_ge _ _)) by lia. rewrite (proj2 (Z.leb_gt _ _)) by lia.
  destruct (mutates (e_op env)); cbn [negb]; [|by eauto]. rewrite Ho.
  destruct (object_generation _ s1) as [[known|e] s2] eqn:E2; [|by eauto]. apply object_generation_reads in E2 as [V2 ->].
  rewrite V1, Href. destruct (outcome _ s2) as [[rec|e] s3] eqn:E3; [|by eauto]. apply outcome_reads in E3 as [_ ->].
  rewrite V2, V1, Hid. destruct (accept_epoch _ s3) as [[[]|e] s4]; [|by eauto].
  destruct (accept_object _ _ _ s4) as [[[]|e] s5]; by eauto.
Qed.

(** What [InstanceSync::change] makes of the answer. *)
Definition change_result (answer : result string Fence.Reply) : result DispatchError State :=
  match answer with
  | Ok (Changed state) => Ok state
  | Ok other => Err (OddAnswer other "an instance change")
  | Err message => Err (DispatchRunner message)
  end.
End World.

(** ** Properties *)

Section Properties.
Context {TF : TimeFormat} {S H : Type} {FS : FenceStore S} {FL : FenceStoreLaws S} (machine : Fence.Host H) {WI : Wire}.
Context (rfc3339 : Z -> result string string) (cfg : string -> FenceConfig) (drift : string -> Z).
Context (uuid : nat -> string) (error_json : string -> string) (status_text : Z -> string).
Context (sha256 : string -> list Z).
Context (json_network : MachineNetwork -> result string string).
Context (json_provision : ProvisionRequest -> result string string).
Context (json_redefine : RedefineRequest -> result string string).
Context (json_operation : Operation -> result string string) (reply_debug : Fence.Reply -> string).

#[local] Abbreviation handle := (controller machine rfc3339 cfg drift uuid error_json status_text).
#[local] Abbreviation task := (job sha256 json_network json_provision json_redefine json_operation reply_debug).
#[local] Abbreviation holds_given := (issued uuid).

(** C5.  No runner ever holds a number out of thin air.  Let any number of
    tasks of any number of processes dispatch whatever they like, interleaved
    call by call with each other and with every operation of the store, lost
    messages, restarts and new machines: at every moment each generation a
    runner has accepted for an object is one it held already at the start, or
    exactly a number with which the database answered one of the tasks that
    asked for the next number of that object; it is not above the last number
    the database has given the object; and each request the runner has
    answered carried an identifier that was drawn.  (A runner serves a request
    in one step here; [FenceRuns] takes that step apart.) *)
Theorem runners_hold_given_numbers (jobs : list Job) (w w' : World S H) ts :
  holds_given w -> rtc (pool_step handle surroundings) (w, (fun j => spawn (task j)) <$> jobs) (w', ts) ->
  holds_given w' /\
  forall endpoint object g, holds_number w' endpoint object g ->
    holds_number w endpoint object g \/ handed_out ts object g.
Proof.
  intros Hi Hsteps. split; cycle 1.
  { intros endpoint object g Hh. 
    apply (pool_numbers machine rfc3339 cfg drift uuid error_json status_text _ (w', ts) endpoint object g Hsteps); [|exact Hh].
    apply Forall_fmap, Forall_forall. intros j _. split; [apply job_fences|done]. }
  apply (pool_inv handle surroundings fenced_event holds_given (knows uuid)) in Hsteps as [Hi' _]; [done| | | |].
  - intros w1 tr R c. apply controller_step.
  - apply surroundings_step.
  - done.
  - apply Forall_fmap, Forall_forall. intros j _. split; [apply job_fences|]. intros e He. by apply elem_of_nil in He.
Qed.

(** A fresh order of the lease holder is never refused.  Where every
    number a runner holds was given by the database, and the controller's
    lease is not older than the runner's epoch, has not expired by the runner's
    clock and the clocks agree: a start, stop, reboot, removal or resize sent
    to that machine is admitted by its fence, unless the fence's own database
    fails, and then carried out on the machine and answered from what it did. *)
Theorem fresh_order_admitted (w : World S H) (host : Host) (endpoint object body : string) (op : Operation)
    (s : S) (h : H) (g : Z) (d : Db) :
  (forall n m, uuid n = uuid m -> n = m) -> holds_given w ->
  w_runners w !! endpoint = Some (s, h) -> w_net w = [] ->
  h_endpoint host = Some endpoint -> h_machine_id host = Some (f_machine_id (cfg endpoint)) ->
  m_epoch (view s) <= l_epoch (w_lease w) -> w_clock w + drift endpoint < l_expires_at (w_lease w) ->
  Z.abs (whole_seconds (drift endpoint)) <= f_max_skew (cfg endpoint) ->
  changed_uuid op = Some object -> json_operation op = Ok body ->
  next_dispatch_generation object (l_epoch (w_lease w)) (w_db w) = (Ok g, d) ->
  exists env s1 w',
    env = envelope host (w_lease w) op (Some (mkObjectFence object g (digest_of sha256 body))) (w_clock w)
            (uuid (w_drawn w)) /\
    snd (run handle (sync_change sha256 json_operation Held host op) w) = w' /\ w_db w' = d /\
    ((exists e, fence_admit rfc3339 (cfg endpoint) (w_clock w + drift endpoint) env s = (Err e, s1) /\
        w_runners w' !! endpoint = Some (s1, h)) \/
     (exists out s2, fence_admit rfc3339 (cfg endpoint) (w_clock w + drift endpoint) env s = (Ok Allowed, s1) /\
        run_allowed machine reply_json env (s1, h) = (out, (s2, snd (perform machine op h))) /\
        w_runners w' !! endpoint = Some (s2, snd (perform machine op h)) /\
        fst (run handle (sync_change sha256 json_operation Held host op) w) =
          change_result (client_answer error_json status_text out))).
Proof.
  intros Hinj Hi Hr Hnet Hep Hmid Hepoch Hexp Hskew Hu Hjson Hnext.
  set (env := envelope host (w_lease w) op (Some (mkObjectFence object g (digest_of sha256 body))) (w_clock w)
    (uuid (w_drawn w))).
  assert (Hmut : mutates op = true) by (by destruct op).
  destruct (Hi _ _ _ Hr) as [Hobj Hout].
  destruct (admit_fresh rfc3339 (cfg endpoint) (w_clock w + drift endpoint) env s
    (mkObjectFence object g (digest_of sha256 body))) as (s1 & Hadm).
  { unfold misaddressed. cbn. rewrite Hmid. by rewrite bool_decide_eq_true_2. }
  { done. }
  { cbn. by replace (w_clock w + drift endpoint - w_clock w) with (drift endpoint) by lia. }
  { done. }
  { done. }
  { cbn. destruct (m_objects (view s) !! object) as [[g0 d0]|] eqn:Hk; [|done]. simpl.
    destruct (Hobj _ _ _ Hk) as (last & Hl & Hle). apply next_dispatch_generation_Ok in Hnext as (_ & _ & Hab & _).
    specialize (Hab last Hl). rewrite (proj2 (Z.ltb_ge _ _)) by lia. by rewrite (proj2 (Z.eqb_neq _ _)) by lia. }
  { cbn. destruct (m_outcomes (view s) !! uuid (w_drawn w)) eqn:Ho; [|done].
    destruct (Hout (uuid (w_drawn w))) as (n & Hn & Heq); [by rewrite Ho|]. apply Hinj in Heq. lia. }
  exists env, s1. eexists. split; [done|]. split; [reflexivity|].
  assert (Hrun : run handle (sync_change sha256 json_operation Held host op) w =
    (change_result (client_answer error_json status_text (fst (serve_at machine rfc3339 cfg drift endpoint env (w_clock w) (s, h)))),
     with_runner endpoint (snd (serve_at machine rfc3339 cfg drift endpoint env (w_clock w) (s, h))) (with_net [] (draw (with_db d w))))).
  { unfold sync_change, dispatch, numbered, send_or_fail, send. rewrite Hep, Hu, Hjson. cbn. unfold on_db. rewrite Hnext. cbn.
    unfold deliver. cbn. rewrite Hr, Hnet. cbn. fold env.
    destruct (serve_at _ _ _ _ _ _ _ _) as [out sh] eqn:Hserve. cbn.
    by destruct (client_answer error_json status_text out) as [[]|]. }
  rewrite Hrun. cbn [fst snd]. split; [done|]. unfold serve_at, serve_one, on_fence, mbind, ST_bind. cbn [fst snd].
  destruct Hadm as [Hadm|[e Hadm]].
  - right. rewrite Hadm. cbn [map_err fst snd]. destruct (run_allowed machine reply_json env (s1, h)) as [out [s2 h2]] eqn:Hra.
    pose proof (run_allowed_machine machine env s1 h out s2 h2 Hra) as ->.
    exists out, s2. split_and!; try done. cbn. by rewrite lookup_insert_eq.
  - left. exists e. split; [done|]. rewrite Hadm. cbn. by rewrite lookup_insert_eq.
Qed.
End Properties.

(** ** Witnesses: one machine with one domain *)

#[global] Instance Domain_eq_dec : EqDecision Domain.
Proof. solve_decision. Defined.

Record Toy : Type := mkToy { toy_domains : list Domain; toy_network : option MachineNetwork }.

Definition web_domain (state : State) : Domain := mkDomain "u1" "web" state.
Definition set_domain (state : State) : ST string Toy State :=
  fun t => (Ok state, mkToy [web_domain state] (toy_network t)).

(** A machine that remembers its domain and its network. *)
Definition toy_machine : Fence.Host Toy :=
  mkHostOps Toy (mret (mkHealth 1 "m1" "node" 0 "boot-1")) (mret (mkCapabilities "x86_64" 8 1024 100 50 "9"))
    (reading (fun t => Ok (toy_domains t))) (mret (mkSamples (mkHostSample None 0 0 0 0 1) []))
    (fun _ => mret (ImageReady "" "" true 0))
    (fun n t => (Ok (NetworkApplied 0 0 0 0), mkToy (toy_domains t) (Some n)))
    (fun _ => mret (Provisioned Running)) (fun _ => set_domain Running) (fun _ => set_domain Stopped)
    (fun _ => set_domain Running) (fun _ => set_domain Stopped) (fun _ => set_domain Stopped) (fun _ _ => set_domain Stopped).

(** The few words this wire knows. *)
Definition toy_reply_json (r : Fence.Reply) : result string string :=
  match r with
  | Changed state => Ok (as_str state)
  | NetworkApplied 0 0 0 0 => Ok "applied"
  | ReInventory domains => if bool_decide (domains = [web_domain Running]) then Ok "web runs" else Err "unknown"
  | _ => Err "unknown"
  end.
Definition toy_reply_of_json (s : string) : option Fence.Reply :=
  if bool_decide (s = "applied") then Some (NetworkApplied 0 0 0 0)
  else if bool_decide (s = "web runs") then Some (ReInventory [web_domain Running])
  else match from_str s with Ok state => Some (Changed state) | Err _ => None end.

Definition toy_refusal_json (r : Refusal) : result string string :=
  match r with UnfencedChange => Ok "unfenced" | _ => Err "unknown" end.

Lemma toy_reply_read_back r s : toy_reply_json r = Ok s -> toy_reply_of_json s = Some r.
Proof.
  unfold toy_reply_json. repeat (case_match; try done); intros; simplify_eq; try done.
  - match goal with Hd : bool_decide _ = true |- _ => apply bool_decide_eq_true in Hd as -> end. done.
  - match goal with |- context [State_as_str ?st] => by destruct st end.
Qed.

#[global] Program Instance toy_wire : Wire := {|
  reply_json := toy_reply_json;
  refusal_json := toy_refusal_json;
  reply_of_json := toy_reply_of_json;
  refusal_of_json := fun s => if bool_decide (s = "unfenced") then Some UnfencedChange else None
|}.
Next Obligation. exact toy_reply_read_back. Qed.
Next Obligation. intros r s Hr. unfold toy_refusal_json in Hr. destruct r; by simplify_eq. Qed.

Definition toy_uuid (n : nat) : string := dec (Z.of_nat n).
Lemma toy_uuid_inj n m : toy_uuid n = toy_uuid m -> n = m.
Proof. intros Hd%dec_inj; lia. Qed.

Definition toy_json (op : Operation) : result string string :=
  match op with StartInstance i => Ok ("start " +:+ ir_uuid i) | _ => Ok "other" end.
Definition toy_json_network (m : MachineNetwork) : result string string :=
  Ok (dec (Z.of_nat (length (flat_map (fun u => flat_map pi_http_ports (mu_instances u)) (mn_users m))))).
Definition toy_sha256 (body : string) : list Z := ascii_code <$> chars body.

Definition m1_host : Host := mkHost 1 (Some "m1") "node" "" (Some "http://m1") None true PlActive 5.
Definition toy_lease : Lease := mkLease "ctl" 1 (100 * nanos_per_sec).
Definition toy_world : World SqliteFence Toy :=
  mkWorld small_db_1 {[ "http://m1" := (wit_store, mkToy [] None) ]} (10 * nanos_per_sec) 0 toy_lease ∅ ∅ [].
Definition start_web : Operation := StartInstance (mkInstanceRef "u1" "web").

#[local] Existing Instance decimal_time.
#[local] Existing Instance SqliteFence_store.
#[local] Existing Instance SqliteFence_laws.

#[local] Abbreviation toy_fence := (SqliteFence_store wit_rfc3339).
#[local] Abbreviation toy_handle :=
  (controller (FS := toy_fence) toy_machine wit_rfc3339 (fun _ => wit_cfg) (fun _ => 0) toy_uuid (fun m => m) dec).
#[local] Abbreviation toy_job := (job toy_sha256 toy_json_network (fun _ => Ok "p") (fun _ => Ok "r") toy_json (fun _ => "odd")).

Lemma toy_world_issued : issued (FL := SqliteFence_laws wit_rfc3339) toy_uuid toy_world.
Proof.
  intros endpoint s h Hr. cbn [w_runners toy_world] in Hr. apply lookup_singleton_Some in Hr as [_ [= <- <-]]. split; [intros object g d Hl|intros id [x Hl]]; by vm_compute in Hl.
Qed.

Definition toy_started : World SqliteFence Toy := snd (run toy_handle (toy_job (JChange Held m1_host start_web)) toy_world).

Lemma runners_hold_given_numbers_witness :
  dispatch_generations (w_db toy_started) !! "u1" = Some 1000001 /\
  issued (FL := SqliteFence_laws wit_rfc3339) toy_uuid toy_started.
Proof.
  split; [vm_compute; reflexivity|].
  eapply proj1, (runners_hold_given_numbers (FL := SqliteFence_laws wit_rfc3339) toy_machine wit_rfc3339 (fun _ => wit_cfg)
    (fun _ => 0) toy_uuid (fun m => m) dec toy_sha256 toy_json_network (fun _ => Ok "p") (fun _ => Ok "r") toy_json
    (fun _ => "odd") [JChange Held m1_host start_web] toy_world toy_started); [apply toy_world_issued|].
  apply (run_pool toy_handle surroundings).
Defined.

Lemma fresh_order_admitted_witness :
  fst (run toy_handle (sync_change toy_sha256 toy_json Held m1_host start_web) toy_world) = Ok Running /\
  exists s2, w_runners toy_started !! "http://m1" = Some (s2, mkToy [web_domain Running] None).
Proof.
  destruct (fresh_order_admitted (FL := SqliteFence_laws wit_rfc3339) toy_machine wit_rfc3339 (fun _ => wit_cfg)
    (fun _ => 0) toy_uuid (fun m => m) dec toy_sha256 toy_json toy_world m1_host "http://m1" "u1" "start u1" start_web
    wit_store (mkToy [] None) 1000001 (snd (next_dispatch_generation "u1" 1 small_db_1)))
    as (env & s1 & w' & -> & <- & _ & Hor);
    [apply toy_uuid_inj|apply toy_world_issued|vm_compute; reflexivity|reflexivity|reflexivity|reflexivity
    |vm_compute; discriminate|vm_compute; reflexivity|vm_compute; discriminate|reflexivity|reflexivity
    |vm_compute; reflexivity|].
  split; [vm_compute; reflexivity|].
  destruct Hor as [(e & Hadm & _)|(out & s2 & _ & _ & Hr & _)]; [vm_compute in Hadm; discriminate Hadm|].
  exists s2. exact Hr.
Defined.
