(* ===== verification/DispatchSync.v ===== *)
(** * DispatchSync: networks, observed states and the poll loop

    What the runs of [NetworkSync], [observe_instances] and [PollTask] leave
    behind: when a machine is told its network again, which rows a poll
    writes, and that no machine has two image syncs at once. *)

From Stdlib Require Import ZArith Lia Ascii.
From S2P Require Import Prelude Text Float64 Ipv4 Network Machine Firewall Netstate Db Store Fence Instances Accounts Runners Placement Images Prog Pool Lifecycle Types Dispatch DispatchRuns.
Open Scope Z_scope.

(** The trace of a fallible program and its continuation. *)
Lemma trace_then {E W X A B} (h : handler E W) (p : fallible E X A) (f : A -> fallible E X B) (w : W) :
  trace h (fallible_bind _ _ f p) w =
    trace h p w ++ match fst (run h p w) with Ok a => trace h (f a) (snd (run h p w)) | Err e => [] end.
Proof.
  pose proof (trace_bind h p (fun r => match r with Ok a => f a | Err e => Ret (Err e) end) w) as Hr.
  etransitivity; [exact Hr|]. by destruct (run h p w) as [[] w'].
Qed.

(** ** The network a database describes *)

Section Facts.
Context `{TimeFormat}.

Definition read_facts : Tx Facts :=
  dep ← deployment;
  hosts ← all_hosts;
  sl ← slots;
  found ← all_instances;
  us ← all_users;
  mret (mkFacts dep hosts sl found us).

Definition facts (d : Db) : result StoreError Facts := fst (read_facts d).

(** The numbers given to orders are no part of it. *)
Lemma facts_generations f d : facts (set_generations f d) = facts d.
Proof.
  unfold facts, read_facts, deployment, all_hosts, slots, all_instances, all_users, list_instances, query, reading,
    lift_res, mbind, ST_bind. cbn [fst snd deployment_prefix hosts runner_slots instances users set_generations].
  repeat (case_match; simplify_eq; try done).
Qed.
End Facts.

Section Network.
Context {TF : TimeFormat} {S H : Type} {FS : FenceStore S} {FL : FenceStoreLaws S} (machine : Fence.Host H) {WI : Wire}.
Context (rfc3339 : Z -> result string string) (cfg : string -> FenceConfig) (drift : string -> Z).
Context (uuid : nat -> string) (error_json : string -> string) (status_text : Z -> string).
Context (sha256 : string -> list Z) (json_network : MachineNetwork -> result string string).

#[local] Abbreviation handle := (controller machine rfc3339 cfg drift uuid error_json status_text).
#[local] Abbreviation W := (World S H).

(** The envelopes of a run. *)
Definition sends {A} (p : prog dcall A) (w : W) : list Envelope := omap sent (trace handle p w).

Lemma with_same_db (w : W) : with_db (w_db w) w = w.
Proof. by destruct w. Qed.

Lemma on_db_read {A} (m : Tx A) (w : W) : reads_only m -> on_db m w = (fst (m (w_db w)), w).
Proof.
  intros Hm. unfold on_db. specialize (Hm (w_db w)). destruct (m (w_db w)) as [r d]. simpl in Hm. subst d.
  by rewrite with_same_db.
Qed.

Lemma read_facts_run d : 
  facts d = match fst (deployment d), fst (all_hosts d), fst (slots d), fst (all_instances d), fst (all_users d) with
            | Ok dep, Ok hosts, Ok sl, Ok found, Ok us => Ok (mkFacts dep hosts sl found us)
            | Err e, _, _, _, _ | _, Err e, _, _, _ | _, _, Err e, _, _ | _, _, _, Err e, _ | _, _, _, _, Err e => Err e
            end.
Proof.
  unfold facts, read_facts, mbind, ST_bind.
  assert (Hr : forall A (m : Tx A), reads_only m -> m d = (fst (m d), d)).
  { intros A m Hm. specialize (Hm d). by destruct (m d); simpl in Hm; subst. }
  rewrite (Hr _ deployment) by done. destruct (fst (deployment d)); [|done]. cbv iota.
  rewrite (Hr _ all_hosts) by (unfold all_hosts; ro_steps). destruct (fst (all_hosts d)); [|done]. cbv iota.
  rewrite (Hr _ slots) by (unfold slots; ro_steps). destruct (fst (slots d)); [|done]. cbv iota.
  rewrite (Hr _ all_instances) by (unfold all_instances, list_instances; ro_steps). destruct (fst (all_instances d)); [|done]. cbv iota.
  rewrite (Hr _ all_users) by (unfold all_users; ro_steps). by destruct (fst (all_users d)).
Qed.

Lemma machine_network_run plan high_ports id ctl (w : W) :
  run handle (machine_network plan high_ports id ctl) w =
    (match facts (w_db w) with
     | Ok f => Ok (describe f plan high_ports id ctl)
     | Err e => Err (DispatchStore e)
     end, w) /\ sends (machine_network plan high_ports id ctl) w = [].
Proof.
  rewrite read_facts_run. unfold sends, machine_network. cbn.
  rewrite !with_same_db.
  rewrite !(on_db_read all_hosts) by (unfold all_hosts; ro_steps). destruct (fst (all_hosts _)); cbn; [|done].
  rewrite !(on_db_read slots) by (unfold slots; ro_steps). destruct (fst (slots _)); cbn; [|done].
  rewrite !(on_db_read all_instances) by (unfold all_instances, list_instances; ro_steps). destruct (fst (all_instances _)); cbn; [|done].
  rewrite !(on_db_read all_users) by (unfold all_users; ro_steps). by destruct (fst (all_users _)); cbn.
Qed.

(** The machine and the network the controller wants it to have. *)
Definition wanted (self : NetworkSync) (host : Host) (d : Db) (network : MachineNetwork) (digest : string) : Prop :=
  h_machine_id host <> None /\ check network = Ok tt /\
  (exists f, facts d = Ok f /\
     network = describe f (ns_plan self) (ns_high_ports self) (h_id host) (ns_controller_host_id self)) /\
  exists body, json_network network = Ok body /\ digest = digest_of sha256 body.

#[local] Abbreviation sync := (network_sync_host sha256 json_network).

Lemma sync_cached self host w network digest :
  wanted self host (w_db w) network digest -> w_applied w !! h_id host = Some digest ->
  run handle (sync self host) w = (Ok tt, w) /\ sends (sync self host) w = [].
Proof.
  intros (Hm & Hc & (f & Hf & ->) & body & Hb & ->) Ha. unfold network_sync_host, sends.
  rewrite bool_decide_eq_false_2 by done.
  destruct (machine_network_run (ns_plan self) (ns_high_ports self) (h_id host) (ns_controller_host_id self) w) as [Hr Hs].
  cbv [mbind D_bind]. rewrite run_then, trace_then, Hr. unfold sends in Hs.
  rewrite omap_app, Hs, Hf. cbn. rewrite Hc. cbn. rewrite Hb. cbn. rewrite Ha. by rewrite bool_decide_eq_true_2.
Qed.

(** What [sync_host] makes of the answer. *)
Definition network_result (host : Host) (digest : string) (answer : option (result string Fence.Reply)) (w : W) :
    result DispatchError unit * W :=
  match answer with
  | Some (Ok (NetworkApplied _ _ _ _)) => (Ok tt, with_applied (<[h_id host := digest]> (w_applied w)) w)
  | Some (Ok other) => (Err (OddAnswer other "a network request"), w)
  | Some (Err message) => (Err (DispatchRunner message), w)
  | None => (Err (DispatchRunner "runner request timed out after 5 seconds"), w)
  end.

(** The order that tells a machine its network. *)
Definition network_order (host : Host) (network : MachineNetwork) (digest : string) (g : Z) (w : W) : Envelope :=
  envelope host (w_lease w) (ApplyNetwork network)
    (Some (mkObjectFence ("network:" +:+ dec_signed (h_id host)) g digest)) (w_clock w) (uuid (w_drawn w)).

Lemma sync_told self host endpoint w network digest g d :
  wanted self host (w_db w) network digest -> w_applied w !! h_id host <> Some digest ->
  h_endpoint host = Some endpoint ->
  next_dispatch_generation ("network:" +:+ dec_signed (h_id host)) (l_epoch (w_lease w)) (w_db w) = (Ok g, d) ->
  let env := network_order host network digest g w in
  let '(answer, w') := deliver machine rfc3339 cfg drift error_json status_text endpoint env (draw (with_db d w)) in
  run handle (sync self host) w = network_result host digest answer w' /\ sends (sync self host) w = [env].
Proof.
  intros (Hm & Hc & (f & Hf & ->) & body & Hb & ->) Ha He Hn env. unfold network_sync_host, sends.
  rewrite bool_decide_eq_false_2 by done.
  destruct (machine_network_run (ns_plan self) (ns_high_ports self) (h_id host) (ns_controller_host_id self) w) as [Hr Hs].
  destruct (deliver _ _ _ _ _ _ _ _ _) as [answer w'] eqn:Hd.
  cbv [mbind D_bind]. rewrite run_then, trace_then, Hr. unfold sends in Hs.
  rewrite omap_app, Hs, Hf. cbn. rewrite Hc. cbn. rewrite Hb. cbn. rewrite bool_decide_eq_false_2 by done. cbn.
  unfold on_db. cbn. rewrite Hn. cbn. rewrite He. cbn. unfold env, network_order in Hd. cbn in Hd. rewrite Hd.
  destruct answer as [[[]|]|]; done.
Qed.

(** *** [note_boot] *)
Lemma note_boot_run id boot w :
  snd (run handle (note_boot id boot) w) =
    (if bool_decide (boot = EmptyString) then w
     else
       let w1 := with_boots (<[id := boot]> (w_boots w)) w in
       match w_boots w !! id with
       | Some previous => if bool_decide (previous = boot) then w1 else with_applied (delete id (w_applied w)) w1
       | None => w1
       end).
Proof. unfold note_boot. case_bool_decide; [done|]. cbn. destruct (w_boots w !! id); [|done]. by case_bool_decide. Qed.

Lemma wanted_generations self host d f network digest :
  wanted self host d network digest -> wanted self host (set_generations f d) network digest.
Proof. unfold wanted. by rewrite facts_generations. Qed.

(** A sync that succeeds has the digest acknowledged. *)
Lemma sync_Ok self host w network digest w1 :
  wanted self host (w_db w) network digest -> run handle (sync self host) w = (Ok tt, w1) ->
  w_applied w1 !! h_id host = Some digest /\ wanted self host (w_db w1) network digest.
Proof.
  intros Hw Hrun. destruct (decide (w_applied w !! h_id host = Some digest)) as [Ha|Ha].
  { rewrite (proj1 (sync_cached _ _ _ _ _ Hw Ha)) in Hrun. by simplify_eq. }
  destruct (next_dispatch_generation ("network:" +:+ dec_signed (h_id host)) (l_epoch (w_lease w)) (w_db w)) as [[g|e] d] eqn:Hn.
  - destruct (h_endpoint host) as [endpoint|] eqn:He.
    + pose proof (sync_told _ _ _ _ _ _ _ _ Hw Ha He Hn) as Ht. cbv zeta in Ht.
      destruct (deliver _ _ _ _ _ _ _ _ _) as [answer w'] eqn:Hd. destruct Ht as [Ht _]. rewrite Ht in Hrun.
      assert (Hdb : w_db w' = d).
      { pose proof (deliver_db machine rfc3339 cfg drift error_json status_text endpoint
          (network_order host network digest g w) (draw (with_db d w))) as [Hdb _]. by rewrite Hd in Hdb. }
      apply next_dispatch_generation_Ok in Hn as (-> & _). unfold network_result in Hrun.
      destruct answer as [[[]|]|]; simplify_eq/=. rewrite lookup_insert_eq, Hdb. split; [done|].
      by apply wanted_generations.
    + exfalso. destruct Hw as (Hm & Hc & (f & Hf & ->) & body & Hb & ->). revert Hrun. unfold network_sync_host.
      rewrite bool_decide_eq_false_2 by done. cbv [mbind D_bind]. rewrite run_then.
      rewrite (proj1 (machine_network_run (ns_plan self) (ns_high_ports self) (h_id host) (ns_controller_host_id self) w)), Hf.
      cbn. rewrite Hc. cbn. rewrite Hb. cbn. rewrite bool_decide_eq_false_2 by done. cbn. unfold on_db. cbn. rewrite Hn. cbn.
      by rewrite He.
  - exfalso. destruct Hw as (Hm & Hc & (f & Hf & ->) & body & Hb & ->). revert Hrun. unfold network_sync_host.
    rewrite bool_decide_eq_false_2 by done. cbv [mbind D_bind]. rewrite run_then.
    rewrite (proj1 (machine_network_run (ns_plan self) (ns_high_ports self) (h_id host) (ns_controller_host_id self) w)), Hf.
    cbn. rewrite Hc. cbn. rewrite Hb. cbn. rewrite bool_decide_eq_false_2 by done. cbn. unfold on_db. cbn. by rewrite Hn.
Qed.

(** A machine is told its network once per boot.  After a sync that
    succeeded, while the database describes the same network: the next sync
    sends nothing, also after a poll that reported the same boot, or none; but
    after a poll that reported another boot identifier the next sync sends the
    whole network again, numbered afresh. *)
Theorem told_once_per_boot (self : NetworkSync) (host : Host) (endpoint boot booted : string) (w w1 : W)
    (network : MachineNetwork) (digest : string) (g : Z) (d : Db) :
  wanted self host (w_db w) network digest -> run handle (sync self host) w = (Ok tt, w1) ->
  h_endpoint host = Some endpoint -> w_boots w1 !! h_id host = Some booted ->
  next_dispatch_generation ("network:" +:+ dec_signed (h_id host)) (l_epoch (w_lease w1)) (w_db w1) = (Ok g, d) ->
  let w2 := snd (run handle (note_boot (h_id host) boot) w1) in
  if bool_decide (boot = EmptyString \/ boot = booted)
  then run handle (sync self host) w2 = (Ok tt, w2) /\ sends (sync self host) w2 = []
  else sends (sync self host) w2 = [network_order host network digest g w2].
Proof.
  intros Hw Hrun He Hb Hn w2. destruct (sync_Ok _ _ _ _ _ _ Hw Hrun) as [Ha Hw1]. subst w2.
  rewrite note_boot_run, Hb. case_bool_decide as Hc.
  - destruct Hc as [-> | ->].
    + rewrite bool_decide_eq_true_2 by done. by eapply sync_cached.
    + case_bool_decide; [by eapply sync_cached|]. rewrite bool_decide_eq_true_2 by done. by eapply sync_cached.
  - rewrite bool_decide_eq_false_2 by tauto. cbv zeta. rewrite bool_decide_eq_false_2 by (intros ->; tauto).
    set (w2 := with_applied _ _).
    pose proof (sync_told self host endpoint w2 network digest g d Hw1) as Ht. cbv zeta in Ht.
    destruct (deliver _ _ _ _ _ _ _ _ _). apply Ht; [|done|done]. unfold w2. cbn. by rewrite lookup_delete_eq.
Qed.

(** A lost answer hides a network.  The cache says a machine has the
    network with digest [digest1]; it is then told another one, applies it, and
    the answer is lost.  When the database describes the first network again,
    the sync sends nothing and succeeds, though the machine has the other. *)
Theorem lost_answer_hides_network (self : NetworkSync) (host : Host) (endpoint : string) (w : W) (s s1 : S) (h : H)
    (network1 network2 : MachineNetwork) (digest1 digest2 : string) (g : Z) (d d' : Db) (net : list Delivery) :
  wanted self host (w_db w) network2 digest2 -> w_applied w !! h_id host = Some digest1 -> digest1 <> digest2 ->
  h_endpoint host = Some endpoint -> w_runners w !! endpoint = Some (s, h) -> w_net w = AnswerLost :: net ->
  next_dispatch_generation ("network:" +:+ dec_signed (h_id host)) (l_epoch (w_lease w)) (w_db w) = (Ok g, d) ->
  fence_admit rfc3339 (cfg endpoint) (w_clock w + drift endpoint) (network_order host network2 digest2 g w) s =
    (Ok Allowed, s1) ->
  wanted self host d' network1 digest1 ->
  exists w1 s2, snd (run handle (sync self host) w) = w1 /\
    w_runners w1 !! endpoint = Some (s2, snd (apply_network machine network2 h)) /\
    run handle (sync self host) (with_db d' w1) = (Ok tt, with_db d' w1) /\
    sends (sync self host) (with_db d' w1) = [].
Proof.
  intros Hw Ha Hne He Hr Hnet Hn Hadm Hw'.
  assert (Ha2 : w_applied w !! h_id host <> Some digest2) by congruence.
  pose proof (sync_told _ _ _ _ _ _ _ _ Hw Ha2 He Hn) as Ht. cbv zeta in Ht. revert Ht. unfold deliver. cbn [w_runners draw with_db w_net].
  rewrite Hr, Hnet. cbn [head]. unfold serve_at, serve_one, on_fence, mbind, ST_bind. cbn [fst snd w_clock draw with_db].
  rewrite Hadm. cbn [map_err]. destruct (run_allowed machine reply_json _ (s1, h)) as [out [s2 h2]] eqn:Hra.
  apply run_allowed_machine in Hra. cbn [e_op network_order envelope perform] in Hra. subst h2. cbn [snd].
  intros [Ht _]. eexists _, s2. split; [reflexivity|]. rewrite Ht. cbn [network_result snd].
  split; [cbn; by rewrite lookup_insert_eq|]. eapply sync_cached; [exact Hw'|done].
Qed.
End Network.

(** ** Observed states *)

Lemma observe_all_rows states d d' :
  NoDup (fst <$> states) -> observe_all states d = (Ok tt, d') ->
  forall u, instances d' !! u = match (list_to_map states : gmap string State) !! u with
                                | Some st => with_state (as_str st) <$> instances d !! u
                                | None => instances d !! u
                                end.
Proof.
  revert d. induction states as [|[v st] states IH]; intros d Hnd Ho u; simpl in Ho; [injection Ho as <-; cbn [list_to_map foldr]; by rewrite lookup_empty|].
  apply NoDup_cons in Hnd as [Hv Hnd]. tx_inv. specialize (IH _ Hnd Ho u). rewrite IH. cbn [list_to_map foldr uncurry].
  assert (Hnone : forall d0 : Db, (list_to_map states : gmap string State) !! v = None).
  { intros _. by apply not_elem_of_list_to_map_1. }
  destruct (decide (u = v)) as [->|Hne].
  - rewrite lookup_insert_eq, (Hnone d).
    apply update_instance_row_Ok in Hs as [(Hno & _ & ->)|(r & Hl & _ & _ & ->)]; [by rewrite Hno|].
    cbn. by rewrite lookup_insert_eq, Hl.
  - rewrite lookup_insert_ne by done.
    apply update_instance_row_Ok in Hs as [(_ & _ & ->)|(r & Hl & _ & _ & ->)]; [done|].
    cbn. by rewrite lookup_insert_ne.
Qed.

Lemma update_observed_rows (m : gmap string State) d d' :
  update_observed_states (map_to_list m) d = (Ok tt, d') ->
  forall u, instances d' !! u = match m !! u with
                                | Some st => with_state (as_str st) <$> instances d !! u
                                | None => instances d !! u
                                end.
Proof.
  unfold update_observed_states. case_bool_decide as Hm.
  - intros [= <-] u. apply map_to_list_empty_iff in Hm as ->. by rewrite lookup_empty.
  - intros Ho u. apply (proj1 (with_tx_Ok _ _ _ _)) in Ho. rewrite (observe_all_rows _ _ _ (NoDup_fst_map_to_list m) Ho u). by rewrite list_to_map_to_list.
Qed.

(** What [changed_states] holds of one row. *)
Lemma changed_states_lookup (seen : gmap string State) (rows : list Instance) (m : gmap string State) u :
  NoDup (i_uuid <$> rows) ->
  foldl (fun states i =>
    let state := default Stopped (seen !! i_uuid i) in
    if bool_decide (state = i_state i) then states else <[i_uuid i := state]> states) m rows !! u =
  match find_first (fun i => bool_decide (i_uuid i = u)) rows with
  | Some i => if bool_decide (default Stopped (seen !! u) = i_state i) then m !! u else Some (default Stopped (seen !! u))
  | None => m !! u
  end.
Proof.
  revert m. induction rows as [|i rows IH]; intros m Hnd; [done|]. apply NoDup_cons in Hnd as [Hi Hnd].
  cbn [foldl find_first]. rewrite IH by done. destruct (bool_decide_reflect (i_uuid i = u)) as [<-|Hne].
  - rewrite (proj2 (find_first_None _ _)).
    + case_bool_decide; [done|]. by rewrite lookup_insert_eq.
    + apply Forall_forall. intros j Hj. apply bool_decide_eq_false. intros Heq. apply Hi. rewrite <-Heq.
      by apply list_elem_of_fmap_2.
  - destruct (find_first _ rows); repeat case_bool_decide; try done; by rewrite lookup_insert_ne.
Qed.

Lemma scanned_state `{TimeFormat} u r i : scan_instance u r = Ok i -> in_state r = as_str (i_state i).
Proof.
  intros Hs. unfold scan_instance in Hs. result_inv. subst i. simpl. unfold parse_enum in *.
  repeat match goal with Hm : map_err _ _ = Ok _ |- _ => apply map_err_Ok in Hm end. exact (proj1 (from_str_Ok _ _) Hv).
Qed.

Lemma on_host_rows `{TimeFormat} host_id d found :
  fst (instances_on_host host_id d) = Ok found ->
  NoDup (i_uuid <$> found) /\
  (forall i, i ∈ found <-> exists row, instances d !! i_uuid i = Some row /\ in_host_id row = host_id /\
     scan_instance (i_uuid i) row = Ok i) /\
  (forall u row, instances d !! u = Some row -> in_host_id row = host_id -> exists i, i ∈ found /\ i_uuid i = u).
Proof.
  unfold instances_on_host, list_instances, mbind, ST_bind, query, reading. cbn. intros Hf.
  set (rows_ := rows (fun (_ : string) (i : InstanceRow) => in_host_id i =? host_id) (instances d)) in *.
  assert (Hin : forall u row, (u, row) ∈ sort_by oldest_first rows_ <-> instances d !! u = Some row /\ in_host_id row = host_id).
  { intros u row. rewrite elem_of_sort_by. unfold rows_. by rewrite elem_of_rows, Z.eqb_eq. }
  assert (Huu : forall u row i, scan_instance u row = Ok i -> i_uuid i = u) by (intros u row i Hs; by apply scan_instance_Ok in Hs as [? _]).
  assert (Hmap : i_uuid <$> found = fst <$> sort_by oldest_first rows_).
  { clear Hin. apply mapM_Ok in Hf. induction Hf as [|[u row] i l l' Hs _ IH]; [done|]. simpl. f_equal; [by eapply Huu|done]. }
  split; [|split].
  - rewrite Hmap. rewrite (fmap_Permutation fst _ _ (sort_by_perm _ rows_)). unfold rows_, rows.
    apply NoDup_fmap_fst; [|apply NoDup_filter, NoDup_map_to_list]. intros u r1 r2 [_ H1]%list_elem_of_filter [_ H2]%list_elem_of_filter.
    apply elem_of_map_to_list in H1, H2. congruence.
  - intros i. rewrite (mapM_Ok_elem _ _ _ _ Hf). split.
    + intros ([u row] & [Hl Hh]%Hin & Hs). cbn in Hs. pose proof (Huu _ _ _ Hs) as <-. by exists row.
    + intros (row & Hl & Hh & Hs). exists (i_uuid i, row). split; [by apply Hin|done].
  - intros u row Hl Hh. assert (Hu : u ∈ i_uuid <$> found).
    { rewrite Hmap. apply (list_elem_of_fmap_2' fst _ (u, row)); [by apply Hin|done]. }
    apply list_elem_of_fmap in Hu as (i & -> & Hi). eauto.
Qed.

Section Observe.
Context {TF : TimeFormat} {S H : Type} {FS : FenceStore S} (machine : Fence.Host H) {WI : Wire}.
Context (rfc3339 : Z -> result string string) (cfg : string -> FenceConfig) (drift : string -> Z).
Context (uuid : nat -> string) (error_json : string -> string) (status_text : Z -> string).

#[local] Abbreviation handle := (controller machine rfc3339 cfg drift uuid error_json status_text).
#[local] Abbreviation W := (World S H).

Lemma changed_state_of `{TimeFormat} host_id d found seen u row :
  fst (instances_on_host host_id d) = Ok found -> instances d !! u = Some row ->
  match changed_states seen found !! u with
  | Some st => Some (with_state (as_str st) row)
  | None => Some row
  end = Some (if in_host_id row =? host_id then with_state (as_str (default Stopped (seen !! u))) row else row).
Proof.
  intros (Hnd & Hin & Hall)%on_host_rows Hl. unfold changed_states. rewrite changed_states_lookup by done.
  rewrite lookup_empty. destruct (find_first _ found) as [i|] eqn:Hfi.
  - apply find_first_elem in Hfi as [Hi Hu%bool_decide_eq_true]. subst u.
    apply Hin in Hi as (row' & Hl' & Hh & Hs). rewrite Hl in Hl'. simplify_eq. rewrite Z.eqb_refl.
    case_bool_decide as Hst; [|done]. rewrite Hst, <-(scanned_state _ _ _ Hs). by destruct row'.
  - destruct (Z.eqb_spec (in_host_id row) host_id) as [Hh|]; [|done]. exfalso.
    destruct (Hall _ _ Hl Hh) as (i & Hi & <-). apply find_first_None in Hfi. rewrite Forall_forall in Hfi.
    specialize (Hfi i Hi). by rewrite bool_decide_eq_true_2 in Hfi.
Qed.

(** A poll writes what the machine said, and only of its own instances.
    When [observe_instances] succeeds, every row of another machine is as it
    was; if this machine has rows, it answered an inventory, and each of its
    rows now has the state of the domain with its UUID in that inventory, or
    is stopped where there is none. *)
Theorem poll_records_inventory (endpoint : string) (host : Host) (w w' : W) (n : nat) :
  run handle (observe_instances endpoint host) w = (Ok n, w') ->
  exists seen : gmap string State,
    (forall u row, instances (w_db w) !! u = Some row ->
       instances (w_db w') !! u =
         Some (if in_host_id row =? h_id host then with_state (as_str (default Stopped (seen !! u))) row else row)) /\
    ((exists u row, instances (w_db w) !! u = Some row /\ in_host_id row = h_id host) ->
     exists t env domains, seen = inventory_states domains /\ e_op env = OpInventory /\
       mkEvent (DSend t endpoint env) (Some (Ok (ReInventory domains))) ∈ trace handle (observe_instances endpoint host) w).
Proof.
  intros Hrun. unfold observe_instances in Hrun |- *. cbn in Hrun |- *.
  assert (Hread : reads_only (instances_on_host (h_id host))) by (unfold instances_on_host, list_instances; ro_steps).
  rewrite on_db_read in Hrun by done. rewrite on_db_read by done. cbn in Hrun |- *.
  destruct (fst (instances_on_host (h_id host) (w_db w))) as [found|e] eqn:Hf; [|done]. cbn in Hrun |- *.
  case_bool_decide as He; cbn in Hrun |- *.
  - subst found. injection Hrun as _ <-. exists ∅. apply on_host_rows in Hf as (_ & _ & Hall). split.
    + intros u row Hl. destruct (Z.eqb_spec (in_host_id row) (h_id host)) as [Hh|]; [|done].
      destruct (Hall _ _ Hl Hh) as (i & Hi & _). by apply elem_of_nil in Hi.
    + intros (u & row & Hl & Hh). destruct (Hall _ _ Hl Hh) as (i & Hi & _). by apply elem_of_nil in Hi.
  - pose proof (deliver_db machine rfc3339 cfg drift error_json status_text endpoint
      (envelope host (w_lease w) OpInventory None (w_clock w) (uuid (w_drawn w))) (draw w)) as [Hdb _].
    destruct (deliver _ _ _ _ _ _ endpoint _ (draw w)) as [answer w1] eqn:Hd. cbn in Hrun, Hdb |- *.
    destruct answer as [[reply|m]|]; cbn in Hrun |- *; [|done..].
    destruct reply as [| |domains| | | | |]; cbn in Hrun; try done. cbn.
    exists (inventory_states domains). unfold on_db in Hrun |- *. rewrite Hdb in Hrun.
    destruct (update_observed_states _ (w_db w)) as [[[]|e] d'] eqn:Hup; cbn in Hrun; [|done]. injection Hrun as _ <-. cbn.
    split.
    + intros u row Hl. rewrite (update_observed_rows _ _ _ Hup u), Hl. by eapply changed_state_of.
    + intros _. eexists _, _, domains. split; [done|]. split; [|do 4 right; left]. done.
Qed.
End Observe.

(** ** The poll loop *)

Lemma remove_task_perm id l : id ∈ l -> l ≡ₚ id :: remove_task id l.
Proof.
  induction l as [|x l IH]; [by intros ?%elem_of_nil|]. simpl. destruct (Z.eqb_spec x id) as [->|]; [done|].
  intros [|Hl]%elem_of_cons; [done|]. rewrite (IH Hl) at 1. apply perm_swap.
Qed.

(** No host has two tasks, and every task's host is marked. *)
Definition poll_ok (s : PollState) : Prop :=
  NoDup (image_tasks s) /\ forall id, id ∈ image_tasks s -> id ∈ syncing s.

Lemma start_sync_ok s id : poll_ok s -> poll_ok (start_sync s id).
Proof.
  intros [Hnd Hin]. unfold start_sync. case_bool_decide as Hs; [by split|]. split; cbn.
  - apply NoDup_app. split; [done|]. split; [|apply NoDup_singleton]. intros x Hx ->%list_elem_of_singleton. by apply Hs, Hin.
  - intros x [Hx| ->%list_elem_of_singleton]%elem_of_app; set_solver.
Qed.

Lemma remove_task_ok s id marks :
  poll_ok s -> id ∈ image_tasks s -> (forall x, x ∈ syncing s -> x <> id -> x ∈ marks) ->
  poll_ok (mkPollState marks (remove_task id (image_tasks s))) /\ (id ∉ remove_task id (image_tasks s)).
Proof.
  intros [Hnd Hin] Hi Hm. pose proof (remove_task_perm _ _ Hi) as Hp. rewrite Hp in Hnd.
  apply NoDup_cons in Hnd as [Hni Hnd]. split; [|done]. split; [done|]. cbn. intros x Hx. apply Hm.
  - apply Hin. rewrite Hp. by right.
  - intros ->. done.
Qed.

Lemma poll_next_ok s ev s' : poll_ok s -> poll_next s ev = Some s' -> poll_ok s'.
Proof.
  intros Hok. destruct ev as [id|id|healthy]; simpl.
  - case_bool_decide as Hi; [|done]. intros [= <-]. apply remove_task_ok; [done|done|set_solver].
  - case_bool_decide as Hi; [|done]. intros [= <-]. apply remove_task_ok; [done|done|set_solver].
  - intros [= <-]. revert s Hok. induction healthy as [|p healthy IH]; intros s Hok; [done|]. simpl. by apply IH, start_sync_ok.
Qed.

Lemma poll_history_ok s evs s' : poll_ok s -> poll_history s evs = Some s' -> poll_ok s'.
Proof.
  revert s. induction evs as [|ev evs IH]; intros s Hok; simpl; [by intros [= <-]|].
  intros (s1 & H1 & H2)%bind_Some. eapply IH; [|exact H2]. by eapply poll_next_ok.
Qed.

(** A host that is marked and has no task stays so. *)
Definition stuck (id : Z) (s : PollState) : Prop := id ∈ syncing s /\ id ∉ image_tasks s.

Lemma start_sync_stuck s id x : stuck id s -> stuck id (start_sync s x).
Proof. intros [Hi Hn]. unfold start_sync. case_bool_decide as Hs; [by split|]. split; cbn; [set_solver|]. rewrite elem_of_app. set_solver. Qed.

Lemma poll_next_stuck s ev s' id : poll_ok s -> stuck id s -> poll_next s ev = Some s' -> stuck id s'.
Proof.
  intros Hok [Hs Hn]. destruct ev as [x|x|healthy]; simpl.
  - case_bool_decide as Hi; [|done]. intros [= <-]. split; cbn; [set_solver|]. intros Hx. apply Hn.
    rewrite (remove_task_perm _ _ Hi). by right.
  - case_bool_decide as Hi; [|done]. intros [= <-]. split; cbn; [done|]. intros Hx. apply Hn.
    rewrite (remove_task_perm _ _ Hi). by right.
  - intros [= <-]. assert (Hst : stuck id s) by done. clear Hok Hs Hn. revert s Hst.
    induction healthy as [|p healthy IH]; intros s Hst; [done|]. simpl. by apply IH, start_sync_stuck.
Qed.

Lemma poll_history_app s evs evs' s' :
  poll_history s (evs ++ evs') = Some s' <-> exists s1, poll_history s evs = Some s1 /\ poll_history s1 evs' = Some s'.
Proof.
  revert s. induction evs as [|ev evs IH]; intros s; simpl; [naive_solver|].
  rewrite bind_Some. setoid_rewrite IH. setoid_rewrite bind_Some. naive_solver.
Qed.

(** Without a failed join, exactly the hosts with a task are marked. *)
Lemma poll_marks s evs s' :
  (forall id, id ∈ syncing s -> id ∈ image_tasks s) -> (forall id, JoinFailed id ∉ evs) ->
  poll_history s evs = Some s' -> forall id, id ∈ syncing s' -> id ∈ image_tasks s'.
Proof.
  revert s. induction evs as [|ev evs IH]; intros s Hm Hnf; simpl; [by intros [= <-]|].
  intros (s1 & H1 & H2)%bind_Some. eapply IH; [|set_solver|exact H2]. clear H2 IH.
  destruct ev as [x|x|healthy]; simpl in H1.
  - case_bool_decide as Hi; [|done]. injection H1 as <-. cbn. intros id Hid.
    assert (Ht : id ∈ image_tasks s) by (apply Hm; set_solver). rewrite (remove_task_perm _ _ Hi) in Ht.
    apply elem_of_cons in Ht as [->|]; [set_solver|done].
  - exfalso. apply (Hnf x). left.
  - injection H1 as <-. clear Hnf. revert s Hm. induction healthy as [|p healthy IH]; intros s Hm; [done|]. simpl.
    apply IH. unfold start_sync. case_bool_decide; [done|]. cbn. intros id. rewrite elem_of_app. set_solver.
Qed.

Lemma start_syncs_marked s (healthy : list (Host * string)) p : p ∈ healthy -> h_id p.1 ∈ syncing (foldl (fun s p => start_sync s (h_id p.1)) s healthy).
Proof.
  assert (Hmono : forall l s id, id ∈ syncing s -> id ∈ syncing (foldl (fun s p => start_sync s (h_id (p : Host * string).1)) s l)).
  { intros l. induction l as [|q l IH]; intros s1 id Hid; [done|]. simpl. apply IH. unfold start_sync. case_bool_decide; set_solver. }
  revert s. induction healthy as [|q healthy IH]; intros s; [by intros ?%elem_of_nil|]. simpl.
  intros [->|Hp]%elem_of_cons; [|by apply IH]. apply Hmono. unfold start_sync. case_bool_decide; [done|]. cbn. set_solver.
Qed.

(** One image sync per host.  Through every history of ticks and ended
    tasks no host has two image syncs running; as long as every task could be
    joined, each host a tick finds well has one running afterwards.  But once
    a task of a host could not be joined, no later tick ever starts a sync for
    that host again. *)
Theorem one_image_sync_per_host (evs evs' : list PollEvent) (healthy : list (Host * string)) (s s' : PollState) (id : Z) :
  poll_history poll_start (evs ++ [Ticked healthy]) = Some s ->
  poll_history poll_start (evs ++ JoinFailed id :: evs') = Some s' ->
  NoDup (image_tasks s) /\
  ((forall x, JoinFailed x ∉ evs) -> forall p, p ∈ healthy -> h_id p.1 ∈ image_tasks s) /\
  (id ∉ image_tasks s').
Proof.
  assert (H0 : poll_ok poll_start) by (split; [constructor|set_solver]).
  intros Hs Hs'. split; [by apply (poll_history_ok _ _ _ H0 Hs)|]. split.
  - intros Hnf p Hp. apply (poll_marks poll_start (evs ++ [Ticked healthy]) s); [set_solver|set_solver|done|].
    apply poll_history_app in Hs as (s1 & _ & Hs). simpl in Hs. injection Hs as <-. by apply start_syncs_marked.
  - apply poll_history_app in Hs' as (s1 & H1 & (s2 & H2 & H3)%bind_Some).
    pose proof (poll_history_ok _ _ _ H0 H1) as Hok1. pose proof (poll_next_ok _ _ _ Hok1 H2) as Hok2.
    assert (Hst : stuck id s2).
    { simpl in H2. case_bool_decide as Hi; [|done]. injection H2 as <-. split; cbn; [by apply Hok1|].
      by eapply remove_task_ok. }
    clear - H3 Hok2 Hst. revert s2 Hok2 Hst H3. induction evs' as [|ev evs' IH]; intros s2 Hok Hst; simpl.
    + intros [= <-]. apply Hst.
    + intros (s3 & H2 & H3)%bind_Some. eapply IH; [by eapply poll_next_ok|by eapply poll_next_stuck|exact H3].
Qed.

(** ** Witnesses: the machine of [toy_world] *)

#[local] Existing Instance decimal_time.
#[local] Existing Instance SqliteFence_store.

#[local] Abbreviation toy_fence := (SqliteFence_store wit_rfc3339).
#[local] Abbreviation toy_laws := (SqliteFence_laws wit_rfc3339).
#[local] Abbreviation toy_handle :=
  (controller (FS := toy_fence) toy_machine wit_rfc3339 (fun _ => wit_cfg) (fun _ => 0) toy_uuid (fun m => m) dec).
#[local] Abbreviation toy_sends := (sends (FS := toy_fence) toy_machine wit_rfc3339 (fun _ => wit_cfg) (fun _ => 0) toy_uuid (fun m => m) dec).

Definition toy_sync : NetworkSync := mkNetworkSync (mkPlan (mkPrefix 174325760 16)) (mkPortRange 10000 10999) 1.
Definition hidden_network : MachineNetwork :=
  mkMachineNetwork (mkPrefix 174325760 16) 24
    [mkMachineUser 0 (mkPrefix 174325760 24) [mkPublished 174325762 [] []]; mkMachineUser 1 (mkPrefix 174326016 24) []]
    [] [] [].
Definition public_network : MachineNetwork :=
  mkMachineNetwork (mkPrefix 174325760 16) 24
    [mkMachineUser 0 (mkPrefix 174325760 24) [mkPublished 174325762 [80] [mkPortRange 10000 10999]];
     mkMachineUser 1 (mkPrefix 174326016 24) []] [] [] [].

Lemma hidden_wanted : wanted toy_sha256 toy_json_network toy_sync m1_host small_db_1 hidden_network (digest_of toy_sha256 "0").
Proof.
  split; [discriminate|]. split; [vm_compute; reflexivity|]. split; [|exists "0"; split; reflexivity].
  destruct (facts small_db_1) as [f|e] eqn:Hf; [|vm_compute in Hf; discriminate Hf].
  exists f. split; [reflexivity|]. vm_compute in Hf. injection Hf as <-. vm_compute. reflexivity.
Qed.
(** The machine was told, and has reported a boot. *)
Definition toy_booted : World SqliteFence Toy := with_boots {[ 1 := "boot-1" ]} toy_world.
Definition toy_told : World SqliteFence Toy :=
  snd (run toy_handle (network_sync_host toy_sha256 toy_json_network toy_sync m1_host) toy_booted).

Definition small_db_public : Db := snd (set_visibility "u1" Public (w_db toy_told)).

Lemma public_wanted :
  wanted toy_sha256 toy_json_network toy_sync m1_host small_db_public public_network (digest_of toy_sha256 "1").
Proof.
  split; [discriminate|]. split; [vm_compute; reflexivity|]. split; [|exists "1"; split; reflexivity].
  destruct (facts small_db_public) as [f|e] eqn:Hf; [|vm_compute in Hf; discriminate Hf].
  exists f. split; [reflexivity|]. vm_compute in Hf. injection Hf as <-. vm_compute. reflexivity.
Qed.

Lemma told_once_per_boot_witness :
  w_applied toy_told !! 1 = Some (digest_of toy_sha256 "0") /\
  exists env, toy_sends (network_sync_host toy_sha256 toy_json_network toy_sync m1_host)
    (snd (run toy_handle (note_boot 1 "boot-2") toy_told)) = [env] /\ e_op env = ApplyNetwork hidden_network.
Proof.
  split; [vm_compute; reflexivity|].
  pose proof (told_once_per_boot (FS := toy_fence) toy_machine wit_rfc3339 (fun _ => wit_cfg) (fun _ => 0) toy_uuid (fun m => m) dec
    toy_sha256 toy_json_network toy_sync m1_host "http://m1" "boot-2" "boot-1" toy_booted toy_told hidden_network
    (digest_of toy_sha256 "0") 1000002 (snd (next_dispatch_generation "network:1" 1 (w_db toy_told))) hidden_wanted) as Ht.
  eexists. split; [apply Ht; [vm_compute; reflexivity|reflexivity|vm_compute; reflexivity|vm_compute; reflexivity]|reflexivity].
Defined.

(** The guest was published, and the answer is going to be lost. *)
Definition toy_losing : World SqliteFence Toy := with_net [AnswerLost] (with_db small_db_public toy_told).

Lemma lost_answer_hides_network_witness :
  exists w1 s2 t, snd (run toy_handle (network_sync_host toy_sha256 toy_json_network toy_sync m1_host) toy_losing) = w1 /\
    w_runners w1 !! "http://m1" = Some (s2, t) /\ toy_network t = Some public_network /\
    toy_sends (network_sync_host toy_sha256 toy_json_network toy_sync m1_host) (with_db small_db_1 w1) = [].
Proof.
  destruct (lost_answer_hides_network (FS := toy_fence) toy_machine wit_rfc3339 (fun _ => wit_cfg) (fun _ => 0) toy_uuid (fun m => m) dec
    toy_sha256 toy_json_network toy_sync m1_host "http://m1" toy_losing
    (fst (default (wit_store, mkToy [] None) (w_runners toy_losing !! "http://m1")))
    (snd (fence_admit (FS := toy_fence) wit_rfc3339 wit_cfg (10 * nanos_per_sec + 0)
       (network_order toy_uuid m1_host public_network (digest_of toy_sha256 "1") 1000002 toy_losing)
       (fst (default (wit_store, mkToy [] None) (w_runners toy_losing !! "http://m1")))))
    (snd (default (wit_store, mkToy [] None) (w_runners toy_losing !! "http://m1")))
    hidden_network public_network (digest_of toy_sha256 "0") (digest_of toy_sha256 "1") 1000002
    (snd (next_dispatch_generation "network:1" 1 small_db_public)) small_db_1 [])
    as (w1 & s2 & Hw & Hr & _ & Hs);
    [exact public_wanted|vm_compute; reflexivity|vm_compute; discriminate|reflexivity|vm_compute; reflexivity|reflexivity
    |vm_compute; reflexivity|vm_compute; reflexivity|exact hidden_wanted|].
  exists w1, s2. eexists. split; [exact Hw|]. split; [exact Hr|]. split; [reflexivity|exact Hs].
Defined.

(** The machine runs the guest the database still calls stopped. *)
Definition toy_running : World SqliteFence Toy :=
  with_runner "http://m1" (wit_store, mkToy [web_domain Running] None) toy_world.

Lemma poll_records_inventory_witness :
  in_state <$> instances small_db_1 !! "u1" = Some "stopped" /\
  exists w', run toy_handle (observe_instances "http://m1" m1_host) toy_running = (Ok 1%nat, w') /\
    exists row, instances (w_db w') !! "u1" = Some row /\ in_state row = "running".
Proof.
  split; [vm_compute; reflexivity|].
  exists (snd (run toy_handle (observe_instances "http://m1" m1_host) toy_running)).
  assert (Hr : run toy_handle (observe_instances "http://m1" m1_host) toy_running =
    (Ok 1%nat, snd (run toy_handle (observe_instances "http://m1" m1_host) toy_running))) by (vm_compute; reflexivity).
  split; [exact Hr|].
  destruct (poll_records_inventory (FS := toy_fence) toy_machine wit_rfc3339 (fun _ => wit_cfg) (fun _ => 0) toy_uuid (fun m => m) dec
    "http://m1" m1_host toy_running _ 1%nat Hr) as (seen & Hrows & _).
  destruct (instances (w_db toy_running) !! "u1") as [row|] eqn:Hl; [|vm_compute in Hl; discriminate Hl].
  eexists. split; [exact (Hrows "u1" row Hl)|].
  specialize (Hrows "u1" row Hl). vm_compute in Hl. injection Hl as <-. vm_compute in Hrows.
  injection Hrows as Hst. cbn. symmetry. exact Hst.
Defined.

Lemma one_image_sync_per_host_witness :
  exists s s', poll_history poll_start ([Ticked [(m1_host, "b")]] ++ [Ticked [(m1_host, "b")]]) = Some s /\
    image_tasks s = [1] /\
    poll_history poll_start ([Ticked [(m1_host, "b")]] ++ JoinFailed 1 :: [Ticked [(m1_host, "b")]]) = Some s' /\
    (1 ∉ image_tasks s').
Proof.
  destruct (poll_history poll_start ([Ticked [(m1_host, "b")]] ++ [Ticked [(m1_host, "b")]])) as [s|] eqn:Hs;
    [|vm_compute in Hs; discriminate Hs].
  destruct (poll_history poll_start ([Ticked [(m1_host, "b")]] ++ JoinFailed 1 :: [Ticked [(m1_host, "b")]])) as [s'|] eqn:Hs';
    [|vm_compute in Hs'; discriminate Hs'].
  exists s, s'. split; [reflexivity|]. split; [vm_compute in Hs; injection Hs as <-; reflexivity|]. split; [reflexivity|].
  exact (proj2 (proj2 (one_image_sync_per_host _ _ _ s s' 1 Hs Hs'))).
Defined.
