(* ===== verification/Fleet.v ===== *)
(** * Fleet: building instances on this machine or another

    [RunnerFleet] of [bentod/src/adapters.rs]: what the lifecycle manager's
    [Fleet] trait does in the daemon.  Work for this machine goes to its own
    image store, seed builder and libvirt; work for another goes through
    [InstanceSync] to that machine's runner.  The two kinds of calls are the
    constructors of [fcall]. *)

From Stdlib Require Import ZArith Lia Ascii.
From S2P Require Import Prelude Text Float64 Xml DomainXml Ipv4 Network Machine Firewall Netstate Fence Db Instances Accounts Runners Images Prog Lifecycle Types Dispatch.
Open Scope Z_scope.

(** [std::io::Error], by what the code tells apart. *)
Inductive IoError : Type := IoNotFound | IoOther (message : string).

Inductive fcall : Type -> Type :=
  (** This machine: [bento_images], [bento_cloudinit], libvirt, [tokio::fs]. *)
  | FCreateOverlay (checksum path : string) (disk_gib : Z) : fcall (result string unit)
  | FBuildSeed (s : Seed) (path : string) : fcall (result string unit)
  | FCreate (xml : text) : fcall (result HypError unit)
  | FDefine (xml : text) : fcall (result HypError unit)
  | FDomainState (name : string) : fcall (result HypError State)
  | FRemoveFile (path : string) : fcall (result IoError unit)
  (** The store and the runners. *)
  | FHostRow (id : Z) : fcall (result StoreError Host)
  | FRunner {A} (c : dcall A) : fcall A.

(** A dispatch as a part of the fleet's work. *)
Fixpoint remotely {A} (p : prog dcall A) : prog fcall A :=
  match p with
  | Ret a => Ret a
  | Call c k => Call (FRunner c) (fun r => remotely (k r))
  end.

(** What the adapter reports: its own refusals, and the causes it passes on. *)
Inductive FleetError : Type :=
  | NoRunnerEndpoints (what : string)
  | LocalRedefine
  | LocalResize
  | FleetStore (e : StoreError)
  | FleetRunner (e : DispatchError)
  | OverlayFor (uuid message : string)
  | SeedImageFor (uuid message : string)
  | FleetSpec (e : SpecError)
  | FleetHypervisor (e : HypError).

Definition F (A : Type) : Type := fallible fcall FleetError A.
#[global] Instance F_ret : MRet F := fallible_ret.
#[global] Instance F_bind : MBind F := fallible_bind.

(** [RunnerFleet]; [runners] is how it speaks to other machines, if at all. *)
Record RunnerFleet : Type := mkFleet {
  fl_storage_dir : string;
  fl_host_id : Z;
  fl_runners : option LeaseSource;
  fl_arch : string
}.

Section Fleet.
Context (sha256 : string -> list Z).
Context (json_provision : ProvisionRequest -> result string string).
Context (json_redefine : RedefineRequest -> result string string).
Context (json_operation : Operation -> result string string).
Variable self : RunnerFleet.

Definition fleet_overlay_path (uuid : string) : string := join_path (fl_storage_dir self) (uuid +:+ ".qcow2").
Definition fleet_seed_iso_path (uuid : string) : string := join_path (fl_storage_dir self) (uuid +:+ "-seed.iso").

(** [RunnerFleet::remove_files]: a failure is only logged. *)
Definition remove_files (uuid : string) : F unit :=
  _ ← attempt (FRemoveFile (fleet_seed_iso_path uuid));
  _ ← attempt (FRemoveFile (fleet_overlay_path uuid));
  mret tt.

(** The [built] block of [provision_here]. *)
Definition build_here (spec : ProvisionSpec) : F unit :=
  let i := ps_instance spec in
  _ ← (if ps_with_seed_iso spec
       then ask (FBuildSeed (ps_seed spec) (fleet_seed_iso_path (i_uuid i))) (SeedImageFor (i_uuid i))
       else mret tt);
  xml ← pure_res (map_err FleetSpec (domain_xml (utf8_text (fl_arch self))
          (mkDomainSpec (utf8_text (i_name i)) (utf8_text (i_uuid i)) (i_vcpu i) (i_memory_mib i)
             (utf8_text (fleet_overlay_path (i_uuid i)))
             (if ps_with_seed_iso spec then utf8_text (fleet_seed_iso_path (i_uuid i)) else [])
             (utf8_text (ps_network spec)) (utf8_text (i_mac i)) (i_nested i) (i_ksm i) [])));
  if ps_start spec then ask (FCreate xml) FleetHypervisor else ask (FDefine xml) FleetHypervisor.

(** [RunnerFleet::provision_here]. *)
Definition provision_here (spec : ProvisionSpec) : F State :=
  let i := ps_instance spec in
  _ ← ask (FCreateOverlay (i_base_checksum i) (fleet_overlay_path (i_uuid i)) (i_disk_gib i)) (OverlayFor (i_uuid i));
  prog_bind _ _ (fun built : result FleetError unit =>
    match built with
    | Err error => _ ← remove_files (i_uuid i); throw error
    | Ok _ =>
        state ← attempt (FDomainState (i_name i));
        mret (match state with Ok state => state | Err _ => Stopped end)
    end) (build_here spec).

(** [?] on a dispatch. *)
Definition on_runner {A} (p : D A) : F A :=
  prog_bind _ _ (fun r => Ret (map_err FleetRunner r)) (remotely p).

(** [self.runners.as_ref().ok_or_else(..)], then the row of the machine. *)
Definition other_machine (host_id : Z) (what : string) : F (LeaseSource * Host) :=
  source ← pure_res (ok_or (fl_runners self) (NoRunnerEndpoints what));
  host ← ask (FHostRow host_id) FleetStore;
  mret (source, host).

(** [RunnerFleet::provision]. *)
Definition fleet_provision (spec : ProvisionSpec) : F State :=
  if ps_host_id spec =? fl_host_id self then provision_here spec
  else
    m ← other_machine (ps_host_id spec) "build an instance";
    on_runner (sync_provision sha256 json_provision m.1 m.2 spec).

(** [RunnerFleet::hypervisor]: this machine's libvirt, or a runner's. *)
Inductive WhichHypervisor : Type := LocalHypervisor | RemoteHypervisor (source : LeaseSource) (host : Host).
Definition fleet_hypervisor (host_id : Z) : prog fcall (option WhichHypervisor) :=
  if host_id =? fl_host_id self then Ret (Some LocalHypervisor)
  else match fl_runners self with
       | None => Ret None
       | Some source =>
           Call (FHostRow host_id) (fun row =>
             Ret match row with Ok host => Some (RemoteHypervisor source host) | Err _ => None end)
       end.

(** [RunnerFleet::redefine]. *)
Definition redefine_request (spec : RedefineSpec) : RedefineRequest :=
  let i := rs_instance spec in
  mkRedefine (mkInstanceRef (i_uuid i) (i_name i)) (rs_previous_name spec) (i_vcpu i) (i_memory_mib i)
    (i_nested i) (i_ksm i) (rs_network spec) (i_mac i).
Definition fleet_redefine (spec : RedefineSpec) : F State :=
  if rs_host_id spec =? fl_host_id self then throw LocalRedefine
  else
    m ← other_machine (rs_host_id spec) "redefine an instance";
    on_runner (sync_redefine sha256 json_redefine m.1 m.2 (redefine_request spec)).

(** [RunnerFleet::resize_disk]. *)
Definition fleet_resize_disk (host_id : Z) (i : Instance) (disk_gib : Z) : F unit :=
  if host_id =? fl_host_id self then throw LocalResize
  else
    m ← other_machine host_id "resize a disk";
    _ ← on_runner (sync_resize_disk sha256 json_operation m.1 m.2 (mkInstanceRef (i_uuid i) (i_name i)) disk_gib);
    mret tt.

(** [RunnerFleet::deprovision]. *)
Definition fleet_deprovision (host_id : Z) (i : Instance) : F unit :=
  if host_id =? fl_host_id self then remove_files (i_uuid i) else mret tt.
End Fleet.

(** ** What the calls show *)

(** A call that acts on this machine: its files or its libvirt. *)
Definition acts_here (e : event fcall) : bool :=
  match ev_call e with
  | FCreateOverlay _ _ _ | FBuildSeed _ _ | FCreate _ | FDefine _ | FDomainState _ | FRemoveFile _ => true
  | FHostRow _ | FRunner _ => false
  end.

(** The file a call tries to remove, and the domain it defines. *)
Definition removes (e : event fcall) : option string :=
  match ev_call e with FRemoveFile path => Some path | _ => None end.
Definition built_ok (e : event fcall) : bool :=
  match ev_call e in fcall R return R -> bool with
  | FCreate _ | FDefine _ => fun r => is_ok r
  | _ => fun _ => false
  end (ev_reply e).

Lemma remotely_elsewhere {A} (p : prog dcall A) :
  always (remotely p) (fun tr _ => Forall (fun e => acts_here e = false) tr).
Proof.
  induction p as [a|R c k IH]; simpl; [constructor|]. intros r. eapply always_mono; [|apply IH].
  intros tr a Htr. by constructor.
Qed.

Section Properties.
Context (sha256 : string -> list Z).
Context (json_provision : ProvisionRequest -> result string string).
Variable self : RunnerFleet.

(** What a build on this machine leaves. *)
Definition build_outcome (uuid : string) (tr : list (event fcall)) (r : result FleetError State) : Prop :=
  match r with
  | Ok _ => omap removes tr = [] /\ existsb built_ok tr = true
  | Err (OverlayFor _ _) => length tr = 1%nat
  | Err _ => existsb built_ok tr = false /\
      omap removes tr = [fleet_seed_iso_path self uuid; fleet_overlay_path self uuid]
  end.

Lemma provision_here_outcome spec :
  always (provision_here self spec) (build_outcome (i_uuid (ps_instance spec))).
Proof.
  unfold provision_here, build_here. cbv zeta. intros [[]|m]; [|reflexivity]. cbn.
  destruct (ps_with_seed_iso spec); [intros [[]|m]|]; cbn; [| |].
  2: { intros r1 r2. by split. }
  all: destruct (domain_xml _ _) as [xml|e]; cbn; [|intros r1 r2; by split].
  all: destruct (ps_start spec); (intros [[]|e]; cbn; [intros r; by split|intros r1 r2; by split]).
Qed.

(** An instance is built on the machine it is for, and a build that fails
    is cleaned up.  Whatever is answered: for another machine nothing is done
    to this one; for this machine, a build that succeeds has defined the
    domain and removed nothing, one whose overlay could not be made stops
    there, and any other failure has defined nothing and removes the seed
    image and the overlay of that instance, and no other file. *)
Theorem provision_on_its_machine (spec : ProvisionSpec) :
  always (fleet_provision sha256 json_provision self spec) (fun tr r =>
    if ps_host_id spec =? fl_host_id self then build_outcome (i_uuid (ps_instance spec)) tr r
    else Forall (fun e => acts_here e = false) tr).
Proof.
  unfold fleet_provision. destruct (ps_host_id spec =? fl_host_id self); [apply provision_here_outcome|].
  unfold other_machine. destruct (fl_runners self) as [source|]; [|constructor]. cbn.
  intros [host|e]; [|by repeat constructor]. cbn. apply (always_bind _ _). eapply always_mono; [|apply remotely_elsewhere].
  intros tr r Htr. cbn. rewrite app_nil_r. by constructor.
Qed.
End Properties.
