(* ===== verification/Terminal.v ===== *)
(** * Terminal: bytes and words of a session, [crates/sshfront/src/session.rs]

    The parts of the SSH frontend that handle text: [CrlfWriter], which puts a
    carriage return before each bare newline however the output is cut into
    writes and however the channel takes it, and [split_command], which reads
    a command line the way a shell does. *)

From Stdlib Require Import ZArith Lia Ascii.
From S2P Require Import Prelude Text Xml.
Open Scope Z_scope.

(** ** [CrlfWriter]

    Bytes are [Z].  What the channel does is not ours: each [poll_write] of it
    takes the next entry of a schedule, and accepts a prefix of the buffer, is
    not ready, or fails; an exhausted schedule is not ready. *)

Definition CR : Z := 13.
Definition LF : Z := 10.

Inductive Poll (A : Type) : Type := Ready (a : A) | Pending.
Arguments Ready {A} a. Arguments Pending {A}.

Inductive ChannelAnswer : Type := Take (count : nat) | NotReady | Broken (error : string).

Inductive WriteError : Type := WriteZero | ChannelError (error : string).

Record CrlfWriter : Type := mkCrlf {
  cw_accepted : list Z;
  cw_answers : list ChannelAnswer;
  cw_pending : list Z;
  cw_offset : nat;
  cw_after_cr : bool
}.

(** [CrlfWriter::new], over a channel that has accepted nothing yet. *)
Definition CrlfWriter_new (answers : list ChannelAnswer) : CrlfWriter := mkCrlf [] answers [] 0 false.

(** The loop of [poll_drain]: a channel accepts at most what it is given. *)
Fixpoint drain_loop (accepted : list Z) (answers : list ChannelAnswer) (pending : list Z) (offset : nat)
    (after_cr : bool) : Poll (result WriteError unit) * CrlfWriter :=
  if (length pending <=? offset)%nat then (Ready (Ok tt), mkCrlf accepted answers [] 0 after_cr)
  else
    match answers with
    | [] => (Pending, mkCrlf accepted [] pending offset after_cr)
    | NotReady :: rest => (Pending, mkCrlf accepted rest pending offset after_cr)
    | Broken error :: rest => (Ready (Err (ChannelError error)), mkCrlf accepted rest pending offset after_cr)
    | Take count :: rest =>
        let written := Nat.min count (length pending - offset) in
        if (written =? 0)%nat then (Ready (Err WriteZero), mkCrlf accepted rest pending offset after_cr)
        else drain_loop (accepted ++ take written (drop offset pending)) rest pending (offset + written) after_cr
    end.

Definition poll_drain (w : CrlfWriter) : Poll (result WriteError unit) * CrlfWriter :=
  drain_loop (cw_accepted w) (cw_answers w) (cw_pending w) (cw_offset w) (cw_after_cr w).

(** The translation of one buffer: the bytes pushed, and the new [after_cr]. *)
Fixpoint translate (after_cr : bool) (buf : list Z) : list Z * bool :=
  match buf with
  | [] => ([], after_cr)
  | byte :: rest =>
      let '(out, last) := translate (byte =? CR) rest in
      ((if (byte =? LF) && negb after_cr then [CR; byte] else [byte]) ++ out, last)
  end.

(** [poll_write]. *)
Definition poll_write (buf : list Z) (w : CrlfWriter) : Poll (result WriteError nat) * CrlfWriter :=
  let '(first, w1) := poll_drain w in
  match first with
  | Ready (Err error) => (Ready (Err error), w1)
  | _ =>
      if negb (bool_decide (cw_pending w1 = [])) then (Pending, w1)
      else if bool_decide (buf = []) then (Ready (Ok 0%nat), w1)
      else
        let '(out, after_cr) := translate (cw_after_cr w1) buf in
        let '(second, w2) :=
          poll_drain (mkCrlf (cw_accepted w1) (cw_answers w1) (cw_pending w1 ++ out) (cw_offset w1) after_cr) in
        match second with
        | Ready (Err error) => (Ready (Err error), w2)
        | _ => (Ready (Ok (length buf)), w2)
        end
  end.

(** [poll_flush] and [poll_shutdown], up to the channel's own. *)
Definition poll_flush (w : CrlfWriter) : Poll (result WriteError unit) * CrlfWriter := poll_drain w.

(** ** What the terminal should get *)

(** The reference: the whole output at once. *)
Definition crlf (bytes : list Z) : list Z := fst (translate false bytes).

(** A caller that writes buffers, waits and flushes; what it was told it has
    written. *)
Inductive WriterCall : Type := WriteCall (buf : list Z) | FlushCall.

Definition step_writer (x : list Z * CrlfWriter) (c : WriterCall) : option (list Z * CrlfWriter) :=
  match c with
  | WriteCall buf =>
      match poll_write buf x.2 with
      | (Ready (Ok count), w') => Some (x.1 ++ take count buf, w')
      | (Pending, w') => Some (x.1, w')
      | (Ready (Err _), _) => None
      end
  | FlushCall =>
      match poll_flush x.2 with
      | (Ready (Err _), _) => None
      | (_, w') => Some (x.1, w')
      end
  end.

Fixpoint run_writer (x : list Z * CrlfWriter) (calls : list WriterCall) : option (list Z * CrlfWriter) :=
  match calls with
  | [] => Some x
  | c :: rest => x' ← step_writer x c; run_writer x' rest
  end.

(** ** Lemmas *)

Lemma translate_app after_cr a b :
  translate after_cr (a ++ b) =
    let '(out, last) := translate after_cr a in
    let '(out', last') := translate last b in (out ++ out', last').
Proof.
  revert after_cr. induction a as [|x a IH]; intros after_cr; simpl; [by destruct (translate after_cr b)|].
  rewrite IH. destruct (translate (x =? CR) a) as [o l]. destruct (translate l b) as [o' l']. by rewrite <-app_assoc.
Qed.

(** What has been accepted and what still waits, in order. *)
Definition outgoing (w : CrlfWriter) : list Z := cw_accepted w ++ drop (cw_offset w) (cw_pending w).

Lemma drain_outgoing w r w' :
  poll_drain w = (r, w') ->
  outgoing w' = outgoing w /\ cw_after_cr w' = cw_after_cr w /\
  (r = Ready (Ok tt) -> cw_pending w' = [] /\ cw_offset w' = 0%nat).
Proof.
  unfold poll_drain, outgoing. destruct w as [accepted answers pending offset after_cr]. cbn.
  revert accepted offset. induction answers as [|a answers IH]; intros accepted offset; cbn.
  - destruct (Nat.leb_spec (length pending) offset).
    + intros [= <- <-]. cbn. by rewrite (drop_ge pending offset) by lia.
    + by intros [= <- <-].
  - destruct (Nat.leb_spec (length pending) offset).
    { intros [= <- <-]. cbn. by rewrite (drop_ge pending offset) by lia. }
    destruct a as [count| |error]; [|by intros [= <- <-]..].
    destruct (Nat.eqb_spec (Nat.min count (length pending - offset)) 0); [by intros [= <- <-]|].
    intros Hd. destruct (IH _ _ Hd) as (Ho & Hc & Hr). split; [|done]. rewrite Ho, <-app_assoc. f_equal.
    rewrite <-(take_drop (Nat.min count (length pending - offset)) (drop offset pending)) at 2. f_equal.
    by rewrite drop_drop.
Qed.

(** What the writer holds is the translation of what it was told it wrote. *)
Definition faithful (x : list Z * CrlfWriter) : Prop :=
  outgoing x.2 = crlf x.1 /\ cw_after_cr x.2 = snd (translate false x.1) /\
  (cw_pending x.2 = [] -> cw_offset x.2 = 0%nat).

Lemma drain_pending w r w' :
  poll_drain w = (r, w') -> (cw_pending w = [] -> cw_offset w = 0%nat) -> cw_pending w' = [] -> cw_offset w' = 0%nat.
Proof.
  unfold poll_drain. destruct w as [accepted answers pending offset after_cr]. cbn.
  revert accepted offset. induction answers as [|a answers IH]; intros accepted offset; cbn.
  - destruct (length pending <=? offset)%nat; intros [= <- <-]; cbn; auto.
  - destruct (length pending <=? offset)%nat eqn:Hle; [by intros [= <- <-]|].
    destruct a as [count| |error]; [|intros [= <- <-]; cbn; auto..].
    destruct (_ =? 0)%nat; [intros [= <- <-]; cbn; auto|]. intros Hd _. eapply IH; [exact Hd|].
    intros ->. by apply Nat.leb_gt in Hle; cbn in Hle; lia.
Qed.

Lemma drain_faithful sofar w r w' : faithful (sofar, w) -> poll_drain w = (r, w') -> faithful (sofar, w').
Proof.
  intros (Ho & Hc & Hp) Hd. destruct (drain_outgoing _ _ _ Hd) as (Ho1 & Hc1 & _). cbn in *.
  split_and!; cbn; [congruence|congruence|]. by eapply drain_pending.
Qed.

(** Buffering a translated piece. *)
Lemma buffer_faithful sofar w buf out cr :
  faithful (sofar, w) -> cw_pending w = [] -> translate (cw_after_cr w) buf = (out, cr) ->
  faithful (sofar ++ buf, mkCrlf (cw_accepted w) (cw_answers w) (cw_pending w ++ out) (cw_offset w) cr).
Proof.
  intros (Ho & Hc & Hp) He Ht. cbn in *. specialize (Hp He). rewrite Hc in Ht. unfold outgoing in Ho.
  rewrite He, Hp in Ho. cbn in Ho. rewrite app_nil_r in Ho. unfold faithful, outgoing, crlf in *. cbn.
  rewrite translate_app. destruct (translate false sofar) as [o l]. cbn in *. rewrite Ht, He, Hp. cbn.
  split_and!; [by rewrite Ho|done|done].
Qed.

Lemma step_writer_faithful x c x' : faithful x -> step_writer x c = Some x' -> faithful x'.
Proof.
  destruct x as [sofar w]. intros Hf. destruct c as [buf|]; cbn.
  - unfold poll_write. destruct (poll_drain w) as [r1 w1] eqn:H1. pose proof (drain_faithful _ _ _ _ Hf H1) as Hf1.
    assert (Hgo : forall r w2,
      (if negb (bool_decide (cw_pending w1 = [])) then (Pending, w1)
       else if bool_decide (buf = []) then (Ready (Ok 0%nat), w1)
       else let '(out, after_cr) := translate (cw_after_cr w1) buf in
            let '(second, w2) :=
              poll_drain (mkCrlf (cw_accepted w1) (cw_answers w1) (cw_pending w1 ++ out) (cw_offset w1) after_cr) in
            match second with
            | Ready (Err error) => (Ready (Err error), w2)
            | _ => (Ready (Ok (length buf)), w2)
            end) = (r, w2) ->
      match r with
      | Ready (Ok count) => faithful (sofar ++ take count buf, w2)
      | Pending => faithful (sofar, w2)
      | Ready (Err _) => True
      end).
    { intros r w2. case_bool_decide as Hpe; cbn [negb]; [|by intros [= <- <-]].
      case_bool_decide as Hb; [subst buf; intros [= <- <-]; by rewrite app_nil_r|].
      destruct (translate (cw_after_cr w1) buf) as [out cr] eqn:Ht. pose proof (buffer_faithful _ _ _ _ _ Hf1 Hpe Ht) as Hf2.
      destruct (poll_drain (mkCrlf _ _ _ _ _)) as [r2 w3] eqn:H2. pose proof (drain_faithful _ _ _ _ Hf2 H2) as Hf3.
      destruct r2 as [[[]|e]|]; intros [= <- <-]; [|done|]; by rewrite firstn_all. }
    destruct r1 as [[[]|e]|]; [|done|].
    all: destruct (if negb _ then _ else _) as [r w2] ; specialize (Hgo _ _ eq_refl);
      destruct r as [[count|e]|]; [by intros [= <-]|done|by intros [= <-]].
  - destruct (poll_flush w) as [r1 w1] eqn:H1. pose proof (drain_faithful _ _ _ _ Hf H1) as Hf1.
    destruct r1 as [[[]|e]|]; [by intros [= <-]|done|by intros [= <-]].
Qed.

Lemma run_writer_faithful x calls x' : faithful x -> run_writer x calls = Some x' -> faithful x'.
Proof.
  revert x. induction calls as [|c calls IH]; intros x Hf; simpl; [by intros [= <-]|].
  intros (x1 & H1 & H2)%bind_Some. eapply IH; [|exact H2]. by eapply step_writer_faithful.
Qed.

(** No newline without its carriage return. *)
Fixpoint returned (after_cr : bool) (bytes : list Z) : Prop :=
  match bytes with
  | [] => True
  | b :: rest => (b = LF -> after_cr = true) /\ returned (b =? CR) rest
  end.

Lemma translate_returned after_cr bytes : returned after_cr (fst (translate after_cr bytes)).
Proof.
  revert after_cr. induction bytes as [|b bytes IH]; intros after_cr; simpl; [done|].
  specialize (IH (b =? CR)). destruct (translate (b =? CR) bytes) as [out l]. simpl in *.
  destruct (Z.eqb_spec b LF) as [->|]; simpl; [destruct after_cr; simpl|]; (split; [done|]); [done| |done].
  split; [done|done].
Qed.

Lemma translate_fixed after_cr bytes : returned after_cr bytes -> fst (translate after_cr bytes) = bytes.
Proof.
  revert after_cr. induction bytes as [|b bytes IH]; intros after_cr; simpl; [done|]. intros [Hb Hr].
  specialize (IH _ Hr). destruct (translate (b =? CR) bytes) as [out l]. simpl in *. rewrite IH.
  destruct (Z.eqb_spec b LF) as [->|]; simpl; [|done]. by rewrite Hb.
Qed.

(** The terminal gets the output with a carriage return before each bare
    newline, and nothing else changed, however it is written.  For every
    sequence of writes and flushes without an error, and every way the channel
    takes bytes, what the channel has accepted followed by what still waits is
    the translation of the bytes the writer reported as written; after a flush
    that completed nothing waits.  The translation leaves no newline without
    its carriage return and changes a text that has none such not at all. *)
Theorem crlf_stream (answers : list ChannelAnswer) (calls : list WriterCall) (written : list Z) (w : CrlfWriter) :
  run_writer ([], CrlfWriter_new answers) calls = Some (written, w) ->
  cw_accepted w ++ drop (cw_offset w) (cw_pending w) = crlf written /\
  (forall w', poll_flush w = (Ready (Ok tt), w') -> cw_accepted w' = crlf written) /\
  returned false (crlf written) /\ crlf (crlf written) = crlf written.
Proof.
  intros Hr. apply run_writer_faithful in Hr as (Ho & _); [|done]. cbn in Ho. split; [done|]. split; [|split].
  - intros w' Hd. destruct (drain_outgoing _ _ _ Hd) as (Ho' & _ & [Hp Hoff]); [done|].
    unfold outgoing in Ho'. rewrite Hp, Hoff in Ho'. cbn in Ho'. rewrite app_nil_r in Ho'. rewrite Ho'. exact Ho.
  - apply translate_returned.
  - apply translate_fixed, translate_returned.
Qed.

Definition hello_calls : list WriterCall :=
  [WriteCall (lit "a"); WriteCall [LF]; WriteCall [LF]; FlushCall; WriteCall [CR]; WriteCall [LF]; FlushCall].
Definition hello_answers : list ChannelAnswer := [Take 1; Take 1; NotReady; Take 9; Take 9; Take 1; Take 9].

Lemma crlf_stream_witness :
  exists w, run_writer ([], CrlfWriter_new hello_answers) hello_calls = Some ([97; LF; LF; CR; LF], w) /\
    cw_accepted w ++ drop (cw_offset w) (cw_pending w) = [97; CR; LF; CR; LF; CR; LF].
Proof.
  destruct (run_writer ([], CrlfWriter_new hello_answers) hello_calls) as [[written w]|] eqn:Hr; [|vm_compute in Hr; discriminate Hr].
  pose proof (proj1 (crlf_stream _ _ _ _ Hr)) as Ho. vm_compute in Hr. injection Hr as <- <-.
  eexists. split; [reflexivity|exact Ho].
Defined.

(** ** [split_command]

    Characters are code points. *)

Definition SQUOTE : Z := 39.
Definition DOUBLE : Z := 34.
Definition BACKSLASH : Z := 92.

(** The variables of the loop. *)
Record Splitter : Type := mkSplitter {
  sp_words : list text;
  sp_current : text;
  sp_quote : option Z;
  sp_escaped : bool;
  sp_started : bool
}.

(** One character. *)
Definition split_char (s : Splitter) (c : Z) : Splitter :=
  let pushed := mkSplitter (sp_words s) (sp_current s ++ [c]) (sp_quote s) false true in
  if sp_escaped s then pushed
  else
    match sp_quote s with
    | Some q =>
        if ((q =? SQUOTE) && (c =? SQUOTE)) || ((q =? DOUBLE) && (c =? DOUBLE))
        then mkSplitter (sp_words s) (sp_current s) None false (sp_started s)
        else if q =? SQUOTE then pushed
        else if c =? BACKSLASH then mkSplitter (sp_words s) (sp_current s) (sp_quote s) true (sp_started s)
        else pushed
    | None =>
        if (c =? SQUOTE) || (c =? DOUBLE) then mkSplitter (sp_words s) (sp_current s) (Some c) false true
        else if c =? BACKSLASH then mkSplitter (sp_words s) (sp_current s) None true (sp_started s)
        else if is_whitespace c then
          if sp_started s then mkSplitter (sp_words s ++ [sp_current s]) [] None false false else s
        else pushed
    end.

Definition split_command (command : text) : list text :=
  let s := foldl split_char (mkSplitter [] [] None false false) command in
  let current := if sp_escaped s then sp_current s ++ [BACKSLASH] else sp_current s in
  if sp_started s then sp_words s ++ [current] else sp_words s.

(** The way a shell quotes a word: in single quotes, a single quote as
    quote, backslash, quote, quote. *)
Definition quote_char (c : Z) : text :=
  if c =? SQUOTE then [SQUOTE; BACKSLASH; SQUOTE; SQUOTE] else [c].
Definition quote_word (word : text) : text := [SQUOTE] ++ flat_map quote_char word ++ [SQUOTE].

Definition SP : Z := 32.
Fixpoint join_words (words : list text) : text :=
  match words with
  | [] => []
  | [w] => w
  | w :: rest => w ++ [SP] ++ join_words rest
  end.

Lemma split_quoted word words cur started :
  foldl split_char (mkSplitter words cur (Some SQUOTE) false started) (flat_map quote_char word) =
  mkSplitter words (cur ++ word) (Some SQUOTE) false (match word with [] => started | _ => true end).
Proof.
  revert cur started. induction word as [|c word IH]; intros cur started; [cbn; by rewrite app_nil_r|].
  cbn [flat_map]. rewrite foldl_app.
  destruct (decide (c = SQUOTE)) as [->|Hc].
  - change (quote_char SQUOTE) with [SQUOTE; BACKSLASH; SQUOTE; SQUOTE].
    change (foldl split_char (mkSplitter words cur (Some SQUOTE) false started) [SQUOTE; BACKSLASH; SQUOTE; SQUOTE])
      with (mkSplitter words (cur ++ [SQUOTE]) (Some SQUOTE) false true).
    rewrite IH. rewrite <-app_assoc. by destruct word.
  - replace (quote_char c) with [c] by (unfold quote_char; by rewrite (proj2 (Z.eqb_neq c SQUOTE) Hc)).
    cbn [foldl]. unfold split_char at 2. cbn [sp_escaped sp_quote sp_words sp_current]. change (SQUOTE =? SQUOTE) with true.
    change (SQUOTE =? DOUBLE) with false. rewrite (proj2 (Z.eqb_neq c SQUOTE) Hc). cbn [andb orb].
    rewrite IH, <-app_assoc. by destruct word.
Qed.

Lemma split_word word words :
  foldl split_char (mkSplitter words [] None false false) (quote_word word) = mkSplitter words word None false true.
Proof.
  unfold quote_word. rewrite !foldl_app. change (foldl split_char (mkSplitter words [] None false false) [SQUOTE])
    with (mkSplitter words [] (Some SQUOTE) false true).
  rewrite split_quoted. cbn. by destruct word.
Qed.

(** Words that are quoted the way a shell quotes them are read back: for
    every list of words, whatever characters they hold, the command line that
    quotes each word and joins them with spaces splits into those words. *)
Theorem split_command_quoted (words : list text) :
  split_command (join_words (quote_word <$> words)) = words.
Proof.
  assert (Hgo : forall words before, foldl split_char (mkSplitter before [] None false false) (join_words (quote_word <$> words)) =
    match last words with
    | None => mkSplitter before [] None false false
    | Some w => mkSplitter (before ++ removelast words) w None false true
    end).
  { clear words. intros words. induction words as [|w words IH]; intros before; [done|].
    destruct words as [|w' words].
    - cbn [fmap list_fmap join_words]. rewrite split_word. cbn. by rewrite app_nil_r.
    - change (join_words (quote_word <$> w :: w' :: words)) with
        (quote_word w ++ [SP] ++ join_words (quote_word <$> w' :: words)).
      rewrite foldl_app, split_word, foldl_app.
      change (foldl split_char (mkSplitter before w None false true) [SP]) with (mkSplitter (before ++ [w]) [] None false false).
      rewrite IH. change (last (w :: w' :: words)) with (last (w' :: words)).
      destruct (last (w' :: words)) as [z|] eqn:Hl; [|by apply last_None in Hl].
      change (removelast (w :: w' :: words)) with (w :: removelast (w' :: words)). by rewrite <-app_assoc. }
  unfold split_command. rewrite Hgo. destruct (last words) as [w|] eqn:Hl; cbn.
  - apply last_Some in Hl as [l ->]. by rewrite removelast_last.
  - by apply last_None in Hl.
Qed.

(** ** Small formats *)

(** [exit_code]: [u32::try_from(code).unwrap_or(1)] of an [i32]. *)
Definition exit_code (code : Z) : Z := if code <? 0 then 1 else code.

(** [display_duration], of nanoseconds. *)
Definition display_duration (duration : Z) : string :=
  let seconds := duration / nanos_per_sec in
  if (duration mod nanos_per_sec =? 0) && (60 <=? seconds)
  then dec (seconds / 60) +:+ "m" +:+ dec (seconds mod 60) +:+ "s"
  else if duration mod nanos_per_sec =? 0 then dec seconds +:+ "s"
  else dec (duration / 1000000) +:+ "ms".
