(* ===== verification/Ssh.v ===== *)
(** * Ssh: the SSH frontend, [crates/sshfront/src/{server,session,attach}.rs]

    Authentication by public key, the routing of a session to an instance, to
    the command line or to the linking flow, the wait for the guest's sshd,
    the join of both directions, and the web terminal's [attach].  The key
    store, the instance store, the starter, the command line, the linker, the
    network and both SSH libraries are the calls of [scall].  A loop that ends
    when somebody else acts takes fuel; [None] is a session still open when it
    runs out. *)

From Stdlib Require Import ZArith Lia Ascii.
From S2P Require Import Prelude Text Float64 Xml Types Ipv4 Ip Network Machine Db Prog Terminal.
Open Scope Z_scope.

(** ** Of the standard library *)

(** [String::from_utf8_lossy]: every maximal part of a character that is not
    one becomes U+FFFD. *)
Definition REPLACEMENT : Z := 65533.
Definition continues (b : Z) : bool := Z.land b 192 =? 128.
Definition within (lo hi b : Z) : bool := (lo <=? b) && (b <=? hi).
Definition second_of_three (b c : Z) : bool :=
  ((b =? 224) && within 160 191 c) || (within 225 236 b && within 128 191 c) ||
  ((b =? 237) && within 128 159 c) || (within 238 239 b && within 128 191 c).
Definition second_of_four (b c : Z) : bool :=
  ((b =? 240) && within 144 191 c) || (within 241 243 b && within 128 191 c) || ((b =? 244) && within 128 143 c).
Definition low6 (b : Z) : Z := Z.land b 63.
Fixpoint from_utf8_lossy (l : list Z) : text :=
  match l with
  | [] => []
  | b :: t =>
      if b <? 128 then b :: from_utf8_lossy t
      else if within 194 223 b then
        match t with
        | c :: t1 => if continues c then Z.lor (Z.shiftl (Z.land b 31) 6) (low6 c) :: from_utf8_lossy t1
                     else REPLACEMENT :: from_utf8_lossy t
        | [] => [REPLACEMENT]
        end
      else if within 224 239 b then
        match t with
        | c :: t1 =>
            if second_of_three b c then
              match t1 with
              | d :: t2 =>
                  if continues d then
                    Z.lor (Z.shiftl (Z.land b 15) 12) (Z.lor (Z.shiftl (low6 c) 6) (low6 d)) :: from_utf8_lossy t2
                  else REPLACEMENT :: from_utf8_lossy t1
              | [] => [REPLACEMENT]
              end
            else REPLACEMENT :: from_utf8_lossy t
        | [] => [REPLACEMENT]
        end
      else if within 240 244 b then
        match t with
        | c :: t1 =>
            if second_of_four b c then
              match t1 with
              | d :: t2 =>
                  if continues d then
                    match t2 with
                    | e :: t3 =>
                        if continues e then
                          Z.lor (Z.shiftl (Z.land b 7) 18)
                            (Z.lor (Z.shiftl (low6 c) 12) (Z.lor (Z.shiftl (low6 d) 6) (low6 e))) ::
                          from_utf8_lossy t3
                        else REPLACEMENT :: from_utf8_lossy t2
                    | [] => [REPLACEMENT]
                    end
                  else REPLACEMENT :: from_utf8_lossy t1
              | [] => [REPLACEMENT]
              end
            else REPLACEMENT :: from_utf8_lossy t
        | [] => [REPLACEMENT]
        end
      else REPLACEMENT :: from_utf8_lossy t
  end.

(** ** Data *)

Record PairingRequest : Type := mkPairingRequest {
  pq_public_key : string; pq_fingerprint : string; pq_comment : string
}.
Record PendingLink : Type := mkPendingLink { pl_id : Z; pl_url : string; pl_valid_for : Z }.
Inductive Authenticated : Type := AuthUser (user : User) | Unlinked (request : PairingRequest).
Record Window : Type := mkWindow { col_width : Z; row_height : Z; pix_width : Z; pix_height : Z }.
Record PtyRequest : Type := mkPty { pty_term : string; pty_window : Window }.

(** What dispatch uses of [SessionParts]; the streams are behind the calls. *)
Record SessionParts : Type := mkParts {
  sp_user : string;
  sp_raw_command : list Z;
  sp_command : list text;
  sp_pty : option PtyRequest
}.

(** The fields of [Server] that are no seam. *)
Record Server : Type := mkServer {
  sv_has_linker : bool;
  sv_guest_user : string;
  sv_start_timeout : Z;
  sv_dial_interval : Z
}.

Definition DEFAULT_GUEST_USER : string := "bento".
Definition DEFAULT_START_TIMEOUT : Z := 120 * nanos_per_sec.
Definition DEFAULT_DIAL_INTERVAL : Z := 2 * nanos_per_sec.

(** [Server::new] and [Server::with_dial_timing]. *)
Definition Server_new : Server := mkServer false DEFAULT_GUEST_USER DEFAULT_START_TIMEOUT DEFAULT_DIAL_INTERVAL.
Definition with_dial_timing (self : Server) (start_timeout dial_interval : Z) : result string Server :=
  if (start_timeout =? 0) || (dial_interval =? 0) then Err "start timeout and dial interval must be above zero"
  else Ok (mkServer (sv_has_linker self) (sv_guest_user self) start_timeout dial_interval).

(** ** The calls *)

Inductive DialAnswer : Type := Connected | DialError (message : string) | DialTimedOut.
(** [tokio::select!] of [wait_for_link]: the timer, or one read of stdin. *)
Inductive PauseAnswer : Type := Slept | ReadByte (byte : Z) | ReadNothing | ReadError.
Inductive GuestMsg : Type :=
  | MsgSuccess | MsgFailure | MsgClose | MsgData (data : list Z) | MsgExtended (ext : Z) (data : list Z)
  | MsgExitStatus (status : Z) | MsgExitSignal | MsgOther.
(** What the client sends on its channel. *)
Inductive ChannelMsg : Type :=
  | RequestPty (pty : PtyRequest) | RequestShell | Exec (command : list Z) | Data (data : list Z)
  | WindowChange (window : Window) | Eof | Close | OtherMsg.
(** [tokio::select!] of [join]. *)
Inductive JoinEvent : Type :=
  | StdinRead (data : list Z) | StdinError | WindowNews (window : option Window) | GuestSays (message : option GuestMsg).

Inductive scall : Type -> Type :=
  | SKey (fingerprint : string) : scall (result StoreError SshKey)
  | SUserRow (id : Z) : scall (result StoreError User)
  | SInstance (name : string) : scall (result StoreError Instance)
  | SAccess (uuid : string) (user_id : Z) : scall (result StoreError bool)
  | STouch (uuid : string) : scall (result StoreError unit)
  | SStart (i : Instance) : scall (result string unit)
  | SCli (user : User) (command : list text) (crlf_out : bool) : scall Z
  | SBegin (request : PairingRequest) : scall (result string PendingLink)
  | SLinked (id : Z) : scall (result string (option User))
  | SDial (remaining : Z) (address : string) : scall (DialAnswer * N)
  | SSleep (pause : Z) : scall unit
  | SNow : scall Z
  | SPause (pause : Z) : scall PauseAnswer
  | SOut (bytes : string) : scall (result string unit)
  | SErr (bytes : string) : scall (result string unit)
  | SExit (code : Z) : scall unit
  | SFail (message : string) : scall unit
  | GConnect : scall DialAnswer
  | GKey : scall (result string unit)
  | GAuth (user : string) : scall (result string bool)
  | GOpen : scall (result string unit)
  | GPty (pty : PtyRequest) : scall (result string unit)
  | GShell : scall (result string unit)
  | GExec (command : list Z) : scall (result string unit)
  | GWait : scall (option GuestMsg)
  | GSelect (stdin_open windows_open : bool) : scall JoinEvent
  | GData (data : list Z) : scall (result string unit)
  | GEof : scall unit
  | GWindow (window : Window) : scall unit
  | GStdout (data : list Z) : scall unit
  | GStderr (data : list Z) : scall unit
  | GDisconnect : scall unit
  | CWait : scall (option ChannelMsg)
  | CInput (data : list Z) : scall (result string unit)
  | CWindow (window : Window) : scall unit
  | CShutdown : scall unit.

(** A session that may outlast the fuel. *)
Definition Sess (A : Type) : Type := prog scall (option A).
#[global] Instance Sess_ret : MRet Sess := fun A a => Ret (Some a).
#[global] Instance Sess_bind : MBind Sess := fun A B f p =>
  prog_bind _ _ (fun o => match o with Some a => f a | None => Ret None end) p.
Definition does {A} (c : scall A) : Sess A := Call c (fun r => Ret (Some r)).

Definition CRLF : string := String (ascii_of_code 13) (String (ascii_of_code 10) EmptyString).

(** ** Authentication: [server.rs] *)

Section Ssh.
(** The key a client offers: its fingerprint and its OpenSSH line, if it can
    be written; the [Display] of an error with its causes. *)
Variable self : Server.

(** [Server::authenticate_key]. *)
Definition authenticate_key (fingerprint : string) (to_openssh : option string) : prog scall (option Authenticated) :=
  Call (SKey fingerprint) (fun found =>
    match found with
    | Ok key => Call (SUserRow (k_user_id key)) (fun user =>
        Ret match user with Ok user => Some (AuthUser user) | Err _ => None end)
    | Err NotFound =>
        if sv_has_linker self then
          Ret (line ← to_openssh;
               let public_key := Text.trim line in
               let comment := default EmptyString (Machine.split_whitespace public_key !! 2%nat) in
               Some (Unlinked (mkPairingRequest public_key fingerprint comment)))
        else Ret None
    | Err _ => Ret None
    end).

(** [ConnectionHandler]: who was accepted, under which user name. *)
Record ConnectionHandler : Type := mkHandler { ch_authenticated : option Authenticated; ch_user_name : string }.
Definition new_client : ConnectionHandler := mkHandler None EmptyString.

(** [auth_publickey]; the answer is whether the key is accepted. *)
Definition auth_publickey (h : ConnectionHandler) (user fingerprint : string) (to_openssh : option string) :
    prog scall (bool * ConnectionHandler) :=
  prog_bind _ _ (fun who : option Authenticated =>
    Ret match who with
        | Some authenticated => (true, mkHandler (Some authenticated) user)
        | None => (false, h)
        end) (authenticate_key fingerprint to_openssh).

(** ** Routing: [session.rs] *)

(** [resolve_instance]. *)
Definition resolve_instance (name : string) (user_id : Z) : prog scall (option Instance) :=
  if bool_decide (name = EmptyString) then Ret None
  else
    Call (SInstance name) (fun found =>
      match found with
      | Err _ => Ret None
      | Ok instance =>
          Call (SAccess (i_uuid instance) user_id) (fun access =>
            Ret match access with Ok true => Some instance | _ => None end)
      end).

(** [guest_address]. *)
Definition guest_address (address : string) : string :=
  if is_ipv6 address then "[" +:+ address +:+ "]:22" else address +:+ ":22".

Definition duration_max : Z := u64_max * nanos_per_sec + (nanos_per_sec - 1).
Definition saturating_add (a b : Z) : Z := Z.min (a + b) duration_max.

(** [wait_ssh]. *)
Fixpoint wait_ssh (fuel : nat) (address : string) (timeout interval elapsed : Z) : Sess (result string unit) :=
  match fuel with
  | O => Ret None
  | S fuel =>
      attempt ← does (SDial (Z.max (timeout - elapsed) 0) address);
      let elapsed := saturating_add elapsed (Z.of_N attempt.2) in
      match attempt.1 with
      | Connected => mret (Ok tt)
      | DialTimedOut => mret (Err "connection timed out")
      | DialError message =>
          if timeout <=? saturating_add elapsed interval then mret (Err message)
          else
            _ ← does (SSleep interval);
            wait_ssh fuel address timeout interval (saturating_add elapsed interval)
      end
  end.

(** [join_error]. *)
Definition join_error (i : Instance) (operation error : string) : Sess unit :=
  let message := "bento: " +:+ operation +:+ " " +:+ i_name i +:+ " failed: " +:+ error in
  _ ← does (SErr (message +:+ CRLF));
  does (SFail message).

(** [wait_request_reply]. *)
Fixpoint wait_request_reply (fuel : nat) : Sess bool :=
  match fuel with
  | O => Ret None
  | S fuel =>
      message ← does GWait;
      match message with
      | Some MsgSuccess => mret true
      | Some MsgFailure | Some MsgClose | None => mret false
      | Some _ => wait_request_reply fuel
      end
  end.

(** The loop of [join]; the answer is the exit status. *)
Fixpoint join_loop (fuel : nat) (stdin_open windows_open : bool) : Sess Z :=
  match fuel with
  | O => Ret None
  | S fuel =>
      event ← does (GSelect stdin_open windows_open);
      match event with
      | StdinRead [] => _ ← does GEof; join_loop fuel false windows_open
      | StdinRead data =>
          sent ← does (GData data);
          match sent with Ok _ => join_loop fuel stdin_open windows_open | Err _ => mret 1 end
      | StdinError => _ ← does GEof; join_loop fuel false windows_open
      | WindowNews (Some window) => _ ← does (GWindow window); join_loop fuel stdin_open windows_open
      | WindowNews None => join_loop fuel stdin_open false
      | GuestSays (Some (MsgData data)) => _ ← does (GStdout data); join_loop fuel stdin_open windows_open
      | GuestSays (Some (MsgExtended 1 data)) => _ ← does (GStderr data); join_loop fuel stdin_open windows_open
      | GuestSays (Some (MsgExitStatus status)) => mret status
      | GuestSays (Some MsgExitSignal) => mret 1
      | GuestSays (Some MsgClose) | GuestSays None => mret 0
      | GuestSays (Some _) => join_loop fuel stdin_open windows_open
      end
  end.

(** [join], from the session on the guest to its end. *)
Definition join_session (fuel : nat) (i : Instance) (parts : SessionParts) : Sess unit :=
  request ← (if bool_decide (sp_raw_command parts = []) then does GShell else does (GExec (sp_raw_command parts)));
  match request with
  | Err error => join_error i "running the command on" error
  | Ok _ =>
      accepted ← wait_request_reply fuel;
      if negb accepted then join_error i "running the command on" "request rejected"
      else
        code ← join_loop fuel true (bool_decide (is_Some (sp_pty parts)));
        _ ← does GDisconnect;
        does (SExit code)
  end.

(** [join], with a session open: the PTY first. *)
Definition join_pty (fuel : nat) (i : Instance) (parts : SessionParts) : Sess unit :=
  match sp_pty parts with
  | None => join_session fuel i parts
  | Some pty =>
      asked ← does (GPty pty);
      match asked with
      | Err error => join_error i "pty request on" error
      | Ok _ =>
          accepted ← wait_request_reply fuel;
          if negb accepted then join_error i "pty request on" "request rejected"
          else join_session fuel i parts
      end
  end.

(** [join]. *)
Definition join (fuel : nat) (i : Instance) (parts : SessionParts) : Sess unit :=
  connected ← does GConnect;
  match connected with
  | DialError error => join_error i "connecting to" error
  | DialTimedOut => join_error i "connecting to" "SSH handshake timed out"
  | Connected =>
      key ← does GKey;
      match key with
      | Err error => join_error i "connecting to" error
      | Ok _ =>
          auth ← does (GAuth (sv_guest_user self));
          match auth with
          | Err error => join_error i "connecting to" error
          | Ok false => join_error i "connecting to" "public key authentication failed"
          | Ok true =>
              opened ← does GOpen;
              match opened with
              | Err error => join_error i "opening a session on" error
              | Ok _ => join_pty fuel i parts
              end
          end
      end
  end.

(** [proxy], from a running instance on. *)
Definition proxy_running (fuel : nat) (i : Instance) (parts : SessionParts) : Sess unit :=
  connection ← wait_ssh fuel (guest_address (i_address i)) (sv_start_timeout self) (sv_dial_interval self) 0;
  match connection with
  | Err error =>
      let message := "bento: " +:+ i_name i +:+ " did not accept an SSH connection within " +:+
                     display_duration (sv_start_timeout self) +:+ ": " +:+ error in
      _ ← does (SErr (message +:+ CRLF));
      does (SFail message)
  | Ok _ =>
      _ ← does (STouch (i_uuid i));
      join fuel i parts
  end.

(** [proxy]. *)
Definition proxy (fuel : nat) (i : Instance) (parts : SessionParts) : Sess unit :=
  if bool_decide (i_state i = Stopped) then
    _ ← does (SOut ("bento: starting " +:+ i_name i +:+ CRLF));
    started ← does (SStart i);
    match started with
    | Err error =>
        let message := "bento: starting " +:+ i_name i +:+ " failed: " +:+ error in
        _ ← does (SErr (message +:+ CRLF));
        does (SFail message)
    | Ok _ => proxy_running fuel i parts
    end
  else proxy_running fuel i parts.

(** ** Linking an unknown key *)

Definition LINK_POLL_INTERVAL : Z := 2 * nanos_per_sec.

Inductive LinkOutcome : Type := Linked (user : User) | Expired | Cancelled | LinkFailed (error : string).

(** [wait_for_link]. *)
Fixpoint wait_loop (fuel : nat) (id deadline : Z) (watch_stdin : bool) : Sess LinkOutcome :=
  match fuel with
  | O => Ret None
  | S fuel =>
      linked ← does (SLinked id);
      match linked with
      | Ok (Some user) => mret (Linked user)
      | Err error => mret (LinkFailed error)
      | Ok None =>
          now ← does SNow;
          if deadline <=? now then mret Expired
          else
            let pause := Z.min LINK_POLL_INTERVAL (deadline - now) in
            if negb watch_stdin then _ ← does (SSleep pause); wait_loop fuel id deadline false
            else
              read ← does (SPause pause);
              match read with
              | Slept => wait_loop fuel id deadline true
              | ReadNothing | ReadError => wait_loop fuel id deadline false
              | ReadByte byte =>
                  if (byte =? 3) || (byte =? 4) then mret Cancelled else wait_loop fuel id deadline true
              end
      end
  end.

Definition wait_for_link (fuel : nat) (link : PendingLink) : Sess LinkOutcome :=
  now ← does SNow;
  wait_loop fuel (pl_id link) (now + pl_valid_for link) true.

Definition announcement (fingerprint : string) (link : PendingLink) : string :=
  "bento: this key is not linked to an account" +:+ CRLF +:+
  "bento:   " +:+ fingerprint +:+ CRLF +:+
  "bento: open this within " +:+ display_duration (pl_valid_for link) +:+ ", sign in, and confirm that fingerprint:" +:+
  CRLF +:+ "bento:   " +:+ pl_url link +:+ CRLF +:+ "bento: waiting..." +:+ CRLF.

Definition QUOTE : string := String (ascii_of_code 34) EmptyString.

(** [offer_link]. *)
Definition offer_link (fuel : nat) (request : PairingRequest) : Sess unit :=
  if negb (sv_has_linker self) then does (SExit 1)
  else
    begun ← does (SBegin request);
    match begun with
    | Err error => _ ← does (SErr ("bento: could not start a link: " +:+ error +:+ CRLF)); does (SExit 1)
    | Ok link =>
        told ← does (SOut (announcement (pq_fingerprint request) link));
        match told with
        | Err _ => does (SExit 1)
        | Ok _ =>
            outcome ← wait_for_link fuel link;
            match outcome with
            | Linked user =>
                _ ← does (SOut ("bento: linked to " +:+ u_name user +:+ ", subnet " +:+ u_subnet user +:+ CRLF +:+
                        "bento: reconnect for the command line; run " +:+ QUOTE +:+ "help" +:+ QUOTE +:+
                        " for the command list" +:+ CRLF));
                does (SExit 0)
            | Expired =>
                _ ← does (SOut ("bento: the link expired; connect again for a new one" +:+ CRLF));
                does (SExit 1)
            | Cancelled => does (SExit 1)
            | LinkFailed error =>
                _ ← does (SErr ("bento: waiting for the link failed: " +:+ error +:+ CRLF));
                does (SExit 1)
            end
        end
    end.

(** [dispatch]. *)
Definition dispatch (fuel : nat) (authenticated : Authenticated) (parts : SessionParts) : Sess unit :=
  match authenticated with
  | AuthUser user =>
      prog_bind _ _ (fun found : option Instance =>
        match found with
        | Some instance => proxy fuel instance parts
        | None =>
            code ← does (SCli user (sp_command parts) (bool_decide (is_Some (sp_pty parts))));
            does (SExit (exit_code code))
        end) (resolve_instance (sp_user parts) (u_id user))
  | Unlinked request => offer_link fuel request
  end.

(** [process_channel], up to the request for a shell or a command: the PTY,
    the raw command and the input that came early; [None] when the client
    leaves first. *)
Fixpoint channel_request (fuel : nat) (pty : option PtyRequest) (pending_data : list (list Z)) :
    Sess (option (option PtyRequest * list Z * list (list Z))) :=
  match fuel with
  | O => Ret None
  | S fuel =>
      message ← does CWait;
      match message with
      | Some (RequestPty pty) => channel_request fuel (Some pty) pending_data
      | Some RequestShell => mret (Some (pty, [], pending_data))
      | Some (Exec command) => mret (Some (pty, command, pending_data))
      | Some (Data data) => channel_request fuel pty (pending_data ++ [data])
      | Some Eof | Some Close | None => mret None
      | _ => channel_request fuel pty pending_data
      end
  end.

(** The spawned task of [process_channel]: the early input, then what comes. *)
Fixpoint pump (fuel : nat) : Sess unit :=
  match fuel with
  | O => Ret None
  | S fuel =>
      message ← does CWait;
      match message with
      | Some (Data data) =>
          wrote ← does (CInput data);
          match wrote with Ok _ => pump fuel | Err _ => mret tt end
      | Some (WindowChange window) => _ ← does (CWindow window); pump fuel
      | Some Eof | Some Close | None => does CShutdown
      | Some _ => pump fuel
      end
  end.
Fixpoint pump_pending (fuel : nat) (pending_data : list (list Z)) : Sess unit :=
  match pending_data with
  | [] => pump fuel
  | data :: pending_data =>
      wrote ← does (CInput data);
      match wrote with Ok _ => pump_pending fuel pending_data | Err _ => mret tt end
  end.

(** [process_channel]: what it does itself, and the task it spawned. *)
Definition process_channel (fuel : nat) (authenticated : Authenticated) (user_name : string) :
    Sess (option (Sess unit * Sess unit)) :=
  request ← channel_request fuel None [];
  mret match request with
       | None => None
       | Some (pty, raw_command, pending_data) =>
           Some (dispatch fuel authenticated
                   (mkParts user_name raw_command (split_command (from_utf8_lossy raw_command)) pty),
                 pump_pending fuel pending_data)
       end.

(** [channel_open_session]: no session for a connection nobody accepted. *)
Definition channel_open_session (fuel : nat) (h : ConnectionHandler) : option (Sess (option (Sess unit * Sess unit))) :=
  authenticated ← ch_authenticated h;
  Some (process_channel fuel authenticated (ch_user_name h)).

(** ** The web terminal: [attach.rs] *)

Definition WEB_TERM : string := "xterm-256color".

Inductive Attached : Type := Exited (code : Z) | AttachFailed (message : string) | NotRunning.

(** [Outcome]: the first way the session ended. *)
Definition outcome_of (e : event scall) : option Attached :=
  match ev_call e with
  | SExit code => Some (Exited code)
  | SFail message => Some (AttachFailed message)
  | _ => None
  end.
Definition attached (tr : list (event scall)) : Attached :=
  default (AttachFailed "bento: the session ended") (head (omap outcome_of tr)).

(** [Server::attach], up to the bytes: [None] is the refusal to start. *)
Definition attach (fuel : nat) (i : Instance) (cols rows_ : Z) (start : bool) : option (Sess unit) :=
  if bool_decide (i_state i = Stopped) && negb start then None
  else Some (proxy fuel i (mkParts (i_name i) [] [] (Some (mkPty WEB_TERM (mkWindow cols rows_ 0 0))))).
End Ssh.
