(* ===== verification/SshRuns.v ===== *)
(** * SshRuns: what an SSH connection can reach

    A connection offers keys until one is accepted, opens a session and is
    dispatched.  The theorems follow the calls of such a run: a guest is
    started, dialled and joined only for a user whose key is linked and who
    has access to the instance the session names; a session ends exactly
    once; the wait for the guest's sshd keeps within its budget. *)

From Stdlib Require Import ZArith Lia.
From S2P Require Import Prelude Text Float64 Types Db Prog Pool Terminal Ssh.
Open Scope Z_scope.

(** ** The calls of a session *)

Definition callset : Type := forall R, scall R -> Prop.
Definition makes {A} (S : callset) (p : prog scall A) : Prop :=
  always p (fun tr _ => Forall (fun e => S _ (ev_call e)) tr).

Lemma makes_bind {A B} (S : callset) (p : prog scall A) (f : A -> prog scall B) :
  makes S p -> (forall a, makes S (f a)) -> makes S (p ≫= f).
Proof.
  intros Hp Hf. apply always_bind. eapply always_mono; [|exact Hp]. intros tr a Htr.
  eapply always_mono; [|exact (Hf a)]. intros tr' b Htr'. by apply Forall_app.
Qed.
Lemma makes_sess {A B} (S : callset) (p : Sess A) (f : A -> Sess B) :
  makes S p -> (forall a, makes S (f a)) -> makes S (Sess_bind A B f p).
Proof. intros Hp Hf. apply (makes_bind S p); [done|]. intros [a|]; [apply Hf|]. constructor. Qed.
Lemma makes_does {A} (S : callset) (c : scall A) : S A c -> makes S (does c).
Proof. intros H r. by apply Forall_singleton. Qed.
Lemma makes_ret {A} (S : callset) (a : A) : makes S (Ret a).
Proof. constructor. Qed.
Lemma makes_mret {A} (S : callset) (a : A) : makes S (Sess_ret A a).
Proof. constructor. Qed.
Lemma makes_mono {A} (S S' : callset) (p : prog scall A) :
  (forall R (c : scall R), S R c -> S' R c) -> makes S p -> makes S' p.
Proof. intros HS. apply always_mono. intros tr _ Htr. eapply Forall_impl; [exact Htr|]. intros e. apply HS. Qed.

Create HintDb makes.
#[export] Hint Resolve makes_ret makes_mret : makes.
Ltac makes_step :=
  match goal with
  | |- makes _ (Sess_bind _ _ _ _) => apply makes_sess; [|intros ?]
  | |- makes _ (mbind _ _) => apply makes_sess; [|intros ?]
  | |- makes _ (does _) => apply makes_does; first [by intros [] | cbn; auto]
  | |- makes _ (mret _) => constructor
  | |- makes _ (Ret _) => constructor
  | |- makes _ (match ?x with _ => _ end) => destruct x
  | |- makes _ (if ?x then _ else _) => destruct x
  | |- makes _ _ => solve [auto with makes]
  end.
Ltac makes_all := repeat makes_step.

(** ** Which calls a part of a session makes *)

Definition ends_call : callset := fun R c => match c with SExit _ | SFail _ => True | _ => False end.
(** Talking to the guest over a connection. *)
Definition guest_call : callset := fun R c =>
  match c with
  | GConnect | GKey | GAuth _ | GOpen | GPty _ | GShell | GExec _ | GWait | GSelect _ _ | GData _ | GEof | GWindow _
  | GStdout _ | GStderr _ | GDisconnect => True
  | _ => False
  end.
Definition join_call : callset := fun R c =>
  guest_call R c \/ ends_call R c \/ match c with SErr _ => True | _ => False end.
Definition link_call : callset := fun R c =>
  match c with
  | SLinked _ | SNow | SSleep _ | SPause _ | SOut _ | SErr _ | SExit _ => True
  | _ => False
  end.

Lemma wait_request_reply_makes fuel : makes guest_call (wait_request_reply fuel).
Proof. induction fuel as [|fuel IH]; cbn -[makes Sess_bind does]; makes_all; auto. Qed.
Lemma join_loop_makes fuel a b : makes guest_call (join_loop fuel a b).
Proof. revert a b. induction fuel as [|fuel IH]; intros a b; cbn -[makes Sess_bind does]; makes_all; auto. Qed.
Lemma wait_loop_makes fuel id deadline watch : makes link_call (wait_loop fuel id deadline watch).
Proof. revert watch. induction fuel as [|fuel IH]; intros watch; cbn -[makes Sess_bind does LINK_POLL_INTERVAL]; makes_all; auto. Qed.

(** ** A session ends once *)

Definition quiet_call : callset := fun R c => ~ ends_call R c.
#[local] Abbreviation quiet := (Forall (fun e : event scall => quiet_call _ (ev_call e))).

(** A finished session told its end with its last call, and with no other; an
    unfinished one has not told it. *)
Definition ended (tr : list (event scall)) (o : option unit) : Prop :=
  match o with
  | Some _ => exists pre e, tr = pre ++ [e] /\ ends_call _ (ev_call e) /\ quiet pre
  | None => quiet tr
  end.
Definition finishes (p : Sess unit) : Prop := always p ended.

Lemma finishes_bind {A} (p : prog scall A) (f : A -> Sess unit) :
  makes quiet_call p -> (forall a, finishes (f a)) -> finishes (prog_bind A (option unit) f p).
Proof.
  intros Hp Hf. apply always_bind. eapply always_mono; [|exact Hp]. intros tr a Htr.
  eapply always_mono; [|exact (Hf a)]. intros tr' [[]|]; cbn [ended].
  - intros (pre & e & -> & He & Hpre). exists (tr ++ pre), e. by rewrite app_assoc, Forall_app.
  - intros Htr'. by apply Forall_app.
Qed.
Lemma finishes_sess {A} (p : Sess A) (f : A -> Sess unit) :
  makes quiet_call p -> (forall a, finishes (f a)) -> finishes (Sess_bind A unit f p).
Proof. intros Hp Hf. apply (finishes_bind p); [done|]. intros [a|]; [apply Hf|]. by apply Forall_nil. Qed.
Lemma finishes_does (c : scall unit) : ends_call _ c -> finishes (does c).
Proof. intros Hc r. exists [], (mkEvent c r). by rewrite Forall_nil. Qed.

Lemma guest_quiet R (c : scall R) : guest_call R c -> quiet_call R c.
Proof. unfold quiet_call. destruct c; cbn; tauto. Qed.

Lemma wait_ssh_quiet fuel address timeout interval elapsed :
  makes quiet_call (wait_ssh fuel address timeout interval elapsed).
Proof. revert elapsed. induction fuel as [|fuel IH]; intros elapsed; cbn -[makes Sess_bind does]; makes_all; cbn; auto. Qed.
Lemma wait_loop_quiet fuel id deadline watch : makes quiet_call (wait_loop fuel id deadline watch).
Proof.
  revert watch. induction fuel as [|fuel IH]; intros watch; cbn -[makes Sess_bind does LINK_POLL_INTERVAL]; makes_all; cbn; auto.
Qed.
Lemma wait_request_reply_quiet fuel : makes quiet_call (wait_request_reply fuel).
Proof. eapply makes_mono, wait_request_reply_makes. apply guest_quiet. Qed.
Lemma join_loop_quiet fuel a b : makes quiet_call (join_loop fuel a b).
Proof. eapply makes_mono, join_loop_makes. apply guest_quiet. Qed.
Lemma wait_for_link_quiet fuel link : makes quiet_call (wait_for_link fuel link).
Proof. unfold wait_for_link. makes_all; apply wait_loop_quiet. Qed.
#[export] Hint Resolve wait_ssh_quiet wait_request_reply_quiet join_loop_quiet wait_for_link_quiet : makes.

Ltac finish_step :=
  match goal with
  | |- finishes (Sess_bind _ _ _ _) => apply finishes_sess; [|intros ?]
  | |- finishes (mbind _ _) => apply finishes_sess; [|intros ?]
  | |- finishes (does _) => by apply finishes_does
  | |- finishes (match ?x with _ => _ end) => destruct x
  | |- finishes (if ?x then _ else _) => destruct x
  | |- makes _ _ => makes_step
  end.
Ltac finish_all := repeat finish_step.

Lemma join_error_finishes i operation error : finishes (join_error i operation error).
Proof. unfold join_error. finish_all. Qed.
Lemma join_session_finishes fuel i parts : finishes (join_session fuel i parts).
Proof. unfold join_session. finish_all; apply join_error_finishes. Qed.
Lemma join_pty_finishes fuel i parts : finishes (join_pty fuel i parts).
Proof. unfold join_pty. finish_all; auto using join_error_finishes, join_session_finishes. Qed.
Lemma join_finishes self fuel i parts : finishes (join self fuel i parts).
Proof. unfold join. finish_all; auto using join_error_finishes, join_pty_finishes. Qed.
Lemma proxy_running_finishes self fuel i parts : finishes (proxy_running self fuel i parts).
Proof. unfold proxy_running. finish_all; apply join_finishes. Qed.
Lemma proxy_finishes self fuel i parts : finishes (proxy self fuel i parts).
Proof. unfold proxy. finish_all; apply proxy_running_finishes. Qed.
Lemma offer_link_finishes self fuel request : finishes (offer_link self fuel request).
Proof. unfold offer_link. finish_all. Qed.

Lemma resolve_quiet name user_id : makes quiet_call (resolve_instance name user_id).
Proof.
  unfold resolve_instance. destruct (bool_decide _); [constructor|].
  intros [i|]; [intros ?|]; repeat constructor; by intros [].
Qed.
Lemma dispatch_finishes self fuel authenticated parts : finishes (dispatch self fuel authenticated parts).
Proof.
  destruct authenticated as [user|request]; [|apply offer_link_finishes].
  apply (finishes_bind (resolve_instance _ _)); [apply resolve_quiet|]. intros [i|]; [apply proxy_finishes|]. finish_all.
Qed.

Lemma quiet_outcome tr : quiet tr -> omap outcome_of tr = [].
Proof.
  induction tr as [|e tr IH]; [done|]. intros [He Htr]%Forall_cons. cbn [omap list_omap]. rewrite (IH Htr).
  unfold quiet_call, outcome_of in *. destruct e as [R c r]. cbn in *. destruct c; cbn in He; tauto.
Qed.
Lemma attached_ended tr : ended tr (Some tt) ->
  exists e, last tr = Some e /\ outcome_of e = Some (attached tr).
Proof.
  intros (pre & e & -> & He & Hpre). exists e. split; [apply last_snoc|]. unfold attached.
  rewrite omap_app, (quiet_outcome _ Hpre). destruct e as [R c r]. cbn in *. by destruct c.
Qed.

(** Every session ends exactly once: whatever the stores, the guest and
    the client answer, a session that is over has told its exit status or its
    failure with its very last call and never before, and one still open has
    told neither.  For the web terminal the answer of [attach] is what that
    last call said, never the fallback for a session that ended without a
    word, and [attach] refuses exactly a stopped instance it was not asked to
    start. *)
Theorem session_ends_once (self : Server) (fuel : nat) (authenticated : Authenticated) (parts : SessionParts)
    (i : Instance) (cols rows_ : Z) (start : bool) :
  always (dispatch self fuel authenticated parts) ended /\
  match attach self fuel i cols rows_ start with
  | Some p => always p (fun tr o => ended tr o /\
                (o = Some tt -> exists e, last tr = Some e /\ outcome_of e = Some (attached tr)))
  | None => i_state i = Stopped /\ start = false
  end.
Proof.
  split; [apply dispatch_finishes|]. unfold attach. destruct (bool_decide _ && _) eqn:Hb.
  - apply andb_true_iff in Hb as [Hs%bool_decide_eq_true Hn%negb_true_iff]. done.
  - eapply always_mono; [|apply proxy_finishes]. intros tr o Ho. split; [done|]. intros ->. by apply attached_ended.
Qed.

(** ** Who reaches a guest *)

(** A client offers keys, each under a user name, until one is accepted. *)
Record Offer : Type := mkOffer { of_user : string; of_fingerprint : string; of_line : option string }.

Fixpoint authenticate (self : Server) (h : ConnectionHandler) (offers : list Offer) : prog scall ConnectionHandler :=
  match offers with
  | [] => Ret h
  | o :: offers =>
      prog_bind _ _ (fun answer : bool * ConnectionHandler =>
        if fst answer then Ret (snd answer) else authenticate self (snd answer) offers)
        (auth_publickey self h (of_user o) (of_fingerprint o) (of_line o))
  end.

(** A connection with one session: the keys, the channel, what it runs. *)
Definition connection (self : Server) (fuel : nat) (offers : list Offer) : Sess unit :=
  prog_bind _ _ (fun h : ConnectionHandler =>
    match channel_open_session self fuel h with
    | None => Ret (Some tt)
    | Some session =>
        opened ← session;
        match opened with
        | None => mret tt
        | Some (dispatched, _) => dispatched
        end
    end) (authenticate self new_client offers).

(** The key of an offer is in the store, linked to [u]. *)
Definition key_of (offers : list Offer) (before : list (event scall)) (user_name : string) (u : User) : Prop :=
  exists fp line key, mkOffer user_name fp line ∈ offers /\ mkEvent (SKey fp) (Ok key) ∈ before /\
    mkEvent (SUserRow (k_user_id key)) (Ok u) ∈ before.
(** [u] is let in to [i], which the session names. *)
Definition granted (offers : list Offer) (before : list (event scall)) (i : Instance) : Prop :=
  exists user_name u, key_of offers before user_name u /\ mkEvent (SInstance user_name) (Ok i) ∈ before /\
    mkEvent (SAccess (i_uuid i) (u_id u)) (Ok true) ∈ before.
Definition dialled (before : list (event scall)) (i : Instance) : Prop :=
  exists budget took, mkEvent (SDial budget (guest_address (i_address i))) (Connected, took) ∈ before.

(** What a call may be after the calls before it. *)
Definition session_may (offers : list Offer) (before : list (event scall)) (e : event scall) : Prop :=
  match ev_call e with
  | SStart i => granted offers before i
  | SDial _ address => exists i, granted offers before i /\ address = guest_address (i_address i)
  | STouch uuid => exists i, granted offers before i /\ dialled before i /\ uuid = i_uuid i
  | SCli user _ _ => exists user_name, key_of offers before user_name user
  | SBegin request => exists o, o ∈ offers /\ pq_fingerprint request = of_fingerprint o /\
      mkEvent (SKey (of_fingerprint o)) (Err NotFound) ∈ before
  | c => guest_call _ c -> exists i, granted offers before i /\ dialled before i
  end.

Section Access.
Context (self : Server) (offers : list Offer).
#[local] Abbreviation may := (session_may offers).

Definition guarded {A} (before : list (event scall)) (p : prog scall A) : Prop :=
  always p (fun tr _ => allowed may before tr).

Lemma guarded_bind {A B} before (p : prog scall A) (f : A -> prog scall B) :
  always p (fun tr a => allowed may before tr /\ guarded (before ++ tr) (f a)) ->
  guarded before (prog_bind A B f p).
Proof.
  intros H. apply always_bind. eapply always_mono; [|exact H]. intros tr a [Htr Hf].
  eapply always_mono; [|exact Hf]. intros tr' b Htr'. by apply allowed_app.
Qed.
Lemma guarded_sess {A B} before (p : Sess A) (f : A -> Sess B) :
  always p (fun tr o => allowed may before tr /\ forall a, o = Some a -> guarded (before ++ tr) (f a)) ->
  guarded before (Sess_bind A B f p).
Proof.
  intros H. apply guarded_bind. eapply always_mono; [|exact H]. intros tr [a|] [Htr Hf]; split; auto. exact I.
Qed.

(** Calls that may be made from here on, whatever else was called since. *)
Definition open_to (S : callset) (before : list (event scall)) : Prop :=
  forall before' e, before ⊆ before' -> S _ (ev_call e) -> may before' e.

Lemma allowed_calls (S : callset) before tr :
  open_to S before -> Forall (fun e => S _ (ev_call e)) tr -> allowed may before tr.
Proof.
  revert before. induction tr as [|e tr IH]; intros before Hs; [done|]. intros [He Htr]%Forall_cons.
  split; [by apply Hs|]. apply IH; [|done]. intros before' e' Hsub. apply Hs. set_solver.
Qed.
Lemma guarded_calls {A} (S : callset) before (p : prog scall A) : open_to S before -> makes S p -> guarded before p.
Proof. intros Hs. apply always_mono. intros tr _. by apply allowed_calls. Qed.

Lemma key_of_mono before before' name u : before ⊆ before' -> key_of offers before name u -> key_of offers before' name u.
Proof. intros Hs (fp & line & key & ? & ? & ?). exists fp, line, key. set_solver. Qed.
Lemma granted_mono before before' i : before ⊆ before' -> granted offers before i -> granted offers before' i.
Proof.
  intros Hs (name & u & Hk & ? & ?). exists name, u. split; [by eapply key_of_mono|]. set_solver.
Qed.
Lemma dialled_mono before before' i : before ⊆ before' -> dialled before i -> dialled before' i.
Proof. intros Hs (b & t & ?). exists b, t. set_solver. Qed.

(** Before the guest answers. *)
Definition wait_call (address : string) : callset := fun R c =>
  match c with SDial _ a => a = address | SSleep _ => True | _ => False end.
Definition idle_call : callset := fun R c =>
  match c with SOut _ | SErr _ | SExit _ | SFail _ | SSleep _ | SNow | SPause _ | SLinked _ | CWait => True | _ => False end.

Lemma idle_open before : open_to idle_call before.
Proof. intros before' [R c r] _ H. destruct c; cbn in *; tauto. Qed.
Lemma wait_open before i : granted offers before i -> open_to (wait_call (guest_address (i_address i))) before.
Proof.
  intros Hg before' [R c r] Hs H. destruct c; cbn in *; try tauto. subst. exists i. split; [by eapply granted_mono|done].
Qed.
Lemma join_open before i : granted offers before i -> dialled before i -> open_to join_call before.
Proof.
  intros Hg Hd before' [R c r] Hs H.
  assert (exists i, granted offers before' i /\ dialled before' i)
    by (exists i; split; [by eapply granted_mono|by eapply dialled_mono]).
  unfold join_call in H. destruct c; cbn in *; tauto.
Qed.

Lemma wait_ssh_answers fuel address timeout interval elapsed :
  always (wait_ssh fuel address timeout interval elapsed) (fun tr o =>
    Forall (fun e => wait_call address _ (ev_call e)) tr /\
    (o = Some (Ok tt) -> exists budget took, mkEvent (SDial budget address) (Connected, took) ∈ tr)).
Proof.
  revert elapsed. induction fuel as [|fuel IH]; intros elapsed; cbn -[saturating_add]; [by split; [constructor|]|].
  intros [[|message|] took]; cbn -[saturating_add].
  - split; [by repeat constructor|]. intros _. eexists _, took. by left.
  - destruct (_ <=? _); cbn -[saturating_add]; [by split; [repeat constructor|]|]. intros [].
    eapply always_mono; [|apply IH]. intros tr o [Htr Ho]. split; [by repeat constructor|].
    intros [b [t Hin]]%Ho. exists b, t. by do 2 right.
  - by split; [repeat constructor|].
Qed.

Lemma join_error_makes i operation error : makes join_call (join_error i operation error).
Proof. unfold join_error. makes_all; unfold join_call; cbn; auto. Qed.
Lemma join_makes fuel i parts : makes join_call (join self fuel i parts).
Proof.
  assert (Hreply : forall fuel, makes join_call (wait_request_reply fuel))
    by (intros f; eapply makes_mono, wait_request_reply_makes; by left).
  assert (Hloop : forall fuel a b, makes join_call (join_loop fuel a b))
    by (intros f a b; eapply makes_mono, join_loop_makes; by left).
  pose proof join_error_makes. unfold join, join_pty, join_session.
  makes_all; auto; unfold join_call; cbn; auto.
Qed.

Lemma guarded_does {A B} before (c : scall A) (f : A -> Sess B) :
  (forall r, may before (mkEvent c r)) -> (forall r, guarded (before ++ [mkEvent c r]) (f r)) ->
  guarded before (Sess_bind A B f (does c)).
Proof.
  intros Hc Hf. apply guarded_sess. intros r. split; [by split|]. intros a [= <-]. apply Hf.
Qed.
Lemma guarded_idle {A} before (p : prog scall A) : makes idle_call p -> guarded before p.
Proof. apply guarded_calls, idle_open. Qed.

Lemma proxy_running_guarded before fuel i parts :
  granted offers before i -> guarded before (proxy_running self fuel i parts).
Proof.
  intros Hg. unfold proxy_running. apply guarded_sess. eapply always_mono; [|apply wait_ssh_answers].
  intros tr o [Htr Ho]. split; [by eapply allowed_calls, Htr; apply wait_open|]. intros [[]|e] ->.
  2: { apply guarded_idle. makes_all. }
  assert (granted offers (before ++ tr) i) by (eapply granted_mono; [|done]; set_solver).
  assert (dialled (before ++ tr) i).
  { destruct (Ho eq_refl) as (b & t & Hin). exists b, t. set_solver. }
  apply guarded_does; [by exists i|]. intros r. eapply guarded_calls; [|apply join_makes]. apply (join_open _ i).
  - eapply granted_mono; [|done]. set_solver.
  - eapply dialled_mono; [|done]. set_solver.
Qed.
Lemma proxy_guarded before fuel i parts : granted offers before i -> guarded before (proxy self fuel i parts).
Proof.
  intros Hg. unfold proxy. destruct (bool_decide _); [|by apply proxy_running_guarded].
  apply guarded_does; [by intros ? []|]. intros r1.
  apply guarded_does; [intros ?; eapply granted_mono; [|done]; set_solver|]. intros [[]|e].
  - apply proxy_running_guarded. eapply granted_mono; [|done]. set_solver.
  - apply guarded_idle. makes_all.
Qed.

Lemma offer_link_guarded before fuel request :
  (exists o, o ∈ offers /\ pq_fingerprint request = of_fingerprint o /\
     mkEvent (SKey (of_fingerprint o)) (Err NotFound) ∈ before) ->
  guarded before (offer_link self fuel request).
Proof.
  intros Ho. unfold offer_link. destruct (negb _); [apply guarded_idle; makes_all|].
  apply guarded_does; [intros ?; exact Ho|]. intros r. apply guarded_idle. unfold wait_for_link.
  assert (Hl : forall fuel id deadline watch, makes idle_call (wait_loop fuel id deadline watch)).
  { intros f id deadline watch. revert watch. induction f as [|f IH]; intros watch;
      cbn -[makes Sess_bind does LINK_POLL_INTERVAL]; makes_all; auto. }
  makes_all; auto.
Qed.

(** Who a connection is. *)
Definition known (before : list (event scall)) (who : Authenticated) (user_name : string) : Prop :=
  match who with
  | AuthUser u => key_of offers before user_name u
  | Unlinked request => exists o, o ∈ offers /\ pq_fingerprint request = of_fingerprint o /\
      mkEvent (SKey (of_fingerprint o)) (Err NotFound) ∈ before
  end.

Lemma resolve_answers name user_id :
  always (resolve_instance name user_id) (fun tr found =>
    (forall before, allowed may before tr) /\
    forall i, found = Some i -> mkEvent (SInstance name) (Ok i) ∈ tr /\
      mkEvent (SAccess (i_uuid i) user_id) (Ok true) ∈ tr).
Proof.
  unfold resolve_instance. destruct (bool_decide _); [by split|]. intros [i|e]; [|by split; [intros ?; split; [intros []|]|]].
  intros [[]|e]; (split; [by intros ?; split; [intros []|split; [intros []|]]|]); [|done..].
  intros i' [= <-]. set_solver.
Qed.

Lemma dispatch_guarded before fuel who parts :
  known before who (sp_user parts) -> guarded before (dispatch self fuel who parts).
Proof.
  destruct who as [u|request]; intros Hw; [|by apply offer_link_guarded]. apply guarded_bind.
  eapply always_mono; [|apply resolve_answers]. intros tr found [Htr Hf]. split; [done|].
  assert (Hk : key_of offers (before ++ tr) (sp_user parts) u) by (eapply key_of_mono; [|exact Hw]; set_solver).
  destruct found as [i|].
  - apply proxy_guarded. destruct (Hf i eq_refl). exists (sp_user parts), u. set_solver.
  - apply guarded_does; [by exists (sp_user parts)|]. intros code. apply guarded_idle. makes_all.
Qed.

Lemma known_mono before before' who name : before ⊆ before' -> known before who name -> known before' who name.
Proof.
  intros Hs. destruct who; cbn; [by apply key_of_mono|]. intros (o & ? & ? & ?). exists o. set_solver.
Qed.

(** The key store may always be asked. *)
Definition key_call : callset := fun R c => match c with SKey _ | SUserRow _ => True | _ => False end.
Lemma key_open before : open_to key_call before.
Proof. intros before' [R c r] _ H. destruct c; cbn in *; tauto. Qed.

Lemma authenticate_key_answers o :
  o ∈ offers ->
  always (authenticate_key self (of_fingerprint o) (of_line o)) (fun tr who =>
    Forall (fun e => key_call _ (ev_call e)) tr /\ forall w, who = Some w -> known tr w (of_user o)).
Proof.
  intros Ho. unfold authenticate_key. intros [key|[]]; cbn -[Text.trim Machine.split_whitespace];
    try (by split; [repeat constructor|]).
  - intros [u|e]; (split; [by repeat constructor|]); [|done]. intros w [= <-].
    exists (of_fingerprint o), (of_line o), key. destruct o. set_solver.
  - destruct (sv_has_linker self); (split; [by repeat constructor|]); [|done]. intros w.
    destruct (of_line o) as [line|]; [|done]. intros [= <-]. exists o. set_solver.
Qed.

Lemma authenticate_answers h tried :
  tried ⊆ offers -> ch_authenticated h = None ->
  always (authenticate self h tried) (fun tr h' =>
    Forall (fun e => key_call _ (ev_call e)) tr /\
    forall w, ch_authenticated h' = Some w -> known tr w (ch_user_name h')).
Proof.
  intros Hsub Hh. induction tried as [|o tried IH]; cbn [authenticate]; [cbn; by rewrite Hh|].
  apply always_bind. unfold auth_publickey. apply always_bind.
  eapply always_mono; [|apply (authenticate_key_answers o); set_solver].
  intros tr [w|] [Htr Hw]; cbn [always fst snd]; rewrite !app_nil_r.
  - split; [done|]. intros w' [= <-]. by apply Hw.
  - eapply always_mono; [|apply IH; set_solver]. intros tr' h' [Htr' Hw']. split; [by apply Forall_app|].
    intros w Hw''. eapply known_mono; [|by apply Hw']. set_solver.
Qed.

(** A channel is read until it asks for something, which is then dispatched
    under the name the key was accepted with. *)
Lemma process_channel_answers fuel who name :
  always (process_channel self fuel who name) (fun tr o =>
    Forall (fun e => idle_call _ (ev_call e)) tr /\
    forall dispatched pumped, o = Some (Some (dispatched, pumped)) ->
      exists parts, dispatched = dispatch self fuel who parts /\ sp_user parts = name).
Proof.
  assert (Hr : forall fuel pty pending, makes idle_call (channel_request fuel pty pending)).
  { intros f. induction f as [|f IH]; intros pty pending; cbn -[makes Sess_bind does]; makes_all; auto. }
  unfold process_channel. apply always_bind. eapply always_mono; [|apply Hr].
  intros tr [[[[pty raw] pending]|]|] Htr; cbn; rewrite app_nil_r; (split; [done|]); [|done..].
  intros ?? [= <- <-]. by eexists.
Qed.
End Access.

(** C6. What an SSH connection reaches.  Whatever keys a client offers, under
    whatever names, and whatever the store, the guests and the network
    answer: an instance is started, its address dialled, its last connection
    recorded and a guest session opened only after the store has linked one
    of the offered keys to a user, has found the instance under the very user
    name that key was accepted with, and has said that the user has access to
    it; the guest is spoken to only over a dial of that instance's address.
    The command line runs only for the user of an offered key, and a link is
    begun only for an offered key the store does not have: never for one it
    failed to look up. *)
Theorem connection_reaches_granted (self : Server) (fuel : nat) (offers : list Offer) :
  always (connection self fuel offers) (fun tr _ => allowed (session_may offers) [] tr).
Proof.
  apply (guarded_bind offers). eapply always_mono; [|by apply (authenticate_answers self offers new_client offers)].
  intros tr h [Htr Hw]. split; [by eapply allowed_calls, Htr; apply key_open|]. unfold channel_open_session.
  destruct (ch_authenticated h) as [who|]; [|exact I]. specialize (Hw who eq_refl). cbn [mbind option_bind].
  apply (guarded_sess offers). eapply always_mono; [|apply process_channel_answers]. intros tr' o [Htr' Ho].
  split; [eapply allowed_calls, Htr'; apply idle_open|]. intros [[dispatched pumped]|] ->; [|exact I].
  destruct (Ho _ _ eq_refl) as (parts & -> & Hp). apply dispatch_guarded. rewrite Hp.
  eapply known_mono; [|exact Hw]. set_solver.
Qed.

(** Which names exist stays hidden: a session whose name is empty, taken
    by nobody, not shared with the user, or could not be looked up, goes on as
    the very same command line session, whatever the surroundings are. *)
Theorem refused_names_alike {W} (h : handler scall W) (self : Server) (fuel : nat) (user : User) (parts : SessionParts)
    (w : W) :
  fst (run h (resolve_instance (sp_user parts) (u_id user)) w) = None ->
  run h (dispatch self fuel (AuthUser user) parts) w =
  run h (code ← does (SCli user (sp_command parts) (bool_decide (is_Some (sp_pty parts))));
         does (SExit (exit_code code)))
    (snd (run h (resolve_instance (sp_user parts) (u_id user)) w)).
Proof. intros H. etrans; [apply (run_bind h (resolve_instance _ _))|]. destruct (run h _ w) as [o w']. cbn in H. by subst. Qed.

(** ** The wait for the guest's sshd *)

(** How long an event took, of what [wait_ssh] counts. *)
Definition took_of (e : event scall) : Z :=
  match e with
  | mkEvent c r =>
      match c in scall R return R -> Z with
      | SDial _ _ => fun r => Z.of_N (snd r)
      | SSleep pause => fun _ => pause
      | _ => fun _ => 0
      end r
  end.
Definition spent (tr : list (event scall)) : Z := foldr (fun e s => took_of e + s) 0 tr.

Definition wait_may (address : string) (timeout interval : Z) (before : list (event scall)) (e : event scall) : Prop :=
  match ev_call e with
  | SDial budget a => a = address /\ budget = timeout - spent before /\ 0 < budget
  | SSleep pause => pause = interval /\ spent before + pause < timeout
  | _ => False
  end.

(** What the last attempt says. *)
Definition wait_result (timeout interval : Z) (tr : list (event scall)) (o : option (result string unit)) : Prop :=
  exists pre budget address took,
    match o with
    | Some (Ok _) => tr = pre ++ [mkEvent (SDial budget address) (Connected, took)]
    | Some (Err message) =>
        (tr = pre ++ [mkEvent (SDial budget address) (DialTimedOut, took)] /\ message = "connection timed out") \/
        (tr = pre ++ [mkEvent (SDial budget address) (DialError message, took)] /\ timeout <= spent tr + interval)
    | None => False
    end.

Lemma spent_app a b : spent (a ++ b) = spent a + spent b.
Proof. induction a as [|e a IH]; cbn; [done|]. unfold spent in *. rewrite IH. lia. Qed.

Lemma wait_ssh_bounded fuel address timeout interval before :
  0 < interval -> timeout <= duration_max -> spent before < timeout ->
  timeout - spent before <= Z.of_nat fuel * interval -> 0 <= spent before ->
  always (wait_ssh fuel address timeout interval (spent before)) (fun tr o =>
    allowed (wait_may address timeout interval) before tr /\ wait_result timeout interval (before ++ tr) o).
Proof.
  intros Hi Hmax. revert before. induction fuel as [|fuel IH]; intros before Ht Hf H0; [lia|].
  cbn -[saturating_add spent took_of Z.of_nat]. intros [answer took].
  assert (Hmay : wait_may address timeout interval before
                   (mkEvent (SDial (Z.max (timeout - spent before) 0) address) (answer, took)))
    by (cbn -[spent]; repeat split; lia).
  destruct answer as [|message|]; cbn -[saturating_add spent took_of Z.of_nat allowed].
  - split; [by split|]. by eexists before, _, address, took.
  - unfold saturating_add at 1. set (now := saturating_add _ (Z.of_N took)).
    assert (Hnow : now = Z.min (spent before + Z.of_N took) duration_max) by done.
    destruct (Z.leb_spec timeout (Z.min (now + interval) duration_max)) as [Hle|Hlt];
      cbn -[saturating_add spent took_of Z.of_nat allowed].
    + split; [by split|]. eexists before, _, address, took. right. split; [done|].
      rewrite spent_app. change (spent [_]) with (Z.of_N took + 0). lia.
    + intros []. set (before' := before ++ [mkEvent (SDial (Z.max (timeout - spent before) 0) address) (DialError message, took);
                                             mkEvent (SSleep interval) tt]).
      assert (Hs : spent before' = spent before + Z.of_N took + interval).
      { unfold before'. rewrite spent_app. change (spent [_; _]) with (Z.of_N took + (interval + 0)). lia. }
      replace (saturating_add now interval) with (spent before') by (unfold saturating_add; lia).
      eapply always_mono; [|apply IH; lia]. intros tr o [Htr Ho]. split.
      * split; [done|]. split; [|unfold before' in Htr; by rewrite <-app_assoc].
        split; [done|]. rewrite spent_app. change (spent [_]) with (Z.of_N took + 0). lia.
      * unfold before' in Ho. by rewrite <-app_assoc in Ho.
  - split; [by split|]. eexists before, _, address, took. by left.
Qed.

(** The wait for the guest's sshd ends within its budget.  Given as many
    attempts as pauses fit into the timeout, [wait_ssh] always answers: it
    only dials the instance's address, gives every attempt exactly what is
    left of the timeout, pauses only when a further attempt can still start
    in time, and answers with the connection of its last attempt, with the
    timeout of an attempt that used up the budget, or with the error of an
    attempt after which no further one fits. *)
Theorem guest_wait_bounded (fuel : nat) (address : string) (timeout interval : Z) :
  0 < interval -> 0 < timeout <= duration_max -> timeout <= Z.of_nat fuel * interval ->
  always (wait_ssh fuel address timeout interval 0) (fun tr o =>
    allowed (wait_may address timeout interval) [] tr /\ wait_result timeout interval tr o).
Proof. intros Hi Ht Hf. apply (wait_ssh_bounded fuel address timeout interval []); cbn; lia. Qed.

Lemma guest_wait_bounded_witness :
  always (wait_ssh 120 (guest_address "10.77.0.5") DEFAULT_START_TIMEOUT DEFAULT_DIAL_INTERVAL 0) (fun tr o =>
    allowed (wait_may "10.77.0.5:22" DEFAULT_START_TIMEOUT DEFAULT_DIAL_INTERVAL) [] tr /\
    wait_result DEFAULT_START_TIMEOUT DEFAULT_DIAL_INTERVAL tr o).
Proof. by apply (guest_wait_bounded 120 "10.77.0.5:22" DEFAULT_START_TIMEOUT DEFAULT_DIAL_INTERVAL). Defined.

(** ** A run *)

Definition ada : User := mkUser 1 "ada" "ada@example.org" None "10.100.0.0/24" 0.
Definition web : Instance :=
  mkInstance "u1" "web" 1 1 "debian" "abc" Stopped WantRunning "10.100.0.2" "02:00:00:00:00:01"
    1 1024 10 false true 80 Off 0 None None.

(** Surroundings in which Ada's key is linked, ["web"] is hers, its guest
    accepts everything and ends with status 7. *)
Definition ada_answers : handler scall unit := fun R c w =>
  (match c in scall R return R with
   | SKey fp => if bool_decide (fp = "SHA256:ada") then Ok (mkSshKey 3 1 "" "SHA256:ada" "" 0) else Err NotFound
   | SUserRow _ => Ok ada
   | SInstance name => if bool_decide (name = "web") then Ok web else Err NotFound
   | SAccess uuid user_id => Ok (bool_decide (uuid = "u1") && (user_id =? 1))
   | STouch _ | SStart _ | SOut _ | SErr _ | GKey | GOpen | GPty _ | GShell | GExec _ | GData _ | CInput _ => Ok tt
   | SCli _ _ _ => 0
   | SBegin _ => Ok (mkPendingLink 1 "https://example.org/link" nanos_per_sec)
   | SLinked _ => Ok None
   | SDial _ _ => (Connected, 5%N)
   | SNow => 0
   | SPause _ => ReadByte 3
   | GConnect => Connected
   | GAuth _ => Ok true
   | GWait => Some MsgSuccess
   | GSelect _ _ => GuestSays (Some (MsgExitStatus 7))
   | CWait => Some RequestShell
   | SSleep _ | SExit _ | SFail _ | GEof | GWindow _ | GStdout _ | GStderr _ | GDisconnect | CWindow _ | CShutdown => tt
   end, w).

Example ada_reaches_web :
  let tr := trace ada_answers (connection Server_new 9 [mkOffer "web" "SHA256:other" None; mkOffer "web" "SHA256:ada" None]) tt in
  existsb (fun e => match ev_call e with SDial _ a => bool_decide (a = "10.100.0.2:22") | _ => false end) tr = true /\
  option_map outcome_of (last tr) = Some (Some (Exited 7)).
Proof. by vm_compute. Qed.

Lemma refused_names_alike_witness :
  let parts := mkParts "nobody" [] [] None in
  run ada_answers (dispatch Server_new 9 (AuthUser ada) parts) tt =
  run ada_answers (code ← does (SCli ada [] false); does (SExit (exit_code code))) tt.
Proof. apply (refused_names_alike ada_answers Server_new 9 ada (mkParts "nobody" [] [] None) tt). reflexivity. Defined.
