(* ===== verification/ImageStore.v ===== *)
(** * ImageStore: the content-addressed image store, [crates/images/src]

    Fetching the images of the allowlist, building bootc images, collecting
    versions nobody needs, and making the overlay of an instance.  The image
    directory, the lock files, the database ([DB], by the adapter [ImageDb]),
    the network and the host commands are the calls of [icall]; the body of an
    answer and the bytes of a file come as the list of what the successive
    reads give.  A value that removes something when it is dropped
    ([TempPath], [TempDir], [FileRollback], [StoreLock]) is the call that does
    so, where it goes out of scope. *)

From Stdlib Require Import ZArith Lia Ascii.
From S2P Require Import Prelude Text Types Db Instances Images Prog Lifecycle.
Open Scope Z_scope.

(** [std::io::Error], by what the code tells apart. *)
Inductive IoError : Type := IoNotFound | IoOther (message : string).

(** [Error]; a source is kept, and shown by [Display] only where the code says so. *)
Inductive ImageError : Type :=
  | InvalidChecksum (checksum : string)
  | Io (context : string) (source : IoError)
  | Dependency (context : string) (source : StoreError)
  | Transport (context source : string)
  | Invalid (message : string)
  | HttpError (message : string)
  | CommandError (context source output : string)
  | Multiple (errors : list ImageError).

(** [Display]. *)
Fixpoint image_error_text (e : ImageError) : string :=
  match e with
  | InvalidChecksum checksum => "images: invalid sha256 checksum " +:+ debug checksum
  | Io context _ | Dependency context _ | Transport context _ => "images: " +:+ context
  | Invalid message | HttpError message => "images: " +:+ message
  | CommandError context _ output => "images: " +:+ context +:+ ": " +:+ output
  | Multiple errors => Text.join (String (ascii_of_code 10) EmptyString) (map image_error_text errors)
  end.

(** [joined]. *)
Definition joined (errors : list ImageError) : result ImageError unit :=
  match errors with
  | [] => Ok tt
  | [error] => Err error
  | _ => Err (Multiple errors)
  end.

(** ** Checksums, names and references *)

Definition is_hexdigit (c : ascii) : bool := is_ascii_digit c || in_range "a" "f" c || in_range "A" "F" c.
Definition is_sha256 (s : string) : bool := (str_len s =? 64) && str_all is_hexdigit s.

(** [normalize_checksum]. *)
Definition normalize_checksum (checksum : string) : result ImageError string :=
  let lowercase := to_ascii_lowercase (Text.trim checksum) in
  let bare :=
    match strip_prefix "sha256:" lowercase with
    | Some bare => bare
    | None => default lowercase (strip_prefix "sha256-" lowercase)
    end in
  if is_sha256 bare then Ok bare else Err (InvalidChecksum checksum).

(** [validate_image_name]. *)
Definition valid_edge (c : ascii) : bool := is_ascii_lowercase c || is_ascii_digit c.
Definition validate_image_name (name : string) : result ImageError unit :=
  let refuse := Err (Invalid "image name must be a lower-case DNS label") in
  match head (chars name), last (chars name) with
  | Some first, Some final =>
      if (63 <? str_len name) || negb (valid_edge first) || negb (valid_edge final) ||
         negb (str_all (fun c => valid_edge c || Ascii.eqb c "-") name)
      then refuse else Ok tt
  | _, _ => refuse
  end.

(** [validate_oci_reference]; [get(..n)] of a text shorter than [n] is
    nothing, and every character has been found to be ASCII. *)
Definition TRANSPORTS : list string :=
  ["atomic:"; "containers-storage:"; "dir:"; "docker:"; "docker-archive:"; "docker-daemon:"; "oci:"; "oci-archive:";
   "ostree:"; "sif:"; "tarball:"].
Definition is_alphanumeric (c : ascii) : bool := is_ascii_lowercase c || is_ascii_uppercase c || is_ascii_digit c.
Definition reference_char (c : ascii) : bool :=
  is_alphanumeric c || existsb (Ascii.eqb c) ["."; "_"; "-"; "/"; ":"; "@"; "+"; "["; "]"]%char.
Definition validate_oci_reference (reference : string) : result ImageError unit :=
  if bool_decide (reference = EmptyString) || (2048 <? str_len reference) ||
     negb (match head (chars reference) with Some first => is_alphanumeric first || Ascii.eqb first "[" | None => false end) ||
     negb (str_all reference_char reference) ||
     existsb (fun transport => starts_with transport (to_ascii_lowercase reference)) TRANSPORTS
  then Err (Invalid "OCI image reference is not a valid option-safe registry reference")
  else Ok tt.

(** [validate_builder_reference]; [rsplit_once] of a text. *)
Fixpoint rsplit_once_text (p s : string) : option (string * string) :=
  match s with
  | EmptyString => None
  | String c s' =>
      match rsplit_once_text p s' with
      | Some (before, after) => Some (String c before, after)
      | None => (fun after => (EmptyString, after)) <$> strip_prefix p s
      end
  end.
Definition validate_builder_reference (reference : string) : result ImageError unit :=
  _ ← validate_oci_reference reference;
  match rsplit_once_text "@sha256:" reference with
  | None => Err (Invalid "bootc builder image must be configured with an immutable @sha256 digest")
  | Some (name, digest) =>
      if bool_decide (name = EmptyString) || negb (is_sha256 digest)
      then Err (Invalid "bootc builder image must end with @sha256:<64 hex>")
      else Ok tt
  end.

(** ** The calls *)

Definition LOCK_FILE_NAME : string := ".lock".
Definition OCI_LOCK_FILE_NAME : string := ".oci.lock".

(** What successive reads give. *)
Definition Stream (E : Type) : Type := list (result E (list Z)).
(** What [std::fs::read_dir] finds below a directory. *)
Inductive Entry : Type := FileEntry (path : string) | DirEntry (entries : list Entry).

Inductive icall : Type -> Type :=
  (** The database. *)
  | IInsertImage (i : Image) : icall (result StoreError bool)
  | IDeleteUnbuilt (name : string) : icall (result StoreError bool)
  | IImages : icall (result StoreError (list Image))
  | IHasVersion (checksum : string) : icall (result StoreError bool)
  | IInsertVersion (v : ImageVersion) : icall (result StoreError unit)
  | ISetCurrent (image_name checksum : string) : icall (result StoreError unit)
  | IVersions : icall (result StoreError (list ImageVersion))
  | IForSource (image_name source_digest : string) : icall (result StoreError (option ImageVersion))
  | IRecordSource (image_name source_digest checksum : string) : icall (result StoreError unit)
  | IDeleteVersion (checksum : string) : icall (result StoreError unit)
  | IInUse (checksum : string) : icall (result StoreError bool)
  (** The image directory. *)
  | ICreateDir (path : string) : icall (result IoError unit)
  | ITempFile (dir prefix : string) : icall (result IoError string)
  | ITempDir (dir prefix : string) : icall (result IoError string)
  | ICreateFile (path : string) : icall (result IoError unit)
  | IWrite (path : string) (chunk : list Z) : icall (result IoError unit)
  | IFlush (path : string) : icall (result IoError unit)
  | ISync (path : string) : icall (result IoError unit)
  | IChmod (path : string) (mode : Z) : icall (result IoError unit)
  | IRename (from to : string) : icall (result IoError unit)
  | IStat (path : string) : icall (result IoError (bool * Z))
  | IOpen (path : string) : icall (result IoError (Stream IoError))
  | IScan (path : string) : icall (result IoError (list Entry))
  | IRemove (path : string) : icall (result IoError unit)
  | IRemoveDir (path : string) : icall unit
  (** The lock, the network, host commands and the clock. *)
  | ILock (file_name : string) : icall (result (string * IoError) unit)
  | IUnlock (file_name : string) : icall unit
  | IGet (url : string) : icall (result string (Z * Stream string))
  | IRun (program : string) (args : list string) : icall (result (string * string) string)
  | IRunTimed (program : string) (args : list string) : icall (option (result (string * string) string))
  | IUuid : icall string
  | INow : icall Z.

(** [async fn ... -> Result<A>]. *)
Definition I (A : Type) : Type := fallible icall ImageError A.
#[global] Instance I_ret : MRet I := fallible_ret.
#[global] Instance I_bind : MBind I := fallible_bind.

(** What runs when the program before it is over, whatever it answered. *)
Definition finally {A} (p : I A) (cleanup : prog icall unit) : I A :=
  prog_bind _ _ (fun r => prog_bind _ _ (fun _ => Ret r) cleanup) p.
(** What runs when it failed. *)
Definition on_error {A} (p : I A) (cleanup : prog icall unit) : I A :=
  prog_bind _ _ (fun r => match r with
                          | Ok _ => Ret r
                          | Err _ => prog_bind _ _ (fun _ => Ret r) cleanup
                          end) p.
Definition remove (path : string) : prog icall unit := Call (IRemove path) (fun _ => Ret tt).

(** [Store], without the seams. *)
Record ImageStore : Type := mkImageStore {
  is_dir : string;
  is_qemu_img : string;
  is_podman : string;
  is_builder_image : string;
  is_bootc_rootfs : string;
  is_container_storage : string;
  is_build_timeout : Z
}.
(** [Store::new], and [Store::for_overlays], whose database refuses every call. *)
Definition ImageStore_new (dir : string) : ImageStore :=
  mkImageStore dir "qemu-img" "podman" EmptyString "ext4" "/var/lib/containers/storage" (30 * 60 * nanos_per_sec).

Section ImageStore.
(** [hex::encode] of the SHA-256 of the bytes; why [Url::parse] refuses a
    text, if it does; [OsStr::extension] is in [is_qcow2]. *)
Context (digest : list Z -> string) (url_error : string -> option string).
Variable self : ImageStore.

(** [Store::path_normalized] and [Store::path]. *)
Definition path_normalized (checksum : string) : string := join_path (is_dir self) ("sha256-" +:+ checksum +:+ ".qcow2").
Definition image_path (checksum : string) : result ImageError string :=
  path_normalized <$> normalize_checksum checksum.

(** [acquire_lock] and [acquire_oci_lock]: the mutex, the directory, the file
    and the flock; held for [p]. *)
Definition with_lock {A} (file_name : string) (p : I A) : I A :=
  _ ← ask (ILock file_name) (fun e => Io (fst e) (snd e));
  finally p (Call (IUnlock file_name) (fun _ => Ret tt)).

(** [run] and [run_timed]. *)
Definition run_timed (program context : string) (args : list string) : I string :=
  Call (IRunTimed program args) (fun answer => Ret
    match answer with
    | Some (Ok output) => Ok output
    | Some (Err (source, output)) => Err (CommandError context source output)
    | None => Err (Invalid (context +:+ " timed out after " +:+ dec (is_build_timeout self / nanos_per_sec) +:+ " seconds"))
    end).

(** ** Storing a file *)

(** [persist_temp_path], which drops the temporary file when it fails, and
    [rename_generated_disk]. *)
Definition persist_temp_path (temporary_path path : string) : I unit :=
  on_error (_ ← ask (IChmod temporary_path 292) (Io "chmod image");
            ask (IRename temporary_path path) (Io ("store at " +:+ path)))
    (remove temporary_path).
Definition rename_generated_disk (disk path : string) : I unit :=
  _ ← ask (IChmod disk 292) (Io "chmod generated image");
  ask (IRename disk path) (Io ("store at " +:+ path)).

(** [commit_download], with the lock.  The second answer is the temporary file
    that is still to be dropped. *)
Definition commit_download_locked (image_ : Image) (temporary_path checksum : string) (size : Z) :
    prog icall (result ImageError unit * option string) :=
  let path := path_normalized checksum in
  let consumed (p : I unit) := prog_bind _ _ (fun r => Ret (r, None)) p in
  Call (IHasVersion checksum) (fun exists_ =>
    match exists_ with
    | Err error => Ret (Err (Dependency "check existing version" error), Some temporary_path)
    | Ok true =>
        Call (IStat path) (fun metadata =>
          match metadata with
          | Err IoNotFound => consumed (
              _ ← persist_temp_path temporary_path path;
              on_error (ask (ISetCurrent (img_name image_) checksum) (Dependency "mark repaired version current"))
                (remove path))
          | _ => Call (ISetCurrent (img_name image_) checksum) (fun r =>
              Ret (map_err (Dependency "mark existing version current") r, Some temporary_path))
          end)
    | Ok false => consumed (
        _ ← persist_temp_path temporary_path path;
        on_error (
          now ← get INow;
          _ ← ask (IInsertVersion (mkImageVersion checksum (img_name image_) path size Qcow2 None now))
                (Dependency "insert image version");
          ask (ISetCurrent (img_name image_) checksum) (Dependency "mark current"))
          (remove path))
    end).

(** [commit_download]. *)
Definition commit_download (image_ : Image) (temporary_path checksum : string) (size : Z) : I unit :=
  Call (ILock LOCK_FILE_NAME) (fun locked =>
    match locked with
    | Err (context, source) => prog_bind _ _ (fun _ => throw (Io context source)) (remove temporary_path)
    | Ok _ =>
        prog_bind _ _ (fun answer : result ImageError unit * option string =>
          Call (IUnlock LOCK_FILE_NAME) (fun _ =>
            match snd answer with
            | Some dropped => prog_bind _ _ (fun _ => Ret (fst answer)) (remove dropped)
            | None => Ret (fst answer)
            end)) (commit_download_locked image_ temporary_path checksum size)
    end).

(** ** Downloading *)

(** The loop of [fetch_one] over the body: the bytes and their number. *)
Fixpoint write_stream (url path : string) (stream : Stream string) (hashed : list Z) (size : Z) : I (list Z * Z) :=
  match stream with
  | [] => mret (hashed, size)
  | Err error :: _ => throw (HttpError ("download " +:+ url +:+ ": " +:+ error))
  | Ok chunk :: stream =>
      _ ← ask (IWrite path chunk) (Io ("download " +:+ url));
      let size := size + Z.of_nat (length chunk) in
      if u64_max <? size then throw (Invalid "download exceeds u64 size")
      else write_stream url path stream (hashed ++ chunk) size
  end.

(** Step 3 of [fetch_one]. *)
Definition check_pin (image_ : Image) (checksum : string) : result ImageError unit :=
  match img_pinned_checksum image_ with
  | None => Ok tt
  | Some pinned_checksum =>
      pinned ← map_err (fun e => Invalid ("pinned checksum: " +:+ image_error_text e)) (normalize_checksum pinned_checksum);
      if bool_decide (pinned = checksum) then Ok tt
      else Err (Invalid ("checksum mismatch: pinned " +:+ pinned +:+ ", downloaded " +:+ checksum))
  end.

(** [fetch_one] of a disk image. *)
Definition fetch_qcow2 (image_ : Image) : I unit :=
  let url := img_url image_ in
  _ ← pure_res (match url_error url with Some error => Err (HttpError ("build request: " +:+ error)) | None => Ok tt end);
  response ← ask (IGet url) (Transport ("download " +:+ url));
  if negb (fst response =? 200) then
    throw (HttpError ("download " +:+ url +:+ ": unexpected status " +:+ dec (fst response)))
  else
    temporary_path ← ask (ITempFile (is_dir self) "download-") (Io "create temporary file");
    checked ← on_error (
      body ← write_stream url temporary_path (snd response) [] 0;
      _ ← ask (IFlush temporary_path) (Io "write temporary file");
      let checksum := digest (fst body) in
      _ ← pure_res (check_pin image_ checksum);
      mret (checksum, snd body)) (remove temporary_path);
    commit_download image_ temporary_path (fst checked) (snd checked).

(** ** Bootc images *)

(** [hash_file]. *)
Fixpoint hash_stream (stream : Stream IoError) (hashed : list Z) (size : Z) : result ImageError (string * Z) :=
  match stream with
  | [] => Ok (digest hashed, size)
  | Err error :: _ => Err (Io "read generated qcow2" error)
  | Ok chunk :: stream =>
      let size := size + Z.of_nat (length chunk) in
      if u64_max <? size then Err (Invalid "generated image exceeds u64 size")
      else hash_stream stream (hashed ++ chunk) size
  end.
Definition hash_file (path : string) : I (string * Z) :=
  stream ← ask (IOpen path) (Io "open generated qcow2");
  pure_res (hash_stream stream [] 0).

(** [commit_generated], with the lock. *)
Definition commit_generated_locked (image_ : Image) (disk checksum : string) (size : Z) (source_digest : string) : I unit :=
  exists_ ← ask (IHasVersion checksum) (Dependency "check existing generated version");
  let path := path_normalized checksum in
  metadata ← attempt (IStat path);
  let file_exists := is_ok metadata in
  _ ← (if negb exists_ && file_exists then
         stored ← hash_file path;
         if bool_decide (fst stored = checksum) then mret tt
         else throw (Invalid ("orphaned image file " +:+ path +:+ " does not match its content-addressed checksum"))
       else mret tt : I unit);
  _ ← (if file_exists then mret tt else rename_generated_disk disk path : I unit);
  on_error (
    _ ← ((if (exists_ : bool) then mret tt
          else
            now ← get INow;
            ask (IInsertVersion (mkImageVersion checksum (img_name image_) path size Oci (Some source_digest) now))
              (Dependency "insert generated image version")) : I unit);
    _ ← ask (IRecordSource (img_name image_) source_digest checksum) (Dependency "record OCI source digest");
    ask (ISetCurrent (img_name image_) checksum) (Dependency "mark generated version current"))
    (if file_exists then Ret tt else remove path).

(** [commit_generated]; the output directory goes after the lock. *)
Definition commit_generated (image_ : Image) (output disk checksum : string) (size : Z) (source_digest : string) : I unit :=
  finally (with_lock LOCK_FILE_NAME (commit_generated_locked image_ disk checksum size source_digest))
    (Call (IRemoveDir output) (fun _ => Ret tt)).

(** [find_single_qcow2]. *)
Definition file_name (path : string) : string := match rsplit_once "/" path with Some (_, name) => name | None => path end.
Definition is_qcow2 (path : string) : bool :=
  match rsplit_once "." (file_name path) with
  | Some (stem, extension) => negb (bool_decide (stem = EmptyString)) && bool_decide (extension = "qcow2")
  | None => false
  end.
Fixpoint visit (e : Entry) : list string :=
  match e with
  | FileEntry path => if is_qcow2 path then [path] else []
  | DirEntry entries => concat (map visit entries)
  end.
Definition find_single_qcow2 (root : string) : I string :=
  entries ← ask (IScan root) (Io "scan image-builder output");
  pure_res match concat (map visit entries) with
           | [disk] => Ok disk
           | [] => Err (Invalid "image-builder produced no qcow2 artifact")
           | found => Err (Invalid ("image-builder produced " +:+ dec (Z.of_nat (length found)) +:+
                                    " qcow2 artifacts; expected one"))
           end.

(** [validate_bootc_contract]. *)
Definition SCRIPT : string := "
test -x /usr/bin/cloud-init || { echo 'bootc contract: /usr/bin/cloud-init is missing' >&2; exit 20; }
test -x /usr/bin/qemu-ga || { echo 'bootc contract: /usr/bin/qemu-ga is missing' >&2; exit 21; }
test -d /usr/lib/modules || { echo 'bootc contract: /usr/lib/modules is missing' >&2; exit 22; }
find /usr/lib/modules -type f -name 'vmlinuz*' -print -quit | grep -q . || { echo 'bootc contract: no kernel was found in /usr/lib/modules' >&2; exit 23; }
find /usr/lib /usr/lib64 -type f -path '*/cloudinit/sources/DataSourceNoCloud.py' -print -quit 2>/dev/null | grep -q . || { echo 'bootc contract: cloud-init NoCloud data source is missing' >&2; exit 24; }
".
Definition validate_bootc_contract (podman reference : string) : I unit :=
  _ ← run_timed podman "validate bootc image contract"
        ["run"; "--rm"; "--network=none"; "--entrypoint=/bin/sh"; "--"; reference; "-eu"; "-c"; SCRIPT];
  mret tt.

(** The privileged build of [fetch_oci], into a directory of its own. *)
Definition build_disk (image_ : Image) (source_digest : string) : I unit :=
  output ← ask (ITempDir (is_dir self) "bootc-output-") (Io "create bootc output directory");
  let drop_output := Call (IRemoveDir output) (fun _ => Ret tt) in
  built ← on_error (
    _ ← run_timed (is_podman self) "image-builder"
          ["run"; "--rm"; "--privileged"; "--security-opt"; "label=type:unconfined_t"; "-v"; output +:+ ":/output"; "-v";
           is_container_storage self +:+ ":/var/lib/containers/storage"; is_builder_image self; "build"; "--bootc-ref";
           img_url image_; "--bootc-default-fs"; is_bootc_rootfs self; "qcow2"];
    disk ← find_single_qcow2 output;
    hashed ← hash_file disk;
    mret (disk, hashed)) drop_output;
  commit_generated image_ output (fst built) (fst (snd built)) (snd (snd built)) source_digest.

(** [fetch_oci], with the OCI lock. *)
Definition fetch_oci_locked (image_ : Image) : I unit :=
  let podman := is_podman self in
  _ ← run_timed podman "podman pull" ["pull"; "--quiet"; "--policy=always"; "--"; img_url image_];
  digest_text ← run_timed podman "podman inspect"
    ["image"; "inspect"; "--format={{.Digest}}"; "--"; img_url image_];
  bare ← pure_res (map_err (fun e => Invalid ("podman returned no usable OCI digest: " +:+ image_error_text e))
           (normalize_checksum (Text.trim digest_text)));
  let source_digest := "sha256:" +:+ bare in
  version ← ask (IForSource (img_name image_) source_digest) (Dependency "find OCI source version");
  cached ← (match version with
            | None => mret None
            | Some version =>
                metadata ← attempt (IStat (iv_path version));
                mret (if is_ok metadata then Some version else None)
            end : I (option ImageVersion));
  match cached with
  | Some version =>
      ask (ISetCurrent (img_name image_) (iv_checksum version)) (Dependency "mark cached OCI build current")
  | None =>
      _ ← validate_bootc_contract podman (img_url image_);
      _ ← run_timed podman "pull image-builder" ["pull"; "--quiet"; "--policy=always"; "--"; is_builder_image self];
      build_disk image_ source_digest
  end.

(** [fetch_oci]. *)
Definition fetch_oci (image_ : Image) : I unit :=
  _ ← pure_res (validate_oci_reference (img_url image_));
  _ ← pure_res (validate_builder_reference (is_builder_image self));
  _ ← ask (ICreateDir (is_dir self)) (Io "create image directory");
  with_lock OCI_LOCK_FILE_NAME (fetch_oci_locked image_).

(** ** The operations *)

(** [fetch_one]. *)
Definition fetch_one (image_ : Image) : I unit :=
  if bool_decide (img_kind image_ = Oci) then fetch_oci image_ else fetch_qcow2 image_.

(** The loop of [collect] over the versions: the errors. *)
Fixpoint collect_versions (current : list string) (versions : list ImageVersion) : prog icall (list ImageError) :=
  match versions with
  | [] => Ret []
  | version :: versions =>
      let checksum := iv_checksum version in
      let rest := collect_versions current versions in
      let failing (error : ImageError) := prog_bind _ _ (fun errors => Ret (error :: errors)) rest in
      if bool_decide (checksum ∈ current) then rest
      else
        Call (IInUse checksum) (fun in_use =>
          match in_use with
          | Err error => failing (Dependency ("collect " +:+ checksum) error)
          | Ok true => rest
          | Ok false =>
              Call (IDeleteVersion checksum) (fun deleted =>
                match deleted with
                | Err error => failing (Dependency ("collect " +:+ checksum +:+ ": delete row") error)
                | Ok _ =>
                    Call (IRemove (path_normalized checksum)) (fun removed =>
                      match removed with
                      | Err (IoOther message) => failing (Io ("collect " +:+ checksum +:+ ": delete file") (IoOther message))
                      | _ => rest
                      end)
                end)
          end)
  end.

(** [collect]. *)
Definition collect : I unit :=
  with_lock LOCK_FILE_NAME (
    images_ ← ask IImages (Dependency "collect: list allowlist");
    let current := omap img_current_checksum images_ in
    versions ← ask IVersions (Dependency "collect: list versions");
    prog_bind _ _ (fun errors => Ret (joined errors)) (collect_versions current versions)).

(** [fetch_images]. *)
Fixpoint fetch_all (images_ : list Image) : prog icall (list ImageError) :=
  match images_ with
  | [] => Ret []
  | image_ :: images_ =>
      prog_bind _ _ (fun fetched : result ImageError unit =>
        prog_bind _ _ (fun errors =>
          Ret (match fetched with
               | Ok _ => errors
               | Err error => Invalid ("fetch " +:+ img_name image_ +:+ ": " +:+ image_error_text error) :: errors
               end)) (fetch_all images_)) (fetch_one image_)
  end.
Definition fetch_images : I unit :=
  _ ← ask (ICreateDir (is_dir self)) (Io "create image directory");
  images_ ← ask IImages (Dependency "list allowlist");
  prog_bind _ _ (fun errors =>
    prog_bind _ _ (fun collected : result ImageError unit =>
      Ret (joined (errors ++ match collected with Ok _ => [] | Err error => [error] end))) collect)
    (fetch_all images_).

(** [add_oci_image]. *)
Definition add_oci_image (name reference : string) : I unit :=
  _ ← pure_res (validate_image_name name);
  _ ← pure_res (validate_oci_reference reference);
  let image_ := mkImage name reference Oci None None in
  inserted ← ask (IInsertImage image_) (Dependency "append OCI image to allowlist");
  if negb inserted then
    images_ ← ask IImages (Dependency "read existing allowlist entry");
    match find (fun e => bool_decide (img_name e = name)) images_ with
    | Some existing =>
        if bool_decide (img_kind existing = Oci) && bool_decide (img_url existing = reference) then fetch_one existing
        else throw (Invalid ("image name " +:+ debug name +:+ " is already on the allowlist with a different source"))
    | None => throw (Invalid ("image name " +:+ debug name +:+ " is already on the allowlist with a different source"))
    end
  else on_error (fetch_one image_) (Call (IDeleteUnbuilt name) (fun _ => Ret tt)).

(** [fetch_named]. *)
Definition fetch_named (name : string) : I unit :=
  images_ ← ask IImages (Dependency "list allowlist");
  image_ ← pure_res (ok_or (find (fun e => bool_decide (img_name e = name)) images_)
             (Invalid ("unknown image " +:+ debug name)));
  fetch_one image_.

(** [create_overlay]: [overlay.rs]. *)
Definition create_overlay (checksum overlay_path : string) (disk_gib : Z) : I unit :=
  checksum ← pure_res (normalize_checksum checksum);
  if disk_gib =? 0 then
    throw (Invalid ("overlay disk size must be positive, got " +:+ dec disk_gib +:+ " GiB"))
  else
    with_lock LOCK_FILE_NAME (
      let backing := path_normalized checksum in
      metadata ← attempt (IStat backing);
      match metadata with
      | Err IoNotFound =>
          throw (Invalid ("image version " +:+ checksum +:+ " is not in the store (expected " +:+ backing +:+ ")"))
      | Err error => throw (Io "stat backing file" error)
      | Ok _ =>
          _ ← ask (IRun (is_qemu_img self) ["create"; "-f"; "qcow2"; "-F"; "qcow2"; "-b"; backing; overlay_path])
                (fun e => CommandError "qemu-img create" (fst e) (snd e));
          on_error (
            _ ← ask (IRun (is_qemu_img self) ["resize"; overlay_path; dec disk_gib +:+ "G"])
                  (fun e => CommandError "qemu-img resize" (fst e) (snd e));
            mret tt) (remove overlay_path)
      end).

(** ** [report.rs] *)

Record ImageStatus : Type := mkStatus {
  st_name : string; st_current_checksum : option string; st_older_instances : Z
}.
Inductive reportcall : Type -> Type :=
  | RImages : reportcall (result StoreError (list Image))
  | RCountOther (image_name checksum : string) : reportcall (result StoreError Z).
Fixpoint report_rows (images_ : list Image) : fallible reportcall ImageError (list ImageStatus) :=
  match images_ with
  | [] => fallible_ret _ []
  | image_ :: images_ =>
      fallible_bind _ _ (fun older_instances =>
        fallible_bind _ _ (fun statuses =>
          fallible_ret _ (mkStatus (img_name image_) (img_current_checksum image_) older_instances :: statuses))
          (report_rows images_))
        (match img_current_checksum image_ with
         | Some checksum => ask (RCountOther (img_name image_) checksum) (Dependency ("report " +:+ img_name image_))
         | None => fallible_ret _ 0
         end)
  end.
Definition report : fallible reportcall ImageError (list ImageStatus) :=
  fallible_bind _ _ (fun images_ =>
    fallible_bind _ _ (fun statuses => fallible_ret _ (sort_by (fun a b => text_lt (st_name a) (st_name b)) statuses))
      (report_rows images_))
    (ask RImages (Dependency "report")).
End ImageStore.
