(* ===== verification/Runnerd.v ===== *)
(** * Runnerd: what a runner does to its machine, [bentod/src/runnerd.rs]

    [LocalHost] implements the runner protocol's [Host] over this machine: its
    libvirt, its files, its kernel routes and its firewall, which are the
    operations of the class [RunnerWorld].  The image versions, the overlays
    and the fetches go through [ImageStore].  [local_host] is the record
    [Fence.serve_one] is served with. *)

From Stdlib Require Import ZArith Lia Ascii.
From S2P Require Import Prelude Text Float64 Xml DomainXml Ipv4 Network Firewall Types Db Images Prog Lifecycle ImageStore Machine Fence.
Open Scope Z_scope.

Definition MIB : Z := 1024 * 1024.
Definition GIB : Z := 1024 * 1024 * 1024.

(** [DomainSample] of the hypervisor crate. *)
Record DomainSample : Type := mkDomainSample { ds_cpu_time_ns : Z; ds_vcpus : Z; ds_rss_kib : option Z }.

(** This machine, and how it is spoken to; a failed operation may still have
    changed it.  Messages are the [Display] of the errors. *)
Class RunnerWorld (W : Type) : Type := {
  rw_routes :: RouteApplier W;
  rw_set_flag : string -> string -> string -> ST string W unit;
  rw_apply_ruleset : string -> ST string W unit;
  rw_foreign_filters : ST string W (list string);
  rw_ensure_network : string -> string -> ST string W unit;
  rw_io : handler icall W;
  rw_build_seed : Seed -> string -> ST string W unit;
  rw_resize_overlay : string -> Z -> ST string W unit;
  rw_list : ST HypError W (list Domain);
  rw_state : string -> ST HypError W State;
  rw_create : text -> ST HypError W unit;
  rw_define : text -> ST HypError W unit;
  rw_start : string -> ST HypError W unit;
  rw_stop : string -> ST HypError W unit;
  rw_reboot : string -> ST HypError W unit;
  rw_remove : string -> ST HypError W unit;
  rw_domain_sample : string -> ST HypError W (option DomainSample);
  rw_accepted_epoch : ST string W Z;
  rw_boot_id : W -> string;
  rw_memory : ST string W (Z * Z);
  rw_storage : string -> ST string W (Z * Z);
  rw_cpu : ST string W (option CpuTimeSample);
  rw_cpu_count : W -> Z;
  rw_blocks : string -> W -> option Z
}.

(** The fields of [LocalHost] that are no handle. *)
Record LocalHost : Type := mkLocalHost {
  lh_machine_id : string;
  lh_hostname : string;
  lh_storage_dir : string;
  lh_image_dir : string;
  lh_arch : string
}.

(** ** The libvirt network of a user: [crates/network/src/libvirt.rs] *)

Definition escape_char (attribute : bool) (c : ascii) : result string string :=
  let z := ascii_code c in
  if z =? 38 then Ok "&amp;" else if z =? 60 then Ok "&lt;" else if z =? 62 then Ok "&gt;"
  else if attribute && (z =? 34) then Ok "&quot;" else if attribute && (z =? 39) then Ok "&apos;"
  else if (z =? 9) || (z =? 10) || (z =? 13) || (32 <=? z) then Ok (String c EmptyString)
  else Err "network: string contains a character that XML cannot represent".
(** [escape_xml], byte by byte: a character beyond ASCII stays as it is (the
    names are ASCII; U+FFFE and U+FFFF, which the code refuses, are beyond it). *)
Fixpoint escape_network (attribute : bool) (l : list ascii) : result string string :=
  match l with
  | [] => Ok EmptyString
  | c :: l => first ← escape_char attribute c; rest ← escape_network attribute l; Ok (first +:+ rest)
  end.
Definition dquote : string := String (ascii_of_code 34) EmptyString.
(** [UserNetwork::xml]. *)
Definition user_network_xml (show_net : NetError -> string) (u : UserNetwork) : result string string :=
  if bool_decide (un_name u = EmptyString) then Err "network: user network has no name"
  else if bool_decide (un_bridge u = EmptyString) || (15 <? str_len (un_bridge u)) then
    Err ("network: bridge name " +:+ debug (un_bridge u) +:+ " is empty or longer than 15 bytes")
  else
    _ ← map_err show_net (require_slash_24 (un_subnet u));
    name ← escape_network false (chars (un_name u));
    bridge ← escape_network true (chars (un_bridge u));
    Ok ("<network>" +:+ nl +:+ "  <name>" +:+ name +:+ "</name>" +:+ nl +:+
        "  <forward mode=" +:+ dquote +:+ "open" +:+ dquote +:+ "></forward>" +:+ nl +:+
        "  <bridge name=" +:+ dquote +:+ bridge +:+ dquote +:+ " stp=" +:+ dquote +:+ "off" +:+ dquote +:+
        " delay=" +:+ dquote +:+ "0" +:+ dquote +:+ "></bridge>" +:+ nl +:+
        "  <ip address=" +:+ dquote +:+ addr_to_string (gateway (un_subnet u)) +:+ dquote +:+ " netmask=" +:+
        dquote +:+ "255.255.255.0" +:+ dquote +:+ "></ip>" +:+ nl +:+ "</network>" +:+ nl).

(** ** Fetching an image *)

(** [sha256_hex] and [hex_digest] with its prefix. *)
Definition sha256_hex (checksum : string) : result string string :=
  let hex := to_ascii_lowercase
    match strip_prefix "sha256-" checksum with
    | Some hex => hex
    | None => default checksum (strip_prefix "sha256:" checksum)
    end in
  if is_sha256 hex then Ok hex
  else Err ("image checksum " +:+ debug checksum +:+ " is not a sha256 content address").

Section Fetch.
(** [hex_digest] of the SHA-256, the [Display] of an I/O error, and what
    [error_for_status] says of a status. *)
Context (digest : list Z -> string) (io_text : IoError -> string) (status_error : Z -> string) (image_dir : string).

(** The loop of [fetch_into]. *)
Fixpoint copy_stream (url path : string) (stream : Stream string) (hashed : list Z) (size : Z) :
    fallible icall string (list Z * Z) :=
  match stream with
  | [] => fallible_ret _ (hashed, size)
  | Err error :: _ => throw ("read " +:+ url +:+ ": " +:+ error)
  | Ok chunk :: stream =>
      fallible_bind _ _ (fun _ =>
        copy_stream url path stream (hashed ++ chunk) (u64_saturating_add size (Z.of_nat (length chunk))))
        (ask (IWrite path chunk) (fun e => "write image: " +:+ io_text e))
  end.

(** A failure that first removes the partial file. *)
Definition dropping {A} (path : string) (p : fallible icall string A) : fallible icall string A :=
  prog_bind _ _ (fun r => match r with
                          | Ok _ => Ret r
                          | Err _ => prog_bind _ _ (fun _ => Ret r) (ImageStore.remove path)
                          end) p.

#[local] Instance Fetch_ret : MRet (fallible icall string) := fallible_ret.
#[local] Instance Fetch_bind : MBind (fallible icall string) := fallible_bind.

(** [fetch_into]: the name of the version and its size. *)
Definition fetch_into (url : string) : fallible icall string (string * Z) :=
  _ ← ask (ICreateDir image_dir) (fun e => "create image directory: " +:+ io_text e);
  uuid ← get IUuid;
  let partial := join_path image_dir ("fetch-" +:+ uuid +:+ ".partial") in
  response ← ask (IGet url) (fun e => "fetch " +:+ url +:+ ": " +:+ e);
  _ ← (if (400 <=? fst response) && (fst response <? 600)
       then throw ("fetch " +:+ url +:+ ": " +:+ status_error (fst response)) else mret tt);
  _ ← ask (ICreateFile partial) (fun e => "create " +:+ partial +:+ ": " +:+ io_text e);
  body ← dropping partial (
    body ← copy_stream url partial (snd response) [] 0;
    _ ← ask (IFlush partial) (fun e => "flush image: " +:+ io_text e);
    _ ← ask (ISync partial) (fun e => "sync image: " +:+ io_text e);
    mret body);
  let checksum := digest (fst body) in
  let destination := join_path image_dir ("sha256-" +:+ checksum +:+ ".qcow2") in
  _ ← dropping partial (ask (IRename partial destination)
        (fun e => "move image into " +:+ destination +:+ ": " +:+ io_text e));
  mret ("sha256-" +:+ checksum, snd body).
End Fetch.

(** ** The host operations *)

Section LocalHost.
Context {W : Type} `{RunnerWorld W}.
Context (digest : list Z -> string) (io_text : IoError -> string) (status_error : Z -> string)
  (show_net : NetError -> string) (show_hyp : HypError -> string) (show_spec : SpecError -> string).
Variable self : LocalHost.

Definition overlay_path (uuid : string) : string := join_path (lh_storage_dir self) (uuid +:+ ".qcow2").
Definition seed_iso_path (uuid : string) : string := join_path (lh_storage_dir self) (uuid +:+ "-seed.iso").

(** [?] with [HostError::new], a logged failure, and a program on this machine. *)
Definition or_host {E A} (show : E -> string) (m : ST E W A) : ST string W A :=
  fun w => let '(r, w') := m w in (map_err show r, w').
Definition attempted {E A} (m : ST E W A) : ST string W (result E A) := fun w => let '(r, w') := m w in (Ok r, w').
Definition io {E A} (p : prog icall (result E A)) : ST E W A := fun w => run rw_io p w.
Definition pure_host {A} (r : result string A) : ST string W A := fun w => (r, w).
Definition reading_host {A} (f : W -> A) : ST string W A := fun w => (Ok (f w), w).

(** [DomainFacts] and [render]. *)
Record DomainFacts : Type := mkFacts {
  df_instance : InstanceRef; df_vcpu : Z; df_memory_mib : Z; df_nested : bool; df_ksm : bool;
  df_network : string; df_mac : string; df_with_seed_iso : bool
}.
Definition render (facts : DomainFacts) : result string text :=
  let uuid := ir_uuid (df_instance facts) in
  map_err (fun e => "domain xml for " +:+ uuid +:+ ": " +:+ show_spec e)
    (domain_xml (utf8_text (lh_arch self))
       (mkDomainSpec (utf8_text (ir_name (df_instance facts))) (utf8_text uuid) (df_vcpu facts) (df_memory_mib facts)
          (utf8_text (overlay_path uuid))
          (if df_with_seed_iso facts then utf8_text (seed_iso_path uuid) else [])
          (utf8_text (df_network facts)) (utf8_text (df_mac facts)) (df_nested facts) (df_ksm facts) [])).

(** [observed] and [unwind_provision]. *)
Definition observed (i : InstanceRef) : ST string W State :=
  state ← attempted (rw_state (ir_name i));
  mret (match state with Ok state => state | Err _ => Stopped end).
Definition unwind_provision (overlay : string) (seed_iso : option string) : ST string W unit :=
  for_each (fun path => _ ← attempted (io (call (IRemove path))); mret tt)
    (overlay :: match seed_iso with Some path => [path] | None => [] end).

(** [health], [capabilities], [inventory]. *)
Definition host_health : ST string W Health :=
  epoch ← rw_accepted_epoch;
  boot_id ← reading_host rw_boot_id;
  mret (mkHealth PROTOCOL_VERSION (lh_machine_id self) (lh_hostname self) epoch boot_id).
Definition host_capabilities : ST string W Capabilities :=
  memory ← or_host (fun e => "read host memory: " +:+ e) rw_memory;
  storage ← or_host (fun e => "read storage volume at " +:+ lh_storage_dir self +:+ ": " +:+ e)
              (rw_storage (lh_storage_dir self));
  cpus ← reading_host rw_cpu_count;
  mret (mkCapabilities (lh_arch self) cpus (fst memory / MIB) (fst storage / GIB) (snd storage / GIB) "libvirt local RPC").
Definition host_inventory : ST string W (list Domain) := or_host show_hyp rw_list.

(** [overlay_bytes]. *)
Definition overlay_bytes (path : string) (w : W) : Z := match rw_blocks path w with Some blocks => blocks * 512 | None => 0 end.

(** [sample]: a domain without a reading is left out. *)
Fixpoint sample_domains (domains : list Domain) : ST string W (list DomainUsage) :=
  match domains with
  | [] => mret []
  | domain :: domains =>
      read ← attempted (rw_domain_sample (dm_name domain));
      match read with
      | Ok (Some sample) =>
          used ← reading_host (overlay_bytes (overlay_path (dm_uuid domain)));
          rest ← sample_domains domains;
          mret (mkDomainUsage (dm_uuid domain) (ds_cpu_time_ns sample) (ds_vcpus sample) (ds_rss_kib sample) used :: rest)
      | _ => sample_domains domains
      end
  end.
Definition or_zero (r : result string (Z * Z)) : Z * Z := match r with Ok v => v | Err _ => (0, 0) end.
Definition host_sample : ST string W Samples :=
  memory ← attempted rw_memory;
  storage ← attempted (rw_storage (lh_storage_dir self));
  cpu ← attempted rw_cpu;
  cpus ← reading_host rw_cpu_count;
  let host := mkHostSample (match cpu with Ok cpu => cpu | Err _ => None end)
                (fst (or_zero memory)) (snd (or_zero memory)) (fst (or_zero storage)) (snd (or_zero storage)) cpus in
  domains ← or_host show_hyp rw_list;
  usage ← sample_domains domains;
  mret (mkSamples host usage).

(** [ensure_image]. *)
Definition fetch_now (image : ImageRequest) : ST string W Reply :=
  fetched ← io (fetch_into digest io_text status_error (lh_image_dir self) (iq_url image));
  mret (ImageReady (iq_name image) (fst fetched) false (snd fetched)).
Definition host_ensure_image (image : ImageRequest) : ST string W Reply :=
  match iq_have image with
  | None => fetch_now image
  | Some have =>
      hex ← pure_host (sha256_hex have);
      metadata ← attempted (io (call (IStat (join_path (lh_image_dir self) ("sha256-" +:+ hex +:+ ".qcow2")))));
      match metadata with
      | Ok (true, len) => mret (ImageReady (iq_name image) ("sha256-" +:+ hex) true len)
      | _ => fetch_now image
      end
  end.

(** The loops of [apply_network]: the bridges, then the flags. *)
Definition ensure_user_network (user : UserNetwork) : ST string W unit :=
  xml ← pure_host (user_network_xml show_net user);
  or_host (fun e => "network " +:+ un_name user +:+ ": " +:+ e) (rw_ensure_network (un_name user) xml).
Definition set_bridge_flags (bridge : string) : ST string W unit :=
  for_each (fun flag => or_host (fun e => bridge +:+ " " +:+ flag +:+ ": " +:+ e) (rw_set_flag bridge flag "1"))
    ["forwarding"; "proxy_arp"].
(** The second half of [apply_network], once the routes are there. *)
Definition announce_network (m : MachineNetwork) (converged : Converged) : ST string W Reply :=
  _ ← for_each set_bridge_flags (proxy_arp_bridges m);
  text ← pure_host (map_err show_net (Firewall.render (ruleset m)));
  _ ← or_host (fun e => show_net (Apply e)) (rw_apply_ruleset text);
  _ ← (if bool_decide (mn_remote_slots m = []) then mret tt else _ ← attempted rw_foreign_filters; mret tt);
  mret (NetworkApplied (Z.of_nat (length (networks m))) (Z.of_nat (length (cv_added converged)))
          (Z.of_nat (length (cv_removed converged))) (cv_unchanged converged)).
(** [apply_network]. *)
Definition host_apply_network (m : MachineNetwork) : ST string W Reply :=
  _ ← pure_host (map_err show_net (check m));
  _ ← for_each ensure_user_network (networks m);
  desired ← pure_host (map_err show_net (routes m));
  converged ← or_host show_net (converge desired);
  announce_network m converged.

(** What [provision] does once the overlay is there; it undoes itself. *)
Definition unwinding {A} (overlay : string) (seed_iso : option string) (m : ST string W A) : ST string W A := fun w =>
  let '(r, w') := m w in
  match r with
  | Ok _ => (r, w')
  | Err e => let '(_, w'') := unwind_provision overlay seed_iso w' in (Err e, w'')
  end.
(** [provision]. *)
Definition host_provision (request : ProvisionRequest) : ST string W Reply :=
  let i := pv_instance request in
  let uuid := ir_uuid i in
  let overlay := overlay_path uuid in
  let seed_iso := seed_iso_path uuid in
  let both := if pv_with_seed_iso request then Some seed_iso else None in
  _ ← or_host (fun e => "overlay for " +:+ uuid +:+ ": " +:+ image_error_text e)
        (io (create_overlay (ImageStore_new (lh_image_dir self)) (pv_base_checksum request) overlay (pv_disk_gib request)));
  _ ← unwinding overlay None
        (if pv_with_seed_iso request then
           or_host (fun e => "seed image for " +:+ uuid +:+ ": " +:+ e) (rw_build_seed (pv_seed request) seed_iso)
         else mret tt);
  xml ← unwinding overlay both (pure_host (render (mkFacts i (pv_vcpu request) (pv_memory_mib request)
          (pv_nested request) (pv_ksm request) (pv_network request) (pv_mac request) (pv_with_seed_iso request))));
  _ ← unwinding overlay both (or_host (fun e => "define " +:+ uuid +:+ ": " +:+ show_hyp e)
        (if pv_start request then rw_create xml else rw_define xml));
  state ← observed i;
  mret (Provisioned state).

(** [start], [stop], [reboot], [remove], [resize_disk]. *)
Definition host_start (i : InstanceRef) : ST string W State := _ ← or_host show_hyp (rw_start (ir_name i)); observed i.
Definition host_stop (i : InstanceRef) : ST string W State := _ ← or_host show_hyp (rw_stop (ir_name i)); observed i.
Definition host_reboot (i : InstanceRef) : ST string W State := _ ← or_host show_hyp (rw_reboot (ir_name i)); observed i.
Definition host_remove (i : InstanceRef) : ST string W State :=
  _ ← or_host show_hyp (rw_remove (ir_name i));
  _ ← unwind_provision (overlay_path (ir_uuid i)) (Some (seed_iso_path (ir_uuid i)));
  mret Stopped.
Definition host_resize_disk (i : InstanceRef) (disk_gib : Z) : ST string W State :=
  _ ← or_host (fun e => "resize disk " +:+ ir_uuid i +:+ ": " +:+ e) (rw_resize_overlay (overlay_path (ir_uuid i)) disk_gib);
  observed i.

(** [rename_domain]. *)
Definition define_or_restore (old_xml : result string text) (xml : text) : ST string W unit := fun w =>
  let '(r, w') := rw_define xml w in
  match r with
  | Ok _ => (Ok tt, w')
  | Err error =>
      let w'' := match old_xml with Ok old_xml => snd (rw_define old_xml w') | Err _ => w' end in
      (Err ("define the new name: " +:+ show_hyp error), w'')
  end.
Definition rename_domain (previous : string) (xml : text) (old_xml : result string text) : ST string W unit :=
  state ← attempted (rw_state previous);
  _ ← (match state with
       | Ok Stopped => or_host (fun e => "undefine " +:+ previous +:+ ": " +:+ show_hyp e) (rw_remove previous)
       | Ok state => fail ("a rename needs a stopped domain, and " +:+ previous +:+ " is " +:+ as_str state +:+ " (SPEC 7.3)")
       | Err (DomainNotFound _) => mret tt
       | Err error => fail ("state of " +:+ previous +:+ ": " +:+ show_hyp error)
       end : ST string W unit);
  define_or_restore old_xml xml.

(** [redefine]. *)
Definition host_redefine (request : RedefineRequest) : ST string W State :=
  let i := rd_instance request in
  let uuid := ir_uuid i in
  exists_ ← attempted (io (call (IStat (seed_iso_path uuid))));
  let with_seed_iso := is_ok exists_ in
  let facts := fun i => mkFacts i (rd_vcpu request) (rd_memory_mib request) (rd_nested request) (rd_ksm request)
                          (rd_network request) (rd_mac request) with_seed_iso in
  xml ← pure_host (render (facts i));
  match rd_previous_name request with
  | Some previous =>
      if bool_decide (previous = ir_name i) then
        _ ← or_host (fun e => "define " +:+ uuid +:+ ": " +:+ show_hyp e) (rw_define xml); observed i
      else
        _ ← or_host (fun e => "rename " +:+ uuid +:+ ": " +:+ e)
              (rename_domain previous xml (render (facts (mkInstanceRef uuid previous))));
        observed i
  | None => _ ← or_host (fun e => "define " +:+ uuid +:+ ": " +:+ show_hyp e) (rw_define xml); observed i
  end.

(** The [Host] the runner's server runs on. *)
Definition local_host : Host W :=
  mkHostOps W host_health host_capabilities host_inventory host_sample host_ensure_image host_apply_network
    host_provision host_start host_stop host_reboot host_remove host_redefine host_resize_disk.
End LocalHost.

(** ** No black hole

    What the kernel and nft document: a flag is set on its interface alone,
    the routes, the flags and the Bento table are three things, and nft loads
    a table as a whole or not at all. *)
Class RunnerLaws (W : Type) `{RunnerWorld W} `{!RouteTable W} : Type := {
  answering : W -> gset string;
  loaded : W -> string;
  flag_law b f v w r w' : rw_set_flag b f v w = (r, w') ->
    table w' = table w /\ loaded w' = loaded w /\
    (answering w' = answering w \/ answering w' = {[b]} ∪ answering w) /\
    (r = Ok tt -> f = "proxy_arp" -> v = "1" -> b ∈ answering w');
  network_law name xml w : answering (snd (rw_ensure_network name xml w)) = answering w /\
    loaded (snd (rw_ensure_network name xml w)) = loaded w;
  installed_law w : answering (snd (installed w)) = answering w /\ loaded (snd (installed w)) = loaded w;
  add_law r w : answering (snd (add r w)) = answering w /\ loaded (snd (add r w)) = loaded w;
  remove_law r w : answering (snd (remove r w)) = answering w /\ loaded (snd (remove r w)) = loaded w;
  ruleset_law text w r w' : rw_apply_ruleset text w = (r, w') ->
    table w' = table w /\ answering w' = answering w /\ loaded w' = (if is_ok r then text else loaded w);
  foreign_law w r w' : rw_foreign_filters w = (r, w') ->
    table w' = table w /\ answering w' = answering w /\ loaded w' = loaded w
}.

Section NoBlackHole.
Context {W : Type} `{RunnerLaws W}.
Context (show_net : NetError -> string).

(** Neither the flags nor the firewall change. *)
Definition quiet (w w' : W) : Prop := answering w' = answering w /\ loaded w' = loaded w.
#[local] Instance quiet_refl : Reflexive quiet.
Proof. by split. Qed.
#[local] Instance quiet_trans : Transitive quiet.
Proof. intros x y z [] []. split; congruence. Qed.

Lemma or_host_preserves (R : W -> W -> Prop) {E A} (show : E -> string) (m : ST E W A) :
  preserves R m -> preserves R (or_host show m).
Proof. intros Hm w. specialize (Hm w). unfold or_host. by destruct (m w). Qed.
Lemma lift_preserves (R : W -> W -> Prop) {A} (m : ST string W A) : preserves R m -> preserves R (lift m).
Proof. intros Hm w. specialize (Hm w). unfold lift. by destruct (m w). Qed.
Lemma for_each_preserves (R : W -> W -> Prop) `{!Reflexive R, !Transitive R} {A} (f : A -> ST string W unit) l :
  (forall x, preserves R (f x)) -> preserves R (for_each f l).
Proof. intros Hf. induction l as [|x l IH]; cbn; [by apply preserves_ret|]. by apply preserves_bind. Qed.

Lemma networks_quiet l : preserves quiet (for_each (ensure_user_network show_net) l).
Proof.
  apply for_each_preserves; [tc_solve..|]. intros u. unfold ensure_user_network. apply preserves_bind; [tc_solve| |].
  - intros w. reflexivity.
  - intros xml. apply or_host_preserves. intros w. apply network_law.
Qed.

Lemma converge_quiet desired : preserves quiet (converge desired).
Proof.
  assert (Hr : forall l, preserves quiet (remove_stale desired l)).
  { induction l as [|r l IH]; cbn; [by apply preserves_ret|]. case_bool_decide; [done|].
    apply preserves_bind; [tc_solve|apply lift_preserves; intros w; apply remove_law|]. intros _.
    apply preserves_bind; [tc_solve|done|]. intros rest. by apply preserves_ret. }
  assert (Ha : forall present l, preserves quiet (add_missing present l)).
  { intros present. induction l as [|r l IH]; cbn; [by apply preserves_ret|]. case_bool_decide.
    - apply preserves_bind; [tc_solve|done|]. intros []. by apply preserves_ret.
    - apply preserves_bind; [tc_solve|apply lift_preserves; intros w; apply add_law|]. intros _.
      apply preserves_bind; [tc_solve|done|]. intros []. by apply preserves_ret. }
  unfold converge. destruct (find_first _ _); [by apply preserves_fail|].
  apply preserves_bind; [tc_solve|apply lift_preserves; intros w; apply installed_law|]. intros present.
  apply preserves_bind; [tc_solve|done|]. intros removed.
  apply preserves_bind; [tc_solve|done|]. intros []. by apply preserves_ret.
Qed.

(** Setting flags leaves the routes and the firewall. *)
Definition flags_only (w w' : W) : Prop := table w' = table w /\ loaded w' = loaded w /\ answering w ⊆ answering w'.
#[local] Instance flags_only_refl : Reflexive flags_only.
Proof. intros w. unfold flags_only. by split_and!. Qed.
#[local] Instance flags_only_trans : Transitive flags_only.
Proof. intros x y z (? & ? & ?) (? & ? & ?). unfold flags_only. split_and!; [congruence..|set_solver]. Qed.

Lemma set_flag_only b f v : preserves flags_only (rw_set_flag b f v).
Proof.
  intros w. destruct (rw_set_flag b f v w) as [r w'] eqn:Hr. apply flag_law in Hr as (? & ? & Ha & _).
  unfold flags_only. cbn. split_and!; [done..|set_solver].
Qed.
Lemma bridge_flags_only b : preserves flags_only (set_bridge_flags b).
Proof. apply for_each_preserves; [tc_solve..|]. intros f. apply or_host_preserves, set_flag_only. Qed.

Lemma set_bridge_flags_Ok b w w' : set_bridge_flags b w = (Ok tt, w') -> b ∈ answering w'.
Proof.
  unfold set_bridge_flags. cbn [for_each]. intros H1.
  apply ST_bind_run in H1 as [([] & w1 & _ & H1)|(? & _ & ?)]; [|done].
  apply ST_bind_run in H1 as [([] & w2 & H2 & H1)|(? & _ & ?)]; [|done]. injection H1 as <-.
  unfold or_host in H2. destruct (rw_set_flag b "proxy_arp" "1" w1) as [[[]|e] w3] eqn:Hr; [|done].
  injection H2 as <-. by apply flag_law in Hr as (_ & _ & _ & Ha); apply Ha.
Qed.
Lemma flags_Ok bs w w' : for_each set_bridge_flags bs w = (Ok tt, w') -> Forall (.∈ answering w') bs.
Proof.
  revert w. induction bs as [|b bs IH]; intros w; cbn [for_each]; [constructor|]. intros H1.
  apply ST_bind_run in H1 as [([] & w1 & H2 & H1)|(? & _ & ?)]; [|done]. constructor; [|by eapply IH].
  apply set_bridge_flags_Ok in H2. pose proof (for_each_preserves flags_only set_bridge_flags bs bridge_flags_only w1) as Hp.
  rewrite H1 in Hp. destruct Hp as (_ & _ & Hs). set_solver.
Qed.

Lemma announce_quiet_foreign (m : MachineNetwork) (w w' : W) r :
  ((if bool_decide (mn_remote_slots m = []) then mret tt else _ ← attempted rw_foreign_filters; mret tt)
   : ST string W unit) w = (r, w') ->
  r = Ok tt /\ table w' = table w /\ answering w' = answering w /\ loaded w' = loaded w.
Proof.
  case_bool_decide; [by intros [= <- <-]|]. unfold mbind, ST_bind, attempted.
  destruct (rw_foreign_filters w) as [rf w1] eqn:Hff. intros [= <- <-]. by apply foreign_law in Hff.
Qed.

(** The second half touches no route, loads the ruleset only once every bridge
    answers, and succeeds only when it has. *)
Lemma announce_order (m : MachineNetwork) c (w w' : W) r :
  announce_network show_net m c w = (r, w') ->
  table w' = table w /\
  (loaded w' <> loaded w \/ is_ok r = true ->
     Forall (.∈ answering w') (proxy_arp_bridges m) /\ Firewall.render (ruleset m) = Ok (loaded w')).
Proof.
  intros Hrun. pose proof (for_each_preserves flags_only set_bridge_flags (proxy_arp_bridges m) bridge_flags_only w) as Hf.
  apply ST_bind_run in Hrun as [([] & w3 & Hfl & Hrun)|(e & Hfl & ->)]; rewrite Hfl in Hf;
    destruct Hf as (Ht3 & Hl3 & _); cbn in Ht3, Hl3; [|by split; [|intros []]].
  apply flags_Ok in Hfl.
  apply ST_bind_run in Hrun as [(text & w4 & Hre & Hrun)|(e & Hre & ->)]; injection Hre as Hre <-; [|by split; [|intros []]].
  destruct (Firewall.render (ruleset m)) as [text'|]; [|done]. injection Hre as ->.
  apply ST_bind_run in Hrun as [([] & w4 & Hap & Hrun)|(e & Hap & ->)];
    unfold or_host in Hap; destruct (rw_apply_ruleset text w3) as [ra w4'] eqn:Hra; injection Hap as Hap ->;
    apply ruleset_law in Hra as (Ht4 & Ha4 & Hl4); destruct ra; try done; cbn in Hl4.
  2: { split; [congruence|]. rewrite Hl4, Hl3. by intros []. }
  apply ST_bind_run in Hrun as [([] & w5 & Hfo & Hrun)|(e & Hfo & ->)];
    apply announce_quiet_foreign in Hfo as (? & Ht5 & Ha5 & Hl5); [|done].
  injection Hrun as <- <-. split; [congruence|]. intros _. rewrite Ha5, Ha4, Hl5, Hl4. done.
Qed.
End NoBlackHole.

(** C15. A machine never answers for addresses it cannot forward to.  Whatever
    fails: a description that does not pass [check] changes nothing; if the
    runner's [apply_network] has made any bridge answer ARP for other
    machines, the kernel's guest routes are by then exactly those of the
    description, one next hop each; and if it has touched the firewall, every
    bridge of the description answers.  A reported success means all of it:
    the routes, the flags, and the ruleset of the description loaded. *)
Theorem proxy_arp_after_routes {W : Type} `{RunnerLaws W} (show_net : NetError -> string) (m : MachineNetwork)
    (w w' : W) (r : result string Reply) :
  wf_machine m -> host_apply_network show_net m w = (r, w') ->
  (check m <> Ok tt -> w' = w /\ is_ok r = false) /\
  (answering w' <> answering w ->
     exists rs, routes m = Ok rs /\ forall d h, table w' !! d = Some h <-> mkRoute d h ∈ rs) /\
  (loaded w' <> loaded w \/ is_ok r = true ->
     Forall (.∈ answering w') (proxy_arp_bridges m) /\ Firewall.render (ruleset m) = Ok (loaded w') /\
     exists rs, routes m = Ok rs /\ forall d h, table w' !! d = Some h <-> mkRoute d h ∈ rs).
Proof.
  intros Hwf Hrun. apply ST_bind_run in Hrun as [([] & w0 & Hc & Hrun)|(e & Hc & ->)].
  2: { injection Hc as Hc <-. by split_and!; [|intros []|intros [[]|]]. }
  injection Hc as Hc <-. destruct (check m) as [[]|] eqn:Hcheck; [|done]. split; [done|].
  assert (Hstop : forall e, r = Err e -> answering w' = answering w -> loaded w' = loaded w ->
    forall P Q : Prop, (answering w' <> answering w -> P) /\ (loaded w' <> loaded w \/ is_ok r = true -> Q)).
  { intros e -> -> -> P Q. by split; [|intros []]. }
  apply ST_bind_run in Hrun as [([] & w1 & Hn & Hrun)|(e & Hn & Hr)];
    pose proof (networks_quiet show_net (networks m) w) as [Ha1 Hl1]; rewrite Hn in Ha1, Hl1; cbn in Ha1, Hl1;
    [|by eapply Hstop].
  apply ST_bind_run in Hrun as [(rs & w2 & Hd & Hrun)|(e & Hd & Hr)]; injection Hd as Hd <-; [|by eapply Hstop].
  destruct (routes m) as [rs'|] eqn:Hrs; [|done]. injection Hd as ->.
  apply ST_bind_run in Hrun as [(c & w2 & Hcv & Hrun)|(e & Hcv & Hr)];
    unfold or_host in Hcv at 1; destruct (converge rs w1) as [rc w2'] eqn:Hconv; injection Hcv as Hcv ->;
    pose proof (converge_quiet rs w1) as [Ha2 Hl2]; rewrite Hconv in Ha2, Hl2; cbn in Ha2, Hl2;
    [|eapply Hstop; [done|congruence..]].
  destruct rc as [c'|]; [|done]. apply converge_Ok in Hconv as (_ & _ & _ & _ & _ & Ht); [|by eapply routes_functional].
  apply announce_order in Hrun as (Ht3 & Hopen).
  assert (Hroutes : exists rs0, (Ok rs : result NetError _) = Ok rs0 /\ forall d h, table w' !! d = Some h <-> mkRoute d h ∈ rs0).
  { exists rs. split; [done|]. intros d h. by rewrite Ht3, Ht. }
  split; [done|]. rewrite <-Hl1, <-Hl2. intros Ho. destruct (Hopen Ho) as [? ?]. by split_and!.
Qed.

(** ** A machine without failures *)

Record ToyMachine : Type := mkToy { tm_routes : KernelTable; tm_answering : gset string; tm_loaded : string }.
Definition on_routes {A} (f : ST string KernelTable A) : ST string ToyMachine A := fun w =>
  let '(r, t) := f (tm_routes w) in (r, mkToy t (tm_answering w) (tm_loaded w)).
Definition toy_io : handler icall ToyMachine := fun R c w =>
  (match c in icall R return R with
   | IInsertImage _ | IDeleteUnbuilt _ | IHasVersion _ | IInUse _ => Ok false
   | IImages => Ok []
   | IVersions => Ok []
   | IForSource _ _ => Ok None
   | IInsertVersion _ | ISetCurrent _ _ | IRecordSource _ _ _ | IDeleteVersion _ => Ok tt
   | ICreateDir _ | ICreateFile _ | IWrite _ _ | IFlush _ | ISync _ | IChmod _ _ | IRename _ _ | IRemove _ => Ok tt
   | ITempFile dir prefix | ITempDir dir prefix => Ok (join_path dir prefix)
   | IStat _ => Err IoNotFound
   | IOpen _ => Ok []
   | IScan _ => Ok []
   | IRemoveDir _ | IUnlock _ => tt
   | ILock _ => Ok tt
   | IGet _ => Ok (200, [])
   | IRun _ _ => Ok EmptyString
   | IRunTimed _ _ => Some (Ok EmptyString)
   | IUuid => "u"
   | INow => 0
   end, w).
#[global] Instance Toy_routes : RouteApplier ToyMachine := {|
  installed := on_routes installed; add := fun r => on_routes (add r); remove := fun r => on_routes (remove r)
|}.
#[global] Instance Toy_world : RunnerWorld ToyMachine := {|
  rw_set_flag := fun b f v w =>
    (Ok tt, mkToy (tm_routes w) (if bool_decide (f = "proxy_arp") then {[b]} ∪ tm_answering w else tm_answering w) (tm_loaded w));
  rw_apply_ruleset := fun text w => (Ok tt, mkToy (tm_routes w) (tm_answering w) text);
  rw_foreign_filters := fun w => (Ok [], w);
  rw_ensure_network := fun _ _ w => (Ok tt, w);
  rw_io := toy_io;
  rw_build_seed := fun _ _ w => (Ok tt, w);
  rw_resize_overlay := fun _ _ w => (Ok tt, w);
  rw_list := fun w => (Ok [], w);
  rw_state := fun name w => (Err (DomainNotFound name), w);
  rw_create := fun _ w => (Ok tt, w); rw_define := fun _ w => (Ok tt, w);
  rw_start := fun _ w => (Ok tt, w); rw_stop := fun _ w => (Ok tt, w);
  rw_reboot := fun _ w => (Ok tt, w); rw_remove := fun _ w => (Ok tt, w);
  rw_domain_sample := fun _ w => (Ok None, w);
  rw_accepted_epoch := fun w => (Ok 0, w);
  rw_boot_id := fun _ => "b";
  rw_memory := fun w => (Ok (0, 0), w); rw_storage := fun _ w => (Ok (0, 0), w);
  rw_cpu := fun w => (Ok None, w); rw_cpu_count := fun _ => 1; rw_blocks := fun _ _ => None
|}.
#[global] Program Instance Toy_table : RouteTable ToyMachine := {| table := tm_routes |}.
Next Obligation.
  intros w l w' [= <- <-]. exact (installed_spec (W := KernelTable) (tm_routes w) _ _ eq_refl).
Qed.
Next Obligation. intros r w w' [= <-]. done. Qed.
Next Obligation.
  intros r w w' Hr Hl. change (on_routes (remove (W := KernelTable) r) w = (Ok tt, w')) in Hr. unfold on_routes in Hr. destruct (remove (W := KernelTable) r (tm_routes w)) as [o t] eqn:Hi.
  injection Hr as -> <-. exact (remove_spec (W := KernelTable) r _ _ Hi Hl).
Qed.
#[global] Program Instance Toy_laws : RunnerLaws ToyMachine := {| answering := tm_answering; loaded := tm_loaded |}.
Next Obligation.
  intros b f v w r w' [= <- <-]. cbn. case_bool_decide; split_and!; try done; [by right|set_solver|by left].
Qed.
Next Obligation. by intros. Qed.
Next Obligation. by intros. Qed.
Next Obligation. intros r w. cbn. unfold on_routes. done. Qed.
Next Obligation. intros r w. cbn. unfold on_routes. cbn. by case_bool_decide. Qed.
Next Obligation. by intros text w r w' [= <- <-]. Qed.
Next Obligation. by intros w r w' [= <- <-]. Qed.

Lemma proxy_arp_after_routes_witness :
  let w := mkToy ∅ ∅ "" in
  let w' := snd (host_apply_network (fun _ => "") two_machines w) in
  answering w' <> answering w /\
  exists rs, routes two_machines = Ok rs /\ forall d h, table w' !! d = Some h <-> mkRoute d h ∈ rs.
Proof.
  intros w w'.
  assert (Ha : answering w' <> answering w).
  { intros E. assert (Hb : "bento0" ∈ answering w') by (by vm_compute). rewrite E in Hb. by apply not_elem_of_empty in Hb. }
  split; [done|].
  destruct (host_apply_network (fun _ => "") two_machines w) as [r w1] eqn:Hr.
  refine (proj1 (proj2 (proxy_arp_after_routes (fun _ => "") two_machines w w1 r _ Hr)) Ha).
  split; repeat constructor; done.
Defined.
