(* ===== verification/ImageStoreRuns.v ===== *)
(** * ImageStoreRuns: what the image directory holds

    "The path never changes, and the path never holds different content."  The
    operations of the image store and of the runner's fetch are followed call
    by call ([Pool.after]), against a file system in which any call may fail,
    everybody else may act between any two calls, and the power may be cut:
    a file whose bytes were not all synced comes back with any bytes or not at
    all, and a name that was removed may come back ([power_cut]). *)

From Stdlib Require Import ZArith Lia Ascii.
From S2P Require Import Prelude Text Types Db Instances Images Prog Pool Lifecycle ImageStore Runnerd.
Open Scope Z_scope.

(** ** What a run knows of its files *)

(** Whether every read of a stream succeeded, and all it gave. *)
Definition whole {E} (stream : Stream E) : option (list Z) :=
  foldr (fun r acc => match r, acc with Ok chunk, Some rest => Some (chunk ++ rest) | _, _ => None end) (Some []) stream.

Fixpoint paths (e : Entry) : list string :=
  match e with FileEntry path => [path] | DirEntry entries => concat (map paths entries) end.

(** The files a run has created or read, with their bytes, as far as it can
    know them. *)
Definition hold (held : gmap string (list Z)) (e : event icall) : gmap string (list Z) :=
  match e with
  | mkEvent c r =>
      match c in icall R return R -> gmap string (list Z) with
      | ITempFile _ _ => fun r => match r with Ok path => <[path := []]> held | Err _ => held end
      | ICreateFile path => fun r => match r with Ok _ => <[path := []]> held | Err _ => delete path held end
      | IWrite path chunk => fun r => match r with Ok _ => alter (fun bytes => bytes ++ chunk) path held | Err _ => delete path held end
      | IOpen path => fun r => match r with
                               | Ok stream => match whole stream with
                                              | Some bytes => <[path := bytes]> held
                                              | None => delete path held
                                              end
                               | Err _ => held
                               end
      | IRename from to => fun _ => delete from (delete to held)
      | IRemove path => fun _ => delete path held
      | IRemoveDir _ => fun _ => ∅
      | _ => fun _ => held
      end r
  end.
Definition held (tr : list (event icall)) : gmap string (list Z) := foldl hold ∅ tr.

(** The names it was given for files of its own. *)
Definition names (e : event icall) : list string :=
  match e with
  | mkEvent c r =>
      match c in icall R return R -> list string with
      | ITempFile _ _ | ITempDir _ _ => fun r => match r with Ok path => [path] | Err _ => [] end
      | ICreateFile path => fun _ => [path]
      | IScan _ => fun r => match r with Ok entries => concat (map paths entries) | Err _ => [] end
      | _ => fun _ => []
      end r
  end.
Definition named (tr : list (event icall)) : list string := concat (map names tr).

(** The files whose bytes, as the run knows them, were all put on the disk
    since they were last changed. *)
Definition flush (known_ : gmap string (list Z)) (flushed : gset string) (e : event icall) : gset string :=
  match e with
  | mkEvent c r =>
      match c in icall R return R -> gset string with
      | ITempFile _ _ => fun r => match r with Ok path => flushed ∖ {[path]} | Err _ => flushed end
      | ICreateFile path | IWrite path _ | IRemove path => fun _ => flushed ∖ {[path]}
      | ISync path => fun r => match r, known_ !! path with Ok _, Some _ => {[path]} ∪ flushed | _, _ => flushed end
      | IRename from to => fun _ => flushed ∖ {[from; to]}
      | IRemoveDir _ => fun _ => ∅
      | _ => fun _ => flushed
      end r
  end.
Definition flushed (tr : list (event icall)) : gset string :=
  snd (foldl (fun st e => (hold st.1 e, flush st.1 st.2 e)) (∅, ∅) tr).

Lemma flushed_snoc tr e : flushed (tr ++ [e]) = flush (held tr) (flushed tr) e.
Proof.
  unfold flushed. rewrite foldl_snoc. cbn [snd].
  replace (foldl (fun st e => (hold st.1 e, flush st.1 st.2 e)) (∅, ∅) tr).1 with (held tr); [done|].
  unfold held. induction tr as [|tr x IH] using rev_ind; [done|]. by rewrite !foldl_snoc, IH.
Qed.

Lemma held_snoc tr e : held (tr ++ [e]) = hold (held tr) e.
Proof. unfold held. by rewrite foldl_snoc. Qed.
Lemma named_snoc tr e : named (tr ++ [e]) = named tr ++ names e.
Proof. unfold named. rewrite map_app, concat_app. cbn. by rewrite app_nil_r. Qed.

Section Content.
Context (digest : list Z -> string) (url_error : string -> option string) (dir : string).

(** [<dir>/sha256-<hex>.qcow2]. *)
Definition content_path (hex : string) : string := join_path dir ("sha256-" +:+ hex +:+ ".qcow2").

(** What a run may do to files: write only to a file of its own, and give a
    content-addressed name only to a file whose bytes, all of them, it knows
    to hash to that name. *)
Definition image_may (before : list (event icall)) (e : event icall) : Prop :=
  match ev_call e with
  | IWrite path _ => path ∈ named before
  | ICreateFile path => exists rest, path = join_path dir ("fetch-" +:+ rest)
  | ITempFile d prefix | ITempDir d prefix => d = dir /\ (prefix = "download-" \/ prefix = "bootc-output-")
  | IScan root => root ∈ named before
  | IRename from to => from ∈ named before /\ exists bytes, held before !! from = Some bytes /\ to = content_path (digest bytes)
  | _ => True
  end.

#[local] Abbreviation runs := (after image_may).

(** A call that tells the run nothing new about its files. *)
Definition plain {R} (c : icall R) : bool :=
  match c with
  | ITempFile _ _ | ITempDir _ _ | ICreateFile _ | IWrite _ _ | IOpen _ | IRename _ _ | IRemove _ | IRemoveDir _ | IScan _ => false
  | _ => true
  end.
Lemma plain_may before e : plain (ev_call e) = true -> image_may before e.
Proof. destruct e as [R c r]. by destruct c. Qed.
Lemma plain_held before e : plain (ev_call e) = true -> held (before ++ [e]) = held before /\ named (before ++ [e]) = named before.
Proof. rewrite held_snoc, named_snoc. destruct e as [R c r]. by destruct c; cbn; rewrite ?app_nil_r. Qed.

(** What a run keeps through calls that are not about its files. *)
Definition knows (path : string) (bytes : list Z) (before : list (event icall)) : Prop :=
  path ∈ named before /\ held before !! path = Some bytes.
Lemma knows_plain path bytes before e : plain (ev_call e) = true -> knows path bytes before -> knows path bytes (before ++ [e]).
Proof. intros Hp. unfold knows. by destruct (plain_held before e Hp) as [-> ->]. Qed.
Lemma named_mono before e path : path ∈ named before -> path ∈ named (before ++ [e]).
Proof. rewrite named_snoc. set_solver. Qed.

(** Programs that keep to [image_may], from some history or from any. *)
Definition safe {A} (before : list (event icall)) (p : prog icall A) : Prop := runs before p (fun _ _ => True).
Definition sound_call {R} (c : icall R) : bool :=
  match c with
  | ITempFile _ _ | ITempDir _ _ | ICreateFile _ | IWrite _ _ | IRename _ _ | IScan _ => false
  | _ => true
  end.
Definition sound {A} (p : prog icall A) : Prop := forall before, safe before p.

Lemma sound_may before e : sound_call (ev_call e) = true -> image_may before e.
Proof. destruct e as [R c r]. by destruct c. Qed.
Lemma sound_ret {A} (a : A) : sound (Ret a).
Proof. intros before. by apply after_ret. Qed.
Lemma sound_step {A R} (c : icall R) (k : R -> prog icall A) :
  sound_call c = true -> (forall r, sound (k r)) -> sound (Call c k).
Proof. intros Hc Hk before. apply after_call; [by intros r; apply sound_may|]. intros r. apply Hk. Qed.
Lemma sound_bind {A B} (p : prog icall A) (f : A -> prog icall B) :
  sound p -> (forall a, sound (f a)) -> sound (prog_bind A B f p).
Proof. intros Hp Hf before. apply after_bind. eapply after_mono; [|apply Hp]. intros b a _. apply Hf. Qed.
Lemma sound_try {X A B} (p : fallible icall X A) (f : A -> fallible icall X B) :
  sound p -> (forall a, sound (f a)) -> sound (fallible_bind A B f p).
Proof. intros Hp Hf. apply sound_bind; [done|]. intros [a|e]; [apply Hf|apply sound_ret]. Qed.
Lemma sound_remove path : sound (ImageStore.remove path).
Proof. apply sound_step; [done|]. intros r. apply sound_ret. Qed.
Lemma sound_on_error {A} (p : I A) cleanup : sound p -> sound cleanup -> sound (on_error p cleanup).
Proof.
  intros Hp Hc. apply sound_bind; [done|]. intros [a|e]; [apply sound_ret|].
  apply sound_bind; [done|]. intros _. apply sound_ret.
Qed.
Lemma sound_finally {A} (p : I A) cleanup : sound p -> sound cleanup -> sound (finally p cleanup).
Proof. intros Hp Hc. apply sound_bind; [done|]. intros r. apply sound_bind; [done|]. intros _. apply sound_ret. Qed.

Ltac sound_step :=
  match goal with
  | |- sound (Ret _) => apply sound_ret
  | |- sound (mret _) => apply sound_ret
  | |- sound (throw _) => apply sound_ret
  | |- sound (pure_res _) => apply sound_ret
  | |- sound (Call _ _) => apply sound_step; [reflexivity|intros ?]
  | |- sound (ask _ _) => apply sound_step; [reflexivity|intros ?]
  | |- sound (attempt _) => apply sound_step; [reflexivity|intros ?]
  | |- sound (get _) => apply sound_step; [reflexivity|intros ?]
  | |- sound (run_timed _ _ _ _) => apply sound_step; [reflexivity|intros ?]
  | |- sound (ImageStore.remove _) => apply sound_remove
  | |- sound (mbind _ _) => apply sound_try; [|intros ?]
  | |- sound (fallible_bind _ _ _ _) => apply sound_try; [|intros ?]
  | |- sound (prog_bind _ _ _ _) => apply sound_bind; [|intros ?]
  | |- sound (on_error _ _) => apply sound_on_error
  | |- sound (finally _ _) => apply sound_finally
  | |- sound (let _ := _ in _) => cbv zeta
  | |- sound (match ?x with _ => _ end) => destruct x
  | |- sound (if ?x then _ else _) => destruct x
  end.
Ltac sound_all := repeat sound_step.

(** ** Storing a file *)

Variable self : ImageStore.
Hypothesis Hdir : is_dir self = dir.

Lemma stored_path checksum : path_normalized self checksum = content_path checksum.
Proof. unfold path_normalized, content_path. by rewrite Hdir. Qed.

Lemma rename_safe {A} before from bytes (k : result IoError unit -> prog icall A) :
  knows from bytes before -> (forall r, sound (k r)) ->
  safe before (Call (IRename from (content_path (digest bytes))) k).
Proof.
  intros [Hn Hh] Hk. apply after_call; [intros r; split; [done|by exists bytes]|]. intros r. apply Hk.
Qed.

Lemma persist_safe before temporary bytes :
  knows temporary bytes before ->
  safe before (persist_temp_path temporary (content_path (digest bytes))).
Proof.
  intros Hk. unfold persist_temp_path, on_error. apply after_bind. apply after_try.
  apply after_ask; [done|]. intros r.
  assert (Hend : forall b (o : result ImageError unit), safe b
    (match o with Ok _ => Ret o | Err _ => prog_bind _ _ (fun _ => Ret o) (ImageStore.remove temporary) end)).
  { intros b o. apply (fun H : sound _ => H b). sound_all. }
  destruct r as [[]|e]; [|refine (Hend _ (Err _))]. apply after_ask.
  - intros r. destruct (knows_plain _ _ _ (mkEvent (IChmod temporary 292) (Ok tt)) eq_refl Hk) as [Hn Hh]. split; [done|by exists bytes].
  - intros r. apply (Hend _ (map_err _ r)).
Qed.

(** What is safe stays so when sound work follows. *)
Lemma safe_bind {A B} before (p : prog icall A) (f : A -> prog icall B) :
  safe before p -> (forall a, sound (f a)) -> safe before (prog_bind A B f p).
Proof. intros Hp Hf. apply after_bind. eapply after_mono; [|exact Hp]. intros b a _. apply Hf. Qed.
Lemma safe_try {X A B} before (p : fallible icall X A) (f : A -> fallible icall X B) :
  safe before p -> (forall a, sound (f a)) -> safe before (fallible_bind A B f p).
Proof. intros Hp Hf. apply safe_bind; [done|]. intros [a|e]; [apply Hf|apply sound_ret]. Qed.

Lemma commit_download_locked_safe before image_ temporary bytes size :
  knows temporary bytes before ->
  safe before (commit_download_locked self image_ temporary (digest bytes) size).
Proof.
  intros Hk. unfold commit_download_locked. rewrite stored_path. apply after_call; [done|].
  intros [[]|e]; [| |by apply after_ret].
  - apply after_call; [done|]. intros [m|[|msg]].
    1,3: apply after_call; [done|]; intros r; by apply after_ret.
    apply safe_bind; [|intros r; apply sound_ret].
    apply safe_try; [by apply persist_safe, knows_plain, knows_plain|]. intros []. sound_all.
  - apply safe_bind; [|intros r; apply sound_ret].
    apply safe_try; [by apply persist_safe, knows_plain|]. intros []. sound_all.
Qed.

Lemma commit_download_safe before image_ temporary bytes size :
  knows temporary bytes before -> safe before (commit_download self image_ temporary (digest bytes) size).
Proof.
  intros Hk. apply after_call; [done|]. intros [[]|[context source]].
  - apply safe_bind; [by apply commit_download_locked_safe, knows_plain|]. intros [r [t|]]; sound_all.
  - apply (fun H : sound _ => H _). sound_all.
Qed.

Lemma write_stream_knows before url path stream hashed size :
  knows path hashed before ->
  runs before (write_stream url path stream hashed size) (fun b r =>
    match r with Ok (bytes, _) => knows path bytes b | Err _ => True end).
Proof.
  revert before hashed size. induction stream as [|[chunk|error] stream IH]; intros before hashed size Hk; cbn [write_stream];
    [by apply after_ret| |by apply after_ret].
  apply after_try, after_ask; [intros r; apply Hk|]. intros [[]|e]; cbn [map_err]; [|done].
  destruct (u64_max <? _); [by apply after_ret|]. apply IH. destruct Hk as [Hn Hh].
  split; [by apply named_mono|]. rewrite held_snoc. cbn. by rewrite lookup_alter_eq, Hh.
Qed.

Lemma after_dropped {X A} before path (e : X) (Q : list (event icall) -> result X A -> Prop) :
  (forall b, Q b (Err e)) -> runs before (prog_bind _ _ (fun _ => Ret (Err e)) (ImageStore.remove path)) Q.
Proof. intros HQ. apply after_bind. eapply after_mono; [|apply sound_remove]. intros b u _. by apply after_ret. Qed.

Lemma fetch_qcow2_safe before image_ : safe before (fetch_qcow2 digest url_error self image_).
Proof.
  unfold fetch_qcow2. apply after_try, after_ret. destruct (url_error _); [done|].
  apply after_try, after_ask; [done|]. intros [[status stream]|e]; cbn [map_err fst snd]; [|done].
  destruct (negb _); [by apply after_ret|].
  apply after_try, after_ask; [intros r; cbn; rewrite Hdir; auto|]. intros [temporary|e]; cbn [map_err]; [|done].
  apply after_try. unfold on_error at 1. apply after_bind, after_try.
  eapply after_mono; [|apply write_stream_knows].
  2: { split; [rewrite named_snoc; set_solver|]. rewrite held_snoc. cbn. apply lookup_insert_eq. }
  intros b [[bytes n]|e] Hk.
  2: by apply after_dropped.
  apply after_try, after_ask; [done|]. intros [[]|e]; cbn [map_err].
  2: by apply after_dropped.
  apply after_try, after_ret. cbn [fst snd]. destruct (check_pin image_ (digest bytes)) as [[]|e].
  2: by apply after_dropped.
  apply after_ret, after_ret. by apply commit_download_safe, knows_plain.
Qed.

(** ** Bootc images *)

Lemma hash_stream_whole stream hashed size checksum n :
  hash_stream digest stream hashed size = Ok (checksum, n) ->
  exists bytes, whole stream = Some bytes /\ checksum = digest (hashed ++ bytes).
Proof.
  revert hashed size. induction stream as [|[chunk|e] stream IH]; intros hashed size; cbn [hash_stream];
    [|destruct (u64_max <? _); [done|]|done].
  - intros [= <- _]. exists []. by rewrite app_nil_r.
  - intros (bytes & Hw & ->)%IH. exists (chunk ++ bytes). unfold whole in *. cbn. by rewrite Hw, app_assoc.
Qed.

Lemma hash_file_knows before path :
  path ∈ named before ->
  runs before (hash_file digest path) (fun b r =>
    match r with Ok (checksum, _) => exists bytes, checksum = digest bytes /\ knows path bytes b | Err _ => True end).
Proof.
  intros Hn. apply after_try, after_ask; [done|]. intros [stream|e]; cbn [map_err]; [|done]. apply after_ret.
  destruct (hash_stream digest stream [] 0) as [[checksum n]|e] eqn:Hs; [|done].
  apply hash_stream_whole in Hs as (bytes & Hw & ->). exists bytes. split; [done|]. split; [by apply named_mono|].
  rewrite held_snoc. cbn. rewrite Hw. apply lookup_insert_eq.
Qed.
Lemma hash_file_sound path : sound (hash_file digest path).
Proof. unfold hash_file. sound_all. Qed.

Lemma commit_generated_locked_safe before image_ disk bytes size source_digest :
  knows disk bytes before ->
  safe before (commit_generated_locked digest self image_ disk (digest bytes) size source_digest).
Proof.
  intros Hk. unfold commit_generated_locked. rewrite stored_path.
  apply after_try, after_ask; [done|]. intros [exists_|e]; cbn [map_err]; [|done].
  apply after_try, after_attempt; [done|]. intros [m|e]; cbn [is_ok andb negb].
  - rewrite andb_true_r. apply (fun H : sound _ => H _). sound_all; apply hash_file_sound.
  - rewrite andb_false_r. apply after_try, after_ret. apply safe_try; [|intros []; sound_all].
    apply after_try, after_ask; [done|]. intros [[]|e2]; cbn [map_err]; [|done].
    apply rename_safe; [by apply knows_plain, knows_plain, knows_plain|]. intros r. sound_all.
Qed.

Lemma with_lock_safe {A} before file (p : I A) :
  (forall e, plain (ev_call e) = true -> safe (before ++ [e]) p) -> safe before (with_lock file p).
Proof.
  intros Hp. apply after_try, after_ask; [done|]. intros [[]|e]; cbn [map_err]; [|done].
  apply safe_bind; [by apply Hp|]. intros r. sound_all.
Qed.

Lemma visit_paths (e : Entry) path : path ∈ visit e -> path ∈ paths e.
Proof.
  revert path. revert e. fix IH 1. intros [p|entries] path; cbn; [destruct (is_qcow2 p); set_solver|].
  induction entries as [|e entries IHe]; cbn; [done|]. rewrite !elem_of_app. intros [Hv|Hv]; [left; by apply IH|right; by apply IHe].
Qed.
Lemma visits_paths entries path : path ∈ concat (map visit entries) -> path ∈ concat (map paths entries).
Proof. exact (visit_paths (DirEntry entries) path). Qed.

Lemma find_single_named before root :
  root ∈ named before ->
  runs before (find_single_qcow2 root) (fun b r => match r with Ok disk => disk ∈ named b | Err _ => True end).
Proof.
  intros Hroot. apply after_try, after_ask; [done|]. intros [entries|e]; cbn [map_err]; [|done]. apply after_ret.
  destruct (concat (map visit entries)) as [|disk [|]] eqn:Hv; [done| |done].
  rewrite named_snoc. apply elem_of_app. right. cbn. apply visits_paths. rewrite Hv. set_solver.
Qed.

Lemma build_disk_safe before image_ source_digest : safe before (build_disk digest self image_ source_digest).
Proof.
  unfold build_disk. apply after_try, after_ask; [intros r; cbn; rewrite Hdir; auto|].
  intros [output|e]; cbn [map_err]; [|done]. cbv zeta. apply after_try. unfold on_error at 1. apply after_bind.
  assert (Hend : forall b (e : ImageError), runs b
    (prog_bind _ _ (fun _ => Ret (Err e)) (Call (IRemoveDir output) (fun _ => Ret tt)))
    (fun b' r => match r with
                 | Ok a => runs b' (commit_generated digest self image_ output (fst a) (fst (snd a)) (snd (snd a)) source_digest) (fun _ _ => True)
                 | Err _ => True end)).
  { intros b e. apply after_call; [done|]. intros r. by apply after_ret. }
  apply after_try, after_call; [done|]. intros built. apply after_ret.
  destruct built as [[out|[src out]]|]; [|apply Hend..].
  apply after_try. eapply after_mono; [|apply find_single_named, named_mono; rewrite named_snoc; set_solver]. intros b [disk|e] Hn; [|apply Hend].
  apply after_try. eapply after_mono; [|by apply hash_file_knows]. intros b' [[checksum n]|e] Hk; [|apply Hend].
  destruct Hk as (bytes & -> & Hk). apply after_ret, after_ret. cbn [fst snd].
  apply safe_bind; [|intros r; sound_all]. apply with_lock_safe. intros e He.
  by apply commit_generated_locked_safe, knows_plain.
Qed.

Lemma fetch_oci_safe before image_ : safe before (fetch_oci digest self image_).
Proof.
  unfold fetch_oci. apply after_try, after_ret. destruct (validate_oci_reference _); [|done].
  apply after_try, after_ret. destruct (validate_builder_reference _); [|done].
  apply after_try, after_ask; [done|]. intros [[]|e]; cbn [map_err]; [|done].
  apply with_lock_safe. intros e _. unfold fetch_oci_locked.
  assert (Hrun : forall b program context args (f : string -> I unit), (forall b' o, safe b' (f o)) ->
    safe b (fallible_bind _ _ f (run_timed self program context args))).
  { intros b program context args f Hf. apply after_try, after_call; [done|]. intros [[o|[s o]]|]; apply after_ret; [apply Hf|done..]. }
  apply Hrun. intros b1 _. apply Hrun. intros b2 text. apply after_try, after_ret.
  destruct (map_err _ _) as [bare|e2]; [|done]. cbv zeta.
  apply after_try, after_ask; [done|]. intros [version|e3]; cbn [map_err]; [|done].
  apply after_try. eapply after_mono with (Q := fun _ _ => True); [|destruct version; apply (fun H : sound _ => H _); sound_all].
  intros b3 [[cached|]|e4] _; [apply (fun H : sound _ => H _); sound_all| |done].
  apply after_try. eapply after_mono with (Q := fun _ _ => True);
    [|unfold validate_bootc_contract; apply (fun H : sound _ => H _); sound_all].
  intros b4 [[]|e5] _; [|done]. apply Hrun. intros b5 _. apply build_disk_safe.
Qed.

(** ** The operations *)

Lemma fetch_one_sound image_ : sound (fetch_one digest url_error self image_).
Proof. intros before. unfold fetch_one. destruct (bool_decide _); [apply fetch_oci_safe|apply fetch_qcow2_safe]. Qed.
Lemma collect_sound : sound (collect self).
Proof.
  assert (Hv : forall current versions, sound (collect_versions self current versions)).
  { intros current versions. induction versions as [|v versions IH]; cbn [collect_versions]; [apply sound_ret|].
    sound_all; done. }
  unfold collect, with_lock. sound_all. apply Hv.
Qed.
Lemma fetch_images_sound : sound (fetch_images digest url_error self).
Proof.
  assert (Hf : forall images_, sound (fetch_all digest url_error self images_)).
  { intros images_. induction images_ as [|i images_ IH]; cbn [fetch_all]; [apply sound_ret|].
    sound_all; [apply fetch_one_sound|done|..]; sound_all. }
  unfold fetch_images. sound_all; [apply Hf|apply collect_sound].
Qed.
Lemma add_oci_image_sound name reference : sound (add_oci_image digest url_error self name reference).
Proof. unfold add_oci_image. sound_all; apply fetch_one_sound. Qed.
Lemma fetch_named_sound name : sound (fetch_named digest url_error self name).
Proof. unfold fetch_named. sound_all. apply fetch_one_sound. Qed.
Lemma create_overlay_sound checksum overlay_path disk_gib : sound (create_overlay self checksum overlay_path disk_gib).
Proof. unfold create_overlay, with_lock. sound_all. Qed.

(** ** The runner's fetch *)

Context (io_text : IoError -> string) (status_error : Z -> string).

Lemma copy_stream_knows before url path stream hashed size :
  knows path hashed before ->
  runs before (copy_stream io_text url path stream hashed size) (fun b r =>
    match r with Ok (bytes, _) => knows path bytes b | Err _ => True end).
Proof.
  revert before hashed size. induction stream as [|[chunk|error] stream IH]; intros before hashed size Hk; cbn [copy_stream];
    [by apply after_ret| |by apply after_ret].
  apply after_try, after_ask; [intros r; apply Hk|]. intros [[]|e]; cbn [map_err]; [|done].
  apply IH. destruct Hk as [Hn Hh].
  split; [by apply named_mono|]. rewrite held_snoc. cbn. by rewrite lookup_alter_eq, Hh.
Qed.

Lemma fetch_into_sound url : sound (fetch_into digest io_text status_error dir url).
Proof.
  intros before. unfold fetch_into. apply after_try, after_ask; [done|]. intros [[]|e]; cbn [map_err]; [|done].
  apply after_try, after_get; [done|]. intros uuid. cbv zeta. set (partial := join_path dir _).
  apply after_try, after_ask; [done|]. intros [[status stream]|e]; cbn [map_err fst snd]; [|done].
  apply after_try. destruct (_ && _); [by apply after_ret|]. apply after_ret.
  apply after_try, after_ask; [intros r; by eexists|]. intros [[]|e]; cbn [map_err]; [|done].
  apply after_try. unfold dropping at 1. apply after_bind, after_try. eapply after_mono; [|apply copy_stream_knows].
  2: { split; [rewrite named_snoc; set_solver|]. rewrite held_snoc. cbn. apply lookup_insert_eq. }
  intros b [[bytes n]|e] Hk; [|by apply after_dropped].
  apply after_try, after_ask; [done|]. intros [[]|e]; cbn [map_err]; [|by apply after_dropped].
  apply after_try, after_ask; [done|]. intros [[]|e]; cbn [map_err]; [|by apply after_dropped].
  apply after_ret, after_ret. cbn [fst snd]. apply after_try. unfold dropping. apply after_bind, after_ask.
  - intros r. destruct (knows_plain _ _ _ (mkEvent (ISync partial) (Ok tt)) eq_refl
      (knows_plain _ _ _ (mkEvent (IFlush partial) (Ok tt)) eq_refl Hk)) as [Hn Hh]. split; [done|by exists bytes].
  - intros [[]|e]; cbn [map_err]; [by apply after_ret, after_ret|by apply after_dropped].
Qed.
End Content.

(** ** The image directory *)

(** The files; those this run has made or read, which nobody else changes; what
    every call would answer, as far as the file system leaves that open; the
    files whose bytes are all on the disk; and what was under a name that has
    since been removed or given to another file: its bytes, if they were on
    the disk. *)
Record Disk : Type := mkDisk {
  files : gmap string (list Z);
  mine : gset string;
  oracle : forall R, icall R -> R;
  synced : gset string;
  gone : list (string * option (list Z))
}.

Definition all_paths (entries : list Entry) : list string := concat (map paths entries).

(** What is left of a name that goes. *)
Definition leave (w : Disk) (path : string) : list (string * option (list Z)) :=
  match files w !! path with
  | Some bytes => [(path, if bool_decide (path ∈ synced w) then Some bytes else None)]
  | None => []
  end.

(** A file system: any call may fail; a temporary name is new and begins as
    asked for; a write appends or leaves the file in doubt; a read that is
    complete gives the file's bytes; a rename moves them.  Bytes that were
    written are on the disk once [sync_all] has said so.  What host commands
    ([qemu-img], [podman], the image builder) do to files is left to [others]
    below. *)
Definition disk_io : handler icall Disk := fun R c w =>
  match c in icall R return R -> R * Disk with
  | ITempFile d prefix => fun r =>
      match r with
      | Ok path =>
          if bool_decide (files w !! path = None) && starts_with (join_path d prefix) path
          then (Ok path, mkDisk (<[path := []]> (files w)) ({[path]} ∪ mine w) (oracle w) (synced w ∖ {[path]}) (gone w))
          else (Err (IoOther "File exists"), w)
      | Err e => (Err e, w)
      end
  | ITempDir d prefix => fun r =>
      match r with
      | Ok path => if starts_with (join_path d prefix) path then (Ok path, w) else (Err (IoOther "File exists"), w)
      | Err e => (Err e, w)
      end
  | ICreateFile path => fun r =>
      match r with
      | Ok _ => (Ok tt, mkDisk (<[path := []]> (files w)) ({[path]} ∪ mine w) (oracle w) (synced w ∖ {[path]}) (gone w))
      | Err e => (Err e, mkDisk (files w) (mine w ∖ {[path]}) (oracle w) (synced w ∖ {[path]}) (gone w))
      end
  | IWrite path chunk => fun r =>
      match r with
      | Ok _ => (Ok tt, mkDisk (<[path := default [] (files w !! path) ++ chunk]> (files w)) (mine w) (oracle w)
                          (synced w ∖ {[path]}) (gone w))
      | Err e => (Err e, mkDisk (files w) (mine w ∖ {[path]}) (oracle w) (synced w ∖ {[path]}) (gone w))
      end
  | ISync path => fun r =>
      match r with
      | Ok _ => (Ok tt, mkDisk (files w) (mine w) (oracle w) ({[path]} ∪ synced w) (gone w))
      | Err e => (Err e, w)
      end
  | IOpen path => fun r =>
      match r, files w !! path with
      | Ok stream, Some bytes =>
          (Ok (if bool_decide (whole stream = None \/ whole stream = Some bytes) then stream else [Ok bytes]),
           mkDisk (files w) ({[path]} ∪ mine w) (oracle w) (synced w) (gone w))
      | Ok _, None => (Err IoNotFound, w)
      | Err e, _ => (Err e, w)
      end
  | IScan root => fun r =>
      match r with
      | Ok entries => if forallb (starts_with root) (all_paths entries) then (Ok entries, w) else (Err IoNotFound, w)
      | Err e => (Err e, w)
      end
  | IRename from to => fun r =>
      match r, files w !! from with
      | Ok _, Some bytes =>
          (Ok tt, mkDisk (<[to := bytes]> (delete from (files w))) (mine w) (oracle w)
                    ((synced w ∖ {[from; to]}) ∪ if bool_decide (from ∈ synced w) then {[to]} else ∅)
                    (leave w from ++ leave w to ++ gone w))
      | Ok _, None => (Err IoNotFound, w)
      | Err e, _ => (Err e, w)
      end
  | IRemove path => fun r =>
      match r with
      | Ok _ => (Ok tt, mkDisk (delete path (files w)) (mine w) (oracle w) (synced w ∖ {[path]}) (leave w path ++ gone w))
      | Err e => (Err e, w)
      end
  | IRemoveDir d => fun _ =>
      (tt, mkDisk (filter (fun kv => starts_with (d +:+ "/") kv.1 = false) (files w)) (mine w) (oracle w) (synced w)
             (concat (map (leave w) (filter (fun path => starts_with (d +:+ "/") path = true) (elements (dom (files w))))) ++ gone w))
  | _ => fun r => (r, w)
  end (oracle w R c).

(** The power fails: what the names of files say is on the disk comes back as
    it was; a file whose bytes were not all on the disk comes back with any
    bytes, or not at all; and a name that was removed or moved may come back. *)
Definition power_cut (w w' : Disk) : Prop :=
  forall path bytes, files w' !! path = Some bytes ->
    (exists old, files w !! path = Some old /\ (path ∈ synced w -> bytes = old)) \/
    (exists old, (path, old) ∈ gone w /\ forall on_disk, old = Some on_disk -> bytes = on_disk).

Section Directory.
Context (digest : list Z -> string) (dir : string).

(** A content-addressed name holds what it says. *)
Definition addressed (w : Disk) : Prop :=
  forall hex bytes, files w !! content_path dir hex = Some bytes -> digest bytes = hex.

(** The names runs give their own files. *)
Definition own_name (path : string) : Prop :=
  exists prefix, prefix ∈ ["download-"; "bootc-output-"; "fetch-"] /\ starts_with (join_path dir prefix) path = true.

(** Every content-addressed name is of a file that is wholly on the disk, and
    so was every one that is gone. *)
Definition stable (w : Disk) : Prop :=
  (forall hex bytes, files w !! content_path dir hex = Some bytes -> digest bytes = hex /\ content_path dir hex ∈ synced w) /\
  (forall hex old, (content_path dir hex, old) ∈ gone w -> exists bytes, old = Some bytes /\ digest bytes = hex).

(** What is kept: names that do not lie, and, where only synced files are
    named, names that cannot be made to lie by a power cut. *)
Definition honest (durable : bool) (w : Disk) : Prop := addressed w /\ (durable = true -> stable w).

(** Anything else that happens: other runs, other processes, host commands. *)
Definition others (durable : bool) (w w' : Disk) : Prop :=
  honest durable w' /\ mine w' = mine w /\
  forall path, path ∈ mine w -> own_name path ->
    files w' !! path = files w !! path /\ (path ∈ synced w -> path ∈ synced w').

Definition known (w : Disk) (tr : list (event icall)) : Prop :=
  (forall path, path ∈ named tr -> own_name path) /\
  forall path bytes, held tr !! path = Some bytes -> own_name path -> files w !! path = Some bytes /\ path ∈ mine w.

Lemma starts_with_spec p s : starts_with p s = true <-> exists rest, s = p +:+ rest.
Proof.
  unfold starts_with. destruct (strip_prefix p s) as [t|] eqn:Hs.
  - apply strip_prefix_Some in Hs. split; [by exists t|done].
  - split; [done|]. intros [rest Hr]. apply strip_prefix_Some in Hr. congruence.
Qed.

Lemma own_not_content path hex : own_name path -> path <> content_path dir hex.
Proof.
  intros (prefix & Hp & [rest ->]%starts_with_spec). unfold content_path, join_path. rewrite !string_app_assoc.
  intros Heq%(inj _). injection Heq. rewrite !elem_of_cons in Hp. destruct Hp as [-> |[-> |[-> |Hp]]]; try done. by apply elem_of_nil in Hp.
Qed.

Lemma content_path_inj hex hex' : content_path dir hex = content_path dir hex' -> hex = hex'.
Proof.
  unfold content_path, join_path. intros Heq%(inj _). injection Heq as Heq. apply (f_equal string_rev) in Heq.
  rewrite !string_rev_append in Heq. rewrite !string_app_assoc in Heq. apply (inj _) in Heq. rewrite !string_app_nil in Heq.
  apply (f_equal string_rev) in Heq. by rewrite !string_rev_rev in Heq.
Qed.

Lemma own_name_below root path : own_name root -> starts_with root path = true -> own_name path.
Proof.
  intros (prefix & Hp & [r ->]%starts_with_spec) [r' ->]%starts_with_spec. exists prefix. split; [done|].
  apply starts_with_spec. exists (r +:+ r'). by rewrite string_app_assoc.
Qed.

(** A change to a file of an own name is none to a content-addressed one. *)
Lemma addressed_own w path f m o y g :
  own_name path -> addressed w -> (forall q, q <> path -> f !! q = files w !! q) -> addressed (mkDisk f m o y g).
Proof. intros Hn Hw Hf hex bytes. cbn. rewrite Hf; [apply Hw|]. intros Heq. by eapply own_not_content. Qed.
Lemma addressed_sub w f m o y g : addressed w -> f ⊆ files w -> addressed (mkDisk f m o y g).
Proof. intros Hw Hf hex bytes Hl. eapply Hw, lookup_weaken; [exact Hl|done]. Qed.

Lemma known_snoc w tr e :
  known w (tr ++ [e]) <->
  (forall path, path ∈ named tr \/ path ∈ names e -> own_name path) /\
  forall path bytes, hold (held tr) e !! path = Some bytes -> own_name path -> files w !! path = Some bytes /\ path ∈ mine w.
Proof. unfold known. rewrite held_snoc, named_snoc. by setoid_rewrite elem_of_app. Qed.

(** Nothing happened to the files, and nothing new is known. *)
Lemma known_same w tr e :
  known w tr -> names e = [] -> (forall path bytes, hold (held tr) e !! path = Some bytes -> held tr !! path = Some bytes) ->
  known w (tr ++ [e]).
Proof.
  intros [Hn Hh] He Hsub. apply known_snoc. rewrite He. split; [|by eauto].
  intros path [Hp|Hp]; [by apply Hn|by apply elem_of_nil in Hp].
Qed.

(** A file of the run's own now has these bytes. *)
Lemma known_put w tr e path bytes f y g :
  known w tr -> own_name path -> names e ⊆ [path] -> hold (held tr) e = <[path := bytes]> (held tr) ->
  f !! path = Some bytes -> (forall q, q <> path -> f !! q = files w !! q) ->
  known (mkDisk f ({[path]} ∪ mine w) (oracle w) y g) (tr ++ [e]).
Proof.
  intros [Hn Hh] Ho Hne Hhold Hfp Hfq. apply known_snoc. cbn. rewrite Hhold. split.
  - intros q [Hq|Hq]; [by apply Hn|]. apply Hne, list_elem_of_singleton in Hq. by subst.
  - intros q b. destruct (decide (q = path)) as [-> |Hne'].
    + rewrite lookup_insert_eq. intros [= <-] _. split; [done|set_solver].
    + rewrite lookup_insert_ne by done. intros Hq Hoq. destruct (Hh q b Hq Hoq). rewrite Hfq by done. split; [done|set_solver].
Qed.
(** A file of the run's own is no longer known. *)
Lemma known_lose w tr e path f m y g :
  known w tr -> names e ⊆ [path] -> own_name path -> hold (held tr) e = delete path (held tr) ->
  (forall q, q <> path -> f !! q = files w !! q) -> (forall q, q <> path -> q ∈ mine w -> q ∈ m) ->
  known (mkDisk f m (oracle w) y g) (tr ++ [e]).
Proof.
  intros [Hn Hh] Hne Ho Hhold Hfq Hm. apply known_snoc. cbn. rewrite Hhold. split.
  - intros q [Hq|Hq]; [by apply Hn|]. apply Hne, list_elem_of_singleton in Hq. by subst.
  - intros q b [Hq Hl]%lookup_delete_Some Hoq. destruct (Hh q b Hl Hoq). rewrite Hfq by done. split; [done|by apply Hm].
Qed.

Lemma disk_temp w tr d prefix :
  d = dir /\ (prefix = "download-" \/ prefix = "bootc-output-") -> addressed w -> known w tr ->
  let '(r, w') := disk_io _ (ITempFile d prefix) w in addressed w' /\ known w' (tr ++ [mkEvent (ITempFile d prefix) r]).
Proof.
  intros [-> Hp] Ha Hk. cbn. destruct (oracle w _ _) as [path|e]; [|split; [done|by apply known_same]].
  destruct (bool_decide _ && _) eqn:Hc; [|split; [done|by apply known_same]].
  apply andb_true_iff in Hc as [Hf%bool_decide_eq_true Hs].
  assert (Ho : own_name path) by (exists prefix; split; [set_solver|done]). split.
  - eapply (addressed_own w path); [done..|]. intros q Hq. by rewrite lookup_insert_ne.
  - apply (known_put w tr _ path []); try done; [apply lookup_insert_eq|]. intros q Hq. by rewrite lookup_insert_ne.
Qed.

Lemma fetch_own path : (exists rest, path = join_path dir ("fetch-" +:+ rest)) -> own_name path.
Proof.
  intros [rest ->]. exists "fetch-". split; [set_solver|]. apply starts_with_spec. exists rest. unfold join_path. by rewrite !string_app_assoc.
Qed.

Lemma disk_create w tr path :
  (exists rest, path = join_path dir ("fetch-" +:+ rest)) -> addressed w -> known w tr ->
  let '(r, w') := disk_io _ (ICreateFile path) w in addressed w' /\ known w' (tr ++ [mkEvent (ICreateFile path) r]).
Proof.
  intros Ho%fetch_own Ha Hk. cbn. destruct (oracle w _ _) as [[]|e]; split.
  - eapply (addressed_own w path); [done..|]. intros q Hq. by rewrite lookup_insert_ne.
  - apply (known_put w tr _ path []); try done; [apply lookup_insert_eq|]. intros q Hq. by rewrite lookup_insert_ne.
  - by apply (addressed_sub w).
  - apply (known_lose w tr _ path); try done; set_solver.
Qed.

Lemma disk_write w tr path chunk :
  path ∈ named tr -> addressed w -> known w tr ->
  let '(r, w') := disk_io _ (IWrite path chunk) w in addressed w' /\ known w' (tr ++ [mkEvent (IWrite path chunk) r]).
Proof.
  intros Hn Ha Hk. pose proof (proj1 Hk path Hn) as Ho. cbn. destruct (oracle w _ _) as [[]|e]; split.
  - eapply (addressed_own w path); [done..|]. intros q Hq. by rewrite lookup_insert_ne.
  - apply known_snoc. split; [intros q [Hq|Hq]; [by apply (proj1 Hk)|by apply elem_of_nil in Hq]|]. cbn. intros q b.
    destruct (decide (q = path)) as [-> |Hq].
    + rewrite lookup_alter_eq. destruct (held tr !! path) as [old|] eqn:Hh; [|done]. intros [= <-] _.
      destruct (proj2 Hk path old Hh Ho) as [-> ?]. split; [by rewrite lookup_insert_eq|done].
    + rewrite lookup_alter_ne, lookup_insert_ne by done. apply (proj2 Hk).
  - by apply (addressed_sub w).
  - apply (known_lose w tr _ path); try done; set_solver.
Qed.

Lemma disk_open w tr path :
  addressed w -> known w tr ->
  let '(r, w') := disk_io _ (IOpen path) w in addressed w' /\ known w' (tr ++ [mkEvent (IOpen path) r]).
Proof.
  intros Ha [Hn Hh]. cbn. destruct (oracle w _ _) as [stream|e], (files w !! path) as [bytes|] eqn:Hf;
    try (by split; [|apply known_same]).
  split; [done|]. apply known_snoc. split; [intros q [Hq|Hq]; [by apply Hn|by apply elem_of_nil in Hq]|].
  set (s := if bool_decide _ then stream else _). cbn -[s]. intros q b Hq Hoq.
  assert (Hs : whole s = None \/ whole s = Some bytes).
  { unfold s. case_bool_decide; [done|]. right. cbn. by rewrite app_nil_r. }
  destruct (decide (q = path)) as [-> |Hne].
  - destruct Hs as [Hs|Hs]; rewrite Hs in Hq; [by rewrite lookup_delete_eq in Hq|].
    rewrite lookup_insert_eq in Hq. injection Hq as <-. split; [done|set_solver].
  - assert (Hl : held tr !! q = Some b).
    { destruct Hs as [Hs|Hs]; rewrite Hs in Hq; [by rewrite lookup_delete_ne in Hq|by rewrite lookup_insert_ne in Hq]. }
    destruct (Hh q b Hl Hoq). split; [done|set_solver].
Qed.

Lemma disk_rename w tr from to :
  from ∈ named tr -> (exists bytes, held tr !! from = Some bytes /\ to = content_path dir (digest bytes)) ->
  addressed w -> known w tr ->
  let '(r, w') := disk_io _ (IRename from to) w in addressed w' /\ known w' (tr ++ [mkEvent (IRename from to) r]).
Proof.
  intros Hfrom (bytes & Hb & ->) Ha Hk. pose proof (proj1 Hk _ Hfrom) as Ho. destruct (proj2 Hk _ _ Hb Ho) as [Hf _].
  set (to := content_path _ _).
  assert (Hsame : forall r, known w (tr ++ [mkEvent (IRename from to) r])).
  { intros r. apply known_same; [done..|]. intros q b. cbn. rewrite !lookup_delete_Some. tauto. }
  cbn -[to]. rewrite Hf. destruct (oracle w _ _) as [[]|e]; [|by split]. split.
  - intros hex b. cbn -[to]. destruct (decide (content_path dir hex = to)) as [Heq|Hne].
    + rewrite Heq, lookup_insert_eq. intros [= <-]. by apply content_path_inj in Heq.
    + rewrite lookup_insert_ne by done. intros [_ Hl]%lookup_delete_Some. by apply Ha.
  - destruct (Hsame (Ok tt)) as [Hn Hh]. split; [done|]. rewrite held_snoc in *. intros q b Hq Hoq.
    destruct (Hh q b Hq Hoq) as [Hl Hm]. split; [|done]. cbn -[to] in *. apply lookup_delete_Some in Hq as [Hq1 Hq].
    apply lookup_delete_Some in Hq as [Hq2 _]. by rewrite lookup_insert_ne, lookup_delete_ne.
Qed.

Lemma disk_step w tr R (c : icall R) :
  addressed w -> known w tr -> image_may digest dir tr (mkEvent c (fst (disk_io R c w))) ->
  addressed (snd (disk_io R c w)) /\ known (snd (disk_io R c w)) (tr ++ [mkEvent c (fst (disk_io R c w))]).
Proof.
  intros Ha Hk Hok. destruct c; try (by split; [|apply known_same]).
  - pose proof (disk_temp w tr _ _ Hok Ha Hk) as H. by destruct (disk_io _ _ w).
  - destruct Hok as [-> Hp]. cbn. destruct (oracle w _ _) as [path|e]; [|by split; [|apply known_same]].
    destruct (starts_with _ path) eqn:Hs; [|by split; [|apply known_same]]. split; [done|]. apply known_snoc. cbn.
    split; [|apply (proj2 Hk)]. intros q [Hq|Hq%list_elem_of_singleton]; [by apply (proj1 Hk)|]. subst q.
    eexists. split; [|exact Hs]. set_solver.
  - pose proof (disk_create w tr _ Hok Ha Hk) as H. by destruct (disk_io _ _ w).
  - pose proof (disk_write w tr _ chunk Hok Ha Hk) as H. by destruct (disk_io _ _ w).
  - cbn. destruct (oracle w _ _) as [[]|e]; [|by split; [|apply known_same]].
    split; [exact Ha|]. exact (known_same w tr (mkEvent (ISync path) (Ok tt)) Hk eq_refl (fun _ _ H => H)).
  - pose proof (disk_rename w tr _ _ (proj1 Hok) (proj2 Hok) Ha Hk) as H. by destruct (disk_io _ _ w).
  - pose proof (disk_open w tr path Ha Hk) as H. by destruct (disk_io _ _ w).
  - cbn. destruct (oracle w _ _) as [entries|e]; [|by split; [|apply known_same]].
    destruct (forallb _ _) eqn:Hs; [|by split; [|apply known_same]]. split; [done|]. apply known_snoc. cbn.
    split; [|apply (proj2 Hk)]. intros q [Hq|Hq]; [by apply (proj1 Hk)|].
    eapply own_name_below; [by apply (proj1 Hk), Hok|]. rewrite forallb_forall in Hs. apply Hs, list_elem_of_In, Hq.
  - cbn. destruct (oracle w _ _) as [[]|e].
    + split; [apply (addressed_sub w); [done|apply delete_subseteq]|]. apply known_snoc. cbn.
      split; [intros q [Hq|Hq]; [by apply (proj1 Hk)|by apply elem_of_nil in Hq]|].
      intros q b [Hne Hq]%lookup_delete_Some Hoq. rewrite lookup_delete_ne by done. by apply (proj2 Hk).
    + split; [done|]. apply known_same; [done..|]. intros q b. cbn. rewrite lookup_delete_Some. tauto.
  - split; [apply (addressed_sub w); [done|apply map_filter_subseteq]|]. apply known_snoc. cbn.
    split; [intros q [Hq|Hq]; [by apply (proj1 Hk)|by apply elem_of_nil in Hq]|]. intros q b Hq. by rewrite lookup_empty in Hq.
Qed.

(** ** What a power cut leaves *)

Lemma stable_cut w w' : stable w -> power_cut w w' -> addressed w'.
Proof.
  intros [Hf Hg] Hc hex bytes Hl. destruct (Hc _ _ Hl) as [(old & Ho & Hsame)|(old & Ho & Hsame)].
  - destruct (Hf _ _ Ho) as [Hd Hs]. by rewrite (Hsame Hs).
  - destruct (Hg _ _ Ho) as (b & -> & Hd). by rewrite (Hsame b eq_refl).
Qed.

(** A name is given only to a file that is wholly on the disk. *)
Definition durable_may (before : list (event icall)) (e : event icall) : Prop :=
  match ev_call e with IRename from _ => from ∈ flushed before | _ => True end.

Definition known_synced (w : Disk) (tr : list (event icall)) : Prop :=
  forall path, path ∈ flushed tr -> own_name path -> path ∈ synced w /\ path ∈ mine w.

(** The names that are there, and what is gone, after a change to a file of an
    own name. *)
Lemma stable_own w path f m o y :
  own_name path -> stable w -> (forall q, q <> path -> f !! q = files w !! q) ->
  (forall q, q <> path -> q ∈ synced w -> q ∈ y) -> stable (mkDisk f m o y (gone w)).
Proof.
  intros Hn [Hf Hg] Hfq Hy. split; [|exact Hg]. intros hex bytes. cbn.
  assert (Hne : content_path dir hex <> path) by (intros Heq; by eapply own_not_content).
  rewrite Hfq by done. intros Hl. destruct (Hf _ _ Hl). auto.
Qed.

Lemma leave_stable w path hex old :
  stable w -> (content_path dir hex, old) ∈ leave w path -> exists bytes, old = Some bytes /\ digest bytes = hex.
Proof.
  intros [Hf _]. unfold leave. destruct (files w !! path) as [bytes|] eqn:Hl; [|by intros ?%elem_of_nil].
  intros [= <- ->]%list_elem_of_singleton. destruct (Hf _ _ Hl) as [Hd Hs].
  exists bytes. by rewrite bool_decide_eq_true_2.
Qed.

(** Names that are removed: the others stay, and what is gone was on the disk. *)
Lemma stable_removed w f m o y g :
  stable w -> f ⊆ files w -> (forall q b, f !! q = Some b -> q ∈ synced w -> q ∈ y) ->
  (forall x, x ∈ g -> x ∈ gone w \/ exists path, x ∈ leave w path) -> stable (mkDisk f m o y g).
Proof.
  intros Hw Hf Hy Hg. split.
  - intros hex bytes Hl. cbn in *. destruct (proj1 Hw hex bytes) as [Hd Hs]; [by eapply lookup_weaken|]. eauto.
  - intros hex old Hin. cbn in Hin. destruct (Hg _ Hin) as [Hi|[path Hi]]; [by apply (proj2 Hw)|by eapply leave_stable].
Qed.

Lemma stable_step w tr R (c : icall R) :
  addressed w -> known w tr -> image_may digest dir tr (mkEvent c (fst (disk_io R c w))) ->
  durable_may tr (mkEvent c (fst (disk_io R c w))) -> stable w -> known_synced w tr -> stable (snd (disk_io R c w)).
Proof.
  intros Ha Hk Hok Hd Hw Hs. destruct c as [| | | | | | | | | | | |d prefix|d prefix|path|path chunk| |path| |from to| |path|root|path|d| | | | | | |];
    try exact Hw; cbn; try (destruct (oracle w _ _) as [x|err]; [|try exact Hw]).
  - destruct Hok as [-> Hp]. destruct (bool_decide _ && _) eqn:Hc; [|exact Hw]. apply andb_true_iff in Hc as [_ Hst].
    apply (stable_own w x); [exists prefix; split; [set_solver|done]|done| |set_solver].
    intros q Hq. by rewrite lookup_insert_ne.
  - by destruct (starts_with _ x).
  - apply (stable_own w path); [by apply fetch_own|done| |set_solver]. intros q Hq. by rewrite lookup_insert_ne.
  - apply (stable_own w path); [by apply fetch_own|done|done|set_solver].
  - apply (stable_own w path); [by apply (proj1 Hk)|done| |set_solver]. intros q Hq. by rewrite lookup_insert_ne.
  - apply (stable_own w path); [by apply (proj1 Hk)|done|done|set_solver].
  - destruct Hw as [Hf Hg]. split; [|exact Hg]. intros hex bytes Hl. destruct (Hf _ _ Hl). split; [done|cbn; set_solver].
  - destruct Hok as [Hfrom (bytes & Hb & ->)]. pose proof (proj1 Hk _ Hfrom) as Hown.
    destruct (proj2 Hk _ _ Hb Hown) as [Hf _]. rewrite Hf. destruct (Hs from Hd Hown) as [Hsync _].
    rewrite bool_decide_eq_true_2 by done. split.
    + intros hex b. cbn. destruct (decide (content_path dir hex = content_path dir (digest bytes))) as [Heq|Hne].
      * rewrite Heq, lookup_insert_eq. intros [= <-]. apply content_path_inj in Heq. split; [done|set_solver].
      * rewrite lookup_insert_ne by done. intros [Hfr Hl]%lookup_delete_Some. destruct (proj1 Hw _ _ Hl).
        split; [done|]. set_solver.
    + intros hex old Hin. cbn in Hin. rewrite !elem_of_app in Hin.
      destruct Hin as [Hin|[Hin|Hin]]; [by eapply leave_stable..|by apply (proj2 Hw)].
  - by destruct (files w !! path).
  - by destruct (forallb _ _).
  - apply (stable_removed w); [done|apply delete_subseteq| |].
    + intros q b [Hne _]%lookup_delete_Some. set_solver.
    + intros y. rewrite elem_of_app. intros [Hy|Hy]; [right; by exists path|by left].
  - apply (stable_removed w); [done|apply map_filter_subseteq|done|].
    intros y. rewrite elem_of_app. intros [Hy|Hy]; [right|by left].
    apply list_elem_of_In, in_concat in Hy as (l & (path & <- & _)%in_map_iff & Hy%list_elem_of_In). by exists path.
Qed.

Lemma synced_step w tr R (c : icall R) :
  known w tr -> known_synced w tr -> known_synced (snd (disk_io R c w)) (tr ++ [mkEvent c (fst (disk_io R c w))]).
Proof.
  intros Hk Hs q. rewrite flushed_snoc.
  destruct c as [| | | | | | | | | | | |d prefix|d prefix|path|path chunk| |path| |from to| |path|root|path|d| | | | | | |];
    try exact (Hs q); cbn; try (destruct (oracle w _ _) as [x|err]; [|try exact (Hs q)]).
  - destruct (bool_decide _ && _); [|exact (Hs q)]. intros [Hq Hne]%elem_of_difference Ho. cbn. destruct (Hs q Hq Ho). set_solver.
  - by destruct (starts_with _ x); apply Hs.
  - intros [Hq Hne]%elem_of_difference Ho. cbn. destruct (Hs q Hq Ho). set_solver.
  - intros [Hq Hne]%elem_of_difference Ho. cbn. destruct (Hs q Hq Ho). set_solver.
  - intros [Hq Hne]%elem_of_difference Ho. cbn. destruct (Hs q Hq Ho). set_solver.
  - intros [Hq Hne]%elem_of_difference Ho. cbn. destruct (Hs q Hq Ho). set_solver.
  - destruct (held tr !! path) as [bytes|] eqn:Hh; cbn.
    + intros [->%elem_of_singleton|Hq]%elem_of_union Ho; [|destruct (Hs q Hq Ho); set_solver].
      destruct (proj2 Hk path bytes Hh Ho). set_solver.
    + intros Hq Ho. destruct (Hs q Hq Ho). set_solver.
  - intros [Hq Hne]%elem_of_difference Ho. destruct (Hs q Hq Ho). destruct (files w !! from); cbn; [|done].
    split; [|done]. apply elem_of_union_l. set_solver.
  - intros [Hq Hne]%elem_of_difference Ho. by apply Hs.
  - intros Hq Ho. destruct (Hs q Hq Ho). destruct (files w !! path); cbn; set_solver.
  - destruct (forallb _ _); apply Hs.
  - intros [Hq Hne]%elem_of_difference Ho. cbn. destruct (Hs q Hq Ho). set_solver.
  - intros [Hq Hne]%elem_of_difference Ho. by apply Hs.
  - by intros ?%elem_of_empty.
Qed.

(** What a run knows, with the promise that its names are durable or without. *)
Definition knows_of (durable : bool) (w : Disk) (tr : list (event icall)) : Prop :=
  known w tr /\ (durable = true -> known_synced w tr).

Lemma others_known durable w w' tr :
  others durable w w' -> honest durable w -> knows_of durable w tr -> honest durable w' /\ knows_of durable w' tr.
Proof.
  intros (Ha & Hm & Hf) _ [[Hn Hh] Hs]. split; [done|]. split; [split; [done|]|].
  - intros path bytes Hp Ho. destruct (Hh path bytes Hp Ho) as [Hl Hmine]. rewrite Hm. by destruct (Hf path Hmine Ho) as [-> _].
  - intros Hd path Hp Ho. destruct (Hs Hd path Hp Ho) as [Hsy Hmine]. rewrite Hm. by destruct (Hf path Hmine Ho) as [_ ?]; auto.
Qed.
End Directory.

(** ** The properties *)

(** What the processes of a machine run against one image directory. *)
Inductive ImageJob : Type :=
  | FetchImages | FetchNamed (name : string) | AddOciImage (name reference : string)
  | CreateOverlay (checksum overlay_path : string) (disk_gib : Z) | RunnerFetch (url : string).

Section Jobs.
Context (digest : list Z -> string) (url_error : string -> option string) (io_text : IoError -> string)
  (status_error : Z -> string).

Definition image_job (self : ImageStore) (j : ImageJob) : prog icall bool :=
  let done {E A} (p : prog icall (result E A)) := prog_bind _ _ (fun r => Ret (is_ok r)) p in
  match j with
  | FetchImages => done (fetch_images digest url_error self)
  | FetchNamed name => done (fetch_named digest url_error self name)
  | AddOciImage name reference => done (add_oci_image digest url_error self name reference)
  | CreateOverlay checksum overlay_path disk_gib => done (create_overlay self checksum overlay_path disk_gib)
  | RunnerFetch url => done (fetch_into digest io_text status_error (is_dir self) url)
  end.

Lemma image_job_sound self j : sound digest (is_dir self) (image_job self j).
Proof.
  destruct j; (apply sound_bind; [|intros r; apply sound_ret]).
  - by apply fetch_images_sound.
  - by apply fetch_named_sound.
  - by apply add_oci_image_sound.
  - by apply create_overlay_sound.
  - by eapply fetch_into_sound.
Qed.

(** ** The runner's fetch puts a file on the disk before it names it *)

#[local] Abbreviation runs := (after durable_may).

Lemma copy_stream_held before url path stream hashed size :
  is_Some (held before !! path) ->
  runs before (copy_stream io_text url path stream hashed size) (fun b r =>
    match r with Ok _ => is_Some (held b !! path) | Err _ => True end).
Proof.
  revert before hashed size. induction stream as [|[chunk|error] stream IH]; intros before hashed size Hk; cbn [copy_stream];
    [by apply after_ret| |by apply after_ret].
  apply after_try, after_ask; [done|]. intros [[]|e]; cbn [map_err]; [|done].
  apply IH. rewrite held_snoc. cbn. rewrite lookup_alter_eq. destruct Hk as [bytes ->]. by eexists.
Qed.

Lemma dropped_durable {X A} before path (e : X) (Q : list (event icall) -> result X A -> Prop) :
  (forall b, Q b (Err e)) -> runs before (prog_bind _ _ (fun _ => Ret (Err e)) (ImageStore.remove path)) Q.
Proof. intros HQ. apply after_call; [done|]. intros r. by apply after_ret. Qed.

Lemma fetch_into_durable before dir url :
  runs before (fetch_into digest io_text status_error dir url) (fun _ _ => True).
Proof.
  unfold fetch_into. apply after_try, after_ask; [done|]. intros [[]|e]; cbn [map_err]; [|done].
  apply after_try, after_get; [done|]. intros uuid. cbv zeta. set (partial := join_path dir _).
  apply after_try, after_ask; [done|]. intros [[status stream]|e]; cbn [map_err fst snd]; [|done].
  apply after_try. destruct (_ && _); [by apply after_ret|]. apply after_ret.
  apply after_try, after_ask; [done|]. intros [[]|e]; cbn [map_err]; [|done].
  apply after_try. unfold dropping at 1. apply after_bind, after_try. eapply after_mono; [|apply copy_stream_held].
  2: { rewrite held_snoc. cbn. rewrite lookup_insert_eq. by eexists. }
  intros b [[bytes n]|e] Hk; [|by apply dropped_durable].
  apply after_try, after_ask; [done|]. intros [[]|e]; cbn [map_err]; [|by apply dropped_durable].
  apply after_try, after_ask; [done|]. intros [[]|e]; cbn [map_err]; [|by apply dropped_durable].
  apply after_ret, after_ret. cbn [fst snd]. apply after_try. unfold dropping. apply after_bind, after_ask.
  - intros r. unfold durable_may. cbn [ev_call]. rewrite flushed_snoc, held_snoc. cbn. destruct Hk as [bytes' ->]. set_solver.
  - intros [[]|e]; cbn [map_err]; [by apply after_ret, after_ret|by apply dropped_durable].
Qed.

Lemma allowed_and {E} (ok ok' : list (event E) -> event E -> Prop) before tr :
  allowed ok before tr -> allowed ok' before tr -> allowed (fun b e => ok b e /\ ok' b e) before tr.
Proof. revert before. induction tr as [|e tr IH]; cbn; intros before; [done|]. intros [] []. auto. Qed.
Lemma allowed_weak {E} (ok ok' : list (event E) -> event E -> Prop) before tr :
  (forall b e, ok b e -> ok' b e) -> allowed ok before tr -> allowed ok' before tr.
Proof. intros H. revert before. induction tr as [|e tr IH]; cbn; intros before; [done|]. intros []. auto. Qed.

(** A job, for which of the two promises. *)
Definition promises (durable : bool) (j : ImageJob) : Prop :=
  durable = true -> match j with RunnerFetch _ => True | _ => False end.

Lemma image_job_allowed self durable j :
  promises durable j ->
  always (image_job self j) (fun tr _ =>
    allowed (fun b e => image_may digest (is_dir self) b e /\ (durable = true -> durable_may b e)) [] tr).
Proof.
  intros Hd. assert (Hs : always (image_job self j) (fun tr _ => allowed (image_may digest (is_dir self)) [] tr)).
  { eapply always_mono; [|apply (image_job_sound self j)]. by intros tr' a [Ha _]. }
  assert (Hf : always (image_job self j) (fun tr _ => allowed (fun b e => durable = true -> durable_may b e) [] tr)).
  { destruct durable; cycle 1.
    - apply always_pure. intros tr a. generalize (@nil (event icall)). induction tr as [|e tr IH]; cbn; auto. by intros b.
    - destruct j; try (by destruct (Hd eq_refl)).
      assert (Ha : after durable_may [] (image_job self (RunnerFetch url)) (fun _ _ => True)).
      { apply after_bind. eapply after_mono; [|apply fetch_into_durable]. intros b r _. by apply after_ret. }
      eapply always_mono; [|exact Ha]. intros tr a [Ht _]. by eapply allowed_weak; [|exact Ht]. }
  eapply always_mono; [|apply (always_and _ _ _ Hs Hf)]. intros tr a [? ?]. by apply allowed_and.
Qed.

(** C7. A content-addressed name never lies.  At every moment of a fetch, a
    build, a refresh, an overlay or a runner's fetch, finished, failed or its
    process stopped anywhere, whatever calls fail and whatever other runs and
    host commands do in between (as long as they keep names honest and leave
    this run's own files alone): a file named [sha256-<hex>.qcow2] in the image
    directory holds bytes whose digest is [<hex>].  For a runner's fetch, which
    puts the bytes on the disk before it gives them the name, that is also true
    after the power is cut at any moment, if it was so at the start and the
    others see to it too.  (The image store's own fetch does not, and a power
    cut can make its names lie: [store_fetch_not_durable].) *)
Theorem names_never_lie (self : ImageStore) (j : ImageJob) (durable : bool) (w w' : Disk) (tr : list (event icall))
    (rest : prog icall bool) :
  promises durable j -> honest digest (is_dir self) durable w ->
  rtc (solo_step disk_io (others digest (is_dir self) durable)) (w, [], image_job self j) (w', tr, rest) ->
  addressed digest (is_dir self) w' /\
  (durable = true -> forall after_cut, power_cut w' after_cut -> addressed digest (is_dir self) after_cut).
Proof.
  intros Hd Hw Hrun.
  apply (solo_inv disk_io (others digest (is_dir self) durable)
    (fun b e => image_may digest (is_dir self) b e /\ (durable = true -> durable_may b e))
    (honest digest (is_dir self) durable) (knows_of (is_dir self) durable)) in Hrun as [[Ha Hst] _].
  - split; [exact Ha|]. intros Hdur cut. by apply stable_cut, Hst.
  - intros v tr' R c [Hav Hsv] [Hkv Hsy] [Hok Hdok]. destruct (disk_step digest (is_dir self) v tr' R c Hav Hkv Hok) as [Ha' Hk'].
    split; (split; [done|]); intros Hdur; [by eapply stable_step; eauto|by apply synced_step; auto].
  - intros v v' tr'. apply others_known.
  - exact Hw.
  - split; [split; [by intros path Hp%elem_of_nil|]|].
    + intros path bytes Hp. by destruct (lookup_empty_Some path bytes Hp).
    + intros _ path Hp. by apply elem_of_empty in Hp.
  - by apply image_job_allowed.
Qed.
End Jobs.

(** A fetch of an image without failures. *)
Definition debian : Image := mkImage "debian" "https://example.org/d.qcow2" Qcow2 None None.
Definition calm : forall R, icall R -> R := fun R c =>
  match c in icall R return R with
  | IImages => Ok [debian]
  | ITempFile dir prefix => Ok (join_path dir (prefix +:+ "x"))
  | IGet _ => Ok (200, [Ok [1; 2]; Ok [3]])
  | c => fst (toy_io _ c (mkToy ∅ ∅ EmptyString))
  end.
Definition sum_digest (bytes : list Z) : string := dec (foldr Z.add 0 bytes).

Lemma empty_honest : honest sum_digest "/images" true (mkDisk ∅ ∅ calm ∅ []).
Proof.
  split; [|intros _; split]; cbn.
  - intros hex bytes Hl. by destruct (lookup_empty_Some _ _ Hl).
  - intros hex bytes Hl. by destruct (lookup_empty_Some _ _ Hl).
  - by intros hex old ?%elem_of_nil.
Qed.

Lemma names_never_lie_witness :
  let self := ImageStore_new "/images" in
  let fetch := image_job sum_digest (fun _ => None) (fun _ => "") dec self (RunnerFetch "https://example.org/d.qcow2") in
  let w' := snd (run disk_io fetch (mkDisk ∅ ∅ calm ∅ [])) in
  files w' !! "/images/sha256-6.qcow2" = Some [1; 2; 3] /\ addressed sum_digest "/images" w' /\
  (forall after_cut, power_cut w' after_cut -> addressed sum_digest "/images" after_cut).
Proof.
  intros self fetch w'. split; [by vm_compute|].
  assert (Hhon : honest sum_digest "/images" true (mkDisk ∅ ∅ calm ∅ [])) by apply empty_honest.
  destruct (names_never_lie sum_digest (fun _ => None) (fun _ => "") dec self (RunnerFetch "https://example.org/d.qcow2") true
    (mkDisk ∅ ∅ calm ∅ []) w' _ _ (fun _ => Logic.I) Hhon
    (solo_run disk_io (others sum_digest "/images" true) fetch (mkDisk ∅ ∅ calm ∅ []) [])) as [Ha Hc].
  split; [exact Ha|exact (Hc eq_refl)].
Defined.

Definition store_fetch : prog icall bool :=
  image_job sum_digest (fun _ => None) (fun _ => "") dec (ImageStore_new "/images") (FetchNamed "debian").
Definition store_fetched : Disk := snd (run disk_io store_fetch (mkDisk ∅ ∅ calm ∅ [])).

(**  The image store's fetch gives a name to bytes that need not be on the
    disk: a fetch that has succeeded, the power cut after it, and the name
    stands over the first half of the file. *)
Theorem store_fetch_not_durable :
  honest sum_digest "/images" true (mkDisk ∅ ∅ calm ∅ []) /\
  fst (run disk_io store_fetch (mkDisk ∅ ∅ calm ∅ [])) = true /\
  exists after_cut, power_cut store_fetched after_cut /\
    files after_cut !! "/images/sha256-6.qcow2" = Some [1; 2] /\ ~ addressed sum_digest "/images" after_cut.
Proof.
  split; [apply empty_honest|]. split; [vm_compute; reflexivity|].
  exists (mkDisk {[ "/images/sha256-6.qcow2" := [1; 2] ]} ∅ calm ∅ []). split_and!.
  - intros path bytes Hl. cbn in Hl. apply lookup_singleton_Some in Hl as [<- <-]. left. exists [1; 2; 3].
    split; [vm_compute; reflexivity|]. intros Hin. exfalso. revert Hin.
    apply (bool_decide_eq_false_1 ("/images/sha256-6.qcow2" ∈ synced store_fetched)). vm_compute. reflexivity.
  - reflexivity.
  - intros Ha. specialize (Ha "6" [1; 2] eq_refl). vm_compute in Ha. discriminate Ha.
Qed.

(** ** Pins *)

(** What a fetch of a disk image tells the database: its own name, a checksum
    the pin allows, a path that is the checksum's. *)
Definition pin_allows (image_ : Image) (checksum : string) : Prop :=
  match img_pinned_checksum image_ with Some pin => normalize_checksum pin = Ok checksum | None => True end.
Definition pin_may (self : ImageStore) (image_ : Image) (before : list (event icall)) (e : event icall) : Prop :=
  match ev_call e with
  | ISetCurrent name checksum => name = img_name image_ /\ pin_allows image_ checksum
  | IInsertVersion v => iv_image_name v = img_name image_ /\ pin_allows image_ (iv_checksum v) /\
      iv_path v = path_normalized self (iv_checksum v)
  | IDeleteVersion _ | IInsertImage _ | IDeleteUnbuilt _ | IRecordSource _ _ _ => False
  | _ => True
  end.

Section Pins.
Context (digest : list Z -> string) (url_error : string -> option string) (self : ImageStore) (image_ : Image).
#[local] Abbreviation runs := (after (pin_may self image_)).

(** A success has made a version current. *)
Definition made_current (tr : list (event icall)) (r : result ImageError unit) : Prop :=
  r = Ok tt -> exists checksum, mkEvent (ISetCurrent (img_name image_) checksum) (Ok tt) ∈ tr.

Lemma check_pin_allows checksum : check_pin image_ checksum = Ok tt -> pin_allows image_ checksum.
Proof.
  unfold check_pin, pin_allows. destruct (img_pinned_checksum image_) as [pin|]; [|done].
  destruct (normalize_checksum pin) as [pinned|]; cbn; [|done]. case_bool_decide; [by subst|done].
Qed.

Lemma set_current_made before checksum context :
  pin_allows image_ checksum ->
  runs before (ask (ISetCurrent (img_name image_) checksum) (Dependency context)) made_current.
Proof.
  intros Hp. apply after_ask; [done|]. intros [[]|e]; [|done]. intros _. exists checksum. set_solver.
Qed.
Lemma on_error_made before (p : I unit) path :
  runs before p made_current -> runs before (on_error p (ImageStore.remove path)) made_current.
Proof.
  intros Hp. apply after_bind. eapply after_mono; [|exact Hp]. intros b [[]|e] Hb; [by apply after_ret|].
  apply after_call; [done|]. intros r. by apply after_ret.
Qed.
Lemma persist_any before temporary path : runs before (persist_temp_path temporary path) (fun _ _ => True).
Proof.
  apply after_bind, after_try, after_ask; [done|]. intros [[]|e]; cbn [map_err].
  - apply after_ask; [done|]. intros [[]|e]; cbn [map_err]; [by apply after_ret|].
    apply after_call; [done|]. intros r. by apply after_ret.
  - apply after_call; [done|]. intros r. by apply after_ret.
Qed.

(** The commit under the lock, whatever is still to be dropped. *)
Lemma commit_locked_made before temporary checksum size :
  pin_allows image_ checksum ->
  runs before (commit_download_locked self image_ temporary checksum size) (fun b answer => made_current b (fst answer)).
Proof.
  intros Hp. apply after_call; [done|]. intros [[]|e]; [| |by apply after_ret].
  - apply after_call; [done|]. intros [m|[|msg]].
    1,3: apply after_call; [done|]; intros r; apply after_ret; destruct r as [[]|e]; [|done]; intros _; exists checksum; set_solver.
    apply after_bind, after_try. eapply after_mono; [|apply persist_any]. intros b [[]|e] _; [|by apply after_ret].
    eapply after_mono; [|apply on_error_made, set_current_made, Hp]. intros b' r Hr. by apply after_ret.
  - apply after_bind, after_try. eapply after_mono; [|apply persist_any]. intros b [[]|e] _; [|by apply after_ret].
    eapply after_mono; [|apply on_error_made].
    { intros b' r Hr. by apply after_ret. }
    apply after_try, after_get; [done|]. intros now. apply after_try, after_ask; [done|].
    intros [[]|e]; cbn [map_err]; [by apply set_current_made|done].
Qed.

Lemma made_current_snoc tr e r : made_current tr r -> made_current (tr ++ [e]) r.
Proof. intros H Hr. destruct (H Hr) as [c Hc]. exists c. set_solver. Qed.

Lemma commit_download_made before temporary checksum size :
  pin_allows image_ checksum -> runs before (commit_download self image_ temporary checksum size) made_current.
Proof.
  intros Hp. apply after_call; [done|]. intros [[]|[context source]].
  - apply after_bind. eapply after_mono; [|by apply commit_locked_made]. intros b [r dropped] Hr.
    apply after_call; [done|]. intros u. apply (made_current_snoc _ (mkEvent (IUnlock LOCK_FILE_NAME) u)) in Hr.
    destruct dropped as [path|]; cbn [snd fst]; [|by apply after_ret].
    apply after_call; [done|]. intros u'. apply after_ret. by apply made_current_snoc.
  - apply after_call; [done|]. intros r. by apply after_ret.
Qed.
End Pins.

(** The pin decides, and success means current.  Whatever is answered, a
    fetch of a disk image inserts or makes current, for that image only, a
    version whose checksum is the pinned one (any, where the image has no
    pin), at the path that is the checksum's, and touches no other row; when
    it reports success it has made a version current. *)
Theorem fetch_respects_pin (digest : list Z -> string) (url_error : string -> option string) (self : ImageStore)
    (image_ : Image) :
  always (fetch_qcow2 digest url_error self image_) (fun tr r =>
    allowed (pin_may self image_) [] tr /\ made_current image_ tr r).
Proof.
  assert (Hw : forall url path stream hashed size before,
    after (pin_may self image_) before (write_stream url path stream hashed size) (fun _ _ => True)).
  { intros url path stream. induction stream as [|[chunk|e] stream IH]; intros hashed size before; cbn [write_stream];
      [by apply after_ret| |by apply after_ret].
    apply after_try, after_ask; [done|]. intros [[]|e]; cbn [map_err]; [|done]. destruct (u64_max <? _); [by apply after_ret|apply IH]. }
  change (after (pin_may self image_) [] (fetch_qcow2 digest url_error self image_) (made_current image_)).
  unfold fetch_qcow2. apply after_try, after_ret. destruct (url_error _); [done|].
  apply after_try, after_ask; [done|]. intros [[status stream]|e]; cbn [map_err fst snd]; [|done].
  destruct (negb _); [by apply after_ret|].
  apply after_try, after_ask; [done|]. intros [temporary|e]; cbn [map_err]; [|done].
  apply after_try. unfold on_error at 1. apply after_bind, after_try. eapply after_mono; [|apply Hw].
  intros b [[bytes n]|e] _.
  2: { apply after_call; [done|]. intros r. by apply after_ret. }
  apply after_try, after_ask; [done|]. intros [[]|e]; cbn [map_err].
  2: { apply after_call; [done|]. intros r. by apply after_ret. }
  apply after_try, after_ret. cbn [fst snd]. destruct (check_pin image_ (digest bytes)) as [[]|e] eqn:Hpin.
  2: { apply after_call; [done|]. intros r. by apply after_ret. }
  apply after_ret, after_ret. by apply commit_download_made, check_pin_allows.
Qed.
