(* ===== verification/Config.v ===== *)
(** * Config: the operator configuration, [crates/config/src/lib.rs]

    The file as TOML gives it ([RawConfig], every key optional), the defaults,
    and what [Config::validate] refuses.  Reading the file and TOML itself are
    outside. *)

From Stdlib Require Import ZArith Lia Ascii.
From S2P Require Import Prelude Text Float64 Duration Ipv4 Ip Network Machine Netstate ImageStore.
Open Scope Z_scope.

Inductive TlsMode : Type := TlsAcme | TlsOff.

Record RunnerSettings : Type := mkRunnerSettings { rn_listen : string; rn_fence_db : string; rn_max_clock_skew : Z }.
Record RunnerEntry : Type := mkRunnerEntry { re_name : string; re_endpoint : string; re_underlay : option Z }.
Record Listen : Type := mkListen {
  ln_http : string; ln_https : string; ln_ssh : string; ln_proxy_port_min : Z; ln_proxy_port_max : Z; ln_tls : TlsMode
}.
Record Defaults : Type := mkDefaults { dl_image : option string; dl_vcpu : Z; dl_memory_mib : Z; dl_disk_gib : Z }.
Record Bootc : Type := mkBootc {
  bc_builder_image : option string; bc_rootfs : string; bc_container_storage : string; bc_build_timeout : Z
}.
Record Acme : Type := mkAcme { ac_email : string; ac_cloudflare_token : string; ac_directory : string }.
Record Oidc : Type := mkOidc {
  od_issuer : option string; od_client_id : string; od_client_secret : string; od_allow_signup : bool
}.
Inductive ImageSource : Type := SourceUrl (value : string) | SourceOci (value : string).
Record ImageEntry : Type := mkImageEntry { ie_name : string; ie_source : ImageSource; ie_pinned_checksum : option string }.

Record Config : Type := mkConfig {
  c_base_domain : string; c_instance_domain : string; c_reserved_names : list string; c_libvirt_uri : string;
  c_image_dir : string; c_storage_dir : string; c_db_path : string; c_overcommit_ratio : f64; c_name_cooldown : Z;
  c_restore_batch_size : Z; c_private_range : Ipv4Prefix; c_key_dir : string; c_dns : list IpAddr;
  c_operators : list string; c_listen : Listen; c_defaults : Defaults; c_acme : Acme; c_oidc : Oidc; c_bootc : Bootc;
  c_runner : RunnerSettings; c_runners : list RunnerEntry; c_images : list ImageEntry
}.

(** ** Image entries *)

Definition reference (s : ImageSource) : string := match s with SourceUrl value | SourceOci value => value end.
Definition is_oci (s : ImageSource) : bool := match s with SourceOci _ => true | SourceUrl _ => false end.

Record RawImageEntry : Type := mkRawImage {
  ri_name : string; ri_url : option string; ri_oci : option string; ri_pinned_checksum : option string
}.
(** [TryFrom<RawImageEntry> for ImageEntry]. *)
Definition try_from_raw (raw : RawImageEntry) : result string ImageEntry :=
  if bool_decide (ri_name raw = EmptyString) then Err "images: entry with empty name"
  else
    source ← (match ri_url raw, ri_oci raw with
              | Some (String _ _ as url), None => Ok (SourceUrl url)
              | None, Some (String _ _ as oci) => Ok (SourceOci oci)
              | _, _ => Err ("images: entry " +:+ debug (ri_name raw) +:+ " must set exactly one of url or oci, non-empty")
              end);
    if is_oci source && bool_decide (is_Some (ri_pinned_checksum raw)) then
      Err ("images: OCI entry " +:+ debug (ri_name raw) +:+
           " cannot set pinned_checksum; pin the OCI reference digest instead")
    else Ok (mkImageEntry (ri_name raw) source (ri_pinned_checksum raw)).

(** ** Defaults *)

Definition Bootc_default : Bootc := mkBootc None "ext4" "/var/lib/containers/storage" (30 * 60 * nanos_per_sec).
Definition Oidc_default : Oidc := mkOidc None EmptyString EmptyString true.
Definition Acme_default : Acme := mkAcme EmptyString EmptyString EmptyString.
Definition Runner_default : RunnerSettings := mkRunnerSettings "127.0.0.1:10443" "/var/lib/bento/runner.db" (60 * nanos_per_sec).
Definition Listen_default : Listen := mkListen "127.0.0.1:10080" ":443" ":22" 3000 9999 TlsAcme.
Definition Defaults_default : Defaults := mkDefaults None 2 2048 20.
Definition Config_default : Config :=
  mkConfig EmptyString EmptyString ["www"; "bento"] "qemu:///system" "/var/lib/bento/images" "/var/lib/bento/storage"
    "/var/lib/bento/bento.db" (of_int 1) (24 * 3600 * nanos_per_sec) 4 (mkPrefix (addr_of_octets 10 100 0 0) 16)
    "/var/lib/bento/keys" [V4 (addr_of_octets 1 1 1 1); V4 (addr_of_octets 9 9 9 9)] [] Listen_default Defaults_default
    Acme_default Oidc_default Bootc_default Runner_default [] [].

(** The file as written. *)
Record RawConfig : Type := mkRaw {
  w_base_domain : option string; w_instance_domain : option string; w_reserved_names : option (list string);
  w_libvirt_uri : option string; w_image_dir : option string; w_storage_dir : option string; w_db_path : option string;
  w_overcommit_ratio : option f64; w_name_cooldown : option Z; w_restore_batch_size : option Z;
  w_private_range : option Ipv4Prefix; w_key_dir : option string; w_dns : option (list IpAddr);
  w_operators : option (list string); w_listen : option Listen; w_defaults : option Defaults; w_acme : option Acme;
  w_oidc : option Oidc; w_bootc : option Bootc; w_runner : option RunnerSettings; w_runners : option (list RunnerEntry);
  w_images : option (list ImageEntry)
}.
(** [RawConfig::resolve]. *)
Definition resolve (raw : RawConfig) : Config :=
  let d := Config_default in
  let base_domain := default (c_base_domain d) (w_base_domain raw) in
  mkConfig base_domain (default base_domain (w_instance_domain raw)) (default (c_reserved_names d) (w_reserved_names raw))
    (default (c_libvirt_uri d) (w_libvirt_uri raw)) (default (c_image_dir d) (w_image_dir raw))
    (default (c_storage_dir d) (w_storage_dir raw)) (default (c_db_path d) (w_db_path raw))
    (default (c_overcommit_ratio d) (w_overcommit_ratio raw)) (default (c_name_cooldown d) (w_name_cooldown raw))
    (default (c_restore_batch_size d) (w_restore_batch_size raw)) (default (c_private_range d) (w_private_range raw))
    (default (c_key_dir d) (w_key_dir raw)) (default (c_dns d) (w_dns raw)) (default (c_operators d) (w_operators raw))
    (default (c_listen d) (w_listen raw)) (default (c_defaults d) (w_defaults raw)) (default (c_acme d) (w_acme raw))
    (default (c_oidc d) (w_oidc raw)) (default (c_bootc d) (w_bootc raw)) (default (c_runner d) (w_runner raw))
    (default (c_runners d) (w_runners raw)) (default (c_images d) (w_images raw)).

(** ** What the settings say *)

(** [Config::reserved]. *)
Definition reserved (cfg : Config) : list string :=
  let names := c_reserved_names cfg in
  match strip_suffix ("." +:+ c_instance_domain cfg) (c_base_domain cfg) with
  | Some label =>
      if negb (bool_decide (label = EmptyString)) && negb (contains_char "." label) && negb (bool_decide (label ∈ names))
      then names ++ [label] else names
  | None => names
  end.
(** [Config::is_operator] and [Config::default_image]. *)
Definition is_operator (cfg : Config) (name : string) : bool := existsb (fun op => bool_decide (op = name)) (c_operators cfg).
Definition default_image (cfg : Config) : option string :=
  match dl_image (c_defaults cfg) with
  | Some image => Some image
  | None => ie_name <$> head (c_images cfg)
  end.

(** [RunnerEntry::underlay_address]. *)
Definition entry_underlay (e : RunnerEntry) : result string Z :=
  match re_underlay e with
  | Some underlay => Ok underlay
  | None =>
      match endpoint_host (re_endpoint e) with
      | None => Err ("endpoint " +:+ debug (re_endpoint e) +:+ " has no host part")
      | Some host =>
          match parse_addr host with
          | Some address => Ok address
          | None => Err ("endpoint host " +:+ debug host +:+ " is not an IPv4 address; set `underlay` for runner " +:+ debug (re_name e))
          end
      end
  end.

(** [listen_port] and [resolve_listen_addr]. *)
Definition listen_port (address : string) : option Z := '(_, port) ← rsplit_once ":" address; parse_uint 65535 port.
Definition resolve_listen_addr (address : string) : result string SocketAddr :=
  let with_host := match strip_prefix ":" address with Some port => "0.0.0.0:" +:+ port | None => address end in
  ok_or (parse_socket with_host) (debug address +:+ " is not a listen address").

(** [pinned_oci_reference]. *)
Definition pinned_oci_reference (reference : string) : bool :=
  match rsplit_once_text "@sha256:" reference with
  | Some (name, digest) => negb (bool_decide (name = EmptyString)) && is_sha256 digest
  | None => false
  end.

(** ** Validation *)

Definition WILDCARD : string :=
  "runner listen must bind one underlay address, not a wildcard; a wildcard exposes the management port on user bridges (MULTI-NODE 11.1)".
(** [validate_runner_listen]. *)
Definition validate_runner_listen (listen : string) : result string unit :=
  if bool_decide (listen = EmptyString) || starts_with ":" listen ||
     bool_decide (listen = "0.0.0.0") || bool_decide (listen = "::") then Err WILDCARD
  else
    match parse_socket listen with
    | None =>
        match parse_ip listen with
        | Some _ => Err "runner listen must include a port"
        | None => Err ("runner listen " +:+ debug listen +:+ " is not an IP address with a port")
        end
    | Some address => refuse_if (is_unspecified (sa_ip address)) WILDCARD
    end.

(** The body of the loop over [runners]. *)
Definition inside_message (cfg : Config) (e : RunnerEntry) (what : string) (address : Z) : string :=
  "runner " +:+ debug (re_name e) +:+ " " +:+ what +:+ " " +:+ addr_to_string address +:+ " is inside private_range " +:+
  prefix_to_string (c_private_range cfg) +:+
  "; management and next-hop addresses must sit outside the guest range or their own routes become recursive".
Definition validate_runner (cfg : Config) (e : RunnerEntry) : result string unit :=
  underlay ← map_err (fun error => "runner " +:+ debug (re_name e) +:+ ": " +:+ error) (entry_underlay e);
  let endpoint := host ← endpoint_host (re_endpoint e); parse_addr host in
  _ ← refuse_if (contains (c_private_range cfg) underlay) (inside_message cfg e "underlay" underlay);
  match endpoint with
  | Some address => refuse_if (contains (c_private_range cfg) address) (inside_message cfg e "endpoint" address)
  | None => Ok tt
  end.
Fixpoint validate_runners (cfg : Config) (entries : list RunnerEntry) : result string unit :=
  match entries with [] => Ok tt | e :: entries => _ ← validate_runner cfg e; validate_runners cfg entries end.

(** The loop over [images], with the names seen. *)
Fixpoint validate_names (seen : list string) (entries : list ImageEntry) : result string unit :=
  match entries with
  | [] => Ok tt
  | e :: entries =>
      _ ← refuse_if (bool_decide (ie_name e ∈ seen)) ("images: duplicate entry " +:+ debug (ie_name e));
      validate_names (ie_name e :: seen) entries
  end.

Definition bad_domain (value : string) : bool := contains_char "*" value || contains_char "/" value || contains_char " " value.
Definition validate_domain (field value : string) : result string unit :=
  refuse_if (bad_domain value) (field +:+ " must be a domain, got " +:+ debug value).

(** The checks on the listen addresses and the proxy's ports. *)
Definition validate_listen (l : Listen) : result string unit :=
  let range := dec (ln_proxy_port_min l) +:+ "-" +:+ dec (ln_proxy_port_max l) in
  _ ← refuse_if (ln_proxy_port_min l =? 0) "proxy_port_min must be at least 1";
  _ ← map_err (fun e => "listen http: " +:+ e) (resolve_listen_addr (ln_http l));
  _ ← map_err (fun e => "listen ssh: " +:+ e) (resolve_listen_addr (ln_ssh l));
  _ ← refuse_if (ln_proxy_port_max l <? ln_proxy_port_min l)
        ("proxy_port_min " +:+ dec (ln_proxy_port_min l) +:+ " exceeds proxy_port_max " +:+ dec (ln_proxy_port_max l));
  match listen_port (ln_http l) with
  | Some port =>
      refuse_if ((ln_proxy_port_min l <=? port) && (port <=? ln_proxy_port_max l))
        ("listen http port " +:+ dec port +:+ " falls inside the proxy port range " +:+ range +:+
         "; the proxy binds every port of that range, so one of the two processes could not start")
  | None => Ok tt
  end.

(** The checks on what a new instance and a bootc build get. *)
Definition validate_bootc (b : Bootc) : result string unit :=
  _ ← refuse_if (negb (existsb (fun fs => bool_decide (bc_rootfs b = fs)) ["ext4"; "xfs"; "btrfs"]))
        "bootc: rootfs must be one of ext4, xfs, or btrfs";
  _ ← refuse_if (bool_decide (bc_container_storage b = EmptyString)) "bootc: container_storage is required";
  refuse_if (bc_build_timeout b =? 0) "bootc: build_timeout must be positive".
Definition validate_builder (cfg : Config) : result string unit :=
  let has_oci := existsb (fun image => is_oci (ie_source image)) (c_images cfg) in
  match bc_builder_image (c_bootc cfg) with
  | None => refuse_if has_oci "bootc: builder_image pinned by sha256 digest is required for OCI images"
  | Some builder => refuse_if (negb (pinned_oci_reference builder))
      "bootc: builder_image must use an immutable @sha256:<64 hex> digest"
  end.

(** [Config::validate]; [show_f64] is the [Display] of a float. *)
Definition validate (show_f64 : f64 -> string) (cfg : Config) : result string unit :=
  let l := c_defaults cfg in
  _ ← refuse_if (bool_decide (c_base_domain cfg = EmptyString)) "base_domain is required";
  _ ← refuse_if (bool_decide (c_instance_domain cfg = EmptyString)) "instance_domain must not be empty";
  _ ← refuse_if (bool_decide (c_dns cfg = [])) "dns must list at least one resolver; omit the key for the default pair";
  _ ← validate_domain "base_domain" (c_base_domain cfg);
  _ ← validate_domain "instance_domain" (c_instance_domain cfg);
  _ ← refuse_if (flt (c_overcommit_ratio cfg) (of_int 1))
        ("overcommit_ratio must be at least 1.0, got " +:+ show_f64 (c_overcommit_ratio cfg));
  _ ← refuse_if (c_restore_batch_size cfg <? 1)
        ("restore_batch_size must be at least 1, got " +:+ dec (c_restore_batch_size cfg));
  _ ← validate_runner_listen (rn_listen (c_runner cfg));
  _ ← refuse_if (rn_max_clock_skew (c_runner cfg) =? 0) "runner: max_clock_skew must be positive";
  _ ← refuse_if (24 <? bits (c_private_range cfg))
        ("private_range must be /24 or wider to hold user /24s, got /" +:+ dec (bits (c_private_range cfg)));
  _ ← validate_runners cfg (c_runners cfg);
  _ ← validate_listen (c_listen cfg);
  _ ← refuse_if ((dl_vcpu l <? 1) || (dl_memory_mib l <? 1) || (dl_disk_gib l <? 1))
        "defaults: vcpu, memory_mib, and disk_gib must be positive";
  _ ← validate_bootc (c_bootc cfg);
  _ ← validate_names [] (c_images cfg);
  validate_builder cfg.

(** [Config::parse], from what TOML gives. *)
Definition parse_config (show_f64 : f64 -> string) (raw : RawConfig) : result string Config :=
  let cfg := resolve raw in
  _ ← validate show_f64 cfg;
  Ok cfg.

(** ** Listen addresses *)

Lemma digits_implode digits : Forall (fun c => is_Some (digit_in 10 c)) digits ->
  str_all is_ascii_digit (implode digits) = true.
Proof. induction 1 as [|c l Hc Hl IH]; [done|]. simpl. rewrite IH, andb_true_r. by apply digit_in_10. Qed.

Lemma parse_uint_digits max digits : digits <> [] -> Forall (fun c => is_Some (digit_in 10 c)) digits ->
  horner 10 digits 0 <= max -> parse_uint max (implode digits) = Some (horner 10 digits 0).
Proof.
  intros Hne Hd Hm. unfold parse_uint. assert (Hs : str_all is_ascii_digit (implode digits) = true) by (by apply digits_implode).
  replace (default (implode digits) (strip_prefix "+" (implode digits))) with (implode digits).
  - rewrite parse_digits_horner; [|done|by destruct digits]. rewrite chars_implode. by rewrite (proj2 (Z.leb_le _ _)).
  - destruct digits as [|c l]; [done|]. apply andb_prop in Hs as [Hc _].
    destruct c as [[] [] [] [] [] [] [] []]; try done; by vm_compute in Hc.
Qed.

Lemma rsplit_once_free c before after : free c after -> rsplit_once c (before +:+ String c after) = Some (before, after).
Proof.
  intros Hf. unfold rsplit_once. rewrite string_rev_append, string_rev_cons, string_app_assoc.
  change (String c EmptyString +:+ string_rev before) with (String c (string_rev before)).
  rewrite split_once_app by (unfold free; by rewrite string_rev_all). by rewrite !string_rev_rev.
Qed.

(** The last separator lies after a part without one. *)
Lemma split_after_free (c : ascii) (p before rest after : list ascii) :
  c ∉ p -> p ++ c :: rest = before ++ c :: after -> exists k, c :: rest = k ++ c :: after.
Proof.
  intros Hp H. apply app_eq_app in H as (k & [[-> Hk]|[-> Hk]]); [|by exists k].
  destruct k as [|a k]; [by exists []|]. injection Hk as <- _. set_solver.
Qed.

(** The port the check reads is the port the server binds. *)
Lemma listen_port_bound address sa : resolve_listen_addr address = Ok sa -> listen_port address = Some (sa_port sa).
Proof.
  unfold resolve_listen_addr, listen_port. intros H. result_inv.
  apply parse_socket_port in H as (host & digits & Hc & Hne & Hp & Hm & Hd).
  assert (Hsplit : exists before, chars address = before ++ ":"%char :: digits).
  { destruct (strip_prefix ":" address) as [port|] eqn:Hs; [|by eexists].
    apply strip_prefix_Some in Hs as ->. apply (split_after_free ":" (chars "0.0.0.0") host (chars port)); [|done].
    by apply (bool_decide_unpack _ ). }
  destruct Hsplit as [before Hb]. rewrite <-(implode_chars address), Hb, implode_app.
  change (implode (":"%char :: digits)) with (String ":" (implode digits)). rewrite rsplit_once_free.
  - cbn. rewrite parse_uint_digits; [by rewrite Hp|done..|lia].
  - apply digits_free; [by apply digits_implode|done].
Qed.

(** ** What a valid configuration promises *)

Lemma validate_runners_Ok cfg entries : validate_runners cfg entries = Ok tt ->
  Forall (fun e => exists underlay, entry_underlay e = Ok underlay /\ contains (c_private_range cfg) underlay = false) entries.
Proof.
  induction entries as [|e entries IH]; cbn [validate_runners]; [constructor|]. intros H. result_inv.
  constructor; [|by apply IH]. unfold validate_runner in Hv. result_inv. by exists v.
Qed.

Lemma validate_names_Ok seen entries : validate_names seen entries = Ok tt ->
  NoDup (ie_name <$> entries) /\ (forall name, name ∈ seen -> name ∉ ie_name <$> entries).
Proof.
  revert seen. induction entries as [|e entries IH]; intros seen; cbn [validate_names].
  - split; [constructor|set_solver].
  - intros H. result_inv. apply bool_decide_eq_false in Hv. apply IH in H as [Hn Hs].
    split; [constructor; [|done]|]; set_solver.
Qed.

(** Every [/24] the plan hands out lies inside the private range. *)
Lemma plan_inside p pl i subnet a : wf_prefix p -> is_u32 a -> Plan_from_prefix p = Ok pl -> plan_subnet pl i = Ok subnet ->
  contains subnet a = true -> contains p a = true.
Proof.
  intros Hp Ha Hpl Hs Hc. pose proof (Plan_from_prefix_Ok p pl Hp Hpl) as [Hwf Hb].
  pose proof (plan_span pl Hwf) as Hsp. pose proof (plan_top pl Hwf) as [Hpos Htop].
  apply plan_subnet_Ok in Hs as [Hi ->]; [|done]. rewrite Hb in Hsp.
  assert (Ho : addr (plan_prefix pl) = addr p / span (bits p) * span (bits p)).
  { unfold Plan_from_prefix in Hpl. destruct (24 <? bits p); [done|]. injection Hpl as <-. by apply masked_addr. }
  destruct Hwf as (Hau & _). apply contains_slash_24 in Hc; [|int_lia|done]. apply contains_spec; [done..|].
  set (q := addr p / span (bits p)) in *. symmetry. apply (Z.div_unique _ _ _ (a - q * span (bits p))); [|lia]. left.
  rewrite Ho, Hsp in Hc. rewrite Hsp. pose proof (Z.div_mod a 256). pose proof (Z.mod_pos_bound a 256).
  replace (q * (plan_subnets pl * 256) + i * 256) with ((q * plan_subnets pl + i) * 256) in Hc by lia.
  rewrite Z.div_mul in Hc by done. nia.
Qed.

Definition fit_listen (l : Listen) : Prop :=
  exists http ssh, resolve_listen_addr (ln_http l) = Ok http /\ resolve_listen_addr (ln_ssh l) = Ok ssh /\
    1 <= ln_proxy_port_min l <= ln_proxy_port_max l /\
    ~ (ln_proxy_port_min l <= sa_port http <= ln_proxy_port_max l).

Lemma validate_listen_Ok l : 0 <= ln_proxy_port_min l -> validate_listen l = Ok tt -> fit_listen l.
Proof.
  intros Hu H. unfold validate_listen in H. result_inv. exists v0, v1.
  rewrite (listen_port_bound _ _ Hv0) in H. result_inv. split_and!; [done|done|lia..].
Qed.

Lemma validate_runner_listen_Ok listen : validate_runner_listen listen = Ok tt ->
  exists sa, parse_socket listen = Some sa /\ is_unspecified (sa_ip sa) = false.
Proof.
  unfold validate_runner_listen. destruct (_ || _); [done|]. destruct (parse_socket listen) as [sa|].
  - intros H. result_inv. by exists sa.
  - by destruct (parse_ip listen).
Qed.

Lemma validate_builder_Ok cfg e : validate_builder cfg = Ok tt -> e ∈ c_images cfg -> is_oci (ie_source e) = true ->
  exists builder, bc_builder_image (c_bootc cfg) = Some builder /\ pinned_oci_reference builder = true.
Proof.
  unfold validate_builder. destruct (bc_builder_image (c_bootc cfg)) as [b|]; intros H He Ho; result_inv.
  - exists b. by destruct (pinned_oci_reference b).
  - apply not_true_iff_false in H as []. apply existsb_exists. exists e. by rewrite <-list_elem_of_In.
Qed.

(** A configuration the file parser accepts can be run.  The control
    plane's HTTP listener and the SSH listener bind, and the HTTP port lies
    outside the range whose every port the proxy binds.  The runner's
    listener is one address, never a wildcard.  The subnet plan of the
    private range exists, and no subnet it hands to a user contains the
    underlay address of a runner, so that no route to a runner goes through
    that runner.  Image names are distinct, an OCI image comes with a builder
    pinned by digest, and the memory ratio is at least one or not a number. *)
Theorem valid_config show_f64 raw cfg :
  parse_config show_f64 raw = Ok cfg -> wf_prefix (c_private_range cfg) -> 0 <= ln_proxy_port_min (c_listen cfg) ->
  cfg = resolve raw /\ fit_listen (c_listen cfg) /\
  (exists sa, parse_socket (rn_listen (c_runner cfg)) = Some sa /\ is_unspecified (sa_ip sa) = false) /\
  (exists pl, Plan_from_prefix (c_private_range cfg) = Ok pl /\
    forall e i subnet underlay, e ∈ c_runners cfg -> plan_subnet pl i = Ok subnet -> entry_underlay e = Ok underlay ->
      is_u32 underlay -> contains subnet underlay = false) /\
  Forall (fun e => exists underlay, entry_underlay e = Ok underlay) (c_runners cfg) /\
  NoDup (ie_name <$> c_images cfg) /\
  (forall e, e ∈ c_images cfg -> is_oci (ie_source e) = true ->
    exists builder, bc_builder_image (c_bootc cfg) = Some builder /\ pinned_oci_reference builder = true) /\
  flt (c_overcommit_ratio cfg) (of_int 1) = false.
Proof.
  unfold parse_config. intros H Hp Hm. result_inv. subst cfg. unfold validate in Hv. result_inv.
  apply validate_runners_Ok in Hv10. split_and!.
  - done.
  - by apply validate_listen_Ok.
  - by apply validate_runner_listen_Ok.
  - unfold Plan_from_prefix at 1. rewrite Hv9. eexists. split; [done|]. intros e i subnet underlay He Hs Hu Ha.
    rewrite Forall_forall in Hv10. destruct (Hv10 e He) as (u & Hu' & Hc). rewrite Hu in Hu'. injection Hu' as <-.
    apply not_true_iff_false. intros Hin. apply not_true_iff_false in Hc as [].
    eapply plan_inside; [done|done| |done|done]. unfold Plan_from_prefix. by rewrite Hv9.
  - eapply Forall_impl; [exact Hv10|]. intros e (u & Hu & _). by exists u.
  - by apply (validate_names_Ok []).
  - intros e He Ho. by eapply validate_builder_Ok.
  - done.
Qed.

(** A deployment of two machines, one of them named by its endpoint. *)
Definition home_raw : RawConfig :=
  mkRaw (Some "bento.example.com") (Some "example.com") None None None None None (Some (of_int 2)) None None None None None
    (Some ["ada"]) None None None None None None
    (Some [mkRunnerEntry "attic" "https://192.0.2.7:10443" None; mkRunnerEntry "cellar" "cellar.lan:10443" (Some (addr_of_octets 192 0 2 8))])
    (Some [mkImageEntry "debian" (SourceUrl "https://images.example.com/debian.qcow2") None]).
Lemma valid_config_witness : exists cfg, parse_config (fun _ => "2") home_raw = Ok cfg /\ fit_listen (c_listen cfg) /\
  reserved cfg = ["www"; "bento"].
Proof.
  eexists. split; [vm_compute; reflexivity|]. split; [|vm_compute; reflexivity].
  refine (proj1 (proj2 (valid_config (fun _ => "2") home_raw _ _ _ _))).
  - vm_compute; reflexivity.
  - split; vm_compute; split; discriminate.
  - vm_compute; discriminate.
Defined.
