(* ===== verification/Cli.v ===== *)
(** * Cli: the command line behind the SSH frontend, [crates/cli]

    One program per command over the store, the lifecycle and the session's
    streams.  What a command prints is a call with the text; a failed write is
    ignored, as in the code.  The public key format is a parameter. *)

From Stdlib Require Import ZArith Lia Ascii.
From S2P Require Import Prelude Text Types Db Fence Prog Pool Lifecycle.
Open Scope Z_scope.

(** ** Arguments: [parse.rs] *)

Definition reserved_name_message (name : string) : string := "the name " +:+ debug name +:+ " is reserved".

Definition validate_name (name : string) (reserved : list string) : result string unit :=
  if bool_decide (name = EmptyString) || (63 <? str_len name) then Err "an instance name has 1 to 63 characters"
  else if negb (valid_name name) then Err "an instance name uses lowercase letters, digits, and inner hyphens"
  else if is_reserved name reserved then Err (reserved_name_message name)
  else Ok tt.

(** [value[..split]] and [value[split..]] at the end of the last digit. *)
Fixpoint split_last_digit (s : string) : option (string * string) :=
  match s with
  | EmptyString => None
  | String c s' =>
      match split_last_digit s' with
      | Some (before, after) => Some (String c before, after)
      | None => if is_ascii_digit c then Some (String c EmptyString, s') else None
      end
  end.
Definition split_size (value : string) : option (Z * string) :=
  let value := to_ascii_uppercase (trim_white value) in
  let '(before, after) := default (EmptyString, value) (split_last_digit value) in
  number ← parse_uint u64_max before;
  if number =? 0 then None else Some (number, trim_white after).

Definition parse_memory_mib (value : string) : result string Z :=
  '(number, unit) ← ok_or (split_size value) ("invalid memory size " +:+ debug value);
  if existsb (fun u => bool_decide (u = unit)) [EmptyString; "M"; "MB"; "MIB"] then Ok number
  else if existsb (fun u => bool_decide (u = unit)) ["G"; "GB"; "GIB"] then
    (if number * 1024 <=? u64_max then Ok (number * 1024) else Err ("invalid memory size " +:+ debug value))
  else Err ("invalid memory unit in " +:+ debug value +:+ " (use MiB or GiB)").
Definition parse_disk_gib (value : string) : result string Z :=
  '(number, unit) ← ok_or (split_size value) ("invalid disk size " +:+ debug value);
  if existsb (fun u => bool_decide (u = unit)) [EmptyString; "G"; "GB"; "GIB"] then Ok number
  else Err ("invalid disk unit in " +:+ debug value +:+ " (use GiB)").

Definition format_cooldown (duration : Z) : string :=
  if duration <? 60 * nanos_per_sec then "less than a minute"
  else
    let minutes := (duration / nanos_per_sec + 59) / 60 in
    let '(hours, minutes) := (minutes / 60, minutes mod 60) in
    if hours =? 0 then dec minutes +:+ "m"
    else if minutes =? 0 then dec hours +:+ "h"
    else dec hours +:+ "h" +:+ dec minutes +:+ "m".

Definition ago (now : Z) (then_ : option Z) : string :=
  match then_ with
  | None => "never"
  | Some then_ =>
      let seconds := whole_seconds (now - then_) in
      if seconds <? 60 then "just now"
      else if seconds <? 3600 then dec (seconds / 60) +:+ "m ago"
      else if seconds <? 86400 then dec (seconds / 3600) +:+ "h ago"
      else dec (seconds / 86400) +:+ "d ago"
  end.

Record Flags : Type := mkFlags {
  fg_positionals : list string; fg_values : gmap string string; fg_booleans : gmap string bool
}.
Definition Flags_default : Flags := mkFlags [] ∅ ∅.

Definition is_one_of (name : string) (flags : list string) : bool := existsb (fun f => bool_decide (f = name)) flags.
(** The loop of [parse_flags]. *)
Fixpoint parse_loop (value_flags bool_flags : list string) (parsed : Flags) (args : list string) : result string Flags :=
  match args with
  | [] => Ok parsed
  | argument :: rest =>
      if bool_decide (argument = "--") then Ok (mkFlags (fg_positionals parsed ++ rest) (fg_values parsed) (fg_booleans parsed))
      else if negb (starts_with "-" argument) || bool_decide (argument = "-") then
        Ok (mkFlags (fg_positionals parsed ++ argument :: rest) (fg_values parsed) (fg_booleans parsed))
      else
        let raw := trim_start_matches (fun c => Ascii.eqb c "-") argument in
        let '(name, inline) := match split_once "=" raw with Some (n, v) => (n, Some v) | None => (raw, None) end in
        if is_one_of name bool_flags then
          let set value := mkFlags (fg_positionals parsed) (fg_values parsed) (<[name := value]> (fg_booleans parsed)) in
          match inline with
          | None => parse_loop value_flags bool_flags (set true) rest
          | Some value =>
              if bool_decide (value = "true") then parse_loop value_flags bool_flags (set true) rest
              else if bool_decide (value = "false") then parse_loop value_flags bool_flags (set false) rest
              else Err ("invalid value " +:+ debug value +:+ " for flag -" +:+ name)
          end
        else if is_one_of name value_flags then
          let set value := mkFlags (fg_positionals parsed) (<[name := value]> (fg_values parsed)) (fg_booleans parsed) in
          match inline, rest with
          | Some value, rest => parse_loop value_flags bool_flags (set value) rest
          | None, value :: rest => parse_loop value_flags bool_flags (set value) rest
          | None, [] => Err ("flag needs an argument: -" +:+ name)
          end
        else Err ("flag provided but not defined: -" +:+ name)
  end.
Definition parse_flags (args value_flags bool_flags : list string) : result string Flags :=
  parse_loop value_flags bool_flags Flags_default args.
(** [flags.booleans.get(name).copied().unwrap_or(false)]. *)
Definition flag_set (flags : Flags) (name : string) : bool := default false (fg_booleans flags !! name).

(** ** The seams: [backend.rs] *)

(** [BoxError]: what a downcast to the store's error finds, the text and the
    texts of the sources. *)
Record BoxError : Type := mkBox { be_store : option StoreError; be_text : string; be_sources : list string }.

Record CreateRequest : Type := mkCreate {
  cr_owner_id : Z; cr_name : string; cr_image : string; cr_vcpu : Z; cr_memory_mib : Z; cr_disk_gib : Z;
  cr_nested : bool; cr_ksm : bool
}.
Record ResizeRequest : Type := mkResize {
  cz_vcpu : option Z; cz_memory_mib : option Z; cz_disk_gib : option Z; cz_nested : option bool
}.

Inductive ccall : Type -> Type :=
  | CUserById (id : Z) : ccall (result BoxError User)
  | CUserByName (name : string) : ccall (result BoxError User)
  | CInstanceByName (name : string) : ccall (result BoxError Instance)
  | CInstancesByOwner (owner_id : Z) : ccall (result BoxError (list Instance))
  | CInstancesSharedWith (user_id : Z) : ccall (result BoxError (list Instance))
  | CInstances : ccall (result BoxError (list Instance))
  | CHasAccess (uuid : string) (user_id : Z) : ccall (result BoxError bool)
  | CAddShare (uuid : string) (user_id : Z) : ccall (result BoxError unit)
  | CRemoveShare (uuid : string) (user_id : Z) : ccall (result BoxError unit)
  | CSharesFor (uuid : string) : ccall (result BoxError (list Share))
  | CAddSshKey (user_id : Z) (public_key fingerprint comment : string) : ccall (result BoxError Z)
  | CSshKeysForUser (user_id : Z) : ccall (result BoxError (list SshKey))
  | CDeleteSshKey (user_id key_id : Z) : ccall (result BoxError unit)
  | CImages : ccall (result BoxError (list Image))
  | CAddOciImage (name reference : string) : ccall (result BoxError unit)
  | CCreate (request : CreateRequest) : ccall (result BoxError Instance)
  | CStart (i : Instance) : ccall (result BoxError unit)
  | CStop (i : Instance) : ccall (result BoxError StopResult)
  | CRestart (i : Instance) : ccall (result BoxError unit)
  | CRemove (i : Instance) : ccall (result BoxError unit)
  | CRename (i : Instance) (new_name : string) : ccall (result BoxError unit)
  | CCopy (source : Instance) (request : CreateRequest) : ccall (result BoxError Instance)
  | CResize (i : Instance) (request : ResizeRequest) : ccall (result BoxError unit)
  | CConsole (i : Instance) : ccall (result BoxError unit)
  | CSetHttpPort (i : Instance) (port : Z) : ccall (result BoxError unit)
  | CSetVisibility (i : Instance) (v : Visibility) : ccall (result BoxError unit)
  | COut (text : string) : ccall unit
  | CErr (text : string) : ccall unit
  | CReadLine : ccall string          (* [read_line], empty at the end or on an error *)
  | CReadInput : ccall (result BoxError string)   (* [read_to_string] of at most 64 KiB *)
  | CNow : ccall Z.

Definition C (A : Type) : Type := prog ccall A.
#[local] Instance C_ret : MRet C := prog_ret.
#[local] Instance C_bind : MBind C := prog_bind.

Record Options : Type := mkOptions {
  op_domain : string; op_instance_domain : string; op_reserved_names : list string; op_default_image : option string;
  op_default_vcpu : Z; op_default_memory_mib : Z; op_default_disk_gib : Z; op_name_cooldown : Z;
  op_is_operator : option (User -> bool)
}.
(** [Cli], without the seams; [cl_image_admin] is whether there is one. *)
Record Cli : Type := mkCli { cl_image_admin : bool; cl_options : Options }.

(** What the public key crate gives of an [authorized_keys] entry. *)
Record PublicKey : Type := mkPublicKey { pk_comment : string; pk_openssh : option string; pk_fingerprint : string }.

Definition NL : string := String (ascii_of_code 10) EmptyString.
Definition outln (text : string) : C unit := call (COut (text +:+ NL)).
Definition errln (text : string) : C unit := call (CErr (text +:+ NL)).

(** ** [Env] *)

Definition usage (message : string) : C Z := _ ← errln ("usage: " +:+ message); mret 2.
Definition fail (error : BoxError) : C Z :=
  let text :=
    match be_store error with
    | Some (NameCooldown name remaining) =>
        "bento: the name " +:+ debug name +:+ " was released by another user and is in cooldown; try again in " +:+
        format_cooldown remaining
    | Some (OverCapacity resource used requested limit) =>
        "bento: the host has no room: the " +:+ resource +:+ " limit is " +:+ dec limit +:+ ", " +:+ dec used +:+
        " provisioned, " +:+ dec requested +:+ " requested"
    | Some SshKeyTaken => "bento: that SSH key is already registered"
    | Some NameTaken => "bento: that name is taken by an existing instance"
    | _ => "bento: " +:+ error_chain (be_text error) (be_sources error)
    end in
  _ ← errln text; mret 1.
Definition fail_message (message : string) : C Z := fail (mkBox None message []).
Definition access_denied (name : string) : C unit := errln ("bento: no such instance or no access: " +:+ name).
Definition flag_error (error : string) : C Z := _ ← errln error; mret 2.
Definition is_not_found (error : BoxError) : bool := match be_store error with Some NotFound => true | _ => false end.

(** [confirm]. *)
Definition said_yes (line : string) : bool :=
  let answer := to_ascii_lowercase (trim_white line) in
  bool_decide (answer = "y") || bool_decide (answer = "yes").
Definition confirm (prompt : string) : C bool := _ ← call (COut prompt); line ← call CReadLine; mret (said_yes line).

(** [render_table]. *)
Fixpoint max_widths (widths : list nat) (row : list string) : list nat :=
  match row, widths with
  | cell :: row, w :: widths => Nat.max w (char_count cell) :: max_widths widths row
  | cell :: row, [] => char_count cell :: max_widths [] row
  | [], widths => widths
  end.
Fixpoint render_row (widths : list nat) (row : list string) : string :=
  match row, widths with
  | [cell], _ => cell
  | cell :: row, w :: widths => pad_right (w + 2) cell +:+ render_row widths row
  | cell :: row, [] => cell +:+ render_row [] row
  | [], _ => EmptyString
  end.
Definition render_table (rows_ : list (list string)) : C unit :=
  match rows_ with
  | [] => mret tt
  | _ =>
      let widths := foldl max_widths [] rows_ in
      call (COut (foldr (fun row text => render_row widths row +:+ NL +:+ text) EmptyString rows_))
  end.

Section Commands.
Context (self : Cli) (parse_entry : string -> option PublicKey) (date_text : Z -> string).
Variable user : User.
#[local] Abbreviation opts := (cl_options self).

(** [Cli::resolve] and [Cli::resolve_owned]. *)
Definition resolve (name : string) : C (option Instance) :=
  found ← call (CInstanceByName name);
  match found with
  | Err _ => _ ← access_denied name; mret None
  | Ok instance =>
      if i_owner_id instance =? u_id user then mret (Some instance)
      else
        access ← call (CHasAccess (i_uuid instance) (u_id user));
        match access with
        | Ok true => mret (Some instance)
        | Ok false => _ ← access_denied name; mret None
        | Err error => _ ← fail error; mret None
        end
  end.
Definition resolve_owned (name : string) : C (option Instance) :=
  found ← resolve name;
  match found with
  | None => mret None
  | Some instance =>
      if i_owner_id instance =? u_id user then mret (Some instance)
      else _ ← errln ("bento: only the owner of " +:+ name +:+ " may run this command"); mret None
  end.
(** [let Some(instance) = self.resolve(..).await else { return 1 }]. *)
Definition with_instance (resolved : C (option Instance)) (f : Instance -> C Z) : C Z :=
  found ← resolved; match found with Some instance => f instance | None => mret 1 end.
(** [if let Err(error) = c.await { return env.fail(error) }]. *)
Definition or_fail {A} (c : ccall (result BoxError A)) (f : A -> C Z) : C Z :=
  r ← call c; match r with Ok a => f a | Err error => fail error end.
Definition check_ok {A} (r : result string A) (f : A -> C Z) : C Z :=
  match r with Ok a => f a | Err error => fail_message error end.
Definition with_flags (r : result string Flags) (f : Flags -> C Z) : C Z :=
  match r with Ok flags => f flags | Err error => flag_error error end.

Definition ssh_host : string := if bool_decide (op_domain opts = EmptyString) then "bento" else op_domain opts.
Definition instance_url (name : string) : string := "https://" +:+ name +:+ "." +:+ op_instance_domain opts +:+ "/".

(** ** Lifecycle commands: [instance.rs] *)

(** [value.parse::<u32>()] of [--cpu], at least one. *)
Definition parse_cpu (value : string) (f : Z -> C Z) : C Z :=
  match parse_uint u32_max value with
  | None => flag_error ("invalid value " +:+ debug value +:+ " for flag -cpu")
  | Some cpu => f cpu
  end.
Definition at_least_one (cpu : Z) (f : C Z) : C Z := if cpu <? 1 then fail_message "--cpu must be at least 1" else f.
Definition optional {A} (value : option string) (parse : string -> result string A) (f : option A -> C Z) : C Z :=
  match value with Some value => check_ok (parse value) (fun a => f (Some a)) | None => f None end.

Definition create_with (name image : string) (flags : Flags) (vcpu : Z) : C Z :=
  optional (fg_values flags !! "memory") parse_memory_mib (fun memory =>
  optional (fg_values flags !! "disk") parse_disk_gib (fun disk =>
  or_fail (CCreate (mkCreate (u_id user) name image vcpu (default (op_default_memory_mib opts) memory)
             (default (op_default_disk_gib opts) disk) (flag_set flags "nested") (negb (flag_set flags "no-ksm"))))
    (fun instance =>
      _ ← outln ("created " +:+ i_name instance +:+ ": image " +:+ i_image_name instance +:+ ", " +:+ dec (i_vcpu instance) +:+
                 " vCPU, " +:+ dec (i_memory_mib instance) +:+ " MiB memory, " +:+ dec (i_disk_gib instance) +:+ " GiB disk");
      _ ← outln ("address " +:+ i_address instance);
      _ ← (if bool_decide (op_domain opts = EmptyString) then mret tt
           else outln ("connect with: ssh " +:+ i_name instance +:+ "@" +:+ op_domain opts));
      mret 0))).
Definition NEW_USAGE : string := "new <name> [--image --memory --cpu --disk --nested --no-ksm]".
(** [Cli::new_command]. *)
Definition new_command (args : list string) : C Z :=
  with_flags (parse_flags args ["image"; "memory"; "cpu"; "disk"] ["nested"; "no-ksm"]) (fun flags =>
  match fg_positionals flags with
  | [name] =>
      check_ok (validate_name name (op_reserved_names opts)) (fun _ =>
      match (match fg_values flags !! "image" with Some image => Some image | None => op_default_image opts end) with
      | None => usage "new: --image is required (no default image is configured)"
      | Some image =>
          let go cpu := at_least_one cpu (create_with name image flags cpu) in
          match fg_values flags !! "cpu" with
          | Some value => parse_cpu value go
          | None => go (op_default_vcpu opts)
          end
      end)
  | _ => usage NEW_USAGE
  end).

(** [Cli::rm]. *)
Definition rm (args : list string) : C Z :=
  with_flags (parse_flags args [] ["force"]) (fun flags =>
  match fg_positionals flags with
  | [name] =>
      with_instance (resolve_owned name) (fun instance =>
      sure ← (if flag_set flags "force" then mret true
              else confirm ("delete instance " +:+ debug (i_name instance) +:+ "? this destroys its disk. [y/N] "));
      if sure : bool then
        or_fail (CRemove instance) (fun _ => _ ← outln ("rm: deleted " +:+ i_name instance); mret 0)
      else _ ← errln "rm: aborted"; mret 1)
  | _ => usage "rm <name> [--force]"
  end).

(** [Cli::start], [Cli::stop], [Cli::restart]. *)
Definition start (args : list string) : C Z :=
  match args with
  | [name] =>
      with_instance (resolve name) (fun instance =>
      if bool_decide (i_state instance = Running) then
        _ ← outln ("start: " +:+ i_name instance +:+ " is already running"); mret 0
      else or_fail (CStart instance) (fun _ => _ ← outln ("start: " +:+ i_name instance +:+ " is starting"); mret 0))
  | _ => usage "start <name>"
  end.
Definition stop (args : list string) : C Z :=
  match args with
  | [name] =>
      with_instance (resolve name) (fun instance =>
      or_fail (CStop instance) (fun result =>
        _ ← outln ("stop: " +:+ i_name instance +:+
                   match result with
                   | Graceful => " shut down after the ACPI request"
                   | Forced => " ignored the ACPI request for 60s and was forced off"
                   | AlreadyStopped => " was already stopped"
                   end);
        mret 0))
  | _ => usage "stop <name>"
  end.
Definition restart (args : list string) : C Z :=
  match args with
  | [name] =>
      with_instance (resolve name) (fun instance =>
      or_fail (CRestart instance) (fun _ => _ ← outln ("restart: " +:+ i_name instance +:+ " is restarting"); mret 0))
  | _ => usage "restart <name>"
  end.

(** [Cli::rename]. *)
Definition rename_prompt (old_name new_name : string) : string :=
  "rename: " +:+ debug old_name +:+ " is public. Two things change:" +:+ NL +:+
  "  1. every existing link to " +:+ instance_url old_name +:+ " stops working; there is no redirect" +:+ NL +:+
  "  2. the SSH user name changes: ssh " +:+ old_name +:+ "@" +:+ ssh_host +:+ " becomes ssh " +:+ new_name +:+ "@" +:+
  ssh_host +:+ NL +:+ "rename " +:+ debug old_name +:+ " to " +:+ debug new_name +:+ "? [y/N] ".
Definition rename (args : list string) : C Z :=
  match args with
  | [old_name; new_name] =>
      with_instance (resolve_owned old_name) (fun instance =>
      check_ok (validate_name new_name (op_reserved_names opts)) (fun _ =>
      sure ← (if bool_decide (i_visibility instance = Public) then confirm (rename_prompt old_name new_name) else mret true);
      if sure : bool then
        or_fail (CRename instance new_name) (fun _ =>
          _ ← outln ("rename: " +:+ old_name +:+ " is now " +:+ new_name +:+ "; the name " +:+ debug old_name +:+ " enters a " +:+
                     format_cooldown (op_name_cooldown opts) +:+ " cooldown");
          mret 0)
      else _ ← errln "rename: aborted"; mret 1))
  | _ => usage "rename <old> <new>"
  end.

(** [Cli::copy]. *)
Definition copy (args : list string) : C Z :=
  match args with
  | [source_name; target] =>
      with_instance (resolve source_name) (fun source =>
      if negb (bool_decide (i_state source = Stopped)) then
        fail_message ("cp: the source " +:+ debug (i_name source) +:+ " must be stopped, its state is " +:+ as_str (i_state source))
      else
        check_ok (validate_name target (op_reserved_names opts)) (fun _ =>
        or_fail (CCopy source (mkCreate (u_id user) target (i_image_name source) (i_vcpu source) (i_memory_mib source)
                                 (i_disk_gib source) (i_nested source) (i_ksm source)))
          (fun instance =>
            _ ← outln ("cp: created " +:+ i_name instance +:+ " from " +:+ i_name source +:+ ", address " +:+ i_address instance);
            mret 0)))
  | _ => usage "cp <source> <target>"
  end.

(** [Cli::resize]. *)
Definition resize_cpu (value : option string) (f : option Z -> C Z) : C Z :=
  match value with
  | Some value => parse_cpu value (fun cpu => at_least_one cpu (f (Some cpu)))
  | None => f None
  end.
Definition resize_disk (i : Instance) (value : option string) (f : option Z -> C Z) : C Z :=
  optional value parse_disk_gib (fun disk =>
    match disk with
    | Some gib =>
        if gib <? i_disk_gib i then
          fail_message ("resize: the disk of " +:+ debug (i_name i) +:+ " is " +:+ dec (i_disk_gib i) +:+ " GiB and can only grow")
        else f disk
    | None => f None
    end).
Definition resize_apply (i : Instance) (request : ResizeRequest) : C Z :=
  if bool_decide (cz_vcpu request = None /\ cz_memory_mib request = None /\ cz_disk_gib request = None /\ cz_nested request = None)
  then usage "resize: name at least one of --memory, --cpu, --disk, --nested, --no-nested"
  else
    _ ← outln ("resize: the change takes effect after a restart of " +:+ i_name i);
    or_fail (CResize i request) (fun _ =>
      _ ← outln ("resize: " +:+ i_name i +:+ " updated; run: restart " +:+ i_name i); mret 0).
Definition resize (args : list string) : C Z :=
  with_flags (parse_flags args ["memory"; "cpu"; "disk"] ["nested"; "no-nested"]) (fun flags =>
  match fg_positionals flags with
  | [name] =>
      let nested := flag_set flags "nested" in
      let no_nested := flag_set flags "no-nested" in
      if nested && no_nested then usage "resize: --nested and --no-nested exclude each other"
      else
        with_instance (resolve_owned name) (fun i =>
        optional (fg_values flags !! "memory") parse_memory_mib (fun memory =>
        resize_cpu (fg_values flags !! "cpu") (fun vcpu =>
        resize_disk i (fg_values flags !! "disk") (fun disk =>
        resize_apply i (mkResize vcpu memory disk (if nested || no_nested then Some nested else None))))))
  | _ => usage "resize <name> [--memory --cpu --disk --nested|--no-nested]"
  end).

(** [Cli::console]. *)
Definition console (args : list string) : C Z :=
  match args with
  | [name] =>
      with_instance (resolve name) (fun instance =>
      _ ← outln ("console: attached to " +:+ i_name instance);
      or_fail (CConsole instance) (fun _ => mret 0))
  | _ => usage "console <name>"
  end.

(** ** Reads and settings: [info.rs] *)

Definition sort_instances (l : list Instance) : list Instance := sort_by (fun a b => text_lt (i_name a) (i_name b)) l.

Fixpoint shared_rows (now : Z) (shared : list Instance) : C (list (list string)) :=
  match shared with
  | [] => mret []
  | i :: shared =>
      owner ← call (CUserById (i_owner_id i));
      rows_ ← shared_rows now shared;
      mret ([i_name i; as_str (i_state i); i_address i; match owner with Ok u => u_name u | Err _ => "?" end;
             ago now (i_last_seen_at i)] :: rows_)
  end.
(** [Cli::ls]. *)
Definition ls (args : list string) : C Z :=
  match args with
  | [] =>
      or_fail (CInstancesByOwner (u_id user)) (fun own =>
      now ← call CNow;
      _ ← (if bool_decide (own = []) then outln "no instances; create one with: new <name>"
           else render_table (["NAME"; "STATE"; "ADDRESS"; "IMAGE"; "VISIBILITY"; "LAST USE"] ::
                  ((fun i => [i_name i; as_str (i_state i); i_address i; i_image_name i; as_str (i_visibility i);
                              ago now (i_last_seen_at i)]) <$> sort_instances own)));
      or_fail (CInstancesSharedWith (u_id user)) (fun shared =>
      if bool_decide (shared = []) then mret 0
      else
        _ ← outln (NL +:+ "shared with you:");
        rows_ ← shared_rows now (sort_instances shared);
        _ ← render_table (["NAME"; "STATE"; "ADDRESS"; "OWNER"; "LAST USE"] :: rows_);
        mret 0))
  | _ => usage "ls"
  end.

(** [Cli::port]. *)
Definition port (args : list string) : C Z :=
  match args with
  | [name; port_text] =>
      with_instance (resolve_owned name) (fun instance =>
      match parse_uint 65535 port_text with
      | Some port =>
          if port <? 1 then fail_message ("port: " +:+ debug port_text +:+ " is not a port between 1 and 65535")
          else
            or_fail (CSetHttpPort instance port) (fun _ =>
              _ ← outln ("port: the default HTTP port of " +:+ i_name instance +:+ " is now " +:+ dec port); mret 0)
      | None => fail_message ("port: " +:+ debug port_text +:+ " is not a port between 1 and 65535")
      end)
  | _ => usage "port <name> <port>"
  end.

(** [Cli::visibility]. *)
Definition visibility_named (value : string) : option Visibility :=
  if bool_decide (value = "off") then Some Off
  else if bool_decide (value = "private") then Some Private
  else if bool_decide (value = "public") then Some Public
  else None.
Definition visibility_text (name url : string) (v : Visibility) : string :=
  "visibility: " +:+ name +:+
  match v with
  | Off => " is now off; " +:+ url +:+ " returns 404"
  | Private => " is now private; " +:+ url +:+ " requires a login"
  | Public => " is now public; anyone can reach " +:+ url
  end.
Definition visibility (args : list string) : C Z :=
  match args with
  | [name; value] =>
      with_instance (resolve_owned name) (fun instance =>
      match visibility_named value with
      | None => usage "visibility <name> <off|private|public>"
      | Some v =>
          or_fail (CSetVisibility instance v) (fun _ =>
            _ ← outln (visibility_text (i_name instance) (instance_url (i_name instance)) v); mret 0)
      end)
  | _ => usage "visibility <name> <off|private|public>"
  end.

(** [Cli::list_shares]. *)
Fixpoint share_rows (shares : list Share) : C (list (list string)) :=
  match shares with
  | [] => mret []
  | share :: shares =>
      found ← call (CUserById (sh_user_id share));
      rows_ ← share_rows shares;
      mret ([match found with Ok u => u_name u | Err _ => "user-" +:+ dec_signed (sh_user_id share) end;
             date_text (sh_created_at share)] :: rows_)
  end.
Definition list_shares (i : Instance) : C Z :=
  or_fail (CSharesFor (i_uuid i)) (fun shares =>
  if bool_decide (shares = []) then _ ← outln ("share: " +:+ i_name i +:+ " is shared with nobody"); mret 0
  else rows_ ← share_rows shares; _ ← render_table (["USER"; "SINCE"] :: rows_); mret 0).

(** [Cli::share], once the other user is known. *)
Definition revoke_share (i : Instance) (target : User) : C Z :=
  r ← call (CRemoveShare (i_uuid i) (u_id target));
  match r with
  | Ok _ => _ ← outln ("share: " +:+ u_name target +:+ " no longer has access to " +:+ i_name i); mret 0
  | Err error =>
      if is_not_found error then fail_message ("share: " +:+ u_name target +:+ " has no share on " +:+ i_name i)
      else fail error
  end.
Definition grant_share (i : Instance) (target : User) : C Z :=
  if u_id target =? u_id user then fail_message ("share: you own " +:+ i_name i +:+ " already")
  else
    or_fail (CAddShare (i_uuid i) (u_id target)) (fun _ =>
      _ ← outln ("share: " +:+ u_name target +:+ " can now use " +:+ i_name i); mret 0).
Definition share_with (i : Instance) (revoke : bool) (target_name : string) : C Z :=
  found ← call (CUserByName target_name);
  match found with
  | Ok target => if revoke then revoke_share i target else grant_share i target
  | Err error =>
      if is_not_found error then fail_message ("share: no such user: " +:+ target_name) else fail error
  end.
Definition share (args : list string) : C Z :=
  with_flags (parse_flags args [] ["revoke"]) (fun flags =>
  let revoke := flag_set flags "revoke" in
  match fg_positionals flags with
  | [name] =>
      with_instance (resolve_owned name) (fun i =>
        if revoke then usage "share --revoke <name> <user>" else list_shares i)
  | [name; target_name] => with_instance (resolve_owned name) (fun i => share_with i revoke target_name)
  | _ => usage "share [--revoke] <name> [<user>]"
  end).

(** [Cli::images]. *)
Definition operator (u : User) : bool := match op_is_operator opts with Some predicate => predicate u | None => false end.
Definition older_count (instances_ : list Instance) (image : Image) : nat :=
  length (filter (fun i => i_image_name i = img_name image /\ Some (i_base_checksum i) <> img_current_checksum image) instances_).
Definition image_row (instances_ : list Instance) (image : Image) : list string :=
  [img_name image; as_str (img_kind image); img_url image;
   default "(never fetched)" (img_current_checksum image); dec (Z.of_nat (older_count instances_ image))].
Definition add_image (name reference : string) : C Z :=
  if negb (operator user) then _ ← errln "bento: operator only"; mret 1
  else if negb (cl_image_admin self) then _ ← errln "bento: runtime image management is unavailable"; mret 1
  else
    or_fail (CAddOciImage name reference) (fun _ =>
      _ ← outln ("images: added " +:+ name +:+ " from " +:+ reference); mret 0).
Definition list_images : C Z :=
  or_fail CImages (fun images_ =>
  or_fail CInstances (fun instances_ =>
  _ ← render_table (["NAME"; "KIND"; "SOURCE"; "CURRENT CHECKSUM"; "ON OLDER VERSIONS"] ::
        (image_row instances_ <$> sort_by (fun a b => text_lt (img_name a) (img_name b)) images_));
  mret 0)).
Definition images (args : list string) : C Z :=
  match args with
  | [] => list_images
  | first :: rest =>
      if bool_decide (first = "add") then
        match rest with
        | [name; reference] => add_image name reference
        | _ => usage "images add <name> <oci-reference>"
        end
      else usage "images [add <name> <oci-reference>]"
  end.

(** [Cli::ssh_key] and its three commands. *)
Definition ssh_key_list : C Z :=
  or_fail (CSshKeysForUser (u_id user)) (fun keys =>
  if bool_decide (length keys = 0%nat) then _ ← outln "no keys; add one with: ssh-key add <public key>"; mret 0
  else
    _ ← render_table (["ID"; "FINGERPRINT"; "COMMENT"; "ADDED"] ::
          ((fun k => [dec_signed (k_id k); k_fingerprint k; k_comment k; date_text (k_created_at k)]) <$>
             sort_by (fun a b => k_id a <? k_id b) keys));
    mret 0).
(** [parse_authorized_key]: the first line with an entry. *)
Definition entry_of (line : string) : option PublicKey :=
  let line := trim_white (match split_once (ascii_of_code 13) line with Some (before, _) => before | None => line end) in
  if bool_decide (line = EmptyString) || starts_with "#" line then None else parse_entry line.
Fixpoint first_entry (ls_ : list string) : option PublicKey :=
  match ls_ with
  | [] => None
  | line :: ls_ => match entry_of line with Some key => Some key | None => first_entry ls_ end
  end.
Definition parse_authorized_key (input : string) : option PublicKey := first_entry (lines input).
Definition NOT_A_KEY : string := "ssh-key: not a public key in authorized_keys format".
Definition add_key (raw : string) : C Z :=
  match parse_authorized_key raw with
  | None => fail_message NOT_A_KEY
  | Some key =>
      match pk_openssh key with
      | None => fail_message NOT_A_KEY
      | Some line =>
          or_fail (CAddSshKey (u_id user) (trim_white line) (pk_fingerprint key) (pk_comment key)) (fun _ =>
            _ ← outln ("ssh-key: added " +:+ pk_fingerprint key); mret 0)
      end
  end.
(** [read_to_string] appends to [raw], which is white space here. *)
Definition ssh_key_add (args : list string) : C Z :=
  let raw := join_with " " args in
  if bool_decide (trim_white raw = EmptyString) then or_fail CReadInput (fun more => add_key (raw +:+ more))
  else add_key raw.
(** [text.parse::<i64>()]. *)
Definition parse_i64 (text : string) : option Z :=
  match strip_prefix "-" text with
  | Some digits => z ← parse_digits digits; if z <=? 2 ^ 63 then Some (- z) else None
  | None => parse_uint (2 ^ 63 - 1) text
  end.
Definition ssh_key_remove (text : string) : C Z :=
  match parse_i64 text with
  | None => fail_message ("ssh-key: " +:+ debug text +:+ " is not a key id; find the id with: ssh-key list")
  | Some id =>
      r ← call (CDeleteSshKey (u_id user) id);
      match r with
      | Ok _ => _ ← outln ("ssh-key: removed key " +:+ dec_signed id); mret 0
      | Err error =>
          if is_not_found error then fail_message ("ssh-key: you have no key with id " +:+ dec_signed id) else fail error
      end
  end.
Definition ssh_key (args : list string) : C Z :=
  let subcommand := default "list" (head args) in
  if bool_decide (subcommand = "list") then ssh_key_list
  else if bool_decide (subcommand = "add") then ssh_key_add (tail args)
  else if bool_decide (subcommand = "remove") then
    match args with
    | [_; text] => ssh_key_remove text
    | _ => usage "ssh-key remove <id>"
    end
  else usage "ssh-key [add <public key>|list|remove <id>]".

(** [Cli::whoami]. *)
Definition whoami (args : list string) : C Z :=
  match args with
  | [] => _ ← render_table [["name"; u_name user]; ["email"; u_email user]; ["subnet"; u_subnet user]]; mret 0
  | _ => usage "whoami"
  end.

(** ** [Cli::run]: [lib.rs] *)

Definition HELP_COMMANDS : list (string * string) :=
  [("ls", "list your instances"); (NEW_USAGE, "create an instance"); ("rm <name> [--force]", "delete an instance");
   ("start <name>", "start a stopped instance"); ("stop <name>", "stop a running instance");
   ("restart <name>", "restart an instance"); ("rename <old> <new>", "rename an instance");
   ("cp <source> <target>", "copy a stopped instance");
   ("resize <name> [--memory --cpu --disk --nested|--no-nested]", "change instance resources");
   ("console <name>", "attach to the serial console"); ("port <name> <port>", "set the default HTTP port");
   ("visibility <name> <off|private|public>", "set who can reach the instance URL");
   ("share [--revoke] <name> [<user>]", "grant, revoke, or list access");
   ("images [add <name> <oci-reference>]", "list or add allowed images");
   ("ssh-key [add|list|remove]", "manage your SSH keys"); ("whoami", "show your account")].
Definition HELP_INDENT : string := "  ".
Definition HELP_USAGE_WIDTH : nat := 35.
Definition help_line (entry : string * string) : string :=
  let '(usage_, description) := entry in
  if str_len usage_ <=? Z.of_nat HELP_USAGE_WIDTH
  then HELP_INDENT +:+ pad_right HELP_USAGE_WIDTH usage_ +:+ description +:+ NL
  else HELP_INDENT +:+ usage_ +:+ NL +:+ HELP_INDENT +:+ spaces HELP_USAGE_WIDTH +:+ description +:+ NL.
Definition EM_DASH : string := of_codes [226; 128; 148].
(** [Cli::help]. *)
Definition help : C unit :=
  call (COut ("bento " +:+ EM_DASH +:+ " usage: ssh " +:+ ssh_host +:+ " <command> [arguments]" +:+ NL +:+ NL +:+
              foldr (fun entry text => help_line entry +:+ text) EmptyString HELP_COMMANDS)).

Definition commands : list (string * (list string -> C Z)) :=
  [("ls", ls); ("new", new_command); ("rm", rm); ("start", start); ("stop", stop); ("restart", restart);
   ("rename", rename); ("cp", copy); ("resize", resize); ("console", console); ("port", port);
   ("visibility", visibility); ("share", share); ("images", images); ("ssh-key", ssh_key); ("whoami", whoami)].
Fixpoint command_named (name : string) (l : list (string * (list string -> C Z))) : option (list string -> C Z) :=
  match l with
  | [] => None
  | (n, command) :: l => if bool_decide (n = name) then Some command else command_named name l
  end.
Definition QUOTED_HELP : string := of_codes [34] +:+ "help" +:+ of_codes [34].
Definition run_command (args : list string) : C Z :=
  match args with
  | [] => _ ← help; mret 0
  | command :: rest =>
      if bool_decide (command = "help") then _ ← help; mret 0
      else
        match command_named command commands with
        | Some f => f rest
        | None =>
            _ ← errln ("bento: unknown command " +:+ debug command +:+ "; run " +:+ QUOTED_HELP +:+ " for the command list");
            mret 2
        end
  end.
End Commands.
