(* ===== verification/CliRuns.v ===== *)
(** * CliRuns: what the command line does for a user

    Every run of every command, whatever the store, the lifecycle and the
    session answer. *)

From Stdlib Require Import ZArith Lia Ascii.
From S2P Require Import Prelude Text Types Db Fence Prog Pool Lifecycle Cli.
Open Scope Z_scope.

(** ** Flags *)

Lemma parse_loop_positionals vf bf parsed args flags : parse_loop vf bf parsed args = Ok flags ->
  fg_positionals flags ⊆ fg_positionals parsed ++ args.
Proof.
  remember (length args) as n eqn:Hn. revert parsed args Hn. induction n as [n IH] using lt_wf_ind.
  intros parsed [|a rest] Hn; cbn [parse_loop]; [intros [= <-]; set_solver|]. cbn in Hn.
  case_bool_decide; [intros [= <-]; cbn; set_solver|]. destruct (_ || _); [intros [= <-]; cbn; set_solver|].
  destruct (split_once "=" _) as [[name v]|]; cbv zeta beta.
  - destruct (is_one_of name bf); [repeat case_bool_decide; try done|destruct (is_one_of name vf); [|done]];
      intros Hp; apply (IH (length rest)) in Hp; cbn in *; first [lia|done|set_solver].
  - destruct (is_one_of _ bf); [|destruct (is_one_of _ vf); [|done]; destruct rest as [|v rest]; [done|]];
      intros Hp; apply (IH (length rest)) in Hp; cbn in *; first [lia|done|set_solver].
Qed.
Lemma parse_flags_positionals args vf bf flags : parse_flags args vf bf = Ok flags -> fg_positionals flags ⊆ args.
Proof. intros H%parse_loop_positionals. done. Qed.

(** ** What a call may be *)

Section Runs.
#[local] Instance C_ret : MRet C := prog_ret.
#[local] Instance C_bind : MBind C := prog_bind.
Context (self : Cli) (parse_entry : string -> option PublicKey) (date_text : Z -> string) (user : User).
#[local] Abbreviation opts := (cl_options self).
Variable args : list string.

(** The store found the instance under a name the user gave; the user owns it,
    or the store said the user has access. *)
Definition named (before : list (event ccall)) (i : Instance) : Prop :=
  exists name, name ∈ args /\ mkEvent (CInstanceByName name) (Ok i) ∈ before.
Definition owned (before : list (event ccall)) (i : Instance) : Prop :=
  named before i /\ i_owner_id i = u_id user.
Definition usable (before : list (event ccall)) (i : Instance) : Prop :=
  named before i /\ (i_owner_id i = u_id user \/ mkEvent (CHasAccess (i_uuid i) (u_id user)) (Ok true) ∈ before).
Definition agreed (before : list (event ccall)) : Prop :=
  exists line, said_yes line = true /\ mkEvent CReadLine line ∈ before.
Definition forced : Prop := exists flags, parse_flags (tail args) [] ["force"] = Ok flags /\ flag_set flags "force" = true.
Definition sound_request (r : CreateRequest) : Prop :=
  cr_owner_id r = u_id user /\ valid_name (cr_name r) = true /\ is_reserved (cr_name r) (op_reserved_names opts) = false.

Definition cli_may (before : list (event ccall)) (e : event ccall) : Prop :=
  match ev_call e with
  | CInstancesByOwner id | CInstancesSharedWith id | CSshKeysForUser id | CDeleteSshKey id _ | CHasAccess _ id => id = u_id user
  | CAddSshKey id _ _ _ => id = u_id user
  | CSharesFor uuid | CAddShare uuid _ | CRemoveShare uuid _ => exists i, i_uuid i = uuid /\ owned before i
  | CInstances => head args = Some "images"
  | CAddOciImage _ _ => operator self user = true /\ cl_image_admin self = true
  | CCreate request => sound_request request /\ 1 <= cr_vcpu request
  | CCopy source request => usable before source /\ sound_request request /\ i_state source = Stopped
  | CStart i | CStop i | CRestart i | CConsole i => usable before i
  | CRemove i => owned before i /\ (forced \/ agreed before)
  | CRename i new_name =>
      owned before i /\ valid_name new_name = true /\ is_reserved new_name (op_reserved_names opts) = false /\
      (i_visibility i = Public -> agreed before)
  | CResize i request =>
      owned before i /\ (forall gib, cz_disk_gib request = Some gib -> i_disk_gib i <= gib) /\
      (forall n, cz_vcpu request = Some n -> 1 <= n) /\ (forall n, cz_memory_mib request = Some n -> 1 <= n <= u64_max)
  | CSetHttpPort i port => owned before i /\ 1 <= port <= 65535
  | CSetVisibility i _ => owned before i
  | _ => True
  end.

(** Nothing printed on the error stream, no change refused, and the exit status
    that goes with it. *)
Definition is_err (e : event ccall) : bool := match ev_call e with CErr _ => true | _ => false end.
Definition refused (e : event ccall) : bool :=
  match ev_call e in ccall R return R -> bool with
  | CAddShare _ _ | CRemoveShare _ _ | CDeleteSshKey _ _ | CAddOciImage _ _ | CStart _ | CRestart _ | CRemove _
  | CRename _ _ | CResize _ _ | CConsole _ | CSetHttpPort _ _ | CSetVisibility _ _ => fun r => negb (is_ok r)
  | CAddSshKey _ _ _ _ => fun r => negb (is_ok r)
  | CCreate _ => fun r => negb (is_ok r)
  | CCopy _ _ => fun r => negb (is_ok r)
  | CStop _ => fun r => negb (is_ok r)
  | _ => fun _ => false
  end (ev_reply e).
Definition silent (tr : list (event ccall)) : Prop := Forall (fun e => is_err e = false) tr.
Definition quiet (tr : list (event ccall)) : Prop := Forall (fun e => is_err e = false /\ refused e = false) tr.
Definition status (tr : list (event ccall)) (code : Z) : Prop :=
  (code = 0 /\ quiet tr) \/ ((code = 1 \/ code = 2) /\ ~ silent tr).

#[local] Abbreviation does := (after cli_may).

Lemma quiet_snoc tr e : quiet tr -> is_err e = false -> refused e = false -> quiet (tr ++ [e]).
Proof. intros Ht He Hr. apply Forall_app. split; [done|]. by constructor. Qed.
Ltac quiet_tac := repeat first [assumption | apply quiet_snoc; [|reflexivity|reflexivity]].
Lemma not_quiet tr text : ~ silent (tr ++ [mkEvent (CErr text) tt]).
Proof. intros [_ He]%Forall_app. by inversion He. Qed.

Lemma does_errln before text (k : unit -> C Z) Q :
  does (before ++ [mkEvent (CErr (text +:+ NL)) tt]) (k tt) Q -> does before (prog_bind _ _ k (errln text)) Q.
Proof. intros H. apply after_bind, after_call; [done|]. intros []. by apply after_ret. Qed.
Lemma does_outln {A} before text (k : unit -> C A) Q :
  does (before ++ [mkEvent (COut (text +:+ NL)) tt]) (k tt) Q -> does before (prog_bind _ _ k (outln text)) Q.
Proof. intros H. apply after_bind, after_call; [done|]. intros []. by apply after_ret. Qed.

Lemma does_error before text code : code = 1 \/ code = 2 -> does before (prog_bind _ _ (fun _ => Ret code) (errln text)) status.
Proof. intros Hc. apply does_errln, after_ret. right. split; [done|]. apply not_quiet. Qed.
Lemma does_usage before text : does before (usage text) status.
Proof. apply does_error. by right. Qed.
Lemma does_fail before e : does before (fail e) status.
Proof. apply does_error. by left. Qed.
Lemma does_flag_error before text : does before (flag_error text) status.
Proof. apply does_error. by right. Qed.

(** A call that may be made, whose failure is reported. *)
Lemma does_or_fail {A} before (c : ccall (result BoxError A)) (f : A -> C Z) :
  (forall r, cli_may before (mkEvent c r)) ->
  (forall a, is_err (mkEvent c (Ok a)) = false /\ refused (mkEvent c (Ok a)) = false) -> quiet before ->
  (forall a, quiet (before ++ [mkEvent c (Ok a)]) -> does (before ++ [mkEvent c (Ok a)]) (f a) status) ->
  does before (or_fail c f) status.
Proof.
  intros Hc He Hq Hf. apply after_bind, after_call; [done|]. intros [a|e]; apply after_ret; [|apply does_fail].
  apply Hf, quiet_snoc; [done|apply He..].
Qed.
Lemma does_print before text : quiet before -> does before (_ ← outln text; mret 0 : C Z) status.
Proof. intros Hq. apply does_outln, after_ret. left. split; [done|]. by apply quiet_snoc. Qed.

Lemma does_resolve before name : name ∈ args -> quiet before ->
  does before (resolve user name) (fun tr o =>
    match o with Some i => usable tr i /\ quiet tr | None => ~ silent tr end).
Proof.
  intros Hn Hq. unfold resolve. apply after_bind, after_call; [done|]. intros [i|e]; apply after_ret.
  2: { apply after_bind, after_call; [done|]. intros []. apply after_ret, after_ret, not_quiet. }
  assert (Hi : named (before ++ [mkEvent (CInstanceByName name) (Ok i)]) i) by (exists name; set_solver).
  destruct (Z.eqb_spec (i_owner_id i) (u_id user)).
  { apply after_ret. split; [by split; [|left]|by apply quiet_snoc]. }
  apply after_bind, after_call; [done|]. intros [[]|e]; apply after_ret.
  - apply after_ret. split; [|quiet_tac].
    destruct Hi as (n' & Hn' & Hi). split; [exists n'; set_solver|right; set_solver].
  - apply after_bind, after_call; [done|]. intros []. apply after_ret, after_ret, not_quiet.
  - apply after_bind, after_bind, after_call; [done|]. intros []. apply after_ret, after_ret, after_ret, not_quiet.
Qed.

Lemma does_resolve_owned before name : name ∈ args -> quiet before ->
  does before (resolve_owned user name) (fun tr o =>
    match o with Some i => owned tr i /\ quiet tr | None => ~ silent tr end).
Proof.
  intros Hn Hq. unfold resolve_owned. apply after_bind. eapply after_mono; [|by apply does_resolve].
  intros tr [i|] Hr; [|by apply after_ret]. destruct Hr as [[Hi Ha] Ht].
  destruct (Z.eqb_spec (i_owner_id i) (u_id user)); [by apply after_ret|].
  apply after_bind, after_call; [done|]. intros []. apply after_ret, after_ret, not_quiet.
Qed.

Lemma does_with_instance (P : list (event ccall) -> Instance -> Prop) before resolved f :
  does before resolved (fun tr o => match o with Some i => P tr i /\ quiet tr | None => ~ silent tr end) ->
  (forall tr i, P tr i -> quiet tr -> does tr (f i) status) -> does before (with_instance resolved f) status.
Proof.
  intros Hr Hf. apply after_bind. eapply after_mono; [|exact Hr]. intros tr [i|].
  - intros [Hi Ht]. by apply Hf.
  - intros Ht. apply after_ret. right. by split; [left|].
Qed.

Lemma does_check_ok {A} before (r : result string A) (f : A -> C Z) :
  (forall a, r = Ok a -> does before (f a) status) -> does before (check_ok r f) status.
Proof. intros Hf. destruct r as [a|e]; [by apply Hf|]. apply does_fail. Qed.
Lemma does_with_flags before (r : result string Flags) (f : Flags -> C Z) :
  (forall flags, r = Ok flags -> does before (f flags) status) -> does before (with_flags r f) status.
Proof. intros Hf. destruct r as [a|e]; [by apply Hf|]. apply does_flag_error. Qed.
Lemma does_optional {A} before value (parse : string -> result string A) (f : option A -> C Z) :
  (forall a, (forall x, a = Some x -> exists v, parse v = Ok x) -> does before (f a) status) ->
  does before (optional value parse f) status.
Proof.
  intros Hf. destruct value as [v|]; [|by apply Hf]. apply does_check_ok. intros a Ha. apply Hf.
  intros x [= <-]. by exists v.
Qed.
Lemma does_confirm before prompt (k : bool -> C Z) : quiet before ->
  (forall tr b, (forall e, e ∈ before -> e ∈ tr) -> quiet tr -> (b = true -> agreed tr) -> does tr (k b) status) ->
  does before (prog_bind _ _ k (confirm prompt)) status.
Proof.
  intros Hq Hk. apply after_bind, after_bind, after_call; [done|]. intros []. apply after_ret.
  apply after_bind, after_call; [done|]. intros line. apply after_ret, after_ret. apply Hk; [set_solver| |].
  - quiet_tac.
  - intros Hl. exists line. split; [done|set_solver].
Qed.
Lemma does_table before rows_ : quiet before -> does before (_ ← render_table rows_; mret 0 : C Z) status.
Proof.
  intros Hq. apply after_bind. destruct rows_ as [|row rows_].
  - apply after_ret, after_ret. by left.
  - apply after_call; [done|]. intros []. apply after_ret, after_ret. left. split; [done|]. by apply quiet_snoc.
Qed.

(** ** The commands *)

Lemma validate_name_Ok name u : validate_name name (op_reserved_names opts) = Ok u ->
  valid_name name = true /\ is_reserved name (op_reserved_names opts) = false.
Proof.
  unfold validate_name. destruct (_ || _); [done|]. destruct (valid_name name); [|done]. by destruct (is_reserved name _).
Qed.
Lemma parse_memory_range v n : parse_memory_mib v = Ok n -> 1 <= n <= u64_max.
Proof.
  unfold parse_memory_mib. intros H. result_inv. destruct v0 as [number unit]. cbn in H. unfold split_size in Hv.
  destruct (default _ _) as [before after]. apply bind_Some in Hv as (x & Hx & Hv). apply parse_uint_bound in Hx.
  destruct (Z.eqb_spec x 0); [done|]. simplify_eq.
  repeat match type of H with context [if ?b then _ else _] => destruct b eqn:? end; result_inv; subst; lia.
Qed.
Lemma named_more before before' i : (forall e, e ∈ before -> e ∈ before') -> named before i -> named before' i.
Proof. intros Hs (n & Hn & Hi). exists n. auto. Qed.
Lemma owned_mono before before' i : (forall e, e ∈ before -> e ∈ before') -> owned before i -> owned before' i.
Proof. intros Hs [Hi Ho]. split; [by eapply named_more|done]. Qed.

(** The rest of a command whose instance is known. *)
Ltac cli_step :=
  first
  [ apply does_usage | apply does_fail | apply does_flag_error | by apply does_error; left | by apply does_error; right
  | by apply does_print | by apply does_table ].
Ltac one_name flags name := destruct (fg_positionals flags) as [|name [|? ?]] eqn:?Hpos; try cli_step.

Lemma does_new rest : does [] (new_command self user rest) status.
Proof.
  apply does_with_flags. intros flags _. one_name flags name.
  apply does_check_ok. intros [] [Hv Hr]%validate_name_Ok.
  destruct (match fg_values flags !! "image" with Some _ => _ | None => _ end) as [image|]; [|cli_step].
  assert (Hgo : forall cpu, does [] (at_least_one cpu (create_with self user name image flags cpu)) status).
  { intros cpu. unfold at_least_one. destruct (Z.ltb_spec cpu 1); [cli_step|].
    apply does_optional. intros memory _. apply does_optional. intros disk _.
    apply does_or_fail; [by split; [split_and!|]|done|constructor|]. intros i Hq.
    do 2 apply does_outln. case_bool_decide; [apply after_bind, after_ret, after_ret|apply does_outln, after_ret];
      (left; split; [done|]); quiet_tac. }
  destruct (fg_values flags !! "cpu") as [v|]; [|apply Hgo]. unfold parse_cpu. destruct (parse_uint u32_max v); [apply Hgo|cli_step].
Qed.

Lemma positional command rest vf bf flags name : args = command :: rest -> parse_flags rest vf bf = Ok flags ->
  name ∈ fg_positionals flags -> name ∈ args.
Proof. intros -> H%parse_flags_positionals Hn. set_solver. Qed.

Lemma does_rm command rest : args = command :: rest -> does [] (rm user rest) status.
Proof.
  intros Ha. apply does_with_flags. intros flags Hf. one_name flags name.
  apply (does_with_instance owned).
  { apply does_resolve_owned; [|constructor]. eapply positional; [done..|]. rewrite Hpos. set_solver. }
  intros tr i Hi Hq. destruct (flag_set flags "force") eqn:Hforce.
  - apply after_bind, after_ret. apply does_or_fail; [|done|done|intros ? ?; cli_step].
    intros r. split; [done|]. left. exists flags. by rewrite Ha.
  - apply does_confirm; [done|]. intros tr' [] Hsub Hq' Hyes; [|cli_step].
    apply does_or_fail; [|done|done|intros ? ?; cli_step]. intros r. split; [by eapply owned_mono|]. right. by apply Hyes.
Qed.

(** A command on one instance the user may use. *)
Lemma does_on_usable name f : name ∈ args -> (forall tr i, usable tr i -> quiet tr -> does tr (f i) status) ->
  does [] (with_instance (resolve user name) f) status.
Proof. intros Hn Hf. apply (does_with_instance usable); [|done]. by apply does_resolve; [|constructor]. Qed.
Lemma does_on_owned name f : name ∈ args -> (forall tr i, owned tr i -> quiet tr -> does tr (f i) status) ->
  does [] (with_instance (resolve_owned user name) f) status.
Proof. intros Hn Hf. apply (does_with_instance owned); [|done]. by apply does_resolve_owned; [|constructor]. Qed.

Lemma does_power command rest : args = command :: rest ->
  does [] (start user rest) status /\ does [] (stop user rest) status /\ does [] (restart user rest) status /\
  does [] (console user rest) status.
Proof.
  intros Ha. assert (Hin : forall name, rest = [name] -> name ∈ args) by (intros ? ->; rewrite Ha; set_solver).
  split_and!; (destruct rest as [|name [|? ?]]; try apply does_usage); (apply does_on_usable; [by apply Hin|]); intros tr i Hi Hq.
  - case_bool_decide; [cli_step|]. by apply does_or_fail; [| | |intros ? ?; cli_step].
  - by apply does_or_fail; [| | |intros ? ?; cli_step].
  - by apply does_or_fail; [| | |intros ? ?; cli_step].
  - apply does_outln. apply does_or_fail; [|done|by apply quiet_snoc|].
    + intros r. destruct Hi as [Hn Hacc]. split; [eapply named_more; [|done]; set_solver|]. set_solver.
    + intros [] Hq'. apply after_ret. by left.
Qed.

Lemma does_rename command rest : args = command :: rest -> does [] (rename self user rest) status.
Proof.
  intros Ha. destruct rest as [|old [|new [|? ?]]]; try apply does_usage. apply does_on_owned; [rewrite Ha; set_solver|].
  intros tr i Hi Hq. apply does_check_ok. intros [] [Hv Hr]%validate_name_Ok. case_bool_decide as Hpub.
  - apply does_confirm; [done|]. intros tr' [] Hsub Hq' Hyes; [|cli_step].
    apply does_or_fail; [|done|done|intros ? ?; cli_step]. intros r. split; [by eapply owned_mono|]. split_and!; [done..|by intros _; apply Hyes].
  - apply after_bind, after_ret. apply does_or_fail; [|done|done|intros ? ?; cli_step]. intros r. by split_and!.
Qed.

Lemma does_copy command rest : args = command :: rest -> does [] (copy self user rest) status.
Proof.
  intros Ha. destruct rest as [|source [|target [|? ?]]]; try apply does_usage. apply does_on_usable; [rewrite Ha; set_solver|].
  intros tr i Hi Hq. case_bool_decide as Hst; cbn [negb]; [|cli_step]. apply does_check_ok. intros [] [Hv Hr]%validate_name_Ok.
  apply does_or_fail; [|done|done|intros ? ?; cli_step]. intros r. by split_and!.
Qed.

Lemma does_resize_apply tr i request : owned tr i -> quiet tr ->
  (forall gib, cz_disk_gib request = Some gib -> i_disk_gib i <= gib) ->
  (forall n, cz_vcpu request = Some n -> 1 <= n) -> (forall n, cz_memory_mib request = Some n -> 1 <= n <= u64_max) ->
  does tr (resize_apply i request) status.
Proof.
  intros Hi Hq Hd Hc Hm. unfold resize_apply. case_bool_decide; [cli_step|]. apply does_outln.
  apply does_or_fail; [|done|by apply quiet_snoc|intros ? ?; cli_step]. intros r. split_and!; [|done..].
  eapply owned_mono; [|exact Hi]. set_solver.
Qed.
Lemma does_resize command rest : args = command :: rest -> does [] (resize user rest) status.
Proof.
  intros Ha. apply does_with_flags. intros flags Hf. one_name flags name. cbv zeta.
  destruct (flag_set flags "nested" && flag_set flags "no-nested"); [cli_step|].
  apply does_on_owned; [eapply positional; [done..|]; rewrite Hpos; set_solver|]. intros tr i Hi Hq.
  apply does_optional. intros memory Hm.
  assert (Hdisk : forall vcpu, (forall n, vcpu = Some n -> 1 <= n) ->
    does tr (resize_disk i (fg_values flags !! "disk") (fun disk =>
      resize_apply i (mkResize vcpu memory disk
        (if flag_set flags "nested" || flag_set flags "no-nested" then Some (flag_set flags "nested") else None)))) status).
  { intros vcpu Hv. apply does_optional. intros [gib|] _; [destruct (Z.ltb_spec gib (i_disk_gib i)); [cli_step|]|];
      (apply does_resize_apply; cbn [cz_disk_gib cz_vcpu cz_memory_mib]; [done..| |done|]);
      first [by intros ? [= <-] | done | intros n Hn; destruct (Hm n Hn) as [v Hp]; by apply parse_memory_range in Hp]. }
  destruct (fg_values flags !! "cpu") as [v|]; cbn [resize_cpu]; [|by apply Hdisk]. unfold parse_cpu.
  destruct (parse_uint u32_max v) as [cpu|]; [|cli_step]. unfold at_least_one. destruct (Z.ltb_spec cpu 1); [cli_step|].
  apply Hdisk. intros n [= <-]. done.
Qed.

(** Rows that look up a user each. *)
Lemma does_rows {A B} before (c : A -> ccall B) (rows_of : list A -> C (list (list string))) (k : list (list string) -> C Z)
    (row : A -> B -> list string) l :
  (forall tr x r, cli_may tr (mkEvent (c x) r)) -> (forall x r, is_err (mkEvent (c x) r) = false /\ refused (mkEvent (c x) r) = false) ->
  rows_of [] = mret [] ->
  (forall x l, rows_of (x :: l) = (r ← call (c x); rows_ ← rows_of l; mret (row x r :: rows_))) ->
  quiet before -> (forall tr rows_, quiet tr -> does tr (k rows_) status) ->
  does before (prog_bind _ _ k (rows_of l)) status.
Proof.
  intros Hc He Hnil Hcons Hq Hk. apply after_bind. eapply after_mono; [intros tr rows_ H; exact (Hk tr rows_ H)|].
  clear Hk. revert before Hq. induction l as [|x l IH]; intros before Hq; [rewrite Hnil; by apply after_ret|].
  rewrite Hcons. apply after_bind, after_call; [intros r; apply Hc|]. intros r. apply after_ret.
  apply after_bind. eapply after_mono; [|apply IH, quiet_snoc; [done|apply He..]]. intros tr rows_ Ht. by apply after_ret.
Qed.

Lemma does_ls rest : does [] (ls user rest) status.
Proof.
  destruct rest; [|apply does_usage]. apply does_or_fail; [done|done|constructor|]. intros own Hq.
  apply after_bind, after_call; [done|]. intros now. apply after_ret.
  assert (Hrest : forall tr, quiet tr -> does tr
    (or_fail (CInstancesSharedWith (u_id user)) (fun shared =>
       if bool_decide (shared = []) then mret 0
       else (_ ← outln (NL +:+ "shared with you:"); rows_ ← shared_rows now (sort_instances shared);
             _ ← render_table (["NAME"; "STATE"; "ADDRESS"; "OWNER"; "LAST USE"] :: rows_); mret 0))) status).
  { intros tr Ht. apply does_or_fail; [done|done|done|]. intros shared Hs. case_bool_decide; [apply after_ret; by left|].
    apply does_outln. eapply (does_rows _ (fun i => CUserById (i_owner_id i)));
      [done|done|done|done|quiet_tac|]. intros tr' rows_ Ht'. cli_step. }
  case_bool_decide.
  - apply does_outln, Hrest. quiet_tac.
  - apply after_bind, after_call; [done|]. intros []. apply after_ret, Hrest. quiet_tac.
Qed.

Lemma does_settings command rest : args = command :: rest ->
  does [] (port user rest) status /\ does [] (visibility self user rest) status.
Proof.
  intros Ha. assert (Hin : forall name x, rest = [name; x] -> name ∈ args) by (intros ? ? ->; rewrite Ha; set_solver).
  split; (destruct rest as [|name [|x [|? ?]]]; try apply does_usage); (apply does_on_owned; [by eapply Hin|]); intros tr i Hi Hq.
  - destruct (parse_uint 65535 x) as [p|] eqn:Hp; [|cli_step]. apply parse_uint_bound in Hp.
    destruct (Z.ltb_spec p 1); [cli_step|]. apply does_or_fail; [by intros r; split; [|lia]|done|done|intros ? ?; cli_step].
  - destruct (visibility_named x); [|cli_step]. apply does_or_fail; [done|done|done|intros ? ?; cli_step].
Qed.

Lemma does_share command rest : args = command :: rest -> does [] (share date_text user rest) status.
Proof.
  intros Ha. apply does_with_flags. intros flags Hf.
  assert (Hin : forall name, name ∈ fg_positionals flags -> name ∈ args) by (intros name; by eapply positional).
  assert (Hi' : forall tr i e, owned tr i -> exists i', i_uuid i' = i_uuid i /\ owned (tr ++ [e]) i').
  { intros tr i e Hi. exists i. split; [done|]. eapply owned_mono; [|exact Hi]. set_solver. }
  destruct (fg_positionals flags) as [|name [|target [|? ?]]]; try apply does_usage;
    (apply does_on_owned; [apply Hin; set_solver|]); intros tr i Hi Hq.
  - destruct (flag_set flags "revoke"); [cli_step|]. apply does_or_fail; [by intros r; exists i|done|done|].
    intros shares Hs. case_bool_decide; [cli_step|].
    eapply (does_rows _ (fun s => CUserById (sh_user_id s))); [done|done|done|done|done|]. intros tr' rows_ Ht'. cli_step.
  - apply after_bind, after_call; [done|]. intros [u|e]; apply after_ret.
    2: { destruct (is_not_found e); cli_step. }
    destruct (flag_set flags "revoke").
    + apply after_bind, after_call; [intros r; by apply Hi'|]. intros [[]|e]; apply after_ret.
      * apply does_print. quiet_tac.
      * destruct (is_not_found e); cli_step.
    + unfold grant_share. destruct (_ =? _); [cli_step|].
      apply does_or_fail; [intros r; by apply Hi'|done|by apply quiet_snoc|intros ? ?; cli_step].
Qed.

Lemma does_images rest : head args = Some "images" -> does [] (images self user rest) status.
Proof.
  intros Hhead. destruct rest as [|first rest].
  - apply does_or_fail; [done|done|constructor|]. intros images_ Hq. apply does_or_fail; [done|done|done|].
    intros instances_ Hq'. cli_step.
  - unfold images. case_bool_decide; [|cli_step]. destruct rest as [|name [|reference [|? ?]]]; try cli_step.
    unfold add_image. destruct (operator self user) eqn:Ho; [|cli_step]. destruct (cl_image_admin self) eqn:Ha; [|cli_step].
    cbn [negb]. apply does_or_fail; [done|done|constructor|intros ? ?; cli_step].
Qed.

Lemma does_add_key before raw : quiet before -> does before (add_key parse_entry user raw) status.
Proof.
  intros Hq. unfold add_key. destruct (parse_authorized_key parse_entry raw) as [key|]; [|cli_step].
  destruct (pk_openssh key); [|cli_step]. apply does_or_fail; [done|done|done|intros ? ?; cli_step].
Qed.
Lemma does_ssh_key rest : does [] (ssh_key parse_entry date_text user rest) status.
Proof.
  unfold ssh_key. case_bool_decide.
  { apply does_or_fail; [done|done|constructor|]. intros keys Hq. case_bool_decide; cli_step. }
  case_bool_decide.
  { unfold ssh_key_add. case_bool_decide; [|apply does_add_key; constructor].
    apply does_or_fail; [done|done|constructor|]. intros more Hq. by apply does_add_key. }
  case_bool_decide; [|cli_step]. destruct rest as [|? [|text [|? ?]]]; try cli_step. unfold ssh_key_remove.
  destruct (parse_i64 text); [|cli_step]. apply after_bind, after_call; [done|]. intros [[]|e]; apply after_ret.
  - apply does_print. apply quiet_snoc; [constructor|done|done].
  - destruct (is_not_found e); cli_step.
Qed.

Lemma does_run_command : does [] (run_command self parse_entry date_text user args) status.
Proof.
  enough (H : forall l, args = l -> does [] (run_command self parse_entry date_text user l) status) by by apply H.
  assert (Hhelp : does [] (_ ← help self; mret 0 : C Z) status).
  { apply after_bind, after_call; [done|]. intros []. apply after_ret, after_ret. left. split; [done|].
    apply quiet_snoc; [constructor|done|done]. }
  intros [|command rest] Ha; [exact Hhelp|]. unfold run_command. case_bool_decide; [exact Hhelp|].
  destruct (does_power command rest Ha) as (Hp1 & Hp2 & Hp3 & Hp4). destruct (does_settings command rest Ha) as [Hs1 Hs2].
  unfold commands. cbn [command_named].
  assert (Hi : command = "images" -> does [] (images self user rest) status).
  { intros ->. apply does_images. by rewrite Ha. }
  repeat (case_bool_decide;
    [eauto using does_new, does_rm, does_rename, does_copy, does_resize, does_ls, does_share, does_ssh_key|]).
  - destruct rest; [apply does_table; constructor|apply does_usage].
  - by apply does_error; right.
Qed.

(** ** What lists print *)

(** The text of [render_table]. *)
Definition table_text (rows_ : list (list string)) : string :=
  foldr (fun row text => render_row (foldl max_widths [] rows_) row +:+ NL +:+ text) EmptyString rows_.

(** A text [ls] prints: that there is nothing, the heading of the second list,
    the table of the instances the store said the user owns, or a table that
    begins with the names, states and addresses of those it said are shared
    with the user. *)
Definition ls_text (before : list (event ccall)) (text : string) : Prop :=
  text = "no instances; create one with: new <name>" +:+ NL \/ text = NL +:+ "shared with you:" +:+ NL \/
  (exists own now, mkEvent (CInstancesByOwner (u_id user)) (Ok own) ∈ before /\
     text = table_text (["NAME"; "STATE"; "ADDRESS"; "IMAGE"; "VISIBILITY"; "LAST USE"] ::
       ((fun i => [i_name i; as_str (i_state i); i_address i; i_image_name i; as_str (i_visibility i);
                   ago now (i_last_seen_at i)]) <$> sort_instances own))) \/
  (exists shared rows_, mkEvent (CInstancesSharedWith (u_id user)) (Ok shared) ∈ before /\
     (take 3 <$> rows_) = ((fun i => [i_name i; as_str (i_state i); i_address i]) <$> sort_instances shared) /\
     text = table_text (["NAME"; "STATE"; "ADDRESS"; "OWNER"; "LAST USE"] :: rows_)).
Definition ls_may (before : list (event ccall)) (e : event ccall) : Prop :=
  match ev_call e with COut text => ls_text before text | CInstances => False | _ => True end.

(** What [images] prints once it has everybody's instances: the images, with
    how many instances are on an older version of each. *)
Definition images_may (before : list (event ccall)) (e : event ccall) : Prop :=
  match ev_call e with
  | COut text => forall all, mkEvent CInstances (Ok all) ∈ before -> exists images_, mkEvent CImages (Ok images_) ∈ before /\
      text = table_text (["NAME"; "KIND"; "SOURCE"; "CURRENT CHECKSUM"; "ON OLDER VERSIONS"] ::
        (image_row all <$> sort_by (fun a b => text_lt (img_name a) (img_name b)) images_))
  | _ => True
  end.

Lemma or_fail_may (ok : list (event ccall) -> event ccall -> Prop) {A} before (c : ccall (result BoxError A)) (f : A -> C Z) :
  (forall r, ok before (mkEvent c r)) -> (forall b text, ok b (mkEvent (CErr text) tt)) ->
  (forall a, after ok (before ++ [mkEvent c (Ok a)]) (f a) (fun _ _ => True)) ->
  after ok before (or_fail c f) (fun _ _ => True).
Proof.
  intros Hc He Hf. apply after_bind, after_call; [done|]. intros [a|e]; apply after_ret; [apply Hf|].
  apply after_bind, after_call; [intros []; apply He|]. intros []. by apply after_ret, after_ret.
Qed.

Lemma shared_rows_may before now shared :
  after ls_may before (shared_rows now shared) (fun tr rows_ => before ⊆ tr /\
    (take 3 <$> rows_) = ((fun i => [i_name i; as_str (i_state i); i_address i]) <$> shared)).
Proof.
  revert before. induction shared as [|i shared IH]; intros before; cbn [shared_rows]; [by apply after_ret|].
  apply after_bind, after_call; [done|]. intros owner. apply after_ret, after_bind. eapply after_mono; [|apply IH].
  intros tr rows_ [Hs Hr]. apply after_ret. split; [set_solver|]. cbn. by rewrite Hr.
Qed.

Lemma ls_prints rest : after ls_may [] (ls user rest) (fun _ _ => True).
Proof.
  destruct rest; [|by apply after_bind, after_call; [|intros []; apply after_ret, after_ret]].
  apply or_fail_may; [done|done|]. intros own. apply after_bind, after_call; [done|]. intros now. apply after_ret.
  assert (Hrest : forall tr, after ls_may tr
    (or_fail (CInstancesSharedWith (u_id user)) (fun shared =>
       if bool_decide (shared = []) then mret 0
       else (_ ← outln (NL +:+ "shared with you:"); rows_ ← shared_rows now (sort_instances shared);
             _ ← render_table (["NAME"; "STATE"; "ADDRESS"; "OWNER"; "LAST USE"] :: rows_); mret 0))) (fun _ _ => True)).
  { intros tr. apply or_fail_may; [done|done|]. intros shared. case_bool_decide; [by apply after_ret|].
    apply after_bind, after_call; [intros []; by right; left|]. intros []. apply after_ret, after_bind.
    eapply after_mono; [|apply shared_rows_may]. intros tr' rows_ [Hs Hr].
    apply after_bind, after_call; [|intros []; by apply after_ret, after_ret].
    intros []. right. right. right. exists shared, rows_. split_and!; [set_solver|done|done]. }
  apply after_bind. case_bool_decide; (apply after_call; [intros []|intros []; apply after_ret, Hrest]).
  - by left.
  - right. right. left. exists own, now. split; [set_solver|done].
Qed.

(** The instances an event gave of everybody. *)
Definition everybodys (e : event ccall) : bool := match ev_call e with CInstances => true | _ => false end.

Lemma images_prints rest : after images_may [] (images self user rest) (fun _ _ => True).
Proof.
  assert (Husage : forall text, after images_may [] (usage text) (fun _ _ => True)).
  { intros text. by apply after_bind, after_call; [|intros []; apply after_ret, after_ret]. }
  destruct rest as [|first rest].
  - apply or_fail_may; [done|done|]. intros images_. apply or_fail_may; [done|done|]. intros all.
    apply after_bind, after_call; [|intros []; by apply after_ret, after_ret]. intros [] all'.
    rewrite !elem_of_app, !list_elem_of_singleton. intros [[?%elem_of_nil|Heq]|Heq]; [done| |].
    + apply (f_equal everybodys) in Heq. done.
    + assert (all' = all) as ->; [|exists images_; split; [set_solver|done]].
      apply (f_equal (fun e => match ev_call e in ccall R return R -> list Instance with
        | CInstances => fun r => match r with Ok l => l | Err _ => [] end | _ => fun _ => [] end (ev_reply e))) in Heq. exact Heq.
  - unfold images. case_bool_decide; [|apply Husage]. destruct rest as [|name [|reference [|? ?]]]; try apply Husage.
    unfold add_image. destruct (operator self user); cbn [negb]; [|by apply after_bind, after_call; [|intros []; apply after_ret, after_ret]].
    destruct (cl_image_admin self); cbn [negb]; [|by apply after_bind, after_call; [|intros []; apply after_ret, after_ret]].
    apply or_fail_may; [done|done|]. intros []. apply after_bind, after_call; [|intros []; by apply after_ret, after_ret].
    intros [] all. rewrite elem_of_app, list_elem_of_singleton. intros [?%elem_of_nil|Heq]; [done|].
    by apply (f_equal everybodys) in Heq.
Qed.

(** C10. The command line acts for its user only.  Whatever is typed and
    whatever is answered: instances are removed, renamed, resized, published
    and shared only when the store found them under a name among the
    arguments with this user as owner; they are started, stopped, restarted,
    copied and attached to only when the user owns them or the store said the
    user has access.  A removal was forced or agreed to, and so was the rename
    of a public instance; new names are valid and not reserved, a disk never
    shrinks, a new instance belongs to the user; keys are the user's own;
    images are added by an operator only.  [ls] prints only the instances the
    store said the user owns or has a share of; everybody's instances are
    asked for by [images] only, which then prints the images with a count and
    nothing else.  The exit status is 0 only when nothing was printed on the
    error stream and no change was refused; else it is 1 or 2 and something
    was printed there. *)
Theorem commands_respect_ownership :
  always (run_command self parse_entry date_text user args) (fun tr code =>
    allowed cli_may [] tr /\ status tr code /\
    (head args = Some "ls" -> allowed ls_may [] tr) /\ (head args = Some "images" -> allowed images_may [] tr)).
Proof.
  assert (Hls : always (run_command self parse_entry date_text user args) (fun tr _ => head args = Some "ls" -> allowed ls_may [] tr)).
  { destruct (decide (head args = Some "ls")) as [Hh|]; [|by apply always_pure].
    destruct args as [|command rest]; [done|]. injection Hh as ->. eapply always_mono; [|apply (ls_prints rest)]. by intros tr a [? _] _. }
  assert (Him : always (run_command self parse_entry date_text user args) (fun tr _ => head args = Some "images" -> allowed images_may [] tr)).
  { destruct (decide (head args = Some "images")) as [Hh|]; [|by apply always_pure].
    destruct args as [|command rest]; [done|]. injection Hh as ->. eapply always_mono; [|apply (images_prints rest)]. by intros tr a [? _] _. }
  eapply always_mono; [|apply (always_and _ _ _ does_run_command (always_and _ _ _ Hls Him))].
  intros tr code [[Ha Hs] [? ?]]. by split_and!.
Qed.
End Runs.

(** ** Flags are read back *)

Definition inline_flag (name value : string) : string := "--" +:+ name +:+ "=" +:+ value.
Definition flag_line (booleans : list (string * bool)) (values : list (string * string)) (positionals : list string) :
    list string :=
  ((fun p => inline_flag p.1 (if p.2 : bool then "true" else "false")) <$> booleans) ++
  ((fun p => inline_flag p.1 p.2) <$> values) ++ "--" :: positionals.
(** A name a flag can have. *)
Definition flag_name (name : string) : Prop :=
  free "=" name /\ exists c s, name = String c s /\ c <> "-"%char.

Lemma inline_flag_read name value : flag_name name ->
  split_once "=" (trim_start_matches (fun c => Ascii.eqb c "-") (inline_flag name value)) = Some (name, value) /\
  starts_with "-" (inline_flag name value) = true /\ inline_flag name value <> "-" /\ inline_flag name value <> "--".
Proof.
  intros [Hf (c & s & -> & Hc)]. unfold inline_flag. split_and!; [|reflexivity|by intros [=]|by intros [=]].
  replace (trim_start_matches _ _) with (String c s +:+ String "=" value); [by apply split_once_app|].
  symmetry. transitivity (if Ascii.eqb c "-" then trim_start_matches (fun c0 => Ascii.eqb c0 "-") (s +:+ String "=" value)
                          else String c (s +:+ String "=" value)); [reflexivity|].
  by destruct (Ascii.eqb_spec c "-").
Qed.

Lemma parse_loop_inline vf bf parsed name value rest : flag_name name ->
  parse_loop vf bf parsed (inline_flag name value :: rest) =
  (if is_one_of name bf then
     if bool_decide (value = "true") then
       parse_loop vf bf (mkFlags (fg_positionals parsed) (fg_values parsed) (<[name := true]> (fg_booleans parsed))) rest
     else if bool_decide (value = "false") then
       parse_loop vf bf (mkFlags (fg_positionals parsed) (fg_values parsed) (<[name := false]> (fg_booleans parsed))) rest
     else Err ("invalid value " +:+ debug value +:+ " for flag -" +:+ name)
   else if is_one_of name vf then
     parse_loop vf bf (mkFlags (fg_positionals parsed) (<[name := value]> (fg_values parsed)) (fg_booleans parsed)) rest
   else Err ("flag provided but not defined: -" +:+ name)).
Proof.
  intros Hn. destruct (inline_flag_read name value Hn) as (Hs & Hd & H1 & H2). cbn [parse_loop].
  rewrite !bool_decide_eq_false_2 by done. rewrite Hd, Hs. done.
Qed.

(** Flags are read back: for flags the command knows, whatever text their
    values are, the line that writes each one as [--name=value] and closes
    with [--] is read as those settings, the last one of a name counting, with
    everything after [--] as the arguments, also what looks like a flag. *)
Theorem flags_round_trip (vf bf : list string) (booleans : list (string * bool)) (values : list (string * string))
    (positionals : list string) :
  Forall (fun p => flag_name p.1 /\ is_one_of p.1 bf = true) booleans ->
  Forall (fun p => flag_name p.1 /\ is_one_of p.1 bf = false /\ is_one_of p.1 vf = true) values ->
  parse_flags (flag_line booleans values positionals) vf bf =
  Ok (mkFlags positionals (foldl (fun m p => <[p.1 := p.2]> m) ∅ values) (foldl (fun m p => <[p.1 := p.2]> m) ∅ booleans)).
Proof.
  intros Hb Hv. unfold parse_flags, flag_line, Flags_default. generalize (∅ : gmap string bool) as mb.
  induction Hb as [|[n b] booleans [Hn Hi] _ IH]; intros mb.
  - cbn [fmap list_fmap app foldl]. generalize (∅ : gmap string string) as mv.
    induction Hv as [|[n v] values (Hn & Hi & Hj) _ IH]; intros mv; [done|].
    change (parse_loop vf bf (mkFlags [] mv mb) (inline_flag n v :: ((fun p => inline_flag p.1 p.2) <$> values) ++ "--" :: positionals) =
            Ok (mkFlags positionals (foldl (fun m p => <[p.1 := p.2]> m) (<[n := v]> mv) values) mb)).
    cbn [fst] in *. rewrite parse_loop_inline by done. rewrite Hi, Hj. apply IH.
  - cbn [fst] in *. cbn [fmap list_fmap app foldl fst snd]. rewrite parse_loop_inline by done. rewrite Hi. cbn [fg_positionals fg_values fg_booleans].
    destruct b; [rewrite bool_decide_eq_true_2 by done|rewrite bool_decide_eq_false_2, bool_decide_eq_true_2 by done]; apply IH.
Qed.

Lemma flag_name_force : flag_name "force" /\ flag_name "memory".
Proof. split; (split; [reflexivity|]); [exists "f"%char, "orce"|exists "m"%char, "emory"]; done. Qed.
Lemma flags_round_trip_witness :
  flag_line [("force", true)] [("memory", "-4G"); ("memory", "a=b")] ["web"; "--force"] =
    ["--force=true"; "--memory=-4G"; "--memory=a=b"; "--"; "web"; "--force"] /\
  parse_flags (flag_line [("force", true)] [("memory", "-4G"); ("memory", "a=b")] ["web"; "--force"]) ["memory"] ["force"] =
  Ok (mkFlags ["web"; "--force"] {["memory" := "a=b"]} {["force" := true]}).
Proof.
  split; [vm_compute; reflexivity|]. rewrite flags_round_trip.
  - vm_compute. reflexivity.
  - repeat constructor; apply flag_name_force.
  - repeat constructor; apply flag_name_force.
Defined.

(** A flag behind the name is not a flag: the forms the help screen shows for
    [rm], [new] and [resize] are refused. *)
Lemma flag_behind_name name rest vf bf : starts_with "-" name = false -> parse_flags (name :: rest) vf bf = Ok (mkFlags (name :: rest) ∅ ∅).
Proof. intros Hn. unfold parse_flags. cbn [parse_loop]. rewrite Hn. case_bool_decide; [by subst|done]. Qed.
Lemma rm_as_documented self parse_entry date_text user name : starts_with "-" name = false ->
  run_command self parse_entry date_text user ["rm"; name; "--force"] = usage "rm <name> [--force]".
Proof. intros Hn. transitivity (rm user [name; "--force"]); [reflexivity|]. unfold rm. by rewrite flag_behind_name. Qed.
