(* ===== verification/Api.v ===== *)
(** * Api: the JSON interface of the control plane, [crates/api]

    [lib.rs], [instances.rs] and [misc.rs]: the errors with their statuses, and
    one program per handler over the store, the lifecycle and the
    authenticator.  A request body is what JSON gives, or the text of its
    refusal; the public key format and the display of times are parameters. *)

From Stdlib Require Import ZArith Lia Ascii.
From S2P Require Import Prelude Text Types Db Accounts Prog Pool Lifecycle Cli.
Open Scope Z_scope.

(** ** Errors *)

(** [interfaces.rs]: [StoreError], and the layers of a [BoxError]. *)
Inductive ApiStoreError : Type :=
  | AsNotFound | AsNameTaken | AsSshKeyTaken
  | AsNoPlacement (reasons : string)
  | AsCapacity (resource : string) (used requested limit : Z)
  | AsNameCooldown (name : string) (remaining : Z).
Inductive Layer : Type :=
  | LayerStore (e : ApiStoreError)
  | LayerStatus (status : Z) (message : string)
  | LayerOther (text : string).
(** An error and its [source()] chain. *)
Record ApiError : Type := mkApiError { ae_error : Layer; ae_sources : list Layer }.
Definition status_error (status : Z) (message : string) : ApiError := mkApiError (LayerStatus status message) [].

Section Errors.
Context (debug_duration : Z -> string).

Definition api_store_text (e : ApiStoreError) : string :=
  match e with
  | AsNotFound => "store: not found"
  | AsNameTaken => "store: name is taken by an existing instance"
  | AsSshKeyTaken => "store: that SSH key is already registered"
  | AsNoPlacement reasons => "store: no runner can take this instance: " +:+ reasons
  | AsCapacity resource used requested limit =>
      "store: the host has no room: the " +:+ resource +:+ " limit is " +:+ dec limit +:+ ", " +:+ dec used +:+
      " provisioned, " +:+ dec requested +:+ " requested"
  | AsNameCooldown name remaining =>
      "store: name " +:+ debug name +:+ " was released by another user and is in cooldown for another " +:+ debug_duration remaining
  end.
Definition layer_text (l : Layer) : string :=
  match l with LayerStore e => api_store_text e | LayerStatus _ message => message | LayerOther text => text end.

(** [find_error]. *)
Fixpoint find_store (l : list Layer) : option ApiStoreError :=
  match l with [] => None | LayerStore e :: _ => Some e | _ :: l => find_store l end.
Fixpoint find_status (l : list Layer) : option (Z * string) :=
  match l with [] => None | LayerStatus status message :: _ => Some (status, message) | _ :: l => find_status l end.
Definition layers (e : ApiError) : list Layer := ae_error e :: ae_sources e.

(** [cooldown_text] of [pages/mod.rs]. *)
Definition div_ceil (a b : Z) : Z := (a + b - 1) / b.
Definition cooldown_text (seconds : Z) : string :=
  if 3600 <=? seconds then dec (div_ceil seconds 3600) +:+ " h"
  else if 60 <=? seconds then dec (div_ceil seconds 60) +:+ " min"
  else dec seconds +:+ " s".

(** [error_parts]. *)
Definition error_parts (error : ApiError) : Z * string :=
  match find_store (layers error) with
  | Some AsNotFound => (404, "not found")
  | Some AsNameTaken => (409, "that name is taken")
  | Some AsSshKeyTaken => (409, "that SSH key is already registered")
  | Some (AsCapacity _ _ _ _ as e) | Some (AsNoPlacement _ as e) => (409, api_store_text e)
  | Some (AsNameCooldown name remaining) =>
      (409, "the name " +:+ name +:+ " was released by another user and is in cooldown for about " +:+
            cooldown_text (remaining / nanos_per_sec) +:+ " more")
  | None =>
      match find_status (layers error) with
      | Some (status, message) => (status, message)
      | None => (500, error_chain (layer_text (ae_error error)) (layer_text <$> ae_sources error))
      end
  end.

(** ** Responses *)

Record InstanceJson : Type := mkInstanceJson {
  ij_uuid : string; ij_name : string; ij_owner : string; ij_state : string; ij_desired_state : string; ij_address : string;
  ij_mac : string; ij_image : string; ij_base_checksum : string; ij_vcpu : Z; ij_memory_mib : Z; ij_disk_gib : Z;
  ij_nested : bool; ij_ksm : bool; ij_http_port : Z; ij_visibility : string; ij_created_at : string;
  ij_last_seen_at : string; ij_shared_with_me : bool
}.
Record ShareJson : Type := mkShareJson { sj_user : string; sj_created_at : string }.
Record ImageJson : Type := mkImageJson {
  mj_name : string; mj_source : string; mj_url : string; mj_kind : string; mj_pinned_checksum : string;
  mj_current_checksum : string; mj_instances_on_older_versions : Z
}.
Record SshKeyJson : Type := mkSshKeyJson {
  kj_id : Z; kj_fingerprint : string; kj_comment : string; kj_public_key : string; kj_created_at : string
}.
Inductive Action : Type := StartAction | StopAction | RestartAction.
Inductive ApiBody : Type :=
  | BodyError (error : string) (cooldown_seconds : Z)
  | BodyInstance (i : InstanceJson)
  | BodyInstances (instances : list InstanceJson) (usage : Usage)
  | BodyAction (action : Action) (uuid : string)
  | BodyShares (shares : list ShareJson)
  | BodyShare (share : ShareJson)
  | BodyWhoami (id : Z) (name email created_at : string) (usage : Usage) (operator : bool) (db_path : string)
  | BodyImages (images : list ImageJson)
  | BodyName (name : string)
  | BodyKeys (keys : list SshKeyJson)
  | BodyKey (key : SshKeyJson)
  | BodyDump (bytes : list Z) (disposition : string)
  | BodyEmpty.
(** What a client gets; the content type goes with the kind of body. *)
Record ApiResponse : Type := mkResponse { ar_status : Z; ar_body : ApiBody }.

Definition error_response (status : Z) (message : string) : ApiResponse := mkResponse status (BodyError message 0).
Definition reserved_response (name : string) : ApiResponse := error_response 400 (reserved_name_message name).

(** [mapped_error]. *)
Definition as_i64 (seconds : Z) : Z := if seconds <? 2 ^ 63 then seconds else seconds - 2 ^ 64.
Definition mapped_error (error : ApiError) : ApiResponse :=
  match find_store (layers error) with
  | Some (AsNameCooldown _ remaining as e) =>
      mkResponse 409 (BodyError (api_store_text e) (as_i64 (remaining / nanos_per_sec)))
  | _ => let '(status, message) := error_parts error in error_response status message
  end.
End Errors.

(** ** The calls *)

Record CreateSpec : Type := mkCreateSpec {
  sp_name : string; sp_image : string; sp_vcpu : Z; sp_memory_mib : Z; sp_disk_gib : Z; sp_nested : bool; sp_ksm : bool
}.
Record ResizeSpec : Type := mkResizeSpec { rz_vcpu : Z; rz_memory_mib : Z; rz_disk_gib : Z; rz_nested : bool }.

Inductive acall : Type -> Type :=
  | AUserFromHeaders : acall (result ApiError User)
  | AUserById (id : Z) : acall (result ApiError User)
  | AUserByName (name : string) : acall (result ApiError User)
  | AUsageFor (user_id : Z) : acall (result ApiError Usage)
  | AInstance (uuid : string) : acall (result ApiError Instance)
  | AInstancesByOwner (owner_id : Z) : acall (result ApiError (list Instance))
  | AInstancesSharedWith (user_id : Z) : acall (result ApiError (list Instance))
  | AInstances : acall (result ApiError (list Instance))
  | AAddShare (uuid : string) (user_id : Z) : acall (result ApiError unit)
  | ARemoveShare (uuid : string) (user_id : Z) : acall (result ApiError unit)
  | ASharesFor (uuid : string) : acall (result ApiError (list Share))
  | AImages : acall (result ApiError (list Image))
  | AAddSshKey (user_id : Z) (public_key fingerprint comment : string) : acall (result ApiError Z)
  | ASshKeysForUser (user_id : Z) : acall (result ApiError (list SshKey))
  | ADeleteSshKey (user_id key_id : Z) : acall (result ApiError unit)
  | ATempDir : acall (result ApiError string)
  | ADumpDb (destination : string) : acall (result ApiError unit)
  | AReadFile (path : string) : acall (result ApiError (list Z))
  | ADropTempDir (directory : string) : acall unit
  | ATimestamp : acall string
  | AAddOciImage (name reference : string) : acall (result ApiError unit)
  | ACreate (owner : User) (spec : CreateSpec) : acall (result ApiError Instance)
  | ADelete (uuid : string) : acall (result ApiError unit)
  | AAct (action : Action) (uuid : string) : acall (result ApiError unit)
  | ARename (uuid new_name : string) : acall (result ApiError unit)
  | AResize (uuid : string) (spec : ResizeSpec) : acall (result ApiError unit)
  | ASetHttpPort (uuid : string) (port : Z) : acall (result ApiError unit)
  | ASetVisibility (uuid : string) (v : Visibility) : acall (result ApiError unit).

(** [Result<A, HandlerError>]. *)
Definition A (T : Type) : Type := fallible acall ApiError T.
#[local] Instance A_ret : MRet A := fallible_ret.
#[local] Instance A_bind : MBind A := fallible_bind.
Definition ask_api {T} (c : acall (result ApiError T)) : A T := ask c id.

(** [Config], without the seams. *)
Record ApiConfig : Type := mkApiConfig {
  ac_is_operator : option (User -> bool); ac_image_admin : bool; ac_db_path : string; ac_reserved_names : list string
}.

(** ** Requests *)

(** The JSON bodies, [deny_unknown_fields] and the defaults left to the
    decoder.  [name] of [CreateRequest] and so on. *)
Record CreateBody : Type := mkCreateBody {
  cb_name : string; cb_image : string; cb_vcpu : Z; cb_memory_mib : Z; cb_disk_gib : Z; cb_nested : bool; cb_ksm : option bool
}.
Record ResizeBody : Type := mkResizeBody { rb_vcpu : Z; rb_memory_mib : Z; rb_disk_gib : Z; rb_nested : option bool }.

(** What [to_bytes] and [serde_json::from_slice] give: the value, or the text
    of the refusal. *)
Definition decoded (T : Type) : Type := result string T.
(** [router]: the routes, with the body each reads. *)
Inductive ApiRequest : Type :=
  | GetWhoami
  | GetInstances
  | PostInstances (body : decoded CreateBody)
  | GetInstance (uuid : string)
  | DeleteInstance (uuid : string)
  | PostAction (action : Action) (uuid : string)
  | PostRename (uuid : string) (new_name : decoded string)
  | PostResize (uuid : string) (body : decoded ResizeBody)
  | PostPort (uuid : string) (port : decoded Z)
  | PostVisibility (uuid : string) (visibility : decoded string)
  | GetShares (uuid : string)
  | PostShares (uuid : string) (user : decoded string)
  | DeleteShare (uuid user : string)
  | GetImages
  | PostImages (body : decoded (string * string))
  | GetSshKeys
  | PostSshKeys (body : decoded (string * string))
  | DeleteSshKeyRoute (id : string)
  | GetDb
  | OtherRoute.

(** [decode_json] and [bad_body]. *)
Definition decode_json {T} (body : decoded T) : A T :=
  match body with Ok v => mret v | Err error => throw (status_error 400 ("bad request body: " +:+ error)) end.

Definition not_found : ApiError := status_error 404 "not found".
Definition is_not_found (error : ApiError) : bool :=
  match find_store (layers error) with Some AsNotFound => true | _ => false end.
Definition BAD_NAME : string :=
  "instance name must be a DNS label: lower-case letters, digits, and hyphens, up to 63 characters".

(** ** Handlers *)

Section Handlers.
Context (self : ApiConfig) (format_time : Z -> string) (from_openssh : string -> option PublicKey).

(** [rfc3339] and [optional_rfc3339]: the epoch has no text. *)
Definition rfc3339 (value : Z) : string := if value =? 0 then EmptyString else format_time value.
Definition optional_rfc3339 (value : option Z) : string := default EmptyString (rfc3339 <$> value).

(** [user_by_id(id).await.map(|user| user.name).unwrap_or_default()]. *)
Definition user_name (id : Z) : A string :=
  r ← attempt (AUserById id);
  mret (match r with Ok user => u_name user | Err _ => EmptyString end).

(** [instance_json], with the names of owners it has asked for. *)
Definition instance_json (i : Instance) (viewer : User) (owners : gmap Z string) : A (InstanceJson * gmap Z string) :=
  '(owner, owners) ←
    match owners !! i_owner_id i with
    | Some owner => mret (owner, owners)
    | None => owner ← user_name (i_owner_id i); mret (owner, <[i_owner_id i := owner]> owners)
    end;
  mret (mkInstanceJson (i_uuid i) (i_name i) owner (State_as_str (i_state i)) (DesiredState_as_str (i_desired_state i))
          (i_address i) (i_mac i) (i_image_name i) (i_base_checksum i) (i_vcpu i) (i_memory_mib i) (i_disk_gib i)
          (i_nested i) (i_ksm i) (i_http_port i) (Visibility_as_str (i_visibility i)) (rfc3339 (i_created_at i))
          (optional_rfc3339 (i_last_seen_at i)) (negb (i_owner_id i =? u_id viewer)), owners).
Fixpoint instances_json (l : list Instance) (viewer : User) (owners : gmap Z string) : A (list InstanceJson) :=
  match l with
  | [] => mret []
  | i :: l =>
      '(json, owners) ← instance_json i viewer owners;
      rest ← instances_json l viewer owners;
      mret (json :: rest)
  end.
Definition own_name (user : User) : gmap Z string := {[ u_id user := u_name user ]}.

Definition list_instances (user : User) : A ApiResponse :=
  owned ← ask_api (AInstancesByOwner (u_id user));
  shared ← ask_api (AInstancesSharedWith (u_id user));
  usage ← ask_api (AUsageFor (u_id user));
  json ← instances_json (owned ++ shared) user (own_name user);
  mret (mkResponse 200 (BodyInstances (sort_by (fun a b => text_lt (ij_name a) (ij_name b)) json) usage)).

Definition holds_share (user : User) (shares : list Share) : bool := existsb (fun s => sh_user_id s =? u_id user) shares.
Definition can_read_instance (i : Instance) (user : User) : A bool :=
  if i_owner_id i =? u_id user then mret true
  else
    r ← attempt (ASharesFor (i_uuid i));
    mret (match r with Ok shares => holds_share user shares | Err _ => false end).

Definition get_instance (user : User) (uuid : string) : A ApiResponse :=
  i ← ask_api (AInstance uuid);
  readable ← can_read_instance i user;
  if negb readable then throw not_found
  else
    '(json, _) ← instance_json i user (own_name user);
    mret (mkResponse 200 (BodyInstance json)).

Definition owned_instance (uuid : string) (user : User) : A Instance :=
  i ← ask_api (AInstance uuid);
  if i_owner_id i =? u_id user then mret i
  else
    r ← attempt (ASharesFor (i_uuid i));
    match r with
    | Ok shares => if holds_share user shares then throw (status_error 403 "only the owner may do this") else throw not_found
    | Err _ => throw not_found
    end.

Definition create_instance (user : User) (body : decoded CreateBody) : A ApiResponse :=
  request ← decode_json body;
  if negb (valid_name (cb_name request)) then mret (error_response 400 BAD_NAME)
  else if is_reserved (cb_name request) (ac_reserved_names self) then mret (reserved_response (cb_name request))
  else if bool_decide (cb_image request = EmptyString) then mret (error_response 400 "image is required")
  else
    i ← ask_api (ACreate user (mkCreateSpec (cb_name request) (cb_image request) (cb_vcpu request) (cb_memory_mib request)
                                 (cb_disk_gib request) (cb_nested request) (default true (cb_ksm request))));
    '(json, _) ← instance_json i user (own_name user);
    mret (mkResponse 201 (BodyInstance json)).

Definition delete_instance (user : User) (uuid : string) : A ApiResponse :=
  i ← owned_instance uuid user;
  _ ← ask_api (ADelete (i_uuid i));
  mret (mkResponse 204 BodyEmpty).

Definition lifecycle_action (user : User) (uuid : string) (action : Action) : A ApiResponse :=
  i ← owned_instance uuid user;
  _ ← ask_api (AAct action (i_uuid i));
  mret (mkResponse 202 (BodyAction action (i_uuid i))).

Definition refreshed (uuid : string) (user : User) : A ApiResponse :=
  i ← ask_api (AInstance uuid);
  '(json, _) ← instance_json i user (own_name user);
  mret (mkResponse 200 (BodyInstance json)).

Definition rename_instance (user : User) (uuid : string) (body : decoded string) : A ApiResponse :=
  i ← owned_instance uuid user;
  new_name ← decode_json body;
  if negb (valid_name new_name) then mret (error_response 400 BAD_NAME)
  else if is_reserved new_name (ac_reserved_names self) then mret (reserved_response new_name)
  else
    _ ← ask_api (ARename (i_uuid i) new_name);
    refreshed (i_uuid i) user.

Definition resize_spec (i : Instance) (request : ResizeBody) : ResizeSpec :=
  mkResizeSpec (if rb_vcpu request =? 0 then i_vcpu i else rb_vcpu request)
    (if rb_memory_mib request =? 0 then i_memory_mib i else rb_memory_mib request)
    (if rb_disk_gib request =? 0 then i_disk_gib i else rb_disk_gib request)
    (default (i_nested i) (rb_nested request)).
Definition resize_instance (user : User) (uuid : string) (body : decoded ResizeBody) : A ApiResponse :=
  i ← owned_instance uuid user;
  request ← decode_json body;
  let spec := resize_spec i request in
  if (rz_vcpu spec <? 1) || (rz_memory_mib spec <? 1) then mret (error_response 400 "vcpu and memory_mib must be positive")
  else if rz_disk_gib spec <? i_disk_gib i then mret (error_response 400 "the disk can grow but never shrink")
  else
    _ ← ask_api (AResize (i_uuid i) spec);
    refreshed (i_uuid i) user.

Definition set_port (user : User) (uuid : string) (body : decoded Z) : A ApiResponse :=
  i ← owned_instance uuid user;
  port ← decode_json body;
  if port =? 0 then mret (error_response 400 "port must be between 1 and 65535")
  else
    _ ← ask_api (ASetHttpPort (i_uuid i) port);
    refreshed (i_uuid i) user.

(** A quotation mark of a message. *)
Definition QUOTE : string := String (ascii_of_code 34) EmptyString.
Definition quoted (s : string) : string := QUOTE +:+ s +:+ QUOTE.
Definition set_visibility (user : User) (uuid : string) (body : decoded string) : A ApiResponse :=
  i ← owned_instance uuid user;
  text ← decode_json body;
  match visibility_named text with
  | None =>
      mret (error_response 400 ("visibility must be " +:+ quoted "off" +:+ ", " +:+ quoted "private" +:+ ", or " +:+ quoted "public"))
  | Some visibility =>
      _ ← ask_api (ASetVisibility (i_uuid i) visibility);
      refreshed (i_uuid i) user
  end.

Fixpoint shares_json (shares : list Share) : A (list ShareJson) :=
  match shares with
  | [] => mret []
  | share :: shares =>
      name ← user_name (sh_user_id share);
      rest ← shares_json shares;
      mret (mkShareJson name (rfc3339 (sh_created_at share)) :: rest)
  end.
Definition list_shares (user : User) (uuid : string) : A ApiResponse :=
  i ← owned_instance uuid user;
  shares ← ask_api (ASharesFor (i_uuid i));
  json ← shares_json shares;
  mret (mkResponse 200 (BodyShares json)).

(** The match on [user_by_name] of [add_share] and [remove_share]. *)
Definition share_target (name : string) : A User :=
  r ← attempt (AUserByName name);
  match r with
  | Ok target => mret target
  | Err error => if is_not_found error then throw (status_error 404 ("no user named " +:+ name)) else throw error
  end.
Definition add_share (user : User) (uuid : string) (body : decoded string) : A ApiResponse :=
  i ← owned_instance uuid user;
  name ← decode_json body;
  target ← share_target name;
  if u_id target =? u_id user then mret (error_response 400 "you already own this instance")
  else
    _ ← ask_api (AAddShare (i_uuid i) (u_id target));
    mret (mkResponse 201 (BodyShare (mkShareJson (u_name target) EmptyString))).
Definition remove_share (user : User) (uuid target_name : string) : A ApiResponse :=
  i ← owned_instance uuid user;
  target ← share_target target_name;
  _ ← ask_api (ARemoveShare (i_uuid i) (u_id target));
  mret (mkResponse 204 BodyEmpty).

Definition is_operator (user : User) : bool := match ac_is_operator self with Some p => p user | None => false end.
Definition handle_whoami (user : User) : A ApiResponse :=
  usage ← ask_api (AUsageFor (u_id user));
  let operator := is_operator user in
  mret (mkResponse 200 (BodyWhoami (u_id user) (u_name user) (u_email user) (rfc3339 (u_created_at user)) usage operator
                          (if operator then ac_db_path self else EmptyString))).

(** [images_with_counts]: the checksums in force, and the instances that hold
    another one. *)
Definition add_checksum (m : gmap string string) (image : Image) : gmap string string :=
  <[img_name image := default EmptyString (img_current_checksum image)]> m.
Definition current_checksums (images : list Image) : gmap string string := foldl add_checksum ∅ images.
Definition add_older (current : gmap string string) (m : gmap string Z) (i : Instance) : gmap string Z :=
  match current !! i_image_name i with
  | Some checksum =>
      if negb (bool_decide (i_base_checksum i = EmptyString)) && negb (bool_decide (i_base_checksum i = checksum))
      then <[i_image_name i := default 0 (m !! i_image_name i) + 1]> m else m
  | None => m
  end.
Definition older_counts (current : gmap string string) (l : list Instance) : gmap string Z := foldl (add_older current) ∅ l.
Definition image_json (older : gmap string Z) (image : Image) : ImageJson :=
  mkImageJson (img_name image) (img_url image) (img_url image) (ImageKind_as_str (img_kind image))
    (default EmptyString (img_pinned_checksum image)) (default EmptyString (img_current_checksum image))
    (default 0 (older !! img_name image)).
Definition images_with_counts : A (list ImageJson) :=
  images ← ask_api AImages;
  instances ← ask_api AInstances;
  mret (image_json (older_counts (current_checksums images) instances) <$> images).
Definition list_images : A ApiResponse :=
  images ← images_with_counts;
  mret (mkResponse 200 (BodyImages images)).

Definition add_image (user : User) (body : decoded (string * string)) : A ApiResponse :=
  if negb (is_operator user) then mret (error_response 403 "operator only")
  else
    '(name, reference) ← decode_json body;
    if negb (ac_image_admin self) then mret (error_response 503 "runtime image management is unavailable")
    else
      _ ← ask_api (AAddOciImage name reference);
      mret (mkResponse 201 (BodyName name)).

Definition key_json (key : SshKey) : SshKeyJson :=
  mkSshKeyJson (k_id key) (k_fingerprint key) (k_comment key) (k_public_key key) (rfc3339 (k_created_at key)).
Definition list_ssh_keys (user : User) : A ApiResponse :=
  keys ← ask_api (ASshKeysForUser (u_id user));
  mret (mkResponse 200 (BodyKeys (key_json <$> keys))).
Definition add_ssh_key (user : User) (body : decoded (string * string)) : A ApiResponse :=
  '(text, given) ← decode_json body;
  match from_openssh text with
  | None => mret (error_response 400 "not a valid SSH public key")
  | Some key =>
      let comment := if bool_decide (given = EmptyString) then pk_comment key else given in
      id ← ask_api (AAddSshKey (u_id user) text (pk_fingerprint key) comment);
      mret (mkResponse 201 (BodyKey (mkSshKeyJson id (pk_fingerprint key) comment text EmptyString)))
  end.
Definition delete_ssh_key (user : User) (id : string) : A ApiResponse :=
  match parse_i64 id with
  | None => mret (error_response 400 "bad key id")
  | Some id =>
      _ ← ask_api (ADeleteSshKey (u_id user) id);
      mret (mkResponse 204 BodyEmpty)
  end.

(** [dump_db]: the directory goes with its guard, however the handler ends. *)
Definition dump_into (directory : string) : A ApiResponse :=
  let destination := directory +:+ "/bento.db" in
  _ ← ask_api (ADumpDb destination);
  bytes ← ask_api (AReadFile destination);
  timestamp ← get ATimestamp;
  mret (mkResponse 200 (BodyDump bytes ("attachment; filename=" +:+ quoted ("bento-" +:+ timestamp +:+ ".db")))).
Definition dump_db (user : User) : A ApiResponse :=
  if negb (is_operator user) then mret (error_response 403 "operator only")
  else
    directory ← ask_api ATempDir;
    prog_bind _ _ (fun r => Call (ADropTempDir directory) (fun _ => Ret r)) (dump_into directory).

Definition handle (request : ApiRequest) (user : User) : A ApiResponse :=
  match request with
  | GetWhoami => handle_whoami user
  | GetInstances => list_instances user
  | PostInstances body => create_instance user body
  | GetInstance uuid => get_instance user uuid
  | DeleteInstance uuid => delete_instance user uuid
  | PostAction action uuid => lifecycle_action user uuid action
  | PostRename uuid body => rename_instance user uuid body
  | PostResize uuid body => resize_instance user uuid body
  | PostPort uuid body => set_port user uuid body
  | PostVisibility uuid body => set_visibility user uuid body
  | GetShares uuid => list_shares user uuid
  | PostShares uuid body => add_share user uuid body
  | DeleteShare uuid target => remove_share user uuid target
  | GetImages => list_images
  | PostImages body => add_image user body
  | GetSshKeys => list_ssh_keys user
  | PostSshKeys body => add_ssh_key user body
  | DeleteSshKeyRoute id => delete_ssh_key user id
  | GetDb => dump_db user
  | OtherRoute => mret (error_response 404 "not found")
  end.

(** [HandlerError::into_response]. *)
Definition into_response (debug_duration : Z -> string) (r : result ApiError ApiResponse) : ApiResponse :=
  match r with Ok response => response | Err error => mapped_error debug_duration error end.
(** [router] behind [authenticate]. *)
Definition api (debug_duration : Z -> string) (request : ApiRequest) : prog acall ApiResponse :=
  Call AUserFromHeaders (fun r =>
    match r with
    | Ok user => prog_bind _ _ (fun r => Ret (into_response debug_duration r)) (handle request user)
    | Err _ => Ret (error_response 401 "unauthorized")
    end).
End Handlers.
