(* ===== verification/ApiRuns.v ===== *)
(** * ApiRuns: what the JSON interface does for a user

    Every run of every route, whatever the authenticator, the store and the
    lifecycle answer. *)

From Stdlib Require Import ZArith Lia.
From S2P Require Import Prelude Text Types Db Accounts Prog Pool Lifecycle Cli Api.
Open Scope Z_scope.

Section Runs.
#[local] Instance A_ret : MRet A := fallible_ret.
#[local] Instance A_bind : MBind A := fallible_bind.
Context (self : ApiConfig) (format_time : Z -> string) (from_openssh : string -> option PublicKey).

(** ** What a call may be *)

Section User.
Variable user : User.

(** The store said that this user owns the instance of this identifier. *)
Definition owns (before : list (event acall)) (uuid : string) : Prop :=
  exists key i, mkEvent (AInstance key) (Ok i) ∈ before /\ i_uuid i = uuid /\ i_owner_id i = u_id user.
Definition user_may {R} (before : list (event acall)) (c : acall R) : Prop :=
  match c with
  | AUserFromHeaders => False
  | AInstancesByOwner id | AInstancesSharedWith id | AUsageFor id | ASshKeysForUser id
  | ADeleteSshKey id _ | AAddSshKey id _ _ _ => id = u_id user
  | ASharesFor uuid => exists key i, mkEvent (AInstance key) (Ok i) ∈ before /\ i_uuid i = uuid
  | AAddShare uuid id => owns before uuid /\ id <> u_id user
  | ARemoveShare uuid _ | ADelete uuid | AAct _ uuid | ASetVisibility uuid _ => owns before uuid
  | ASetHttpPort uuid port => owns before uuid /\ port <> 0
  | ARename uuid new_name =>
      owns before uuid /\ valid_name new_name = true /\ is_reserved new_name (ac_reserved_names self) = false
  | AResize uuid spec =>
      exists key i, mkEvent (AInstance key) (Ok i) ∈ before /\ i_uuid i = uuid /\ i_owner_id i = u_id user /\
        1 <= rz_vcpu spec /\ 1 <= rz_memory_mib spec /\ i_disk_gib i <= rz_disk_gib spec
  | ACreate owner spec =>
      owner = user /\ valid_name (sp_name spec) = true /\ is_reserved (sp_name spec) (ac_reserved_names self) = false /\
      sp_image spec <> EmptyString
  | AAddOciImage _ _ => is_operator self user = true /\ ac_image_admin self = true
  | ATempDir | ADumpDb _ | AReadFile _ => is_operator self user = true
  | AInstances => exists images, mkEvent AImages (Ok images) ∈ before
  | _ => True
  end.

(** ** What has been answered *)

(** A change that was refused. *)
Definition is_Err {X T} (r : result X T) : bool := match r with Err _ => true | Ok _ => false end.
Definition refused_change (e : event acall) : bool :=
  match ev_call e in acall R return R -> bool with
  | AAddShare _ _ | ARemoveShare _ _ | ADeleteSshKey _ _ | ADumpDb _ | AAddOciImage _ _
  | ADelete _ | AAct _ _ | ARename _ _ | AResize _ _ | ASetHttpPort _ _ | ASetVisibility _ _ => is_Err
  | AAddSshKey _ _ _ _ => is_Err
  | ACreate _ _ => is_Err
  | _ => fun _ => false
  end (ev_reply e).
Definition all_done (tr : list (event acall)) : Prop := Forall (fun e => refused_change e = false) tr.
(** The directory of a dump is gone. *)
Definition tidy (tr : list (event acall)) : Prop :=
  forall d, mkEvent ATempDir (Ok d) ∈ tr -> mkEvent (ADropTempDir d) tt ∈ tr.
(** The instance shown is one the user owns or has a share of, one the user
    has just made, or what became of one the user owns. *)
Definition shown (tr : list (event acall)) (json : InstanceJson) : Prop :=
  exists i, ij_uuid json = i_uuid i /\ ij_name json = i_name i /\
    ((exists spec, mkEvent (ACreate user spec) (Ok i) ∈ tr) \/
     exists key, mkEvent (AInstance key) (Ok i) ∈ tr /\
       (i_owner_id i = u_id user \/ owns tr key \/
        exists shares, mkEvent (ASharesFor (i_uuid i)) (Ok shares) ∈ tr /\ holds_share user shares = true)).
(** What identifies an instance in an answer. *)
Definition json_id (json : InstanceJson) : string * string := (ij_uuid json, ij_name json).
Definition row_id (i : Instance) : string * string := (i_uuid i, i_name i).
(** A list of instances: those the store says the user owns and those it says
    are shared with the user, each once, and nothing else. *)
Definition listed (tr : list (event acall)) (instances : list InstanceJson) (usage : Usage) : Prop :=
  exists owned shared, mkEvent (AInstancesByOwner (u_id user)) (Ok owned) ∈ tr /\
    mkEvent (AInstancesSharedWith (u_id user)) (Ok shared) ∈ tr /\ mkEvent (AUsageFor (u_id user)) (Ok usage) ∈ tr /\
    json_id <$> instances ≡ₚ row_id <$> (owned ++ shared).
(** What a body may show. *)
Definition body_shows (tr : list (event acall)) (body : ApiBody) : Prop :=
  match body with
  | BodyInstance json => shown tr json
  | BodyInstances instances usage => listed tr instances usage
  | BodyShares _ => exists uuid, owns tr uuid
  | BodyKeys keys => exists own : list SshKey, mkEvent (ASshKeysForUser (u_id user)) (Ok own) ∈ tr /\ keys = (key_json format_time <$> own : list SshKeyJson)
  | BodyImages images => exists (all : list Image) (instances : list Instance), mkEvent AImages (Ok all) ∈ tr /\ mkEvent AInstances (Ok instances) ∈ tr /\
      images = (image_json (older_counts (current_checksums all) instances) <$> all : list ImageJson)
  | BodyDump _ _ => is_operator self user = true
  | BodyWhoami id _ _ _ _ operator db_path =>
      id = u_id user /\ operator = is_operator self user /\ (operator = false -> db_path = EmptyString)
  | _ => True
  end.
Definition answered (tr : list (event acall)) (response : ApiResponse) : Prop :=
  match ar_body response with
  | BodyError _ _ => True
  | body =>
      200 <= ar_status response <= 204 /\ all_done tr /\ body_shows tr body
  end.
Definition known (tr : list (event acall)) : Prop := mkEvent AUserFromHeaders (Ok user) ∈ tr /\ tidy tr.
Definition good (tr : list (event acall)) : Prop := known tr /\ all_done tr.
Definition done_well (tr : list (event acall)) (r : result ApiError ApiResponse) : Prop :=
  known tr /\ match r with Ok response => answered tr response | Err _ => True end.
End User.

(** First the authenticator, then what its user may do. *)
Definition api_may (before : list (event acall)) (e : event acall) : Prop :=
  match ev_call e with
  | AUserFromHeaders => before = []
  | c => exists user, mkEvent AUserFromHeaders (Ok user) ∈ before /\ user_may user before c
  end.
#[local] Abbreviation does := (after api_may).

Section Handlers.
Variable user : User.

Lemma may_call {R} before (c : acall R) r : known user before -> user_may user before c -> api_may before (mkEvent c r).
Proof. intros [Hu _] Hc. unfold api_may. cbn [ev_call]. destruct c; try (exists user; done). destruct Hc. Qed.

Definition is_temp_dir {R} (c : acall R) : bool := match c with ATempDir => true | _ => false end.
Lemma known_call {R} before (c : acall R) r : known user before -> is_temp_dir c = false -> known user (before ++ [mkEvent c r]).
Proof.
  intros [Hu Ht] Hc. split; [set_solver|]. intros d [Hd|Hd]%elem_of_app; [set_solver|].
  apply list_elem_of_singleton in Hd.
  apply (f_equal (fun e => is_temp_dir (ev_call e))) in Hd. cbn in Hd. congruence.
Qed.
Lemma all_done_snoc before e : all_done before -> refused_change e = false -> all_done (before ++ [e]).
Proof. intros Hb He. apply Forall_app. split; [done|by constructor]. Qed.
Lemma good_snoc {R} before (c : acall R) r :
  good user before -> is_temp_dir c = false -> refused_change (mkEvent c r) = false -> good user (before ++ [mkEvent c r]).
Proof. intros [Hk Hd] Hc Hr. split; [by apply known_call|by apply all_done_snoc]. Qed.

Lemma owns_mono before before' uuid : before ⊆ before' -> owns user before uuid -> owns user before' uuid.
Proof. intros Hs (key & i & Hi & H). exists key, i. split; [by apply Hs|done]. Qed.

(** [c.await?]: a refusal is the handler's answer. *)
Lemma does_ask {T} before (c : acall (result ApiError T)) (k : T -> A ApiResponse) :
  good user before -> user_may user before c -> is_temp_dir c = false ->
  (forall a, refused_change (mkEvent c (Ok a)) = false) ->
  (forall a, good user (before ++ [mkEvent c (Ok a)]) -> does (before ++ [mkEvent c (Ok a)]) (k a) (done_well user)) ->
  does before (fallible_bind _ _ k (ask_api c)) (done_well user).
Proof.
  intros Hg Hm Hc Hr Hk. apply after_try, after_ask; [intros r; apply may_call; [apply Hg|done]|]. intros [a|e]; cbn [map_err].
  - by apply Hk, good_snoc.
  - split; [|exact I]. apply known_call; [apply Hg|done].
Qed.
Lemma does_attempt {X T} before (c : acall (result X T)) (k : result X T -> A ApiResponse) :
  good user before -> user_may user before c -> is_temp_dir c = false ->
  (forall r, refused_change (mkEvent c r) = false) ->
  (forall r, good user (before ++ [mkEvent c r]) -> does (before ++ [mkEvent c r]) (k r) (done_well user)) ->
  does before (fallible_bind _ _ k (attempt c)) (done_well user).
Proof.
  intros Hg Hm Hc Hr Hk. apply after_try, after_attempt; [intros r; apply may_call; [apply Hg|done]|].
  intros r. by apply Hk, good_snoc.
Qed.
Lemma does_throw before e : good user before -> does before (throw e : A ApiResponse) (done_well user).
Proof. intros [Hk _]. by apply after_ret. Qed.
Lemma does_refuse before status message : good user before -> does before (mret (error_response status message) : A ApiResponse) (done_well user).
Proof. intros [Hk _]. by apply after_ret. Qed.
Lemma does_decode {T} before (body : decoded T) (k : T -> A ApiResponse) :
  good user before -> (forall v, body = Ok v -> does before (k v) (done_well user)) ->
  does before (fallible_bind _ _ k (decode_json body)) (done_well user).
Proof. intros Hg Hk. destruct body as [v|e]; [by apply after_try, after_ret, Hk|]. apply after_try, after_ret. split; [apply Hg|done]. Qed.

(** Calls that cannot be refused extend what is known. *)
Definition extends (before tr : list (event acall)) : Prop := before ⊆ tr /\ good user tr.
Lemma does_reads {T} before (p : A T) (k : T -> A ApiResponse) (P : T -> Prop) :
  does before p (fun tr r => extends before tr /\ exists a, r = Ok a /\ P a) ->
  (forall tr a, extends before tr -> P a -> does tr (k a) (done_well user)) ->
  does before (fallible_bind _ _ k p) (done_well user).
Proof. intros Hp Hk. apply after_try. eapply after_mono; [|exact Hp]. intros tr r (He & a & -> & Ha). by apply Hk. Qed.

Lemma reads_user_name before id : good user before ->
  does before (user_name id) (fun tr r => extends before tr /\ exists a, r = Ok a /\ True).
Proof.
  intros Hg. apply after_try, after_attempt; [intros r; apply may_call; [apply Hg|done]|]. intros r. apply after_ret.
  split; [split; [set_solver|by apply good_snoc]|by eexists].
Qed.
Lemma reads_instance_json before i viewer owners : good user before ->
  does before (instance_json format_time i viewer owners) (fun tr r => extends before tr /\ exists a, r = Ok a /\
    ij_uuid a.1 = i_uuid i /\ ij_name a.1 = i_name i).
Proof.
  intros Hg. apply after_try.
  apply after_mono with (Q := fun tr r => extends before tr /\ exists a, r = Ok a /\ True).
  { intros tr r (He & [owner owners'] & -> & _). apply after_ret. split; [done|]. by eexists. }
  destruct (owners !! _); [apply after_ret; split; [by split|by eexists]|].
  apply after_try. eapply after_mono; [|by apply reads_user_name]. intros tr r (He & a & -> & _). apply after_ret. eauto.
Qed.
Lemma reads_instances_json before l viewer owners : good user before ->
  does before (instances_json format_time l viewer owners) (fun tr r => extends before tr /\ exists a, r = Ok a /\
    json_id <$> a = row_id <$> l).
Proof.
  revert before owners. induction l as [|i l IH]; intros before owners Hg; [apply after_ret; split; [by split|by eexists]|].
  apply after_try. eapply after_mono; [|by apply reads_instance_json].
  intros tr r ([Hs Hg'] & [json owners'] & -> & Hu & Hn). apply after_try. eapply after_mono; [|by apply IH].
  intros tr' r ([Hs' Hg''] & a & -> & Ha). apply after_ret. split; [split; [set_solver|done]|].
  eexists. split; [done|]. cbn in *. rewrite Ha. unfold json_id, row_id. by rewrite Hu, Hn.
Qed.
Lemma reads_shares_json before l : good user before ->
  does before (shares_json format_time l) (fun tr r => extends before tr /\ exists a, r = Ok a /\ True).
Proof.
  revert before. induction l as [|s l IH]; intros before Hg; [apply after_ret; split; [by split|by eexists]|].
  apply after_try. eapply after_mono; [|by apply reads_user_name].
  intros tr r ([Hs Hg'] & a & -> & _). apply after_try. eapply after_mono; [|by apply IH].
  intros tr' r ([Hs' Hg''] & b & -> & _). apply after_ret. split; [split; [set_solver|done]|by eexists].
Qed.

(** The response of a run in which every change was made. *)
Lemma does_respond before status body :
  good user before -> 200 <= status <= 204 -> body_shows user before body -> does before (mret (mkResponse status body) : A ApiResponse) (done_well user).
Proof. intros [Hk Hd] Hs Hb. apply after_ret. split; [done|]. unfold answered. by destruct body. Qed.

(** The instance at the end of a handler. *)
Lemma does_show before status i :
  good user before -> 200 <= status <= 204 ->
  (forall json tr, before ⊆ tr -> ij_uuid json = i_uuid i -> ij_name json = i_name i -> shown user tr json) ->
  does before ('(json, _) ← instance_json format_time i user (own_name user);
               mret (mkResponse status (BodyInstance json)) : A ApiResponse) (done_well user).
Proof.
  intros Hg Hs Hj. eapply does_reads; [by apply reads_instance_json|]. intros tr [json owners] [He Hg'] [Hu Hn].
  apply does_respond; [done|done|]. by apply Hj.
Qed.

Lemma does_owned before uuid (k : Instance -> A ApiResponse) : good user before ->
  (forall tr i, good user tr -> mkEvent (AInstance uuid) (Ok i) ∈ tr -> i_owner_id i = u_id user ->
     does tr (k i) (done_well user)) ->
  does before (fallible_bind _ _ k (owned_instance uuid user)) (done_well user).
Proof.
  intros Hg Hk. apply after_try, after_try, after_ask; [intros r; apply may_call; [apply Hg|done]|].
  intros [i|e]; cbn [map_err].
  2: { split; [|done]. apply known_call; [apply Hg|done]. }
  assert (Hg' : good user (before ++ [mkEvent (AInstance uuid) (Ok i)])) by (by apply good_snoc).
  destruct (Z.eqb_spec (i_owner_id i) (u_id user)) as [Ho|Ho]; [apply after_ret, Hk; [done|set_solver|done]|].
  apply after_try, after_attempt.
  { intros r. apply may_call; [apply Hg'|]. exists uuid, i. set_solver. }
  intros r. apply (good_snoc _ (ASharesFor (i_uuid i)) r) in Hg' as [Hk' _]; [|done|done].
  destruct r as [shares|e]; [destruct (holds_share user shares)|]; by apply after_ret.
Qed.
Lemma owns_of tr uuid i : mkEvent (AInstance uuid) (Ok i) ∈ tr -> i_owner_id i = u_id user -> owns user tr (i_uuid i).
Proof. intros Hi Ho. by exists uuid, i. Qed.

Lemma does_refreshed before uuid : good user before -> owns user before uuid ->
  does before (refreshed format_time uuid user) (done_well user).
Proof.
  intros Hg Ho. apply does_ask; [done|done|done|done|]. intros i Hg'.
  apply does_show; [done|lia|]. intros json tr Hs Hu Hn. exists i. split_and!; [done|done|]. right. exists uuid.
  split; [set_solver|]. right. left. eapply owns_mono; [|exact Ho]. set_solver.
Qed.

(** A change to an instance the user owns, and then the instance. *)
Lemma does_change before (c : acall (result ApiError unit)) uuid :
  good user before -> user_may user before c -> is_temp_dir c = false -> refused_change (mkEvent c (Ok tt)) = false ->
  owns user before uuid ->
  does before (_ ← ask_api c; refreshed format_time uuid user : A ApiResponse) (done_well user).
Proof.
  intros Hg Hm Hc Hr Ho. apply does_ask; [done|done|done|by intros []|]. intros [] Hg'.
  apply does_refreshed; [done|]. eapply owns_mono; [|exact Ho]. set_solver.
Qed.

Lemma does_share_target before name (k : User -> A ApiResponse) : good user before ->
  (forall tr target, extends before tr -> does tr (k target) (done_well user)) ->
  does before (fallible_bind _ _ k (share_target name)) (done_well user).
Proof.
  intros Hg Hk. apply after_try, after_try, after_attempt; [intros r; apply may_call; [apply Hg|done]|].
  intros r. assert (Hg' : good user (before ++ [mkEvent (AUserByName name) r])) by (by apply good_snoc).
  destruct r as [target|e]; [apply after_ret, Hk; split; [set_solver|done]|].
  destruct (Api.is_not_found e); apply after_ret; (split; [apply Hg'|done]).
Qed.

(** ** The handlers *)

Lemma does_create before body : good user before -> does before (create_instance self format_time user body) (done_well user).
Proof.
  intros Hg. apply does_decode; [done|]. intros request _. destruct (valid_name _) eqn:Hv; [|by apply does_refuse].
  destruct (is_reserved _ _) eqn:Hr; [by apply does_refuse|]. cbn [negb]. case_bool_decide; [by apply does_refuse|].
  apply does_ask; [done|done|done|done|]. intros i Hg'. apply does_show; [done|lia|].
  intros json tr Hs Hu Hn. exists i. split_and!; [done|done|]. left. eexists. apply Hs, elem_of_app. right. by apply list_elem_of_singleton.
Qed.
Lemma does_get before uuid : good user before -> does before (get_instance format_time user uuid) (done_well user).
Proof.
  intros Hg. apply does_ask; [done|done|done|done|]. intros i Hg'. unfold can_read_instance.
  destruct (Z.eqb_spec (i_owner_id i) (u_id user)) as [Ho|Ho].
  { apply after_try, after_ret. cbn [negb]. apply does_show; [done|lia|]. intros json tr Hs Hu Hn. exists i.
    split_and!; [done|done|]. right. exists uuid. split; [set_solver|by left]. }
  apply after_try, after_try, after_attempt.
  { intros r. apply may_call; [apply Hg'|]. exists uuid, i. set_solver. }
  intros r. assert (Hg2 := good_snoc _ (ASharesFor (i_uuid i)) r Hg' eq_refl eq_refl).
  destruct r as [shares|e]; [destruct (holds_share user shares) eqn:Hh|]; apply after_ret; cbn [negb]; try by apply does_throw.
  apply does_show; [done|lia|]. intros json tr Hs Hu Hn. exists i. split_and!; [done|done|]. right. exists uuid.
  split; [set_solver|]. right. right. exists shares. split; [set_solver|done].
Qed.
Lemma does_delete before uuid : good user before -> does before (delete_instance user uuid) (done_well user).
Proof.
  intros Hg. apply does_owned; [done|]. intros tr i Hg' Hi Ho. apply does_ask; [done|by eapply owns_of|done|by intros []|].
  intros [] Hg2. by apply does_respond.
Qed.
Lemma does_action before uuid action : good user before -> does before (lifecycle_action user uuid action) (done_well user).
Proof.
  intros Hg. apply does_owned; [done|]. intros tr i Hg' Hi Ho. apply does_ask; [done|by eapply owns_of|done|by intros []|].
  intros [] Hg2. by apply does_respond.
Qed.
Lemma does_changes before uuid :
  good user before ->
  (forall body, does before (rename_instance self format_time user uuid body) (done_well user)) /\
  (forall body, does before (resize_instance format_time user uuid body) (done_well user)) /\
  (forall body, does before (set_port format_time user uuid body) (done_well user)) /\
  (forall body, does before (set_visibility format_time user uuid body) (done_well user)).
Proof.
  intros Hg. split_and!; intros body; (apply does_owned; [done|]); intros tr i Hg' Hi Ho; (apply does_decode; [done|]);
    intros v _; pose proof (owns_of _ _ _ Hi Ho) as Hown.
  - destruct (valid_name v) eqn:Hv; [|by apply does_refuse]. destruct (is_reserved v _) eqn:Hr; [by apply does_refuse|].
    by apply does_change.
  - cbv zeta. destruct (Z.ltb_spec (rz_vcpu (resize_spec i v)) 1); [by apply does_refuse|].
    destruct (Z.ltb_spec (rz_memory_mib (resize_spec i v)) 1); [by apply does_refuse|]. cbn [orb].
    destruct (Z.ltb_spec (rz_disk_gib (resize_spec i v)) (i_disk_gib i)); [by apply does_refuse|].
    apply does_change; [done| |done|done|done]. by exists uuid, i.
  - destruct (Z.eqb_spec v 0); [by apply does_refuse|]. by apply does_change.
  - destruct (visibility_named v); [|by apply does_refuse]. by apply does_change.
Qed.
Lemma does_shares before uuid :
  good user before ->
  does before (list_shares format_time user uuid) (done_well user) /\
  (forall body, does before (add_share user uuid body) (done_well user)) /\
  (forall name, does before (remove_share user uuid name) (done_well user)).
Proof.
  intros Hg. split_and!; [|intros body|intros name]; (apply does_owned; [done|]); intros tr i Hg' Hi Ho;
    pose proof (owns_of _ _ _ Hi Ho) as Hown.
  - apply does_ask; [done|by exists uuid, i|done|done|]. intros shares Hg2.
    eapply does_reads; [by apply reads_shares_json|]. intros tr' json [Hs Hg3] _. apply does_respond; [done|lia|].
    exists (i_uuid i). eapply owns_mono; [|exact Hown]. set_solver.
  - apply does_decode; [done|]. intros name _. apply does_share_target; [done|]. intros tr' target [Hs Hg2].
    destruct (Z.eqb_spec (u_id target) (u_id user)); [by apply does_refuse|].
    apply does_ask; [done|by split; [eapply owns_mono|]|done|by intros []|]. intros [] Hg3. by apply does_respond.
  - apply does_share_target; [done|]. intros tr' target [Hs Hg2].
    apply does_ask; [done|by eapply owns_mono|done|by intros []|]. intros [] Hg3. by apply does_respond.
Qed.
Lemma does_lists before :
  good user before ->
  does before (list_instances format_time user) (done_well user) /\ does before (handle_whoami self format_time user) (done_well user) /\
  does before list_images (done_well user) /\ does before (list_ssh_keys format_time user) (done_well user).
Proof.
  intros Hg. split_and!.
  - apply does_ask; [done..|]. intros owned Hg1. apply does_ask; [done..|]. intros shared Hg2.
    apply does_ask; [done..|]. intros usage Hg3. eapply does_reads; [by apply reads_instances_json|].
    intros tr json [Hs Hg'] Hj. apply does_respond; [done|lia|]. exists owned, shared. split_and!; [set_solver..|].
    rewrite <-Hj. apply fmap_Permutation, sort_by_perm.
  - apply does_ask; [done|done|done|done|]. intros usage Hg'. apply does_respond; [done|lia|].
    split_and!; [done|done|]. by intros ->.
  - apply after_try. apply after_try, after_ask; [intros r; apply may_call; [apply Hg|done]|].
    intros [images|e]; cbn [map_err]; [|split; [|done]; apply known_call; [apply Hg|done]].
    assert (Hg' := good_snoc _ AImages (Ok images) Hg eq_refl eq_refl).
    apply after_try, after_ask; [intros r; apply may_call; [apply Hg'|exists images; set_solver]|].
    intros [l|e]; cbn [map_err]; [|split; [|done]; apply known_call; [apply Hg'|done]].
    apply after_ret, does_respond; [by apply good_snoc|lia|]. exists images, l. split_and!; [set_solver|set_solver|done].
  - apply does_ask; [done|done|done|done|]. intros keys Hg'. apply does_respond; [done|lia|].
    exists keys. split; [set_solver|done].
Qed.
Lemma does_keys before :
  good user before ->
  (forall body, does before (add_ssh_key from_openssh user body) (done_well user)) /\
  (forall id, does before (delete_ssh_key user id) (done_well user)).
Proof.
  intros Hg. split.
  - intros body. apply does_decode; [done|]. intros [text given] _. destruct (from_openssh text) as [key|]; [|by apply does_refuse].
    cbv zeta. apply does_ask; [done|done|done|done|]. intros id Hg'. by apply does_respond.
  - intros id. unfold delete_ssh_key. destruct (parse_i64 id); [|by apply does_refuse].
    apply does_ask; [done|done|done|by intros []|]. intros [] Hg'. by apply does_respond.
Qed.
Lemma does_add_image before body : good user before -> does before (add_image self user body) (done_well user).
Proof.
  intros Hg. unfold add_image. destruct (is_operator self user) eqn:Ho; [|by apply does_refuse]. cbn [negb].
  apply does_decode; [done|]. intros [name reference] _. destruct (ac_image_admin self) eqn:Ha; [|by apply does_refuse].
  apply does_ask; [done|done|done|by intros []|]. intros [] Hg'. by apply does_respond.
Qed.

(** The directory an event made. *)
Definition temp_dir_of (e : event acall) : option string :=
  match ev_call e in acall R return R -> option string with
  | ATempDir => fun r => match r with Ok d => Some d | Err _ => None end
  | _ => fun _ => None
  end (ev_reply e).
(** While a dump is made, its directory is the only one left. *)
Definition dumping (d : string) (tr : list (event acall)) : Prop :=
  mkEvent AUserFromHeaders (Ok user) ∈ tr /\
  forall d', mkEvent ATempDir (Ok d') ∈ tr -> d' = d \/ mkEvent (ADropTempDir d') tt ∈ tr.
Lemma dumping_snoc {R} d tr (c : acall R) r : dumping d tr -> is_temp_dir c = false -> dumping d (tr ++ [mkEvent c r]).
Proof.
  intros [Hu Ht] Hc. split; [set_solver|]. intros d' [Hd|Hd]%elem_of_app.
  - destruct (Ht d' Hd); [by left|right; set_solver].
  - apply list_elem_of_singleton, (f_equal (fun e => is_temp_dir (ev_call e))) in Hd. cbn in Hd. congruence.
Qed.
Lemma dumping_start tr d : known user tr -> dumping d (tr ++ [mkEvent ATempDir (Ok d)]).
Proof.
  intros [Hu Ht]. split; [set_solver|]. intros d' [Hd|Hd]%elem_of_app; [right; set_solver|].
  apply list_elem_of_singleton, (f_equal temp_dir_of) in Hd. cbn in Hd. left. congruence.
Qed.
Lemma dumping_end tr d : dumping d tr -> known user (tr ++ [mkEvent (ADropTempDir d) tt]).
Proof.
  intros [Hu Ht]. split; [set_solver|]. intros d' [Hd|Hd]%elem_of_app; [destruct (Ht d' Hd) as [->|]; set_solver|].
  apply list_elem_of_singleton, (f_equal (fun e => is_temp_dir (ev_call e))) in Hd. discriminate Hd.
Qed.
Lemma may_dump {R} d before (c : acall R) r : dumping d before -> user_may user before c -> api_may before (mkEvent c r).
Proof. intros [Hu _] Hc. unfold api_may. cbn [ev_call]. destruct c; try (exists user; done). destruct Hc. Qed.

Lemma does_dump_into before d : is_operator self user = true -> dumping d before -> all_done before ->
  does before (dump_into d) (fun tr r => dumping d tr /\ forall response, r = Ok response -> all_done tr /\
    ar_status response = 200 /\ exists bytes disposition, ar_body response = BodyDump bytes disposition).
Proof.
  intros Ho Hd Ha. unfold dump_into. cbv zeta.
  apply after_try, after_ask; [intros r; by eapply may_dump|]. intros [[]|e]; cbn [map_err]; [|by split; [apply dumping_snoc|]].
  apply (dumping_snoc _ _ (ADumpDb (d +:+ "/bento.db")) (Ok tt)) in Hd; [|done].
  apply after_try, after_ask; [intros r; by eapply may_dump|]. intros [bytes|e]; cbn [map_err]; [|by split; [apply dumping_snoc|]].
  apply (dumping_snoc _ _ (AReadFile (d +:+ "/bento.db")) (Ok bytes)) in Hd; [|done].
  apply after_try, after_get; [intros r; by eapply may_dump|]. intros now. apply after_ret.
  split; [by apply dumping_snoc|]. intros response [= <-]. split; [by repeat apply all_done_snoc|]. cbn. eauto.
Qed.
Lemma does_dump before : good user before -> does before (dump_db self user) (done_well user).
Proof.
  intros Hg. unfold dump_db. destruct (is_operator self user) eqn:Ho; [|by apply does_refuse]. cbn [negb].
  apply after_try, after_ask; [intros r; apply may_call; [apply Hg|done]|]. intros [d|e]; cbn [map_err].
  2: { split; [|done]. destruct Hg as [[Hu Ht] _]. split; [set_solver|]. intros d Hd. apply elem_of_app.
       apply elem_of_app in Hd as [Hd|Hd]; [left; by apply Ht|]. by apply list_elem_of_singleton, (f_equal temp_dir_of) in Hd. }
  apply after_bind. eapply after_mono; [|apply does_dump_into; [done|apply dumping_start, Hg|apply all_done_snoc; [apply Hg|done]]].
  intros tr r [Hd Hr]. apply after_call; [intros []; by eapply may_dump|]. intros []. apply after_ret.
  split; [by apply dumping_end|]. destruct r as [[status body]|e]; [|done].
  destruct (Hr _ eq_refl) as (Ha & Hs & bytes & disposition & Hb). cbn in Hs, Hb. subst.
  split; [cbn; lia|]. split; [by apply all_done_snoc|done].
Qed.

Lemma does_handle before request : good user before -> does before (handle self format_time from_openssh request user) (done_well user).
Proof.
  intros Hg. destruct (does_lists before Hg) as (?&?&?&?), (does_keys before Hg) as [? ?].
  destruct request as [| |body|uuid|uuid|action uuid|uuid body|uuid body|uuid body|uuid body|uuid|uuid body|uuid name| |body| |body|id| |];
    cbn [handle]; try destruct (does_changes before uuid Hg) as (?&?&?&?); try destruct (does_shares before uuid Hg) as (?&?&?);
    auto using does_create, does_get, does_delete, does_action, does_add_image, does_dump, does_refuse.
Qed.
End Handlers.

Lemma does_api (debug_duration : Z -> string) (request : ApiRequest) :
  does [] (api self format_time from_openssh debug_duration request) (fun tr response =>
    (exists e, tr = [mkEvent AUserFromHeaders (Err e)] /\ response = error_response 401 "unauthorized") \/
     exists user, known user tr /\ answered user tr response).
Proof.
  apply after_call; [done|]. intros [user|e]; [|apply after_ret; left; by eexists].
  apply after_bind. eapply after_mono; [|apply (does_handle user)].
  - intros tr r [Hk Hr]. apply after_ret. right. exists user. split; [done|]. destruct r as [response|e]; [done|].
    cbn [into_response]. unfold mapped_error. destruct (find_store _) as [[]|]; try done; by destruct (error_parts _ _).
  - split; [split; [set_solver|]|by constructor]. intros d Hd. apply list_elem_of_singleton in Hd.
    apply (f_equal (fun e => is_temp_dir (ev_call e))) in Hd. discriminate Hd.
Qed.

(** C8. The JSON interface acts for the signed-in user only.  Whatever is asked
    and answered, the authenticator comes first, and without a user nothing
    else is called and the answer is 401.  With one, instances are deleted,
    started, stopped, restarted, renamed, resized, published and shared only
    when the store said this user owns them; new names are valid and not
    reserved, a disk never shrinks, an instance is created for the user, keys
    are the user's own, and images are added and the database is dumped for
    operators only.  An answer that is no error has a status from 200 to 204
    and comes only when every change was accepted; a single instance is shown
    to its owner or somebody it is shared with; a list of instances is exactly
    those the store said the user owns and those it said are shared with the
    user (everybody's instances are asked for only after the images, and only
    counted by image); a list of keys is exactly the user's; the database path
    is shown to operators; and the directory of a dump is always removed. *)
Theorem api_respects_ownership (debug_duration : Z -> string) (request : ApiRequest) :
  always (api self format_time from_openssh debug_duration request) (fun tr response =>
    allowed api_may [] tr /\
    ((exists e, tr = [mkEvent AUserFromHeaders (Err e)] /\ response = error_response 401 "unauthorized") \/
     exists user, known user tr /\ answered user tr response)).
Proof. exact (does_api debug_duration request). Qed.
End Runs.

(** ** The images list, here and on the command line *)

Lemma current_checksums_spec images m :
  NoDup (img_name <$> images) ->
  (forall image, image ∈ images ->
     foldl add_checksum m images !! img_name image = Some (default EmptyString (img_current_checksum image))) /\
  (forall name, name ∉ img_name <$> images -> foldl add_checksum m images !! name = m !! name).
Proof.
  revert m. induction images as [|x images IH]; intros m; [intros _; split; [set_solver|done]|].
  rewrite fmap_cons. intros [Hx Hn]%NoDup_cons. cbn [foldl].
  destruct (IH (add_checksum m x) Hn) as [IH1 IH2]. split.
  - intros image [->|Hi]%elem_of_cons; [|by apply IH1]. rewrite IH2 by done. apply lookup_insert_eq.
  - intros name [Hx' Hr]%not_elem_of_cons. rewrite IH2 by done. by apply lookup_insert_ne.
Qed.

Definition holds_older (current : gmap string string) (name : string) (i : Instance) : bool :=
  bool_decide (i_image_name i = name) &&
  match current !! name with
  | Some checksum => negb (bool_decide (i_base_checksum i = EmptyString)) && negb (bool_decide (i_base_checksum i = checksum))
  | None => false
  end.
Lemma older_counts_spec current l name :
  default 0 (older_counts current l !! name) = Z.of_nat (length (List.filter (holds_older current name) l)).
Proof.
  unfold older_counts. enough (H : forall m, default 0 (foldl (add_older current) m l !! name) =
    default 0 (m !! name) + Z.of_nat (length (List.filter (holds_older current name) l))) by (rewrite H, lookup_empty; done).
  induction l as [|i l IH]; intros m; [cbn; lia|]. cbn [foldl List.filter]. rewrite IH.
  replace (holds_older current name i) with (bool_decide (i_image_name i = name) &&
    match current !! i_image_name i with
    | Some checksum => negb (bool_decide (i_base_checksum i = EmptyString)) && negb (bool_decide (i_base_checksum i = checksum))
    | None => false
    end) by (unfold holds_older; case_bool_decide; by subst).
  unfold add_older. destruct (current !! i_image_name i); [|by rewrite andb_false_r].
  destruct (negb _ && _); [|by rewrite andb_false_r]. rewrite andb_true_r. case_bool_decide as Hn.
  - subst name. rewrite lookup_insert_eq. cbn [default from_option id length]. lia.
  - by rewrite lookup_insert_ne.
Qed.

(** The images page and the [images] command agree: when no two images have
    the same name and every instance knows the checksum it was built from,
    both show for every image the same number of instances that hold an
    older version. *)
Theorem image_counts_agree (images : list Image) (instances : list Instance) (image : Image) :
  NoDup (img_name <$> images) -> Forall (fun i => i_base_checksum i <> EmptyString) instances -> image ∈ images ->
  mj_instances_on_older_versions (image_json (older_counts (current_checksums images) instances) image) =
  Z.of_nat (older_count instances image).
Proof.
  intros Hn Hb Hi. cbn [image_json mj_instances_on_older_versions]. rewrite older_counts_spec. f_equal. unfold older_count.
  destruct (current_checksums_spec images ∅ Hn) as [Hc _]. specialize (Hc image Hi).
  induction Hb as [|i l Hi' _ IH]; [done|]. rewrite filter_cons. cbn [List.filter].
  replace (holds_older (current_checksums images) (img_name image) i)
    with (bool_decide (i_image_name i = img_name image /\ Some (i_base_checksum i) <> img_current_checksum image)).
  - destruct (decide _) as [H|H].
    + rewrite bool_decide_eq_true_2 by done. cbn [length]. by f_equal.
    + by rewrite bool_decide_eq_false_2.
  - unfold holds_older, current_checksums. rewrite Hc, bool_decide_and. f_equal.
    rewrite (bool_decide_eq_false_2 (i_base_checksum i = EmptyString)) by done. cbn [negb andb].
    rewrite <-bool_decide_not. apply bool_decide_ext. destruct (img_current_checksum image); cbn; naive_solver.
Qed.

Definition image_built (uuid checksum : string) : Instance :=
  mkInstance uuid uuid 1 1 "debian" checksum Running WantRunning "10.0.0.2" "02:00:00:00:00:01" 1 1024 10 false true 80 Off 0 None None.
Lemma image_counts_agree_witness :
  let images := [mkImage "debian" "https://example.org/debian.qcow2" Qcow2 None (Some "sha256:b");
                 mkImage "arch" "https://example.org/arch.qcow2" Qcow2 None None] in
  let instances := [image_built "a" "sha256:a"; image_built "b" "sha256:b"; image_built "c" "sha256:a"] in
  mj_instances_on_older_versions
    (image_json (older_counts (current_checksums images) instances)
       (mkImage "debian" "https://example.org/debian.qcow2" Qcow2 None (Some "sha256:b"))) = 2.
Proof.
  cbv zeta. rewrite image_counts_agree; [vm_compute; reflexivity| | |].
  - cbn. repeat constructor; set_solver.
  - repeat constructor; discriminate.
  - left.
Defined.
(** An instance without a checksum is counted on the command line only. *)
Lemma image_counts_differ :
  let image := mkImage "debian" "https://example.org/debian.qcow2" Qcow2 None (Some "sha256:b") in
  mj_instances_on_older_versions (image_json (older_counts (current_checksums [image]) [image_built "a" EmptyString]) image) = 0 /\
  older_count [image_built "a" EmptyString] image = 1%nat.
Proof. vm_compute. done. Qed.
