(* ===== verification/Backend.v ===== *)
(** * Backend: the lifecycle behind the command line and the JSON interface

    [bentod/src/adapters.rs]: [Backend], [CliBackend], [ApiBackend] and
    [ApiStore] implement what [crates/cli] and [crates/api] ask for with the
    lifecycle manager, the store and the firewall.  [web] and [shell] are the
    two interfaces on top of them.  The texts of errors are parameters. *)

From Stdlib Require Import ZArith Lia.
From S2P Require Import Prelude Text Types Db Accounts Prog Pool Lifecycle Cli Api.
Open Scope Z_scope.

(** What the two interfaces rest on: the manager's calls, the store, the
    firewall, and what is no part of the control plane. *)
Inductive bcall : Type -> Type :=
  | BLife {R} (c : lcall R) : bcall R
  | BReload : bcall (result (string * list string) unit)
  | BUserById (id : Z) : bcall (result StoreError User)
  | BUserByName (name : string) : bcall (result StoreError User)
  | BUsageFor (user_id : Z) : bcall (result StoreError Usage)
  | BInstance (uuid : string) : bcall (result StoreError Instance)
  | BInstanceByName (name : string) : bcall (result StoreError Instance)
  | BInstancesByOwner (owner_id : Z) : bcall (result StoreError (list Instance))
  | BInstancesSharedWith (user_id : Z) : bcall (result StoreError (list Instance))
  | BInstances : bcall (result StoreError (list Instance))
  | BHasAccess (uuid : string) (user_id : Z) : bcall (result StoreError bool)
  | BAddShare (uuid : string) (user_id : Z) : bcall (result StoreError unit)
  | BRemoveShare (uuid : string) (user_id : Z) : bcall (result StoreError unit)
  | BSharesFor (uuid : string) : bcall (result StoreError (list Share))
  | BImages : bcall (result StoreError (list Image))
  | BAddSshKey (user_id : Z) (public_key fingerprint comment : string) : bcall (result StoreError Z)
  | BSshKeysForUser (user_id : Z) : bcall (result StoreError (list SshKey))
  | BDeleteSshKey (user_id key_id : Z) : bcall (result StoreError unit)
  | BDumpDb (destination : string) : bcall (result StoreError unit)
  | BSetHttpPort (uuid : string) (port : Z) : bcall (result StoreError unit)
  | BSetVisibility (uuid : string) (v : Visibility) : bcall (result StoreError unit)
  | BWeb {R} (c : acall R) : bcall R
  | BTerm {R} (c : ccall R) : bcall R.

(** [Result<A, X>] of a backend, [c.await.map_err(f)?] and [p.await.map_err(f)]. *)
Definition W (X A : Type) : Type := fallible bcall X A.
#[local] Instance W_ret {X} : MRet (W X) := fallible_ret.
#[local] Instance W_bind {X} : MBind (W X) := fallible_bind.
Definition asks {X Y A} (c : bcall (result Y A)) (f : Y -> X) : W X A := ask c f.
Definition mapping {X Y A} (f : X -> Y) (p : W X A) : W Y A := prog_bind _ _ (fun r => Ret (map_err f r)) p.

(** [Backend], without the manager and the store. *)
Record Backend : Type := mkBackend { bk_host_id : Z; bk_frontend_key : string; bk_firewall : bool }.

Section Backend.
Context (sha256 : string -> list Z) (manager : Manager) (backend : Backend).
Context (show_error : Error -> string) (error_sources : Error -> list string)
        (show_store : StoreError -> string) (store_sources : StoreError -> list string).

Definition lives {A} (p : M A) : W Error A := lift (@BLife) p.

(** [Backend::reload_firewall]. *)
Definition reload_firewall : W (string * list string) unit :=
  if bk_firewall backend then asks BReload id else mret tt.

(** [Backend::new_request]; the store's errors are wrapped by [anyhow]. *)
Definition anyhow (e : StoreError) : string * list string := (show_store e, store_sources e).
Definition new_request (owner_id : Z) (spec : CreateSpec) : W (string * list string) NewRequest :=
  owner ← asks (BUserById owner_id) anyhow;
  keys ← asks (BSshKeysForUser owner_id) anyhow;
  mret (mkNewRequest (sp_name spec) owner (bk_host_id backend)
          ((k_public_key <$> (keys : list SshKey)) ++
           (if bool_decide (bk_frontend_key backend = EmptyString) then [] else [bk_frontend_key backend]))
          (sp_image spec) (sp_vcpu spec) (sp_memory_mib spec) (sp_disk_gib spec) (sp_nested spec) (negb (sp_ksm spec)) 0).

(** ** The JSON interface's side *)

(** [api_store_error_ref] and [api_store_error]. *)
Definition api_store_error_ref (e : StoreError) : option ApiStoreError :=
  match e with
  | NotFound => Some AsNotFound
  | NameTaken => Some AsNameTaken
  | SshKeyTaken => Some AsSshKeyTaken
  | NoPlacement reasons => Some (AsNoPlacement reasons)
  | OverCapacity resource used requested limit => Some (AsCapacity resource used requested limit)
  | NameCooldown name remaining => Some (AsNameCooldown name remaining)
  | _ => None
  end.
Definition raw_store_error (e : StoreError) : ApiError := mkApiError (LayerOther (show_store e)) (LayerOther <$> store_sources e).
Definition api_store_error (e : StoreError) : ApiError :=
  match api_store_error_ref e with Some x => mkApiError (LayerStore x) [] | None => raw_store_error e end.

(** The store's error in the chain of a lifecycle error. *)
Fixpoint store_in_chain (e : Error) : option ApiStoreError :=
  match e with
  | Caused (DynStore s) => api_store_error_ref s
  | Caused (DynLifecycle e) => store_in_chain e
  | _ => None
  end.
(** [api_lifecycle_error]. *)
Definition lifecycle_status (e : Error) : option Z :=
  match e with
  | FleetImageNotReady _ _ | RenameNeedsStop _ _ | CopySourceRunning _ _ | CopyAcrossMachines _ _ _
  | NestedUnavailable _ | NoImageVersion _ => Some 409
  | DiskShrink _ _ _ => Some 400
  | _ => None
  end.
Definition api_lifecycle_error (e : Error) : ApiError :=
  match lifecycle_status e with
  | Some status => status_error status (show_error e)
  | None =>
      match store_in_chain e with
      | Some x => mkApiError (LayerStore x) []
      | None => mkApiError (LayerOther (show_error e)) (LayerOther <$> error_sources e)
      end
  end.

(** [?] of an [anyhow::Error], and [io::Error::other(..)]. *)
Definition api_any (e : string * list string) : ApiError := mkApiError (LayerOther e.1) (LayerOther <$> e.2).
Definition api_after (what : string) (e : string * list string) : ApiError :=
  mkApiError (LayerOther (what +:+ ", firewall reload failed: " +:+ e.1)) [].

Definition api_create (owner : User) (spec : CreateSpec) : W ApiError Instance :=
  request ← mapping api_any (new_request (u_id owner) spec);
  i ← mapping api_lifecycle_error (lives (Lifecycle.create sha256 manager request));
  _ ← mapping (api_after "instance created") reload_firewall;
  mret i.
Definition api_delete (uuid : string) : W ApiError unit :=
  _ ← mapping api_lifecycle_error (lives (Lifecycle.remove manager uuid));
  mapping api_any reload_firewall.
Definition api_act (action : Action) (uuid : string) : W ApiError unit :=
  match action with
  | StartAction => mapping api_lifecycle_error (lives (Lifecycle.start manager uuid))
  | StopAction => _ ← mapping api_lifecycle_error (lives (Lifecycle.stop manager uuid)); mret tt
  | RestartAction => mapping api_lifecycle_error (lives (Lifecycle.restart manager uuid))
  end.
Definition api_resize (uuid : string) (spec : ResizeSpec) : W ApiError unit :=
  _ ← mapping api_lifecycle_error (lives (Lifecycle.resize manager
        (mkResizeRequest uuid (rz_vcpu spec) (rz_memory_mib spec) (rz_disk_gib spec) (rz_nested spec))));
  mret tt.
(** The store's error goes up as it is. *)
Definition api_set_http_port (uuid : string) (port : Z) : W ApiError unit :=
  _ ← asks (BSetHttpPort uuid port) raw_store_error;
  mapping api_any reload_firewall.
Definition api_set_visibility (uuid : string) (v : Visibility) : W ApiError unit :=
  _ ← asks (BSetVisibility uuid v) raw_store_error;
  mapping api_any reload_firewall.

(** [ApiBackend] and [ApiStore]. *)
Definition api_backend {R} (c : acall R) : prog bcall R :=
  match c in acall R return prog bcall R with
  | AUserById id => ask (BUserById id) api_store_error
  | AUserByName name => ask (BUserByName name) api_store_error
  | AUsageFor id => ask (BUsageFor id) api_store_error
  | AInstance uuid => ask (BInstance uuid) api_store_error
  | AInstancesByOwner id => ask (BInstancesByOwner id) api_store_error
  | AInstancesSharedWith id => ask (BInstancesSharedWith id) api_store_error
  | AInstances => ask BInstances api_store_error
  | AAddShare uuid id => ask (BAddShare uuid id) api_store_error
  | ARemoveShare uuid id => ask (BRemoveShare uuid id) api_store_error
  | ASharesFor uuid => ask (BSharesFor uuid) api_store_error
  | AImages => ask BImages api_store_error
  | AAddSshKey id key fingerprint comment => ask (BAddSshKey id key fingerprint comment) api_store_error
  | ASshKeysForUser id => ask (BSshKeysForUser id) api_store_error
  | ADeleteSshKey id key => ask (BDeleteSshKey id key) api_store_error
  | ADumpDb destination => ask (BDumpDb destination) api_store_error
  | ACreate owner spec => api_create owner spec
  | ADelete uuid => api_delete uuid
  | AAct action uuid => api_act action uuid
  | ARename uuid new_name => mapping api_lifecycle_error (lives (Lifecycle.rename manager uuid new_name))
  | AResize uuid spec => api_resize uuid spec
  | ASetHttpPort uuid port => api_set_http_port uuid port
  | ASetVisibility uuid v => api_set_visibility uuid v
  | c => call (BWeb c)
  end.

(** The JSON interface as the process serves it. *)
Definition web (self : ApiConfig) (format_time : Z -> string) (from_openssh : string -> option PublicKey)
    (debug_duration : Z -> string) (request : ApiRequest) : prog bcall ApiResponse :=
  interp (@api_backend) (api self format_time from_openssh debug_duration request).

(** ** The command line's side *)

(** A store error keeps its type; [anyhow], the lifecycle and [io::Error::other]
    hide it from a downcast. *)
Definition cli_store (e : StoreError) : BoxError := mkBox (Some e) (show_store e) (store_sources e).
Definition cli_lifecycle (e : Error) : BoxError := mkBox None (show_error e) (error_sources e).
Definition cli_any (e : string * list string) : BoxError := mkBox None e.1 e.2.
Definition cli_after (what : string) (e : string * list string) : BoxError :=
  mkBox None (what +:+ ", firewall reload failed: " +:+ e.1) [].

Definition cli_spec (request : CreateRequest) : CreateSpec :=
  mkCreateSpec (cr_name request) (cr_image request) (cr_vcpu request) (cr_memory_mib request) (cr_disk_gib request)
    (cr_nested request) (cr_ksm request).
Definition cli_create (request : CreateRequest) : W BoxError Instance :=
  request ← mapping cli_any (new_request (cr_owner_id request) (cli_spec request));
  i ← mapping cli_lifecycle (lives (Lifecycle.create sha256 manager request));
  _ ← mapping (cli_after "instance created") reload_firewall;
  mret i.
Definition cli_copy (source : Instance) (request : CreateRequest) : W BoxError Instance :=
  request ← mapping cli_any (new_request (cr_owner_id request) (cli_spec request));
  i ← mapping cli_lifecycle (lives (Lifecycle.copy sha256 manager (i_uuid source) request));
  _ ← mapping (cli_after "instance copied") reload_firewall;
  mret i.
Definition cli_remove (i : Instance) : W BoxError unit :=
  _ ← mapping cli_lifecycle (lives (Lifecycle.remove manager (i_uuid i)));
  mapping (cli_after "instance removed") reload_firewall.
Definition cli_resize (i : Instance) (request : Cli.ResizeRequest) : W BoxError unit :=
  _ ← mapping cli_lifecycle (lives (Lifecycle.resize manager
        (mkResizeRequest (i_uuid i) (default (i_vcpu i) (cz_vcpu request)) (default (i_memory_mib i) (cz_memory_mib request))
           (default (i_disk_gib i) (cz_disk_gib request)) (default (i_nested i) (cz_nested request)))));
  mret tt.
Definition cli_set_http_port (i : Instance) (port : Z) : W BoxError unit :=
  _ ← asks (BSetHttpPort (i_uuid i) port) cli_store;
  mapping (cli_after "port stored") reload_firewall.
Definition cli_set_visibility (i : Instance) (v : Visibility) : W BoxError unit :=
  _ ← asks (BSetVisibility (i_uuid i) v) cli_store;
  mapping (cli_after "visibility stored") reload_firewall.

(** [CliBackend], and [impl Store for bento_store::Store] of [backend.rs]. *)
Definition cli_backend {R} (c : ccall R) : prog bcall R :=
  match c in ccall R return prog bcall R with
  | CUserById id => ask (BUserById id) cli_store
  | CUserByName name => ask (BUserByName name) cli_store
  | CInstanceByName name => ask (BInstanceByName name) cli_store
  | CInstancesByOwner id => ask (BInstancesByOwner id) cli_store
  | CInstancesSharedWith id => ask (BInstancesSharedWith id) cli_store
  | CInstances => ask BInstances cli_store
  | CHasAccess uuid id => ask (BHasAccess uuid id) cli_store
  | CAddShare uuid id => ask (BAddShare uuid id) cli_store
  | CRemoveShare uuid id => ask (BRemoveShare uuid id) cli_store
  | CSharesFor uuid => ask (BSharesFor uuid) cli_store
  | CAddSshKey id key fingerprint comment => ask (BAddSshKey id key fingerprint comment) cli_store
  | CSshKeysForUser id => ask (BSshKeysForUser id) cli_store
  | CDeleteSshKey id key => ask (BDeleteSshKey id key) cli_store
  | CImages => ask BImages cli_store
  | CCreate request => cli_create request
  | CStart i => mapping cli_lifecycle (lives (Lifecycle.start manager (i_uuid i)))
  | CStop i => mapping cli_lifecycle (lives (Lifecycle.stop manager (i_uuid i)))
  | CRestart i => mapping cli_lifecycle (lives (Lifecycle.restart manager (i_uuid i)))
  | CRemove i => cli_remove i
  | CRename i new_name => mapping cli_lifecycle (lives (Lifecycle.rename manager (i_uuid i) new_name))
  | CCopy source request => cli_copy source request
  | CResize i request => cli_resize i request
  | CConsole _ => throw (mkBox None "console: the serial console is not wired in this build; connect with ssh instead" [])
  | CSetHttpPort i port => cli_set_http_port i port
  | CSetVisibility i v => cli_set_visibility i v
  | c => call (BTerm c)
  end.

(** The command line as a session runs it. *)
Definition shell (self : Cli) (parse_entry : string -> option PublicKey) (date_text : Z -> string) (user : User)
    (args : list string) : prog bcall Z :=
  interp (@cli_backend) (run_command self parse_entry date_text user args).
End Backend.
