(* ===== verification/BackendRuns.v ===== *)
(** * BackendRuns: the two interfaces on the lifecycle, the store and the firewall *)

From Stdlib Require Import ZArith Lia.
From S2P Require Import Prelude Text Types Db Accounts Prog Pool Lifecycle Adapters Cli CliRuns Api ApiRuns Backend.
Open Scope Z_scope.

(** ** What is published, and when the firewall has it *)

(** A row that came or went. *)
Definition row_change {R} (c : lcall R) : R -> bool :=
  match c in lcall R return R -> bool with
  | SCreate _ _ _ => fun r => negb (is_Err r)
  | SDelete _ => fun r => negb (is_Err r)
  | _ => fun _ => false
  end.
Definition publishes (e : event bcall) : bool :=
  match ev_call e in bcall R return R -> bool with
  | BLife c => row_change c
  | BSetHttpPort _ _ => fun r => negb (is_Err r)
  | BSetVisibility _ _ => fun r => negb (is_Err r)
  | _ => fun _ => false
  end (ev_reply e).
Definition reloads (e : event bcall) : bool :=
  match ev_call e in bcall R return R -> bool with
  | BReload => fun r => negb (is_Err r)
  | _ => fun _ => false
  end (ev_reply e).
(** The firewall was loaded after every change of what is published. *)
Fixpoint loaded (tr : list (event bcall)) : Prop :=
  match tr with
  | [] => True
  | e :: tr => (publishes e = true -> existsb reloads tr = true) /\ loaded tr
  end.

Lemma loaded_app tr tr' : loaded tr -> loaded tr' -> loaded (tr ++ tr').
Proof.
  intros Ht Ht'. induction tr as [|e tr IH]; [done|]. destruct Ht as [He Ht]. split; [|by apply IH].
  intros Hp. rewrite existsb_app, He; done.
Qed.
Lemma loaded_still tr : Forall (fun e => publishes e = false) tr -> loaded tr.
Proof. induction 1 as [|e tr He _ IH]; [done|]. split; [|done]. by rewrite He. Qed.
Lemma loaded_reload tr e : reloads e = true -> loaded (tr ++ [e]).
Proof.
  intros He. induction tr as [|x tr IH]; [by split; [destruct e as [R []]|]|]. split; [|done].
  intros _. rewrite existsb_app. cbn. by rewrite He, orb_true_r.
Qed.

(** ** Manager operations that change no row *)

Section Still.
Context (bad : forall R, lcall R -> R -> bool).
(** No call of the program is answered in a way that counts. *)
Definition still {A} (p : M A) : Prop := always p (fun tr _ => Forall (fun e => bad _ (ev_call e) (ev_reply e) = false) tr).

Lemma still_ret {A} (r : result Error A) : still (Ret r).
Proof. constructor. Qed.
Lemma still_call {A R} (c : lcall R) (k : R -> M A) :
  (forall r, bad _ c r = false) -> (forall r, still (k r)) -> still (Call c k).
Proof. intros Hc Hk r. eapply always_mono; [|apply Hk]. intros tr a Ht. by constructor. Qed.
Lemma still_then {A B} (p : M A) (f : result Error A -> M B) : still p -> (forall r, still (f r)) -> still (prog_bind _ _ f p).
Proof.
  intros Hp Hf. apply always_bind. eapply always_mono; [|exact Hp]. intros tr a Ht.
  eapply always_mono; [|apply Hf]. intros tr' b Ht'. by apply Forall_app.
Qed.
Lemma still_bind {A B} (p : M A) (f : A -> M B) : still p -> (forall a, still (f a)) -> still (fallible_bind _ _ f p).
Proof. intros Hp Hf. apply still_then; [done|]. intros [a|e]; [apply Hf|apply still_ret]. Qed.
End Still.

(** One step of a program. *)
Ltac still_step :=
  match goal with
  | |- still _ (Ret _) => apply still_ret
  | |- still _ (mret _) => apply still_ret
  | |- still _ (throw _) => apply still_ret
  | |- still _ (pure_res _) => apply still_ret
  | |- still _ (dep _) => apply still_call; [done|intros ?; apply still_ret]
  | |- still _ (told _ _) => apply still_call; [done|intros ?; apply still_ret]
  | |- still _ (logged _) => apply still_call; [done|intros ?; apply still_ret]
  | |- still _ (get _) => apply still_call; [done|intros ?; apply still_ret]
  | |- still _ (ask _ _) => apply still_call; [done|intros ?; apply still_ret]
  | |- still _ (attempt _) => apply still_call; [done|intros ?; apply still_ret]
  | |- still _ (caught _ _ _) => apply still_then; [|intros []]
  | |- still _ (_ ≫= _) => apply still_bind; [|intros ?]
  | |- still _ (fallible_bind _ _ _ _) => apply still_bind; [|intros ?]
  | |- still _ (match ?x with _ => _ end) => destruct x
  end.

Lemma still_actions m uuid : still (@row_change) (Lifecycle.start m uuid) /\ still (@row_change) (Lifecycle.stop m uuid) /\ still (@row_change) (Lifecycle.restart m uuid).
Proof. split_and!; unfold Lifecycle.start, Lifecycle.stop, Lifecycle.restart, start_domain, hyp_for; repeat still_step. Qed.
Lemma still_xml m i with_iso : still (@row_change) (domain_xml_by_uuid m i with_iso).
Proof. unfold domain_xml_by_uuid. repeat still_step. Qed.
Lemma still_elsewhere m i name : still (@row_change) (redefine_elsewhere m i name).
Proof. unfold redefine_elsewhere. repeat still_step. Qed.
Lemma still_unwind {A} m i name e : still (@row_change) (unwind_rename (A := A) m i name e).
Proof. unfold unwind_rename. repeat still_step. Qed.
Lemma still_rename m uuid name : still (@row_change) (Lifecycle.rename m uuid name).
Proof.
  unfold Lifecycle.rename, rename_domain, rename_elsewhere, restore_definition, hyp_for.
  repeat first [apply still_xml | apply still_elsewhere | apply still_unwind | still_step].
Qed.
Lemma still_resize m request : still (@row_change) (Lifecycle.resize m request).
Proof.
  unfold Lifecycle.resize, check_nested, grow_disk, redefine.
  repeat first [apply still_xml | apply still_elsewhere | still_step | progress cbv zeta].
Qed.

(** ** The backends *)

Section Runs.
#[local] Instance W_ret {X} : MRet (W X) := fallible_ret.
#[local] Instance W_bind {X} : MBind (W X) := fallible_bind.
Context (sha256 : string -> list Z) (manager : Manager) (backend : Backend).
Context (show_error : Error -> string) (error_sources : Error -> list string)
        (show_store : StoreError -> string) (store_sources : StoreError -> list string).
Context (Hfirewall : bk_firewall backend = true).

(** Nothing published; or, when it succeeds, the firewall loaded at the end. *)
Definition plain {A} (p : prog bcall A) : Prop := always p (fun tr _ => Forall (fun e => publishes e = false) tr).
Definition reloading {X A} (p : W X A) : Prop :=
  always p (fun tr r => is_Err r = false -> exists tr' e, tr = tr' ++ [e] /\ reloads e = true).

Lemma plain_lives {A} (p : M A) : still (@row_change) p -> plain (lives p).
Proof.
  intros Hp. eapply always_mono; [|apply always_lift, Hp]. intros tr r (es & He & ->). apply Forall_fmap.
  eapply Forall_impl; [exact He|]. intros e Hr. exact Hr.
Qed.
Lemma plain_mapping {X Y A} (f : X -> Y) (p : W X A) : plain p -> plain (mapping f p).
Proof. intros Hp. apply always_bind. eapply always_mono; [|exact Hp]. intros tr r Ht. cbn. by rewrite app_nil_r. Qed.
Lemma plain_then {X A B} (p : W X A) (f : A -> W X B) : plain p -> (forall a, plain (f a)) -> plain (p ≫= f).
Proof.
  intros Hp Hf. apply always_bind. eapply always_mono; [|exact Hp]. intros tr [a|e] Ht; [|cbn; by rewrite app_nil_r].
  eapply always_mono; [|apply Hf]. intros tr' b Ht'. by apply Forall_app.
Qed.
Lemma reloading_then {X A B} (p : W X A) (f : A -> W X B) : (forall a, reloading (f a)) -> reloading (p ≫= f).
Proof.
  intros Hf. apply always_bind, always_pure. intros tr [a|e]; [|done]. eapply always_mono; [|apply Hf].
  intros tr' r Hr Ho. destruct (Hr Ho) as (tr2 & e & -> & He). exists (tr ++ tr2), e. by rewrite app_assoc.
Qed.
Lemma reloading_end {X} (f : string * list string -> X) : reloading (mapping f (reload_firewall backend)).
Proof. unfold reload_firewall. rewrite Hfirewall. intros [[]|e]; [|done]. intros _. by exists [], (mkEvent BReload (Ok tt)). Qed.
Lemma reloading_ret {X A} (f : string * list string -> X) (a : A) :
  reloading (_ ← mapping f (reload_firewall backend); mret a).
Proof. unfold reload_firewall. rewrite Hfirewall. intros [[]|e]; [|done]. intros _. by exists [], (mkEvent BReload (Ok tt)). Qed.

Lemma plain_loads {A} (p : prog bcall A) (Q : A -> Prop) : plain p -> always p (fun tr a => Q a -> loaded tr).
Proof. intros Hp. eapply always_mono; [|exact Hp]. intros tr a Ht _. by apply loaded_still. Qed.
Lemma reloading_loads {X A} (p : W X A) : reloading p -> always p (fun tr r => is_Err r = false -> loaded tr).
Proof. intros Hp. eapply always_mono; [|exact Hp]. intros tr r Hr Ho. destruct (Hr Ho) as (tr' & e & -> & He). by apply loaded_reload. Qed.

Lemma api_backend_loads {R} (c : acall R) :
  always (api_backend sha256 manager backend show_error error_sources show_store store_sources c)
    (fun tr r => refused_change (mkEvent c r) = false -> loaded tr).
Proof.
  destruct c; cbn [api_backend]; try (apply plain_loads; intros r; cbn; by repeat constructor).
  - apply reloading_loads. repeat first [apply reloading_end | apply reloading_ret | apply reloading_then; intros ?].
  - apply reloading_loads. repeat first [apply reloading_end | apply reloading_ret | apply reloading_then; intros ?].
  - destruct (still_actions manager uuid) as (H1 & H2 & H3). apply plain_loads.
    destruct action; [|apply plain_then; [|intros ?; constructor]|]; by apply plain_mapping, plain_lives.
  - apply plain_loads, plain_mapping, plain_lives, still_rename.
  - apply plain_loads, plain_then; [|intros ?; constructor]. apply plain_mapping, plain_lives, still_resize.
  - apply reloading_loads. repeat first [apply reloading_end | apply reloading_ret | apply reloading_then; intros ?].
  - apply reloading_loads. repeat first [apply reloading_end | apply reloading_ret | apply reloading_then; intros ?].
Qed.
Lemma cli_backend_loads {R} (c : ccall R) :
  always (cli_backend sha256 manager backend show_error error_sources show_store store_sources c)
    (fun tr r => refused (mkEvent c r) = false -> loaded tr).
Proof.
  assert (Hr : forall X A (p : W X A), reloading p -> always p (fun tr r => negb (is_ok r) = false -> loaded tr)).
  { intros X A p Hp. eapply always_mono; [|by apply reloading_loads]. intros tr [a|e] Ht; by auto. }
  destruct c as [| | | | | | | | | | | | | | |request|i|i|i|i|i name|source request|i request|i|i port|i v| | | | |];
    cbn [cli_backend]; try (apply plain_loads; intros r; cbn; by repeat constructor);
    try (destruct (still_actions manager (i_uuid i)) as (H1 & H2 & H3); apply plain_loads; by apply plain_mapping, plain_lives).
  - apply Hr. repeat first [apply reloading_end | apply reloading_ret | apply reloading_then; intros ?].
  - apply Hr. repeat first [apply reloading_end | apply reloading_ret | apply reloading_then; intros ?].
  - apply plain_loads, plain_mapping, plain_lives, still_rename.
  - apply Hr. repeat first [apply reloading_end | apply reloading_ret | apply reloading_then; intros ?].
  - apply plain_loads, plain_then; [|intros ?; constructor]. apply plain_mapping, plain_lives, still_resize.
  - apply plain_loads. constructor.
  - apply Hr. repeat first [apply reloading_end | apply reloading_ret | apply reloading_then; intros ?].
  - apply Hr. repeat first [apply reloading_end | apply reloading_ret | apply reloading_then; intros ?].
Qed.
End Runs.

(** ** Both interfaces *)

Lemma refines_loaded {E} (counts : event E -> bool) (es : list (event E)) tr :
  refines (fun R c r tr => counts (mkEvent c r) = false -> loaded tr) es tr ->
  Forall (fun e => counts e = false) es -> loaded tr.
Proof.
  induction 1 as [|R c r tr es trs Hc _ IH]; intros He; [done|]. inversion He; subst.
  apply loaded_app; [by apply Hc|by apply IH].
Qed.

(** C9. What the users were told is done is in force: with a firewall, whenever
    a request to the JSON interface is answered without an error, and whenever
    a command ends with exit status 0, the firewall was loaded successfully
    after every instance that was created or deleted and after every port and
    visibility that was set on the way, whatever else happened. *)
Theorem published_means_loaded (sha256 : string -> list Z) (manager : Manager) (backend : Backend)
    (show_error : Error -> string) (error_sources : Error -> list string)
    (show_store : StoreError -> string) (store_sources : StoreError -> list string) :
  bk_firewall backend = true ->
  (forall self format_time from_openssh debug_duration request,
     always (web sha256 manager backend show_error error_sources show_store store_sources
               self format_time from_openssh debug_duration request)
       (fun tr response => (forall message seconds, ar_body response <> BodyError message seconds) -> loaded tr)) /\
  (forall self parse_entry date_text user args,
     always (shell sha256 manager backend show_error error_sources show_store store_sources
               self parse_entry date_text user args)
       (fun tr code => code = 0 -> loaded tr)).
Proof.
  intros Hf. split; intros.
  - eapply always_mono; [|eapply (always_interp _ (fun R c r tr => refused_change (mkEvent c r) = false -> loaded tr));
      [intros R c; by apply api_backend_loads|apply does_api]].
    intros tr response (es & [_ Hes] & Hr) Hb. cbn [app] in Hes.
    destruct Hes as [(e & -> & ->)|(user & _ & Ha)]; [by destruct (Hb "unauthorized" 0)|].
    eapply refines_loaded; [exact Hr|]. unfold answered in Ha. destruct (ar_body response) eqn:Hbody; try apply Ha.
    by destruct (Hb error cooldown_seconds).
  - eapply always_mono; [|eapply (always_interp _ (fun R c r tr => refused (mkEvent c r) = false -> loaded tr));
      [intros R c; by apply cli_backend_loads|apply does_run_command]].
    intros tr code (es & [_ Hes] & Hr) Hc. cbn [app] in Hes. destruct Hes as [[_ Hq]|[[-> | ->] _]]; [|done|done].
    eapply refines_loaded; [exact Hr|]. eapply Forall_impl; [exact Hq|]. by intros e [_ He].
Qed.

(** ** The store's refusals *)

Definition refusal {R} (c : lcall R) : R -> option StoreError :=
  match c in lcall R return R -> option StoreError with
  | SCreate _ _ _ => fun r => match r with Err (DynStore s) => Some s | _ => None end
  | _ => fun _ => None
  end.
Definition row_refused {R} (c : lcall R) (r : R) : bool := match refusal c r with Some _ => true | None => false end.
Definition refusals (tr : list (event lcall)) : list StoreError := omap (fun e => refusal (ev_call e) (ev_reply e)) tr.

(** A refusal of the row ends the program with it. *)
Definition refused_ends {A} (p : M A) : Prop :=
  always p (fun tr r => refusals tr = [] \/ exists s, refusals tr = [s] /\ r = Err (Caused (DynStore s))).
Lemma refused_ends_still {A} (p : M A) : still (@row_refused) p -> refused_ends p.
Proof.
  intros Hp. eapply always_mono; [|exact Hp]. intros tr r Ht. left.
  induction Ht as [|e tr He _ IH]; [done|]. unfold row_refused in He. cbn. by destruct (refusal _ _).
Qed.
Lemma refused_ends_bind {A B} (p : M A) (f : A -> M B) :
  refused_ends p -> (forall a, refused_ends (f a)) -> refused_ends (fallible_bind _ _ f p).
Proof.
  intros Hp Hf. apply always_bind. eapply always_mono; [|exact Hp]. intros tr [a|e] [Ht|(s & Ht & He)]; try discriminate He.
  - eapply always_mono; [|apply Hf]. intros tr' b. unfold refusals in *. by rewrite omap_app, Ht.
  - cbn. left. by rewrite app_nil_r.
  - cbn. right. exists s. rewrite app_nil_r. by injection He as ->.
Qed.
Lemma refused_ends_row i cooldown capacity : refused_ends (dep (SCreate i cooldown capacity)).
Proof. intros [[]|[]]; cbn; eauto. Qed.

Lemma still_try_slots subnet slots owned : still (@row_refused) (try_slots subnet slots owned).
Proof.
  induction owned as [|slot owned IH]; cbn [try_slots]; [apply still_ret|]. destruct (_ <? _); [apply still_ret|].
  unfold allocate_address_view. destruct (_ ≫= _) as [|e].
  - cbn [prog_bind]. apply still_call; [done|]. intros view.
    destruct (Network.allocate_address _ _ _ _) as [?|[]]; first [apply still_ret | exact IH].
  - cbn [prog_bind]. destruct e; first [apply still_ret | exact IH].
Qed.
Lemma still_build m request subnet address kind i : still (@row_refused) (build m request subnet address kind i).
Proof. unfold build, unwind_new. repeat first [still_step | progress cbv zeta]. Qed.
Lemma create_refused sha256 m request : refused_ends (Lifecycle.create sha256 m request).
Proof.
  unfold Lifecycle.create, check_nested, place.
  repeat first [apply refused_ends_row | match goal with |- refused_ends (match ?x with _ => _ end) => destruct x end
               | apply refused_ends_bind; [|intros ?] | progress cbv zeta
               | apply refused_ends_still; first [apply still_try_slots | apply still_build | solve [repeat still_step]]].
Qed.

(** The same of the calls below an interface. *)
Definition below (e : event bcall) : option StoreError :=
  match ev_call e in bcall R return R -> option StoreError with
  | BLife c => refusal c
  | _ => fun _ => None
  end (ev_reply e).
Definition refusals_below (tr : list (event bcall)) : list StoreError := omap below tr.
Lemma refusals_below_app tr tr' : refusals_below (tr ++ tr') = refusals_below tr ++ refusals_below tr'.
Proof. apply omap_app. Qed.

(** The store refused the row of a new instance. *)
Definition store_refused (tr : list (event bcall)) (s : StoreError) : Prop :=
  exists i cooldown capacity, mkEvent (BLife (SCreate i cooldown capacity)) (Err (DynStore s)) ∈ tr.

Section Refused.
#[local] Instance WR_ret {X} : MRet (W X) := fallible_ret.
#[local] Instance WR_bind {X} : MBind (W X) := fallible_bind.
Context (sha256 : string -> list Z) (manager : Manager) (backend : Backend).
Context (show_error : Error -> string) (error_sources : Error -> list string)
        (show_store : StoreError -> string) (store_sources : StoreError -> list string).

Definition told_of (s : StoreError) : ApiError := api_lifecycle_error show_error error_sources (Caused (DynStore s)).
Definition create_told {A} (p : W ApiError A) : Prop :=
  always p (fun tr r => refusals_below tr = [] \/ exists s, refusals_below tr = [s] /\ r = Err (told_of s)).

Lemma create_told_bind {A B} (p : W ApiError A) (f : A -> W ApiError B) :
  create_told p -> (forall a, create_told (f a)) -> create_told (p ≫= f).
Proof.
  intros Hp Hf. apply always_bind. eapply always_mono; [|exact Hp]. intros tr [a|e] [Ht|(s & Ht & He)]; try discriminate He.
  - eapply always_mono; [|apply Hf]. intros tr' b. by rewrite refusals_below_app, Ht.
  - cbn. left. by rewrite app_nil_r.
  - cbn. right. exists s. rewrite app_nil_r. by injection He as ->.
Qed.
Lemma create_told_lives {A} (p : M A) :
  refused_ends p -> create_told (mapping (api_lifecycle_error show_error error_sources) (lives p)).
Proof.
  intros Hp. apply always_bind. eapply always_mono; [|apply always_lift, Hp]. intros tr r (es & He & ->). cbn [always].
  rewrite app_nil_r. replace (refusals_below _) with (refusals es).
  - destruct He as [He|(s & He & ->)]; [by left|right; by exists s].
  - clear He. unfold refusals, refusals_below. induction es as [|e es IH]; [done|]. rewrite fmap_cons. cbn.
    change (below _) with (refusal (ev_call e) (ev_reply e)). destruct (refusal _ _); by rewrite IH.
Qed.
Lemma create_told_plain {A} (p : W ApiError A) : always p (fun tr _ => refusals_below tr = []) -> create_told p.
Proof. apply always_mono. by left. Qed.
Lemma create_told_api owner spec :
  create_told (api_create sha256 manager backend show_error error_sources show_store store_sources owner spec).
Proof.
  apply create_told_bind; [|intros request; apply create_told_bind; [apply create_told_lives, create_refused|]].
  - apply create_told_plain. intros [u|e]; [|done]. intros [keys|e]; done.
  - intros i. apply create_told_bind; [|intros ?; by left]. apply create_told_plain. unfold reload_firewall.
    destruct (bk_firewall backend); [by intros []|done].
Qed.

(** What each call of a create request does below. *)
Definition create_call {R} (c : acall R) : R -> list (event bcall) -> Prop :=
  match c in acall R return R -> list (event bcall) -> Prop with
  | ACreate _ _ => fun r tr => refusals_below tr = [] \/ exists s, refusals_below tr = [s] /\ r = Err (told_of s)
  | AUserFromHeaders => fun _ tr => refusals_below tr = []
  | AUserById _ => fun _ tr => refusals_below tr = []
  | _ => fun _ _ => True
  end.
Definition in_create (e : event acall) : Prop :=
  match ev_call e with ACreate _ _ | AUserFromHeaders | AUserById _ => True | _ => False end.
Definition create_answer (e : event acall) : option ApiError :=
  match ev_call e in acall R return R -> option ApiError with
  | ACreate _ _ => fun r => match r with Err e => Some e | Ok _ => None end
  | _ => fun _ => None
  end (ev_reply e).
Lemma refines_create es tr s :
  refines (@create_call) es tr -> Forall in_create es -> s ∈ refusals_below tr ->
  told_of s ∈ omap create_answer es.
Proof.
  induction 1 as [|R c r tr es trs Hc _ IH]; [set_solver|]. intros [He Hes]%Forall_cons. rewrite refusals_below_app.
  intros [Hs|Hs]%elem_of_app; [|specialize (IH Hes Hs); cbn; destruct (create_answer _); [by right|done]].
  destruct c; cbn in He; try done; cbn in Hc; try (rewrite Hc in Hs; set_solver).
  destruct Hc as [Hc|(s' & Hc & ->)]; rewrite Hc in Hs; [set_solver|]. apply list_elem_of_singleton in Hs as ->.
  left.
Qed.
Lemma create_instance_calls self format_time before user body :
  Forall in_create before -> omap create_answer before = [] ->
  after (fun _ _ => True) before (create_instance self format_time user body)
    (fun tr r => Forall in_create tr /\ forall e, e ∈ omap create_answer tr -> r = Err e).
Proof.
  intros Hb Hn.
  assert (Hnone : forall tr, Forall in_create tr -> omap create_answer tr = [] -> forall r : result ApiError ApiResponse,
    Forall in_create tr /\ forall e, e ∈ omap create_answer tr -> r = Err e) by (intros tr Ht Ho r; rewrite Ho; set_solver).
  apply after_try. destruct body as [request|e]; apply after_ret; [|by apply Hnone].
  destruct (valid_name _); [|by apply after_ret, Hnone]. cbn [negb].
  destruct (is_reserved _ _); [by apply after_ret, Hnone|]. case_bool_decide; [by apply after_ret, Hnone|].
  apply after_try, after_ask; [done|]. intros [i|e]; cbn [map_err].
  2: { split; [by apply Forall_app; split; [|repeat constructor]|]. intros e'. rewrite omap_app, Hn. cbn. set_solver. }
  set (tr := before ++ _). assert (Ht : Forall in_create tr /\ omap create_answer tr = []).
  { split; [by apply Forall_app; split; [|repeat constructor]|]. unfold tr. by rewrite omap_app, Hn. }
  clearbody tr. destruct Ht as [Ht Ho]. apply after_try, after_try.
  apply after_mono with (Q := fun tr r => Forall in_create tr /\ omap create_answer tr = [] /\ exists a, r = Ok a).
  { intros tr' r (Ht' & Ho' & [owner owners] & ->). by apply after_ret, after_ret, Hnone. }
  destruct (own_name user !! _); [apply after_ret; eauto|]. apply after_try, after_try, after_attempt; [done|]. intros r.
  apply after_ret, after_ret. split_and!; [by apply Forall_app; split; [|repeat constructor]| |by eexists].
  by rewrite omap_app, Ho.
Qed.
Lemma api_create_calls self format_time from_openssh debug_duration body :
  always (api self format_time from_openssh debug_duration (PostInstances body)) (fun es response =>
    Forall in_create es /\ forall e, e ∈ omap create_answer es -> response = mapped_error debug_duration e).
Proof.
  enough (H : after (fun _ _ => True) [] (api self format_time from_openssh debug_duration (PostInstances body))
    (fun es response => Forall in_create es /\ forall e, e ∈ omap create_answer es -> response = mapped_error debug_duration e))
    by (eapply always_mono; [|exact H]; by intros ?? [_ ?]).
  apply after_call; [done|]. intros [user|e].
  - apply after_bind. eapply after_mono; [|apply create_instance_calls; [by repeat constructor|done]].
    intros tr r [Ht Hr]. apply after_ret. split; [done|]. intros e He. by rewrite (Hr e He).
  - apply after_ret. split; [by repeat constructor|]. cbn. set_solver.
Qed.

(** A refusal of the store reaches the client: in every run of a create
    request to the JSON interface, when the store refuses the row of the new
    instance because its name is taken or in cooldown, because the machine has
    no room or no machine can take it, or because a row is missing, the answer
    is that refusal: status 404 when a row is missing and 409 for the others,
    and for a name in cooldown how long it still is, in seconds. *)
Theorem create_refusal_answered (self : ApiConfig) (format_time : Z -> string) (from_openssh : string -> option PublicKey)
    (debug_duration : Z -> string) (body : decoded CreateBody) :
  always (web sha256 manager backend show_error error_sources show_store store_sources
            self format_time from_openssh debug_duration (PostInstances body)) (fun tr response =>
    forall s x, store_refused tr s -> api_store_error_ref s = Some x ->
      response = mapped_error debug_duration (mkApiError (LayerStore x) []) /\
      ar_status response = (match s with NotFound => 404 | _ => 409 end) /\
      (forall name remaining, s = NameCooldown name remaining ->
         exists message, ar_body response = BodyError message (as_i64 (remaining / nanos_per_sec)))).
Proof.
  eapply always_mono; [|eapply (always_interp _ (@create_call)); [|apply api_create_calls]].
  - intros tr response (es & [Hes Ha] & Hr) s x (i & cooldown & capacity & Hs) Hx.
    assert (Hin : told_of s ∈ omap create_answer es).
    { eapply refines_create; [exact Hr|done|]. apply list_elem_of_omap. by eexists. }
    rewrite (Ha _ Hin). unfold told_of, api_lifecycle_error. cbn [lifecycle_status store_in_chain]. rewrite Hx.
    split_and!; [done| |].
    + destruct s; first [discriminate Hx | by injection Hx as <-].
    + intros name remaining ->. injection Hx as <-. by eexists.
  - intros R c. destruct c; try (apply always_pure; done); [by intros []|by intros []|apply create_told_api].
Qed.
End Refused.

(** ** A request, end to end *)

(** The manager over the small controller of [Adapters]; one signed-in user;
    a firewall that loads. *)
Definition web_reply {R} (c : acall R) : R :=
  match c in acall R return R with
  | AUserFromHeaders => Ok ann
  | AUserById _ | AUserByName _ => Err (status_error 500 EmptyString)
  | AUsageFor _ => Err (status_error 500 EmptyString)
  | AInstance _ => Err (status_error 500 EmptyString)
  | AInstancesByOwner _ | AInstancesSharedWith _ | AInstances => Err (status_error 500 EmptyString)
  | AAddShare _ _ | ARemoveShare _ _ | ADeleteSshKey _ _ | ADumpDb _ | AAddOciImage _ _ | ADelete _ | AAct _ _
  | ARename _ _ | AResize _ _ | ASetHttpPort _ _ | ASetVisibility _ _ => Err (status_error 500 EmptyString)
  | ASharesFor _ => Err (status_error 500 EmptyString)
  | AImages => Err (status_error 500 EmptyString)
  | AAddSshKey _ _ _ _ => Err (status_error 500 EmptyString)
  | ASshKeysForUser _ => Err (status_error 500 EmptyString)
  | ATempDir => Err (status_error 500 EmptyString)
  | AReadFile _ => Err (status_error 500 EmptyString)
  | ADropTempDir _ => tt
  | ATimestamp => EmptyString
  | ACreate _ _ => Err (status_error 500 EmptyString)
  end.
Definition term_reply {R} (c : ccall R) : R :=
  let error := mkBox None EmptyString [] in
  match c in ccall R return R with
  | CUserById _ | CUserByName _ => Err error
  | CInstanceByName _ | CCreate _ | CCopy _ _ => Err error
  | CInstancesByOwner _ | CInstancesSharedWith _ | CInstances => Err error
  | CHasAccess _ _ => Err error
  | CAddShare _ _ | CRemoveShare _ _ | CDeleteSshKey _ _ | CAddOciImage _ _ | CStart _ | CRestart _ | CRemove _
  | CRename _ _ | CResize _ _ | CConsole _ | CSetHttpPort _ _ | CSetVisibility _ _ => Err error
  | CSharesFor _ => Err error
  | CAddSshKey _ _ _ _ => Err error
  | CSshKeysForUser _ => Err error
  | CImages => Err error
  | CStop _ => Err error
  | COut _ | CErr _ => tt
  | CReadLine => EmptyString
  | CReadInput => Err error
  | CNow => 0
  end.
Definition small_world : handler bcall (World unit) := fun R c w =>
  match c in bcall R return R * World unit with
  | BLife c => small_controller _ c w
  | BReload => (Ok tt, w)
  | BUserById _ | BUserByName _ => (Ok ann, w)
  | BUsageFor _ => (Err NotFound, w)
  | BInstance _ | BInstanceByName _ => (Err NotFound, w)
  | BInstancesByOwner _ | BInstancesSharedWith _ | BInstances => (Ok [], w)
  | BHasAccess _ _ => (Ok false, w)
  | BAddShare _ _ | BRemoveShare _ _ | BDeleteSshKey _ _ | BDumpDb _ | BSetHttpPort _ _ | BSetVisibility _ _ => (Ok tt, w)
  | BSharesFor _ => (Ok [], w)
  | BImages => (Ok [], w)
  | BAddSshKey _ _ _ _ => (Ok 1, w)
  | BSshKeysForUser _ => (Ok [], w)
  | BWeb c => (web_reply c, w)
  | BTerm c => (term_reply c, w)
  end.
Definition no_text {A} : A -> string := fun _ => EmptyString.
Definition no_texts {A} : A -> list string := fun _ => [].
Definition small_web (request : ApiRequest) : prog bcall ApiResponse :=
  web small_sha small_manager (mkBackend 1 "ssh-ed25519 BBBB" true) no_text no_texts no_text no_texts
    (mkApiConfig None false "/var/lib/bento/bento.db" []) no_text (fun _ => None) no_text request.
Definition small_body : CreateBody := mkCreateBody "web" "debian" 2 1024 20 false None.
Lemma published_means_loaded_witness :
  let response := fst (run small_world (small_web (PostInstances (Ok small_body))) ready_world) in
  let tr := trace small_world (small_web (PostInstances (Ok small_body))) ready_world in
  ar_status response = 201 /\ existsb publishes tr = true /\ loaded tr.
Proof.
  cbv zeta. split; [vm_compute; reflexivity|]. split; [vm_compute; reflexivity|].
  destruct (published_means_loaded small_sha small_manager (mkBackend 1 "ssh-ed25519 BBBB" true) no_text no_texts no_text no_texts
              eq_refl) as [H _].
  apply (always_run small_world _ ready_world _ (H (mkApiConfig None false "/var/lib/bento/bento.db" []) no_text
           (fun _ => None) no_text (PostInstances (Ok small_body)))).
  intros message seconds. vm_compute. discriminate.
Defined.
(** The same name again is refused with 409. *)
Lemma create_refused_example :
  let w := snd (run small_world (small_web (PostInstances (Ok small_body))) ready_world) in
  ar_status (fst (run small_world (small_web (PostInstances (Ok small_body))) w)) = 409.
Proof. vm_compute. reflexivity. Qed.
