(* ===== verification/Rpc.v ===== *)
(** * Rpc: the libvirt connection, [crates/hypervisor/src/rpc.rs]

    Packets on the wire, one request and its reply, the connection that
    outlives the daemon, and the procedures the client calls.  The socket, the
    serial counter of a socket and the slot that holds the current socket are
    the calls of [ncall].  A request that has read only notifications when the
    fuel runs out is [Waiting]. *)

From Stdlib Require Import ZArith Lia.
From S2P Require Import Prelude Text Xdr Prog.
Open Scope Z_scope.

(** ** Constants *)

Definition PROGRAM : Z := 536903814.   (* 0x2000_8086 *)
Definition PROTOCOL_VERSION : Z := 1.
Definition HEADER_LENGTH : Z := 28.
Definition MAX_PACKET_LENGTH : Z := 16 * 1024 * 1024.
Definition PACKET_CALL : Z := 0.
Definition PACKET_REPLY : Z := 1.
Definition PACKET_MESSAGE : Z := 2.
Definition STATUS_OK : Z := 0.
Definition STATUS_ERROR : Z := 1.

Definition PROC_CONNECT_OPEN : Z := 1.
Definition PROC_CONNECT_CLOSE : Z := 2.
Definition PROC_CONNECT_GET_CAPABILITIES : Z := 7.
Definition PROC_DOMAIN_CREATE : Z := 9.
Definition PROC_DOMAIN_DEFINE_XML : Z := 11.
Definition PROC_DOMAIN_DESTROY : Z := 12.
Definition PROC_DOMAIN_GET_INFO : Z := 16.
Definition PROC_DOMAIN_LOOKUP_BY_NAME : Z := 23.
Definition PROC_DOMAIN_REBOOT : Z := 27.
Definition PROC_DOMAIN_SET_AUTOSTART : Z := 29.
Definition PROC_DOMAIN_SHUTDOWN : Z := 33.
Definition PROC_NETWORK_CREATE : Z := 39.
Definition PROC_NETWORK_DEFINE_XML : Z := 41.
Definition PROC_NETWORK_LOOKUP_BY_NAME : Z := 46.
Definition PROC_NETWORK_SET_AUTOSTART : Z := 48.
Definition PROC_AUTH_LIST : Z := 66.
Definition PROC_AUTH_POLKIT : Z := 70.
Definition PROC_DOMAIN_MEMORY_STATS : Z := 159.
Definition PROC_NETWORK_IS_ACTIVE : Z := 152.
Definition PROC_DOMAIN_GET_STATE : Z := 212.
Definition PROC_DOMAIN_UNDEFINE_FLAGS : Z := 231.
Definition PROC_CONNECT_LIST_ALL_DOMAINS : Z := 273.
Definition AUTH_NONE : Z := 0.
Definition AUTH_POLKIT : Z := 2.

(** ** Errors: [error.rs] *)

(** [ApiError::Protocol], with the data its message formats. *)
Inductive ProtocolError : Type :=
  | XdrError (e : Xdr.ApiError)
  | PacketOverflow
  | PacketTooLarge
  | TruncatedPacket (got : Z)
  | LengthMismatch (declared received : Z)
  | LengthExceeds (declared : Z)
  | InvalidLength (length : Z)
  | UnexpectedProgram (program version : Z)
  | UnexpectedType (packet_type : Z)
  | ReplyMismatch (serial procedure expected_serial expected_procedure : Z)
  | UnexpectedStatus (status : Z)
  | UnsupportedAuth (advertised : list Z)
  | PolkitRefused.
(** [ApiError]; a message is its bytes. *)
Inductive RpcError : Type :=
  | Libvirt (code : Z) (message : list Z)
  | Io (message : string)
  | Protocol (e : ProtocolError)
  | Waiting.
#[global] Instance ProtocolError_eq_dec : EqDecision ProtocolError.
Proof. solve_decision. Defined.
#[global] Instance RpcError_eq_dec : EqDecision RpcError.
Proof. solve_decision. Defined.

(** ** Packets *)

Record Header : Type := mkHeader {
  hd_program : Z; hd_version : Z; hd_procedure : Z; hd_packet_type : Z; hd_serial : Z; hd_status : Z
}.
#[global] Instance Header_eq_dec : EqDecision Header.
Proof. solve_decision. Defined.
Record Packet : Type := mkPacket { pk_header : Header; pk_payload : list Z }.
#[global] Instance Packet_eq_dec : EqDecision Packet.
Proof. solve_decision. Defined.

Definition encode_packet (h : Header) (payload : list Z) : result ProtocolError (list Z) :=
  let length := HEADER_LENGTH + blen payload in
  if usize_max <? length then Err PacketOverflow
  else if u32_max <? length then Err PacketTooLarge
  else Ok (be_bytes 4 length ++ be_bytes 4 (hd_program h) ++ be_bytes 4 (hd_version h) ++ be_bytes 4 (hd_procedure h) ++
           be_bytes 4 (hd_packet_type h) ++ be_bytes 4 (u32_of_i32 (hd_serial h)) ++ be_bytes 4 (hd_status h) ++ payload).

(** The word at [start]. *)
Definition word (bytes : list Z) (start : nat) : Z := be_value (take 4 (drop start bytes)).
Definition decode_packet (bytes : list Z) : result ProtocolError Packet :=
  if blen bytes <? HEADER_LENGTH then Err (TruncatedPacket (blen bytes))
  else
    let declared := word bytes 0 in
    if negb (declared =? blen bytes) then Err (LengthMismatch declared (blen bytes))
    else if MAX_PACKET_LENGTH <? declared then Err (LengthExceeds declared)
    else Ok (mkPacket (mkHeader (word bytes 4) (word bytes 8) (word bytes 12) (word bytes 16)
                         (i32_of_u32 (word bytes 20)) (word bytes 24)) (drop 28 bytes)).

(** ** The socket *)

Inductive ncall : Type -> Type :=
  | NConnect : ncall (result string Z)                            (* a new socket *)
  | NSerial (socket : Z) : ncall Z                                (* [serial.fetch_add(1)], the value before *)
  | NWrite (socket : Z) (bytes : list Z) : ncall (result string unit)   (* [write_all] *)
  | NFlush (socket : Z) : ncall (result string unit)
  | NRead (socket : Z) (n : Z) : ncall (result string (list Z))   (* [read_exact] *)
  | NCurrent : ncall (option Z)                                   (* [current] *)
  | NSetCurrent (o : option Z) : ncall unit
  | NTakeCurrent : ncall (option Z).

Definition N (A : Type) : Type := fallible ncall RpcError A.
#[local] Instance N_ret : MRet N := fallible_ret.
#[local] Instance N_bind : MBind N := fallible_bind.
Definition io {A} (c : ncall (result string A)) : N A := ask c Io.
Definition proto {A} (r : result ProtocolError A) : N A := pure_res (map_err Protocol r).
Definition xdr {A} (r : result Xdr.ApiError A) : N A := pure_res (map_err (fun e => Protocol (XdrError e)) r).

Definition read_packet (socket : Z) : N Packet :=
  length_bytes ← io (NRead socket 4);
  let length := be_value length_bytes in
  if negb ((HEADER_LENGTH <=? length) && (length <=? MAX_PACKET_LENGTH)) then throw (Protocol (InvalidLength length))
  else
    rest ← io (NRead socket (length - 4));
    proto (decode_packet (length_bytes ++ rest)).

Definition decode_error (payload : list Z) : result Xdr.ApiError (Z * list Z) :=
  let r := Rd.new payload in
  '(code, r) ← Rd.i32 r;
  '(_, r) ← Rd.i32 r;
  '(message, r) ← Rd.optional_string r;
  '(_, r) ← Rd.i32 r;
  Ok (code, default [] message).

Definition process_reply (p : Packet) (serial procedure : Z) : result RpcError (list Z) :=
  let h := pk_header p in
  if negb (hd_program h =? PROGRAM) || negb (hd_version h =? PROTOCOL_VERSION) then
    Err (Protocol (UnexpectedProgram (hd_program h) (hd_version h)))
  else if negb (hd_packet_type h =? PACKET_REPLY) then Err (Protocol (UnexpectedType (hd_packet_type h)))
  else if negb (hd_serial h =? serial) || negb (hd_procedure h =? procedure) then
    Err (Protocol (ReplyMismatch (hd_serial h) (hd_procedure h) serial procedure))
  else if hd_status h =? STATUS_OK then Ok (pk_payload p)
  else if hd_status h =? STATUS_ERROR then
    match decode_error (pk_payload p) with
    | Ok (code, message) => Err (Libvirt code message)
    | Err e => Err (Protocol (XdrError e))
    end
  else Err (Protocol (UnexpectedStatus (hd_status h))).

Section Fuel.
(** How many packets a request reads before the model stops waiting. *)
Variable fuel : nat.

(** The loop of [Transport::request]. *)
Fixpoint read_reply (tries : nat) (socket serial procedure : Z) : N (list Z) :=
  match tries with
  | O => throw Waiting
  | S tries =>
      packet ← read_packet socket;
      if hd_packet_type (pk_header packet) =? PACKET_MESSAGE then read_reply tries socket serial procedure
      else pure_res (process_reply packet serial procedure)
  end.

(** [i32::wrapping_add(1)]. *)
Definition next_serial (before : Z) : Z := i32_of_u32 (u32_of_i32 (before + 1)).
Definition call_header (procedure serial : Z) : Header := mkHeader PROGRAM PROTOCOL_VERSION procedure PACKET_CALL serial STATUS_OK.
(** [Transport::request]. *)
Definition transport_request (socket procedure : Z) (payload : list Z) : N (list Z) :=
  before ← (get (NSerial socket) : N Z);
  let serial := next_serial before in
  bytes ← proto (encode_packet (call_header procedure serial) payload);
  _ ← io (NWrite socket bytes);
  _ ← io (NFlush socket);
  read_reply fuel socket serial procedure.

(** ** Opening a connection *)

Definition auth_polkit (socket : Z) : N unit :=
  payload ← transport_request socket PROC_AUTH_POLKIT [];
  '(complete, r) ← xdr (Rd.i32 (Rd.new payload));
  _ ← xdr (Rd.finish r);
  if complete =? 0 then throw (Protocol PolkitRefused) else mret tt.

(** [n] values read one after the other. *)
Fixpoint read_many {A} (read : Reader -> result Xdr.ApiError (A * Reader)) (n : nat) (r : Reader) :
    result Xdr.ApiError (list A * Reader) :=
  match n with
  | O => Ok ([], r)
  | S n => '(a, r) ← read r; '(l, r) ← read_many read n r; Ok (a :: l, r)
  end.
Definition read_array {A} (read : Reader -> result Xdr.ApiError (A * Reader)) (r : Reader) : result Xdr.ApiError (list A * Reader) :=
  '(len, r) ← Rd.array_len r; read_many read (Z.to_nat len) r.
Definition finished {A} (r : result Xdr.ApiError (A * Reader)) : result Xdr.ApiError A :=
  '(a, r) ← r; _ ← Rd.finish r; Ok a.

Definition auth_list (socket : Z) : N (list Z) :=
  payload ← transport_request socket PROC_AUTH_LIST [];
  xdr (finished (read_array Rd.i32 (Rd.new payload))).

(** The loop of [authenticate]. *)
Fixpoint settle_auth (socket : Z) (all advertised : list Z) : N unit :=
  match advertised with
  | [] => if bool_decide (all = []) then mret tt else throw (Protocol (UnsupportedAuth all))
  | auth :: rest =>
      if auth =? AUTH_NONE then mret tt
      else if auth =? AUTH_POLKIT then auth_polkit socket
      else settle_auth socket all rest
  end.
Definition authenticate (socket : Z) : N unit :=
  advertised ← auth_list socket;
  settle_auth socket advertised advertised.

(** The bytes of a text. *)
Definition utf8 (s : string) : list Z := ascii_code <$> chars s.

Definition open (flags : Z) : N Z :=
  socket ← io NConnect;
  _ ← authenticate socket;
  w ← xdr (Writer.optional_string Writer.new (Some (utf8 "qemu:///system")));
  _ ← transport_request socket PROC_CONNECT_OPEN (Writer.u32 w flags);
  mret socket.

(** ** [RpcApi] *)

Definition connect (flags : Z) : N unit :=
  socket ← open flags;
  get (NSetCurrent (Some socket)).

(** The socket a request uses. *)
Definition current_socket (flags : Z) : N Z :=
  current ← (get NCurrent : N (option Z));
  match current with
  | Some socket => mret socket
  | None =>
      socket ← open flags;
      _ ← (get (NSetCurrent (Some socket)) : N unit);
      mret socket
  end.
(** An I/O error drops the socket, when it is still the current one. *)
Definition drop_broken (socket : Z) (result : result RpcError (list Z)) : N (list Z) :=
  match result with
  | Err (Io _) =>
      current ← (get NCurrent : N (option Z));
      _ ← (if bool_decide (current = Some socket) then get (NSetCurrent None) else mret tt : N unit);
      pure_res result
  | _ => pure_res result
  end.
Definition api_request (flags procedure : Z) (payload : list Z) : N (list Z) :=
  socket ← current_socket flags;
  prog_bind _ _ (drop_broken socket) (transport_request socket procedure payload).

Definition close : N unit :=
  current ← (get NTakeCurrent : N (option Z));
  match current with
  | None => mret tt
  | Some socket =>
      prog_bind _ _ (fun r => match r with Ok _ | Err (Io _) => Ret (Ok tt) | Err e => Ret (Err e) end)
        (transport_request socket PROC_CONNECT_CLOSE [])
  end.

(** ** Handles and figures: [client.rs] *)

Record Domain : Type := mkDomain { dm_name : list Z; dm_uuid : list Z; dm_id : Z }.
Record NetworkHandle : Type := mkNetworkHandle { nh_name : list Z; nh_uuid : list Z }.
Record DomainStats : Type := mkDomainStats {
  ds_state : Z; ds_max_mem_kib : Z; ds_memory_kib : Z; ds_vcpus : Z; ds_cpu_time_ns : Z
}.

Definition encode_domain (w : list Z) (d : Domain) : result Xdr.ApiError (list Z) :=
  w ← Writer.string w (dm_name d);
  Ok (Writer.i32 (Writer.fixed_opaque w (dm_uuid d)) (dm_id d)).
Definition decode_domain (r : Reader) : result Xdr.ApiError (Domain * Reader) :=
  '(name, r) ← Rd.string r;
  '(uuid, r) ← Rd.fixed_opaque 16 r;
  '(id, r) ← Rd.i32 r;
  Ok (mkDomain name uuid id, r).
Definition encode_network (w : list Z) (n : NetworkHandle) : result Xdr.ApiError (list Z) :=
  w ← Writer.string w (nh_name n);
  Ok (Writer.fixed_opaque w (nh_uuid n)).
Definition decode_network (r : Reader) : result Xdr.ApiError (NetworkHandle * Reader) :=
  '(name, r) ← Rd.string r;
  '(uuid, r) ← Rd.fixed_opaque 16 r;
  Ok (mkNetworkHandle name uuid, r).
Definition decode_domain_stats (r : Reader) : result Xdr.ApiError (DomainStats * Reader) :=
  '(state, r) ← Rd.u32 r;
  '(max_mem, r) ← Rd.u64 r;
  '(memory, r) ← Rd.u64 r;
  '(vcpus, r) ← Rd.u32 r;
  '(cpu, r) ← Rd.u64 r;
  Ok (mkDomainStats state max_mem memory vcpus cpu, r).
Definition decode_stat (r : Reader) : result Xdr.ApiError ((Z * Z) * Reader) :=
  '(tag, r) ← Rd.i32 r;
  '(value, r) ← Rd.u64 r;
  Ok ((tag, value), r).
Definition decode_memory_stats (r : Reader) : result Xdr.ApiError (list (Z * Z) * Reader) := read_array decode_stat r.
Definition decode_state (r : Reader) : result Xdr.ApiError ((Z * Z) * Reader) :=
  '(state, r) ← Rd.i32 r;
  '(reason, r) ← Rd.i32 r;
  Ok ((state, reason), r).
Definition decode_domains (r : Reader) : result Xdr.ApiError ((list Domain * Z) * Reader) :=
  '(domains, r) ← read_array decode_domain r;
  '(count, r) ← Rd.u32 r;
  Ok ((domains, count), r).

(** ** [LibvirtApi] and [NetworkApi] *)

(** What the client asks of a connection. *)
Inductive vcall : Type -> Type :=
  | DomainDefineXml (xml : list Z) : vcall (result RpcError Domain)
  | DomainCreate (d : Domain) : vcall (result RpcError unit)
  | DomainShutdown (d : Domain) : vcall (result RpcError unit)
  | DomainReboot (d : Domain) (flags : Z) : vcall (result RpcError unit)
  | DomainDestroy (d : Domain) : vcall (result RpcError unit)
  | DomainUndefineFlags (d : Domain) (flags : Z) : vcall (result RpcError unit)
  | DomainSetAutostart (d : Domain) (value : Z) : vcall (result RpcError unit)
  | DomainLookupByName (name : list Z) : vcall (result RpcError Domain)
  | DomainGetState (d : Domain) (flags : Z) : vcall (result RpcError (Z * Z))
  | DomainGetInfo (d : Domain) : vcall (result RpcError DomainStats)
  | DomainMemoryStats (d : Domain) (max_stats flags : Z) : vcall (result RpcError (list (Z * Z)))
  | ConnectListAllDomains (need_results flags : Z) : vcall (result RpcError (list Domain * Z))
  | NetworkLookupByName (name : list Z) : vcall (result RpcError NetworkHandle)
  | NetworkDefineXml (xml : list Z) : vcall (result RpcError NetworkHandle)
  | NetworkCreate (n : NetworkHandle) : vcall (result RpcError unit)
  | NetworkIsActive (n : NetworkHandle) : vcall (result RpcError Z)
  | NetworkSetAutostart (n : NetworkHandle) (value : Z) : vcall (result RpcError unit)
  | Sleep (duration : Z) : vcall unit
  | ConnectClose : vcall (result RpcError unit)
  | ConnectGetCapabilities : vcall (result RpcError (list Z)).

(** [writer]; [self.request(procedure, writer).await?]; and what is read of the answer. *)
Definition rpc (procedure : Z) (w : result Xdr.ApiError (list Z)) : N (list Z) :=
  w ← xdr w;
  api_request 0 procedure w.
Definition rpc_unit (procedure : Z) (w : result Xdr.ApiError (list Z)) : N unit := _ ← rpc procedure w; mret tt.
Definition rpc_read {A} (procedure : Z) (w : result Xdr.ApiError (list Z))
    (read : Reader -> result Xdr.ApiError (A * Reader)) : N A :=
  payload ← rpc procedure w;
  xdr (finished (read (Rd.new payload))).
Definition handle_and (value : list Z -> list Z) (w : result Xdr.ApiError (list Z)) : result Xdr.ApiError (list Z) :=
  w ← w; Ok (value w).

(** [impl NetworkApi for RpcApi]. *)
Definition network_lookup_by_name (name : list Z) : N NetworkHandle :=
  rpc_read PROC_NETWORK_LOOKUP_BY_NAME (Writer.string Writer.new name) decode_network.
Definition network_define_xml (xml : list Z) : N NetworkHandle :=
  rpc_read PROC_NETWORK_DEFINE_XML (Writer.string Writer.new xml) decode_network.
Definition network_create (n : NetworkHandle) : N unit := rpc_unit PROC_NETWORK_CREATE (encode_network Writer.new n).
Definition network_is_active (n : NetworkHandle) : N Z := rpc_read PROC_NETWORK_IS_ACTIVE (encode_network Writer.new n) Rd.i32.
Definition network_set_autostart (n : NetworkHandle) (value : Z) : N unit :=
  rpc_unit PROC_NETWORK_SET_AUTOSTART (handle_and (fun w => Writer.i32 w value) (encode_network Writer.new n)).
(** [RpcApi::capabilities]. *)
Definition rpc_capabilities : N (list Z) := rpc_read PROC_CONNECT_GET_CAPABILITIES (Ok []) Rd.string.

Section Api.
(** Time passes outside. *)
Context (sleep : Z -> prog ncall unit).

Definition rpc_api {R} (c : vcall R) : prog ncall R :=
  match c in vcall R return prog ncall R with
  | DomainDefineXml xml => rpc_read PROC_DOMAIN_DEFINE_XML (Writer.string Writer.new xml) decode_domain
  | DomainCreate d => rpc_unit PROC_DOMAIN_CREATE (encode_domain Writer.new d)
  | DomainShutdown d => rpc_unit PROC_DOMAIN_SHUTDOWN (encode_domain Writer.new d)
  | DomainReboot d flags => rpc_unit PROC_DOMAIN_REBOOT (handle_and (fun w => Writer.u32 w flags) (encode_domain Writer.new d))
  | DomainDestroy d => rpc_unit PROC_DOMAIN_DESTROY (encode_domain Writer.new d)
  | DomainUndefineFlags d flags =>
      rpc_unit PROC_DOMAIN_UNDEFINE_FLAGS (handle_and (fun w => Writer.u32 w flags) (encode_domain Writer.new d))
  | DomainSetAutostart d value =>
      rpc_unit PROC_DOMAIN_SET_AUTOSTART (handle_and (fun w => Writer.i32 w value) (encode_domain Writer.new d))
  | DomainLookupByName name => rpc_read PROC_DOMAIN_LOOKUP_BY_NAME (Writer.string Writer.new name) decode_domain
  | DomainGetState d flags =>
      rpc_read PROC_DOMAIN_GET_STATE (handle_and (fun w => Writer.u32 w flags) (encode_domain Writer.new d)) decode_state
  | DomainGetInfo d => rpc_read PROC_DOMAIN_GET_INFO (encode_domain Writer.new d) decode_domain_stats
  | DomainMemoryStats d max_stats flags =>
      rpc_read PROC_DOMAIN_MEMORY_STATS
        (handle_and (fun w => Writer.u32 (Writer.u32 w max_stats) flags) (encode_domain Writer.new d)) decode_memory_stats
  | ConnectListAllDomains need_results flags =>
      rpc_read PROC_CONNECT_LIST_ALL_DOMAINS (Ok (Writer.u32 (Writer.i32 Writer.new need_results) flags)) decode_domains
  | NetworkLookupByName name => network_lookup_by_name name
  | NetworkDefineXml xml => network_define_xml xml
  | NetworkCreate n => network_create n
  | NetworkIsActive n => network_is_active n
  | NetworkSetAutostart n value => network_set_autostart n value
  | Sleep duration => sleep duration
  | ConnectClose => close
  | ConnectGetCapabilities => rpc_capabilities
  end.
End Api.
End Fuel.
