(* ===== verification/RpcRuns.v ===== *)
(** * RpcRuns: packets, requests and what happens to a connection *)

From Stdlib Require Import ZArith Lia.
From S2P Require Import Prelude Text Xdr Prog Pool Rpc.
Open Scope Z_scope.

(** ** Packets are read as they were written *)

Definition is_byte (b : Z) : Prop := 0 <= b < 256.
Definition is_i32 (z : Z) : Prop := - 2 ^ 31 <= z < 2 ^ 31.
Definition wf_header (h : Header) : Prop :=
  is_u32 (hd_program h) /\ is_u32 (hd_version h) /\ is_u32 (hd_procedure h) /\ is_u32 (hd_packet_type h) /\
  is_i32 (hd_serial h) /\ is_u32 (hd_status h).

Lemma be_value_bound l : Forall is_byte l -> 0 <= be_value l < 256 ^ blen l.
Proof.
  induction l as [|b l IH] using rev_ind; intros Hl; [by vm_compute|]. apply Forall_app in Hl as [Hl [Hb _]%Forall_cons].
  specialize (IH Hl). rewrite be_value_snoc. unfold blen in *. rewrite length_app. cbn [length].
  rewrite Nat2Z.inj_add, Z.pow_add_r by lia. unfold is_byte in Hb. change (256 ^ Z.of_nat 1) with 256.
  generalize dependent (256 ^ Z.of_nat (length l)). intros P HP. lia.
Qed.
Lemma be_bytes_value l : Forall is_byte l -> be_bytes (length l) (be_value l) = l.
Proof.
  induction l as [|b l IH] using rev_ind; intros Hl; [done|]. apply Forall_app in Hl as [Hl [Hb _]%Forall_cons].
  rewrite length_app, Nat.add_comm. cbn [length Nat.add be_bytes]. rewrite be_value_snoc. unfold is_byte in Hb.
  replace ((be_value l * 256 + b) / 256) with (be_value l) by (Z.to_euclidean_division_equations; lia).
  replace ((be_value l * 256 + b) mod 256) with b by (Z.to_euclidean_division_equations; lia). by rewrite IH.
Qed.
Lemma be_bytes_are_bytes n z : Forall is_byte (be_bytes n z).
Proof.
  revert z. induction n as [|n IH]; intros z; [constructor|]. cbn [be_bytes]. apply Forall_app. split; [done|].
  constructor; [|done]. unfold is_byte. apply Z.mod_pos_bound. lia.
Qed.
Lemma u32_of_i32_of z : is_u32 z -> u32_of_i32 (i32_of_u32 z) = z.
Proof.
  intros Hz. unfold u32_of_i32, i32_of_u32. unfold is_u32, u32_max in Hz.
  destruct (Z.ltb_spec z (2 ^ 31)); Z.to_euclidean_division_equations; lia.
Qed.
Lemma i32_of_u32_range z : is_u32 z -> is_i32 (i32_of_u32 z).
Proof. intros Hz. unfold is_i32, i32_of_u32. unfold is_u32, u32_max in Hz. destruct (Z.ltb_spec z (2 ^ 31)); lia. Qed.

(** The word after [n] bytes. *)
Lemma word_at pre v post n : length pre = n -> is_u32 v -> word (pre ++ be_bytes 4 v ++ post) n = v.
Proof.
  intros <- Hv. unfold word. rewrite drop_app_length, take_app_le by (rewrite length_be_bytes; lia).
  rewrite take_ge by (rewrite length_be_bytes; lia). by apply be_bytes_32.
Qed.
Lemma word_bytes l n : Forall is_byte l -> (n + 4 <= length l)%nat -> be_bytes 4 (word l n) = take 4 (drop n l) /\ is_u32 (word l n).
Proof.
  intros Hl Hn. assert (Hlen : length (take 4 (drop n l)) = 4%nat) by (rewrite length_take, length_drop; lia).
  assert (Hb : Forall is_byte (take 4 (drop n l))) by (by apply Forall_take, Forall_drop). unfold word. split.
  - rewrite <-Hlen at 1. by apply be_bytes_value.
  - apply be_value_bound in Hb. unfold blen in Hb. rewrite Hlen in Hb. change (256 ^ Z.of_nat 4) with (2 ^ 32) in Hb.
    unfold is_u32, u32_max. lia.
Qed.

(** The header as bytes. *)
Definition header_bytes (length : Z) (h : Header) : list Z :=
  be_bytes 4 length ++ be_bytes 4 (hd_program h) ++ be_bytes 4 (hd_version h) ++ be_bytes 4 (hd_procedure h) ++
  be_bytes 4 (hd_packet_type h) ++ be_bytes 4 (u32_of_i32 (hd_serial h)) ++ be_bytes 4 (hd_status h).
Lemma length_header_bytes length h : List.length (header_bytes length h) = 28%nat.
Proof. unfold header_bytes. rewrite !length_app, !length_be_bytes. done. Qed.
Lemma encode_packet_bytes h payload : HEADER_LENGTH + blen payload <= u32_max ->
  encode_packet h payload = Ok (header_bytes (HEADER_LENGTH + blen payload) h ++ payload).
Proof.
  intros Hl. unfold encode_packet, header_bytes.
  destruct (Z.ltb_spec usize_max (HEADER_LENGTH + blen payload)); [unfold usize_max, u64_max, u32_max in *; lia|].
  destruct (Z.ltb_spec u32_max (HEADER_LENGTH + blen payload)); [lia|]. by rewrite <-!app_assoc.
Qed.
Lemma header_words n h rest : is_u32 n -> wf_header h ->
  let bytes := header_bytes n h ++ rest in
  word bytes 0 = n /\ word bytes 4 = hd_program h /\ word bytes 8 = hd_version h /\ word bytes 12 = hd_procedure h /\
  word bytes 16 = hd_packet_type h /\ i32_of_u32 (word bytes 20) = hd_serial h /\ word bytes 24 = hd_status h.
Proof.
  intros Hn (H1 & H2 & H3 & H4 & H5 & H6). cbv zeta. unfold header_bytes. rewrite <-!app_assoc.
  set (a := be_bytes 4 n). set (b := be_bytes 4 (hd_program h)). set (c := be_bytes 4 (hd_version h)).
  set (d := be_bytes 4 (hd_procedure h)). set (e := be_bytes 4 (hd_packet_type h)).
  set (f := be_bytes 4 (u32_of_i32 (hd_serial h))). set (g := be_bytes 4 (hd_status h)).
  assert (L : forall z, length (be_bytes 4 z) = 4%nat) by (intros; apply length_be_bytes).
  split_and!.
  - by apply (word_at []).
  - by apply (word_at a).
  - rewrite (app_assoc a b). apply word_at; [|done]. unfold a, b. by rewrite length_app, !L.
  - rewrite (app_assoc a b), (app_assoc (a ++ b)). apply word_at; [|done]. unfold a, b, c. by rewrite !length_app, !L.
  - rewrite (app_assoc a b), (app_assoc (a ++ b)), (app_assoc ((a ++ b) ++ c)). apply word_at; [|done].
    unfold a, b, c, d. by rewrite !length_app, !L.
  - rewrite (app_assoc a b), (app_assoc (a ++ b)), (app_assoc ((a ++ b) ++ c)), (app_assoc (((a ++ b) ++ c) ++ d)).
    unfold f. rewrite word_at; [by apply i32_u32| |apply u32_of_i32_range]. unfold a, b, c, d, e. by rewrite !length_app, !L.
  - rewrite (app_assoc a b), (app_assoc (a ++ b)), (app_assoc ((a ++ b) ++ c)), (app_assoc (((a ++ b) ++ c) ++ d)),
      (app_assoc ((((a ++ b) ++ c) ++ d) ++ e)). apply word_at; [|done]. unfold a, b, c, d, e, f. by rewrite !length_app, !L.
Qed.

Lemma decode_encoded h payload : wf_header h -> HEADER_LENGTH + blen payload <= MAX_PACKET_LENGTH ->
  decode_packet (header_bytes (HEADER_LENGTH + blen payload) h ++ payload) = Ok (mkPacket h payload).
Proof.
  intros Hh Hl. pose proof (blen_nonneg payload) as Hp.
  assert (Hn : is_u32 (HEADER_LENGTH + blen payload)) by (unfold is_u32, u32_max, HEADER_LENGTH, MAX_PACKET_LENGTH in *; lia).
  destruct (header_words _ h payload Hn Hh) as (W0 & W1 & W2 & W3 & W4 & W5 & W6).
  assert (Hb : blen (header_bytes (HEADER_LENGTH + blen payload) h ++ payload) = HEADER_LENGTH + blen payload).
  { rewrite blen_app. unfold blen at 1. by rewrite length_header_bytes. }
  unfold decode_packet. rewrite Hb. destruct (Z.ltb_spec (HEADER_LENGTH + blen payload) HEADER_LENGTH); [lia|].
  rewrite W0, Z.eqb_refl. cbn [negb]. destruct (Z.ltb_spec MAX_PACKET_LENGTH (HEADER_LENGTH + blen payload)); [lia|].
  rewrite W1, W2, W3, W4, W5, W6. rewrite <-(length_header_bytes (HEADER_LENGTH + blen payload) h) at 1.
  rewrite drop_app_length. by destruct h.
Qed.

(** Seven words and what follows them. *)
Lemma words_apart {A} (l : list A) : (28 <= length l)%nat ->
  l = take 4 (drop 0 l) ++ take 4 (drop 4 l) ++ take 4 (drop 8 l) ++ take 4 (drop 12 l) ++ take 4 (drop 16 l) ++
      take 4 (drop 20 l) ++ take 4 (drop 24 l) ++ drop 28 l.
Proof.
  intros Hl. assert (Hs : forall n m rest, m = (n + 4)%nat -> rest = drop m l -> take 4 (drop n l) ++ rest = drop n l).
  { intros n m rest -> ->. rewrite <-drop_drop. apply take_drop. }
  symmetry. by repeat (eapply Hs; [reflexivity|]).
Qed.

(** Packets are exact: for a header whose fields fit their types, a packet
    of at most 16 MiB is written as certain bytes exactly when these bytes,
    and no others, are read as that header and payload. *)
Theorem packet_exact (h : Header) (payload bytes : list Z) :
  wf_header h -> Forall is_byte payload ->
  (encode_packet h payload = Ok bytes /\ blen bytes <= MAX_PACKET_LENGTH <->
   decode_packet bytes = Ok (mkPacket h payload) /\ Forall is_byte bytes).
Proof.
  intros Hh Hp. split.
  - intros [He Hl]. assert (Hs : HEADER_LENGTH + blen payload <= u32_max).
    { unfold encode_packet in He. destruct (_ <? _); [done|]. destruct (Z.ltb_spec u32_max (HEADER_LENGTH + blen payload)); done. }
    rewrite encode_packet_bytes in He by done. assert (bytes = header_bytes (HEADER_LENGTH + blen payload) h ++ payload) as -> by congruence. clear He. rewrite blen_app in Hl. unfold blen at 1 in Hl.
    rewrite length_header_bytes in Hl. split; [by apply decode_encoded|].
    apply Forall_app. split; [|done]. unfold header_bytes. rewrite !Forall_app. split_and!; apply be_bytes_are_bytes.
  - intros [Hd Hb]. unfold decode_packet in Hd.
    destruct (Z.ltb_spec (blen bytes) HEADER_LENGTH); [done|]. destruct (Z.eqb_spec (word bytes 0) (blen bytes)) as [Hw|]; [|done].
    cbn [negb] in Hd. destruct (Z.ltb_spec MAX_PACKET_LENGTH (word bytes 0)); [done|]. injection Hd as <- <-.
    assert (Hlen : (28 <= length bytes)%nat) by (unfold blen, HEADER_LENGTH in *; lia).
    assert (Hpay : HEADER_LENGTH + blen (drop 28 bytes) = blen bytes) by (unfold blen, HEADER_LENGTH; rewrite length_drop; lia).
    rewrite encode_packet_bytes by (rewrite Hpay; unfold u32_max, MAX_PACKET_LENGTH in *; lia).
    split; [f_equal|lia]. rewrite Hpay, <-Hw. unfold header_bytes. cbn [hd_program hd_version hd_procedure hd_packet_type hd_serial hd_status].
    rewrite u32_of_i32_of by (apply word_bytes; [done|lia]).
    rewrite !(fun n H => proj1 (word_bytes bytes n Hb H)) by lia. by rewrite <-!app_assoc, <-words_apart by done.
Qed.
Lemma packet_exact_witness :
  encode_packet (call_header PROC_AUTH_LIST 1) [] =
    Ok [0; 0; 0; 28; 32; 0; 128; 134; 0; 0; 0; 1; 0; 0; 0; 66; 0; 0; 0; 0; 0; 0; 0; 1; 0; 0; 0; 0] /\
  decode_packet [0; 0; 0; 28; 32; 0; 128; 134; 0; 0; 0; 1; 0; 0; 0; 66; 0; 0; 0; 0; 0; 0; 0; 1; 0; 0; 0; 0] =
    Ok (mkPacket (call_header PROC_AUTH_LIST 1) []).
Proof.
  split; [vm_compute; reflexivity|]. apply packet_exact; [| |split; vm_compute; [reflexivity|discriminate]].
  - repeat split; by vm_compute.
  - constructor.
Defined.

(** ** Every run of a request *)

(** What was written, on which socket, and the procedures called. *)
Definition written (tr : list (event ncall)) : list (Z * list Z) :=
  omap (fun e => match ev_call e with NWrite s bytes => Some (s, bytes) | _ => None end) tr.
Definition procedures (tr : list (event ncall)) : list Z := (fun w => word w.2 12) <$> written tr.
Lemma written_app tr tr' : written (tr ++ tr') = written tr ++ written tr'.
Proof. apply omap_app. Qed.
Lemma procedures_app tr tr' : procedures (tr ++ tr') = procedures tr ++ procedures tr'.
Proof. unfold procedures. by rewrite written_app, fmap_app. Qed.

(** The last packet read is the reply to [procedure] with [serial], and carries [payload]. *)
Definition answered (s procedure serial : Z) (payload : list Z) (tr : list (event ncall)) : Prop :=
  exists pre len n rest, tr = pre ++ [mkEvent (NRead s 4) (Ok len); mkEvent (NRead s n) (Ok rest)] /\
    decode_packet (len ++ rest) = Ok (mkPacket (mkHeader PROGRAM PROTOCOL_VERSION procedure PACKET_REPLY serial STATUS_OK) payload).

Lemma process_reply_ok p serial procedure payload : process_reply p serial procedure = Ok payload ->
  p = mkPacket (mkHeader PROGRAM PROTOCOL_VERSION procedure PACKET_REPLY serial STATUS_OK) payload.
Proof.
  destruct p as [[program version proc type ser status] body]. unfold process_reply. cbn.
  destruct (Z.eqb_spec program PROGRAM), (Z.eqb_spec version PROTOCOL_VERSION); cbn; try done.
  destruct (Z.eqb_spec type PACKET_REPLY); cbn; [|done].
  destruct (Z.eqb_spec ser serial), (Z.eqb_spec proc procedure); cbn; try done.
  destruct (Z.eqb_spec status STATUS_OK); [congruence|]. destruct (status =? STATUS_ERROR); [|done].
  by destruct (decode_error body) as [[]|].
Qed.

(** A packet is read with two reads of its socket. *)
Lemma always_read_packet s :
  always (read_packet s) (fun tr r => written tr = [] /\
    match r with
    | Ok p => exists len n rest, tr = [mkEvent (NRead s 4) (Ok len); mkEvent (NRead s n) (Ok rest)] /\ decode_packet (len ++ rest) = Ok p
    | Err _ => True
    end).
Proof.
  unfold read_packet. apply always_fallible. intros [len|e]; [|done]. cbn [map_err always].
  destruct ((HEADER_LENGTH <=? _) && _); cbn [negb]; [|done].
  apply always_fallible. intros [rest|e]; [|done]. cbn. split; [done|].
  destruct (decode_packet _) eqn:Hd; [|done]. by exists len, (be_value len - 4), rest.
Qed.
Lemma always_read_reply tries s serial procedure :
  always (read_reply tries s serial procedure) (fun tr r => written tr = [] /\
    forall payload, r = Ok payload -> answered s procedure serial payload tr).
Proof.
  induction tries as [|tries IH]; cbn [read_reply]; [done|]. apply always_fallible.
  eapply always_mono; [|apply always_read_packet]. intros tr [p|e] [Hw Hp]; [|done].
  destruct Hp as (len & n & rest & -> & Hp). destruct (_ =? _).
  - eapply always_mono; [|exact IH]. intros tr' r [Hw' Hr]. split; [by rewrite written_app, Hw'|].
    intros payload ->. destruct (Hr payload eq_refl) as (pre & len' & n' & rest' & -> & Hd).
    eexists (_ ++ pre), len', n', rest'. by rewrite app_assoc.
  - cbn. split; [done|]. intros payload Hr. apply process_reply_ok in Hr as ->. by exists [], len, n, rest.
Qed.

(** The serial a socket's request carries, and the procedure on the wire. *)
Lemma next_serial_range z : is_i32 (next_serial z).
Proof. apply i32_of_u32_range, u32_of_i32_range. Qed.
Lemma encoded_procedure procedure serial payload bytes : is_u32 procedure -> is_i32 serial ->
  encode_packet (call_header procedure serial) payload = Ok bytes -> word bytes 12 = procedure.
Proof.
  intros Hp Hs He. assert (Hl : HEADER_LENGTH + blen payload <= u32_max).
  { unfold encode_packet in He. destruct (_ <? _); [done|]. destruct (Z.ltb_spec u32_max (HEADER_LENGTH + blen payload)); done. }
  rewrite encode_packet_bytes in He by done.
  assert (bytes = header_bytes (HEADER_LENGTH + blen payload) (call_header procedure serial) ++ payload) as -> by congruence.
  apply (header_words _ (call_header procedure serial)).
  - pose proof (blen_nonneg payload). unfold is_u32, HEADER_LENGTH in *. lia.
  - repeat split; cbn; try apply Hp; try apply Hs; by vm_compute.
Qed.

(** One request: nothing is written, or one packet, once. *)
Definition requested (s procedure : Z) (payload : list Z) (tr : list (event ncall)) (r : result RpcError (list Z)) : Prop :=
  exists serial bytes, is_i32 serial /\ encode_packet (call_header procedure serial) payload = Ok bytes /\ written tr = [(s, bytes)] /\
    forall answer, r = Ok answer -> answered s procedure serial answer tr.
Lemma always_transport_request fuel s procedure payload :
  always (transport_request fuel s procedure payload) (fun tr r =>
    (written tr = [] /\ exists e, r = Err (Protocol e)) \/ requested s procedure payload tr r).
Proof.
  set (Q := fun tr r => _). intros before. cbn.
  destruct (encode_packet _ payload) as [bytes|e] eqn:He; cbn; [|by left; eauto].
  assert (Hgo : forall tr r, written tr = [(s, bytes)] -> (forall a, r = Ok a -> answered s procedure (next_serial before) a tr) -> Q tr r).
  { intros tr r Hw Hr. right. exists (next_serial before), bytes. auto using next_serial_range. }
  intros [[]|m]; cbn; [|by apply Hgo]. intros [[]|m]; cbn; [|by apply Hgo].
  eapply always_mono; [|apply always_read_reply]. intros tr r [Hw Hr]. apply Hgo; [exact (f_equal (cons (s, bytes)) Hw)|].
  intros a ->. destruct (Hr a eq_refl) as (pre & len & n & rest & -> & Hd).
  eexists (_ :: _ :: _ :: pre), len, n, rest. by split.
Qed.

(** The procedures [l], called on the socket [s]. *)
Definition calls (s : Z) (l : list Z) (tr : list (event ncall)) : Prop :=
  procedures tr = l /\ Forall (fun w => w.1 = s) (written tr).
Lemma calls_app s l l' tr tr' : calls s l tr -> calls s l' tr' -> calls s (l ++ l') (tr ++ tr').
Proof. intros [<- H] [<- H']. split; [apply procedures_app|]. rewrite written_app. by apply Forall_app. Qed.

Lemma always_calls fuel s procedure payload : is_u32 procedure ->
  always (transport_request fuel s procedure payload) (fun tr r =>
    match r with Ok _ => calls s [procedure] tr | Err _ => calls s [] tr \/ calls s [procedure] tr end).
Proof.
  intros Hp. eapply always_mono; [|apply always_transport_request]. intros tr r [[Hw [e ->]]|(serial & bytes & Hs & He & Hw & _)].
  - left. unfold calls, procedures. by rewrite Hw.
  - assert (calls s [procedure] tr); [|destruct r; eauto]. unfold calls, procedures. rewrite Hw. split; [|by repeat constructor].
    cbn [fmap list_fmap snd]. by rewrite (encoded_procedure _ _ _ _ Hp Hs He).
Qed.

(** The handshake of a new socket: how far it came. *)
Definition handshake (s : Z) (tr : list (event ncall)) : Prop :=
  calls s [PROC_AUTH_LIST; PROC_CONNECT_OPEN] tr \/ calls s [PROC_AUTH_LIST; PROC_AUTH_POLKIT; PROC_CONNECT_OPEN] tr.
Definition partial_handshake (tr : list (event ncall)) : Prop :=
  procedures tr `prefix_of` [PROC_AUTH_LIST; PROC_CONNECT_OPEN] \/
  procedures tr `prefix_of` [PROC_AUTH_LIST; PROC_AUTH_POLKIT; PROC_CONNECT_OPEN].
Lemma handshake_partial s tr : handshake s tr -> partial_handshake tr.
Proof. intros [[H _]|[H _]]; [left|right]; by rewrite H. Qed.

Lemma always_auth_polkit fuel s :
  always (auth_polkit fuel s) (fun tr r => match r with Ok _ => calls s [PROC_AUTH_POLKIT] tr
    | Err _ => calls s [] tr \/ calls s [PROC_AUTH_POLKIT] tr end).
Proof.
  apply always_fallible. eapply always_mono; [|by apply always_calls]. intros tr [payload|e] H; [|done].
  apply always_fallible. cbn [xdr pure_res always]. destruct (Rd.i32 _) as [[complete r]|e]; cbn [map_err always]; [|by right; rewrite app_nil_r].
  apply always_fallible. cbn [xdr pure_res always]. destruct (Rd.finish r) as [[]|e]; cbn [map_err always]; [|by right; rewrite app_nil_r].
  destruct (complete =? 0); cbn; [right|]; by rewrite ?app_nil_r.
Qed.
Lemma always_settle_auth fuel s all l :
  always (settle_auth fuel s all l) (fun tr r => calls s [] tr \/ calls s [PROC_AUTH_POLKIT] tr).
Proof.
  assert (H0 : calls s [] []) by done. induction l as [|auth l IH]; cbn [settle_auth]; [case_bool_decide; by left|].
  destruct (auth =? AUTH_NONE); [by left|]. destruct (auth =? AUTH_POLKIT); [|done].
  eapply always_mono; [|apply always_auth_polkit]. intros tr [] H; [by right|done].
Qed.
Lemma always_authenticate fuel s :
  always (authenticate fuel s) (fun tr r =>
    match r with
    | Ok _ => calls s [PROC_AUTH_LIST] tr \/ calls s [PROC_AUTH_LIST; PROC_AUTH_POLKIT] tr
    | Err _ => calls s [] tr \/ calls s [PROC_AUTH_LIST] tr \/ calls s [PROC_AUTH_LIST; PROC_AUTH_POLKIT] tr
    end).
Proof.
  apply always_fallible. apply always_fallible. eapply always_mono; [|by apply always_calls].
  intros tr [payload|e] H; [|tauto]. cbn [xdr pure_res always]. rewrite app_nil_r.
  destruct (finished _) as [advertised|e]; cbn [map_err]; [|tauto].
  eapply always_mono; [|apply always_settle_auth]. intros tr' r [H'|H'];
    pose proof (calls_app _ _ _ _ _ H H') as Hc; cbn in Hc; destruct r; tauto.
Qed.
Lemma always_open fuel flags :
  always (open fuel flags) (fun tr r => match r with Ok s => handshake s tr | Err _ => partial_handshake tr end).
Proof.
  assert (Hpart : forall s l tr, l `prefix_of` [PROC_AUTH_LIST; PROC_CONNECT_OPEN] \/
    l `prefix_of` [PROC_AUTH_LIST; PROC_AUTH_POLKIT; PROC_CONNECT_OPEN] -> calls s l tr -> partial_handshake tr).
  { intros s l tr Hl [Hc _]. unfold partial_handshake. by rewrite Hc. }
  apply always_fallible. intros [s|m]; [|left; apply prefix_nil]. cbn [map_err always].
  apply always_fallible. eapply always_mono; [|apply always_authenticate]. intros tr r Hr.
  assert (Hskip : forall tr l, calls s l tr -> calls s l (mkEvent NConnect (Ok s) :: tr)) by done.
  destruct r as [[]|e].
  - apply always_fallible. cbn [xdr pure_res always]. destruct (Writer.optional_string _ _) as [w|e]; cbn [map_err always].
    2: { rewrite app_nil_r. destruct Hr as [Hr|Hr]; (eapply Hpart; [|exact (Hskip _ _ Hr)]).
         all: first [left; by eexists|right; by eexists]. }
    apply always_fallible. eapply always_mono; [|by apply always_calls]. intros tr' r' Hr'.
    destruct r' as [payload|e].
    + cbn. rewrite app_nil_r. destruct Hr as [Hr|Hr]; [left|right]; apply (Hskip _ _ (calls_app _ _ _ _ _ Hr Hr')).
    + destruct Hr as [Hr|Hr], Hr' as [Hr'|Hr']; pose proof (calls_app _ _ _ _ _ Hr Hr') as Hc; (eapply Hpart; [|exact (Hskip _ _ Hc)]).
      all: first [left; by eexists|right; by eexists].
  - destruct Hr as [Hr|[Hr|Hr]]; (eapply Hpart; [|exact (Hskip _ _ Hr)]).
    all: first [left; by eexists|right; by eexists].
Qed.

(** The socket of a request: the current one, or a new one after its handshake. *)
Definition opened (s : Z) (tr : list (event ncall)) : Prop :=
  tr = [mkEvent NCurrent (Some s)] \/
  exists hs, tr = mkEvent NCurrent None :: hs ++ [mkEvent (NSetCurrent (Some s)) tt] /\ handshake s hs.
(** What follows a request: only an I/O error gives the socket up, and only when it is still the current one. *)
Definition settled (s : Z) (r : result RpcError (list Z)) (tr : list (event ncall)) : Prop :=
  match r with
  | Err (Io _) => exists current, tr = mkEvent NCurrent current ::
      (if bool_decide (current = Some s) then [mkEvent (NSetCurrent None) tt] else [])
  | _ => tr = []
  end.

Lemma always_current_socket fuel flags :
  always (current_socket fuel flags) (fun tr r => match r with Ok s => opened s tr | Err _ => partial_handshake tr end).
Proof.
  apply always_fallible. intros [s|]; cbn [always]; [by left|]. apply always_fallible.
  eapply always_mono; [|apply always_open]. intros tr [s|e] H; [|done]. intros []. right. by exists tr.
Qed.
Lemma always_drop_broken s r : always (drop_broken s r) (fun tr r' => r' = r /\ settled s r tr).
Proof.
  destruct r as [a|[| | |]]; try done. cbn [drop_broken]. apply always_fallible. intros current. cbn [always].
  apply always_fallible. destruct (bool_decide (current = Some s)) eqn:Hd.
  - intros []. cbn. split; [done|]. exists current. by rewrite Hd.
  - cbn. split; [done|]. exists current. by rewrite Hd.
Qed.

(** What a request did, from its calls [tr] and its result [r]. *)
Definition sent_once (procedure : Z) (payload : list Z) (tr : list (event ncall)) (r : result RpcError (list Z)) : Prop :=
    (partial_handshake tr /\ exists e, r = Err e) \/
    exists s serial bytes opening sent ending, tr = opening ++ sent ++ ending /\
      opened s opening /\ is_i32 serial /\ encode_packet (call_header procedure serial) payload = Ok bytes /\ written sent = [(s, bytes)] /\
      (forall answer, r = Ok answer -> answered s procedure serial answer sent) /\ settled s r ending.
Lemma always_api_request fuel flags procedure payload : always (api_request fuel flags procedure payload) (sent_once procedure payload).
Proof.
  apply always_fallible. eapply always_mono; [|apply always_current_socket]. intros tr [s|e] H; [|by left; eauto].
  apply always_bind. eapply always_mono; [|apply always_transport_request]. intros tr' r Hr.
  eapply always_mono; [|apply always_drop_broken]. intros tr'' r' [-> Hs].
  destruct Hr as [[Hw [e ->]]|(serial & bytes & Hi & He & Hw & Ha)].
  - left. split; [|eauto]. cbn in Hs. subst tr''. unfold partial_handshake. rewrite !procedures_app.
    replace (procedures tr') with (@nil Z) by (unfold procedures; by rewrite Hw). rewrite app_nil_r.
    destruct H as [->|(hs & -> & Hh)]; [left; apply prefix_nil|].
    apply handshake_partial in Hh. change (procedures (_ :: hs ++ ?l)) with (procedures (hs ++ l)).
    rewrite procedures_app. cbn [procedures]. by rewrite app_nil_r.
  - right. by exists s, serial, bytes, tr, tr', tr''.
Qed.

(** C21. A request is sent at most once, and never repeated after a failure.
    In every run of [RpcApi::request], whatever the socket and other requests
    do: either the request is not written at all, at most a handshake is, and
    an error is returned; or a socket was ready (the current one, or a new one
    after authentication and [ConnectOpen] on that same socket, in that order)
    and exactly one packet, the request, is written on it.  A payload is
    returned only from a packet read afterwards on that socket which is the
    successful reply to this procedure and serial, and the socket is given up
    after an I/O error, when it is still the current one, and after nothing
    else. *)
Theorem request_sent_once (fuel : nat) (flags procedure : Z) (payload : list Z) :
  always (api_request fuel flags procedure payload) (sent_once procedure payload).
Proof. apply always_api_request. Qed.

(** ** A connection in step and out of step *)

(** One open socket: the slot of the current socket, the serial its last
    request had, and the bytes the daemon has sent and nobody has read. *)
Record conn : Type := mkConn { cn_current : option Z; cn_serial : Z; cn_inbox : list Z }.

Section Daemon.
(** A daemon answers each call with one reply of the same procedure and serial; [answer] is its payload. *)
Context (answer : Z -> list Z -> list Z).

Definition reply_header (procedure serial : Z) : Header := mkHeader PROGRAM PROTOCOL_VERSION procedure PACKET_REPLY serial STATUS_OK.
Definition reply_bytes (bytes : list Z) : list Z :=
  match decode_packet bytes with
  | Ok p =>
      let h := pk_header p in
      match encode_packet (reply_header (hd_procedure h) (hd_serial h)) (answer (hd_procedure h) (pk_payload p)) with
      | Ok reply => reply
      | Err _ => []
      end
  | Err _ => []
  end.
(** The socket is a stream: bytes are read in the order they were sent. *)
Definition daemon : handler ncall conn := fun R c w =>
  match c in ncall R return R * conn with
  | NConnect => (Err "connection refused", w)
  | NSerial _ => (cn_serial w, mkConn (cn_current w) (next_serial (cn_serial w)) (cn_inbox w))
  | NWrite _ bytes => (Ok tt, mkConn (cn_current w) (cn_serial w) (cn_inbox w ++ reply_bytes bytes))
  | NFlush _ => (Ok tt, w)
  | NRead _ n =>
      if n <=? blen (cn_inbox w)
      then (Ok (take (Z.to_nat n) (cn_inbox w)), mkConn (cn_current w) (cn_serial w) (drop (Z.to_nat n) (cn_inbox w)))
      else (Err "early eof", w)
  | NCurrent => (cn_current w, w)
  | NSetCurrent o => (tt, mkConn o (cn_serial w) (cn_inbox w))
  | NTakeCurrent => (cn_current w, mkConn None (cn_serial w) (cn_inbox w))
  end.

(** A request whose caller stopped waiting between the write and the reply. *)
Definition abandoned (s procedure : Z) (payload : list Z) : N unit :=
  fallible_bind _ _ (fun before =>
    fallible_bind _ _ (fun bytes => fallible_bind _ _ (fun _ => io (NFlush s)) (io (NWrite s bytes)))
      (proto (encode_packet (call_header procedure (next_serial before)) payload))) (get (NSerial s) : N Z).

(** Nothing is unread; one reply to an earlier request is unread. *)
Definition in_step (s : Z) (w : conn) : Prop := cn_current w = Some s /\ cn_inbox w = [].
Definition out_of_step (s : Z) (w : conn) : Prop :=
  cn_current w = Some s /\ exists procedure payload, is_u32 procedure /\ is_i32 (cn_serial w) /\
    HEADER_LENGTH + blen payload <= MAX_PACKET_LENGTH /\
    cn_inbox w = header_bytes (HEADER_LENGTH + blen payload) (reply_header procedure (cn_serial w)) ++ payload.

(** A request that can be sent and answered in one packet each way. *)
Definition fits (request : Z * list Z) : Prop :=
  is_u32 request.1 /\ HEADER_LENGTH + blen request.2 <= MAX_PACKET_LENGTH /\
  HEADER_LENGTH + blen (answer request.1 request.2) <= MAX_PACKET_LENGTH.

Lemma wf_call_header procedure serial : is_u32 procedure -> is_i32 serial -> wf_header (call_header procedure serial).
Proof. intros Hp Hs. repeat split; cbn; try apply Hp; try apply Hs; by vm_compute. Qed.
Lemma wf_reply_header procedure serial : is_u32 procedure -> is_i32 serial -> wf_header (reply_header procedure serial).
Proof. intros Hp Hs. repeat split; cbn; try apply Hp; try apply Hs; by vm_compute. Qed.
Lemma blen_header_bytes n h payload : blen (header_bytes n h ++ payload) = HEADER_LENGTH + blen payload.
Proof. rewrite blen_app. unfold blen at 1. by rewrite length_header_bytes. Qed.

(** The call goes out as one packet, and its reply comes back as one. *)
Lemma reply_of_call procedure serial payload : fits (procedure, payload) -> is_i32 serial ->
  reply_bytes (header_bytes (HEADER_LENGTH + blen payload) (call_header procedure serial) ++ payload) =
  header_bytes (HEADER_LENGTH + blen (answer procedure payload)) (reply_header procedure serial) ++ answer procedure payload.
Proof.
  intros (Hp & Hc & Ha) Hs. unfold reply_bytes. cbn [fst snd] in *.
  rewrite decode_encoded by (try apply wf_call_header; done). cbn [pk_header pk_payload hd_procedure hd_serial call_header].
  by rewrite encode_packet_bytes by (unfold MAX_PACKET_LENGTH, u32_max in *; lia).
Qed.

(** A packet at the front of the stream is read, and nothing else. *)
Lemma run_read_packet s cur serial h payload rest : wf_header h -> HEADER_LENGTH + blen payload <= MAX_PACKET_LENGTH ->
  run daemon (read_packet s) (mkConn cur serial ((header_bytes (HEADER_LENGTH + blen payload) h ++ payload) ++ rest)) =
  (Ok (mkPacket h payload), mkConn cur serial rest).
Proof.
  intros Hh Hl. pose proof (blen_nonneg payload) as Hp. pose proof (blen_nonneg rest) as Hr.
  set (n := HEADER_LENGTH + blen payload) in *. set (packet := header_bytes n h ++ payload).
  assert (Hn : is_u32 n) by (unfold is_u32, u32_max, HEADER_LENGTH, MAX_PACKET_LENGTH in *; lia).
  assert (Hb : blen packet = n) by apply blen_header_bytes.
  assert (Hlen : length packet = Z.to_nat n) by (unfold blen in Hb; lia).
  assert (Hfirst : be_value (take 4 (packet ++ rest)) = n).
  { pose proof (header_words n h (payload ++ rest) Hn Hh) as [W _]. unfold word in W. rewrite drop_0 in W. unfold packet.
    by rewrite <-app_assoc. }
  assert (Hrest : take 4 (packet ++ rest) ++ take (Z.to_nat (n - 4)) (drop 4 (packet ++ rest)) = packet).
  { rewrite <-(take_app_length packet rest) at 3. rewrite Hlen. replace (Z.to_nat n) with (4 + Z.to_nat (n - 4))%nat by (unfold n, HEADER_LENGTH; lia).
    by rewrite take_take_drop. }
  unfold read_packet, mbind, N_bind. rewrite run_then. cbn [io ask run daemon cn_inbox cn_current cn_serial].
  rewrite blen_app. destruct (Z.leb_spec 4 (blen packet + blen rest)); [|unfold n, HEADER_LENGTH in *; lia].
  change (Z.to_nat 4) with 4%nat. cbn [map_err run]. rewrite Hfirst.
  destruct (Z.leb_spec HEADER_LENGTH n); [|unfold n in *; lia]. destruct (Z.leb_spec n MAX_PACKET_LENGTH); [|lia]. cbn [andb negb].
  rewrite run_then. cbn [io ask run daemon cn_inbox cn_current cn_serial].
  destruct (Z.leb_spec (n - 4) (blen (drop 4 (packet ++ rest)))); [|unfold blen in *; rewrite length_drop, length_app in *; unfold n, HEADER_LENGTH in *; lia].
  cbn [map_err run]. rewrite Hrest. unfold packet, n. rewrite decode_encoded by done. cbn [proto map_err pure_res run]. f_equal. f_equal.
  fold n. fold packet. rewrite drop_drop. replace (4 + Z.to_nat (n - 4))%nat with (length packet) by (unfold n, HEADER_LENGTH in *; lia).
  by rewrite drop_app_length.
Qed.

(** Sending a request: the serial moves on and the reply waits behind what was unread. *)
Lemma run_transport_request fuel s cur serial inbox procedure payload : fits (procedure, payload) ->
  run daemon (transport_request fuel s procedure payload) (mkConn cur serial inbox) =
  run daemon (read_reply fuel s (next_serial serial) procedure)
    (mkConn cur (next_serial serial) (inbox ++
      header_bytes (HEADER_LENGTH + blen (answer procedure payload)) (reply_header procedure (next_serial serial)) ++ answer procedure payload)).
Proof.
  intros Hf. unfold transport_request, mbind, N_bind. rewrite run_then. cbn [get run daemon cn_inbox cn_current cn_serial].
  rewrite encode_packet_bytes by (destruct Hf as (_ & Hf & _); unfold MAX_PACKET_LENGTH, u32_max in *; cbn in *; lia).
  rewrite run_then. unfold proto, pure_res. cbn [map_err run].
  rewrite run_then. cbn [io ask run daemon cn_inbox cn_current cn_serial map_err].
  rewrite reply_of_call by (try apply next_serial_range; done).
  rewrite run_then. by cbn [io ask run daemon cn_inbox cn_current cn_serial map_err].
Qed.
Lemma run_read_first fuel s cur serial h payload rest expected procedure :
  wf_header h -> HEADER_LENGTH + blen payload <= MAX_PACKET_LENGTH -> hd_packet_type h = PACKET_REPLY ->
  run daemon (read_reply (S fuel) s expected procedure)
    (mkConn cur serial ((header_bytes (HEADER_LENGTH + blen payload) h ++ payload) ++ rest)) =
  (process_reply (mkPacket h payload) expected procedure, mkConn cur serial rest).
Proof.
  intros Hh Hl Ht. cbn [read_reply]. unfold mbind, N_bind. rewrite run_then, run_read_packet by done.
  cbn [pk_header]. by rewrite Ht.
Qed.

Lemma process_own_reply procedure serial payload :
  process_reply (mkPacket (reply_header procedure serial) payload) serial procedure = Ok payload.
Proof. unfold process_reply, reply_header. cbn [pk_header hd_program hd_version hd_packet_type hd_serial hd_procedure hd_status pk_payload]. by rewrite !Z.eqb_refl. Qed.
Lemma process_other_reply procedure serial payload expected procedure' : serial <> expected ->
  process_reply (mkPacket (reply_header procedure serial) payload) expected procedure' =
  Err (Protocol (ReplyMismatch serial procedure expected procedure')).
Proof.
  intros Hne. unfold process_reply, reply_header. cbn [pk_header hd_program hd_version hd_packet_type hd_serial hd_procedure].
  rewrite !Z.eqb_refl. destruct (Z.eqb_spec serial expected); done.
Qed.
Lemma next_serial_differs z : is_i32 z -> z <> next_serial z.
Proof.
  intros Hz. unfold next_serial, i32_of_u32, u32_of_i32, is_i32 in *.
  destruct (Z.ltb_spec ((z + 1) mod 2 ^ 32) (2 ^ 31)); Z.to_euclidean_division_equations; lia.
Qed.

(** A request in step gets its own answer and leaves the socket in step. *)
Lemma run_request_in_step fuel s flags procedure payload w : in_step s w -> fits (procedure, payload) ->
  run daemon (api_request (S fuel) flags procedure payload) w =
  (Ok (answer procedure payload), mkConn (Some s) (next_serial (cn_serial w)) []).
Proof.
  destruct w as [cur serial inbox]. intros [Hc Hi] Hf. cbn in Hc, Hi. subst cur inbox.
  unfold api_request, current_socket, mbind, N_bind. rewrite !run_then. cbn [get run daemon cn_current].
  etransitivity; [apply (run_bind daemon)|]. rewrite run_transport_request by done. cbn [app cn_serial].
  destruct Hf as (Hp & _ & Ha). cbn [fst snd] in Hp, Ha.
  rewrite <-(app_nil_r (header_bytes _ _ ++ answer procedure payload)).
  rewrite run_read_first by (try apply wf_reply_header; try apply next_serial_range; done).
  by rewrite process_own_reply.
Qed.
(** One out of step gets an error, keeps the socket and leaves it out of step. *)
Lemma run_request_out_of_step fuel s flags procedure payload w : out_of_step s w -> fits (procedure, payload) ->
  exists procedure' w', run daemon (api_request (S fuel) flags procedure payload) w =
    (Err (Protocol (ReplyMismatch (cn_serial w) procedure' (next_serial (cn_serial w)) procedure)), w') /\ out_of_step s w'.
Proof.
  destruct w as [cur serial inbox]. intros (Hc & procedure' & payload' & Hp & Hs & Hl & Hi) Hf. cbn [cn_current cn_serial cn_inbox] in Hc, Hs, Hi. subst cur inbox.
  exists procedure'. eexists. split.
  - unfold api_request, current_socket, mbind, N_bind. rewrite !run_then. cbn [get run daemon cn_current].
    etransitivity; [apply (run_bind daemon)|]. rewrite run_transport_request by done. cbn [cn_serial].
    rewrite run_read_first by (try apply wf_reply_header; done).
    rewrite process_other_reply by (by apply next_serial_differs). reflexivity.
  - destruct Hf as (Hq & _ & Ha). cbn [fst snd] in Hq, Ha. split; [done|]. exists procedure, (answer procedure payload).
    repeat split; try apply Hq; try apply next_serial_range; done.
Qed.

(** Requests one after the other. *)
Fixpoint requests (fuel : nat) (flags : Z) (l : list (Z * list Z)) (w : conn) : list (result RpcError (list Z)) * conn :=
  match l with
  | [] => ([], w)
  | (procedure, payload) :: l =>
      let '(r, w) := run daemon (api_request fuel flags procedure payload) w in
      let '(rs, w) := requests fuel flags l w in (r :: rs, w)
  end.

Lemma abandoned_out_of_step s procedure payload w : in_step s w -> fits (procedure, payload) ->
  out_of_step s (snd (run daemon (abandoned s procedure payload) w)).
Proof.
  destruct w as [cur serial inbox]. intros [Hc Hi] Hf. cbn in Hc, Hi. subst cur inbox. unfold abandoned.
  rewrite run_then. cbn [get run daemon cn_inbox cn_current cn_serial].
  rewrite encode_packet_bytes by (destruct Hf as (_ & Hf & _); unfold MAX_PACKET_LENGTH, u32_max in *; cbn in *; lia).
  rewrite run_then. unfold proto, pure_res. cbn [map_err run].
  rewrite run_then. cbn [io ask run daemon cn_inbox cn_current cn_serial map_err snd].
  rewrite reply_of_call by (try apply next_serial_range; done). destruct Hf as (Hq & _ & Ha). cbn [fst snd] in Hq, Ha.
  split; [done|]. exists procedure, (answer procedure payload). repeat split; try apply Hq; try apply next_serial_range; done.
Qed.
Lemma requests_out_of_step fuel s flags l w : out_of_step s w -> Forall fits l ->
  Forall (fun r => exists serial procedure expected procedure', r = Err (Protocol (ReplyMismatch serial procedure expected procedure')))
    (fst (requests (S fuel) flags l w)) /\ cn_current (snd (requests (S fuel) flags l w)) = Some s.
Proof.
  intros Hw Hl. revert w Hw. induction Hl as [|[procedure payload] l Hf Hl IH]; intros w Hw; cbn [requests].
  { split; [constructor|apply Hw]. }
  destruct (run_request_out_of_step fuel s flags procedure payload w Hw Hf) as (procedure' & w' & -> & Hw').
  specialize (IH w' Hw'). destruct (requests (S fuel) flags l w') as [rs w'']. cbn [fst snd] in *.
  split; [|apply IH]. constructor; [eauto|apply IH].
Qed.
Lemma requests_in_step fuel s flags l w : in_step s w -> Forall fits l ->
  fst (requests (S fuel) flags l w) = (fun request => Ok (answer request.1 request.2)) <$> l /\ in_step s (snd (requests (S fuel) flags l w)).
Proof.
  intros Hw Hl. revert w Hw. induction Hl as [|[procedure payload] l Hf Hl IH]; intros w Hw; cbn [requests]; [done|].
  rewrite (run_request_in_step _ s) by done. specialize (IH (mkConn (Some s) (next_serial (cn_serial w)) [])).
  destruct (requests _ _ _ _) as [rs w'']. cbn [fst snd fmap list_fmap] in *. destruct IH as [-> IH]; done.
Qed.

(** With a daemon that answers each call, any sequence of requests on an
    open socket returns, request by request, the daemon's own answer to it. *)
Theorem requests_answered (fuel : nat) (s flags : Z) (l : list (Z * list Z)) (w : conn) :
  in_step s w -> Forall fits l ->
  fst (requests (S fuel) flags l w) = (fun request => Ok (answer request.1 request.2)) <$> l.
Proof. intros Hw Hl. by apply (requests_in_step _ s). Qed.

(** C39. A socket that is out of step stays out of step.  When one caller stops
    waiting between its write and its reply, with the same daemon every later
    request reads the reply before its own, fails with a reply mismatch, and
    the socket stays the current one: only an I/O error gives it up. *)
Theorem stale_reply_never_recovers (fuel : nat) (s flags procedure : Z) (payload : list Z) (l : list (Z * list Z)) (w : conn) :
  in_step s w -> fits (procedure, payload) -> Forall fits l ->
  let w' := snd (run daemon (abandoned s procedure payload) w) in
  Forall (fun r => exists serial procedure expected procedure', r = Err (Protocol (ReplyMismatch serial procedure expected procedure')))
    (fst (requests (S fuel) flags l w')) /\ cn_current (snd (requests (S fuel) flags l w')) = Some s.
Proof. intros Hw Hf Hl. cbv zeta. apply requests_out_of_step; [by apply abandoned_out_of_step|done]. Qed.
End Daemon.

(** A daemon that answers every call with one word. *)
Definition one_word (procedure : Z) (payload : list Z) : list Z := [0; 0; 0; procedure mod 256].
Lemma one_word_fits procedure payload : is_u32 procedure -> HEADER_LENGTH + blen payload <= MAX_PACKET_LENGTH ->
  fits one_word (procedure, payload).
Proof. intros. split; [done|]. split; [done|]. by vm_compute. Qed.
Lemma requests_answered_witness :
  fst (requests one_word 1 0 [(PROC_CONNECT_GET_CAPABILITIES, []); (PROC_DOMAIN_SHUTDOWN, [0; 0; 0; 1])] (mkConn (Some 5) 7 [])) =
  [Ok [0; 0; 0; 7]; Ok [0; 0; 0; 33]].
Proof.
  apply (requests_answered one_word 0 5); [done|]. repeat constructor; apply one_word_fits; by vm_compute.
Defined.
Lemma stale_reply_never_recovers_witness :
  let w := snd (run (daemon one_word) (abandoned 5 PROC_DOMAIN_GET_INFO [0; 0; 0; 1]) (mkConn (Some 5) 7 [])) in
  Forall (fun r => exists serial procedure expected procedure', r = Err (Protocol (ReplyMismatch serial procedure expected procedure')))
    (fst (requests one_word 1 0 [(PROC_CONNECT_GET_CAPABILITIES, []); (PROC_DOMAIN_SHUTDOWN, [0; 0; 0; 1])] w)) /\
  cn_current (snd (requests one_word 1 0 [(PROC_CONNECT_GET_CAPABILITIES, []); (PROC_DOMAIN_SHUTDOWN, [0; 0; 0; 1])] w)) = Some 5.
Proof.
  apply (stale_reply_never_recovers one_word 0 5); [done|..]; repeat constructor; try apply one_word_fits; by vm_compute.
Defined.

(** ** How often a procedure is called *)

Definition sent (p : Z) (tr : list (event ncall)) : nat := length (filter (fun q => q = p) (procedures tr)).
Lemma sent_app p tr tr' : sent p (tr ++ tr') = (sent p tr + sent p tr')%nat.
Proof. unfold sent. by rewrite procedures_app, filter_app, length_app. Qed.

(** A procedure that is no part of the handshake. *)
Definition plain (p : Z) : Prop := p <> PROC_AUTH_LIST /\ p <> PROC_AUTH_POLKIT /\ p <> PROC_CONNECT_OPEN.
Lemma partial_sent p tr : plain p -> partial_handshake tr -> sent p tr = 0%nat.
Proof.
  intros (H1 & H2 & H3) [[l Hl]|[l Hl]]; unfold sent.
  all: destruct (procedures tr) as [|a [|b [|c [|]]]]; try done; cbn in Hl; simplify_eq.
  all: by rewrite ?filter_cons_False by congruence.
Qed.
Lemma opened_sent p s tr : plain p -> opened s tr -> sent p tr = 0%nat.
Proof.
  intros Hp [->|(hs & -> & Hh)]; [done|]. apply handshake_partial in Hh. apply (partial_sent p) in Hh; [|done].
  change (mkEvent NCurrent None :: hs ++ ?l) with ([mkEvent NCurrent None] ++ hs ++ l). by rewrite !sent_app, Hh.
Qed.
Lemma settled_sent p s r tr : settled s r tr -> sent p tr = 0%nat.
Proof. destruct r as [|[| | |]]; cbn; intros H; subst; try done. destruct H as [current ->]. by case_bool_decide. Qed.

(** A request counts once when it is answered and at most once when it is not; no other procedure does. *)
Definition once (p procedure : Z) : nat := if bool_decide (p = procedure) then 1 else 0.
Definition counted {A} (p procedure : Z) (tr : list (event ncall)) (r : result RpcError A) : Prop :=
  (sent p tr <= once p procedure)%nat /\ ((exists a, r = Ok a) -> sent p tr = once p procedure).
Lemma sent_once_counted p procedure payload tr r : is_u32 procedure -> plain p -> sent_once procedure payload tr r -> counted p procedure tr r.
Proof.
  intros Hu Hp [[Hh [e ->]]|(s & serial & bytes & opening & call & ending & -> & Ho & Hi & He & Hw & _ & Hs)]; unfold counted.
  - rewrite partial_sent by done. split; [lia|]. by intros [a Ha].
  - rewrite !sent_app, (opened_sent _ _ _ Hp Ho), (settled_sent _ _ _ _ Hs).
    assert (sent p call = once p procedure) as ->; [|split; [lia|]; intros _; lia].
    unfold sent, procedures, once. rewrite Hw. cbn [fmap list_fmap snd]. rewrite (encoded_procedure _ _ _ _ Hu Hi He).
    case_bool_decide; [rewrite filter_cons_True by done|rewrite filter_cons_False by congruence]; done.
Qed.
Lemma always_request_counted {A} fuel p procedure w (read : list Z -> N A) : is_u32 procedure -> plain p ->
  (forall payload, always (read payload) (fun tr _ => tr = [])) ->
  always (fallible_bind _ _ read (rpc fuel procedure w)) (counted p procedure).
Proof.
  intros Hu Hp Hr. apply always_fallible. unfold rpc. apply always_fallible. cbn [xdr pure_res always].
  destruct w as [w|e]; cbn [map_err]; [|by split; [cbn; lia|intros [a Ha]]].
  eapply always_mono; [|apply always_api_request]. intros tr r Hs. apply (sent_once_counted p) in Hs as [H1 H2]; [|done..].
  destruct r as [payload|e]; [|by split; [done|intros [a Ha]]].
  eapply always_mono; [|apply Hr]. intros tr' b ->. unfold counted. rewrite app_nil_r. split; [done|]. intros _. apply H2. eauto.
Qed.
