(* ===== verification/Hypervisor.v ===== *)
(** * Hypervisor: the libvirt client, [crates/hypervisor/src/client.rs]

    [Client] drives domains and networks through [LibvirtApi] and
    [NetworkApi], which are the calls of [Rpc.vcall]; [Fake] is the in-memory
    hypervisor of [fake.rs].  Names, XML and messages are texts, lists of
    bytes.  Times are nanoseconds. *)

From Stdlib Require Import ZArith Lia.
From stdpp Require Import sorting.
From S2P Require Import Prelude Text Xdr Xml DomainXml Types Prog Rpc.
Open Scope Z_scope.

(** ** Errors: [error.rs] *)

Definition ERR_NO_DOMAIN : Z := 42.
Definition ERR_NO_NETWORK : Z := 43.

(** [Error]; what a protocol message says is kept as data, and [Unanswered]
    and [StillPolling] are runs the model's fuel cuts short. *)
Inductive HvError : Type :=
  | DomainNotFound (name : text)
  | DomainExists (name : text)
  | LibvirtFailed (operation : text) (code : Z) (message : text)
  | IoFailed (operation : text) (message : string)
  | ProtocolFailed (operation : text) (e : ProtocolError)
  | OperationFailed (message : text)
  | Unanswered (operation : text)
  | StillPolling.
#[global] Instance HvError_eq_dec : EqDecision HvError.
Proof. solve_decision. Defined.
Definition is_libvirt_code (e : HvError) (code : Z) : bool :=
  match e with LibvirtFailed _ c _ => c =? code | _ => false end.
Definition operation_error (operation : text) (source : RpcError) : HvError :=
  match source with
  | Libvirt code message => LibvirtFailed operation code message
  | Io message => IoFailed operation message
  | Protocol e => ProtocolFailed operation e
  | Waiting => Unanswered operation
  end.

(** ** Data *)

Definition DEFAULT_STOP_TIMEOUT : Z := 60 * 1000000000.
Definition DEFAULT_POLL_INTERVAL : Z := 500 * 1000000.
Definition DOMAIN_UNDEFINE_NVRAM : Z := 4.
Definition MEMORY_STAT_RSS : Z := 7.
Definition MEMORY_STAT_MAX : Z := 32.

Inductive StopResult : Type := Graceful | Forced | AlreadyStopped.
#[global] Instance StopResult_eq_dec : EqDecision StopResult.
Proof. solve_decision. Defined.
Record DomainInfo : Type := mkDomainInfo { di_name : text; di_uuid : text; di_state : State }.
#[global] Instance DomainInfo_eq_dec : EqDecision DomainInfo.
Proof. solve_decision. Defined.
Record DomainSample : Type := mkDomainSample { sa_cpu_time_ns : Z; sa_vcpus : Z; sa_rss_kib : option Z }.

(** [Client], less its handles: whether it has a network connection and a socket. *)
Record Client : Type := mkClient { cl_network : bool; cl_rpc : bool; stop_timeout : Z; poll_interval : Z }.

Definition state_from_libvirt (state : Z) : State :=
  if bool_decide (state ∈ [1; 2; 3; 4; 7]) then Running else Stopped.
Definition format_uuid (uuid : list Z) : text :=
  let hex (from to : nat) := lit (hex_encode (take (to - from) (drop from uuid))) in
  let dash := lit "-" in
  hex 0%nat 4%nat ++ dash ++ hex 4%nat 6%nat ++ dash ++ hex 6%nat 8%nat ++ dash ++ hex 8%nat 10%nat ++ dash ++ hex 10%nat 16%nat.

(** ** [impl Client] *)

Definition H (A : Type) : Type := fallible vcall HvError A.
#[local] Instance H_ret : MRet H := fallible_ret.
#[local] Instance H_bind : MBind H := fallible_bind.
(** [.await.map_err(|error| operation_error(operation, error))?]. *)
Definition libvirt {A} (operation : text) (c : vcall (result RpcError A)) : H A := ask c (operation_error operation).

Definition DEFAULT_SOCKET_PATH : text := lit "/var/run/libvirt/libvirt-sock".
Definition client_connect (fuel : nat) (supplied : text) : fallible ncall HvError Client :=
  let path := if bool_decide (supplied = []) then DEFAULT_SOCKET_PATH else supplied in
  prog_bind _ _ (fun r =>
    match r with
    | Ok _ => Ret (Ok (mkClient true true DEFAULT_STOP_TIMEOUT DEFAULT_POLL_INTERVAL))
    | Err e => Ret (Err (operation_error (lit "connect to libvirtd at " ++ path) e))
    end) (connect fuel 0).

Definition lookup (name : text) : H Domain :=
  Call (DomainLookupByName name) (fun r =>
    match r with
    | Ok domain => Ret (Ok domain)
    | Err (Libvirt code message) =>
        if code =? ERR_NO_DOMAIN then Ret (Err (DomainNotFound name))
        else Ret (Err (operation_error (lit "lookup domain " ++ name) (Libvirt code message)))
    | Err error => Ret (Err (operation_error (lit "lookup domain " ++ name) error))
    end).
Definition domain_state (domain : Domain) : H State :=
  '(state, _) ← libvirt (lit "get state of domain " ++ dm_name domain) (DomainGetState domain 0);
  mret (state_from_libvirt state).

Module Client.
Section Operations.
Context (self : Client).

Definition close : H unit :=
  if cl_rpc self then libvirt (lit "close libvirt connection") ConnectClose else mret tt.
Definition capabilities : H text :=
  if cl_rpc self then libvirt (lit "get libvirt capabilities") ConnectGetCapabilities
  else throw (OperationFailed (lit "hypervisor: this client has no libvirt connection")).

(** ** [impl Hypervisor for Client] *)

(** [let _ = self.api.domain_undefine_flags(..).await; return Err(..)]. *)
Definition undefine_and_fail (domain : Domain) (e : HvError) : H unit :=
  _ ← (attempt (DomainUndefineFlags domain DOMAIN_UNDEFINE_NVRAM) : H (result RpcError unit));
  throw e.
Definition create (xml : text) : H unit :=
  domain ← libvirt (lit "define domain") (DomainDefineXml xml);
  autostart ← (attempt (DomainSetAutostart domain 0) : H (result RpcError unit));
  match autostart with
  | Err error => undefine_and_fail domain (operation_error (lit "clear autostart on " ++ dm_name domain) error)
  | Ok _ =>
      created ← (attempt (DomainCreate domain) : H (result RpcError unit));
      match created with
      | Err error => undefine_and_fail domain (operation_error (lit "start domain " ++ dm_name domain) error)
      | Ok _ => mret tt
      end
  end.

Definition start (name : text) : H unit :=
  domain ← lookup name;
  libvirt (lit "start domain " ++ name) (DomainCreate domain).

(** The loop of [stop]: what happens from [elapsed] on. *)
Fixpoint wait_stopped (fuel : nat) (name : text) (domain : Domain) (elapsed : Z) : H StopResult :=
  match fuel with
  | O => throw StillPolling
  | S fuel =>
      state ← domain_state domain;
      if bool_decide (state = Stopped) then mret Graceful
      else if stop_timeout self <=? elapsed then
        _ ← libvirt (lit "destroy domain " ++ name ++ lit " after shutdown timeout") (DomainDestroy domain);
        mret Forced
      else
        _ ← (get (Sleep (poll_interval self)) : H unit);
        wait_stopped fuel name domain (elapsed + poll_interval self)
  end.
(** The iterations of the loop: one more than the polls that fit before the timeout. *)
Definition polls : nat := Z.to_nat ((stop_timeout self + poll_interval self - 1) / poll_interval self + 1).
Definition stop (name : text) : H StopResult :=
  domain ← lookup name;
  state ← domain_state domain;
  if bool_decide (state = Stopped) then mret AlreadyStopped
  else
    _ ← libvirt (lit "shutdown domain " ++ name) (DomainShutdown domain);
    wait_stopped polls name domain 0.

Definition reboot (name : text) : H unit :=
  domain ← lookup name;
  libvirt (lit "reboot domain " ++ name) (DomainReboot domain 0).

Definition remove (name : text) : H unit :=
  domain ← lookup name;
  state ← domain_state domain;
  _ ← (if negb (bool_decide (state = Stopped)) then libvirt (lit "destroy domain " ++ name) (DomainDestroy domain) else mret tt : H unit);
  libvirt (lit "undefine domain " ++ name) (DomainUndefineFlags domain DOMAIN_UNDEFINE_NVRAM).

(** The loop of [list]. *)
Fixpoint infos (domains : list Domain) : H (list DomainInfo) :=
  match domains with
  | [] => mret []
  | domain :: domains =>
      state ← domain_state domain;
      rest ← infos domains;
      mret (mkDomainInfo (dm_name domain) (format_uuid (dm_uuid domain)) state :: rest)
  end.
Definition list : H (list DomainInfo) :=
  '(domains, _) ← libvirt (lit "list domains") (ConnectListAllDomains 1 0);
  infos domains.

Definition state (name : text) : H State :=
  domain ← lookup name;
  domain_state domain.

(** ** The optional capabilities *)

Definition sample (name : text) : H (option DomainSample) :=
  domain ← lookup name;
  info ← libvirt (lit "read domain info") (DomainGetInfo domain);
  if negb (ds_state info =? 1) then mret None
  else
    stats ← (attempt (DomainMemoryStats domain MEMORY_STAT_MAX 0) : H (result RpcError (Datatypes.list (Z * Z))));
    let rss_kib := match stats with
                   | Ok stats => snd <$> List.find (fun s => s.1 =? MEMORY_STAT_RSS) stats
                   | Err _ => None
                   end in
    mret (Some (mkDomainSample (ds_cpu_time_ns info) (ds_vcpus info) rss_kib)).

Definition define (xml : text) : H unit :=
  _ ← libvirt (lit "define domain") (DomainDefineXml xml);
  mret tt.
Definition clear_autostart (name : text) : H unit :=
  domain ← lookup name;
  libvirt (lit "clear autostart on " ++ name) (DomainSetAutostart domain 0).

(** The network of a name, defined when there is none. *)
Definition find_network (name xml : text) : H NetworkHandle :=
  found ← (attempt (NetworkLookupByName name) : H (result RpcError NetworkHandle));
  match found with
  | Ok network => mret network
  | Err (Libvirt code message) =>
      if code =? ERR_NO_NETWORK then libvirt (lit "define network " ++ name) (NetworkDefineXml xml)
      else throw (operation_error (lit "lookup network " ++ name) (Libvirt code message))
  | Err error => throw (operation_error (lit "lookup network " ++ name) error)
  end.
Definition ensure_network (name xml : text) : H unit :=
  if negb (cl_network self) then throw (OperationFailed (lit "hypervisor: this connection cannot manage networks"))
  else
    network ← find_network name xml;
    _ ← libvirt (lit "set autostart on network " ++ name) (NetworkSetAutostart network 1);
    active ← libvirt (lit "check network " ++ name) (NetworkIsActive network);
    if active =? 0 then libvirt (lit "start network " ++ name) (NetworkCreate network) else mret tt.
End Operations.
End Client.

(** ** The hypervisor of the tests: [fake.rs] *)

Record FakeDomain : Type := mkFakeDomain { fd_name : text; fd_uuid : text; fd_xml : text; fd_state : State; fd_autostart : bool }.

Module Fake.
Record Inner : Type := mkInner {
  domains : gmap (Datatypes.list Z) FakeDomain;
  calls : Datatypes.list text;
  hook : option (text -> text -> result HvError unit);
  force_stop : bool
}.
Definition default : Inner := mkInner ∅ [] None false.
Definition F (A : Type) : Type := Inner -> result HvError A * Inner.

Definition begin (operation name : text) : F unit := fun inner =>
  (match hook inner with Some hook => hook operation name | None => Ok tt end,
   mkInner (domains inner) (calls inner ++ [operation ++ lit " " ++ name]) (hook inner) (force_stop inner)).
Definition with_domains (inner : Inner) (d : gmap (Datatypes.list Z) FakeDomain) : Inner := mkInner d (calls inner) (hook inner) (force_stop inner).
(** [Self::begin(..)?] and what follows. *)
Definition begun {A} (operation name : text) (f : F A) : F A := fun inner =>
  match begin operation name inner with
  | (Ok _, inner) => f inner
  | (Err e, inner) => (Err e, inner)
  end.

Definition set_domain (d : FakeDomain) (inner : Inner) : Inner := with_domains inner (<[fd_name d := d]> (domains inner)).
Definition set_state (d : FakeDomain) (s : State) : FakeDomain := mkFakeDomain (fd_name d) (fd_uuid d) (fd_xml d) s (fd_autostart d).

Definition create (xml : text) : F unit := fun inner =>
  match domain_identity xml with
  | Err _ => (Err (OperationFailed (lit "fake create: bad domain xml")), inner)
  | Ok (name, uuid) =>
      if bool_decide (name = []) || bool_decide (uuid = []) then
        (Err (OperationFailed (lit "fake create: domain xml missing name or uuid")), inner)
      else begun (lit "create") name (fun inner =>
        match domains inner !! name with
        | Some _ => (Err (DomainExists name), inner)
        | None => (Ok tt, with_domains inner (<[name := mkFakeDomain name uuid xml Running false]> (domains inner)))
        end) inner
  end.
Definition start (name : Datatypes.list Z) : F unit :=
  begun (lit "start") name (fun inner =>
    match domains inner !! name with
    | None => (Err (DomainNotFound name), inner)
    | Some d => (Ok tt, with_domains inner (<[name := set_state d Running]> (domains inner)))
    end).
Definition stop (name : Datatypes.list Z) : F StopResult :=
  begun (lit "stop") name (fun inner =>
    match domains inner !! name with
    | None => (Err (DomainNotFound name), inner)
    | Some d =>
        if bool_decide (fd_state d = Stopped) then (Ok AlreadyStopped, inner)
        else (Ok (if force_stop inner then Forced else Graceful), with_domains inner (<[name := set_state d Stopped]> (domains inner)))
    end).
Definition reboot (name : Datatypes.list Z) : F unit :=
  begun (lit "reboot") name (fun inner =>
    match domains inner !! name with
    | None => (Err (DomainNotFound name), inner)
    | Some d =>
        if negb (bool_decide (fd_state d = Running)) then
          (Err (OperationFailed (lit "fake reboot: domain " ++ name ++ lit " is not running")), inner)
        else (Ok tt, inner)
    end).
Definition remove (name : Datatypes.list Z) : F unit :=
  begun (lit "remove") name (fun inner =>
    match domains inner !! name with
    | None => (Err (DomainNotFound name), inner)
    | Some _ => (Ok tt, with_domains inner (delete name (domains inner)))
    end).
(** [str::cmp], byte by byte. *)
Fixpoint text_leb (a b : text) : bool :=
  match a, b with
  | [], _ => true
  | _ :: _, [] => false
  | x :: a, y :: b => (x <? y) || ((x =? y) && text_leb a b)
  end.
Definition info_le (a b : DomainInfo) : Prop := Is_true (text_leb (di_name a) (di_name b)).
#[local] Instance info_le_dec a b : Decision (info_le a b).
Proof. unfold info_le. apply _. Defined.
Definition list : F (Datatypes.list DomainInfo) :=
  begun (lit "list") [] (fun inner =>
    (Ok (merge_sort info_le ((fun d => mkDomainInfo (fd_name d) (fd_uuid d) (fd_state d)) <$> (map_to_list (domains inner)).*2)), inner)).
Definition state (name : Datatypes.list Z) : F State :=
  begun (lit "state") name (fun inner =>
    match domains inner !! name with
    | None => (Err (DomainNotFound name), inner)
    | Some d => (Ok (fd_state d), inner)
    end).
End Fake.
