(* ===== verification/HypervisorRuns.v ===== *)
(** * HypervisorRuns: what the libvirt client does to a machine

    Every run of [stop] and [create] of [Hypervisor.Client], whatever libvirt
    answers, and what [state], [stop] and [remove] achieve, beside the fake
    hypervisor, with a libvirt that keeps its documented promises while guests
    power themselves off at any time (the class [LibvirtLaws]). *)

From Stdlib Require Import ZArith Lia.
From S2P Require Import Prelude Text Xdr Xml Types Prog Rpc RpcRuns Hypervisor.
Open Scope Z_scope.

(** ** What a trace says *)

Definition slept (tr : list (event vcall)) : Z :=
  foldr (fun e t => match ev_call e with Sleep d => d + t | _ => t end) 0 tr.
Definition asked (tr : list (event vcall)) : list Domain :=
  omap (fun e => match ev_call e with DomainShutdown d => Some d | _ => None end) tr.
Definition destroyed (tr : list (event vcall)) : list Domain :=
  omap (fun e => match ev_call e with DomainDestroy d => Some d | _ => None end) tr.
Definition started (tr : list (event vcall)) : list Domain :=
  omap (fun e => match ev_call e with DomainCreate d => Some d | _ => None end) tr.
(** An answer to a state read that shows a running machine; other answers do not matter. *)
Definition seen_running (e : event vcall) : Prop :=
  (match ev_call e in vcall R return R -> Prop with
   | DomainGetState _ _ => fun r => exists st reason, r = Ok (st, reason) /\ state_from_libvirt st <> Stopped
   | _ => fun _ => True
   end) (ev_reply e).

Lemma slept_app tr tr' : slept (tr ++ tr') = slept tr + slept tr'.
Proof.
  induction tr as [|e tr IH]; [done|]. cbn [slept foldr app]. unfold slept in *. rewrite IH. destruct (ev_call e); lia.
Qed.
Lemma asked_app tr tr' : asked (tr ++ tr') = asked tr ++ asked tr'.
Proof. apply omap_app. Qed.
Lemma destroyed_app tr tr' : destroyed (tr ++ tr') = destroyed tr ++ destroyed tr'.
Proof. apply omap_app. Qed.

(** ** Stopping a machine *)

Section Stop.
Context (self : Client) (Hpoll : 0 < poll_interval self) (Htimeout : 0 <= stop_timeout self).
#[local] Abbreviation T := (stop_timeout self).
#[local] Abbreviation P := (poll_interval self).

(** A state read and its answer. *)
Definition read (d : Domain) (r : result RpcError (Z * Z)) : event vcall := mkEvent (DomainGetState d 0) r.

(** Rounds of the loop that saw the machine running, and how long they slept. *)
Inductive polled (d : Domain) : list (event vcall) -> Z -> Prop :=
  | polled_nil : polled d [] 0
  | polled_cons st reason tr t : state_from_libvirt st <> Stopped -> polled d tr t ->
      polled d (read d (Ok (st, reason)) :: mkEvent (Sleep P) tt :: tr) (P + t).
Lemma polled_facts d tr t : polled d tr t ->
  slept tr = t /\ asked tr = [] /\ destroyed tr = [] /\ Forall seen_running tr.
Proof.
  induction 1 as [|st reason tr t Hst _ (IH1 & IH2 & IH3 & IH4)]; [done|]. split_and!; [|done|done|].
  - cbn. unfold slept in IH1. by rewrite IH1.
  - constructor; [by exists st, reason|]. by constructor.
Qed.

(** How the loop ends, when it began at [elapsed]. *)
Inductive waited (d : Domain) (elapsed : Z) : list (event vcall) -> result HvError StopResult -> Prop :=
  | waited_off tr t st reason : polled d tr t -> elapsed + t < T + P -> state_from_libvirt st = Stopped ->
      waited d elapsed (tr ++ [read d (Ok (st, reason))]) (Ok Graceful)
  | waited_lost tr t e e' : polled d tr t -> elapsed + t < T + P -> e' <> StillPolling ->
      waited d elapsed (tr ++ [read d (Err e)]) (Err e')
  | waited_out tr t st reason rep r : polled d tr t -> T <= elapsed + t < T + P -> state_from_libvirt st <> Stopped ->
      (r = Ok Forced /\ rep = Ok tt \/ exists e e', r = Err e' /\ rep = Err e /\ e' <> StillPolling) ->
      waited d elapsed (tr ++ [read d (Ok (st, reason)); mkEvent (DomainDestroy d) rep]) r.
Lemma waited_round d elapsed tr r st reason : waited d (elapsed + P) tr r -> state_from_libvirt st <> Stopped ->
  waited d elapsed (read d (Ok (st, reason)) :: mkEvent (Sleep P) tt :: tr) r.
Proof.
  intros Hw Hst. assert (Hc : forall tr t, polled d tr t -> polled d (read d (Ok (st, reason)) :: mkEvent (Sleep P) tt :: tr) (P + t)).
  { intros. by constructor. }
  destruct Hw as [tr t st' reason' Hp Ht Hs|tr t e e' Hp Ht He|tr t st' reason' rep r Hp Ht Hs Hr].
  - apply (waited_off _ _ (_ :: _ :: tr) (P + t)); [by apply Hc|lia|done].
  - apply (waited_lost _ _ (_ :: _ :: tr) (P + t)); [by apply Hc|lia|done].
  - apply (waited_out _ _ (_ :: _ :: tr) (P + t)); [by apply Hc|lia|done|done].
Qed.

Lemma operation_not_polling operation e : operation_error operation e <> StillPolling.
Proof. by destruct e. Qed.
Lemma stopped_or_not s : bool_decide (s = Stopped) = true /\ s = Stopped \/ bool_decide (s = Stopped) = false /\ s <> Stopped.
Proof. case_bool_decide; auto. Qed.

Lemma always_domain_state d (Q : list (event vcall) -> result HvError State -> Prop) :
  (forall st reason, Q [read d (Ok (st, reason))] (Ok (state_from_libvirt st))) ->
  (forall e e', e' <> StillPolling -> Q [read d (Err e)] (Err e')) -> always (domain_state d) Q.
Proof. intros Ho He [[st reason]|e]; [apply Ho|apply He, operation_not_polling]. Qed.
Lemma always_wait_stopped fuel name d elapsed : 0 <= elapsed < T + P -> T - elapsed <= Z.of_nat fuel * P ->
  always (Client.wait_stopped self (S fuel) name d elapsed) (waited d elapsed).
Proof.
  revert elapsed. induction fuel as [|fuel IH]; intros elapsed He Hf.
  all: cbn [Client.wait_stopped]; apply always_fallible, always_domain_state; intros st reason;
    [|by intros Hr; apply (waited_lost d elapsed [] 0); [constructor|lia|]].
  all: destruct (stopped_or_not (state_from_libvirt st)) as [[-> Hs]|[-> Hs]];
    [by apply (waited_off d elapsed [] 0); [constructor|lia|]|].
  all: destruct (Z.leb_spec T elapsed) as [Hle|Hlt]; [|try lia].
  1, 2: apply always_fallible; intros [[]|e]; cbn [map_err always];
    (apply (waited_out d elapsed [] 0); [constructor|lia|done|]); [by left|right; eauto using operation_not_polling].
  apply always_fallible. intros []. cbn [always]. eapply always_mono; [|apply IH; lia].
  intros tr r Hw. by apply waited_round.
Qed.
Lemma polls_enough : exists n, Client.polls self = S n /\ T - 0 <= Z.of_nat n * P.
Proof.
  exists (Z.to_nat ((T + P - 1) / P)). unfold Client.polls.
  assert (0 <= (T + P - 1) / P) by (apply Z.div_pos; lia). rewrite Z2Nat.inj_add by lia. split; [lia|].
  rewrite Z2Nat.id by lia. pose proof (Z.mul_succ_div_gt (T + P - 1) P). lia.
Qed.

(** The promise of a stop, of its calls and its result. *)
Definition patient (tr : list (event vcall)) (r : result HvError StopResult) : Prop :=
  r <> Err StillPolling /\ slept tr < T + P /\
  (destroyed tr = [] /\ r <> Ok Forced \/
   exists pre d rep, tr = pre ++ [mkEvent (DomainDestroy d) rep] /\ destroyed pre = [] /\
     mkEvent (DomainShutdown d) (Ok tt) ∈ pre /\ T <= slept pre /\ Forall seen_running pre /\ (r = Ok Forced <-> rep = Ok tt)) /\
  (r = Ok Graceful -> asked tr <> [] /\
     exists pre d st reason, tr = pre ++ [mkEvent (DomainGetState d 0) (Ok (st, reason))] /\ state_from_libvirt st = Stopped) /\
  (r = Ok AlreadyStopped -> asked tr = [] /\ destroyed tr = []).

(** After calls that only looked, an error or nothing to do. *)
Lemma patient_looking tr r : slept tr = 0 -> asked tr = [] -> destroyed tr = [] ->
  (exists e, r = Err e /\ e <> StillPolling) \/ r = Ok AlreadyStopped -> patient tr r.
Proof.
  intros Hsl Ha Hd Hr. unfold patient. rewrite Hsl. split_and!; [|lia|left|..].
  all: destruct Hr as [(e & -> & He)| ->]; (repeat split); congruence.
Qed.
Lemma patient_refused tr d e e' : slept tr = 0 -> asked tr = [] -> destroyed tr = [] -> e' <> StillPolling ->
  patient (tr ++ [mkEvent (DomainShutdown d) (Err e)]) (Err e').
Proof.
  intros Hsl Ha Hd Hr. unfold patient. rewrite slept_app, destroyed_app, Hsl, Hd. split_and!; [congruence|cbn; lia|by left|done..].
Qed.
Lemma patient_waited pre d tr r : slept pre = 0 -> destroyed pre = [] -> asked pre <> [] -> Forall seen_running pre ->
  mkEvent (DomainShutdown d) (Ok tt) ∈ pre -> waited d 0 tr r -> patient (pre ++ tr) r.
Proof.
  intros Hsl Hd Ha Hs Hin Hw. unfold patient. rewrite slept_app, destroyed_app, asked_app, Hsl, Hd.
  assert (Ha' : forall l, asked pre ++ l <> []) by (destruct (asked pre); done).
  destruct Hw as [w t st reason Hp Ht Hst|w t e e' Hp Ht He|w t st reason rep r Hp Ht Hst Hr];
    destruct (polled_facts _ _ _ Hp) as (F1 & F2 & F3 & F4); rewrite slept_app, destroyed_app, F1, F3; cbn [slept foldr ev_call read].
  - split_and!; [done|lia|by left| |done]. intros _. split; [apply Ha'|]. exists (pre ++ w), d, st, reason. by rewrite app_assoc.
  - split_and!; [congruence|lia|by left|done|done].
  - split_and!; [destruct Hr as [[-> _]|(e & e' & -> & -> & ?)]; congruence|lia| |by destruct Hr as [[-> _]|(e & e' & -> & -> & ?)]..].
    right. exists (pre ++ w ++ [read d (Ok (st, reason))]), d, rep. rewrite !slept_app, !destroyed_app, Hsl, Hd, F1, F3.
    split_and!; [by rewrite <-!app_assoc|done|apply elem_of_app; by left|cbn; lia| |].
    + rewrite !Forall_app. split_and!; [done|done|]. constructor; [by exists st, reason|done].
    + destruct Hr as [[-> ->]|(e & e' & -> & -> & _)]; done.
Qed.

Lemma always_stop (name : text) : always (Client.stop self name) patient.
Proof.
  apply always_fallible. intros [d|e]; cbn [always].
  2: { destruct e as [code m|m|m|]; [destruct (code =? ERR_NO_DOMAIN)|..]; cbn; apply patient_looking; eauto. }
  apply always_fallible, always_domain_state; intros st reason; [|intros He; apply patient_looking; eauto].
  destruct (stopped_or_not (state_from_libvirt st)) as [[-> Hs]|[-> Hs]]; [cbn; apply patient_looking; eauto|].
  apply always_fallible. intros [[]|e]; cbn [map_err always].
  2: { by apply (patient_refused [_; _]), operation_not_polling. }
  destruct polls_enough as (n & -> & Hn). eapply always_mono; [|apply always_wait_stopped; lia].
  intros tr r Hw. apply (patient_waited [_; _; _] d); try done; [|by right; right; left].
  repeat constructor. by exists st, reason.
Qed.

(** A stop is patient and ends.  In every run of [stop], whatever libvirt
    answers and whatever else happens on the machine, the loop ends by itself
    and sleeps for less than the timeout and one interval.  The machine is
    destroyed only as the very last call, after libvirt accepted the shutdown
    of that same domain, after the whole timeout has been slept through, and
    when every reading of its state since showed it running; the stop is then
    reported as forced exactly when libvirt destroyed it.  A stop reported as
    graceful asked for the shutdown and last saw the machine off, and one
    reported as unnecessary asked for nothing. *)
Theorem stop_patient (name : text) : always (Client.stop self name) patient.
Proof. apply always_stop. Qed.
End Stop.

(** The client the control plane connects with. *)
Definition default_client : Client := mkClient true true DEFAULT_STOP_TIMEOUT DEFAULT_POLL_INTERVAL.
Lemma stop_patient_witness : Client.polls default_client = 121%nat /\
  always (Client.stop default_client (lit "bento-web")) (patient default_client).
Proof. split; [reflexivity|]. apply stop_patient; vm_compute; [reflexivity|discriminate]. Defined.

(** ** Creating a machine *)

(** A failed creation leaves no definition behind, as far as libvirt lets
    it.  In every run of [create]: success means the domain was defined, its
    autostart was cleared and then it was started, with no other call; after a
    failure either nothing was defined, or the last call undefines that same
    domain with its NVRAM file, and the domain is never started before its
    autostart is off. *)
Theorem create_undone (xml : text) :
  always (Client.create xml) (fun tr r =>
    match r with
    | Ok _ => exists d, tr = [mkEvent (DomainDefineXml xml) (Ok d); mkEvent (DomainSetAutostart d 0) (Ok tt); mkEvent (DomainCreate d) (Ok tt)]
    | Err _ =>
        (exists e, tr = [mkEvent (DomainDefineXml xml) (Err e)]) \/
        exists d middle rep, tr = mkEvent (DomainDefineXml xml) (Ok d) :: middle ++ [mkEvent (DomainUndefineFlags d DOMAIN_UNDEFINE_NVRAM) rep] /\
          ((exists e, middle = [mkEvent (DomainSetAutostart d 0) (Err e)]) \/
           exists e, middle = [mkEvent (DomainSetAutostart d 0) (Ok tt); mkEvent (DomainCreate d) (Err e)])
    end).
Proof.
  intros [d|e]; cbn; [|by left; exists e]. intros [[]|e]; cbn.
  - intros [[]|e]; cbn; [by exists d|]. intros rep. right. exists d. eexists [_; _], rep. split; [done|]. right. by exists e.
  - intros rep. right. exists d. eexists [_], rep. split; [done|]. left. by exists e.
Qed.

(** ** With a libvirt that keeps its promises *)

(** What libvirt documents of the calls [stop] and [remove] make.  Domains
    are known by name, with their UUID and state, and a handle is answered by
    name and UUID; a domain is active or off ([on_crash] destroys, so a crashed
    domain is off too).  Guests power themselves off whenever they like, also
    between two calls of the client: every call is answered in a world that may
    be [later] than the one it was made in.  A shutdown or a destroy that comes
    too late is refused with [ERR_OPERATION_INVALID].  A domain may own files
    besides its definition, a managed save image (1), snapshots (2), an NVRAM
    file (4) and checkpoints (16), and it is undefined only when the flags
    cover all it owns.  Nobody else defines, starts or removes domains. *)
Definition SHUTOFF : Z := 5.
Definition ERR_OPERATION_INVALID : Z := 55.
Definition NVRAM_FILE : Z := 4.
(** Everything owned is covered by the flags. *)
Definition covers (flags owned : Z) : bool := Z.land owned (Z.lnot flags) =? 0.

Section Later.
Context {W : Type} (domains : W -> gmap (list Z) (list Z * Z)) (owned : W -> list Z -> Z).
Definition later (w w' : W) : Prop := forall name : list Z, owned w' name = owned w name /\
  (domains w' !! name = domains w !! name \/
   exists uuid st, domains w !! name = Some (uuid, st) /\ domains w' !! name = Some (uuid, SHUTOFF)).
(** The domain of a handle is in a state. *)
Definition handle (w : W) (d : Domain) (st : Z) : Prop := domains w !! dm_name d = Some (dm_uuid d, st).

Lemma later_refl w : later w w.
Proof. intros name. by split; [|left]. Qed.
Lemma later_trans w w' w'' : later w w' -> later w' w'' -> later w w''.
Proof.
  intros H1 H2 name. destruct (H1 name) as [Ho1 H1'], (H2 name) as [Ho2 H2']. split; [congruence|].
  destruct H2' as [->|(uuid & st & Hd & ->)]; [done|]. destruct H1' as [He|(uuid' & st' & Hd' & He)].
  - right. exists uuid, st. by rewrite <-He.
  - right. exists uuid', st'. split; [done|]. congruence.
Qed.
Lemma later_handle w w' d st : later w w' -> handle w d st -> handle w' d st \/ handle w' d SHUTOFF.
Proof. unfold handle. intros H Hd. destruct (H (dm_name d)) as [_ [->|(uuid & st' & Hd' & ->)]]; [by left|right; congruence]. Qed.
End Later.

Class LibvirtLaws (W : Type) : Type := {
  lv : handler vcall W;
  lv_domains : W -> gmap (list Z) (list Z * Z);
  lv_owned : W -> list Z -> Z;
  lv_lookup w (name : list Z) : exists w', later lv_domains lv_owned w w' /\
    match lv_domains w !! name with
    | Some (uuid, _) => exists id, lv _ (DomainLookupByName name) w = (Ok (mkDomain name uuid id), w')
    | None => exists m, lv _ (DomainLookupByName name) w = (Err (Libvirt ERR_NO_DOMAIN m), w')
    end;
  lv_state w d st : handle lv_domains w d st -> exists w' st' reason, later lv_domains lv_owned w w' /\
    handle lv_domains w' d st' /\ lv _ (DomainGetState d 0) w = (Ok (st', reason), w');
  lv_shutdown w d st : handle lv_domains w d st -> exists w' st', later lv_domains lv_owned w w' /\ handle lv_domains w' d st' /\
    (lv _ (DomainShutdown d) w = (Ok tt, w') /\ state_from_libvirt st <> Stopped \/
     exists m, lv _ (DomainShutdown d) w = (Err (Libvirt ERR_OPERATION_INVALID m), w') /\ state_from_libvirt st' = Stopped);
  lv_sleep w t : later lv_domains lv_owned w (snd (lv _ (Sleep t) w));
  lv_destroy w d st : handle lv_domains w d st -> exists w' st', later lv_domains lv_owned w w' /\ handle lv_domains w' d st' /\
    state_from_libvirt st' = Stopped /\
    (lv _ (DomainDestroy d) w = (Ok tt, w') /\ state_from_libvirt st <> Stopped \/
     exists m, lv _ (DomainDestroy d) w = (Err (Libvirt ERR_OPERATION_INVALID m), w'));
  lv_undefine w d st flags : handle lv_domains w d st -> state_from_libvirt st = Stopped ->
    exists w1, later lv_domains lv_owned w w1 /\
    if covers flags (lv_owned w (dm_name d)) then
      exists w', lv _ (DomainUndefineFlags d flags) w = (Ok tt, w') /\ lv_domains w' = delete (dm_name d) (lv_domains w1) /\
        forall name, name <> dm_name d -> lv_owned w' name = lv_owned w1 name
    else exists m, lv _ (DomainUndefineFlags d flags) w = (Err (Libvirt ERR_OPERATION_INVALID m), w1)
}.

Section Machine.
Context `{LibvirtLaws W} (self : Client) (Hpoll : 0 < poll_interval self) (Htimeout : 0 <= stop_timeout self).
#[local] Abbreviation on w d st := (handle lv_domains w d st).
#[local] Abbreviation after := (later lv_domains lv_owned).

(** The domain of a handle is defined and off. *)
Definition is_off (w : W) (d : Domain) : Prop := exists st, on w d st /\ state_from_libvirt st = Stopped.
(** The answer of an operation that came too late: libvirt refused to shut
    down or to destroy a domain that had gone off by itself. *)
Definition raced {A} (r : result HvError A) : Prop :=
  exists operation m, r = Err (LibvirtFailed operation ERR_OPERATION_INVALID m).

Lemma after_off w w' d : after w w' -> is_off w d -> is_off w' d.
Proof. intros Hl (st & Hd & Hs). destruct (later_handle _ _ _ _ _ _ Hl Hd); [by exists st|by exists SHUTOFF]. Qed.
Lemma after_known w w' d st : after w w' -> on w d st -> exists st', on w' d st' /\ (st' = st \/ st' = SHUTOFF).
Proof. intros Hl Hd. destruct (later_handle _ _ _ _ _ _ Hl Hd); eauto. Qed.
Lemma on_same w d st st' : on w d st -> on w d st' -> st = st'.
Proof. unfold handle. congruence. Qed.

Lemma run_domain_state w d st : on w d st -> exists w' st', after w w' /\ on w' d st' /\
  run lv (domain_state d) w = (Ok (state_from_libvirt st'), w').
Proof.
  intros Hd. unfold domain_state, mbind, H_bind. rewrite run_then. cbn [libvirt ask run].
  destruct (lv_state w d st Hd) as (w' & st' & reason & Hl & Hd' & ->). exists w', st'. by cbn.
Qed.
Lemma run_lookup w (name : list Z) uuid st : lv_domains w !! name = Some (uuid, st) ->
  exists d w' st', after w w' /\ run lv (lookup name) w = (Ok d, w') /\ dm_name d = name /\ dm_uuid d = uuid /\
    on w' d st' /\ (st' = st \/ st' = SHUTOFF).
Proof.
  intros Hn. destruct (lv_lookup w name) as (w' & Hw' & Hl). rewrite Hn in Hl. destruct Hl as [id Hl].
  destruct (after_known w w' (mkDomain name uuid id) st Hw' Hn) as (st' & Hd & Hst). exists (mkDomain name uuid id), w', st'.
  split_and!; [done| |done..]. unfold lookup. cbn [run]. by rewrite Hl.
Qed.
Lemma run_unknown {A} w (name : list Z) (f : Domain -> H A) : lv_domains w !! name = None ->
  exists w', after w w' /\ run lv (fallible_bind _ _ f (lookup name)) w = (Err (DomainNotFound name), w').
Proof.
  intros Hn. rewrite run_then. unfold lookup. cbn [run]. destruct (lv_lookup w name) as (w' & Hw' & Hl). rewrite Hn in Hl.
  destruct Hl as [m ->]. exists w'. by cbn.
Qed.

(** The lookup and the state read every operation begins with. *)
Lemma run_found {A} w (name : list Z) uuid st (op : H A) (f : Domain -> State -> H A) : lv_domains w !! name = Some (uuid, st) ->
  op = fallible_bind _ _ (fun d => fallible_bind _ _ (f d) (domain_state d)) (lookup name) ->
  exists d w' st', after w w' /\ dm_name d = name /\ dm_uuid d = uuid /\ on w' d st' /\ (st' = st \/ st' = SHUTOFF) /\
    run lv op w = run lv (f d (state_from_libvirt st')) w'.
Proof.
  intros Hn ->. destruct (run_lookup w name uuid st Hn) as (d & w1 & st1 & Hl1 & Hr1 & Hname & Hu & Hd1 & Hst1).
  destruct (run_domain_state w1 d st1 Hd1) as (w2 & st2 & Hl2 & Hd2 & Hr2).
  exists d, w2, st2. split_and!; [by eapply later_trans|done..| |].
  - destruct (after_known w1 w2 d st1 Hl2 Hd1) as (st' & Hd' & Hst'). rewrite (on_same _ _ _ _ Hd2 Hd').
    destruct Hst' as [->| ->]; [done|by right].
  - by rewrite run_then, Hr1, run_then, Hr2.
Qed.

(** ** Stopping *)

(** The loop of a stop leaves the domain off. *)
Lemma run_wait_stopped fuel name d elapsed w st : on w d st ->
  0 <= elapsed -> stop_timeout self - elapsed <= Z.of_nat fuel * poll_interval self ->
  exists r w', run lv (Client.wait_stopped self (S fuel) name d elapsed) w = (r, w') /\
    (r = Ok Graceful \/ r = Ok Forced \/ raced r) /\ after w w' /\ is_off w' d.
Proof.
  revert elapsed w st. induction fuel as [|fuel IH]; intros elapsed w st Hd He Hf.
  all: cbn [Client.wait_stopped]; unfold mbind, H_bind; rewrite run_then;
    destruct (run_domain_state w d st Hd) as (w1 & st1 & Hl1 & Hd1 & ->).
  all: destruct (stopped_or_not (state_from_libvirt st1)) as [[-> Hs]|[-> Hs]];
    [exists (Ok Graceful), w1; split_and!; [done|by left|done|by exists st1]|].
  all: destruct (Z.leb_spec (stop_timeout self) elapsed); [|try lia].
  1, 2: rewrite run_then; cbn [libvirt ask run];
    destruct (lv_destroy w1 d st1 Hd1) as (w2 & st2 & Hl2 & Hd2 & Hs2 & [[-> _]|[m ->]]); cbn; eexists _, w2;
    (split_and!; [done|unfold raced; eauto 6|by eapply later_trans|by exists st2]).
  rewrite run_then. cbn [get run]. pose proof (lv_sleep w1 (poll_interval self)) as Hl.
  destruct (lv _ (Sleep (poll_interval self)) w1) as [[] w2]. cbn [snd run] in Hl |- *.
  destruct (after_known _ _ _ _ Hl Hd1) as (st2 & Hd2 & _).
  destruct (IH (elapsed + poll_interval self) w2 st2 Hd2) as (r & w' & Hr & Hres & Hl' & Hd'); [lia..|].
  exists r, w'. split_and!; [done|done| |done]. by do 2 (eapply later_trans; [done|]).
Qed.

(** What a stop of a known domain comes to. *)
Lemma run_stop (w : W) (name : list Z) (uuid : list Z) (st : Z) : lv_domains w !! name = Some (uuid, st) ->
  exists r w' st', run lv (Client.stop self name) w = (r, w') /\
    (r = Ok AlreadyStopped \/ state_from_libvirt st <> Stopped /\ (r = Ok Graceful \/ r = Ok Forced \/ raced r)) /\
    lv_domains w' !! name = Some (uuid, st') /\ state_from_libvirt st' = Stopped /\ after w w'.
Proof.
  intros Hn. destruct (run_found w name uuid st (Client.stop self name) _ Hn eq_refl) as (d & w1 & st1 & Hl1 & <- & <- & Hd1 & Hst1 & ->).
  destruct (stopped_or_not (state_from_libvirt st1)) as [[-> Hs]|[-> Hs]]; [by exists (Ok AlreadyStopped), w1, st1; split_and!; [|left|..]|].
  assert (Hrun : state_from_libvirt st <> Stopped) by (by destruct Hst1 as [<-| ->]).
  unfold mbind, H_bind. rewrite run_then. cbn [libvirt ask run]. destruct (lv_shutdown w1 d st1 Hd1) as (w2 & st2 & Hl2 & Hd2 & [[-> _]|(m & -> & Hs2)]); cbn [map_err run].
  2: { eexists _, w2, st2. split_and!; [done|right|done|done|by eapply later_trans]. split; [done|]. do 2 right. unfold raced. cbn. eauto. }
  destruct (polls_enough self Hpoll Htimeout) as (n & -> & Hf).
  destruct (run_wait_stopped n (dm_name d) d 0 w2 st2 Hd2) as (r & w' & -> & Hr & Hl' & (st' & Hd' & Hs')); [lia..|].
  exists r, w', st'. split_and!; [done|by right|done|done|]. by do 2 (eapply later_trans; [done|]).
Qed.
(** A stop stops.  With a libvirt that keeps its promises, a stop of a
    machine ends with its domain off and still defined, whether or not the
    guest obeys, and every other domain is as it was or has powered itself off.
    A stop that fails was overtaken by the guest: libvirt refused the shutdown
    or the destroy because the machine had just gone off by itself. *)
Theorem stop_stops (w : W) (name : list Z) (uuid : list Z) (st : Z) : lv_domains w !! name = Some (uuid, st) ->
  exists r w' st', run lv (Client.stop self name) w = (r, w') /\
    (r = Ok AlreadyStopped \/ state_from_libvirt st <> Stopped /\ (r = Ok Graceful \/ r = Ok Forced \/ raced r)) /\
    lv_domains w' !! name = Some (uuid, st') /\ state_from_libvirt st' = Stopped /\ after w w'.
Proof. apply run_stop. Qed.

(** ** Removing *)

(** Everything but the name is as it was, or later. *)
Definition after_but (name : list Z) (w w' : W) : Prop := forall other, other <> name -> lv_owned w' other = lv_owned w other /\
  (lv_domains w' !! other = lv_domains w !! other \/
   exists uuid st, lv_domains w !! other = Some (uuid, st) /\ lv_domains w' !! other = Some (uuid, SHUTOFF)).

(** Undefining a domain that is off and owns an NVRAM file and nothing else. *)
Lemma run_undefine w w0 d operation : is_off w d -> after w0 w -> lv_owned w0 (dm_name d) = NVRAM_FILE ->
  exists w', run lv (libvirt operation (DomainUndefineFlags d DOMAIN_UNDEFINE_NVRAM)) w = (Ok tt, w') /\
    lv_domains w' !! dm_name d = None /\ after_but (dm_name d) w0 w'.
Proof.
  intros (st & Hd & Hs) Hl Ho. cbn [libvirt ask run].
  destruct (lv_undefine w d st DOMAIN_UNDEFINE_NVRAM Hd Hs) as (w1 & Hw1 & Hu).
  destruct (Hl (dm_name d)) as [Hsame _]. rewrite Hsame, Ho in Hu. change (covers _ _) with true in Hu. destruct Hu as (w' & -> & Hw' & Ho').
  exists w'. split_and!; [done|by rewrite Hw', lookup_delete_eq|]. intros other Hne. rewrite Hw', lookup_delete_ne by done.
  rewrite (Ho' other) by done. apply (later_trans _ _ _ _ _ Hl Hw1).
Qed.
Lemma run_remove (w : W) (name : list Z) uuid st : lv_domains w !! name = Some (uuid, st) -> lv_owned w name = NVRAM_FILE ->
  exists r w', run lv (Client.remove name) w = (r, w') /\
    (r = Ok tt /\ lv_domains w' !! name = None /\ after_but name w w' \/
     raced r /\ state_from_libvirt st <> Stopped /\ after w w' /\
     exists st', lv_domains w' !! name = Some (uuid, st') /\ state_from_libvirt st' = Stopped).
Proof.
  intros Hn Ho. destruct (run_found w name uuid st (Client.remove name) _ Hn eq_refl) as (d & w1 & st1 & Hl1 & <- & <- & Hd1 & Hst1 & ->).
  unfold mbind, H_bind.
  destruct (stopped_or_not (state_from_libvirt st1)) as [[-> Hs]|[-> Hs]]; cbn [negb]; rewrite run_then.
  - cbn [run mret H_ret fallible_ret]. destruct (run_undefine w1 w d (lit "undefine domain " ++ dm_name d)) as (w' & -> & Hw'); [by exists st1|done..|].
    exists (Ok tt), w'. split; [done|]. by left.
  - assert (Hrun : state_from_libvirt st <> Stopped) by (by destruct Hst1 as [<-| ->]).
    cbn [libvirt ask run]. destruct (lv_destroy w1 d st1 Hd1) as (w2 & st2 & Hl2 & Hd2 & Hs2 & [[-> _]|[m ->]]); cbn [map_err run].
    + destruct (run_undefine w2 w d (lit "undefine domain " ++ dm_name d)) as (w' & Hu & Hw'); [by exists st2|by eapply later_trans|done|].
      cbn [libvirt ask run] in Hu. rewrite Hu. exists (Ok tt), w'. split; [done|]. by left.
    + eexists _, w2. split; [done|]. right. split_and!; [unfold raced; cbn; eauto|done|by eapply later_trans|by exists st2].
Qed.
Lemma run_state w (name : list Z) : exists w', after w w' /\ run lv (Client.state name) w =
  (match lv_domains w' !! name with Some (_, st) => Ok (state_from_libvirt st) | None => Err (DomainNotFound name) end, w').
Proof.
  destruct (lv_domains w !! name) as [[uuid st]|] eqn:Hn.
  - destruct (run_lookup w name uuid st Hn) as (d & w1 & st1 & Hl1 & Hr & <- & _ & Hd & _).
    destruct (run_domain_state w1 d st1 Hd) as (w2 & st2 & Hl2 & Hd2 & Hr2). exists w2. split; [by eapply later_trans|].
    unfold Client.state, mbind, H_bind. rewrite run_then, Hr, Hr2. unfold handle in Hd2. by rewrite Hd2.
  - destruct (run_unknown w name (fun d => domain_state d) Hn) as (w' & Hl & Hr). exists w'. split; [done|].
    destruct (Hl name) as [_ [->|(? & ? & ? & _)]]; [|congruence]. by rewrite Hn.
Qed.

(** ** The fake beside it *)

(** Libvirt and the fake know the same domains in the same states, and
    libvirt's domains own their NVRAM file and nothing else. *)
Definition same_at (w : W) (f : Fake.Inner) (name : list Z) : Prop :=
  (state_from_libvirt ∘ snd) <$> lv_domains w !! name = fd_state <$> Fake.domains f !! name /\
  (is_Some (lv_domains w !! name) -> lv_owned w name = NVRAM_FILE).
Definition same_domains (w : W) (f : Fake.Inner) : Prop := forall name, same_at w f name.
(** Some of the fake's machines have powered themselves off; the rest of it is the same. *)
Definition powered_off (f f' : Fake.Inner) : Prop :=
  Fake.hook f' = Fake.hook f /\ Fake.force_stop f' = Fake.force_stop f /\ forall name,
  Fake.domains f' !! name = Fake.domains f !! name \/
  exists d, Fake.domains f !! name = Some d /\ Fake.domains f' !! name = Some (Fake.set_state d Stopped).
(** The two ways a stop succeeds count as one. *)
Definition same_stop (a b : result HvError StopResult) : Prop :=
  a = b \/ exists x y, a = Ok x /\ b = Ok y /\ x <> AlreadyStopped /\ y <> AlreadyStopped.

(** An operation of the client answers as the operation of the fake would,
    and leaves the same domains behind. *)
Definition answers_like {A} (same : result HvError A -> result HvError A -> Prop) (op : H A) (fake : Fake.F A) (w : W) (f : Fake.Inner) : Prop :=
  same (fst (run lv op w)) (fst (fake f)) /\ same_domains (snd (run lv op w)) (snd (fake f)).
(** It does so after some guests powered themselves off; or it came too late
    for the machine it names, which was running and is off now, answers
    libvirt's error, and changes nothing. *)
Definition refines_operation {A} (same : result HvError A -> result HvError A -> Prop) (name : list Z) (op : H A) (fake : Fake.F A) (w : W) (f : Fake.Inner) : Prop :=
  exists f', powered_off f f' /\
    (answers_like same op fake w f' \/
     raced (fst (run lv op w)) /\ same_domains (snd (run lv op w)) f' /\
     (fd_state <$> Fake.domains f !! name) = Some Running /\ (fd_state <$> Fake.domains f' !! name) = Some Stopped).

(** The fake in which the same guests went off. *)
Definition catch_up (w : W) (f : Fake.Inner) : Fake.Inner := Fake.with_domains f (map_imap (fun name d =>
  Some (match lv_domains w !! name with
        | Some (_, st) => if bool_decide (fd_state d = state_from_libvirt st) then d else Fake.set_state d Stopped
        | None => d
        end)) (Fake.domains f)).
Lemma catch_up_at w f name : Fake.domains (catch_up w f) !! name =
  (fun d => match lv_domains w !! name with
            | Some (_, st) => if bool_decide (fd_state d = state_from_libvirt st) then d else Fake.set_state d Stopped
            | None => d
            end) <$> Fake.domains f !! name.
Proof. unfold catch_up. cbn. rewrite map_lookup_imap. by destruct (Fake.domains f !! name). Qed.
Lemma catch_up_powered w f : powered_off f (catch_up w f).
Proof.
  split_and!; [done..|]. intros name. rewrite catch_up_at. destruct (Fake.domains f !! name) as [d|]; [|by left]. cbn.
  destruct (lv_domains w !! name) as [[uuid st]|]; [|by left]. case_bool_decide; [by left|]. right. eauto.
Qed.
Lemma catch_up_same w w' f name : same_at w f name -> lv_owned w' name = lv_owned w name ->
  lv_domains w' !! name = lv_domains w !! name \/
  (exists uuid st, lv_domains w !! name = Some (uuid, st) /\ lv_domains w' !! name = Some (uuid, SHUTOFF)) ->
  same_at w' (catch_up w' f) name.
Proof.
  intros [Hs Ho] Ho' Hl. split.
  - rewrite catch_up_at. destruct Hl as [Hl|(uuid & st & Hd & Hl)]; rewrite Hl in *.
    + destruct (lv_domains w !! name) as [[uuid st]|], (Fake.domains f !! name) as [d|]; try done. cbn in Hs |- *. injection Hs as ->.
      by rewrite bool_decide_eq_true_2.
    + rewrite Hd in Hs. destruct (Fake.domains f !! name) as [d|]; [|done]. cbn. case_bool_decide as He; [by rewrite He|done].
  - rewrite Ho'. intros Hk. apply Ho. destruct Hl as [<-|(uuid & st & -> & _)]; [done|by eexists].
Qed.
Lemma catch_up_all w w' f : same_domains w f -> after w w' -> same_domains w' (catch_up w' f).
Proof. intros Hs Hl name. destruct (Hl name). by eapply catch_up_same. Qed.

(** The state of the fake after its own note of the call. *)
Lemma fake_begun {A} f op name (k : Fake.F A) : Fake.hook f = None ->
  Fake.begun op name k f = k (Fake.mkInner (Fake.domains f) (Fake.calls f ++ [op ++ lit " " ++ name]) None (Fake.force_stop f)).
Proof. intros Hh. unfold Fake.begun, Fake.begin. by rewrite Hh. Qed.

Section Same.
Context (w : W) (f : Fake.Inner) (name : list Z) (Hs : same_domains w f) (Hh : Fake.hook f = None).
(** What both know of the name. *)
Lemma same_known :
  (lv_domains w !! name = None /\ Fake.domains f !! name = None) \/
  exists uuid st d, lv_domains w !! name = Some (uuid, st) /\ Fake.domains f !! name = Some d /\ fd_state d = state_from_libvirt st /\
    lv_owned w name = NVRAM_FILE.
Proof.
  destruct (Hs name) as [Hn Ho]. destruct (lv_domains w !! name) as [[uuid st]|], (Fake.domains f !! name) as [d|]; try done; [right|by left].
  exists uuid, st, d. injection Hn as ->. split_and!; [done..|]. apply Ho. by eexists.
Qed.
(** The fake that has caught up, at the name. *)
Lemma caught_up w' uuid st : same_domains w' (catch_up w' f) -> lv_domains w' !! name = Some (uuid, st) ->
  exists d, Fake.domains (catch_up w' f) !! name = Some d /\ fd_state d = state_from_libvirt st.
Proof. intros Hs' Hd. destruct (Hs' name) as [Hn _]. rewrite Hd in Hn. destruct (Fake.domains (catch_up w' f) !! name) as [d|]; [|done]. exists d. by injection Hn. Qed.
Lemma running_state st d : fd_state d = state_from_libvirt st -> state_from_libvirt st <> Stopped -> fd_state d = Running.
Proof. intros ->. unfold state_from_libvirt. by case_bool_decide. Qed.

Lemma state_like_fake : exists f', powered_off f f' /\ answers_like eq (Client.state name) (Fake.state name) w f'.
Proof.
  destruct (run_state w name) as (w' & Hl & Hr). exists (catch_up w' f). split; [apply catch_up_powered|].
  pose proof (catch_up_all w w' f Hs Hl) as Hs'. unfold answers_like. rewrite Hr. unfold Fake.state. rewrite fake_begun by done. cbn [fst snd Fake.domains].
  destruct (Hs' name) as [Hn _]. destruct (lv_domains w' !! name) as [[uuid st]|], (Fake.domains (catch_up w' f) !! name) as [d|]; try done.
  cbn in *. injection Hn as <-. by split.
Qed.
(** An operation that was overtaken leaves everything as it was, or later. *)
Lemma overtaken_like_fake {A} same (op : H A) fake r w' uuid st st' d : run lv op w = (r, w') -> raced r -> after w w' ->
  Fake.domains f !! name = Some d -> fd_state d = state_from_libvirt st -> state_from_libvirt st <> Stopped ->
  lv_domains w' !! name = Some (uuid, st') -> state_from_libvirt st' = Stopped -> refines_operation same name op fake w f.
Proof.
  intros Hr Hrace Hl Hd Hst Hrun Hd' Hst'. pose proof (catch_up_all w w' f Hs Hl) as Hs'. exists (catch_up w' f).
  split; [apply catch_up_powered|]. right. rewrite Hr. split_and!; [done|done| |].
  - rewrite Hd. cbn. f_equal. by eapply running_state.
  - destruct (caught_up w' uuid st' Hs' Hd') as (d' & -> & Hf). cbn. by rewrite Hf, Hst'.
Qed.
(** An operation of a name nobody knows. *)
Lemma unknown_like_fake {A} same (k : Domain -> H A) fake : (forall r, same r r) -> lv_domains w !! name = None ->
  (forall f', Fake.hook f' = None -> Fake.domains f' !! name = None -> exists calls,
     fake f' = (Err (DomainNotFound name), Fake.mkInner (Fake.domains f') calls None (Fake.force_stop f'))) ->
  refines_operation same name (fallible_bind _ _ k (lookup name)) fake w f.
Proof.
  intros Hrefl Hn Hfake. destruct (run_unknown w name k Hn) as (w' & Hl & Hr). exists (catch_up w' f). split; [apply catch_up_powered|]. left.
  unfold answers_like. rewrite Hr.
  destruct (Hfake (catch_up w' f)) as (calls & ->); [done| |].
  { rewrite catch_up_at. destruct (Hs name) as [Hn' _]. rewrite Hn in Hn'. by destruct (Fake.domains f !! name). }
  split; [done|]. exact (catch_up_all w w' f Hs Hl).
Qed.
Lemma remove_like_fake : refines_operation eq name (Client.remove name) (Fake.remove name) w f.
Proof.
  destruct same_known as [[Hw Hf]|(uuid & st & d & Hw & Hd & Hst & Ho)].
  { apply unknown_like_fake; [done..|]. intros f' Hh' Hf'. unfold Fake.remove. rewrite fake_begun by done. cbn. rewrite Hf'. eauto. }
  destruct (run_remove w name uuid st Hw Ho) as (r & w' & Hr & [(-> & Hgone & Hl)|(Hrace & Hrun & Hl & st' & Hd' & Hst')]).
  2: by eapply overtaken_like_fake.
  exists (catch_up w' f). split; [apply catch_up_powered|]. left. unfold answers_like. rewrite Hr. unfold Fake.remove. rewrite fake_begun by done. cbn [Fake.domains].
  rewrite catch_up_at, Hd. cbn [fmap option_fmap option_map fst snd]. split; [done|]. intros other. split; cbn [Fake.with_domains Fake.domains].
  - destruct (decide (other = name)) as [->|Hne]; [by rewrite lookup_delete_eq, Hgone|]. rewrite lookup_delete_ne by done.
    destruct (Hl other Hne). by eapply catch_up_same.
  - destruct (decide (other = name)) as [->|Hne]; [rewrite Hgone; by intros []|]. destruct (Hl other Hne). by eapply catch_up_same.
Qed.
(** A stop that stopped the machine: the fake in which the others went off, before its own stop. *)
Lemma stopped_like_fake r w' d st' uuid (result : StopResult) : run lv (Client.stop self name) w = (r, w') -> r = Ok result ->
  result <> AlreadyStopped -> after w w' -> Fake.domains f !! name = Some d -> fd_state d <> Stopped ->
  lv_domains w' !! name = Some (uuid, st') -> state_from_libvirt st' = Stopped ->
  refines_operation same_stop name (Client.stop self name) (Fake.stop name) w f.
Proof.
  intros Hr -> Hres Hl Hd Hrun Hd' Hst'. destruct (catch_up_powered w' f) as (P1 & P2 & P3).
  exists (Fake.with_domains f (<[name := d]> (Fake.domains (catch_up w' f)))). split.
  { split_and!; [done..|]. intros other. cbn. destruct (decide (other = name)) as [->|Hne]; [left; by rewrite lookup_insert_eq|].
    rewrite lookup_insert_ne by done. apply P3. }
  left. unfold answers_like. rewrite Hr. unfold Fake.stop. rewrite fake_begun by done. cbn [Fake.domains Fake.with_domains]. rewrite lookup_insert_eq.
  rewrite bool_decide_eq_false_2 by done. cbn [fst snd]. split.
  { right. eexists result, _. split_and!; [done|done|done|]. by cbn; destruct (Fake.force_stop f). }
  intros other. destruct (catch_up_all w w' f Hs Hl other) as [Hc Hk]. split; [|done]. cbn [Fake.domains Fake.with_domains].
  destruct (decide (other = name)) as [->|Hne]; [rewrite lookup_insert_eq, Hd'; cbn; by rewrite Hst'|]. by rewrite !lookup_insert_ne.
Qed.
Lemma stop_like_fake : refines_operation same_stop name (Client.stop self name) (Fake.stop name) w f.
Proof.
  destruct same_known as [[Hw Hf]|(uuid & st & d & Hw & Hd & Hst & Ho)].
  { apply unknown_like_fake; [by left|done|]. intros f' Hh' Hf'. unfold Fake.stop. rewrite fake_begun by done. cbn. rewrite Hf'. eauto. }
  destruct (run_stop w name uuid st Hw) as (r & w' & st' & Hr & Hres & Hd' & Hst' & Hl). pose proof (catch_up_all w w' f Hs Hl) as Hs'.
  destruct (caught_up w' uuid st' Hs' Hd') as (d' & Hcd & Hcs).
  destruct Hres as [->|[Hrun [Hok|[Hok|Hrace]]]]; [| | |by eapply overtaken_like_fake].
  - exists (catch_up w' f). split; [apply catch_up_powered|]. left. unfold answers_like. rewrite Hr. unfold Fake.stop. rewrite fake_begun by done. cbn [Fake.domains].
    rewrite Hcd, Hcs, Hst'. split; [by left|done].
  - eapply (stopped_like_fake r w' d); [done|done|done|done|done|by rewrite Hst|done|done].
  - eapply (stopped_like_fake r w' d); [done|done|done|done|done|by rewrite Hst|done|done].
Qed.
End Same.

(** C22. The client behaves as the fake hypervisor the other components are
    tested with, on a machine whose guests do as they please.  With a libvirt
    that keeps its promises, and the same domains in both, each with an NVRAM
    file and nothing else to its name: [state], [remove] and [stop] answer as
    the fake does once some guests have powered themselves off, a running
    machine stopped in either of two ways, and leave the same domains in the
    same states behind, for every name.  The one exception is a race: when the
    machine goes off by itself between the client's reading of its state and
    the shutdown or the destroy, libvirt refuses that call, the client passes
    its error on (which the fake never does), and the domain is off and still
    defined, so that the operation called again meets a stopped machine. *)
Theorem client_refines_fake (w : W) (f : Fake.Inner) (name : list Z) :
  same_domains w f -> Fake.hook f = None ->
  (exists f', powered_off f f' /\ answers_like eq (Client.state name) (Fake.state name) w f') /\
  refines_operation eq name (Client.remove name) (Fake.remove name) w f /\
  refines_operation same_stop name (Client.stop self name) (Fake.stop name) w f.
Proof. intros Hs Hh. split_and!; [by apply state_like_fake|by apply remove_like_fake|by apply stop_like_fake]. Qed.
End Machine.

(** ** A libvirt in memory *)

(** Its domains, what they own, whether guests obey, and a guest that goes
    off by itself after so many calls. *)
Record memory : Type := mkMemory {
  me_domains : gmap (list Z) (list Z * Z);
  me_owned : list Z -> Z;
  me_obey : bool;
  me_fuse : option (nat * list Z)
}.
Definition me_set (m : memory) (f : gmap (list Z) (list Z * Z) -> gmap (list Z) (list Z * Z)) : memory :=
  mkMemory (f (me_domains m)) (me_owned m) (me_obey m) (me_fuse m).
Definition me_with {A} (m : memory) (d : Domain) (f : Z -> result RpcError A * memory) : result RpcError A * memory :=
  match me_domains m !! dm_name d with
  | Some (uuid, st) => if bool_decide (uuid = dm_uuid d) then f st else (Err (Libvirt ERR_NO_DOMAIN []), m)
  | None => (Err (Libvirt ERR_NO_DOMAIN []), m)
  end.
Definition off (d : Domain) (m : memory) : memory := me_set m (insert (dm_name d) (dm_uuid d, SHUTOFF)).
(** The moment before a call is answered. *)
Definition tick (m : memory) : memory :=
  match me_fuse m with
  | None => m
  | Some (S n, name) => mkMemory (me_domains m) (me_owned m) (me_obey m) (Some (n, name))
  | Some (O, name) => mkMemory (alter (fun d => (d.1, SHUTOFF)) name (me_domains m)) (me_owned m) (me_obey m) None
  end.
Definition refused {A} : result RpcError A := Err (Libvirt ERR_OPERATION_INVALID []).
Definition unsupported {A} : result RpcError A := Err (Libvirt 3 []).
Definition running (st : Z) : bool := negb (bool_decide (state_from_libvirt st = Stopped)).
Definition in_memory : handler vcall memory := fun R c m =>
  let m := tick m in
  match c in vcall R return R * memory with
  | DomainLookupByName name =>
      match me_domains m !! name with
      | Some (uuid, _) => (Ok (mkDomain name uuid 1), m)
      | None => (Err (Libvirt ERR_NO_DOMAIN []), m)
      end
  | DomainGetState d _ => me_with m d (fun st => (Ok (st, 0), m))
  | DomainShutdown d => me_with m d (fun st => if running st then (Ok tt, if me_obey m then off d m else m) else (refused, m))
  | DomainDestroy d => me_with m d (fun st => if running st then (Ok tt, off d m) else (refused, m))
  | DomainUndefineFlags d flags => me_with m d (fun _ =>
      if covers flags (me_owned m (dm_name d)) then (Ok tt, me_set m (delete (dm_name d))) else (refused, m))
  | Sleep _ => (tt, m)
  | DomainDefineXml _ => (unsupported, m)
  | DomainCreate _ => (unsupported, m)
  | DomainReboot _ _ => (unsupported, m)
  | DomainSetAutostart _ _ => (unsupported, m)
  | DomainGetInfo _ => (unsupported, m)
  | DomainMemoryStats _ _ _ => (unsupported, m)
  | ConnectListAllDomains _ _ => (unsupported, m)
  | NetworkLookupByName _ => (unsupported, m)
  | NetworkDefineXml _ => (unsupported, m)
  | NetworkCreate _ => (unsupported, m)
  | NetworkIsActive _ => (unsupported, m)
  | NetworkSetAutostart _ _ => (unsupported, m)
  | ConnectClose => (unsupported, m)
  | ConnectGetCapabilities => (unsupported, m)
  end.
Lemma me_with_handle {A} m d st (f : Z -> result RpcError A * memory) : handle me_domains m d st -> me_with m d f = f st.
Proof. intros Hd. unfold me_with, handle in *. rewrite Hd. by rewrite bool_decide_eq_true_2. Qed.
Lemma off_later m d st : handle me_domains m d st -> later me_domains me_owned m (off d m).
Proof.
  intros Hd name. split; [done|]. unfold off. cbn. destruct (decide (name = dm_name d)) as [->|Hne]; [|left; by rewrite lookup_insert_ne].
  right. exists (dm_uuid d), st. split; [done|]. apply lookup_insert_eq.
Qed.
Lemma off_handle m d : handle me_domains (off d m) d SHUTOFF.
Proof. unfold handle, off. cbn. apply lookup_insert_eq. Qed.
Lemma tick_later m : later me_domains me_owned m (tick m).
Proof.
  intros name. unfold tick. destruct (me_fuse m) as [[[|n] gone]|]; cbn; split; auto.
  destruct (decide (name = gone)) as [->|Hne]; [|left; by rewrite lookup_alter_ne]. rewrite lookup_alter_eq.
  destruct (me_domains m !! gone) as [[uuid st]|]; [right|by left]. by exists uuid, st.
Qed.
Lemma tick_handle m d st : handle me_domains m d st -> exists st', handle me_domains (tick m) d st' /\ (st' = st \/ st' = SHUTOFF).
Proof. intros Hd. destruct (later_handle _ _ _ _ _ _ (tick_later m) Hd); eauto. Qed.
Lemma running_not_stopped st : running st = true <-> state_from_libvirt st <> Stopped.
Proof. unfold running. by rewrite negb_true_iff, bool_decide_eq_false. Qed.
Lemma not_running_stopped st : running st = false <-> state_from_libvirt st = Stopped.
Proof. unfold running. by rewrite negb_false_iff, bool_decide_eq_true. Qed.
#[global] Program Instance memory_laws : LibvirtLaws memory := {| lv := in_memory; lv_domains := me_domains; lv_owned := me_owned |}.
Next Obligation.
  intros m name. exists (tick m). split; [apply tick_later|]. cbn. destruct (tick_later m name) as [_ [->|(uuid & st & -> & ->)]]; [|eauto].
  destruct (me_domains m !! name) as [[uuid st]|]; eauto.
Qed.
Next Obligation. intros m d st Hd. destruct (tick_handle m d st Hd) as (st' & Hd' & _). exists (tick m), st', 0. split_and!; [apply tick_later|done|]. cbn. by rewrite (me_with_handle _ _ st'). Qed.
Next Obligation.
  intros m d st Hd. destruct (tick_handle m d st Hd) as (st' & Hd' & Hst). cbn. rewrite (me_with_handle _ _ st') by done.
  destruct (running st') eqn:Hr; [|exists (tick m), st'; split_and!; [apply tick_later|done|right; exists []; by apply not_running_stopped in Hr]].
  apply running_not_stopped in Hr. assert (state_from_libvirt st <> Stopped) by (by destruct Hst as [<-| ->]). destruct (me_obey (tick m)).
  - exists (off d (tick m)), SHUTOFF. split_and!; [eapply later_trans; [apply tick_later|by eapply off_later]|apply off_handle|by left].
  - exists (tick m), st'. split_and!; [apply tick_later|done|by left].
Qed.
Next Obligation. intros m t. apply tick_later. Qed.
Next Obligation.
  intros m d st Hd. destruct (tick_handle m d st Hd) as (st' & Hd' & Hst). cbn. rewrite (me_with_handle _ _ st') by done.
  destruct (running st') eqn:Hr; [|exists (tick m), st'; apply not_running_stopped in Hr; split_and!; [apply tick_later|done|done|right; by exists []]].
  apply running_not_stopped in Hr. assert (state_from_libvirt st <> Stopped) by (by destruct Hst as [<-| ->]).
  exists (off d (tick m)), SHUTOFF. split_and!; [eapply later_trans; [apply tick_later|by eapply off_later]|apply off_handle|done|by left].
Qed.
Next Obligation.
  intros m d st flags Hd Hs. destruct (tick_handle m d st Hd) as (st' & Hd' & _). exists (tick m). split; [apply tick_later|].
  destruct (tick_later m (dm_name d)) as [Ho _]. cbn. rewrite (me_with_handle _ _ st') by done. rewrite Ho.
  destruct (covers flags (me_owned m (dm_name d))); [|by exists []]. eexists. by split_and!.
Qed.

Definition web : list Z := lit "bento-web".
Definition two_domains (obey : bool) (fuse : option (nat * list Z)) : memory :=
  mkMemory {[ web := ([7], 1); lit "bento-db" := ([8], 1) ]} (fun _ => NVRAM_FILE) obey fuse.
Lemma stop_stops_witness :
  fst (run in_memory (Client.stop default_client web) (two_domains false None)) = Ok Forced /\
  exists r w' st', run lv (Client.stop default_client web) (two_domains true None) = (r, w') /\
    (r = Ok AlreadyStopped \/ state_from_libvirt 1 <> Stopped /\ (r = Ok Graceful \/ r = Ok Forced \/ raced r)) /\
    lv_domains w' !! web = Some ([7], st') /\ state_from_libvirt st' = Stopped /\ later lv_domains lv_owned (two_domains true None) w'.
Proof.
  split; [vm_compute; reflexivity|].
  apply (stop_stops default_client eq_refl ltac:(discriminate) (two_domains true None) web [7] 1). reflexivity.
Defined.
Definition fake_two : Fake.Inner :=
  Fake.set_domain (mkFakeDomain web [] [] Running false) (Fake.set_domain (mkFakeDomain (lit "bento-db") [] [] Running false) Fake.default).
Lemma client_refines_fake_witness : same_domains (two_domains true None) fake_two /\
  (exists f', powered_off fake_two f' /\ answers_like eq (Client.state web) (Fake.state web) (two_domains true None) f') /\
  refines_operation eq web (Client.remove web) (Fake.remove web) (two_domains true None) fake_two /\
  refines_operation same_stop web (Client.stop default_client web) (Fake.stop web) (two_domains true None) fake_two.
Proof.
  assert (Hs : same_domains (two_domains true None) fake_two).
  { intros name. split; [|done]. unfold two_domains, fake_two. cbn. destruct (decide (name = web)) as [->|H1]; [reflexivity|].
    destruct (decide (name = lit "bento-db")) as [->|H2]; [reflexivity|]. rewrite !lookup_insert_ne by done.
    by rewrite !lookup_empty. }
  split; [exact Hs|].
  exact (client_refines_fake default_client eq_refl ltac:(discriminate) (two_domains true None) fake_two web Hs eq_refl).
Defined.

(** The race happens: the guest goes off after the client has read that it
    runs, and the removal fails on the destroy; called again it succeeds. *)
Example removal_overtaken :
  let once := run in_memory (Client.remove web) (two_domains true (Some (2%nat, web))) in
  fst once = Err (LibvirtFailed (lit "destroy domain " ++ web) ERR_OPERATION_INVALID []) /\
  fst (run in_memory (Client.remove web) (snd once)) = Ok tt.
Proof. vm_compute. split; reflexivity. Qed.
(** A managed save image or a snapshot keeps a domain from being removed: the
    client's flags cover the NVRAM file alone. *)
Example snapshot_keeps_domain :
  fst (run in_memory (Client.remove web) (mkMemory {[ web := ([7], SHUTOFF) ]} (fun _ => 6) true None)) =
  Err (LibvirtFailed (lit "undefine domain " ++ web) ERR_OPERATION_INVALID []).
Proof. vm_compute. reflexivity. Qed.

(** ** Down to the socket *)

(** How often a call of the client may write the procedure [p]. *)
Definition may_send (p : Z) {R} (c : vcall R) : nat :=
  match c with
  | DomainDefineXml _ => once p PROC_DOMAIN_DEFINE_XML
  | DomainCreate _ => once p PROC_DOMAIN_CREATE
  | DomainShutdown _ => once p PROC_DOMAIN_SHUTDOWN
  | DomainReboot _ _ => once p PROC_DOMAIN_REBOOT
  | DomainDestroy _ => once p PROC_DOMAIN_DESTROY
  | DomainUndefineFlags _ _ => once p PROC_DOMAIN_UNDEFINE_FLAGS
  | DomainSetAutostart _ _ => once p PROC_DOMAIN_SET_AUTOSTART
  | DomainLookupByName _ => once p PROC_DOMAIN_LOOKUP_BY_NAME
  | DomainGetState _ _ => once p PROC_DOMAIN_GET_STATE
  | DomainGetInfo _ => once p PROC_DOMAIN_GET_INFO
  | DomainMemoryStats _ _ _ => once p PROC_DOMAIN_MEMORY_STATS
  | ConnectListAllDomains _ _ => once p PROC_CONNECT_LIST_ALL_DOMAINS
  | NetworkLookupByName _ => once p PROC_NETWORK_LOOKUP_BY_NAME
  | NetworkDefineXml _ => once p PROC_NETWORK_DEFINE_XML
  | NetworkCreate _ => once p PROC_NETWORK_CREATE
  | NetworkIsActive _ => once p PROC_NETWORK_IS_ACTIVE
  | NetworkSetAutostart _ _ => once p PROC_NETWORK_SET_AUTOSTART
  | Sleep _ => 0
  | ConnectClose => once p PROC_CONNECT_CLOSE
  | ConnectGetCapabilities => once p PROC_CONNECT_GET_CAPABILITIES
  end.

Section Wire.
Context (fuel : nat) (sleep : Z -> prog ncall unit) (Hsleep : forall d, always (sleep d) (fun tr _ => procedures tr = [])).

Lemma always_rpc_read {A} p procedure w (read : Reader -> result Xdr.ApiError (A * Reader)) : is_u32 procedure -> plain p ->
  always (rpc_read fuel procedure w read) (counted p procedure).
Proof. intros. by apply always_request_counted. Qed.
Lemma always_rpc_unit p procedure w : is_u32 procedure -> plain p -> always (rpc_unit fuel procedure w) (counted p procedure).
Proof. intros. by apply always_request_counted. Qed.
Lemma always_close p : plain p -> always (close fuel) (fun tr _ => (sent p tr <= once p PROC_CONNECT_CLOSE)%nat).
Proof.
  intros Hp. unfold close. apply always_fallible. intros [s|]; cbn [always]; [|cbn; lia].
  apply always_bind. eapply always_mono; [|by apply (always_calls fuel s PROC_CONNECT_CLOSE)]. intros tr r Hr.
  assert (Hle : (sent p ([mkEvent NTakeCurrent (Some s)] ++ tr) <= once p PROC_CONNECT_CLOSE)%nat).
  { rewrite sent_app. cbn [sent]. assert (Hc : calls s [] tr \/ calls s [PROC_CONNECT_CLOSE] tr) by (destruct r; auto).
    unfold sent, once. destruct Hc as [[-> _]|[-> _]]; [cbn; lia|].
    case_bool_decide; [rewrite filter_cons_True by done|rewrite filter_cons_False by congruence]; cbn; lia. }
  destruct r as [|[| | |]]; cbn [always]; by rewrite app_nil_r.
Qed.

(** Every call of the client writes its procedure at most once, and no other but the handshake. *)
Lemma rpc_api_sends p {R} (c : vcall R) : plain p -> always (rpc_api fuel sleep c) (fun tr _ => (sent p tr <= may_send p c)%nat).
Proof.
  intros Hp. assert (Hc : forall A procedure (q : N A), always q (counted p procedure) -> always q (fun tr _ => (sent p tr <= once p procedure)%nat)).
  { intros A procedure q Hq. eapply always_mono; [|exact Hq]. by intros tr r [? _]. }
  destruct c; cbn [rpc_api may_send]; try (apply Hc; first [by apply always_rpc_unit|by apply always_rpc_read]); [|by apply always_close].
  eapply always_mono; [|apply Hsleep]. intros tr [] Ht. unfold sent. by rewrite Ht.
Qed.
Lemma refines_sends p es tr : refines (fun R (c : vcall R) _ tr => (sent p tr <= may_send p c)%nat) es tr ->
  (sent p tr <= foldr (fun e n => may_send p (ev_call e) + n) 0 es)%nat.
Proof. induction 1 as [|R c r tr es trs H _ IH]; [done|]. rewrite sent_app. cbn. lia. Qed.

Lemma destroys_once es : foldr (fun e n => may_send PROC_DOMAIN_DESTROY (ev_call e) + n)%nat 0%nat es = length (destroyed es).
Proof.
  induction es as [|[R c r] es IH]; [done|]. change (?e :: es) with ([e] ++ es). rewrite destroyed_app, length_app, <-IH.
  cbn [app foldr ev_call]. f_equal. by destruct c.
Qed.

(** A stop destroys at most once, all the way down.  Run the client over
    the RPC connection, with every read, write, connection attempt and lost
    reply of the socket arbitrary: the packets one stop writes contain at most
    one [DomainDestroy]. *)
Theorem destroy_sent_once (self : Client) (name : text) : 0 < poll_interval self -> 0 <= stop_timeout self ->
  always (interp (@rpc_api fuel sleep) (Client.stop self name)) (fun tr _ => (sent PROC_DOMAIN_DESTROY tr <= 1)%nat).
Proof.
  intros Hp Ht. eapply always_mono; [|apply (always_interp _ (fun R c _ tr => (sent PROC_DOMAIN_DESTROY tr <= may_send PROC_DOMAIN_DESTROY c)%nat))].
  - intros tr r (es & Hpat & Href). apply refines_sends in Href. rewrite destroys_once in Href. etransitivity; [exact Href|].
    exact Hpat.
  - intros R c. by apply rpc_api_sends.
  - eapply always_mono; [|by apply always_stop]. intros tr r (_ & _ & Hd & _).
    destruct Hd as [[-> _]|(pre & d & rep & -> & Hd & _)]; [cbn; lia|]. rewrite destroyed_app, Hd. cbn. lia.
Qed.
End Wire.
Lemma destroy_sent_once_witness :
  always (interp (@rpc_api 3 (fun _ => Ret tt)) (Client.stop default_client web)) (fun tr _ => (sent PROC_DOMAIN_DESTROY tr <= 1)%nat).
Proof. apply destroy_sent_once; [done|reflexivity|discriminate]. Defined.
