(* ===== verification/X509.v ===== *)
(** * X509: the expiry of a certificate, [crates/tlscert/src/x509.rs]

    The DER reader that finds [notAfter].  A byte is a [Z] in [0, 256), a time
    is in nanoseconds since the epoch.  [Date::from_calendar_date] of the time
    library is a parameter that gives the first second of a day. *)

From Stdlib Require Import ZArith Lia.
From S2P Require Import Prelude Xdr.
Open Scope Z_scope.

(** [Error::Certificate], with the data its message formats. *)
Inductive DerError : Type :=
  | TruncatedField (name : string)
  | BadLength (name : string)
  | LengthOverflow (name : string)
  | UnexpectedTag (name : string)
  | NotASequence (name : string)
  | UnsupportedTime
  | NotUtc
  | BadDigit
  | BadTime (part : string).
#[global] Instance DerError_eq_dec : EqDecision DerError.
Proof. solve_decision. Defined.

Record Tlv : Type := mkTlv { tlv_tag : Z; tlv_value : list Z }.

(** The loop over the bytes of a long length, in [usize]. *)
Definition length_step (name : string) (length : Z) (byte : Z) : result DerError Z :=
  if usize_max <? length * 256 then Err (LengthOverflow name)
  else if usize_max <? length * 256 + byte then Err (LengthOverflow name)
  else Ok (length * 256 + byte).
Fixpoint long_length (name : string) (length : Z) (bytes : list Z) : result DerError Z :=
  match bytes with
  | [] => Ok length
  | byte :: bytes => length ← length_step name length byte; long_length name length bytes
  end.
(** The length field: the length of the value and of what stands before it. *)
Definition tlv_length (name : string) (input : list Z) (initial : Z) : result DerError (Z * Z) :=
  if Z.land initial 128 =? 0 then Ok (initial, 2)
  else
    let count := Z.land initial 127 in
    if (count =? 0) || (8 <? count) || (blen input <? 2 + count) then Err (BadLength name)
    else
      length ← long_length name 0 (take (Z.to_nat count) (drop 2 input));
      Ok (length, 2 + count).
Definition take_tlv (input : list Z) (name : string) : result DerError (Tlv * list Z) :=
  match input with
  | tag :: initial :: _ =>
      '(length, header_length) ← tlv_length name input initial;
      let end_ := header_length + length in
      if (usize_max <? end_) || (blen input <? end_) then Err (TruncatedField name)
      else Ok (mkTlv tag (take (Z.to_nat length) (drop (Z.to_nat header_length) input)), drop (Z.to_nat end_) input)
  | _ => Err (TruncatedField name)
  end.
Definition expect_tlv (input : list Z) (tag : Z) (name : string) : result DerError (list Z) :=
  '(tlv, _) ← take_tlv input name;
  if negb (tlv_tag tlv =? tag) then Err (UnexpectedTag name) else Ok (tlv_value tlv).

(** [number]: decimal digits. *)
Fixpoint number_from (value : Z) (digits : list Z) : result DerError Z :=
  match digits with
  | [] => Ok value
  | digit :: digits =>
      if negb ((48 <=? digit) && (digit <=? 57)) then Err BadDigit else number_from (value * 10 + (digit - 48)) digits
  end.
Definition number (digits : list Z) : result DerError Z := number_from 0 digits.
(** Two digits from [at_] on. *)
Definition two (digits : list Z) (at_ : nat) : result DerError Z := number (take 2 (drop at_ digits)).

Section Calendar.
(** [Date::from_calendar_date(year, month, day)], as the nanosecond the day begins. *)
Context (from_calendar_date : Z -> Z -> Z -> option Z).

Definition or_bad {A} (part : string) (o : option A) : result DerError A :=
  match o with Some a => Ok a | None => Err (BadTime part) end.
(** [Time::from_hms]. *)
Definition from_hms (hour minute second : Z) : option Z :=
  if (hour <? 24) && (minute <? 60) && (second <? 60) then Some (((hour * 60 + minute) * 60 + second) * 1000000000) else None.
(** The year and the ten digits after it. *)
Definition year_digits (tag : Z) (value : list Z) : result DerError (Z * list Z) :=
  if (tag =? 23) && (blen value =? 13) then
    short ← number (take 2 value);
    Ok ((if 50 <=? short then 1900 else 2000) + short, take 10 (drop 2 value))
  else if (tag =? 24) && (blen value =? 15) then
    year ← number (take 4 value);
    Ok (year, take 10 (drop 4 value))
  else Err UnsupportedTime.
Definition parse_asn1_time (tag : Z) (value : list Z) : result DerError Z :=
  '(year, digits) ← year_digits tag value;
  if negb (bool_decide (last value = Some 90)) then Err NotUtc
  else
    month ← two digits 0;
    month ← or_bad "month" (if (1 <=? month) && (month <=? 12) then Some month else None);
    day ← two digits 2;
    hour ← two digits 4;
    minute ← two digits 6;
    second ← two digits 8;
    date ← or_bad "date" (from_calendar_date year month day);
    time ← or_bad "time" (from_hms hour minute second);
    Ok (date + time).

(** Three fields one after the other are skipped. *)
Fixpoint skip_fields (names : list string) (rest : list Z) : result DerError (list Z) :=
  match names with
  | [] => Ok rest
  | name :: names => '(_, rest) ← take_tlv rest name; skip_fields names rest
  end.
Definition not_after (certificate_der : list Z) : result DerError Z :=
  certificate ← expect_tlv certificate_der 48 "certificate";
  '(tbs, _) ← take_tlv certificate "certificate body";
  if negb (tlv_tag tbs =? 48) then Err (NotASequence "certificate body")
  else
    rest ← (if bool_decide (head (tlv_value tbs) = Some 160)
            then '(_, rest) ← take_tlv (tlv_value tbs) "certificate version"; Ok rest
            else Ok (tlv_value tbs));
    rest ← skip_fields ["serial number"; "signature algorithm"; "issuer"] rest;
    '(validity, _) ← take_tlv rest "certificate validity";
    if negb (tlv_tag validity =? 48) then Err (NotASequence "certificate validity")
    else
      '(_, validity_rest) ← take_tlv (tlv_value validity) "notBefore";
      '(not_after, _) ← take_tlv validity_rest "notAfter";
      parse_asn1_time (tlv_tag not_after) (tlv_value not_after).
End Calendar.

(** ** Reading what was written *)

(** DER of one field: the shortest length that fits. *)
Definition der_length (n : Z) : list Z :=
  if n <? 128 then [n] else if n <? 256 then [129; n] else [130; n / 256; n mod 256].
Definition der (tag : Z) (value : list Z) : list Z := tag :: der_length (blen value) ++ value.

Lemma land_pow2_below x n : 0 <= x < 2 ^ n -> Z.land x (2 ^ n) = 0.
Proof.
  intros Hx. assert (Hn : 0 <= n) by (destruct (Z.leb_spec 0 n); [done|rewrite Z.pow_neg_r in Hx by lia; lia]).
  apply Z.bits_inj'. intros m Hm. rewrite Z.land_spec, Z.pow2_bits_eqb, Z.bits_0 by lia.
  destruct (Z.eqb_spec n m) as [->|]; [|by rewrite andb_false_r]. rewrite andb_true_r.
  destruct (decide (x = 0)) as [->|]; [apply Z.bits_0|]. apply Z.bits_above_log2; [lia|]. apply Z.log2_lt_pow2; lia.
Qed.
(** What the reader finds when the length field is understood. *)
Lemma take_tlv_read tag initial more header value rest name :
  tag :: initial :: more = header ++ value ++ rest -> tlv_length name (tag :: initial :: more) initial = Ok (blen value, blen header) ->
  blen header + blen value <= usize_max ->
  take_tlv (tag :: initial :: more) name = Ok (mkTlv tag value, rest).
Proof.
  intros Hin Hlen Hmax. unfold take_tlv. rewrite Hlen, Hin. cbn [mbind result_bind].
  pose proof (blen_nonneg rest). rewrite !blen_app.
  destruct (Z.ltb_spec usize_max (blen header + blen value)); [lia|].
  destruct (Z.ltb_spec (blen header + (blen value + blen rest)) (blen header + blen value)); [lia|]. cbn [orb].
  unfold blen. rewrite <-Nat2Z.inj_add, !Nat2Z.id, drop_app_length, take_app_length.
  by rewrite app_assoc, <-length_app, drop_app_length.
Qed.
(** A long length never overflows: it has at most eight bytes. *)
Definition byte (b : Z) : Prop := 0 <= b < 256.
Lemma long_length_value name bytes acc k : Forall byte bytes -> (k + length bytes <= 8)%nat -> 0 <= acc < 256 ^ Z.of_nat k ->
  exists n, long_length name acc bytes = Ok n /\ n = foldl (fun acc b => acc * 256 + b) acc bytes /\ 0 <= n <= usize_max.
Proof.
  intros Hb. revert acc k. induction Hb as [|b bytes Hb _ IH]; intros acc k Hk Hacc; cbn [long_length foldl].
  - exists acc. split_and!; [done|done|lia|]. assert (256 ^ Z.of_nat k <= 256 ^ 8) by (apply Z.pow_le_mono_r; cbn in *; lia).
    change usize_max with (256 ^ 8 - 1). lia.
  - unfold length_step. cbn [length] in Hk. assert (Hle : acc * 256 + b < 256 ^ Z.of_nat (S k)).
    { rewrite Nat2Z.inj_succ, Z.pow_succ_r by lia. unfold byte in Hb. lia. }
    assert (256 ^ Z.of_nat (S k) <= 256 ^ 8) by (apply Z.pow_le_mono_r; lia).
    change usize_max with (256 ^ 8 - 1) in *. unfold byte in Hb.
    destruct (Z.ltb_spec (256 ^ 8 - 1) (acc * 256)); [lia|]. destruct (Z.ltb_spec (256 ^ 8 - 1) (acc * 256 + b)); [lia|].
    cbn [mbind result_bind]. apply (IH _ (S k)); lia.
Qed.
Lemma long_form name tag count l value rest : 1 <= count <= 8 -> blen l = count -> Forall byte l ->
  be_value l = blen value -> 2 + count + blen value <= usize_max ->
  take_tlv (tag :: 128 + count :: l ++ value ++ rest) name = Ok (mkTlv tag value, rest).
Proof.
  intros Hc Hl Hb Hv Hmax. assert (Hh : blen (tag :: 128 + count :: l) = 2 + count) by (rewrite <-Hl; unfold blen; cbn [length]; lia).
  apply (take_tlv_read _ _ _ (tag :: 128 + count :: l)); [by rewrite <-!app_comm_cons| |by rewrite Hh].
  unfold tlv_length. assert ((Z.land (128 + count) 128 =? 0) = false /\ Z.land (128 + count) 127 = count) as [-> ->].
  { assert (count = 1 \/ count = 2 \/ count = 3 \/ count = 4 \/ count = 5 \/ count = 6 \/ count = 7 \/ count = 8) as Hcs by lia.
    by repeat destruct Hcs as [->|Hcs]; [..|rewrite Hcs]. }
  destruct (Z.eqb_spec count 0); [lia|]. destruct (Z.ltb_spec 8 count); [lia|].
  destruct (Z.ltb_spec (blen (tag :: 128 + count :: l ++ value ++ rest)) (2 + count)) as [Hs|_].
  { pose proof (blen_nonneg (value ++ rest)). change (tag :: 128 + count :: l ++ value ++ rest) with ((tag :: 128 + count :: l) ++ value ++ rest) in Hs.
    rewrite blen_app in Hs. lia. }
  cbn [orb]. change (drop 2 (?a :: ?b :: ?x)) with x. replace (Z.to_nat count) with (length l) by (unfold blen in Hl; lia). rewrite take_app_length.
  destruct (long_length_value name l 0 0 Hb) as (len & -> & -> & _); [unfold blen in Hl; lia|cbn; lia|]. cbn [mbind result_bind].
  unfold be_value in Hv. by rewrite Hv, Hh.
Qed.
(** A field a DER writer wrote is read back, whatever follows it. *)
Lemma take_tlv_der tag value rest name : blen value < 65536 ->
  take_tlv (der tag value ++ rest) name = Ok (mkTlv tag value, rest).
Proof.
  intros Hl. pose proof (blen_nonneg value) as H0. unfold der, der_length.
  destruct (Z.ltb_spec (blen value) 128); [|destruct (Z.ltb_spec (blen value) 256)]; cbn [app].
  - apply (take_tlv_read _ _ _ [tag; blen value]); [done| |unfold usize_max, u64_max; change (blen [tag; blen value]) with 2; lia].
    unfold tlv_length. replace (Z.land (blen value) 128) with 0; [done|].
    symmetry. change 128 with (2 ^ 7). apply land_pow2_below. lia.
  - apply (long_form name tag 1 [blen value]); [lia|done|by repeat constructor; unfold byte|done|unfold usize_max, u64_max; lia].
  - apply (long_form name tag 2 [blen value / 256; blen value mod 256]); [lia|done| | |unfold usize_max, u64_max; lia].
    + repeat constructor; unfold byte; Z.to_euclidean_division_equations; lia.
    + cbn. Z.to_euclidean_division_equations; lia.
Qed.

(** ** Certificates as an authority writes them *)

(** The fields of a certificate around its expiry. *)
Record certificate : Type := mkCertificate {
  c_version : option (list Z);
  c_serial : list Z; c_algorithm : list Z; c_issuer : list Z;
  c_not_before : list Z; c_expiry_tag : Z; c_expiry : list Z;
  c_rest : list Z; c_signature : list Z
}.
Definition validity_der (c : certificate) : list Z := der 23 (c_not_before c) ++ der (c_expiry_tag c) (c_expiry c).
Definition body_der (c : certificate) : list Z :=
  match c_version c with Some v => der 160 v | None => [] end ++
  der 2 (c_serial c) ++ der 48 (c_algorithm c) ++ der 48 (c_issuer c) ++ der 48 (validity_der c) ++ c_rest c.
Definition certificate_der (c : certificate) : list Z := der 48 (der 48 (body_der c) ++ c_signature c).

Lemma blen_der tag value : blen value < blen (der tag value).
Proof. unfold der, blen. cbn [length]. rewrite length_app. lia. Qed.

(** The time of a date, as the two formats write it. *)
Definition digits2 (n : Z) : list Z := [48 + n / 10; 48 + n mod 10].
Definition moment (month day hour minute second : Z) : list Z :=
  digits2 month ++ digits2 day ++ digits2 hour ++ digits2 minute ++ digits2 second ++ [90].
(** [UTCTime] until 2049, [GeneralizedTime] from then on: RFC 5280. *)
Definition time_tag (year : Z) : Z := if year <? 2050 then 23 else 24.
Definition time_text (year month day hour minute second : Z) : list Z :=
  (if year <? 2050 then digits2 (year mod 100) else digits2 (year / 100) ++ digits2 (year mod 100)) ++ moment month day hour minute second.

Lemma number_digits2 acc n rest : 0 <= n < 100 -> number_from acc (digits2 n ++ rest) = number_from (acc * 100 + n) rest.
Proof.
  intros Hn. unfold digits2. cbn [app number_from].
  assert (Ha : (48 <=? 48 + n / 10) && (48 + n / 10 <=? 57) = true) by (rewrite andb_true_iff; Z.to_euclidean_division_equations; lia).
  assert (Hb : (48 <=? 48 + n mod 10) && (48 + n mod 10 <=? 57) = true) by (rewrite andb_true_iff; Z.to_euclidean_division_equations; lia).
  rewrite Ha, Hb. cbn [negb]. f_equal. Z.to_euclidean_division_equations; lia.
Qed.
Lemma two_digits2 n : 0 <= n < 100 -> number (digits2 n) = Ok n.
Proof. intros Hn. unfold number. rewrite <-(app_nil_r (digits2 n)), number_digits2 by done. done. Qed.

Section Calendar.
Context (from_calendar_date : Z -> Z -> Z -> option Z).

Lemma parse_moment year digits value month day hour minute second date tag :
  year_digits tag value = Ok (year, digits) -> digits ++ [90] = moment month day hour minute second -> last value = Some 90 ->
  1 <= month <= 12 -> 0 <= day < 100 -> 0 <= hour < 24 -> 0 <= minute < 60 -> 0 <= second < 60 ->
  from_calendar_date year month day = Some date ->
  parse_asn1_time from_calendar_date tag value = Ok (date + ((hour * 60 + minute) * 60 + second) * 1000000000).
Proof.
  intros Hy Hd Hz Hm Hday Hh Hmi Hs Hdate. unfold moment in Hd. rewrite !app_assoc in Hd. apply app_inj_2 in Hd as [Hd _]; [|done].
  rewrite <-!app_assoc in Hd. subst digits. unfold parse_asn1_time. rewrite Hy. cbn [mbind result_bind].
  rewrite bool_decide_eq_true_2 by done. cbn [negb]. unfold two.
  change (take 2 (drop 0 (digits2 month ++ ?x))) with (digits2 month). rewrite two_digits2 by lia. cbn [mbind result_bind].
  destruct (Z.leb_spec 1 month); [|lia]. destruct (Z.leb_spec month 12); [|lia]. cbn [andb or_bad mbind result_bind].
  change (take 2 (drop 2 (digits2 month ++ digits2 day ++ ?x))) with (digits2 day). rewrite two_digits2 by lia. cbn [mbind result_bind].
  change (take 2 (drop 4 (digits2 month ++ digits2 day ++ digits2 hour ++ ?x))) with (digits2 hour). rewrite two_digits2 by lia. cbn [mbind result_bind].
  change (take 2 (drop 6 (digits2 month ++ digits2 day ++ digits2 hour ++ digits2 minute ++ ?x))) with (digits2 minute).
  rewrite two_digits2 by lia. cbn [mbind result_bind].
  change (take 2 (drop 8 (digits2 month ++ digits2 day ++ digits2 hour ++ digits2 minute ++ digits2 second))) with (digits2 second).
  rewrite two_digits2 by lia. cbn [mbind result_bind]. rewrite Hdate. cbn [or_bad mbind result_bind]. unfold from_hms.
  destruct (Z.ltb_spec hour 24); [|lia]. destruct (Z.ltb_spec minute 60); [|lia]. by destruct (Z.ltb_spec second 60); [|lia].
Qed.

Lemma year_digits_text year month day hour minute second : 1950 <= year < 10000 ->
  year_digits (time_tag year) (time_text year month day hour minute second) =
  Ok (year, digits2 month ++ digits2 day ++ digits2 hour ++ digits2 minute ++ digits2 second).
Proof.
  intros Hy. unfold year_digits, time_tag, time_text. destruct (Z.ltb_spec year 2050).
  - change (blen (digits2 (year mod 100) ++ moment month day hour minute second) =? 13) with true. cbn [Z.eqb Pos.eqb andb].
    change (take 2 (digits2 (year mod 100) ++ ?x)) with (digits2 (year mod 100)).
    rewrite two_digits2 by (apply Z.mod_pos_bound; lia). cbn [mbind result_bind]. do 2 f_equal.
    destruct (Z.leb_spec 50 (year mod 100)); Z.to_euclidean_division_equations; lia.
  - change (blen ((digits2 (year / 100) ++ digits2 (year mod 100)) ++ moment month day hour minute second) =? 15) with true. cbn [Z.eqb Pos.eqb andb].
    change (take 4 ((digits2 (year / 100) ++ digits2 (year mod 100)) ++ ?x)) with (digits2 (year / 100) ++ digits2 (year mod 100)).
    unfold number. rewrite number_digits2 by (Z.to_euclidean_division_equations; lia).
    rewrite <-(app_nil_r (digits2 (year mod 100))), number_digits2 by (apply Z.mod_pos_bound; lia). cbn [number_from mbind result_bind].
    do 2 f_equal. Z.to_euclidean_division_equations; lia.
Qed.

Lemma not_after_der c : blen (certificate_der c) < 65536 ->
  not_after from_calendar_date (certificate_der c) = parse_asn1_time from_calendar_date (c_expiry_tag c) (c_expiry c).
Proof.
  intros Hl. unfold certificate_der in Hl. set (v := match c_version c with Some v => der 160 v | None => [] end).
  pose proof (blen_der 48 (der 48 (body_der c) ++ c_signature c)) as B0. rewrite blen_app in B0.
  pose proof (blen_nonneg (c_signature c)). pose proof (blen_der 48 (body_der c)) as B1.
  assert (B2 : blen (body_der c) = blen v + (blen (der 2 (c_serial c)) + (blen (der 48 (c_algorithm c)) +
    (blen (der 48 (c_issuer c)) + (blen (der 48 (validity_der c)) + blen (c_rest c)))))) by (unfold body_der; by rewrite !blen_app).
  pose proof (blen_nonneg v). pose proof (blen_nonneg (c_rest c)). pose proof (blen_der 2 (c_serial c)). pose proof (blen_der 48 (c_algorithm c)).
  pose proof (blen_der 48 (c_issuer c)). pose proof (blen_der 48 (validity_der c)) as B3.
  pose proof (blen_nonneg (c_serial c)). pose proof (blen_nonneg (c_algorithm c)). pose proof (blen_nonneg (c_issuer c)).
  assert (B4 : blen (validity_der c) = blen (der 23 (c_not_before c)) + blen (der (c_expiry_tag c) (c_expiry c))) by (unfold validity_der; by rewrite blen_app).
  pose proof (blen_der 23 (c_not_before c)). pose proof (blen_der (c_expiry_tag c) (c_expiry c)).
  pose proof (blen_nonneg (c_not_before c)). pose proof (blen_nonneg (c_expiry c)).
  unfold not_after, expect_tlv, certificate_der. rewrite <-(app_nil_r (der 48 (der 48 (body_der c) ++ c_signature c))).
  rewrite take_tlv_der by (rewrite blen_app; lia). cbn [mbind result_bind tlv_tag tlv_value]. change (48 =? 48) with true. cbn [negb mbind result_bind].
  rewrite take_tlv_der by lia. cbn [mbind result_bind tlv_tag tlv_value]. change (48 =? 48) with true. cbn [negb mbind result_bind].
  set (fields := der 2 (c_serial c) ++ der 48 (c_algorithm c) ++ der 48 (c_issuer c) ++ der 48 (validity_der c) ++ c_rest c).
  assert (Hv : (if bool_decide (head (body_der c) = Some 160)
                then '(_, rest) ← take_tlv (body_der c) "certificate version"; Ok rest else Ok (body_der c)) = Ok fields).
  { unfold body_der. fold fields. subst v. destruct (c_version c) as [ver|]; [|done].
    pose proof (blen_der 160 ver). pose proof (blen_nonneg ver). rewrite bool_decide_eq_true_2 by done. by rewrite take_tlv_der by lia. }
  rewrite Hv. cbn [mbind result_bind skip_fields]. unfold fields. rewrite take_tlv_der by lia. cbn [mbind result_bind].
  rewrite take_tlv_der by lia. cbn [mbind result_bind]. rewrite take_tlv_der by lia. cbn [mbind result_bind].
  rewrite take_tlv_der by lia. cbn [mbind result_bind tlv_tag tlv_value]. change (48 =? 48) with true. cbn [negb mbind result_bind].
  unfold validity_der. rewrite take_tlv_der by lia. cbn [mbind result_bind].
  rewrite <-(app_nil_r (der (c_expiry_tag c) (c_expiry c))). rewrite take_tlv_der by lia. by cbn [mbind result_bind tlv_tag tlv_value].
Qed.

(** The expiry a certificate carries is the one that is read: for every
    certificate of less than 64 KiB in DER, with or without a version field,
    whose expiry is a moment from 1950 to 9999 written as RFC 5280 prescribes
    ([UTCTime] until 2049, [GeneralizedTime] afterwards), [not_after] answers
    that moment. *)
Theorem expiry_read (c : certificate) (year month day hour minute second date : Z) :
  blen (certificate_der c) < 65536 ->
  c_expiry_tag c = time_tag year -> c_expiry c = time_text year month day hour minute second ->
  1950 <= year < 10000 -> 1 <= month <= 12 -> 0 <= day < 100 -> 0 <= hour < 24 -> 0 <= minute < 60 -> 0 <= second < 60 ->
  from_calendar_date year month day = Some date ->
  not_after from_calendar_date (certificate_der c) = Ok (date + ((hour * 60 + minute) * 60 + second) * 1000000000).
Proof.
  intros Hl Ht He Hy Hm Hd Hh Hmi Hs Hdate. rewrite not_after_der, Ht, He by done.
  eapply parse_moment; [by apply year_digits_text|unfold moment; by rewrite <-!app_assoc| |done..].
  unfold time_text, moment. rewrite !app_assoc. by rewrite last_snoc.
Qed.
End Calendar.

(** 8 July 2031, from a one-day calendar. *)
Definition one_day (year month day : Z) : option Z :=
  if (year =? 2031) && (month =? 7) && (day =? 8) then Some 1941235200000000000 else None.
Definition sample_certificate : certificate :=
  mkCertificate (Some [2; 1; 2]) [7] [6; 3; 42; 134; 72] [49; 0] (time_text 2031 4 9 0 0 0) 23 (time_text 2031 7 8 12 30 0) [48; 0] [3; 1; 0].
Lemma expiry_read_witness :
  not_after one_day (certificate_der sample_certificate) = Ok 1941280200000000000.
Proof. apply (expiry_read one_day sample_certificate 2031 7 8 12 30 0 1941235200000000000); vm_compute; try (split; congruence); reflexivity. Defined.
