(* ===== verification/TlsCert.v ===== *)
(** * TlsCert: the wildcard certificate, [crates/tlscert/src/lib.rs], [storage.rs], [cloudflare.rs]

    [Manager] obtains, stores and renews the one certificate of a deployment.
    The authority, the DNS provider, the file system, the clock, the resolver
    the listeners read and the waiting are the calls of [tcall]; reading PEM,
    pairing a key with its chain and the JSON of an account are parameters.
    Times are nanoseconds. *)

From Stdlib Require Import ZArith Lia Ascii.
From S2P Require Import Prelude Text Xdr X509 Prog.
Open Scope Z_scope.

Definition ACCOUNT_FILE : string := "account.json".
Definition CERTIFICATE_FILE : string := "certificate.pem".
Definition PRIVATE_KEY_FILE : string := "certificate-key.pem".
Definition SECOND : Z := 1000000000.
Definition DEFAULT_PROPAGATION_TIMEOUT : Z := 2 * 60 * SECOND.
Definition RENEW_BEFORE : Z := 30 * 24 * 60 * 60 * SECOND.
Definition RETRY_AFTER_ERROR : Z := 5 * 60 * SECOND.
Definition LETS_ENCRYPT_PRODUCTION : string := "https://acme-v02.api.letsencrypt.org/directory".

Record DnsRecord : Type := mkDnsRecord { provider_scope : string; provider_id : string; rec_name : string; rec_value : string }.
#[global] Instance DnsRecord_eq_dec : EqDecision DnsRecord.
Proof. solve_decision. Defined.

(** [Error]. *)
Inductive TlsError : Type :=
  | InvalidConfig (message : string)
  | Storage (operation path source : string)
  | Acme (source : string)
  | CertificateError (message : string)
  | DerFailed (e : DerError)
  | ProviderFailed (source : string)
  | CleanupFailed (failures : list (string * string))
  | CleanupAlsoFailed (cleanup error : TlsError)
  | AccountJson (source : string).

(** ** The subjects of the certificate *)

Definition wildcard (domain : string) : string := "*." +:+ domain.
(** The base domain is one label under the instance domain. *)
Definition nested (base_domain instance_domain : string) : bool :=
  match strip_suffix ("." +:+ instance_domain) base_domain with
  | Some label => negb (bool_decide (label = EmptyString)) && negb (contains_char "." label)
  | None => false
  end.
Definition domains (base_domain instance_domain : string) : list string :=
  let subjects := [base_domain; wildcard instance_domain] in
  if negb (nested base_domain instance_domain) && negb (bool_decide (wildcard base_domain ∈ subjects))
  then subjects ++ [wildcard base_domain] else subjects.

(** ** Calls *)

(** [AuthorizationStatus] and what an authorization offers for DNS-01: a value for the record. *)
Inductive AuthorizationStatus : Type := AuthValid | AuthPending | AuthOther (status : string).
Record Authorization : Type := mkAuthorization { au_status : AuthorizationStatus; au_dns01 : option string }.
Inductive OrderStatus : Type := OrderReady | OrderOther (status : string).

Section Manager.
(** A private key, a chain with its key, an account, an order and a signing request. *)
Context {Key CertifiedKey Account Order Request : Type}.

Inductive tcall : Type -> Type :=
  (* DNS provider *)
  | DPresent (base_domain name value : string) : tcall (result string DnsRecord)
  | DWait (record : DnsRecord) (timeout : Z) : tcall (result string unit)
  | DCleanup (record : DnsRecord) : tcall (result string unit)
  (* authority *)
  | AFromCredentials (data : list Z) : tcall (result string Account)
  | ACreate (directory : string) (contacts : list string) : tcall (result string (Account * list Z))
  | ANewOrder (account : Account) (identifiers : list string) : tcall (result string Order)
  | ANext (order : Order) : tcall (option (result string Authorization))
  | ASetReady (order : Order) : tcall (result string unit)
  | APollReady (order : Order) : tcall (result string OrderStatus)
  | AFinalize (order : Order) (request : Request) : tcall (result string unit)
  | APollCertificate (order : Order) : tcall (result string (list Z))
  (* keys *)
  | KGenerate : tcall (result string Key)
  | KRequest (subjects : list string) (key : Key) : tcall (result string Request)   (* with the text of the step that failed *)
  (* files *)
  | FRead (path : string) : tcall (result string (option (list Z)))   (* [None]: not found *)
  | FCreateDirs (path : string) : tcall (result string unit)
  | FSequence : tcall Z                                               (* [TEMP_SEQUENCE.fetch_add(1)] *)
  | FCreateNew (path : string) : tcall (result string unit)
  | FWriteAll (path : string) (contents : list Z) : tcall (result string unit)
  | FSyncAll (path : string) : tcall (result string unit)
  | FRename (from to : string) : tcall (result string unit)
  | FSyncDir (path : string) : tcall (result string unit)
  | FRemove (path : string) : tcall (result string unit)
  (* the live manager *)
  | MLock : tcall unit
  | MUnlock : tcall unit
  | MNow : tcall Z
  | MExpires : tcall (option Z)
  | MSetExpires (at_ : Z) : tcall unit
  | MReplace (key : CertifiedKey) : tcall unit
  | MCancelled : tcall bool
  | MSleep (delay : Z) : tcall bool.                                   (* whether it was cut short *)

(** What other crates compute: PEM files, pairing, and the JSON of an account. *)
Context (from_calendar_date : Z -> Z -> Z -> option Z)
  (pem_certs : list Z -> result string (list (list Z))) (pem_key : list Z -> result string (option Key))
  (certified : list (list Z) -> Key -> result string CertifiedKey)
  (account_directory : list Z -> result string (option string))
  (key_pem : Key -> list Z) (process_id : Z).

Definition T (A : Type) : Type := fallible tcall TlsError A.
#[local] Instance T_ret : MRet T := fallible_ret.
#[local] Instance T_bind : MBind T := fallible_bind.

(** ** Files: [storage.rs] *)

(** [dir.join(name)]; the storage directory is absolute and ends in no slash. *)
Definition join_path (dir name : string) : string := dir +:+ "/" +:+ name.
Definition write_and_rename (parent temp_path path : string) (contents : list Z) : T unit :=
  _ ← ask (FCreateNew temp_path) (Storage "create temporary file for" path);
  _ ← ask (FWriteAll temp_path contents) (Storage "write" path);
  _ ← ask (FSyncAll temp_path) (Storage "sync" path);
  _ ← ask (FRename temp_path path) (Storage "replace" path);
  ask (FSyncDir parent) (Storage "sync parent directory of" path).
Definition atomic_write (parent file_name : string) (contents : list Z) : T unit :=
  let path := join_path parent file_name in
  _ ← ask (FCreateDirs parent) (Storage "create" parent);
  sequence ← (get FSequence : T Z);
  let temp_path := join_path parent ("." +:+ file_name +:+ ".tmp-" +:+ dec process_id +:+ "-" +:+ dec sequence) in
  prog_bind _ _ (fun result =>
    match result with
    | Err _ => Call (FRemove temp_path) (fun _ => Ret result)
    | Ok _ => Ret result
    end) (write_and_rename parent temp_path path contents).
Definition read_optional (path : string) : T (option (list Z)) := ask (FRead path) (Storage "read" path).

(** ** Certificates on disk *)

Record LoadedCertificate : Type := mkLoadedCertificate { lc_key : CertifiedKey; lc_not_after : Z }.
Definition certificate_error {A} (message : string) (r : result string A) : result TlsError A :=
  map_err (fun e => CertificateError (message +:+ e)) r.
Definition parse_certificate (certificate_pem private_key_pem : list Z) : result TlsError LoadedCertificate :=
  certificates ← certificate_error "parse certificate PEM: " (pem_certs certificate_pem);
  match certificates with
  | [] => Err (CertificateError "certificate PEM contains no certificates")
  | end_entity :: _ =>
      not_after ← map_err DerFailed (not_after from_calendar_date end_entity);
      private_key ← certificate_error "parse private key PEM: " (pem_key private_key_pem);
      match private_key with
      | None => Err (CertificateError "private key PEM contains no private key")
      | Some private_key =>
          key ← certificate_error "load certificate and private key: " (certified certificates private_key);
          Ok (mkLoadedCertificate key not_after)
      end
  end.
Definition load_certificate (storage_dir : string) : T (option LoadedCertificate) :=
  certificate ← read_optional (join_path storage_dir CERTIFICATE_FILE);
  private_key ← read_optional (join_path storage_dir PRIVATE_KEY_FILE);
  match certificate, private_key with
  | None, None => mret None
  | Some certificate, Some private_key =>
      if negb (utf8_valid certificate) then throw (CertificateError "stored certificate is not UTF-8 PEM")
      else if negb (utf8_valid private_key) then throw (CertificateError "stored private key is not UTF-8 PEM")
      else
        loaded ← (pure_res (parse_certificate certificate private_key) : T LoadedCertificate);
        mret (Some loaded)
  | _, _ => throw (CertificateError "stored certificate and private key are incomplete")
  end.

(** ** The manager *)

Record Config : Type := mkConfig {
  cf_instance_domain : string; cf_base_domain : string; cf_email : string; cf_provider : bool;
  cf_storage_dir : string; cf_directory : string; cf_propagation_timeout : Z
}.
Record Manager : Type := mkManager {
  m_base_domain : string; m_domains : list string; m_email : string; m_storage_dir : string; m_directory : string;
  m_propagation_timeout : Z
}.

Definition is_dot (c : ascii) : bool := Ascii.eqb c ".".
Definition bare (domain : string) : string := to_ascii_lowercase (trim_end_matches is_dot domain).
Definition has_wildcard_or_url (domain : string) : bool := contains_char "*" domain || contains_char "/" domain || contains_char " " domain.
Definition checked_instance_domain (config : Config) (base_domain : string) : result TlsError string :=
  let domain := bare (cf_instance_domain config) in
  if bool_decide (domain = EmptyString) then Ok base_domain
  else if has_wildcard_or_url domain || starts_with "." domain then
    Err (InvalidConfig ("tlscert: instance domain " +:+ debug (cf_instance_domain config) +:+ " must be a bare domain"))
  else Ok domain.
Definition checked_config (config : Config) : result TlsError Manager :=
  let base_domain := bare (cf_base_domain config) in
  if bool_decide (base_domain = EmptyString) then Err (InvalidConfig "tlscert: base domain is empty")
  else if has_wildcard_or_url base_domain then
    Err (InvalidConfig ("tlscert: base domain " +:+ debug (cf_base_domain config) +:+ " must be a bare domain, not a wildcard or URL"))
  else if starts_with "." base_domain then
    Err (InvalidConfig ("tlscert: base domain " +:+ debug (cf_base_domain config) +:+ " starts with a dot"))
  else
    instance_domain ← checked_instance_domain config base_domain;
    if negb (cf_provider config) then Err (InvalidConfig "tlscert: DNS provider is nil")
    else if bool_decide (cf_storage_dir config = EmptyString) then Err (InvalidConfig "tlscert: storage dir is empty")
    else Ok (mkManager base_domain (domains base_domain instance_domain) (cf_email config) (cf_storage_dir config)
               (if bool_decide (cf_directory config = EmptyString) then LETS_ENCRYPT_PRODUCTION else cf_directory config)
               (if cf_propagation_timeout config =? 0 then DEFAULT_PROPAGATION_TIMEOUT else cf_propagation_timeout config)).
(** [Manager::new]: the stored certificate becomes the resolver's and its expiry is remembered. *)
Definition new (config : Config) : T Manager :=
  manager ← (pure_res (checked_config config) : T Manager);
  loaded ← load_certificate (m_storage_dir manager);
  match loaded with
  | None => mret manager
  | Some loaded =>
      _ ← (get (MReplace (lc_key loaded)) : T unit);
      _ ← (get (MSetExpires (lc_not_after loaded)) : T unit);
      mret manager
  end.

Section Operations.
Context (self : Manager).

(** The nanoseconds until renewal, zero when it is due; nothing without a certificate. *)
Definition renewal_delay : T (option Z) :=
  expiry ← (get MExpires : T (option Z));
  match expiry with
  | None => mret None
  | Some expiry =>
      now ← (get MNow : T Z);
      mret (Some (Z.max 0 (expiry - RENEW_BEFORE - now)))
  end.

Definition load_or_create_account : T Account :=
  let path := join_path (m_storage_dir self) ACCOUNT_FILE in
  data ← read_optional path;
  match data with
  | Some data =>
      directory ← (pure_res (map_err AccountJson (account_directory data)) : T (option string));
      if negb (bool_decide (directory = Some (m_directory self))) then
        throw (CertificateError ("stored ACME account uses a different directory than " +:+ m_directory self))
      else ask (AFromCredentials data) Acme
  | None =>
      let contacts := if bool_decide (m_email self = EmptyString) then [] else ["mailto:" +:+ m_email self] in
      '(account, credentials) ← ask (ACreate (m_directory self) contacts) Acme;
      _ ← atomic_write (m_storage_dir self) ACCOUNT_FILE credentials;
      mret account
  end.

(** The loop over the authorizations, with the records made so far; an error keeps them. *)
Definition challenge_name : string := "_acme-challenge." +:+ m_base_domain self.
Fixpoint authorize (fuel : nat) (order : Order) (records : list DnsRecord) : prog tcall (result TlsError unit * list DnsRecord) :=
  match fuel with
  | O => Ret (Err (Acme "more authorizations than the model follows"), records)
  | S fuel =>
      Call (ANext order) (fun next =>
        match next with
        | None => Ret (Ok tt, records)
        | Some (Err e) => Ret (Err (Acme e), records)
        | Some (Ok authorization) =>
            match au_status authorization with
            | AuthValid => authorize fuel order records
            | AuthOther status => Ret (Err (CertificateError ("unexpected ACME authorization status: " +:+ status)), records)
            | AuthPending =>
                match au_dns01 authorization with
                | None => Ret (Err (CertificateError "ACME server offered no DNS-01 challenge"), records)
                | Some value =>
                    Call (DPresent (m_base_domain self) challenge_name value) (fun presented =>
                      match presented with
                      | Err e => Ret (Err (ProviderFailed e), records)
                      | Ok record =>
                          let records := records ++ [record] in
                          Call (DWait record (m_propagation_timeout self)) (fun waited =>
                            match waited with
                            | Err e => Ret (Err (ProviderFailed e), records)
                            | Ok _ =>
                                Call (ASetReady order) (fun ready =>
                                  match ready with
                                  | Err e => Ret (Err (Acme e), records)
                                  | Ok _ => authorize fuel order records
                                  end)
                            end)
                      end)
                end
            end
        end)
  end.
(** [complete_order] after the authorizations: the chain and its key. *)
Definition finish_order (order : Order) : T (list Z * list Z) :=
  status ← ask (APollReady order) Acme;
  match status with
  | OrderOther status => throw (CertificateError ("unexpected ACME order status: " +:+ status))
  | OrderReady =>
      key ← ask KGenerate (fun e => CertificateError ("generate private key: " +:+ e));
      request ← ask (KRequest (m_domains self) key) CertificateError;
      _ ← ask (AFinalize order request) Acme;
      certificate_pem ← ask (APollCertificate order) Acme;
      mret (certificate_pem, key_pem key)
  end.
Definition complete_order (fuel : nat) (order : Order) : prog tcall (result TlsError (list Z * list Z) * list DnsRecord) :=
  prog_bind _ _ (fun '(r, records) =>
    match r with
    | Err e => Ret (Err e, records)
    | Ok _ => prog_bind _ _ (fun r => Ret (r, records)) (finish_order order)
    end) (authorize fuel order []).

(** [cleanup_records]: the last record first, and every one of them. *)
Fixpoint cleanup_each (records : list DnsRecord) (failures : list (string * string)) : prog tcall (list (string * string)) :=
  match records with
  | [] => Ret failures
  | record :: records =>
      Call (DCleanup record) (fun r =>
        cleanup_each records (match r with Ok _ => failures | Err e => failures ++ [(rec_name record, e)] end))
  end.
Definition cleanup_records (records : list DnsRecord) : T unit :=
  prog_bind _ _ (fun failures => Ret (if bool_decide (failures = []) then Ok tt else Err (CleanupFailed failures)))
    (cleanup_each (rev records) []).

Definition issue (fuel : nat) : T (list Z * list Z) :=
  account ← load_or_create_account;
  order ← ask (ANewOrder account (m_domains self)) Acme;
  prog_bind _ _ (fun '(result, records) =>
    prog_bind _ _ (fun cleanup =>
      Ret (match result, cleanup with
           | Ok certificate, Ok _ => Ok certificate
           | Err error, Ok _ => Err error
           | Ok _, Err error => Err error
           | Err error, Err cleanup => Err (CleanupAlsoFailed cleanup error)
           end)) (cleanup_records records)) (complete_order fuel order).

(** A new certificate: issued, checked, written key first, then served. *)
Definition renew (fuel : nat) : T unit :=
  '(certificate_pem, private_key_pem) ← issue fuel;
  loaded ← (pure_res (parse_certificate certificate_pem private_key_pem) : T LoadedCertificate);
  _ ← atomic_write (m_storage_dir self) PRIVATE_KEY_FILE private_key_pem;
  _ ← atomic_write (m_storage_dir self) CERTIFICATE_FILE certificate_pem;
  _ ← (get (MReplace (lc_key loaded)) : T unit);
  get (MSetExpires (lc_not_after loaded)).
(** [delay.is_some_and(|delay| !delay.is_zero())]. *)
Definition not_due (delay : option Z) : bool := match delay with Some delay => negb (delay =? 0) | None => false end.
(** [ensure_certificate]; the lock is released on every way out. *)
Definition ensure_certificate (fuel : nat) : T unit :=
  _ ← (get MLock : T unit);
  prog_bind _ _ (fun r => Call MUnlock (fun _ => Ret r))
    (delay ← renewal_delay;
     if not_due delay then mret tt else renew fuel).

(** One turn of [renewal_loop]: how long it waits. *)
Definition renewal_turn (fuel : nat) : T Z :=
  delay ← renewal_delay;
  if not_due delay then mret (default 0 delay)
  else
    prog_bind _ _ (fun r =>
      match r with
      | Ok _ => prog_bind _ _ (fun r => Ret (Ok (match r with Ok (Some delay) => delay | _ => RETRY_AFTER_ERROR end))) renewal_delay
      | Err _ => Ret (Ok RETRY_AFTER_ERROR)
      end) (ensure_certificate fuel).
(** [renewal_loop] for [turns] turns. *)
Fixpoint renewal_loop (fuel turns : nat) : T unit :=
  match turns with
  | O => mret tt
  | S turns =>
      cancelled ← (get MCancelled : T bool);
      if (cancelled : bool) then mret tt
      else
        delay ← renewal_turn fuel;
        cut ← (get (MSleep delay) : T bool);
        if (cut : bool) then mret tt else renewal_loop fuel turns
  end.
End Operations.
End Manager.
