(* ===== verification/TlsCertRuns.v ===== *)
(** * TlsCertRuns: what obtaining a certificate leaves behind

    Which hosts the certificate covers, that every challenge record is taken
    away again, and what is on disk and served after a renewal, in every run
    of [TlsCert.Manager]. *)

From Stdlib Require Import ZArith Lia Ascii.
From S2P Require Import Prelude Text Xdr X509 Prog TlsCert.
Open Scope Z_scope.

Section Runs.
Context {Key CertifiedKey Account Order Request : Type}.
#[local] Abbreviation tcall := (@tcall Key CertifiedKey Account Order Request).
Context (from_calendar_date : Z -> Z -> Z -> option Z)
  (pem_certs : list Z -> result string (list (list Z))) (pem_key : list Z -> result string (option Key))
  (certified : list (list Z) -> Key -> result string CertifiedKey)
  (account_directory : list Z -> result string (option string))
  (key_pem : Key -> list Z) (process_id : Z) (self : Manager).
#[local] Abbreviation issue := (issue account_directory key_pem process_id self).
#[local] Abbreviation ensure_certificate := (ensure_certificate from_calendar_date pem_certs pem_key certified account_directory key_pem process_id self).
#[local] Abbreviation parse_certificate := (parse_certificate from_calendar_date pem_certs pem_key certified).

(** ** Challenge records *)

(** The records a run made, and those it asked to take away. *)
Definition presented (tr : list (event tcall)) : list DnsRecord :=
  omap (fun e => (match ev_call e in TlsCert.tcall R return R -> option DnsRecord with
                  | DPresent _ _ _ => fun r => match r with Ok record => Some record | Err _ => None end
                  | _ => fun _ => None
                  end) (ev_reply e)) tr.
Definition cleaned (tr : list (event tcall)) : list DnsRecord :=
  omap (fun e => match ev_call e with DCleanup record => Some record | _ => None end) tr.
(** Where challenge records were put. *)
Definition challenge_names (tr : list (event tcall)) : list string :=
  omap (fun e => match ev_call e with DPresent _ name _ => Some name | _ => None end) tr.
(** Neither. *)
Definition quiet (tr : list (event tcall)) : Prop := presented tr = [] /\ cleaned tr = [] /\ challenge_names tr = [].
Lemma presented_app tr tr' : presented (tr ++ tr') = presented tr ++ presented tr'.
Proof. apply omap_app. Qed.
Lemma cleaned_app tr tr' : cleaned (tr ++ tr') = cleaned tr ++ cleaned tr'.
Proof. apply omap_app. Qed.
Lemma challenge_names_app tr tr' : challenge_names (tr ++ tr') = challenge_names tr ++ challenge_names tr'.
Proof. apply omap_app. Qed.
Lemma quiet_app tr tr' : quiet tr -> quiet tr' -> quiet (tr ++ tr').
Proof. intros (H1 & H2 & H3) (H1' & H2' & H3'). unfold quiet. by rewrite presented_app, cleaned_app, challenge_names_app, H1, H2, H3, H1', H2', H3'. Qed.

(** A program that touches no challenge record. *)
Definition silent {A} (p : prog tcall A) : Prop := always p (fun tr _ => quiet tr).
Lemma silent_bind_cert {A B} (p : prog tcall A) (f : A -> prog tcall B) : silent p -> (forall a, silent (f a)) -> silent (prog_bind _ _ f p).
Proof.
  intros Hp Hf. apply always_bind. eapply always_mono; [|exact Hp]. intros tr a Ht.
  eapply always_mono; [|apply Hf]. intros tr' b Ht'. by apply quiet_app.
Qed.
Lemma silent_then {A B} (p : fallible tcall TlsError A) (f : A -> fallible tcall TlsError B) :
  silent p -> (forall a, silent (f a)) -> silent (fallible_bind _ _ f p).
Proof. intros Hp Hf. apply silent_bind_cert; [done|]. intros [a|e]; [apply Hf|done]. Qed.

Lemma silent_atomic_write parent name contents : silent (atomic_write process_id parent name contents).
Proof.
  unfold atomic_write. apply silent_then; [by intros []|]. intros _. apply silent_then; [done|]. intros sequence. apply silent_bind_cert.
  - unfold write_and_rename. repeat (apply silent_then; [by intros []|]; intros _). by intros [].
  - intros []; [done|]. by intros [].
Qed.
Lemma silent_account : silent (load_or_create_account account_directory process_id self).
Proof.
  unfold load_or_create_account. apply silent_then; [by intros []|]. intros [data|].
  - apply silent_then; [done|]. intros directory. destruct (negb _); [done|]. by intros [].
  - apply silent_then; [by intros []|]. intros [account credentials]. apply silent_then; [apply silent_atomic_write|]. done.
Qed.
Lemma silent_finish_order order : silent (finish_order key_pem self order).
Proof.
  unfold finish_order. apply silent_then; [by intros []|]. intros [|status]; [|done].
  apply silent_then; [by intros []|]. intros key. apply silent_then; [by intros []|]. intros request.
  apply silent_then; [by intros []|]. intros _. by apply silent_then; [intros []|].
Qed.

(** The authorizations only add records, all of them under one name. *)
Lemma always_authorize fuel order records :
  always (authorize self fuel order records) (fun tr res =>
    res.2 = records ++ presented tr /\ cleaned tr = [] /\ Forall (eq (challenge_name self)) (challenge_names tr)).
Proof.
  revert records. induction fuel as [|fuel IH]; intros records; cbn [authorize]; [cbn; by rewrite app_nil_r|].
  intros [[[[| |status] dns01]|e]|]; cbn [au_status au_dns01]; try (cbn; by rewrite app_nil_r).
  - eapply always_mono; [|apply IH]. intros tr res H. exact H.
  - destruct dns01 as [value|]; [|cbn; by rewrite app_nil_r].
    intros [record|e]; [|cbn; rewrite app_nil_r; split_and!; [done..|by repeat constructor]].
    intros [[]|e]; [|cbn; split_and!; [done..|by repeat constructor]].
    intros [[]|e]; [|cbn; split_and!; [done..|by repeat constructor]].
    eapply always_mono; [|apply IH]. intros tr res (-> & Hc & Hn). split_and!; [by rewrite <-app_assoc|done|by constructor].
Qed.
Lemma always_complete_order fuel order :
  always (complete_order key_pem self fuel order) (fun tr res =>
    res.2 = presented tr /\ cleaned tr = [] /\ Forall (eq (challenge_name self)) (challenge_names tr)).
Proof.
  unfold complete_order. apply always_bind. eapply always_mono; [|apply always_authorize].
  intros tr [[[]|e] records] (Hr & Hc & Hn); cbn in Hr; [|cbn; by rewrite app_nil_r].
  apply always_bind. eapply always_mono; [|apply silent_finish_order]. intros tr' r (H1 & H2 & H3). cbn.
  rewrite app_nil_r, presented_app, cleaned_app, challenge_names_app, H1, H2, H3, !app_nil_r. done.
Qed.
Lemma always_cleanup_each records failures :
  always (cleanup_each records failures) (fun tr (_ : list (string * string)) => cleaned tr = records /\ presented tr = [] /\ challenge_names tr = []).
Proof.
  revert failures. induction records as [|record records IH]; intros failures; cbn [cleanup_each]; [done|].
  intros r. eapply always_mono; [|apply IH]. intros tr fs (Hc & Hp & Hn). split_and!; [|done|done].
  change (mkEvent (DCleanup record) r :: tr) with ([mkEvent (DCleanup record) r] ++ tr). rewrite cleaned_app, Hc. done.
Qed.

(** A run of [issue]: an authorization part, then the clean-up of exactly its records, newest first. *)
Definition tidy (tr : list (event tcall)) : Prop :=
  exists working cleaning, tr = working ++ cleaning /\ cleaned working = [] /\ presented cleaning = [] /\ challenge_names cleaning = [] /\
    cleaned cleaning = rev (presented working) /\ Forall (eq (challenge_name self)) (challenge_names working).
Lemma always_issue fuel : always (issue fuel) (fun tr _ => tidy tr).
Proof.
  assert (Hq : forall tr, quiet tr -> tidy tr).
  { intros tr (H1 & H2 & H3). exists tr, []. by rewrite app_nil_r, H1, H2, H3. }
  unfold TlsCert.issue. apply always_fallible. eapply always_mono; [|apply silent_account]. intros tr1 [account|e] H1; [|by apply Hq].
  apply always_fallible. intros [order|e]; cbn [always map_err].
  2: { apply Hq, quiet_app; done. }
  apply always_bind. eapply always_mono; [|apply always_complete_order]. intros tr2 [result records] (Hr & Hc & Hn). cbn in Hr. subst records.
  unfold cleanup_records. apply always_bind. apply always_bind. eapply always_mono; [|apply always_cleanup_each]. intros tr3 failures (C1 & C2 & C3).
  cbn [always]. rewrite !app_nil_r. destruct H1 as (Q1 & Q2 & Q3).
  exists (tr1 ++ [mkEvent (ANewOrder account (m_domains self)) (Ok order)] ++ tr2), tr3.
  rewrite <-!app_assoc, !cleaned_app, !presented_app, !challenge_names_app, Q1, Q2, Q3, Hc, C1, C2, C3. by split_and!.
Qed.

(** C25. Every challenge record is taken away again.  In every run of [issue],
    whatever the authority, the provider and the disk answer: the records that
    were made are exactly the records the provider is asked to delete
    afterwards, each once, the newest first, and nothing is made after the
    first deletion. *)
Theorem records_cleaned (fuel : nat) : always (issue fuel) (fun tr _ =>
  exists working cleaning, tr = working ++ cleaning /\ cleaned working = [] /\ presented cleaning = [] /\
    cleaned cleaning = rev (presented working)).
Proof.
  eapply always_mono; [|apply always_issue]. intros tr r (working & cleaning & H1 & H2 & H3 & _ & H4 & _). by exists working, cleaning.
Qed.
(** ** What is stored and served *)

(** What the listeners were told to serve, and the expiries remembered. *)
Definition replaced (tr : list (event tcall)) : list CertifiedKey :=
  omap (fun e => match ev_call e with MReplace key => Some key | _ => None end) tr.
Lemma replaced_app tr tr' : replaced (tr ++ tr') = replaced tr ++ replaced tr'.
Proof. apply omap_app. Qed.
Definition serves_nothing {A} (p : prog tcall A) : Prop := always p (fun tr _ => replaced tr = []).
Lemma serves_bind {A B} (p : prog tcall A) (f : A -> prog tcall B) : serves_nothing p -> (forall a, serves_nothing (f a)) -> serves_nothing (prog_bind _ _ f p).
Proof.
  intros Hp Hf. apply always_bind. eapply always_mono; [|exact Hp]. intros tr a Ht.
  eapply always_mono; [|apply Hf]. intros tr' b Ht'. by rewrite replaced_app, Ht, Ht'.
Qed.
Lemma serves_then {A B} (p : fallible tcall TlsError A) (f : A -> fallible tcall TlsError B) :
  serves_nothing p -> (forall a, serves_nothing (f a)) -> serves_nothing (fallible_bind _ _ f p).
Proof. intros Hp Hf. apply serves_bind; [done|]. intros [a|e]; [apply Hf|done]. Qed.

(** A file written to a new name, synced, renamed into place and its directory synced. *)
Definition stored (name : string) (contents : list Z) (tr : list (event tcall)) : Prop :=
  let dir := m_storage_dir self in let path := join_path dir name in
  exists sequence temp, temp <> path /\
    tr = [mkEvent (FCreateDirs dir) (Ok tt); mkEvent FSequence sequence; mkEvent (FCreateNew temp) (Ok tt);
          mkEvent (FWriteAll temp contents) (Ok tt); mkEvent (FSyncAll temp) (Ok tt); mkEvent (FRename temp path) (Ok tt);
          mkEvent (FSyncDir dir) (Ok tt)].
Lemma temp_differs dir name n m : name <> EmptyString -> join_path dir ("." +:+ name +:+ ".tmp-" +:+ n +:+ "-" +:+ m) <> join_path dir name.
Proof.
  intros Hn He. apply (f_equal String.length) in He. unfold join_path in He. rewrite !string_length_app in He. cbn [String.length] in He. lia.
Qed.
Lemma always_atomic_write name contents : name <> EmptyString ->
  always (atomic_write process_id (m_storage_dir self) name contents) (fun tr r =>
    replaced tr = [] /\ (r = Ok tt -> stored name contents tr)).
Proof.
  intros Hn. unfold atomic_write. apply always_fallible. intros [[]|e]; [|done]. cbn [map_err always].
  apply always_fallible. intros sequence. cbn [always]. apply always_bind. unfold write_and_rename.
  apply always_fallible. intros [[]|e]; cbn [map_err always]; [|by intros r].
  apply always_fallible. intros [[]|e]; cbn [map_err always]; [|by intros r].
  apply always_fallible. intros [[]|e]; cbn [map_err always]; [|by intros r].
  apply always_fallible. intros [[]|e]; cbn [map_err always]; [|by intros r].
  intros [[]|e]; cbn [map_err always]; [|by intros r]. split; [done|]. intros _. eexists sequence, _. split; [|done]. by apply temp_differs.
Qed.
Lemma serves_issue fuel : serves_nothing (issue fuel).
Proof.
  assert (Hw : forall name contents, name <> EmptyString -> serves_nothing (atomic_write process_id (m_storage_dir self) name contents)).
  { intros name contents Hn. eapply always_mono; [|by apply (always_atomic_write name contents)]. by intros tr r [? _]. }
  unfold TlsCert.issue. apply serves_then.
  { unfold load_or_create_account. apply serves_then; [by intros []|]. intros [data|].
    - apply serves_then; [done|]. intros directory. destruct (negb _); [done|]. by intros [].
    - apply serves_then; [by intros []|]. intros [account credentials]. by apply serves_then; [apply Hw|]. }
  intros account. apply serves_then; [by intros []|]. intros order. apply serves_bind.
  - unfold complete_order. apply serves_bind.
    + generalize (@nil DnsRecord). induction fuel as [|fuel IH]; intros records; cbn [authorize]; [done|].
      intros [[[[| |status] [value|]]|e]|]; cbn [au_status au_dns01]; try done; try apply IH.
      intros [record|e]; [|done]. intros [[]|e]; [|done]. intros [[]|e]; [|done]. apply IH.
    + intros [[[]|e] records]; [|done]. apply serves_bind; [|done]. unfold finish_order.
      apply serves_then; [by intros []|]. intros [|status]; [|done]. repeat (apply serves_then; [by intros []|]; intros ?). done.
  - intros [result records]. apply serves_bind; [|done]. unfold cleanup_records. apply serves_bind; [|done].
    generalize (@nil (string * string)). induction (rev records) as [|record rs IH]; intros fs; cbn [cleanup_each]; [done|]. intros r. apply IH.
Qed.

Definition renewed (tr : list (event tcall)) : Prop :=
  exists certificate key loaded before stores1 stores2, replaced before = [] /\
    parse_certificate certificate key = Ok loaded /\ stored PRIVATE_KEY_FILE key stores1 /\ stored CERTIFICATE_FILE certificate stores2 /\
    tr = before ++ stores1 ++ stores2 ++ [mkEvent (MReplace (lc_key loaded)) tt; mkEvent (MSetExpires (lc_not_after loaded)) tt].
Lemma always_renew fuel :
  always (renew from_calendar_date pem_certs pem_key certified account_directory key_pem process_id self fuel) (fun tr r =>
    (replaced tr = [] /\ exists e, r = Err e) \/ (r = Ok tt /\ renewed tr)).
Proof.
  unfold renew. apply always_fallible. eapply always_mono; [|apply serves_issue]. intros tr0 [[cert key]|e] H0; [|left; eauto].
  apply always_fallible. cbn [pure_res always]. destruct (parse_certificate cert key) as [loaded|e] eqn:Hp; cbn [always]; [|left; rewrite app_nil_r; eauto].
  apply always_fallible. eapply always_mono; [|by apply always_atomic_write]. intros tr1 [[]|e] [R1 S1]; [|left; rewrite !replaced_app, H0, R1; eauto].
  apply always_fallible. eapply always_mono; [|by apply always_atomic_write]. intros tr2 [[]|e] [R2 S2]; [|left; rewrite !replaced_app, H0, R1, R2; eauto].
  apply always_fallible. intros []. cbn [always]. intros []. cbn [always]. right. split; [done|].
  exists cert, key, loaded, tr0, tr1, tr2. split_and!; [done|done|by apply S1|by apply S2|done].
Qed.

(** What a run of [ensure_certificate] did. *)
Definition ensured (tr : list (event tcall)) (r : result TlsError unit) : Prop :=
  (exists expiry now, r = Ok tt /\ 0 < expiry - RENEW_BEFORE - now /\
     tr = [mkEvent MLock tt; mkEvent MExpires (Some expiry); mkEvent MNow now; mkEvent MUnlock tt]) \/
  (replaced tr = [] /\ exists e, r = Err e) \/
  (r = Ok tt /\ exists checking renewing, replaced checking = [] /\ renewed renewing /\ tr = checking ++ renewing ++ [mkEvent MUnlock tt]).
Lemma ensured_renewing checking tr r : replaced checking = [] ->
  (replaced tr = [] /\ exists e, r = Err e) \/ (r = Ok tt /\ renewed tr) -> ensured (checking ++ tr ++ [mkEvent MUnlock tt]) r.
Proof.
  intros Hc Hr. right. destruct Hr as [[Hr [e ->]]|[-> Hr]].
  - left. rewrite !replaced_app, Hc, Hr. eauto.
  - right. split; [done|]. by exists checking, tr.
Qed.

(** What is served is what is on disk.  In every run of
    [ensure_certificate]: when the certificate has more than thirty days left
    nothing is asked of the authority, the provider or the disk.  Otherwise the
    listeners get at most one new certificate, and only after the authority
    issued it, it was read and paired with its key, and key and chain were both
    written under another name, synced and renamed into place; the run that
    serves it succeeds, and a run that fails leaves what is served alone. *)
Theorem served_is_stored (fuel : nat) : always (ensure_certificate fuel) ensured.
Proof.
  unfold TlsCert.ensure_certificate. apply always_fallible. intros []. cbn [always]. apply always_bind.
  unfold renewal_delay. apply always_fallible. apply always_fallible. intros [expiry|].
  - cbn [always]. apply always_fallible. intros now. cbn [always fallible_ret mret T_ret not_due].
    destruct (Z.eqb_spec (Z.max 0 (expiry - RENEW_BEFORE - now)) 0) as [Hz|Hz]; cbn [negb].
    + eapply always_mono; [|apply always_renew]. intros tr r Hr []. cbn [always].
      by apply (ensured_renewing [mkEvent MLock tt; mkEvent MExpires (Some expiry); mkEvent MNow now] tr r).
    + cbn [always]. intros []. left. exists expiry, now. split_and!; [done|lia|done].
  - cbn [always fallible_ret mret T_ret not_due]. eapply always_mono; [|apply always_renew]. intros tr r Hr []. cbn [always].
    by apply (ensured_renewing [mkEvent MLock tt; mkEvent MExpires None] tr r).
Qed.
(** C40. Every challenge record is made under the base domain.  When the
    instance domain is another one, the certificate asks for its wildcard
    ([*.] and the instance domain), whose DNS-01 challenge is read under the
    instance domain; no run of [issue] ever puts a record there. *)
Theorem wildcard_challenge_misplaced (config : Config) (fuel : nat) :
  let instance_domain := bare (cf_instance_domain config) in
  checked_config config = Ok self -> instance_domain <> EmptyString -> instance_domain <> m_base_domain self ->
  wildcard instance_domain ∈ m_domains self /\
  always (issue fuel) (fun tr _ => ("_acme-challenge." +:+ instance_domain) ∉ challenge_names tr).
Proof.
  intros inst Hc Hne Hd. split.
  - unfold checked_config, checked_instance_domain in Hc. fold inst in Hc. rewrite (bool_decide_eq_false_2 (inst = EmptyString)) in Hc by done.
    destruct (bool_decide (bare (cf_base_domain config) = EmptyString)); [done|]. destruct (has_wildcard_or_url (bare (cf_base_domain config))); [done|].
    destruct (starts_with "." (bare (cf_base_domain config))); [done|]. destruct (_ || _); [done|]. cbn [mbind result_bind] in Hc.
    destruct (negb (cf_provider config)); [done|]. destruct (bool_decide (cf_storage_dir config = EmptyString)); [done|].
    injection Hc as <-. cbn [m_domains]. unfold domains.
    destruct (negb (nested _ _) && _); right; left.
  - eapply always_mono; [|apply always_issue]. intros tr r (working & cleaning & -> & _ & _ & Hq & _ & Hall) Hin.
    rewrite challenge_names_app, Hq, app_nil_r in Hin. rewrite Forall_forall in Hall. apply Hall in Hin. unfold challenge_name in Hin.
    apply (inj (String.append "_acme-challenge.")) in Hin. congruence.
Qed.
End Runs.

(** ** The hosts a certificate covers *)

(** One label under a domain; what a subject covers, as a browser reads it. *)
Definition under (domain host : string) : Prop :=
  exists label, host = label +:+ "." +:+ domain /\ label <> EmptyString /\ contains_char "." label = false.
Definition covers (subject host : string) : Prop :=
  match strip_prefix "*." subject with Some rest => under rest host | None => host = subject end.

Lemma covers_wildcard domain host : covers (wildcard domain) host <-> under domain host.
Proof. unfold covers, wildcard. by rewrite (proj2 (strip_prefix_Some "*." ("*." +:+ domain) domain) eq_refl). Qed.
Lemma covers_plain domain host : contains_char "*" domain = false -> covers domain host <-> host = domain.
Proof.
  intros Hd. unfold covers. destruct (strip_prefix "*." domain) as [rest|] eqn:Hs; [|done]. exfalso.
  apply strip_prefix_Some in Hs. subst domain. discriminate Hd.
Qed.
Lemma wildcard_inj a b : wildcard a = wildcard b -> a = b.
Proof. apply (inj (String.append "*.")). Qed.
(** The code's test for the base domain lying one label under the instance domain. *)
Lemma nested_iff base inst : nested base inst = true <-> under inst base.
Proof.
  unfold nested, under. split.
  - destruct (strip_suffix ("." +:+ inst) base) as [label|] eqn:Hs; [|done]. intros H.
    apply andb_true_iff in H as [H1 H2]. exists label. apply strip_suffix_Some in Hs. split; [done|].
    split; [by apply negb_true_iff, bool_decide_eq_false_1 in H1|by apply negb_true_iff].
  - intros (label & -> & Hne & Hdot). rewrite (proj2 (strip_suffix_Some ("." +:+ inst) (label +:+ "." +:+ inst) label) eq_refl), Hdot.
    by rewrite bool_decide_eq_false_2.
Qed.
Lemma wildcard_fresh base inst : contains_char "*" base = false -> wildcard base ∈ [base; wildcard inst] <-> base = inst.
Proof.
  intros Hb. split; [|intros ->; set_solver]. rewrite !elem_of_cons, elem_of_nil. intros [H|[H|[]]]; [|by apply wildcard_inj in H].
  exfalso. rewrite <-H in Hb. discriminate Hb.
Qed.

(** C37. The certificate covers exactly the hosts of the deployment, as a
    browser reads its subjects (a wildcard stands for exactly one label): the
    base domain, every name one label under the instance domain and, unless
    the base domain is itself one label under the instance domain, every name
    one label under the base domain; and no other host.  It has three subjects
    when the base domain is neither the instance domain nor one label under
    it, two otherwise, and never the same subject twice. *)
Theorem certificate_covers (base inst host : string) :
  contains_char "*" base = false ->
  (Exists (fun subject => covers subject host) (domains base inst) <->
   host = base \/ under inst host \/ (~ under inst base /\ under base host)) /\
  (base <> inst /\ ~ under inst base -> length (domains base inst) = 3%nat) /\
  (base = inst \/ under inst base -> length (domains base inst) = 2%nat) /\
  NoDup (domains base inst).
Proof.
  intros Hb. unfold domains. pose proof (wildcard_fresh base inst Hb) as Hw. pose proof (nested_iff base inst) as Hn.
  assert (Hfirst : base <> wildcard inst) by (intros ->; discriminate Hb).
  assert (Hpair : NoDup [base; wildcard inst]).
  { constructor; [|apply NoDup_singleton]. by rewrite list_elem_of_singleton. }
  destruct (nested base inst); cbn [negb andb].
  - assert (Hu : under inst base) by (by apply Hn).
    rewrite !Exists_cons, Exists_nil, covers_plain, covers_wildcard by done. split_and!; [naive_solver|tauto|done|done].
  - assert (Hu : ~ under inst base) by (by intros H%Hn). destruct (decide (base = inst)) as [->|Hne].
    + rewrite bool_decide_eq_true_2 by (by apply Hw). cbn [negb]. rewrite !Exists_cons, Exists_nil, covers_plain, covers_wildcard by done.
      split_and!; [naive_solver|tauto|done|done].
    + rewrite bool_decide_eq_false_2 by (by intros H%Hw). cbn [negb].
      rewrite !Exists_app, !Exists_cons, !Exists_nil, covers_plain, !covers_wildcard by done. split_and!; [naive_solver|done|tauto|].
      apply NoDup_app. split; [done|]. split; [|apply NoDup_singleton]. intros x Hx. rewrite list_elem_of_singleton. intros ->.
      by apply Hw in Hx.
Qed.
Lemma certificate_covers_witness :
  domains "bento.foid.space" "foid.space" = ["bento.foid.space"; "*.foid.space"] /\
  Exists (fun subject => covers subject "web.foid.space") (domains "bento.foid.space" "foid.space").
Proof.
  split; [reflexivity|]. apply (certificate_covers "bento.foid.space" "foid.space" "web.foid.space"); [reflexivity|].
  right; left. exists "web". split; [reflexivity|]. split; [discriminate|reflexivity].
Defined.

(** ** A deployment *)

Definition two_domain_config : Config := mkConfig "foid.space" "bento.foid.space" "ops@foid.space" true "/var/lib/bento/tls" EmptyString 0.
Definition two_domain_manager : Manager :=
  mkManager "bento.foid.space" ["bento.foid.space"; "*.foid.space"] "ops@foid.space" "/var/lib/bento/tls" LETS_ENCRYPT_PRODUCTION DEFAULT_PROPAGATION_TIMEOUT.
Lemma wildcard_challenge_misplaced_witness :
  "*.foid.space" ∈ m_domains two_domain_manager /\
  always (issue (Key := unit) (CertifiedKey := unit) (Account := unit) (Order := unit) (Request := unit)
            (fun _ => Ok (Some LETS_ENCRYPT_PRODUCTION)) (fun _ => []) 1 two_domain_manager 3)
    (fun tr _ => "_acme-challenge.foid.space" ∉ challenge_names tr).
Proof.
  exact (wildcard_challenge_misplaced (fun _ => Ok (Some LETS_ENCRYPT_PRODUCTION)) (fun _ => []) 1 two_domain_manager two_domain_config 3
           eq_refl ltac:(discriminate) ltac:(discriminate)).
Defined.
