(* ===== verification/Cloudflare.v ===== *)
(** * Cloudflare: the DNS provider, [crates/tlscert/src/cloudflare.rs]

    The three operations of [DnsProvider] over the Cloudflare API and its DNS
    resolver, which are the calls of [cfcall]; an answer is the parsed body.
    Every run of the zone search asks for the domain and then for its parents,
    and ends. *)

From Stdlib Require Import ZArith Lia Ascii.
From S2P Require Import Prelude Text Prog TlsCert.
Open Scope Z_scope.

(** [Envelope] and [into_result]. *)
Record Envelope (A : Type) : Type := mkEnvelope { en_success : bool; en_result : A; en_errors : list (Z * string) }.
Arguments mkEnvelope {A}. Arguments en_success {A}. Arguments en_result {A}. Arguments en_errors {A}.
Definition into_result {A} (e : Envelope A) : result string A :=
  if en_success e then Ok (en_result e)
  else Err ("Cloudflare API error: " +:+ join ", " ((fun '(code, message) => dec code +:+ ": " +:+ message) <$> en_errors e)).

(** [DnsJsonResponse]: a status, and answers of a type with their data. *)
Record DnsJsonResponse : Type := mkDnsJsonResponse { dj_status : Z; dj_answer : option (list (Z * string)) }.

Inductive cfcall : Type -> Type :=
  | CfZones (name : string) : cfcall (result string (Envelope (list string)))   (* active zones of a name *)
  | CfCreate (zone name content : string) (ttl : Z) : cfcall (result string (Envelope string))
  | CfDelete (zone id : string) : cfcall (result string (Envelope string))
  | CfTxt (name : string) : cfcall (result string DnsJsonResponse)
  | CfNow : cfcall Z
  | CfSleep (delay : Z) : cfcall unit.

(** [ProviderError] is a text; [Unfinished] is a run the model's fuel cuts short. *)
Inductive CfError : Type := Failed (message : string) | Unfinished.
Definition P (A : Type) : Type := fallible cfcall CfError A.
#[local] Instance P_ret : MRet P := fallible_ret.
#[local] Instance P_bind : MBind P := fallible_bind.
(** [.send().await?.json().await?] and [into_result()?]. *)
Definition api {A} (c : cfcall (result string (Envelope A))) : P A :=
  response ← ask c Failed;
  pure_res (map_err Failed (into_result response)).

(** The zone search: a domain, then its parent, until one has a zone. *)
Fixpoint find_zone_from (fuel : nat) (base_domain candidate : string) : P string :=
  match fuel with
  | O => throw Unfinished
  | S fuel =>
      zones ← api (CfZones candidate);
      match last zones with
      | Some zone => mret zone
      | None =>
          match split_once "." candidate with
          | None => throw (Failed ("Cloudflare has no active zone containing " +:+ base_domain))
          | Some (_, parent) => find_zone_from fuel base_domain parent
          end
      end
  end.
Definition find_zone (base_domain : string) : P string := find_zone_from (S (String.length base_domain)) base_domain base_domain.

Definition quote : ascii := ascii_of_code 34.
Definition txt_data (data : string) : string :=
  match strip_prefix (String quote EmptyString) data with
  | Some value => default data (strip_suffix (String quote EmptyString) value)
  | None => data
  end.
Definition txt_is_visible (name value : string) : P bool :=
  response ← ask (CfTxt name) Failed;
  if negb (dj_status response =? 0) then mret false
  else mret (existsb (fun '(record_type, data) => (record_type =? 16) && bool_decide (txt_data data = value)) (default [] (dj_answer response))).

Definition present (base_domain name value : string) : P DnsRecord :=
  zone ← find_zone base_domain;
  record ← api (CfCreate zone name value 60);
  mret (mkDnsRecord zone record name value).

(** The loop of [wait_for_propagation]. *)
Fixpoint wait_until (fuel : nat) (record : DnsRecord) (deadline : Z) : P unit :=
  match fuel with
  | O => throw Unfinished
  | S fuel =>
      visible ← txt_is_visible (rec_name record) (rec_value record);
      if (visible : bool) then mret tt
      else
        now ← (get CfNow : P Z);
        if deadline <=? now then throw (Failed ("timed out waiting for TXT record " +:+ rec_name record +:+ " to propagate"))
        else
          now ← (get CfNow : P Z);
          _ ← (get (CfSleep (Z.min (2 * SECOND) (Z.max 0 (deadline - now)))) : P unit);
          wait_until fuel record deadline
  end.
Definition wait_for_propagation (fuel : nat) (record : DnsRecord) (timeout : Z) : P unit :=
  now ← (get CfNow : P Z);
  wait_until fuel record (now + timeout).

Definition cleanup (record : DnsRecord) : P unit :=
  deleted ← api (CfDelete (provider_scope record) (provider_id record));
  if negb (bool_decide (deleted = provider_id record)) then throw (Failed "Cloudflare deleted an unexpected DNS record") else mret tt.

(** ** The zone search *)

(** The names a search asked for. *)
Definition asked_zones (tr : list (event cfcall)) : list string :=
  omap (fun e => match ev_call e with CfZones name => Some name | _ => None end) tr.

(** A domain and its parents, nearest first. *)
Fixpoint parents (fuel : nat) (domain : string) : list string :=
  match fuel with
  | O => []
  | S fuel => domain :: match split_once "." domain with Some (_, parent) => parents fuel parent | None => [] end
  end.
Lemma split_once_shorter c s a b : split_once c s = Some (a, b) -> (String.length b < String.length s)%nat.
Proof.
  revert a. induction s as [|x s IH]; intros a; cbn [split_once]; [done|]. destruct (Ascii.eqb x c); [intros [= _ <-]; cbn; lia|].
  destruct (split_once c s) as [[a' b']|]; [|done]. intros [= _ <-]. specialize (IH a' eq_refl). cbn. lia.
Qed.

(** C38. The zone search ends: in every run it asks for the domain, then for
    its parents one label shorter each, each at most once and in that order, and
    it never runs out of steps. *)
Theorem find_zone_ends (base_domain : string) : always (find_zone base_domain) (fun tr r =>
  asked_zones tr `prefix_of` parents (S (String.length base_domain)) base_domain /\ r <> Err Unfinished).
Proof.
  unfold find_zone. generalize (Nat.lt_succ_diag_r (String.length base_domain)). generalize (S (String.length base_domain)).
  intros fuel. generalize base_domain at 1 3 4. induction fuel as [|fuel IH]; intros candidate Hl; [lia|].
  cbn [find_zone_from parents]. apply always_fallible. apply always_fallible.
  assert (Hone : forall r l, asked_zones [mkEvent (CfZones candidate) r] `prefix_of` candidate :: l) by (intros r l; by exists l).
  intros [response|e]; cbn [map_err always]; [|by split]. cbn [pure_res always].
  destruct (into_result response) as [zones|e]; cbn [map_err]; [|split; [apply Hone|done]].
  destruct (last zones) as [zone|]; [split; [apply Hone|done]|].
  destruct (split_once "." candidate) as [[label parent]|] eqn:Hs; [|split; [apply Hone|done]].
  apply split_once_shorter in Hs. eapply always_mono; [|apply IH; lia]. intros tr r [Hp Hr]. split; [|done].
  by apply prefix_cons.
Qed.
