(* ===== verification/HostCheck.v ===== *)
(** * HostCheck: what a machine must have, [crates/hypervisor/src/check.rs]

    The requirement checks of a start, over the injected [CheckDeps]: what the
    machine answers while the checks run.  Paths and errors are texts. *)

From Stdlib Require Import ZArith Lia.
From S2P Require Import Prelude Text.
Open Scope Z_scope.

Definition DEFAULT_KVM_PATH : string := "/dev/kvm".
Definition DEFAULT_KSM_RUN_PATH : string := "/sys/kernel/mm/ksm/run".
Definition DEFAULT_NESTED_PATHS : list string :=
  ["/sys/module/kvm_intel/parameters/nested"; "/sys/module/kvm_amd/parameters/nested"].
Definition DEFAULT_SOCKET_PATH : string := "/var/run/libvirt/libvirt-sock".

Inductive FileKind : Type := File | Directory.
#[global] Instance FileKind_eq_dec : EqDecision FileKind.
Proof. solve_decision. Defined.

Record CheckConfig : Type := mkCheckConfig {
  kvm_path : string; socket_path : string; image_dir : string; storage_dir : string; container_storage : string;
  podman_required : bool; ksm_run_path : string; nested_paths : list string; nested_wanted : bool
}.
Definition or_default (path fallback : string) : string := if bool_decide (path = EmptyString) then fallback else path.
Definition with_defaults (c : CheckConfig) : CheckConfig :=
  mkCheckConfig (or_default (kvm_path c) DEFAULT_KVM_PATH) (or_default (socket_path c) DEFAULT_SOCKET_PATH) (image_dir c) (storage_dir c)
    (container_storage c) (podman_required c) (or_default (ksm_run_path c) DEFAULT_KSM_RUN_PATH)
    (if bool_decide (nested_paths c = []) then DEFAULT_NESTED_PATHS else nested_paths c) (nested_wanted c).

(** [CheckDeps]; a file's contents are its text. *)
Record CheckDeps : Type := mkCheckDeps {
  stat : string -> result string FileKind;
  read_file : string -> result string string;
  look_path : string -> result string string;
  write_probe : string -> result string unit;
  ping_libvirt : string -> result string unit
}.

Record CheckResult : Type := mkCheckResult { cr_name : string; cr_ok : bool; cr_fatal : bool; cr_detail : string }.
(** [CheckReport::ok] and [warnings]. *)
Definition report_ok (results : list CheckResult) : bool := forallb (fun r => negb (cr_fatal r) || cr_ok r) results.
Definition warnings (results : list CheckResult) : list CheckResult :=
  List.filter (fun r => negb (cr_fatal r) && negb (cr_ok r)) results.

Definition check_result (name : string) (fatal : bool) (outcome : result string unit) (ok_detail : string) : CheckResult :=
  match outcome with
  | Ok _ => mkCheckResult name true fatal ok_detail
  | Err error => mkCheckResult name false fatal error
  end.
Definition drop_value {A} (r : result string A) : result string unit := match r with Ok _ => Ok tt | Err e => Err e end.

Section Check.
Context (deps : CheckDeps).

Definition check_binary (binary : string) (fatal : bool) : CheckResult :=
  let found := look_path deps binary in
  check_result (binary +:+ " binary") fatal (drop_value found) (match found with Ok path => path | Err _ => EmptyString end).
(** A directory exists; when it does, it is written to. *)
Definition stat_directory (directory : string) : result string unit :=
  kind ← stat deps directory;
  if bool_decide (kind = Directory) then Ok tt else Err (directory +:+ " is not a directory").
Definition check_directory (name directory : string) (fatal : bool) : list CheckResult :=
  let stat := stat_directory directory in
  check_result name fatal stat directory ::
  match stat with
  | Ok _ => [check_result (name +:+ " writable") fatal (write_probe deps directory) directory]
  | Err _ => []
  end.

Definition check_ksm (config : CheckConfig) : CheckResult :=
  match read_file deps (ksm_run_path config) with
  | Err error => mkCheckResult "ksm run" false false ("read " +:+ ksm_run_path config +:+ ": " +:+ error)
  | Ok raw =>
      let value := trim raw in
      if bool_decide (value = "0") then
        mkCheckResult "ksm run" false false (ksm_run_path config +:+ " is 0; set it to 1 or run ksmtuned (SPEC 5.4)")
      else mkCheckResult "ksm run" true false (ksm_run_path config +:+ " = " +:+ value)
  end.

Inductive NestedState : Type := On (path : string) | Off (path : string) | Missing.
Definition is_enabled (s : NestedState) : bool := match s with On _ => true | _ => false end.
(** The first parameter that can be read decides. *)
Fixpoint nested_of (paths : list string) : NestedState :=
  match paths with
  | [] => Missing
  | path :: paths =>
      match read_file deps path with
      | Ok raw => let value := trim raw in if bool_decide (value = "1") || eq_ignore_ascii_case value "Y" then On path else Off path
      | Err _ => nested_of paths
      end
  end.
Definition nested_enabled (config : CheckConfig) : NestedState := nested_of (nested_paths (with_defaults config)).
Definition check_nested (config : CheckConfig) : CheckResult :=
  match nested_enabled config with
  | On path => mkCheckResult "nested virtualization" true false (path +:+ " is on")
  | Off path =>
      mkCheckResult "nested virtualization" false false
        (path +:+ " is off; instances request nested virtualization (set kvm_intel.nested=1 or kvm_amd.nested=1)")
  | Missing =>
      mkCheckResult "nested virtualization" false false "no kvm nested parameter found; load kvm_intel.nested=1 or kvm_amd.nested=1"
  end.

Definition check (config : CheckConfig) : list CheckResult :=
  let config := with_defaults config in
  [check_result "kvm device" true (drop_value (stat deps (kvm_path config))) (kvm_path config);
   check_result "libvirtd socket" true (ping_libvirt deps (socket_path config)) (socket_path config)] ++
  ((fun binary => check_binary binary true) <$> ["qemu-img"; "xorriso"]) ++
  [check_binary "podman" (podman_required config)] ++
  check_directory "image directory" (image_dir config) true ++
  check_directory "storage directory" (storage_dir config) true ++
  (if bool_decide (container_storage config = EmptyString) then []
   else check_directory "container storage directory" (container_storage config) (podman_required config)) ++
  [check_ksm config] ++ (if nested_wanted config then [check_nested config] else []).

(** ** What a start requires *)

Definition works {A} (r : result string A) : Prop := exists a, r = Ok a.
(** A directory that can be written to. *)
Definition usable (directory : string) : Prop := stat deps directory = Ok Directory /\ write_probe deps directory = Ok tt.

Lemma report_ok_app a b : report_ok (a ++ b) = report_ok a && report_ok b.
Proof. apply forallb_app. Qed.
Lemma fatal_ok name fatal (r : result string unit) detail : report_ok [check_result name fatal r detail] = true <-> (fatal = true -> works r).
Proof. unfold works. destruct r as [[]|e], fatal; cbn; naive_solver. Qed.
Lemma binary_ok binary fatal : report_ok [check_binary binary fatal] = true <-> (fatal = true -> works (look_path deps binary)).
Proof. unfold check_binary. rewrite fatal_ok. unfold works, drop_value. destruct (look_path deps binary); naive_solver. Qed.
Lemma directory_ok name directory fatal : report_ok (check_directory name directory fatal) = true <-> (fatal = true -> usable directory).
Proof.
  unfold check_directory, usable, stat_directory. destruct (stat deps directory) as [[]|e]; cbn [mbind result_bind].
  - rewrite bool_decide_eq_false_2 by done. destruct fatal; cbn; naive_solver.
  - rewrite bool_decide_eq_true_2 by done. cbn [report_ok check_result forallb]. destruct (write_probe deps directory) as [[]|e], fatal; cbn; naive_solver.
  - destruct fatal; cbn; naive_solver.
Qed.

(** A start is allowed exactly when the machine has what it needs: the KVM
    device and the libvirt socket answer, [qemu-img] and [xorriso] are
    installed, the image and the storage directory are writable directories
    and, when OCI images are configured, [podman] is installed and its storage,
    when one is set, is a writable directory.  KSM and nested virtualization
    never decide. *)
Theorem start_allowed (config : CheckConfig) :
  report_ok (check config) = true <->
  works (stat deps (kvm_path (with_defaults config))) /\ ping_libvirt deps (socket_path (with_defaults config)) = Ok tt /\
  works (look_path deps "qemu-img") /\ works (look_path deps "xorriso") /\
  usable (image_dir config) /\ usable (storage_dir config) /\
  (podman_required config = true -> works (look_path deps "podman") /\
     (container_storage config <> EmptyString -> usable (container_storage config))).
Proof.
  unfold check. cbn [fmap list_fmap]. set (c := with_defaults config).
  change [check_result "kvm device" true ?a ?b; ?x] with ([check_result "kvm device" true a b] ++ [x]).
  change [check_binary ?a ?f; ?y] with ([check_binary a f] ++ [y]).
  rewrite !report_ok_app, !andb_true_iff, !fatal_ok, !binary_ok, !directory_ok.
  change (image_dir c) with (image_dir config). change (storage_dir c) with (storage_dir config).
  change (podman_required c) with (podman_required config). change (container_storage c) with (container_storage config).
  assert (Hk : works (drop_value (stat deps (kvm_path c))) <-> works (stat deps (kvm_path c))).
  { unfold works, drop_value. destruct (stat deps (kvm_path c)); naive_solver. }
  assert (Hp : works (ping_libvirt deps (socket_path c)) <-> ping_libvirt deps (socket_path c) = Ok tt).
  { unfold works. destruct (ping_libvirt deps (socket_path c)) as [[]|]; naive_solver. }
  assert (Hs : report_ok (if bool_decide (container_storage config = EmptyString) then []
    else check_directory "container storage directory" (container_storage config) (podman_required config)) = true <->
    (podman_required config = true -> container_storage config <> EmptyString -> usable (container_storage config))).
  { case_bool_decide; [naive_solver|]. rewrite directory_ok. naive_solver. }
  assert (Hksm : report_ok [check_ksm c] = true) by (unfold check_ksm; cbv zeta; destruct (read_file _ _) as [raw|]; [destruct (bool_decide (trim raw = "0"))|]; done).
  assert (Hn : report_ok (if nested_wanted c then [check_nested c] else []) = true).
  { destruct (nested_wanted c); [|done]. unfold check_nested. by destruct (nested_enabled c). }
  rewrite Hk, Hp, Hs, Hksm, Hn. naive_solver.
Qed.
End Check.
