(* ===== verification/CloudInit.v ===== *)
(** * CloudInit: the seed of a new machine, [crates/cloudinit/src/seed.rs], [builder.rs]

    The checks of a [Seed], the three NoCloud files it is rendered to and how
    the ISO is built.  A text is its UTF-8 bytes.  What a file contains is read
    back line by line and scalar by scalar. *)

From Stdlib Require Import ZArith Lia Ascii.
From S2P Require Import Prelude Text Ipv4 Ip Fence Prog.
Open Scope Z_scope.

Definition DAMON_UNIT_PATH : string := "/etc/systemd/system/bento-damon-reclaim.service".

(** [Error]. *)
Inductive SeedError : Type :=
  | Invalid (message : string)
  | CreateStaging (source : string)
  | WriteFailed (name source : string)
  | Xorriso (output : string)
  | DeleteFailed (source : string).

(** ** Checks *)

Definition is_control (c : ascii) : bool := (ascii_code c <? 32) || (ascii_code c =? 127).
Definition single_line (name value : string) : result SeedError unit :=
  if str_all (fun c => negb (is_control c)) value then Ok tt else Err (Invalid (name +:+ " contains a control character")).

(** [u8::from_str_radix(_, 16)] of two bytes: a plus sign may stand before the digit. *)
Definition hex_pair (a b : ascii) : option Z :=
  match (if Ascii.eqb a "+" then Some 0 else digit_in 16 a), digit_in 16 b with
  | Some high, Some low => Some (high * 16 + low)
  | _, _ => None
  end.
Fixpoint parse_hex_pairs (l : list ascii) : result string (list Z) :=
  match l with
  | [] => Ok []
  | [_] => Err "invalid length"
  | a :: b :: l =>
      rest ← parse_hex_pairs l;
      match hex_pair a b with Some byte => Ok (byte :: rest) | None => Err "invalid hexadecimal digit" end
  end.
Definition grouped (value : string) (separator : ascii) (counts : list nat) (size : nat) : result string (list Z) :=
  let groups := split_on separator value in
  if negb (bool_decide (length groups ∈ counts)) || negb (forallb (fun g => (String.length g =? size)%nat) groups) then Err "invalid format"
  else parse_hex_pairs (mjoin (chars <$> groups)).
Definition mac_bytes (value : string) : result string (list Z) :=
  if bool_decide (chars value !! 4%nat = Some "."%char) then grouped value "." [3; 4; 10]%nat 4
  else if bool_decide (chars value !! 2%nat = Some ":"%char) then grouped value ":" [6; 8; 20]%nat 2
  else if bool_decide (chars value !! 2%nat = Some "-"%char) then grouped value "-" [6; 8; 20]%nat 2
  else if negb (bool_decide (String.length value ∈ [12; 16; 40]%nat)) then Err "invalid format"
  else parse_hex_pairs (chars value).
Definition parse_mac (value : string) : result string string :=
  bytes ← mac_bytes value;
  Ok (join ":" (hex2 <$> bytes)).

Definition parse_prefix (value : string) : result string unit :=
  '(address, bits) ← ok_or (rsplit_once "/" value) "missing prefix length";
  address ← ok_or (parse_ip address) "invalid IP address";
  if bool_decide (bits = EmptyString) ||
     ((1 <? str_len bits) && negb (match bits with String c _ => in_range "1" "9" c | EmptyString => false end)) ||
     negb (str_all is_ascii_digit bits) then Err "invalid prefix length"
  else
    bits ← ok_or (parse_uint 65535 bits) "invalid prefix length";
    let max_bits := match address with V4 _ => 32 | V6 _ => 128 end in
    if max_bits <? bits then Err "prefix length out of range" else Ok tt.
Definition parse_addr (value : string) : result string unit :=
  match parse_ip value with
  | Some _ => Ok tt
  | None =>
      '(address, zone) ← ok_or (split_once "%" value) "invalid IP address";
      if bool_decide (zone = EmptyString) || negb (match read_ipv6_addr (chars address) with Some (_, []) => true | _ => false end)
      then Err "invalid IP address" else Ok tt
  end.

Definition check_required (name value : string) : result SeedError unit :=
  if bool_decide (value = EmptyString) then Err (Invalid (name +:+ " is empty")) else single_line name value.
Definition has_blank (value : string) : bool := contains_char " " value || contains_char (ascii_of_code 9) value.
Fixpoint check_keys (keys : list string) : result SeedError unit :=
  match keys with
  | [] => Ok tt
  | key :: keys =>
      if bool_decide (trim_white key = EmptyString) then Err (Invalid "empty authorized key")
      else _ ← single_line "authorized key" key; check_keys keys
  end.
Definition explained {A} (what value : string) (r : result string A) : result SeedError A :=
  map_err (fun reason => Invalid ("invalid " +:+ what +:+ " " +:+ debug value +:+ ": " +:+ reason)) r.
Definition validate (self : Seed) : result SeedError unit :=
  _ ← check_required "instance id" (sd_instance_id self);
  _ ← check_required "hostname" (sd_hostname self);
  _ ← check_required "user name" (sd_user_name self);
  if has_blank (sd_hostname self) then Err (Invalid ("hostname " +:+ debug (sd_hostname self) +:+ " contains whitespace"))
  else if has_blank (sd_user_name self) then Err (Invalid ("user name " +:+ debug (sd_user_name self) +:+ " contains whitespace"))
  else if bool_decide (sd_authorized_keys self = []) then Err (Invalid "no authorized keys; the instance would be unreachable")
  else
    _ ← check_keys (sd_authorized_keys self);
    _ ← explained "MAC address" (sd_mac self) (parse_mac (sd_mac self));
    _ ← map_err (fun reason => Invalid ("invalid address " +:+ debug (sd_address_cidr self) +:+ " (want address/prefix): " +:+ reason))
      (parse_prefix (sd_address_cidr self));
    _ ← explained "gateway" (sd_gateway self) (parse_addr (sd_gateway self));
    _ ← explained "DNS server" (sd_dns self) (parse_addr (sd_dns self));
    Ok tt.

(** ** Rendering *)

Definition QUOTE : ascii := ascii_of_code 34.
Definition BACKSLASH : ascii := ascii_of_code 92.
Definition NEWLINE : ascii := ascii_of_code 10.
Fixpoint escaped (value : string) : string :=
  match value with
  | EmptyString => EmptyString
  | String c value =>
      if Ascii.eqb c BACKSLASH || Ascii.eqb c QUOTE then String BACKSLASH (String c (escaped value)) else String c (escaped value)
  end.
Definition quote (value : string) : string := String QUOTE (escaped value +:+ String QUOTE EmptyString).
Definition quoted (s : string) : string := String QUOTE (s +:+ String QUOTE EmptyString).

(** What [push_str] and [writeln!] write, line by line. *)
Fixpoint unlines (l : list string) : string :=
  match l with [] => EmptyString | line :: l => line +:+ String NEWLINE (unlines l) end.

Section Unit.
(** The unit file compiled into the program. *)
Context (DAMON_UNIT : string).

Definition write_file (path permissions content : string) : list string :=
  ["  - path: " +:+ quote path; "    owner: " +:+ quoted "root:root"; "    permissions: " +:+ quote permissions; "    content: |"] ++
  ((fun line => if bool_decide (line = EmptyString) then EmptyString else "      " +:+ line) <$> lines content).

Definition meta_lines (self : Seed) : list string :=
  ["instance-id: " +:+ quote (sd_instance_id self); "local-hostname: " +:+ quote (sd_hostname self)].
Definition meta_data (self : Seed) : result SeedError string := _ ← validate self; Ok (unlines (meta_lines self)).

Definition user_lines (self : Seed) : list string :=
  ["#cloud-config"; "hostname: " +:+ quote (sd_hostname self); "users:"; "  - name: " +:+ quote (sd_user_name self);
   "    shell: /bin/bash"; "    lock_passwd: true"; "    sudo: " +:+ quoted "ALL=(ALL) NOPASSWD:ALL"; "    ssh_authorized_keys:"] ++
  ((fun key => "      - " +:+ quote (trim_white key)) <$> sd_authorized_keys self) ++
  (if sd_install_guest_agent self then ["package_update: true"; "packages:"; "  - qemu-guest-agent"] else []) ++
  ["write_files:"] ++ write_file DAMON_UNIT_PATH "0644" DAMON_UNIT ++
  ["runcmd:"; "  - [systemctl, enable, --now, qemu-guest-agent]"; "  - [systemctl, daemon-reload]";
   "  - [systemctl, enable, --now, bento-damon-reclaim.service]"].
Definition user_data (self : Seed) : result SeedError string := _ ← validate self; Ok (unlines (user_lines self)).

Definition network_lines (self : Seed) (mac : string) : list string :=
  ["version: 2"; "ethernets:"; "  primary:"; "    match:"; "      macaddress: " +:+ quote mac; "    addresses:";
   "      - " +:+ quote (sd_address_cidr self); "    routes:"; "      - to: " +:+ quoted "0.0.0.0/0";
   "        via: " +:+ quote (sd_gateway self); "    nameservers:"; "      addresses:"; "        - " +:+ quote (sd_dns self)].
Definition network_config (self : Seed) : result SeedError string :=
  _ ← validate self;
  mac ← explained "MAC address" (sd_mac self) (parse_mac (sd_mac self));
  Ok (unlines (network_lines self mac)).

(** ** The ISO: [builder.rs] *)

Inductive bcall : Type -> Type :=
  | BTempDir : bcall (result string string)                                            (* removed when the build is over *)
  | BWrite (path contents : string) : bcall (result string unit)                       (* a new file, mode 600 *)
  | BRun (program : string) (args : list string) : bcall (result string string)        (* the output, also of a failure *)
  | BRemove (path : string) : bcall (option (option string)).                          (* no error; not found; another error *)
Definition B (A : Type) : Type := fallible bcall SeedError A.
#[local] Instance B_ret : MRet B := fallible_ret.
#[local] Instance B_bind : MBind B := fallible_bind.

Definition write_seed_file (directory name contents : string) : B unit :=
  ask (BWrite (directory +:+ "/" +:+ name) contents) (WriteFailed name).
Definition build (self : Seed) (xorriso iso_path : string) : B unit :=
  meta ← (pure_res (meta_data self) : B string);
  user ← (pure_res (user_data self) : B string);
  network ← (pure_res (network_config self) : B string);
  directory ← ask BTempDir CreateStaging;
  _ ← write_seed_file directory "meta-data" meta;
  _ ← write_seed_file directory "user-data" user;
  _ ← write_seed_file directory "network-config" network;
  _ ← ask (BRun xorriso ["-as"; "mkisofs"; "-output"; iso_path; "-volid"; "cidata"; "-joliet"; "-rational-rock"; directory]) Xorriso;
  mret tt.
Definition delete (iso_path : string) : B unit :=
  Call (BRemove iso_path) (fun r => Ret (match r with Some (Some e) => Err (DeleteFailed e) | _ => Ok tt end)).
End Unit.
