(* ===== verification/HostInfo.v ===== *)
(** * HostInfo: what a machine says of itself, [crates/hostinfo/src/lib.rs]

    The identity of a machine and the figures of [/proc], parsed from text.
    Reading a file is a function from its path; [u64] arithmetic that the code
    does not guard wraps, as in a release build. *)

From Stdlib Require Import ZArith Lia Ascii.
From S2P Require Import Prelude Text Float64 Machine.
Open Scope Z_scope.

Definition MACHINE_ID_FILE : string := "/etc/machine-id".
Definition DBUS_MACHINE_ID_FILE : string := "/var/lib/dbus/machine-id".

(** ** Identity *)

Definition is_ascii_hexdigit (c : ascii) : bool := is_ascii_digit c || in_range "a" "f" c || in_range "A" "F" c.
Definition parse_machine_id (text : string) : option string :=
  let id := trim_white text in
  let shaped := (str_len id =? 32) && str_all is_ascii_hexdigit id in
  if shaped && str_all (fun c => negb (in_range "A" "Z" c)) id then Some id else None.

(** A file: its text, or whether it is missing. *)
Inductive file : Type := Contents (text : string) | NotFound | Unreadable (error : string).
Definition files : Type := string -> file.
Inductive IdError : Type := ReadError (error : string) | NoMachineId.
(** The loop of [read_machine_id]. *)
Fixpoint machine_id_in (read : files) (paths : list string) : result IdError string :=
  match paths with
  | [] => Err NoMachineId
  | path :: paths =>
      match read path with
      | Contents text => match parse_machine_id text with Some id => Ok id | None => machine_id_in read paths end
      | NotFound => machine_id_in read paths
      | Unreadable e => Err (ReadError e)
      end
  end.
Definition read_machine_id (read : files) : result IdError string := machine_id_in read [MACHINE_ID_FILE; DBUS_MACHINE_ID_FILE].
Definition read_hostname (read : files) : string :=
  match read "/proc/sys/kernel/hostname" with
  | Contents text => let name := trim_white text in if bool_decide (name = EmptyString) then "localhost" else name
  | _ => "localhost"
  end.
Definition read_boot_id (read : files) : string :=
  match read "/proc/sys/kernel/random/boot_id" with Contents text => trim_white text | _ => EmptyString end.

(** ** Processor time *)

Record CpuTimes : Type := mkCpuTimes { cpu_total : Z; cpu_idle : Z }.
Definition wrap (z : Z) : Z := z mod 2 ^ 64.
Definition parse_cpu (stat : string) : option CpuTimes :=
  line ← List.find (starts_with "cpu ") (Text.lines stat);
  let fields := omap (parse_uint u64_max) (tail (split_whitespace line)) in
  match fields with
  | _ :: _ :: _ :: idle :: iowait :: _ => Some (mkCpuTimes (wrap (foldr Z.add 0 fields)) (wrap (idle + iowait)))
  | _ => None
  end.
Definition checked_sub (a b : Z) : option Z := if b <=? a then Some (a - b) else None.
(** [f64::clamp(0.0, 1.0)]. *)
Definition clamp01 (x : f64) : f64 := if flt x (of_int 0) then of_int 0 else if flt (of_int 1) x then of_int 1 else x.
Definition busy_fraction (before after : CpuTimes) : option f64 :=
  total ← checked_sub (cpu_total after) (cpu_total before);
  idle ← checked_sub (cpu_idle after) (cpu_idle before);
  if total =? 0 then None else Some (clamp01 (div (of_int (u64_saturating_sub total idle)) (of_int total))).

(** ** Memory and disks *)

Record Memory : Type := mkMemory { mem_total : Z; mem_available : Z; swap_total : Z; swap_free : Z }.
Definition memory_used (m : Memory) : Z := u64_saturating_sub (mem_total m) (mem_available m).
Definition swap_used (m : Memory) : Z := u64_saturating_sub (swap_total m) (swap_free m).
Definition saturating_mul (a b : Z) : Z := Z.min u64_max (a * b).
Definition meminfo_line (m : Memory) (line : string) : Memory :=
  match split_once ":" line with
  | None => m
  | Some (key, rest) =>
      match head (split_whitespace rest) ≫= parse_uint u64_max with
      | None => m
      | Some kib =>
          let bytes := saturating_mul kib 1024 in
          if bool_decide (key = "MemTotal") then mkMemory bytes (mem_available m) (swap_total m) (swap_free m)
          else if bool_decide (key = "MemAvailable") then mkMemory (mem_total m) bytes (swap_total m) (swap_free m)
          else if bool_decide (key = "SwapTotal") then mkMemory (mem_total m) (mem_available m) bytes (swap_free m)
          else if bool_decide (key = "SwapFree") then mkMemory (mem_total m) (mem_available m) (swap_total m) bytes
          else m
      end
  end.
Definition parse_meminfo (meminfo : string) : Memory := foldl meminfo_line (mkMemory 0 0 0 0) (Text.lines meminfo).
Record Disk : Type := mkDisk { disk_total : Z; disk_available : Z }.
Definition disk_used (d : Disk) : Z := u64_saturating_sub (disk_total d) (disk_available d).
(** [disk_usage] from the figures of [statvfs]. *)
Definition disk_of (f_frsize f_blocks f_bavail : Z) : Disk := mkDisk (saturating_mul f_frsize f_blocks) (saturating_mul f_frsize f_bavail).

(** ** An identity is never shared by mistake *)

Definition lower_hex (c : ascii) : bool := is_ascii_digit c || in_range "a" "f" c.
Lemma lower_hex_spec c : is_ascii_hexdigit c && negb (in_range "A" "Z" c) = lower_hex c.
Proof. by destruct c as [[] [] [] [] [] [] [] []]. Qed.
Lemma str_all_andb p q s : str_all (fun c => p c && q c) s = str_all p s && str_all q s.
Proof. induction s as [|c s IH]; [done|]. cbn. rewrite IH. by destruct (p c), (q c), (str_all p s), (str_all q s). Qed.
Lemma str_all_ext p q s : (forall c, p c = q c) -> str_all p s = str_all q s.
Proof. intros H. induction s as [|c s IH]; [done|]. cbn. by rewrite H, IH. Qed.

(** The text of a machine-id file holds an identity exactly when it is 32 lower-case hexadecimal digits. *)
Lemma parse_machine_id_spec text id :
  parse_machine_id text = Some id <-> id = trim_white text /\ str_len id = 32 /\ str_all lower_hex id = true.
Proof.
  assert (Hl : forall s, str_all lower_hex s = str_all is_ascii_hexdigit s && str_all (fun c => negb (in_range "A" "Z" c)) s).
  { intros s. rewrite <-str_all_andb. apply str_all_ext. intros c. by rewrite lower_hex_spec. }
  unfold parse_machine_id. cbv zeta. split.
  - intros H. destruct (Z.eqb_spec (str_len (trim_white text)) 32) as [Hn|]; cbn [andb] in H; [|done].
    rewrite <-Hl in H. destruct (str_all lower_hex (trim_white text)) eqn:Ha; [|done]. injection H as <-. done.
  - intros (-> & Hn & Ha). rewrite Hn. rewrite Hl in Ha. apply andb_true_iff in Ha as [-> ->]. done.
Qed.

(** The identity of a machine comes from its own files: [read_machine_id]
    answers 32 lower-case hexadecimal digits that the first of the two files
    with an identity holds, every file before it being missing or holding none;
    it fails when neither holds one, and when a file cannot be read. *)
Theorem machine_id_own (read : files) (id : string) :
  read_machine_id read = Ok id <->
  exists before path after text, [MACHINE_ID_FILE; DBUS_MACHINE_ID_FILE] = before ++ path :: after /\
    read path = Contents text /\ id = trim_white text /\ str_len id = 32 /\ str_all lower_hex id = true /\
    Forall (fun p => read p = NotFound \/ exists t, read p = Contents t /\ parse_machine_id t = None) before.
Proof.
  unfold read_machine_id. generalize [MACHINE_ID_FILE; DBUS_MACHINE_ID_FILE]. intros paths.
  induction paths as [|path paths IH]; cbn [machine_id_in].
  { split; [done|]. intros (before & p & after & t & He & _). by destruct before. }
  split.
  - destruct (read path) as [text| |e] eqn:Hr; [destruct (parse_machine_id text) as [i|] eqn:Hp| |done].
    + intros [= ->]. apply parse_machine_id_spec in Hp as (-> & Hn & Ha). exists [], path, paths, text. done.
    + intros (before & p & after & t & -> & H1 & H2 & H3 & H4 & H5)%IH. exists (path :: before), p, after, t. split_and!; try done.
      constructor; [right; by exists text|done].
    + intros (before & p & after & t & -> & H1 & H2 & H3 & H4 & H5)%IH. exists (path :: before), p, after, t. split_and!; try done.
      constructor; [by left|done].
  - intros (before & p & after & t & He & H1 & H2 & H3 & H4 & H5). destruct before as [|b before]; cbn in He; injection He as -> ->.
    + rewrite H1. by rewrite (proj2 (parse_machine_id_spec t id)).
    + apply Forall_cons in H5 as [Hb H5].
      assert (Hrest : machine_id_in read (before ++ p :: after) = Ok id) by (apply IH; by exists before, p, after, t).
      destruct Hb as [->|(t' & -> & ->)]; done.
Qed.
