(* ===== verification/PageText.v ===== *)
(** * PageText: the texts and figures of the dashboard

    The formatting helpers of [crates/api/src/pages/mod.rs], the bars of
    [home.rs] and the sizes and close frames of [terminal.rs].  Strings are
    their UTF-8 bytes. *)

From Stdlib Require Import ZArith QArith Qround Qabs Lqa Lia Ascii.
From S2P Require Import Prelude Text Float64 Types.
Open Scope Z_scope.

(** ** Floating point, as the figures use it *)

Definition fneg (a : f64) : f64 :=
  match a with Finite q => Finite (- q) | Infinite s => Infinite (negb s) | NotANumber => NotANumber end.
Definition fsub (a b : f64) : f64 := add a (fneg b).
Definition fabs (a : f64) : f64 :=
  match a with Finite q => Finite (Qabs q) | Infinite _ => Infinite false | NotANumber => NotANumber end.
(** [f64::max] ignores a [NaN]; [f64::clamp] keeps it. *)
Definition fmax (a b : f64) : f64 :=
  match a, b with
  | NotANumber, _ => b
  | _, NotANumber => a
  | _, _ => if flt a b then b else a
  end.
Definition fclamp (lo hi x : f64) : f64 := if flt x lo then lo else if flt hi x then hi else x.
(** [value as i64]. *)
Definition i64_min : Z := - 2 ^ 63.
Definition i64_max : Z := 2 ^ 63 - 1.
Definition toward_zero (q : Q) : Z := if Qle_bool 0 q then Qfloor q else - Qfloor (- q).
Definition f64_as_i64 (a : f64) : Z :=
  match a with
  | Finite q => Z.max i64_min (Z.min i64_max (toward_zero q))
  | Infinite s => if s then i64_min else i64_max
  | NotANumber => 0
  end.
(** [{value:.1}]: the exact value to one decimal, ties to even. *)
Definition fixed1 (a : f64) : string :=
  match a with
  | Finite q =>
      let tenths := half_even (Qabs q * 10) in
      (if Qle_bool 0 q then EmptyString else "-") +:+ dec (tenths / 10) +:+ "." +:+ dec (tenths mod 10)
  | Infinite s => if s then "-inf" else "inf"
  | NotANumber => "NaN"
  end.

(** ** Filters *)

(** [text.replace(c, by)], and [escape]. *)
Fixpoint replace_char (c : ascii) (by_ s : string) : string :=
  match s with
  | EmptyString => EmptyString
  | String d s => if Ascii.eqb d c then by_ +:+ replace_char c by_ s else String d (replace_char c by_ s)
  end.
Definition escape (text : string) : string :=
  replace_char (ascii_of_code 34) "&quot;" (replace_char ">" "&gt;" (replace_char "<" "&lt;" (replace_char "&" "&amp;" text))).

(** [|value - value.round()| < bound]. *)
Definition near_whole (bound value : f64) : bool := flt (fabs (fsub value (round_away value))) bound.
Definition mib (value : Z) : string :=
  if 1024 <=? value then
    let gib := div (of_int value) (of_int 1024) in
    if near_whole (round (5 # 1000)) gib then dec (as_u64 (round_away gib)) +:+ " GiB" else fixed1 gib +:+ " GiB"
  else dec value +:+ " MiB".
Definition gib (value : f64) : string :=
  if near_whole (round (5 # 100)) value then dec_signed (f64_as_i64 (round_away value)) +:+ " GiB"
  else fixed1 value +:+ " GiB".

(** [relative], at [now]; [date] shows the day of a time. *)
Definition relative_at (date : Z -> string) (now then_ : Z) : string :=
  let seconds := Z.max 0 (Z.quot (now - then_) nanos_per_sec) in
  if seconds <? 60 then "just now"
  else
    let minutes := seconds / 60 in
    if minutes <? 60 then dec minutes +:+ " min ago"
    else
      let hours := minutes / 60 in
      if hours <? 24 then dec hours +:+ " h ago"
      else
        let days := hours / 24 in
        if days <? 30 then dec days +:+ " d ago" else date then_.

(** ** Redirects with a message *)

Definition hex_upper (z : Z) : ascii := if z <? 10 then ascii_of_code (48 + z) else ascii_of_code (55 + z).
Definition unreserved (c : ascii) : bool :=
  in_range "A" "Z" c || in_range "a" "z" c || in_range "0" "9" c ||
  existsb (Ascii.eqb c) ["-"; "_"; "."; "~"]%char.
Fixpoint urlencode (text : string) : string :=
  match text with
  | EmptyString => EmptyString
  | String c text =>
      if unreserved c then String c (urlencode text)
      else if Ascii.eqb c " " then String "+" (urlencode text)
      else String "%" (String (hex_upper (ascii_code c / 16)) (String (hex_upper (ascii_code c mod 16)) (urlencode text)))
  end.

Record Toast : Type := mkToast { to_category : string; to_title : string }.
Definition Params : Type := gmap string string.
(** [params.get(key).filter(|title| !title.is_empty())]. *)
Definition filled (params : Params) (key : string) : option string :=
  match params !! key with Some EmptyString | None => None | Some title => Some title end.
Definition toast_from (params : Params) : option Toast :=
  match filled params "toast" with
  | Some title => Some (mkToast "success" title)
  | None => match filled params "warn" with Some title => Some (mkToast "error" title) | None => None end
  end.

(** [window_from], in seconds. *)
Definition window_from (params : Params) : Z :=
  Z.max 60 (Z.min 86400 (default 3600 (params !! "window" ≫= parse_uint u64_max))).

(** ** Bars *)

Record Bar : Type := mkBar {
  ba_left : string; ba_right : string; ba_left_pct : Z; ba_over : bool; ba_left_means : string; ba_right_means : string
}.
Definition fzero : f64 := Finite 0.
Definition hundred : f64 := of_int 100.
Definition split (taken total : f64) (taken_means : string) (fmt : f64 -> string) : Bar :=
  if flt total taken && flt fzero total then
    mkBar (fmt total) (fmt (fsub taken total)) (f64_as_i64 (round_away (mul (div total taken) hundred))) true
      "available on the host" "overprovisioned"
  else
    mkBar (fmt taken) (fmt (fmax (fsub total taken) fzero))
      (if flt fzero total then f64_as_i64 (fclamp fzero hundred (round_away (mul (div taken total) hundred))) else 0) false
      taken_means "remaining".

(** [ratio] of a tile. *)
Definition tile_ratio (used max : f64) : f64 :=
  if match partial_cmp max fzero with Some (Lt | Eq) => true | _ => false end then fzero else fclamp fzero (of_int 1) (div used max).

(** ** The terminal's sizes and last words *)

Definition MAX_CELLS : Z := 1000.
Definition CLOSE_NOT_RUNNING : Z := 4409.
Definition MAX_REASON : nat := 123.
Record TerminalSize : Type := mkTerminalSize { ts_cols : Z; ts_rows : Z }.
Definition clamped (cols rows : option Z) : TerminalSize :=
  mkTerminalSize (Z.max 1 (Z.min MAX_CELLS (default 80 cols))) (Z.max 1 (Z.min MAX_CELLS (default 24 rows))).

(** [text.is_char_boundary(n)]: the start, the end, or a byte that begins a
    character. *)
Definition is_continuation (c : ascii) : bool := Z.land (ascii_code c) 192 =? 128.
Definition is_char_boundary (text : string) (n : nat) : bool :=
  (n =? 0)%nat || (n =? String.length text)%nat ||
  match String.get n text with Some c => negb (is_continuation c) | None => false end.
(** The loop that goes back to a boundary. *)
Fixpoint boundary_below (text : string) (n : nat) : nat :=
  if is_char_boundary text n then n else match n with O => O | S m => boundary_below text m end.
Definition truncate (text : string) (limit : nat) : string :=
  if (String.length text <=? limit)%nat then text else String.substring 0 (boundary_below text limit) text.

Inductive ConsoleEnd : Type := Exited (status : Z) | Failed (message : string) | NotRunning.
Record CloseFrame : Type := mkCloseFrame { cf_code : Z; cf_reason : string }.
Definition close_frame (end_ : ConsoleEnd) : CloseFrame :=
  let '(code, reason) :=
    match end_ with
    | Exited status => (1000, "exit " +:+ dec status)
    | Failed message => (1011, message)
    | NotRunning => (CLOSE_NOT_RUNNING, "the VM is not running")
    end in
  mkCloseFrame code (truncate reason MAX_REASON).

(** ** Examples *)

Example mib_shown : mib 512 = "512 MiB" /\ mib 1024 = "1 GiB" /\ mib 1536 = "1.5 GiB" /\ mib 1025 = "1 GiB" /\ mib 1088 = "1.1 GiB".
Proof. vm_compute. done. Qed.
Example gib_shown : gib (round (19 # 2)) = "9.5 GiB" /\ gib (round (1002 # 100)) = "10 GiB" /\ gib (fneg (round (3 # 10))) = "-0.3 GiB".
Proof. vm_compute. done. Qed.
Example bar_over : split (of_int 3072) (of_int 2048) "provisioned" (fun v => mib (whole_u64 v)) =
  mkBar "2 GiB" "1 GiB" 67 true "available on the host" "overprovisioned".
Proof. vm_compute. done. Qed.

(** ** A message goes through a redirect and comes back *)

(** How the next request's query is read: [application/x-www-form-urlencoded]. *)
Definition hex_value (c : ascii) : option Z :=
  if is_ascii_digit c then Some (ascii_code c - 48)
  else if in_range "A" "F" c then Some (ascii_code c - 55)
  else if in_range "a" "f" c then Some (ascii_code c - 87) else None.
Fixpoint form_decode (s : string) : string :=
  match s with
  | EmptyString => EmptyString
  | String c s1 =>
      if Ascii.eqb c "+" then String " " (form_decode s1)
      else if Ascii.eqb c "%" then
        match s1 with
        | String a (String b s2) =>
            match hex_value a, hex_value b with
            | Some x, Some y => String (ascii_of_code (16 * x + y)) (form_decode s2)
            | _, _ => String c (form_decode s1)
            end
        | _ => String c (form_decode s1)
        end
      else String c (form_decode s1)
  end.
(** What may stand in a [Location] header and inside one value of a query. *)
Definition query_safe (c : ascii) : bool := unreserved c || Ascii.eqb c "+" || Ascii.eqb c "%".

(** A fact of every byte, by looking at all of them. *)
Lemma every_byte (P : ascii -> bool) :
  forallb P (ascii_of_nat <$> seq 0 256) = true -> forall c, P c = true.
Proof.
  intros H c. rewrite forallb_forall in H. apply H. rewrite <-(ascii_nat_embedding c).
  apply list_elem_of_In, list_elem_of_fmap_2, elem_of_seq. pose proof (nat_ascii_bounded c). lia.
Qed.
Definition hex_pair_back (c : ascii) : bool :=
  match hex_value (hex_upper (ascii_code c / 16)), hex_value (hex_upper (ascii_code c mod 16)) with
  | Some x, Some y => Ascii.eqb (ascii_of_code (16 * x + y)) c
  | _, _ => false
  end && query_safe (hex_upper (ascii_code c / 16)) && query_safe (hex_upper (ascii_code c mod 16)).
Lemma upper_pair_byte c : hex_pair_back c = true.
Proof. revert c. apply every_byte. vm_compute. reflexivity. Qed.
Definition plain_back (c : ascii) : bool := implb (unreserved c) (negb (Ascii.eqb c "+") && negb (Ascii.eqb c "%")).
Lemma plain_byte c : plain_back c = true.
Proof. revert c. apply every_byte. vm_compute. reflexivity. Qed.

Lemma form_decode_urlencode text : form_decode (urlencode text) = text.
Proof.
  induction text as [|c text IH]; [done|]. cbn [urlencode]. pose proof (plain_byte c) as Hp. unfold plain_back in Hp.
  destruct (unreserved c).
  - cbn [implb] in Hp. apply andb_true_iff in Hp as [H1 H2]. apply negb_true_iff in H1, H2.
    cbn [form_decode]. by rewrite H1, H2, IH.
  - destruct (Ascii.eqb_spec c " ") as [->|_]; [cbn; by rewrite IH|].
    pose proof (upper_pair_byte c) as Hh. unfold hex_pair_back in Hh.
    cbn [form_decode]. change (Ascii.eqb "%" "+") with false. change (Ascii.eqb "%" "%") with true. cbv iota.
    destruct (hex_value (hex_upper (ascii_code c / 16))) as [x|]; [|done].
    destruct (hex_value (hex_upper (ascii_code c mod 16))) as [y|]; [|done].
    apply andb_true_iff in Hh as [[Hh _]%andb_true_iff _]. apply Ascii.eqb_eq in Hh. by rewrite Hh, IH.
Qed.
Lemma urlencode_safe text : str_all query_safe (urlencode text) = true.
Proof.
  induction text as [|c text IH]; [done|]. cbn [urlencode].
  destruct (unreserved c) eqn:Hu; [cbn [str_all]; rewrite IH, andb_true_r; unfold query_safe; by rewrite Hu|].
  destruct (Ascii.eqb c " "); [exact IH|]. pose proof (upper_pair_byte c) as Hh. unfold hex_pair_back in Hh.
  apply andb_true_iff in Hh as [[_ H1]%andb_true_iff H2]. cbn [str_all]. rewrite H1, H2, IH. done.
Qed.

(** A message survives the redirect that carries it: whatever the text, the
    query [urlencode] writes has only characters that are allowed inside one
    value of a query, so it neither ends the header nor adds a parameter, and
    the page that reads it shows the same text, as a success for [toast] and
    as a problem for [warn]. *)
Theorem message_carried (text : string) :
  str_all query_safe (urlencode text) = true /\
  (text <> EmptyString ->
   toast_from {[ "toast" := form_decode (urlencode text) ]} = Some (mkToast "success" text) /\
   toast_from {[ "warn" := form_decode (urlencode text) ]} = Some (mkToast "error" text)).
Proof.
  split; [apply urlencode_safe|]. rewrite form_decode_urlencode. intros Ht.
  destruct text; [done|]. split; vm_compute; reflexivity.
Qed.
Lemma message_carried_witness :
  toast_from {[ "warn" := form_decode (urlencode "no user named a&b") ]} = Some (mkToast "error" "no user named a&b").
Proof. apply (message_carried "no user named a&b"). discriminate. Defined.

(** ** Escaping *)

Lemma replace_char_all p c by_ s :
  str_all p by_ = true -> str_all (fun d => Ascii.eqb d c || p d) s = true -> str_all p (replace_char c by_ s) = true.
Proof.
  intros Hb. induction s as [|d s IH]; [done|]. cbn [str_all replace_char]. intros [Hd Hs]%andb_true_iff.
  destruct (Ascii.eqb d c); [rewrite str_all_app, Hb; by apply IH|]. cbn [orb] in Hd. cbn [str_all]. rewrite Hd. by apply IH.
Qed.

(** What may stand inside an element: no tag and no attribute begins or ends. *)
Definition inert (c : ascii) : bool := negb (existsb (Ascii.eqb c) ["<"; ">"; ascii_of_code 34]%char).
Lemma escape_inert text : str_all inert (escape text) = true.
Proof.
  unfold escape. do 3 (apply replace_char_all; [reflexivity|]).
  apply replace_char_all; [reflexivity|]. induction text as [|c text IH]; [done|]. cbn [str_all]. rewrite IH, andb_true_r.
  revert c. apply every_byte. vm_compute. reflexivity.
Qed.

(** ** Bars never leave their frame *)

Open Scope Q_scope.
Lemma half_even_le_int (x : Q) (n : Z) : x <= inject_Z n -> (half_even x <= n)%Z.
Proof.
  intros Hx. pose proof (half_even_error x) as He. apply Qabs_Qle_condition in He as [_ He].
  apply Z.lt_succ_r. destruct (Z.lt_ge_cases n (half_even x)) as [Hn|]; [|lia].
  assert (inject_Z (n + 1) <= inject_Z (half_even x)) as H1 by (rewrite <-Zle_Qle; lia).
  rewrite inject_Z_plus in H1. change (inject_Z 1) with 1 in H1. lra.
Qed.
Lemma half_even_nonneg (x : Q) : 0 <= x -> (0 <= half_even x)%Z.
Proof.
  intros Hx. pose proof (half_even_error x) as He. apply Qabs_Qle_condition in He as [He _].
  destruct (Z.lt_ge_cases (half_even x) 0) as [Hn|]; [|lia].
  assert (inject_Z (half_even x) <= inject_Z (-1)) as H1 by (rewrite <-Zle_Qle; lia).
  change (inject_Z (-1)) with (- (1)) in H1. lra.
Qed.
Lemma round_pos_le_int (p : Q) (n : Z) :
  0 < p -> p <= inject_Z n -> (n < 2 ^ 53)%Z -> 0 <= round_pos p <= inject_Z n.
Proof.
  intros Hp Hn Hb. destruct (exponent_spec p Hp) as [He _].
  assert (last_place p <= 0)%Z as Hk.
  { unfold last_place. assert (exponent p < 53)%Z; [|lia]. apply pow2_lt_inv. rewrite (pow2_Z 53) by lia.
    apply (Qle_lt_trans _ (inject_Z n)); [lra|]. by rewrite <-Zlt_Qlt. }
  unfold round_pos. set (k := last_place p) in *. pose proof (pow2_pos k) as Hpk.
  assert (2 ^ (- k) * 2 ^ k == 1) as Hinv by (rewrite <-pow2_add; by replace (- k + k)%Z with 0%Z by lia).
  assert (p / 2 ^ k == p * 2 ^ (- k)) as Hd.
  { apply (Qmult_inj_r _ _ (2 ^ k)); [lra|]. rewrite <-Qmult_assoc, Hinv. field. lra. }
  pose proof (pow2_pos (- k)) as Hmk.
  assert (p * 2 ^ (- k) <= inject_Z (n * 2 ^ (- k))) as Hle.
  { rewrite inject_Z_mult, <-pow2_Z by lia. apply Qmult_le_compat_r; lra. }
  rewrite <-Hd in Hle. apply half_even_le_int in Hle.
  assert (0 <= p / 2 ^ k) as H0 by (rewrite Hd; apply Qmult_le_0_compat; lra). apply half_even_nonneg in H0.
  rewrite Zle_Qle in Hle, H0. rewrite inject_Z_mult, <-pow2_Z in Hle by lia. change (inject_Z 0) with 0 in H0. split.
  - apply Qmult_le_0_compat; lra.
  - pose proof (Qmult_le_compat_r _ _ (2 ^ k) Hle ltac:(lra)) as H1. rewrite <-Qmult_assoc, Hinv in H1. lra.
Qed.
(** A value between zero and a whole number stays there when it is rounded. *)
Lemma round_le_int (q : Q) (n : Z) : 0 <= q -> q <= inject_Z n -> (n < 2 ^ 53)%Z ->
  exists r, round q = Finite r /\ 0 <= r <= inject_Z n.
Proof.
  intros H0 Hn Hb. destruct (Qeq_dec q 0) as [Hz|Hz].
  { exists 0. split; [by apply round_zero|]. rewrite Hz in Hn. lra. }
  pose proof (Qred_correct q) as Hred. unfold round. set (p := Qred q) in *.
  assert (0 < p) as Hp by lra. assert (Qle_bool 0 p = true) as -> by (apply Qle_bool_iff; lra).
  destruct (round_pos_le_int p n Hp ltac:(lra) Hb) as [Hr1 Hr2].
  destruct (Qle_bool overflow (round_pos p)) eqn:Hov; [exfalso|].
  2: { exists (Qred (round_pos p)). split; [done|]. pose proof (Qred_correct (round_pos p)). lra. }
  apply Qle_bool_iff in Hov. unfold overflow in Hov. pose proof (pow2_le 53 1024 ltac:(lia)).
  rewrite Zlt_Qlt, <-pow2_Z in Hb by lia. lra.
Qed.
Lemma hundred_is : hundred = Finite 100.
Proof. vm_compute. reflexivity. Qed.
Close Scope Q_scope.

Lemma clamped_pct (x : f64) : 0 <= f64_as_i64 (fclamp fzero hundred x) <= 100.
Proof.
  rewrite hundred_is. unfold fclamp, flt, fzero.
  destruct x as [q|[]|]; cbn [partial_cmp]; try (vm_compute; split; discriminate).
  destruct (Qcompare_spec q 0); cbn iota; try (vm_compute; split; discriminate);
  (destruct (Qcompare_spec 100 q); cbn iota; [|vm_compute; split; discriminate|]);
  cbn [f64_as_i64]; unfold toward_zero; (destruct (Qle_bool 0 q) eqn:Hq; [|exfalso; apply not_true_iff_false in Hq; apply Hq, Qle_bool_iff; lra]);
  (assert (0 <= Qfloor q <= 100); [|unfold i64_min, i64_max; lia]);
  (split; [apply (Qfloor_resp_le 0 q); lra|change 100 with (Qfloor 100); apply Qfloor_resp_le; lra]).
Qed.

(** The filled part of a bar stays inside its frame: whatever the figures
    are, infinite or not numbers included, it is from 0 to 100 percent. *)
Theorem bar_fits (taken total : f64) (taken_means : string) (fmt : f64 -> string) :
  0 <= ba_left_pct (split taken total taken_means fmt) <= 100.
Proof.
  unfold split. destruct (flt total taken && flt fzero total) eqn:Hover; cbn [ba_left_pct].
  2: { destruct (flt fzero total); [apply clamped_pct|lia]. }
  apply andb_true_iff in Hover as [H1 H2]. unfold flt, fzero in *. rewrite hundred_is.
  destruct total as [t|[]|]; try done. 2: { by destruct taken as [q|[]|]. }
  cbn [partial_cmp] in H2. destruct (Qcompare_spec 0 t) as [|Ht|]; try done.
  destruct taken as [q|[]|]; try done.
  cbn [partial_cmp] in H1. destruct (Qcompare_spec t q) as [|Hq|]; try done.
  cbn [div]. destruct (is_zero q) eqn:Hz; [apply Qeq_bool_iff in Hz; lra|].
  destruct (round_le_int (t / q) 1) as (r & -> & Hr1 & Hr2); [| |done|].
  { apply Qle_shift_div_l; lra. }
  { apply Qle_shift_div_r; [lra|]. change (inject_Z 1) with 1%Q. lra. }
  cbn [mul]. change (inject_Z 1) with 1%Q in Hr2.
  destruct (round_le_int (r * 100) 100) as (p & -> & Hp1 & Hp2); [lra|change (inject_Z 100) with 100%Q; lra|done|].
  change (inject_Z 100) with 100%Q in Hp2. cbn [round_away].
  assert (Qle_bool 0 p = true) as -> by (by apply Qle_bool_iff).
  assert (0 <= Qfloor (p + (1 # 2)) <= 100).
  { split; [apply (Qfloor_resp_le 0); lra|]. change 100 with (Qfloor (100 + (1 # 2))). apply Qfloor_resp_le. lra. }
  cbn [f64_as_i64]. unfold toward_zero, i64_min, i64_max.
  assert (Qle_bool 0 (inject_Z (Qfloor (p + (1 # 2)))) = true) as ->.
  { apply Qle_bool_iff. change 0%Q with (inject_Z 0). rewrite <-Zle_Qle. lia. }
  rewrite Qfloor_Z. lia.
Qed.

(** ** The close frame of a terminal *)

Lemma boundary_below_spec text n : (n <= String.length text)%nat ->
  (boundary_below text n <= n)%nat /\ is_char_boundary text (boundary_below text n) = true.
Proof.
  induction n as [|n IH]; intros Hn; [done|]. cbn [boundary_below].
  destruct (is_char_boundary text (S n)) eqn:Hb; [done|]. destruct IH as [H1 H2]; [lia|]. split; [lia|done].
Qed.
Lemma substring_length s n : (n <= String.length s)%nat -> String.length (String.substring 0 n s) = n.
Proof. revert n. induction s as [|c s IH]; intros [|n] Hn; cbn in *; [done|lia|done|]. f_equal. apply IH. lia. Qed.
Lemma substring_split s n : (n <= String.length s)%nat -> exists rest, s = String.substring 0 n s +:+ rest.
Proof.
  revert n. induction s as [|c s IH]; intros [|n] Hn; cbn in *; [by exists EmptyString|lia|by eexists|].
  destruct (IH n) as [rest Hr]; [lia|]. exists rest. change (String c s = String c (String.substring 0 n s +:+ rest)).
  by rewrite <-Hr.
Qed.

(** The last words of a terminal fit a close frame: whatever message ends
    the session, the reason has at most 123 bytes, is a beginning of the
    message, and is cut between two characters; a short message is kept. *)
Theorem reason_fits (end_ : ConsoleEnd) :
  let message := match end_ with Exited status => "exit " +:+ dec status | Failed m => m | NotRunning => "the VM is not running" end in
  let reason := cf_reason (close_frame end_) in
  (String.length reason <= 123)%nat /\ (exists rest, message = reason +:+ rest) /\
  is_char_boundary message (String.length reason) = true /\ ((String.length message <= 123)%nat -> reason = message).
Proof.
  cbv zeta. set (message := match end_ with Exited _ => _ | Failed _ => _ | NotRunning => _ end).
  assert (cf_reason (close_frame end_) = truncate message MAX_REASON) as -> by (by destruct end_).
  unfold truncate. change MAX_REASON with 123%nat. destruct (Nat.leb_spec (String.length message) 123) as [Hm|Hm].
  - split_and!; [done| |unfold is_char_boundary; by rewrite Nat.eqb_refl, orb_true_r|done]. exists EmptyString.
    clear. induction message as [|c s IH]; [done|].
    change (String c s = String c (s +:+ EmptyString)). by rewrite <-IH.
  - destruct (boundary_below_spec message 123) as [H1 H2]; [lia|]. rewrite substring_length by lia.
    split_and!; [done|apply substring_split; lia|done|lia].
Qed.
