(* ===== verification/Pages.v ===== *)
(** * Pages: the dashboard, [crates/api/src/pages]

    One program per route of [mod.rs], [home.rs], [vm.rs], [admin.rs],
    [account.rs] and [terminal.rs] over the calls of [Api], the accounts, the
    measurements, the clock and the console.  A page is its template with what
    the template is given ([Ctx]); the template engine, the reasons of status
    codes, public keys and dates are parameters.  Forms arrive decoded: one
    that does not decode is refused before its handler. *)

From Stdlib Require Import ZArith QArith Lia Ascii.
From S2P Require Import Prelude Text Float64 Types Db Accounts Prog Pool Lifecycle Cli Api PageText.
Open Scope Z_scope.

(** ** Measurements, [interfaces.rs] *)

Record Point : Type := mkPoint { pt_at : Z; pt_value : f64 }.
Record HostMetrics : Type := mkHostMetrics {
  hm_host_id : Z; hm_host_name : string; hm_cpu_pct : list Point; hm_memory_used_mib : list Point; hm_memory_total_mib : Z;
  hm_storage_used_gib : f64; hm_storage_total_gib : Z; hm_cpu_count : Z; hm_placeholder : bool
}.
Record InstanceMetrics : Type := mkInstanceMetrics {
  im_cpu_pct : list Point; im_memory_used_mib : list Point; im_storage_used_gib : f64; im_placeholder : bool
}.
Record UserMetrics : Type := mkUserMetrics {
  um_cpu_pct : f64; um_memory_used_mib : Z; um_storage_used_gib : f64; um_placeholder : bool
}.
(** [UserMetrics::default()]. *)
Definition no_user_metrics : UserMetrics := mkUserMetrics fzero 0 fzero false.
Record CreateDefaults : Type := mkCreateDefaults { cd_vcpu : Z; cd_memory_mib : Z; cd_disk_gib : Z }.

(** ** What the templates are given *)

Record SidebarVm : Type := mkSidebarVm { sv_uuid : string; sv_name : string; sv_state : string; sv_shared : bool }.
Record UserCtx : Type := mkUserCtx { uc_id : Z; uc_name : string; uc_email : string; uc_operator : bool }.
Record Shell : Type := mkShell {
  s_user : UserCtx; s_vms : list SidebarVm; s_base_domain : string; s_instance_domain : string; s_path : string;
  s_toast : option Toast
}.
Record VmView : Type := mkVmView {
  vv_uuid : string; vv_name : string; vv_owner : string; vv_mine : bool; vv_state : string; vv_address : string;
  vv_image : string; vv_vcpu : Z; vv_memory_mib : Z; vv_memory_gib : f64; vv_disk_gib : Z; vv_nested : bool; vv_ksm : bool;
  vv_http_port : Z; vv_visibility : string; vv_created : string; vv_last_seen : string; vv_url : string; vv_ssh : string
}.
Record StateCounts : Type := mkStateCounts { sc_running : nat; sc_starting : nat; sc_stopped : nat; sc_total : nat }.
Record UsageTile : Type := mkUsageTile {
  ti_label : string; ti_used : string; ti_max : option string; ti_ratio : f64; ti_full : bool
}.
Record HostFigures : Type := mkHostFigures {
  hf_host_id : Z; hf_host_name : string; hf_memory_total_mib : Z; hf_memory_provisioned_mib : Z; hf_memory : Bar;
  hf_storage_used_gib : f64; hf_storage_total_gib : Z; hf_storage_usage : Bar; hf_storage_provisioned_gib : Z;
  hf_storage : Bar; hf_placeholder : bool
}.
Record NewForm : Type := mkNewForm {
  nf_name : string; nf_image : string; nf_vcpu : Z; nf_memory_gib : f64; nf_disk_gib : Z; nf_public : option string;
  nf_ksm : option string; nf_nested : option string
}.
Inductive Tab : Type := TabDashboard | TabTerminal | TabSettings | TabSharing | TabDanger.
#[global] Instance Tab_eq_dec : EqDecision Tab.
Proof. solve_decision. Defined.
Record VmData : Type := mkVmData {
  vd_title : string; vd_tab : Tab; vd_vm : VmView; vd_shares : list string; vd_candidates : list string;
  vd_error : option string; vd_storage_used_gib : f64; vd_storage : Bar; vd_metrics_placeholder : bool
}.
Record UserRow : Type := mkUserRow {
  ur_name : string; ur_email : string; ur_instances : Z; ur_vcpu : Z; ur_memory_mib : Z; ur_disk_gib : Z; ur_cpu_pct : f64;
  ur_memory_used_mib : Z; ur_storage_used_gib : f64; ur_placeholder : bool
}.
Record ImageRow : Type := mkImageRow {
  ir_name : string; ir_kind : string; ir_source : string; ir_current_checksum : string; ir_pinned_checksum : string;
  ir_instances_on_older_versions : Z
}.
Record KeyRow : Type := mkKeyRow { kr_id : Z; kr_fingerprint : string; kr_comment : string; kr_added : string }.
Inductive Ctx : Type :=
  | CxHome (shell : Shell) (instances : list VmView) (counts : StateCounts) (tiles : list UsageTile) (tiles_note : string)
      (hosts : list HostFigures)
  | CxInstances (instances : list VmView) (counts : StateCounts) (base_domain : string)
  | CxSidebar (shell : Shell)
  | CxNew (shell : Shell) (images : list string) (form : NewForm) (error : option string)
  | CxVm (shell : Shell) (data : VmData)
  | CxState (vm : VmView)
  | CxUsers (shell : Shell) (users : list UserRow) (host_cpu_count host_memory_mib host_storage_gib : option Z)
  | CxConfiguration (shell : Shell) (images : list ImageRow) (db_path : string) (image_admin : bool)
      (defaults : CreateDefaults) (error : option string)
  | CxAccount (shell : Shell) (keys : list KeyRow) (ssh_hint : string) (error : option string)
  | CxError (shell : Shell) (title : string) (status : Z) (message : string).

Record SettingsForm : Type := mkSettingsForm {
  sf_name : string; sf_vcpu : Z; sf_memory_gib : f64; sf_disk_gib : Z; sf_nested : option string; sf_public : option string;
  sf_http_port : Z
}.
#[global] Instance ResizeSpec_eq_dec : EqDecision ResizeSpec.
Proof. solve_decision. Defined.

(** ** Requests: the routes of [router] *)

Inductive PageRequest : Type :=
  | PgHome (params : Params)
  | PgInstances
  | PgSidebar
  | PgHostMetrics (params : Params)
  | PgNew
  | PgCreate (form : NewForm)
  | PgTab (tab : Tab) (uuid : string) (params : Params)
  | PgMetrics (uuid : string) (params : Params)
  | PgState (uuid : string)
  | PgSocket (uuid : string) (cols rows : option Z) (start origin : option string) (upgrade : result string unit)
  | PgSaveSettings (uuid : string) (form : SettingsForm)
  | PgAddShare (uuid user_field user_text : string)
  | PgRemoveShare (uuid target : string)
  | PgAction (act : Action) (uuid : string)
  | PgDelete (uuid confirm : string)
  | PgUsers (params : Params)
  | PgConfiguration (params : Params)
  | PgAddImage (name reference : string)
  | PgAccount (params : Params)
  | PgAddKey (public_key comment : string)
  | PgRemoveKey (id : string)
  | PgOldAccount.

(** ** Responses *)

Record SeriesJson : Type := mkSeriesJson { sj_at : list Z; sj_value : list f64 }.
Record MetricsJson : Type := mkMetricsJson {
  xj_placeholder : bool; xj_cpu_pct : SeriesJson; xj_memory_used_mib : SeriesJson; xj_memory_total_mib : Z
}.
Inductive PageResponse : Type :=
  | Rendered (status : Z) (template : string) (ctx : Ctx)
  | Html (status : Z) (body : string) (hx_redirect : option string)
  | RedirectTo (location : string)
  | RedirectPermanent (location : string)
  | Figures (json : MetricsJson)
  | ApiAnswer (response : ApiResponse)
  | Plain (status : Z) (message : string)
  | Upgraded
  | Rejected (rejection : string).

(** ** The calls *)

Inductive gcall : Type -> Type :=
  | GApi {R} (c : acall R) : gcall R
  | GUsers : gcall (result ApiError (list User))
  | GHosts (window : Z) : gcall (result ApiError (list HostMetrics))
  | GInstanceMetrics (uuid : string) (window : Z) : gcall (result ApiError InstanceMetrics)
  | GUserMetrics (user_id : Z) : gcall (result ApiError UserMetrics)
  | GNow : gcall Z
  (** The upgrade of a terminal's socket, the session behind it ([None]: the
      page went first), and its close frame. *)
  | GUpgrade : gcall unit
  | GAttach (i : Instance) (size : TerminalSize) (start : bool) : gcall (option ConsoleEnd)
  | GClose (frame : CloseFrame) : gcall unit.

(** [Result<T, BoxError>] and [Result<T, HandlerError>]; a handler's error is
    the page it rendered. *)
Definition B (X T : Type) : Type := fallible gcall X T.
#[local] Instance B_ret {X} : MRet (B X) := fallible_ret.
#[local] Instance B_bind {X} : MBind (B X) := fallible_bind.
Definition H (T : Type) : Type := B PageResponse T.
#[local] Instance H_ret : MRet H := fallible_ret.
#[local] Instance H_bind : MBind H := fallible_bind.
Definition asked {T} (c : gcall (result ApiError T)) : B ApiError T := ask c id.
(** [p.await], matched on. *)
Definition caught {X T} (p : B X T) : H (result X T) := prog_bind _ _ (fun r => Ret (Ok r)) p.
Definition of_api {T} (p : A T) : B ApiError T := lift (@GApi) p.

Record PagesConfig : Type := mkPagesConfig {
  pc_api : ApiConfig; pc_base_domain : string; pc_instance_domain : string; pc_defaults : CreateDefaults
}.

Section Pages.
Context (self : PagesConfig) (debug_duration date : Z -> string) (canonical_reason : Z -> option string)
        (from_openssh : string -> option PublicKey).
#[local] Abbreviation error_parts := (Api.error_parts debug_duration).
#[local] Abbreviation operator := (is_operator (pc_api self)).

(** ** The shell every page shares: [mod.rs] *)

(** [relative], which reads the clock. *)
Definition relative {X} (value : option Z) : B X string :=
  match value with
  | None => mret "never"
  | Some 0 => mret "never"
  | Some then_ => now ← get GNow; mret (relative_at date now then_)
  end.

Definition visible_instances (user : User) : B ApiError (list Instance) :=
  owned ← asked (GApi (AInstancesByOwner (u_id user)));
  shared ← asked (GApi (AInstancesSharedWith (u_id user)));
  mret (sort_by (fun a b => text_lt (i_name a) (i_name b)) (owned ++ shared)).

Definition sidebar_vm (user : User) (i : Instance) : SidebarVm :=
  mkSidebarVm (i_uuid i) (i_name i) (State_as_str (i_state i)) (negb (i_owner_id i =? u_id user)).
Definition shell (user : User) (path : string) (params : Params) : B ApiError Shell :=
  vms ← visible_instances user;
  mret (mkShell (mkUserCtx (u_id user) (u_name user) (u_email user) (operator user)) (sidebar_vm user <$> (vms : list Instance))
          (pc_base_domain self) (pc_instance_domain self) path (toast_from params)).

Definition error_page (shell : Shell) (status : Z) (message : string) : PageResponse :=
  Rendered status "error.html" (CxError shell (default "Error" (canonical_reason status)) status message).
Definition html (status : Z) (body : string) : PageResponse := Html status body None.
Definition failed (user : User) (path : string) (error : ApiError) : H PageResponse :=
  let '(status, message) := error_parts error in
  r ← caught (shell user path ∅);
  mret (match r with
        | Ok shell => error_page shell status message
        | Err _ => html status ("<!doctype html><title>Error</title><p>" +:+ escape message +:+ "</p>")
        end).
(** [return Err(failed(..).await.into())]. *)
Definition fails {T} (user : User) (path : string) (error : ApiError) : H T :=
  r ← failed user path error; throw r.
(** [Ok(v) => v, Err(error) => return Err(failed(..).await.into())]. *)
Definition or_fails {T} (user : User) (path : string) (p : B ApiError T) : H T :=
  r ← caught p;
  match r with Ok v => mret v | Err error => fails user path error end.
(** The handlers whose body is an [async] block. *)
Definition or_failed (user : User) (path : string) (p : B ApiError PageResponse) : H PageResponse :=
  r ← caught p;
  match r with Ok v => mret v | Err error => failed user path error end.

Definition done_at (path toast : string) : PageResponse := RedirectTo (path +:+ "?toast=" +:+ urlencode toast).
Definition warn (path message : string) : PageResponse := RedirectTo (path +:+ "?warn=" +:+ urlencode message).

Definition owner_name {X} (i : Instance) (viewer : User) : B X string :=
  if i_owner_id i =? u_id viewer then mret (u_name viewer)
  else
    r ← attempt (GApi (AUserById (i_owner_id i)));
    mret (match r with Ok user => u_name user | Err _ => EmptyString end).
Definition memory_gib (i : Instance) : f64 := div (of_int (i_memory_mib i)) (of_int 1024).
Definition vm_view {X} (i : Instance) (viewer : User) : B X VmView :=
  owner ← owner_name i viewer;
  created ← relative (Some (i_created_at i));
  last_seen ← relative (i_last_seen_at i);
  mret (mkVmView (i_uuid i) (i_name i) owner (i_owner_id i =? u_id viewer) (State_as_str (i_state i)) (i_address i)
          (i_image_name i) (i_vcpu i) (i_memory_mib i) (memory_gib i) (i_disk_gib i) (i_nested i) (i_ksm i) (i_http_port i)
          (Visibility_as_str (i_visibility i)) created last_seen
          ("https://" +:+ i_name i +:+ "." +:+ pc_instance_domain self +:+ "/")
          ("ssh " +:+ i_name i +:+ "@" +:+ pc_base_domain self)).

Definition readable_instance (uuid : string) (user : User) : B ApiError (option Instance) :=
  r ← attempt (GApi (AInstance uuid));
  match r with
  | Ok i =>
      readable ← of_api (can_read_instance i user);
      mret (if (readable : bool) then Some i else None)
  | Err error => if is_not_found error then mret None else throw error
  end.

Definition checked_name (name : string) (reserved : list string) : result string string :=
  let name := trim_white name in
  if negb (valid_name name) then Err BAD_NAME
  else if is_reserved name reserved then Err (reserved_name_message name)
  else Ok name.
Definition checked (value : option string) : bool := bool_decide (is_Some value).
Definition reserved_names : list string := ac_reserved_names (pc_api self).

(** ** The front page and the form for a new instance: [home.rs] *)

(** [mib] of [home.rs]. *)
Definition whole_mib (value : f64) : string := mib (whole_u64 value).
Definition tile (label : string) (used : Z) (max : option Z) (fmt : Z -> string) : UsageTile :=
  mkUsageTile label (fmt used) (fmt <$> max)
    (match max with None => fzero | Some max => tile_ratio (of_int used) (of_int max) end)
    (match max with None => false | Some max => max <=? used end).
(** [(hosts.len() == 1).then(|| &hosts[0])]. *)
Definition only_host (hosts : list HostMetrics) : option HostMetrics := match hosts with [host] => Some host | _ => None end.
Definition usage_tiles (user : User) (hosts : list HostMetrics) : B ApiError (list UsageTile) :=
  let host := only_host hosts in
  usage ← asked (GApi (AUsageFor (u_id user)));
  mret [tile "VMs" (us_instances usage) None dec;
        tile "vCPU" (us_vcpu usage) (hm_cpu_count <$> host) dec;
        tile "Memory" (us_memory_mib usage) (hm_memory_total_mib <$> host) mib;
        tile "Disk" (us_disk_gib usage) (hm_storage_total_gib <$> host) (fun n => dec n +:+ " GiB")].

(** The sums of [host_figures]; each is taken at its width. *)
Definition u64_add (a b : Z) : Z := (a + b) mod 2 ^ 64.
Definition provisioned (all : list Instance) (host_id : Z) : Z * Z :=
  foldl (fun sums i => (u64_add sums.1 (i_memory_mib i), u64_add sums.2 (i_disk_gib i))) (0, 0)
    (filter (fun i => i_host_id i = host_id) all).
Definition host_figures (all : list Instance) (host : HostMetrics) : HostFigures :=
  let '(memory, storage) := provisioned all (hm_host_id host) in
  mkHostFigures (hm_host_id host) (hm_host_name host) (hm_memory_total_mib host) memory
    (split (of_int memory) (of_int (hm_memory_total_mib host)) "provisioned" whole_mib)
    (hm_storage_used_gib host) (hm_storage_total_gib host)
    (split (hm_storage_used_gib host) (of_int (hm_storage_total_gib host)) "used" gib)
    storage (split (of_int storage) (of_int (hm_storage_total_gib host)) "provisioned" gib) (hm_placeholder host).

Definition count (counts : StateCounts) (i : Instance) : StateCounts :=
  let '(mkStateCounts running starting stopped total) := counts in
  match i_state i with
  | Running => mkStateCounts (S running) starting stopped (S total)
  | Starting => mkStateCounts running (S starting) stopped (S total)
  | Stopped => mkStateCounts running starting (S stopped) (S total)
  end.
Fixpoint views_of (l : list Instance) (user : User) (counts : StateCounts) : B ApiError (list VmView * StateCounts) :=
  match l with
  | [] => mret ([], counts)
  | i :: l =>
      view ← vm_view i user;
      '(rest, counts) ← views_of l user (count counts i);
      mret (view :: rest, counts)
  end.
Definition views (user : User) : B ApiError (list VmView * StateCounts) :=
  instances ← visible_instances user;
  views_of instances user (mkStateCounts 0 0 0 0).

Definition tiles_note (hosts : list HostMetrics) : string :=
  if (length hosts <=? 1)%nat then "provisioned, out of the host" else "provisioned, across every machine".
Definition home (user : User) (params : Params) : H PageResponse :=
  or_failed user "/" (
    shell ← shell user "/" params;
    '(instances, counts) ← views user;
    hosts ← asked (GHosts 60);
    tiles ← usage_tiles user hosts;
    all ← asked (GApi AInstances);
    mret (Rendered 200 "home.html" (CxHome shell instances counts tiles (tiles_note hosts) (host_figures all <$> hosts)))).

Definition instances_fragment (user : User) : H PageResponse :=
  r ← caught (views user);
  mret (match r with
        | Ok (instances, counts) => Rendered 200 "partials/instances.html" (CxInstances instances counts (pc_base_domain self))
        | Err error =>
            let '(status, message) := error_parts error in
            html status ("<p class=" +:+ quoted "text-destructive" +:+ ">" +:+ message +:+ "</p>")
        end).
Definition sidebar_fragment (user : User) : H PageResponse :=
  r ← caught (shell user EmptyString ∅);
  mret (match r with
        | Ok shell => Rendered 200 "partials/sidebar.html" (CxSidebar shell)
        | Err error => let '(status, message) := error_parts error in html status message
        end).

Definition series (points : list Point) : SeriesJson := mkSeriesJson (pt_at <$> points) (pt_value <$> points).
Definition chosen_host (params : Params) (hosts : list HostMetrics) : option HostMetrics :=
  match params !! "host" with
  | Some host_id => match parse_i64 host_id with Some id => List.find (fun host => hm_host_id host =? id) hosts | None => None end
  | None => head hosts
  end.
Definition host_metrics (params : Params) : H PageResponse :=
  r ← caught (
    hosts ← asked (GHosts (window_from params));
    match chosen_host params hosts with
    | Some host => mret host
    | None => throw (mkApiError (LayerStore AsNotFound) [])
    end);
  mret (match r with
        | Ok host => Figures (mkMetricsJson (hm_placeholder host) (series (hm_cpu_pct host)) (series (hm_memory_used_mib host))
                                (hm_memory_total_mib host))
        | Err error => ApiAnswer (mapped_error debug_duration error)
        end).

(** [NewForm::defaults]. *)
Definition form_defaults : NewForm :=
  mkNewForm EmptyString EmptyString (cd_vcpu (pc_defaults self)) (div (of_int (cd_memory_mib (pc_defaults self))) (of_int 1024))
    (cd_disk_gib (pc_defaults self)) None (Some "on") None.
Definition image_names : B ApiError (list string) :=
  images ← asked (GApi AImages);
  mret (img_name <$> (images : list Image)).
Definition render_new (user : User) (form : NewForm) (status : Z) (error : option string) : H PageResponse :=
  or_failed user "/new" (
    shell ← shell user "/new" ∅;
    images ← image_names;
    mret (Rendered status "new.html" (CxNew shell images form error))).
Definition new_form (user : User) : H PageResponse := render_new user form_defaults 200 None.

Definition create_spec (name : string) (form : NewForm) : CreateSpec :=
  mkCreateSpec name (nf_image form) (nf_vcpu form) (mib_from_gib (nf_memory_gib form)) (nf_disk_gib form)
    (checked (nf_nested form)) (checked (nf_ksm form)).
(** What [create] does once the instance is there. *)
Definition publish (form : NewForm) (i : Instance) : H PageResponse :=
  let created := done_at ("/vm/" +:+ i_uuid i) ("Created " +:+ i_name i) in
  if checked (nf_public form) then
    r ← attempt (GApi (ASetVisibility (i_uuid i) Public));
    match r with
    | Err error => mret (warn ("/vm/" +:+ i_uuid i) ("created, but not made public: " +:+ (error_parts error).2))
    | Ok _ => mret created
    end
  else mret created.
Definition create (user : User) (form : NewForm) : H PageResponse :=
  match checked_name (nf_name form) reserved_names with
  | Err message => render_new user form 400 (Some message)
  | Ok name =>
      if bool_decide (nf_image form = EmptyString) then render_new user form 400 (Some "choose an image")
      else if (nf_vcpu form <? 1) || flt (nf_memory_gib form) (Finite (1 # 8)%Q) || (nf_disk_gib form <? 1) then
        render_new user form 400 (Some "vCPU, memory, and disk must all be set")
      else
        r ← attempt (GApi (ACreate user (create_spec name form)));
        match r with
        | Err error => let '(status, message) := error_parts error in render_new user form status (Some message)
        | Ok i => publish form i
        end
  end.

(** ** One instance: [vm.rs] *)

Definition load (user : User) (uuid path : string) (params : Params) : H (Shell * Instance) :=
  shell ← or_fails user path (shell user path params);
  i ← or_fails user path (readable_instance uuid user);
  match i with
  | Some i => mret (shell, i)
  | None => throw (error_page shell 404 "No such VM.")
  end.
Definition tab_path (tab : Tab) (uuid : string) : string :=
  "/vm/" +:+ uuid +:+
  match tab with
  | TabDashboard => EmptyString | TabTerminal => "/terminal" | TabSettings => "/settings" | TabSharing => "/sharing"
  | TabDanger => "/danger"
  end.
Definition tab_template (tab : Tab) : string :=
  match tab with
  | TabDashboard => "vm_dashboard.html" | TabTerminal => "vm_terminal.html" | TabSettings => "vm_settings.html"
  | TabSharing => "vm_sharing.html" | TabDanger => "vm_danger.html"
  end.
Fixpoint share_names (shares : list Share) : H (list string) :=
  match shares with
  | [] => mret []
  | share :: shares =>
      r ← attempt (GApi (AUserById (sh_user_id share)));
      rest ← share_names shares;
      mret (match r with Ok user => u_name user | Err _ => EmptyString end :: rest)
  end.
Definition candidates_of (user : User) (shares : list string) (users : list User) : list string :=
  u_name <$> filter (fun account => u_id account <> u_id user /\ u_name account ∉ shares) users.
(** [tab == Tab::Sharing && instance.owner_id == user.id]. *)
Definition on_sharing (user : User) (tab : Tab) (i : Instance) : bool := bool_decide (tab = TabSharing) && (i_owner_id i =? u_id user).
Definition page (user : User) (uuid : string) (tab : Tab) (params : Params) (status : Z) (error : option string) : H PageResponse :=
  let path := tab_path tab uuid in
  '(shell, i) ← load user uuid path params;
  shares ← (if on_sharing user tab i
            then shares ← or_fails user path (asked (GApi (ASharesFor (i_uuid i)))); share_names shares else mret [] : H (list string));
  candidates ← (if on_sharing user tab i
                then users ← or_fails user path (asked GUsers); mret (candidates_of user shares users) else mret [] : H (list string));
  storage ←
    (if bool_decide (tab = TabDashboard) then
       r ← attempt (GInstanceMetrics (i_uuid i) 60);
       mret (match r with Ok metrics => (im_storage_used_gib metrics, im_placeholder metrics) | Err _ => (fzero, true) end)
     else mret (fzero, false) : H (f64 * bool));
  vm ← vm_view i user;
  mret (Rendered status (tab_template tab) (CxVm shell
          (mkVmData (vv_name vm) tab vm shares candidates error storage.1 (split storage.1 (of_int (vv_disk_gib vm)) "used" gib)
             storage.2))).

Definition metrics (user : User) (uuid : string) (params : Params) : H PageResponse :=
  r ← caught (readable_instance uuid user);
  match r with
  | Ok (Some i) =>
      r ← attempt (GInstanceMetrics (i_uuid i) (window_from params));
      mret (match r with
            | Ok metrics => Figures (mkMetricsJson (im_placeholder metrics) (series (im_cpu_pct metrics))
                                       (series (im_memory_used_mib metrics)) (i_memory_mib i))
            | Err error => ApiAnswer (mapped_error debug_duration error)
            end)
  | Ok None => mret (ApiAnswer (error_response 404 "not found"))
  | Err error => mret (ApiAnswer (mapped_error debug_duration error))
  end.
Definition state_fragment (user : User) (uuid : string) : H PageResponse :=
  r ← caught (readable_instance uuid user);
  match r with
  | Ok (Some i) => vm ← vm_view i user; mret (Rendered 200 "partials/state_badge.html" (CxState vm))
  | Ok None => mret (html 404 EmptyString)
  | Err error => mret (ApiAnswer (mapped_error debug_duration error))
  end.

(** The end of [owned]: a refusal inside the shell. *)
Definition refuses {T} (user : User) (path : string) (status : Z) (message : string) : H T :=
  r ← caught (shell user path ∅);
  match r with
  | Ok shell => throw (error_page shell status message)
  | Err error => fails user path error
  end.
Definition owned (user : User) (uuid path : string) : H Instance :=
  r ← caught (readable_instance uuid user);
  match r with
  | Ok (Some i) => if i_owner_id i =? u_id user then mret i else refuses user path 403 "You cannot change this VM."
  | Ok None => refuses user path 404 "No such VM."
  | Err error => fails user path error
  end.

Definition new_visibility (form : SettingsForm) (i : Instance) : Visibility :=
  if checked (sf_public form) then Public
  else if bool_decide (i_visibility i = Public) then Private
  else i_visibility i.
Definition wanted (form : SettingsForm) : ResizeSpec :=
  mkResizeSpec (sf_vcpu form) (mib_from_gib (sf_memory_gib form)) (sf_disk_gib form) (checked (sf_nested form)).
Definition current (i : Instance) : ResizeSpec := mkResizeSpec (i_vcpu i) (i_memory_mib i) (i_disk_gib i) (i_nested i).
(** The closure [fail] of [save_settings]. *)
Definition settings_failed (user : User) (uuid message : string) (status : Z) : H PageResponse :=
  page user uuid TabSettings ∅ status (Some message).
(** One step of [save_settings]: skipped when the field did not change. *)
Definition apply_change (user : User) (uuid : string) (same : bool) (label : string) (c : acall (result ApiError unit))
    (changed : list string) (next : list string -> H PageResponse) : H PageResponse :=
  if same then next changed
  else
    r ← attempt (GApi c);
    match r with
    | Err error => let '(status, message) := error_parts error in settings_failed user uuid message status
    | Ok _ => next (changed ++ [label])
    end.
Definition saved (changed : list string) : string :=
  match changed with [] => "Nothing changed" | _ => "Saved " +:+ join ", " changed end.
Definition apply_settings (user : User) (uuid : string) (form : SettingsForm) (name : string) (i : Instance) : H PageResponse :=
  apply_change user uuid (bool_decide (wanted form = current i)) "resources" (AResize (i_uuid i) (wanted form)) [] (fun changed =>
  apply_change user uuid (sf_http_port form =? i_http_port i) "port" (ASetHttpPort (i_uuid i) (sf_http_port form)) changed (fun changed =>
  apply_change user uuid (bool_decide (new_visibility form i = i_visibility i)) "visibility"
    (ASetVisibility (i_uuid i) (new_visibility form i)) changed (fun changed =>
  apply_change user uuid (bool_decide (name = i_name i)) "name" (ARename (i_uuid i) name) changed (fun changed =>
  mret (done_at ("/vm/" +:+ uuid +:+ "/settings") (saved changed)))))).
(** [save_settings], once the instance is known to be the viewer's. *)
Definition checked_settings (user : User) (uuid : string) (form : SettingsForm) (i : Instance) : H PageResponse :=
  match checked_name (sf_name form) reserved_names with
  | Err message => settings_failed user uuid message 400
  | Ok name =>
      if (sf_vcpu form <? 1) || (mib_from_gib (sf_memory_gib form) <? 128) then
        settings_failed user uuid "vCPU and memory must be positive" 400
      else if sf_disk_gib form <? i_disk_gib i then settings_failed user uuid "the disk can grow but never shrink" 400
      else if sf_http_port form =? 0 then settings_failed user uuid "port must be between 1 and 65535" 400
      else apply_settings user uuid form name i
  end.
Definition save_settings (user : User) (uuid : string) (form : SettingsForm) : H PageResponse :=
  i ← owned user uuid ("/vm/" +:+ uuid +:+ "/settings");
  checked_settings user uuid form i.

Definition sharing_path (uuid : string) : string := "/vm/" +:+ uuid +:+ "/sharing".
(** [Ok(()) => done(..), Err(error) => warn(.., error_parts(&error).1)]. *)
Definition reported (path done_path toast : string) (r : result ApiError unit) : PageResponse :=
  match r with Ok _ => done_at done_path toast | Err error => warn path (error_parts error).2 end.
(** [user_by_name] of the two share handlers. *)
Definition with_target (user : User) (path name : string) (next : User -> H PageResponse) : H PageResponse :=
  r ← attempt (GApi (AUserByName name));
  match r with
  | Ok target => next target
  | Err error => if is_not_found error then mret (warn path ("no user named " +:+ name)) else fails user path error
  end.
Definition add_share (user : User) (uuid user_field user_text : string) : H PageResponse :=
  let path := sharing_path uuid in
  i ← owned user uuid path;
  let name := if bool_decide (trim_white user_field = EmptyString) then trim_white user_text else trim_white user_field in
  if bool_decide (name = EmptyString) then mret (warn path "Type a user name")
  else
    with_target user path name (fun target =>
      if u_id target =? u_id user then mret (warn path "You own this VM")
      else
        r ← attempt (GApi (AAddShare (i_uuid i) (u_id target)));
        mret (reported path path ("Shared with " +:+ u_name target) r)).
Definition remove_share (user : User) (uuid target_name : string) : H PageResponse :=
  let path := sharing_path uuid in
  i ← owned user uuid path;
  with_target user path target_name (fun target =>
    r ← attempt (GApi (ARemoveShare (i_uuid i) (u_id target)));
    mret (reported path path ("Revoked " +:+ u_name target) r)).

Definition danger_path (uuid : string) : string := "/vm/" +:+ uuid +:+ "/danger".
Definition acting (action : Action) : string :=
  match action with StartAction => "Starting" | StopAction => "Stopping" | RestartAction => "Restarting" end.
Definition action (user : User) (uuid : string) (action : Action) : H PageResponse :=
  let path := danger_path uuid in
  i ← owned user uuid path;
  r ← attempt (GApi (AAct action (i_uuid i)));
  mret (reported path path (acting action +:+ " " +:+ i_name i) r).
Definition delete (user : User) (uuid confirm : string) : H PageResponse :=
  let path := danger_path uuid in
  i ← owned user uuid path;
  if negb (bool_decide (trim_white confirm = i_name i)) then mret (warn path "Name does not match")
  else
    r ← attempt (GApi (ADelete (i_uuid i)));
    mret (reported path "/" ("Deleted " +:+ i_name i) r).

(** ** The operator's settings: [admin.rs] *)

Definition operator_only (user : User) (path : string) : H Shell :=
  shell ← or_fails user path (shell user path ∅);
  if operator user then mret shell else throw (error_page shell 403 "Operators only.").
(** [shell.toast = toast_from(params)]. *)
Definition with_toast (shell : Shell) (params : Params) : Shell :=
  mkShell (s_user shell) (s_vms shell) (s_base_domain shell) (s_instance_domain shell) (s_path shell) (toast_from params).
Fixpoint user_rows (accounts : list User) : B ApiError (list UserRow) :=
  match accounts with
  | [] => mret []
  | account :: accounts =>
      usage ← asked (GApi (AUsageFor (u_id account)));
      r ← attempt (GUserMetrics (u_id account));
      let metrics := match r with Ok m => m | Err _ => no_user_metrics end in
      rest ← user_rows accounts;
      mret (mkUserRow (u_name account) (u_email account) (us_instances usage) (us_vcpu usage) (us_memory_mib usage)
              (us_disk_gib usage) (um_cpu_pct metrics) (um_memory_used_mib metrics) (um_storage_used_gib metrics)
              (um_placeholder metrics) :: rest)
  end.
Definition users (user : User) (params : Params) : H PageResponse :=
  if negb (operator user) then mret (RedirectTo "/settings/account")
  else
    shell ← operator_only user "/settings";
    or_failed user "/settings" (
      accounts ← asked GUsers;
      rows ← user_rows accounts;
      hosts ← asked (GHosts 60);
      let host := only_host hosts in
      mret (Rendered 200 "settings_users.html" (CxUsers (with_toast shell params)
              (sort_by (fun a b => text_lt (ur_name a) (ur_name b)) rows)
              (hm_cpu_count <$> host) (hm_memory_total_mib <$> host) (hm_storage_total_gib <$> host)))).

Definition image_row (image : ImageJson) : ImageRow :=
  mkImageRow (mj_name image) (mj_kind image) (mj_source image) (mj_current_checksum image) (mj_pinned_checksum image)
    (mj_instances_on_older_versions image).
Definition CONFIGURATION : string := "/settings/configuration".
Definition render_configuration (user : User) (params : Params) (status : Z) (error : option string) : H PageResponse :=
  shell ← operator_only user CONFIGURATION;
  images ← or_fails user CONFIGURATION (of_api images_with_counts);
  mret (Rendered status "settings_configuration.html"
          (CxConfiguration (with_toast shell params) (image_row <$> (images : list ImageJson)) (ac_db_path (pc_api self))
             (ac_image_admin (pc_api self)) (pc_defaults self) error)).
Definition configuration (user : User) (params : Params) : H PageResponse := render_configuration user params 200 None.
Definition add_image (user : User) (name reference : string) : H PageResponse :=
  if negb (operator user) then render_configuration user ∅ 403 None
  else if negb (ac_image_admin (pc_api self)) then
    render_configuration user ∅ 503 (Some "runtime image management is unavailable")
  else
    let name := trim_white name in
    let reference := trim_white reference in
    if bool_decide (name = EmptyString) || bool_decide (reference = EmptyString) then
      render_configuration user ∅ 400 (Some "both the name and the OCI reference are required")
    else
      r ← attempt (GApi (AAddOciImage name reference));
      match r with
      | Ok _ => mret (done_at CONFIGURATION ("Added " +:+ name))
      | Err error => let '(status, message) := error_parts error in render_configuration user ∅ status (Some message)
      end.

(** ** The viewer's account: [account.rs] *)

Definition ACCOUNT : string := "/settings/account".
Fixpoint key_rows (keys : list SshKey) : H (list KeyRow) :=
  match keys with
  | [] => mret []
  | key :: keys =>
      added ← relative (Some (k_created_at key));
      rest ← key_rows keys;
      mret (mkKeyRow (k_id key) (k_fingerprint key) (k_comment key) added :: rest)
  end.
Definition render_account (user : User) (params : Params) (status : Z) (error : option string) : H PageResponse :=
  shell ← or_fails user ACCOUNT (shell user ACCOUNT params);
  keys ← or_fails user ACCOUNT (asked (GApi (ASshKeysForUser (u_id user))));
  rows ← key_rows keys;
  mret (Rendered status "account.html" (CxAccount shell rows ("ssh " +:+ s_base_domain shell +:+ " ls") error)).
Definition account (user : User) (params : Params) : H PageResponse := render_account user params 200 None.
Definition add_key (user : User) (public_key comment : string) : H PageResponse :=
  let text := trim_white public_key in
  match from_openssh text with
  | None => render_account user ∅ 400 (Some "not a valid SSH public key")
  | Some key =>
      let comment := if bool_decide (trim_white comment = EmptyString) then pk_comment key else trim_white comment in
      r ← attempt (GApi (AAddSshKey (u_id user) text (pk_fingerprint key) comment));
      match r with
      | Ok _ => mret (done_at ACCOUNT "Key added")
      | Err error => let '(status, message) := error_parts error in render_account user ∅ status (Some message)
      end
  end.
Definition remove_key (user : User) (id : string) : H PageResponse :=
  match parse_i64 id with
  | None => mret (RedirectTo (ACCOUNT +:+ "?warn=bad+key+id"))
  | Some id =>
      r ← attempt (GApi (ADeleteSshKey (u_id user) id));
      mret (reported ACCOUNT ACCOUNT "Key removed" r)
  end.

(** ** The web terminal: [terminal.rs] *)

Definition refuse (error : ApiError) : PageResponse := let '(status, message) := error_parts error in Plain status message.
(** [run]: the session, and the close frame when it was the first to end. *)
Definition run_terminal (i : Instance) (size : TerminalSize) (start : bool) : H PageResponse :=
  end_ ← get (GAttach i size start);
  match end_ with
  | Some end_ => _ ← get (GClose (close_frame end_)); mret Upgraded
  | None => mret Upgraded
  end.
(** The [Origin] header is its text, when it has one; [upgrade] is what axum
    made of the request, or its rejection. *)
Definition socket (user : User) (uuid : string) (cols rows : option Z) (start origin : option string)
    (upgrade : result string unit) : H PageResponse :=
  if negb (bool_decide (origin = Some ("https://" +:+ pc_base_domain self))) then
    mret (refuse (status_error 403 "the terminal only opens from the dashboard"))
  else
    r ← caught (readable_instance uuid user);
    match r with
    | Err error => mret (refuse error)
    | Ok None => mret (refuse (mkApiError (LayerStore AsNotFound) []))
    | Ok (Some i) =>
        match upgrade with
        | Err rejection => mret (Rejected rejection)
        | Ok _ =>
            _ ← get GUpgrade;
            run_terminal i (clamped cols rows) (bool_decide (start = Some "1"))
        end
    end.

(** ** The router *)

Definition handle_page (request : PageRequest) (user : User) : H PageResponse :=
  match request with
  | PgHome params => home user params
  | PgInstances => instances_fragment user
  | PgSidebar => sidebar_fragment user
  | PgHostMetrics params => host_metrics params
  | PgNew => new_form user
  | PgCreate form => create user form
  | PgTab tab uuid params => page user uuid tab params 200 None
  | PgMetrics uuid params => metrics user uuid params
  | PgState uuid => state_fragment user uuid
  | PgSocket uuid cols rows start origin upgrade => socket user uuid cols rows start origin upgrade
  | PgSaveSettings uuid form => save_settings user uuid form
  | PgAddShare uuid user_field user_text => add_share user uuid user_field user_text
  | PgRemoveShare uuid target => remove_share user uuid target
  | PgAction act uuid => action user uuid act
  | PgDelete uuid confirm => delete user uuid confirm
  | PgUsers params => users user params
  | PgConfiguration params => configuration user params
  | PgAddImage name reference => add_image user name reference
  | PgAccount params => account user params
  | PgAddKey public_key comment => add_key user public_key comment
  | PgRemoveKey id => remove_key user id
  | PgOldAccount => mret (RedirectPermanent ACCOUNT)
  end.
Definition signed_out (hx_request : bool) : PageResponse :=
  Html 401 ("<!doctype html><title>Sign in</title><p>Your session ended. <a href=" +:+ quoted "/" +:+ ">Sign in again</a>.</p>")
    (if hx_request then Some "/" else None).
(** [router] behind [authenticate]; [hx_request]: the header is there. *)
Definition pages (request : PageRequest) (hx_request : bool) : prog gcall PageResponse :=
  Call (GApi AUserFromHeaders) (fun r =>
    match r with
    | Ok user => prog_bind _ _ (fun r => Ret (match r with Ok response | Err response => response end)) (handle_page request user)
    | Err _ => Ret (signed_out hx_request)
    end).
End Pages.

(** ** What the browser gets *)

(** [render]: a template that fails is a page of its own. *)
Definition render (engine : string -> Ctx -> result string string) (status : Z) (template : string) (ctx : Ctx) : Z * string :=
  match engine template ctx with
  | Ok body => (status, body)
  | Err error => (500, "<!doctype html><title>Error</title><p>Template error: " +:+ escape error +:+ "</p>")
  end.

(** ** The browser's side of a terminal: [from_browser] of [run] *)

Inductive Message : Type :=
  | Binary (bytes : list Z) | TextMessage (text : string) | CloseMessage | PingMessage | PongMessage.
(** What goes to the guest.  [control] reads a control message: the size it
    asks for, or nothing for one it does not know. *)
Inductive ToGuest : Type := Keys (bytes : list Z) | Resized (size : TerminalSize).
Section Browser.
Variable control : string -> option (Z * Z).
Fixpoint from_browser (messages : list Message) : list ToGuest :=
  match messages with
  | [] => []
  | Binary bytes :: messages => Keys bytes :: from_browser messages
  | TextMessage text :: messages =>
      match control text with
      | Some (cols, rows) => Resized (clamped (Some cols) (Some rows)) :: from_browser messages
      | None => from_browser messages
      end
  | CloseMessage :: _ => []
  | (PingMessage | PongMessage) :: messages => from_browser messages
  end.
End Browser.
