(* ===== verification/PagesRuns.v ===== *)
(** * PagesRuns: what the dashboard does for a user

    Every run of every route, whatever the authenticator, the store, the
    lifecycle, the measurements and the console answer. *)

From Stdlib Require Import ZArith QArith Qround Lqa Lia.
From S2P Require Import Prelude Text Float64 Types Db Prog Pool Lifecycle Cli Api ApiRuns PageText Pages.
Open Scope Z_scope.

(** The calls of the JSON interface among the calls of a run. *)
Definition api_event (e : event gcall) : option (event acall) :=
  match ev_call e in gcall R return R -> option (event acall) with
  | GApi c => fun r => Some (mkEvent c r)
  | _ => fun _ => None
  end (ev_reply e).
Definition apis (tr : list (event gcall)) : list (event acall) := omap api_event tr.
Lemma apis_in {R} (c : acall R) r tr : mkEvent (GApi c) r ∈ tr -> mkEvent c r ∈ apis tr.
Proof. intros Hin. apply list_elem_of_omap. by exists (mkEvent (GApi c) r). Qed.
Lemma apis_sub tr tr' : tr ⊆ tr' -> apis tr ⊆ apis tr'.
Proof. intros Hs e He. apply list_elem_of_omap in He as (x & Hx & He). apply list_elem_of_omap. exists x. split; [by apply Hs|done]. Qed.
Lemma apis_app tr tr' : apis (tr ++ tr') = apis tr ++ apis tr'.
Proof. apply omap_app. Qed.

(** ** What a call may be *)

(** The routes that are reached by a [POST] only. *)
Definition is_post (request : PageRequest) : bool :=
  match request with
  | PgCreate _ | PgSaveSettings _ _ | PgAddShare _ _ _ | PgRemoveShare _ _ | PgAction _ _ | PgDelete _ _ | PgAddImage _ _
  | PgAddKey _ _ | PgRemoveKey _ => true
  | _ => false
  end.
(** The page of an instance's shares. *)
Definition sharing_tab (request : PageRequest) : bool :=
  match request with PgTab TabSharing _ _ => true | _ => false end.
Definition changing {R} (c : acall R) : bool :=
  match c with
  | AAddShare _ _ | ARemoveShare _ _ | AAddSshKey _ _ _ _ | ADeleteSshKey _ _ | AAddOciImage _ _ | ACreate _ _ | ADelete _
  | AAct _ _ | ARename _ _ | AResize _ _ | ASetHttpPort _ _ | ASetVisibility _ _ => true
  | _ => false
  end.

Section Runs.
#[local] Instance B_ret {X} : MRet (B X) := fallible_ret.
#[local] Instance B_bind {X} : MBind (B X) := fallible_bind.
#[local] Instance H_ret : MRet H := fallible_ret.
#[local] Instance H_bind : MBind H := fallible_bind.
Context (self : PagesConfig) (debug_duration date : Z -> string) (canonical_reason : Z -> option string)
        (from_openssh : string -> option PublicKey).
#[local] Abbreviation config := (pc_api self).
Variable request : PageRequest.

Section Rights.
Variable user : User.
(** The instance is one the store has shown, and the user owns it or the
    store has shown a share of it. *)
Definition readable (before : list (event acall)) (i : Instance) : Prop :=
  exists key, mkEvent (AInstance key) (Ok i) ∈ before /\
    (i_owner_id i = u_id user \/
     exists shares, mkEvent (ASharesFor (i_uuid i)) (Ok shares) ∈ before /\ holds_share user shares = true).
Definition form_may {R} (before : list (event acall)) (c : acall R) : Prop :=
  match c with
  | AUsageFor id => id = u_id user \/ is_operator config user = true
  | AInstances => (exists params, request = PgHome params) \/ is_operator config user = true
  | ADelete uuid =>
      exists key i path confirm, mkEvent (AInstance key) (Ok i) ∈ before /\ i_uuid i = uuid /\ i_owner_id i = u_id user /\
        request = PgDelete path confirm /\ trim_white confirm = i_name i
  | ASetVisibility uuid v =>
      owns user before uuid \/ (exists spec i, mkEvent (ACreate user spec) (Ok i) ∈ before /\ i_uuid i = uuid /\ v = Public)
  | ATempDir | ADumpDb _ | AReadFile _ | ADropTempDir _ | ATimestamp => False
  | c => user_may config user before c
  end.
Definition viewer_may {R} (before : list (event gcall)) (c : gcall R) : Prop :=
  match c with
  | GApi c => form_may (apis before) c /\ (changing c = true -> is_post request = true)
  | GUsers => is_operator config user = true \/ (sharing_tab request = true /\ exists uuid, owns user (apis before) uuid)
  | GUserMetrics _ => is_operator config user = true
  | GInstanceMetrics uuid _ => exists i, i_uuid i = uuid /\ readable (apis before) i
  | GHosts window => 60 <= window <= 86400
  | GAttach i size _ =>
      readable (apis before) i /\ 1 <= ts_cols size <= 1000 /\ 1 <= ts_rows size <= 1000 /\
      exists uuid cols rows start, request =
        PgSocket uuid cols rows start (Some ("https://" +:+ pc_base_domain self)) (Ok tt)
  | GClose frame => (String.length (cf_reason frame) <= 123)%nat
  | GNow | GUpgrade => True
  end.

(** ** What a response may show *)

Definition listed (tr : list (event acall)) (i : Instance) : Prop :=
  exists l, i ∈ l /\ (mkEvent (AInstancesByOwner (u_id user)) (Ok l) ∈ tr \/ mkEvent (AInstancesSharedWith (u_id user)) (Ok l) ∈ tr).
Definition sees (tr : list (event acall)) (vm : VmView) : Prop :=
  exists i, vv_uuid vm = i_uuid i /\ vv_name vm = i_name i /\ vv_mine vm = (i_owner_id i =? u_id user) /\
    (readable tr i \/ listed tr i).
(** The sidebar: the user's name, and instances the store said the user owns or
    has a share of. *)
Definition in_sidebar (tr : list (event acall)) (vm : SidebarVm) : Prop :=
  exists i, sv_uuid vm = i_uuid i /\ sv_name vm = i_name i /\ sv_shared vm = negb (i_owner_id i =? u_id user) /\ listed tr i.
Definition shell_shows (tr : list (event acall)) (shell : Shell) : Prop :=
  s_user shell = mkUserCtx (u_id user) (u_name user) (u_email user) (is_operator config user) /\
  Forall (in_sidebar tr) (s_vms shell).
Definition shell_of (cx : Ctx) : option Shell :=
  match cx with
  | CxHome shell _ _ _ _ _ | CxSidebar shell | CxNew shell _ _ _ | CxVm shell _ | CxUsers shell _ _ _ _
  | CxConfiguration shell _ _ _ _ _ | CxAccount shell _ _ _ | CxError shell _ _ _ => Some shell
  | CxInstances _ _ _ | CxState _ => None
  end.
(** The rest of a page.  Everybody's instances go into the totals of the
    machines only. *)
Definition body_shows (tr : list (event acall)) (cx : Ctx) : Prop :=
  match cx with
  | CxHome _ instances _ _ _ hosts => Forall (sees tr) instances /\
      exists all machines, mkEvent AInstances (Ok all) ∈ tr /\ hosts = host_figures all <$> (machines : list HostMetrics)
  | CxInstances instances _ _ => Forall (sees tr) instances
  | CxVm _ data =>
      sees tr (vd_vm data) /\
      (vd_shares data <> [] \/ vd_candidates data <> [] -> vd_tab data = TabSharing /\ exists uuid, owns user tr uuid)
  | CxState vm => sees tr vm
  | CxUsers _ _ _ _ _ | CxConfiguration _ _ _ _ _ _ => is_operator config user = true
  | _ => True
  end.
Definition page_shows (tr : list (event acall)) (response : PageResponse) : Prop :=
  match response with
  | Rendered _ _ cx => match shell_of cx with Some shell => shell_shows tr shell | None => True end /\ body_shows tr cx
  | _ => True
  end.
End Rights.

(** The response says that something went wrong. *)
Definition told (response : PageResponse) : Prop :=
  match response with
  | Rendered _ _ (CxNew _ _ _ error) | Rendered _ _ (CxConfiguration _ _ _ _ _ error) | Rendered _ _ (CxAccount _ _ _ error) =>
      error <> None
  | Rendered _ _ (CxVm _ data) => vd_error data <> None
  | Rendered _ _ (CxError _ _ _ _) => True
  | Html _ _ _ => True
  | RedirectTo location => exists path message, location = path +:+ "?warn=" +:+ urlencode message
  | _ => False
  end.

Definition page_may (before : list (event gcall)) (e : event gcall) : Prop :=
  match ev_call e with
  | GApi AUserFromHeaders => before = []
  | c => exists user, mkEvent (GApi AUserFromHeaders) (Ok user) ∈ before /\ viewer_may user before c
  end.
#[local] Abbreviation does := (after page_may).
#[local] Abbreviation all_right tr := (all_done (apis tr)).

Section Viewer.
Variable user : User.
Definition present (tr : list (event gcall)) : Prop := mkEvent (GApi AUserFromHeaders) (Ok user) ∈ tr.
(** More calls, none of them a change that was refused. *)
Definition grows (before tr : list (event gcall)) : Prop :=
  before ⊆ tr /\ present tr /\ (all_right before -> all_right tr).

Lemma grows_refl before : present before -> grows before before.
Proof. done. Qed.
Lemma grows_trans a b c : grows a b -> grows b c -> grows a c.
Proof. intros (H1&_&H2) (H3&H4&H5). split_and!; [set_solver|done|auto]. Qed.

Lemma viewer_call {R} before (c : gcall R) r : present before -> viewer_may user before c -> page_may before (mkEvent c r).
Proof.
  intros Hp Hc. unfold page_may. cbn [ev_call].
  destruct c as [R c| | | | | | | |]; try (exists user; done). destruct c; try (exists user; done). by destruct Hc as [[] _].
Qed.
Definition unrefused (e : event gcall) : Prop := forall x, api_event e = Some x -> refused_change x = false.
Lemma grows_snoc before e : present before -> unrefused e -> grows before (before ++ [e]).
Proof.
  intros Hp He. split_and!; [set_solver|unfold present in *; set_solver|]. intros Ha. rewrite apis_app. apply Forall_app.
  split; [done|]. unfold apis. cbn. destruct (api_event e) as [x|] eqn:Hx; constructor; [by apply He|constructor].
Qed.
Lemma present_snoc before e : present before -> present (before ++ [e]).
Proof. unfold present. set_solver. Qed.

(** ** Reading *)

Definition reading {R} (c : gcall R) : bool := match c with GApi c => negb (changing c) && negb (match c with ADumpDb _ => true | _ => false end) | _ => true end.
Lemma reading_unrefused {R} (c : gcall R) r : reading c = true -> unrefused (mkEvent c r).
Proof. intros Hc x. destruct c as [R c| | | | | | | |]; try done. destruct c; try done; by intros [= <-]. Qed.

(** Programs that change nothing: [reads] may fail with an error, [answers]
    with a page that says so. *)
Definition reads {X T} (before : list (event gcall)) (p : B X T) (P : list (event gcall) -> T -> Prop) : Prop :=
  does before p (fun tr r => grows before tr /\ match r with Ok a => P tr a | Err _ => True end).
Definition answers {T} (before : list (event gcall)) (p : H T) (P : list (event gcall) -> T -> Prop) : Prop :=
  does before p (fun tr r => grows before tr /\ match r with Ok a => P tr a | Err page => page_shows user (apis tr) page /\ told page end).

Lemma reads_ret {X T} before (a : T) P : present before -> P before a -> reads before (mret a : B X T) P.
Proof. intros Hp Ha. by apply after_ret. Qed.
Lemma reads_throw {X T} before (e : X) P : present before -> reads (T := T) before (throw e) P.
Proof. intros Hp. by apply after_ret. Qed.
Lemma reads_bind {X T U} before (p : B X T) (f : T -> B X U) P Q :
  reads before p P -> (forall tr a, grows before tr -> P tr a -> reads tr (f a) Q) -> reads before (fallible_bind _ _ f p) Q.
Proof.
  intros Hp Hf. apply after_try. eapply after_mono; [|exact Hp]. intros tr [a|e] [Hg Ha]; [|done].
  eapply after_mono; [|by apply Hf]. intros tr' r [Hg' Hr]. split; [by eapply grows_trans|done].
Qed.
Lemma reads_asked {T} before (c : gcall (result ApiError T)) (P : list (event gcall) -> T -> Prop) :
  present before -> viewer_may user before c -> reading c = true ->
  (forall a, P (before ++ [mkEvent c (Ok a)]) a) -> reads before (asked c) P.
Proof.
  intros Hp Hm Hc HP. apply after_ask; [intros r; by apply viewer_call|].
  intros r. split; [apply grows_snoc; [done|by apply reading_unrefused]|]. destruct r; [apply HP|done].
Qed.
Lemma reads_attempt {X Y T} before (c : gcall (result Y T)) (P : list (event gcall) -> result Y T -> Prop) :
  present before -> viewer_may user before c -> reading c = true ->
  (forall r, P (before ++ [mkEvent c r]) r) -> reads before (attempt c : B X _) P.
Proof.
  intros Hp Hm Hc HP. apply after_attempt; [intros r; by apply viewer_call|].
  intros r. split; [apply grows_snoc; [done|by apply reading_unrefused]|apply HP].
Qed.
Lemma reads_get {X R} before (c : gcall R) (P : list (event gcall) -> R -> Prop) :
  present before -> viewer_may user before c -> reading c = true ->
  (forall r, P (before ++ [mkEvent c r]) r) -> reads before (get c : B X _) P.
Proof.
  intros Hp Hm Hc HP. apply after_get; [intros r; by apply viewer_call|].
  intros r. split; [apply grows_snoc; [done|by apply reading_unrefused]|apply HP].
Qed.
Lemma reads_mono {X T} before (p : B X T) (P Q : list (event gcall) -> T -> Prop) :
  (forall tr a, grows before tr -> P tr a -> Q tr a) -> reads before p P -> reads before p Q.
Proof. intros HPQ. apply after_mono. intros tr [a|e] [Hg Ha]; auto. Qed.

Lemma answers_ret {T} before (a : T) P : present before -> P before a -> answers before (mret a) P.
Proof. intros Hp Ha. by apply after_ret. Qed.
Lemma answers_throw {T} before page P : present before -> page_shows user (apis before) page -> told page -> answers (T := T) before (throw page) P.
Proof. intros Hp Hs Ht. by apply after_ret. Qed.
Lemma answers_bind {T U} before (p : H T) (f : T -> H U) P Q :
  answers before p P -> (forall tr a, grows before tr -> P tr a -> answers tr (f a) Q) -> answers before (fallible_bind _ _ f p) Q.
Proof.
  intros Hp Hf. apply after_try. eapply after_mono; [|exact Hp]. intros tr [a|e] [Hg Ha]; [|done].
  eapply after_mono; [|by apply Hf]. intros tr' r [Hg' Hr]. split; [by eapply grows_trans|done].
Qed.
Lemma answers_caught {X T} before (p : B X T) P (Q : list (event gcall) -> result X T -> Prop) :
  reads before p P -> (forall tr r, grows before tr -> match r with Ok a => P tr a | Err _ => True end -> Q tr r) ->
  answers before (caught p) Q.
Proof. intros Hp HQ. apply after_bind. eapply after_mono; [|exact Hp]. intros tr r [Hg Hr]. apply after_ret. by split; [|apply HQ]. Qed.
Lemma answers_attempt {Y T} before (c : gcall (result Y T)) (P : list (event gcall) -> result Y T -> Prop) :
  present before -> viewer_may user before c -> reading c = true ->
  (forall r, P (before ++ [mkEvent c r]) r) -> answers before (attempt c) P.
Proof.
  intros Hp Hm Hc HP. apply after_attempt; [intros r; by apply viewer_call|].
  intros r. split; [apply grows_snoc; [done|by apply reading_unrefused]|apply HP].
Qed.
Lemma grows_present before tr : grows before tr -> present tr.
Proof. by intros (_&?&_). Qed.

(** ** The parts of a page *)

Lemma readable_mono tr tr' i : tr ⊆ tr' -> readable user tr i -> readable user tr' i.
Proof. intros Hs (key & Hi & Hr). exists key. split; [by apply Hs|]. destruct Hr as [?|(l & Hl & ?)]; [by left|right]. exists l. split; [by apply Hs|done]. Qed.
Lemma sees_mono tr tr' vm : tr ⊆ tr' -> sees user tr vm -> sees user tr' vm.
Proof.
  intros Hs (i & H1 & H2 & H3 & Hr). exists i. split_and!; [done..|]. destruct Hr as [Hr|(l & Hl & Hr)]; [left; by eapply readable_mono|right].
  exists l. split; [done|]. destruct Hr; [left|right]; by apply Hs.
Qed.
Lemma shell_mono tr tr' shell : tr ⊆ tr' -> shell_shows user tr shell -> shell_shows user tr' shell.
Proof.
  intros Hs [Hu Hv]. split; [done|]. eapply Forall_impl; [exact Hv|]. intros vm (i & H1 & H2 & H3 & l & Hl & Hr).
  exists i. split_and!; [done..|]. exists l. split; [done|]. destruct Hr; [left|right]; by apply Hs.
Qed.
Lemma shell_grows before tr shell : grows before tr -> shell_shows user (apis before) shell -> shell_shows user (apis tr) shell.
Proof. intros Hg. apply shell_mono, apis_sub, Hg. Qed.
Lemma page_owned_mono tr tr' uuid : tr ⊆ tr' -> owns user tr uuid -> owns user tr' uuid.
Proof. intros Hs (key & i & Hi & ?). exists key, i. split; [by apply Hs|done]. Qed.

(** A call that changes nothing and that every viewer may make. *)
Ltac free_call := first [done | split; [done|discriminate] | split; [exact I|discriminate] | split; [by left|discriminate]].

(** Programs that cannot fail. *)
Definition succeeds {X T} (before : list (event gcall)) (p : B X T) (P : T -> Prop) : Prop :=
  does before p (fun tr r => grows before tr /\ exists a, r = Ok a /\ P a).
Lemma succeeds_ret {X T} before (a : T) (P : T -> Prop) : present before -> P a -> succeeds before (mret a : B X T) P.
Proof. intros Hp Ha. apply after_ret. split; [done|by exists a]. Qed.
Lemma succeeds_bind {X T U} before (p : B X T) (f : T -> B X U) P Q :
  succeeds before p P -> (forall tr a, grows before tr -> P a -> succeeds tr (f a) Q) -> succeeds before (fallible_bind _ _ f p) Q.
Proof.
  intros Hp Hf. apply after_try. eapply after_mono; [|exact Hp]. intros tr r (Hg & a & -> & Ha).
  eapply after_mono; [|by apply Hf]. intros tr' r' [Hg' Hr]. split; [by eapply grows_trans|done].
Qed.
Lemma succeeds_get {X R} before (c : gcall R) : present before -> viewer_may user before c -> reading c = true ->
  succeeds before (get c : B X R) (fun _ => True).
Proof.
  intros Hp Hm Hc. apply after_get; [intros r; by apply viewer_call|]. intros r.
  split; [apply grows_snoc; [done|by apply reading_unrefused]|by eexists].
Qed.
Lemma succeeds_relative {X} before value : present before -> succeeds before (relative date value : B X string) (fun _ => True).
Proof.
  intros Hp. destruct value as [[|t|t]|]; cbn [relative]; try by apply succeeds_ret.
  all: eapply succeeds_bind; [by apply (succeeds_get before GNow)|].
  all: intros tr now Hg _; apply succeeds_ret; [by eapply grows_present|done].
Qed.
Lemma succeeds_vm_view {X} before i : present before ->
  succeeds before (vm_view self date i user : B X VmView) (fun vm =>
    vv_uuid vm = i_uuid i /\ vv_name vm = i_name i /\ vv_mine vm = (i_owner_id i =? u_id user)).
Proof.
  intros Hp. apply succeeds_bind with (P := fun _ => True).
  { unfold owner_name. destruct (_ =? _); [by apply succeeds_ret|].
    apply after_try, after_attempt; [intros r; apply viewer_call; free_call|]. intros r. apply after_ret.
    split; [apply grows_snoc; [done|by apply reading_unrefused]|by eexists]. }
  intros tr owner Hg _. eapply succeeds_bind; [apply succeeds_relative; by eapply grows_present|].
  intros tr2 created Hg2 _. eapply succeeds_bind; [apply succeeds_relative; by eapply grows_present|].
  intros tr3 seen Hg3 _. apply succeeds_ret; [by eapply grows_present|done].
Qed.
Lemma succeeds_reads {X T} before (p : B X T) (P : T -> Prop) : succeeds before p P -> reads before p (fun _ => P).
Proof. apply after_mono. by intros tr r (Hg & a & -> & Ha). Qed.
Lemma succeeds_answers {T} before (p : H T) (P : T -> Prop) : succeeds before p P -> answers before p (fun _ => P).
Proof. apply after_mono. by intros tr r (Hg & a & -> & Ha). Qed.
Lemma reads_visible before : present before ->
  reads before (visible_instances user) (fun tr l => Forall (listed user (apis tr)) l).
Proof.
  intros Hp. eapply reads_bind.
  { apply (reads_asked before (GApi (AInstancesByOwner (u_id user))) (fun tr l => mkEvent (AInstancesByOwner (u_id user)) (Ok l) ∈ apis tr)); [done|free_call|done|].
    intros l. apply apis_in. set_solver. }
  intros tr l Hg Hl. eapply reads_bind.
  { apply (reads_asked tr (GApi (AInstancesSharedWith (u_id user))) (fun tr l => mkEvent (AInstancesSharedWith (u_id user)) (Ok l) ∈ apis tr)); [by eapply grows_present|free_call|done|].
    intros l'. apply apis_in. set_solver. }
  intros tr2 l' Hg2 Hl'. apply reads_ret; [by eapply grows_present|]. apply Forall_forall. intros i Hi.
  rewrite elem_of_sort_by in Hi. apply elem_of_app in Hi as [Hi|Hi]; [exists l|exists l']; (split; [done|]); [left|by right].
  eapply apis_sub; [apply Hg2|done].
Qed.
Lemma reads_shell before path params : present before -> reads before (shell self user path params) (fun tr sh => shell_shows user (apis tr) sh).
Proof.
  intros Hp. eapply reads_bind; [by apply reads_visible|]. intros tr l Hg Hl. apply reads_ret; [by eapply grows_present|].
  split; [done|]. cbn. apply Forall_fmap. eapply Forall_impl; [exact Hl|]. intros i Hi. by exists i.
Qed.
(** The shell, where its failure is matched on. *)
Lemma answers_shell before path params : present before ->
  answers before (caught (shell self user path params)) (fun tr r => forall sh, r = Ok sh -> shell_shows user (apis tr) sh).
Proof.
  intros Hp. eapply answers_caught; [by apply reads_shell|]. intros tr r Hg Hr sh ->. exact Hr.
Qed.
Lemma reads_readable before uuid : present before ->
  reads before (readable_instance uuid user) (fun tr r => forall i, r = Some i ->
    mkEvent (AInstance uuid) (Ok i) ∈ apis tr /\ readable user (apis tr) i).
Proof.
  intros Hp. eapply reads_bind.
  { apply (reads_attempt before (GApi (AInstance uuid)) (fun tr r => mkEvent (AInstance uuid) r ∈ apis tr)); [done|free_call|done|].
    intros r. apply apis_in. set_solver. }
  intros tr [i|e] Hg Hi; cbv beta iota.
  2: { destruct (is_not_found e); [by apply reads_ret; [eapply grows_present|]|apply reads_throw; by eapply grows_present]. }
  apply reads_bind with (P := fun tr b => b = true -> mkEvent (AInstance uuid) (Ok i) ∈ apis tr /\ readable user (apis tr) i).
  2: { intros tr2 b Hg2 Hb. apply reads_ret; [by eapply grows_present|]. destruct b; [intros ? [= <-]; by apply Hb|done]. }
  unfold of_api, can_read_instance. destruct (Z.eqb_spec (i_owner_id i) (u_id user)) as [Ho|Ho].
  { apply (reads_ret (X := ApiError)); [by eapply grows_present|]. intros _. split; [done|]. exists uuid. auto. }
  apply after_call; [intros r; apply (viewer_call); [by eapply grows_present|split; [by exists uuid, i|discriminate]]|].
  intros r. apply after_ret. split.
  { apply grows_snoc; [by eapply grows_present|by apply reading_unrefused]. }
  destruct r as [shares|e]; [|done]. intros Hs. rewrite apis_app.
  split; [set_solver|]. exists uuid. split; [set_solver|]. right. exists shares. split; [|done].
  apply elem_of_app. right. apply apis_in. set_solver.
Qed.

#[local] Abbreviation failing := (failed self debug_duration canonical_reason).
(** A page that shows nothing of an instance and says what went wrong. *)
Definition sorry (tr : list (event gcall)) (page : PageResponse) : Prop := page_shows user (apis tr) page /\ told page.
Lemma answers_failed before path e : present before -> answers before (failing user path e) sorry.
Proof.
  intros Hp. unfold failed. destruct (Api.error_parts _ e) as [status message].
  eapply answers_bind; [by apply answers_shell|].
  intros tr [shell|e'] Hg Hsh; (apply answers_ret; [by eapply grows_present|]); [|by split].
  split; [|done]. split; [by apply Hsh|done].
Qed.
Lemma answers_fails {T} before path e P : present before -> answers (T := T) before (fails self debug_duration canonical_reason user path e) P.
Proof.
  intros Hp. eapply answers_bind; [by apply answers_failed|]. intros tr page Hg [Hs Ht]. apply answers_throw; [by eapply grows_present|done|done].
Qed.
Lemma answers_or_fails {T} before path (p : B ApiError T) P : present before -> reads before p P ->
  answers before (or_fails self debug_duration canonical_reason user path p) P.
Proof.
  intros Hp Hr. eapply answers_bind.
  { eapply answers_caught; [exact Hr|]. intros tr r Hg HP.
    exact (HP : (fun tr r => match r with Ok a => P tr a | Err _ => True end) tr r). }
  intros tr [a|e] Hg HP; [apply answers_ret; [by eapply grows_present|done]|apply answers_fails; by eapply grows_present].
Qed.

(** ** What a handler ends with *)

Definition finished (tr : list (event gcall)) (r : result PageResponse PageResponse) : Prop :=
  present tr /\ match r with Ok page | Err page => page_shows user (apis tr) page /\ (told page \/ all_right tr) end.
Definition finishes (before : list (event gcall)) (p : H PageResponse) : Prop := does before p finished.

Lemma page_finishes_bind {T} before (p : H T) (f : T -> H PageResponse) P :
  answers before p P -> (forall tr a, grows before tr -> P tr a -> finishes tr (f a)) -> finishes before (fallible_bind _ _ f p).
Proof.
  intros Hp Hf. apply after_try. eapply after_mono; [|exact Hp]. intros tr [a|page] [Hg Ha]; [by apply Hf|].
  split; [by eapply grows_present|]. destruct Ha. auto.
Qed.
Lemma finishes_right before (p : H PageResponse) :
  all_right before -> answers before p (fun tr page => page_shows user (apis tr) page) -> finishes before p.
Proof.
  intros Ha. apply after_mono. intros tr [page|page] [Hg Hr]; (split; [by eapply grows_present|]).
  - split; [done|]. right. by apply Hg.
  - destruct Hr. auto.
Qed.
Lemma finishes_sorry before (p : H PageResponse) : answers before p sorry -> finishes before p.
Proof. apply after_mono. intros tr [page|page] [Hg [Hs Ht]]; (split; [by eapply grows_present|auto]). Qed.
(** A page with room for a message: without one it answers the request, with
    one it says so. *)
Definition renders (before : list (event gcall)) (error : option string) (p : H PageResponse) : Prop :=
  answers before p (fun tr page => page_shows user (apis tr) page /\ (error <> None -> told page)).
Lemma renders_finish before p : renders before None p -> all_right before -> finishes before p.
Proof.
  intros Hr Ha. apply finishes_right; [done|]. eapply after_mono; [|exact Hr].
  intros tr [page|page] [Hg Hp]; (split; [done|]); [apply Hp|done].
Qed.
Lemma renders_sorry before p message : renders before (Some message) p -> finishes before p.
Proof.
  intros Hr. apply finishes_sorry. eapply after_mono; [|exact Hr].
  intros tr [page|page] [Hg Hp]; (split; [done|]); [|done]. destruct Hp as [? Ht]. split; [done|]. by apply Ht.
Qed.
Lemma finishes_ret before page :
  present before -> page_shows user (apis before) page -> told page \/ all_right before -> finishes before (mret page).
Proof. intros Hp Hs Ht. by apply after_ret. Qed.
(** A change: whatever is answered, the handler goes on with it. *)
Lemma finishes_change {T} before (c : acall (result ApiError T)) (k : result ApiError T -> H PageResponse) :
  present before -> viewer_may user before (GApi c) -> (forall a, refused_change (mkEvent c (Ok a)) = false) ->
  (forall a, grows before (before ++ [mkEvent (GApi c) (Ok a)]) -> finishes (before ++ [mkEvent (GApi c) (Ok a)]) (k (Ok a))) ->
  (forall e, present (before ++ [mkEvent (GApi c) (Err e)]) -> finishes (before ++ [mkEvent (GApi c) (Err e)]) (k (Err e))) ->
  finishes before (fallible_bind _ _ k (attempt (GApi c))).
Proof.
  intros Hp Hm Hr Hok Herr. apply after_try, after_attempt; [intros r; by apply viewer_call|].
  intros [a|e]; [apply Hok, grows_snoc; [done|]|by apply Herr, present_snoc]. intros x [= <-]. apply Hr.
Qed.

(** The pages that are an [async] block. *)
Lemma answers_or_failed before path (p : B ApiError PageResponse) (P : list (event gcall) -> PageResponse -> Prop) :
  present before -> reads before p P -> (forall tr page, sorry tr page -> P tr page) ->
  answers before (or_failed self debug_duration canonical_reason user path p) P.
Proof.
  intros Hp Hr HP. eapply answers_bind.
  { eapply answers_caught; [exact Hr|]. intros tr r Hg Ha.
    exact (Ha : (fun tr r => match r with Ok a => P tr a | Err _ => True end) tr r). }
  intros tr [a|e] Hg Ha; [apply answers_ret; [by eapply grows_present|done]|].
  eapply after_mono; [|apply answers_failed; by eapply grows_present]. intros tr' [page|page] [Hg' Hs]; (split; [done|auto]).
Qed.

(** ** [home.rs] *)

Lemma reads_views_of before l counts : present before -> Forall (listed user (apis before)) l ->
  reads before (views_of self date l user counts) (fun tr r => Forall (sees user (apis tr)) r.1).
Proof.
  revert before counts. induction l as [|i l IH]; intros before counts Hp Hl; [by apply reads_ret|].
  apply Forall_cons in Hl as [Hi Hl]. eapply reads_bind; [by apply succeeds_reads, succeeds_vm_view|]. intros tr vm Hg (H1&H2&H3).
  pose proof (apis_sub _ _ (proj1 Hg)) as Hsub.
  assert (Hmono : forall x, listed user (apis before) x -> listed user (apis tr) x).
  { intros x (k & Hx & Hk). exists k. split; [done|]. destruct Hk; [left|right]; by apply Hsub. }
  eapply reads_bind; [apply IH; [by eapply grows_present|by eapply Forall_impl]|].
  intros tr2 [rest counts'] Hg2 Hrest. apply reads_ret; [by eapply grows_present|]. constructor; [|done].
  apply (sees_mono (apis tr)); [apply apis_sub, Hg2|]. exists i. split_and!; [done..|]. right. by apply Hmono.
Qed.
Lemma reads_views before : present before -> reads before (views self date user) (fun tr r => Forall (sees user (apis tr)) r.1).
Proof.
  intros Hp. eapply reads_bind; [by apply reads_visible|]. intros tr l Hg Hl. apply reads_views_of; [by eapply grows_present|done].
Qed.
Lemma sees_all_mono tr tr' l : grows tr tr' -> Forall (sees user (apis tr)) l -> Forall (sees user (apis tr')) l.
Proof. intros Hg Hl. eapply Forall_impl; [exact Hl|]. intros vm Hv. eapply sees_mono; [apply apis_sub, Hg|done]. Qed.
Lemma home_finishes before params : request = PgHome params -> present before -> all_right before ->
  finishes before (home self debug_duration date canonical_reason user params).
Proof.
  intros Hreq Hp Ha. apply finishes_right; [done|]. apply answers_or_failed; [done| |by intros tr page []].
  eapply reads_bind; [by apply reads_shell|]. intros tr shell Hg Hsh.
  eapply reads_bind; [apply reads_views; by eapply grows_present|]. intros tr2 [l counts] Hg2 Hl.
  eapply reads_bind; [by apply (reads_asked tr2 (GHosts 60) (fun _ _ => True)); [eapply grows_present|cbn; lia| |]|]. intros tr3 hosts Hg3 _.
  eapply reads_bind.
  { eapply reads_bind; [apply (reads_asked tr3 (GApi (AUsageFor (u_id user))) (fun _ _ => True)); [by eapply grows_present|free_call|done|done]|].
    intros tr4 usage Hg4 _. apply (reads_ret _ _ (fun _ _ => True)); [by eapply grows_present|done]. }
  intros tr4 tiles Hg4 _.
  eapply reads_bind.
  { apply (reads_asked tr4 (GApi AInstances) (fun tr l => mkEvent AInstances (Ok l) ∈ apis tr)); [by eapply grows_present| |done|].
    - split; [left; by exists params|discriminate].
    - intros found. apply apis_in. set_solver. }
  intros tr5 all Hg5 Hall. apply reads_ret; [by eapply grows_present|].
  assert (Hg25 : grows tr2 tr5) by (eapply grows_trans; [exact Hg3|eapply grows_trans; [exact Hg4|exact Hg5]]).
  split; [eapply (shell_grows tr) in Hsh; [exact Hsh|by eapply grows_trans]|]. split; [by eapply sees_all_mono|by exists all, hosts].
Qed.

Lemma fragments_finish before : present before -> all_right before ->
  finishes before (instances_fragment self debug_duration date user) /\ finishes before (sidebar_fragment self debug_duration user).
Proof.
  intros Hp Ha. split; (apply finishes_right; [done|]).
  - eapply answers_bind; [eapply answers_caught; [by apply reads_views|]; intros tr r Hg Hr; exact (Hr : (fun tr r => _) tr r)|].
    intros tr [[l counts]|e] Hg Hr; (apply answers_ret; [by eapply grows_present|]); [done|]. by destruct (Api.error_parts _ e).
  - eapply answers_bind; [by apply answers_shell|].
    intros tr [shell|e] Hg Hr; (apply answers_ret; [by eapply grows_present|]); [split; [by apply Hr|done]|]. by destruct (Api.error_parts _ e).
Qed.
Lemma window_bounds params : 60 <= window_from params <= 86400.
Proof. unfold window_from. lia. Qed.
Lemma host_metrics_finishes before params : present before -> all_right before -> finishes before (host_metrics debug_duration params).
Proof.
  intros Hp Ha. apply finishes_right; [done|]. eapply answers_bind.
  { eapply (answers_caught _ _ (fun _ _ => True) (fun _ _ => True)); [|done]. eapply reads_bind.
    { apply (reads_asked before (GHosts (window_from params)) (fun _ _ => True)); [done|apply window_bounds|done|done]. }
    intros tr hosts Hg _. destruct (chosen_host params hosts); [apply reads_ret|apply reads_throw]; try done; by eapply grows_present. }
  intros tr [host|e] Hg _; (apply answers_ret; [by eapply grows_present|done]).
Qed.

Lemma render_new_answers before form status error : present before ->
  answers before (render_new self debug_duration canonical_reason user form status error)
    (fun tr page => page_shows user (apis tr) page /\ (error <> None -> told page)).
Proof.
  intros Hp. apply answers_or_failed; [done| |by intros tr page [? ?]].
  eapply reads_bind; [by apply reads_shell|]. intros tr shell Hg Hsh.
  eapply (reads_bind _ _ _ (fun _ _ => True)).
  { eapply (reads_bind _ _ _ (fun _ _ => True)); [apply reads_asked; [by eapply grows_present|free_call|done|done]|].
    intros tr2 l Hg2 _. apply reads_ret; [by eapply grows_present|done]. }
  intros tr2 images Hg2 _. apply reads_ret; [by eapply grows_present|]. split; [|done]. split; [by eapply shell_grows|done].
Qed.
Lemma new_form_finishes before : present before -> all_right before -> finishes before (new_form self debug_duration canonical_reason user).
Proof. intros Hp Ha. apply renders_finish; [by apply render_new_answers|done]. Qed.
Lemma render_new_sorry before form status message : present before ->
  finishes before (render_new self debug_duration canonical_reason user form status (Some message)).
Proof. intros Hp. eapply renders_sorry. by apply render_new_answers. Qed.
Lemma checked_name_ok name reserved v : checked_name name reserved = Ok v -> valid_name v = true /\ is_reserved v reserved = false.
Proof.
  unfold checked_name. cbv zeta. destruct (valid_name _) eqn:Hv; [|done]. cbn [negb]. destruct (is_reserved _ _) eqn:Hr; [done|].
  by intros [= <-].
Qed.
Lemma warn_told path message tr : present tr -> finishes tr (mret (warn path message)).
Proof. intros Hp. apply finishes_ret; [done|done|]. left. by exists path, message. Qed.
Lemma create_finishes before form : is_post request = true -> present before -> all_right before ->
  finishes before (create self debug_duration canonical_reason user form).
Proof.
  intros Hpost Hp Ha. unfold create. destruct (checked_name _ _) as [name|message] eqn:Hname; [|by apply render_new_sorry].
  apply checked_name_ok in Hname as [Hv Hr]. case_bool_decide as Hi; [by apply render_new_sorry|].
  destruct (_ || _); [by apply render_new_sorry|]. apply finishes_change; [done|by split|done| |].
  2: { intros e He. destruct (Api.error_parts _ e). by apply render_new_sorry. }
  intros i Hg. unfold publish. cbv zeta. destruct (checked (nf_public form)).
  2: { apply finishes_ret; [by eapply grows_present|done|]. right. by apply Hg. }
  apply finishes_change; [by eapply grows_present| |by intros []| |].
  - split; [|done]. right. exists (create_spec name form), i. split_and!; [|done|done]. apply apis_in. set_solver.
  - intros [] Hg2. apply finishes_ret; [by eapply grows_present|done|]. right. by apply Hg2, Hg.
  - intros e He. by apply warn_told.
Qed.

(** ** [vm.rs] *)

#[local] Abbreviation page_of := (page self debug_duration date canonical_reason user).
Lemma answers_load before uuid path params : present before ->
  answers before (load self debug_duration canonical_reason user uuid path params) (fun tr r =>
    shell_shows user (apis tr) r.1 /\ mkEvent (AInstance uuid) (Ok r.2) ∈ apis tr /\ readable user (apis tr) r.2).
Proof.
  intros Hp. eapply answers_bind; [apply answers_or_fails; [done|by apply reads_shell]|]. intros tr shell Hg Hsh.
  eapply answers_bind; [apply answers_or_fails; [|apply reads_readable]; by eapply grows_present|].
  intros tr2 [i|] Hg2 Hi.
  - apply answers_ret; [by eapply grows_present|]. split; [by eapply shell_grows|by apply Hi].
  - apply answers_throw; [by eapply grows_present|split; [by eapply shell_grows|done]|done].
Qed.
Lemma answers_share_names before shares : present before -> answers before (share_names shares) (fun _ _ => True).
Proof.
  revert before. induction shares as [|share shares IH]; intros before Hp; [by apply answers_ret|].
  eapply answers_bind; [apply (answers_attempt before (GApi (AUserById (sh_user_id share))) (fun _ _ => True)); [done|free_call|done|done]|].
  intros tr r Hg _. eapply answers_bind; [apply IH; by eapply grows_present|]. intros tr2 rest Hg2 _.
  apply answers_ret; [by eapply grows_present|done].
Qed.
(** A list that only the owner's sharing page asks for. *)
Lemma answers_if_sharing {T} before tab i (p : H (list T)) :
  present before -> (tab = TabSharing -> i_owner_id i = u_id user -> answers before p (fun _ _ => True)) ->
  answers before (if on_sharing user tab i then p else mret []) (fun _ l => l <> [] -> tab = TabSharing /\ i_owner_id i = u_id user).
Proof.
  intros Hp Hown. unfold on_sharing. destruct (Z.eqb_spec (i_owner_id i) (u_id user)) as [Ho|Ho].
  2: { rewrite andb_false_r. by apply answers_ret. }
  case_bool_decide as Ht; [|by apply answers_ret]. eapply after_mono; [|by apply Hown].
  by intros tr [l|page] [Hg Hl].
Qed.
Lemma page_answers before uuid tab params status error : (tab = TabSharing -> sharing_tab request = true) -> present before ->
  answers before (page_of uuid tab params status error) (fun tr page =>
    page_shows user (apis tr) page /\ (error <> None -> told page)).
Proof.
  intros Htab Hp. unfold page. cbv zeta. eapply answers_bind; [by apply answers_load|].
  intros tr [shell i] Hg (Hsh & Hi & Hr). cbn [fst snd] in Hsh, Hi, Hr.
  assert (Hown : forall tr', grows tr tr' -> i_owner_id i = u_id user -> owns user (apis tr') (i_uuid i)).
  { intros tr' Hg' Ho. exists uuid, i. split; [by apply (apis_sub tr); [apply Hg'|]|done]. }
  eapply answers_bind.
  { apply answers_if_sharing; [by eapply grows_present|]. intros Ht Ho.
    eapply answers_bind; [|intros tr2 shares Hg2 _; apply answers_share_names; by eapply grows_present].
    apply answers_or_fails; [by eapply grows_present|].
    apply (reads_asked tr (GApi (ASharesFor (i_uuid i))) (fun _ _ => True)); [by eapply grows_present| |done|done].
    split; [by exists uuid, i|discriminate]. }
  intros tr2 shares Hg2 Hs. eapply answers_bind.
  { apply answers_if_sharing; [by eapply grows_present|]. intros Ht Ho.
    eapply answers_bind; [|intros tr3 l Hg3 _; apply answers_ret; [by eapply grows_present|done]].
    apply answers_or_fails; [by eapply grows_present|].
    apply (reads_asked tr2 GUsers (fun _ _ => True)); [by eapply grows_present| |done|done].
    right. split; [by apply Htab|]. exists (i_uuid i). by apply Hown. }
  intros tr3 candidates Hg3 Hc. pose proof (grows_trans _ _ _ Hg2 Hg3) as Hg13.
  eapply (answers_bind _ _ _ (fun _ _ => True)).
  { destruct (bool_decide (tab = TabDashboard)); [|apply answers_ret; [by eapply grows_present|done]].
    eapply answers_bind; [|intros tr4 r Hg4 _; apply answers_ret; [by eapply grows_present|done]].
    apply (answers_attempt tr3 (GInstanceMetrics (i_uuid i) 60) (fun _ _ => True)); [by eapply grows_present| |done|done].
    exists i. split; [done|]. eapply readable_mono; [apply apis_sub, Hg13|done]. }
  intros tr4 [used placeholder] Hg4 _. pose proof (grows_trans _ _ _ Hg13 Hg4) as Hg14.
  eapply answers_bind; [apply succeeds_answers, succeeds_vm_view; by eapply grows_present|].
  intros tr5 vm Hg5 (H1&H2&H3). pose proof (grows_trans _ _ _ Hg14 Hg5) as Hg15.
  apply answers_ret; [by eapply grows_present|]. split; [|done]. split; [by eapply shell_grows|]. split.
  - exists i. split_and!; [done..|]. left. eapply readable_mono; [apply apis_sub, Hg15|done].
  - intros Hl. assert (tab = TabSharing /\ i_owner_id i = u_id user) as [? ?] by (destruct Hl as [Hl|Hl]; auto).
    split; [done|]. exists (i_uuid i). by apply Hown.
Qed.
Lemma page_finishes before uuid tab params status : (tab = TabSharing -> sharing_tab request = true) ->
  present before -> all_right before -> finishes before (page_of uuid tab params status None).
Proof. intros Ht Hp Ha. apply renders_finish; [by apply page_answers|done]. Qed.
Lemma page_sorry before uuid params status message : present before ->
  finishes before (page_of uuid TabSettings params status (Some message)).
Proof. intros Hp. eapply renders_sorry. by apply page_answers. Qed.
(** [readable_instance], matched on. *)
Lemma finishes_readable before uuid (k : result ApiError (option Instance) -> H PageResponse) : present before ->
  (forall tr i, grows before tr -> mkEvent (AInstance uuid) (Ok i) ∈ apis tr -> readable user (apis tr) i -> finishes tr (k (Ok (Some i)))) ->
  (forall tr, grows before tr -> finishes tr (k (Ok None))) ->
  (forall tr e, grows before tr -> finishes tr (k (Err e))) ->
  finishes before (fallible_bind _ _ k (caught (readable_instance uuid user))).
Proof.
  intros Hp Hsome Hnone Herr. eapply page_finishes_bind.
  { eapply answers_caught; [by apply reads_readable|]. intros tr r Hg Hr.
    exact (Hr : (fun tr r => match r with Ok a => forall i, a = Some i -> _ | Err _ => True end) tr r). }
  intros tr [[i|]|e] Hg Hr; [|by apply Hnone|by apply Herr]. destruct (Hr i eq_refl). by apply Hsome.
Qed.
Lemma metrics_finishes before uuid params : present before -> all_right before -> finishes before (metrics debug_duration user uuid params).
Proof.
  intros Hp Ha. apply finishes_readable; [done| | |].
  - intros tr i Hg Hi Hr. apply finishes_right; [by apply Hg|].
    eapply answers_bind; [apply (answers_attempt tr (GInstanceMetrics (i_uuid i) (window_from params)) (fun _ _ => True)); [by eapply grows_present|by exists i|done|done]|].
    intros tr2 [m|e] Hg2 _; (apply answers_ret; [by eapply grows_present|done]).
  - intros tr Hg. apply finishes_ret; [by eapply grows_present|done|right; by apply Hg].
  - intros tr e Hg. apply finishes_ret; [by eapply grows_present|done|right; by apply Hg].
Qed.
Lemma state_finishes before uuid : present before -> all_right before -> finishes before (state_fragment self debug_duration date user uuid).
Proof.
  intros Hp Ha. apply finishes_readable; [done| | |].
  - intros tr i Hg Hi Hr. apply finishes_right; [by apply Hg|].
    eapply answers_bind; [apply succeeds_answers, succeeds_vm_view; by eapply grows_present|].
    intros tr2 vm Hg2 (H1&H2&H3). apply answers_ret; [by eapply grows_present|]. split; [done|]. exists i. split_and!; [done..|]. left.
    eapply readable_mono; [apply apis_sub, Hg2|done].
  - intros tr Hg. apply finishes_ret; [by eapply grows_present|done|by left].
  - intros tr e Hg. apply finishes_ret; [by eapply grows_present|done|right; by apply Hg].
Qed.

Lemma answers_refuses {T} before path status message P : present before ->
  answers (T := T) before (refuses self debug_duration canonical_reason user path status message) P.
Proof.
  intros Hp. eapply answers_bind; [by apply answers_shell|].
  intros tr [shell|e] Hg Hsh; [apply answers_throw; [by eapply grows_present|split; [by apply Hsh|done]|done]|apply answers_fails; by eapply grows_present].
Qed.
Definition is_mine (uuid : string) (tr : list (event gcall)) (i : Instance) : Prop :=
  mkEvent (AInstance uuid) (Ok i) ∈ apis tr /\ i_owner_id i = u_id user.
Lemma answers_owned before uuid path : present before ->
  answers before (owned self debug_duration canonical_reason user uuid path) (is_mine uuid).
Proof.
  intros Hp. eapply answers_bind.
  { eapply answers_caught; [by apply reads_readable|]. intros tr r Hg Hr.
    exact (Hr : (fun tr r => match r with Ok a => forall i, a = Some i -> _ | Err _ => True end) tr r). }
  intros tr [[i|]|e] Hg Hr; [|apply answers_refuses; by eapply grows_present|apply answers_fails; by eapply grows_present].
  destruct (Hr i eq_refl) as [Hi _].
  destruct (Z.eqb_spec (i_owner_id i) (u_id user)); [apply answers_ret|apply answers_refuses]; try done; by eapply grows_present.
Qed.
Lemma finishes_owned before uuid path (k : Instance -> H PageResponse) : present before -> all_right before ->
  (forall tr i, present tr -> all_right tr -> is_mine uuid tr i -> finishes tr (k i)) ->
  finishes before (fallible_bind _ _ k (owned self debug_duration canonical_reason user uuid path)).
Proof.
  intros Hp Ha Hk. eapply page_finishes_bind; [by apply answers_owned|]. intros tr i Hg Hi. apply Hk; [by eapply grows_present|by apply Hg|done].
Qed.
Lemma mine_owned tr uuid i : is_mine uuid tr i -> owns user (apis tr) (i_uuid i).
Proof. intros [Hi Ho]. by exists uuid, i. Qed.
(** What is mine stays mine as the run goes on. *)
Lemma mine_mono tr tr' uuid i : grows tr tr' -> is_mine uuid tr i -> is_mine uuid tr' i.
Proof. intros Hg [Hi Ho]. split; [by apply (apis_sub tr); [apply Hg|]|done]. Qed.

Lemma apply_change_finishes before uuid same label c changed next :
  present before -> all_right before -> (same = false -> viewer_may user before (GApi c)) ->
  refused_change (mkEvent c (Ok tt)) = false ->
  (forall tr changed, grows before tr -> finishes tr (next changed)) ->
  finishes before (apply_change self debug_duration date canonical_reason user uuid same label c changed next).
Proof.
  intros Hp Ha Hm Hr Hnext. unfold apply_change. destruct same; [by apply Hnext|].
  apply finishes_change; [done|by apply Hm|by intros []|intros [] Hg; by apply Hnext|].
  intros e He. destruct (Api.error_parts _ e). by apply page_sorry.
Qed.
Lemma save_settings_finishes before uuid form : is_post request = true -> present before -> all_right before ->
  finishes before (save_settings self debug_duration date canonical_reason user uuid form).
Proof.
  intros Hpost Hp Ha. apply finishes_owned; [done|done|]. clear Hp Ha. intros tr i Hp Ha Hi. unfold checked_settings.
  destruct (checked_name _ _) as [name|message] eqn:Hname; [|by apply page_sorry].
  apply checked_name_ok in Hname as [Hv Hr].
  destruct (Z.ltb_spec (sf_vcpu form) 1); [by apply page_sorry|]. cbn [orb].
  destruct (Z.ltb_spec (mib_from_gib (sf_memory_gib form)) 128); [by apply page_sorry|].
  destruct (Z.ltb_spec (sf_disk_gib form) (i_disk_gib i)); [by apply page_sorry|].
  destruct (Z.eqb_spec (sf_http_port form) 0); [by apply page_sorry|]. unfold apply_settings.
  apply apply_change_finishes; [done|done| |done|].
  { intros _. split; [|done]. exists uuid, i. cbn. destruct Hi. split_and!; done || lia. }
  intros tr2 c2 Hg2. apply (mine_mono _ _ _ _ Hg2) in Hi. pose proof (grows_present _ _ Hg2) as Hp2. apply Hg2 in Ha.
  apply apply_change_finishes; [done|done| |done|]. { intros _. split; [|done]. split; [by eapply mine_owned|done]. }
  intros tr3 c3 Hg3. apply (mine_mono _ _ _ _ Hg3) in Hi. pose proof (grows_present _ _ Hg3) as Hp3. apply Hg3 in Ha.
  apply apply_change_finishes; [done|done| |done|]. { intros _. split; [|done]. left. by eapply mine_owned. }
  intros tr4 c4 Hg4. apply (mine_mono _ _ _ _ Hg4) in Hi. pose proof (grows_present _ _ Hg4) as Hp4. apply Hg4 in Ha.
  apply apply_change_finishes; [done|done| |done|]. { intros _. split; [|done]. split; [by eapply mine_owned|done]. }
  intros tr5 c5 Hg5. apply finishes_ret; [by eapply grows_present|done|]. right. by apply Hg5.
Qed.

(** A change whose outcome is a redirect. *)
Lemma finishes_reported before (c : acall (result ApiError unit)) path done_path toast :
  present before -> all_right before -> viewer_may user before (GApi c) -> refused_change (mkEvent c (Ok tt)) = false ->
  finishes before (r ← attempt (GApi c); mret (reported debug_duration path done_path toast r) : H PageResponse).
Proof.
  intros Hp Ha Hm Hr. apply finishes_change; [done|done|by intros []| |].
  - intros [] Hg. apply finishes_ret; [by eapply grows_present|done|]. right. by apply Hg.
  - intros e He. by apply warn_told.
Qed.
Lemma with_target_finishes before path name next : present before ->
  (forall tr target, grows before tr -> finishes tr (next target)) ->
  finishes before (with_target self debug_duration canonical_reason user path name next).
Proof.
  intros Hp Hn. eapply page_finishes_bind; [apply (answers_attempt before (GApi (AUserByName name)) (fun _ _ => True)); [done|free_call|done|done]|].
  intros tr [target|e] Hg _; [by apply Hn|]. destruct (is_not_found e); [apply warn_told; by eapply grows_present|].
  apply finishes_sorry, answers_fails. by eapply grows_present.
Qed.
Lemma shares_finish before uuid : is_post request = true -> present before -> all_right before ->
  (forall user_field user_text, finishes before (Pages.add_share self debug_duration canonical_reason user uuid user_field user_text)) /\
  (forall target, finishes before (Pages.remove_share self debug_duration canonical_reason user uuid target)).
Proof.
  intros Hpost Hp Ha. split.
  - intros a b. apply finishes_owned; [done|done|]. clear Hp Ha. intros tr i Hp Ha Hi. cbv zeta.
    case_bool_decide; [by apply warn_told|]. apply with_target_finishes; [done|]. intros tr2 target Hg.
    destruct (Z.eqb_spec (u_id target) (u_id user)); [apply warn_told; by eapply grows_present|].
    apply finishes_reported; [by eapply grows_present|by apply Hg| |done]. split; [|done].
    split; [|done]. by eapply mine_owned, mine_mono.
  - intros name. apply finishes_owned; [done|done|]. clear Hp Ha. intros tr i Hp Ha Hi.
    apply with_target_finishes; [done|]. intros tr2 target Hg.
    apply finishes_reported; [by eapply grows_present|by apply Hg| |done]. split; [|done]. by eapply mine_owned, mine_mono.
Qed.
Lemma action_finishes before uuid act : is_post request = true -> present before -> all_right before ->
  finishes before (action self debug_duration canonical_reason user uuid act).
Proof.
  intros Hpost Hp Ha. apply finishes_owned; [done|done|]. clear Hp Ha. intros tr i Hp Ha Hi.
  apply finishes_reported; [done|done| |done]. split; [|done]. by eapply mine_owned.
Qed.
Lemma delete_finishes before uuid confirm : request = PgDelete uuid confirm -> present before -> all_right before ->
  finishes before (delete self debug_duration canonical_reason user uuid confirm).
Proof.
  intros Hreq Hp Ha. apply finishes_owned; [done|done|]. clear Hp Ha. intros tr i Hp Ha [Hi Ho].
  case_bool_decide as Hn; cbn [negb]; [|by apply warn_told]. apply finishes_reported; [done|done| |done].
  split; [|by rewrite Hreq]. by exists uuid, i, uuid, confirm.
Qed.

(** ** [admin.rs] *)

Lemma answers_operator_only before path : present before ->
  answers before (operator_only self debug_duration canonical_reason user path)
    (fun tr sh => is_operator config user = true /\ shell_shows user (apis tr) sh).
Proof.
  intros Hp. eapply answers_bind; [apply answers_or_fails; [done|by apply reads_shell]|]. intros tr shell Hg Hsh.
  destruct (is_operator _ user); [apply answers_ret|apply answers_throw]; try done; by eapply grows_present.
Qed.
Lemma reads_user_rows before accounts : is_operator config user = true -> present before -> reads before (user_rows accounts) (fun _ _ => True).
Proof.
  intros Ho. revert before. induction accounts as [|account accounts IH]; intros before Hp; [by apply reads_ret|].
  eapply reads_bind; [apply (reads_asked before (GApi (AUsageFor (u_id account))) (fun _ _ => True)); [done|split; [by right|discriminate]|done|done]|].
  intros tr usage Hg _.
  eapply reads_bind; [apply (reads_attempt tr (GUserMetrics (u_id account)) (fun _ _ => True)); [by eapply grows_present|done|done|done]|].
  intros tr2 r Hg2 _. eapply reads_bind; [apply IH; by eapply grows_present|]. intros tr3 rest Hg3 _. apply reads_ret; [by eapply grows_present|done].
Qed.
Lemma users_finishes before params : present before -> all_right before -> finishes before (users self debug_duration canonical_reason user params).
Proof.
  intros Hp Ha. unfold users. destruct (is_operator config user) eqn:Ho; cbn [negb]; [|apply finishes_ret; [done|done|by right]].
  apply finishes_right; [done|]. eapply answers_bind; [by apply answers_operator_only|]. intros tr shell Hg [_ Hsh].
  apply answers_or_failed; [by eapply grows_present| |by intros tr' page []].
  eapply reads_bind; [apply (reads_asked tr GUsers (fun _ _ => True)); [by eapply grows_present|by left|done|done]|]. intros tr2 accounts Hg2 _.
  eapply reads_bind; [apply reads_user_rows; [done|by eapply grows_present]|]. intros tr3 rows Hg3 _.
  eapply reads_bind; [apply (reads_asked tr3 (GHosts 60) (fun _ _ => True)); [by eapply grows_present|cbn; lia|done|done]|]. intros tr4 hosts Hg4 _.
  apply reads_ret; [by eapply grows_present|]. split; [|done].
  eapply (shell_grows tr) in Hsh; [exact Hsh|]. eapply grows_trans; [exact Hg2|]. by eapply grows_trans.
Qed.
Lemma reads_images before : is_operator config user = true -> present before -> reads before (of_api images_with_counts) (fun _ _ => True).
Proof.
  intros Hop Hp. apply after_call; [intros r; by apply viewer_call; [|free_call]|]. intros r.
  assert (Hg : grows before (before ++ [mkEvent (GApi AImages) r])) by (apply grows_snoc; [done|by apply reading_unrefused]).
  destruct r as [images|e]; [|by apply after_ret]. apply after_call; [intros r; by apply viewer_call; [eapply grows_present|split; [right|discriminate]]|].
  intros r. set (tr := before ++ _) in *.
  assert (Hg2 : grows tr (tr ++ [mkEvent (GApi AInstances) r])) by (apply grows_snoc; [by eapply grows_present|by apply reading_unrefused]).
  destruct r; apply after_ret; (split; [by eapply grows_trans|done]).
Qed.
Lemma configuration_answers before params status error : present before ->
  answers before (render_configuration self debug_duration canonical_reason user params status error)
    (fun tr page => page_shows user (apis tr) page /\ (error <> None -> told page)).
Proof.
  intros Hp. eapply answers_bind; [by apply answers_operator_only|]. intros tr shell Hg [Ho Hsh].
  eapply answers_bind; [apply answers_or_fails; [|apply reads_images; [done|]]; by eapply grows_present|]. intros tr2 images Hg2 _.
  apply answers_ret; [by eapply grows_present|]. split; [|done].
  split; [|done]. eapply (shell_grows tr) in Hsh; [exact Hsh|done].
Qed.
Lemma configuration_sorry before params status message : present before ->
  finishes before (render_configuration self debug_duration canonical_reason user params status (Some message)).
Proof. intros Hp. eapply renders_sorry. by apply configuration_answers. Qed.
Lemma configuration_finishes before params status : present before -> all_right before ->
  finishes before (render_configuration self debug_duration canonical_reason user params status None).
Proof. intros Hp Ha. apply renders_finish; [by apply configuration_answers|done]. Qed.
Lemma add_image_finishes before name reference : is_post request = true -> present before -> all_right before ->
  finishes before (Pages.add_image self debug_duration canonical_reason user name reference).
Proof.
  intros Hpost Hp Ha. unfold Pages.add_image. destruct (is_operator config user) eqn:Ho; cbn [negb]; [|by apply configuration_finishes].
  destruct (ac_image_admin config) eqn:Hi; cbn [negb]; [|by apply configuration_sorry]. cbv zeta.
  destruct (_ || _); [by apply configuration_sorry|]. apply finishes_change; [done|by split|by intros []| |].
  - intros [] Hg. apply finishes_ret; [by eapply grows_present|done|]. right. by apply Hg.
  - intros e He. destruct (Api.error_parts _ e). by apply configuration_sorry.
Qed.

(** ** [account.rs] *)

Lemma succeeds_key_rows before keys : present before -> succeeds before (key_rows date keys) (fun _ => True).
Proof.
  revert before. induction keys as [|key keys IH]; intros before Hp; [by apply succeeds_ret|].
  eapply succeeds_bind; [by apply succeeds_relative|]. intros tr added Hg _.
  eapply succeeds_bind; [apply IH; by eapply grows_present|]. intros tr2 rest Hg2 _. apply succeeds_ret; [by eapply grows_present|done].
Qed.
Lemma account_answers before params status error : present before ->
  answers before (render_account self debug_duration date canonical_reason user params status error)
    (fun tr page => page_shows user (apis tr) page /\ (error <> None -> told page)).
Proof.
  intros Hp. eapply answers_bind; [apply answers_or_fails; [done|by apply reads_shell]|]. intros tr shell Hg Hsh.
  eapply answers_bind.
  { apply answers_or_fails; [by eapply grows_present|].
    apply (reads_asked tr (GApi (ASshKeysForUser (u_id user))) (fun _ _ => True)); [by eapply grows_present|free_call|done|done]. }
  intros tr2 keys Hg2 _. eapply answers_bind; [apply succeeds_answers, succeeds_key_rows; by eapply grows_present|].
  intros tr3 rows Hg3 _. apply answers_ret; [by eapply grows_present|]. split; [|done]. split; [|done].
  eapply (shell_grows tr) in Hsh; [exact Hsh|by eapply grows_trans].
Qed.
Lemma account_finishes before params : present before -> all_right before ->
  finishes before (account self debug_duration date canonical_reason user params).
Proof. intros Hp Ha. apply renders_finish; [by apply account_answers|done]. Qed.
Lemma account_sorry before params status message : present before ->
  finishes before (render_account self debug_duration date canonical_reason user params status (Some message)).
Proof. intros Hp. eapply renders_sorry. by apply account_answers. Qed.
Lemma keys_finish before : is_post request = true -> present before -> all_right before ->
  (forall public_key comment, finishes before (add_key self debug_duration date canonical_reason from_openssh user public_key comment)) /\
  (forall id, finishes before (remove_key debug_duration user id)).
Proof.
  intros Hpost Hp Ha. split.
  - intros public_key comment. unfold add_key. cbv zeta. destruct (from_openssh _); [|by apply account_sorry].
    apply finishes_change; [done|by split|done| |].
    + intros id Hg. apply finishes_ret; [by eapply grows_present|done|]. right. by apply Hg.
    + intros e He. destruct (Api.error_parts _ e). by apply account_sorry.
  - intros id. unfold remove_key. destruct (parse_i64 id); [|by apply (warn_told ACCOUNT "bad key id")].
    apply finishes_reported; [done|done|by split|done].
Qed.

(** ** [terminal.rs] *)

Lemma close_frame_short end_ : (String.length (cf_reason (close_frame end_)) <= 123)%nat.
Proof.
  assert (forall text, String.length (truncate text MAX_REASON) <= 123)%nat as Ht; [|by destruct end_; apply Ht].
  intros text. unfold truncate. change MAX_REASON with 123%nat. destruct (Nat.leb_spec (String.length text) 123) as [|Hm]; [done|].
  destruct (boundary_below_spec text 123) as [H1 _]; [lia|]. by rewrite substring_length by lia.
Qed.
Lemma socket_finishes before uuid cols rows start origin upgrade :
  request = PgSocket uuid cols rows start origin upgrade -> present before -> all_right before ->
  finishes before (socket self debug_duration user uuid cols rows start origin upgrade).
Proof.
  intros Hreq Hp Ha. unfold socket. case_bool_decide as Ho; cbn [negb].
  2: { apply finishes_ret; [done| |by right]. unfold refuse. by destruct (Api.error_parts _ _). }
  assert (Hend : forall tr page, grows before tr -> match page with Plain _ _ | Rejected _ | Upgraded => True | _ => False end ->
                 finishes tr (mret page)).
  { intros tr page Hg Hpage. apply finishes_ret; [by eapply grows_present|by destruct page|]. right. by apply Hg. }
  apply finishes_readable; [done| | |].
  - intros tr i Hg Hi Hr. destruct upgrade as [[]|rejection]; [|by apply Hend].
    eapply page_finishes_bind.
    { apply succeeds_answers, (succeeds_get _ GUpgrade); [by eapply grows_present|done|done]. }
    intros tr2 [] Hg2 _. assert (Hgb := grows_trans _ _ _ Hg Hg2).
    apply after_try, after_get.
    { intros r. apply viewer_call; [by eapply grows_present|]. split; [eapply readable_mono; [apply apis_sub, Hg2|done]|].
      unfold clamped. change MAX_CELLS with 1000. cbn [ts_cols ts_rows]. split_and!; try lia. exists uuid, cols, rows, start. by rewrite Hreq, Ho. }
    intros r. assert (Hg3 : grows tr2 (tr2 ++ [mkEvent (GAttach i (clamped cols rows) (bool_decide (start = Some "1"))) r])).
    { apply grows_snoc; [by eapply grows_present|by apply reading_unrefused]. }
    destruct r as [end_|]; [|by apply Hend; [eapply grows_trans|]].
    apply after_try, after_get; [intros r; apply viewer_call; [by eapply grows_present|apply close_frame_short]|].
    intros r. apply Hend; [|done]. eapply grows_trans; [exact Hgb|]. eapply grows_trans; [exact Hg3|].
    apply grows_snoc; [by eapply grows_present|by apply reading_unrefused].
  - intros tr Hg. apply Hend; [done|]. unfold refuse. by destruct (Api.error_parts _ _).
  - intros tr e Hg. apply Hend; [done|]. unfold refuse. by destruct (Api.error_parts _ _).
Qed.

Lemma handle_page_finishes before q : request = q -> present before -> all_right before ->
  finishes before (handle_page self debug_duration date canonical_reason from_openssh q user).
Proof.
  intros Hreq Hp Ha. destruct (fragments_finish before Hp Ha) as [Hf1 Hf2].
  assert (Hpost : is_post q = true -> is_post request = true) by (by rewrite Hreq).
  assert (Htab : forall tab uuid params, q = PgTab tab uuid params -> tab = TabSharing -> sharing_tab request = true).
  { intros tab uuid params -> ->. by rewrite Hreq. }
  destruct q; cbn [handle_page is_post] in *; try specialize (Hpost eq_refl); try specialize (Htab _ _ _ eq_refl);
    auto using home_finishes, host_metrics_finishes, new_form_finishes, create_finishes, page_finishes, metrics_finishes,
      state_finishes, socket_finishes, save_settings_finishes, action_finishes, delete_finishes, users_finishes,
      configuration_finishes, add_image_finishes, account_finishes.
  - by apply shares_finish.
  - by apply shares_finish.
  - by apply configuration_finishes.
  - by apply keys_finish.
  - by apply keys_finish.
  - apply finishes_ret; [done|done|by right].
Qed.
End Viewer.

(** C11. The dashboard acts for the signed-in user only.  Whatever is asked and
    answered, the authenticator comes first, and without a user nothing else is
    called and the answer is 401.  With one, an instance is started, stopped,
    resized, renamed, published or shared only when the store said this user
    owns it (or the user has just made it), and deleted only when the form
    repeats its name; names are valid and not reserved; no [GET] changes
    anything; figures and terminals are opened only for instances the user
    owns or holds a share of, a terminal only from the dashboard's own origin
    and with a size in bounds; the consumption of others, adding images and
    the database path are for operators, and so is the list of accounts, but
    that the sharing tab of an instance the user owns asks for it, to suggest
    names.  The instances in a page's list and in its sidebar are those the
    user owns or has a share of; everybody's instances are asked for by the
    home page, which shows them only summed up by machine, and by operators.
    When the store or the lifecycle refused a change, the response says so. *)
Theorem pages_respect_ownership (hx_request : bool) :
  always (pages self debug_duration date canonical_reason from_openssh request hx_request) (fun tr response =>
    allowed page_may [] tr /\
    ((exists e, tr = [mkEvent (GApi AUserFromHeaders) (Err e)] /\ response = signed_out hx_request) \/
     exists user, mkEvent (GApi AUserFromHeaders) (Ok user) ∈ tr /\ page_shows user (apis tr) response /\
       (told response \/ all_done (apis tr)))).
Proof.
  enough (does [] (pages self debug_duration date canonical_reason from_openssh request hx_request) (fun tr response =>
    (exists e, tr = [mkEvent (GApi AUserFromHeaders) (Err e)] /\ response = signed_out hx_request) \/
     exists user, mkEvent (GApi AUserFromHeaders) (Ok user) ∈ tr /\ page_shows user (apis tr) response /\
       (told response \/ all_done (apis tr)))) as H by exact H.
  apply after_call; [done|]. intros [user|e]; [|apply after_ret; left; by eexists].
  apply after_bind. eapply after_mono; [|apply (handle_page_finishes user _ request eq_refl)].
  - intros tr r [Hp Hr]. apply after_ret. right. exists user. by destruct r.
  - unfold present. set_solver.
  - by constructor.
Qed.
End Runs.

(** ** The settings form *)

(** The form as the page shows it, with nothing typed. *)
Definition switched (b : bool) : option string := if b then Some "on" else None.
Definition shown_form (i : Instance) : SettingsForm :=
  mkSettingsForm (i_name i) (i_vcpu i) (memory_gib i) (i_disk_gib i) (switched (i_nested i))
    (switched (bool_decide (i_visibility i = Public))) (i_http_port i).

(** Memory goes into GiB and back without loss. *)
Lemma memory_there_and_back (i : Instance) : 0 <= i_memory_mib i < 2 ^ 53 -> mib_from_gib (memory_gib i) = i_memory_mib i.
Proof.
  intros Hm. unfold mib_from_gib, whole_u64, memory_gib. set (m := i_memory_mib i) in *.
  destruct (of_int_exact m Hm) as (r1 & -> & H1). change (of_int 1024) with (Finite 1024). cbn [div].
  change (is_zero 1024) with false. cbv iota.
  destruct (round_exact (r1 / 1024) m (-10)) as (r2 & -> & H2); [|done|lia|].
  { rewrite H1. change (2 ^ (-10))%Q with (1 # 1024)%Q. field. }
  cbn [mul]. destruct (round_exact (r2 * 1024) m 0) as (r3 & -> & H3); [|done|lia|].
  { rewrite H2, H1. change (2 ^ 0)%Q with 1%Q. field. }
  assert (r3 == inject_Z m)%Q as Hr by (rewrite H3, H2, H1; field).
  assert (0 <= inject_Z m)%Q as Hpos by (change 0%Q with (inject_Z 0); rewrite <-Zle_Qle; lia).
  cbn [round_away]. assert (Qle_bool 0 r3 = true) as -> by (apply Qle_bool_iff; lra).
  cbn [as_u64]. rewrite Qfloor_Z.
  assert (Qfloor (r3 + (1 # 2)) = m) as ->; [|unfold u64_max; lia].
  assert (m <= Qfloor (r3 + (1 # 2)))%Z as Hlo.
  { rewrite <-(Qfloor_Z m) at 1. apply Qfloor_resp_le. lra. }
  pose proof (Qfloor_le (r3 + (1 # 2))) as Hhi.
  assert (inject_Z (Qfloor (r3 + (1 # 2))) < inject_Z (m + 1))%Q as Hlt.
  { rewrite inject_Z_plus. change (inject_Z 1) with 1%Q. lra. }
  rewrite <-Zlt_Qlt in Hlt. lia.
Qed.

(** C34. Saving the settings as they are shown changes nothing: for an instance
    with a name, sizes and port the form accepts, the page reads back exactly
    what it showed, memory included, calls nothing, and says that nothing
    changed. *)
Theorem settings_unchanged (self : PagesConfig) (debug_duration date : Z -> string) (canonical_reason : Z -> option string)
    (user : User) (uuid : string) (i : Instance) :
  checked_name (i_name i) (reserved_names self) = Ok (i_name i) ->
  1 <= i_vcpu i -> 128 <= i_memory_mib i < 2 ^ 53 -> i_http_port i <> 0 ->
  checked_settings self debug_duration date canonical_reason user uuid (shown_form i) i =
  mret (done_at ("/vm/" +:+ uuid +:+ "/settings") "Nothing changed").
Proof.
  intros Hn Hv Hm Hp. pose proof (memory_there_and_back i ltac:(lia)) as Hmem.
  unfold checked_settings. cbn [shown_form sf_name sf_vcpu sf_memory_gib sf_disk_gib sf_http_port]. rewrite Hn, Hmem.
  rewrite (proj2 (Z.ltb_ge _ _)) by lia. rewrite (proj2 (Z.ltb_ge _ _)) by lia. rewrite Z.ltb_irrefl.
  rewrite (proj2 (Z.eqb_neq _ _)) by done. cbn [orb].
  assert (wanted (shown_form i) = current i) as Hw.
  { unfold wanted, current. cbn [shown_form sf_vcpu sf_memory_gib sf_disk_gib sf_nested]. rewrite Hmem. by destruct (i_nested i). }
  assert (new_visibility (shown_form i) i = i_visibility i) as Hvis.
  { unfold new_visibility. cbn [shown_form sf_public]. by destruct (i_visibility i). }
  unfold apply_settings, apply_change. rewrite !bool_decide_eq_true_2 by done. cbn [shown_form sf_http_port]. by rewrite Z.eqb_refl.
Qed.
Definition small_vm : Instance :=
  mkInstance "u1" "web" 1 1 "debian" "sha256:a" Running WantRunning "10.0.0.2" "02:00:00:00:00:01" 2 1536 10 true true 80 Private 0 None None.
Definition plain_pages : PagesConfig :=
  mkPagesConfig (mkApiConfig None false EmptyString ["www"]) "bento.example" "vm.example" (mkCreateDefaults 1 1024 10).
Lemma settings_unchanged_witness :
  checked_settings plain_pages dec dec (fun _ => None) (mkUser 1 "ada" EmptyString None EmptyString 0) "u1" (shown_form small_vm) small_vm =
  mret (done_at "/vm/u1/settings" "Nothing changed").
Proof.
  rewrite (settings_unchanged plain_pages dec dec (fun _ => None) _ "u1" small_vm); [reflexivity|vm_compute; reflexivity|cbn; lia|cbn; lia|discriminate].
Defined.

(** The changes of a run, with their answers. *)
Definition made (tr : list (event gcall)) : list (event acall) := List.filter (fun e => changing (ev_call e)) (apis tr).
Lemma made_app tr tr' : made (tr ++ tr') = made tr ++ made tr'.
Proof. unfold made. by rewrite apis_app, List.filter_app. Qed.
Lemma get_makes_nothing self request before tr :
  is_post request = false -> allowed (page_may self request) before tr -> made tr = [].
Proof.
  intros Hpost. revert before. induction tr as [|[R c r] tr IH]; intros before; [done|]. intros [He Ht].
  change (made ([mkEvent c r] ++ tr) = []). rewrite made_app, (IH _ Ht), app_nil_r.
  destruct c as [R c| | | | | | | |]; try done. unfold page_may in He. cbn [ev_call] in He. unfold made, apis. cbn.
  destruct (changing c) eqn:Hc; [exfalso|done]. destruct c; try done; destruct He as (user & _ & _ & Hp); specialize (Hp Hc); congruence.
Qed.

Section Settings.
Context (self : PagesConfig) (debug_duration date : Z -> string) (canonical_reason : Z -> option string) (user : User) (uuid : string).

Definition says_so (r : result PageResponse PageResponse) : Prop := match r with Ok page | Err page => told page end.
Lemma page_only_tells tab params status message :
  always (page self debug_duration date canonical_reason user uuid tab params status (Some message))
    (fun tr r => made tr = [] /\ says_so r).
Proof.
  set (before := [mkEvent (GApi AUserFromHeaders) (Ok user)]).
  assert (present user before) as Hp by (unfold present, before; set_solver).
  assert (tab = TabSharing -> sharing_tab (PgTab tab uuid params) = true) as Htab by (by intros ->).
  eapply always_mono; [|exact (page_answers self debug_duration date canonical_reason (fun _ => None) (PgTab tab uuid params) user before uuid tab params status (Some message) Htab Hp)].
  intros tr r [Ha [_ Hr]]. split; [exact (get_makes_nothing _ (PgTab tab uuid params) before tr eq_refl Ha)|]. destruct r as [page|page]; [|apply Hr].
  destruct Hr as [_ Ht]. by apply Ht.
Qed.

(** What [save_settings] means to change, in its order. *)
Definition wanted_changes (form : SettingsForm) (name : string) (i : Instance) : list (string * acall (result ApiError unit)) :=
  (if bool_decide (wanted form = current i) then [] else [("resources", AResize (i_uuid i) (wanted form))]) ++
  (if sf_http_port form =? i_http_port i then [] else [("port", ASetHttpPort (i_uuid i) (sf_http_port form))]) ++
  (if bool_decide (new_visibility form i = i_visibility i) then []
   else [("visibility", ASetVisibility (i_uuid i) (new_visibility form i))]) ++
  (if bool_decide (name = i_name i) then [] else [("name", ARename (i_uuid i) name)]).
Definition accepted (s : string * acall (result ApiError unit)) : event acall := mkEvent s.2 (Ok tt).
Definition applies (l : list (string * acall (result ApiError unit))) (changed : list string) (tr : list (event gcall))
    (r : result PageResponse PageResponse) : Prop :=
  (made tr = accepted <$> l /\ r = Ok (done_at ("/vm/" +:+ uuid +:+ "/settings") (saved (changed ++ l.*1)))) \/
  (exists pre label c e post, l = pre ++ (label, c) :: post /\
     made tr = (accepted <$> pre) ++ [mkEvent c (Err e)] /\ says_so r).

Lemma apply_change_applies same label c changed next l :
  changing c = true -> (forall changed, always (next changed) (applies l changed)) ->
  always (apply_change self debug_duration date canonical_reason user uuid same label c changed next)
    (applies ((if same then [] else [(label, c)]) ++ l) changed).
Proof.
  intros Hc Hn. unfold apply_change. destruct same; [apply Hn|].
  assert (Hmade : forall r tr, made (mkEvent (GApi c) r :: tr) = mkEvent c r :: made tr).
  { intros r tr. unfold made, apis. cbn. by rewrite Hc. }
  intros [[]|e].
  - eapply always_mono; [|apply (Hn (changed ++ [label]))]. intros tr r [[Ht ->]|(pre & label' & c' & e & post & -> & Ht & Hr)].
    + left. rewrite Hmade, Ht. split; [done|]. rewrite <-app_assoc. done.
    + right. exists ((label, c) :: pre), label', c', e, post. rewrite Hmade, Ht. done.
  - cbn -[settings_failed error_parts applies]. destruct (Api.error_parts debug_duration e) as [status message].
    eapply always_mono; [|apply page_only_tells].
    intros tr r [Ht Hr]. right. exists [], label, c, e, l. rewrite Hmade, Ht. done.
Qed.

(** C33. Saving settings applies exactly the fields that changed, in the order
    the code promises: resources, port, visibility, and the name last.
    Whatever is answered, either every change was accepted and the page says
    which they were, or the changes stop at the first that was refused,
    nothing after it was tried, and the page says that it failed. *)
Theorem settings_applied (form : SettingsForm) (name : string) (i : Instance) :
  always (apply_settings self debug_duration date canonical_reason user uuid form name i) (fun tr r =>
    (made tr = accepted <$> wanted_changes form name i /\
     r = Ok (done_at ("/vm/" +:+ uuid +:+ "/settings") (saved (wanted_changes form name i).*1))) \/
    (exists pre label c e post, wanted_changes form name i = pre ++ (label, c) :: post /\
       made tr = (accepted <$> pre) ++ [mkEvent c (Err e)] /\ says_so r)).
Proof.
  unfold apply_settings, wanted_changes.
  apply (apply_change_applies _ _ _ []); [done|]. intros c1. apply apply_change_applies; [done|]. intros c2.
  apply apply_change_applies; [done|]. intros c3.
  rewrite <-(app_nil_r (if bool_decide (name = _) then _ else _)). apply apply_change_applies; [done|]. intros c4.
  left. split; [done|]. cbn. by rewrite app_nil_r.
Qed.
End Settings.

(** The check of the form for a new instance lets a figure through that is no
    number: the instance is asked for with no memory at all. *)
Definition not_a_number_form : NewForm := mkNewForm "web" "debian" 1 NotANumber 10 None (Some "on") None.
Lemma memory_check_passed (self : PagesConfig) (debug_duration : Z -> string) (canonical_reason : Z -> option string) (user : User) :
  is_reserved "web" (reserved_names self) = false ->
  exists k, create self debug_duration canonical_reason user not_a_number_form =
    Call (GApi (ACreate user (mkCreateSpec "web" "debian" 1 0 10 false true))) k.
Proof.
  intros Hr. unfold create. replace (checked_name _ _) with (@Ok string string "web"); [by eexists|].
  unfold checked_name. change (trim_white (nf_name not_a_number_form)) with "web". cbn [negb]. by rewrite Hr.
Qed.
