(* ===== verification/Metrics.v ===== *)
(** * Metrics: the measurements behind the charts, [bentod/src/metrics.rs]

    [Sampler] keeps bounded series of every machine and every instance and
    answers the dashboard's [Metrics]; [SamplerTask] reads the machines and
    feeds it.  The state behind the mutex is a value that every operation
    takes and gives; [tick] is a program over the store, the machine, libvirt
    and the runner protocol. *)

From Stdlib Require Import ZArith QArith Qabs Lqa Lia.
From S2P Require Import Prelude Text Float64 Ipv4 Network Types Db Runners Fence Prog Pool Lifecycle Hypervisor HostInfo PageText Pages.
Open Scope Z_scope.

(** ** Series *)

Definition CAPACITY : nat := Z.to_nat (24 * 60 * 60 / 30).
Lemma CAPACITY_pos : (0 < CAPACITY)%nat.
Proof. unfold CAPACITY. change (24 * 60 * 60 / 30) with 2880. lia. Qed.
Definition MIB_BYTES : Z := 1024 * 1024.
Definition GIB_BYTES : Z := 1024 * 1024 * 1024.
Definition MIB : f64 := of_int MIB_BYTES.
Definition GIB : f64 := of_int GIB_BYTES.
Definition NS_PER_SEC : f64 := of_int 1000000000.

(** Oldest first. *)
Definition Series : Type := list Point.
Definition push (at_ : Z) (value : f64) (s : Series) : Series :=
  (if (length s =? CAPACITY)%nat then tail s else s) ++ [mkPoint at_ value].
Definition window (s : Series) (seconds now : Z) : list Point := filter (fun p => now - seconds <= pt_at p) s.
Definition last_value (s : Series) : f64 := match last s with Some p => pt_value p | None => fzero end.

(** ** What is kept *)

Record InstanceState : Type := mkInstanceState {
  is_owner_id : Z; is_host_id : Z; is_cpu_pct : Series; is_memory_used_mib : Series; is_storage_used_gib : f64;
  is_cpu_ns_per_sec : f64; is_previous : option (Z * Z)
}.
Record HostState : Type := mkHostState {
  ho_name : string; ho_cpu_pct : Series; ho_memory_used_mib : Series; ho_memory_total_mib : Z; ho_storage_used_gib : f64;
  ho_storage_total_gib : Z; ho_cpu_count : Z; ho_previous_cpu : option CpuTimes
}.
Definition new_instance_state : InstanceState := mkInstanceState 0 0 [] [] fzero fzero None.
Definition new_host_state : HostState := mkHostState EmptyString [] [] 0 fzero 0 0 None.
Record MState : Type := mkMState { ms_hosts : gmap Z HostState; ms_instances : gmap string InstanceState }.
Record HostReading : Type := mkHostReading {
  hr_cpu : option CpuTimes; hr_memory_total_bytes : Z; hr_memory_available_bytes : Z; hr_storage_total_bytes : Z;
  hr_storage_available_bytes : Z; hr_cpu_count : Z
}.

(** [Sampler::new]. *)
Definition new_sampler : MState := mkMState ∅ ∅.
(** [state.hosts.entry(host_id).or_default()]. *)
Definition host_entry (st : MState) (host_id : Z) : HostState := default new_host_state (ms_hosts st !! host_id).
Definition with_host (st : MState) (host_id : Z) (h : HostState) : MState := mkMState (<[host_id := h]> (ms_hosts st)) (ms_instances st).
Definition instance_entry (st : MState) (uuid : string) : InstanceState := default new_instance_state (ms_instances st !! uuid).
Definition with_instance (st : MState) (uuid : string) (s : InstanceState) : MState :=
  mkMState (ms_hosts st) (<[uuid := s]> (ms_instances st)).

Definition record_known (host_id : Z) (name : string) (cpu_count memory_total_mib storage_total_gib : Z) (st : MState) : MState :=
  let h := host_entry st host_id in
  with_host st host_id
    (mkHostState name (ho_cpu_pct h) (ho_memory_used_mib h)
       (if ho_memory_total_mib h =? 0 then memory_total_mib else ho_memory_total_mib h) (ho_storage_used_gib h)
       (if ho_storage_total_gib h =? 0 then storage_total_gib else ho_storage_total_gib h)
       (if ho_cpu_count h =? 0 then cpu_count else ho_cpu_count h) (ho_previous_cpu h)).

Definition retain_hosts (live : list Z) (st : MState) : MState :=
  mkMState (filter (fun e => e.1 ∈ live) (ms_hosts st)) (ms_instances st).
Definition retain (live : list string) (st : MState) : MState :=
  mkMState (ms_hosts st) (filter (fun e => e.1 ∈ live) (ms_instances st)).

(** The processor point of [record_host], when two readings make one. *)
Definition host_share (before after : option CpuTimes) : option f64 :=
  match before, after with Some before, Some after => busy_fraction before after | _, _ => None end.
Definition record_host (host_id : Z) (name : string) (reading : HostReading) (at_ : Z) (st : MState) : MState :=
  let h := host_entry st host_id in
  let used := u64_saturating_sub (hr_memory_total_bytes reading) (hr_memory_available_bytes reading) in
  let storage_used := u64_saturating_sub (hr_storage_total_bytes reading) (hr_storage_available_bytes reading) in
  with_host st host_id
    (mkHostState name
       (match host_share (ho_previous_cpu h) (hr_cpu reading) with
        | Some busy => push at_ (mul busy (of_int 100)) (ho_cpu_pct h)
        | None => ho_cpu_pct h
        end)
       (push at_ (div (of_int used) MIB) (ho_memory_used_mib h))
       (hr_memory_total_bytes reading / MIB_BYTES)
       (div (of_int storage_used) GIB)
       (hr_storage_total_bytes reading / GIB_BYTES)
       (hr_cpu_count reading)
       (match hr_cpu reading with Some cpu => Some cpu | None => ho_previous_cpu h end)).

(** The processor time of [record_instance] between two readings, each second. *)
Definition instance_rate (previous : option (Z * Z)) (cpu_time_ns at_ : Z) : option f64 :=
  match previous with
  | Some (previous_ns, previous_at) =>
      let elapsed := at_ - previous_at in
      match checked_sub cpu_time_ns previous_ns with
      | Some spent => if 0 <? elapsed then Some (div (of_int spent) (of_int elapsed)) else None
      | None => None
      end
  | None => None
  end.
Definition instance_share (rate : f64) (vcpus : Z) : f64 :=
  fclamp fzero (of_int 100) (mul (div rate (mul (of_int (Z.max vcpus 1)) NS_PER_SEC)) (of_int 100)).
Definition record_instance (uuid : string) (owner_id host_id : Z) (sample : DomainSample) (storage_used_gib : f64) (at_ : Z)
    (st : MState) : MState :=
  let s := instance_entry st uuid in
  let rate := instance_rate (is_previous s) (sa_cpu_time_ns sample) at_ in
  with_instance st uuid
    (mkInstanceState owner_id host_id
       (match rate with Some rate => push at_ (instance_share rate (sa_vcpus sample)) (is_cpu_pct s) | None => is_cpu_pct s end)
       (match sa_rss_kib sample with
        | Some rss => push at_ (div (of_int rss) (of_int 1024)) (is_memory_used_mib s)
        | None => is_memory_used_mib s
        end)
       storage_used_gib
       (default (is_cpu_ns_per_sec s) rate)
       (Some (sa_cpu_time_ns sample, at_))).

(** ** What the dashboard is told: [impl Metrics for Sampler] *)

Definition host_answer (now seconds : Z) (e : Z * HostState) : HostMetrics :=
  mkHostMetrics e.1 (ho_name e.2) (window (ho_cpu_pct e.2) seconds now) (window (ho_memory_used_mib e.2) seconds now)
    (ho_memory_total_mib e.2) (ho_storage_used_gib e.2) (ho_storage_total_gib e.2) (ho_cpu_count e.2) false.
(** A [BTreeMap] is read in the order of its keys. *)
Definition hosts_answer (st : MState) (seconds now : Z) : list HostMetrics :=
  host_answer now seconds <$> sort_by (fun a b => a.1 <? b.1) (map_to_list (ms_hosts st)).
Definition instance_answer (st : MState) (uuid : string) (seconds now : Z) : InstanceMetrics :=
  match ms_instances st !! uuid with
  | None => mkInstanceMetrics [] [] fzero false
  | Some s => mkInstanceMetrics (window (is_cpu_pct s) seconds now) (window (is_memory_used_mib s) seconds now)
                (is_storage_used_gib s) false
  end.
(** [user] goes through the instances in the order its [HashMap] has. *)
Definition host_cores (st : MState) (host_id : Z) : f64 :=
  of_int (Z.max 1 (default 0 (ho_cpu_count <$> ms_hosts st !! host_id))).
Definition user_step (st : MState) (sums : f64 * Z * f64) (s : InstanceState) : f64 * Z * f64 :=
  let '(cpu, memory, storage) := sums in
  (add cpu (mul (div (is_cpu_ns_per_sec s) (mul (host_cores st (is_host_id s)) NS_PER_SEC)) (of_int 100)),
   (memory + whole_u64 (last_value (is_memory_used_mib s))) mod 2 ^ 64,
   add storage (is_storage_used_gib s)).
Definition user_answer (st : MState) (user_id : Z) (order : list InstanceState) : UserMetrics :=
  let '(cpu, memory, storage) := foldl (user_step st) (fzero, 0, fzero) (filter (fun s => is_owner_id s = user_id) order) in
  mkUserMetrics (fclamp fzero (of_int 100) cpu) memory storage false.

(** ** Reading the machines: [SamplerTask] *)

Inductive mcall : Type -> Type :=
  | KNow : mcall Z
  | KInstances : mcall (result StoreError (list Instance))
  | KHosts : mcall (result StoreError (list Types.Host))
  | KReadMemory : mcall (result string Memory)
  | KDiskUsage (path : string) : mcall (result string Disk)
  | KReadCpu : mcall (result string (option CpuTimes))
  | KCpuCount : mcall Z
  | KSample (name : string) : mcall (result string (option DomainSample))
  | KOverlayBlocks (path : string) : mcall (result string Z)
  | KRemoteSample (host : Types.Host) : mcall (result string Samples)
  | KObservation (host_id : Z) : mcall (result StoreError (option Observation)).

Record SamplerTask : Type := mkSamplerTask { st_storage_dir : string; st_local_host_id : Z; st_remote : bool }.

Section Task.
Context (manager : Manager) (self : SamplerTask).

Definition overlay_size_gib (blocks : result string Z) : f64 :=
  match blocks with Ok blocks => div (of_int ((blocks * 512) mod 2 ^ 64)) GIB | Err _ => fzero end.
Fixpoint read_domains (host_id at_ : Z) (instances : list Instance) (st : MState) : prog mcall MState :=
  match instances with
  | [] => mret st
  | i :: instances =>
      r ← call (KSample (i_name i));
      match r with
      | Ok (Some sample) =>
          blocks ← call (KOverlayBlocks (Lifecycle.overlay_path manager (i_uuid i)));
          read_domains host_id at_ instances
            (record_instance (i_uuid i) (i_owner_id i) host_id sample (overlay_size_gib blocks) at_ st)
      | Ok None | Err _ => read_domains host_id at_ instances st
      end
  end.
Definition ok_default {X T} (d : T) (r : result X T) : T := match r with Ok v => v | Err _ => d end.
Definition read_local (host : Types.Host) (instances : list Instance) (at_ : Z) (st : MState) : prog mcall MState :=
  memory ← call KReadMemory;
  storage ← call (KDiskUsage (st_storage_dir self));
  cpu ← call KReadCpu;
  cpu_count ← call KCpuCount;
  let memory := ok_default (mkMemory 0 0 0 0) memory in
  let storage := ok_default (mkDisk 0 0) storage in
  read_domains (h_id host) at_ (filter (fun i => i_host_id i = h_id host) instances)
    (record_host (h_id host) (h_name host)
       (mkHostReading (ok_default None cpu) (mem_total memory) (mem_available memory) (disk_total storage) (disk_available storage)
          cpu_count) at_ st).

(** [remember]: a machine that did not answer. *)
Definition remember (host : Types.Host) (st : MState) : prog mcall MState :=
  r ← call (KObservation (h_id host));
  let known (f : Observation -> option Z) := default 0 (ok_default None r ≫= f) in
  mret (record_known (h_id host) (h_name host) (known o_cpu_count) (known o_memory_total_mib) (known o_storage_total_gib) st).
(** [owners]: the last row of a uuid wins. *)
Definition owners (instances : list Instance) : gmap string Z :=
  foldl (fun m i => <[i_uuid i := i_owner_id i]> m) ∅ instances.
Fixpoint record_usages (host_id at_ : Z) (owners : gmap string Z) (domains : list DomainUsage) (st : MState) : MState :=
  match domains with
  | [] => st
  | usage :: domains =>
      record_usages host_id at_ owners domains
        match owners !! du_uuid usage with
        | None => st
        | Some owner_id =>
            record_instance (du_uuid usage) owner_id host_id
              (mkDomainSample (du_cpu_time_ns usage) (du_vcpus usage) (du_rss_kib usage))
              (div (of_int (du_storage_used_bytes usage)) GIB) at_ st
        end
  end.
Definition remote_reading (h : HostSample) : HostReading :=
  mkHostReading ((fun c => mkCpuTimes (ct_total c) (ct_idle c)) <$> hs_cpu h) (hs_memory_total_bytes h)
    (hs_memory_available_bytes h) (hs_storage_total_bytes h) (hs_storage_available_bytes h) (hs_cpu_count h).
Definition read_remote (host : Types.Host) (instances : list Instance) (at_ : Z) (st : MState) : prog mcall MState :=
  if negb (st_remote self) then remember host st
  else
    r ← call (KRemoteSample host);
    match r with
    | Err _ => remember host st
    | Ok samples =>
        mret (record_usages (h_id host) at_ (owners instances) (sm_domains samples)
                (record_host (h_id host) (h_name host) (remote_reading (sm_host samples)) at_ st))
    end.

Fixpoint read_hosts (hosts : list Types.Host) (instances : list Instance) (at_ : Z) (st : MState) : prog mcall MState :=
  match hosts with
  | [] => mret st
  | host :: hosts =>
      st ← (if h_id host =? st_local_host_id self then read_local host instances at_ st else read_remote host instances at_ st);
      read_hosts hosts instances at_ st
  end.
Definition tick (st : MState) : prog mcall MState :=
  at_ ← call KNow;
  instances ← call KInstances;
  match instances with
  | Err _ => mret st
  | Ok instances =>
      let st := retain (i_uuid <$> instances) st in
      hosts ← call KHosts;
      match hosts with
      | Err _ => mret st
      | Ok hosts =>
          let hosts := filter (fun h => h_placement h <> PlRemoved) hosts in
          read_hosts hosts instances at_ (retain_hosts (h_id <$> hosts) st)
      end
  end.
End Task.

(** ** Figures that are numbers *)

Definition num (x : f64) : Prop := x <> NotANumber.
Definition nonzero (x : f64) : Prop := exists q, x = Finite q /\ ~ (q == 0)%Q.
Definition between (n : Z) (x : f64) : Prop := exists q, x = Finite q /\ (0 <= q <= inject_Z n)%Q.
Lemma num_round q : num (round q).
Proof. unfold num, round. cbv zeta. destruct (Qle_bool 0 (Qred q)), (Qle_bool overflow _); discriminate. Qed.
Lemma num_div x y : num x -> nonzero y -> num (div x y).
Proof.
  intros Hx (q & -> & Hq). destruct x as [p|s|]; [|done|done]. cbn [div].
  destruct (is_zero q) eqn:Hz; [by apply Qeq_bool_iff in Hz|apply num_round].
Qed.
Lemma num_mul x y : num x -> nonzero y -> num (mul x y).
Proof.
  intros Hx (q & -> & Hq). destruct x as [p|s|]; [apply num_round| |done]. cbn [mul].
  destruct (is_zero q) eqn:Hz; [by apply Qeq_bool_iff in Hz|done].
Qed.
Lemma nonzero_round q : (1 <= q)%Q -> (q <= 2 ^ 64)%Q -> nonzero (round q).
Proof.
  intros H1 H2. destruct (round_spec q) as (r & -> & Hr); [|done|].
  - apply (Qle_trans _ 1); [|done]. vm_compute. discriminate.
  - exists r. split; [done|]. intros Hz. apply Qabs_Qle_condition in Hr as [Hr _].
    assert (q * 2 ^ (-53) <= q * (1 # 2))%Q by (apply Qmult_le_l; [lra|vm_compute; discriminate]). lra.
Qed.
Lemma nonzero_int z : 0 < z <= 2 ^ 64 -> nonzero (of_int z).
Proof.
  intros Hz. apply nonzero_round.
  - change 1%Q with (inject_Z 1). rewrite <-Zle_Qle. lia.
  - rewrite (pow2_Z 64) by lia. rewrite <-Zle_Qle. lia.
Qed.
Lemma clamp_between n x : 0 < n < 2 ^ 53 -> num x -> between n (fclamp fzero (of_int n) x).
Proof.
  intros Hn Hx. destruct (of_int_exact n ltac:(lia)) as (m & Hm & Hmn).
  assert (0 < inject_Z n)%Q by (change 0%Q with (inject_Z 0); rewrite <-Zlt_Qlt; lia).
  unfold fclamp, flt, fzero. rewrite Hm.
  destruct x as [q|[]|]; cbn [partial_cmp]; [|exists 0%Q; split; [done|lra]|exists m; split; [done|lra]|done].
  destruct (Qcompare_spec q 0); [|exists 0%Q; split; [done|lra]|];
    (destruct (Qcompare_spec m q); [exists q|exists m|exists q]; (split; [done|lra])).
Qed.

(** ** What every series keeps *)

(** The widths of the counters, as their types have them. *)
Definition cpu_typed (c : CpuTimes) : Prop := 0 <= cpu_total c <= u64_max.
Definition vcpus_typed (vcpus : Z) : Prop := vcpus <= u32_max.
Definition time_typed (at_ : Z) : Prop := i64_min <= at_ <= i64_max.

Definition short (s : Series) : Prop := (length s <= CAPACITY)%nat.
Definition percent (s : Series) : Prop := short s /\ Forall (fun p => between 100 (pt_value p)) s.
Record host_sane (h : HostState) : Prop := mkHostSane {
  hsa_cpu : percent (ho_cpu_pct h); hsa_memory : short (ho_memory_used_mib h);
  hsa_previous : forall c, ho_previous_cpu h = Some c -> cpu_typed c
}.
Record instance_sane (s : InstanceState) : Prop := mkInstanceSane {
  isa_cpu : percent (is_cpu_pct s); isa_memory : short (is_memory_used_mib s);
  isa_previous : forall ns at_, is_previous s = Some (ns, at_) -> time_typed at_
}.
Definition sane (st : MState) : Prop :=
  map_Forall (fun _ => host_sane) (ms_hosts st) /\ map_Forall (fun _ => instance_sane) (ms_instances st).

Lemma short_push at_ value s : short s -> short (push at_ value s).
Proof.
  unfold short, push. intros Hs. destruct (Nat.eqb_spec (length s) CAPACITY) as [He|He]; rewrite length_app; cbn [length]; [|lia].
  pose proof CAPACITY_pos. destruct s as [|p s]; cbn [tail length] in *; lia.
Qed.
Lemma percent_push at_ value s : percent s -> between 100 value -> percent (push at_ value s).
Proof.
  intros [Hs Hp] Hv. split; [by apply short_push|]. unfold push. apply Forall_app. split; [|by constructor].
  destruct (_ =? _)%nat; [|done]. destruct s; [done|]. by apply Forall_cons in Hp as [_ ?].
Qed.
Lemma empty_sane : host_sane new_host_state /\ instance_sane new_instance_state.
Proof. split; constructor; try discriminate; try (split; [|constructor]); apply Nat.le_0_l. Qed.
Lemma host_entry_sane st id : sane st -> host_sane (host_entry st id).
Proof. intros [Hh _]. unfold host_entry. destruct (ms_hosts st !! id) eqn:He; [by apply (Hh id)|apply empty_sane]. Qed.
Lemma instance_entry_sane st uuid : sane st -> instance_sane (instance_entry st uuid).
Proof. intros [_ Hi]. unfold instance_entry. destruct (ms_instances st !! uuid) eqn:He; [by apply (Hi uuid)|apply empty_sane]. Qed.
Lemma with_host_sane st id h : sane st -> host_sane h -> sane (with_host st id h).
Proof. intros [Hh Hi] H. split; [by apply map_Forall_insert_2|done]. Qed.
Lemma with_instance_sane st uuid s : sane st -> instance_sane s -> sane (with_instance st uuid s).
Proof. intros [Hh Hi] H. split; [done|by apply map_Forall_insert_2]. Qed.
Lemma retain_sane live st : sane st -> sane (retain live st).
Proof. intros [Hh Hi]. split; [done|]. intros k x [Hx _]%map_lookup_filter_Some. eauto. Qed.
Lemma retain_hosts_sane live st : sane st -> sane (retain_hosts live st).
Proof. intros [Hh Hi]. split; [|done]. intros k x [Hx _]%map_lookup_filter_Some. eauto. Qed.
Lemma record_known_sane id name c m s st : sane st -> sane (record_known id name c m s st).
Proof. intros Hs. apply with_host_sane; [done|]. destruct (host_entry_sane st id Hs). by constructor. Qed.

Lemma busy_between before after busy : cpu_typed before -> cpu_typed after -> busy_fraction before after = Some busy -> between 1 busy.
Proof.
  intros Hb Ha. unfold busy_fraction. destruct (checked_sub (cpu_total after) _) as [total|] eqn:Ht; [|done]. cbn.
  destruct (checked_sub (cpu_idle after) _) as [idle|]; [|done]. cbn. destruct (Z.eqb_spec total 0); [done|]. intros [= <-].
  unfold checked_sub in Ht. destruct (Z.leb_spec (cpu_total before) (cpu_total after)); [|done]. injection Ht as <-.
  apply (clamp_between 1); [lia|]. apply num_div; [apply num_round|]. apply nonzero_int. unfold cpu_typed, u64_max in *. lia.
Qed.
Lemma percent_of x : between 1 x -> between 100 (mul x (of_int 100)).
Proof.
  intros (q & -> & H0 & H1). change (of_int 100) with (Finite 100). cbn [mul]. change (inject_Z 1) with 1%Q in H1.
  destruct (round_le_int (q * 100) 100) as (r & -> & Hr); [lra|change (inject_Z 100) with 100%Q; lra|done|]. by exists r.
Qed.
Lemma record_host_sane id name reading at_ st :
  sane st -> (forall c, hr_cpu reading = Some c -> cpu_typed c) -> sane (record_host id name reading at_ st).
Proof.
  intros Hs Hc. apply with_host_sane; [done|]. destruct (host_entry_sane st id Hs) as [H1 H2 H3]. constructor; cbn.
  - unfold host_share. destruct (ho_previous_cpu _) as [before|] eqn:Hb; [|done]. destruct (hr_cpu reading) as [after|] eqn:Ha; [|done].
    destruct (busy_fraction before after) as [busy|] eqn:Hbusy; [|done]. apply percent_push; [done|].
    apply percent_of. eapply busy_between; [| |exact Hbusy]; auto.
  - by apply short_push.
  - intros c. destruct (hr_cpu reading) as [c'|] eqn:Ha; [intros [= <-]; by apply Hc|apply H3].
Qed.
Lemma share_between rate vcpus : num rate -> vcpus_typed vcpus -> between 100 (instance_share rate vcpus).
Proof.
  intros Hr Hv. apply clamp_between; [lia|]. apply num_mul; [|by apply nonzero_int]. apply num_div; [done|].
  unfold NS_PER_SEC. destruct (of_int_exact (Z.max vcpus 1)) as (v & -> & Hvq); [unfold vcpus_typed, u32_max in *; lia|].
  change (of_int 1000000000) with (Finite 1000000000). cbn [mul].
  assert (inject_Z 1 <= inject_Z (Z.max vcpus 1))%Q by (rewrite <-Zle_Qle; lia).
  assert (inject_Z (Z.max vcpus 1) <= inject_Z u32_max)%Q by (rewrite <-Zle_Qle; unfold vcpus_typed, u32_max in *; lia).
  change (inject_Z 1) with 1%Q in *. apply nonzero_round; [lra|].
  apply (Qle_trans _ (inject_Z u32_max * 1000000000)); [lra|]. vm_compute. discriminate.
Qed.
Lemma record_instance_sane uuid owner host_id sample storage at_ st :
  sane st -> vcpus_typed (sa_vcpus sample) -> time_typed at_ -> sane (record_instance uuid owner host_id sample storage at_ st).
Proof.
  intros Hs Hv Ht. apply with_instance_sane; [done|]. destruct (instance_entry_sane st uuid Hs) as [H1 H2 H3]. constructor; cbn.
  - destruct (instance_rate _ _ _) as [rate|] eqn:Hr; [|done]. apply percent_push; [done|]. apply share_between; [|done].
    unfold instance_rate in Hr. destruct (is_previous _) as [[ns before]|] eqn:Hp; [|done]. specialize (H3 ns before eq_refl).
    destruct (checked_sub _ _); [|done]. destruct (Z.ltb_spec 0 (at_ - before)); [|done]. injection Hr as <-.
    apply num_div; [apply num_round|]. apply nonzero_int. unfold time_typed, i64_min, i64_max in *. lia.
  - destruct (sa_rss_kib sample); [by apply short_push|done].
  - by intros ns at' [= _ <-].
Qed.

(** ** A whole tick *)

Section Keeps.
Context (cpu_ok : CpuTimes -> Prop) (vcpus_ok time_ok : Z -> Prop) (live : list Instance) (I : MState -> Prop).
(** What a reply may hold. *)
Definition reply_ok (e : event mcall) : Prop :=
  match ev_call e in mcall R return R -> Prop with
  | KNow => time_ok
  | KReadCpu => fun r => forall c, r = Ok (Some c) -> cpu_ok c
  | KSample _ => fun r => forall s, r = Ok (Some s) -> vcpus_ok (sa_vcpus s)
  | KRemoteSample _ => fun r => forall s, r = Ok s ->
      (forall c, hs_cpu (sm_host s) = Some c -> cpu_ok (mkCpuTimes (ct_total c) (ct_idle c))) /\
      Forall (fun u => vcpus_ok (du_vcpus u)) (sm_domains s)
  | _ => fun _ => True
  end (ev_reply e).
Hypothesis keeps_known : forall id name c m s st, I st -> I (record_known id name c m s st).
Hypothesis keeps_host : forall id name reading at_ st,
  (forall c, hr_cpu reading = Some c -> cpu_ok c) -> I st -> I (record_host id name reading at_ st).
Hypothesis keeps_instance : forall uuid owner host_id sample storage at_ st,
  (exists i, i ∈ live /\ i_uuid i = uuid /\ i_owner_id i = owner) -> vcpus_ok (sa_vcpus sample) -> time_ok at_ ->
  I st -> I (record_instance uuid owner host_id sample storage at_ st).
Context (manager : Manager) (self : SamplerTask).

(** Every run whose replies are in order keeps [I]. *)
Definition keeping (p : prog mcall MState) (st : MState) : Prop := always p (fun tr st' => Forall reply_ok tr -> I st -> I st').

Lemma domains_keep host_id at_ l st : time_ok at_ -> (forall i, i ∈ l -> i ∈ live) -> keeping (read_domains manager host_id at_ l st) st.
Proof.
  intros Ht. revert st. induction l as [|i l IH]; intros st Hl; [by intros _|]. intros r.
  assert (Hskip : always (read_domains manager host_id at_ l st) (fun tr st' => Forall reply_ok (mkEvent (KSample (i_name i)) r :: tr) -> I st -> I st')).
  { eapply always_mono; [|apply IH; intros; apply Hl; by right]. intros tr st' H Hok. apply Forall_cons in Hok as [_ Hok]. by apply H. }
  destruct r as [[sample|]|e]; [|exact Hskip|exact Hskip]. intros blocks. eapply always_mono; [|apply IH; intros; apply Hl; by right].
  intros tr st' H Hok Hi. apply Forall_cons in Hok as [Hs Hok]. apply Forall_cons in Hok as [_ Hok]. apply H; [done|].
  apply keeps_instance; [|by apply (Hs sample)|done|done]. exists i. split_and!; [apply Hl; by left|done|done].
Qed.
Lemma owners_spec l (m : gmap string Z) uuid owner : foldl (fun m i => <[i_uuid i := i_owner_id i]> m) m l !! uuid = Some owner ->
  m !! uuid = Some owner \/ exists i, i ∈ l /\ i_uuid i = uuid /\ i_owner_id i = owner.
Proof.
  revert m. induction l as [|i l IH]; intros m; cbn [foldl]; [by left|]. intros [Hm|(j & Hj & H1 & H2)]%IH.
  - apply lookup_insert_Some in Hm as [[<- <-]|[_ Hm]]; [right; exists i; split_and!; [by left|done|done]|by left].
  - right. exists j. split_and!; [by right|done|done].
Qed.
Lemma usages_keep host_id at_ domains st : time_ok at_ -> Forall (fun u => vcpus_ok (du_vcpus u)) domains -> I st ->
  I (record_usages host_id at_ (owners live) domains st).
Proof.
  intros Ht Hd. revert st. induction Hd as [|u domains Hu _ IH]; intros st Hi; [done|]. cbn [record_usages]. apply IH.
  destruct (owners live !! du_uuid u) as [owner|] eqn:Ho; [|done]. apply keeps_instance; [|done|done|done].
  by apply owners_spec in Ho as [?|].
Qed.
Lemma remember_keeps host st : keeping (remember host st) st.
Proof. intros r _ Hi. by apply keeps_known. Qed.
Lemma local_keeps host at_ st : time_ok at_ -> keeping (read_local manager self host live at_ st) st.
Proof.
  intros Ht memory storage cpu cpu_count. eapply always_mono; [|apply domains_keep; [done|]].
  - intros tr st' H Hok Hi. do 2 (apply Forall_cons in Hok as [_ Hok]). apply Forall_cons in Hok as [Hc Hok].
    apply Forall_cons in Hok as [_ Hok]. apply H; [done|]. apply keeps_host; [|done]. cbn. intros c Hcpu. apply Hc.
    destruct cpu as [[c'|]|]; try done. by injection Hcpu as ->.
  - by intros i [_ Hin]%list_elem_of_filter.
Qed.
Lemma remote_keeps host at_ st : time_ok at_ -> keeping (read_remote self host live at_ st) st.
Proof.
  intros Ht. unfold read_remote. destruct (st_remote self); cbn [negb]; [|apply remember_keeps]. intros [samples|e].
  - intros Hok Hi. apply Forall_cons in Hok as [Hs _]. destruct (Hs samples eq_refl) as [Hc Hv].
    apply usages_keep; [done|done|]. apply keeps_host; [|done]. cbn. intros c Hcpu.
    destruct (hs_cpu (sm_host samples)) as [x|] eqn:Hx; [|done]. injection Hcpu as <-. by apply Hc.
  - eapply always_mono; [|apply remember_keeps]. intros tr st' H Hok. apply H. by apply Forall_cons in Hok as [_ ?].
Qed.
Lemma hosts_keep hosts at_ st : time_ok at_ -> keeping (read_hosts manager self hosts live at_ st) st.
Proof.
  intros Ht. revert st. induction hosts as [|host hosts IH]; intros st; [by intros _|]. apply always_bind.
  eapply (always_mono _ (fun tr st' => Forall reply_ok tr -> I st -> I st')).
  - intros tr st1 H1. eapply always_mono; [|apply IH]. intros tr' st2 H2 Hok Hi. apply Forall_app in Hok as [Ha Hb]. auto.
  - destruct (_ =? _); [by apply local_keeps|by apply remote_keeps].
Qed.
End Keeps.

Lemma reply_ok_mono cpu_ok vcpus_ok (time_ok time_ok' : Z -> Prop) e :
  (forall t, time_ok t -> time_ok' t) -> reply_ok cpu_ok vcpus_ok time_ok e -> reply_ok cpu_ok vcpus_ok time_ok' e.
Proof. destruct e as [R c r]. intros Ht. destruct c; try exact id. exact (Ht r). Qed.

(** The replies have the widths of their types. *)
Definition typed : event mcall -> Prop := reply_ok cpu_typed vcpus_typed time_typed.

(** C27. The charts stay in their frame: every tick, whatever the machines
    answer, keeps each series at no more than a day of points, every processor
    share a number from 0 to 100 percent, with the counters going back, a
    clock that jumps, and machines that stop answering included. *)
Theorem charts_bounded (manager : Manager) (self : SamplerTask) (st : MState) :
  sane st -> always (tick manager self st) (fun tr st' => Forall typed tr -> sane st').
Proof.
  intros Hs at_ [instances|e]; [|by intros _]. intros [hosts|e]; [|intros _; by apply retain_sane].
  set (now := fun t => t = at_ \/ time_typed t).
  eapply always_mono; [|apply (hosts_keep cpu_typed vcpus_typed now instances (fun st => time_typed at_ -> sane st)); [..|by left]].
  - intros tr st' H Hok. apply Forall_cons in Hok as [Ht Hok]. do 2 (apply Forall_cons in Hok as [_ Hok]).
    apply H; [|intros _; by apply retain_hosts_sane, retain_sane|exact Ht].
    eapply Forall_impl; [exact Hok|]. intros e. apply reply_ok_mono. by right.
  - intros id name c m s x Hx Ht. by apply record_known_sane, Hx.
  - intros id name reading t x Hc Hx Ht. apply record_host_sane; [by apply Hx|done].
  - intros uuid owner host_id sample storage t x _ Hv Ht' Hx Ht. apply record_instance_sane; [by apply Hx|done|].
    by destruct Ht' as [->|].
Qed.

(** ** The charts are those of the store *)

(** What a complete tick leaves of the instances: only rows of the store, and
    a changed entry has the owner its row has. *)
Definition follows (live : list Instance) (before after : MState) : Prop :=
  forall uuid s, ms_instances after !! uuid = Some s ->
    uuid ∈ i_uuid <$> live /\
    (ms_instances before !! uuid = Some s \/ exists i, i ∈ live /\ i_uuid i = uuid /\ i_owner_id i = is_owner_id s).

Lemma read_domains_hosts manager host_id at_ l st :
  always (read_domains manager host_id at_ l st) (fun _ st' => ms_hosts st' = ms_hosts st).
Proof.
  revert st. induction l as [|i l IH]; intros st; [done|]. intros [[sample|]|e]; [|apply IH|apply IH].
  intros blocks. eapply always_mono; [|apply IH]. by intros tr st' ->.
Qed.
Lemma record_usages_hosts host_id at_ m domains st : ms_hosts (record_usages host_id at_ m domains st) = ms_hosts st.
Proof. revert st. induction domains as [|u domains IH]; intros st; [done|]. cbn [record_usages]. rewrite IH. by destruct (m !! _). Qed.
Lemma remember_hosts host st : always (remember host st) (fun _ st' => dom (ms_hosts st') = {[h_id host]} ∪ dom (ms_hosts st)).
Proof. intros r. apply dom_insert_L. Qed.
Lemma read_host_hosts manager self host l at_ st :
  always (if h_id host =? st_local_host_id self then read_local manager self host l at_ st else read_remote self host l at_ st)
    (fun _ st' => dom (ms_hosts st') = {[h_id host]} ∪ dom (ms_hosts st)).
Proof.
  destruct (_ =? _).
  - intros memory storage cpu cpu_count. eapply always_mono; [|apply read_domains_hosts].
    intros tr st' ->. apply dom_insert_L.
  - unfold read_remote. destruct (st_remote self); cbn [negb]; [|apply remember_hosts]. intros [samples|e]; [|apply remember_hosts].
    cbn -[record_usages record_host]. rewrite record_usages_hosts. apply dom_insert_L.
Qed.
Lemma read_hosts_hosts manager self hosts l at_ st :
  always (read_hosts manager self hosts l at_ st) (fun _ st' => dom (ms_hosts st') = list_to_set (h_id <$> hosts) ∪ dom (ms_hosts st)).
Proof.
  revert st. induction hosts as [|host hosts IH]; intros st; [cbn; set_solver|]. apply always_bind.
  eapply always_mono; [|apply read_host_hosts]. intros tr st1 H1. eapply always_mono; [|apply IH].
  intros tr' st2 H2. rewrite H2, H1, fmap_cons. cbn. set_solver.
Qed.

(** The charts follow the store.  A tick that got no answer from the store
    drops nothing it should keep; one that did leaves exactly the machines
    that are not removed, the ones that did not answer among them, and no
    instance without a row; every instance that was measured is counted for
    the owner its row names. *)
Theorem charts_follow_store (manager : Manager) (self : SamplerTask) (st : MState) :
  always (tick manager self st) (fun tr st' =>
    (exists at_ e, tr = [mkEvent KNow at_; mkEvent KInstances (Err e)] /\ st' = st) \/
    (exists at_ l e, tr = [mkEvent KNow at_; mkEvent KInstances (Ok l); mkEvent KHosts (Err e)] /\
       st' = retain (i_uuid <$> l) st) \/
    (exists at_ l hosts rest,
       tr = mkEvent KNow at_ :: mkEvent KInstances (Ok l) :: mkEvent KHosts (Ok hosts) :: rest /\
       dom (ms_hosts st') = list_to_set (h_id <$> filter (fun h => h_placement h <> PlRemoved) hosts) /\ follows l st st')).
Proof.
  intros at_ [l|e]; [|by left; exists at_, e]. intros [hosts|e]; [|by right; left; exists at_, l, e].
  set (live := filter (fun h => h_placement h <> PlRemoved) hosts).
  eapply always_mono; [|apply always_and; [apply read_hosts_hosts|
    apply (hosts_keep (fun _ => True) (fun _ => True) (fun _ => True) l (follows l st)); try done]].
  - intros tr st' [Hd Hf]. right. right. exists at_, l, hosts, tr. split_and!; [done| |].
    + rewrite Hd. cbn [retain_hosts ms_hosts]. apply set_eq. intros id. rewrite elem_of_union. split; [|by left].
      intros [?|(h & Hh)%elem_of_dom]; [done|]. apply map_lookup_filter_Some in Hh as [_ Hh]. by apply elem_of_list_to_set.
    + apply Hf.
      * apply Forall_true. intros [R c r]. destruct c; cbn; auto using Forall_true.
      * intros uuid s Hs. cbn in Hs. apply map_lookup_filter_Some in Hs as [Hs Hin]. by split; [|left].
  - intros uuid owner host_id sample storage t x (i & Hi & Hu & Ho) _ _ Hx uuid' s Hs. cbn in Hs.
    apply lookup_insert_Some in Hs as [[<- <-]|[_ Hs]]; [|by apply Hx]. split; [|by right; exists i].
    apply list_elem_of_fmap. by exists i.
Qed.

(** ** What a stopped instance leaves behind *)

Definition metrics_manager : Manager :=
  mkManager true true 1 (mkPlan (mkPrefix 167772160 16)) "/var/lib/bento" 0 4 ["1.1.1.1"%string]
    DEFAULT_POLL_INTERVAL DEFAULT_START_POLL_INTERVAL DEFAULT_START_TIMEOUT "x86_64".
Definition one_machine : SamplerTask := mkSamplerTask "/var/lib/bento" 1 false.
Definition stopped_vm : Instance :=
  mkInstance "u1" "web" 7 1 "debian" "sha256:a" Stopped WantStopped "10.0.0.2" "02:00:00:00:00:01" 2 1024 10 false true 80 Off 0 None None.
(** A machine on which nothing runs. *)
Definition idle_machine : handler mcall unit := fun R c w =>
  (match c in mcall R return R with
   | KNow => 90
   | KInstances => Ok [stopped_vm]
   | KHosts => Ok [mkHost 1 None "one" "qemu:///system" None None true PlActive 0]
   | KReadMemory => Ok (mkMemory 0 0 0 0)
   | KDiskUsage _ => Ok (mkDisk 0 0)
   | KReadCpu => Ok None
   | KCpuCount => 4
   | KSample _ => Ok None
   | KOverlayBlocks _ => Err EmptyString
   | KRemoteSample _ => Err EmptyString
   | KObservation _ => Ok None
   end, w).
(** Two readings of a guest that keeps two cores busy. *)
Definition busy_guest : MState :=
  record_instance "u1" 7 1 (mkDomainSample 60000000000 2 (Some 524288)) fzero 60
    (record_instance "u1" 7 1 (mkDomainSample 0 2 (Some 524288)) fzero 30 new_sampler).
(** Once it is stopped, its owner's total still has its last reading: half of
    the machine's four cores and 512 MiB, as long as the row exists. *)
Example stopped_still_counted :
  let st' := fst (run idle_machine (tick metrics_manager one_machine busy_guest) tt) in
  let usage := user_answer st' 7 (snd <$> map_to_list (ms_instances st')) in
  um_cpu_pct usage = Finite 50 /\ um_memory_used_mib usage = 512.
Proof. vm_compute. done. Qed.

Lemma charts_bounded_witness :
  always (tick metrics_manager one_machine new_sampler) (fun tr st' => Forall typed tr -> sane st').
Proof. apply charts_bounded. split; apply map_Forall_empty. Defined.
