(* ===== verification/Assets.v ===== *)
(** * Assets: the files the dashboard links to, [crates/dashboard/src/lib.rs]

    The asset tree and the guess of a content type are parameters; a request
    is its method, its path and the tag the client already has. *)

From Stdlib Require Import ZArith Lia Ascii.
From S2P Require Import Prelude Text Types Api.
Open Scope Z_scope.

Definition PREFIX : string := "/assets/".
Definition FAVICON : string := "/assets/branding/favicon.png".

(** [clean_path]. *)
Definition clean_step (parts : list string) (segment : string) : list string :=
  if bool_decide (segment = EmptyString) || bool_decide (segment = ".") then parts
  else if bool_decide (segment = "..") then removelast parts
  else parts ++ [segment].
Definition clean_path (path : string) : option string :=
  match strip_prefix PREFIX path with
  | None => None
  | Some rest =>
      match foldl clean_step [] (split_on "/" rest) with
      | [] => None
      | parts => Some (join "/" parts)
      end
  end.

(** [etag]: FNV-1a over the bytes, at 64 bits. *)
Definition fnv_step (hash byte : Z) : Z := (Z.lxor hash byte * 1099511628211) mod 2 ^ 64.
Definition fnv (bytes : list Z) : Z := foldl fnv_step 14695981039346656037 bytes.
(** [{hash:016x}]. *)
Fixpoint hex_digits (n : nat) (z : Z) : string :=
  match n with O => EmptyString | S n => hex_digits n (z / 16) +:+ String (hex_digit (z mod 16)) EmptyString end.
Definition etag (bytes : list Z) : string := "W/" +:+ quoted (hex_digits 16 (fnv bytes)).

Inductive AssetResponse : Type :=
  | MethodNotAllowed
  | NoAsset
  | NotModified (tag : string)
  | Asset (content_type tag : string) (body : list Z).

Section Serve.
Context (assets : string -> option (list Z)) (content_type : string -> string).

Definition serve (method path : string) (if_none_match : option string) : AssetResponse :=
  if negb (bool_decide (method = "GET")) && negb (bool_decide (method = "HEAD")) then MethodNotAllowed
  else
    match clean_path path with
    | None => NoAsset
    | Some path =>
        match assets path with
        | None => NoAsset
        | Some body =>
            if bool_decide (if_none_match = Some (etag body)) then NotModified (etag body)
            else Asset (content_type path) (etag body) body
        end
    end.
(** [router_from]: the icon has a route for [GET] of its own. *)
Definition route (method path : string) (if_none_match : option string) : AssetResponse :=
  if bool_decide (path = "/favicon.ico") then
    (if bool_decide (method = "GET") || bool_decide (method = "HEAD") then serve method FAVICON if_none_match else MethodNotAllowed)
  else serve method path if_none_match.

(** ** Nothing outside the tree is reached *)

Definition plain_segment (s : string) : Prop := s <> EmptyString /\ s <> "." /\ s <> ".." /\ free "/" s.
Lemma segments_free c s : Forall (free c) (split_on c s).
Proof.
  induction s as [|a s IH]; [by repeat constructor|]. cbn [split_on]. destruct (Ascii.eqb a c) eqn:Ha; [by constructor|].
  destruct (split_on c s) as [|p ps]; [by repeat constructor; unfold free; cbn; rewrite Ha|]. apply Forall_cons in IH as [Hp Hps].
  constructor; [|done]. unfold free in *. cbn. by rewrite Ha, Hp.
Qed.
Lemma clean_step_plain parts segment : Forall plain_segment parts -> free "/" segment -> Forall plain_segment (clean_step parts segment).
Proof.
  intros Hp Hf. unfold clean_step. case_bool_decide as H1; [done|]. case_bool_decide as H2; [done|]. cbn [orb].
  case_bool_decide as H3; [|apply Forall_app; split; [done|by repeat constructor]].
  induction parts as [|p parts IH]; [done|]. apply Forall_cons in Hp as [H Hp]. destruct parts; [constructor|]. constructor; [done|by apply IH].
Qed.
Lemma clean_parts_plain segments parts : Forall plain_segment parts -> Forall (free "/") segments ->
  Forall plain_segment (foldl clean_step parts segments).
Proof.
  intros Hp Hs. revert parts Hp. induction Hs as [|s segments Hf _ IH]; intros parts Hp; [done|]. cbn [foldl].
  by apply IH, clean_step_plain.
Qed.

(** A request reaches only files of the asset tree: the name looked up is
    made of plain segments, none empty, [.], [..] or with a slash inside, so
    no path leads out of the tree; what is answered is that file and its tag,
    and a client that sends the tag back is told to keep what it has. *)
Theorem assets_confined (method path : string) (if_none_match : option string) :
  match route method path if_none_match with
  | MethodNotAllowed => method <> "GET" /\ method <> "HEAD"
  | NoAsset => True
  | NotModified tag => if_none_match = Some tag /\
      exists parts body, parts <> [] /\ Forall plain_segment parts /\ assets (join "/" parts) = Some body /\ tag = etag body
  | Asset _ tag body => if_none_match <> Some tag /\ tag = etag body /\
      exists parts, parts <> [] /\ Forall plain_segment parts /\ assets (join "/" parts) = Some body
  end.
Proof.
  assert (Hserve : forall path, match serve method path if_none_match with
    | MethodNotAllowed => method <> "GET" /\ method <> "HEAD"
    | NoAsset => True
    | NotModified tag => if_none_match = Some tag /\
        exists parts body, parts <> [] /\ Forall plain_segment parts /\ assets (join "/" parts) = Some body /\ tag = etag body
    | Asset _ tag body => if_none_match <> Some tag /\ tag = etag body /\
        exists parts, parts <> [] /\ Forall plain_segment parts /\ assets (join "/" parts) = Some body
    end).
  { intros p. unfold serve. destruct (negb _ && negb _) eqn:Hm.
    { apply andb_true_iff in Hm as [H1 H2]. apply negb_true_iff, bool_decide_eq_false_1 in H1, H2. done. }
    clear Hm. unfold clean_path. destruct (strip_prefix PREFIX p) as [rest|]; [|done].
    pose proof (clean_parts_plain (split_on "/" rest) [] (List.Forall_nil _) (segments_free "/" rest)) as Hp.
    destruct (foldl clean_step [] (split_on "/" rest)) as [|part parts]; [done|].
    destruct (assets (join "/" (part :: parts))) as [body|] eqn:Hb; [|done]. case_bool_decide.
    - split; [done|]. by exists (part :: parts), body.
    - split_and!; [done|done|]. by exists (part :: parts). }
  unfold route. case_bool_decide; [|apply Hserve]. case_bool_decide; case_bool_decide; cbn [orb]; try apply Hserve. done.
Qed.
End Serve.

Example stays_inside :
  clean_path "/assets/../../etc/passwd" = Some "etc/passwd" /\ clean_path "/assets/css/./app.css" = Some "css/app.css" /\
  clean_path "/assets/css/.." = None /\ clean_path "/etc/passwd" = None.
Proof. vm_compute. done. Qed.
