(* ===== verification/Daemon.v ===== *)
(** * Daemon: the process of the control plane and the operator's commands

    [bentod/src/{serve,ops,firewall,keys,setup}.rs]: how [serve] starts and
    ends, the renewal of its lease, the firewall's reload, the keys it makes,
    and the commands on copies of the database, slots and images.  The store,
    the machine and the libraries are calls; the shutdown signal that cuts a
    command short is left out, as are [bentod images], [reconcile] and
    [fetch-images], which call what other files model. *)

From Stdlib Require Import ZArith Lia Ascii.
From S2P Require Import Prelude Text Types Ip Ipv4 Config Prog Pool.
Open Scope Z_scope.

(** ** Calls *)

(** The steps of [serve_inner] that are other components: [BindListener]
    resolves the address first, [SpawnTasks] starts the restore, the pollers,
    the sampler and the convergence, [StopTasks] waits for them. *)
Inductive Step : Type :=
  | HostChecks | ConnectLibvirt | MachineId | EnsureHost | FrontendKey | BuildManager | RecordLocalImages
  | UserNetwork (user : User) | ReloadFirewall | BuildRouter | BindListener | SpawnTasks | ServeHttp | StopTasks | CloseLibvirt.

(** What [acquire_lease] answers when it has no lease to give. *)
Inductive LeaseError : Type := LeaseHeld (holder expires_at : string) | LeaseFailed (e : string).
Definition lease_message (e : LeaseError) : string :=
  match e with LeaseHeld holder expires_at => "store: the controller lease is held by " +:+ holder +:+ " until " +:+ expires_at | LeaseFailed e => e end.

Inductive ocall : Type -> Type :=
  | OOpen : ocall (result string unit)
  | OClose : ocall unit
  | OAcquireLease (holder : string) (ttl : Z) : ocall (result LeaseError Lease)
  | OReleaseLease (holder : string) : ocall (result string unit)
  | ODo (s : Step) : ocall (result string unit)
  | OUsers : ocall (result string (list User))
  | ORegisterRunner (name endpoint underlay : string) : ocall (result string unit)
  | OUpsertImage (image : Image) : ocall (result string unit)
  | OHosts : ocall (result string (list Host))
  | OImages : ocall (result string (list Image))
  | OEnsureImage (host : Host) (image : Image) : ocall (result string string)
  | ODeployment : ocall (result string Deployment)
  | OSetRunnerPrefix (prefix : Z) : ocall (result string Deployment)
  | OSlots : ocall (result string (list Slot))
  | OClaimSlot (slot host_id : Z) : ocall (result string Slot)
  | OInstances : ocall (result string (list Instance))
  | OStamp : ocall string
  | ODumpDb (destination : string) : ocall (result string unit)
  | ORestoreDb (source : string) : ocall (result string unit)
  | OPrint (line : string) : ocall unit.

Definition Cmd (T : Type) : Type := fallible ocall string T.
#[local] Instance Cmd_ret : MRet Cmd := fallible_ret.
#[local] Instance Cmd_bind : MBind Cmd := fallible_bind.
Definition ops {T} (c : ocall (result string T)) : Cmd T := ask c id.
(** [.map_err(|error| anyhow!("..: {error}"))] and [.context(..)]. *)
Definition ops_at {T} (what : string) (c : ocall (result string T)) : Cmd T := ask c (fun e => what +:+ ": " +:+ e).
Definition println (line : string) : Cmd unit := get (OPrint line).
(** A loop with [?]. *)
Fixpoint for_each {T} (f : T -> Cmd unit) (l : list T) : Cmd unit :=
  match l with [] => mret tt | x :: l => _ ← f x; for_each f l end.

Section Daemon.
Context (cfg : Config) (subnet_ok : string -> bool).

(** ** The image allowlist and the runners *)

Definition allowlist_image (image : ImageEntry) : Image :=
  mkImage (ie_name image)
    (match ie_source image with SourceUrl reference | SourceOci reference => reference end)
    (match ie_source image with SourceUrl _ => Qcow2 | SourceOci _ => Oci end)
    (ie_pinned_checksum image) None.
Definition sync_image_allowlist : Cmd unit :=
  for_each (fun image => ops_at ("image allowlist " +:+ ie_name image) (OUpsertImage (allowlist_image image))) (c_images cfg).
(** The loop over [app.cfg.runners] of [serve_inner] and [sync_images]. *)
Definition register_runner (runner : RunnerEntry) : Cmd unit :=
  match entry_underlay runner with
  | Err e => throw ("runner " +:+ debug (re_name runner) +:+ ": " +:+ e)
  | Ok underlay =>
      ops_at ("register runner " +:+ debug (re_name runner)) (ORegisterRunner (re_name runner) (re_endpoint runner) (addr_to_string underlay))
  end.
Definition register_runners : Cmd unit := for_each register_runner (c_runners cfg).

(** ** [serve] *)

Definition CONTROLLER_LEASE_TTL : Z := 30 * nanos_per_sec.
(** [ensure_user_networks]: a user whose subnet is no network of the plan is
    skipped. *)
Definition ensure_user_networks : Cmd unit :=
  users ← ops OUsers;
  for_each (fun user => if subnet_ok (u_subnet user) then ops (ODo (UserNetwork user)) else mret tt) users.
Definition step (s : Step) : Cmd unit := ops (ODo s).
(** [serve_inner]: everything before the listener, then the service until it
    ends, then its tasks. *)
Definition serve_inner : Cmd unit :=
  _ ← step HostChecks;
  _ ← step ConnectLibvirt;
  _ ← step MachineId;
  _ ← step EnsureHost;
  _ ← register_runners;
  _ ← step FrontendKey;
  _ ← step BuildManager;
  _ ← sync_image_allowlist;
  _ ← step RecordLocalImages;
  _ ← ensure_user_networks;
  _ ← step ReloadFirewall;
  _ ← step BuildRouter;
  _ ← step BindListener;
  _ ← attempt (Y := string) (ODo SpawnTasks);
  served ← attempt (ODo ServeHttp);
  _ ← attempt (Y := string) (ODo StopTasks);
  _ ← step CloseLibvirt;
  pure_res served.
(** [acquire_controller_lease]. *)
Definition acquire_controller_lease (holder : string) : Cmd Lease :=
  ask (OAcquireLease holder CONTROLLER_LEASE_TTL) (fun e =>
    match e with
    | LeaseHeld other expires_at =>
        "control plane cannot start: controller lease is held by " +:+ other +:+ " until " +:+ expires_at +:+ " (MULTI-NODE 11.3)"
    | e => "acquire controller lease (MULTI-NODE 11.3): " +:+ lease_message e
    end).
(** [run_serve], with the holder's name. *)
Definition run_serve (holder : string) : Cmd unit :=
  _ ← ops OOpen;
  _ ← acquire_controller_lease holder;
  prog_bind _ _ (fun served =>
    Call (OReleaseLease holder) (fun released =>
    Call OClose (fun _ =>
      Ret (_ ← served; map_err (fun e => "release controller lease (MULTI-NODE 11.3): " +:+ e) released)))) serve_inner.

(** The step of [spawn_lease_renewal], once per period: the lease goes to the
    dispatchers; any failure cancels the process and ends the loop. *)
Record Renewal : Type := mkRenewal { rw_lease : Lease; rw_cancelled : bool }.
Fixpoint renewals (answers : list (result string Lease)) (r : Renewal) : Renewal :=
  match answers with
  | [] => r
  | Ok lease :: answers => renewals answers (mkRenewal lease (rw_cancelled r))
  | Err _ :: _ => mkRenewal (rw_lease r) true
  end.

(** ** The operator's commands: [ops.rs] *)

(** The end of every command: the database is closed. *)
Definition closing {T} (p : Cmd T) : Cmd T := prog_bind _ _ (fun r => Call OClose (fun _ => Ret r)) p.
(** [run_dump_db]: the copy goes where the operator says, or beside it. *)
Definition dump (args : list string) : Cmd unit :=
  destination ← match args with
                | destination :: _ => mret destination
                | [] => stamp ← get OStamp; mret ("bento-" +:+ stamp +:+ ".db")
                end;
  _ ← ops (ODumpDb destination);
  println ("wrote a consistent copy of " +:+ c_db_path cfg +:+ " to " +:+ destination).
Definition run_dump_db (args : list string) : Cmd unit := _ ← ops OOpen; closing (dump args).
(** [restore]: the copy first. *)
Definition restore (source : string) : Cmd unit :=
  stamp ← get OStamp;
  let aside := c_db_path cfg +:+ ".before-restore-" +:+ stamp in
  _ ← ops (ODumpDb aside);
  _ ← println ("copied " +:+ c_db_path cfg +:+ " to " +:+ aside);
  _ ← ops (ORestoreDb source);
  _ ← println ("restored " +:+ c_db_path cfg +:+ " from " +:+ source);
  println "stop the bentod units before a restore and start them after it".
Definition run_restore_db (args : list string) : Cmd unit :=
  match args with
  | [] => throw "restore-db needs the database to restore from"
  | source :: _ => _ ← ops OOpen; closing (restore source)
  end.

(** [set_prefix] and [give_slot]. *)
Definition set_prefix (prefix : Z) : Cmd unit :=
  before ← ops ODeployment;
  if runner_prefix before =? prefix then println ("the runner prefix is already /" +:+ dec prefix)
  else if prefix <? runner_prefix before then
    throw ("narrowing /" +:+ dec (runner_prefix before) +:+ " to /" +:+ dec prefix +:+
           " merges slots, which is not implemented (MULTI-NODE 17.2)")
  else
    after ← ops (OSetRunnerPrefix prefix);
    slots ← ops OSlots;
    _ ← println ("runner prefix /" +:+ dec (runner_prefix before) +:+ " -> /" +:+ dec (runner_prefix after) +:+ "; " +:+
                 dec (slot_count after) +:+ " slot(s) per user /24");
    _ ← println (dec (Z.of_nat (length (slots : list Slot))) +:+
                 " slot(s) owned; each new slot kept the owner of the slot it split from. Move one with `bentod slots give`.");
    println "no instance moved and no address changed.".
Definition give_slot (slot : Z) (machine : string) : Cmd unit :=
  hosts ← ops OHosts;
  match List.find (fun host => bool_decide (h_name host = machine)) hosts with
  | None => throw ("no machine named " +:+ debug machine)
  | Some host =>
      match h_underlay host with
      | None => throw ("machine " +:+ debug machine +:+
                       " has no underlay address; add one to its [[runners]] entry before giving it a slot")
      | Some _ =>
          claimed ← ops (OClaimSlot slot (h_id host));
          _ ← println ("slot " +:+ dec (s_slot claimed) +:+ " -> " +:+ h_name host +:+ " (ownership epoch " +:+
                       dec (s_ownership_epoch claimed) +:+ ")");
          println "the controller installs the routes on its next poll."
      end
  end.
(** [show_slots]. *)
Definition slot_line (hosts : list Host) (instances : list Instance) (slot : Slot) : string :=
  pad_right 6 (dec (s_slot slot)) +:+ "  " +:+ pad_right 10 (SlotState_as_str (s_state slot)) +:+ "  " +:+
  pad_right 20 (match List.find (fun h => h_id h =? s_owner_host_id slot) hosts with Some h => h_name h | None => "(unknown)" end) +:+ "  " +:+
  dec (Z.of_nat (length (filter (fun i => i_slot i = Some (s_slot slot)) instances))).
Definition show_slots : Cmd unit :=
  deployment ← ops ODeployment;
  hosts ← ops OHosts;
  instances ← ops OInstances;
  _ ← println ("runner prefix /" +:+ dec (runner_prefix deployment) +:+ " (" +:+ dec (slot_count deployment) +:+ " slot(s) per user /24)");
  _ ← println (pad_right 6 "SLOT" +:+ "  " +:+ pad_right 10 "STATE" +:+ "  " +:+ pad_right 20 "OWNER" +:+ "  INSTANCES");
  slots ← ops OSlots;
  _ ← for_each (fun slot => println (slot_line hosts instances slot)) slots;
  match filter (fun i => i_slot i = None) (instances : list Instance) with
  | [] => mret tt
  | unplaced => println (String (ascii_of_code 10) (dec (Z.of_nat (length unplaced)) +:+ " instance(s) hold no slot; run `bentod reconcile`."))
  end.
(** [slots_inner]: the command its arguments name. *)
Inductive SlotsCommand : Type := ShowSlots | SetPrefix (prefix : Z) | ShowPlan (machine : option string) | GiveSlot (slot : Z) (machine : string).
Definition parse_slots (args : list string) : result string SlotsCommand :=
  match args with
  | [] => Ok ShowSlots
  | verb :: rest =>
      if bool_decide (verb = "show") && bool_decide (rest = []) then Ok ShowSlots
      else if bool_decide (verb = "set-prefix") then
        match rest with
        | [prefix] => match parse_uint 255 prefix with Some p => Ok (SetPrefix p) | None => Err (debug prefix +:+ " is not a slot prefix") end
        | _ => Err "usage: bentod slots set-prefix <24|25|26|27>"
        end
      else if bool_decide (verb = "plan") then Ok (ShowPlan (head rest))
      else if bool_decide (verb = "give") then
        match rest with
        | [slot; machine] => match parse_uint u64_max slot with Some s => Ok (GiveSlot s machine) | None => Err (debug slot +:+ " is not a slot number") end
        | _ => Err "usage: bentod slots give <slot> <machine>"
        end
      else Err ("unknown slots command " +:+ debug verb +:+ "; try show, set-prefix, or give")
  end.

Definition slots_inner (show_plan : option string -> Cmd unit) (args : list string) : Cmd unit :=
  command ← pure_res (parse_slots args);
  match command with
  | ShowSlots => show_slots
  | SetPrefix prefix => set_prefix prefix
  | ShowPlan machine => show_plan machine
  | GiveSlot slot machine => give_slot slot machine
  end.
Definition run_slots (show_plan : option string -> Cmd unit) (args : list string) : Cmd unit :=
  _ ← ops OOpen; closing (slots_inner show_plan args).

(** [sync_images_with_lease]: every image on every enabled machine.  The tasks
    run at the same time; what is reported does not depend on their order. *)
Definition IMAGE_SYNC_LEASE_TTL : Z := 31 * 60 * nanos_per_sec.
Definition Reports : Type := gmap string (gmap string string).
Definition add_report (image host checksum : string) (reports : Reports) : Reports :=
  <[image := <[host := checksum]> (default ∅ (reports !! image))]> reports.
Fixpoint ensure_on (image : Image) (hosts : list Host) (st : Reports * list string) : prog ocall (Reports * list string) :=
  match hosts with
  | [] => mret st
  | host :: hosts =>
      r ← call (OEnsureImage host image);
      ensure_on image hosts
        (match r with
         | Ok checksum => (add_report (img_name image) (h_name host) checksum st.1, st.2)
         | Err error => (st.1, st.2 ++ [img_name image +:+ " on " +:+ h_name host +:+ ": " +:+ error])
         end)
  end.
Fixpoint ensure_all (images : list Image) (hosts : list Host) (st : Reports * list string) : prog ocall (Reports * list string) :=
  match images with
  | [] => mret st
  | image :: images => st ← ensure_on image hosts st; ensure_all images hosts st
  end.
(** One checksum, from every machine. *)
Definition converged (hosts : list Host) (rows : option (gmap string string)) : bool :=
  negb (bool_decide (hosts = [])) &&
  match rows with
  | Some rows => (size rows =? length hosts)%nat && (size (list_to_set (snd <$> map_to_list rows) : gset string) =? 1)%nat
  | None => false
  end.
Definition print_image (hosts : list Host) (reports : Reports) (image : Image) : Cmd unit :=
  _ ← println (img_name image);
  let rows := reports !! img_name image in
  _ ← for_each (fun host => println ("  " +:+ h_name host +:+ "  " +:+ default "(not ready)" (rows ≫= fun rows => rows !! h_name host))) hosts;
  println ("  fleet converged: " +:+ (if converged hosts rows then "yes" else "no")).
Definition sync_images_with_lease : Cmd unit :=
  all ← ops OHosts;
  let hosts := filter (fun h => h_enabled h = true) (all : list Host) in
  images ← ops OImages;
  prog_bind _ _ (fun st =>
    _ ← for_each (print_image hosts (fst st)) images;
    match snd st with [] => mret tt | failures => throw ("image sync failed: " +:+ join "; " failures) end)
    (ensure_all images hosts (∅, [])).
Definition sync_images (holder : string) : Cmd unit :=
  _ ← sync_image_allowlist;
  _ ← register_runners;
  _ ← ask (OAcquireLease holder IMAGE_SYNC_LEASE_TTL) (fun e => "acquire controller lease for image sync (MULTI-NODE 11.3): " +:+ lease_message e);
  prog_bind _ _ (fun r =>
    Call (OReleaseLease holder) (fun released =>
      Ret (_ ← r; map_err (fun e => "release controller lease after image sync (MULTI-NODE 11.3): " +:+ e) released)))
    sync_images_with_lease.
Definition run_sync_images (holder : string) : Cmd unit := _ ← ops OOpen; closing (sync_images holder).
End Daemon.

(** ** The firewall's reload: [firewall.rs] *)

Inductive fcall : Type -> Type :=
  | FRender : fcall (result string string)
  | FApply (text : string) : fcall (result string unit).
(** [Firewall::reload], with the text of the last successful one; it runs
    under a lock. *)
Definition reload (last : string) : prog fcall (result string unit * string) :=
  Call FRender (fun r =>
    match r with
    | Err e => Ret (Err e, last)
    | Ok text =>
        if bool_decide (text = last) then Ret (Ok tt, last)
        else Call (FApply text) (fun r => match r with Ok _ => Ret (Ok tt, text) | Err e => Ret (Err e, last) end)
    end).
Fixpoint reloads (n : nat) (last : string) : prog fcall (list (result string unit) * string) :=
  match n with
  | O => Ret ([], last)
  | S n => prog_bind _ _ (fun x => prog_bind _ _ (fun y => Ret (fst x :: fst y, snd y)) (reloads n (snd x))) (reload last)
  end.

(** ** Keys: [keys.rs] *)

Inductive FileRead : Type := FileText (text : string) | FileMissing | FileError (e : string).
Section Keys.
Context {Key : Type}.
(** [KyCreateNew]: made where nothing is, and closed when it is on disk. *)
Inductive kcall : Type -> Type :=
  | KyRead (path : string) : kcall FileRead
  | KyMakeParent (path : string) : kcall (result string unit)
  | KyGenerate (comment : string) : kcall (result string Key)
  | KyCreateNew (path : string) (mode : Z) (text : string) : kcall (result string unit).
Context (decode_secret_key : string -> option Key) (to_openssh : Key -> result string string)
  (authorized_key_line : Key -> string -> result string string).
Definition K (T : Type) : Type := fallible kcall string T.
#[local] Instance K_ret : MRet K := fallible_ret.
#[local] Instance K_bind : MBind K := fallible_bind.
(** [ensure_key]: a file is made only where none is. *)
Definition ensure_key (path comment : string) : K Key :=
  found ← get (KyRead path);
  match found with
  | FileText text => match decode_secret_key text with Some key => mret key | None => throw ("parse " +:+ path) end
  | FileError e => throw e
  | FileMissing =>
      _ ← ask (KyMakeParent path) id;
      key ← ask (KyGenerate comment) id;
      secret ← pure_res (to_openssh key);
      _ ← ask (KyCreateNew path 384 secret) id;
      public ← pure_res (authorized_key_line key comment);
      _ ← ask (KyCreateNew (path +:+ ".pub") 420 (public +:+ String (ascii_of_code 10) EmptyString)) id;
      mret key
  end.
End Keys.

(** ** Addresses: [setup.rs] *)

Definition capacity_from (memory_bytes storage_bytes : Z) (overcommit_ratio : Float64.f64) : Capacity :=
  from_host (memory_bytes / (1024 * 1024)) (storage_bytes / (1024 * 1024 * 1024)) overcommit_ratio.
Definition parse_port (s : string) : option Z := parse_uint 65535 s.
Definition control_url (listen : string) : string :=
  match strip_prefix ":" listen with
  | Some port => "http://127.0.0.1:" +:+ port
  | None =>
      match parse_socket listen with
      | Some address => if is_unspecified (sa_ip address) then "http://127.0.0.1:" +:+ dec (sa_port address) else "http://" +:+ listen
      | None => "http://" +:+ listen
      end
  end.
Definition main_port (listen : string) : Z :=
  match strip_prefix ":" listen with
  | Some port => default 0 (parse_port port)
  | None => match parse_socket listen with Some address => sa_port address | None => 0 end
  end.
