(* ===== verification/DaemonRuns.v ===== *)
(** * DaemonRuns: what the process and the operator's commands do in every run *)

From Stdlib Require Import ZArith Lia.
From S2P Require Import Prelude Text Types Ipv4 Config Prog Pool Daemon.
Open Scope Z_scope.

(** A call that was answered with an error. *)
Definition refused {E T} (r : result E T) : bool := match r with Err _ => true | Ok _ => false end.
Definition went_wrong (e : event ocall) : bool :=
  match ev_call e in ocall R return R -> bool with
  | OOpen | OReleaseLease _ | ODo _ | ORegisterRunner _ _ _ | OUpsertImage _ | ODumpDb _ | ORestoreDb _ => refused
  | OAcquireLease _ _ => refused
  | OUsers => refused
  | OHosts => refused
  | OInstances => refused
  | OImages => refused
  | OEnsureImage _ _ => refused
  | ODeployment | OSetRunnerPrefix _ => refused
  | OSlots => refused
  | OClaimSlot _ _ => refused
  | OClose | OStamp | OPrint _ => fun _ => false
  end (ev_reply e).
Definition all_well (tr : list (event ocall)) : Prop := Forall (fun e => went_wrong e = false) tr.

(** ** [serve] *)

Section Serve.
Context (cfg : Config) (subnet_ok : string -> bool) (holder : string).

(** The lease is there and has not been given back. *)
Definition held (before : list (event ocall)) : Prop :=
  (exists l, mkEvent (OAcquireLease holder CONTROLLER_LEASE_TTL) (Ok l) ∈ before) /\
  forall r, mkEvent (OReleaseLease holder) r ∉ before.
Definition done_step (before : list (event ocall)) (s : Step) : Prop := mkEvent (ODo s) (Ok tt) ∈ before.
Definition registers (runner : RunnerEntry) (e : event ocall) : Prop :=
  exists underlay, entry_underlay runner = Ok underlay /\
    e = mkEvent (ORegisterRunner (re_name runner) (re_endpoint runner) (addr_to_string underlay)) (Ok tt).
(** What must be in place before anybody can connect. *)
Definition ready (before : list (event ocall)) : Prop :=
  all_well before /\
  Forall (done_step before) [HostChecks; ConnectLibvirt; MachineId; EnsureHost; FrontendKey; BuildManager; RecordLocalImages;
                             ReloadFirewall; BuildRouter] /\
  Forall (fun runner => exists e, e ∈ before /\ registers runner e) (c_runners cfg) /\
  Forall (fun image => mkEvent (OUpsertImage (allowlist_image image)) (Ok tt) ∈ before) (c_images cfg) /\
  exists users, mkEvent OUsers (Ok users) ∈ before /\
    Forall (fun user => subnet_ok (u_subnet user) = true -> done_step before (UserNetwork user)) users.
Definition serve_may (before : list (event ocall)) (e : event ocall) : Prop :=
  match ev_call e with
  | ODo BindListener => held before /\ ready before
  | ODo ServeHttp => held before /\ done_step before BindListener
  | ODo _ | OUsers | ORegisterRunner _ _ _ | OUpsertImage _ | OReleaseLease _ => held before
  | OOpen => before = []
  | OAcquireLease _ _ => exists r, before = [mkEvent OOpen (Ok r)]
  | OClose => exists r, mkEvent (OReleaseLease holder) r ∈ before
  | _ => False
  end.
#[local] Abbreviation does := (after serve_may).
Definition good (before : list (event ocall)) : Prop := held before /\ all_well before.

Definition gives_back {R} (c : ocall R) : bool := match c with OReleaseLease _ => true | _ => false end.
Lemma lease_held_snoc {R} before (c : ocall R) r : held before -> gives_back c = false -> held (before ++ [mkEvent c r]).
Proof.
  intros [[l Hl] Hr] Hc. split; [exists l; set_solver|]. intros r' [Hin|Hin]%elem_of_app; [by eapply Hr|].
  apply list_elem_of_singleton, (f_equal (fun e => gives_back (ev_call e))) in Hin. cbn in Hin. congruence.
Qed.
Lemma all_well_snoc before e : all_well before -> went_wrong e = false -> all_well (before ++ [e]).
Proof. intros Hb He. apply Forall_app. split; [done|by constructor]. Qed.

(** One call with [?]: an error ends [serve_inner] with the lease still held. *)
Lemma does_ops {T U} before (c : ocall (result string T)) (f : string -> string) (k : T -> Cmd U) (Q : list (event ocall) -> result string U -> Prop) :
  good before -> gives_back c = false -> (forall r, serve_may before (mkEvent c r)) ->
  (forall a, went_wrong (mkEvent c (Ok a)) = false) -> (forall tr e, held tr -> Q tr (Err e)) ->
  (forall a, good (before ++ [mkEvent c (Ok a)]) -> does (before ++ [mkEvent c (Ok a)]) (k a) Q) ->
  does before (fallible_bind _ _ k (ask c f)) Q.
Proof.
  intros [Hh Hw] Hc Hm Hok Herr Hk. apply after_try, after_ask; [done|]. intros [a|e]; cbn [map_err].
  - apply Hk. split; [by apply lease_held_snoc|by apply all_well_snoc].
  - by apply Herr, lease_held_snoc.
Qed.
(** A loop of such calls, each of which is made. *)
Lemma does_each {T} before (f : T -> Cmd unit) (l : list T) (P : T -> event ocall -> Prop) :
  good before ->
  (forall before x (Q : list (event ocall) -> result string unit -> Prop), good before -> (forall tr e, held tr -> Q tr (Err e)) ->
     (forall tr, before ⊆ tr -> good tr -> (exists e, e ∈ tr /\ P x e) -> Q tr (Ok tt)) -> does before (f x) Q) ->
  does before (for_each f l) (fun tr r => match r with
    | Ok _ => before ⊆ tr /\ good tr /\ Forall (fun x => exists e, e ∈ tr /\ P x e) l
    | Err _ => held tr end).
Proof.
  intros Hg Hf. revert before Hg. induction l as [|x l IH]; intros before Hg; [apply after_ret; split_and!; [done|done|constructor]|].
  apply after_try. apply Hf; [done|done|]. intros tr Hs Hgt (e & He & HP).
  eapply after_mono; [|by apply IH]. intros tr' [[]|err]; [|done]. intros (Hs' & Hg' & Hl).
  split_and!; [set_solver|done|]. constructor; [|done]. exists e. split; [|done].
  set_solver.
Qed.

(** How [serve_inner] ends: the lease is still held, and success means that
    the service ended by itself. *)
Definition ended (tr : list (event ocall)) (r : result string unit) : Prop :=
  held tr /\ (r = Ok tt -> done_step tr ServeHttp).
Lemma ended_err tr e : held tr -> ended tr (Err e).
Proof. by split. Qed.
Lemma does_step before s (k : unit -> Cmd unit) :
  good before -> match s with BindListener | ServeHttp => False | _ => True end ->
  (good (before ++ [mkEvent (ODo s) (Ok tt)]) -> does (before ++ [mkEvent (ODo s) (Ok tt)]) (k tt) ended) ->
  does before (fallible_bind _ _ k (step s)) ended.
Proof.
  intros Hg Hs Hk. apply does_ops; [done|done| |by intros []|apply ended_err|by intros []].
  intros r. by destruct Hg, s.
Qed.
Lemma does_allowlist before (k : unit -> Cmd unit) : good before ->
  (forall tr, before ⊆ tr -> good tr -> Forall (fun image => mkEvent (OUpsertImage (allowlist_image image)) (Ok tt) ∈ tr) (c_images cfg) ->
     does tr (k tt) ended) ->
  does before (fallible_bind _ _ k (sync_image_allowlist cfg)) ended.
Proof.
  intros Hg Hk. apply after_try. eapply after_mono.
  2: { apply (does_each before _ (c_images cfg) (fun image e => e = mkEvent (OUpsertImage (allowlist_image image)) (Ok tt))); [done|].
       intros b image Q Hgb Herr Hok. apply after_ask; [intros r; by destruct Hgb|]. intros [[]|e]; cbn [map_err].
       - apply Hok; [set_solver|destruct Hgb; split; [by apply lease_held_snoc|by apply all_well_snoc]|]. eexists. split; [|done]. set_solver.
       - apply Herr, lease_held_snoc; [by destruct Hgb|done]. }
  intros tr [[]|e]; [|apply ended_err]. intros (Hs & Hgt & Hl). apply Hk; [done|done|].
  eapply Forall_impl; [exact Hl|]. by intros image (e & He & ->).
Qed.
Lemma does_runners before (k : unit -> Cmd unit) : good before ->
  (forall tr, before ⊆ tr -> good tr -> Forall (fun runner => exists e, e ∈ tr /\ registers runner e) (c_runners cfg) ->
     does tr (k tt) ended) ->
  does before (fallible_bind _ _ k (register_runners cfg)) ended.
Proof.
  intros Hg Hk. apply after_try. eapply after_mono.
  2: { apply (does_each before _ (c_runners cfg) registers); [done|].
       intros b runner Q Hgb Herr Hok. unfold register_runner. destruct (entry_underlay runner) as [u|e] eqn:Hu; [|apply after_ret, Herr, Hgb].
       apply after_ask; [intros r; by destruct Hgb|]. intros [[]|e]; cbn [map_err].
       - apply Hok; [set_solver|destruct Hgb; split; [by apply lease_held_snoc|by apply all_well_snoc]|]. eexists. split; [|by exists u].
         apply elem_of_app. right. by apply list_elem_of_singleton.
       - apply Herr, lease_held_snoc; [by destruct Hgb|done]. }
  intros tr [[]|e]; [|apply ended_err]. intros (Hs & Hgt & Hl). by apply Hk.
Qed.
Lemma does_networks before (k : unit -> Cmd unit) : good before ->
  (forall tr, before ⊆ tr -> good tr ->
     (exists users, mkEvent OUsers (Ok users) ∈ tr /\
        Forall (fun user => subnet_ok (u_subnet user) = true -> done_step tr (UserNetwork user)) users) ->
     does tr (k tt) ended) ->
  does before (fallible_bind _ _ k (ensure_user_networks subnet_ok)) ended.
Proof.
  intros Hg Hk. apply after_try, does_ops; [done|done|intros r; by destruct Hg|done|intros tr e; apply ended_err|].
  intros users Hgu. eapply after_mono.
  2: { apply (does_each _ _ users (fun user e => subnet_ok (u_subnet user) = true -> e = mkEvent (ODo (UserNetwork user)) (Ok tt))); [done|].
       intros b user Q Hgb Herr Hok. destruct (subnet_ok _).
       2: { apply after_ret, Hok; [done|done|]. destruct Hgb as [[[l Hl] _] _]. by eexists. }
       apply after_ask; [intros r; by destruct Hgb|]. intros [[]|e]; cbn [map_err].
       - apply Hok; [set_solver|destruct Hgb; split; [by apply lease_held_snoc|by apply all_well_snoc]|]. eexists. split; [|done].
         apply elem_of_app. right. by apply list_elem_of_singleton.
       - apply Herr, lease_held_snoc; [by destruct Hgb|done]. }
  intros tr [[]|e]; [|apply ended_err]. intros (Hs & Hgt & Hl). apply Hk; [set_solver|done|].
  exists users. split; [set_solver|]. eapply Forall_impl; [exact Hl|]. intros user (e & He & Hu) Hok. unfold done_step. by rewrite <-(Hu Hok).
Qed.
Lemma done_mono tr tr' s : tr ⊆ tr' -> done_step tr s -> done_step tr' s.
Proof. unfold done_step. set_solver. Qed.
Lemma done_now before s : done_step (before ++ [mkEvent (ODo s) (Ok tt)]) s.
Proof. unfold done_step. set_solver. Qed.

(** The tail of [serve_inner], from the listener on. *)
Lemma does_listen before : good before -> ready before ->
  does before (_ ← step BindListener; _ ← attempt (Y := string) (ODo SpawnTasks); served ← attempt (ODo ServeHttp);
               _ ← attempt (Y := string) (ODo StopTasks); _ ← step CloseLibvirt; pure_res served : Cmd unit) ended.
Proof.
  intros Hg Hr. apply does_ops; [done|done|intros r; by destruct Hg|by intros []|apply ended_err|]. intros [] Hg1.
  set (tr0 := before ++ _) in *. assert (Hb : done_step tr0 BindListener) by apply done_now.
  apply after_try, after_attempt; [intros r; apply Hg1|]. intros spawned.
  set (tr1 := tr0 ++ _) in *. assert (Hh1 : held tr1) by (apply lease_held_snoc; [apply Hg1|done]).
  apply after_try, after_attempt; [intros r; split; [done|by eapply done_mono; [|exact Hb]; set_solver]|]. intros served.
  set (tr2 := tr1 ++ _) in *. assert (Hh2 : held tr2) by (by apply lease_held_snoc).
  apply after_try, after_attempt; [done|]. intros stopped.
  set (tr3 := tr2 ++ _) in *. assert (Hh3 : held tr3) by (by apply lease_held_snoc).
  apply after_try, after_ask; [done|]. intros [[]|e]; cbn [map_err]; [|by apply ended_err, lease_held_snoc].
  apply after_ret. split; [by apply lease_held_snoc|]. intros ->. unfold done_step, tr3, tr2. set_solver.
Qed.
Lemma does_serve before : good before -> does before (serve_inner cfg subnet_ok) ended.
Proof.
  intros Hg. unfold serve_inner.
  do 4 (apply does_step; [done|done|]; clear Hg; intros Hg).
  match type of Hg with good ?b => set (t1 := b) in * end.
  assert (H1 : Forall (done_step t1) [HostChecks; ConnectLibvirt; MachineId; EnsureHost]) by (repeat constructor; unfold t1, done_step; set_solver).
  apply does_runners; [done|]. intros t2 Hs2 Hg2 Hrun.
  do 2 (apply does_step; [done|done|]; clear Hg2; intros Hg2).
  match type of Hg2 with good ?b => set (t3 := b) in * end.
  assert (H3 : Forall (done_step t3) [HostChecks; ConnectLibvirt; MachineId; EnsureHost; FrontendKey; BuildManager]).
  { apply (Forall_app_2 _ [_;_;_;_]); [eapply Forall_impl; [exact H1|]; intros s; apply done_mono; unfold t3; set_solver|].
    repeat constructor; unfold t3, done_step; set_solver. }
  apply does_allowlist; [done|]. intros t4 Hs4 Hg4 Himg.
  apply does_step; [done|done|]. intros Hg5. match type of Hg5 with good ?b => set (t5 := b) in * end.
  apply does_networks; [done|]. intros t6 Hs6 Hg6 (users & Hus & Hnet).
  do 2 (apply does_step; [done|done|]; clear Hg6; intros Hg6). match type of Hg6 with good ?b => set (t7 := b) in * end.
  apply does_listen; [done|]. assert (t3 ⊆ t7) as Hs37 by (unfold t7, t5 in *; set_solver).
  assert (t4 ⊆ t7) as Hs47 by (unfold t7, t5 in *; set_solver).
  assert (t6 ⊆ t7) as Hs67 by (unfold t7; set_solver). assert (t2 ⊆ t7) as Hs27 by (unfold t3 in *; set_solver).
  split_and!; [apply Hg6| | |eapply Forall_impl; [exact Himg|]; intros image Hi; by apply Hs47|].
  2: { eapply Forall_impl; [exact Hrun|]. intros runner (e & He & Hr). exists e. split; [by apply Hs27|done]. }
  2: { exists users. split; [by apply Hs67|]. eapply Forall_impl; [exact Hnet|]. intros user Hu Hok. by apply Hs67, Hu. }
  apply (Forall_app_2 _ [_;_;_;_;_;_]); [eapply Forall_impl; [exact H3|]; intros s; by apply done_mono|].
  repeat constructor; unfold done_step, t7; [apply elem_of_app; left; apply elem_of_app; left; apply Hs6; unfold t5|..]; set_solver.
Qed.

(** C18. The control plane opens its door last and gives its lease back.  In
    every run of [serve], the lease comes first and nothing is done without
    it; the listener is bound only when the host checks, libvirt, the
    machine's row, the runners, the images, the user networks and the firewall
    all succeeded; and however a run that has the lease ends, the lease is
    released and the database closed, in that order and after everything else.
    A run that is refused the lease ends there, and a lease lost by a failed
    renewal while the control plane runs is not in the model. *)
Theorem serve_ready_before_listening :
  always (run_serve cfg subnet_ok holder) (fun tr r =>
    allowed serve_may [] tr /\
    ((exists e, tr = [mkEvent OOpen (Err e)] /\ r = Err e) \/
     (exists u e e', tr = [mkEvent OOpen (Ok u); mkEvent (OAcquireLease holder CONTROLLER_LEASE_TTL) (Err e)] /\ r = Err e') \/
     exists before released, tr = before ++ [mkEvent (OReleaseLease holder) released; mkEvent OClose tt] /\ held before /\
       (r = Ok tt -> done_step before ServeHttp /\ released = Ok tt))).
Proof.
  enough (does [] (run_serve cfg subnet_ok holder) (fun tr r =>
    (exists e, tr = [mkEvent OOpen (Err e)] /\ r = Err e) \/
     (exists u e e', tr = [mkEvent OOpen (Ok u); mkEvent (OAcquireLease holder CONTROLLER_LEASE_TTL) (Err e)] /\ r = Err e') \/
     exists before released, tr = before ++ [mkEvent (OReleaseLease holder) released; mkEvent OClose tt] /\ held before /\
       (r = Ok tt -> done_step before ServeHttp /\ released = Ok tt))) as H by exact H.
  apply after_try, after_ask; [done|]. intros [u|e]; cbn [map_err]; [|left; by exists e].
  apply after_try, after_ask; [intros r; by exists u|]. intros [l|e]; cbn [map_err]; [|right; left; eexists u, e, _; done].
  apply after_bind. eapply after_mono; [|apply does_serve].
  - intros tr r [Hh Hr]. apply after_call; [intros; exact Hh|]. intros released. apply after_call; [intros; exists released; set_solver|].
    intros []. apply after_ret. right. right. exists tr, released. rewrite <-app_assoc. split_and!; [done|done|].
    destruct r as [[]|e]; [|done]. destruct released as [[]|e]; [|done]. intros _. split; [by apply Hr|done].
  - split; [split|].
    + exists l. set_solver.
    + intros r' Hin. cbn in Hin. apply elem_of_cons in Hin as [Hin|Hin]; [|apply list_elem_of_singleton in Hin];
        by apply (f_equal (fun e => gives_back (ev_call e))) in Hin.
    + repeat constructor.
Qed.
End Serve.

(** ** The firewall *)

(** The table of the kernel and what was last rendered, as a run leaves them. *)
Fixpoint in_kernel (table : string) (tr : list (event fcall)) : string :=
  match tr with
  | [] => table
  | e :: tr =>
      in_kernel (match ev_call e in fcall R return R -> string with
                 | FApply text => fun r => if refused r then table else text
                 | FRender => fun _ => table
                 end (ev_reply e)) tr
  end.
Fixpoint rendered (text : option string) (tr : list (event fcall)) : option string :=
  match tr with
  | [] => text
  | e :: tr =>
      rendered (match ev_call e in fcall R return R -> option string with
                | FRender => fun r => match r with Ok text => Some text | Err _ => None end
                | FApply _ => fun _ => text
                end (ev_reply e)) tr
  end.
Lemma in_kernel_app table tr tr' : in_kernel table (tr ++ tr') = in_kernel (in_kernel table tr) tr'.
Proof. revert table. induction tr as [|e tr IH]; intros table; [done|apply IH]. Qed.
Lemma rendered_app text tr tr' : rendered text (tr ++ tr') = rendered (rendered text tr) tr'.
Proof. revert text. induction tr as [|e tr IH]; intros text; [done|apply IH]. Qed.
Lemma reload_follows last : always (reload last) (fun tr r =>
  in_kernel last tr = snd r /\ forall text, rendered text tr = (if refused (fst r) then rendered text tr else Some (snd r))).
Proof.
  intros [text|e]; [|done]. cbn [rendered always]. destruct (bool_decide_reflect (text = last)) as [->|Hne]; [done|].
  by intros [[]|e].
Qed.

(** The firewall follows the store.  However often it is reloaded and
    whichever of its steps fail, the text it remembers is the one in the
    kernel, and when the last reload succeeded it is the one rendered last:
    a table is skipped only when it is loaded already. *)
Theorem firewall_follows_store (n : nat) (last : string) : always (reloads n last) (fun tr r =>
  in_kernel last tr = snd r /\ (list.last (fst r) = Some (Ok tt) -> rendered None tr = Some (snd r))).
Proof.
  enough (forall text, always (reloads n last) (fun tr r =>
    in_kernel last tr = snd r /\ (list.last (fst r) = Some (Ok tt) -> rendered text tr = Some (snd r)) /\
    (list.last (fst r) = None -> tr = [] /\ snd r = last))) as H.
  { eapply always_mono; [|apply (H None)]. by intros tr r (Hk & Hr & _). }
  revert last. induction n as [|n IH]; intros last text; [done|]. apply always_bind.
  eapply always_mono; [|apply reload_follows]. intros tr [r table] [Hk Hr]. apply always_bind. cbn [snd fst] in *.
  eapply always_mono; [|apply (IH table (rendered text tr))]. intros tr' [rs table'] (Hk' & Hok & Hnil). cbn in *.
  rewrite app_nil_r, in_kernel_app, rendered_app, Hk. split_and!; [done| |].
  - destruct rs as [|r' rs]; [|exact Hok]. destruct (Hnil eq_refl) as [-> ->]. intros [= ->]. apply (Hr text).
  - destruct rs as [|r' rs]; [done|]. intros Hn. by apply last_None in Hn.
Qed.

(** ** The operator's commands *)

Section Commands.
Context (cfg : Config).

(** The replacement has a copy to go back to. *)
Definition restore_may (args : list string) (before : list (event ocall)) (e : event ocall) : Prop :=
  match ev_call e with
  | ORestoreDb source =>
      head args = Some source /\ exists stamp, mkEvent OStamp stamp ∈ before /\
        mkEvent (ODumpDb (c_db_path cfg +:+ ".before-restore-" +:+ stamp)) (Ok tt) ∈ before
  | _ => True
  end.

(** A restore can be undone.  The database is replaced only after the
    live one was copied beside itself under a name of its own, and only when
    that copy succeeded; whatever happens, an opened database is closed last. *)
Theorem restore_copies_first (args : list string) : always (run_restore_db cfg args) (fun tr r =>
  allowed (restore_may args) [] tr /\ (mkEvent OOpen (Ok tt) ∈ tr -> list.last tr = Some (mkEvent OClose tt))).
Proof.
  destruct args as [|source args]; [by split; [|intros ?%elem_of_nil]|].
  enough (after (restore_may (source :: args)) [] (run_restore_db cfg (source :: args))
    (fun tr r => mkEvent OOpen (Ok tt) ∈ tr -> list.last tr = Some (mkEvent OClose tt))) as H by exact H.
  apply after_try, after_ask; [done|]. intros [[]|e]; cbn [map_err]; [|intros Hin%list_elem_of_singleton; by apply (f_equal went_wrong) in Hin].
  apply after_bind. eapply (after_mono _ _ _ (fun _ _ => True)).
  { intros tr r _. apply after_call; [done|]. intros []. apply after_ret. intros _. by rewrite last_snoc. }
  apply after_try, after_get; [done|]. intros stamp.
  apply after_try, after_ask; [done|]. intros [[]|e]; [|done]. cbn [map_err].
  apply after_try, after_get; [done|]. intros [].
  apply after_try, after_ask; [intros r; split; [done|]; exists stamp; set_solver|]. intros [[]|e]; [|done]. cbn [map_err].
  apply after_try, after_get; [done|]. intros []. by apply after_get.
Qed.
End Commands.

Lemma one_value (rows : gmap string string) : size (list_to_set (snd <$> map_to_list rows) : gset string) = 1%nat <->
  exists checksum, rows <> ∅ /\ map_Forall (fun _ c => c = checksum) rows.
Proof.
  assert (forall c, c ∈ (list_to_set (snd <$> map_to_list rows) : gset string) <-> exists k, rows !! k = Some c) as Hin.
  { intros c. rewrite elem_of_list_to_set, list_elem_of_fmap. split.
    - intros ([k c'] & -> & Hk). exists k. by apply elem_of_map_to_list.
    - intros [k Hk]. exists (k, c). split; [done|by apply elem_of_map_to_list]. }
  split.
  - intros [c Hc]%size_1_elem_of. exists c. split.
    + intros ->. destruct (proj1 (Hin c)) as [k Hk]; [set_solver|done].
    + intros k c' Hk. assert (c' ∈ ({[ c ]} : gset string)) as ?; [|set_solver]. rewrite <-Hc. apply Hin. by exists k.
  - intros (c & [k [c' Hk]]%map_choose & Hall). rewrite <-(size_singleton (C := gset string) c). f_equal.
    apply leibniz_equiv. intros x. rewrite Hin, elem_of_singleton. split; [intros [k' Hk']; exact (Hall _ _ Hk')|].
    intros ->. exists k. by rewrite <-(Hall _ _ Hk).
Qed.

(** "Fleet converged: yes" means it.  It is printed exactly when there is
    a machine and every enabled machine reported the same checksum. *)
Theorem converged_means_one_checksum (hosts : list Host) (rows : gmap string string) :
  NoDup (h_name <$> hosts) -> dom rows ⊆ list_to_set (h_name <$> hosts) ->
  converged hosts (Some rows) = true <->
  hosts <> [] /\ exists checksum, Forall (fun host => rows !! h_name host = Some checksum) hosts.
Proof.
  intros Hnd Hsub. unfold converged. rewrite !andb_true_iff, negb_true_iff, bool_decide_eq_false, !Nat.eqb_eq, one_value.
  assert (size (list_to_set (h_name <$> hosts) : gset string) = length hosts) as Hsize.
  { by rewrite size_list_to_set, length_fmap. }
  split.
  - intros (Hne & Hlen & c & _ & Hall). split; [done|]. exists c. apply Forall_forall. intros host Hh.
    assert (h_name host ∈ dom rows) as Hd.
    { rewrite (set_subseteq_size_eq _ _ Hsub) by (rewrite size_dom; lia). by apply elem_of_list_to_set, list_elem_of_fmap_2. }
    apply elem_of_dom in Hd as [c' Hc]. by rewrite Hc, (Hall _ _ Hc).
  - intros (Hne & c & Hall). rewrite Forall_forall in Hall. split_and!; [done| |exists c; split].
    + assert (dom rows = list_to_set (h_name <$> hosts)) as Hd.
      { apply (anti_symm (⊆)); [done|]. intros n. rewrite elem_of_list_to_set, list_elem_of_fmap.
        intros (host & -> & Hh). apply elem_of_dom. exists c. by apply Hall. }
      by rewrite <-size_dom, Hd.
    + intros ->. destruct hosts as [|h hosts]; [done|]. by specialize (Hall h ltac:(set_solver)).
    + intros k c' Hk. assert (k ∈ dom rows) as Hd by (by eapply elem_of_dom_2). apply Hsub in Hd.
      apply elem_of_list_to_set, list_elem_of_fmap in Hd as (host & -> & Hh). specialize (Hall _ Hh). congruence.
Qed.
