(* ===== verification/Monitor.v ===== *)
(** * Monitor: the operator's screen, [bento-monitor/src]

    The state behind the screen and what each key does to it ([app.rs]), the
    commands it offers ([run.rs], [systemd.rs], [install.rs]), the role of the
    machine ([role.rs]), the fleet as the controller recorded it
    ([fleet.rs]), and the loop around them ([main.rs]).  What is read from
    the machine is an argument; drawing, keys, and commands that run are
    calls of the loop. *)

From Stdlib Require Import ZArith Lia Ascii.
From S2P Require Import Prelude Text Types Ipv4 Ip Config Runners HostCheck Prog.
Open Scope Z_scope.

Definition NEWLINE : string := String (ascii_of_code 10) EmptyString.

(** ** Commands: [run.rs] *)

Record Cmd : Type := mkCmd { cmd_program : string; cmd_args : list string; cmd_dir : option string }.
#[global] Instance Cmd_eq_dec : EqDecision Cmd.
Proof. solve_decision. Defined.
(** [Cmd::new] and [Cmd::owned]. *)
Definition cmd (program : string) (args : list string) : Cmd := mkCmd program args None.
Definition in_dir (dir : string) (c : Cmd) : Cmd := mkCmd (cmd_program c) (cmd_args c) (Some dir).
Definition privileged (euid : Z) (c : Cmd) : Cmd :=
  if (euid =? 0) || bool_decide (cmd_program c = "sudo") then c
  else mkCmd "sudo" (cmd_program c :: cmd_args c) (cmd_dir c).

(** The characters [display] quotes: blank, tab, both quotes, backslash and
    the operators of a shell. *)
Definition needs_quotes (c : ascii) : bool := bool_decide (ascii_code c ∈ [32; 9; 34; 39; 92; 36; 96; 38; 124; 59; 60; 62; 40; 41]).
Definition QUOTE : ascii := ascii_of_code 39.
Definition BACKSLASH : ascii := ascii_of_code 92.
(** [word.replace('\'', ..)]. *)
Fixpoint inside_quotes (w : string) : string :=
  match w with
  | EmptyString => EmptyString
  | String c w =>
      if Ascii.eqb c QUOTE then String QUOTE (String BACKSLASH (String QUOTE (String QUOTE (inside_quotes w))))
      else String c (inside_quotes w)
  end.
Definition shown_word (w : string) : string :=
  if bool_decide (w = EmptyString) || negb (str_all (fun c => negb (needs_quotes c)) w)
  then String QUOTE (inside_quotes w +:+ String QUOTE EmptyString) else w.
Definition push_word (line w : string) : string :=
  (if bool_decide (line = EmptyString) then line else line +:+ " ") +:+ shown_word w.
Definition display (c : Cmd) : string := foldl push_word EmptyString (cmd_program c :: cmd_args c).

(** ** Paths: what the code uses of [std::path] on Unix *)

(** A path as its segments, last first; separators and [.] at the end do not
    count. *)
Fixpoint drop_trail (r : list string) : list string :=
  match r with
  | s :: ((_ :: _) as rest) => if bool_decide (s = EmptyString) || bool_decide (s = ".") then drop_trail rest else r
  | _ => r
  end.
Definition backwards (path : string) : list string := drop_trail (reverse (split_on "/" path)).
Definition path_text (r : list string) : string :=
  match r with [EmptyString] => "/" | _ => join "/" (reverse r) end.
(** [Path::parent] on that form. *)
Definition up (r : list string) : option (list string) :=
  match r with
  | [] | [EmptyString] => None
  | [_] => Some []
  | _ :: rest => Some (drop_trail rest)
  end.
Definition parent (path : string) : option string := path_text <$> up (backwards path).
Definition path_file_name (path : string) : option string :=
  match backwards path with
  | s :: _ => if bool_decide (s ∈ [EmptyString; "."; ".."]) then None else Some s
  | [] => None
  end.
Definition path_join (base p : string) : string :=
  if starts_with "/" p then p
  else if bool_decide (base = EmptyString) || bool_decide (last (chars base) = Some "/"%char) then base +:+ p
  else base +:+ "/" +:+ p.
(** [Path] equality compares components. *)
Definition components (path : string) : bool * list string :=
  (starts_with "/" path,
   match split_on "/" path with
   | first :: rest =>
       (if bool_decide (first = EmptyString) then [] else [first]) ++
       filter (fun s => s <> EmptyString /\ s <> ".") rest
   | [] => []
   end).
Definition same_path (p q : string) : bool := bool_decide (components p = components q).

(** ** The units: [systemd.rs] *)

Definition SERVE : string := "bentod-serve.service".
Definition PROXY : string := "bentod-proxy.service".
Definition SSHD : string := "bentod-sshd.service".
Definition RUNNER : string := "bentod-runner.service".
Record Unit_ : Type := mkUnit {
  un_name : string; un_subcommand : string; un_description : string; un_after : list string; un_service_lines : list string
}.
Definition UNITS : list Unit_ := [
  mkUnit SERVE "serve" "Bento control plane" [] [];
  mkUnit PROXY "proxy" "Bento HTTP proxy" [SERVE] ["LimitNOFILE=65536"];
  mkUnit SSHD "sshd" "Bento SSH frontend" [SERVE] [];
  mkUnit RUNNER "runner" "Bento runner service" [] [] ].
Definition PROPERTIES : string :=
  "Id,Description,LoadState,ActiveState,SubState,UnitFileState,MainPID,MemoryCurrent,TasksCurrent,NRestarts," +:+
  "ActiveEnterTimestampMonotonic,FragmentPath,Result".

Definition unit_lines (unit : Unit_) (binary : string) (config : option string) : list string :=
  let after := ["network-online.target"; "virtqemud.socket"; "virtnetworkd.socket"] ++ un_after unit in
  let exec := binary +:+ match config with Some path => " -config " +:+ path | None => EmptyString end +:+ " " +:+ un_subcommand unit in
  ["[Unit]"; "Description=" +:+ un_description unit; "After=" +:+ join " " after; "Wants=network-online.target"; EmptyString;
   "[Service]"; "ExecStart=" +:+ exec; "Restart=on-failure"; "RestartSec=5s"] ++
  un_service_lines unit ++ [EmptyString; "[Install]"; "WantedBy=multi-user.target"].
Definition unit_file (unit : Unit_) (binary : string) (config : option string) : string :=
  foldr (fun line text => line +:+ NEWLINE +:+ text) EmptyString (unit_lines unit binary config).

Record UnitStatus : Type := mkUnitStatus {
  us_name : string; us_description : string; us_load_state : string; us_active_state : string; us_sub_state : string;
  us_file_state : string; us_main_pid : Z; us_memory : option Z; us_tasks : option Z; us_restarts : Z;
  us_fragment_path : string; us_result : string; us_active_since_monotonic : option Z; us_wanted : bool
}.
(** [UnitStatus::default] with a name and a description. *)
Definition unknown_unit (name description : string) : UnitStatus :=
  mkUnitStatus name description EmptyString EmptyString EmptyString EmptyString 0 None None 0 EmptyString EmptyString None false.
Definition installed (s : UnitStatus) : bool :=
  negb (bool_decide (us_load_state s = "not-found")) && negb (bool_decide (us_fragment_path s = EmptyString)).
Definition running (s : UnitStatus) : bool := bool_decide (us_active_state s = "active").
Definition unit_failed (s : UnitStatus) : bool :=
  bool_decide (us_active_state s = "failed") || (negb (bool_decide (us_result s = "success")) && negb (bool_decide (us_result s = EmptyString))).
Definition enabled (s : UnitStatus) : bool :=
  bool_decide (us_file_state s = "enabled") || bool_decide (us_file_state s = "enabled-runtime").
(** [UnitStatus::uptime], in nanoseconds. *)
Definition uptime (s : UnitStatus) (host_uptime : Z) : option Z :=
  match us_active_since_monotonic s with
  | Some since => if (0 <? since) && (since * 1000 <=? host_uptime) then Some (host_uptime - since * 1000) else None
  | None => None
  end.

(** [str::split] at two newlines. *)
Fixpoint split_blocks (s : string) : list string :=
  match s with
  | EmptyString => [EmptyString]
  | String a t =>
      let one := match split_blocks t with p :: ps => String a p :: ps | [] => [String a EmptyString] end in
      match t with
      | String b u => if Ascii.eqb a (ascii_of_code 10) && Ascii.eqb b (ascii_of_code 10) then EmptyString :: split_blocks u else one
      | EmptyString => one
      end
  end.
(** The value a block gives a property: its last line wins. *)
Definition pairs_of (block : string) : list (string * string) :=
  omap (fun line => (fun kv => (kv.1, trim_white kv.2)) <$> split_once "=" line) (lines block).
Definition property (key : string) (pairs : list (string * string)) : option string :=
  last (snd <$> filter (fun kv => kv.1 = key) pairs).
Definition counter (v : option string) : option Z :=
  match v ≫= parse_uint u64_max with Some n => if n =? u64_max then None else Some n | None => None end.
Definition status_of (pairs : list (string * string)) : UnitStatus :=
  let text key := default EmptyString (property key pairs) in
  mkUnitStatus (text "Id") (text "Description") (text "LoadState") (text "ActiveState") (text "SubState") (text "UnitFileState")
    (default 0 (property "MainPID" pairs ≫= parse_uint u32_max)) (counter (property "MemoryCurrent" pairs))
    (counter (property "TasksCurrent" pairs)) (default 0 (property "NRestarts" pairs ≫= parse_uint u32_max))
    (text "FragmentPath") (text "Result") (property "ActiveEnterTimestampMonotonic" pairs ≫= parse_uint u64_max) false.
Definition parse_show (output : string) : list UnitStatus :=
  filter (fun s => us_name s <> EmptyString) ((fun block => status_of (pairs_of block)) <$> split_blocks output).
Definition show_command : Cmd := cmd "systemctl" (["show"; "--property=" +:+ PROPERTIES] ++ (un_name <$> UNITS)).

Inductive UnitAction : Type := Start | Stop | Restart_ | Enable | Disable | Logs | FollowLogs.
#[global] Instance UnitAction_eq_dec : EqDecision UnitAction.
Proof. solve_decision. Defined.
Definition action_label (a : UnitAction) : string :=
  match a with
  | Start => "start" | Stop => "stop" | Restart_ => "restart" | Enable => "enable at boot" | Disable => "disable at boot"
  | Logs => "last 200 log lines" | FollowLogs => "follow the log"
  end.
Definition action_command (a : UnitAction) (unit : string) (euid : Z) : Cmd :=
  privileged euid
    match a with
    | Start => cmd "systemctl" ["start"; unit]
    | Stop => cmd "systemctl" ["stop"; unit]
    | Restart_ => cmd "systemctl" ["restart"; unit]
    | Enable => cmd "systemctl" ["enable"; unit]
    | Disable => cmd "systemctl" ["disable"; unit]
    | Logs => cmd "journalctl" ["-u"; unit; "-n"; "200"; "--no-pager"]
    | FollowLogs => cmd "journalctl" ["-u"; unit; "-f"]
    end.
Definition daemon_reload (euid : Z) : Cmd := privileged euid (cmd "systemctl" ["daemon-reload"]).

(** ** The role of the machine: [role.rs] *)

Inductive Role : Type := Controller | Runner_.
#[global] Instance Role_eq_dec : EqDecision Role.
Proof. solve_decision. Defined.
(** [IpAddr::is_loopback]. *)
Definition is_loopback (a : IpAddr) : bool :=
  match a with V4 a => Z.shiftr a 24 =? 127 | V6 groups => bool_decide (groups = [0; 0; 0; 0; 0; 0; 0; 1]) end.
Definition is_underlay_listener (listen : string) : bool :=
  match rsplit_once ":" listen with
  | None => false
  | Some (host, _) =>
      match parse_ip (trim_end_matches (Ascii.eqb "]") (trim_start_matches (Ascii.eqb "[") host)) with
      | Some address => negb (is_loopback address) && negb (is_unspecified address)
      | None => false
      end
  end.
Definition detect (config : option Config) (units : list UnitStatus) : Role :=
  if match config with Some c => negb (bool_decide (c_runners c = [])) | None => false end then Controller
  else if existsb (fun u => bool_decide (us_name u = SERVE) && installed u) units then Controller
  else match config with Some c => if is_underlay_listener (rn_listen (c_runner c)) then Runner_ else Controller | None => Controller end.
Definition wants (role : Role) (unit : string) : bool := match role with Controller => true | Runner_ => bool_decide (unit = RUNNER) end.
Definition role_units (role : Role) : list Unit_ := List.filter (fun u => wants role (un_name u)) UNITS.
Definition role_label (role : Role) : string := match role with Controller => "controller" | Runner_ => "runner" end.
Definition not_here (role : Role) (unit : string) : string :=
  unit +:+ " does not run on a " +:+ role_label role +:+ " machine. The control plane, the proxy," +:+ NEWLINE +:+
  "and the SSH frontend run on the controller (MULTI-NODE 19).".

(** ** Installing: [install.rs] *)

Definition DEFAULT_BINARY : string := "/usr/local/bin/bentod".
Definition DEFAULT_MONITOR : string := "/usr/local/bin/bento-monitor".
Definition DEFAULT_CONFIG : string := "/etc/bento/bento.toml".
Definition UNIT_DIR : string := "/etc/systemd/system".
Record Paths : Type := mkPaths {
  pa_binary : string; pa_monitor : string; pa_config : string; pa_unit_dir : string; pa_image_dir : string;
  pa_storage_dir : string; pa_key_dir : string; pa_source : option string
}.
Definition config_flag (p : Paths) : option string := if same_path (pa_config p) DEFAULT_CONFIG then None else Some (pa_config p).
Definition built (p : Paths) (name : string) : option string :=
  (fun source => path_join (path_join source "target/release") name) <$> pa_source p.
Definition binaries (p : Paths) : list (option string * string) :=
  [(built p "bentod", pa_binary p); (built p "bento-monitor", pa_monitor p)].
Definition example_config (p : Paths) : option string := (fun source => path_join source "bento.example.toml") <$> pa_source p.

(** What the file system answers. *)
Record Files : Type := mkFiles { is_file : string -> bool; is_dir_ : string -> bool; modified : string -> option Z }.

(** [find_source]: the nearest ancestor that is a source tree. *)
Fixpoint find_up (fs : Files) (fuel : nat) (r : list string) : option string :=
  match fuel with
  | O => None
  | S fuel =>
      let current := path_text r in
      if is_file fs (path_join current "bento.example.toml") && is_dir_ fs (path_join current "bentod") then Some current
      else match up r with Some r => find_up fs fuel r | None => None end
  end.
Definition find_source (fs : Files) (start : string) : option string :=
  let r := backwards start in
  if is_file fs (path_join start "bento.example.toml") && is_dir_ fs (path_join start "bentod") then Some start
  else match up r with Some r' => find_up fs (S (length r)) r' | None => None end.

Inductive StepKind : Type := SkBinary | SkDirectories | SkConfig | SkUnits | SkEnable.
#[global] Instance StepKind_eq_dec : EqDecision StepKind.
Proof. solve_decision. Defined.
Record InstallStep : Type := mkInstallStep {
  sp_kind : StepKind; sp_title : string; sp_detail : string; sp_done : bool; sp_blocked : option string
}.
Record HostFacts : Type := mkHostFacts {
  hf_missing_binaries : list string; hf_stale_binaries : list string; hf_config_installed : bool; hf_missing_directories : list string
}.
Definition file_label (path : string) : string := default path (path_file_name path).
Definition is_newer (fs : Files) (built_ installed_ : string) : bool :=
  match modified fs built_, modified fs installed_ with Some b, Some i => i <? b | _, _ => false end.
Definition directories (p : Paths) : list string :=
  match parent (pa_config p) with Some d => [d] | None => [] end ++ [pa_image_dir p; pa_storage_dir p; pa_key_dir p].
Definition probe (fs : Files) (p : Paths) : HostFacts :=
  mkHostFacts
    ((fun b => file_label b.2) <$> List.filter (fun b => negb (is_file fs b.2)) (binaries p))
    ((fun b => file_label b.2) <$> List.filter (fun b => is_file fs b.2 && match b.1 with Some built_ => is_newer fs built_ b.2 | None => false end) (binaries p))
    (is_file fs (pa_config p))
    (List.filter (fun d => negb (is_dir_ fs d)) (directories p)).

Definition binary_detail (p : Paths) (facts : HostFacts) : string :=
  let parts :=
    (match hf_missing_binaries facts with [] => [] | l => ["missing: " +:+ join ", " l] end) ++
    (match hf_stale_binaries facts with [] => [] | l => ["older than the built copy: " +:+ join ", " l] end) in
  match parts with
  | [] => "bentod and bento-monitor in " +:+ default EmptyString (parent (pa_binary p))
  | _ => join "; " parts
  end.
Definition when (b : bool) (reason : string) : option string := if b then Some reason else None.
Definition steps (p : Paths) (facts : HostFacts) (units : list UnitStatus) (config_loaded : option bool) (role : Role) : list InstallStep :=
  let wanted := length (role_units role) in
  let missing := hf_missing_directories facts in
  let binaries_done := bool_decide (hf_missing_binaries facts = []) && bool_decide (hf_stale_binaries facts = []) in
  let installed_units := length (List.filter (fun u => us_wanted u && installed u) units) in
  let enabled_units := length (List.filter (fun u => us_wanted u && enabled u) units) in
  let no_source := bool_decide (pa_source p = None) in
  let count n := dec (Z.of_nat n) in
  [ mkInstallStep SkBinary "bentod and bento-monitor" (binary_detail p facts) binaries_done
      (when (negb binaries_done && no_source) "no source tree found above the working directory; pass --source");
    mkInstallStep SkDirectories "state directories"
      (match missing with [] => "configuration, image, storage, and key directories exist" | l => "missing: " +:+ join ", " l end)
      (bool_decide (missing = [])) None;
    mkInstallStep SkConfig "configuration file"
      (match hf_config_installed facts, config_loaded with
       | false, _ => pa_config p +:+ " is missing"
       | true, Some true => pa_config p +:+ " loads"
       | true, Some false => pa_config p +:+ " does not load; see the Config tab"
       | true, None => pa_config p
       end)
      (hf_config_installed facts)
      (when (negb (hf_config_installed facts) && no_source) "no bento.example.toml to copy; pass --source");
    mkInstallStep SkUnits "systemd unit files"
      (if (installed_units =? wanted)%nat then count wanted +:+ " for a " +:+ role_label role +:+ " in " +:+ pa_unit_dir p
       else count installed_units +:+ " of " +:+ count wanted +:+ " installed")
      (installed_units =? wanted)%nat
      (when (negb (installed_units =? wanted)%nat && negb (bool_decide (hf_missing_binaries facts = []))) "install the binaries first");
    mkInstallStep SkEnable "enabled at boot" (count enabled_units +:+ " of " +:+ count wanted +:+ " enabled")
      (enabled_units =? wanted)%nat
      (when (negb (enabled_units =? wanted)%nat && negb (installed_units =? wanted)%nat) "install the unit files first") ].

(** [commands], with [stage] as the function that writes a file into the
    temporary directory and answers its path. *)
Section Commands.
Context (stage : string -> string -> result string string).
Definition side_by_side (p : Paths) : option string :=
  match parent (pa_binary p), parent (pa_monitor p) with
  | Some dir, Some dir' =>
      if same_path dir' dir && bool_decide (path_file_name (pa_binary p) = Some "bentod") &&
         bool_decide (path_file_name (pa_monitor p) = Some "bento-monitor") then Some dir else None
  | _, _ => None
  end.
Definition binary_commands (p : Paths) (euid : Z) : result string (list Cmd) :=
  match pa_source p with
  | None => Err "no source tree; pass --source"
  | Some source =>
      match side_by_side p with
      | None => Err "the install script needs bentod and bento-monitor side by side under those names"
      | Some bin_dir =>
          let script := path_join source "scripts/install.sh" in
          let release := path_join source "target/release" in
          let install := if same_path bin_dir (default EmptyString (parent DEFAULT_BINARY)) then cmd script [release]
                         else cmd "env" ["BENTO_BIN_DIR=" +:+ bin_dir; script; release] in
          Ok [in_dir source (cmd "make" ["build"]); privileged euid install]
      end
  end.
Fixpoint unit_commands (p : Paths) (euid : Z) (units : list Unit_) : result string (list Cmd) :=
  match units with
  | [] => Ok [daemon_reload euid]
  | unit :: units =>
      match stage (un_name unit +:+ ".staged") (unit_file unit (pa_binary p) (config_flag p)) with
      | Err e => Err ("staging " +:+ un_name unit +:+ ": " +:+ e)
      | Ok staged =>
          rest ← unit_commands p euid units;
          Ok (privileged euid (cmd "install" ["-m"; "0644"; staged; path_join (pa_unit_dir p) (un_name unit)]) :: rest)
      end
  end.
Definition commands (kind : StepKind) (p : Paths) (euid : Z) (role : Role) : result string (list Cmd) :=
  match kind with
  | SkBinary => binary_commands p euid
  | SkDirectories => Ok [privileged euid (cmd "install" (["-d"; "-m"; "0755"] ++ directories p))]
  | SkConfig =>
      match example_config p with
      | None => Err "no bento.example.toml; pass --source"
      | Some example => Ok [privileged euid (cmd "install" ["-m"; "0600"; example; pa_config p])]
      end
  | SkUnits => unit_commands p euid (role_units role)
  | SkEnable => Ok [privileged euid (cmd "systemctl" ("enable" :: (un_name <$> role_units role)))]
  end.
End Commands.

(** ** The fleet: [fleet.rs] *)

Record FleetRunner : Type := mkFleetRunner {
  fr_id : Z; fr_name : string; fr_machine_id : option string; fr_endpoint : option string; fr_underlay : option string;
  fr_enabled : bool; fr_placement : Placement; fr_observation : Observation; fr_slots : list (Z * SlotState);
  fr_instances : nat; fr_running : nat; fr_vcpu : Z; fr_memory_mib : Z; fr_disk_gib : Z;
  fr_images_ready : nat; fr_images_wanted : nat; fr_is_local : bool
}.
Definition never_observed : Observation := mkObservation HealthUnknown None 0 None None None None None None None.
(** [Iterator::sum] of [u64]s, which wraps in a release build. *)
Definition sum_u64 (l : list Z) : Z := foldl (fun s n => (s + n) mod 2 ^ 64) 0 l.
Definition fleet_runner (host : Host) (observation : option Observation) (slots : list Slot) (instances : list Instance)
    (images_ready images_wanted : nat) (machine_id : option string) : FleetRunner :=
  let mine := filter (fun i => i_host_id i = h_id host) instances in
  mkFleetRunner (h_id host) (h_name host) (h_machine_id host) (h_endpoint host) (h_underlay host) (h_enabled host) (h_placement host)
    (default never_observed observation)
    ((fun s => (s_slot s, s_state s)) <$> filter (fun s => s_owner_host_id s = h_id host) slots)
    (length mine) (length (filter (fun i => i_state i = Running) mine))
    (sum_u64 (i_vcpu <$> mine)) (sum_u64 (i_memory_mib <$> mine)) (sum_u64 (i_disk_gib <$> mine))
    images_ready images_wanted
    (match h_machine_id host, machine_id with Some h, Some local => bool_decide (h = local) | _, _ => false end).
Definition refusal (r : FleetRunner) : option string :=
  if negb (fr_enabled r) then Some "disabled"
  else match fr_placement r with
       | PlDraining => Some "draining"
       | PlRemoved => Some "removed"
       | PlActive =>
           match o_health (fr_observation r) with
           | HealthOk => None
           | HealthUnknown => Some "never answered"
           | Unreachable => Some "unreachable"
           | Mismatched => Some "answers as another machine"
           end
       end.
Definition endpoint_text (r : FleetRunner) : string := default "none (driven through the local libvirt socket)" (fr_endpoint r).

Record FleetView : Type := mkFleetView {
  fv_deployment : Deployment; fv_lease : option Lease; fv_runners : list FleetRunner; fv_instances : nat; fv_orphans : nat; fv_images : nat
}.
(** [Fleet::selected]. *)
Definition fleet_selected (f : FleetView) (cursor : nat) : option FleetRunner :=
  fv_runners f !! Nat.min cursor (length (fv_runners f) - 1).

Inductive vcall : Type -> Type :=
  | VDeployment : vcall (result string Deployment)
  | VLease : vcall (result string (option Lease))
  | VHosts : vcall (result string (list Host))
  | VSlots : vcall (result string (list Slot))
  | VInstances : vcall (result string (list Instance))
  | VImages : vcall (result string (list Image))
  | VObservation (host_id : Z) : vcall (result string (option Observation))
  | VHostImages (host_id : Z) : vcall (result string (list (string * string))).
Definition V (T : Type) : Type := fallible vcall string T.
#[local] Instance V_ret : MRet V := fallible_ret.
#[local] Instance V_bind : MBind V := fallible_bind.
Definition reads {T} (c : vcall (result string T)) : V T := ask c id.
Fixpoint collect_runners (machine_id : option string) (slots : list Slot) (instances : list Instance) (wanted : list (string * string))
    (hosts : list Host) : V (list FleetRunner) :=
  match hosts with
  | [] => mret []
  | host :: hosts =>
      observation ← reads (VObservation (h_id host));
      held ← reads (VHostImages (h_id host));
      let ready := length (filter (fun w => w ∈ (held : list (string * string))) wanted) in
      rest ← collect_runners machine_id slots instances wanted hosts;
      mret (fleet_runner host observation slots instances ready (length wanted) machine_id :: rest)
  end.
Definition collect (machine_id : option string) : V FleetView :=
  deployment ← reads VDeployment;
  lease ← reads VLease;
  hosts ← reads VHosts;
  slots ← reads VSlots;
  instances ← reads VInstances;
  images ← reads VImages;
  let wanted := omap (fun image => (fun checksum => (img_name image, checksum)) <$> img_current_checksum image) images in
  runners ← collect_runners machine_id slots instances wanted hosts;
  mret (mkFleetView deployment lease runners (length (instances : list Instance))
          (length (filter (fun i => i_host_id i ∉ (h_id <$> (hosts : list Host))) instances)) (length wanted)).

(** [human_duration] of [host.rs], in whole seconds; [ago] and [until] of a
    difference in nanoseconds. *)
Definition human_duration (seconds : Z) : string :=
  let days := seconds / 86400 in
  let hours := (seconds mod 86400) / 3600 in
  let minutes := (seconds mod 3600) / 60 in
  if 0 <? days then dec days +:+ "d " +:+ dec hours +:+ "h"
  else if 0 <? hours then dec hours +:+ "h " +:+ dec minutes +:+ "m"
  else if 0 <? minutes then dec minutes +:+ "m " +:+ dec (seconds mod 60) +:+ "s"
  else dec seconds +:+ "s".
Definition ago (then_ : option Z) (now : Z) : string :=
  match then_ with
  | None => "never"
  | Some then_ =>
      let elapsed := now - then_ in
      if elapsed <? 0 then dec (- elapsed / nanos_per_sec) +:+ "s ahead"
      else human_duration (elapsed / nanos_per_sec) +:+ " ago"
  end.
Definition until (deadline now : Z) : string :=
  let left := deadline - now in
  if 0 <=? left then "expires in " +:+ human_duration (left / nanos_per_sec) else "ran out " +:+ ago (Some deadline) now.

(** ** The state behind the screen: [app.rs] *)

Inductive Tab : Type := TabServices | TabFleet | TabInstall | TabConfig | TabHost.
Definition tab_index (t : Tab) : Z :=
  match t with TabServices => 0 | TabFleet => 1 | TabInstall => 2 | TabConfig => 3 | TabHost => 4 end.
Definition TABS : Z := 5.
Definition from_index (index : Z) : Tab :=
  let i := index mod TABS in
  if i =? 0 then TabServices else if i =? 1 then TabFleet else if i =? 2 then TabInstall else if i =? 3 then TabConfig else TabHost.
Inductive Modal : Type :=
  | Confirm (title : string) (commands : list Cmd)
  | Help
  | Message (title body : string).
Inductive Outcome : Type := Nothing | Quit_ | Run_ (title : string) (commands : list Cmd).
Inductive Key : Type :=
  | Char (c : ascii) | KUp | KDown | KLeft | KRight | KTab | KBackTab | KEnter | KEsc | KHelp | KRefresh | KQuit | KOther.
#[global] Instance Key_eq_dec : EqDecision Key.
Proof. solve_decision. Defined.

Record FenceView : Type := mkFenceView {
  fe_machine_id : option string; fe_listen : string; fe_fence_db : string; fe_accepted_epoch : Z; fe_objects : Z; fe_outcomes : Z;
  fe_last_change_at : option Z
}.
Inductive View : Type := ControllerView (f : result string FleetView) | RunnerView (f : result string FenceView).
Record Census : Type := mkCensus { ce_running : nat; ce_stopped : nat; ce_starting : nat; ce_names : list (string * State) }.

(** [App]; the processor and disk gauges are left out. *)
Record App : Type := mkApp {
  a_paths : Paths; a_euid : Z; a_machine_id : option string; a_role : Role; a_tab : Tab; a_units : list UnitStatus;
  a_systemctl_error : option string; a_unit_cursor : nat; a_steps : list InstallStep; a_step_cursor : nat;
  a_config : result string Config; a_checks : list CheckResult; a_census : result string Census; a_fleet : View;
  a_runner_cursor : nat; a_modal : option Modal; a_status : string
}.
Definition set_modal (m : option Modal) (a : App) : App :=
  mkApp (a_paths a) (a_euid a) (a_machine_id a) (a_role a) (a_tab a) (a_units a) (a_systemctl_error a) (a_unit_cursor a) (a_steps a)
    (a_step_cursor a) (a_config a) (a_checks a) (a_census a) (a_fleet a) (a_runner_cursor a) m (a_status a).
Definition set_tab (t : Tab) (a : App) : App :=
  mkApp (a_paths a) (a_euid a) (a_machine_id a) (a_role a) t (a_units a) (a_systemctl_error a) (a_unit_cursor a) (a_steps a)
    (a_step_cursor a) (a_config a) (a_checks a) (a_census a) (a_fleet a) (a_runner_cursor a) (a_modal a) (a_status a).
Definition set_status (s : string) (a : App) : App :=
  mkApp (a_paths a) (a_euid a) (a_machine_id a) (a_role a) (a_tab a) (a_units a) (a_systemctl_error a) (a_unit_cursor a) (a_steps a)
    (a_step_cursor a) (a_config a) (a_checks a) (a_census a) (a_fleet a) (a_runner_cursor a) (a_modal a) s.
Definition set_cursors (unit_ step_ runner_ : nat) (a : App) : App :=
  mkApp (a_paths a) (a_euid a) (a_machine_id a) (a_role a) (a_tab a) (a_units a) (a_systemctl_error a) unit_ (a_steps a)
    step_ (a_config a) (a_checks a) (a_census a) (a_fleet a) runner_ (a_modal a) (a_status a).

(** [merge_units]: one row per unit, in their order. *)
Definition merged_unit (parsed : list UnitStatus) (role : Role) (unit : Unit_) : UnitStatus :=
  let s := default (unknown_unit (un_name unit) (un_description unit)) (List.find (fun s => bool_decide (us_name s = un_name unit)) parsed) in
  let description := if bool_decide (us_description s = EmptyString) || bool_decide (us_description s = us_name s)
                     then un_description unit else us_description s in
  mkUnitStatus (us_name s) description (us_load_state s) (us_active_state s) (us_sub_state s) (us_file_state s) (us_main_pid s)
    (us_memory s) (us_tasks s) (us_restarts s) (us_fragment_path s) (us_result s) (us_active_since_monotonic s) (wants role (un_name unit)).
Definition merge_units (parsed : list UnitStatus) (role : Role) : list UnitStatus := merged_unit parsed role <$> UNITS.

Definition new_app (paths : Paths) (euid : Z) (machine_id : option string) : App :=
  mkApp paths euid machine_id Controller TabServices (merge_units [] Controller) None 0 [] 0 (Err "not read yet") []
    (Err "not read yet") (ControllerView (Err "not read yet")) 0 None
    (if euid =? 0 then "running as root" else "not root: every change runs through sudo").
(** [selected_unit] panics on an empty list: [None]. *)
Definition selected_unit (a : App) : option UnitStatus := a_units a !! Nat.min (a_unit_cursor a) (length (a_units a) - 1).
Definition selected_step (a : App) : option InstallStep := a_steps a !! a_step_cursor a.
Definition selected_runner (a : App) : option FleetRunner :=
  match a_fleet a with ControllerView (Ok f) => fleet_selected f (a_runner_cursor a) | _ => None end.
Definition runner_count (v : View) : nat := match v with ControllerView (Ok f) => length (fv_runners f) | _ => 0 end.

(** [refresh], with what the machine answers. *)
Record Readings : Type := mkReadings {
  rd_show : result string string; rd_config : result string Config; rd_files : Files;
  rd_checks : Config -> list CheckResult; rd_census : result string Census;
  rd_fleet : Role -> option Config -> option string -> View
}.
Definition ok_of {X T} (r : result X T) : option T := match r with Ok v => Some v | Err _ => None end.
Definition refresh (r : Readings) (a : App) : App :=
  let parsed := match rd_show r with Ok output => parse_show output | Err _ => [] end in
  let config := rd_config r in
  let p := a_paths a in
  let p := match config with
           | Ok c => mkPaths (pa_binary p) (pa_monitor p) (pa_config p) (pa_unit_dir p) (c_image_dir c) (c_storage_dir c) (c_key_dir c) (pa_source p)
           | Err _ => p
           end in
  let role := detect (ok_of config) parsed in
  let units := merge_units parsed role in
  let steps := steps p (probe (rd_files r) p) units (Some (match config with Ok _ => true | Err _ => false end)) role in
  let fleet := rd_fleet r role (ok_of config) (a_machine_id a) in
  mkApp p (a_euid a) (a_machine_id a) role (a_tab a) units (match rd_show r with Ok _ => None | Err e => Some e end) (a_unit_cursor a)
    steps (Nat.min (a_step_cursor a) (length steps - 1)) config
    (match config with Ok c => rd_checks r c | Err _ => [] end) (rd_census r) fleet
    (Nat.min (a_runner_cursor a) (runner_count fleet - 1)) (a_modal a) (a_status a).

(** ** Keys *)

(** What a key may need from outside. *)
Record Outside : Type := mkOutside {
  out_editor : option string; out_stamp : string; out_listing : string -> option (list string);
  out_stage : string -> string -> result string string
}.
Section Keys.
Context (out : Outside).
Definition confirm (title : string) (commands : list Cmd) (a : App) : App := set_modal (Some (Confirm title commands)) a.
Definition message (title body : string) (a : App) : App := set_modal (Some (Message title body)) a.

(** [rem_euclid] of a cursor. *)
Definition moved (delta : Z) (cursor len : nat) : nat :=
  if (len =? 0)%nat then cursor else Z.to_nat ((Z.of_nat cursor + delta) mod Z.of_nat len).
Definition move_cursor (delta : Z) (a : App) : App :=
  match a_tab a with
  | TabServices => set_cursors (moved delta (a_unit_cursor a) (length (a_units a))) (a_step_cursor a) (a_runner_cursor a) a
  | TabInstall => set_cursors (a_unit_cursor a) (moved delta (a_step_cursor a) (length (a_steps a))) (a_runner_cursor a) a
  | TabFleet => set_cursors (a_unit_cursor a) (a_step_cursor a) (moved delta (a_runner_cursor a) (runner_count (a_fleet a))) a
  | _ => a
  end.
Definition on_modal_key (key : Key) (modal : Modal) (a : App) : App * Outcome :=
  match key, modal with
  | (Char "y" | KEnter), Confirm title commands => (set_modal None a, Run_ title commands)
  | _, _ => (set_modal None a, Nothing)
  end.

Definition action_of (c : ascii) : option UnitAction :=
  match c with
  | "s" => Some Start | "t" => Some Stop | "r" => Some Restart_ | "e" => Some Enable | "d" => Some Disable | "l" => Some Logs
  | "f" => Some FollowLogs | _ => None
  end%char.
Definition on_services_key (key : Key) (a : App) : App :=
  match key with
  | Char "D" => confirm "reload the unit files" [daemon_reload (a_euid a)] a
  | Char c =>
      match action_of c, selected_unit a with
      | Some action, Some selected =>
          let unit := us_name selected in
          if negb (installed selected) && negb (bool_decide (action = Logs)) then
            if us_wanted selected then
              message "no unit file" (unit +:+ " is not installed. Run the unit-file step on the Install tab first.") a
            else message ("not a " +:+ role_label (a_role a) +:+ " unit") (not_here (a_role a) unit) a
          else confirm (action_label action +:+ " " +:+ unit) [action_command action unit (a_euid a)] a
      | _, _ => a
      end
  | _ => a
  end.

(** [App::bentod]. *)
Definition bentod (subcommand : string) (extra : list string) (a : App) : Cmd :=
  privileged (a_euid a)
    (cmd (pa_binary (a_paths a))
       (match config_flag (a_paths a) with Some path => ["-config"; path] | None => [] end ++ subcommand :: extra)).
Definition on_fleet_key (key : Key) (a : App) : App :=
  match key with
  | Char c =>
      match a_role a with
      | Runner_ =>
          message "no fleet here"
            ("This machine holds guests for a controller elsewhere. Slots and" +:+ NEWLINE +:+
             "                       placement are the controller's to report; run bentod there.") a
      | Controller =>
          match c with
          | "s"%char => confirm "the slot table and who owns each slot" [bentod "slots" [] a] a
          | "p"%char =>
              let machine := default EmptyString (fr_name <$> selected_runner a) in
              if bool_decide (machine = EmptyString) then confirm "the slot plan" [bentod "slots" ["plan"] a] a
              else confirm ("the slot plan for " +:+ machine) [bentod "slots" ["plan"; machine] a] a
          | "c"%char => confirm "report libvirt and database disagreements" [bentod "reconcile" [] a] a
          | _ => a
          end
      end
  | _ => a
  end.

Definition run_step (step : InstallStep) (a : App) : App :=
  match sp_blocked step with
  | Some reason => message ("cannot run: " +:+ sp_title step) reason a
  | None =>
      match commands (out_stage out) (sp_kind step) (a_paths a) (a_euid a) (a_role a) with
      | Ok commands => confirm (sp_title step) commands a
      | Err error => message ("cannot run: " +:+ sp_title step) error a
      end
  end.
Definition pending (a : App) : list StepKind := sp_kind <$> List.filter (fun s => negb (sp_done s)) (a_steps a).
Fixpoint all_commands (a : App) (kinds : list StepKind) : result string (list Cmd) :=
  match kinds with
  | [] => Ok []
  | kind :: kinds =>
      list ← commands (out_stage out) kind (a_paths a) (a_euid a) (a_role a);
      rest ← all_commands a kinds;
      Ok (list ++ rest)
  end.
Definition run_remaining_steps (a : App) : App :=
  match pending a with
  | [] => message "nothing to install" "Every step is done." a
  | kinds =>
      match all_commands a kinds with
      | Ok commands => confirm "install everything that is missing" commands a
      | Err error => message "cannot install everything" error a
      end
  end.
Definition on_install_key (key : Key) (a : App) : App :=
  match key with
  | KEnter => match selected_step a with Some step => run_step step a | None => a end
  | Char "a" => run_remaining_steps a
  | _ => a
  end.

(** [newest_backup]: the copy with the greatest stamp. *)
Definition stamp_of (stem name : string) : option string :=
  match strip_prefix (stem +:+ ".backup-") name with
  | Some stamp => Some stamp
  | None => strip_prefix (stem +:+ ".before-restore-") name
  end.
Definition newer_copy (stem : string) (newest : option (string * string)) (name : string) : option (string * string) :=
  match stamp_of stem name with
  | None => newest
  | Some stamp =>
      match newest with
      | Some (best, _) => if text_lt best stamp then Some (stamp, name) else newest
      | None => Some (stamp, name)
      end
  end.
Definition newest_backup (db : string) : option string :=
  directory ← parent db;
  stem ← path_file_name db;
  names ← out_listing out directory;
  (fun best => path_join directory best.2) <$> foldl (newer_copy stem) None names.

Definition no_configuration (title : string) : Modal :=
  Message title ("The configuration has not loaded, so nothing here knows where the" +:+ NEWLINE +:+
                 "database is. The Config tab says why.").
Definition database_path (a : App) : option string := c_db_path <$> ok_of (a_config a).
Definition on_config_key (key : Key) (a : App) : App :=
  match key with
  | Char "e" =>
      let config := pa_config (a_paths a) in
      confirm ("edit " +:+ config) [privileged (a_euid a) (cmd (default "vi" (out_editor out)) [config])] a
  | Char "f" => confirm "fetch the allowlisted images" [bentod "fetch-images" [] a] a
  | Char "c" => confirm "report libvirt and database disagreements" [bentod "reconcile" [] a] a
  | Char "i" => confirm "list the stored images" [bentod "images" [] a] a
  | Char "b" =>
      match database_path a with
      | Some db =>
          let destination := db +:+ ".backup-" +:+ out_stamp out in
          confirm ("copy the database to " +:+ destination) [bentod "dump-db" [destination] a] a
      | None => set_modal (Some (no_configuration "Backup")) a
      end
  | Char "r" =>
      match database_path a with
      | Some db =>
          match newest_backup db with
          | Some source => confirm ("replace " +:+ db +:+ " with " +:+ source) [bentod "restore-db" [source] a] a
          | None =>
              message "Restore" ("No copy to restore from sits beside " +:+ db +:+ "." +:+ NEWLINE +:+ NEWLINE +:+
                "Press b to make one, or run restore-db yourself with" +:+ NEWLINE +:+ "the path of the copy you want.") a
          end
      | None => set_modal (Some (no_configuration "Restore")) a
      end
  | _ => a
  end.
Definition on_tab_key (key : Key) (a : App) : App :=
  match a_tab a with
  | TabServices => on_services_key key a
  | TabFleet => on_fleet_key key a
  | TabInstall => on_install_key key a
  | TabConfig => on_config_key key a
  | TabHost => a
  end.
Definition digit_tab (c : ascii) : option Tab :=
  match c with
  | "1" => Some TabServices | "2" => Some TabFleet | "3" => Some TabInstall | "4" => Some TabConfig | "5" => Some TabHost | _ => None
  end%char.
Definition on_key (key : Key) (a : App) : App * Outcome :=
  match a_modal a with
  | Some modal => on_modal_key key modal a
  | None =>
      match key with
      | Char "q" | KQuit => (a, Quit_)
      | KEsc => (a, Nothing)
      | Char "?" | KHelp => (set_modal (Some Help) a, Nothing)
      | KRight | KTab => (set_tab (from_index (tab_index (a_tab a) + 1)) a, Nothing)
      | KLeft | KBackTab => (set_tab (from_index (tab_index (a_tab a) + TABS - 1)) a, Nothing)
      | KUp | Char "k" => (move_cursor (-1) a, Nothing)
      | KDown | Char "j" => (move_cursor 1 a, Nothing)
      | KRefresh => (set_status "host reread" a, Nothing)
      | Char c =>
          match digit_tab c with Some tab => (set_tab tab a, Nothing) | None => (on_tab_key key a, Nothing) end
      | other => (on_tab_key other a, Nothing)
      end
  end.
End Keys.

(** ** The loop: [main.rs] *)

Inductive Exit : Type := Succeeded | Exited (code : Z) | Killed | NotStarted (e : string).
Inductive xcall : Type -> Type :=
  | XDraw (a : App) : xcall unit
  | XPoll : xcall (option Key)
  | XOutside : xcall Outside
  | XReadings : xcall Readings
  | XRun (c : Cmd) : xcall Exit
  | XEnter (summary : string) : xcall unit
  | XDue : xcall bool.

(** [run_commands]: the first command that fails ends the list.  Each is
    printed as [display] shows it and runs in the operator's terminal. *)
Fixpoint run_list (commands : list Cmd) : prog xcall (option string) :=
  match commands with
  | [] => mret None
  | c :: commands =>
      status ← call (XRun c);
      match status with
      | Succeeded => run_list commands
      | Exited code => mret (Some (cmd_program c +:+ " exited with " +:+ dec_signed code))
      | Killed => mret (Some (cmd_program c +:+ " was killed by a signal"))
      | NotStarted e => mret (Some (cmd_program c +:+ ": " +:+ e))
      end
  end.
Definition run_commands (title : string) (commands : list Cmd) (a : App) : prog xcall App :=
  failure ← run_list commands;
  let summary := title +:+ ": " +:+ default "done" failure in
  _ ← call (XEnter summary);
  mret (set_status summary a).
Definition reread (a : App) : prog xcall App := r ← call XReadings; mret (refresh r a).
(** One turn of [event_loop]; [None] is the end. *)
Definition press (key : Key) (a : App) : prog xcall (option App) :=
  out ← call XOutside;
  match on_key out key a with
  | (_, Quit_) => mret None
  | (a, Run_ title commands) => a ← run_commands title commands a; a ← reread a; mret (Some a)
  | (a, Nothing) => mret (Some a)
  end.
Definition keyed (key : option Key) (a : App) : prog xcall (option App) :=
  match key with
  | None => mret (Some a)
  | Some key => a ← (if bool_decide (key = KRefresh) then reread a else mret a); press key a
  end.
Definition when_due (next : option App) : prog xcall (option App) :=
  match next with
  | None => mret None
  | Some a => due ← call XDue; if due : bool then a ← reread a; mret (Some a) else mret (Some a)
  end.
Definition turn (a : App) : prog xcall (option App) :=
  _ ← call (XDraw a);
  key ← call XPoll;
  next ← keyed key a;
  when_due next.
(** The first turns of the loop. *)
Fixpoint event_loop (turns : nat) (a : App) : prog xcall (option App) :=
  match turns with
  | O => mret (Some a)
  | S turns => next ← turn a; match next with Some a => event_loop turns a | None => mret None end
  end.
(** [main]: the first reading comes before the first frame. *)
Definition monitor (turns : nat) (paths : Paths) (euid : Z) (machine_id : option string) : prog xcall (option App) :=
  a ← reread (new_app paths euid machine_id);
  event_loop turns a.

(** [classify]. *)
Inductive KeyCode : Type :=
  | KcChar (c : ascii) | KcUp | KcDown | KcLeft | KcRight | KcTab | KcBackTab | KcEnter | KcEsc | KcF (n : Z) | KcOther.
Definition classify (control : bool) (code : KeyCode) : Key :=
  if control then match code with KcChar "c" => KQuit | KcChar "r" => KRefresh | _ => KOther end
  else match code with
       | KcChar c => Char c | KcUp => KUp | KcDown => KDown | KcLeft => KLeft | KcRight => KRight | KcTab => KTab
       | KcBackTab => KBackTab | KcEnter => KEnter | KcEsc => KEsc
       | KcF n => if n =? 1 then KHelp else if n =? 5 then KRefresh else KOther
       | KcOther => KOther
       end.

(** [bento_config::defaults]. *)
Definition IMAGE_DIR : string := "/var/lib/bento/images".
Definition STORAGE_DIR : string := "/var/lib/bento/storage".
Definition KEY_DIR : string := "/var/lib/bento/keys".
(** [parse_args]: [Ok None] asks for the usage. *)
Record Flags : Type := mkFlags { fl_config : string; fl_binary : string; fl_monitor : string; fl_source : option string }.
Definition set_flag (name : string) (value : string) (f : Flags) : option Flags :=
  if bool_decide (name ∈ ["-config"; "--config"]) then Some (mkFlags value (fl_binary f) (fl_monitor f) (fl_source f))
  else if bool_decide (name ∈ ["-binary"; "--binary"]) then Some (mkFlags (fl_config f) value (fl_monitor f) (fl_source f))
  else if bool_decide (name ∈ ["-monitor"; "--monitor"]) then Some (mkFlags (fl_config f) (fl_binary f) value (fl_source f))
  else if bool_decide (name ∈ ["-source"; "--source"]) then Some (mkFlags (fl_config f) (fl_binary f) (fl_monitor f) (Some value))
  else None.
Fixpoint parse_flags (args : list string) (f : Flags) : result string (option Flags) :=
  match args with
  | [] => Ok (Some f)
  | arg :: args =>
      if bool_decide (arg ∈ ["-h"; "--help"]) then Ok None
      else
        let '(name, inline) := match split_once "=" arg with Some (name, value) => (name, Some value) | None => (arg, None) end in
        match set_flag name EmptyString f with
        | None => Err ("flag provided but not defined: " +:+ name)
        | Some _ =>
            match inline, args with
            | Some value, _ => match set_flag name value f with Some f => parse_flags args f | None => Ok None end
            | None, value :: args => match set_flag name value f with Some f => parse_flags args f | None => Ok None end
            | None, [] => Err ("flag needs an argument: " +:+ name)
            end
        end
  end.
Definition parse_args (args : list string) (fs : Files) (current_dir : option string) : result string (option Paths) :=
  let paths f :=
    mkPaths (fl_binary f) (fl_monitor f) (fl_config f) UNIT_DIR IMAGE_DIR STORAGE_DIR KEY_DIR
      (match fl_source f with Some source => Some source | None => current_dir ≫= find_source fs end) in
  match parse_flags args (mkFlags DEFAULT_CONFIG DEFAULT_BINARY DEFAULT_MONITOR None) with
  | Ok parsed => Ok (paths <$> parsed)
  | Err e => Err e
  end.
