(* ===== verification/MonitorRuns.v ===== *)
(** * MonitorRuns: what the operator's screen does in every session *)

From Stdlib Require Import ZArith Lia Ascii.
From S2P Require Import Prelude Text Types Db Config Runners Placement Prog Pool Monitor.
Open Scope Z_scope.

(** ** What is shown is what runs *)

(** The words of a command line as POSIX tells them apart: blanks separate,
    single quotes and a backslash quote.  [None] is a line whose words depend
    on more than that: operators, expansions, patterns, comments. *)
Inductive Reading : Type := Between | InWord (w : string) | InQuotes (w : string).
Definition is_blank (c : ascii) : bool := (ascii_code c =? 32) || (ascii_code c =? 9).
(** The double quote, dollar, backquote and the operators; the newline; the
    star, the question mark and the bracket of patterns. *)
Definition is_special (c : ascii) : bool :=
  bool_decide (ascii_code c ∈ [34; 36; 96; 38; 124; 59; 60; 62; 40; 41; 10; 42; 63; 91]).
(** [#] and [~] matter at the start of a word. *)
Definition starts_special (c : ascii) : bool := bool_decide (ascii_code c ∈ [35; 126]).
Definition more (w : string) (c : ascii) : string := w +:+ String c EmptyString.
Fixpoint sh_words (st : Reading) (s : string) {struct s} : option (list string) :=
  match s with
  | EmptyString => match st with Between => Some [] | InWord w => Some [w] | InQuotes _ => None end
  | String c s' =>
      match st with
      | InQuotes w => if Ascii.eqb c QUOTE then sh_words (InWord w) s' else sh_words (InQuotes (more w c)) s'
      | _ =>
          let w := match st with InWord w => w | _ => EmptyString end in
          if is_blank c then match st with InWord w => cons w <$> sh_words Between s' | _ => sh_words Between s' end
          else if Ascii.eqb c QUOTE then sh_words (InQuotes w) s'
          else if Ascii.eqb c BACKSLASH then match s' with String d s'' => sh_words (InWord (more w d)) s'' | EmptyString => None end
          else if is_special c then None
          else match st with
               | Between => if starts_special c then None else sh_words (InWord (more EmptyString c)) s'
               | _ => sh_words (InWord (more w c)) s'
               end
      end
  end.

(** The words [display] can show: without a newline or a pattern character,
    and not with [#] or [~] in front. *)
Definition showable (w : string) : Prop :=
  str_all (fun c => negb (bool_decide (ascii_code c ∈ [10; 42; 63; 91]))) w = true /\
  match w with String c _ => starts_special c = false | EmptyString => True end.
Definition plain_char (c : ascii) : Prop :=
  is_blank c = false /\ Ascii.eqb c QUOTE = false /\ Ascii.eqb c BACKSLASH = false /\ is_special c = false.
Lemma plain_from c : needs_quotes c = false -> bool_decide (ascii_code c ∈ [10; 42; 63; 91]) = false -> plain_char c.
Proof. destruct c as [[] [] [] [] [] [] [] []]; by vm_compute. Qed.

Lemma str_all_elem p s c : str_all p s = true -> c ∈ chars s -> p c = true.
Proof.
  induction s as [|a s IH]; [intros _ Hc; by apply elem_of_nil in Hc|]. cbn. intros [Ha Hs]%andb_true_iff [->|Hc]%elem_of_cons; [done|by apply IH].
Qed.
Lemma more_app w c v : more w c +:+ v = w +:+ String c v.
Proof. unfold more. by rewrite string_app_assoc. Qed.
Lemma sh_inside w acc rest :
  sh_words (InQuotes acc) (inside_quotes w +:+ String QUOTE rest) = sh_words (InWord (acc +:+ w)) rest.
Proof.
  revert acc. induction w as [|c w IH]; intros acc; [by rewrite string_app_nil|].
  cbn [inside_quotes]. destruct (Ascii.eqb_spec c QUOTE) as [->|Hc].
  - transitivity (sh_words (InQuotes (more acc QUOTE)) (inside_quotes w +:+ String QUOTE rest)); [done|]. by rewrite IH, more_app.
  - change (sh_words (InQuotes acc) (String c (inside_quotes w +:+ String QUOTE rest)) = sh_words (InWord (acc +:+ String c w)) rest).
    cbn [sh_words]. by rewrite (proj2 (Ascii.eqb_neq _ _) Hc), IH, more_app.
Qed.
Lemma sh_plain w acc rest : (forall c, c ∈ chars w -> plain_char c) -> sh_words (InWord acc) (w +:+ rest) = sh_words (InWord (acc +:+ w)) rest.
Proof.
  revert acc. induction w as [|c w IH]; intros acc Hw; [by rewrite string_app_nil|].
  change (sh_words (InWord acc) (String c (w +:+ rest)) = sh_words (InWord (acc +:+ String c w)) rest). cbn [sh_words].
  destruct (Hw c) as (-> & -> & -> & ->); [by left|]. rewrite IH by (intros; apply Hw; by right). by rewrite more_app.
Qed.
Lemma shown_nonempty w : shown_word w <> EmptyString.
Proof. unfold shown_word. case_bool_decide; [done|]. destruct (negb _); done. Qed.
Lemma sh_shown w rest : showable w -> sh_words Between (shown_word w +:+ rest) = sh_words (InWord w) rest.
Proof.
  intros [Hn Hs]. unfold shown_word. destruct (bool_decide (w = EmptyString) || _) eqn:Hq.
  - change (sh_words (InQuotes EmptyString) ((inside_quotes w +:+ String QUOTE EmptyString) +:+ rest) = sh_words (InWord w) rest).
    rewrite string_app_assoc. exact (sh_inside w EmptyString rest).
  - apply orb_false_iff in Hq as [He Hq]. apply negb_false_iff in Hq. destruct w as [|c w]; [done|].
    assert (Hp : forall d, d ∈ chars (String c w) -> plain_char d).
    { intros d Hd. apply plain_from.
      - eapply str_all_elem in Hq; [|exact Hd]. by apply negb_true_iff in Hq.
      - eapply str_all_elem in Hn; [|exact Hd]. by apply negb_true_iff in Hn. }
    change (sh_words Between (String c (w +:+ rest)) = sh_words (InWord (String c w)) rest). cbn [sh_words].
    destruct (Hp c) as (-> & -> & -> & ->); [by left|]. rewrite Hs.
    rewrite sh_plain by (intros; apply Hp; by right). done.
Qed.
Definition tail_text (ws : list string) : string := foldr (fun w t => String " " (shown_word w +:+ t)) EmptyString ws.
Lemma push_words line ws : line <> EmptyString -> foldl push_word line ws = line +:+ tail_text ws.
Proof.
  revert line. induction ws as [|w ws IH]; intros line Hl; [by rewrite string_app_nil|]. cbn [foldl].
  assert (Hp : push_word line w = line +:+ String " " (shown_word w)).
  { unfold push_word. rewrite bool_decide_eq_false_2 by done. by rewrite string_app_assoc. }
  rewrite Hp, IH by (by destruct line). rewrite string_app_assoc. done.
Qed.
Lemma sh_tail w ws : Forall showable ws -> sh_words (InWord w) (tail_text ws) = Some (w :: ws).
Proof.
  intros Hws. revert w. induction Hws as [|v ws Hv _ IH]; intros w; [done|]. cbn [tail_text foldr].
  change (cons w <$> sh_words Between (shown_word v +:+ tail_text ws) = Some (w :: v :: ws)). by rewrite sh_shown, IH.
Qed.

(** What the operator reads is what runs: typed into a shell, the line that
    [display] shows for a command gives back its program and its arguments,
    word for word, whatever blanks, quotes and operators they contain.  Words
    with a newline or a pattern character, or with [#] or [~] in front, are
    left out: they are shown unquoted. *)
Theorem display_reads_back (c : Cmd) :
  Forall showable (cmd_program c :: cmd_args c) -> sh_words Between (display c) = Some (cmd_program c :: cmd_args c).
Proof.
  intros [Hp Ha]%Forall_cons. unfold display. cbn [foldl]. rewrite push_words by (apply shown_nonempty).
  change (push_word EmptyString (cmd_program c)) with (shown_word (cmd_program c)). by rewrite sh_shown, sh_tail.
Qed.
Lemma display_reads_back_witness :
  let c := cmd "install" ["-m"; "0644"; "/tmp/it's here; really"; EmptyString] in
  sh_words Between (display c) = Some (cmd_program c :: cmd_args c).
Proof. apply display_reads_back. by repeat constructor. Defined.
(** A word that is a pattern is not quoted. *)
Example pattern_unquoted : shown_word "*" = "*".
Proof. reflexivity. Qed.

(** ** Looking for the source tree ends *)

Lemma drop_trail_length r : (length (drop_trail r) <= length r)%nat.
Proof.
  induction r as [|s r IH]; [done|]. destruct r as [|s' r]; [done|].
  change (drop_trail (s :: s' :: r)) with
    (if bool_decide (s = EmptyString) || bool_decide (s = ".") then drop_trail (s' :: r) else s :: s' :: r).
  destruct (_ || _); [|done]. by apply Nat.le_le_succ_r.
Qed.
Lemma up_shorter r r' : up r = Some r' -> (length r' < length r)%nat.
Proof.
  destruct r as [|s [|s' r]]; [done|destruct s; [done|cbn; intros Hr; injection Hr as <-; cbn; lia]|].
  assert (Hup : up (s :: s' :: r) = Some (drop_trail (s' :: r))) by (by destruct s). rewrite Hup.
  pose proof (drop_trail_length (s' :: r)) as Hl. generalize dependent (drop_trail (s' :: r)). intros d _ Hl Hr. injection Hr as <-.
  change (length (s :: s' :: r)) with (S (length (s' :: r))). lia.
Qed.
(** More fuel than segments changes nothing. *)
Lemma find_up_enough fs fuel fuel' r : (length r < fuel)%nat -> (length r < fuel')%nat -> find_up fs fuel r = find_up fs fuel' r.
Proof.
  revert fuel' r. induction fuel as [|fuel IH]; intros fuel' r H H'; [lia|]. destruct fuel' as [|fuel']; [lia|]. cbn [find_up].
  destruct (_ && _); [done|]. destruct (up r) as [r'|] eqn:Hr; [|done]. apply up_shorter in Hr. apply IH; lia.
Qed.

(** ** A session *)

(** A command runs as root or asks for it; only the build does not. *)
Definition as_root (euid : Z) (c : Cmd) : Prop :=
  euid = 0 \/ cmd_program c = "sudo" \/ (cmd_program c = "make" /\ cmd_args c = ["build"]).
Lemma privileged_root euid c : as_root euid (privileged euid c).
Proof.
  unfold privileged. destruct (Z.eqb_spec euid 0); [by left|]. cbn [orb]. case_bool_decide; [by right; left|by right; left].
Qed.
#[local] Hint Resolve privileged_root : core.
Lemma unit_commands_root stage p euid units cs : unit_commands stage p euid units = Ok cs -> Forall (as_root euid) cs.
Proof.
  revert cs. induction units as [|u units IH]; intros cs; cbn [unit_commands]; [intros [= <-]; by constructor; [apply privileged_root|]|].
  destruct (stage _ _); [|done]. destruct (unit_commands stage p euid units) as [rest|]; [|done]. intros [= <-]. constructor; [done|by apply IH].
Qed.
Lemma commands_root stage kind p euid role cs : commands stage kind p euid role = Ok cs -> Forall (as_root euid) cs.
Proof.
  destruct kind; cbn [commands]; [| | | |intros [= <-]; by constructor].
  - unfold binary_commands. destruct (pa_source p); [|done]. destruct (side_by_side p); [|done]. intros [= <-].
    constructor; [by right; right|]. by constructor.
  - intros [= <-]. by constructor.
  - destruct (example_config p); [|done]. intros [= <-]. by constructor.
  - apply unit_commands_root.
Qed.
Lemma all_commands_root out a kinds cs : all_commands out a kinds = Ok cs -> Forall (as_root (a_euid a)) cs.
Proof.
  revert cs. induction kinds as [|k kinds IH]; intros cs; cbn [all_commands]; [intros [= <-]; constructor|].
  destruct (commands _ k _ _ _) as [l|] eqn:Hl; [|done]. cbn. destruct (all_commands out a kinds) as [rest|]; [|done]. intros [= <-].
  apply Forall_app. split; [by eapply commands_root|by apply IH].
Qed.

(** The cursors stay on their lists, and a question asks for what it may. *)
Definition on_list (cursor len : nat) : Prop := (cursor <= len - 1)%nat.
Definition modal_ok (euid : Z) (m : option Modal) : Prop :=
  match m with Some (Confirm _ cs) => Forall (as_root euid) cs | _ => True end.
Section Session.
Context (euid : Z).
Record sane (a : App) : Prop := mkSane {
  sn_euid : a_euid a = euid;
  sn_units : length (a_units a) = length UNITS;
  sn_unit : (a_unit_cursor a < length (a_units a))%nat;
  sn_step : on_list (a_step_cursor a) (length (a_steps a));
  sn_runner : on_list (a_runner_cursor a) (runner_count (a_fleet a));
  sn_modal : modal_ok (a_euid a) (a_modal a)
}.
Lemma set_modal_sane m a : modal_ok (a_euid a) m -> sane a -> sane (set_modal m a).
Proof. intros Hm []. by constructor. Qed.
Lemma confirm_sane title c a : as_root (a_euid a) c -> sane a -> sane (confirm title [c] a).
Proof. intros Hc. apply set_modal_sane. by constructor. Qed.
Lemma message_sane title body a : sane a -> sane (message title body a).
Proof. by apply set_modal_sane. Qed.
#[local] Hint Resolve confirm_sane message_sane set_modal_sane : core.
Lemma moved_on_list delta cursor len : on_list cursor len -> on_list (moved delta cursor len) len.
Proof.
  unfold on_list, moved. intros H. destruct (Nat.eqb_spec len 0); [lia|].
  pose proof (Z.mod_pos_bound (Z.of_nat cursor + delta) (Z.of_nat len)). lia.
Qed.
Lemma move_sane delta a : sane a -> sane (move_cursor delta a).
Proof.
  intros [H0 H1 H2 H3 H4 H5]. unfold move_cursor. destruct (a_tab a); constructor; try done; cbn; try by apply moved_on_list.
  assert (on_list (a_unit_cursor a) (length (a_units a))) as H by (unfold on_list; lia).
  apply (moved_on_list delta) in H. unfold on_list in H. lia.
Qed.
Lemma run_step_sane out step a : sane a -> sane (run_step out step a).
Proof.
  intros Ha. unfold run_step. destruct (sp_blocked step); [by apply message_sane|].
  destruct (commands _ _ _ _ _) as [cs|] eqn:Hc; [|by apply message_sane]. apply set_modal_sane; [|done]. by eapply commands_root.
Qed.
Lemma remaining_sane out a : sane a -> sane (run_remaining_steps out a).
Proof.
  intros Ha. unfold run_remaining_steps. destruct (pending a) as [|k kinds]; [by apply message_sane|].
  destruct (all_commands out a (k :: kinds)) as [cs|] eqn:Hc; [|by apply message_sane]. apply set_modal_sane; [|done].
  by eapply all_commands_root.
Qed.
Ltac asks := apply confirm_sane; [apply privileged_root|done].
(** A tab's key leaves the rest as it is and runs nothing. *)
Lemma services_sane key a : sane a -> sane (on_services_key key a).
Proof.
  intros Ha. destruct key as [c| | | | | | | | | | | |]; try done. unfold on_services_key.
  destruct (Ascii.eqb_spec c "D") as [->|_]; [asks|].
  assert (H : sane match action_of c, selected_unit a with
    | Some action, Some selected =>
        if negb (installed selected) && negb (bool_decide (action = Logs)) then
          if us_wanted selected then message "no unit file" (us_name selected +:+ " is not installed. Run the unit-file step on the Install tab first.") a
          else message ("not a " +:+ role_label (a_role a) +:+ " unit") (not_here (a_role a) (us_name selected)) a
        else confirm (action_label action +:+ " " +:+ us_name selected) [action_command action (us_name selected) (a_euid a)] a
    | _, _ => a end).
  { destruct (action_of c); [|done]. destruct (selected_unit a); [|done]. destruct (_ && _); [destruct (us_wanted _); by apply message_sane|].
    asks. }
  destruct c as [[] [] [] [] [] [] [] []]; try exact H; asks.
Qed.
Lemma fleet_sane key a : sane a -> sane (on_fleet_key key a).
Proof.
  intros Ha. destruct key as [c| | | | | | | | | | | |]; try done. unfold on_fleet_key. destruct (a_role a); [|by apply message_sane].
  repeat match goal with |- context [match ?x with _ => _ end] => is_var x; destruct x end; try done;
    try asks.
  cbv zeta. case_bool_decide; asks.
Qed.
Lemma install_sane out key a : sane a -> sane (on_install_key out key a).
Proof.
  intros Ha. destruct key as [c| | | | | | | | | | | |]; try done; unfold on_install_key.
  - destruct c as [[] [] [] [] [] [] [] []]; try done. by apply remaining_sane.
  - destruct (selected_step a); [by apply run_step_sane|done].
Qed.
Lemma config_sane out key a : sane a -> sane (on_config_key out key a).
Proof.
  intros Ha. destruct key as [c| | | | | | | | | | | |]; try done. unfold on_config_key.
  destruct c as [[] [] [] [] [] [] [] []]; try done; try asks;
    (destruct (database_path a) as [db|]; [|by apply set_modal_sane]);
    first [asks|destruct (newest_backup out db); [asks|by apply message_sane]].
Qed.
Lemma on_tab_key_sane out key a : sane a -> sane (on_tab_key out key a).
Proof.
  intros Ha. unfold on_tab_key.
  destruct (a_tab a); [by apply services_sane|by apply fleet_sane|by apply install_sane|by apply config_sane|done].
Qed.
Lemma set_tab_sane t a : sane a -> sane (set_tab t a).
Proof. intros []. by constructor. Qed.
Lemma set_status_sane s a : sane a -> sane (set_status s a).
Proof. intros []. by constructor. Qed.
Lemma on_key_sane out key a : sane a -> sane (fst (on_key out key a)).
Proof.
  intros Ha. unfold on_key. destruct (a_modal a) as [m|].
  { unfold on_modal_key. repeat match goal with |- context [match ?x with _ => _ end] => is_var x; destruct x end; by apply set_modal_sane. }
  destruct key as [c| | | | | | | | | | | |]; try by apply on_tab_key_sane.
  2-3: by apply move_sane. 2-5: by apply set_tab_sane. 2: done. 2: by apply set_modal_sane. 2: by apply set_status_sane. 2: done.
  assert (H : sane (fst match digit_tab c with Some tab => (set_tab tab a, Nothing) | None => (on_tab_key out (Char c) a, Nothing) end)).
  { destruct (digit_tab c); [by apply set_tab_sane|by apply on_tab_key_sane]. }
  revert H. destruct c as [[] [] [] [] [] [] [] []]; intros H; try exact H; first [done|by apply set_modal_sane|by apply move_sane].
Qed.
Lemma refresh_sane r a : sane a -> sane (refresh r a).
Proof.
  intros [H0 H1 H2 H3 H4 H5]. constructor; [done|done|cbn in *; lia| | |done]; unfold on_list; cbn [refresh a_steps a_step_cursor a_runner_cursor a_fleet]; lia.
Qed.
Lemma new_app_sane paths machine_id : sane (new_app paths euid machine_id).
Proof. constructor; try done; unfold on_list; cbn; lia. Qed.
(** Nothing runs but what was asked and confirmed. *)
Definition confirms (k : Key) : Prop := k = Char "y" \/ k = KEnter.
Lemma run_confirmed out key a a' title cs :
  on_key out key a = (a', Run_ title cs) -> a_modal a = Some (Confirm title cs) /\ confirms key.
Proof.
  unfold on_key. destruct (a_modal a) as [m|].
  - unfold on_modal_key. intros H.
    repeat match type of H with context [match ?x with _ => _ end] => is_var x; destruct x end; try discriminate H; injection H as _ <- <-;
      split; try done; [by left|by right].
  - intros H. repeat match type of H with context [match ?x with _ => _ end] => is_var x; destruct x end; try discriminate H;
      destruct (digit_tab _); discriminate H.
Qed.

(** The command is the next one of a question the operator saw and answered
    with yes; all before it succeeded. *)
Definition succeeded (c : Cmd) : event xcall := mkEvent (XRun c) Succeeded.
Definition confirmed (before : list (event xcall)) (c : Cmd) : Prop :=
  exists earlier a key out title ran rest,
    a_modal a = Some (Confirm title (ran ++ c :: rest)) /\ confirms key /\
    before = earlier ++ [mkEvent (XDraw a) tt; mkEvent XPoll (Some key); mkEvent XOutside out] ++ (succeeded <$> ran).
Definition session_may (before : list (event xcall)) (e : event xcall) : Prop :=
  match ev_call e with
  | XDraw a => sane a
  | XRun c => as_root euid c /\ confirmed before c
  | _ => True
  end.
#[local] Abbreviation does := (after session_may).

Lemma does_list earlier a key out title ran cs (Q : list (event xcall) -> option string -> Prop) :
  a_modal a = Some (Confirm title (ran ++ cs)) -> confirms key -> Forall (as_root euid) cs -> (forall tr r, Q tr r) ->
  does (earlier ++ [mkEvent (XDraw a) tt; mkEvent XPoll (Some key); mkEvent XOutside out] ++ (succeeded <$> ran)) (run_list cs) Q.
Proof.
  intros Hm Hk Hcs HQ. revert ran Hm. induction Hcs as [|c cs Hc _ IH]; intros ran Hm; [by apply after_ret|].
  apply after_call.
  { intros r. split; [done|]. by exists earlier, a, key, out, title, ran, cs. }
  intros [| | |]; try by apply after_ret.
  specialize (IH (ran ++ [c])). rewrite fmap_app, !app_assoc in IH. rewrite !app_assoc. apply IH. by rewrite <-app_assoc.
Qed.
Lemma does_reread before a (Q : list (event xcall) -> App -> Prop) :
  sane a -> (forall tr a, sane a -> Q tr a) -> does before (reread a) Q.
Proof. intros Ha HQ. apply after_call; [done|]. intros r. by apply after_ret, HQ, refresh_sane. Qed.
(** What holds of a state at the end of a turn. *)
#[local] Abbreviation still := (from_option sane True).
Lemma does_due before next (Q : list (event xcall) -> option App -> Prop) :
  still next -> (forall tr o, still o -> Q tr o) -> does before (when_due next) Q.
Proof.
  intros Hn HQ. destruct next as [a|]; [|by apply after_ret, HQ]. apply after_call; [done|]. intros [].
  - apply after_bind, does_reread; [done|]. intros tr b Hb. by apply after_ret, HQ.
  - by apply after_ret, HQ.
Qed.
(** A key that confirms comes right after the frame that asked. *)
Lemma does_press before a key b (Q : list (event xcall) -> option App -> Prop) :
  sane a -> (a_modal a <> None -> exists earlier, before = earlier ++ [mkEvent (XDraw a) tt; mkEvent XPoll (Some key)]) ->
  b = a -> (forall tr o, still o -> Q tr o) -> does before (press key b) Q.
Proof.
  intros Ha Hlast -> HQ. apply after_call; [done|]. intros out. pose proof (on_key_sane out key a Ha) as Hb.
  destruct (on_key out key a) as [b [| |title cs]] eqn:Hk; [by apply after_ret, HQ|by apply after_ret, HQ|].
  destruct (run_confirmed _ _ _ _ _ _ Hk) as [Hm Hc]. destruct Hlast as [earlier ->]; [by rewrite Hm|].
  apply after_bind, after_bind. rewrite <-app_assoc.
  apply (does_list earlier a key out title [] cs); [done|done| |].
  { pose proof (sn_modal _ Ha) as Hma. rewrite Hm in Hma. by rewrite (sn_euid _ Ha) in Hma. }
  intros tr failure. apply after_call; [done|]. intros []. apply after_ret, after_bind, does_reread; [by apply set_status_sane|].
  intros tr' c Hcs. by apply after_ret, HQ.
Qed.
(** Rereading the host does not touch what is asked. *)
Lemma does_press_reread before a (Q : list (event xcall) -> option App -> Prop) :
  sane a -> (forall tr o, still o -> Q tr o) -> does before (press KRefresh a) Q.
Proof.
  intros Ha HQ. apply after_call; [done|]. intros out. pose proof (on_key_sane out KRefresh a Ha) as Hb.
  destruct (on_key out KRefresh a) as [b [| |title cs]] eqn:Hk; [by apply after_ret, HQ|by apply after_ret, HQ|].
  by apply run_confirmed in Hk as [_ [?|?]].
Qed.
Lemma does_turn before a (Q : list (event xcall) -> option App -> Prop) :
  sane a -> (forall tr o, still o -> Q tr o) -> does before (turn a) Q.
Proof.
  intros Ha HQ. apply after_call; [done|]. intros []. apply after_call; [done|]. intros key. apply after_bind.
  assert (Hd : forall tr o, still o -> does tr (when_due o) Q) by (intros; by apply does_due).
  destruct key as [key|]; [|by apply after_ret, Hd]. apply after_bind. case_bool_decide as Hr; [subst key|].
  - apply does_reread; [done|]. intros tr b Hb. by apply does_press_reread.
  - apply after_ret. apply (does_press _ a); [done| |done|done]. intros _. exists before. by rewrite <-app_assoc.
Qed.

(** C24. No unconfirmed command.  In every session, each command
    that runs is the next one of a list that the last frame showed in a
    question and that the operator answered with [y] or Enter, all before it
    having succeeded; unless the screen runs as root it starts with [sudo],
    except the build of the tree.  In every frame the cursors are on their
    lists.  The readings that refresh the screen are no commands of a list, and
    the files an installation needs are staged before its question. *)
Theorem nothing_unconfirmed (turns : nat) (paths : Paths) (machine_id : option string) :
  always (monitor turns paths euid machine_id) (fun tr _ => allowed session_may [] tr).
Proof.
  enough (does [] (monitor turns paths euid machine_id) (fun _ _ => True)) as H.
  { eapply always_mono; [|exact H]. by intros tr a [? _]. }
  apply after_bind, does_reread; [apply new_app_sane|]. intros before a. revert before a.
  induction turns as [|turns IH]; intros before a Ha; [by apply after_ret|]. apply after_bind, does_turn; [done|].
  intros tr [b|] Hb; [by apply IH|by apply after_ret].
Qed.
End Session.

(** ** The copy a restore offers *)

Lemma ascii_cmp c d : Ascii.compare c d = (ascii_code c ?= ascii_code d).
Proof. unfold Ascii.compare, ascii_code. by rewrite N2Z.inj_compare. Qed.
Lemma text_lt_trans a b c : text_lt a b = true -> text_lt b c = true -> text_lt a c = true.
Proof.
  unfold text_lt. revert b c. induction a as [|x a IH]; intros [|y b] [|z c]; try done. cbn [String.compare].
  rewrite !ascii_cmp.
  destruct (Z.compare_spec (ascii_code x) (ascii_code y)) as [Hxy|Hxy|Hxy]; [|intros _|done];
    destruct (Z.compare_spec (ascii_code y) (ascii_code z)) as [Hyz|Hyz|Hyz]; try done;
    destruct (Z.compare_spec (ascii_code x) (ascii_code z)) as [Hxz|Hxz|Hxz]; try done; try lia; apply IH.
Qed.
Definition newest_so_far (stem : string) (names : list string) (newest : option (string * string)) : Prop :=
  match newest with
  | Some (best, name) => name ∈ names /\ stamp_of stem name = Some best /\
      forall other stamp, other ∈ names -> stamp_of stem other = Some stamp -> text_lt best stamp = false
  | None => forall other, other ∈ names -> stamp_of stem other = None
  end.
Lemma newer_copy_so_far stem names newest name :
  newest_so_far stem names newest -> newest_so_far stem (names ++ [name]) (newer_copy stem newest name).
Proof.
  unfold newer_copy. destruct (stamp_of stem name) as [stamp|] eqn:Hs.
  - destruct newest as [[best b]|]; cbn.
    + intros (Hb & Hbs & Hmax). destruct (text_lt best stamp) eqn:Hlt; cbn.
      * split_and!; [set_solver|done|]. intros other s [Ho|Ho]%elem_of_app Hso.
        -- apply not_true_iff_false. intros Hn. specialize (Hmax _ _ Ho Hso). by rewrite (text_lt_trans _ _ _ Hlt Hn) in Hmax.
        -- apply list_elem_of_singleton in Ho as ->. rewrite Hs in Hso. injection Hso as <-. apply text_lt_irrefl.
      * split_and!; [set_solver|done|]. intros other s [Ho|Ho]%elem_of_app Hso; [by eapply Hmax|].
        apply list_elem_of_singleton in Ho as ->. rewrite Hs in Hso. by injection Hso as <-.
    + intros Hnone. split_and!; [set_solver|done|]. intros other s [Ho|Ho]%elem_of_app Hso; [by rewrite (Hnone _ Ho) in Hso|].
      apply list_elem_of_singleton in Ho as ->. rewrite Hs in Hso. injection Hso as <-. apply text_lt_irrefl.
  - destruct newest as [[best b]|]; cbn.
    + intros (Hb & Hbs & Hmax). split_and!; [set_solver|done|]. intros other s [Ho|Ho]%elem_of_app Hso; [by eapply Hmax|].
      apply list_elem_of_singleton in Ho as ->. by rewrite Hs in Hso.
    + intros Hnone other [Ho|Ho]%elem_of_app; [by apply Hnone|]. by apply list_elem_of_singleton in Ho as ->.
Qed.

(** A restore offers the newest copy: the one in the database's directory
    whose stamp no other copy's exceeds, whichever of the two kinds of copy
    each is; when it offers none there is none. *)
Theorem newest_backup_newest (out : Outside) (db directory stem : string) (names : list string) :
  parent db = Some directory -> path_file_name db = Some stem -> out_listing out directory = Some names ->
  match newest_backup out db with
  | Some path => exists name best, path = path_join directory name /\ name ∈ names /\ stamp_of stem name = Some best /\
      forall other stamp, other ∈ names -> stamp_of stem other = Some stamp -> text_lt best stamp = false
  | None => forall other, other ∈ names -> stamp_of stem other = None
  end.
Proof.
  intros Hd Hf Hl. unfold newest_backup. rewrite Hd. cbn. rewrite Hf. cbn. rewrite Hl. cbn.
  assert (H : forall l seen newest, newest_so_far stem seen newest -> newest_so_far stem (seen ++ l) (foldl (newer_copy stem) newest l)).
  { induction l as [|n l IH]; intros seen newest Hn; [by rewrite app_nil_r|]. cbn [foldl].
    rewrite (cons_middle n seen l), app_assoc. by apply IH, newer_copy_so_far. }
  specialize (H names [] None). cbn in H. destruct (foldl _ None names) as [[best name]|].
  - destruct H as (H1 & H2 & H3); [intros other Ho; by apply elem_of_nil in Ho|]. by exists name, best.
  - apply H. intros other Ho. by apply elem_of_nil in Ho.
Qed.

(** ** The fleet table and placement *)

Section Fleet.
Context `{TimeFormat}.
Lemma observed_health r o : scan_observation r = Ok o -> o_health o = HealthOk <-> ob_health r = "ok".
Proof.
  unfold scan_observation. cbv zeta. intros Hs.
  assert (He : o_health o = if bool_decide (ob_health r = "ok") then HealthOk else if bool_decide (ob_health r = "unreachable") then Unreachable
    else if bool_decide (ob_health r = "mismatched") then Mismatched else HealthUnknown).
  { do 5 (apply bind_Ok in Hs as (? & _ & Hs)). by injection Hs as <-. }
  rewrite He. by repeat case_bool_decide.
Qed.
(** The table says that a machine takes no instances exactly when placement
    would not consider it: the row is disabled or not active, or the last
    observation is not a good one. *)
Theorem refusal_is_placement (d : Db) (id : Z) (row : HostRow) (host : Host) (o : option Observation)
    (slots : list Slot) (instances : list Instance) (ready wanted : nat) (machine_id : option string) :
  hosts d !! id = Some row -> scan_host id row = Ok host -> fst (host_observation id d) = Ok o ->
  refusal (fleet_runner host o slots instances ready wanted machine_id) = None <->
  candidate d id /\ exists seen, host_observations d !! id = Some seen /\ ob_health seen = "ok".
Proof.
  intros Hrow Hscan Hobs.
  assert (Hh : h_enabled host = hr_enabled row /\ hr_placement row = Placement_as_str (h_placement host)).
  { unfold scan_host, parse_enum in Hscan. destruct (from_str (hr_placement row)) as [p|] eqn:Hp; [|done]. cbn in Hscan.
    destruct (parse_time (hr_created_at row)); [|done]. cbn in Hscan. injection Hscan as <-. split; [done|]. by apply from_str_Ok in Hp. }
  assert (Ho : (o_health (default never_observed o) = HealthOk) <-> exists seen, host_observations d !! id = Some seen /\ ob_health seen = "ok").
  { change (opt_res scan_observation (host_observations d !! id) = Ok o) in Hobs.
    destruct (host_observations d !! id) as [seen|]; cbn [opt_res] in Hobs.
    - destruct (scan_observation seen) as [s|] eqn:Hs; [|done]. injection Hobs as <-. cbn [default]. rewrite (observed_health _ _ Hs).
      split; [intros He; by exists seen|by intros (s' & [= <-] & He)].
    - injection Hobs as <-. split; [done|]. by intros (s & ? & _). }
  rewrite <-Ho. destruct Hh as [He Hp]. unfold refusal, candidate. cbn [fleet_runner fr_enabled fr_placement fr_observation]. rewrite He.
  split.
  - destruct (hr_enabled row) eqn:Hen; [|done]. cbn [negb]. destruct (h_placement host) eqn:Hpl; try done.
    destruct (o_health _); try done. intros _. split; [|done]. by exists row.
  - intros [(row' & Hr' & Hen & Hact) ->]. rewrite Hrow in Hr'. injection Hr' as <-. rewrite Hen. cbn [negb].
    by destruct (h_placement host); rewrite Hp in Hact.
Qed.
End Fleet.
