(* ===== verification/Migrate.v ===== *)
(** * Migrate: upgrading an old database, [crates/store/src/migrate.rs]

    A database as the migrations see it: which tables and columns it has, the
    rows they read or change, and the versions it has recorded.  Statements
    fail where SQLite would refuse them for the tables, columns, indexes and
    triggers that are there; tables that no migration reads are left out. *)

From Stdlib Require Import ZArith Lia Sorting.Sorted.
From S2P Require Import Prelude Text.
Open Scope Z_scope.

(** ** An old database *)

Record HostOld : Type := mkHostOld {
  mh_name : string; mh_machine_id : option string; mh_endpoint : option string; mh_enabled : bool; mh_placement : string;
  mh_underlay : option string
}.
Record InstanceOld : Type := mkInstanceOld { mi_host_id : Z; mi_slot : option Z }.
Record VersionOld : Type := mkVersionOld { mv_image_name : string; mv_source_digest : option string; mv_kind : string }.
Record KeyOld : Type := mkKeyOld { mk_user_id : Z; mk_fingerprint : string }.
Record TokenOld : Type := mkTokenOld { mt_user_id : Z; mt_hash : string; mt_expires_at : option string }.
Record MDb : Type := mkMDb {
  m_tables : gset string; m_columns : gset (string * string); m_versions : gmap Z (string * string);
  m_images : gmap string string; m_image_versions : gmap string VersionOld; m_sources : gmap (string * string) string;
  m_hosts : gmap Z HostOld; m_instances : gmap string InstanceOld; m_slots : gmap Z Z; m_triggers : bool;
  m_ssh_keys : gmap Z KeyOld; m_unique_fingerprints : bool; m_tokens : gmap Z TokenOld; m_expiry_not_null : bool
}.
Definition with_schema (tables : gset string) (columns : gset (string * string)) (d : MDb) : MDb :=
  mkMDb tables columns (m_versions d) (m_images d) (m_image_versions d) (m_sources d) (m_hosts d) (m_instances d) (m_slots d)
    (m_triggers d) (m_ssh_keys d) (m_unique_fingerprints d) (m_tokens d) (m_expiry_not_null d).
Definition with_versions (versions : gmap Z (string * string)) (d : MDb) : MDb :=
  mkMDb (m_tables d) (m_columns d) versions (m_images d) (m_image_versions d) (m_sources d) (m_hosts d) (m_instances d) (m_slots d)
    (m_triggers d) (m_ssh_keys d) (m_unique_fingerprints d) (m_tokens d) (m_expiry_not_null d).
Definition with_image_rows (images : gmap string string) (versions : gmap string VersionOld) (sources : gmap (string * string) string)
    (d : MDb) : MDb :=
  mkMDb (m_tables d) (m_columns d) (m_versions d) images versions sources (m_hosts d) (m_instances d) (m_slots d)
    (m_triggers d) (m_ssh_keys d) (m_unique_fingerprints d) (m_tokens d) (m_expiry_not_null d).
Definition with_machines (hosts : gmap Z HostOld) (instances : gmap string InstanceOld) (slots : gmap Z Z) (triggers : bool) (d : MDb) : MDb :=
  mkMDb (m_tables d) (m_columns d) (m_versions d) (m_images d) (m_image_versions d) (m_sources d) hosts instances slots
    triggers (m_ssh_keys d) (m_unique_fingerprints d) (m_tokens d) (m_expiry_not_null d).
Definition with_keys (keys : gmap Z KeyOld) (unique : bool) (d : MDb) : MDb :=
  mkMDb (m_tables d) (m_columns d) (m_versions d) (m_images d) (m_image_versions d) (m_sources d) (m_hosts d) (m_instances d) (m_slots d)
    (m_triggers d) keys unique (m_tokens d) (m_expiry_not_null d).
Definition with_tokens (tokens : gmap Z TokenOld) (not_null : bool) (d : MDb) : MDb :=
  mkMDb (m_tables d) (m_columns d) (m_versions d) (m_images d) (m_image_versions d) (m_sources d) (m_hosts d) (m_instances d) (m_slots d)
    (m_triggers d) (m_ssh_keys d) (m_unique_fingerprints d) tokens not_null.

(** ** Statements *)

(** A statement that names a table. *)
Definition on_table (table : string) (d : MDb) : result string unit :=
  if bool_decide (table ∈ m_tables d) then Ok tt else Err ("no such table: " +:+ table).
Definition has_column (table column : string) (d : MDb) : bool := bool_decide ((table, column) ∈ m_columns d).
(** [ALTER TABLE .. ADD COLUMN] when [has_column] says no; [fill] gives every
    row the default. *)
Definition add_column (table column : string) (fill : MDb -> MDb) (d : MDb) : result string MDb :=
  if has_column table column d then Ok d
  else _ ← on_table table d; Ok (fill (with_schema (m_tables d) ({[(table, column)]} ∪ m_columns d) d)).
(** [CREATE TABLE IF NOT EXISTS]. *)
Definition create_table (table : string) (d : MDb) : result string MDb :=
  Ok (with_schema ({[table]} ∪ m_tables d) (m_columns d) d).
Definition update_hosts (f : HostOld -> HostOld) (d : MDb) : MDb :=
  with_machines (f <$> m_hosts d) (m_instances d) (m_slots d) (m_triggers d) d.

(** ** The migrations *)

(** [image_source_columns].  [INSERT OR IGNORE .. SELECT] keeps the first row
    of a key in the order of the scan. *)
Definition known_source (sources : gmap (string * string) string) (v : string * VersionOld) : gmap (string * string) string :=
  match mv_source_digest v.2 with
  | Some digest =>
      let key := (mv_image_name v.2, digest) in
      match sources !! key with Some _ => sources | None => <[key := v.1]> sources end
  | None => sources
  end.
Definition image_source_columns (d : MDb) : result string MDb :=
  d ← add_column "images" "kind" (fun d => with_image_rows ((fun _ => "qcow2") <$> m_images d) (m_image_versions d) (m_sources d) d) d;
  d ← add_column "image_versions" "source_digest"
        (fun d => with_image_rows (m_images d) ((fun v => mkVersionOld (mv_image_name v) None (mv_kind v)) <$> m_image_versions d) (m_sources d) d) d;
  d ← add_column "image_versions" "kind"
        (fun d => with_image_rows (m_images d)
           ((fun v => mkVersionOld (mv_image_name v) (mv_source_digest v) (match mv_source_digest v with Some _ => "oci" | None => "qcow2" end)) <$> m_image_versions d)
           (m_sources d) d) d;
  _ ← on_table "image_source_versions" d;
  Ok (with_image_rows (m_images d) (m_image_versions d) (foldl known_source (m_sources d) (map_to_list (m_image_versions d))) d).

(** [SELECT MIN(id)]. *)
Definition least_id {V} (rows : gmap Z V) : option Z :=
  foldr (fun id least => Some (match least with Some l => Z.min id l | None => id end)) None (map_to_list rows).*1.
(** [host_machine_id]: the rows that go must not own a slot. *)
Definition host_machine_id (d : MDb) : result string MDb :=
  d ← add_column "hosts" "machine_id"
        (update_hosts (fun h => mkHostOld (mh_name h) None (mh_endpoint h) (mh_enabled h) (mh_placement h) (mh_underlay h))) d;
  match least_id (m_hosts d) with
  | None => Ok d
  | Some keep =>
      _ ← on_table "instances" d;
      if bool_decide (map_Forall (fun _ owner => owner = keep) (m_slots d)) then
        Ok (with_machines (filter (fun e => e.1 = keep) (m_hosts d)) ((fun i => mkInstanceOld keep (mi_slot i)) <$> m_instances d)
              (m_slots d) (m_triggers d) d)
      else Err "FOREIGN KEY constraint failed"
  end.

(** [runners_and_slots]: one slot, every instance in it, and the triggers that
    keep it so. *)
Definition owns_slot (slots : gmap Z Z) (i : InstanceOld) : Prop :=
  match mi_slot i with Some slot => slots !! slot = Some (mi_host_id i) | None => True end.
#[global] Instance owns_slot_dec slots i : Decision (owns_slot slots i).
Proof. unfold owns_slot. destruct (mi_slot i); apply _. Defined.
Definition in_slot (i : InstanceOld) : InstanceOld :=
  match mi_slot i with Some _ => i | None => mkInstanceOld (mi_host_id i) (Some 0) end.
Definition runners_and_slots (d : MDb) : result string MDb :=
  d ← add_column "hosts" "endpoint"
        (update_hosts (fun h => mkHostOld (mh_name h) (mh_machine_id h) None (mh_enabled h) (mh_placement h) (mh_underlay h))) d;
  d ← add_column "hosts" "enabled"
        (update_hosts (fun h => mkHostOld (mh_name h) (mh_machine_id h) (mh_endpoint h) true (mh_placement h) (mh_underlay h))) d;
  d ← add_column "hosts" "placement"
        (update_hosts (fun h => mkHostOld (mh_name h) (mh_machine_id h) (mh_endpoint h) (mh_enabled h) "active" (mh_underlay h))) d;
  d ← add_column "instances" "slot"
        (fun d => with_machines (m_hosts d) ((fun i => mkInstanceOld (mi_host_id i) None) <$> m_instances d) (m_slots d) (m_triggers d) d) d;
  d ← match least_id (m_hosts d) with
      | None => Ok d
      | Some host =>
          _ ← on_table "runner_slots" d;
          let slots := match m_slots d !! 0 with Some _ => m_slots d | None => <[0 := host]> (m_slots d) end in
          if m_triggers d && negb (bool_decide (map_Forall (fun _ i => mi_slot i = None -> owns_slot slots (in_slot i)) (m_instances d)))
          then Err "instance host does not own its slot"
          else Ok (with_machines (m_hosts d) (in_slot <$> m_instances d) slots (m_triggers d) d)
      end;
  Ok (with_machines (m_hosts d) (m_instances d) (m_slots d) true d).

Definition host_observations (d : MDb) : result string MDb := create_table "host_observations" d.
Definition host_images (d : MDb) : result string MDb := create_table "host_images" d.
Definition host_underlay (d : MDb) : result string MDb :=
  add_column "hosts" "underlay"
    (update_hosts (fun h => mkHostOld (mh_name h) (mh_machine_id h) (mh_endpoint h) (mh_enabled h) (mh_placement h) None)) d.
Definition dispatch_generations (d : MDb) : result string MDb := create_table "dispatch_generations" d.

(** [unique_ssh_key_fingerprints]. *)
Definition contested (keys : gmap Z KeyOld) (fingerprint : string) : Prop :=
  ~ map_Forall (fun _ k => map_Forall (fun _ k' => mk_fingerprint k = fingerprint -> mk_fingerprint k' = fingerprint -> mk_user_id k = mk_user_id k') keys) keys.
Definition oldest (keys : gmap Z KeyOld) (id : Z) (fingerprint : string) : Prop :=
  map_Forall (fun id' k => mk_fingerprint k = fingerprint -> id <= id') keys.
#[global] Instance contested_dec keys fingerprint : Decision (contested keys fingerprint).
Proof. unfold contested. apply _. Defined.
#[global] Instance oldest_dec keys id fingerprint : Decision (oldest keys id fingerprint).
Proof. unfold oldest. apply _. Defined.
Definition fingerprints_unique (keys : gmap Z KeyOld) : Prop :=
  map_Forall (fun id k => oldest keys id (mk_fingerprint k)) keys.
#[global] Instance fingerprints_unique_dec keys : Decision (fingerprints_unique keys).
Proof. unfold fingerprints_unique. apply _. Defined.
Definition unique_ssh_key_fingerprints (d : MDb) : result string MDb :=
  if m_unique_fingerprints d then Ok d
  else
    _ ← on_table "ssh_keys" d;
    let keys := filter (fun e => ~ contested (m_ssh_keys d) (mk_fingerprint e.2)) (m_ssh_keys d) in
    let keys := filter (fun e => oldest keys e.1 (mk_fingerprint e.2)) keys in
    if bool_decide (fingerprints_unique keys) then Ok (with_keys keys true d) else Err "UNIQUE constraint failed: ssh_keys.fingerprint".

(** [nullable_token_expiry]. *)
Definition EPOCH : string := "1970-01-01T00:00:00Z".
Definition never_expires (t : TokenOld) : TokenOld :=
  mkTokenOld (mt_user_id t) (mt_hash t) (if bool_decide (mt_expires_at t = Some EPOCH) then None else mt_expires_at t).
Definition nullable_token_expiry (d : MDb) : result string MDb :=
  _ ← on_table "tokens" d;
  Ok (with_tokens (never_expires <$> m_tokens d) false d).

Record Migration : Type := mkMigration { mg_version : Z; mg_name : string; mg_run : MDb -> result string MDb }.
Definition MIGRATIONS : list Migration := [
  mkMigration 1 "image_source_columns" image_source_columns;
  mkMigration 2 "host_machine_id" host_machine_id;
  mkMigration 3 "runners_and_slots" runners_and_slots;
  mkMigration 4 "host_observations" host_observations;
  mkMigration 5 "host_images" host_images;
  mkMigration 6 "host_underlay" host_underlay;
  mkMigration 7 "dispatch_generations" dispatch_generations;
  mkMigration 8 "unique_ssh_key_fingerprints" unique_ssh_key_fingerprints;
  mkMigration 9 "nullable_token_expiry" nullable_token_expiry ].

(** ** [apply] *)

Definition current_version (d : MDb) : Z := foldr Z.max 0 (map_to_list (m_versions d)).*1.
Definition record_version (m : Migration) (applied_at : string) (d : MDb) : MDb :=
  with_versions (<[mg_version m := (mg_name m, applied_at)]> (m_versions d)) d.
Section Apply.
(** [broken v]: the transaction of migration [v] fails for a reason outside
    the database; [now v]: the time recorded with it. *)
Context (broken : Z -> bool) (now : Z -> result string string).
(** One immediate transaction: both the work and its record, or neither. *)
Definition migrate_one (m : Migration) (d : MDb) : result string MDb :=
  if broken (mg_version m) then Err "disk I/O error"
  else d ← mg_run m d; applied_at ← now (mg_version m); Ok (record_version m applied_at d).
Fixpoint migrate_all (ms : list Migration) (d : MDb) : MDb * result string unit :=
  match ms with
  | [] => (d, Ok tt)
  | m :: ms => match migrate_one m d with Ok d => migrate_all ms d | Err e => (d, Err e) end
  end.
Definition pending (d : MDb) : list Migration := filter (fun m => current_version d < mg_version m) MIGRATIONS.
Definition apply (d : MDb) : MDb * result string unit :=
  let d := with_schema ({["schema_migrations"]} ∪ m_tables d) (m_columns d) d in
  migrate_all (pending d) d.
End Apply.

(** ** An interrupted upgrade *)

Lemma MIGRATIONS_sorted : StronglySorted (fun a b => mg_version a < mg_version b) MIGRATIONS.
Proof. repeat constructor. Qed.
Lemma pending_rest (l : list Migration) c m rest :
  StronglySorted (fun a b => mg_version a < mg_version b) l -> filter (fun m => c < mg_version m) l = m :: rest ->
  filter (fun m' => mg_version m < mg_version m') l = rest.
Proof.
  induction 1 as [|x l Hs IH Hx]; [done|]. rewrite filter_cons. case_decide as Hc.
  - intros [= <- <-]. rewrite filter_cons, decide_False by lia.
    rewrite Forall_forall in Hx. rewrite !filter_all; [done|..]; intros y Hy; specialize (Hx y Hy); lia.
  - intros Hf. assert (c < mg_version m) by (apply (list_elem_of_filter (fun m => c < mg_version m) l m); rewrite Hf; by left).
    rewrite filter_cons, decide_False by lia. by apply IH.
Qed.
Lemma max_ids (l : list Z) : 0 <= foldr Z.max 0 l /\ (forall x, x ∈ l -> x <= foldr Z.max 0 l) /\
  (foldr Z.max 0 l = 0 \/ foldr Z.max 0 l ∈ l).
Proof.
  induction l as [|y l (H1 & H2 & H3)]; [split_and!; [done|set_solver|by left]|]. cbn. split_and!; [lia| |].
  - intros x [->|Hx]%elem_of_cons; [lia|specialize (H2 x Hx); lia].
  - destruct (Z.max_spec y (foldr Z.max 0 l)) as [[_ ->]|[_ ->]]; set_solver.
Qed.
Lemma ids_in (rows : gmap Z (string * string)) x : x ∈ (map_to_list rows).*1 <-> is_Some (rows !! x).
Proof.
  rewrite list_elem_of_fmap. split.
  - intros ([k v] & -> & Hk). apply elem_of_map_to_list in Hk. by exists v.
  - intros [v Hv]. exists (x, v). split; [done|by apply elem_of_map_to_list].
Qed.
Lemma current_recorded m applied_at d : current_version d < mg_version m -> current_version (record_version m applied_at d) = mg_version m.
Proof.
  unfold current_version, record_version. cbn [m_versions with_versions]. intros Hm.
  destruct (max_ids (map_to_list (m_versions d)).*1) as (H0 & Hle & _).
  destruct (max_ids (map_to_list (<[mg_version m := (mg_name m, applied_at)]> (m_versions d))).*1) as (G0 & Gle & Gin).
  assert (mg_version m <= foldr Z.max 0 (map_to_list (<[mg_version m := (mg_name m, applied_at)]> (m_versions d))).*1).
  { apply Gle, ids_in. rewrite lookup_insert_eq. by eexists. }
  destruct Gin as [Gz|Gin]; [lia|]. apply ids_in in Gin. destruct (decide (mg_version m = foldr Z.max 0 (map_to_list (<[mg_version m := (mg_name m, applied_at)]> (m_versions d))).*1)) as [He|Hne]; [done|].
  rewrite lookup_insert_ne in Gin by done. apply ids_in, Hle in Gin. lia.
Qed.

(** No migration touches the record of versions or drops a table. *)
Definition kept (d d' : MDb) : Prop := m_versions d' = m_versions d /\ m_tables d ⊆ m_tables d'.
Lemma kept_trans d1 d2 d3 : kept d1 d2 -> kept d2 d3 -> kept d1 d3.
Proof. intros [E1 H1] [E2 H2]. split; [congruence|by etransitivity]. Qed.
Lemma add_column_kept t c fill d d' : (forall d, kept d (fill d)) -> add_column t c fill d = Ok d' -> kept d d'.
Proof.
  intros Hf. unfold add_column. destruct (has_column t c d); [by intros [= <-]|]. destruct (on_table t d); [|done]. cbn. intros [= <-].
  exact (Hf _).
Qed.
Ltac added H := apply bind_Ok in H as (? & ?%add_column_kept & H); [eapply kept_trans; [eassumption|]|done].
Lemma migration_kept m d d' : m ∈ MIGRATIONS -> mg_run m d = Ok d' -> kept d d'.
Proof.
  intros Hm H. repeat (apply elem_of_cons in Hm as [->|Hm]); [..|by apply elem_of_nil in Hm]; cbn [mg_run] in H.
  - unfold image_source_columns in H. do 3 added H. destruct (on_table _ _); [|done]. cbn in H. by injection H as <-.
  - unfold host_machine_id in H. added H. destruct (least_id _); [|by injection H as <-]. destruct (on_table _ _); [|done].
    cbn in H. case_bool_decide; [|done]. by injection H as <-.
  - unfold runners_and_slots in H. do 4 added H. apply bind_Ok in H as (d5 & H5 & H). injection H as <-.
    destruct (least_id _); [|by injection H5 as <-]. destruct (on_table _ _); [|done]. cbn in H5. destruct (_ && _); [done|]. by injection H5 as <-.
  - injection H as <-. split; [done|set_solver].
  - injection H as <-. split; [done|set_solver].
  - by apply add_column_kept in H.
  - injection H as <-. split; [done|set_solver].
  - unfold unique_ssh_key_fingerprints in H. destruct (m_unique_fingerprints d); [by injection H as <-|].
    destruct (on_table _ _); [|done]. cbn in H. case_bool_decide; [|done]. by injection H as <-.
  - unfold nullable_token_expiry in H. destruct (on_table _ _); [|done]. cbn in H. by injection H as <-.
Qed.
Lemma migrate_one_pending broken now m rest d d' :
  pending d = m :: rest -> migrate_one broken now m d = Ok d' -> pending d' = rest /\ migrate_one (fun _ => false) now m d = Ok d'.
Proof.
  intros Hp. unfold migrate_one. destruct (broken (mg_version m)); [done|]. intros H. split; [|done].
  assert (Hm : m ∈ MIGRATIONS /\ current_version d < mg_version m).
  { apply and_comm, (list_elem_of_filter (fun m => current_version d < mg_version m)). fold (pending d). rewrite Hp. by left. }
  apply bind_Ok in H as (d1 & H1 & H). apply bind_Ok in H as (s & _ & H). injection H as <-. apply migration_kept in H1 as [H1 _]; [|apply Hm].
  assert (Hc : current_version d1 = current_version d) by (unfold current_version; by rewrite H1).
  unfold pending. rewrite current_recorded by (rewrite Hc; apply Hm). exact (pending_rest _ _ _ _ MIGRATIONS_sorted Hp).
Qed.
Lemma migrate_resumes broken now ms d :
  pending d = ms ->
  let d1 := fst (migrate_all broken now ms d) in
  migrate_all (fun _ => false) now (pending d1) d1 = migrate_all (fun _ => false) now ms d.
Proof.
  revert d. induction ms as [|m ms IH]; intros d Hp; cbn [migrate_all fst]; [by rewrite Hp|].
  destruct (migrate_one broken now m d) as [d2|e] eqn:Hm; cbn [fst].
  - destruct (migrate_one_pending _ _ _ _ _ _ Hp Hm) as [Hp2 ->]. by apply IH.
  - by rewrite Hp.
Qed.

Lemma migrate_all_tables broken now ms d : ms ⊆ MIGRATIONS -> m_tables d ⊆ m_tables (fst (migrate_all broken now ms d)).
Proof.
  revert d. induction ms as [|m ms IH]; intros d Hm; [done|]. cbn [migrate_all]. destruct (migrate_one broken now m d) as [d'|e] eqn:Ho; [|done].
  etransitivity; [|apply IH; set_solver]. unfold migrate_one in Ho. destruct (broken _); [done|].
  apply bind_Ok in Ho as (d1 & H1 & Ho). apply bind_Ok in Ho as (s & _ & Ho). injection Ho as <-.
  apply migration_kept in H1 as [_ H1]; [done|]. set_solver.
Qed.
Lemma with_table_known t d : t ∈ m_tables d -> with_schema ({[t]} ∪ m_tables d) (m_columns d) d = d.
Proof. intros Ht. destruct d. unfold with_schema. cbn in *. f_equal. set_solver. Qed.

(** An interrupted upgrade is finished by the next start.  Wherever the
    upgrade of a database stops, and however often, starting again gives
    exactly what one undisturbed upgrade of the original gives: every
    migration runs once, in order, with its record or not at all. *)
Theorem upgrade_resumes (broken : Z -> bool) (now : Z -> result string string) (d : MDb) :
  apply (fun _ => false) now (fst (apply broken now d)) = apply (fun _ => false) now d.
Proof.
  unfold apply. set (d0 := with_schema _ _ d). rewrite with_table_known.
  - by apply migrate_resumes.
  - apply (migrate_all_tables broken now (pending d0) d0); [|unfold d0; set_solver]. intros m Hm. by apply list_elem_of_filter in Hm as [_ ?].
Qed.

(** ** What the migrations decide *)

(** Nobody keeps a key that two people claimed.  Making fingerprints
    unique never fails; the keys it leaves are exactly the oldest ones of
    fingerprints that one user alone had registered, so each fingerprint
    names one account and no login is given to a guess. *)
Theorem contested_keys_removed (d : MDb) :
  "ssh_keys" ∈ m_tables d -> m_unique_fingerprints d = false ->
  exists d', unique_ssh_key_fingerprints d = Ok d' /\ m_unique_fingerprints d' = true /\
    (forall id k, m_ssh_keys d' !! id = Some k <->
       m_ssh_keys d !! id = Some k /\
       forall id' k', m_ssh_keys d !! id' = Some k' -> mk_fingerprint k' = mk_fingerprint k -> mk_user_id k' = mk_user_id k /\ id <= id') /\
    (forall id id' k k', m_ssh_keys d' !! id = Some k -> m_ssh_keys d' !! id' = Some k' -> mk_fingerprint k = mk_fingerprint k' -> id = id').
Proof.
  intros Ht Hu. unfold unique_ssh_key_fingerprints. rewrite Hu. unfold on_table. rewrite (bool_decide_eq_true_2 _ Ht). cbn [mbind result_bind].
  set (sole := filter _ (m_ssh_keys d)). set (left := filter _ sole).
  assert (Hsole : forall id k, sole !! id = Some k <-> m_ssh_keys d !! id = Some k /\
    forall id' k', m_ssh_keys d !! id' = Some k' -> mk_fingerprint k' = mk_fingerprint k -> mk_user_id k' = mk_user_id k).
  { intros id k. unfold sole. rewrite map_lookup_filter_Some. cbn. split; intros [Hk Hc]; (split; [done|]).
    - intros id' k' Hk' Hf. apply dec_stable in Hc. exact (Hc id' k' Hk' id k Hk Hf eq_refl).
    - intros Hn. apply Hn. intros i1 k1 H1 i2 k2 H2 F1 F2. pose proof (Hc _ _ H1 F1). pose proof (Hc _ _ H2 F2). congruence. }
  assert (Hleft : forall id k, left !! id = Some k <-> m_ssh_keys d !! id = Some k /\
    forall id' k', m_ssh_keys d !! id' = Some k' -> mk_fingerprint k' = mk_fingerprint k -> mk_user_id k' = mk_user_id k /\ id <= id').
  { intros id k. unfold left. rewrite map_lookup_filter_Some, Hsole. cbn. split.
    - intros [[Hk Hc] Ho]. split; [done|]. intros id' k' Hk' Hf. split; [by eapply Hc|]. apply (Ho id' k'); [|done].
      apply Hsole. split; [done|]. intros i j Hj Hfj. rewrite (Hc i j Hj) by congruence. by rewrite (Hc id' k' Hk' Hf).
    - intros [Hk Hc]. split_and!; [done|by intros; eapply Hc|]. intros id' k' [Hk' _]%Hsole Hf. by eapply Hc. }
  assert (Huniq : forall id id' k k', left !! id = Some k -> left !! id' = Some k' -> mk_fingerprint k = mk_fingerprint k' -> id = id').
  { intros id id' k k' [Hk Hc]%Hleft [Hk' Hc']%Hleft Hf. destruct (Hc id' k' Hk' (eq_sym Hf)), (Hc' id k Hk Hf). lia. }
  rewrite bool_decide_eq_true_2.
  - eexists. split; [done|]. split; [done|]. split; [exact Hleft|exact Huniq].
  - intros id k Hk id' k' Hk' Hf. by rewrite (Huniq _ _ _ _ Hk Hk' (eq_sym Hf)).
Qed.
Lemma contested_keys_removed_witness :
  exists d', unique_ssh_key_fingerprints
    (mkMDb {["ssh_keys"]} ∅ ∅ ∅ ∅ ∅ ∅ ∅ ∅ false
       (<[1 := mkKeyOld 1 "squatted"]> (<[2 := mkKeyOld 2 "squatted"]> (<[3 := mkKeyOld 2 "own"]> ∅))) false ∅ true) = Ok d'.
Proof. edestruct contested_keys_removed as (d' & Hd & _); [| |exists d'; exact Hd]; [set_solver|done]. Defined.

(** The copy of a database from before the runners, put back without the
    tables of [schema.sql], cannot be upgraded: [restore_db] runs the
    migrations alone. *)
Theorem old_copy_not_upgraded (broken : Z -> bool) (now : Z -> result string string) (d : MDb) :
  current_version d = 0 -> "image_source_versions" ∉ m_tables d ->
  exists e, snd (apply broken now d) = Err e.
Proof.
  intros Hc Ht. unfold apply. set (d0 := with_schema _ _ d).
  assert (Hp : exists rest, pending d0 = mkMigration 1 "image_source_columns" image_source_columns :: rest).
  { unfold pending. change (current_version d0) with (current_version d). rewrite Hc. eexists. reflexivity. }
  destruct Hp as [rest ->]. cbn [migrate_all]. destruct (migrate_one _ _ _ d0) as [d1|e] eqn:Hm; [|by exists e]. exfalso.
  unfold migrate_one in Hm. destruct (broken _); [done|]. cbn [mg_run] in Hm.
  apply bind_Ok in Hm as (d2 & H & _). unfold image_source_columns in H.
  assert (Hk : forall t c fill a b, (forall d, m_tables (fill d) = m_tables d) -> add_column t c fill a = Ok b -> m_tables b = m_tables a).
  { intros t c fill a b Hf. unfold add_column. destruct (has_column t c a); [by intros [= <-]|]. destruct (on_table t a); [|done].
    cbn. intros [= <-]. by rewrite Hf. }
  do 3 (apply bind_Ok in H as (? & ?%Hk & H); [|done]). apply bind_Ok in H as ([] & H & _).
  unfold on_table in H. case_bool_decide as Hin; [|done]. apply Ht.
  assert (E : m_tables d0 = {["schema_migrations"]} ∪ m_tables d) by done.
  cut ("image_source_versions" ∈ m_tables d0); [rewrite E; set_solver|]. congruence.
Qed.
